(* ===== verification/_CoqProject ===== *)
-Q . S2P
Prelude.v
Text.v
Utf8.v
Bytes.v
StableSort.v
Json.v
JsonText.v
SnapshotCodec.v
SnapshotCodecTheory.v
Schema.v
Coerce.v
FileSet.v
Contract.v
Checkpoint.v
Coordination.v
ServiceState.v
Cutover.v
Commits.v
CutoverTheory.v
Service.v
CommitTheory.v
QueueTheory.v
Immutability.v
ServiceDemo.v
Raft.v
QueryPath.v
Float.v
Pruning.v
Planner.v
SqlText.v
PlannerTheory.v
SnapshotLookup.v
SnapshotLookupTheory.v
SnapshotServing.v
SnapshotServingTheory.v
TopK.v
TopKTheory.v
Aggregates.v
AggregatesTheory.v
ExactSidecars.v
Provider.v
ServingExec.v
ExactTheory.v
ServingExecTheory.v
ActiveLookup.v
RedisWire.v
RedisCommands.v
RedisTheory.v
SqlExpr.v
SearchPlan.v
ElasticParser.v
Painless.v
PainlessTheory.v
DateMath.v
PeerHits.v
SearchAggs.v
SearchAggTheory.v
SearchCompile.v
PeerSearch.v
SearchExecute.v
SearchExecuteTheory.v
Ingest.v
IngestTheory.v
MongoFind.v
MongoCommands.v
MongoWire.v
MongoTheory.v
MongoCursorTheory.v
MongoDemo.v
DynamoAttr.v
DynamoFilter.v
DynamoFilterTheory.v
DynamoUpdate.v
DynamoItems.v
DynamoKeys.v
DynamoQuery.v
DynamoKeysTheory.v
DynamoQueryTheory.v
DynamoScan.v
DynamoScanTheory.v
