(* ===== verification/Prelude.v ===== *)
(** * Powdrr engine: a verification library

    The repository is a search and serving engine over lakehouse tables.  Writers send
    documents and rows; small fresh files ("speedboat" files) and Iceberg files make up a
    table; an indexing extension builds search files ("es") for them; serving nodes answer
    queries from one agreed version of every table, and clients speak to them through an
    Elasticsearch-like search language or through the Redis, MongoDB and DynamoDB
    protocols.  What keeps this together is the metadata service: it stores for each table
    a chain of immutable _checkpoints_ (the files, deletes, schema and extension coverage
    of one version), hands out indexing, compaction and cleanup work, and moves the version
    readers use from one checkpoint to the next by a cutover protocol.  This library models
    the metadata service and its replicated variant with the data they are built on, the
    path of a serving query from its validation to the merged answer, searches from their
    text to the merged hits and aggregations, the writing of documents, and the three
    protocol front ends.

    ** How the code is modelled

    Operations are functions one can evaluate.  A fallible Rust function returns an
    [outcome] or a [result]: a value, an error, or a panic ([unwrap], [assert!], an explicit
    [panic!], an index out of range).  A method with [&mut self] is an [ST] computation on an
    explicit state that keeps the mutations made before a failure.  The locks of the services
    are held for the whole of an operation, so interleavings of clients are sequences of
    operations; a request of a front end sees one state of the state provider.  [HashMap]s
    are [gmap]s; where the code iterates over one, the order is given by [HashOrder], an
    arbitrary permutation, and every theorem holds for all orders; the order in which
    concurrent tasks complete is [CompletionOrder] in the same way.  JSON objects keep the
    order of insertion.  Machine integers that can overflow wrap ([wrap_u64]); doubles are
    pairs of a mantissa and an exponent, rounded to 53 bits.  A comment [SRC path:a-b symbol]
    in front of a definition names the lines under src/ it translates.

    Code that is not in the repository is a parameter: a class with the operations that are
    called, and, where a theorem needs it, a class of laws with what is documented of them.
    Each has a concrete instance in a [Demo] module, on which the theorems are applied.
    - [Environment], [IdGeneratorLaws]: clock, ids, the standard library's hash.
    - [JsonText] (serde_json's text: documents without fractions read back, within the
      recursion limit), [FloatText], [FloatDisplay], [Float32Display], [CastText],
      [Chrono], [DateLibrary], [SelectNth], [KeyHasher], [Bson]: formats, dates, the partial
      sort and the hash of the libraries.
    - [RaftLibrary] with [RaftLibraryLaws] (an acknowledged write is applied) and
      [StableLeader]; [StateProvider]: the client of the metadata service.
    - [SnapshotSource], [SidecarSource], [SearchEngine], [SqlEngine], [ServingPath],
      [ItemStore], [DocumentStore]: object storage, Parquet and DataFusion, as what a query
      of a group of files returns and what is written.
    Functions for the peers of a search, the decoding of find documents, debug texts and the
    legacy path of the search executor are arguments of the definitions that call them.

    ** Files

    Foundations.
    - [Prelude]: outcomes, the state monad with a weakest-precondition calculus ([wp]) and
      relational frames ([st_rel], with a hint database), strings, integers, the environment,
      hash-map iteration.  [Text], [Utf8], [Bytes]: decimal numbers, splitting and replacing,
      characters and their order, byte buffers.  [StableSort]: sorting and the best k.
      [Json], [JsonText], [Float]: documents, their text, arithmetic of doubles.

    The control plane and the metadata service.
    - [Schema], [Coerce] (control_plane/src/schema_massager.rs): schemas, [merge_from], and
      the coercion of documents.
    - [FileSet], [Contract], [Checkpoint] (control_plane/src/data_contract.rs,
      checkpoint_descriptor.rs, pipeline.rs, ilm_policy.rs, test_api.rs): the columnar file
      sets with their removal loop and sharding; the records the services exchange;
      checkpoints, their coverage, and commits applied to them.
    - [Coordination] (service_lib/src/metadata_store.rs, read_only_coordination.rs): the trait
      [MetadataStore] as a class with its default methods, and the state a reader derives.
    - [ServiceState], [Cutover], [Commits] (service_lib/src/ephemeral_service_impl.rs): the
      state and its snapshots; targets, epochs, membership views, leases, acknowledgements,
      promotion and the publication pass; the commit handlers, work queues and registries.
      [CutoverTheory], [Service], [CommitTheory], [QueueTheory], [Immutability]: its theory;
      [Service] makes the operations the commands of a transition system ([Command],
      [run_command], [reachable]).  [ServiceDemo] runs a trace and instantiates the theorems.
    - [Raft] (service_lib/src/raft_service_impl.rs): the replicated service, every operation
      over a snapshot in the state machine of a Raft library.

    Serving queries (query_core, query_runtime/src/lakehouse_serving.rs,
    elastic_search_index.rs).
    - [QueryPath], [Pruning]: comparison of scalars, tests on statistics and partition values,
      the files to read.  [Planner], [PlannerTheory]: validation, patterns, admission and
      classification.  [SqlText]: the statement text and a reader for it.
    - [SnapshotCodec], [SnapshotLookup], [SnapshotServing] with their theories: the file format
      of snapshots, the indexes over them, the caches and batches of point lookups.
    - [TopK], [Aggregates] with their theories: groups of files in order or in parallel, merged
      rows and merged partial aggregates.  [ExactSidecars], [ExactTheory]: exact indexes and
      summaries.  [Provider]: the state provider.  [ServingExec], [ServingExecTheory]: the whole
      execution.  [ActiveLookup] (query_server/src/exact_lookup.rs): the active checkpoint.

    Searches.
    - [SqlExpr], [SearchPlan] (query_core), [ElasticParser] (elastic_search_parser.rs),
      [Painless], [PainlessTheory] (control_plane/src/painless_parser.rs), [DateMath]: plans and
      the languages they are read from.
    - [SearchCompile], [SearchExecute] (search_executor.rs), [PeerHits], [PeerSearch]
      (private_api.rs, search_runtime.rs), [SearchAggs] (with peers.rs): compilation, the
      coordinator, one peer, aggregations.  [SearchExecuteTheory], [SearchAggTheory].
    - [Ingest], [IngestTheory] (elastic_search_ingest.rs, elastic_search_storage_schema.rs,
      distributed_cache.rs, query_lib/src/speedboat_buffer.rs): the writing of documents.

    Protocols (query_server).
    - [RedisWire], [RedisCommands], [RedisTheory]; [MongoFind], [MongoCommands], [MongoWire],
      [MongoTheory], [MongoCursorTheory], [MongoDemo].
    - [DynamoAttr], [DynamoFilter], [DynamoUpdate], [DynamoItems], [DynamoKeys], [DynamoQuery],
      [DynamoScan] and the theories of filters, keys, queries and scans.

    ** What is shown

    - Data: a schema merge is the least upper bound of its arguments and panics only where
      there is none; coercion completes documents and keeps what they have at every depth; the
      removal loop is a filter and reaches its exit test; coverage counting agrees with its
      definition; descriptors and snapshots round-trip.
    - Cutover: promotion happens exactly on full evidence of the current epoch, in one step
      and in a whole pass, and changes nothing but the pointer and this selector's membership
      records; the protocol completes once all nodes answer; the invariant that ties views,
      epochs and acknowledgements together holds in every reachable state.
    - Commits: data and iceberg commits of a correct client (no aliases, well-formed file
      lists) cannot hit the handlers' panics, and what they install is characterised field by
      field; stored checkpoints never change but for growing coverage under commands that draw
      their ids; latest and active pointers always name stored checkpoints.  Within a lease
      nothing is handed out twice while the queue is left alone.
    - Replication: a node that stays leader refines the ephemeral service over whole histories.
    - Serving: pruning keeps every file with a matching row; planning is characterised exactly;
      the text of a statement reads back as the statement; an executed query returns the best
      rows of all files although files are skipped, rows looked up and groups cut short;
      snapshots read back, stay in bounds on any bytes, and answer as a scan does while what is
      kept is right; merged aggregates are the aggregates of all rows.
    - Searches: a page is a page of the best hits of all peers; partial aggregations merge to
      the aggregations of all rows; histograms are filled; painless programs parse back and the
      parser terminates.  Ingest: a table of documents behaves as a map from identifiers to
      versioned documents.
    - Protocols: Redis connections answer from the table as a map; MongoDB batches are the whole
      answer and hostile bytes end a connection; DynamoDB attributes round-trip, filters parse
      by their grammar and mean what DynamoDB says, within a stated scope, updates and puts
      install what they say, queries are served on the fast path, and the pages of a scan are
      the table.
    The conditions of each theorem (integers within 53 bits, one kind per column, kept state
    that is right) are named in its comment.

    Theorems in the [Demo] modules exhibit behaviour the code hardly intends, among it what
    lies outside those conditions: a commit through an alias that makes a table uncommittable,
    an acknowledged write of a new leader that is dropped, a snapshot of pruned files that is
    kept for all requests, a size that never equals a number, an interval that exhausts memory.

    ** Bounds

    Recursion follows the data except where the code loops.  There the fuel is computed from
    the input; for the loops of parsers, connections and removals running out is a panic or an
    absent result of its own, which the theorems named here exclude, and the loops on characters
    consume one with every round.
    - The removal loop of a file set: the number of files plus one ([remove_exact]).
    - Splitting words, replacing, the readers of SQL text, the tokenisers of filters, updates,
      query strings and scripts: the length of the text, plus one for the last.
    - Printing a number: its binary length.  The parsers of filters, query strings and Painless:
      the number of tokens plus one or two ([filter_parser_exact], [painless_parser_terminates]).
    - Connections: one round more than the input has bytes or commands ([hostile_streams_end],
      [connection_serves_the_table]); the sections of a MongoDB message: its length plus one.
    - The visitor of a snapshot row: the length of the row; the filling of a histogram: the span
      over the interval plus two ([histogram_is_filled]); the pages of a scan: one per row
      ([scan_pages_complete]).

    ** What is not modelled

    Arrow, Parquet, DataFusion, Iceberg and object-store access and the functions registered
    with them, which are calls into libraries; HTTP routing, request decoding, configuration and
    process start-up; the DynamoDB-backed metadata service, whose behaviour is that of conditional
    writes of an external database; the client-side caches of the state providers, of which the
    class [StateProvider] has what is used; the evaluation of scripts and ingest pipelines; file
    compaction and the writing of search files.  Statistics kept about the bulk cache, poisoned
    mutexes, allocation failure and thread scheduling inside an operation are left out of the
    parts that are modelled. *)

From stdpp Require Export base gmap strings list sorting.
From Stdlib Require Export ZArith Lia.
From Stdlib Require Export Ascii.
From Corelib Require Export ssreflect.
#[global] Open Scope general_if_scope.

(** ** Outcomes of Rust code

    A fallible Rust function either returns a value, returns an error, or
    panics ([panic!], [assert!], [unwrap] on [None], [todo!], an index out of
    range).  The error of the metadata services is
    [ServiceApiError { message }], so [outcome] is [result string]; the
    protocol front ends have errors of their own. *)

Inductive result (E A : Type) : Type :=
| Ok (a : A)
| Err (error : E)
| Panic (reason : string).
Arguments Ok {E A} a.
Arguments Err {E A} error.
Arguments Panic {E A} reason.

Abbreviation outcome := (result string).

#[global] Instance outcome_ret {E} : MRet (result E) := λ A a, Ok a.
#[global] Instance outcome_bind {E} : MBind (result E) := λ A B k m,
  match m with
  | Ok a => k a
  | Err e => Err e
  | Panic r => Panic r
  end.
#[global] Instance outcome_fmap {E} : FMap (result E) := λ A B f m,
  match m with
  | Ok a => Ok (f a)
  | Err e => Err e
  | Panic r => Panic r
  end.

#[global] Instance Ok_inj {E A} : Inj (=) (=) (@Ok E A).
Proof. congruence. Qed.

(** [Option::unwrap] and [assert!]. *)
Definition unwrap {E A} (o : option A) : result E A :=
  match o with Some a => Ok a | None => Panic "called Option::unwrap on a None value" end.

Definition rust_assert {E} (b : bool) (reason : string) : result E () :=
  if b then Ok () else Panic reason.

(** [o.ok_or_else(..)?], for an error [e]. *)
Definition ok_or {E A} (o : option A) (e : result E A) : result E A :=
  match o with Some a => Ok a | None => e end.

(** [iter().map(f).collect::<Result<Vec<_>, _>>()]: the first error ends it. *)
Definition try_collect {E A B} (f : A → result E B) : list A → result E (list B) :=
  fix go (l : list A) :=
    match l with
    | [] => Ok []
    | a :: l => b ← f a; bs ← go l; Ok (b :: bs)
    end.

(** A loop whose body may fail, threading an accumulator. *)
Fixpoint foldM {E A B} (f : A → B → result E A) (a : A) (l : list B) : result E A :=
  match l with
  | [] => Ok a
  | b :: l => a ← f a b; foldM f a l
  end.

Lemma bind_Ok {E A B} (a : A) (k : A → result E B) : Ok a ≫= k = k a.
Proof. done. Qed.

Lemma bind_Ok_inv {E A B} (m : result E A) (k : A → result E B) b :
  m ≫= k = Ok b → ∃ a, m = Ok a ∧ k a = Ok b.
Proof. destruct m; simpl; naive_solver. Qed.

Lemma unwrap_Ok {E A} (o : option A) a : unwrap (E:=E) o = Ok a ↔ o = Some a.
Proof. destruct o; simpl; naive_solver. Qed.

(** An invariant of the accumulator is an invariant of the loop. *)
Lemma foldM_ind {E A B} (f : A → B → result E A) (P : A → Prop) l a a' :
  P a →
  (∀ a b a', b ∈ l → P a → f a b = Ok a' → P a') →
  foldM f a l = Ok a' → P a'.
Proof.
  revert a. induction l as [|b l IH]; simpl; intros a Ha Hstep Hf; [congruence|].
  apply bind_Ok_inv in Hf as (a1 & H1 & H2).
  eapply IH; [| |exact H2].
  - eapply Hstep; [|exact Ha|exact H1]. left.
  - intros ????. eapply Hstep. by right.
Qed.

Lemma foldM_ext {E A B} (f g : A → B → result E A) l a : (∀ a b, b ∈ l → f a b = g a b) → foldM f a l = foldM g a l.
Proof.
  revert a. induction l as [|b l IH]; simpl; intros a H; [done|]. rw H; [left|]. destruct (g a b); [|done|done]. simpl.
  apply IH. intros a' b' Hb. apply H. by right.
Qed.

Lemma foldM_app {E A B} (f : A → B → result E A) l1 l2 a :
  foldM f a (l1 ++ l2) = (a' ← foldM f a l1; foldM f a' l2).
Proof.
  revert a. induction l1 as [|b l1 IH]; simpl; intros a; [done|].
  destruct (f a b); simpl; [apply IH|done|done].
Qed.

(** A computation that does not panic. *)
Definition no_panic {E A} (m : result E A) : Prop := match m with Panic _ => False | _ => True end.

Lemma no_panic_bind {E A B} (m : result E A) (k : A → result E B) :
  no_panic m → (∀ a, m = Ok a → no_panic (k a)) → no_panic (m ≫= k).
Proof. destruct m; simpl; auto. Qed.

Lemma no_panic_foldM {E A B} (f : A → B → result E A) a l :
  (∀ a b, b ∈ l → no_panic (f a b)) → no_panic (foldM f a l).
Proof.
  revert a. induction l as [|b l IH]; intros a Hf; simpl; [done|].
  apply no_panic_bind; [apply Hf; left|]. intros a' _. apply IH. intros ? ? ?. apply Hf. by right.
Qed.

Lemma ok_or_no_panic {E A} (o : option A) (e : result E A) : no_panic e → no_panic (ok_or o e).
Proof. by destruct o. Qed.

Lemma try_collect_Ok {E A B} (f : A → result E B) l l' : try_collect f l = Ok l' ↔ Forall2 (λ a b, f a = Ok b) l l'.
Proof.
  split.
  - revert l'. induction l as [|a l IH]; simpl; intros l' H; [injection H as <-; constructor|].
    apply bind_Ok_inv in H as (b & Hb & H). apply bind_Ok_inv in H as (bs & Hbs & [= <-]). constructor; [done|by apply IH].
  - induction 1 as [|a b l l' Hb _ IH]; simpl; [done|]. by rw Hb bind_Ok IH.
Qed.

Lemma try_collect_Ok_2 {E A B} (f : A → result E B) l l' : Forall2 (λ a b, f a = Ok b) l l' → try_collect f l = Ok l'.
Proof. apply try_collect_Ok. Qed.

Lemma try_collect_all {E A B} (f : A → result E B) l : (∀ a, a ∈ l → ∃ b, f a = Ok b) → ∃ bs, try_collect f l = Ok bs.
Proof.
  induction l as [|a l IH]; intros Hf; [by exists []|]. destruct (Hf a ltac:(left)) as [b Hb].
  destruct IH as [bs Hbs]; [intros a' Ha'; apply Hf; by right|]. exists (b :: bs). simpl. by rw Hb /= Hbs.
Qed.

Lemma try_collect_no_panic {E A B} (f : A → result E B) l : Forall (λ a, no_panic (f a)) l → no_panic (try_collect f l).
Proof. induction 1; simpl; [done|]. apply no_panic_bind; [done|]. intros. by apply no_panic_bind. Qed.

Create HintDb panics.
#[export] Hint Resolve no_panic_bind : panics.
#[export] Hint Extern 0 (no_panic _) => exact I : panics.

(** Case analysis on a monadic hypothesis [m ≫= k = Ok b]. *)
Ltac invert_ok :=
  repeat match goal with
  | H : _ ≫= _ = Ok _ |- _ =>
      let Hm := fresh "Hm" in
      apply bind_Ok_inv in H as (? & Hm & H)
  | H : Ok _ = Ok _ |- _ => injection H as H
  | H : Panic _ = Ok _ |- _ => discriminate H
  | H : Err _ = Ok _ |- _ => discriminate H
  | H : unwrap _ = Ok _ |- _ => apply unwrap_Ok in H
  end; subst.

(** ** Machine integers

    Rust's fixed-width arithmetic in the release profile wraps around. *)

Definition u64_max : Z := 2 ^ 64 - 1.
Definition wrap_u64 (z : Z) : Z := z mod 2 ^ 64.
Definition wrap_i64 (z : Z) : Z := (z + 2 ^ 63) mod 2 ^ 64 - 2 ^ 63.

Lemma wrap_u64_small z : (0 ≤ z < 2 ^ 64)%Z → wrap_u64 z = z.
Proof. apply Z.mod_small. Qed.

Lemma wrap_i64_small z : (- 2 ^ 63 ≤ z < 2 ^ 63)%Z → wrap_i64 z = z.
Proof. intros H. unfold wrap_i64. rw Z.mod_small; lia. Qed.

(** ** Strings

    A Rust [String] is its UTF-8 bytes; [string] is a list of 8-bit [ascii],
    so equality, order, [starts_with] and [contains] act on the bytes. *)

Definition starts_with (prefix s : string) : bool := String.prefix prefix s.

Fixpoint str_contains (s pat : string) : bool :=
  String.prefix pat s ||
  match s with
  | EmptyString => false
  | String _ s' => str_contains s' pat
  end.

(** [s.split(c)]: the pieces between the occurrences of [c]. *)
Fixpoint split_on (c : Ascii.ascii) (s : string) : list string :=
  match s with
  | EmptyString => [""]
  | String a s' =>
      if Ascii.eqb a c then "" :: split_on c s'
      else match split_on c s' with
           | [] => [String a ""]
           | w :: ws => String a w :: ws
           end
  end.

Fixpoint str_mem (c : Ascii.ascii) (s : string) : bool :=
  match s with
  | EmptyString => false
  | String a s' => Ascii.eqb a c || str_mem c s'
  end.

(** [v.join(sep)] *)
Fixpoint join (sep : string) (l : list string) : string :=
  match l with
  | [] => ""
  | [s] => s
  | s :: l => s +:+ sep +:+ join sep l
  end.

Lemma str_app_assoc s1 s2 s3 : (s1 +:+ s2) +:+ s3 = s1 +:+ (s2 +:+ s3).
Proof. induction s1 as [|a s1 IH]; [done|]. simpl. unfold String.app in *. simpl. by f_equal. Qed.

Lemma str_app_cons a s1 s2 : String a s1 +:+ s2 = String a (s1 +:+ s2).
Proof. done. Qed.

Lemma str_app_nil_l s : "" +:+ s = s.
Proof. done. Qed.

Lemma str_app_nil_r s : s +:+ "" = s.
Proof. induction s as [|a s IH]; [done|]. by rw str_app_cons IH. Qed.

Lemma str_mem_app c s1 s2 : str_mem c (s1 +:+ s2) = str_mem c s1 || str_mem c s2.
Proof.
  induction s1 as [|a s1 IH]; [done|]. rw str_app_cons. simpl.
  by rw IH orb_assoc.
Qed.

Lemma split_on_no_sep c s : str_mem c s = false → split_on c s = [s].
Proof.
  induction s as [|a s IH]; simpl; [done|]. intros [Ha Hs]%orb_false_iff.
  by rw Ha IH.
Qed.

Lemma split_on_app c s1 s2 :
  str_mem c s1 = false → split_on c (s1 +:+ String c s2) = s1 :: split_on c s2.
Proof.
  induction s1 as [|a s1 IH].
  - intros _. rw str_app_nil_l. simpl. by rw Ascii.eqb_refl.
  - rw str_app_cons. simpl. intros [Ha Hs]%orb_false_iff. by rw Ha IH.
Qed.

Lemma split_on_not_nil c s : split_on c s ≠ [].
Proof. destruct s as [|a s]; simpl; [done|]. destruct (Ascii.eqb a c), (split_on c s); done. Qed.

Lemma join_split_on c s : join (String c "") (split_on c s) = s.
Proof.
  induction s as [|a s IH]; [done|]. simpl.
  pose proof (split_on_not_nil c s) as Hn.
  destruct (split_on c s) as [|w ws] eqn:E; [done|].
  destruct (Ascii.eqb_spec a c) as [->|].
  - change (join (String c "") ("" :: w :: ws)) with (String c (join (String c "") (w :: ws))).
    by rw IH.
  - rw -IH. destruct ws; done.
Qed.

(** Two strings that agree up to a separator absent from both suffixes agree on
    both sides of it: the reason a composite key such as [t_id] is injective
    when [id] has no underscore. *)
Lemma key_inj_last c s1 s2 t1 t2 :
  str_mem c t1 = false → str_mem c t2 = false →
  s1 +:+ String c t1 = s2 +:+ String c t2 → s1 = s2 ∧ t1 = t2.
Proof.
  intros H1 H2. revert s2. induction s1 as [|a s1 IH]; intros [|b s2];
    rw ?str_app_cons ?str_app_nil_l; intros Heq; simplify_eq.
  - done.
  - rw str_mem_app /= Ascii.eqb_refl orb_true_r in H1. done.
  - rw str_mem_app /= Ascii.eqb_refl orb_true_r in H2. done.
  - match goal with H : _ +:+ _ = _ +:+ _ |- _ => apply IH in H as [-> ->] end. done.
Qed.

(** ** What the code takes from its surroundings

    [next_id n] is the [n]-th answer of [idgenerator::IdInstance::next_id()]
    (printed in decimal), [clock n] the [n]-th reading of the system clock in
    milliseconds since the epoch, and [default_hash] the 64-bit hash
    [std::hash::DefaultHasher] gives a string, whose algorithm the standard
    library leaves unspecified. *)
Class Environment : Type := {
  next_id : nat → string;
  clock : nat → Z;
  default_hash : string → Z;
}.

(** What is documented of the id generator: ids are decimal numbers and no two
    are equal. *)
Definition is_digit (a : Ascii.ascii) : bool :=
  match Ascii.is_nat a with Some _ => true | None => false end.

Fixpoint all_digits (s : string) : bool :=
  match s with
  | EmptyString => true
  | String a s => is_digit a && all_digits s
  end.

Class IdGeneratorLaws (env : Environment) : Prop := {
  next_id_inj : Inj (=) (=) next_id;
  next_id_digits : ∀ n, all_digits (next_id n) = true;
}.
#[export] Existing Instance next_id_inj.

Lemma all_digits_no_char c s : is_digit c = false → all_digits s = true → str_mem c s = false.
Proof.
  intros Hc. induction s as [|a s IH]; simpl; [done|].
  intros [Ha Hs]%andb_true_iff. rw (IH Hs) orb_false_r.
  destruct (Ascii.eqb_spec a c) as [->|]; congruence.
Qed.

(** ** Lists *)

(** Filtering commutes with taking the key of each element. *)
Lemma filter_fmap_key {A B} (f : A → B) (P : B → Prop) `{∀ b, Decision (P b)} (l : list A) :
  f <$> filter (λ a, P (f a)) l = filter P (f <$> l).
Proof.
  induction l as [|a l IH]; [done|]. rw filter_cons fmap_cons filter_cons.
  case_decide; simpl; by rw -?IH.
Qed.

(** ** Stateful operations

    [&mut self] methods: a function of the state that returns an outcome and the
    state it leaves behind.  A panic or an error keeps the mutations made before it. *)
Definition ST (S A : Type) : Type := S → outcome A * S.

#[global] Instance st_ret {S} : MRet (ST S) := λ A a s, (Ok a, s).
#[global] Instance st_bind {S} : MBind (ST S) := λ A B k m s,
  match m s with
  | (Ok a, s') => k a s'
  | (Err e, s') => (Err e, s')
  | (Panic r, s') => (Panic r, s')
  end.

(** Read the state, replace it, run a pure update that also returns a value, and
    embed an outcome computed from the state. *)
Definition st_gets {S A} (f : S → A) : ST S A := λ s, (Ok (f s), s).
Definition st_modify {S} (f : S → S) : ST S () := λ s, (Ok (), f s).
Definition st_update {S A} (f : S → A * S) : ST S A := λ s, let '(a, s') := f s in (Ok a, s').
Definition st_lift {S A} (m : outcome A) : ST S A := λ s, (m, s).
Definition st_assert {S} (b : bool) (reason : string) : ST S () := st_lift (rust_assert b reason).

Lemma st_bind_unfold {S A B} (m : ST S A) (k : A → ST S B) s :
  (m ≫= k) s =
  match m s with
  | (Ok a, s') => k a s'
  | (Err e, s') => (Err e, s')
  | (Panic r, s') => (Panic r, s')
  end.
Proof. done. Qed.

Lemma st_bind_Ok_inv {S A B} (m : ST S A) (k : A → ST S B) s b s' :
  (m ≫= k) s = (Ok b, s') → ∃ a s1, m s = (Ok a, s1) ∧ k a s1 = (Ok b, s').
Proof. rw st_bind_unfold. destruct (m s) as [[a|e|r] s1]; naive_solver. Qed.

Lemma st_bind_Ok {S A B} (m : ST S A) (k : A → ST S B) s a s1 :
  m s = (Ok a, s1) → (m ≫= k) s = k a s1.
Proof. intros Hm. by rw st_bind_unfold Hm. Qed.

Lemma st_update_eq {S A} (f : S → A * S) s a s' : f s = (a, s') → st_update f s = (Ok a, s').
Proof. intros Hf. by rw /st_update Hf. Qed.

(** Run a list of operations in order, stopping at the first failure. *)
Fixpoint st_iter {S A} (f : A → ST S ()) (l : list A) : ST S () :=
  match l with
  | [] => mret ()
  | a :: l => f a ≫= λ _, st_iter f l
  end.

(** The same with an error type of its own, for the protocol front ends. *)
Definition RST (E S A : Type) : Type := S → result E A * S.

#[global] Instance rst_ret {E S} : MRet (RST E S) | 10 := λ A a s, (Ok a, s).
#[global] Instance rst_bind {E S} : MBind (RST E S) | 10 := λ A B k m s,
  match m s with
  | (Ok a, s') => k a s'
  | (Err e, s') => (Err e, s')
  | (Panic r, s') => (Panic r, s')
  end.

Definition rst_lift {E S A} (m : result E A) : RST E S A := λ s, (m, s).
Definition rst_gets {E S A} (f : S → A) : RST E S A := λ s, (Ok (f s), s).
Definition rst_read {E S A} (f : S → result E A) : RST E S A := λ s, (f s, s).
Definition rst_modify {E S} (f : S → S) : RST E S () := λ s, (Ok (), f s).

(** [map_err], and an operation on a part of the state. *)
Definition map_err {E F A} (f : E → F) (r : result E A) : result F A := match r with Ok a => Ok a | Err e => Err (f e) | Panic r => Panic r end.
Definition rst_map_err {E F S A} (f : E → F) (m : RST E S A) : RST F S A := λ s, let '(r, s') := m s in (map_err f r, s').
Definition rst_zoom {E S T A} (get : S → T) (set : T → S → S) (m : RST E T A) : RST E S A := λ s, let '(r, t) := m (get s) in (r, set t s).

Lemma rst_bind_Ok {E S A B} (m : RST E S A) (k : A → RST E S B) s a s1 :
  m s = (Ok a, s1) → (m ≫= k) s = k a s1.
Proof. intros Hm. rw /mbind /rst_bind. by rw Hm. Qed.

Lemma rst_bind_Ok_inv {E S A B} (m : RST E S A) (k : A → RST E S B) s b s' :
  (m ≫= k) s = (Ok b, s') → ∃ a s1, m s = (Ok a, s1) ∧ k a s1 = (Ok b, s').
Proof. rw {1}/mbind /rst_bind. destruct (m s) as [[a|e|r] s1]; naive_solver. Qed.

Lemma bool_filter_perm {A} (p : A → bool) l l' : l ≡ₚ l' → List.filter p l ≡ₚ List.filter p l'.
Proof.
  induction 1 as [|x a b _ IH|x y a|a b c _ IH1 _ IH2]; cbn [List.filter]; [done|case_match; by rw IH| |by rw IH1].
  destruct (p x), (p y); [apply perm_swap|done..].
Qed.

(** ** Hash-map iteration

    The standard library leaves the iteration order of a [HashMap] unspecified:
    [hash_iter m] is the order some execution uses, a permutation of the entries
    and nothing more, and every theorem holds for all such orders. *)
Class HashOrder : Type := {
  hash_iter : ∀ {K} `{Countable K} {V : Type}, gmap K V → list (K * V);
  hash_iter_perm : ∀ {K} `{Countable K} {V : Type} (m : gmap K V), hash_iter m ≡ₚ map_to_list m;
}.

(** One order, for examples. *)
Module HashOrderDemo.
#[export] Instance in_order : HashOrder := {
  hash_iter := λ K _ _ V m, map_to_list m;
  hash_iter_perm := λ K _ _ V m, reflexivity _;
}.
End HashOrderDemo.

(** [iter.collect::<HashMap<_, _>>()]: a later entry replaces an earlier one. *)
Definition collect `{Countable K} {V} (l : list (K * V)) : gmap K V :=
  foldl (λ m kv, <[kv.1 := kv.2]> m) ∅ l.

Lemma elem_of_hash_iter `{HashOrder} `{Countable K} {V} (m : gmap K V) k v :
  (k, v) ∈ hash_iter m ↔ m !! k = Some v.
Proof. by rw hash_iter_perm elem_of_map_to_list. Qed.

Lemma hash_iter_empty `{HashOrder} `{Countable K} {V} : hash_iter (∅ : gmap K V) = [].
Proof. apply Permutation_nil_r. by rw hash_iter_perm map_to_list_empty. Qed.

Lemma NoDup_hash_iter `{HashOrder} `{Countable K} {V} (m : gmap K V) : NoDup (hash_iter m).*1.
Proof. rw hash_iter_perm. apply NoDup_fst_map_to_list. Qed.

Lemma insert_keyed `{Countable K} {V} (f : K → V) (m : gmap K V) (l : list K) k :
  (∀ k', k' ∈ l → m !! k' = Some (f k')) →
  ∀ k', k' ∈ l ++ [k] → <[k := f k]> m !! k' = Some (f k').
Proof.
  intros Hm k' [Hk'| ->%list_elem_of_singleton]%elem_of_app; [|apply lookup_insert_eq].
  destruct (decide (k' = k)) as [->|]; [apply lookup_insert_eq|].
  rw lookup_insert_ne; [congruence|auto].
Qed.

Lemma collect_acc `{Countable K} {V} (l : list (K * V)) (m0 : gmap K V) k :
  NoDup l.*1 →
  foldl (λ m kv, <[kv.1 := kv.2]> m) m0 l !! k =
  match (list_to_map l : gmap K V) !! k with Some v => Some v | None => m0 !! k end.
Proof.
  revert m0. induction l as [|[k' v] l IH]; intros m0; simpl; [by rw lookup_empty|].
  intros [Hk Hl]%NoDup_cons. rw IH //.
  destruct (decide (k = k')) as [->|].
  - rw (not_elem_of_list_to_map_1 l) // !lookup_insert_eq //.
  - by simplify_map_eq.
Qed.

Lemma collect_list_to_map `{Countable K} {V} (l : list (K * V)) :
  NoDup l.*1 → collect l = list_to_map l.
Proof.
  intros Hl. apply map_eq. intros k. rw /collect collect_acc // lookup_empty.
  by destruct (list_to_map l !! k).
Qed.

(** ** Reasoning about stateful operations

    [wp m Q E s]: run from [s], the operation ends in a state satisfying [Q] of its
    result, or fails in a state satisfying [E]. *)
Definition wp {S A} (m : ST S A) (Q : A → S → Prop) (E : S → Prop) (s : S) : Prop :=
  match m s with
  | (Ok a, s') => Q a s'
  | (_, s') => E s'
  end.

Section wp.
Context {S : Type}.
Implicit Types (E : S → Prop) (s : S).

Lemma wp_ret {A} (a : A) (Q : A → S → Prop) E s : Q a s → wp (mret a) Q E s.
Proof. done. Qed.

Lemma wp_bind {A B} (m : ST S A) (k : A → ST S B) Q E s :
  wp m (λ a s', wp (k a) Q E s') E s → wp (m ≫= k) Q E s.
Proof. rw /wp st_bind_unfold. by destruct (m s) as [[] ?]. Qed.

Lemma wp_gets {A} (f : S → A) (Q : A → S → Prop) E s : Q (f s) s → wp (st_gets f) Q E s.
Proof. done. Qed.

Lemma wp_modify (f : S → S) (Q : () → S → Prop) E s : Q () (f s) → wp (st_modify f) Q E s.
Proof. done. Qed.

Lemma wp_update {A} (f : S → A * S) (Q : A → S → Prop) E s :
  Q (f s).1 (f s).2 → wp (st_update f) Q E s.
Proof. rw /wp /st_update. by destruct (f s). Qed.

Lemma wp_lift {A} (o : outcome A) (Q : A → S → Prop) E s :
  (∀ a, o = Ok a → Q a s) → E s → wp (st_lift o) Q E s.
Proof. rw /wp /st_lift. destruct o; eauto. Qed.

Lemma wp_lift_fail {A} (o : outcome A) (Q : A → S → Prop) E s :
  (∀ a, o = Ok a → Q a s) → ((∀ a, o ≠ Ok a) → E s) → wp (st_lift o) Q E s.
Proof. rw /wp /st_lift. destruct o; naive_solver. Qed.

Lemma wp_mono {A} (m : ST S A) (Q Q' : A → S → Prop) E E' s :
  wp m Q E s → (∀ a s', Q a s' → Q' a s') → (∀ s', E s' → E' s') → wp m Q' E' s.
Proof. rw /wp. destruct (m s) as [[] ?]; naive_solver. Qed.

Lemma wp_iter {A} (f : A → ST S ()) (I : S → Prop) l s :
  I s → (∀ a s', a ∈ l → I s' → wp (f a) (λ _, I) I s') → wp (st_iter f l) (λ _, I) I s.
Proof.
  revert s. induction l as [|a l IH]; intros s HI Hstep; simpl; [done|].
  apply wp_bind. eapply wp_mono; [apply Hstep; [left|done]| |done].
  simpl. intros _ s' HI'. apply IH; [done|]. intros ????. apply Hstep; [by right|done].
Qed.

Lemma wp_iter_fail {A} (f : A → ST S ()) l s : wp (st_iter f l) (λ _ _, True) (λ _, l ≠ []) s.
Proof. destruct l; [done|]. rw /wp. by destruct (st_iter _ _ s) as [[] ?]. Qed.

(** The state an operation leaves, whatever its result. *)
Definition exec {A} (m : ST S A) (s : S) : S := (m s).2.

Lemma exec_wp {A} (m : ST S A) (I : S → Prop) s : wp m (λ _, I) I s ↔ I (exec m s).
Proof. rw /wp /exec. by destruct (m s) as [[] ?]. Qed.
End wp.

(** A relation every run of the operation respects, whatever its result. *)
Definition st_rel {S A} (R : relation S) (m : ST S A) : Prop := ∀ s, R s (exec m s).

Section st_rel.
Context {S : Type} (R : relation S) `{!PreOrder R}.

Lemma st_rel_ret {A} (a : A) : st_rel R (mret a).
Proof. intros s. rw /exec /=. reflexivity. Qed.
Lemma st_rel_gets {A} (f : S → A) : st_rel R (st_gets f).
Proof. intros s. rw /exec /=. reflexivity. Qed.
Lemma st_rel_lift {A} (o : outcome A) : st_rel R (st_lift o).
Proof. intros s. rw /exec /=. reflexivity. Qed.
Lemma st_rel_assert b r : st_rel R (st_assert b r).
Proof. apply st_rel_lift. Qed.
Lemma st_rel_modify (f : S → S) : (∀ s, R s (f s)) → st_rel R (st_modify f).
Proof. intros Hf s. apply Hf. Qed.
Lemma st_rel_update {A} (f : S → A * S) : (∀ s, R s (f s).2) → st_rel R (st_update f).
Proof. intros Hf s. rw /exec /st_update. specialize (Hf s). by destruct (f s). Qed.

Lemma st_rel_bind {A B} (m : ST S A) (k : A → ST S B) :
  st_rel R m → (∀ a, st_rel R (k a)) → st_rel R (m ≫= k).
Proof.
  intros Hm Hk s. specialize (Hm s). rw /exec st_bind_unfold in Hm |- *.
  destruct (m s) as [[a|?|?] s1]; [|done..]. simpl in Hm. etrans; [exact Hm|apply Hk].
Qed.

Lemma st_rel_iter {A} (f : A → ST S ()) l : (∀ a, st_rel R (f a)) → st_rel R (st_iter f l).
Proof.
  intros Hf. induction l as [|a l IH]; simpl; [apply st_rel_ret|]. apply st_rel_bind; [apply Hf|done].
Qed.

Lemma wp_st_rel {A} (m : ST S A) s : st_rel R m → wp m (λ _, R s) (R s) s.
Proof. intros Hm. by apply exec_wp. Qed.
End st_rel.

Create HintDb st_rel discriminated.
#[export] Hint Resolve st_rel_ret st_rel_gets st_rel_lift st_rel_assert : st_rel.

(** Decompose an [st_rel] goal along the monadic structure; closed sub-operations
    are looked up in the hint database. *)
Ltac st_rel_step :=
  lazymatch goal with
  | |- st_rel _ (_ ≫= _) => apply st_rel_bind; [apply _| |intros ?]
  | |- st_rel _ (st_iter _ _) => apply st_rel_iter; [apply _|intros ?]
  | |- st_rel _ (st_modify _) => apply st_rel_modify; intros ?
  | |- st_rel _ (st_update _) => apply st_rel_update; intros ?
  | |- st_rel _ (match ?x with _ => _ end) => destruct x
  | |- st_rel _ _ => solve [eauto with st_rel typeclass_instances]
  end.
Ltac st_rel_tac := repeat st_rel_step.

(** Symbolic execution of one monadic operation after another. *)
Ltac wp_step :=
  lazymatch goal with
  | |- wp (_ ≫= _) _ _ _ => apply wp_bind
  | |- wp (mret _) _ _ _ => apply wp_ret
  | |- wp (st_gets _) _ _ _ => apply wp_gets
  | |- wp (st_modify _) _ _ _ => apply wp_modify
  | |- wp (st_update _) _ _ _ => apply wp_update
  | |- wp (st_lift _) _ _ _ => apply wp_lift
  | |- wp (st_assert _ _) _ _ _ => apply wp_lift
  end.
