(* ===== verification/Text.v ===== *)
(** * Text: UTF-8, whitespace and decimal numbers

    What the protocol front ends use of Rust's [char], [str] and [FromStr], on the
    bytes of the text. *)

From S2P Require Import Prelude.

Definition byte (a : Ascii.ascii) : N := N_of_ascii a.

(** ** Library functions: UTF-8, whitespace, decimal numbers *)

Definition in_range (lo hi : N) (a : Ascii.ascii) : bool := (lo <=? byte a)%N && (byte a <=? hi)%N.

(** [String::from_utf8] succeeds on the well-formed byte sequences of the Unicode
    standard (table 3-7). *)
Fixpoint utf8_valid (s : string) : bool :=
  match s with
  | EmptyString => true
  | String a s1 =>
      if in_range 0 127 a then utf8_valid s1
      else match s1 with
      | EmptyString => false
      | String b s2 =>
          if in_range 194 223 a && in_range 128 191 b then utf8_valid s2
          else match s2 with
          | EmptyString => false
          | String c s3 =>
              if (in_range 224 224 a && in_range 160 191 b || in_range 225 236 a && in_range 128 191 b
                  || in_range 237 237 a && in_range 128 159 b || in_range 238 239 a && in_range 128 191 b)
                 && in_range 128 191 c then utf8_valid s3
              else match s3 with
              | EmptyString => false
              | String d s4 =>
                  if (in_range 240 240 a && in_range 144 191 b || in_range 241 243 a && in_range 128 191 b
                      || in_range 244 244 a && in_range 128 143 b)
                     && in_range 128 191 c && in_range 128 191 d then utf8_valid s4
                  else false
              end
          end
      end
  end.

(** The rest of the text after one leading character of [char::is_whitespace]. *)
Definition skip_whitespace_char (s : string) : option string :=
  match s with
  | String a s1 =>
      if in_range 9 13 a || in_range 32 32 a then Some s1
      else match s1 with
      | String b s2 =>
          if in_range 194 194 a && (in_range 133 133 b || in_range 160 160 b) then Some s2
          else match s2 with
          | String c s3 =>
              if in_range 225 225 a && in_range 154 154 b && in_range 128 128 c
                 || in_range 226 226 a && in_range 128 128 b &&
                      (in_range 128 138 c || in_range 168 169 c || in_range 175 175 c)
                 || in_range 226 226 a && in_range 129 129 b && in_range 159 159 c
                 || in_range 227 227 a && in_range 128 128 b && in_range 128 128 c
              then Some s3 else None
          | EmptyString => None
          end
      | EmptyString => None
      end
  | EmptyString => None
  end.

(** [str::split_whitespace]: the maximal runs without whitespace.  A step consumes at
    least one byte, so the length of the text is enough fuel. *)
Fixpoint split_words (fuel : nat) (s word : string) : list string :=
  let flush := if decide (word = "") then [] else [word] in
  match fuel with
  | O => flush
  | S fuel =>
      match skip_whitespace_char s with
      | Some s' => flush ++ split_words fuel s' ""
      | None =>
          match s with
          | EmptyString => flush
          | String a s' => split_words fuel s' (word +:+ String a "")
          end
      end
  end.

Definition split_whitespace (s : string) : list string := split_words (S (String.length s)) s "".

(** Every byte of the text passes a test. *)
Fixpoint all_chars (p : Ascii.ascii → bool) (s : string) : bool :=
  match s with EmptyString => true | String a s => p a && all_chars p s end.

Lemma all_chars_app p s1 s2 : all_chars p (s1 +:+ s2) = all_chars p s1 && all_chars p s2.
Proof. induction s1 as [|a s1 IH]; [done|]. rw str_app_cons /=. by rw IH andb_assoc. Qed.

(** Decimal digits. *)
Definition digit_char (d : Z) : Ascii.ascii := ascii_of_N (48 + Z.to_N d).
Definition digit_value (a : Ascii.ascii) : option Z :=
  if in_range 48 57 a then Some (Z.of_N (byte a - 48)%N) else None.

Fixpoint parse_digits (acc : Z) (s : string) : option Z :=
  match s with
  | EmptyString => Some acc
  | String a s => d ← digit_value a; parse_digits (10 * acc + d) s
  end.

(** [str::parse::<i64>()] *)
Definition parse_i64 (s : string) : option Z :=
  n ← match s with
      | EmptyString => None
      | String a s' =>
          if Ascii.eqb a "-" then if decide (s' = "") then None else Z.opp <$> parse_digits 0 s'
          else if Ascii.eqb a "+" then if decide (s' = "") then None else parse_digits 0 s'
          else parse_digits 0 s
      end;
  if ((- 2 ^ 63 <=? n) && (n <? 2 ^ 63))%Z then Some n else None.

(** [str::parse::<u32>()] *)
Definition parse_u32 (s : string) : option Z :=
  n ← match s with
      | EmptyString => None
      | String a s' =>
          if Ascii.eqb a "+" then if decide (s' = "") then None else parse_digits 0 s'
          else parse_digits 0 s
      end;
  if (n <? 2 ^ 32)%Z then Some n else None.

(** [n.to_string()]: one digit per round, so [log2] rounds are enough. *)
Fixpoint print_digits (fuel : nat) (n : Z) (tail : string) : string :=
  match fuel with
  | O => tail
  | S fuel =>
      let tail := String (digit_char (n mod 10)) tail in
      if (n <? 10)%Z then tail else print_digits fuel (n / 10) tail
  end.

Definition print_nat (n : Z) : string := print_digits (S (Z.to_nat (Z.log2 n))) n "".
Definition print_int (n : Z) : string := if (n <? 0)%Z then String "-" (print_nat (- n)) else print_nat n.

(** [char::to_ascii_uppercase] and [to_ascii_lowercase] of a string, byte by byte. *)
Definition ascii_upper (a : Ascii.ascii) : Ascii.ascii :=
  if in_range 97 122 a then ascii_of_N (byte a - 32) else a.
Definition ascii_lower (a : Ascii.ascii) : Ascii.ascii :=
  if in_range 65 90 a then ascii_of_N (byte a + 32) else a.

Fixpoint str_map (f : Ascii.ascii → Ascii.ascii) (s : string) : string :=
  match s with EmptyString => "" | String a s => String (f a) (str_map f s) end.

Definition to_ascii_uppercase : string → string := str_map ascii_upper.
Definition to_ascii_lowercase : string → string := str_map ascii_lower.

Definition eq_ignore_ascii_case (s t : string) : bool :=
  String.eqb (to_ascii_lowercase s) (to_ascii_lowercase t).

(** [str::trim_start], [trim_end] and [trim].  A step of [trim_start] consumes at least
    one byte, so the length is enough fuel. *)
Fixpoint trim_start_fuel (fuel : nat) (s : string) : string :=
  match fuel with
  | O => s
  | S fuel => match skip_whitespace_char s with Some s' => trim_start_fuel fuel s' | None => s end
  end.

Definition trim_start (s : string) : string := trim_start_fuel (String.length s) s.

Fixpoint trim_end (s : string) : string :=
  match s with
  | EmptyString => ""
  | String a s' => if decide (trim_start s = "") then "" else String a (trim_end s')
  end.

Definition trim (s : string) : string := trim_end (trim_start s).

(** [s[n..]] and [strip_prefix]. *)
Fixpoint str_drop (n : nat) (s : string) : string :=
  match n, s with
  | S n, String _ s => str_drop n s
  | _, _ => s
  end.

Fixpoint str_take (n : nat) (s : string) : string :=
  match n, s with
  | S n, String a s => String a (str_take n s)
  | _, _ => ""
  end.

Fixpoint strip_prefix (pat s : string) : option string :=
  match pat, s with
  | EmptyString, _ => Some s
  | String a pat, String b s => if Ascii.eqb a b then strip_prefix pat s else None
  | String _ _, EmptyString => None
  end.

(** [s.split_once(pat)]: the text before and after the first occurrence. *)
Fixpoint split_once (pat s : string) : option (string * string) :=
  match strip_prefix pat s with
  | Some rest => Some ("", rest)
  | None => match s with
            | EmptyString => None
            | String a s => '(l, r) ← split_once pat s; Some (String a l, r)
            end
  end.

(** [s.replace(pat, to)]: the occurrences from the left that do not overlap; an empty
    pattern occurs at every character boundary. *)
Definition continuation (a : Ascii.ascii) : bool := in_range 128 191 a.

Fixpoint replace_empty (to s : string) : string :=
  match s with
  | EmptyString => to
  | String a s' => if continuation a then String a (replace_empty to s') else to +:+ String a (replace_empty to s')
  end.

Fixpoint replace_fuel (fuel : nat) (pat to s : string) : string :=
  match fuel with
  | O => s
  | S fuel =>
      match strip_prefix pat s with
      | Some rest => to +:+ replace_fuel fuel pat to rest
      | None => match s with EmptyString => "" | String a s => String a (replace_fuel fuel pat to s) end
      end
  end.

Definition replace (pat to s : string) : string :=
  if decide (pat = "") then replace_empty to s else replace_fuel (S (String.length s)) pat to s.

(** The first character of a text, all its bytes. *)
Definition first_char (s : string) : string :=
  match s with
  | EmptyString => ""
  | String a _ => str_take (if in_range 0 191 a then 1 else if in_range 192 223 a then 2 else if in_range 224 239 a then 3 else 4) s
  end.

(** ** Laws *)

Lemma digit_range d : (0 ≤ d < 10)%Z → d = 0%Z ∨ d = 1%Z ∨ d = 2%Z ∨ d = 3%Z ∨ d = 4%Z ∨ d = 5%Z ∨ d = 6%Z ∨ d = 7%Z ∨ d = 8%Z ∨ d = 9%Z.
Proof. lia. Qed.

Lemma digit_value_char d : (0 ≤ d < 10)%Z → digit_value (digit_char d) = Some d ∧ in_range 48 57 (digit_char d) = true.
Proof. intros Hd%digit_range. naive_solver. Qed.

Fixpoint digits_only (s : string) : bool :=
  match s with EmptyString => true | String a s => in_range 48 57 a && digits_only s end.

Lemma print_digits_spec fuel n tail :
  (0 ≤ n < 10 ^ Z.of_nat fuel)%Z → digits_only tail = true →
  digits_only (print_digits fuel n tail) = true ∧ (fuel ≠ 0 → print_digits fuel n tail ≠ "") ∧
  ∃ k, (0 ≤ k)%Z ∧ ∀ acc, parse_digits acc (print_digits fuel n tail) = parse_digits (acc * 10 ^ k + n) tail.
Proof.
  revert n tail. induction fuel as [|fuel IH]; intros n tail Hn Htail; simpl.
  - split_and!; [done|done|]. exists 0%Z. split; [done|]. intros acc. f_equal. lia.
  - assert (Hd : (0 ≤ n mod 10 < 10)%Z) by (apply Z.mod_pos_bound; lia).
    destruct (digit_value_char _ Hd) as [Hv Hr]. destruct (Z.ltb_spec n 10).
    + split_and!; [by rw /= Hr Htail|done|]. exists 1%Z. split; [done|]. intros acc. simpl. rw Hv /=.
      f_equal. rw Z.mod_small; lia.
    + rw Nat2Z.inj_succ Z.pow_succ_r in Hn; [lia|].
      destruct (IH (n / 10)%Z (String (digit_char (n mod 10)) tail)) as (Hall & Hne & k & Hk & Hp).
      { split; [apply Z.div_pos; lia|]. apply Z.div_lt_upper_bound; lia. }
      { by rw /= Hr Htail. }
      split_and!; [done| |].
      * intros _. destruct fuel; [|by apply Hne]. done.
      * exists (k + 1)%Z. split; [lia|]. intros acc. rw Hp /= Hv /=. f_equal.
        rw Z.pow_add_r; [lia..|]. pose proof (Z.div_mod n 10). lia.
Qed.

Lemma print_nat_spec n :
  (0 ≤ n)%Z → digits_only (print_nat n) = true ∧ print_nat n ≠ "" ∧ parse_digits 0 (print_nat n) = Some n.
Proof.
  intros Hn. assert (Hf : (0 ≤ n < 10 ^ Z.of_nat (S (Z.to_nat (Z.log2 n))))%Z).
  { split; [done|]. pose proof (Z.log2_nonneg n). rw Nat2Z.inj_succ Z2Nat.id; [done|].
    apply (Z.lt_le_trans _ (2 ^ Z.succ (Z.log2 n))); [|apply Z.pow_le_mono_l; lia].
    destruct (decide (n = 0)%Z) as [->|]; [done|]. apply Z.log2_spec. lia. }
  destruct (print_digits_spec _ n "" Hf eq_refl) as (Hall & Hne & k & Hk & Hp).
  split_and!; [done|by apply Hne|]. rw /print_nat Hp. done.
Qed.

Lemma parse_print_int n : (- 2 ^ 63 ≤ n < 2 ^ 63)%Z → parse_i64 (print_int n) = Some n.
Proof.
  intros Hn. rw /print_int. destruct (Z.ltb_spec n 0) as [Hneg|Hpos].
  - destruct (print_nat_spec (- n)) as (_ & Hne & Hp); [lia|]. rw /parse_i64 /=. rw decide_False // Hp /=.
    rw Z.opp_involutive. destruct (Z.leb_spec (- 2 ^ 63) n), (Z.ltb_spec n (2 ^ 63)); done || lia.
  - destruct (print_nat_spec n) as (Hd & Hne & Hp); [lia|]. destruct (print_nat n) as [|a s] eqn:Hs; [done|].
    rw /parse_i64. simpl in Hd. apply andb_true_iff in Hd as [Ha _].
    destruct (Ascii.eqb_spec a "-") as [->|]; [done|]. destruct (Ascii.eqb_spec a "+") as [->|]; [done|].
    rw Hp /=. destruct (Z.leb_spec (- 2 ^ 63) n), (Z.ltb_spec n (2 ^ 63)); done || lia.
Qed.

Lemma str_length_app s1 s2 : String.length (s1 +:+ s2) = String.length s1 + String.length s2.
Proof. induction s1 as [|a s1 IH]; [done|]. rw str_app_cons /=. by rw IH. Qed.


Lemma digits_utf8 s : digits_only s = true → utf8_valid s = true.
Proof.
  induction s as [|a s IH]; [done|]. simpl. intros [Ha Hs]%andb_true_iff. assert (Hr : in_range 0 127 a = true); [|by rw Hr IH].
  rw /in_range !andb_true_iff !N.leb_le in Ha |- *. lia.
Qed.

Lemma print_int_utf8 n : utf8_valid (print_int n) = true.
Proof.
  rw /print_int. destruct (Z.ltb_spec n 0).
  - destruct (print_nat_spec (- n)) as (Hd & _); [lia|]. by apply digits_utf8 in Hd.
  - destruct (print_nat_spec n) as (Hd & _); [lia|]. by apply digits_utf8.
Qed.

Lemma digits_only_no_char c s : in_range 48 57 c = false → digits_only s = true → str_mem c s = false.
Proof.
  intros Hc. induction s as [|a s IH]; simpl; [done|]. intros [Ha Hs]%andb_true_iff.
  rw (IH Hs) orb_false_r. destruct (Ascii.eqb_spec a c) as [->|]; congruence.
Qed.

(** Printed integers have digits and a sign only. *)
Lemma print_int_no_char c n : in_range 48 57 c = false → c ≠ "-"%char → str_mem c (print_int n) = false.
Proof.
  intros Hc Hm. rw /print_int. destruct (Z.ltb_spec n 0).
  - cbn [str_mem]. destruct (Ascii.eqb_spec "-" c); [congruence|].
    apply digits_only_no_char; [done|]. apply print_nat_spec. lia.
  - apply digits_only_no_char; [done|]. apply print_nat_spec. lia.
Qed.

Lemma parse_digits_stuck c acc s : in_range 48 57 c = false → str_mem c s = true → parse_digits acc s = None.
Proof.
  intros Hc. revert acc. induction s as [|a s IH]; intros acc; simpl; [done|].
  rw {1}/digit_value. intros [Ha|Hs]%orb_true_iff.
  - apply Ascii.eqb_eq in Ha as ->. by rw Hc.
  - case_match; simpl; [by apply IH|done].
Qed.

(** A text with a character that is neither a digit nor a sign is not an integer. *)
Lemma parse_i64_stuck c s :
  in_range 48 57 c = false → c ≠ "-"%char → c ≠ "+"%char → str_mem c s = true → parse_i64 s = None.
Proof.
  intros Hc H1 H2 Hs. rw /parse_i64. destruct s as [|a s]; [done|].
  assert (Ht : ∀ b, a = b → c ≠ b → str_mem c s = true).
  { intros b -> Hb. simpl in Hs. destruct (Ascii.eqb_spec b c); [congruence|done]. }
  destruct (Ascii.eqb_spec a "-") as [Ha|]; [|destruct (Ascii.eqb_spec a "+") as [Ha|]].
  - rw (parse_digits_stuck c) // ?(Ht _ Ha H1) //. by case_decide.
  - rw (parse_digits_stuck c) // ?(Ht _ Ha H2) //. by case_decide.
  - by rw (parse_digits_stuck c).
Qed.

(** ** Whitespace *)

Lemma skip_whitespace_shorter s s' : skip_whitespace_char s = Some s' → String.length s' < String.length s.
Proof.
  rw /skip_whitespace_char. destruct s as [|a s1]; [done|]. destruct (in_range 9 13 a || in_range 32 32 a).
  { intros [= <-]. simpl. lia. }
  destruct s1 as [|b s2]; [done|]. destruct (in_range 194 194 a && _); [intros [= <-]; simpl; lia|].
  destruct s2 as [|c s3]; [done|]. case_match; [|done]. intros [= <-]. simpl. lia.
Qed.

Lemma in_range_false lo hi a : (byte a < lo)%N ∨ (hi < byte a)%N → in_range lo hi a = false.
Proof. rw /in_range. destruct (N.leb_spec lo (byte a)), (N.leb_spec (byte a) hi); simpl; (done || lia). Qed.

(** A printable ASCII character is no whitespace. *)
Lemma skip_whitespace_printable a s : (32 < byte a < 128)%N → skip_whitespace_char (String a s) = None.
Proof.
  intros Ha. rw /skip_whitespace_char !(in_range_false _ _ a) /=; [lia..|].
  destruct s as [|b s]; [done|]. by destruct s.
Qed.

Lemma skip_whitespace_space s : skip_whitespace_char (String " " s) = Some s.
Proof. done. Qed.

Lemma in_range_spec lo hi a : in_range lo hi a = true ↔ (lo ≤ byte a ≤ hi)%N.
Proof. rw /in_range andb_true_iff !N.leb_le. done. Qed.

(** ** Lengths and ASCII texts *)

Fixpoint is_ascii (s : string) : bool :=
  match s with EmptyString => true | String a s => in_range 0 127 a && is_ascii s end.

Lemma trim_start_fuel_length fuel s : String.length (trim_start_fuel fuel s) ≤ String.length s.
Proof.
  revert s. induction fuel as [|fuel IH]; intros s; simpl; [done|].
  destruct (skip_whitespace_char s) as [s'|] eqn:Hs; [|done].
  apply skip_whitespace_shorter in Hs. pose proof (IH s'). lia.
Qed.

Lemma trim_start_length s : String.length (trim_start s) ≤ String.length s.
Proof. apply trim_start_fuel_length. Qed.

Lemma skip_whitespace_ascii s s' : skip_whitespace_char s = Some s' → is_ascii s = true → is_ascii s' = true.
Proof.
  rw /skip_whitespace_char. destruct s as [|a s1]; [done|]. cbn [is_ascii]. intros H [Ha Hs]%andb_true_iff. revert H.
  destruct (in_range 9 13 a || in_range 32 32 a); [by intros [= <-]|].
  apply in_range_spec in Ha. rw !(in_range_false _ _ a); [lia..|].
  destruct s1 as [|b s2]; [done|]. by destruct s2.
Qed.

Lemma trim_start_ascii s : is_ascii s = true → is_ascii (trim_start s) = true.
Proof.
  rw /trim_start. generalize (String.length s) as fuel. intros fuel. revert s.
  induction fuel as [|fuel IH]; intros s Hs; simpl; [done|].
  destruct (skip_whitespace_char s) as [s'|] eqn:Hw; [|done]. by apply IH, (skip_whitespace_ascii s).
Qed.

Lemma trim_end_ascii s : is_ascii s = true → is_ascii (trim_end s) = true.
Proof.
  induction s as [|a s IH]; [done|]. cbn [trim_end]. case_decide; [done|]. cbn [is_ascii].
  intros [-> Hs]%andb_true_iff. by apply IH.
Qed.

Lemma trim_ascii s : is_ascii s = true → is_ascii (trim s) = true.
Proof. intros Hs. by apply trim_end_ascii, trim_start_ascii. Qed.

Lemma str_drop_ascii n s : is_ascii s = true → is_ascii (str_drop n s) = true.
Proof. revert s. induction n as [|n IH]; intros [|a s]; simpl; try done. intros [_ Hs]%andb_true_iff. by apply IH. Qed.

Lemma str_drop_length n s : String.length (str_drop n s) = String.length s - n.
Proof. revert s. induction n as [|n IH]; intros [|a s]; simpl; try done. Qed.

Lemma trim_end_length s : String.length (trim_end s) ≤ String.length s.
Proof. induction s as [|a s IH]; [done|]. cbn [trim_end]. case_decide; simpl; lia. Qed.

(** ** Printed integers *)

Lemma digits_only_all p s : (∀ a, in_range 48 57 a = true → p a = true) → digits_only s = true → all_chars p s = true.
Proof. intros Hp. induction s as [|a s IH]; [done|]. simpl. intros [Ha Hs]%andb_true_iff. by rw Hp // IH. Qed.

Lemma print_int_all p n :
  p "-"%char = true → (∀ a, in_range 48 57 a = true → p a = true) → all_chars p (print_int n) = true ∧ print_int n ≠ "".
Proof.
  intros Hm Hp. rw /print_int. destruct (Z.ltb_spec n 0).
  - destruct (print_nat_spec (- n)) as (Hd & _ & _); [lia|]. simpl. rw Hm. by rw (digits_only_all p).
  - destruct (print_nat_spec n) as (Hd & Hne & _); [lia|]. by rw (digits_only_all p).
Qed.

(** ** Replacing one character *)

Fixpoint double_char (q : Ascii.ascii) (s : string) : string :=
  match s with
  | EmptyString => ""
  | String a s => if Ascii.eqb a q then String q (String q (double_char q s)) else String a (double_char q s)
  end.

Lemma replace_double q s : replace (String q "") (String q (String q "")) s = double_char q s.
Proof.
  rw /replace. destruct (decide (String q "" = "")) as [|_]; [done|].
  assert (Hf : S (String.length s) ≤ S (String.length s)) by done. revert Hf. generalize (S (String.length s)) at 2 3 as fuel.
  intros fuel. revert fuel. induction s as [|a s IH]; intros fuel Hf; destruct fuel as [|fuel]; simpl in Hf; try lia; [done|].
  cbn [replace_fuel strip_prefix double_char]. rw (Ascii.eqb_sym a q). destruct (Ascii.eqb_spec q a) as [->|Hne].
  - change (String a (String a "") +:+ replace_fuel fuel (String a "") (String a (String a "")) s)
      with (String a (String a (replace_fuel fuel (String a "") (String a (String a "")) s))). by rw IH; [lia|].
  - by rw IH; [lia|].
Qed.

(** ** Prefixes *)

Lemma starts_with_spec p s : starts_with p s = true ↔ ∃ t, s = p +:+ t.
Proof.
  rw /starts_with. revert s. induction p as [|a p IH]; intros s; simpl.
  - split; [intros _; by exists s|by destruct s].
  - destruct s as [|b s]; [split; [done|by intros [t ?]]|].
    change (String.prefix (String a p) (String b s)) with (if ascii_dec a b then String.prefix p s else false). destruct (ascii_dec a b) as [->|Hne].
    + specialize (IH s). split.
      * intros H. apply IH in H as [t ->]. by exists t.
      * intros [t Ht]. apply IH. exists t. rw str_app_cons in Ht. congruence.
    + split; [done|]. intros [t Ht]. rw str_app_cons in Ht. congruence.
Qed.
