(* ===== verification/Utf8.v ===== *)
(** * UTF-8 characters and their order

    [str::chars] and [char::encode_utf8], and why comparing strings byte by byte, as
    Rust does, compares them character by character. *)

From S2P Require Import Prelude Text.
#[local] Open Scope N_scope.

(** ** Characters *)

(** A [char]: a code point that is no surrogate. *)
Definition scalar (c : N) : bool := (c <? 0xD800) || ((0xDFFF <? c) && (c <=? 0x10FFFF)).

(** [char::encode_utf8] *)
Definition encode_bytes (c : N) : list N :=
  if c <? 0x80 then [c]
  else if c <? 0x800 then [192 + c / 64; 128 + c mod 64]
  else if c <? 0x10000 then [224 + c / 4096; 128 + c / 64 mod 64; 128 + c mod 64]
  else [240 + c / 262144; 128 + c / 4096 mod 64; 128 + c / 64 mod 64; 128 + c mod 64].

Fixpoint put_bytes (bytes : list N) (s : string) : string :=
  match bytes with
  | [] => s
  | b :: bytes => String (ascii_of_N b) (put_bytes bytes s)
  end.

(** [chars.into_iter().collect::<String>()] *)
Fixpoint encode (chars : list N) : string :=
  match chars with
  | [] => ""
  | c :: chars => put_bytes (encode_bytes c) (encode chars)
  end.

(** [str::chars] of a well-formed text. *)
Fixpoint chars (s : string) : list N :=
  match s with
  | EmptyString => []
  | String a s1 =>
      if byte a <? 0x80 then byte a :: chars s1
      else match s1 with
      | EmptyString => []
      | String b s2 =>
          if byte a <? 224 then (byte a - 192) * 64 + (byte b - 128) :: chars s2
          else match s2 with
          | EmptyString => []
          | String c s3 =>
              if byte a <? 240 then (byte a - 224) * 4096 + (byte b - 128) * 64 + (byte c - 128) :: chars s3
              else match s3 with
              | EmptyString => []
              | String d s4 =>
                  (byte a - 240) * 262144 + (byte b - 128) * 4096 + (byte c - 128) * 64 + (byte d - 128) :: chars s4
              end
          end
      end
  end.

Module Utf8Theory.
#[local] Ltac Zify.zify_post_hook ::= Z.to_euclidean_division_equations.

Lemma scalar_spec c : scalar c = true ↔ c < 0xD800 ∨ 0xDFFF < c ≤ 0x10FFFF.
Proof. rw /scalar orb_true_iff andb_true_iff !N.ltb_lt N.leb_le. done. Qed.

(** ** Decoding *)

Lemma byte_bound a : byte a < 256.
Proof. apply N_ascii_bounded. Qed.

Lemma ascii_byte a : ascii_of_N (byte a) = a.
Proof. apply ascii_N_embedding. Qed.

Ltac ranges :=
  repeat match goal with
  | H : _ && _ = true |- _ => apply andb_true_iff in H as [? ?]
  | H : in_range _ _ _ = true |- _ => apply in_range_spec in H
  end.

(** The first character of a well-formed text. *)
Lemma valid_cons s :
  utf8_valid s = true → s ≠ ""%string →
  ∃ c rest, scalar c = true ∧ s = put_bytes (encode_bytes c) rest ∧ utf8_valid rest = true ∧ chars s = c :: chars rest.
Proof.
  destruct s as [|a s1]; [done|]. intros Hv _. cbn [utf8_valid] in Hv. cbn [chars].
  destruct (in_range 0 127 a) eqn:H1.
  { apply in_range_spec in H1. exists (byte a), s1. rw /encode_bytes /scalar. destruct (N.ltb_spec (byte a) 0x80); [|lia].
    split_and!; [|by rw /= ascii_byte|done|done]. apply orb_true_iff. left. apply N.ltb_lt. lia. }
  assert (Ha : 128 ≤ byte a). { rw /in_range in H1. apply andb_false_iff in H1 as [?%N.leb_gt|?%N.leb_gt]; lia. }
  destruct s1 as [|b s2]; [done|]. destruct (N.ltb_spec (byte a) 0x80); [lia|].
  destruct (in_range 194 223 a && in_range 128 191 b) eqn:H2.
  { ranges. destruct (N.ltb_spec (byte a) 224); [|lia]. set (c := (byte a - 192) * 64 + (byte b - 128)). exists c, s2.
    assert (Hc : 0x80 ≤ c < 0x800 ∧ 192 + c / 64 = byte a ∧ 128 + c mod 64 = byte b) by (rw /c; lia). clearbody c.
    rw /encode_bytes /scalar. destruct (N.ltb_spec c 0x80); [lia|]. destruct (N.ltb_spec c 0x800); [|lia].
    destruct Hc as (_ & -> & ->). split_and!; [|by rw /= !ascii_byte|done|done]. apply orb_true_iff. left. apply N.ltb_lt. lia. }
  clear H2. destruct s2 as [|c s3]; [done|].
  destruct ((_ || _ || _ || _) && in_range 128 191 c) eqn:H3.
  { apply andb_true_iff in H3 as [H3 Hc%in_range_spec].
    assert (H3' : 224 ≤ byte a ≤ 239 ∧ 128 ≤ byte b ≤ 191 ∧ (byte a = 224 → 160 ≤ byte b) ∧ (byte a = 237 → byte b ≤ 159)).
    { rw !orb_true_iff in H3. destruct H3 as [[[H3|H3]|H3]|H3]; ranges; lia. }
    destruct (N.ltb_spec (byte a) 224); [lia|]. destruct (N.ltb_spec (byte a) 240); [|lia].
    set (v := (byte a - 224) * 4096 + (byte b - 128) * 64 + (byte c - 128)). exists v, s3.
    assert (Hv' : 0x800 ≤ v < 0x10000 ∧ (v < 0xD800 ∨ 0xDFFF < v) ∧ 224 + v / 4096 = byte a ∧ 128 + v / 64 mod 64 = byte b ∧ 128 + v mod 64 = byte c).
    { rw /v. split_and!; lia. }
    clearbody v. rw /encode_bytes /scalar. destruct (N.ltb_spec v 0x80); [lia|]. destruct (N.ltb_spec v 0x800); [lia|].
    destruct (N.ltb_spec v 0x10000); [|lia]. destruct Hv' as (_ & Hr & -> & -> & ->).
    split_and!; [|by rw /= !ascii_byte|done|done]. rw orb_true_iff andb_true_iff !N.ltb_lt N.leb_le. lia. }
  clear H3. destruct s3 as [|d s4]; [done|].
  destruct ((_ || _ || _) && in_range 128 191 c && in_range 128 191 d) eqn:H4; [|done].
  apply andb_true_iff in H4 as [[H4 Hc%in_range_spec]%andb_true_iff Hd%in_range_spec].
  assert (H4' : 240 ≤ byte a ≤ 244 ∧ 128 ≤ byte b ≤ 191 ∧ (byte a = 240 → 144 ≤ byte b) ∧ (byte a = 244 → byte b ≤ 143)).
  { rw !orb_true_iff in H4. destruct H4 as [[H4|H4]|H4]; ranges; lia. }
  destruct (N.ltb_spec (byte a) 224); [lia|]. destruct (N.ltb_spec (byte a) 240); [lia|].
  set (v := (byte a - 240) * 262144 + (byte b - 128) * 4096 + (byte c - 128) * 64 + (byte d - 128)). exists v, s4.
  assert (Hv' : 0x10000 ≤ v ≤ 0x10FFFF ∧ 240 + v / 262144 = byte a ∧ 128 + v / 4096 mod 64 = byte b ∧
     128 + v / 64 mod 64 = byte c ∧ 128 + v mod 64 = byte d).
  { rw /v. split_and!; lia. }
  clearbody v. rw /encode_bytes /scalar. destruct (N.ltb_spec v 0x80); [lia|]. destruct (N.ltb_spec v 0x800); [lia|].
  destruct (N.ltb_spec v 0x10000); [lia|]. destruct Hv' as (Hr & -> & -> & -> & ->).
  split_and!; [|by rw /= !ascii_byte|done|done]. rw orb_true_iff andb_true_iff !N.ltb_lt N.leb_le. lia.
Qed.

Lemma valid_ind (P : string → Prop) :
  P ""%string → (∀ c rest, scalar c = true → utf8_valid rest = true → P rest → P (put_bytes (encode_bytes c) rest)) →
  ∀ s, utf8_valid s = true → P s.
Proof.
  intros H0 HS s. remember (String.length s) as n eqn:Hn. revert s Hn. induction (lt_wf n) as [n _ IH]. intros s -> Hv.
  destruct s as [|a s]; [done|]. destruct (valid_cons (String a s)) as (c & rest & Hc & Hs & Hr & _); [done..|]. rw Hs. apply HS; [done..|].
  apply (IH (String.length rest)); [|done..]. rw Hs. rw /encode_bytes. repeat case_match; simpl; lia.
Qed.

(** Bytes of each length that make a character. *)
Lemma byte_ascii n : n < 256 → byte (ascii_of_N n) = n.
Proof. apply N_ascii_embedding. Qed.

Lemma in_range_ascii lo hi n : n < 256 → in_range lo hi (ascii_of_N n) = (lo <=? n) && (n <=? hi).
Proof. intros Hn. by rw /in_range byte_ascii. Qed.

Ltac decide_range := first [apply not_true_iff_false|idtac]; rw ?orb_true_iff ?andb_true_iff ?orb_true_iff ?andb_true_iff ?N.leb_le; lia.

Lemma outside a lo hi : hi < a → (lo <=? a) && (a <=? hi) = false.
Proof. intros Ha. apply andb_false_iff. right. by apply N.leb_gt. Qed.

Lemma put_1 a rest : a < 128 → utf8_valid (put_bytes [a] rest) = utf8_valid rest ∧ chars (put_bytes [a] rest) = a :: chars rest.
Proof.
  intros Ha. cbn [put_bytes utf8_valid chars]. rw in_range_ascii ?byte_ascii; [lia..|]. destruct (N.ltb_spec a 0x80); [|lia].
  assert (E : (0 <=? a) && (a <=? 127) = true) by decide_range. by rw E.
Qed.

Lemma put_2 a b rest : 194 ≤ a ≤ 223 → 128 ≤ b ≤ 191 →
  utf8_valid (put_bytes [a; b] rest) = utf8_valid rest ∧ chars (put_bytes [a; b] rest) = (a - 192) * 64 + (b - 128) :: chars rest.
Proof.
  intros Ha Hb. cbn [put_bytes utf8_valid chars]. rw !in_range_ascii ?byte_ascii; [lia..|]. rw (outside a 0 127); [lia|].
  assert (E : (194 <=? a) && (a <=? 223) && ((128 <=? b) && (b <=? 191)) = true) by decide_range.
  rw E. by destruct (N.ltb_spec a 0x80), (N.ltb_spec a 224); try lia.
Qed.

Lemma put_3 a b d rest : 224 ≤ a ≤ 239 → 128 ≤ b ≤ 191 → 128 ≤ d ≤ 191 → (a = 224 → 160 ≤ b) → (a = 237 → b ≤ 159) →
  utf8_valid (put_bytes [a; b; d] rest) = utf8_valid rest ∧
  chars (put_bytes [a; b; d] rest) = (a - 224) * 4096 + (b - 128) * 64 + (d - 128) :: chars rest.
Proof.
  intros Ha Hb Hd H1 H2. cbn [put_bytes utf8_valid chars]. rw !in_range_ascii ?byte_ascii; [lia..|].
  rw (outside a 0 127) ?(outside a 194 223); [lia..|].
  assert (E : ((224 <=? a) && (a <=? 224) && ((160 <=? b) && (b <=? 191)) || (225 <=? a) && (a <=? 236) && ((128 <=? b) && (b <=? 191))
     || (237 <=? a) && (a <=? 237) && ((128 <=? b) && (b <=? 159)) || (238 <=? a) && (a <=? 239) && ((128 <=? b) && (b <=? 191)))
     && ((128 <=? d) && (d <=? 191)) = true) by decide_range.
  rw E. by destruct (N.ltb_spec a 0x80), (N.ltb_spec a 224), (N.ltb_spec a 240); try lia.
Qed.

Lemma put_4 a b d e rest : 240 ≤ a ≤ 244 → 128 ≤ b ≤ 191 → 128 ≤ d ≤ 191 → 128 ≤ e ≤ 191 → (a = 240 → 144 ≤ b) → (a = 244 → b ≤ 143) →
  utf8_valid (put_bytes [a; b; d; e] rest) = utf8_valid rest ∧
  chars (put_bytes [a; b; d; e] rest) = (a - 240) * 262144 + (b - 128) * 4096 + (d - 128) * 64 + (e - 128) :: chars rest.
Proof.
  intros Ha Hb Hd He H1 H2. cbn [put_bytes utf8_valid chars]. rw !in_range_ascii ?byte_ascii; [lia..|].
  rw (outside a 0 127) ?(outside a 194 223) ?(outside a 224 224) ?(outside a 225 236) ?(outside a 237 237) ?(outside a 238 239); [lia..|].
  assert (E : ((240 <=? a) && (a <=? 240) && ((144 <=? b) && (b <=? 191)) || (241 <=? a) && (a <=? 243) && ((128 <=? b) && (b <=? 191))
     || (244 <=? a) && (a <=? 244) && ((128 <=? b) && (b <=? 143))) && ((128 <=? d) && (d <=? 191)) && ((128 <=? e) && (e <=? 191)) = true) by decide_range.
  cbn [andb orb]. rw E. by destruct (N.ltb_spec a 0x80), (N.ltb_spec a 224), (N.ltb_spec a 240); try lia.
Qed.

Lemma chars_put c rest : scalar c = true →
  utf8_valid (put_bytes (encode_bytes c) rest) = utf8_valid rest ∧ chars (put_bytes (encode_bytes c) rest) = c :: chars rest.
Proof.
  rw scalar_spec. intros Hc. rw /encode_bytes.
  destruct (N.ltb_spec c 0x80); [by apply put_1|]. destruct (N.ltb_spec c 0x800).
  { destruct (put_2 (192 + c / 64) (128 + c mod 64) rest) as [-> ->]; [lia..|]. split; [done|]. f_equal. lia. }
  destruct (N.ltb_spec c 0x10000).
  { destruct (put_3 (224 + c / 4096) (128 + c / 64 mod 64) (128 + c mod 64) rest) as [-> ->]; [lia..|]. split; [done|]. f_equal. lia. }
  destruct (put_4 (240 + c / 262144) (128 + c / 4096 mod 64) (128 + c / 64 mod 64) (128 + c mod 64) rest) as [-> ->]; [lia..|].
  split; [done|]. f_equal. lia.
Qed.

Lemma encode_chars s : utf8_valid s = true → encode (chars s) = s.
Proof. revert s. apply valid_ind; [done|]. intros c rest Hc _ IH. destruct (chars_put c rest Hc) as [_ ->]. simpl. by rw IH. Qed.

Lemma chars_scalar s : utf8_valid s = true → Forall (λ c, scalar c = true) (chars s).
Proof. revert s. apply valid_ind; [constructor|]. intros c rest Hc _ IH. destruct (chars_put c rest Hc) as [_ ->]. by constructor. Qed.

Lemma encode_valid l : Forall (λ c, scalar c = true) l → utf8_valid (encode l) = true ∧ chars (encode l) = l.
Proof. induction 1 as [|c l Hc _ [IHv IHc]]; [done|]. simpl. destruct (chars_put c (encode l) Hc) as [-> ->]. by rw IHc. Qed.

Lemma put_bytes_app l s t : (put_bytes l s +:+ t = put_bytes l (s +:+ t))%string.
Proof. induction l as [|b l IH]; [done|]. simpl. rw str_app_cons. by rw IH. Qed.

Lemma encode_app l1 l2 : (encode (l1 ++ l2) = encode l1 +:+ encode l2)%string.
Proof. induction l1 as [|c l1 IH]; [done|]. simpl. by rw IH put_bytes_app. Qed.

Lemma chars_app s t : utf8_valid s = true → chars (s +:+ t) = chars s ++ chars t.
Proof.
  intros Hs. revert s Hs. apply (valid_ind (λ s, chars (s +:+ t) = chars s ++ chars t)); [done|].
  intros c rest Hc _ IH. rw put_bytes_app. destruct (chars_put c rest Hc) as [_ ->]. destruct (chars_put c (rest +:+ t) Hc) as [_ ->].
  by rw IH.
Qed.

(** ** Order *)

(** The order of [Vec<char>]. *)
Fixpoint lex (l1 l2 : list N) : comparison :=
  match l1, l2 with
  | [], [] => Eq
  | [], _ :: _ => Lt
  | _ :: _, [] => Gt
  | x :: l1, y :: l2 => match x ?= y with Eq => lex l1 l2 | c => c end
  end.

Lemma compare_put_same l s t : String.compare (put_bytes l s) (put_bytes l t) = String.compare s t.
Proof. induction l as [|b l IH]; [done|]. simpl. by rw /Ascii.compare N.compare_refl. Qed.

Lemma compare_bytes a b s t : a < 256 → b < 256 →
  String.compare (String (ascii_of_N a) s) (String (ascii_of_N b) t) = match a ?= b with Eq => String.compare s t | c => c end.
Proof. intros Ha Hb. simpl. rw /Ascii.compare -/(byte _) -/(byte _). by rw !byte_ascii. Qed.

(** A code point in base 64, and what the encoder computes from it. *)
Lemma base64 c : ∃ a0 a1 a2 a3, (a1 < 64 ∧ a2 < 64 ∧ a3 < 64 ∧ c = a0 * 262144 + a1 * 4096 + a2 * 64 + a3) ∧
  c / 262144 = a0 ∧ c / 4096 = a0 * 64 + a1 ∧ (a0 * 64 + a1) mod 64 = a1 ∧
  c / 64 = a0 * 4096 + a1 * 64 + a2 ∧ (a0 * 4096 + a1 * 64 + a2) mod 64 = a2 ∧ c mod 64 = a3.
Proof. exists (c / 262144), (c / 4096 mod 64), (c / 64 mod 64), (c mod 64). split_and!; lia. Qed.

(** Encodings of different characters differ where the smaller one has the smaller byte. *)
Lemma compare_put_lt c d s t : scalar c = true → scalar d = true → c < d →
  String.compare (put_bytes (encode_bytes c) s) (put_bytes (encode_bytes d) t) = Lt.
Proof.
  rw !scalar_spec. intros Hc Hd Hlt. rw /encode_bytes.
  destruct (base64 c) as (a0 & a1 & a2 & a3 & Ha & -> & -> & -> & -> & -> & ->).
  destruct (base64 d) as (b0 & b1 & b2 & b3 & Hb & -> & -> & -> & -> & -> & ->).
  destruct (N.ltb_spec c 0x80), (N.ltb_spec d 0x80); try lia;
    destruct (N.ltb_spec c 0x800), (N.ltb_spec d 0x800); try lia;
    destruct (N.ltb_spec c 0x10000), (N.ltb_spec d 0x10000); try lia; cbn [put_bytes];
    repeat (rw compare_bytes; [lia..|]; match goal with |- context [?x ?= ?y] => destruct (N.compare_spec x y); [|done|lia] end); lia.
Qed.

(** Comparing bytes compares characters. *)
Lemma compare_chars s t : utf8_valid s = true → utf8_valid t = true → String.compare s t = lex (chars s) (chars t).
Proof.
  intros Hs. revert s Hs t. apply (valid_ind (λ s, ∀ t, utf8_valid t = true → String.compare s t = lex (chars s) (chars t))).
  { intros [|a t] Ht; [done|]. destruct (valid_cons (String a t)) as (c & rest & _ & _ & _ & ->); done. }
  intros c s Hc Hs IH t Ht. destruct (chars_put c s Hc) as [_ ->].
  destruct t as [|a t0] eqn:E. { simpl. rw /encode_bytes. by repeat case_match. }
  destruct (valid_cons (String a t0)) as (d & rest & Hd & -> & Hr & ->); [done..|].
  simpl. destruct (N.compare_spec c d) as [->|Hlt|Hgt].
  - rw compare_put_same. by apply IH.
  - by apply compare_put_lt.
  - rw String.compare_antisym. by rw compare_put_lt.
Qed.
End Utf8Theory.
