(* ===== verification/Bytes.v ===== *)
(** * Byte buffers

    Slices of byte buffers and integers in little-endian order, as [slice::get],
    [to_le_bytes] and [from_le_bytes] of the standard library. *)

From S2P Require Import Prelude Text.
#[local] Open Scope Z_scope.

(** [bytes.len()] *)
Definition str_len (s : string) : Z := Z.of_nat (String.length s).

(** [bytes.get(start..end)] *)
Definition slice (s : string) (start end_ : Z) : option string :=
  if (0 <=? start) && (start <=? end_) && (end_ <=? str_len s)
  then Some (str_take (Z.to_nat (end_ - start)) (str_drop (Z.to_nat start) s)) else None.

(** [n.to_le_bytes()] of [k] bytes, and back. *)
Fixpoint le_bytes (k : nat) (n : Z) : string :=
  match k with
  | O => ""
  | S k => String (ascii_of_N (Z.to_N (n mod 256))) (le_bytes k (n / 256))
  end.

Fixpoint le_value (s : string) : Z :=
  match s with EmptyString => 0 | String a s => Z.of_N (byte a) + 256 * le_value s end.

(** [u32::try_from(n)], [usize::checked_mul] and [usize::checked_add]. *)
Definition try_u32 (n : Z) : option Z := if n <? 2 ^ 32 then Some n else None.
Definition checked_usize (n : Z) : option Z := if n <? 2 ^ 64 then Some n else None.

(** ** Lemmas *)

Lemma str_len_app s t : str_len (s +:+ t) = str_len s + str_len t.
Proof. rw /str_len str_length_app. lia. Qed.

Lemma str_len_nonneg s : 0 ≤ str_len s.
Proof. rw /str_len. lia. Qed.

Lemma le_bytes_len k n : str_len (le_bytes k n) = Z.of_nat k.
Proof. rw /str_len. f_equal. revert n. induction k as [|k IH]; intros n; [done|]. simpl. by rw IH. Qed.

Lemma byte_ascii_of_Z n : 0 ≤ n < 256 → Z.of_N (byte (ascii_of_N (Z.to_N n))) = n.
Proof. intros Hn. rw /byte N_ascii_embedding; [lia|]. lia. Qed.

Lemma le_value_bytes k n : 0 ≤ n < 256 ^ Z.of_nat k → le_value (le_bytes k n) = n.
Proof.
  revert n. induction k as [|k IH]; intros n Hn; [simpl in *; lia|]. rw Nat2Z.inj_succ Z.pow_succ_r in Hn; [lia|].
  cbn [le_bytes le_value]. rw byte_ascii_of_Z; [apply Z.mod_pos_bound; lia|]. rw IH.
  - split; [apply Z.div_pos; lia|]. apply Z.div_lt_upper_bound; lia.
  - pose proof (Z.div_mod n 256). lia.
Qed.

Lemma le_value_bound s : 0 ≤ le_value s < 256 ^ str_len s.
Proof.
  rw /str_len. induction s as [|a s IH]; [simpl; lia|]. cbn [le_value String.length]. rw Nat2Z.inj_succ Z.pow_succ_r; [lia|].
  assert (Z.of_N (byte a) < 256) by (pose proof (N_ascii_bounded a); rw /byte; lia). lia.
Qed.

Lemma str_drop_app s t : str_drop (String.length s) (s +:+ t) = t.
Proof. induction s as [|a s IH]; [done|]. rw str_app_cons. exact IH. Qed.

Lemma str_take_app s t : str_take (String.length s) (s +:+ t) = s.
Proof. induction s as [|a s IH]; [by destruct t|]. rw str_app_cons /=. by rw IH. Qed.

Lemma str_take_length n s : (n ≤ String.length s)%nat → String.length (str_take n s) = n.
Proof. revert n. induction s as [|a s IH]; intros [|n] Hn; simpl in *; [done|lia|done|]. rw IH; lia. Qed.

(** A slice in the middle of a buffer. *)
Lemma slice_mid s t u start end_ : start = str_len s → end_ = start + str_len t → slice (s +:+ t +:+ u) start end_ = Some t.
Proof.
  intros -> ->. rw /slice !str_len_app. pose proof (str_len_nonneg s). pose proof (str_len_nonneg t). pose proof (str_len_nonneg u).
  destruct (Z.leb_spec 0 (str_len s)), (Z.leb_spec (str_len s) (str_len s + str_len t)), (Z.leb_spec (str_len s + str_len t) (str_len s + (str_len t + str_len u))); try lia.
  simpl. replace (str_len s + str_len t - str_len s) with (str_len t) by lia. rw /str_len !Nat2Z.id str_drop_app. by rw str_take_app.
Qed.

Lemma slice_is_Some s start end_ : 0 ≤ start ≤ end_ → end_ ≤ str_len s → ∃ t, slice s start end_ = Some t ∧ str_len t = end_ - start.
Proof.
  intros H1 H2. rw /slice. destruct (Z.leb_spec 0 start), (Z.leb_spec start end_), (Z.leb_spec end_ (str_len s)); try lia. simpl.
  eexists. split; [done|]. rw /str_len in H2 |- *. rw str_take_length; [rw str_drop_length; lia|lia].
Qed.

Lemma slice_Some s start end_ t : slice s start end_ = Some t → 0 ≤ start ≤ end_ ∧ end_ ≤ str_len s ∧ str_len t = end_ - start.
Proof.
  rw /slice. destruct (Z.leb_spec 0 start), (Z.leb_spec start end_), (Z.leb_spec end_ (str_len s)); simpl; try done. intros [= <-].
  split; [done|]. split; [done|]. rw /str_len in H1 |- *. rw str_take_length; [rw str_drop_length; lia|lia].
Qed.
