(* ===== verification/StableSort.v ===== *)
(** * Stable sorting and top-k

    [slice::sort_by] is a stable sort by a comparison function.  This file has an
    executable stable sort, its laws for comparisons that are total preorders, and the
    facts about keeping the first rows that the paging and top-k code rests on. *)

From S2P Require Import Prelude.

(** ** Comparisons *)

(** What [sort_by] asks of a comparison: a total preorder. *)
Class TotalPreorder {A} (cmp : A → A → comparison) : Prop := {
  cmp_opp : ∀ x y, cmp y x = CompOpp (cmp x y);
  cmp_trans : ∀ x y z, cmp x y ≠ Gt → cmp y z ≠ Gt → cmp x z ≠ Gt;
}.

Definition cmp_le {A} (cmp : A → A → comparison) (x y : A) : Prop := cmp x y ≠ Gt.

(** [Ordering::then]: the first decides unless it is [Equal]. *)
Definition then_cmp (c d : comparison) : comparison := match c with Eq => d | _ => c end.

(** [Ordering::reverse]. *)
Definition reverse_if (descending : bool) (c : comparison) : comparison := if descending then CompOpp c else c.

Section laws.
Context {A : Type} (cmp : A → A → comparison) `{!TotalPreorder cmp}.

Lemma cmp_refl x : cmp x x = Eq.
Proof. pose proof (cmp_opp x x) as H. by destruct (cmp x x). Qed.

Lemma cmp_not_gt x y : cmp x y ≠ Gt ↔ cmp y x ≠ Lt.
Proof. rw (cmp_opp x y). by destruct (cmp x y). Qed.

Lemma cmp_gt_le x y : cmp x y = Gt → cmp_le cmp y x.
Proof. rw /cmp_le (cmp_opp x y). by intros ->. Qed.

Lemma cmp_total x y : cmp_le cmp x y ∨ cmp_le cmp y x.
Proof. rw /cmp_le (cmp_opp x y). destruct (cmp x y); naive_solver. Qed.

Lemma cmp_lt_le_trans x y z : cmp x y = Lt → cmp_le cmp y z → cmp x z = Lt.
Proof.
  intros Hxy Hyz. destruct (cmp x z) eqn:Hxz; [|done|].
  - exfalso. assert (Hzx : cmp z x ≠ Gt) by (rw (cmp_opp x z) Hxz; done).
    apply (cmp_trans y z x Hyz Hzx). by rw (cmp_opp x y) Hxy.
  - exfalso. apply (cmp_trans x y z); [by rw Hxy|done|done].
Qed.

Lemma cmp_eq_subst x y z : cmp x y = Eq → cmp x z = cmp y z.
Proof.
  intros Hxy. assert (Hyx : cmp y x = Eq) by (rw (cmp_opp x y) Hxy; done).
  assert (H1 : ∀ x y, cmp x y = Eq → cmp_le cmp y z → cmp_le cmp x z).
  { intros a b Hab Hbz. apply (cmp_trans a b z); [by rw Hab|done]. }
  assert (H2 : ∀ x y, cmp y x = Eq → cmp_le cmp z y → cmp_le cmp z x).
  { intros a b Hba Hzb. apply (cmp_trans z b a); [done|by rw Hba]. }
  pose proof (H1 x y Hxy) as A1. pose proof (H1 y x Hyx) as A2. pose proof (H2 x y Hyx) as B1. pose proof (H2 y x Hxy) as B2.
  rw /cmp_le (cmp_opp y z) (cmp_opp x z) in B1 B2. rw /cmp_le in A1 A2.
  destruct (cmp x z), (cmp y z); simpl in *; try done; exfalso; try (by apply A1); try (by apply A2); try (by apply B1); by apply B2.
Qed.

#[global] Instance cmp_le_transitive : Transitive (cmp_le cmp).
Proof. intros x y z. apply cmp_trans. Qed.
End laws.

(** Comparisons built from others. *)
Lemma total_const {A} : TotalPreorder (λ _ _ : A, Eq).
Proof. by split. Qed.

Lemma total_on {A B} (f : A → B) (cmp : B → B → comparison) : TotalPreorder cmp → TotalPreorder (λ x y, cmp (f x) (f y)).
Proof. intros [H1 H2]. split; [intros; apply H1|intros x y z; apply H2]. Qed.

Lemma total_then {A} (c d : A → A → comparison) : TotalPreorder c → TotalPreorder d → TotalPreorder (λ x y, then_cmp (c x y) (d x y)).
Proof.
  intros Hc Hd. split.
  - intros x y. rw (cmp_opp x y) (cmp_opp (cmp:=d) x y). by destruct (c x y).
  - intros x y z H1 H2. destruct (c x y) eqn:Hxy; simpl in H1; [|clear H1|done].
    + rw (cmp_eq_subst c x y z Hxy). destruct (c y z); simpl in *; [|done|done]. by apply (cmp_trans (cmp:=d) x y z).
    + rw (cmp_lt_le_trans c x y z Hxy) //. rw /cmp_le. by destruct (c y z).
Qed.

#[global] Instance string_total : TotalPreorder String.compare.
Proof.
  assert (Hle : ∀ s t, String.compare s t ≠ Gt ↔ String.le s t).
  { intros s t. rw /String.le /String.leb. destruct (String.compare s t); split; try done; intros H; by destruct H. }
  split; [intros; apply String.compare_antisym|]. intros x y z. rw !Hle. apply transitivity.
Qed.

#[global] Instance Z_total : TotalPreorder Z.compare.
Proof. split; [intros; apply Z.compare_antisym|]. intros x y z. rw !Z.compare_le_iff. lia. Qed.

#[global] Instance nat_total : TotalPreorder Nat.compare.
Proof. split; [intros; apply Nat.compare_antisym|]. intros x y z. rw !Nat.compare_le_iff. lia. Qed.

(** ** The sort *)

Fixpoint insert_by {A} (cmp : A → A → comparison) (x : A) (l : list A) : list A :=
  match l with
  | [] => [x]
  | y :: l' => match cmp x y with Gt => y :: insert_by cmp x l' | _ => x :: l end
  end.

Fixpoint sort_by {A} (cmp : A → A → comparison) (l : list A) : list A :=
  match l with
  | [] => []
  | x :: l => insert_by cmp x (sort_by cmp l)
  end.

(** Merging, with the left list first among equals. *)
Fixpoint merge_by {A} (cmp : A → A → comparison) (l1 : list A) : list A → list A :=
  fix go (l2 : list A) : list A :=
    match l1, l2 with
    | [], _ => l2
    | _, [] => l1
    | x :: l1', y :: l2' => match cmp x y with Gt => y :: go l2' | _ => x :: merge_by cmp l1' l2 end
    end.

Section sorting.
Context {A : Type} (cmp : A → A → comparison).

Lemma insert_by_cons x y l : insert_by cmp x (y :: l) = match cmp x y with Gt => y :: insert_by cmp x l | _ => x :: y :: l end.
Proof. done. Qed.

Lemma insert_by_perm x l : insert_by cmp x l ≡ₚ x :: l.
Proof. induction l as [|y l IH]; simpl; [done|]. destruct (cmp x y); try done. rw IH. apply Permutation_swap. Qed.

Lemma sort_by_perm l : sort_by cmp l ≡ₚ l.
Proof. induction l as [|x l IH]; simpl; [done|]. by rw insert_by_perm IH. Qed.

Lemma sort_by_fmap {B} (f : B → A) l : sort_by cmp (f <$> l) = f <$> sort_by (λ x y, cmp (f x) (f y)) l.
Proof.
  assert (Hi : ∀ x s, insert_by cmp (f x) (f <$> s) = f <$> insert_by (λ x y, cmp (f x) (f y)) x s).
  { intros x s. induction s as [|y s IH]; [done|]. simpl. destruct (cmp (f x) (f y)); [done|done|]. by rw IH. }
  induction l as [|x l IH]; [done|]. simpl. by rw IH Hi.
Qed.

Lemma sort_by_length l : length (sort_by cmp l) = length l.
Proof. by rw sort_by_perm. Qed.

Lemma elem_of_sort_by x l : x ∈ sort_by cmp l ↔ x ∈ l.
Proof. by rw sort_by_perm. Qed.

Lemma merge_by_nil_l l : merge_by cmp [] l = l.
Proof. by destruct l. Qed.

Lemma merge_by_nil_r l : merge_by cmp l [] = l.
Proof. by destruct l. Qed.

Lemma merge_by_cons x l1 y l2 :
  merge_by cmp (x :: l1) (y :: l2) = match cmp x y with Gt => y :: merge_by cmp (x :: l1) l2 | _ => x :: merge_by cmp l1 (y :: l2) end.
Proof. done. Qed.

(** A list in order is left alone. *)
Lemma sort_by_sorted l : StronglySorted (cmp_le cmp) l → sort_by cmp l = l.
Proof.
  induction 1 as [|x l _ IH Hx]; simpl; [done|]. rw IH. destruct l as [|y l]; [done|]. simpl.
  apply Forall_cons in Hx as [Hxy _]. rw /cmp_le in Hxy. by destruct (cmp x y).
Qed.

(** Only the comparison of the elements matters. *)
Lemma sort_by_ext (cmp' : A → A → comparison) l :
  (∀ x y, x ∈ l → y ∈ l → cmp x y = cmp' x y) → sort_by cmp l = sort_by cmp' l.
Proof.
  intros Hc. assert (Hi : ∀ x s, x ∈ l → (∀ y, y ∈ s → y ∈ l) → insert_by cmp x s = insert_by cmp' x s).
  { intros x s Hx Hs. induction s as [|y s IH]; [done|]. simpl. rw Hc; [done|apply Hs; left|]. rw IH; [|done]. intros z Hz. apply Hs. by right. }
  assert (Hsub : ∀ y, y ∈ l → y ∈ l) by done. revert Hsub. generalize l at 1 3 4 as k. intros k Hk.
  induction k as [|x k IH]; [done|]. simpl. rw IH; [intros y Hy; apply Hk; by right|]. apply Hi; [apply Hk; left|].
  intros y. rw -IH; [intros z Hz; apply Hk; by right|]. rw elem_of_sort_by. intros Hy. apply Hk. by right.
Qed.

Context `{!TotalPreorder cmp}.

Lemma insert_by_sorted x l : StronglySorted (cmp_le cmp) l → StronglySorted (cmp_le cmp) (insert_by cmp x l).
Proof.
  induction 1 as [|y l Hl IH Hy]; simpl; [repeat constructor|].
  destruct (cmp x y) eqn:Hxy.
  3: { constructor; [done|]. rw insert_by_perm. constructor; [by apply cmp_gt_le|done]. }
  all: assert (Hle : cmp_le cmp x y) by (rw /cmp_le Hxy; done).
  all: constructor; [by constructor|]; constructor; [done|]; eapply Forall_impl; [exact Hy|];
    intros z Hz; simpl in Hz; by apply (cmp_trans x y z).
Qed.

Lemma sort_by_in_order l : StronglySorted (cmp_le cmp) (sort_by cmp l).
Proof. induction l as [|x l IH]; simpl; [constructor|]. by apply insert_by_sorted. Qed.

Lemma sort_by_idemp l : sort_by cmp (sort_by cmp l) = sort_by cmp l.
Proof. apply sort_by_sorted, sort_by_in_order. Qed.

(** Sorting keeps the order of what a test selects. *)
Lemma filter_insert_by (p : A → bool) x l : StronglySorted (cmp_le cmp) l →
  List.filter p (insert_by cmp x l) = if p x then insert_by cmp x (List.filter p l) else List.filter p l.
Proof.
  induction 1 as [|y l Hl IH Hy]; [done|]. rw insert_by_cons.
  assert (Hle : cmp x y ≠ Gt → List.filter p (x :: y :: l) = if p x then insert_by cmp x (List.filter p (y :: l)) else List.filter p (y :: l)).
  { intros Hxy. cbn [List.filter]. destruct (p x); [|done]. assert (Hall : Forall (λ z, cmp x z ≠ Gt) (y :: l)).
    { constructor; [done|]. eapply Forall_impl; [exact Hy|]. intros z Hz. by apply (cmp_trans x y z). }
    rw -/(List.filter p (y :: l)). assert (Hf : Forall (λ z, cmp x z ≠ Gt) (List.filter p (y :: l))).
    { rw Forall_forall in Hall. apply Forall_forall. intros z Hz%list_elem_of_In. apply filter_In in Hz as [Hz _]. by apply Hall, list_elem_of_In. }
    destruct (List.filter p (y :: l)) as [|z l']; [done|]. apply Forall_cons in Hf as [Hz _]. rw insert_by_cons. by destruct (cmp x z). }
  destruct (cmp x y) eqn:Hxy; [by apply Hle..|]. cbn [List.filter]. rw IH.
  destruct (p y), (p x); try done. by rw insert_by_cons Hxy.
Qed.

Lemma sort_by_filter (p : A → bool) l : List.filter p (sort_by cmp l) = sort_by cmp (List.filter p l).
Proof.
  induction l as [|x l IH]; [done|]. simpl. rw filter_insert_by; [apply sort_by_in_order|]. rw IH. by destruct (p x).
Qed.

Lemma insert_by_merge x l : insert_by cmp x l = merge_by cmp [x] l.
Proof. induction l as [|y l IH]; [done|]. rw merge_by_cons merge_by_nil_l -IH. simpl. by destruct (cmp x y). Qed.

Lemma insert_merge x l1 l2 :
  StronglySorted (cmp_le cmp) l1 → insert_by cmp x (merge_by cmp l1 l2) = merge_by cmp (insert_by cmp x l1) l2.
Proof.
  intros H1. revert l2. induction H1 as [|y l1 Hl1 IH Hy]; intros l2; [by rw merge_by_nil_l insert_by_merge|].
  induction l2 as [|z l2 IH2]; [by rw !merge_by_nil_r|].
  rw merge_by_cons (insert_by_cons x y l1). rw (insert_by_cons x y l1) in IH2. destruct (cmp x y) eqn:Hxy.
  - rw merge_by_cons (cmp_eq_subst cmp x y z Hxy). destruct (cmp y z) eqn:Hyz; rw insert_by_cons.
    1,2: by rw Hxy merge_by_cons Hyz.
    by rw (cmp_eq_subst cmp x y z Hxy) Hyz IH2.
  - rw merge_by_cons. destruct (cmp y z) eqn:Hyz; rw insert_by_cons.
    1,2: rw Hxy (cmp_lt_le_trans cmp x y z Hxy); [by rw /cmp_le Hyz|]; by rw merge_by_cons Hyz.
    destruct (cmp x z) eqn:Hxz; [by rw merge_by_cons Hyz..|]. by rw IH2.
  - rw merge_by_cons. destruct (cmp y z) eqn:Hyz; rw insert_by_cons.
    1,2: by rw Hxy IH.
    assert (Hxz : cmp x z = Gt).
    { rw (cmp_opp z x). rw (cmp_lt_le_trans cmp z y x) //; [by rw (cmp_opp y z) Hyz|by apply cmp_gt_le]. }
    by rw Hxz IH2.
Qed.

(** Sorting two parts is sorting each and merging. *)
Lemma sort_by_app l1 l2 : sort_by cmp (l1 ++ l2) = merge_by cmp (sort_by cmp l1) (sort_by cmp l2).
Proof.
  induction l1 as [|x l1 IH]; [by rw merge_by_nil_l|]. simpl. rw IH. apply insert_merge, sort_by_in_order.
Qed.

Lemma take_merge_take n l1 l2 :
  take n (merge_by cmp l1 l2) = take n (merge_by cmp (take n l1) l2) ∧ take n (merge_by cmp l1 l2) = take n (merge_by cmp l1 (take n l2)).
Proof.
  revert l1 l2. induction n as [|n IH]; intros l1 l2; [done|].
  destruct l1 as [|x l1]; [rw take_nil !merge_by_nil_l; by rw take_take Nat.min_id|].
  destruct l2 as [|y l2]; [rw take_nil !merge_by_nil_r; by rw take_take Nat.min_id|].
  assert (Hd : ∀ z (l : list A), take n (z :: take n l) = take n (z :: l)).
  { intros z l. destruct n as [|n]; [done|]. simpl. by rw take_take Nat.min_l; [lia|]. }
  cbn [take]. rw !merge_by_cons. destruct (cmp x y); cbn [take]; (split; f_equal); try apply IH.
  1,2: destruct (IH l1 (y :: l2)) as [_ ->]; destruct (IH l1 (y :: take n l2)) as [_ ->]; by rw Hd.
  destruct (IH (x :: l1) l2) as [-> _]; destruct (IH (x :: take n l1) l2) as [-> _]; by rw Hd.
Qed.

(** Truncating early loses nothing: the first [n] of a sorted whole are found among the
    first [n] of its parts. *)
Lemma top_k_merge n l1 l2 : take n (sort_by cmp (take n (sort_by cmp l1) ++ l2)) = take n (sort_by cmp (l1 ++ l2)).
Proof.
  rw !sort_by_app. rw (sort_by_sorted (take n (sort_by cmp l1))).
  { pose proof (sort_by_in_order l1) as Hs. rw -(take_drop n (sort_by cmp l1)) in Hs. by apply StronglySorted_app_1_l in Hs. }
  symmetry. apply take_merge_take.
Qed.

Lemma top_k_merge_r n l1 l2 : take n (sort_by cmp (l1 ++ take n (sort_by cmp l2))) = take n (sort_by cmp (l1 ++ l2)).
Proof.
  rw !sort_by_app. rw (sort_by_sorted (take n (sort_by cmp l2))).
  { pose proof (sort_by_in_order l2) as Hs. rw -(take_drop n (sort_by cmp l2)) in Hs. by apply StronglySorted_app_1_l in Hs. }
  symmetry. apply take_merge_take.
Qed.
End sorting.
