(* ===== verification/Json.v ===== *)
(** * JSON documents (the [serde_json::Value] the sources pass around)

    Objects are association lists: the lock file enables serde_json's
    [preserve_order] feature (its [indexmap] dependency), so an object keeps the
    order in which keys were inserted and inserting an existing key overwrites
    the value in place.  Numbers are serde_json's three cases; a finite double is
    [mantissa * 2 ^ exponent]. *)

From S2P Require Import Prelude Text.

Record f64 : Type := mkF64 { mantissa : Z; exponent : Z }.

Inductive Number : Type :=
| PosInt (n : Z)
| NegInt (n : Z)
| NFloat (f : f64).

Inductive Value : Type :=
| VNull
| VBool (b : bool)
| VNumber (n : Number)
| VString (s : string)
| VArray (l : list Value)
| VObject (m : list (string * Value)).

(** [serde_json::Map] *)
Definition Object : Type := list (string * Value).

Section value_ind.
Context (P : Value → Prop).
Hypothesis HNull : P VNull.
Hypothesis HBool : ∀ b, P (VBool b).
Hypothesis HNumber : ∀ n, P (VNumber n).
Hypothesis HString : ∀ s, P (VString s).
Hypothesis HArray : ∀ l, Forall P l → P (VArray l).
Hypothesis HObject : ∀ m, Forall (λ kv, P kv.2) m → P (VObject m).

Fixpoint Value_nested_ind (v : Value) : P v :=
  match v with
  | VNull => HNull
  | VBool b => HBool b
  | VNumber n => HNumber n
  | VString s => HString s
  | VArray l => HArray l
      ((fix go (l : list Value) : Forall P l :=
          match l with
          | [] => Forall_nil_2 P
          | v :: l => Forall_cons_2 P v l (Value_nested_ind v) (go l)
          end) l)
  | VObject m => HObject m
      ((fix go (m : list (string * Value)) : Forall (λ kv, P kv.2) m :=
          match m with
          | [] => Forall_nil_2 _
          | kv :: m => Forall_cons_2 (λ kv, P kv.2) kv m (Value_nested_ind kv.2) (go m)
          end) m)
  end.
End value_ind.

(** [Map::get] and [Map::insert] of an insertion-ordered object. *)
Fixpoint obj_get {A} (k : string) (m : list (string * A)) : option A :=
  match m with
  | [] => None
  | (k', v) :: m => if decide (k' = k) then Some v else obj_get k m
  end.

Fixpoint obj_insert {A} (k : string) (v : A) (m : list (string * A)) : list (string * A) :=
  match m with
  | [] => [(k, v)]
  | (k', v') :: m => if decide (k' = k) then (k', v) :: m else (k', v') :: obj_insert k v m
  end.

(** [map.get(k).map(f)], for an [f] that recurs on the value found. *)
Definition obj_get_map {A B} (k : string) (f : A → B) : list (string * A) → option B :=
  fix go (m : list (string * A)) :=
    match m with
    | [] => None
    | (k', v) :: m => if decide (k' = k) then Some (f v) else go m
    end.

Section object_laws.
Context {A : Type}.
Implicit Types m : list (string * A).

Lemma obj_get_map_spec {B} k (f : A → B) m : obj_get_map k f m = f <$> obj_get k m.
Proof. induction m as [|[k' v'] m IH]; simpl; [done|]. by case_decide. Qed.

Lemma obj_get_insert_eq k v m : obj_get k (obj_insert k v m) = Some v.
Proof.
  induction m as [|[k' v'] m IH]; simpl; [by rw decide_True|].
  case_decide; simpl; [by rw decide_True|by rw decide_False].
Qed.

Lemma obj_get_insert_ne k k' v m : k ≠ k' → obj_get k' (obj_insert k v m) = obj_get k' m.
Proof.
  intros Hne. induction m as [|[k0 v0] m IH]; simpl; [by rw decide_False|].
  case_decide; simpl; case_decide; try done; congruence.
Qed.

Lemma obj_get_insert k k' v m :
  obj_get k' (obj_insert k v m) = if decide (k = k') then Some v else obj_get k' m.
Proof.
  case_decide; [subst; apply obj_get_insert_eq|by apply obj_get_insert_ne].
Qed.

Lemma obj_insert_get_id k v m : obj_get k m = Some v → obj_insert k v m = m.
Proof.
  induction m as [|[k' v'] m IH]; simpl; [done|].
  case_decide; [by intros [= ->]|]. intros ?. f_equal. auto.
Qed.
End object_laws.

Definition obj_keys {A} (m : list (string * A)) : list string := m.*1.
Definition obj_contains {A} (k : string) (m : list (string * A)) : bool :=
  match obj_get k m with Some _ => true | None => false end.

(** [Map::remove]: with [preserve_order] this is [swap_remove], the last entry takes
    the place of the removed one. *)
Fixpoint obj_remove {A} (k : string) (m : list (string * A)) : list (string * A) :=
  match m with
  | [] => []
  | (k', v) :: m =>
      if decide (k' = k) then
        match last m with Some kv => kv :: removelast m | None => [] end
      else (k', v) :: obj_remove k m
  end.

(** ** Numbers *)

(** A JSON integer: serde keeps the sign in the variant. *)
Definition int (n : Z) : Value := VNumber (if (n <? 0)%Z then NegInt n else PosInt n).

(** [f64::partial_cmp] of finite doubles: bring both to the smaller exponent. *)
Definition f64_compare (a b : f64) : comparison :=
  let e := Z.min (exponent a) (exponent b) in
  (mantissa a * 2 ^ (exponent a - e) ?= mantissa b * 2 ^ (exponent b - e))%Z.

Definition f64_eqb (a b : f64) : bool := match f64_compare a b with Eq => true | _ => false end.

(** ** Numbers as text

    [print_f64] is how serde_json prints a finite double; [parse_f64] is
    [str::parse::<f64>], whose inner [None] stands for an infinity or a NaN. *)
Class FloatText : Type := {
  print_f64 : f64 → string;
  parse_f64 : string → option (option f64);
}.

(** The one representation of a finite double: an odd mantissa, or zero. *)
Definition canonical_f64 (f : f64) : bool :=
  if (mantissa f =? 0)%Z then (exponent f =? 0)%Z
  else Z.odd (mantissa f) && (Z.abs (mantissa f) <? 2 ^ 53)%Z && (-1074 <=? exponent f)%Z && (exponent f <=? 1023)%Z.

(** Digits, letters, signs and points. *)
Definition bare_char (a : Ascii.ascii) : bool :=
  in_range 48 57 a || in_range 65 90 a || in_range 97 122 a || Ascii.eqb a "-" || Ascii.eqb a "+" || Ascii.eqb a ".".

(** Documented: a printed double has a fraction or an exponent, nothing but digits,
    signs, a point and an exponent letter, and parsing gives it back. *)
Class FloatTextLaws (ft : FloatText) : Prop := {
  print_f64_not_integer : ∀ f, canonical_f64 f = true → parse_i64 (print_f64 f) = None;
  parse_print_f64 : ∀ f, canonical_f64 f = true → parse_f64 (print_f64 f) = Some (Some f);
  print_f64_bare : ∀ f, print_f64 f ≠ "" ∧ all_chars bare_char (print_f64 f) = true;
}.

(** [Number::to_string] *)
Definition number_to_string `{ft : FloatText} (n : Number) : string :=
  match n with
  | PosInt n | NegInt n => print_int n
  | NFloat f => print_f64 f
  end.

(** ** Accessors and equality

    [PartialEq] on values: numbers are equal within one variant only, floats as
    numbers; objects are equal when they have the same size and the same value under
    every key, whatever the order. *)

Definition as_str (v : Value) : option string := match v with VString s => Some s | _ => None end.
Definition as_bool (v : Value) : option bool := match v with VBool b => Some b | _ => None end.
Definition as_array (v : Value) : option (list Value) := match v with VArray l => Some l | _ => None end.
Definition as_object (v : Value) : option (list (string * Value)) := match v with VObject m => Some m | _ => None end.
Definition is_null (v : Value) : bool := match v with VNull => true | _ => false end.

Definition number_eqb (a b : Number) : bool :=
  match a, b with
  | PosInt a, PosInt b | NegInt a, NegInt b => (a =? b)%Z
  | NFloat a, NFloat b => f64_eqb a b
  | _, _ => false
  end.

Fixpoint value_eqb (a b : Value) {struct a} : bool :=
  match a, b with
  | VNull, VNull => true
  | VBool a, VBool b => Bool.eqb a b
  | VNumber a, VNumber b => number_eqb a b
  | VString a, VString b => String.eqb a b
  | VArray l, VArray r =>
      (fix go (l r : list Value) : bool :=
         match l, r with
         | [], [] => true
         | x :: l, y :: r => value_eqb x y && go l r
         | _, _ => false
         end) l r
  | VObject l, VObject r =>
      (length l =? length r) &&
      (fix go (l : list (string * Value)) : bool :=
         match l with
         | [] => true
         | (k, v) :: l => match obj_get k r with Some w => value_eqb v w | None => false end && go l
         end) l
  | _, _ => false
  end.

Definition opt_value_eqb (a b : option Value) : bool :=
  match a, b with
  | Some a, Some b => value_eqb a b
  | None, None => true
  | _, _ => false
  end.

(** ** Well-formed values: no object has a key twice *)
Inductive wf_value : Value → Prop :=
| wf_null : wf_value VNull
| wf_bool b : wf_value (VBool b)
| wf_number n : wf_value (VNumber n)
| wf_string s : wf_value (VString s)
| wf_array l : Forall wf_value l → wf_value (VArray l)
| wf_object m : NoDup (obj_keys m) → Forall (λ kv, wf_value kv.2) m → wf_value (VObject m).

Lemma f64_compare_at e a b :
  (e ≤ exponent a)%Z → (e ≤ exponent b)%Z →
  f64_compare a b = (mantissa a * 2 ^ (exponent a - e) ?= mantissa b * 2 ^ (exponent b - e))%Z.
Proof.
  intros Ha Hb. rw /f64_compare. set (m := Z.min (exponent a) (exponent b)).
  assert (Hm : (e ≤ m ∧ m ≤ exponent a ∧ m ≤ exponent b)%Z) by (rw /m; lia). clearbody m.
  replace (exponent a - e)%Z with ((exponent a - m) + (m - e))%Z by lia.
  replace (exponent b - e)%Z with ((exponent b - m) + (m - e))%Z by lia.
  rw (Z.pow_add_r 2 (exponent a - m) (m - e)); [lia..|]. rw (Z.pow_add_r 2 (exponent b - m) (m - e)); [lia..|].
  rw !Z.mul_assoc. apply Zmult_compare_compat_r.
  apply Z.lt_gt, Z.pow_pos_nonneg; lia.
Qed.

Section more_object_laws.
Context {A : Type}.
Implicit Types m : list (string * A).

Lemma obj_get_None k m : obj_get k m = None ↔ k ∉ obj_keys m.
Proof.
  induction m as [|[k' v] m IH]; simpl.
  - split; [intros _ ?%elem_of_nil; done|done].
  - rw not_elem_of_cons. case_decide; [naive_solver|]. rw IH. naive_solver.
Qed.

Lemma obj_get_elem k v m : obj_get k m = Some v → (k, v) ∈ m.
Proof.
  induction m as [|[k' v'] m IH]; simpl; [done|]. case_decide; [intros [= ->]; subst; left|right; auto].
Qed.

Lemma obj_get_NoDup k v m : NoDup (obj_keys m) → (k, v) ∈ m → obj_get k m = Some v.
Proof.
  induction m as [|[k' v'] m IH]; simpl; [intros _ ?%elem_of_nil; done|].
  intros [Hk Hnd]%NoDup_cons [[= -> ->]|Hin]%elem_of_cons; [by rw decide_True|].
  rw decide_False; [|by apply IH]. intros ->. apply Hk. apply (list_elem_of_fmap_2 fst) in Hin. done.
Qed.

Lemma obj_insert_fresh k v m : k ∉ obj_keys m → obj_insert k v m = m ++ [(k, v)].
Proof.
  induction m as [|[k' v'] m IH]; simpl; [done|]. intros [Hne Hk]%not_elem_of_cons.
  rw decide_False; [congruence|]. by rw IH.
Qed.

Lemma obj_insert_keys k v m : obj_keys (obj_insert k v m) = obj_keys m ++ (if decide (k ∈ obj_keys m) then [] else [k]).
Proof.
  induction m as [|[k' v'] m IH]; simpl.
  - done.
  - destruct (decide (k' = k)) as [->|Hne]; simpl.
    + rw decide_True; [left|]. by rw app_nil_r.
    + rw IH. do 2 case_decide; try done; exfalso; set_solver.
Qed.

Lemma obj_insert_NoDup k v m : NoDup (obj_keys m) → NoDup (obj_keys (obj_insert k v m)).
Proof.
  intros Hnd. rw obj_insert_keys. case_decide; [by rw app_nil_r|].
  apply NoDup_app. split_and!; [done|set_solver|apply NoDup_singleton].
Qed.

Lemma obj_keys_filter k m :
  obj_keys (filter (λ kv, kv.1 ≠ k) m) = filter (λ x, x ≠ k) (obj_keys m).
Proof. exact (filter_fmap_key fst (λ x, x ≠ k) m). Qed.

Lemma obj_remove_perm k m :
  NoDup (obj_keys m) → obj_remove k m ≡ₚ filter (λ kv, kv.1 ≠ k) m.
Proof.
  induction m as [|[k' v] m IH]; [done|]. simpl. intros [Hk Hnd]%NoDup_cons. rw filter_cons /=.
  case_decide as Hkk; case_decide; try done; [|by rw IH].
  subst. assert (Hf : filter (λ kv, kv.1 ≠ k) m = m).
  { clear IH Hnd. induction m as [|[k1 v1] m IH]; [done|]. simpl in Hk. apply not_elem_of_cons in Hk as [? ?].
    rw filter_cons decide_True /=; [naive_solver|]. by rw IH. }
  rw Hf. destruct (last m) as [kv|] eqn:Hl; [|by apply last_None in Hl as ->].
  apply last_Some in Hl as [m' ->]. rw removelast_last. apply Permutation_cons_append.
Qed.

Lemma obj_get_perm k m1 m2 : NoDup (obj_keys m1) → m1 ≡ₚ m2 → obj_get k m1 = obj_get k m2.
Proof.
  intros Hnd Hp. assert (Hnd2 : NoDup (obj_keys m2)) by (by rw /obj_keys -Hp).
  destruct (obj_get k m1) as [v|] eqn:H1.
  - symmetry. apply obj_get_NoDup; [done|]. rw -Hp. by apply obj_get_elem.
  - symmetry. apply obj_get_None. apply obj_get_None in H1. by rw /obj_keys -Hp.
Qed.

Lemma obj_get_remove k k' m :
  NoDup (obj_keys m) → obj_get k' (obj_remove k m) = if decide (k = k') then None else obj_get k' m.
Proof.
  intros Hnd. pose proof (obj_remove_perm k m Hnd) as Hp.
  assert (Hf : NoDup (obj_keys (filter (λ kv, kv.1 ≠ k) m))).
  { rw obj_keys_filter. by apply NoDup_filter. }
  rw (obj_get_perm k' _ _ _ Hp); [by rw /obj_keys Hp|].
  clear Hp Hf Hnd. induction m as [|[k1 v1] m IH]; simpl; [by case_decide|].
  rw filter_cons /=. destruct (decide (k1 = k)) as [->|Hk].
  - rw decide_False; [naive_solver|]. rw IH. by case_decide.
  - rw decide_True //=. rw IH. case_decide; [|done]. subst. by rw decide_False.
Qed.

Lemma obj_remove_NoDup k m : NoDup (obj_keys m) → NoDup (obj_keys (obj_remove k m)).
Proof.
  intros Hnd. rw /obj_keys (obj_remove_perm k m Hnd) -/(obj_keys _) obj_keys_filter. by apply NoDup_filter.
Qed.
End more_object_laws.

Lemma f64_compare_refl a : f64_compare a a = Eq.
Proof. apply Z.compare_refl. Qed.

Lemma f64_eqb_refl a : f64_eqb a a = true.
Proof. by rw /f64_eqb f64_compare_refl. Qed.

Lemma number_eqb_refl n : number_eqb n n = true.
Proof. destruct n; simpl; [apply Z.eqb_refl..|apply f64_eqb_refl]. Qed.

Lemma value_eqb_refl v : wf_value v → value_eqb v v = true.
Proof.
  induction v as [| | | |l IH|m IH] using Value_nested_ind; intros Hwf; simpl.
  - done.
  - apply eqb_reflx.
  - apply number_eqb_refl.
  - apply String.eqb_refl.
  - inversion_clear Hwf as [| | | |? Hl|]. induction Hl as [|v l Hv Hl IHl]; [done|].
    apply Forall_cons in IH as [IHv IH]. by rw IHv // IHl.
  - inversion_clear Hwf as [| | | | |? Hnd Hm]. rw Nat.eqb_refl /=.
    assert (Hget : Forall (λ kv, obj_get kv.1 m = Some kv.2) m).
    { apply Forall_forall. intros [k v] Hin. by apply obj_get_NoDup. }
    revert Hget. generalize m at 1 3 as r. intros r Hget. clear Hnd.
    induction Hget as [|[k v] m Hk Hget IHm]; [done|]. simpl in *.
    apply Forall_cons in IH as [IHv IH]. apply Forall_cons in Hm as [Hv Hm].
    rw Hk IHv //. by apply IHm.
Qed.

(** ** A text for doubles

    Mantissa and exponent, separated by a letter: an instance of the laws. *)
Module FloatTextDemo.
Definition demo_print (f : f64) : string := print_int (mantissa f) +:+ "e" +:+ print_int (exponent f).
Definition demo_parse (s : string) : option (option f64) :=
  match split_on "e" s with
  | [m; e] => m ← parse_i64 m; e ← parse_i64 e; Some (Some (mkF64 m e))
  | _ => None
  end.
#[export] Instance demo_text : FloatText := { print_f64 := demo_print; parse_f64 := demo_parse }.

#[export] Instance demo_text_laws : FloatTextLaws demo_text.
Proof.
  assert (Hr : ∀ f, canonical_f64 f = true → (Z.abs (mantissa f) < 2 ^ 53 ∧ -1074 ≤ exponent f ≤ 1023)%Z).
  { intros f. rw /canonical_f64. case_match; [lia|]. rw !andb_true_iff. lia. }
  split; [intros f Hf; destruct (Hr f Hf) as [Hm He]; simpl; rw /demo_print..|].
  - apply (parse_i64_stuck "e"); [done..|]. by rw str_mem_app /= orb_true_r.
  - rw /demo_parse (split_on_app "e" _ (print_int (exponent f))); [by apply print_int_no_char|].
    rw split_on_no_sep; [by apply print_int_no_char|]. rw !parse_print_int; [lia..|]. by destruct f.
  - intros f. simpl. rw /demo_print !all_chars_app. destruct (print_int_all bare_char (mantissa f)) as [-> Hne]; [done|..].
    { intros a Ha. by rw /bare_char Ha. }
    destruct (print_int_all bare_char (exponent f)) as [-> _]; [done|..]. { intros a Ha. by rw /bare_char Ha. }
    split; [|done]. by destruct (print_int (mantissa f)).
Qed.
End FloatTextDemo.
