(* ===== verification/JsonText.v ===== *)
(** * JSON as text

    [serde_json::to_vec] and [serde_json::from_slice], as the interface [JsonText] with
    what is documented of the format: [null] is the word null, strings, numbers, arrays
    and objects are told by their first byte, a document without fractions reads back as
    it was written as long as it nests no deeper than the reader's recursion limit, and text
    that is not JSON is an error, not a panic.  (Doubles are left
    out: reading them is exact only with a feature of the library the build does not
    enable.) *)

From S2P Require Import Prelude Text Json.

Class JsonText : Type := {
  json_to_vec : Value → string;
  json_from_slice : string → outcome Value;
}.

Definition json_quote : Ascii.ascii := "034"%char.

(** Documents of integers of 64 bits, with at most [n] arrays and objects around any of
    their values. *)
Inductive exact_within : nat → Value → Prop :=
| exact_null n : exact_within n VNull
| exact_bool n b : exact_within n (VBool b)
| exact_pos n i : (0 ≤ i < 2 ^ 64)%Z → exact_within n (VNumber (PosInt i))
| exact_neg n i : (- 2 ^ 63 ≤ i < 0)%Z → exact_within n (VNumber (NegInt i))
| exact_string n s : utf8_valid s = true → exact_within n (VString s)
| exact_array n l : Forall (exact_within n) l → exact_within (S n) (VArray l)
| exact_object n m : NoDup (obj_keys m) → Forall (λ kv, utf8_valid kv.1 = true ∧ exact_within n kv.2) m → exact_within (S n) (VObject m).

(** The reader refuses text that nests deeper: its recursion limit is 128. *)
Definition json_nesting : nat := 127.
Definition exact_value : Value → Prop := exact_within json_nesting.

Lemma exact_within_mono v : ∀ n n', n ≤ n' → exact_within n v → exact_within n' v.
Proof.
  induction v as [|b|i|s|l IH|m IH] using Value_nested_ind; intros n n' Hn Hv; inversion Hv as [| | | | |k l' Hl|k m' Hnd Hm]; subst; try by constructor.
  - destruct n' as [|n']; [lia|]. constructor. rw !Forall_forall in IH Hl |- *. intros v Hin. apply (IH v Hin k); [lia|by apply Hl].
  - destruct n' as [|n']; [lia|]. constructor; [done|]. rw !Forall_forall in IH Hm |- *. intros kv Hin. destruct (Hm kv Hin) as [Hk Hv'].
    split; [done|]. apply (IH kv Hin k); [lia|done].
Qed.

Lemma exact_object_inv n m : exact_within (S n) (VObject m) → NoDup (obj_keys m) ∧ Forall (λ kv, utf8_valid kv.1 = true ∧ exact_within n kv.2) m.
Proof. by inversion 1. Qed.

Class JsonTextLaws (jt : JsonText) : Prop := {
  json_null : json_to_vec VNull = "null";
  json_bool : ∀ b, json_to_vec (VBool b) = if b then "true" else "false";
  json_number : ∀ n, ∃ a rest, json_to_vec (VNumber n) = String a rest ∧ (in_range 48 57 a = true ∨ a = "-"%char);
  json_string : ∀ s, ∃ rest, json_to_vec (VString s) = String json_quote rest;
  json_array : ∀ l, ∃ rest, json_to_vec (VArray l) = String "[" rest;
  json_object : ∀ m, ∃ rest, json_to_vec (VObject m) = String "{" rest;
  json_reads_back : ∀ v, exact_value v → json_from_slice (json_to_vec v) = Ok v;
  json_never_panics : ∀ s, no_panic (json_from_slice s);
}.

(** The first byte tells strings and the word null from everything else. *)
Lemma json_other `{!JsonTextLaws jt} v : v ≠ VNull → (∀ s, v ≠ VString s) → json_to_vec v ≠ "null" ∧ ∀ rest, json_to_vec v ≠ String json_quote rest.
Proof.
  intros Hn Hs. destruct v as [|b|n|s|l|m]; [done| | |by destruct (Hs s)| |].
  - rw json_bool. by destruct b.
  - destruct (json_number n) as (a & rest & -> & Ha). split; [intros [= -> _]|intros ? [= -> _]]; naive_solver.
  - by destruct (json_array l) as [rest ->].
  - by destruct (json_object m) as [rest ->].
Qed.

(** ** One such format, for examples: strings are copied, everything else is coded *)
Module JsonTextDemo.

Fixpoint value_tree (v : Value) : gen_tree (string + Z) :=
  match v with
  | VNull => GenNode 0 []
  | VBool b => GenNode (if b then 1 else 2) []
  | VNumber (PosInt n) => GenNode 3 [GenLeaf (inr n)]
  | VNumber (NegInt n) => GenNode 4 [GenLeaf (inr n)]
  | VNumber (NFloat f) => GenNode 5 [GenLeaf (inr (mantissa f)); GenLeaf (inr (exponent f))]
  | VString s => GenLeaf (inl s)
  | VArray l => GenNode 6 (map value_tree l)
  | VObject m => GenNode 7 (map (λ kv, GenNode 8 [GenLeaf (inl kv.1); value_tree kv.2]) m)
  end.

Fixpoint tree_value (t : gen_tree (string + Z)) : Value :=
  match t with
  | GenLeaf (inl s) => VString s
  | GenNode 1 [] => VBool true
  | GenNode 2 [] => VBool false
  | GenNode 3 [GenLeaf (inr n)] => VNumber (PosInt n)
  | GenNode 4 [GenLeaf (inr n)] => VNumber (NegInt n)
  | GenNode 5 [GenLeaf (inr m); GenLeaf (inr e)] => VNumber (NFloat (mkF64 m e))
  | GenNode 6 l => VArray (map tree_value l)
  | GenNode 7 l => VObject (map (λ t, match t with GenNode 8 [GenLeaf (inl k); t] => (k, tree_value t) | _ => ("", VNull) end) l)
  | _ => VNull
  end.

Lemma tree_value_tree v : tree_value (value_tree v) = v.
Proof.
  induction v as [|b|n|s|l IH|m IH] using Value_nested_ind; [done|by destruct b| |done| |].
  - by destruct n as [?|?|[]].
  - cbn [value_tree tree_value]. f_equal. rw map_map. induction IH as [|v l Hv _ IH]; [done|]. simpl. by rw Hv IH.
  - cbn [value_tree tree_value]. f_equal. rw map_map. induction IH as [|[k v] m Hv _ IH]; [done|]. simpl in *. by rw Hv IH.
Qed.

Fixpoint bits (p : positive) : string :=
  match p with xH => "" | xO p => String "0" (bits p) | xI p => String "1" (bits p) end.
Fixpoint of_bits (s : string) : positive :=
  match s with EmptyString => xH | String a s => if Ascii.eqb a "0" then xO (of_bits s) else xI (of_bits s) end.

Lemma of_bits_bits p : of_bits (bits p) = p.
Proof. induction p as [p IH|p IH|]; simpl; by rw ?IH. Qed.

#[export] Instance demo_json : JsonText := {
  json_to_vec := λ v, match v with
                      | VNull => "null"
                      | VString s => String json_quote s
                      | VBool b => if b then "true" else "false"
                      | VNumber _ => String "0" (bits (countable.encode (value_tree v)))
                      | VArray _ => String "[" (bits (countable.encode (value_tree v)))
                      | VObject _ => String "{" (bits (countable.encode (value_tree v)))
                      end;
  json_from_slice := λ s, match s with
                          | String a s' =>
                              if Ascii.eqb a json_quote then Ok (VString s')
                              else if existsb (Ascii.eqb a) ["0"; "["; "{"]%char then
                                match countable.decode (of_bits s') with Some t => Ok (tree_value t) | None => Err "bad JSON" end
                              else if decide (s = "null") then Ok VNull
                              else if decide (s = "true") then Ok (VBool true)
                              else if decide (s = "false") then Ok (VBool false) else Err "bad JSON"
                          | EmptyString => Err "bad JSON"
                          end;
}.

#[export] Instance demo_json_laws : JsonTextLaws demo_json.
Proof.
  split; [done|done|intros n; do 2 eexists; split; [done|by left]|by eexists..| |].
  - intros v _. destruct v as [|b| | | |]; [done|by destruct b| |done|..]; cbn [json_from_slice json_to_vec demo_json existsb Ascii.eqb Bool.eqb orb]; rw of_bits_bits decode_encode; by rw tree_value_tree.
  - intros [|a s]; [done|]. cbn [json_from_slice demo_json]. repeat case_match; done.
Qed.
End JsonTextDemo.
