(* ===== verification/SnapshotCodec.v ===== *)
(** * The rows of a lookup snapshot (query_runtime/src/lakehouse_serving.rs)

    Point lookups are answered from a snapshot of a checkpoint: its rows in a binary
    form, in memory or in a file that is mapped into memory.  A row is a table of field
    names with their JSON text; a file is a header, an index of offsets and lengths, and
    the rows.  This file has the encoders, the readers and the row store. *)

From S2P Require Import Prelude Text Bytes Json JsonText.

(** ** Integers *)

(** SRC query_runtime/src/lakehouse_serving.rs:2448-2450 append_snapshot_lookup_mmap_u64 *)
Definition append_snapshot_lookup_mmap_u64 (buffer : string) (value : Z) : string := buffer +:+ le_bytes 8 value.

(** SRC query_runtime/src/lakehouse_serving.rs:2452-2454 append_snapshot_lookup_mmap_u32 *)
Definition append_snapshot_lookup_mmap_u32 (buffer : string) (value : Z) : string := buffer +:+ le_bytes 4 value.

(** SRC query_runtime/src/lakehouse_serving.rs:2441-2446 read_snapshot_lookup_mmap_u64 *)
Definition read_snapshot_lookup_mmap_u64 (bytes : string) : outcome Z :=
  if decide (String.length bytes = 8) then Ok (le_value bytes) else Err "Snapshot lookup mmap artifact had an invalid integer".

(** SRC query_runtime/src/lakehouse_serving.rs:2456-2461 read_snapshot_lookup_mmap_u32 *)
Definition read_snapshot_lookup_mmap_u32 (bytes : string) : outcome Z :=
  if decide (String.length bytes = 4) then Ok (le_value bytes) else Err "Snapshot lookup mmap artifact had an invalid integer".

(** A row of selected fields with the bytes a client receives for them. *)
(** SRC query_runtime/src/lakehouse_serving.rs:87-87 ProjectedFieldBytesRow *)
Definition ProjectedFieldBytesRow : Type := gmap string (option string).

Section codec.
Context `{jt : JsonText}.

(** ** Writing rows *)

(** SRC query_runtime/src/lakehouse_serving.rs:2470-2486= encode_snapshot_lookup_binary_fields, one field *)
Definition encode_field (buffer field_name : string) (value : Value) : outcome string :=
  field_len ← ok_or (try_u32 (str_len field_name)) (Err "Snapshot lookup mmap field name was too large");
  let value_bytes := json_to_vec value in
  value_len ← ok_or (try_u32 (str_len value_bytes)) (Err "Snapshot lookup mmap field value was too large");
  let buffer := append_snapshot_lookup_mmap_u32 buffer field_len +:+ field_name in
  Ok (append_snapshot_lookup_mmap_u32 buffer value_len +:+ value_bytes).

(** SRC query_runtime/src/lakehouse_serving.rs:2463-2487 encode_snapshot_lookup_binary_fields *)
Definition encode_snapshot_lookup_binary_fields (values : Object) : outcome string :=
  field_count ← ok_or (try_u32 (Z.of_nat (length values))) (Err "Snapshot lookup mmap row had too many fields");
  foldM (λ buffer kv, encode_field buffer kv.1 kv.2) (append_snapshot_lookup_mmap_u32 "" field_count) values.

(** ** Reading rows *)

Definition field_name_truncated : string := "Snapshot lookup mmap row field name was truncated".
Definition field_value_truncated : string := "Snapshot lookup mmap row field value was truncated".

(** The [&str] of a field name. *)
Definition str_from_utf8 (bytes : string) : outcome string := if utf8_valid bytes then Ok bytes else Err "invalid utf-8 sequence".

(** The loop over the fields, with a visitor that keeps a state.  A field takes at least
    eight bytes, so the length of the row bounds the rounds ([visit_returns]). *)
Fixpoint visit_fields {S} (fuel : nat) (visitor : S → string → string → outcome S) (bytes : string) (field_count offset : Z) (state : S) : outcome S :=
  if (field_count <=? 0)%Z then Ok state
  else match fuel with
  | O => Panic "out of fuel"
  | S fuel =>
      header ← ok_or (slice bytes offset (offset + 4)) (Err field_name_truncated);
      field_name_len ← read_snapshot_lookup_mmap_u32 header;
      let offset := (offset + 4)%Z in
      field_name_bytes ← ok_or (slice bytes offset (offset + field_name_len)) (Err field_name_truncated);
      let offset := (offset + field_name_len)%Z in
      header ← ok_or (slice bytes offset (offset + 4)) (Err field_value_truncated);
      value_len ← read_snapshot_lookup_mmap_u32 header;
      let offset := (offset + 4)%Z in
      value_bytes ← ok_or (slice bytes offset (offset + value_len)) (Err field_value_truncated);
      let offset := (offset + value_len)%Z in
      field_name ← str_from_utf8 field_name_bytes;
      state ← visitor state field_name value_bytes;
      visit_fields fuel visitor bytes (field_count - 1) offset state
  end.

(** SRC query_runtime/src/lakehouse_serving.rs:2586-2622 visit_snapshot_lookup_binary_fields *)
Definition visit_snapshot_lookup_binary_fields {S} (bytes : string) (visitor : S → string → string → outcome S) (state : S) : outcome S :=
  header ← ok_or (slice bytes 0 4) (Err "Snapshot lookup mmap row header was truncated");
  field_count ← read_snapshot_lookup_mmap_u32 header;
  visit_fields (String.length bytes) visitor bytes field_count 4 state.

(** SRC query_runtime/src/lakehouse_serving.rs:2489-2497 parse_snapshot_lookup_binary_row_to_map *)
Definition parse_snapshot_lookup_binary_row_to_map (bytes : string) : outcome Object :=
  visit_snapshot_lookup_binary_fields bytes (λ row field_name value_bytes,
    value ← json_from_slice value_bytes; Ok (obj_insert field_name value row)) [].

(** SRC query_runtime/src/lakehouse_serving.rs:2499-2511 parse_snapshot_lookup_binary_row_field *)
Definition parse_snapshot_lookup_binary_row_field (bytes target_field : string) : outcome (option Value) :=
  visit_snapshot_lookup_binary_fields bytes (λ value field_name value_bytes,
    if decide (field_name = target_field) then value ← json_from_slice value_bytes; Ok (Some value) else Ok value) None.

(** SRC query_runtime/src/lakehouse_serving.rs:2564-2576 snapshot_lookup_json_bytes_to_projected_bytes *)
Definition snapshot_lookup_json_bytes_to_projected_bytes (value_bytes : string) : outcome (option string) :=
  if decide (value_bytes = "null") then Ok None
  else match value_bytes with
  | String a _ =>
      if Ascii.eqb a json_quote then
        match json_from_slice value_bytes with
        | Ok (VString text) => Ok (Some text)
        | Ok _ => Err "invalid type: expected a string"
        | Err e => Err e
        | Panic r => Panic r
        end
      else Ok (Some value_bytes)
  | EmptyString => Ok (Some value_bytes)
  end.

(** SRC query_runtime/src/lakehouse_serving.rs:2578-2584 snapshot_lookup_value_to_projected_bytes *)
Definition snapshot_lookup_value_to_projected_bytes (value : Value) : option string :=
  match value with
  | VNull => None
  | VString text => Some text
  | _ => Some (json_to_vec value)
  end.

(** SRC query_runtime/src/lakehouse_serving.rs:2540-2562 merge_projected_source_field_bytes *)
Definition merge_projected_source_field_bytes (projected : ProjectedFieldBytesRow) (missing_fields : gset string) (source_bytes : option string) :
    outcome ProjectedFieldBytesRow :=
  match source_bytes with
  | None => Ok projected
  | Some source_bytes =>
      source ← json_from_slice source_bytes;
      match source with
      | VObject source =>
          Ok (set_fold (λ field (projected : ProjectedFieldBytesRow),
                match obj_get field source with
                | Some value => <[field := snapshot_lookup_value_to_projected_bytes value]> projected
                | None => projected
                end) projected missing_fields)
      | _ => Ok projected
      end
  end.

(** What the visitor of the next function keeps. *)
Record Selection : Type := mkSelection {
  sel_projected : ProjectedFieldBytesRow;
  sel_missing : gset string;
  sel_source : option string;
}.

(** SRC query_runtime/src/lakehouse_serving.rs:2513-2538 parse_snapshot_lookup_binary_row_selected_field_bytes *)
Definition parse_snapshot_lookup_binary_row_selected_field_bytes (bytes : string) (target_fields : list string) : outcome ProjectedFieldBytesRow :=
  let wanted : gset string := list_to_set target_fields in
  selection ← visit_snapshot_lookup_binary_fields bytes (λ selection field_name value_bytes,
    let source := if decide (field_name = "_source") then Some value_bytes else sel_source selection in
    if decide (field_name ∈ wanted) then
      bytes ← snapshot_lookup_json_bytes_to_projected_bytes value_bytes;
      Ok (mkSelection (<[field_name := bytes]> (sel_projected selection)) (sel_missing selection ∖ {[field_name]}) source)
    else Ok (mkSelection (sel_projected selection) (sel_missing selection) source)) (mkSelection ∅ wanted None);
  if decide (sel_missing selection = ∅) then Ok (sel_projected selection)
  else merge_projected_source_field_bytes (sel_projected selection) (sel_missing selection) (sel_source selection).

(** ** Files *)

(** SRC query_runtime/src/lakehouse_serving.rs:395-399 SnapshotLookupMmapEncoding *)
Inductive SnapshotLookupMmapEncoding : Type := JsonRowsV1 | FieldTableV2.

Definition SNAPSHOT_LOOKUP_MMAP_V1_MAGIC : string := "PSLKM001".
Definition SNAPSHOT_LOOKUP_MMAP_V2_MAGIC : string := "PSLKM002".
Definition SNAPSHOT_LOOKUP_MMAP_HEADER_BYTES : Z := 16.
Definition SNAPSHOT_LOOKUP_MMAP_ENTRY_BYTES : Z := 16.

(** SRC query_runtime/src/lakehouse_serving.rs:387-393 MmapSnapshotLookupRows *)
Record MmapSnapshotLookupRows : Type := mkMmapRows {
  mmap : string;
  row_count : Z;
  data_offset : Z;
  encoding : SnapshotLookupMmapEncoding;
}.

Definition mmap_overflowed : string := "Snapshot lookup mmap artifact overflowed".

(** [&bytes[start..end]] *)
Definition index_slice (bytes : string) (start end_ : Z) : outcome string :=
  match slice bytes start end_ with Some s => Ok s | None => Panic "range end index out of range" end.

(** SRC query_runtime/src/lakehouse_serving.rs:528-560 MmapSnapshotLookupRows::open *)
Definition mmap_open (mmap : string) : outcome MmapSnapshotLookupRows :=
  if (str_len mmap <? SNAPSHOT_LOOKUP_MMAP_HEADER_BYTES)%Z then Err "Snapshot lookup mmap artifact was truncated"
  else
    magic ← index_slice mmap 0 8;
    encoding ← (if decide (magic = SNAPSHOT_LOOKUP_MMAP_V1_MAGIC) then Ok JsonRowsV1
                else if decide (magic = SNAPSHOT_LOOKUP_MMAP_V2_MAGIC) then Ok FieldTableV2
                else Err "Snapshot lookup mmap artifact had an unexpected header");
    count_bytes ← index_slice mmap 8 16;
    row_count ← read_snapshot_lookup_mmap_u64 count_bytes;
    index_bytes ← ok_or (checked_usize (row_count * SNAPSHOT_LOOKUP_MMAP_ENTRY_BYTES)) (Err mmap_overflowed);
    data_offset ← ok_or (checked_usize (SNAPSHOT_LOOKUP_MMAP_HEADER_BYTES + index_bytes)) (Err mmap_overflowed);
    if (str_len mmap <? data_offset)%Z then Err "Snapshot lookup mmap artifact index was out of bounds"
    else Ok (mkMmapRows mmap row_count data_offset encoding).

Definition row_out_of_bounds {A} (row_ref : Z) : outcome A := Err ("Snapshot row " +:+ print_int row_ref +:+ " was out of bounds").

(** SRC query_runtime/src/lakehouse_serving.rs:562-584 MmapSnapshotLookupRows::row_slice *)
Definition row_slice (rows : MmapSnapshotLookupRows) (row_ref : Z) : outcome string :=
  if (row_count rows <=? row_ref)%Z then row_out_of_bounds row_ref
  else
    let entry_offset := (SNAPSHOT_LOOKUP_MMAP_HEADER_BYTES + row_ref * SNAPSHOT_LOOKUP_MMAP_ENTRY_BYTES)%Z in
    offset_bytes ← index_slice (mmap rows) entry_offset (entry_offset + 8);
    relative_offset ← read_snapshot_lookup_mmap_u64 offset_bytes;
    len_bytes ← index_slice (mmap rows) (entry_offset + 8) (entry_offset + 16);
    row_len ← read_snapshot_lookup_mmap_u64 len_bytes;
    row_start ← ok_or (checked_usize (data_offset rows + relative_offset)) (Err "Snapshot lookup mmap row offset overflowed");
    row_end ← ok_or (checked_usize (row_start + row_len)) (Err "Snapshot lookup mmap row length overflowed");
    if (str_len (mmap rows) <? row_end)%Z then Err "Snapshot lookup mmap row was out of bounds"
    else index_slice (mmap rows) row_start row_end.

(** The index: an offset and a length per row. *)
Fixpoint index_entries (rows : list string) (current_offset : Z) : outcome string :=
  match rows with
  | [] => Ok ""
  | row :: rows =>
      next_offset ← ok_or (checked_usize (current_offset + str_len row)) (Err mmap_overflowed);
      rest ← index_entries rows next_offset;
      Ok (le_bytes 8 current_offset +:+ le_bytes 8 (str_len row) +:+ rest)
  end.

(** [row_builder] turns the rows of the record batches, read as documents, into encoded
    rows. *)
(** SRC query_runtime/src/lakehouse_serving.rs:2685-2726 record_batches_to_snapshot_lookup_mmap_bytes_with_row_builder *)
Definition record_batches_to_snapshot_lookup_mmap_bytes_with_row_builder (batches : list (list Object)) (row_builder : Object → outcome string) : outcome string :=
  '(row_bytes, total_row_bytes) ← foldM (λ '(row_bytes, total_row_bytes) batch,
    foldM (λ '(row_bytes, total_row_bytes) values,
      row ← row_builder values;
      total_row_bytes ← ok_or (checked_usize (total_row_bytes + str_len row)) (Err mmap_overflowed);
      Ok (row_bytes ++ [row], total_row_bytes)) (row_bytes, total_row_bytes) batch) ([], 0%Z) batches;
  let row_count := Z.of_nat (length row_bytes) in
  index_bytes ← ok_or (checked_usize (row_count * SNAPSHOT_LOOKUP_MMAP_ENTRY_BYTES)) (Err mmap_overflowed);
  _ ← ok_or (checked_usize (SNAPSHOT_LOOKUP_MMAP_HEADER_BYTES + index_bytes + total_row_bytes)) (Err mmap_overflowed);
  index ← index_entries row_bytes 0;
  Ok (append_snapshot_lookup_mmap_u64 SNAPSHOT_LOOKUP_MMAP_V2_MAGIC row_count +:+ index +:+ foldr String.app "" row_bytes).

(** SRC query_runtime/src/lakehouse_serving.rs:2419-2424 snapshot_lookup_row_from_batch *)
Definition snapshot_lookup_row_from_batch (values : Object) : outcome string := encode_snapshot_lookup_binary_fields values.

(** A [_source] that is the text of a document becomes the document. *)
Definition parse_source (values : Object) : Object :=
  match obj_get "_source" values with
  | Some (VString source_text) =>
      obj_insert "_source" (match json_from_slice source_text with Ok value => value | _ => VString source_text end) values
  | _ => values
  end.

(** SRC query_runtime/src/lakehouse_serving.rs:2426-2439 snapshot_exact_lookup_row_from_batch *)
Definition snapshot_exact_lookup_row_from_batch (values : Object) : outcome string := encode_snapshot_lookup_binary_fields (parse_source values).

(** SRC query_runtime/src/lakehouse_serving.rs:2667-2674 record_batches_to_snapshot_lookup_mmap_bytes *)
Definition record_batches_to_snapshot_lookup_mmap_bytes (batches : list (list Object)) : outcome string :=
  record_batches_to_snapshot_lookup_mmap_bytes_with_row_builder batches snapshot_lookup_row_from_batch.

(** SRC query_runtime/src/lakehouse_serving.rs:2676-2683 record_batches_to_snapshot_exact_lookup_mmap_bytes *)
Definition record_batches_to_snapshot_exact_lookup_mmap_bytes (batches : list (list Object)) : outcome string :=
  record_batches_to_snapshot_lookup_mmap_bytes_with_row_builder batches snapshot_exact_lookup_row_from_batch.

(** ** The row store *)

(** SRC query_runtime/src/lakehouse_serving.rs:381-385 SnapshotLookupRowStore *)
Inductive SnapshotLookupRowStore : Type :=
| InMemory (rows : list string)
| Mmap (rows : MmapSnapshotLookupRows).

(** SRC query_runtime/src/lakehouse_serving.rs:442-447 SnapshotLookupRowStore::row_count *)
Definition store_row_count (store : SnapshotLookupRowStore) : Z :=
  match store with InMemory rows => Z.of_nat (length rows) | Mmap rows => row_count rows end.

Definition in_memory_row (rows : list string) (row_ref : Z) : outcome string :=
  match rows !! Z.to_nat row_ref with Some row => Ok row | None => row_out_of_bounds row_ref end.

(** SRC query_runtime/src/lakehouse_serving.rs:586-595 MmapSnapshotLookupRows::row_value *)
Definition mmap_row_value (rows : MmapSnapshotLookupRows) (row_ref : Z) : outcome Value :=
  bytes ← row_slice rows row_ref;
  match encoding rows with
  | JsonRowsV1 => json_from_slice bytes
  | FieldTableV2 => row ← parse_snapshot_lookup_binary_row_to_map bytes; Ok (VObject row)
  end.

(** SRC query_runtime/src/lakehouse_serving.rs:597-612 MmapSnapshotLookupRows::row_field_value *)
Definition mmap_row_field_value (rows : MmapSnapshotLookupRows) (row_ref : Z) (field : string) : outcome (option Value) :=
  match encoding rows with
  | JsonRowsV1 => value ← mmap_row_value rows row_ref; Ok (as_object value ≫= obj_get field)
  | FieldTableV2 => bytes ← row_slice rows row_ref; parse_snapshot_lookup_binary_row_field bytes field
  end.

(** The loop of the JSON encoding: a top-level field, or one of [_source]. *)
Definition project_json_bytes (values : Object) (select_fields : list string) : ProjectedFieldBytesRow :=
  let source_value := obj_get "_source" values ≫= as_object in
  foldl (λ projected field,
    match obj_get field values with
    | Some value => <[field := snapshot_lookup_value_to_projected_bytes value]> projected
    | None => match source_value ≫= obj_get field with
              | Some value => <[field := snapshot_lookup_value_to_projected_bytes value]> projected
              | None => projected
              end
    end) ∅ select_fields.

(** SRC query_runtime/src/lakehouse_serving.rs:614-650 MmapSnapshotLookupRows::projected_top_level_field_bytes *)
Definition mmap_projected_top_level_field_bytes (rows : MmapSnapshotLookupRows) (row_ref : Z) (select_fields : list string) : outcome ProjectedFieldBytesRow :=
  match encoding rows with
  | JsonRowsV1 =>
      value ← mmap_row_value rows row_ref;
      match value with
      | VObject values => Ok (project_json_bytes values select_fields)
      | _ => Err "Snapshot lookup row was not an object"
      end
  | FieldTableV2 => bytes ← row_slice rows row_ref; parse_snapshot_lookup_binary_row_selected_field_bytes bytes select_fields
  end.

(** SRC query_runtime/src/lakehouse_serving.rs:449-459 SnapshotLookupRowStore::row_value *)
Definition row_value (store : SnapshotLookupRowStore) (row_ref : Z) : outcome Value :=
  match store with
  | InMemory rows => bytes ← in_memory_row rows row_ref; row ← parse_snapshot_lookup_binary_row_to_map bytes; Ok (VObject row)
  | Mmap rows => mmap_row_value rows row_ref
  end.

(** SRC query_runtime/src/lakehouse_serving.rs:461-474 SnapshotLookupRowStore::row_field_value *)
Definition row_field_value (store : SnapshotLookupRowStore) (row_ref : Z) (field : string) : outcome (option Value) :=
  match store with
  | InMemory rows => bytes ← in_memory_row rows row_ref; parse_snapshot_lookup_binary_row_field bytes field
  | Mmap rows => mmap_row_field_value rows row_ref field
  end.

(** SRC query_runtime/src/lakehouse_serving.rs:476-496 SnapshotLookupRowStore::projected_top_level_field_bytes *)
Definition projected_top_level_field_bytes (store : SnapshotLookupRowStore) (row_ref : Z) (select_fields : list string) : outcome ProjectedFieldBytesRow :=
  match store with
  | InMemory rows => bytes ← in_memory_row rows row_ref; parse_snapshot_lookup_binary_row_selected_field_bytes bytes select_fields
  | Mmap rows => mmap_projected_top_level_field_bytes rows row_ref select_fields
  end.

(** One selected field: of the row, or of its [_source], which is read at most once. *)
Definition project_field (store : SnapshotLookupRowStore) (row_ref : Z) (state : Object * option Value) (field : string) : outcome (Object * option Value) :=
  let '(projected, source_value) := state in
  value ← row_field_value store row_ref field;
  match value with
  | Some value => Ok (obj_insert field value projected, source_value)
  | None =>
      source_value ← match source_value with Some _ => Ok source_value | None => row_field_value store row_ref "_source" end;
      match source_value with
      | Some (VObject source) =>
          match obj_get field source with
          | Some value => Ok (obj_insert field value projected, source_value)
          | None => Ok (projected, source_value)
          end
      | _ => Ok (projected, source_value)
      end
  end.

(** SRC query_runtime/src/lakehouse_serving.rs:498-524 SnapshotLookupRowStore::projected_row_value *)
Definition projected_row_value (store : SnapshotLookupRowStore) (row_ref : Z) (select_fields : option (list string)) : outcome Value :=
  match select_fields with
  | None => row_value store row_ref
  | Some select_fields =>
      '(projected, _) ← foldM (project_field store row_ref) ([], None) select_fields;
      Ok (VObject projected)
  end.

(** SRC query_runtime/src/lakehouse_serving.rs:2624-2665 visit_snapshot_lookup_row_fields *)
Definition visit_snapshot_lookup_row_fields {S} (store : SnapshotLookupRowStore) (row_ref : Z) (visitor : S → string → Value → outcome S) (state : S) : outcome S :=
  let visit_bytes := λ state field_name value_bytes, value ← json_from_slice value_bytes; visitor state field_name value in
  match store with
  | InMemory rows => bytes ← in_memory_row rows row_ref; visit_snapshot_lookup_binary_fields bytes visit_bytes state
  | Mmap rows =>
      match encoding rows with
      | JsonRowsV1 =>
          value ← mmap_row_value rows row_ref;
          match value with
          | VObject values => foldM (λ state kv, visitor state kv.1 kv.2) state values
          | _ => Ok state
          end
      | FieldTableV2 => bytes ← row_slice rows row_ref; visit_snapshot_lookup_binary_fields bytes visit_bytes state
      end
  end.
End codec.
