(* ===== verification/SnapshotCodecTheory.v ===== *)
(** * Reading back what was written (query_runtime/src/lakehouse_serving.rs)

    A snapshot file gives back the rows it was made of, whole, field by field and
    projected, and reading never leaves the file, whatever bytes it holds. *)

From S2P Require Import Prelude Text Bytes Json JsonText SnapshotCodec.

Module SnapshotCodecTheory.
Section theory.
Context `{jt : JsonText, !JsonTextLaws jt}.

(** ** Rows *)

(** One field as it is written. *)
Definition field_bytes (kv : string * Value) : string :=
  le_bytes 4 (str_len kv.1) +:+ kv.1 +:+ le_bytes 4 (str_len (json_to_vec kv.2)) +:+ json_to_vec kv.2.
Definition fields_bytes (values : Object) : string := foldr (λ kv rest, field_bytes kv +:+ rest) "" values.

Definition field_fits (kv : string * Value) : Prop := (str_len kv.1 < 2 ^ 32)%Z ∧ (str_len (json_to_vec kv.2) < 2 ^ 32)%Z.

Lemma encode_fields_spec values buffer bytes :
  foldM (λ buffer kv, encode_field buffer kv.1 kv.2) buffer values = Ok bytes →
  Forall field_fits values ∧ bytes = buffer +:+ fields_bytes values.
Proof.
  revert buffer. induction values as [|kv values IH]; intros buffer; cbn [foldM fields_bytes foldr].
  { intros [= <-]. by rw str_app_nil_r. }
  intros H. apply bind_Ok_inv in H as (b & Hb & H). rw /encode_field /try_u32 in Hb.
  destruct (Z.ltb_spec (str_len kv.1) (2 ^ 32)) as [Hk|]; [|done]. cbn in Hb.
  destruct (Z.ltb_spec (str_len (json_to_vec kv.2)) (2 ^ 32)) as [Hv|]; [|done]. cbn in Hb. injection Hb as <-.
  apply IH in H as [Hf ->]. split; [by constructor|]. rw /append_snapshot_lookup_mmap_u32 /field_bytes !str_app_assoc. done.
Qed.

Lemma encode_row_spec values bytes : encode_snapshot_lookup_binary_fields values = Ok bytes →
  (Z.of_nat (length values) < 2 ^ 32)%Z ∧ Forall field_fits values ∧ bytes = le_bytes 4 (Z.of_nat (length values)) +:+ fields_bytes values.
Proof.
  rw /encode_snapshot_lookup_binary_fields /try_u32. destruct (Z.ltb_spec (Z.of_nat (length values)) (2 ^ 32)); [|done].
  cbn [ok_or]. rw bind_Ok. intros [Hf ->]%encode_fields_spec. done.
Qed.

Lemma read_u32_bytes n : (0 ≤ n < 2 ^ 32)%Z → read_snapshot_lookup_mmap_u32 (le_bytes 4 n) = Ok n.
Proof. intros Hn. rw /read_snapshot_lookup_mmap_u32. by rw le_value_bytes. Qed.

Lemma read_u64_bytes n : (0 ≤ n < 2 ^ 64)%Z → read_snapshot_lookup_mmap_u64 (le_bytes 8 n) = Ok n.
Proof. intros Hn. rw /read_snapshot_lookup_mmap_u64. by rw le_value_bytes. Qed.

(** Visiting a written row visits its fields with their texts. *)
Lemma visit_written {S} (visitor : S → string → string → outcome S) fuel pre values state :
  length values ≤ fuel → Forall (λ kv, field_fits kv ∧ utf8_valid kv.1 = true) values →
  visit_fields fuel visitor (pre +:+ fields_bytes values) (Z.of_nat (length values)) (str_len pre) state =
  foldM (λ state kv, visitor state kv.1 (json_to_vec kv.2)) state values.
Proof.
  revert fuel pre state. induction values as [|[k v] values IH]; intros fuel pre state Hf Hv.
  { destruct fuel; done. }
  apply Forall_cons in Hv as [[[Hk Hj] Hu] Hv]. simpl in Hk, Hj, Hu. destruct fuel as [|fuel]; [simpl in Hf; lia|].
  cbn [visit_fields foldM]. destruct (Z.leb_spec (Z.of_nat (length ((k, v) :: values))) 0) as [Hz|_]; [simpl in Hz; lia|].
  pose proof (str_len_nonneg k). pose proof (str_len_nonneg (json_to_vec v)).
  set (rest := fields_bytes values) in *.
  assert (Hb : pre +:+ fields_bytes ((k, v) :: values) = pre +:+ le_bytes 4 (str_len k) +:+ k +:+ le_bytes 4 (str_len (json_to_vec v)) +:+ json_to_vec v +:+ rest).
  { cbn [fields_bytes foldr]. rw /field_bytes /= !str_app_assoc. done. }
  rw Hb (slice_mid pre (le_bytes 4 (str_len k))) //.
  cbn [ok_or]. rw bind_Ok read_u32_bytes; [lia|]. rw bind_Ok.
  set (pre1 := pre +:+ le_bytes 4 (str_len k)).
  assert (Hp1 : str_len pre1 = (str_len pre + 4)%Z) by by rw /pre1 str_len_app le_bytes_len.
  rw -(str_app_assoc pre) -/pre1 -Hp1 (slice_mid pre1 k _ (str_len pre1) (str_len pre1 + str_len k)) //. cbn [ok_or]. rw bind_Ok.
  set (pre2 := pre1 +:+ k). assert (Hp2 : str_len pre2 = (str_len pre1 + str_len k)%Z) by by rw /pre2 str_len_app.
  rw -(str_app_assoc pre1) -/pre2 -Hp2 (slice_mid pre2 (le_bytes 4 (str_len (json_to_vec v))) _ (str_len pre2) (str_len pre2 + 4)) //.
  cbn [ok_or]. rw bind_Ok read_u32_bytes; [lia|]. rw bind_Ok.
  set (pre3 := pre2 +:+ le_bytes 4 (str_len (json_to_vec v))).
  assert (Hp3 : str_len pre3 = (str_len pre2 + 4)%Z) by by rw /pre3 str_len_app le_bytes_len.
  rw -(str_app_assoc pre2) -/pre3 -Hp3 (slice_mid pre3 (json_to_vec v) _ (str_len pre3) (str_len pre3 + str_len (json_to_vec v))) //. cbn [ok_or]. rw bind_Ok /str_from_utf8 Hu bind_Ok.
  cbn [fst snd]. destruct (visitor state k (json_to_vec v)) as [state'| |]; [|done..]. rw !bind_Ok.
  replace (Z.of_nat (length ((k, v) :: values)) - 1)%Z with (Z.of_nat (length values)) by (simpl; lia).
  rw -(str_app_assoc pre3) -str_len_app. apply IH; [simpl in Hf; lia|done].
Qed.

Lemma fields_bytes_length values : length values ≤ String.length (fields_bytes values).
Proof.
  induction values as [|kv values IH]; [done|]. change (fields_bytes (kv :: values)) with (field_bytes kv +:+ fields_bytes values).
  rw /field_bytes !str_length_app. change (String.length (le_bytes 4 (str_len kv.1))) with 4. simpl. lia.
Qed.

Lemma visit_encoded {S} (visitor : S → string → string → outcome S) values bytes state :
  encode_snapshot_lookup_binary_fields values = Ok bytes → Forall (λ kv, utf8_valid kv.1 = true) values →
  visit_snapshot_lookup_binary_fields bytes visitor state = foldM (λ state kv, visitor state kv.1 (json_to_vec kv.2)) state values.
Proof.
  intros (Hn & Hf & ->)%encode_row_spec Hu. rw /visit_snapshot_lookup_binary_fields.
  set (head := le_bytes 4 (Z.of_nat (length values))). assert (Hh : str_len head = 4%Z) by apply le_bytes_len.
  rw (slice_mid "" head (fields_bytes values) 0 4 eq_refl eq_refl : slice (head +:+ fields_bytes values) 0 4 = Some head). cbn [ok_or]. rw bind_Ok read_u32_bytes; [lia|]. rw bind_Ok -Hh.
  apply visit_written; [rw str_length_app; pose proof (fields_bytes_length values); lia|].
  rw !Forall_forall in Hf Hu |- *. naive_solver.
Qed.
(** ** What the readers of a row find *)

Definition row_exact (values : Object) : Prop := exact_value (VObject values).

Lemma row_exact_inv values : row_exact values →
  NoDup (obj_keys values) ∧ Forall (λ kv, utf8_valid kv.1 = true) values ∧ Forall (λ kv, exact_value kv.2) values.
Proof.
  intros [Hnd Hf]%exact_object_inv. split_and!; [done|..]; eapply Forall_impl; try exact Hf; [naive_solver|].
  intros kv [_ Hv]. apply (exact_within_mono _ 126); [rw /json_nesting; lia|done].
Qed.

Lemma parse_row_encoded values bytes : encode_snapshot_lookup_binary_fields values = Ok bytes → row_exact values →
  parse_snapshot_lookup_binary_row_to_map bytes = Ok values.
Proof.
  intros He (Hnd & Hu & Hx)%row_exact_inv. rw /parse_snapshot_lookup_binary_row_to_map (visit_encoded _ values) //.
  assert (Hgen : ∀ acc, NoDup (obj_keys (acc ++ values)) →
    foldM (λ row kv, value ← json_from_slice (json_to_vec kv.2); Ok (obj_insert kv.1 value row)) acc values = Ok (acc ++ values)); [|by apply Hgen].
  clear Hnd He Hu. induction Hx as [|[k v] values Hv _ IH]; intros acc Hnd; [by rw app_nil_r|].
  cbn [foldM fst snd]. rw json_reads_back // !bind_Ok obj_insert_fresh.
  - rw /obj_keys fmap_app in Hnd. apply NoDup_app in Hnd as (_ & Hd & _). intros Hin. apply (Hd k Hin). by left.
  - rw IH -?app_assoc //.
Qed.

Lemma parse_field_encoded values bytes field : encode_snapshot_lookup_binary_fields values = Ok bytes → row_exact values →
  parse_snapshot_lookup_binary_row_field bytes field = Ok (obj_get field values).
Proof.
  intros He (Hnd & Hu & Hx)%row_exact_inv. rw /parse_snapshot_lookup_binary_row_field (visit_encoded _ values) //.
  assert (Hgen : ∀ acc, foldM (λ value kv, if decide (kv.1 = field) then value ← json_from_slice (json_to_vec kv.2); Ok (Some value) else Ok value) acc values =
    Ok (match obj_get field values with Some v => Some v | None => acc end)); [|rw Hgen; by destruct (obj_get field values)].
  clear He Hu. induction Hx as [|[k v] values Hv _ IH]; intros acc; [done|].
  apply NoDup_cons in Hnd as [Hk Hnd]. cbn [foldM fst snd obj_get]. case_decide as Hd; rw ?json_reads_back // ?bind_Ok IH //.
  by rw (proj2 (obj_get_None field values)) // -Hd.
Qed.

Lemma projected_bytes_written v : exact_value v →
  snapshot_lookup_json_bytes_to_projected_bytes (json_to_vec v) = Ok (snapshot_lookup_value_to_projected_bytes v).
Proof.
  intros Hx. rw /snapshot_lookup_json_bytes_to_projected_bytes. assert (v = VNull ∨ v ≠ VNull) as [->|Hnull] by (destruct v; auto); [by rw json_null|].
  assert ((∃ s, v = VString s) ∨ ∀ s, v ≠ VString s) as [[s ->]|Hs] by (destruct v; eauto).
  - destruct (json_string s) as [rest Hr]. rw decide_False; [by rw Hr|]. rw Hr Ascii.eqb_refl -Hr json_reads_back //.
  - destruct (json_other v Hnull Hs) as [Hn Hq]. rw decide_False //. destruct v; try done; try (by destruct (Hs s)); cbn [snapshot_lookup_value_to_projected_bytes];
      (destruct (json_to_vec _) as [|a rest]; [done|]; destruct (Ascii.eqb_spec a json_quote) as [->|]; [by destruct (Hq rest)|done]).
Qed.

(** What one selection holds of one field. *)
Definition projected_field (values : Object) (field : string) : option (option string) :=
  match obj_get field values with
  | Some value => Some (snapshot_lookup_value_to_projected_bytes value)
  | None => snapshot_lookup_value_to_projected_bytes <$> ((obj_get "_source" values ≫= as_object) ≫= obj_get field)
  end.

Lemma project_json_lookup values fields field :
  project_json_bytes values fields !! field = if decide (field ∈ fields) then projected_field values field else None.
Proof.
  rw /project_json_bytes. induction fields as [|f fields IH] using rev_ind; [done|]. rw foldl_app. cbn [foldl].
  set (projected := foldl _ _ _) in *. rw (decide_ext (field ∈ fields ++ [f]) (f = field ∨ field ∈ fields)); [rw elem_of_app list_elem_of_singleton; naive_solver|].
  rw /projected_field in IH |- *. destruct (decide (f = field)) as [->|Hne].
  - rw (decide_True _ _ (or_introl eq_refl)). destruct (obj_get field values); [by rw lookup_insert_eq|].
    destruct ((obj_get "_source" values ≫= as_object) ≫= obj_get field) eqn:Hs; [by rw lookup_insert_eq|]. rw IH. by case_decide.
  - rw (decide_ext (f = field ∨ field ∈ fields) (field ∈ fields)); [naive_solver|]. rw -IH.
    destruct (obj_get f values); [by rw lookup_insert_ne|]. by destruct (_ ≫= obj_get f); [rw lookup_insert_ne|].
Qed.

Lemma select_visited (wanted : gset string) values : row_exact values → ∃ selection,
  foldM (λ selection kv,
    let source := if decide (kv.1 = "_source") then Some (json_to_vec kv.2) else sel_source selection in
    if decide (kv.1 ∈ wanted) then
      bytes ← snapshot_lookup_json_bytes_to_projected_bytes (json_to_vec kv.2);
      Ok (mkSelection (<[kv.1 := bytes]> (sel_projected selection)) (sel_missing selection ∖ {[kv.1]}) source)
    else Ok (mkSelection (sel_projected selection) (sel_missing selection) source)) (mkSelection ∅ wanted None) values = Ok selection ∧
  (∀ f, sel_projected selection !! f = if decide (f ∈ wanted) then snapshot_lookup_value_to_projected_bytes <$> obj_get f values else None) ∧
  (∀ f, f ∈ sel_missing selection ↔ f ∈ wanted ∧ obj_get f values = None) ∧
  sel_source selection = json_to_vec <$> obj_get "_source" values.
Proof.
  intros (Hnd & _ & Hx)%row_exact_inv. induction values as [|[k v] values IH] using rev_ind.
  { eexists. split; [done|]. cbn. split_and!; [intros f; by case_decide|naive_solver|done]. }
  rw /obj_keys fmap_app in Hnd. apply NoDup_app in Hnd as (Hnd & Hd & _). apply Forall_app in Hx as [Hx [Hv _]%Forall_cons].
  destruct IH as (sel & Hsel & Hp & Hm & Hs); [done..|]. simpl in Hv.
  assert (Hk : k ∉ obj_keys values). { intros Hin. apply (Hd k Hin). by left. }
  rw foldM_app Hsel bind_Ok. cbn [foldM fst snd]. rw projected_bytes_written // -(obj_insert_fresh k v values) //.
  destruct (decide (k ∈ wanted)) as [Hw|Hw]; rw !bind_Ok; (eexists; split; [done|]); cbn [sel_projected sel_missing sel_source].
  all: split_and!; [intros f; rw ?lookup_insert Hp obj_get_insert|intros f; rw obj_get_insert ?elem_of_difference Hm|rw Hs obj_get_insert; by case_decide].
  - destruct (decide (k = f)) as [->|]; [by rw decide_True|done].
  - rw elem_of_singleton. destruct (decide (k = f)); naive_solver.
  - destruct (decide (k = f)) as [->|]; [by rw !decide_False|done].
  - destruct (decide (k = f)); naive_solver.
Qed.

Lemma merge_source_lookup (source : Object) (missing : gset string) (projected : ProjectedFieldBytesRow) f :
  set_fold (λ field (projected : ProjectedFieldBytesRow),
    match obj_get field source with
    | Some value => <[field := snapshot_lookup_value_to_projected_bytes value]> projected
    | None => projected
    end) projected missing !! f =
  match (if decide (f ∈ missing) then obj_get f source else None) with
  | Some v => Some (snapshot_lookup_value_to_projected_bytes v)
  | None => projected !! f
  end.
Proof.
  pose (P := λ (r : ProjectedFieldBytesRow) (X : gset string), r !! f = match (if decide (f ∈ X) then obj_get f source else None) with
    | Some v => Some (snapshot_lookup_value_to_projected_bytes v) | None => projected !! f end).
  apply (set_fold_ind_L P); rw /P; [done|]. intros x X r Hx IH. destruct (decide (x = f)) as [->|Hne].
  - rw (decide_True (P:=f ∈ _)); [set_solver|]. rw decide_False // in IH. destruct (obj_get f source); [by rw lookup_insert_eq|done].
  - rw (decide_ext (f ∈ {[x]} ∪ X) (f ∈ X)); [set_solver|]. rw -IH. by destruct (obj_get x source); [rw lookup_insert_ne|].
Qed.

Lemma parse_selected_encoded values bytes fields : encode_snapshot_lookup_binary_fields values = Ok bytes → row_exact values →
  parse_snapshot_lookup_binary_row_selected_field_bytes bytes fields = Ok (project_json_bytes values fields).
Proof.
  intros He Hx. pose proof (row_exact_inv values Hx) as (Hnd & Hu & Hv). rw /parse_snapshot_lookup_binary_row_selected_field_bytes (visit_encoded _ values) //.
  destruct (select_visited (list_to_set fields) values Hx) as (sel & Hsel & Hp & Hm & Hs). rw (Hsel : foldM _ _ _ = _) bind_Ok.
  assert (Hbase : ∀ f, (f ∉ sel_missing sel ∨ (obj_get "_source" values ≫= as_object) ≫= obj_get f = None) → sel_projected sel !! f = project_json_bytes values fields !! f).
  { intros f Hf. rw Hp project_json_lookup /projected_field (decide_ext (f ∈ list_to_set fields) (f ∈ fields)); [by rw elem_of_list_to_set|].
    case_decide as Hw; [|done]. rw Hm elem_of_list_to_set in Hf. destruct (obj_get f values); [done|]. destruct Hf as [Hf|Hf]; [naive_solver|by rw Hf]. }
  case_decide as Hempty. { f_equal. apply map_eq. intros f. apply Hbase. left. rw Hempty. set_solver. }
  rw Hs /merge_projected_source_field_bytes. destruct (obj_get "_source" values) as [v|] eqn:Hsrc; cbn [fmap option_fmap option_map].
  2: { f_equal. apply map_eq. intros f. apply Hbase. by right. }
  rw json_reads_back ?bind_Ok. { rw Forall_forall in Hv. apply obj_get_elem in Hsrc. by apply (Hv ("_source", v)). }
  destruct v as [| | | | |source]; (f_equal; apply map_eq; intros f); [apply Hbase; by right..|]. rw merge_source_lookup.
  case_decide as Hf; [|apply Hbase; by left]. pose proof Hf as [Hw Hg]%Hm. destruct (obj_get f source) as [v|] eqn:Hfs.
  - rw project_json_lookup decide_True; [by apply elem_of_list_to_set in Hw|]. rw /projected_field Hg Hsrc. cbn. by rw Hfs.
  - apply Hbase. right. cbn. exact Hfs.
Qed.

(** ** Files *)

Definition concat_rows (rows : list string) : string := foldr String.app "" rows.

Lemma concat_rows_app rows1 rows2 : concat_rows (rows1 ++ rows2) = concat_rows rows1 +:+ concat_rows rows2.
Proof. induction rows1 as [|r rows1 IH]; [done|]. cbn. by rw -/(concat_rows _) IH str_app_assoc. Qed.

Lemma concat_rows_split rows i r : rows !! i = Some r → concat_rows rows = concat_rows (take i rows) +:+ r +:+ concat_rows (drop (S i) rows).
Proof. intros H. rw -{1}(take_drop_middle rows i r H) concat_rows_app. done. Qed.

(** The entry of a row in the index. *)
Lemma index_entry rows offset index : index_entries rows offset = Ok index →
  str_len index = (16 * Z.of_nat (length rows))%Z ∧
  ∀ i r, rows !! i = Some r → ∃ a b, str_len a = (16 * Z.of_nat i)%Z ∧
    index = a +:+ le_bytes 8 (offset + str_len (concat_rows (take i rows))) +:+ le_bytes 8 (str_len r) +:+ b.
Proof.
  revert offset index. induction rows as [|row rows IH]; intros offset index; cbn [index_entries]; [by intros [= <-]|].
  intros H. apply bind_Ok_inv in H as (next & Hn & H). apply bind_Ok_inv in H as (rest & Hr & <-%Ok_inj).
  assert (next = offset + str_len row)%Z as ->. { rw /checked_usize in Hn. by destruct (_ <? _)%Z; [injection Hn as <-|]. }
  apply IH in Hr as [Hlen Hi]. split.
  { rw !str_len_app !le_bytes_len Hlen. simpl. lia. }
  intros [|i] r Hlook.
  - injection Hlook as ->. exists "", rest. split; [done|]. cbn. by rw Z.add_0_r.
  - apply Hi in Hlook as (a & b & Ha & ->). exists (le_bytes 8 offset +:+ le_bytes 8 (str_len row) +:+ a), b.
    split; [rw !str_len_app !le_bytes_len Ha; lia|]. cbn [take concat_rows foldr]. rw -/(concat_rows _) str_len_app Z.add_assoc !str_app_assoc. done.
Qed.

Definition built_file (rows : list string) (index : string) : string :=
  SNAPSHOT_LOOKUP_MMAP_V2_MAGIC +:+ le_bytes 8 (Z.of_nat (length rows)) +:+ index +:+ concat_rows rows.

Lemma foldM_concat {A B} (f : A → B → outcome A) a ls : foldM (λ a l, foldM f a l) a ls = foldM f a (concat ls).
Proof.
  revert a. induction ls as [|l ls IH]; intros a; [done|]. cbn [foldM concat]. rw foldM_app.
  destruct (foldM f a l); [rw !bind_Ok; apply IH|done..].
Qed.

Lemma built_spec batches row_builder file :
  record_batches_to_snapshot_lookup_mmap_bytes_with_row_builder batches row_builder = Ok file →
  ∃ rows index, Forall2 (λ values r, row_builder values = Ok r) (concat batches) rows ∧ index_entries rows 0 = Ok index ∧
    (16 + 16 * Z.of_nat (length rows) + str_len (concat_rows rows) < 2 ^ 64)%Z ∧ file = built_file rows index.
Proof.
  rw /record_batches_to_snapshot_lookup_mmap_bytes_with_row_builder. intros H. apply bind_Ok_inv in H as ([rows total] & Hrows & H).
  assert (Hinv : Forall2 (λ values r, row_builder values = Ok r) (concat batches) rows ∧ total = str_len (concat_rows rows)).
  { revert Hrows. set (step := λ '(row_bytes, total_row_bytes) values, row ← row_builder values; _).
    assert (Hstep : ∀ l acc rows0 total0, total0 = str_len (concat_rows rows0) → Forall2 (λ values r, row_builder values = Ok r) acc rows0 →
      ∀ st, foldM step (rows0, total0) l = Ok st → Forall2 (λ values r, row_builder values = Ok r) (acc ++ l) st.1 ∧ st.2 = str_len (concat_rows st.1)).
    { induction l as [|values l IH]; intros acc rows0 total0 Ht Hf st; cbn [foldM]; [intros [= <-]; by rw app_nil_r|].
      intros Hs. apply bind_Ok_inv in Hs as (st1 & H1 & Hs). rw /step in H1. apply bind_Ok_inv in H1 as (row & Hrow & H1).
      apply bind_Ok_inv in H1 as (t1 & Ht1 & [= <-]). rw /checked_usize in Ht1. destruct (_ <? _)%Z; [|done]. injection Ht1 as <-.
      replace (acc ++ values :: l) with ((acc ++ [values]) ++ l) by by rw -app_assoc. eapply (IH (acc ++ [values]) (rows0 ++ [row])); [|apply Forall2_app; [done|by repeat constructor]|exact Hs].
      rw concat_rows_app str_len_app -Ht. cbn. by rw str_app_nil_r. }
    intros Hrows. rw (foldM_ext _ (λ st batch, foldM step st batch)) in Hrows; [by intros []|]. rw foldM_concat in Hrows.
    by apply (Hstep (concat batches) [] [] 0%Z eq_refl (Forall2_nil_2 _ _ _)) in Hrows. }
  destruct Hinv as [Hf ->]. apply bind_Ok_inv in H as (ib & Hib & H). apply bind_Ok_inv in H as (sz & Hsz & H). apply bind_Ok_inv in H as (index & Hi & <-%Ok_inj).
  rw /checked_usize /SNAPSHOT_LOOKUP_MMAP_ENTRY_BYTES /SNAPSHOT_LOOKUP_MMAP_HEADER_BYTES in Hib Hsz.
  destruct (_ <? _)%Z; [|done]. injection Hib as <-. destruct (Z.ltb_spec (16 + Z.of_nat (length rows) * 16 + str_len (concat_rows rows)) (2 ^ 64)); [|done].
  exists rows, index. split_and!; [done|done|lia|]. rw /append_snapshot_lookup_mmap_u64 /built_file !str_app_assoc. done.
Qed.

Lemma index_slice_mid s t u start end_ : start = str_len s → end_ = (start + str_len t)%Z → index_slice (s +:+ t +:+ u) start end_ = Ok t.
Proof. intros Hs He. by rw /index_slice (slice_mid s t u start end_ Hs He). Qed.

Definition opened (rows : list string) (index : string) : MmapSnapshotLookupRows :=
  mkMmapRows (built_file rows index) (Z.of_nat (length rows)) (16 + 16 * Z.of_nat (length rows)) FieldTableV2.

Lemma open_built rows index : index_entries rows 0 = Ok index → (16 + 16 * Z.of_nat (length rows) + str_len (concat_rows rows) < 2 ^ 64)%Z →
  mmap_open (built_file rows index) = Ok (opened rows index).
Proof.
  intros [Hi _]%index_entry Hb. pose proof (str_len_nonneg (concat_rows rows)).
  set (count := le_bytes 8 (Z.of_nat (length rows))). set (rest := index +:+ concat_rows rows).
  assert (Hf : built_file rows index = SNAPSHOT_LOOKUP_MMAP_V2_MAGIC +:+ count +:+ rest) by done.
  assert (Hlen : str_len (built_file rows index) = (16 + 16 * Z.of_nat (length rows) + str_len (concat_rows rows))%Z).
  { rw Hf !str_len_app Hi /count le_bytes_len. change (str_len SNAPSHOT_LOOKUP_MMAP_V2_MAGIC) with 8%Z. lia. }
  rw /mmap_open Hlen /SNAPSHOT_LOOKUP_MMAP_HEADER_BYTES. destruct (Z.ltb_spec (16 + 16 * Z.of_nat (length rows) + str_len (concat_rows rows)) 16); [lia|].
  rw {1}Hf (index_slice_mid "" SNAPSHOT_LOOKUP_MMAP_V2_MAGIC (count +:+ rest) 0 8 eq_refl eq_refl : index_slice (SNAPSHOT_LOOKUP_MMAP_V2_MAGIC +:+ count +:+ rest) 0 8 = _).
  rw bind_Ok. match goal with |- (?m ≫= _) = _ => change m with (@Ok string _ FieldTableV2) end. rw bind_Ok {1}Hf (index_slice_mid SNAPSHOT_LOOKUP_MMAP_V2_MAGIC count rest 8 16 eq_refl eq_refl) bind_Ok /count read_u64_bytes; [lia|].
  rw bind_Ok /checked_usize /SNAPSHOT_LOOKUP_MMAP_ENTRY_BYTES. destruct (Z.ltb_spec (Z.of_nat (length rows) * 16) (2 ^ 64)); [|lia].
  cbn [ok_or]. rw bind_Ok. destruct (Z.ltb_spec (16 + Z.of_nat (length rows) * 16) (2 ^ 64)); [|lia]. cbn [ok_or]. rw bind_Ok.
  destruct (Z.ltb_spec (16 + 16 * Z.of_nat (length rows) + str_len (concat_rows rows)) (16 + Z.of_nat (length rows) * 16)); [lia|].
  rw /opened. do 2 f_equal. lia.
Qed.

Lemma row_slice_built rows index i r : index_entries rows 0 = Ok index → (16 + 16 * Z.of_nat (length rows) + str_len (concat_rows rows) < 2 ^ 64)%Z →
  rows !! i = Some r → row_slice (opened rows index) (Z.of_nat i) = Ok r.
Proof.
  intros Hidx Hb Hr. pose proof (lookup_lt_Some _ _ _ Hr) as Hlt. apply index_entry in Hidx as [Hi He]. destruct (He i r Hr) as (a & b & Ha & Hab).
  pose proof (concat_rows_split rows i r Hr) as Hc. set (pre := concat_rows (take i rows)) in *. set (post := concat_rows (drop (S i) rows)) in *.
  assert (Hcl : str_len (concat_rows rows) = (str_len pre + str_len r + str_len post)%Z) by (rw Hc !str_len_app; lia).
  pose proof (str_len_nonneg pre). pose proof (str_len_nonneg r). pose proof (str_len_nonneg post).
  set (count := le_bytes 8 (Z.of_nat (length rows))).
  set (head := SNAPSHOT_LOOKUP_MMAP_V2_MAGIC +:+ count +:+ a).
  assert (Hhead : str_len head = (16 + 16 * Z.of_nat i)%Z). { rw /head !str_len_app Ha /count le_bytes_len. change (str_len SNAPSHOT_LOOKUP_MMAP_V2_MAGIC) with 8%Z. lia. }
  set (o := le_bytes 8 (str_len pre)). set (l := le_bytes 8 (str_len r)).
  assert (Hf1 : built_file rows index = head +:+ o +:+ (l +:+ b +:+ concat_rows rows)) by rw /built_file Hab /head !str_app_assoc //.
  assert (Hf2 : built_file rows index = (head +:+ o) +:+ l +:+ (b +:+ concat_rows rows)) by rw Hf1 !str_app_assoc //.
  set (front := SNAPSHOT_LOOKUP_MMAP_V2_MAGIC +:+ count +:+ index +:+ pre).
  assert (Hfront : str_len front = (16 + 16 * Z.of_nat (length rows) + str_len pre)%Z).
  { rw /front !str_len_app Hi /count le_bytes_len. change (str_len SNAPSHOT_LOOKUP_MMAP_V2_MAGIC) with 8%Z. lia. }
  assert (Hf3 : built_file rows index = front +:+ r +:+ post) by rw /built_file Hc /front !str_app_assoc //.
  assert (Hho : str_len (head +:+ o) = (16 + 16 * Z.of_nat i + 8)%Z) by (rw str_len_app Hhead; done).
  assert (Hall : str_len (built_file rows index) = (16 + 16 * Z.of_nat (length rows) + str_len pre + (str_len r + str_len post))%Z).
  { rw Hf3 str_len_app Hfront str_len_app. done. }
  assert (Ho : index_slice (built_file rows index) (16 + Z.of_nat i * 16) (16 + Z.of_nat i * 16 + 8) = Ok o).
  { rw Hf1. apply index_slice_mid; rw ?Hhead ?le_bytes_len; lia. }
  assert (Hl : index_slice (built_file rows index) (16 + Z.of_nat i * 16 + 8) (16 + Z.of_nat i * 16 + 16) = Ok l).
  { rw Hf2. apply index_slice_mid; rw ?Hho ?le_bytes_len; lia. }
  rw /row_slice. cbn [opened mmap row_count data_offset]. destruct (Z.leb_spec (Z.of_nat (length rows)) (Z.of_nat i)); [lia|].
  rw /SNAPSHOT_LOOKUP_MMAP_HEADER_BYTES /SNAPSHOT_LOOKUP_MMAP_ENTRY_BYTES Ho bind_Ok (read_u64_bytes (str_len pre)); [lia|]. rw bind_Ok Hl bind_Ok (read_u64_bytes (str_len r)); [lia|].
  rw bind_Ok /checked_usize. destruct (Z.ltb_spec (16 + 16 * Z.of_nat (length rows) + str_len pre) (2 ^ 64)); [|lia].
  cbn [ok_or]. rw bind_Ok. destruct (Z.ltb_spec (16 + 16 * Z.of_nat (length rows) + str_len pre + str_len r) (2 ^ 64)); [|lia]. cbn [ok_or]. rw bind_Ok Hall.
  rw (proj2 (Z.ltb_ge _ _)); [lia|]. rw Hf3. by apply index_slice_mid; rw ?Hfront.
Qed.

(** ** The round trip *)

(** What a row store must hold to stand for a list of documents. *)
Definition store_holds (store : SnapshotLookupRowStore) (documents : list Object) : Prop :=
  store_row_count store = Z.of_nat (length documents) ∧
  (∀ i values, documents !! i = Some values →
    row_value store (Z.of_nat i) = Ok (VObject values) ∧
    (∀ field, row_field_value store (Z.of_nat i) field = Ok (obj_get field values)) ∧
    (∀ fields, projected_top_level_field_bytes store (Z.of_nat i) fields = Ok (project_json_bytes values fields)) ∧
    (∀ S (visitor : S → string → Value → outcome S) state,
      visit_snapshot_lookup_row_fields store (Z.of_nat i) visitor state = foldM (λ state kv, visitor state kv.1 kv.2) state values)) ∧
  (∀ row_ref, (Z.of_nat (length documents) ≤ row_ref)%Z → row_value store row_ref = row_out_of_bounds row_ref).

Lemma encoded_row_reads values bytes : encode_snapshot_lookup_binary_fields values = Ok bytes → row_exact values →
  parse_snapshot_lookup_binary_row_to_map bytes = Ok values ∧
  (∀ field, parse_snapshot_lookup_binary_row_field bytes field = Ok (obj_get field values)) ∧
  (∀ fields, parse_snapshot_lookup_binary_row_selected_field_bytes bytes fields = Ok (project_json_bytes values fields)) ∧
  (∀ S (visitor : S → string → Value → outcome S) state,
    visit_snapshot_lookup_binary_fields bytes (λ state name text, value ← json_from_slice text; visitor state name value) state =
    foldM (λ state kv, visitor state kv.1 kv.2) state values).
Proof.
  intros He Hx. split_and!; intros; [by apply parse_row_encoded|by apply parse_field_encoded|by apply parse_selected_encoded|].
  apply row_exact_inv in Hx as (_ & Hu & Hv). rw (visit_encoded _ values) //. apply foldM_ext. intros st kv Hin. rw Forall_forall in Hv.
  by rw json_reads_back; [apply Hv|].
Qed.

(** A file whose rows are made of a view of the batches holds that view. *)
Lemma built_holds batches row_builder view file : record_batches_to_snapshot_lookup_mmap_bytes_with_row_builder batches row_builder = Ok file →
  (∀ values, row_builder values = encode_snapshot_lookup_binary_fields (view values)) → Forall row_exact (view <$> concat batches) →
  ∃ rows, mmap_open file = Ok rows ∧ store_holds (Mmap rows) (view <$> concat batches).
Proof.
  intros (rows & index & Hrows & Hindex & Hbound & ->)%built_spec Hview Hexact. exists (opened rows index). split; [by apply open_built|].
  pose proof (Forall2_length _ _ _ Hrows) as Hlen. split; [cbn; by rw length_fmap Hlen|]. split.
  - intros i values Hi. pose proof Hi as (raw & -> & Hraw)%list_lookup_fmap_Some. destruct (Forall2_lookup_l _ _ _ _ _ Hrows Hraw) as (r & Hr & Hrb). rw Hview in Hrb.
    pose proof (row_slice_built rows index i r Hindex Hbound Hr) as Hs. rw Forall_lookup in Hexact.
    destruct (encoded_row_reads (view raw) r Hrb (Hexact i (view raw) Hi)) as (H1 & H2 & H3 & H4). split_and!; [|intros..].
    + cbn [row_value]. rw /mmap_row_value Hs bind_Ok. cbn [opened encoding]. by rw H1 bind_Ok.
    + cbn [row_field_value]. rw /mmap_row_field_value. cbn [opened encoding]. by rw -/(opened rows index) Hs bind_Ok H2.
    + cbn [projected_top_level_field_bytes]. rw /mmap_projected_top_level_field_bytes. cbn [opened encoding]. by rw -/(opened rows index) Hs bind_Ok H3.
    + cbn [visit_snapshot_lookup_row_fields]. cbn [opened encoding]. rw -/(opened rows index) Hs bind_Ok. apply H4.
  - intros row_ref Hr. rw length_fmap Hlen in Hr. cbn [row_value]. rw /mmap_row_value /row_slice. cbn [opened row_count]. by destruct (Z.leb_spec (Z.of_nat (length rows)) row_ref); [|lia].
Qed.

Lemma mmap_holds batches file : record_batches_to_snapshot_lookup_mmap_bytes batches = Ok file → Forall row_exact (concat batches) →
  ∃ rows, mmap_open file = Ok rows ∧ store_holds (Mmap rows) (concat batches).
Proof. intros Hfile Hexact. rw -(list_fmap_id (concat batches)). apply (built_holds batches _ id file Hfile); [done|by rw list_fmap_id]. Qed.

Lemma in_memory_holds rows documents : Forall2 (λ values r, encode_snapshot_lookup_binary_fields values = Ok r) documents rows → Forall row_exact documents →
  store_holds (InMemory rows) documents.
Proof.
  intros Hrows Hexact. pose proof (Forall2_length _ _ _ Hrows) as Hlen. split; [cbn; by rw Hlen|]. split.
  - intros i values Hi. destruct (Forall2_lookup_l _ _ _ _ _ Hrows Hi) as (r & Hr & Hrb). rw Forall_lookup in Hexact.
    destruct (encoded_row_reads values r Hrb (Hexact i values Hi)) as (H1 & H2 & H3 & H4).
    cbn [row_value row_field_value projected_top_level_field_bytes visit_snapshot_lookup_row_fields]. rw /in_memory_row Nat2Z.id Hr !bind_Ok H1 bind_Ok.
    split_and!; [done|intros; rw bind_Ok; auto..].
  - intros row_ref Hr. cbn [row_value]. rw /in_memory_row lookup_ge_None_2 //. lia.
Qed.

(** C19. A snapshot file written from record batches opens, has one row per document in
    order, and each row reads back as the document it was made of: whole, field by
    field, as the bytes of any selection of fields (a field of the row, else of its
    [_source]), and to a visitor of its fields; a row number past the end is refused.
    Rows kept in memory instead of in a file read the same.  The documents have no doubles
    and nest within the recursion limit of the JSON reader ([row_exact]). *)
Theorem snapshot_rows_roundtrip batches file rows_in_memory :
  record_batches_to_snapshot_lookup_mmap_bytes batches = Ok file → Forall row_exact (concat batches) →
  try_collect snapshot_lookup_row_from_batch (concat batches) = Ok rows_in_memory →
  ∃ rows, mmap_open file = Ok rows ∧ store_holds (Mmap rows) (concat batches) ∧ store_holds (InMemory rows_in_memory) (concat batches).
Proof.
  intros Hfile Hexact Hmem. destruct (mmap_holds batches file Hfile Hexact) as (rows & Hopen & Hholds). exists rows. split_and!; [done..|].
  apply in_memory_holds; [|done]. by apply try_collect_Ok in Hmem.
Qed.

(** ** Reading any bytes *)

Lemma read_u32_safe bytes : no_panic (read_snapshot_lookup_mmap_u32 bytes).
Proof. rw /read_snapshot_lookup_mmap_u32. by case_decide. Qed.

Lemma read_u64_safe bytes : no_panic (read_snapshot_lookup_mmap_u64 bytes).
Proof. rw /read_snapshot_lookup_mmap_u64. by case_decide. Qed.

Lemma read_u32_bound bytes n : read_snapshot_lookup_mmap_u32 bytes = Ok n → (0 ≤ n < 2 ^ 32)%Z.
Proof. rw /read_snapshot_lookup_mmap_u32. case_decide as Hl; [|done]. intros [= <-]. pose proof (le_value_bound bytes) as Hb. by rw /str_len Hl in Hb. Qed.

Lemma read_u64_bound bytes n : read_snapshot_lookup_mmap_u64 bytes = Ok n → (0 ≤ n < 2 ^ 64)%Z.
Proof. rw /read_snapshot_lookup_mmap_u64. case_decide as Hl; [|done]. intros [= <-]. pose proof (le_value_bound bytes) as Hb. by rw /str_len Hl in Hb. Qed.

Lemma ok_or_slice s start end_ (e : string) t : ok_or (slice s start end_) (Err e) = Ok t → (0 ≤ start ≤ end_)%Z ∧ (end_ ≤ str_len s)%Z.
Proof. destruct (slice s start end_) eqn:Hs; [|done]. intros _. apply slice_Some in Hs. lia. Qed.

(** The length of the row is enough fuel: a round moves the offset by eight bytes or
    more. *)
Lemma visit_returns {S} (visitor : S → string → string → outcome S) bytes fuel field_count offset state :
  (∀ state name value, no_panic (visitor state name value)) → (0 ≤ offset ≤ str_len bytes)%Z → (str_len bytes - offset < Z.of_nat fuel)%Z →
  no_panic (visit_fields fuel visitor bytes field_count offset state).
Proof.
  intros Hv. revert field_count offset state. induction fuel as [|fuel IH]; intros field_count offset state Ho Hf; [lia|].
  cbn [visit_fields]. destruct (_ <=? _)%Z; [done|].
  apply no_panic_bind; [by apply ok_or_no_panic|]. intros h1 [H1 H1']%ok_or_slice. apply no_panic_bind; [apply read_u32_safe|]. intros n1 Hn1%read_u32_bound.
  apply no_panic_bind; [by apply ok_or_no_panic|]. intros nm [H2 H2']%ok_or_slice.
  apply no_panic_bind; [by apply ok_or_no_panic|]. intros h2 [H3 H3']%ok_or_slice. apply no_panic_bind; [apply read_u32_safe|]. intros n2 Hn2%read_u32_bound.
  apply no_panic_bind; [by apply ok_or_no_panic|]. intros vb [H4 H4']%ok_or_slice.
  apply no_panic_bind; [rw /str_from_utf8; by destruct (utf8_valid nm)|]. intros name _. apply no_panic_bind; [apply Hv|]. intros state' _. apply IH; lia.
Qed.

Lemma visit_safe {S} (visitor : S → string → string → outcome S) bytes state :
  (∀ state name value, no_panic (visitor state name value)) → no_panic (visit_snapshot_lookup_binary_fields bytes visitor state).
Proof.
  intros Hv. apply no_panic_bind; [by apply ok_or_no_panic|]. intros h [_ H]%ok_or_slice. apply no_panic_bind; [apply read_u32_safe|]. intros n _.
  apply visit_returns; [done|lia|rw /str_len in H |- *; lia].
Qed.

Lemma parse_row_safe bytes : no_panic (parse_snapshot_lookup_binary_row_to_map bytes).
Proof. apply visit_safe. intros. apply no_panic_bind; [apply json_never_panics|done]. Qed.

Lemma parse_field_safe bytes field : no_panic (parse_snapshot_lookup_binary_row_field bytes field).
Proof. apply visit_safe. intros. case_decide; [|done]. apply no_panic_bind; [apply json_never_panics|done]. Qed.

Lemma projected_bytes_safe bytes : no_panic (snapshot_lookup_json_bytes_to_projected_bytes bytes).
Proof.
  rw /snapshot_lookup_json_bytes_to_projected_bytes. case_decide; [done|]. destruct bytes as [|a bytes]; [done|]. destruct (Ascii.eqb _ _); [|done].
  pose proof (json_never_panics (String a bytes)) as Hj. by destruct (json_from_slice _) as [[]| |].
Qed.

Lemma merge_source_safe projected missing source : no_panic (merge_projected_source_field_bytes projected missing source).
Proof. destruct source; [|done]. apply no_panic_bind; [apply json_never_panics|]. intros v _. by destruct v. Qed.

Lemma parse_selected_safe bytes fields : no_panic (parse_snapshot_lookup_binary_row_selected_field_bytes bytes fields).
Proof.
  apply no_panic_bind.
  - apply visit_safe. intros. repeat case_decide; try done; (apply no_panic_bind; [apply projected_bytes_safe|done]).
  - intros sel _. case_decide; [done|apply merge_source_safe].
Qed.

(** A file that opened: its index is inside it. *)
Definition opened_well (rows : MmapSnapshotLookupRows) : Prop :=
  (0 ≤ row_count rows)%Z ∧ data_offset rows = (16 + row_count rows * 16)%Z ∧ (data_offset rows ≤ str_len (mmap rows))%Z ∧ (data_offset rows < 2 ^ 64)%Z.

Lemma index_slice_safe bytes start end_ : (0 ≤ start ≤ end_)%Z → (end_ ≤ str_len bytes)%Z → no_panic (index_slice bytes start end_).
Proof. intros H1 H2. rw /index_slice. by destruct (slice_is_Some bytes start end_ H1 H2) as (t & -> & _). Qed.

Lemma open_safe file : no_panic (mmap_open file) ∧ ∀ rows, mmap_open file = Ok rows → opened_well rows ∧ mmap rows = file.
Proof.
  rw /mmap_open /SNAPSHOT_LOOKUP_MMAP_HEADER_BYTES. destruct (Z.ltb_spec (str_len file) 16) as [|Hlen]; [done|]. split.
  - apply no_panic_bind; [apply index_slice_safe; lia|]. intros magic _. apply no_panic_bind; [by repeat case_decide|]. intros enc _.
    apply no_panic_bind; [apply index_slice_safe; lia|]. intros cb _. apply no_panic_bind; [apply read_u64_safe|]. intros n _.
    apply no_panic_bind; [by apply ok_or_no_panic|]. intros ib _. apply no_panic_bind; [by apply ok_or_no_panic|]. intros off _. by destruct (_ <? _)%Z.
  - intros rows H. apply bind_Ok_inv in H as (magic & _ & H). apply bind_Ok_inv in H as (enc & _ & H). apply bind_Ok_inv in H as (cb & _ & H).
    apply bind_Ok_inv in H as (n & Hn%read_u64_bound & H). apply bind_Ok_inv in H as (ib & Hib & H). apply bind_Ok_inv in H as (off & Hoff & H).
    rw /checked_usize /SNAPSHOT_LOOKUP_MMAP_ENTRY_BYTES in Hib Hoff. destruct (n * 16 <? _)%Z; [|done]. injection Hib as <-.
    destruct (Z.ltb_spec (16 + n * 16) (2 ^ 64)); [|done]. injection Hoff as <-. destruct (Z.ltb_spec (str_len file) (16 + n * 16)); [done|]. injection H as <-.
    split; [|done]. split_and!; cbn; lia.
Qed.

Lemma row_slice_safe rows row_ref : opened_well rows → (0 ≤ row_ref)%Z → no_panic (row_slice rows row_ref) ∧
  ∀ bytes, row_slice rows row_ref = Ok bytes → ∃ start, (data_offset rows ≤ start)%Z ∧ slice (mmap rows) start (start + str_len bytes) = Some bytes.
Proof.
  intros (Hc & Hd & Hl & Hs) Hr. rw /row_slice /SNAPSHOT_LOOKUP_MMAP_HEADER_BYTES /SNAPSHOT_LOOKUP_MMAP_ENTRY_BYTES.
  destruct (Z.leb_spec (row_count rows) row_ref) as [|Hlt]; [done|]. split.
  - apply no_panic_bind; [apply index_slice_safe; lia|]. intros ob _. apply no_panic_bind; [apply read_u64_safe|]. intros off Hoff%read_u64_bound.
    apply no_panic_bind; [apply index_slice_safe; lia|]. intros lb _. apply no_panic_bind; [apply read_u64_safe|]. intros len Hlen%read_u64_bound.
    rw /checked_usize. apply no_panic_bind; [by apply ok_or_no_panic|]. intros start Hst. destruct (data_offset rows + off <? _)%Z; [|done]. injection Hst as <-.
    apply no_panic_bind; [by apply ok_or_no_panic|]. intros end_ He. destruct (data_offset rows + off + len <? 2 ^ 64)%Z; [|done]. injection He as <-.
    destruct (Z.ltb_spec (str_len (mmap rows)) (data_offset rows + off + len)); [done|]. apply index_slice_safe; lia.
  - intros bytes H. apply bind_Ok_inv in H as (ob & _ & H). apply bind_Ok_inv in H as (off & Hoff%read_u64_bound & H). apply bind_Ok_inv in H as (lb & _ & H).
    apply bind_Ok_inv in H as (len & Hlen & H). apply bind_Ok_inv in H as (start & Hst & H). apply bind_Ok_inv in H as (end_ & He & H).
    destruct (_ <? _)%Z in H; [done|]. rw /index_slice in H. destruct (slice (mmap rows) start end_) as [t|] eqn:Hsl; [|done]. injection H as ->.
    rw /checked_usize in Hst. destruct (_ <? _)%Z in Hst; [|done]. injection Hst as <-. pose proof (slice_Some _ _ _ _ Hsl) as (_ & _ & Hb).
    exists (data_offset rows + off)%Z. split; [lia|]. by replace (data_offset rows + off + str_len bytes)%Z with end_ by lia.
Qed.

(** The rows of a store, read from bytes of any origin. *)
Definition store_well (store : SnapshotLookupRowStore) : Prop := match store with InMemory _ => True | Mmap rows => opened_well rows end.

Lemma mmap_row_value_safe rows row_ref : opened_well rows → (0 ≤ row_ref)%Z → no_panic (mmap_row_value rows row_ref).
Proof.
  intros Hw Hr. apply no_panic_bind; [by apply row_slice_safe|]. intros bytes _. destruct (encoding rows); [apply json_never_panics|].
  apply no_panic_bind; [apply parse_row_safe|done].
Qed.

Lemma in_memory_row_safe rows row_ref : no_panic (in_memory_row rows row_ref).
Proof. rw /in_memory_row. by destruct (rows !! _). Qed.

Lemma store_reads_safe store row_ref : store_well store → (0 ≤ row_ref)%Z →
  no_panic (row_value store row_ref) ∧ (∀ field, no_panic (row_field_value store row_ref field)) ∧
  (∀ fields, no_panic (projected_top_level_field_bytes store row_ref fields)).
Proof.
  intros Hw Hr. destruct store as [rows|rows]; cbn [row_value row_field_value projected_top_level_field_bytes].
  - split_and!; intros; (apply no_panic_bind; [apply in_memory_row_safe|]); intros bytes _; [|apply parse_field_safe|apply parse_selected_safe].
    apply no_panic_bind; [apply parse_row_safe|done].
  - pose proof (mmap_row_value_safe rows row_ref Hw Hr) as Hv. split_and!; [done|intros field|intros fields].
    + rw /mmap_row_field_value. destruct (encoding rows); (apply no_panic_bind; [|intros v _]); [done|done|by apply row_slice_safe|apply parse_field_safe].
    + rw /mmap_projected_top_level_field_bytes.
      destruct (encoding rows); (apply no_panic_bind; [|intros v _]); [done|by destruct v|by apply row_slice_safe|apply parse_selected_safe].
Qed.

Lemma projected_row_value_safe store row_ref fields : store_well store → (0 ≤ row_ref)%Z → no_panic (projected_row_value store row_ref fields).
Proof.
  intros Hw Hr. destruct (store_reads_safe store row_ref Hw Hr) as (H1 & H2 & _). destruct fields as [fields|]; [|done]. cbn [projected_row_value].
  apply no_panic_bind; [|by intros [] _]. apply no_panic_foldM. intros [projected source] field _. rw /project_field.
  apply no_panic_bind; [apply H2|]. intros [v|] _; [done|]. apply no_panic_bind; [destruct source; [done|apply H2]|].
  intros [[]|] _; try done. by destruct (obj_get field _).
Qed.

(** C18. Whatever bytes a snapshot file holds, opening it and reading any row of it, whole,
    by field, projected or selected, never slices outside the file or panics: it returns
    a value or an error; and a row that is returned is a slice of the file behind its
    index. *)
Theorem snapshot_reads_stay_in_bounds file :
  no_panic (mmap_open file) ∧
  ∀ rows row_ref, mmap_open file = Ok rows → (0 ≤ row_ref)%Z →
    no_panic (row_slice rows row_ref) ∧
    (∀ bytes, row_slice rows row_ref = Ok bytes → ∃ start, (data_offset rows ≤ start)%Z ∧ slice file start (start + str_len bytes) = Some bytes) ∧
    no_panic (row_value (Mmap rows) row_ref) ∧
    (∀ field, no_panic (row_field_value (Mmap rows) row_ref field)) ∧
    (∀ fields, no_panic (projected_top_level_field_bytes (Mmap rows) row_ref fields)) ∧
    (∀ fields, no_panic (projected_row_value (Mmap rows) row_ref fields)).
Proof.
  destruct (open_safe file) as [Hs Hw]. split; [done|]. intros rows row_ref Hopen Hr. destruct (Hw rows Hopen) as [Hwell <-].
  destruct (row_slice_safe rows row_ref Hwell Hr) as [H1 H2]. destruct (store_reads_safe (Mmap rows) row_ref Hwell Hr) as (H3 & H4 & H5).
  split_and!; [done..|]. intros fields. by apply projected_row_value_safe.
Qed.
End theory.
End SnapshotCodecTheory.

(** ** Two documents in two batches, and a file that was cut short *)
Module SnapshotCodecDemo.
Import JsonTextDemo SnapshotCodecTheory.

Definition ann : Object := [("_id", VString "a1"); ("age", VNumber (PosInt 41)); ("_source", VObject [("city", VString "Oslo")])].
Definition bob : Object := [("_id", VString "b2"); ("age", VNull)].
Definition demo_batches : list (list Object) := [[ann]; []; [bob]].
Definition get_ok {A} (a : A) (m : outcome A) : A := match m with Ok a => a | _ => a end.
Definition demo_file : string := get_ok "" (record_batches_to_snapshot_lookup_mmap_bytes demo_batches).
Definition demo_rows : list string := get_ok [] (try_collect snapshot_lookup_row_from_batch (concat demo_batches)).

(** Evaluates the conditions on a concrete document. *)
Ltac solve_exact := repeat match goal with
  | |- row_exact _ => red
  | |- exact_value _ => rw /exact_value /json_nesting
  | |- exact_within _ (VObject _) => apply exact_object
  | |- exact_within _ _ => constructor
  | |- Forall _ _ => constructor
  | |- NoDup _ => apply (bool_decide_unpack _); vm_compute; exact I
  | |- _ ∧ _ => split
  | |- utf8_valid _ = true => vm_compute; reflexivity
  | |- _ => cbn; lia
  end.

Lemma demo_exact : Forall row_exact (concat demo_batches).
Proof. solve_exact. Qed.

Lemma snapshot_rows_roundtrip_witness : ∃ rows, mmap_open demo_file = Ok rows ∧
  store_holds (Mmap rows) (concat demo_batches) ∧ store_holds (InMemory demo_rows) (concat demo_batches).
Proof. apply (snapshot_rows_roundtrip (jt:=demo_json) demo_batches demo_file demo_rows); [by vm_compute|apply demo_exact|by vm_compute]. Defined.

Definition demo_opened : MmapSnapshotLookupRows := get_ok (mkMmapRows "" 0 0 FieldTableV2) (mmap_open demo_file).

Lemma snapshot_reads_stay_in_bounds_witness : no_panic (mmap_open (str_take 40 demo_file)) ∧ no_panic (row_value (jt:=demo_json) (Mmap demo_opened) 7).
Proof.
  split; [apply (snapshot_reads_stay_in_bounds (jt:=demo_json))|].
  assert (Hopen : mmap_open demo_file = Ok demo_opened) by (vm_compute; reflexivity).
  destruct (proj2 (snapshot_reads_stay_in_bounds (jt:=demo_json) demo_file) demo_opened 7%Z Hopen ltac:(lia)) as (_ & _ & H & _).
  exact H.
Defined.
End SnapshotCodecDemo.
