(* ===== verification/Schema.v ===== *)
(** * Table schemas (control_plane/src/schema_massager.rs)

    [PowdrrDataType], [PowdrrField] and [PowdrrSchema] with the merge of an incoming
    schema into a table's schema.  The theorems show that a merge only ever adds to a
    schema: the result is the least upper bound of both arguments in the order
    [schema_le], and a merge panics only where there is none. *)

From S2P Require Import Prelude StableSort.

(** SRC control_plane/src/schema_massager.rs:14-23 PowdrrDataType *)
Inductive PowdrrDataType : Type :=
| TArray (element : PowdrrDataType)
| TBoolean
| TFloat
| TInteger
| TNull
| TObject (schema : PowdrrSchema)
| TString
(** SRC control_plane/src/schema_massager.rs:92-96 PowdrrField *)
with PowdrrField : Type :=
| mkField (field_name : string) (field_type : PowdrrDataType)
(** SRC control_plane/src/schema_massager.rs:118-121 PowdrrSchema *)
with PowdrrSchema : Type :=
| mkSchema (schema_fields : list PowdrrField).

Definition name (f : PowdrrField) : string := let '(mkField n _) := f in n.
Definition data_type (f : PowdrrField) : PowdrrDataType := let '(mkField _ t) := f in t.
Definition fields (s : PowdrrSchema) : list PowdrrField := let '(mkSchema fs) := s in fs.

(** ** Induction through the nested lists *)
Section mutual_induction.
Context (Pt : PowdrrDataType → Prop) (Pf : PowdrrField → Prop) (Ps : PowdrrSchema → Prop).
Hypothesis HArray : ∀ t, Pt t → Pt (TArray t).
Hypothesis HBoolean : Pt TBoolean.
Hypothesis HFloat : Pt TFloat.
Hypothesis HInteger : Pt TInteger.
Hypothesis HNull : Pt TNull.
Hypothesis HObject : ∀ s, Ps s → Pt (TObject s).
Hypothesis HString : Pt TString.
Hypothesis Hfield : ∀ n t, Pt t → Pf (mkField n t).
Hypothesis Hschema : ∀ fs, Forall Pf fs → Ps (mkSchema fs).

Fixpoint type_rect_nested (t : PowdrrDataType) : Pt t :=
  match t with
  | TArray t => HArray t (type_rect_nested t)
  | TBoolean => HBoolean
  | TFloat => HFloat
  | TInteger => HInteger
  | TNull => HNull
  | TObject s => HObject s (schema_rect_nested s)
  | TString => HString
  end
with field_rect_nested (f : PowdrrField) : Pf f :=
  match f with mkField n t => Hfield n t (type_rect_nested t) end
with schema_rect_nested (s : PowdrrSchema) : Ps s :=
  match s with
  | mkSchema fs => Hschema fs
      ((fix go (fs : list PowdrrField) : Forall Pf fs :=
          match fs with
          | [] => Forall_nil_2 Pf
          | f :: fs => Forall_cons_2 Pf f fs (field_rect_nested f) (go fs)
          end) fs)
  end.

Lemma schema_mutual_ind : (∀ t, Pt t) ∧ (∀ f, Pf f) ∧ (∀ s, Ps s).
Proof.
  split; [exact type_rect_nested|].
  split; [exact field_rect_nested|exact schema_rect_nested].
Qed.
End mutual_induction.

(** ** Decidable equality ([derive(PartialEq)]) *)
Fixpoint type_eqb (a b : PowdrrDataType) : bool :=
  match a, b with
  | TArray a, TArray b => type_eqb a b
  | TBoolean, TBoolean | TFloat, TFloat | TInteger, TInteger
  | TNull, TNull | TString, TString => true
  | TObject a, TObject b => schema_eqb a b
  | _, _ => false
  end
with field_eqb (a b : PowdrrField) : bool :=
  match a, b with
  | mkField n a, mkField m b => bool_decide (n = m) && type_eqb a b
  end
with schema_eqb (a b : PowdrrSchema) : bool :=
  match a, b with
  | mkSchema fs, mkSchema gs =>
      (fix go (fs gs : list PowdrrField) : bool :=
         match fs, gs with
         | [], [] => true
         | f :: fs, g :: gs => field_eqb f g && go fs gs
         | _, _ => false
         end) fs gs
  end.

Lemma eqb_spec_all :
  (∀ a b, type_eqb a b = true ↔ a = b) ∧
  (∀ a b, field_eqb a b = true ↔ a = b) ∧
  (∀ a b, schema_eqb a b = true ↔ a = b).
Proof.
  apply schema_mutual_ind; simpl.
  - intros t IH [| | | | | |]; try (split; congruence).
    rw IH. split; congruence.
  - by intros [].
  - by intros [].
  - by intros [].
  - by intros [].
  - intros s IH [| | | | | |]; try (split; congruence).
    rw IH. split; congruence.
  - by intros [].
  - intros n t IH [m u]. rw andb_true_iff IH bool_decide_eq_true.
    split; [by intros [-> ->]|by intros [= -> ->]].
  - intros fs IH [gs]. simpl. revert gs.
    induction IH as [|f fs Hf _ IHfs]; intros [|g gs]; try (split; congruence).
    rw andb_true_iff Hf IHfs. split; [by intros [-> [= ->]]|by intros [= -> ->]].
Qed.

Ltac solve_eqb := intros a b;
  match goal with |- Decision (?x = ?y) => idtac end;
  first [ destruct (type_eqb a b) eqn:E | destruct (field_eqb a b) eqn:E
        | destruct (schema_eqb a b) eqn:E ];
  [left; by apply eqb_spec_all|right; intros Heq%eqb_spec_all; congruence].

#[global] Instance type_eq_dec : EqDecision PowdrrDataType.
Proof. solve_eqb. Defined.
#[global] Instance field_eq_dec : EqDecision PowdrrField.
Proof. solve_eqb. Defined.
#[global] Instance schema_eq_dec : EqDecision PowdrrSchema.
Proof. solve_eqb. Defined.

(** ** Operations *)

(** SRC control_plane/src/schema_massager.rs:26-28 PowdrrDataType::is_null *)
Definition is_null (t : PowdrrDataType) : bool :=
  match t with TNull => true | _ => false end.

(** SRC control_plane/src/schema_massager.rs:30-32 PowdrrDataType::is_object *)
Definition is_object (t : PowdrrDataType) : bool :=
  match t with TObject _ => true | _ => false end.

(** SRC control_plane/src/schema_massager.rs:41-43 PowdrrDataType::is_array *)
Definition is_array (t : PowdrrDataType) : bool :=
  match t with TArray _ => true | _ => false end.

(** SRC control_plane/src/schema_massager.rs:34-39 PowdrrDataType::as_object_schema *)
Definition as_object_schema (t : PowdrrDataType) : option PowdrrSchema :=
  match t with TObject s => Some s | _ => None end.

(** SRC control_plane/src/schema_massager.rs:45-50 PowdrrDataType::array_element_type *)
Definition array_element_type (t : PowdrrDataType) : outcome PowdrrDataType :=
  match t with
  | TArray e => Ok e
  | _ => Panic "Check to see that it is an array first."
  end.

(** SRC control_plane/src/schema_massager.rs:124-126 PowdrrSchema::minimal *)
Definition minimal : PowdrrSchema := mkSchema [].

(** SRC control_plane/src/schema_massager.rs:128-135 PowdrrSchema::deletes *)
Definition deletes : PowdrrSchema := mkSchema [mkField "_id_seq_no" TString].

Definition compare_names (a b : PowdrrField) : comparison := String.compare (name a) (name b).

(** SRC control_plane/src/schema_massager.rs:137-143 PowdrrSchema::from *)
Definition from (fs : list PowdrrField) : PowdrrSchema :=
  mkSchema (sort_by compare_names fs).

(** SRC control_plane/src/schema_massager.rs:149-154 PowdrrSchema::to_map *)
Definition to_map (s : PowdrrSchema) : gmap string PowdrrField :=
  foldl (λ m f, <[name f := f]> m) ∅ (fields s).

(** Overwrite the first field called [n], the loop's
    [position(|f| f.name == ...)] followed by [fields[position] = merged]. *)
Fixpoint replace_first (n : string) (f' : PowdrrField) (fs : list PowdrrField) : option (list PowdrrField) :=
  match fs with
  | [] => None
  | f :: fs =>
      if decide (name f = n) then Some (f' :: fs)
      else fs' ← replace_first n f' fs; Some (f :: fs')
  end.

(** SRC control_plane/src/schema_massager.rs:171-211 PowdrrSchema::merge_field *)
Fixpoint merge_field (self_field other_field : PowdrrField) {struct other_field} : outcome (option PowdrrField) :=
  match other_field with
  | mkField other_name other_type =>
      let self_type := data_type self_field in
      match other_type with
      | TNull => Ok None
      | _ =>
        if is_null self_type then Ok (Some other_field)
        else
          match other_type, self_type with
          | TObject other_schema, TObject self_schema =>
              merged ← merge_from self_schema other_schema;
              Ok (Some (mkField other_name (TObject merged)))
          | TArray other_element, TArray self_element =>
              match other_element with
              | TNull => Ok None
              | _ =>
                if is_null self_element then Ok (Some other_field)
                else
                  match other_element, self_element with
                  | TObject other_schema, TObject self_schema =>
                      merged ← merge_from self_schema other_schema;
                      Ok (Some (mkField other_name (TArray (TObject merged))))
                  | _, _ =>
                      if decide (self_element = other_element) then Ok None
                      else Panic "Array element types are changing, it is bad"
                  end
              end
          | _, _ =>
              if decide (self_type = other_type) then Ok None
              else Panic "Data types are changing, it is bad"
          end
      end
  end
(** SRC control_plane/src/schema_massager.rs:213-234 PowdrrSchema::merge_from *)
with merge_from (self other : PowdrrSchema) {struct other} : outcome PowdrrSchema :=
  match other with
  | mkSchema other_fields =>
      let self_map := to_map self in
      merged ←
        (fix go (acc : list PowdrrField) (ofs : list PowdrrField) {struct ofs} : outcome (list PowdrrField) :=
           match ofs with
           | [] => Ok acc
           | f :: ofs =>
               acc' ← match self_map !! name f with
                      | Some self_field =>
                          r ← merge_field self_field f;
                          match r with
                          | Some merged_field => unwrap (replace_first (name f) merged_field acc)
                          | None => Ok acc
                          end
                      | None => Ok (acc ++ [f])
                      end;
               go acc' ofs
           end) (fields self) other_fields;
      Ok (mkSchema merged)
  end.

(** SRC control_plane/src/schema_massager.rs:156-169 PowdrrSchema::merge_all *)
Definition merge_all (schemas : list PowdrrSchema) : outcome PowdrrSchema :=
  match schemas with
  | [] => Panic "assertion failed: !schemas.is_empty()"
  | first :: rest =>
      merged ← foldM merge_from first rest;
      Ok (mkSchema (sort_by compare_names (fields merged)))
  end.

(** ** The merge loop, and the order it climbs *)

(** One iteration of the loop of [merge_from]. *)
Definition merge_step (self_map : gmap string PowdrrField) (acc : list PowdrrField) (f : PowdrrField) : outcome (list PowdrrField) :=
  match self_map !! name f with
  | Some self_field =>
      r ← merge_field self_field f;
      match r with
      | Some merged_field => unwrap (replace_first (name f) merged_field acc)
      | None => Ok acc
      end
  | None => Ok (acc ++ [f])
  end.

Lemma merge_from_unfold self ofs :
  merge_from self (mkSchema ofs) =
  (merged ← foldM (merge_step (to_map self)) (fields self) ofs; Ok (mkSchema merged)).
Proof.
  change (merge_from self (mkSchema ofs)) with
    (merged ← (fix go (acc : list PowdrrField) (ofs : list PowdrrField) {struct ofs} :=
       match ofs with
       | [] => Ok acc
       | f :: ofs => acc' ← merge_step (to_map self) acc f; go acc' ofs
       end) (fields self) ofs; Ok (mkSchema merged)).
  f_equal. generalize (fields self). induction ofs as [|f ofs IH]; intros acc; [done|].
  simpl. destruct (merge_step (to_map self) acc f); simpl; [apply IH|done|done].
Qed.

(** Field names are pairwise distinct, at every level. *)
Fixpoint wf_type (t : PowdrrDataType) : Prop :=
  match t with
  | TArray t => wf_type t
  | TObject s => wf_schema s
  | _ => True
  end
with wf_field (f : PowdrrField) : Prop :=
  match f with mkField _ t => wf_type t end
with wf_schema (s : PowdrrSchema) : Prop :=
  match s with
  | mkSchema fs =>
      NoDup (name <$> fs) ∧
      (fix go (fs : list PowdrrField) : Prop :=
         match fs with [] => True | f :: fs => wf_field f ∧ go fs end) fs
  end.

Lemma wf_schema_unfold fs :
  wf_schema (mkSchema fs) ↔ NoDup (name <$> fs) ∧ Forall wf_field fs.
Proof.
  simpl. split; intros [Hnd H]; (split; [done|]); clear Hnd.
  - induction fs as [|f fs IH]; constructor; destruct H; auto.
  - induction H as [|f fs Hf _ IH]; auto.
Qed.

(** [a ≤ b]: everything [a] says about a document, [b] says too.  [TNull] is
    "nothing known yet", objects (also as array elements) may gain fields. *)
Inductive type_le : PowdrrDataType → PowdrrDataType → Prop :=
| le_null t : type_le TNull t
| le_refl t : type_le t t
| le_object s s' : schema_le s s' → type_le (TObject s) (TObject s')
| le_array_null t : type_le (TArray TNull) (TArray t)
| le_array_object s s' : schema_le s s' → type_le (TArray (TObject s)) (TArray (TObject s'))
with schema_le : PowdrrSchema → PowdrrSchema → Prop :=
| le_schema fs fs' :
    (∀ f, f ∈ fs → ∃ f', f' ∈ fs' ∧ name f' = name f ∧ type_le (data_type f) (data_type f')) →
    schema_le (mkSchema fs) (mkSchema fs').

(** ** Lemmas on the loop's ingredients *)

(** [covered f fs]: some field of [fs] has [f]'s name and says at least as much. *)
Definition covered (f : PowdrrField) (fs : list PowdrrField) : Prop :=
  ∃ f', f' ∈ fs ∧ name f' = name f ∧ type_le (data_type f) (data_type f').

Lemma schema_le_covered fs fs' :
  schema_le (mkSchema fs) (mkSchema fs') ↔ ∀ f, f ∈ fs → covered f fs'.
Proof. split; [by inversion 1|by constructor]. Qed.

Lemma to_map_lookup_gen fs (m : gmap string PowdrrField) n :
  foldl (λ m f, <[name f := f]> m) m fs !! n =
  match last (filter (λ f, name f = n) fs) with
  | Some f => Some f
  | None => m !! n
  end.
Proof.
  induction fs as [|f fs IH] using rev_ind; [done|].
  rw foldl_snoc filter_app filter_cons filter_nil. case_decide as Hn.
  - rw last_snoc. subst. by rw lookup_insert_eq.
  - rw app_nil_r lookup_insert_ne //.
Qed.

Lemma to_map_Some s n f : to_map s !! n = Some f → f ∈ fields s ∧ name f = n.
Proof.
  unfold to_map. rw to_map_lookup_gen lookup_empty.
  destruct (last _) as [g|] eqn:Hg; [|done]. intros [= ->].
  apply last_Some_elem_of in Hg. by apply list_elem_of_filter in Hg as [? ?].
Qed.

Lemma to_map_None s n : to_map s !! n = None → n ∉ name <$> fields s.
Proof.
  unfold to_map. rw to_map_lookup_gen lookup_empty.
  destruct (last _) as [g|] eqn:Hg; [done|]. intros _ (f & -> & Hf)%list_elem_of_fmap.
  apply last_None in Hg. by eapply (not_elem_of_nil f); rw -Hg; apply list_elem_of_filter.
Qed.

Lemma replace_first_names n f' fs fs' :
  name f' = n → replace_first n f' fs = Some fs' → name <$> fs' = name <$> fs.
Proof.
  intros Hn. revert fs'. induction fs as [|f fs IH]; intros fs'; simpl; [done|].
  case_decide; [by intros [= <-]; simpl; congruence|].
  destruct (replace_first n f' fs) eqn:E; simpl; [|done].
  intros [= <-]. simpl. f_equal. by apply IH.
Qed.

Lemma replace_first_is_Some n f' fs : n ∈ name <$> fs → is_Some (replace_first n f' fs).
Proof.
  induction fs as [|f fs IH]; simpl; [by intros ?%elem_of_nil|].
  intros Hn. case_decide; [done|]. apply elem_of_cons in Hn as [?|Hn]; [congruence|].
  destruct (IH Hn) as [fs' ->]. done.
Qed.

Lemma replace_first_elem n f' fs fs' g :
  NoDup (name <$> fs) → replace_first n f' fs = Some fs' →
  g ∈ fs' ↔ g = f' ∨ (g ∈ fs ∧ name g ≠ n).
Proof.
  revert fs'. induction fs as [|f fs IH]; intros fs'; simpl; [done|].
  intros [Hf Hnd]%NoDup_cons. case_decide as Hn.
  - intros [= <-]. rw !elem_of_cons. split; [|naive_solver].
    intros [->|Hg]; [by left|]. right. split; [by right|]. intros Hgn.
    apply Hf, list_elem_of_fmap. exists g. split; [congruence|done].
  - destruct (replace_first n f' fs) eqn:E; simpl; [|done]. intros [= <-].
    rw !elem_of_cons (IH _ Hnd eq_refl). naive_solver.
Qed.

(** ** A merge is an upper bound of its arguments *)

Definition merged_type (self_field : PowdrrField) (r : option PowdrrField) : PowdrrDataType :=
  match r with Some g => data_type g | None => data_type self_field end.

Definition field_merge_ok (f : PowdrrField) : Prop := ∀ sf r,
  wf_field sf → wf_field f → merge_field sf f = Ok r →
  type_le (data_type sf) (merged_type sf r) ∧
  type_le (data_type f) (merged_type sf r) ∧
  wf_type (merged_type sf r) ∧
  (∀ g, r = Some g → name g = name f).

Definition schema_merge_ok (other : PowdrrSchema) : Prop := ∀ self r,
  wf_schema self → wf_schema other → merge_from self other = Ok r →
  schema_le self r ∧ schema_le other r ∧ wf_schema r ∧
  name <$> fields r =
    (name <$> fields self) ++ filter (λ n, n ∉ name <$> fields self) (name <$> fields other).

Record loop_inv (self done acc : list PowdrrField) : Prop := {
  li_nodup : NoDup (name <$> acc);
  li_wf : Forall wf_field acc;
  li_names : name <$> acc =
    (name <$> self) ++ filter (λ n, n ∉ name <$> self) (name <$> done);
  li_self : ∀ f, f ∈ self → covered f acc;
  li_done : ∀ f, f ∈ done → covered f acc;
  li_pending : ∀ f, f ∈ self → name f ∉ name <$> done → f ∈ acc;
}.

Lemma loop_inv_init self :
  wf_schema (mkSchema self) → loop_inv self [] self.
Proof.
  intros [Hnd Hwf]%wf_schema_unfold. split; try done.
  - by rw app_nil_r.
  - intros f Hf. exists f. split; [done|]. split; [done|constructor].
  - by intros f ?%elem_of_nil.
Qed.

Lemma NoDup_name_inj fs f g :
  NoDup (name <$> fs) → f ∈ fs → g ∈ fs → name f = name g → f = g.
Proof.
  intros Hnd Hf Hg Hn. apply list_elem_of_lookup in Hf as [i Hi], Hg as [j Hj].
  assert (i = j) as ->; [|congruence].
  apply (NoDup_lookup (name <$> fs) _ _ (name f)); [exact Hnd|..];
    rw list_lookup_fmap; [rw Hi|rw Hj]; simpl; congruence.
Qed.

Lemma loop_inv_new self done acc f :
  loop_inv self done acc → wf_field f →
  NoDup (name <$> done ++ [f]) → name f ∉ name <$> self →
  loop_inv self (done ++ [f]) (acc ++ [f]).
Proof.
  intros [Hnd Hwf Hnames Hself Hdone Hpend] Hf Hndd Hns.
  rw fmap_app in Hndd. apply NoDup_app in Hndd as (_ & Hfresh & _).
  assert (∀ g, covered g acc → covered g (acc ++ [f])) as Hmono.
  { intros g (g' & ? & ?). exists g'. split; [apply elem_of_app; by left|done]. }
  split.
  - rw fmap_app. apply NoDup_app. repeat split; [done| |apply NoDup_singleton].
    intros n Hn Hn'. apply list_elem_of_singleton in Hn' as ->. rw Hnames in Hn.
    apply elem_of_app in Hn as [?|[_ Hn]%list_elem_of_filter]; [done|].
    apply (Hfresh _ Hn). left.
  - apply Forall_app. split; [done|]. by constructor.
  - rw !fmap_app filter_app Hnames -app_assoc. do 2 f_equal.
    simpl. by rw filter_cons_True.
  - auto.
  - intros g [?| ->%list_elem_of_singleton]%elem_of_app; [auto|].
    exists f. split; [apply elem_of_app; right; left|]. split; [done|constructor].
  - intros g Hg Hn. apply elem_of_app. left. apply Hpend; [done|].
    intros ?. apply Hn. rw fmap_app. apply elem_of_app. by left.
Qed.

Lemma loop_inv_kept self done acc sf f :
  loop_inv self done acc → NoDup (name <$> done ++ [f]) →
  sf ∈ self → name sf = name f → type_le (data_type f) (data_type sf) →
  loop_inv self (done ++ [f]) acc.
Proof.
  intros [Hnd Hwf Hnames Hself Hdone Hpend] Hndd Hsf Hn Hle.
  rw fmap_app in Hndd. apply NoDup_app in Hndd as (_ & Hfresh & _).
  assert (name f ∈ name <$> self) as Hns by (rw -Hn; by apply list_elem_of_fmap_2).
  split; try done.
  - rw fmap_app filter_app /= filter_cons_False ?app_nil_r //; by intros ?.
  - intros g [?| ->%list_elem_of_singleton]%elem_of_app; [auto|].
    exists sf. repeat split; try done. apply Hpend; [done|]. rw Hn.
    intros Hd. apply (Hfresh _ Hd). left.
  - intros g Hg Hg'. apply Hpend; [done|]. intros ?. apply Hg'. rw fmap_app.
    apply elem_of_app. by left.
Qed.

Lemma loop_inv_replaced self done acc acc' sf f g :
  loop_inv self done acc → NoDup (name <$> done ++ [f]) → NoDup (name <$> self) →
  sf ∈ self → name sf = name f → name g = name f → wf_field g →
  type_le (data_type sf) (data_type g) → type_le (data_type f) (data_type g) →
  replace_first (name f) g acc = Some acc' →
  loop_inv self (done ++ [f]) acc'.
Proof.
  intros [Hnd Hwf Hnames Hself Hdone Hpend] Hndd Hnds Hsf Hn Hg Hwfg Hle1 Hle2 Hr.
  rw fmap_app in Hndd. apply NoDup_app in Hndd as (_ & Hfresh & _).
  pose proof (λ h, replace_first_elem _ _ _ _ h Hnd Hr) as Hin.
  assert (name f ∈ name <$> self) as Hns by (rw -Hn; by apply list_elem_of_fmap_2).
  assert (∀ h, name h ≠ name f → covered h acc → covered h acc') as Hmono.
  { intros h Hh (h' & ? & Hh' & ?). exists h'. split; [apply Hin; right; split; [done|congruence]|done]. }
  split.
  - by rw (replace_first_names _ _ _ _ Hg Hr).
  - apply Forall_forall. intros h [->|[Hh _]]%Hin; [done|]. rw Forall_forall in Hwf. auto.
  - rw (replace_first_names _ _ _ _ Hg Hr) Hnames fmap_app filter_app /=.
    rw filter_cons_False ?app_nil_r //; by intros ?.
  - intros h Hh. destruct (decide (name h = name f)) as [Hhn|Hhn]; [|auto].
    assert (h = sf) as -> by (eapply NoDup_name_inj; eauto; congruence).
    exists g. repeat split; [apply Hin; by left|congruence|done].
  - intros h [Hh| ->%list_elem_of_singleton]%elem_of_app.
    + apply Hmono; [|auto]. intros Hhn. eapply (Hfresh (name f)); [|left].
      rw -Hhn. by apply list_elem_of_fmap_2.
    + exists g. repeat split; [apply Hin; by left|congruence|done].
  - intros h Hh Hh'. rw fmap_app not_elem_of_app in Hh'. destruct Hh' as [Hd Hs].
    apply Hin. right. split; [auto|]. intros Heq. apply Hs. rw Heq. left.
Qed.

Lemma merge_step_inv self done acc acc' f :
  wf_schema (mkSchema self) → wf_field f → field_merge_ok f →
  NoDup (name <$> done ++ [f]) → loop_inv self done acc →
  merge_step (to_map (mkSchema self)) acc f = Ok acc' →
  loop_inv self (done ++ [f]) acc'.
Proof.
  intros [Hnds Hwfs]%wf_schema_unfold Hf IH Hnd Hinv. unfold merge_step.
  destruct (to_map _ !! name f) as [sf|] eqn:Hsf.
  - apply to_map_Some in Hsf as [Hsf Hn]. simpl in Hsf.
    assert (wf_field sf) as Hwsf by (by rw Forall_forall in Hwfs; auto).
    intros Hstep. invert_ok.
    destruct (IH _ _ Hwsf Hf Hm) as (Hle1 & Hle2 & Hwf & Hname).
    destruct x as [g|]; invert_ok; simpl in *.
    + assert (wf_field g) by (destruct g; exact Hwf).
      by apply (loop_inv_replaced self done acc acc' sf f g); auto.
    + by apply (loop_inv_kept self done acc' sf f).
  - intros [= <-]. apply to_map_None in Hsf. by apply loop_inv_new.
Qed.

Lemma merge_loop_inv self ofs : ∀ done acc acc',
  wf_schema (mkSchema self) → Forall wf_field ofs → Forall field_merge_ok ofs →
  NoDup (name <$> done ++ ofs) → loop_inv self done acc →
  foldM (merge_step (to_map (mkSchema self))) acc ofs = Ok acc' →
  loop_inv self (done ++ ofs) acc'.
Proof.
  induction ofs as [|f ofs IH]; intros done acc acc' Hs Hwf HIH Hnd Hinv Hr; simpl in Hr.
  - invert_ok. by rw app_nil_r.
  - invert_ok. apply Forall_cons in Hwf as [? ?], HIH as [? ?].
    rw cons_middle app_assoc in Hnd. rw cons_middle app_assoc.
    eapply IH; eauto. eapply merge_step_inv; eauto.
    rw fmap_app in Hnd. by apply NoDup_app in Hnd as [? _].
Qed.

(** The cases of [merge_field] that do not recurse. *)
Ltac merge_leaf :=
  intros Hr; repeat case_decide; simplify_eq/=; simpl in *; split_and?;
  eauto using le_null, le_refl, le_array_null; try (by intros ? [= <-]); try done.

Lemma merge_ok_all :
  (∀ t, (∀ n, field_merge_ok (mkField n t)) ∧
        (∀ s, t = TObject s → schema_merge_ok s)) ∧
  (∀ f, field_merge_ok f) ∧ (∀ s, schema_merge_ok s).
Proof.
  apply (schema_mutual_ind (λ t, (∀ n, field_merge_ok (mkField n t)) ∧
        (∀ s, t = TObject s → schema_merge_ok s)) field_merge_ok schema_merge_ok).
  - intros e [_ IHe]. split; [|done]. intros n [sn st] r Hwsf Hwf. simpl.
    destruct st as [se| | | | | |]; simpl; try (merge_leaf; fail).
    destruct e as [e'| | | | |s|]; simpl; try (destruct se; simpl; merge_leaf; fail).
    destruct se as [ | | | | |ss|]; simpl; try (merge_leaf; fail).
    intros Hr. invert_ok. destruct (IHe s eq_refl _ _ Hwsf Hwf Hm) as (? & ? & ? & _).
    split_and!; eauto using le_array_object. by intros ? [= <-].
  - split; [|done]. intros n [sn []] r _ _; simpl; merge_leaf.
  - split; [|done]. intros n [sn []] r _ _; simpl; merge_leaf.
  - split; [|done]. intros n [sn []] r _ _; simpl; merge_leaf.
  - split; [|done]. intros n [sn st] r Hwf _. simpl. merge_leaf.
  - intros s IHs. split; [|by intros ? [= <-]]. intros n [sn st] r Hwsf Hwf. simpl.
    destruct st as [ | | | | |ss|]; simpl; try (merge_leaf; fail).
    intros Hr. invert_ok. destruct (IHs _ _ Hwsf Hwf Hm) as (? & ? & ? & _).
    split_and!; eauto using le_object. by intros ? [= <-].
  - split; [|done]. intros n [sn []] r _ _; simpl; merge_leaf.
  - intros n t [IH _]. apply IH.
  - intros ofs IH [self] r Hself Hother. rw merge_from_unfold. intros Hr. invert_ok.
    apply wf_schema_unfold in Hother as [Hnd Hwf]. simpl in Hm.
    destruct (merge_loop_inv self ofs [] self x) as [Hn Hw Hnames Hs Hd _]; try done.
    { by apply loop_inv_init. }
    split_and!; try done; try by constructor. by apply wf_schema_unfold.
Qed.

(** ** A merge succeeds exactly below a common bound, and is below every such bound *)

Lemma schema_le_refl s : schema_le s s.
Proof. destruct s as [fs]. constructor. intros f Hf. exists f. eauto using le_refl. Qed.

Lemma type_le_object_l s u : type_le (TObject s) u → ∃ s', u = TObject s' ∧ schema_le s s'.
Proof. inversion 1; subst; eauto using schema_le_refl. Qed.

Lemma type_le_object_r t s' :
  type_le t (TObject s') → t = TNull ∨ ∃ s, t = TObject s ∧ schema_le s s'.
Proof. inversion 1; subst; eauto using schema_le_refl. Qed.

Lemma replace_first_subset n g fs fs' h :
  replace_first n g fs = Some fs' → h ∈ fs' → h = g ∨ h ∈ fs.
Proof.
  revert fs'. induction fs as [|f fs IH]; intros fs'; simpl; [done|]. case_decide.
  - intros [= <-]. rw !elem_of_cons. tauto.
  - destruct (replace_first n g fs) eqn:E; simpl; [|done]. intros [= <-].
    rw !elem_of_cons. intros [?|?]; [tauto|]. edestruct IH; eauto.
Qed.

Definition field_merge_bounded (f : PowdrrField) : Prop := ∀ sf u,
  wf_type u → type_le (data_type sf) u → type_le (data_type f) u →
  ∃ r, merge_field sf f = Ok r ∧ type_le (merged_type sf r) u ∧
       (∀ g, r = Some g → name g = name f).

Definition schema_merge_bounded (other : PowdrrSchema) : Prop := ∀ self u,
  wf_schema u → schema_le self u → schema_le other u →
  ∃ r, merge_from self other = Ok r ∧ schema_le r u.

Lemma merge_step_bounded self us acc f :
  NoDup (name <$> us) → Forall wf_field us → field_merge_bounded f →
  (∀ g, g ∈ self → covered g us) → covered f us →
  (∀ g, g ∈ acc → covered g us) → (∀ n, n ∈ name <$> self → n ∈ name <$> acc) →
  ∃ acc', merge_step (to_map (mkSchema self)) acc f = Ok acc' ∧
    (∀ g, g ∈ acc' → covered g us) ∧ (∀ n, n ∈ name <$> self → n ∈ name <$> acc').
Proof.
  intros Hnd Hwf IH Hself Hf Hacc Hnames. unfold merge_step.
  destruct (to_map _ !! name f) as [sf|] eqn:Hsf.
  - apply to_map_Some in Hsf as [Hsf Hn]. simpl in Hsf.
    destruct (Hself _ Hsf) as (u1 & Hu1 & Hn1 & Hle1), Hf as (u2 & Hu2 & Hn2 & Hle2).
    assert (u1 = u2) as -> by (eapply NoDup_name_inj; eauto; congruence).
    destruct (IH sf (data_type u2)) as (r & -> & Hr & Hg); [|done..|].
    { rw Forall_forall in Hwf. specialize (Hwf _ Hu2). by destruct u2. }
    simpl. destruct r as [g|]; simpl in *; [|eauto].
    specialize (Hg _ eq_refl).
    destruct (replace_first_is_Some (name f) g acc) as [acc' Hacc'].
    { apply Hnames. rw -Hn. by apply list_elem_of_fmap_2. }
    rw Hacc'. exists acc'. split_and!; [done| |].
    + intros h [->|Hh]%(replace_first_subset _ _ _ _ _ Hacc'); [|auto].
      exists u2. split_and!; [done|congruence|done].
    + by rw (replace_first_names _ _ _ _ Hg Hacc').
  - exists (acc ++ [f]). split_and!; [done| |].
    + intros g [?| ->%list_elem_of_singleton]%elem_of_app; auto.
    + intros n Hn. rw fmap_app. apply elem_of_app. auto.
Qed.

Lemma merge_loop_bounded self us ofs :
  NoDup (name <$> us) → Forall wf_field us → Forall field_merge_bounded ofs →
  (∀ g, g ∈ self → covered g us) → (∀ g, g ∈ ofs → covered g us) → ∀ acc,
  (∀ g, g ∈ acc → covered g us) → (∀ n, n ∈ name <$> self → n ∈ name <$> acc) →
  ∃ acc', foldM (merge_step (to_map (mkSchema self))) acc ofs = Ok acc' ∧
    (∀ g, g ∈ acc' → covered g us).
Proof.
  intros Hnd Hwf HIH Hself. induction HIH as [|f ofs Hf _ IH]; intros Hofs acc Hacc Hnames.
  - simpl. eauto.
  - destruct (merge_step_bounded self us acc f) as (acc' & Hstep & ? & ?); try done.
    { apply Hofs. left. }
    simpl. rw Hstep /=. apply IH; [|done..]. intros g Hg. apply Hofs. by right.
Qed.

(** The array case of [field_merge_bounded]. *)
Lemma merge_array_bounded e n :
  (∀ s, e = TObject s → schema_merge_bounded s) → field_merge_bounded (mkField n (TArray e)).
Proof.
  intros IHe [sn st] u Hu H1 H2. simpl in *.
  assert (∃ u', u = TArray u') as [u' ->] by (inversion H2; eauto).
  assert (st = TNull ∨ ∃ se, st = TArray se) as [->|[se ->]] by (inversion H1; subst; eauto).
  { eexists. split_and!; [done|done|by intros ? [= <-]]. }
  destruct (decide (e = TNull)) as [->|He].
  { exists None. by split_and!. }
  destruct (decide (se = TNull)) as [->|Hse].
  { destruct e; try done; simpl; eexists; (split_and!; [done|done|by intros ? [= <-]]). }
  destruct e as [e'| | | | |s|]; try done.
  all: try (inversion H2; subst; inversion H1; subst; try done; exists None; split_and!;
            [simpl; by rw ?decide_True|done|done]).
  assert (∃ s', u' = TObject s' ∧ schema_le s s') as (s' & -> & Hle)
    by (inversion H2; subst; eauto using schema_le_refl).
  assert (∃ ss, se = TObject ss ∧ schema_le ss s') as (ss & -> & Hle')
    by (inversion H1; subst; eauto using schema_le_refl; done).
  destruct (IHe s eq_refl ss s' Hu Hle' Hle) as (r & Hr & Hru).
  simpl. rw Hr /=. eexists. split_and!; [done|by apply le_array_object|by intros ? [= <-]].
Qed.

(** Leaves of the bounded case analysis. *)
Ltac bounded_leaf :=
  intros [sn st] u Hu H1 H2; simpl in *;
  inversion H2; subst; inversion H1; subst; simpl;
  rw ?decide_True //; eexists; split_and!;
  eauto using le_null, le_refl; by intros ? [= <-].

Lemma merge_bounded_all :
  (∀ t, (∀ n, field_merge_bounded (mkField n t)) ∧
        (∀ s, t = TObject s → schema_merge_bounded s)) ∧
  (∀ f, field_merge_bounded f) ∧ (∀ s, schema_merge_bounded s).
Proof.
  apply (schema_mutual_ind (λ t, (∀ n, field_merge_bounded (mkField n t)) ∧
    (∀ s, t = TObject s → schema_merge_bounded s)) field_merge_bounded schema_merge_bounded).
  - intros e [_ IHe]. split; [|done]. intros n. by apply merge_array_bounded.
  - split; [|done]. intros n. bounded_leaf.
  - split; [|done]. intros n. bounded_leaf.
  - split; [|done]. intros n. bounded_leaf.
  - split; [|done]. intros n [sn st] u Hu H1 H2. exists None. by split_and!.
  - intros s IHs. split; [|by intros ? [= <-]]. intros n [sn st] u Hu H1 H2. simpl in *.
    apply type_le_object_l in H2 as (s' & -> & Hle).
    apply type_le_object_r in H1 as [->|(ss & -> & Hle')].
    { eexists. split_and!; [done|by apply le_object|by intros ? [= <-]]. }
    destruct (IHs ss s' Hu Hle' Hle) as (r & Hr & Hru).
    simpl. rw Hr /=. eexists. split_and!; [done|by apply le_object|by intros ? [= <-]].
  - split; [|done]. intros n. bounded_leaf.
  - intros n t [IH _]. apply IH.
  - intros ofs IH [self] [us] [Hnd Hwf]%wf_schema_unfold Hs Ho. rw merge_from_unfold.
    rw schema_le_covered in Hs. rw schema_le_covered in Ho. simpl fields.
    destruct (merge_loop_bounded self us ofs Hnd Hwf IH Hs Ho self) as (acc & -> & Hacc); try done.
    simpl. eexists. split; [done|]. by apply schema_le_covered.
Qed.

(** ** Properties *)
Module SchemaMerge.

(** Merging [other] into [self] never loses information: when
    [PowdrrSchema::merge_from] returns, the result lies above both schemas (every
    field of either is still there with a type that says at least as much), its
    field names are those of [self] followed by the new ones of [other] in order,
    and names stay distinct at every level. *)
Theorem merge_from_upper_bound self other r :
  wf_schema self → wf_schema other → merge_from self other = Ok r →
  schema_le self r ∧ schema_le other r ∧ wf_schema r ∧
  name <$> fields r =
    (name <$> fields self) ++ filter (λ n, n ∉ name <$> fields self) (name <$> fields other).
Proof. intros. by eapply (proj2 (proj2 merge_ok_all)). Qed.

(** C39. The merge is the least upper bound of two schemas whose field names are distinct
    at every level: if any such schema lies above both, [merge_from] returns (it panics only
    where there is none) a schema [r] that is above both inputs, so that no field or type is
    lost, and below every other schema above both; its field names are those of [self]
    followed by the new ones of [other] in order, again distinct at every level. *)
Theorem merge_from_least self other u :
  wf_schema self → wf_schema other → wf_schema u → schema_le self u → schema_le other u →
  ∃ r, merge_from self other = Ok r ∧ schema_le self r ∧ schema_le other r ∧ wf_schema r ∧
    name <$> fields r = (name <$> fields self) ++ filter (λ n, n ∉ name <$> fields self) (name <$> fields other) ∧
    ∀ u', wf_schema u' → schema_le self u' → schema_le other u' → schema_le r u'.
Proof.
  intros Hs Ho Hu Hsu Hou. destruct (proj2 (proj2 merge_bounded_all) other self u Hu Hsu Hou) as (r & Hr & _).
  destruct (proj2 (proj2 merge_ok_all) other self r Hs Ho Hr) as (H1 & H2 & H3 & H4). exists r. split_and!; [done..|].
  intros u' Hu' Hsu' Hou'. destruct (proj2 (proj2 merge_bounded_all) other self u' Hu' Hsu' Hou') as (r' & Hr' & Hle). congruence.
Qed.

Definition table_schema : PowdrrSchema :=
  mkSchema [mkField "id" TInteger; mkField "meta" (TObject (mkSchema [mkField "a" TNull]));
            mkField "tags" (TArray TNull)].
Definition batch_schema : PowdrrSchema :=
  mkSchema [mkField "meta" (TObject (mkSchema [mkField "a" TString; mkField "b" TBoolean]));
            mkField "tags" (TArray TString); mkField "ts" TInteger].
Definition table_and_batch : PowdrrSchema :=
  mkSchema [mkField "id" TInteger;
            mkField "meta" (TObject (mkSchema [mkField "a" TString; mkField "b" TBoolean]));
            mkField "tags" (TArray TString); mkField "ts" TInteger].

Ltac solve_wf :=
  simpl; repeat match goal with
  | |- _ ∧ _ => split
  | |- True => exact I
  | |- NoDup _ => apply (bool_decide_unpack _); vm_compute; exact I
  end.

Lemma merge_from_upper_bound_witness :
  merge_from table_schema batch_schema = Ok table_and_batch ∧
  schema_le table_schema table_and_batch ∧ schema_le batch_schema table_and_batch.
Proof.
  assert (merge_from table_schema batch_schema = Ok table_and_batch) as H by reflexivity.
  assert (wf_schema table_schema) as H1 by solve_wf.
  assert (wf_schema batch_schema) as H2 by solve_wf.
  destruct (merge_from_upper_bound _ _ _ H1 H2 H) as (H3 & H4 & _).
  exact (conj H (conj H3 H4)).
Defined.

Lemma merge_from_least_witness :
  ∃ r, merge_from (mkSchema [mkField "id" TInteger]) batch_schema = Ok r ∧ schema_le batch_schema r ∧ schema_le r table_and_batch.
Proof.
  assert (H1 : schema_le (mkSchema [mkField "id" TInteger]) table_and_batch).
  { constructor. intros f Hf. apply list_elem_of_singleton in Hf as ->.
    exists (mkField "id" TInteger). split; [left|]. split; [reflexivity|apply le_refl]. }
  assert (H2 : schema_le batch_schema table_and_batch).
  { constructor. intros f Hf. exists f. split; [by right|]. split; [reflexivity|apply le_refl]. }
  assert (H3 : wf_schema table_and_batch) by solve_wf.
  destruct (merge_from_least (mkSchema [mkField "id" TInteger]) batch_schema table_and_batch) as (r & Hr & _ & Ho & _ & _ & Hl);
    [solve_wf|solve_wf|exact H3|exact H1|exact H2|]. exists r. split; [exact Hr|]. split; [exact Ho|]. exact (Hl _ H3 H1 H2).
Defined.
End SchemaMerge.
