(* ===== verification/Coerce.v ===== *)
(** * Fitting documents to a schema (control_plane/src/schema_massager.rs)

    [coerce_value] fills the fields a document lacks with defaults, at every level, so
    that all rows of a file have the same columns. *)

From S2P Require Import Prelude Schema Json.

(** SRC control_plane/src/schema_massager.rs:266-280 PowdrrSchema::default_serde_value *)
Fixpoint default_serde_value (t : PowdrrDataType) : Value :=
  match t with
  | TObject (mkSchema fs) =>
      VObject ((fix go (fs : list PowdrrField) (value_fields : list (string * Value)) :=
                  match fs with
                  | [] => value_fields
                  | mkField n t :: fs => go fs (obj_insert n (default_serde_value t) value_fields)
                  end) fs [])
  | _ => VNull
  end.

(** SRC control_plane/src/schema_massager.rs:244-264 PowdrrSchema::coerce_value *)
Fixpoint coerce_value (s : PowdrrSchema) (value : Value) {struct s} : outcome Value :=
  match value, s with
  | VObject value_map, mkSchema fs =>
      coerced ← (fix go (fs : list PowdrrField) (value_map : list (string * Value)) : outcome (list (string * Value)) :=
        match fs with
        | [] => Ok value_map
        | mkField n t :: fs =>
            match obj_get n value_map with
            | Some field_value =>
                match t with
                | TObject field_value_schema =>
                    field_value ← coerce_value field_value_schema field_value;
                    go fs (obj_insert n field_value value_map)
                | _ => go fs value_map
                end
            | None => go fs (obj_insert n (default_serde_value t) value_map)
            end
        end) fs value_map;
      Ok (VObject coerced)
  | _, _ => Panic "assertion failed: value.is_object()"
  end.

(** SRC control_plane/src/schema_massager.rs:236-242 PowdrrSchema::coerce_value_option *)
Definition coerce_value_option (s : PowdrrSchema) (value : option Value) : outcome (option Value) :=
  match value with
  | None => Ok None
  | Some value => v ← coerce_value s value; Ok (Some v)
  end.

(** ** The loop over the fields *)

Definition default_object (fs : list PowdrrField) : list (string * Value) :=
  foldl (λ m f, obj_insert (name f) (default_serde_value (data_type f)) m) [] fs.

Lemma default_serde_object fs : default_serde_value (TObject (mkSchema fs)) = VObject (default_object fs).
Proof.
  rw /default_object. cbn [default_serde_value]. f_equal. generalize (@nil (string * Value)).
  induction fs as [|[n t] fs IH]; intros m; [done|]. apply IH.
Qed.

(** One iteration. *)
Definition coerce_step (m : list (string * Value)) (f : PowdrrField) : outcome (list (string * Value)) :=
  match obj_get (name f) m with
  | Some v =>
      match data_type f with
      | TObject s => v ← coerce_value s v; Ok (obj_insert (name f) v m)
      | _ => Ok m
      end
  | None => Ok (obj_insert (name f) (default_serde_value (data_type f)) m)
  end.

Lemma coerce_value_unfold fs m : coerce_value (mkSchema fs) (VObject m) = (m' ← foldM coerce_step m fs; Ok (VObject m')).
Proof.
  cbn [coerce_value]. f_equal. revert m. induction fs as [|[n t] fs IH]; intros m; [done|].
  cbn [foldM]. assert (Hs : ∀ r, coerce_step m (mkField n t) = r → r = coerce_step m (mkField n t)) by done.
  move: Hs. rw {1}/coerce_step. cbn [name data_type]. intros Hs. rw -(Hs _ eq_refl). clear Hs.
  destruct (obj_get n m) as [v|]; [|apply IH].
  destruct t as [| | | | |s|]; try apply IH. destruct (coerce_value s v); [|done..]. apply IH.
Qed.

(** ** Documents that fit *)

(** Where the schema has an object, a document that has the field has an object there. *)
Fixpoint conforms (t : PowdrrDataType) (v : Value) {struct t} : Prop :=
  match t with
  | TObject (mkSchema fs) =>
      match v with
      | VObject m =>
          (fix go (fs : list PowdrrField) : Prop :=
             match fs with
             | [] => True
             | mkField n t :: fs => match obj_get n m with Some v => conforms t v | None => True end ∧ go fs
             end) fs
      | _ => False
      end
  | _ => True
  end.

(** A document with every field of the schema. *)
Fixpoint complete (t : PowdrrDataType) (v : Value) {struct t} : Prop :=
  match t with
  | TObject (mkSchema fs) =>
      match v with
      | VObject m =>
          (fix go (fs : list PowdrrField) : Prop :=
             match fs with
             | [] => True
             | mkField n t :: fs => match obj_get n m with Some v => complete t v | None => False end ∧ go fs
             end) fs
      | _ => False
      end
  | _ => True
  end.

Definition field_conforms (m : list (string * Value)) (f : PowdrrField) : Prop :=
  match obj_get (name f) m with Some v => conforms (data_type f) v | None => True end.
Definition field_complete (m : list (string * Value)) (f : PowdrrField) : Prop :=
  match obj_get (name f) m with Some v => complete (data_type f) v | None => False end.

Lemma conforms_object fs m : conforms (TObject (mkSchema fs)) (VObject m) ↔ Forall (field_conforms m) fs.
Proof.
  cbn [conforms]. induction fs as [|[n t] fs IH]; [by split|]. rw Forall_cons. by rw IH.
Qed.
Lemma complete_object fs m : complete (TObject (mkSchema fs)) (VObject m) ↔ Forall (field_complete m) fs.
Proof.
  cbn [complete]. induction fs as [|[n t] fs IH]; [by split|]. rw Forall_cons. by rw IH.
Qed.

Lemma field_complete_ne m f n v : name f ≠ n → field_complete (obj_insert n v m) f ↔ field_complete m f.
Proof. intros Hne. rw /field_complete obj_get_insert_ne //. congruence. Qed.
Lemma field_conforms_ne m f n v : name f ≠ n → field_conforms (obj_insert n v m) f ↔ field_conforms m f.
Proof. intros Hne. rw /field_conforms obj_get_insert_ne //. congruence. Qed.

(** ** What coercion does at every depth *)

(** The value under a path of keys, and the type a schema has there. *)
Fixpoint at_path (path : list string) (v : Value) : option Value :=
  match path with
  | [] => Some v
  | k :: path => match v with VObject m => match obj_get k m with Some v => at_path path v | None => None end | _ => None end
  end.
Definition field_named (k : string) (fs : list PowdrrField) : option PowdrrField := List.find (λ f, bool_decide (name f = k)) fs.
Fixpoint type_at (path : list string) (t : PowdrrDataType) : option PowdrrDataType :=
  match path with
  | [] => Some t
  | k :: path => match t with TObject s => match field_named k (fields s) with Some f => type_at path (data_type f) | None => None end | _ => None end
  end.

(** Everything that was there stays, objects as objects; where there was nothing there is
    what the schema has as default, if it has the path, and nothing otherwise. *)
Definition fitted (t : PowdrrDataType) (v v' : Value) : Prop := ∀ path,
  match at_path path v with
  | Some (VObject _) => ∃ m', at_path path v' = Some (VObject m')
  | Some x => at_path path v' = Some x
  | None => at_path path v' = default_serde_value <$> type_at path t
  end.
Definition flat_type (t : PowdrrDataType) : Prop := ∀ s, t ≠ TObject s.

Lemma fitted_refl t v : (∀ k path, type_at (k :: path) t = None) → fitted t v v.
Proof. intros Ht [|k path]; [cbn; destruct v; eauto|]. destruct (at_path (k :: path) v) as [[]|] eqn:Hv; eauto. by rw Ht. Qed.
Lemma flat_type_at t k path : flat_type t → type_at (k :: path) t = None.
Proof. intros Ht. destruct t; try done. by destruct (Ht schema). Qed.

Lemma field_named_elem fs f : NoDup (name <$> fs) → f ∈ fs → field_named (name f) fs = Some f.
Proof.
  induction fs as [|g fs IH]; [intros _ []%not_elem_of_nil|]. rw fmap_cons. intros [Hg Hnd]%NoDup_cons [->|Hf]%elem_of_cons; rw /field_named /=.
  - by rw bool_decide_true.
  - rw bool_decide_false; [|by apply IH]. intros Heq. apply Hg. rw Heq. by apply list_elem_of_fmap_2.
Qed.
Lemma field_named_None fs k : k ∉ name <$> fs → field_named k fs = None.
Proof. induction fs as [|g fs IH]; [done|]. rw fmap_cons not_elem_of_cons /field_named /=. intros [Hk Hf]. rw bool_decide_false; [congruence|]. by apply IH. Qed.

(** What happened to one field. *)
Definition field_fitted (m m' : list (string * Value)) (f : PowdrrField) : Prop :=
  match obj_get (name f) m with
  | Some v => ∃ v', obj_get (name f) m' = Some v' ∧ fitted (data_type f) v v'
  | None => obj_get (name f) m' = Some (default_serde_value (data_type f))
  end.
Definition default_at_paths (t : PowdrrDataType) : Prop := ∀ path, at_path path (default_serde_value t) = default_serde_value <$> type_at path t.

Lemma fields_fitted fs m m' : NoDup (name <$> fs) → Forall (field_fitted m m') fs → Forall (λ f, default_at_paths (data_type f)) fs → (∀ k, k ∉ name <$> fs → obj_get k m' = obj_get k m) →
  fitted (TObject (mkSchema fs)) (VObject m) (VObject m').
Proof.
  intros Hnd Hf Hd Ho [|k path]; [by exists m'|]. cbn [at_path type_at fields]. destruct (decide (k ∈ name <$> fs)) as [Hk|Hk].
  - apply list_elem_of_fmap in Hk as (f & -> & Hin). rw (field_named_elem fs f Hnd Hin). rw Forall_forall in Hf. specialize (Hf f Hin). rw /field_fitted in Hf.
    destruct (obj_get (name f) m) as [v|]; [destruct Hf as (v' & -> & Hv); apply Hv|]. rw Hf. rw Forall_forall in Hd. by apply Hd.
  - rw (Ho k Hk) (field_named_None fs k Hk). destruct (obj_get k m) as [v|]; [|done]. destruct (at_path path v) as [[]|] eqn:Hv; eauto.
Qed.

(** ** Coercion succeeds, completes and then does nothing *)

Definition object_field (f : PowdrrField) : Prop := ∃ s, data_type f = TObject s.

(** What is proved of a type by induction. *)
Record coercible (t : PowdrrDataType) : Prop := {
  co_default : complete t (default_serde_value t);
  co_paths : default_at_paths t;
  co_total : ∀ s v, t = TObject s → conforms t v → ∃ v', coerce_value s v = Ok v' ∧ complete t v' ∧ fitted t v v';
  co_idle : ∀ s v, t = TObject s → complete t v → coerce_value s v = Ok v;
}.

Lemma coercible_flat t : flat_type t → coercible t.
Proof.
  intros Ht. split; [| |intros s v ->; by destruct (Ht s)..].
  - by destruct t; try done; destruct (Ht schema).
  - intros [|k path]; [done|]. rw flat_type_at //. by destruct t; try done; destruct (Ht schema).
Qed.

Lemma coerce_step_spec m f :
  coercible (data_type f) → field_conforms m f →
  ∃ m', coerce_step m f = Ok m' ∧ field_complete m' f ∧ field_fitted m m' f ∧ (∀ k, k ≠ name f → obj_get k m' = obj_get k m) ∧
    (∀ v, ¬ object_field f → obj_get (name f) m = Some v → obj_get (name f) m' = Some v).
Proof.
  intros Hco Hc. rw /coerce_step /field_complete /field_fitted. rw /field_conforms in Hc. destruct (obj_get (name f) m) as [v|] eqn:Hg.
  - destruct (data_type f) as [t| | | | |s|] eqn:Ht.
    6: { destruct (co_total _ Hco s v eq_refl Hc) as (v' & -> & Hv' & Hfit). eexists. split; [done|]. rw obj_get_insert_eq.
         split_and!; [done|by exists v'| |]; [intros k Hk; apply obj_get_insert_ne; congruence|].
         intros ? []. by exists s. }
    all: exists m; rw Hg; split_and!; [done|done| |done|done]; exists v; split; [done|]; apply fitted_refl; intros; by apply flat_type_at.
  - eexists. split; [done|]. rw obj_get_insert_eq. split_and!; [apply Hco|done| |done].
    intros k Hk. apply obj_get_insert_ne. congruence.
Qed.

Lemma coerce_fields_spec fs m :
  NoDup (name <$> fs) → Forall (λ f, coercible (data_type f)) fs → Forall (field_conforms m) fs →
  ∃ m', foldM coerce_step m fs = Ok m' ∧ Forall (field_complete m') fs ∧ Forall (field_fitted m m') fs ∧ (∀ k, k ∉ name <$> fs → obj_get k m' = obj_get k m) ∧
    (∀ k v, (∀ f, f ∈ fs → name f = k → ¬ object_field f) → obj_get k m = Some v → obj_get k m' = Some v).
Proof.
  revert m. induction fs as [|f fs IH]; intros m Hnd Hco Hc; [by exists m|]. rw fmap_cons in Hnd. apply NoDup_cons in Hnd as [Hf Hnd].
  apply Forall_cons in Hco as [Hcof Hco]. apply Forall_cons in Hc as [Hcf Hc].
  destruct (coerce_step_spec m f Hcof Hcf) as (m1 & H1 & H2 & Hfit & H3 & H4).
  assert (Hne : ∀ g, g ∈ fs → name g ≠ name f).
  { intros g Hg Heq. apply Hf. rw -Heq. by apply list_elem_of_fmap_2. }
  destruct (IH m1 Hnd Hco) as (m' & H5 & H6 & Hfits & H7 & H8).
  { apply Forall_forall. intros g Hg. rw Forall_forall in Hc. rw /field_conforms H3; [by apply Hne|]. by apply Hc. }
  exists m'. cbn [foldM]. rw H1 bind_Ok. split_and!; [done| | | |].
  - constructor; [|done]. rw /field_complete H7; [done|]. exact H2.
  - constructor; [rw /field_fitted H7; [done|]; exact Hfit|]. apply Forall_forall. intros g Hg. rw Forall_forall in Hfits. specialize (Hfits g Hg).
    by rw /field_fitted H3 in Hfits; [apply Hne|].
  - intros k Hk. rw fmap_cons not_elem_of_cons in Hk. rw H7; [naive_solver|]. apply H3. naive_solver.
  - intros k v Hk Hg. apply H8; [intros g Hg'; apply Hk; by right|]. destruct (decide (k = name f)) as [->|]; [|by rw H3].
    apply H4; [|done]. apply Hk; [left|done].
Qed.

Lemma coerce_fields_idle fs m :
  Forall (λ f, coercible (data_type f)) fs → Forall (field_complete m) fs → foldM coerce_step m fs = Ok m.
Proof.
  intros Hco. induction Hco as [|f fs Hf _ IH]; [done|]. intros [Hc Hcs]%Forall_cons. cbn [foldM].
  assert (Hs : coerce_step m f = Ok m); [|by rw Hs bind_Ok IH]. rw /coerce_step. rw /field_complete in Hc.
  destruct (obj_get (name f) m) as [v|] eqn:Hg; [|done]. destruct (data_type f) as [| | | | |s|] eqn:Ht; try done.
  rw (co_idle _ Hf s v eq_refl Hc) bind_Ok. by rw obj_insert_get_id.
Qed.

Lemma default_object_complete fs m :
  NoDup (name <$> fs) → Forall (λ f, coercible (data_type f)) fs →
  let m' := foldl (λ m f, obj_insert (name f) (default_serde_value (data_type f)) m) m fs in
  Forall (field_complete m') fs ∧ ∀ k, k ∉ name <$> fs → obj_get k m' = obj_get k m.
Proof.
  revert m. induction fs as [|f fs IH]; intros m Hnd Hco; [by split|]. rw fmap_cons in Hnd. apply NoDup_cons in Hnd as [Hf Hnd].
  apply Forall_cons in Hco as [Hcof Hco]. cbn [foldl].
  destruct (IH (obj_insert (name f) (default_serde_value (data_type f)) m) Hnd Hco) as [H1 H2]. split.
  - constructor; [|done]. rw /field_complete H2 // obj_get_insert_eq. apply Hcof.
  - intros k Hk. rw fmap_cons not_elem_of_cons in Hk. rw H2; [naive_solver|]. apply obj_get_insert_ne. naive_solver.
Qed.

Lemma default_object_get fs m f : NoDup (name <$> fs) → f ∈ fs →
  obj_get (name f) (foldl (λ m f, obj_insert (name f) (default_serde_value (data_type f)) m) m fs) = Some (default_serde_value (data_type f)).
Proof.
  revert m. induction fs as [|g fs IH]; intros m; [intros _ []%not_elem_of_nil|]. rw fmap_cons. intros [Hg Hnd]%NoDup_cons [->|Hf]%elem_of_cons; [|by apply IH].
  cbn [foldl]. clear IH. assert (Hget : obj_get (name g) (obj_insert (name g) (default_serde_value (data_type g)) m) = Some (default_serde_value (data_type g))) by apply obj_get_insert_eq.
  revert Hget Hg. generalize (obj_insert (name g) (default_serde_value (data_type g)) m). clear Hnd. induction fs as [|h fs IH]; intros m0 Hget Hg; [done|].
  rw fmap_cons not_elem_of_cons in Hg. destruct Hg as [Hne Hg]. cbn [foldl]. apply IH; [|done]. rw obj_get_insert_ne //. congruence.
Qed.

Lemma coercible_object fs : NoDup (name <$> fs) → Forall (λ f, coercible (data_type f)) fs → coercible (TObject (mkSchema fs)).
Proof.
  intros Hnd Hco. split.
  - rw default_serde_object complete_object. by apply default_object_complete.
  - intros [|k path]; [done|]. cbn [type_at fields]. rw default_serde_object. cbn [at_path]. destruct (decide (k ∈ name <$> fs)) as [Hk|Hk].
    + apply list_elem_of_fmap in Hk as (f & -> & Hin). rw (field_named_elem fs f Hnd Hin) (default_object_get fs []) //. rw Forall_forall in Hco. by apply Hco.
    + rw (field_named_None fs k Hk). rw /default_object. by rw (proj2 (default_object_complete fs [] Hnd Hco) k Hk).
  - intros s v [= <-] Hv. destruct v as [| | | | |m]; try done. apply conforms_object in Hv.
    destruct (coerce_fields_spec fs m Hnd Hco Hv) as (m' & H1 & H2 & H3 & H4 & _). exists (VObject m').
    rw coerce_value_unfold H1. split_and!; [done|by apply complete_object|]. apply fields_fitted; [done|done| |done]. eapply Forall_impl; [exact Hco|]. by intros f [].
  - intros s v [= <-] Hv. destruct v as [| | | | |m]; try done. apply complete_object in Hv.
    by rw coerce_value_unfold coerce_fields_idle.
Qed.

Lemma all_coercible :
  (∀ t, wf_type t → coercible t) ∧ (∀ f, wf_field f → coercible (data_type f)) ∧ (∀ s, wf_schema s → coercible (TObject s)).
Proof.
  apply schema_mutual_ind; try (intros; by apply coercible_flat).
  - intros s IH Hwf. by apply IH.
  - intros n t IH Hwf. by apply IH.
  - intros fs IH [Hnd Hwf]%wf_schema_unfold. apply coercible_object; [done|].
    apply Forall_forall. intros f Hf. rw Forall_forall in IH. rw Forall_forall in Hwf. by apply IH, Hwf.
Qed.

(** ** Properties *)
Module CoerceTheory.

(** C35. Coercion types a document.  For a schema with distinct names and a document that
    has objects where the schema has objects, [coerce_value] returns, without panicking, a
    document that has every field of the schema at every level.  At every path of keys what
    was there is kept (an object stays an object, any other value stays as it is); where
    there was nothing, there is now the default of the schema's type for that path, and
    nothing still if the schema has no such path.  Top-level fields that are no objects in
    the schema keep their values entirely, and coercing again changes nothing. *)
Theorem coerce_completes fs m :
  wf_schema (mkSchema fs) → conforms (TObject (mkSchema fs)) (VObject m) →
  ∃ m', coerce_value (mkSchema fs) (VObject m) = Ok (VObject m') ∧ complete (TObject (mkSchema fs)) (VObject m') ∧
    fitted (TObject (mkSchema fs)) (VObject m) (VObject m') ∧
    (∀ k v, (∀ f, f ∈ fs → name f = k → ¬ object_field f) → obj_get k m = Some v → obj_get k m' = Some v) ∧
    coerce_value (mkSchema fs) (VObject m') = Ok (VObject m').
Proof.
  intros Hwf Hc. pose proof Hwf as [Hnd Hfs]%wf_schema_unfold. apply conforms_object in Hc.
  assert (Hco : Forall (λ f, coercible (data_type f)) fs).
  { apply Forall_forall. intros f Hf. rw Forall_forall in Hfs. by apply all_coercible, Hfs. }
  destruct (coerce_fields_spec fs m Hnd Hco Hc) as (m' & H1 & H2 & H3 & Ho & H4). exists m'.
  rw !coerce_value_unfold H1. split_and!; [done|by apply complete_object| |done|by rw coerce_fields_idle].
  apply fields_fitted; [done|done| |done]. eapply Forall_impl; [exact Hco|]. by intros f [].
Qed.
End CoerceTheory.

(** ** Examples *)
Module CoerceDemo.
Import CoerceTheory.

Definition demo_schema : list PowdrrField :=
  [mkField "a" TString; mkField "d" (TObject (mkSchema [mkField "e" TInteger; mkField "f" (TObject minimal)]))].
Definition demo_document : list (string * Value) := [("d", VObject [("e", VNumber (PosInt 4))]); ("other", VBool true)].

Lemma coerce_completes_witness :
  ∃ m', coerce_value (mkSchema demo_schema) (VObject demo_document) = Ok (VObject m') ∧
    complete (TObject (mkSchema demo_schema)) (VObject m') ∧
    fitted (TObject (mkSchema demo_schema)) (VObject demo_document) (VObject m') ∧
    (∀ k v, (∀ f, f ∈ demo_schema → name f = k → ¬ object_field f) → obj_get k demo_document = Some v → obj_get k m' = Some v) ∧
    coerce_value (mkSchema demo_schema) (VObject m') = Ok (VObject m').
Proof.
  apply coerce_completes.
  - cbn [wf_schema wf_field wf_type demo_schema minimal]. split_and!; first [exact I | compute_done].
  - repeat split.
Defined.

(** A null where the schema has an object panics, although a null stands for an absent
    value everywhere else; and a document without the field gets an empty object, which
    then counts as present. *)
Theorem null_object_panics :
  (∃ r, coerce_value (mkSchema demo_schema) (VObject [("d", VNull)]) = Panic r) ∧
  (∃ m, coerce_value (mkSchema demo_schema) (VObject []) = Ok (VObject m) ∧ obj_get "d" m ≠ None ∧ obj_get "d" m ≠ Some VNull).
Proof. split; eexists; [reflexivity|]. split_and!; [reflexivity|done..]. Qed.
End CoerceDemo.
