(* ===== verification/FileSet.v ===== *)
(** * Sets of data files (control_plane/src/data_contract.rs, [FileSetPayload])

    A file set is four parallel vectors: paths, sizes, for each file the index of
    its schema, and the schemas themselves.  The theorems show that every operation
    keeps the vectors aligned and the indexes in range, and describe [add], [merge],
    [remove], [select] and the sharding of [as_selected_tuples] on the list of
    files the vectors stand for. *)

From S2P Require Import Prelude Schema.

(** SRC control_plane/src/data_contract.rs:96-102 FileSetPayload *)
Record FileSetPayload : Type := mkFileSet {
  file_paths : list string;
  schemas : list PowdrrSchema;
  file_schemas : list nat;
  sizes : list Z;
}.

(** SRC control_plane/src/data_contract.rs:104-109 FileDescriptor *)
Record FileDescriptor : Type := mkFile {
  file_path : string;
  file_schema : PowdrrSchema;
  file_size : Z;
}.

(** SRC control_plane/src/data_contract.rs:855-862 FileSetPayload::new *)
Definition empty_file_set : FileSetPayload := mkFileSet [] [] [] [].

(** SRC control_plane/src/data_contract.rs:864-869 FileSetPayload::validate *)
Definition validate (fs : FileSetPayload) : outcome () :=
  let max_index := length (schemas fs) in
  foldM (λ _ index, rust_assert (bool_decide (index < max_index)) "index < &max_index") () (file_schemas fs).

(** SRC control_plane/src/data_contract.rs:871-878 FileSetPayload::single *)
Definition single (path : string) (size : Z) (schema : PowdrrSchema) : FileSetPayload :=
  mkFileSet [path] [schema] [0] [size].

(** SRC control_plane/src/data_contract.rs:880-882 FileSetPayload::len *)
Definition file_count (fs : FileSetPayload) : nat := length (file_paths fs).

(** SRC control_plane/src/data_contract.rs:884-889 FileSetPayload::clear *)
Definition clear (fs : FileSetPayload) : FileSetPayload := mkFileSet [] [] [] [].

(** [Vec::remove(i)] panics out of range. *)
Definition vec_remove {A} (i : nat) (l : list A) : outcome (list A) :=
  if decide (i < length l) then Ok (delete i l)
  else Panic "removal index (is i) should be < len".

(** The [while] loop of [remove], [fuel] bounding the number of times its condition is
    tested: every iteration removes a file or advances [i], and the last test ends the
    loop, so one more than there are files is enough; without fuel the loop has no
    result. *)
Fixpoint remove_loop (fuel : nat) (i : nat) (to_remove : list string) (fs : FileSetPayload) : outcome FileSetPayload :=
  match fuel with
  | O => Panic "out of fuel"
  | S fuel =>
      if i <? length (file_paths fs) then
        file_name ← unwrap (file_paths fs !! i);
        if decide (file_name ∈ to_remove) then
          ps ← vec_remove i (file_paths fs);
          ss ← vec_remove i (sizes fs);
          ix ← vec_remove i (file_schemas fs);
          remove_loop fuel i to_remove (mkFileSet ps (schemas fs) ix ss)
        else remove_loop fuel (S i) to_remove fs
      else Ok fs
  end.

(** SRC control_plane/src/data_contract.rs:891-905 FileSetPayload::remove *)
Definition remove (fs : FileSetPayload) (to_remove : list string) : outcome FileSetPayload :=
  remove_loop (S (length (file_paths fs))) 0 to_remove fs.

Fixpoint zip3 {A B C} (l : list A) (k : list B) (m : list C) : list (A * B * C) :=
  match l, k, m with
  | a :: l, b :: k, c :: m => (a, b, c) :: zip3 l k m
  | _, _, _ => []
  end.

Definition resolve (scs : list PowdrrSchema) (e : string * Z * nat) : outcome FileDescriptor :=
  let '(path, size, index) := e in
  match scs !! index with
  | Some schema => Ok (mkFile path schema size)
  | None => Panic "index out of bounds"
  end.

Fixpoint mapM_outcome {A B} (f : A → outcome B) (l : list A) : outcome (list B) :=
  match l with
  | [] => Ok []
  | a :: l => b ← f a; bs ← mapM_outcome f l; Ok (b :: bs)
  end.

(** SRC control_plane/src/data_contract.rs:907-918 FileSetPayload::as_file_tuples *)
Definition as_file_tuples (fs : FileSetPayload) : outcome (list FileDescriptor) :=
  mapM_outcome (resolve (schemas fs)) (zip3 (file_paths fs) (sizes fs) (file_schemas fs)).

(** SRC control_plane/src/data_contract.rs:920-926 FileSetPayload::selected_file *)
Definition selected_file `{Environment} (path : string) (index num : Z) : outcome bool :=
  if decide (num = 0%Z) then Panic "attempt to calculate the remainder with a divisor of zero"
  else Ok (bool_decide (default_hash path mod num = index)%Z).

Fixpoint filterM_outcome {A} (f : A → outcome bool) (l : list A) : outcome (list A) :=
  match l with
  | [] => Ok []
  | a :: l => b ← f a; l' ← filterM_outcome f l; Ok (if b : bool then a :: l' else l')
  end.

(** SRC control_plane/src/data_contract.rs:928-934 FileSetPayload::as_selected_tuples *)
Definition as_selected_tuples `{Environment} (fs : FileSetPayload) (index num : Z) : outcome (list FileDescriptor) :=
  files ← as_file_tuples fs;
  filterM_outcome (λ f, selected_file (file_path f) index num) files.

Fixpoint position {A} `{EqDecision A} (x : A) (l : list A) : option nat :=
  match l with
  | [] => None
  | y :: l => if decide (y = x) then Some 0 else S <$> position x l
  end.

(** SRC control_plane/src/data_contract.rs:954-970 FileSetPayload::add *)
Definition add (fs : FileSetPayload) (d : FileDescriptor) : FileSetPayload :=
  if decide (file_path d ∈ file_paths fs) then fs
  else
    match position (file_schema d) (schemas fs) with
    | Some index =>
        mkFileSet (file_paths fs ++ [file_path d]) (schemas fs)
          (file_schemas fs ++ [index]) (sizes fs ++ [file_size d])
    | None =>
        mkFileSet (file_paths fs ++ [file_path d]) (schemas fs ++ [file_schema d])
          (file_schemas fs ++ [length (schemas fs)]) (sizes fs ++ [file_size d])
    end.

(** SRC control_plane/src/data_contract.rs:948-952 FileSetPayload::merge_inplace *)
Definition merge_inplace (fs other : FileSetPayload) : outcome FileSetPayload :=
  files ← as_file_tuples other;
  Ok (foldl add fs files).

(** SRC control_plane/src/data_contract.rs:936-946 FileSetPayload::merge *)
Definition merge (fs other : FileSetPayload) : outcome FileSetPayload :=
  if decide (length (file_paths other) < length (file_paths fs))
  then merge_inplace fs other
  else merge_inplace other fs.

Fixpoint select_loop (i : nat) (file_name : string) (paths : list string) (fs : FileSetPayload) : outcome FileSetPayload :=
  match paths with
  | [] => Panic "File not found"
  | path :: paths =>
      if str_contains path file_name then
        size ← unwrap (sizes fs !! i);
        index ← unwrap (file_schemas fs !! i);
        schema ← unwrap (schemas fs !! index);
        Ok (mkFileSet [path] [schema] [0] [size])
      else select_loop (S i) file_name paths fs
  end.

(** SRC control_plane/src/data_contract.rs:972-988 FileSetPayload::select *)
Definition select (fs : FileSetPayload) (file_name : string) : outcome FileSetPayload :=
  select_loop 0 file_name (file_paths fs) fs.

(** ** The list of files a file set stands for *)

(** The vectors are aligned and every schema index is in range. *)
Record wf_files (fs : FileSetPayload) : Prop := {
  wf_sizes : length (sizes fs) = length (file_paths fs);
  wf_indexes : length (file_schemas fs) = length (file_paths fs);
  wf_range : Forall (λ i, i < length (schemas fs)) (file_schemas fs);
}.

(** [fs] is well formed and stands for the files [l], in order. *)
Definition represents (fs : FileSetPayload) (l : list FileDescriptor) : Prop :=
  wf_files fs ∧ as_file_tuples fs = Ok l.

(** Reference operations on the abstract list. *)
Definition add_file (l : list FileDescriptor) (d : FileDescriptor) : list FileDescriptor :=
  if decide (file_path d ∈ file_path <$> l) then l else l ++ [d].
Definition add_files (l k : list FileDescriptor) : list FileDescriptor := foldl add_file l k.
Definition drop_files (rs : list string) (l : list FileDescriptor) : list FileDescriptor :=
  filter (λ d, file_path d ∉ rs) l.

(** A file set as the rows of its vectors. *)
Definition pack (scs : list PowdrrSchema) (rows : list (string * Z * nat)) : FileSetPayload :=
  mkFileSet (rows.*1.*1) scs (rows.*2) (rows.*1.*2).

Lemma zip3_rows (ps : list string) (ss : list Z) (ix : list nat) :
  length ss = length ps → length ix = length ps →
  (zip3 ps ss ix).*1.*1 = ps ∧ (zip3 ps ss ix).*1.*2 = ss ∧ (zip3 ps ss ix).*2 = ix.
Proof.
  revert ss ix. induction ps as [|p ps IH]; intros [|s ss] [|i ix]; simpl; try done.
  intros [= Hs] [= Hi]. destruct (IH _ _ Hs Hi) as (H1 & H2 & H3). split_and!; by f_equal.
Qed.

Lemma zip3_pack (rows : list (string * Z * nat)) : zip3 rows.*1.*1 rows.*1.*2 rows.*2 = rows.
Proof. induction rows as [|[[p s] i] rows IH]; [done|]. simpl. by f_equal. Qed.

Lemma wf_files_pack fs :
  wf_files fs → fs = pack (schemas fs) (zip3 (file_paths fs) (sizes fs) (file_schemas fs)).
Proof.
  intros [Hs Hi _]. destruct fs as [ps scs ix ss]; simpl in *.
  destruct (zip3_rows ps ss ix Hs Hi) as (Hp & Hz & Hx). unfold pack. by rw Hp Hz Hx.
Qed.

Lemma mapM_outcome_Forall2 {A B} (f : A → outcome B) l k :
  mapM_outcome f l = Ok k ↔ Forall2 (λ a b, f a = Ok b) l k.
Proof.
  revert k. induction l as [|a l IH]; simpl; intros k.
  - split; [intros [= <-]; constructor|by inversion 1].
  - split.
    + intros H. invert_ok. constructor; [done|]. by apply IH.
    + inversion 1 as [|? b ? k' Ha Hl]; subst. rw Ha /=. apply IH in Hl. by rw Hl.
Qed.

Lemma represents_rows fs l :
  represents fs l ↔
  ∃ rows, fs = pack (schemas fs) rows ∧ Forall2 (λ e d, resolve (schemas fs) e = Ok d) rows l.
Proof.
  unfold represents, as_file_tuples. rw mapM_outcome_Forall2. split.
  - intros [Hwf Hl]. exists (zip3 (file_paths fs) (sizes fs) (file_schemas fs)).
    split; [by apply wf_files_pack|done].
  - intros (rows & Hfs & Hl). rw Hfs /= zip3_pack. split; [|done].
    split; simpl; rw ?length_fmap //. clear Hfs.
    induction Hl as [|[[p s] i] d rows l Hd _ IH]; constructor; [|done].
    simpl in *. destruct (schemas fs !! i) eqn:E; [|done]. eauto using lookup_lt_Some.
Qed.

Lemma represents_paths fs l : represents fs l → file_path <$> l = file_paths fs.
Proof.
  intros (rows & Hfs & Hl)%represents_rows. rw Hfs /=. clear Hfs.
  induction Hl as [|[[p s] i] d rows l Hd _ IH]; [done|]. simpl in *.
  destruct (schemas fs !! i); simplify_eq/=. by rw IH.
Qed.

Lemma wf_files_represents fs : wf_files fs → ∃ l, represents fs l.
Proof.
  intros Hwf. pose proof (wf_files_pack _ Hwf) as Hp. destruct Hwf as [_ _ Hr].
  set (rows := zip3 (file_paths fs) (sizes fs) (file_schemas fs)) in *.
  rw Hp /= in Hr. clearbody rows.
  assert (∃ l, Forall2 (λ e d, resolve (schemas fs) e = Ok d) rows l) as [l Hl].
  { clear Hp. induction rows as [|[[p s] i] rows IH]; [by exists []|].
    apply Forall_cons in Hr as [Hi Hr]. simpl in Hi.
    destruct (IH Hr) as [l Hl]. apply lookup_lt_is_Some_2 in Hi as [sc Hsc].
    exists (mkFile p sc s :: l). constructor; [simpl; by rw Hsc|done]. }
  exists l. apply represents_rows. eauto.
Qed.

Lemma represents_empty : represents empty_file_set [].
Proof. apply represents_rows. exists []. split; [done|constructor]. Qed.

Lemma represents_single p s sc : represents (single p s sc) [mkFile p sc s].
Proof. apply represents_rows. exists [(p, s, 0)]. split; [done|]. by repeat constructor. Qed.

(** ** Operations refine the reference ones *)

Lemma position_Some {A} `{EqDecision A} (x : A) l i : position x l = Some i → l !! i = Some x.
Proof.
  revert i. induction l as [|y l IH]; simpl; [done|]. intros i. case_decide; [by intros [= <-]; subst|].
  destruct (position x l); simpl; [|done]. intros [= <-]. simpl. auto.
Qed.

Lemma resolve_app scs scs' e d : resolve scs e = Ok d → resolve (scs ++ scs') e = Ok d.
Proof.
  destruct e as [[p s] i]. simpl. destruct (scs !! i) eqn:E; [|done].
  by rw (lookup_app_l_Some _ _ _ _ E).
Qed.

Lemma pack_snoc scs rows p s i :
  pack scs (rows ++ [(p, s, i)]) =
  mkFileSet (rows.*1.*1 ++ [p]) scs (rows.*2 ++ [i]) (rows.*1.*2 ++ [s]).
Proof. unfold pack. by rw !fmap_app. Qed.

Lemma add_spec fs l d : represents fs l → represents (add fs d) (add_file l d).
Proof.
  intros Hr. pose proof (represents_paths _ _ Hr) as Hp. unfold add, add_file. rw Hp.
  case_decide; [done|]. apply represents_rows in Hr as (rows & Hfs & Hl).
  rw Hfs /=. destruct (position _ _) as [i|] eqn:Hi; apply represents_rows.
  - exists (rows ++ [(file_path d, file_size d, i)]). rw pack_snoc. split; [done|].
    apply Forall2_app; [done|]. constructor; [|done]. simpl.
    rw (position_Some _ _ _ Hi). by destruct d.
  - exists (rows ++ [(file_path d, file_size d, length (schemas fs))]). rw pack_snoc.
    split; [done|]. simpl. apply Forall2_app.
    + eapply Forall2_impl; [exact Hl|]. intros ??. apply resolve_app.
    + constructor; [|done]. simpl. rw list_lookup_middle //. by destruct d.
Qed.

Lemma add_fold_spec ds fs l : represents fs l → represents (foldl add fs ds) (add_files l ds).
Proof.
  revert fs l. induction ds as [|d ds IH]; intros fs l Hr; simpl; [done|].
  apply IH. by apply add_spec.
Qed.

Lemma merge_inplace_spec fs other l k :
  represents fs l → represents other k →
  ∃ fs', merge_inplace fs other = Ok fs' ∧ represents fs' (add_files l k).
Proof.
  intros Hl [_ Hk]. unfold merge_inplace. rw Hk /=. eexists. split; [done|].
  by apply add_fold_spec.
Qed.

Lemma vec_remove_middle {A} (l1 l2 : list A) x n :
  n = length l1 → vec_remove n (l1 ++ x :: l2) = Ok (l1 ++ l2).
Proof.
  intros ->. unfold vec_remove. rw decide_True; [|by rw delete_middle].
  rw length_app /=. lia.
Qed.

Lemma remove_loop_spec scs rs rows2 : ∀ rows1,
  remove_loop (S (length rows2)) (length rows1) rs (pack scs (rows1 ++ rows2)) =
  Ok (pack scs (rows1 ++ filter (λ e, e.1.1 ∉ rs) rows2)).
Proof.
  induction rows2 as [|[[p s] i] rows2 IH]; intros rows1; cbn [remove_loop]; rw !length_fmap length_app.
  - rw (proj2 (Nat.ltb_ge _ _)); [simpl; lia|done].
  - rw (proj2 (Nat.ltb_lt _ _)); [simpl; lia|]. cbn [pack file_paths sizes file_schemas].
    rw !fmap_app /= list_lookup_middle; [by rw !length_fmap|]. cbn [unwrap ok_or]. rw bind_Ok.
    case_decide as Hin.
    + rw !vec_remove_middle ?length_fmap //=.
      rw filter_cons_False; [simpl; by intros ?|].
      rw -(IH rows1). unfold pack. by rw !fmap_app.
    + rw filter_cons_True //. specialize (IH (rows1 ++ [(p, s, i)])).
      rw length_app Nat.add_1_r -app_assoc /= in IH. rw -app_assoc /= in IH. done.
Qed.

Lemma resolve_path scs e d : resolve scs e = Ok d → file_path d = e.1.1.
Proof. destruct e as [[p s] i]. simpl. destruct (scs !! i); naive_solver. Qed.

Lemma remove_spec fs l rs :
  represents fs l → ∃ fs', remove fs rs = Ok fs' ∧ represents fs' (drop_files rs l).
Proof.
  intros (rows & Hfs & Hl)%represents_rows.
  exists (pack (schemas fs) (filter (λ e, e.1.1 ∉ rs) rows)). split.
  - rw Hfs /remove. cbn [pack file_paths]. rw !length_fmap.
    apply (remove_loop_spec (schemas fs) rs rows []).
  - apply represents_rows. eexists. split; [done|]. simpl. clear Hfs. unfold drop_files.
    induction Hl as [|e d rows l Hd _ IH]; [constructor|].
    rw !filter_cons (resolve_path _ _ _ Hd). case_decide; [by constructor|done].
Qed.

Lemma merge_spec fs other l k :
  represents fs l → represents other k →
  ∃ fs', merge fs other = Ok fs' ∧
    represents fs' (if decide (length k < length l) then add_files l k else add_files k l).
Proof.
  intros Hl Hk. unfold merge.
  rw -(represents_paths _ _ Hl) -(represents_paths _ _ Hk) !length_fmap.
  case_decide; by apply merge_inplace_spec.
Qed.

Lemma add_files_elem l k p :
  p ∈ file_path <$> add_files l k ↔ p ∈ file_path <$> l ∨ p ∈ file_path <$> k.
Proof.
  revert l. induction k as [|d k IH]; intros l; simpl; [set_solver|].
  rw IH. unfold add_file. case_decide; set_solver.
Qed.

Lemma add_files_NoDup l k : NoDup (file_path <$> l) → NoDup (file_path <$> add_files l k).
Proof.
  revert l. induction k as [|d k IH]; intros l Hnd; simpl; [done|].
  apply IH. unfold add_file. case_decide; [done|]. rw fmap_app.
  apply NoDup_app. split_and!; [done| |apply NoDup_singleton]. set_solver.
Qed.

(** Files already there keep their descriptor and position. *)
Lemma add_files_prefix l k : l `prefix_of` add_files l k.
Proof.
  revert l. induction k as [|d k IH]; intros l; simpl; [done|].
  etrans; [|apply IH]. unfold add_file. case_decide; [done|]. by eexists.
Qed.

(** ** Sharding *)

Lemma filterM_outcome_pure {A} (f : A → outcome bool) (P : A → Prop) `{∀ x, Decision (P x)} l :
  (∀ x, f x = Ok (bool_decide (P x))) → filterM_outcome f l = Ok (filter P l).
Proof.
  intros Hf. induction l as [|x l IH]; simpl; [done|]. rw Hf /= IH /= filter_cons.
  case_decide; by [rw bool_decide_true|rw bool_decide_false].
Qed.

Lemma concat_insert_one {A} (x : A) (v : Z) (g : Z → list A) (ks : list Z) :
  NoDup ks → v ∈ ks →
  concat ((λ i, if decide (v = i) then x :: g i else g i) <$> ks) ≡ₚ x :: concat (g <$> ks).
Proof.
  induction ks as [|i ks IH]; [by intros _ ?%elem_of_nil|].
  intros [Hi Hnd]%NoDup_cons Hv. simpl. case_decide as Hvi.
  - subst. simpl. constructor. f_equiv. apply reflexive_eq. f_equal.
    apply list_fmap_ext. intros j w Hj. rw decide_False //.
    intros ->. apply Hi. eauto using list_elem_of_lookup_2.
  - apply elem_of_cons in Hv as [?|Hv]; [done|]. rw (IH Hnd Hv).
    by rw Permutation_middle.
Qed.

Lemma shards_permutation {A} (f : A → Z) (num : Z) (l : list A) :
  (∀ x, 0 ≤ f x < num)%Z →
  concat ((λ i, filter (λ x, f x = i) l) <$> seqZ 0 num) ≡ₚ l.
Proof.
  intros Hf. induction l as [|x l IH].
  - induction (seqZ 0 num); [done|]. simpl. done.
  - rw -{2}IH. rw -(concat_insert_one x (f x) (λ i, filter (λ x, f x = i) l)).
    + apply NoDup_seqZ.
    + apply elem_of_seqZ. specialize (Hf x). lia.
    + done.
Qed.

(** ** Properties *)
Module FileSetTheory.

(** [FileSetPayload::merge] of two aligned file sets returns an aligned file
    set whose paths are exactly the union of the two, without duplicates when the
    inputs have none, although it starts from whichever set is larger and shares
    schemas by equality; the files of the set it starts from keep their
    descriptors and positions. *)
Theorem merge_is_union fs other :
  wf_files fs → wf_files other →
  NoDup (file_paths fs) → NoDup (file_paths other) →
  ∃ fs', merge fs other = Ok fs' ∧ wf_files fs' ∧ NoDup (file_paths fs') ∧
    (∀ p, p ∈ file_paths fs' ↔ p ∈ file_paths fs ∨ p ∈ file_paths other) ∧
    (∃ base rest, as_file_tuples (if decide (file_count other < file_count fs) then fs else other) = Ok base ∧
      as_file_tuples fs' = Ok (base ++ rest)).
Proof.
  intros [l Hl]%wf_files_represents [k Hk]%wf_files_represents Hnl Hnk.
  destruct (merge_spec fs other l k Hl Hk) as (fs' & Hm & Hr). exists fs'.
  pose proof (represents_paths _ _ Hl) as Hpl. pose proof (represents_paths _ _ Hk) as Hpk.
  unfold file_count. rw -Hpl -Hpk -(represents_paths _ _ Hr) in Hnl Hnk |- *.
  rw !length_fmap. split_and!; [done|apply Hr|..]; case_decide.
  1,2: by apply add_files_NoDup.
  1,2: intros p; rw add_files_elem; tauto.
  - destruct (add_files_prefix l k) as [rest Hrest]. exists l, rest.
    split; [apply Hl|]. rw -Hrest. apply Hr.
  - destruct (add_files_prefix k l) as [rest Hrest]. exists k, rest.
    split; [apply Hk|]. rw -Hrest. apply Hr.
Qed.

(** C37. On a set of files whose vectors of paths, sizes and schema numbers agree, the
    index-juggling loop of [FileSetPayload::remove] comes to its end (after at most one
    test more than there are files) without an index out of range, and leaves exactly the
    files whose path is not listed, in order, with their sizes and schemas; the vector of
    schemas stays as it is. *)
Theorem remove_exact fs l to_remove :
  represents fs l →
  ∃ fs', remove fs to_remove = Ok fs' ∧
    represents fs' (filter (λ d, file_path d ∉ to_remove) l) ∧ schemas fs' = schemas fs.
Proof.
  intros Hr. destruct (remove_spec fs l to_remove Hr) as (fs' & H1 & H2).
  exists fs'. split_and!; [done|done|].
  apply represents_rows in Hr as (rows & Hfs & _). revert H1. rw Hfs /remove. cbn [pack file_paths].
  rw !length_fmap. rw (remove_loop_spec (schemas fs) to_remove rows []). by intros [= <-].
Qed.

(** Sharding by [selected_file]: for [num > 0] the shards
    [as_selected_tuples(0, num), ..., as_selected_tuples(num - 1, num)] all return,
    and together they are the files of the set, each exactly once, whatever the
    hash function. *)
Theorem shards_partition `{Environment} fs l (num : Z) :
  represents fs l → (0 < num)%Z →
  ∃ shards, Forall2 (λ i s, as_selected_tuples fs i num = Ok s) (seqZ 0 num) shards ∧
    concat shards ≡ₚ l.
Proof.
  intros [_ Hl] Hnum.
  exists ((λ i, filter (λ f, (default_hash (file_path f) mod num)%Z = i) l) <$> seqZ 0 num). split.
  - apply Forall2_fmap_r, Forall_Forall2_diag. apply Forall_forall. intros i _.
    unfold as_selected_tuples. rw Hl /=. apply filterM_outcome_pure.
    intros f. unfold selected_file. rw decide_False //. lia.
  - apply (shards_permutation (λ f, (default_hash (file_path f) mod num)%Z)).
    intros f. by apply Z.mod_pos_bound.
Qed.

(** Two overlapping sets, with two schemas between them. *)
Definition old_files : FileSetPayload :=
  mkFileSet ["s3://t/1"; "s3://t/2"; "s3://t/3"] [minimal; deletes] [0; 1; 0] [10; 20; 30]%Z.
Definition new_files : FileSetPayload :=
  mkFileSet ["s3://t/3"; "s3://t/4"] [deletes] [0; 0] [31; 40]%Z.

Lemma old_files_wf : wf_files old_files.
Proof. split; [reflexivity..|]. repeat constructor. Qed.
Lemma new_files_wf : wf_files new_files.
Proof. split; [reflexivity..|]. repeat constructor. Qed.

Example merge_example :
  merge old_files new_files =
  Ok (mkFileSet ["s3://t/1"; "s3://t/2"; "s3://t/3"; "s3://t/4"] [minimal; deletes]
        [0; 1; 0; 1] [10; 20; 30; 40]%Z).
Proof. reflexivity. Qed.

Lemma merge_is_union_witness :
  ∃ fs', merge old_files new_files = Ok fs' ∧ wf_files fs' ∧ NoDup (file_paths fs').
Proof.
  destruct (merge_is_union old_files new_files) as (fs' & H1 & H2 & H3 & _);
    [apply old_files_wf|apply new_files_wf|..];
    [apply (bool_decide_unpack _); vm_compute; exact I..|].
  exists fs'. exact (conj H1 (conj H2 H3)).
Defined.

Definition old_tuples : list FileDescriptor :=
  [mkFile "s3://t/1" minimal 10; mkFile "s3://t/2" deletes 20; mkFile "s3://t/3" minimal 30].

Lemma remove_exact_witness :
  ∃ fs', remove old_files ["s3://t/1"; "s3://t/3"] = Ok fs' ∧
    represents fs' [mkFile "s3://t/2" deletes 20].
Proof.
  destruct (remove_exact old_files old_tuples ["s3://t/1"; "s3://t/3"]) as (fs' & H1 & H2 & _);
    [exact (conj old_files_wf eq_refl)|].
  exists fs'. exact (conj H1 H2).
Defined.

(** A concrete environment: ids count up, the clock stands still, and a path
    hashes to its length. *)
Fixpoint string_length (s : string) : Z :=
  match s with EmptyString => 0%Z | String _ s => (1 + string_length s)%Z end.
Definition demo_env : Environment :=
  {| next_id n := String (Ascii.ascii_of_nat (48 + n)) EmptyString;
     clock _ := 0%Z; default_hash := string_length |}.

Lemma shards_partition_witness :
  ∃ shards, Forall2 (λ i s, @as_selected_tuples demo_env old_files i 2 = Ok s) (seqZ 0 2) shards ∧
    concat shards ≡ₚ old_tuples.
Proof.
  apply (@shards_partition demo_env); [exact (conj old_files_wf eq_refl)|reflexivity].
Defined.
End FileSetTheory.
