(* ===== verification/Contract.v ===== *)
(** * Control-plane data (control_plane/src/data_contract.rs, ilm_policy.rs,
    pipeline.rs, test_api.rs, checkpoint_descriptor.rs)

    The records the runtime and the service exchange, field for field, and the
    small operations on them that need no checkpoint: the file set of a speedboat
    commit, the work items, the processing modes and checkpoint descriptors, whose
    printed form is shown to parse back. *)

From S2P Require Import Prelude Json Schema FileSet.

(** ** Speedboat commits *)

(** SRC control_plane/src/data_contract.rs:10-15 SpeedboatSegmentFile *)
Record SpeedboatSegmentFile : Type := mkSegment {
  segment_id : string;
  segment_path : string;
  segment_size : Z;
}.

(** SRC control_plane/src/data_contract.rs:17-26 SpeedboatCommitTableInfo *)
Record SpeedboatCommitTableInfo : Type := mkTableInfo {
  ti_commit_type : string;
  ti_table_name : string;
  ti_segments : list SpeedboatSegmentFile;
  ti_files : list string;
  ti_sizes : list Z;
  ti_schema : option PowdrrSchema;
}.

(** [format!("{:x}", n)] *)
Definition hex_digit (d : Z) : Ascii.ascii :=
  Ascii.ascii_of_nat (Z.to_nat (if (d <? 10)%Z then 48 + d else 87 + d)%Z).

Fixpoint to_hex_loop (fuel : nat) (n : Z) (acc : string) : string :=
  match fuel with
  | O => acc
  | S fuel =>
      let acc := String (hex_digit (n mod 16)) acc in
      if (n / 16 =? 0)%Z then acc else to_hex_loop fuel (n / 16)%Z acc
  end.
Definition to_hex (n : Z) : string := to_hex_loop 16 n "".

(** SRC control_plane/src/data_contract.rs:29-33 SpeedboatCommitTableInfo::synthetic_legacy_segment_id *)
Definition synthetic_legacy_segment_id `{Environment} (path : string) : string :=
  "legacy-" +:+ to_hex (default_hash path).

(** SRC control_plane/src/data_contract.rs:35-52 SpeedboatCommitTableInfo::from_segments *)
Definition from_segments (commit_type table_name : string) (segments : list SpeedboatSegmentFile) (schema : option PowdrrSchema) : SpeedboatCommitTableInfo :=
  mkTableInfo commit_type table_name segments
    (segment_path <$> segments) (segment_size <$> segments) schema.

(** SRC control_plane/src/data_contract.rs:54-68 SpeedboatCommitTableInfo::segment_files *)
Definition segment_files `{Environment} (ti : SpeedboatCommitTableInfo) : list SpeedboatSegmentFile :=
  match ti_segments ti with
  | [] => (λ ps, mkSegment (synthetic_legacy_segment_id ps.1) ps.1 ps.2) <$> zip (ti_files ti) (ti_sizes ti)
  | segments => segments
  end.

(** SRC control_plane/src/data_contract.rs:70-81 SpeedboatCommitTableInfo::as_file_set_payload *)
Definition as_file_set_payload `{Environment} (ti : SpeedboatCommitTableInfo) : outcome FileSetPayload :=
  let segments := segment_files ti in
  schema ← unwrap (ti_schema ti);
  Ok (mkFileSet (segment_path <$> segments) [schema] ((λ _, 0) <$> segments) (segment_size <$> segments)).

(** SRC control_plane/src/data_contract.rs:90-94 SpeedboatCommit *)
Record SpeedboatCommit : Type := mkSpeedboatCommit {
  type_files : list SpeedboatCommitTableInfo;
  sc_compaction : option string;
}.

(** ** Iceberg metadata *)

(** SRC control_plane/src/data_contract.rs:111-121 IcebergColumnStats *)
Record IcebergColumnStats : Type := mkColumnStats {
  cs_field_id : Z;
  cs_field_name : string;
  cs_null_count : option Z;
  cs_lower_bound : option Value;
  cs_upper_bound : option Value;
}.

(** SRC control_plane/src/data_contract.rs:123-130 IcebergPartitionField *)
Record IcebergPartitionField : Type := mkPartitionField {
  pf_source_field_id : Z;
  pf_source_field_name : string;
  pf_field_id : Z;
  pf_field_name : string;
  pf_transform : string;
}.

(** SRC control_plane/src/data_contract.rs:132-139 IcebergPartitionValue *)
Record IcebergPartitionValue : Type := mkPartitionValue {
  pv_source_field_name : string;
  pv_field_name : string;
  pv_transform : string;
  pv_value : option Value;
}.

(** SRC control_plane/src/data_contract.rs:141-150 IcebergSortField *)
Record IcebergSortField : Type := mkSortField {
  sf_source_field_id : Z;
  sf_source_field_name : string;
  sf_transform : string;
  sf_descending : bool;
  sf_nulls_first : bool;
}.

(** SRC control_plane/src/data_contract.rs:152-166 IcebergAccessArtifact *)
Record IcebergAccessArtifact : Type := mkAccessArtifact {
  aa_name : string;
  aa_kind : string;
  aa_fields : list string;
  aa_exact : bool;
  aa_supports_eq : bool;
  aa_supports_range : bool;
  aa_supports_order : bool;
}.

(** SRC control_plane/src/data_contract.rs:168-181 IcebergRowGroupStats *)
Record IcebergRowGroupStats : Type := mkRowGroupStats {
  rg_row_group_index : nat;
  rg_record_count : option Z;
  rg_compressed_bytes : Z;
  rg_page_index_present : bool;
  rg_bloom_filter_present : bool;
  rg_columns : list IcebergColumnStats;
}.

(** SRC control_plane/src/data_contract.rs:183-194 IcebergFileStats *)
Record IcebergFileStats : Type := mkFileStats {
  fst_file_path : string;
  fst_record_count : option Z;
  fst_columns : list IcebergColumnStats;
  fst_partition_values : list IcebergPartitionValue;
  fst_row_groups : list IcebergRowGroupStats;
}.

(** SRC control_plane/src/data_contract.rs:196-213 IcebergMetadata *)
Record IcebergMetadata : Type := mkIcebergMetadata {
  im_table_schema : PowdrrSchema;
  im_snapshot_id : option string;
  im_files : FileSetPayload;
  im_partition_spec : list IcebergPartitionField;
  im_sort_order : list IcebergSortField;
  im_column_names : list string;
  im_column_stats : list (string * string);
  im_access_artifacts : list IcebergAccessArtifact;
  im_file_stats : list IcebergFileStats;
}.

(** SRC control_plane/src/data_contract.rs:658-664 IcebergMetadata::select_file_stats *)
Definition select_file_stats (im : IcebergMetadata) (file_name : string) : list IcebergFileStats :=
  filter (λ stats, str_contains (fst_file_path stats) file_name = true) (im_file_stats im).

(** SRC control_plane/src/data_contract.rs:215-220 IcebergCommit *)
Record IcebergCommit : Type := mkIcebergCommit {
  ic_metadata : IcebergMetadata;
  ic_deletes_table_info : option SpeedboatCommitTableInfo;
  ic_compactions : list string;
}.

(** SRC control_plane/src/data_contract.rs:222-225 SpeedboatMetadata *)
Record SpeedboatMetadata : Type := mkSpeedboatMetadata { sm_files : FileSetPayload }.

(** SRC control_plane/src/data_contract.rs:227-230 DeletesMetadata *)
Record DeletesMetadata : Type := mkDeletesMetadata { dm_files : list string }.

(** SRC control_plane/src/data_contract.rs:232-236 ExtensionFile *)
Record ExtensionFile : Type := mkExtensionFile { ef_suffix : string; ef_location : string }.

(** SRC control_plane/src/data_contract.rs:238-238 ExtensionFileMetadata *)
Definition ExtensionFileMetadata : Type := gmap string (list ExtensionFile).

(** SRC control_plane/src/data_contract.rs:250-255 ExtensionCommit *)
Record ExtensionCommit : Type := mkExtensionCommit {
  ec_id : string;
  ec_extension : string;
  ec_files : gmap string (list ExtensionFile);
}.

(** SRC control_plane/src/data_contract.rs:257-265 CompactionCommit *)
Record CompactionCommit : Type := mkCompactionCommit {
  cc_removed_speedboat_files : list string;
  cc_removed_delete_files : list string;
  cc_parquet_file_name : string;
  cc_compaction_id : string;
  cc_checkpoint_id_to_replace : string;
  cc_checkpoints_to_delete : list string;
}.

(** SRC control_plane/src/data_contract.rs:267-271 CleanupCommit *)
Record CleanupCommit : Type := mkCleanupCommit { clc_id : string; clc_table_name : string }.

(** SRC control_plane/src/data_contract.rs:242-244 checkpoint_extension_metadata_key *)
Definition checkpoint_extension_metadata_key (checkpoint_id : string) : string :=
  "__checkpoint__:" +:+ checkpoint_id.

(** SRC control_plane/src/data_contract.rs:246-248 is_checkpoint_extension_metadata_key *)
Definition is_checkpoint_extension_metadata_key (key : string) : bool :=
  starts_with "__checkpoint__:" key.

(** ** Work items *)

(** SRC control_plane/src/data_contract.rs:991-1001 ExtensionWorkItem *)
Record ExtensionWorkItem : Type := mkExtensionWorkItem {
  ew_id : string;
  ew_extension_type : string;
  ew_table_name : string;
  ew_checkpoint_id : option string;
  ew_table_schema : PowdrrSchema;
  ew_speedboat_files : FileSetPayload;
  ew_iceberg_files : FileSetPayload;
}.

(** SRC control_plane/src/data_contract.rs:1004-1007 ExtensionWorkItem::clear *)
Definition clear_work_item (w : ExtensionWorkItem) : ExtensionWorkItem :=
  mkExtensionWorkItem (ew_id w) (ew_extension_type w) (ew_table_name w) (ew_checkpoint_id w)
    (ew_table_schema w) (clear (ew_speedboat_files w)) (clear (ew_iceberg_files w)).

(** SRC control_plane/src/data_contract.rs:1009-1011 ExtensionWorkItem::has_work *)
Definition has_work (w : ExtensionWorkItem) : bool :=
  (0 <? file_count (ew_speedboat_files w)) || (0 <? file_count (ew_iceberg_files w)).

(** SRC control_plane/src/data_contract.rs:1013-1022 ExtensionWorkItem::merge_speedboat *)
Definition merge_speedboat `{Environment} (w : ExtensionWorkItem) (commit : SpeedboatCommit) : outcome ExtensionWorkItem :=
  foldM (λ w ti,
    if decide (ti_commit_type ti = "commit" ∨ ti_commit_type ti = "compaction") then
      payload ← as_file_set_payload ti;
      files ← merge_inplace (ew_speedboat_files w) payload;
      Ok (mkExtensionWorkItem (ew_id w) (ew_extension_type w) (ew_table_name w)
            (ew_checkpoint_id w) (ew_table_schema w) files (ew_iceberg_files w))
    else Ok w) w (type_files commit).

(** SRC control_plane/src/data_contract.rs:1024-1026 ExtensionWorkItem::merge_iceberg *)
Definition merge_iceberg (w : ExtensionWorkItem) (commit : IcebergCommit) : outcome ExtensionWorkItem :=
  files ← merge_inplace (ew_iceberg_files w) (im_files (ic_metadata commit));
  Ok (mkExtensionWorkItem (ew_id w) (ew_extension_type w) (ew_table_name w)
        (ew_checkpoint_id w) (ew_table_schema w) (ew_speedboat_files w) files).

(** SRC control_plane/src/data_contract.rs:1029-1037 CompactionWorkItem *)
Record CompactionWorkItem : Type := mkCompactionWorkItem {
  cw_id : string;
  cw_table_schema : PowdrrSchema;
  cw_speedboat_files : FileSetPayload;
  cw_delete_files : list string;
  cw_checkpoint_id_to_replace : string;
  cw_checkpoints_to_delete : list string;
}.

(** SRC control_plane/src/data_contract.rs:1070-1075 CleanupWorkItem *)
Record CleanupWorkItem : Type := mkCleanupWorkItem {
  clw_id : string;
  clw_table_name : string;
  clw_files_to_delete : list string;
}.

(** ** Table configuration *)

(** SRC control_plane/src/data_contract.rs:728-735 ServingAggregateMeasure *)
Record ServingAggregateMeasure : Type := mkServingAggregateMeasure {
  sam_function : string;
  sam_field : option string;
  sam_alias : option string;
}.

(** SRC control_plane/src/data_contract.rs:737-743 ServingAggregateSpec *)
Record ServingAggregateSpec : Type := mkServingAggregateSpec {
  sas_group_by : list string;
  sas_measures : list ServingAggregateMeasure;
}.

(** SRC control_plane/src/data_contract.rs:745-762 ServingPattern *)
Record ServingPattern : Type := mkServingPattern {
  sp_name : string;
  sp_eq_fields : list string;
  sp_range_field : option string;
  sp_order_field : option string;
  sp_descending : bool;
  sp_max_limit : option Z;
  sp_projection : option (list string);
  sp_aggregate : option ServingAggregateSpec;
}.

(** SRC control_plane/src/data_contract.rs:722-726 ServingTableConfig *)
Record ServingTableConfig : Type := mkServingTableConfig { stc_patterns : list ServingPattern }.

(** SRC control_plane/src/data_contract.rs:764-769 SupportKeySchemaConfig *)
Record SupportKeySchemaConfig : Type := mkSupportKeySchema {
  sks_primary_key : string;
  sks_range_key : option string;
}.

(** SRC control_plane/src/data_contract.rs:800-806 DynamoDbGlobalSecondaryIndexConfig *)
Record DynamoDbGlobalSecondaryIndexConfig : Type := mkGsi {
  gsi_name : string;
  gsi_partition_key : string;
  gsi_sort_key : option string;
}.

(** SRC control_plane/src/data_contract.rs:808-812 DynamoDbLocalSecondaryIndexConfig *)
Record DynamoDbLocalSecondaryIndexConfig : Type := mkLsi { lsi_name : string; lsi_sort_key : string }.

(** SRC control_plane/src/data_contract.rs:774-780 SupportDynamoDbTableConfig *)
Record SupportDynamoDbTableConfig : Type := mkSupportDynamoDb {
  sdd_local_secondary_indexes : list DynamoDbLocalSecondaryIndexConfig;
  sdd_global_secondary_indexes : list DynamoDbGlobalSecondaryIndexConfig;
}.

(** SRC control_plane/src/data_contract.rs:782-787 SupportRedisTableConfig *)
Record SupportRedisTableConfig : Type := mkSupportRedis { srd_database : Z; srd_value_field : string }.

(** SRC control_plane/src/data_contract.rs:789-798 SupportTableConfig *)
Record SupportTableConfig : Type := mkSupport {
  sup_key_schema : SupportKeySchemaConfig;
  sup_elasticsearch : option ();
  sup_dynamodb : option SupportDynamoDbTableConfig;
  sup_redis : option SupportRedisTableConfig;
}.

(** SRC control_plane/src/data_contract.rs:814-823 DynamoDbTableConfig *)
Record DynamoDbTableConfig : Type := mkDynamoDb {
  dd_partition_key : string;
  dd_sort_key : option string;
  dd_local_secondary_indexes : list DynamoDbLocalSecondaryIndexConfig;
  dd_global_secondary_indexes : list DynamoDbGlobalSecondaryIndexConfig;
}.

(** SRC control_plane/src/data_contract.rs:830-836 MongoDbTableConfig *)
Record MongoDbTableConfig : Type := mkMongoDb {
  mg_enabled : bool;
  mg_database : string;
  mg_collection : string;
  mg_id_field : string;
}.

(** SRC control_plane/src/data_contract.rs:838-846 RedisTableConfig *)
Record RedisTableConfig : Type := mkRedis {
  rd_enabled : bool;
  rd_database : Z;
  rd_key_field : string;
  rd_value_field : option string;
}.

(** SRC control_plane/src/data_contract.rs:676-690 CreateTable *)
Record CreateTable : Type := mkCreateTable {
  ct_name : string;
  ct_tags : gmap string string;
  ct_serving : option ServingTableConfig;
  ct_support : option SupportTableConfig;
  ct_dynamodb : option DynamoDbTableConfig;
  ct_mongodb : option MongoDbTableConfig;
  ct_redis : option RedisTableConfig;
}.

(** SRC control_plane/src/data_contract.rs:692-706 TableDescription *)
Record TableDescription : Type := mkTableDescription {
  td_name : string;
  td_tags : gmap string string;
  td_serving : option ServingTableConfig;
  td_support : option SupportTableConfig;
  td_dynamodb : option DynamoDbTableConfig;
  td_mongodb : option MongoDbTableConfig;
  td_redis : option RedisTableConfig;
}.

(** SRC control_plane/src/data_contract.rs:709-719 TableDescription::from_create_table *)
Definition from_create_table (ct : CreateTable) : TableDescription :=
  mkTableDescription (ct_name ct) (ct_tags ct) (ct_serving ct) (ct_support ct)
    (ct_dynamodb ct) (ct_mongodb ct) (ct_redis ct).

(** ** Index templates, pipelines and lifetime policies, as stored *)

(** SRC control_plane/src/data_contract.rs:1083-1088 StringOrBool *)
Inductive StringOrBool : Type := SbBool (b : bool) | SbString (s : string).

(** SRC control_plane/src/data_contract.rs:1096-1108 PropertyInfo *)
Inductive PropertyInfo : Type := mkPropertyInfo {
  pi_type_name : option string;
  pi_enabled : bool;
  pi_dynamic : option StringOrBool;
  pi_properties : option (list (string * PropertyInfo));
  pi_fields : option (list (string * PropertyInfo));
  pi_ignore_above : Z;
  pi_scaling_factor : option Z;
}.

(** SRC control_plane/src/data_contract.rs:1110-1116 Mappings *)
Record Mappings : Type := mkMappings {
  mp_dynamic : option StringOrBool;
  mp_meta : option (gmap string string);
  mp_properties : gmap string PropertyInfo;
}.

(** SRC control_plane/src/data_contract.rs:1128-1136 IndexSettings *)
Record IndexSettings : Type := mkIndexSettings {
  is_number_of_shards : option Z;
  is_number_of_replicas : option Z;
  is_auto_expand_replicas : option string;
  is_refresh_interval : option string;
  is_priority : option Z;
  is_mapping_limit : option (option Z);
}.

(** SRC control_plane/src/data_contract.rs:1150-1155 CreateIndexSettingsOption *)
Inductive CreateIndexSettingsOption : Type :=
| Indirect (index : IndexSettings)
| Direct (settings : IndexSettings).

(** SRC control_plane/src/data_contract.rs:1157-1162 CreateIndexBody *)
Record CreateIndexBody : Type := mkCreateIndexBody {
  cib_aliases : option (gmap string bool);
  cib_mappings : option Mappings;
  cib_settings : option CreateIndexSettingsOption;
}.

(** SRC control_plane/src/data_contract.rs:1178-1185 CreateIndexTemplateBody *)
Record CreateIndexTemplateBody : Type := mkCreateIndexTemplateBody {
  cit_index_patterns : list string;
  cit_priority : option Z;
  cit_version : option Z;
  cit_template : CreateIndexBody;
}.

(** The five processor bodies; [ps_if] is the field the sources rename to [if]. *)
(** SRC control_plane/src/pipeline.rs:24-37 SetProcessorBody *)
Record SetProcessorBody : Type := mkSetProcessor {
  ps_description : option string;
  ps_if : option string;
  ps_field : string;
  ps_value_formula : string;
  ps_ignore_empty_value : bool;
  ps_metadata : gmap string string;
}.

(** SRC control_plane/src/pipeline.rs:103-116 AppendProcessorBody *)
Record AppendProcessorBody : Type := mkAppendProcessor {
  pa_description : option string;
  pa_if : option string;
  pa_field : string;
  pa_value_formula : string;
  pa_ignore_empty_value : bool;
  pa_metadata : gmap string string;
}.

(** SRC control_plane/src/pipeline.rs:142-151 RemoveProcessorBody *)
Record RemoveProcessorBody : Type := mkRemoveProcessor {
  pr_description : option string;
  pr_if : option string;
  pr_field : string;
  pr_metadata : gmap string string;
}.

(** SRC control_plane/src/pipeline.rs:173-182 PipelineProcessorBody *)
Record PipelineProcessorBody : Type := mkPipelineProcessor {
  pp_description : option string;
  pp_if : option string;
  pp_name : string;
  pp_metadata : gmap string string;
}.

(** SRC control_plane/src/pipeline.rs:204-214 RenameProcessorBody *)
Record RenameProcessorBody : Type := mkRenameProcessor {
  pn_description : option string;
  pn_if : option string;
  pn_field : string;
  pn_target_field : string;
  pn_metadata : gmap string string;
}.

(** SRC control_plane/src/pipeline.rs:238-245 ProcessorBodies *)
Inductive ProcessorBodies : Type :=
| PSet (body : SetProcessorBody)
| PRemove (body : RemoveProcessorBody)
| PPipeline (body : PipelineProcessorBody)
| PRename (body : RenameProcessorBody)
| PAppend (body : AppendProcessorBody).

(** SRC control_plane/src/pipeline.rs:339-344 PipelineDefinition *)
Record PipelineDefinition : Type := mkPipelineDefinition {
  pd_description : option string;
  pd_processors : list ProcessorBodies;
  pd_on_failure : list ProcessorBodies;
}.

(** SRC control_plane/src/ilm_policy.rs:10-14 ILMPolicyRolloverAction *)
Record ILMPolicyRolloverAction : Type := mkRollover {
  ro_max_size : option string;
  ro_max_age : option string;
}.

(** SRC control_plane/src/ilm_policy.rs:16-20 ILMPolicyActions *)
Record ILMPolicyActions : Type := mkILMActions {
  ia_rollover : option ILMPolicyRolloverAction;
  ia_delete : option ();
}.

(** SRC control_plane/src/ilm_policy.rs:4-8 ILMPolicyDelete *)
Record ILMPolicyDelete : Type := mkILMDelete { id_min_age : string; id_actions : ILMPolicyActions }.

(** SRC control_plane/src/ilm_policy.rs:27-31 ILMPolicyPhases *)
Record ILMPolicyPhases : Type := mkILMPhases {
  ip_hot : option ILMPolicyActions;
  ip_delete : option ILMPolicyDelete;
}.

(** SRC control_plane/src/ilm_policy.rs:33-42 ILMPolicyMeta *)
Record ILMPolicyMeta : Type := mkILMMeta {
  ilm_managed : bool;
  ilm_index_patterns : option (list string);
  ilm_version : option Z;
  ilm_created_by : option string;
  ilm_updated_by : option string;
  ilm_description : option string;
  ilm_generation : option Z;
}.

(** SRC control_plane/src/ilm_policy.rs:44-48 ILMPolicyPolicy *)
Record ILMPolicyDefinition : Type := mkILMPolicy {
  ilm_meta : option ILMPolicyMeta;
  ilm_phases : ILMPolicyPhases;
}.

(** ** Processing modes (test_api.rs) *)

(** SRC control_plane/src/test_api.rs:1-7 StateMode *)
Inductive StateMode : Type :=
| SMTesting
| SMEphemeral
| SMTestingDynamoDb (address : option string)
| SMLeaderless (server_address : string).

(** SRC control_plane/src/test_api.rs:10-12 StateMode::is_testing *)
Definition is_testing (m : StateMode) : bool :=
  match m with SMTesting | SMTestingDynamoDb _ => true | _ => false end.

(** SRC control_plane/src/test_api.rs:15-21 StorageMode *)
Inductive StorageMode : Type := S3 (rest_endpoint s3_endpoint : option string).

(** SRC control_plane/src/test_api.rs:32-36 CacheMode *)
Inductive CacheMode : Type := CacheRedis (address : option string) | CacheNative.

(** SRC control_plane/src/test_api.rs:38-45 ApiMode *)
Inductive ApiMode : Type := ReadWrite | ReadOnly.

(** SRC control_plane/src/test_api.rs:47-51 PeerMode *)
Inductive PeerMode : Type := SelfOnly | Remote (peers : list string).

(** SRC control_plane/src/test_api.rs:53-58 IndexingMode *)
Inductive IndexingMode : Type := IndexSync | IndexAsync | IndexDisabled.

(** SRC control_plane/src/test_api.rs:60-65 CompactionMode *)
Inductive CompactionMode : Type :=
| CompactAsync (threshold : option Z)
| CompactExternal (address : string)
| CompactDisabled.

(** SRC control_plane/src/test_api.rs:84-88 PrefetchMode *)
Inductive PrefetchMode : Type := PrefetchEnabled | PrefetchDisabled.

(** SRC control_plane/src/test_api.rs:70-77 CompactionMode::threshold *)
Definition threshold (m : CompactionMode) : Z :=
  match m with
  | CompactAsync t => default 100%Z t
  | _ => 100%Z
  end.

(** SRC control_plane/src/test_api.rs:102-113 TestProcessingMode *)
Record TestProcessingMode : Type := mkMode {
  state_mode : StateMode;
  storage_mode : StorageMode;
  cache_mode : CacheMode;
  api_mode : ApiMode;
  peer_mode : PeerMode;
  indexing_mode : IndexingMode;
  compaction_mode : CompactionMode;
  prefetch_mode : PrefetchMode;
}.

(** SRC control_plane/src/test_api.rs:120-131 TestProcessingMode::ephemeral_default *)
Definition ephemeral_default : TestProcessingMode :=
  mkMode SMEphemeral (S3 None None) CacheNative ReadWrite SelfOnly IndexSync
    (CompactAsync None) PrefetchDisabled.

(** SRC control_plane/src/test_api.rs:146-157 TestProcessingMode::dynamo_testing *)
Definition dynamo_testing (address : option string) : TestProcessingMode :=
  mkMode (SMTestingDynamoDb address) (S3 None None) CacheNative ReadWrite SelfOnly IndexSync
    (CompactAsync None) PrefetchDisabled.

(** SRC control_plane/src/test_api.rs:159-161 TestProcessingMode::is_read_only *)
Definition is_read_only (m : TestProcessingMode) : bool :=
  match api_mode m with ReadOnly => true | ReadWrite => false end.

(** SRC control_plane/src/data_contract.rs:1187-1192 ServiceImplType *)
Inductive ServiceImplType : Type :=
| Ephemeral
| DynamoDb (address : option string)
| TestingDynamoDb (address : option string).

(** SRC control_plane/src/data_contract.rs:1206-1213 ServiceMode::as_testing_mode *)
Definition as_testing_mode (impl_type : ServiceImplType) : TestProcessingMode :=
  match impl_type with
  | TestingDynamoDb address => dynamo_testing address
  | _ => ephemeral_default
  end.

(** ** Checkpoint descriptors *)

(** SRC control_plane/src/checkpoint_descriptor.rs:1-6 CheckpointDescriptor *)
Record CheckpointDescriptor : Type := mkDescriptor {
  cd_table_name : string;
  cd_checkpoint_id : string;
  cd_original_checkpoint_id : option string;
}.

(** SRC control_plane/src/checkpoint_descriptor.rs:9-15 CheckpointDescriptor::new *)
Definition new_descriptor (table_name checkpoint_id : string) : CheckpointDescriptor :=
  mkDescriptor table_name checkpoint_id None.

(** SRC control_plane/src/checkpoint_descriptor.rs:17-34 CheckpointDescriptor::from_full_name *)
Definition from_full_name (full_name : string) : outcome CheckpointDescriptor :=
  match split_on ":"%char full_name with
  | [t; c] => Ok (mkDescriptor t c None)
  | [t; o; c] => Ok (mkDescriptor t c (Some o))
  | _ => Panic ("Invalid checkpoint descriptor: " +:+ full_name)
  end.

(** SRC control_plane/src/checkpoint_descriptor.rs:36-43 CheckpointDescriptor::full_checkpoint_id *)
Definition full_checkpoint_id (d : CheckpointDescriptor) : string :=
  match cd_original_checkpoint_id d with
  | Some o => o +:+ ":" +:+ cd_checkpoint_id d
  | None => cd_checkpoint_id d
  end.

(** SRC control_plane/src/checkpoint_descriptor.rs:45-53 CheckpointDescriptor::full_name *)
Definition full_name (d : CheckpointDescriptor) : string :=
  match cd_original_checkpoint_id d with
  | Some o => cd_table_name d +:+ ":" +:+ o +:+ ":" +:+ cd_checkpoint_id d
  | None => cd_table_name d +:+ ":" +:+ cd_checkpoint_id d
  end.

(** ** Properties *)
Module ContractTheory.

(** A descriptor whose parts are free of the separator. *)
Definition colon_free (d : CheckpointDescriptor) : Prop :=
  str_mem ":"%char (cd_table_name d) = false ∧ str_mem ":"%char (cd_checkpoint_id d) = false ∧
  match cd_original_checkpoint_id d with Some o => str_mem ":"%char o = false | None => True end.

(** [CheckpointDescriptor::from_full_name] inverts [full_name] on every
    descriptor whose parts contain no colon; and whatever it parses prints back to
    the very string it was given. *)
Theorem descriptor_roundtrip :
  (∀ d, colon_free d → from_full_name (full_name d) = Ok d) ∧
  (∀ s d', from_full_name s = Ok d' → full_name d' = s).
Proof.
  split.
  - intros d (Ht & Hc & Ho). unfold full_name, from_full_name. destruct d as [t c [o|]]; simpl in *.
    + rw (split_on_app ":"%char t) // (split_on_app ":"%char o) // split_on_no_sep //.
    + rw (split_on_app ":"%char t) // split_on_no_sep //.
  - intros s d'. unfold from_full_name, full_name.
    pose proof (join_split_on ":"%char s) as Hj.
    destruct (split_on ":"%char s) as [|w [|w' [|w'' []]]];
      try (intros ?; discriminate); intros [= <-]; exact Hj.
Qed.

Lemma descriptor_roundtrip_witness :
  from_full_name (full_name (mkDescriptor "logs" "42" (Some "17"))) =
  Ok (mkDescriptor "logs" "42" (Some "17")).
Proof.
  apply (proj1 descriptor_roundtrip (mkDescriptor "logs" "42" (Some "17"))).
  split; [reflexivity|]. split; reflexivity.
Defined.
End ContractTheory.
