(* ===== verification/Checkpoint.v ===== *)
(** * Table checkpoints (control_plane/src/data_contract.rs, [TableMetadataCheckpoint])

    A checkpoint lists the data files of a table (iceberg and speedboat), the
    delete files, and, per extension such as the search index ["es"], which data
    files the extension already covers.  The theorems show that the bookkeeping
    agrees with itself: the counting test for full coverage equals the direct one
    (so the code's own assertion never fires), coverage only ever mentions current
    files and only grows, and applying a compaction removes exactly the compacted
    files everywhere. *)

From S2P Require Import Prelude Json Schema FileSet Contract.

(** SRC control_plane/src/data_contract.rs:273-283 TableMetadataCheckpoint *)
Record TableMetadataCheckpoint : Type := mkCheckpoint {
  cp_table_name : string;
  cp_original_checkpoint_id : option string;
  cp_checkpoint_id : string;
  cp_iceberg_metadata : option IcebergMetadata;
  cp_speedboat_metadata : option SpeedboatMetadata;
  cp_deletes_metadata : option DeletesMetadata;
  cp_extension_metadata : gmap string (gmap string (list ExtensionFile));
  cp_schema : PowdrrSchema;
}.

(** Assignments to single fields. *)
Definition with_iceberg (c : TableMetadataCheckpoint) m := mkCheckpoint (cp_table_name c)
  (cp_original_checkpoint_id c) (cp_checkpoint_id c) m (cp_speedboat_metadata c)
  (cp_deletes_metadata c) (cp_extension_metadata c) (cp_schema c).
Definition with_speedboat (c : TableMetadataCheckpoint) m := mkCheckpoint (cp_table_name c)
  (cp_original_checkpoint_id c) (cp_checkpoint_id c) (cp_iceberg_metadata c) m
  (cp_deletes_metadata c) (cp_extension_metadata c) (cp_schema c).
Definition with_deletes (c : TableMetadataCheckpoint) m := mkCheckpoint (cp_table_name c)
  (cp_original_checkpoint_id c) (cp_checkpoint_id c) (cp_iceberg_metadata c)
  (cp_speedboat_metadata c) m (cp_extension_metadata c) (cp_schema c).
Definition with_extension (c : TableMetadataCheckpoint) m := mkCheckpoint (cp_table_name c)
  (cp_original_checkpoint_id c) (cp_checkpoint_id c) (cp_iceberg_metadata c)
  (cp_speedboat_metadata c) (cp_deletes_metadata c) m (cp_schema c).
Definition with_schema (c : TableMetadataCheckpoint) s := mkCheckpoint (cp_table_name c)
  (cp_original_checkpoint_id c) (cp_checkpoint_id c) (cp_iceberg_metadata c)
  (cp_speedboat_metadata c) (cp_deletes_metadata c) (cp_extension_metadata c) s.
Definition with_checkpoint_id (c : TableMetadataCheckpoint) i := mkCheckpoint (cp_table_name c)
  (cp_original_checkpoint_id c) i (cp_iceberg_metadata c)
  (cp_speedboat_metadata c) (cp_deletes_metadata c) (cp_extension_metadata c) (cp_schema c).

(** SRC control_plane/src/data_contract.rs:286-297 TableMetadataCheckpoint::new *)
Definition new_checkpoint (table_name checkpoint_id : string) (schema : PowdrrSchema) : TableMetadataCheckpoint :=
  mkCheckpoint table_name None checkpoint_id None None None ∅ schema.

(** SRC control_plane/src/data_contract.rs:299-305 TableMetadataCheckpoint::get_descriptor *)
Definition get_descriptor (c : TableMetadataCheckpoint) : CheckpointDescriptor :=
  mkDescriptor (cp_table_name c) (cp_checkpoint_id c) (cp_original_checkpoint_id c).

Definition iceberg_paths (c : TableMetadataCheckpoint) : list string :=
  match cp_iceberg_metadata c with Some im => file_paths (im_files im) | None => [] end.
Definition speedboat_paths (c : TableMetadataCheckpoint) : list string :=
  match cp_speedboat_metadata c with Some sm => file_paths (sm_files sm) | None => [] end.
Definition delete_paths (c : TableMetadataCheckpoint) : list string :=
  match cp_deletes_metadata c with Some dm => dm_files dm | None => [] end.

(** SRC control_plane/src/data_contract.rs:576-588 TableMetadataCheckpoint::current_file_paths *)
Definition current_file_paths (c : TableMetadataCheckpoint) : gset string :=
  list_to_set (iceberg_paths c) ∪ list_to_set (speedboat_paths c).

(** SRC control_plane/src/data_contract.rs:535-543 TableMetadataCheckpoint::retain_current_extension_metadata *)
Definition retain_current_extension_metadata (c : TableMetadataCheckpoint) : TableMetadataCheckpoint :=
  let paths := current_file_paths c in
  let checkpoint_key := checkpoint_extension_metadata_key (cp_checkpoint_id c) in
  with_extension c
    ((λ m : gmap string (list ExtensionFile),
        filter (λ kv, kv.1 ∈ paths ∨ kv.1 = checkpoint_key) m) <$> cp_extension_metadata c).

(** SRC control_plane/src/data_contract.rs:545-574 TableMetadataCheckpoint::validate_fully_covered_for_extension *)
Definition validate_fully_covered_for_extension (c : TableMetadataCheckpoint) (ext : string) : bool :=
  let covered := default ∅ (cp_extension_metadata c !! ext) in
  forallb (λ p, bool_decide (is_Some (covered !! p))) (iceberg_paths c) &&
  forallb (λ p, bool_decide (is_Some (covered !! p))) (speedboat_paths c).

(** SRC control_plane/src/data_contract.rs:514-533 TableMetadataCheckpoint::fully_covered_for_extension *)
Definition fully_covered_for_extension (c : TableMetadataCheckpoint) (ext : string) : outcome bool :=
  let paths := current_file_paths c in
  let total_num_files := size paths in
  let total_num_extension_files :=
    match cp_extension_metadata c !! ext with
    | Some m => size (filter (λ p, p ∈ paths) (dom m))
    | None => 0
    end in
  let size_check_method := bool_decide (total_num_files = total_num_extension_files) in
  if Bool.eqb size_check_method (validate_fully_covered_for_extension c ext)
  then Ok size_check_method
  else Panic "assertion `left == right` failed".

(** One of the two loops of [add_coverage]: over the files [paths], against the
    metadata [existing] found on entry. *)
Definition coverage_loop (files existing : gmap string (list ExtensionFile)) (paths : list string)
    (acc : gmap string (list ExtensionFile) * bool) : gmap string (list ExtensionFile) * bool :=
  foldl (λ acc p,
    match files !! p, existing !! p with
    | Some metadata, None => (<[p := metadata]> acc.1, true)
    | _, _ => acc
    end) acc paths.
#[global] Arguments coverage_loop : simpl never.

(** SRC control_plane/src/data_contract.rs:590-654 TableMetadataCheckpoint::add_coverage *)
Definition add_coverage (c : TableMetadataCheckpoint) (commit : ExtensionCommit) : TableMetadataCheckpoint * bool :=
  let existing := default ∅ (cp_extension_metadata c !! ec_extension commit) in
  let key := checkpoint_extension_metadata_key (cp_checkpoint_id c) in
  let acc := coverage_loop (ec_files commit) existing (iceberg_paths c) (existing, false) in
  let acc := coverage_loop (ec_files commit) existing (speedboat_paths c) acc in
  let acc := coverage_loop (ec_files commit) existing [key] acc in
  (with_extension c (<[ec_extension commit := acc.1]> (cp_extension_metadata c)), acc.2).

(** SRC control_plane/src/data_contract.rs:492-512 TableMetadataCheckpoint::get_removed_files *)
Definition get_removed_files (compactions : list string) (lookup : gmap string CompactionCommit) : outcome (list string * list string) :=
  data ← mapM_outcome (λ x, unwrap (lookup !! x)) compactions;
  Ok (concat (cc_removed_speedboat_files <$> data), concat (cc_removed_delete_files <$> data)).

(** The three removals shared by [apply_compactions] and the service's
    [handle_compaction]. *)
Definition remove_compacted (c : TableMetadataCheckpoint) (removed_speedboat removed_deletes : list string) : outcome TableMetadataCheckpoint :=
  speedboat ← match cp_speedboat_metadata c with
              | Some sm => files ← remove (sm_files sm) removed_speedboat;
                           Ok (Some (mkSpeedboatMetadata files))
              | None => Ok None
              end;
  let deletes := (λ dm, mkDeletesMetadata (filter (λ x, x ∉ removed_deletes) (dm_files dm))) <$> cp_deletes_metadata c in
  let extension := (λ m : gmap string (list ExtensionFile),
      filter (λ kv, kv.1 ∉ removed_speedboat) m) <$> cp_extension_metadata c in
  Ok (with_extension (with_deletes (with_speedboat c speedboat) deletes) extension).

(** SRC control_plane/src/data_contract.rs:408-433 TableMetadataCheckpoint::apply_compactions *)
Definition apply_compactions (c : TableMetadataCheckpoint) (compactions : list string) (lookup : gmap string CompactionCommit) : outcome TableMetadataCheckpoint :=
  '(removed_speedboat, removed_deletes) ← get_removed_files compactions lookup;
  remove_compacted c removed_speedboat removed_deletes.

(** One file list of a speedboat commit, the loop body of [apply_speedboat]. *)
Definition apply_table_info `{Environment} (c : TableMetadataCheckpoint) (ti : SpeedboatCommitTableInfo) : outcome TableMetadataCheckpoint :=
  if decide (ti_commit_type ti = "delete") then
    dm ← unwrap (cp_deletes_metadata c);
    Ok (with_deletes c (Some (mkDeletesMetadata (dm_files dm ++ ti_files ti))))
  else if decide (ti_commit_type ti = "commit" ∨ ti_commit_type ti = "compaction") then
    sm ← unwrap (cp_speedboat_metadata c);
    payload ← as_file_set_payload ti;
    files ← merge_inplace (sm_files sm) payload;
    let c := with_speedboat c (Some (mkSpeedboatMetadata files)) in
    match ti_schema ti with
    | Some s => merged ← merge_from (cp_schema c) s; Ok (with_schema c merged)
    | None => Ok c
    end
  else Panic "Unknown commit type".

(** SRC control_plane/src/data_contract.rs:335-379 TableMetadataCheckpoint::apply_speedboat *)
Definition apply_speedboat `{Environment} (c : TableMetadataCheckpoint) (commit : SpeedboatCommit) (lookup : gmap string CompactionCommit) : outcome (TableMetadataCheckpoint * bool) :=
  let c := match cp_speedboat_metadata c with
           | None => with_speedboat c (Some (mkSpeedboatMetadata empty_file_set))
           | Some _ => c
           end in
  let c := match cp_deletes_metadata c with
           | None => with_deletes c (Some (mkDeletesMetadata []))
           | Some _ => c
           end in
  c ← foldM apply_table_info c (type_files commit);
  c ← match sc_compaction commit with
      | Some compaction => apply_compactions c [compaction] lookup
      | None => Ok c
      end;
  Ok (c, true).

(** SRC control_plane/src/data_contract.rs:381-406 TableMetadataCheckpoint::apply_iceberg *)
Definition apply_iceberg (c : TableMetadataCheckpoint) (commit : IcebergCommit) (lookup : gmap string CompactionCommit) : outcome (TableMetadataCheckpoint * bool) :=
  let c := with_iceberg c (Some (ic_metadata commit)) in
  let c := match ic_deletes_table_info commit with
           | Some ti =>
               let existing := match cp_deletes_metadata c with Some dm => dm_files dm | None => [] end in
               with_deletes c (Some (mkDeletesMetadata (existing ++ ti_files ti)))
           | None => c
           end in
  merged ← merge_from (cp_schema c) (im_table_schema (ic_metadata commit));
  c ← apply_compactions (with_schema c merged) (ic_compactions commit) lookup;
  Ok (retain_current_extension_metadata c, true).

Definition push_new_stats (stats : list IcebergFileStats) (stat : IcebergFileStats) : list IcebergFileStats :=
  if existsb (λ existing, bool_decide (fst_file_path existing = fst_file_path stat)) stats
  then stats else stats ++ [stat].

Definition default_if_empty {A} (l d : list A) : list A :=
  match l with [] => d | _ => l end.

(** SRC control_plane/src/data_contract.rs:435-490 TableMetadataCheckpoint::apply_compaction_for_replacement *)
Definition apply_compaction_for_replacement (c : TableMetadataCheckpoint) (compaction : CompactionCommit) (im : IcebergMetadata) : outcome TableMetadataCheckpoint :=
  sm ← unwrap (cp_speedboat_metadata c);
  files ← remove (sm_files sm) (cc_removed_speedboat_files compaction);
  let c := with_speedboat c (Some (mkSpeedboatMetadata files)) in
  let c := with_deletes c ((λ dm, mkDeletesMetadata
             (filter (λ x, x ∉ cc_removed_delete_files compaction) (dm_files dm))) <$> cp_deletes_metadata c) in
  file_payload ← select (im_files im) (cc_parquet_file_name compaction);
  let file_stats := select_file_stats im (cc_parquet_file_name compaction) in
  metadata ←
    match cp_iceberg_metadata c with
    | None =>
        Ok (mkIcebergMetadata (im_table_schema im) None file_payload (im_partition_spec im)
              (im_sort_order im) [] [] (im_access_artifacts im) file_stats)
    | Some m =>
        merged ← merge_inplace (im_files m) file_payload;
        Ok (mkIcebergMetadata (im_table_schema m) (im_snapshot_id m) merged
              (default_if_empty (im_partition_spec m) (im_partition_spec im))
              (default_if_empty (im_sort_order m) (im_sort_order im))
              (im_column_names m) (im_column_stats m)
              (default_if_empty (im_access_artifacts m) (im_access_artifacts im))
              (foldl push_new_stats (im_file_stats m) file_stats))
    end;
  Ok (retain_current_extension_metadata (with_iceberg c (Some metadata))).

Definition fold_changed {A B} (f : A → B → outcome (A * bool)) (acc : A * bool) (l : list B) : outcome (A * bool) :=
  foldM (λ acc b, '(a, changed) ← f acc.1 b; Ok (a, acc.2 || changed)) acc l.

(** SRC control_plane/src/data_contract.rs:307-333 TableMetadataCheckpoint::clone_and_apply *)
Definition clone_and_apply `{Environment} (c : TableMetadataCheckpoint)
    (speedboat_commits : list SpeedboatCommit) (iceberg_commits : list IcebergCommit)
    (extension_commits : list ExtensionCommit) (lookup : gmap string CompactionCommit)
    (ids : nat) : outcome (TableMetadataCheckpoint * bool) :=
  let c := with_checkpoint_id c (next_id ids) in
  let c := retain_current_extension_metadata c in
  acc ← fold_changed (λ c s, apply_speedboat c s lookup) (c, false) speedboat_commits;
  acc ← fold_changed (λ c i, apply_iceberg c i lookup) acc iceberg_commits;
  fold_changed (λ c e, Ok (add_coverage c e)) acc extension_commits.

(** SRC control_plane/src/data_contract.rs:1046-1067 CompactionWorkItem::from_checkpoint *)
Definition compaction_work_item_from_checkpoint `{Environment} (c : TableMetadataCheckpoint) (checkpoints_to_delete : list string) (ids : nat) : outcome CompactionWorkItem :=
  sm ← unwrap (cp_speedboat_metadata c);
  Ok (mkCompactionWorkItem (next_id ids) (cp_schema c) (sm_files sm)
        (match cp_deletes_metadata c with Some dm => dm_files dm | None => [] end)
        (cp_checkpoint_id c) checkpoints_to_delete).

(** ** Lemmas *)

(** Every file of the extension's metadata is current, or is the checkpoint's own entry. *)
Definition coverage_current (c : TableMetadataCheckpoint) : Prop :=
  ∀ ext m p, cp_extension_metadata c !! ext = Some m → is_Some (m !! p) →
    p ∈ current_file_paths c ∨ p = checkpoint_extension_metadata_key (cp_checkpoint_id c).

Lemma elem_of_current c p :
  p ∈ current_file_paths c ↔ p ∈ iceberg_paths c ∨ p ∈ speedboat_paths c.
Proof. unfold current_file_paths. set_solver. Qed.

Lemma validate_iff c ext :
  validate_fully_covered_for_extension c ext = true ↔
  ∀ p, p ∈ current_file_paths c → is_Some (default ∅ (cp_extension_metadata c !! ext) !! p).
Proof.
  unfold validate_fully_covered_for_extension.
  rw andb_true_iff !forallb_forall. setoid_rewrite bool_decide_eq_true.
  setoid_rewrite <-list_elem_of_In. setoid_rewrite elem_of_current. naive_solver.
Qed.

(** Counting the covered current files is the same as testing each one. *)
Lemma covered_count_iff (m : gmap string (list ExtensionFile)) (paths : gset string) :
  size paths = size (filter (λ p, p ∈ paths) (dom m)) ↔ ∀ p, p ∈ paths → is_Some (m !! p).
Proof.
  assert (filter (λ p, p ∈ paths) (dom m) = paths ∩ dom m) as -> by set_solver.
  split.
  - intros Hs. assert (paths ∩ dom m ≡ paths) as Heq.
    { apply set_subseteq_size_equiv; [set_solver|lia]. }
    intros p Hp. apply elem_of_dom. set_solver.
  - intros Hall. f_equal. apply set_eq. intros p. rw elem_of_intersection elem_of_dom. naive_solver.
Qed.

Lemma coverage_loop_app files existing l1 l2 acc :
  coverage_loop files existing l2 (coverage_loop files existing l1 acc) =
  coverage_loop files existing (l1 ++ l2) acc.
Proof. unfold coverage_loop. by rw foldl_app. Qed.

Lemma coverage_loop_lookup files existing paths (acc : gmap string (list ExtensionFile) * bool) p :
  (coverage_loop files existing paths acc).1 !! p =
  if decide (p ∈ paths ∧ existing !! p = None ∧ is_Some (files !! p)) then files !! p else acc.1 !! p.
Proof.
  induction paths as [|q paths IH] using rev_ind.
  - case_decide as Hin; [|done]. by destruct Hin as [?%elem_of_nil _].
  - unfold coverage_loop in *. rw foldl_snoc.
    set (acc' := foldl _ acc paths) in *. clearbody acc'.
    destruct (decide (q = p)) as [->|Hne].
    + destruct (files !! p) as [v|] eqn:Hf, (existing !! p) eqn:He; simpl.
      1,3,4: rw IH; repeat case_decide; naive_solver.
      rw lookup_insert_eq. clear IH. case_decide as Hin; [done|]. destruct Hin.
      split_and!; [set_solver|done|done].
    + assert (p ∈ paths ++ [q] ↔ p ∈ paths) as Hin by set_solver.
      destruct (files !! q), (existing !! q); simpl; rw ?lookup_insert_ne // IH;
        repeat case_decide; tauto.
Qed.

Lemma coverage_loop_changed files existing paths acc :
  (coverage_loop files existing paths acc).2 = true ↔
  acc.2 = true ∨ ∃ p, p ∈ paths ∧ existing !! p = None ∧ is_Some (files !! p).
Proof.
  induction paths as [|q paths IH] using rev_ind.
  - simpl. split; [by left|]. by intros [?|(p & ?%elem_of_nil & _)].
  - unfold coverage_loop in *. rw foldl_snoc. set (acc' := foldl _ acc paths) in *. clearbody acc'.
    assert ((∃ p, p ∈ paths ++ [q] ∧ existing !! p = None ∧ is_Some (files !! p)) ↔
      (∃ p, p ∈ paths ∧ existing !! p = None ∧ is_Some (files !! p)) ∨
      (existing !! q = None ∧ is_Some (files !! q))) as ->.
    { setoid_rewrite elem_of_app. setoid_rewrite list_elem_of_singleton. naive_solver. }
    destruct (files !! q) as [v|], (existing !! q); simpl.
    1,3,4: rw IH; naive_solver.
    split; [|done]. intros _. right. by right.
Qed.

(** The files [add_coverage] may mark covered. *)
Definition coverable (c : TableMetadataCheckpoint) (p : string) : Prop :=
  p ∈ current_file_paths c ∨ p = checkpoint_extension_metadata_key (cp_checkpoint_id c).
#[global] Instance coverable_dec c p : Decision (coverable c p).
Proof. apply or_dec; apply _. Defined.

Definition extension_files (c : TableMetadataCheckpoint) (ext : string) : gmap string (list ExtensionFile) :=
  default ∅ (cp_extension_metadata c !! ext).

Lemma add_coverage_lookup c commit p :
  extension_files (add_coverage c commit).1 (ec_extension commit) !! p =
  match extension_files c (ec_extension commit) !! p with
  | Some v => Some v
  | None => if decide (coverable c p) then ec_files commit !! p else None
  end.
Proof.
  unfold add_coverage, extension_files. simpl. rw lookup_insert_eq /= !coverage_loop_app.
  rw coverage_loop_lookup /=. set (existing := default ∅ _). clearbody existing.
  assert (p ∈ iceberg_paths c ++ speedboat_paths c ++ [checkpoint_extension_metadata_key (cp_checkpoint_id c)]
          ↔ coverable c p) as Hin.
  { unfold coverable. rw elem_of_current. set_solver. }
  destruct (existing !! p) eqn:He.
  - case_decide; [naive_solver|done].
  - destruct (ec_files commit !! p) eqn:Hf; case_decide as H1; case_decide as H2; try done.
    + destruct H2. by apply Hin, H1.
    + destruct H1. split_and!; [by apply Hin|done|done].
Qed.

Lemma add_coverage_changed c commit :
  (add_coverage c commit).2 = true ↔
  ∃ p, coverable c p ∧ extension_files c (ec_extension commit) !! p = None ∧ is_Some (ec_files commit !! p).
Proof.
  unfold add_coverage, extension_files. simpl. rw !coverage_loop_app coverage_loop_changed /=.
  assert (∀ p, p ∈ iceberg_paths c ++ speedboat_paths c ++ [checkpoint_extension_metadata_key (cp_checkpoint_id c)]
          ↔ coverable c p) as Hin.
  { intros p. unfold coverable. rw elem_of_current. set_solver. }
  setoid_rewrite Hin. split; [by intros [?|?]|by right].
Qed.

Lemma add_coverage_other c commit ext :
  ext ≠ ec_extension commit →
  cp_extension_metadata (add_coverage c commit).1 !! ext = cp_extension_metadata c !! ext.
Proof. intros Hne. simpl. rw lookup_insert_ne; [congruence|done]. Qed.

(** When every file the commit could add is already there, nothing happens. *)
Lemma add_coverage_again c commit :
  is_Some (cp_extension_metadata c !! ec_extension commit) →
  (∀ p, coverable c p → extension_files c (ec_extension commit) !! p = None → ec_files commit !! p = None) →
  add_coverage c commit = (c, false).
Proof.
  intros [m Hm] Hnone.
  assert ((add_coverage c commit).2 = false) as Hch.
  { apply not_true_is_false. intros (p & Hc & Hp & [v Hv])%add_coverage_changed.
    rw (Hnone p) in Hv; done. }
  assert (extension_files (add_coverage c commit).1 (ec_extension commit) = m) as Hext.
  { assert (m = extension_files c (ec_extension commit)) as -> by (unfold extension_files; by rw Hm).
    apply map_eq. intros p. rw add_coverage_lookup.
    destruct (extension_files c _ !! p) eqn:Hp; [done|]. case_decide; auto. }
  rw (surjective_pairing (add_coverage c commit)) Hch. f_equal.
  revert Hext. unfold extension_files, add_coverage. simpl. rw lookup_insert_eq /=. intros ->.
  rw insert_id //. by destruct c.
Qed.

(** [add_coverage] touches nothing but the extension metadata. *)
Lemma add_coverage_frame c commit :
  let c' := (add_coverage c commit).1 in
  cp_table_name c' = cp_table_name c ∧ cp_checkpoint_id c' = cp_checkpoint_id c ∧
  cp_iceberg_metadata c' = cp_iceberg_metadata c ∧ cp_speedboat_metadata c' = cp_speedboat_metadata c ∧
  cp_deletes_metadata c' = cp_deletes_metadata c ∧ cp_schema c' = cp_schema c ∧
  current_file_paths c' = current_file_paths c.
Proof. done. Qed.

Lemma retain_lookup c ext p :
  extension_files (retain_current_extension_metadata c) ext !! p =
  if decide (coverable c p) then extension_files c ext !! p else None.
Proof.
  unfold extension_files, retain_current_extension_metadata. simpl. rw lookup_fmap.
  destruct (cp_extension_metadata c !! ext) as [m|]; simpl; [|by rw lookup_empty; case_decide].
  rw map_lookup_filter. destruct (m !! p); simpl; [|by case_decide].
  unfold coverable. case_guard; case_decide; naive_solver.
Qed.

Lemma retain_current c : coverage_current (retain_current_extension_metadata c).
Proof.
  intros ext m p Hm Hp. pose proof (retain_lookup c ext p) as Hr.
  unfold extension_files in Hr. rw Hm /= in Hr. destruct Hp as [v Hv]. rw Hv in Hr.
  case_decide as Hc; [|done]. exact Hc.
Qed.

(** A checkpoint whose speedboat files are aligned. *)
Definition wf_speedboat (c : TableMetadataCheckpoint) : Prop :=
  match cp_speedboat_metadata c with Some sm => wf_files (sm_files sm) | None => True end.

Lemma remove_compacted_spec c rs rd :
  wf_speedboat c →
  ∃ c', remove_compacted c rs rd = Ok c' ∧ wf_speedboat c' ∧
    speedboat_paths c' = filter (λ p, p ∉ rs) (speedboat_paths c) ∧
    delete_paths c' = filter (λ p, p ∉ rd) (delete_paths c) ∧
    cp_iceberg_metadata c' = cp_iceberg_metadata c ∧
    cp_schema c' = cp_schema c ∧ cp_checkpoint_id c' = cp_checkpoint_id c ∧
    cp_table_name c' = cp_table_name c ∧
    (∀ ext p, extension_files c' ext !! p =
      if decide (p ∈ rs) then None else extension_files c ext !! p).
Proof.
  intros Hwf. unfold remove_compacted.
  assert (∃ sm', (match cp_speedboat_metadata c with
      | Some sm => files ← remove (sm_files sm) rs; Ok (Some (mkSpeedboatMetadata files))
      | None => Ok None end) = Ok sm' ∧
      match sm' with Some sm => wf_files (sm_files sm) | None => True end ∧
      match sm' with Some sm => file_paths (sm_files sm) | None => [] end =
        filter (λ p, p ∉ rs) (speedboat_paths c)) as (sm' & -> & Hwf' & Hp).
  { unfold wf_speedboat, speedboat_paths in *. destruct (cp_speedboat_metadata c) as [sm|]; [|by exists None].
    destruct (wf_files_represents _ Hwf) as [l Hl].
    destruct (remove_spec _ _ rs Hl) as (fs & Hr & Hfs). rw Hr /=. eexists. split_and!; [done|apply Hfs|].
    simpl. rw -(represents_paths _ _ Hfs) -(represents_paths _ _ Hl). unfold drop_files.
    exact (filter_fmap_key file_path (λ p, p ∉ rs) l). }
  simpl. eexists. split_and!; try done.
  - unfold delete_paths. simpl. by destruct (cp_deletes_metadata c).
  - intros ext p. unfold extension_files. simpl. rw lookup_fmap.
    destruct (cp_extension_metadata c !! ext) as [m|]; simpl; [|by rw lookup_empty; case_decide].
    rw map_lookup_filter. destruct (m !! p); simpl; [|by case_decide].
    case_guard; case_decide; naive_solver.
Qed.

(** ** Coverage stays current through every kind of commit *)

Lemma remove_loop_keeps n i rs fs fs' p :
  remove_loop n i rs fs = Ok fs' → p ∈ file_paths fs → p ∉ rs → p ∈ file_paths fs'.
Proof.
  revert i fs. induction n as [|n IH]; intros i fs; cbn [remove_loop]; [done|].
  destruct (i <? length (file_paths fs)); [|by intros [= ->]]. destruct (file_paths fs !! i) as [q|] eqn:Hq; [|done]. cbn [unwrap ok_or]. rw bind_Ok.
  case_decide as Hin; [|by eauto]. intros H Hp Hrs. invert_ok.
  eapply IH; [exact H| |done]. simpl. unfold vec_remove in Hm.
  case_decide; simplify_eq. apply list_elem_of_lookup in Hp as [j Hj].
  assert (j ≠ i) as Hne by (intros ->; naive_solver).
  apply list_elem_of_lookup. destruct (decide (j < i)).
  - exists j. by rw list_lookup_delete_lt.
  - exists (pred j). rw list_lookup_delete_ge; [lia|]. replace (S (pred j)) with j by lia. done.
Qed.

Lemma foldl_add_paths ds fs p : p ∈ file_paths fs → p ∈ file_paths (foldl add fs ds).
Proof.
  revert fs. induction ds as [|d ds IH]; intros fs Hp; simpl; [done|]. apply IH.
  unfold add. case_decide; [done|]. destruct (position _ _); simpl; apply elem_of_app; by left.
Qed.

Lemma merge_inplace_paths fs other fs' p :
  merge_inplace fs other = Ok fs' → p ∈ file_paths fs → p ∈ file_paths fs'.
Proof. unfold merge_inplace. intros H Hp. invert_ok. by apply foldl_add_paths. Qed.

(** [c'] has the same identity as [c], at least its files, and no new coverage. *)
Definition extends (c c' : TableMetadataCheckpoint) : Prop :=
  cp_checkpoint_id c' = cp_checkpoint_id c ∧
  cp_extension_metadata c' = cp_extension_metadata c ∧
  (∀ p, p ∈ current_file_paths c → p ∈ current_file_paths c').

Lemma extends_current c c' : extends c c' → coverage_current c → coverage_current c'.
Proof.
  intros (Hid & Hext & Hp) Hc ext m p Hm Hs. rw Hid. rw Hext in Hm.
  destruct (Hc ext m p Hm Hs); auto.
Qed.

#[global] Instance extends_preorder : PreOrder extends.
Proof.
  split; [by intros c; split_and!|]. intros c1 c2 c3 (? & ? & H1) (? & ? & H2).
  split_and!; [congruence|congruence|]. intros p Hp. by apply H2, H1.
Qed.

Lemma apply_table_info_extends `{Environment} c ti c' :
  apply_table_info c ti = Ok c' → extends c c'.
Proof.
  unfold apply_table_info. repeat case_decide; intros Hr; [..|done]; invert_ok.
  - by split_and!.
  - assert (extends c (with_speedboat c (Some (mkSpeedboatMetadata x1)))) as Hext.
    { split_and!; [done|done|]. intros p. rw !elem_of_current. unfold speedboat_paths. simpl.
      rw Hm. intros [?|?]; [by left|right]. eauto using merge_inplace_paths. }
    destruct (ti_schema ti); invert_ok; [|done]. done.
Qed.

Lemma remove_compacted_current c rs rd c' :
  remove_compacted c rs rd = Ok c' → coverage_current c → coverage_current c'.
Proof.
  unfold remove_compacted. intros Hr Hc. invert_ok. intros ext m p Hm' Hs. simpl in *.
  rw lookup_fmap in Hm'. destruct (cp_extension_metadata c !! ext) as [m0|] eqn:Hm0; simplify_eq/=.
  destruct Hs as [v Hv]. apply map_lookup_filter_Some in Hv as [Hv Hrs]. simpl in Hrs.
  destruct (Hc ext m0 p Hm0) as [Hp|Hp]; [eauto| |by right]. left.
  apply elem_of_current in Hp. apply elem_of_current.
  destruct Hp as [Hp|Hp]; [by left|right]. unfold speedboat_paths in *. simpl.
  destruct (cp_speedboat_metadata c) as [sm|]; [|by apply elem_of_nil in Hp]. invert_ok. simpl.
  eapply remove_loop_keeps; eauto.
Qed.

Lemma apply_compactions_current c l lookup c' :
  apply_compactions c l lookup = Ok c' → coverage_current c → coverage_current c'.
Proof.
  unfold apply_compactions. intros Hr Hc. invert_ok. destruct x. eauto using remove_compacted_current.
Qed.

Lemma apply_speedboat_current `{Environment} c commit lookup c' b :
  apply_speedboat c commit lookup = Ok (c', b) → coverage_current c → coverage_current c'.
Proof.
  unfold apply_speedboat. intros Hr Hc. invert_ok.
  assert (extends c x) as Hext.
  { eapply (foldM_ind _ (extends c)); [| |exact Hm].
    - destruct (cp_speedboat_metadata c) eqn:E.
      { destruct (cp_deletes_metadata c) eqn:E'; [done|]. by split_and!. }
      split_and!; [simpl; by destruct (cp_deletes_metadata c)..|].
      intros p. rw !elem_of_current. unfold speedboat_paths, iceberg_paths. rw E. simpl.
      destruct (cp_deletes_metadata c); simpl; (intros [?|Hn]; [by left|by apply elem_of_nil in Hn]).
    - intros a ti a' _ Ha Hstep. etrans; [exact Ha|]. eauto using apply_table_info_extends. }
  apply (extends_current _ _ Hext) in Hc.
  destruct (sc_compaction commit); invert_ok; eauto using apply_compactions_current.
Qed.

Lemma apply_iceberg_current c commit lookup c' b :
  apply_iceberg c commit lookup = Ok (c', b) → coverage_current c'.
Proof. unfold apply_iceberg. intros Hr. invert_ok. apply retain_current. Qed.

Lemma add_coverage_current c commit : coverage_current c → coverage_current (add_coverage c commit).1.
Proof.
  intros Hc ext m p Hm [v Hv]. destruct (decide (ext = ec_extension commit)) as [->|Hne].
  - pose proof (add_coverage_lookup c commit p) as Hl. unfold extension_files at 1 in Hl.
    rw Hm /= Hv in Hl. change (coverable c p).
    destruct (extension_files c (ec_extension commit) !! p) eqn:E; [|by case_decide].
    unfold extension_files in E. destruct (cp_extension_metadata c !! ec_extension commit) as [m0|] eqn:Hm0; [|done].
    eapply Hc; [exact Hm0|]. simpl in E. by rw E.
  - rw add_coverage_other // in Hm. eapply Hc; eauto.
Qed.

Lemma fold_changed_ind {A B} (f : A → B → outcome (A * bool)) (P : A → Prop) l acc acc' :
  (∀ a b a' ch, P a → f a b = Ok (a', ch) → P a') →
  fold_changed f acc l = Ok acc' → P acc.1 → P acc'.1.
Proof.
  intros Hstep Hf Hacc. eapply (foldM_ind _ (λ acc, P acc.1)); [exact Hacc| |exact Hf].
  intros [a ch] b a' _ Ha Hr. invert_ok. destruct x. invert_ok. simpl in *. eauto.
Qed.

(** The counting test agrees with the direct one, so its assertion holds. *)
Lemma fully_covered_spec c ext :
  ∃ b, fully_covered_for_extension c ext = Ok b ∧
    (b = true ↔ ∀ p, p ∈ current_file_paths c → is_Some (extension_files c ext !! p)).
Proof.
  set (P := ∀ p, p ∈ current_file_paths c → is_Some (extension_files c ext !! p)).
  assert (size (current_file_paths c) =
      match cp_extension_metadata c !! ext with
      | Some m => size (filter (λ p, p ∈ current_file_paths c) (dom m))
      | None => 0
      end ↔ P) as Hcount.
  { unfold P, extension_files. destruct (cp_extension_metadata c !! ext) as [m|]; simpl.
    - apply covered_count_iff.
    - rw size_empty_iff. split; [intros Hemp p Hp; set_solver|].
      intros Hall. apply set_equiv. intros p. split; [|set_solver]. intros Hp.
      destruct (Hall p Hp) as [? Hv]. by rw lookup_empty in Hv. }
  pose proof (validate_iff c ext) as Hval. fold (extension_files c ext) in Hval. fold P in Hval.
  unfold fully_covered_for_extension. set (b := bool_decide _).
  assert (b = true ↔ P) as Hb by (unfold b; by rw bool_decide_eq_true).
  assert (b = validate_fully_covered_for_extension c ext) as <-.
  { apply eq_true_iff_eq. by rw Hb Hval. }
  exists b. by rw Bool.eqb_reflx.
Qed.

(** ** Properties *)
Module CheckpointTheory.

(** [fully_covered_for_extension] never trips its own [assert_eq!]: counting the
    extension's entries that are current files agrees with looking every current file
    up, and the answer is true exactly when every iceberg and speedboat file of the
    checkpoint has an entry. *)
Theorem fully_covered_sound_and_total c ext :
  ∃ b, fully_covered_for_extension c ext = Ok b ∧
    (b = true ↔ ∀ p, p ∈ current_file_paths c → is_Some (extension_files c ext !! p)).
Proof.
  apply fully_covered_spec.
Qed.

(** [add_coverage] records, for the commit's extension, exactly the entries of the
    commit that name a current file (or the checkpoint itself) and were not known yet;
    entries already there win, other extensions are untouched, the returned flag says
    whether anything was added, and applying the same commit again changes nothing. *)
Theorem add_coverage_exact c commit :
  let '(c', changed) := add_coverage c commit in
  (∀ p, extension_files c' (ec_extension commit) !! p =
     match extension_files c (ec_extension commit) !! p with
     | Some v => Some v
     | None => if decide (coverable c p) then ec_files commit !! p else None
     end) ∧
  (∀ ext, ext ≠ ec_extension commit →
     cp_extension_metadata c' !! ext = cp_extension_metadata c !! ext) ∧
  (changed = true ↔
     ∃ p, coverable c p ∧ extension_files c (ec_extension commit) !! p = None ∧ is_Some (ec_files commit !! p)) ∧
  add_coverage c' commit = (c', false).
Proof.
  destruct (add_coverage c commit) as [c' changed] eqn:E.
  assert (c' = (add_coverage c commit).1) as Hc' by (by rw E).
  assert (changed = (add_coverage c commit).2) as Hch by (by rw E).
  assert (∀ p, extension_files c' (ec_extension commit) !! p =
     match extension_files c (ec_extension commit) !! p with
     | Some v => Some v
     | None => if decide (coverable c p) then ec_files commit !! p else None
     end) as Hlook by (intros p; rw Hc'; apply add_coverage_lookup).
  split_and!; [done|intros ext Hne; rw Hc'; by apply add_coverage_other|rw Hch; apply add_coverage_changed|].
  apply add_coverage_again.
  - rw Hc'. simpl. rw lookup_insert_eq. done.
  - intros p Hc Hp. rw Hlook in Hp. destruct (extension_files c _ !! p); [done|].
    case_decide as Hd; [done|]. destruct Hd. revert Hc. by rw Hc'.
Qed.

(** The checkpoint [clone_and_apply] builds never claims coverage for a file that
    is not in it: whatever speedboat, iceberg and extension commits are applied, every
    entry of every extension names a current data file or the new checkpoint itself. *)
Theorem clone_and_apply_coverage_current `{Environment} c speedboat iceberg extension lookup ids c' changed :
  clone_and_apply c speedboat iceberg extension lookup ids = Ok (c', changed) →
  coverage_current c'.
Proof.
  unfold clone_and_apply. intros Hr. invert_ok.
  eapply (fold_changed_ind _ coverage_current) in Hr; [done|..].
  - intros a e a' ch Ha [= <- _]. by apply add_coverage_current.
  - eapply (fold_changed_ind _ coverage_current) in Hm0; [done|..].
    + intros a i a' ch _ Ha. eauto using apply_iceberg_current.
    + eapply (fold_changed_ind _ coverage_current) in Hm; [done|..].
      * intros a sb a' ch Ha Hs. eauto using apply_speedboat_current.
      * apply retain_current.
Qed.

Lemma mapM_outcome_unwrap {A B} (f : A → option B) l :
  mapM_outcome (λ x, unwrap (f x)) l =
  match mapM f l with Some k => Ok k | None => Panic "called Option::unwrap on a None value" end.
Proof.
  induction l as [|x l IH]; [done|]. simpl. destruct (f x); simpl; [|done].
  rw IH. by destruct (mapM f l).
Qed.

(** [apply_compactions] panics exactly when a compaction id is unknown; otherwise
    it removes the compacted speedboat files from the data files and from every
    extension's coverage, the compacted delete files from the delete list, and leaves
    iceberg files, schema and identity alone. *)
Theorem apply_compactions_exact c compactions lookup :
  wf_speedboat c →
  match mapM (λ x, lookup !! x) compactions with
  | None => ∃ r, apply_compactions c compactions lookup = Panic r
  | Some data =>
      let rs := concat (cc_removed_speedboat_files <$> data) in
      let rd := concat (cc_removed_delete_files <$> data) in
      ∃ c', apply_compactions c compactions lookup = Ok c' ∧ wf_speedboat c' ∧
        speedboat_paths c' = filter (λ p, p ∉ rs) (speedboat_paths c) ∧
        delete_paths c' = filter (λ p, p ∉ rd) (delete_paths c) ∧
        iceberg_paths c' = iceberg_paths c ∧ cp_schema c' = cp_schema c ∧
        cp_checkpoint_id c' = cp_checkpoint_id c ∧
        (∀ ext p, extension_files c' ext !! p =
          if decide (p ∈ rs) then None else extension_files c ext !! p)
  end.
Proof.
  intros Hwf. unfold apply_compactions, get_removed_files. rw mapM_outcome_unwrap.
  destruct (mapM _ compactions) as [data|]; simpl; [|by eexists].
  destruct (remove_compacted_spec c (concat (cc_removed_speedboat_files <$> data))
    (concat (cc_removed_delete_files <$> data)) Hwf)
    as (c' & Hr & ? & ? & ? & Hi & ? & ? & _ & ?).
  exists c'. split_and!; try done. unfold iceberg_paths. by rw Hi.
Qed.

(** A checkpoint with one iceberg file, two speedboat files and partial coverage. *)
Definition demo_iceberg : IcebergMetadata :=
  mkIcebergMetadata minimal None (single "s3://t/p1" 100 minimal) [] [] [] [] [] [].
Definition demo_checkpoint : TableMetadataCheckpoint :=
  mkCheckpoint "t" None "7" (Some demo_iceberg)
    (Some (mkSpeedboatMetadata (mkFileSet ["s3://t/s1"; "s3://t/s2"] [minimal] [0; 0] [1; 2]%Z)))
    (Some (mkDeletesMetadata ["s3://t/d1"])) {["es" := {["s3://t/s1" := []]}]} minimal.
Definition demo_compaction : CompactionCommit :=
  mkCompactionCommit ["s3://t/s1"] ["s3://t/d1"] "p2" "9" "7" [].

Lemma apply_compactions_exact_witness :
  ∃ c', apply_compactions demo_checkpoint ["9"] {["9" := demo_compaction]} = Ok c' ∧
    speedboat_paths c' = ["s3://t/s2"] ∧ delete_paths c' = [].
Proof.
  assert (wf_speedboat demo_checkpoint) as Hwf.
  { split; [reflexivity..|]. repeat constructor. }
  pose proof (apply_compactions_exact demo_checkpoint ["9"] {["9" := demo_compaction]} Hwf) as H.
  destruct H as (c' & H1 & _ & H2 & H3 & _).
  exists c'. exact (conj H1 (conj H2 H3)).
Defined.

Definition demo_extension : ExtensionCommit :=
  mkExtensionCommit "1" "es" {["s3://t/p1" := [mkExtensionFile "idx" "s3://x"]; "s3://gone" := []]}.

Definition demo_applied : outcome (TableMetadataCheckpoint * bool) :=
  @clone_and_apply FileSetTheory.demo_env demo_checkpoint [] [] [demo_extension] ∅ 0.

Lemma clone_and_apply_coverage_current_witness :
  ∃ c', demo_applied = Ok (c', true) ∧ coverage_current c'.
Proof.
  eexists. split; [vm_compute; reflexivity|].
  eapply (@clone_and_apply_coverage_current FileSetTheory.demo_env demo_checkpoint [] [] [demo_extension] ∅ 0).
  vm_compute. reflexivity.
Defined.
End CheckpointTheory.
