(* ===== verification/Coordination.v ===== *)
(** * The metadata-store interface and read-only coordination
    (service_lib/src/metadata_store.rs, read_only_coordination.rs)

    [MetadataStore] is the trait every metadata backend implements; its default
    methods and the blanket [ReadOnlyCoordinationStore] implementation are written
    against the class, and so are the theorems about the phase a reader is told.
    EphemeralService.v supplies the instance. *)

From S2P Require Import Prelude Json Schema FileSet Contract Checkpoint.

(** ** Checkpoint selectors and cutover records *)

(** SRC service_lib/src/metadata_store.rs:9-13 PublishedCheckpointRole *)
Inductive PublishedCheckpointRole : Type := Active | Target.
#[global] Instance role_eq_dec : EqDecision PublishedCheckpointRole.
Proof. solve_decision. Defined.

(** SRC service_lib/src/metadata_store.rs:15-20 PublishedCheckpointSelector *)
Record PublishedCheckpointSelector : Type := mkSelector {
  sel_table_name : string;
  sel_extension : option string;
  sel_role : PublishedCheckpointRole;
}.

(** SRC service_lib/src/metadata_store.rs:27-33 PublishedCheckpointSelector::active *)
Definition active (table_name : string) (extension : option string) : PublishedCheckpointSelector :=
  mkSelector table_name extension Active.

(** SRC service_lib/src/metadata_store.rs:35-41 PublishedCheckpointSelector::target *)
Definition target (table_name : string) (extension : option string) : PublishedCheckpointSelector :=
  mkSelector table_name extension Target.

(** SRC service_lib/src/metadata_store.rs:44-48 PublishedCheckpointRecord *)
Record PublishedCheckpointRecord : Type := mkRecord {
  pcr_selector : PublishedCheckpointSelector;
  pcr_checkpoint_id : string;
}.

(** SRC service_lib/src/metadata_store.rs:50-62 CutoverEpoch *)
Definition CutoverEpoch : Type := Z.

(** SRC service_lib/src/metadata_store.rs:64-70 CheckpointCutoverState *)
Record CheckpointCutoverState : Type := mkCutoverState {
  cos_selector : PublishedCheckpointSelector;
  cos_epoch : CutoverEpoch;
  cos_active_checkpoint_id : option string;
  cos_target_checkpoint_id : option string;
}.

(** SRC service_lib/src/metadata_store.rs:72-77 ServingNodeLease *)
Record ServingNodeLease : Type := mkLease {
  snl_node_id : string;
  snl_membership_epoch : CutoverEpoch;
  snl_observed_at_ms : Z;
}.

(** SRC service_lib/src/metadata_store.rs:79-86 ServingNodeActivationAck *)
Record ServingNodeActivationAck : Type := mkActivationAck {
  sna_selector : PublishedCheckpointSelector;
  sna_node_id : string;
  sna_epoch : CutoverEpoch;
  sna_checkpoint_id : string;
  sna_activated_at_ms : Z;
}.

(** SRC service_lib/src/metadata_store.rs:88-94 CutoverMembershipView *)
Record CutoverMembershipView : Type := mkView {
  cmv_selector : PublishedCheckpointSelector;
  cmv_epoch : CutoverEpoch;
  cmv_target_checkpoint_id : string;
  cmv_required_node_ids : list string;
}.

(** SRC service_lib/src/metadata_store.rs:96-100 CheckpointCutoverRequest *)
Record CheckpointCutoverRequest : Type := mkCutoverRequest {
  ccr_selector : PublishedCheckpointSelector;
  ccr_target_checkpoint_id : string;
}.

(** SRC service_lib/src/metadata_store.rs:103-112 CheckpointCutoverRequest::new *)
Definition new_cutover_request (table_name : string) (extension : option string) (target_checkpoint_id : string) : CheckpointCutoverRequest :=
  mkCutoverRequest (target table_name extension) target_checkpoint_id.

(** SRC service_lib/src/metadata_store.rs:115-118 CheckpointUpdateRequest *)
Record CheckpointUpdateRequest : Type := mkUpdateRequest { cur_table_name : string }.

(** SRC service_lib/src/metadata_store.rs:126-130 MetadataClaimKind *)
Inductive MetadataClaimKind : Type := Leased | ProcessLocal.

(** SRC service_lib/src/metadata_store.rs:132-136 ClaimedExtensionWorkItem *)
Record ClaimedExtensionWorkItem : Type := mkClaimedExtension {
  cew_claim : MetadataClaimKind;
  cew_work_item : ExtensionWorkItem;
}.

(** SRC service_lib/src/metadata_store.rs:138-143 ClaimedCompactionWorkItem *)
Record ClaimedCompactionWorkItem : Type := mkClaimedCompaction {
  ccw_claim : MetadataClaimKind;
  ccw_table_name : string;
  ccw_work_item : CompactionWorkItem;
}.

(** SRC service_lib/src/metadata_store.rs:145-149 ClaimedCleanupWorkItem *)
Record ClaimedCleanupWorkItem : Type := mkClaimedCleanup {
  clw_claim : MetadataClaimKind;
  clw_work_item : CleanupWorkItem;
}.

(** ** Artifact readiness *)

(** SRC service_lib/src/read_only_coordination.rs:9-15 ReadOnlyTargetPhase *)
Inductive ReadOnlyTargetPhase : Type := AwaitingReadiness | AwaitingActivation | PhaseActive.
#[global] Instance phase_eq_dec : EqDecision ReadOnlyTargetPhase.
Proof. solve_decision. Defined.

(** SRC service_lib/src/read_only_coordination.rs:17-25 ArtifactClass *)
Inductive ArtifactClass : Type :=
| SnapshotLookupMmap
| SnapshotExactLookupMmap
| SearchProjection
| StatsManifest
| Custom (s : string).
#[global] Instance artifact_class_eq_dec : EqDecision ArtifactClass.
Proof. solve_decision. Defined.
#[global] Instance artifact_class_countable : Countable ArtifactClass.
Proof.
  refine (inj_countable'
    (λ c, match c with
          | SnapshotLookupMmap => inl 0 | SnapshotExactLookupMmap => inl 1
          | SearchProjection => inl 2 | StatsManifest => inl 3 | Custom s => inr s
          end)
    (λ c, match c with
          | inl 0 => SnapshotLookupMmap | inl 1 => SnapshotExactLookupMmap
          | inl 2 => SearchProjection | inl _ => StatsManifest | inr s => Custom s
          end) _).
  by intros [].
Defined.

(** SRC service_lib/src/read_only_coordination.rs:27-35 ArtifactReadinessAck *)
Record ArtifactReadinessAck : Type := mkReadinessAck {
  ara_selector : PublishedCheckpointSelector;
  ara_checkpoint_id : string;
  ara_epoch : CutoverEpoch;
  ara_artifact_class : ArtifactClass;
  ara_producer_id : string;
  ara_ready_at_ms : Z;
}.

(** SRC service_lib/src/read_only_coordination.rs:37-45 ReadOnlyCheckpointCoordinationState *)
Record ReadOnlyCheckpointCoordinationState : Type := mkCoordinationState {
  rcs_selector : PublishedCheckpointSelector;
  rcs_epoch : CutoverEpoch;
  rcs_active_checkpoint_id : option string;
  rcs_target_checkpoint_id : option string;
  rcs_phase : ReadOnlyTargetPhase;
  rcs_readiness_acks : list ArtifactReadinessAck;
}.

(** SRC service_lib/src/read_only_coordination.rs:47-56 required_artifact_classes *)
Definition required_artifact_classes (extension : option string) : list ArtifactClass :=
  match extension with
  | None => [SnapshotLookupMmap; SnapshotExactLookupMmap]
  | Some e => if decide (e = "es") then [SearchProjection] else [Custom e]
  end.

(** SRC service_lib/src/read_only_coordination.rs:58-81 readiness_satisfies_target *)
Definition readiness_satisfies_target (acks : list ArtifactReadinessAck) (target_checkpoint_id : option string) (extension : option string) : bool :=
  match target_checkpoint_id with
  | None => false
  | Some target =>
      let required := required_artifact_classes extension in
      match required with
      | [] => true
      | _ =>
          let ready : gset ArtifactClass :=
            list_to_set (ara_artifact_class <$> filter (λ ack, ara_checkpoint_id ack = target) acks) in
          forallb (λ c, bool_decide (c ∈ ready)) required
      end
  end.

(** ** The trait *)

(** SRC service_lib/src/metadata_store.rs:149-182= MetadataStore *)
Class MetadataStore (Store : Type) : Type := {
  queue_checkpoint_publication : CheckpointUpdateRequest → ST Store ();
  get_published_checkpoint_record : PublishedCheckpointSelector → ST Store (option PublishedCheckpointRecord);
  get_checkpoint_metadata : CheckpointDescriptor → ST Store (option TableMetadataCheckpoint);
  claim_extension_work_items : string → ST Store (list ClaimedExtensionWorkItem);
  claim_compaction_work_items : ST Store (list ClaimedCompactionWorkItem);
  claim_cleanup_work_items : ST Store (list ClaimedCleanupWorkItem);
  advance_published_checkpoints : ST Store bool;
  plan_checkpoint_cutover : CheckpointCutoverRequest → ST Store ();
  store_cutover_state : string → option string → ST Store CheckpointCutoverState;
  heartbeat_serving_node : ServingNodeLease → ST Store ();
  record_serving_node_activation : ServingNodeActivationAck → ST Store ();
  list_serving_node_activations : string → option string → ST Store (list ServingNodeActivationAck);
  record_artifact_readiness : ArtifactReadinessAck → ST Store ();
  list_artifact_readiness : string → option string → ST Store (list ArtifactReadinessAck);
  get_latest_committed_checkpoint : string → option string → ST Store (option string);
}.

Section store.
Context {Store : Type} `{MetadataStore Store}.

(** SRC service_lib/src/metadata_store.rs:257-267 MetadataStore::get_published_active_checkpoint *)
Definition get_published_active_checkpoint (table_name : string) (extension : option string) : ST Store (option string) :=
  record ← get_published_checkpoint_record (active table_name extension);
  mret (pcr_checkpoint_id <$> record).

(** SRC service_lib/src/metadata_store.rs:281-293 MetadataStore::get_latest_target_checkpoint *)
Definition get_latest_target_checkpoint (table_name : string) (extension : option string) : ST Store (option string) :=
  record ← get_published_checkpoint_record (target table_name extension);
  match record with
  | Some record => mret (Some (pcr_checkpoint_id record))
  | None => get_latest_committed_checkpoint table_name extension
  end.

(** The body a backend inherits when it does not override the method. *)
(** SRC service_lib/src/metadata_store.rs:193-218 MetadataStore::get_checkpoint_cutover_state *)
Definition default_cutover_state (table_name : string) (extension : option string) : ST Store CheckpointCutoverState :=
  active_record ← get_published_checkpoint_record (active table_name extension);
  let active_checkpoint_id := pcr_checkpoint_id <$> active_record in
  target_checkpoint_id ← get_latest_target_checkpoint table_name extension;
  mret (mkCutoverState (target table_name extension) 0%Z active_checkpoint_id
    (match target_checkpoint_id with Some t => Some t | None => active_checkpoint_id end)).

(** The blanket implementation's cutover state: the store's own, with the target
    replaced by the latest committed checkpoint. *)
(** SRC service_lib/src/read_only_coordination.rs:191-206= ReadOnlyCoordinationStore::get_checkpoint_cutover_state *)
Definition get_checkpoint_cutover_state (table_name : string) (extension : option string) : ST Store CheckpointCutoverState :=
  cutover ← store_cutover_state table_name extension;
  committed ← get_latest_committed_checkpoint table_name (sel_extension (cos_selector cutover));
  mret (mkCutoverState (cos_selector cutover) (cos_epoch cutover)
          (cos_active_checkpoint_id cutover) committed).

(** The phase reported for a cutover state and the readiness acks on file. *)
Definition target_phase (cutover : CheckpointCutoverState) (acks : list ArtifactReadinessAck) : ReadOnlyTargetPhase :=
  if decide (is_Some (cos_active_checkpoint_id cutover) ∧
             cos_active_checkpoint_id cutover = cos_target_checkpoint_id cutover)
  then PhaseActive
  else if readiness_satisfies_target acks (cos_target_checkpoint_id cutover)
            (sel_extension (cos_selector cutover))
  then AwaitingActivation
  else AwaitingReadiness.

(** SRC service_lib/src/read_only_coordination.rs:134-164 ReadOnlyCoordinationStore::get_read_only_coordination_state *)
Definition get_read_only_coordination_state (table_name : string) (extension : option string) : ST Store ReadOnlyCheckpointCoordinationState :=
  cutover ← get_checkpoint_cutover_state table_name extension;
  acks ← list_artifact_readiness table_name extension;
  mret (mkCoordinationState (cos_selector cutover) (cos_epoch cutover)
          (cos_active_checkpoint_id cutover) (cos_target_checkpoint_id cutover)
          (target_phase cutover acks) acks).
End store.
