(* ===== verification/ServiceState.v ===== *)
(** * The metadata service's state (service_lib/src/ephemeral_service_impl.rs)

    The fields of [EphemeralServiceImpl] and of its snapshot, the string keys the
    maps are indexed by, and the read-only helpers.  Maps are [gmap]s; where the
    code walks one, it walks [hash_iter].  A [World] is the service together with
    how many ids it has drawn and how often it has read the clock. *)

From S2P Require Import Prelude Json Schema FileSet Contract Checkpoint Coordination.

(** SRC service_lib/src/ephemeral_service_impl.rs:48-53 ExtensionWorkItemTracker *)
Record ExtensionWorkItemTracker : Type := mkExtensionTracker {
  et_work_item : ExtensionWorkItem;
  et_lease_expires_at_ms : option Z;
}.

(** SRC service_lib/src/ephemeral_service_impl.rs:55-60 CompactionWorkItemTracker *)
Record CompactionWorkItemTracker : Type := mkCompactionTracker {
  ct_work_item : CompactionWorkItem;
  ct_lease_expires_at_ms : option Z;
}.

(** SRC service_lib/src/ephemeral_service_impl.rs:62-67 CleanupWorkItemTracker *)
Record CleanupWorkItemTracker : Type := mkCleanupTracker {
  clt_work_item : CleanupWorkItem;
  clt_lease_expires_at_ms : option Z;
}.

(** SRC service_lib/src/ephemeral_service_impl.rs:69-92 EphemeralServiceSnapshot *)
Record EphemeralServiceSnapshot : Type := mkSnapshot {
  sn_tables : gmap string TableDescription;
  sn_table_aliases : gmap string string;
  sn_table_templates : gmap string CreateIndexTemplateBody;
  sn_pipelines : gmap string PipelineDefinition;
  sn_lifetime_policies : gmap string ILMPolicyDefinition;
  sn_latest_committed_checkpoint_id : gmap string (gmap string string);
  sn_published_checkpoint_id : gmap string string;
  sn_checkpoint_publication_requests : gmap string CheckpointUpdateRequest;
  sn_checkpoint_cutover_epochs : gmap string CutoverEpoch;
  sn_cutover_membership_views : gmap string CutoverMembershipView;
  sn_serving_node_leases : gmap string ServingNodeLease;
  sn_serving_node_activations : gmap string (gmap string ServingNodeActivationAck);
  sn_artifact_readiness_acks : gmap string (gmap ArtifactClass ArtifactReadinessAck);
  sn_compaction_work_items : gmap string CompactionWorkItemTracker;
  sn_not_compacted_checkpoint_ids : gmap string (list string);
  sn_extension_work_items : gmap string (gmap string ExtensionWorkItemTracker);
  sn_cleanup_work_items : list CleanupWorkItemTracker;
  sn_compactions : gmap string (string * CompactionCommit);
  sn_checkpoints : gmap string TableMetadataCheckpoint;
  sn_checkpoints_needing_extension_work : gmap string (list string);
  sn_recent_file_extension_metadata : gmap string (list ExtensionFile);
}.

(** SRC service_lib/src/ephemeral_service_impl.rs:94-118 EphemeralServiceImpl *)
Record EphemeralServiceImpl : Type := mkService {
  mode : TestProcessingMode;
  tables : gmap string TableDescription;
  table_aliases : gmap string string;
  table_templates : gmap string CreateIndexTemplateBody;
  pipelines : gmap string PipelineDefinition;
  lifetime_policies : gmap string ILMPolicyDefinition;
  latest_committed_checkpoint_id : gmap (option string) (gmap string string);
  published_checkpoint_id : gmap string string;
  checkpoint_publication_requests : gmap string CheckpointUpdateRequest;
  checkpoint_cutover_epochs : gmap string CutoverEpoch;
  cutover_membership_views : gmap string CutoverMembershipView;
  serving_node_leases : gmap string ServingNodeLease;
  serving_node_activations : gmap string (gmap string ServingNodeActivationAck);
  artifact_readiness_acks : gmap string (gmap ArtifactClass ArtifactReadinessAck);
  compaction_work_items : gmap string CompactionWorkItemTracker;
  not_compacted_checkpoint_ids : gmap string (list string);
  extension_work_items : gmap string (gmap string ExtensionWorkItemTracker);
  cleanup_work_items : list CleanupWorkItemTracker;
  compactions : gmap string (string * CompactionCommit);
  checkpoints : gmap string TableMetadataCheckpoint;
  checkpoints_needing_extension_work : gmap string (list string);
  recent_file_extension_metadata : gmap string (list ExtensionFile);
}.

(** Assignments to single fields. *)
Definition set_tables (v : gmap string TableDescription) (s : EphemeralServiceImpl) : EphemeralServiceImpl :=
  mkService (mode s) v (table_aliases s) (table_templates s) (pipelines s) (lifetime_policies s)
    (latest_committed_checkpoint_id s) (published_checkpoint_id s) (checkpoint_publication_requests
    s) (checkpoint_cutover_epochs s) (cutover_membership_views s) (serving_node_leases s)
    (serving_node_activations s) (artifact_readiness_acks s) (compaction_work_items s)
    (not_compacted_checkpoint_ids s) (extension_work_items s) (cleanup_work_items s) (compactions s)
    (checkpoints s) (checkpoints_needing_extension_work s) (recent_file_extension_metadata s).
Definition set_table_aliases (v : gmap string string) (s : EphemeralServiceImpl) : EphemeralServiceImpl :=
  mkService (mode s) (tables s) v (table_templates s) (pipelines s) (lifetime_policies s)
    (latest_committed_checkpoint_id s) (published_checkpoint_id s) (checkpoint_publication_requests
    s) (checkpoint_cutover_epochs s) (cutover_membership_views s) (serving_node_leases s)
    (serving_node_activations s) (artifact_readiness_acks s) (compaction_work_items s)
    (not_compacted_checkpoint_ids s) (extension_work_items s) (cleanup_work_items s) (compactions s)
    (checkpoints s) (checkpoints_needing_extension_work s) (recent_file_extension_metadata s).
Definition set_table_templates (v : gmap string CreateIndexTemplateBody) (s : EphemeralServiceImpl) : EphemeralServiceImpl :=
  mkService (mode s) (tables s) (table_aliases s) v (pipelines s) (lifetime_policies s)
    (latest_committed_checkpoint_id s) (published_checkpoint_id s) (checkpoint_publication_requests
    s) (checkpoint_cutover_epochs s) (cutover_membership_views s) (serving_node_leases s)
    (serving_node_activations s) (artifact_readiness_acks s) (compaction_work_items s)
    (not_compacted_checkpoint_ids s) (extension_work_items s) (cleanup_work_items s) (compactions s)
    (checkpoints s) (checkpoints_needing_extension_work s) (recent_file_extension_metadata s).
Definition set_pipelines (v : gmap string PipelineDefinition) (s : EphemeralServiceImpl) : EphemeralServiceImpl :=
  mkService (mode s) (tables s) (table_aliases s) (table_templates s) v (lifetime_policies s)
    (latest_committed_checkpoint_id s) (published_checkpoint_id s) (checkpoint_publication_requests
    s) (checkpoint_cutover_epochs s) (cutover_membership_views s) (serving_node_leases s)
    (serving_node_activations s) (artifact_readiness_acks s) (compaction_work_items s)
    (not_compacted_checkpoint_ids s) (extension_work_items s) (cleanup_work_items s) (compactions s)
    (checkpoints s) (checkpoints_needing_extension_work s) (recent_file_extension_metadata s).
Definition set_lifetime_policies (v : gmap string ILMPolicyDefinition) (s : EphemeralServiceImpl) : EphemeralServiceImpl :=
  mkService (mode s) (tables s) (table_aliases s) (table_templates s) (pipelines s) v
    (latest_committed_checkpoint_id s) (published_checkpoint_id s) (checkpoint_publication_requests
    s) (checkpoint_cutover_epochs s) (cutover_membership_views s) (serving_node_leases s)
    (serving_node_activations s) (artifact_readiness_acks s) (compaction_work_items s)
    (not_compacted_checkpoint_ids s) (extension_work_items s) (cleanup_work_items s) (compactions s)
    (checkpoints s) (checkpoints_needing_extension_work s) (recent_file_extension_metadata s).
Definition set_latest_committed_checkpoint_id (v : gmap (option string) (gmap string string)) (s : EphemeralServiceImpl) : EphemeralServiceImpl :=
  mkService (mode s) (tables s) (table_aliases s) (table_templates s) (pipelines s)
    (lifetime_policies s) v (published_checkpoint_id s) (checkpoint_publication_requests s)
    (checkpoint_cutover_epochs s) (cutover_membership_views s) (serving_node_leases s)
    (serving_node_activations s) (artifact_readiness_acks s) (compaction_work_items s)
    (not_compacted_checkpoint_ids s) (extension_work_items s) (cleanup_work_items s) (compactions s)
    (checkpoints s) (checkpoints_needing_extension_work s) (recent_file_extension_metadata s).
Definition set_published_checkpoint_id (v : gmap string string) (s : EphemeralServiceImpl) : EphemeralServiceImpl :=
  mkService (mode s) (tables s) (table_aliases s) (table_templates s) (pipelines s)
    (lifetime_policies s) (latest_committed_checkpoint_id s) v (checkpoint_publication_requests s)
    (checkpoint_cutover_epochs s) (cutover_membership_views s) (serving_node_leases s)
    (serving_node_activations s) (artifact_readiness_acks s) (compaction_work_items s)
    (not_compacted_checkpoint_ids s) (extension_work_items s) (cleanup_work_items s) (compactions s)
    (checkpoints s) (checkpoints_needing_extension_work s) (recent_file_extension_metadata s).
Definition set_checkpoint_publication_requests (v : gmap string CheckpointUpdateRequest) (s : EphemeralServiceImpl) : EphemeralServiceImpl :=
  mkService (mode s) (tables s) (table_aliases s) (table_templates s) (pipelines s)
    (lifetime_policies s) (latest_committed_checkpoint_id s) (published_checkpoint_id s) v
    (checkpoint_cutover_epochs s) (cutover_membership_views s) (serving_node_leases s)
    (serving_node_activations s) (artifact_readiness_acks s) (compaction_work_items s)
    (not_compacted_checkpoint_ids s) (extension_work_items s) (cleanup_work_items s) (compactions s)
    (checkpoints s) (checkpoints_needing_extension_work s) (recent_file_extension_metadata s).
Definition set_checkpoint_cutover_epochs (v : gmap string CutoverEpoch) (s : EphemeralServiceImpl) : EphemeralServiceImpl :=
  mkService (mode s) (tables s) (table_aliases s) (table_templates s) (pipelines s)
    (lifetime_policies s) (latest_committed_checkpoint_id s) (published_checkpoint_id s)
    (checkpoint_publication_requests s) v (cutover_membership_views s) (serving_node_leases s)
    (serving_node_activations s) (artifact_readiness_acks s) (compaction_work_items s)
    (not_compacted_checkpoint_ids s) (extension_work_items s) (cleanup_work_items s) (compactions s)
    (checkpoints s) (checkpoints_needing_extension_work s) (recent_file_extension_metadata s).
Definition set_cutover_membership_views (v : gmap string CutoverMembershipView) (s : EphemeralServiceImpl) : EphemeralServiceImpl :=
  mkService (mode s) (tables s) (table_aliases s) (table_templates s) (pipelines s)
    (lifetime_policies s) (latest_committed_checkpoint_id s) (published_checkpoint_id s)
    (checkpoint_publication_requests s) (checkpoint_cutover_epochs s) v (serving_node_leases s)
    (serving_node_activations s) (artifact_readiness_acks s) (compaction_work_items s)
    (not_compacted_checkpoint_ids s) (extension_work_items s) (cleanup_work_items s) (compactions s)
    (checkpoints s) (checkpoints_needing_extension_work s) (recent_file_extension_metadata s).
Definition set_serving_node_leases (v : gmap string ServingNodeLease) (s : EphemeralServiceImpl) : EphemeralServiceImpl :=
  mkService (mode s) (tables s) (table_aliases s) (table_templates s) (pipelines s)
    (lifetime_policies s) (latest_committed_checkpoint_id s) (published_checkpoint_id s)
    (checkpoint_publication_requests s) (checkpoint_cutover_epochs s) (cutover_membership_views s) v
    (serving_node_activations s) (artifact_readiness_acks s) (compaction_work_items s)
    (not_compacted_checkpoint_ids s) (extension_work_items s) (cleanup_work_items s) (compactions s)
    (checkpoints s) (checkpoints_needing_extension_work s) (recent_file_extension_metadata s).
Definition set_serving_node_activations (v : gmap string (gmap string ServingNodeActivationAck)) (s : EphemeralServiceImpl) : EphemeralServiceImpl :=
  mkService (mode s) (tables s) (table_aliases s) (table_templates s) (pipelines s)
    (lifetime_policies s) (latest_committed_checkpoint_id s) (published_checkpoint_id s)
    (checkpoint_publication_requests s) (checkpoint_cutover_epochs s) (cutover_membership_views s)
    (serving_node_leases s) v (artifact_readiness_acks s) (compaction_work_items s)
    (not_compacted_checkpoint_ids s) (extension_work_items s) (cleanup_work_items s) (compactions s)
    (checkpoints s) (checkpoints_needing_extension_work s) (recent_file_extension_metadata s).
Definition set_artifact_readiness_acks (v : gmap string (gmap ArtifactClass ArtifactReadinessAck)) (s : EphemeralServiceImpl) : EphemeralServiceImpl :=
  mkService (mode s) (tables s) (table_aliases s) (table_templates s) (pipelines s)
    (lifetime_policies s) (latest_committed_checkpoint_id s) (published_checkpoint_id s)
    (checkpoint_publication_requests s) (checkpoint_cutover_epochs s) (cutover_membership_views s)
    (serving_node_leases s) (serving_node_activations s) v (compaction_work_items s)
    (not_compacted_checkpoint_ids s) (extension_work_items s) (cleanup_work_items s) (compactions s)
    (checkpoints s) (checkpoints_needing_extension_work s) (recent_file_extension_metadata s).
Definition set_compaction_work_items (v : gmap string CompactionWorkItemTracker) (s : EphemeralServiceImpl) : EphemeralServiceImpl :=
  mkService (mode s) (tables s) (table_aliases s) (table_templates s) (pipelines s)
    (lifetime_policies s) (latest_committed_checkpoint_id s) (published_checkpoint_id s)
    (checkpoint_publication_requests s) (checkpoint_cutover_epochs s) (cutover_membership_views s)
    (serving_node_leases s) (serving_node_activations s) (artifact_readiness_acks s) v
    (not_compacted_checkpoint_ids s) (extension_work_items s) (cleanup_work_items s) (compactions s)
    (checkpoints s) (checkpoints_needing_extension_work s) (recent_file_extension_metadata s).
Definition set_not_compacted_checkpoint_ids (v : gmap string (list string)) (s : EphemeralServiceImpl) : EphemeralServiceImpl :=
  mkService (mode s) (tables s) (table_aliases s) (table_templates s) (pipelines s)
    (lifetime_policies s) (latest_committed_checkpoint_id s) (published_checkpoint_id s)
    (checkpoint_publication_requests s) (checkpoint_cutover_epochs s) (cutover_membership_views s)
    (serving_node_leases s) (serving_node_activations s) (artifact_readiness_acks s)
    (compaction_work_items s) v (extension_work_items s) (cleanup_work_items s) (compactions s)
    (checkpoints s) (checkpoints_needing_extension_work s) (recent_file_extension_metadata s).
Definition set_extension_work_items (v : gmap string (gmap string ExtensionWorkItemTracker)) (s : EphemeralServiceImpl) : EphemeralServiceImpl :=
  mkService (mode s) (tables s) (table_aliases s) (table_templates s) (pipelines s)
    (lifetime_policies s) (latest_committed_checkpoint_id s) (published_checkpoint_id s)
    (checkpoint_publication_requests s) (checkpoint_cutover_epochs s) (cutover_membership_views s)
    (serving_node_leases s) (serving_node_activations s) (artifact_readiness_acks s)
    (compaction_work_items s) (not_compacted_checkpoint_ids s) v (cleanup_work_items s) (compactions
    s) (checkpoints s) (checkpoints_needing_extension_work s) (recent_file_extension_metadata s).
Definition set_cleanup_work_items (v : list CleanupWorkItemTracker) (s : EphemeralServiceImpl) : EphemeralServiceImpl :=
  mkService (mode s) (tables s) (table_aliases s) (table_templates s) (pipelines s)
    (lifetime_policies s) (latest_committed_checkpoint_id s) (published_checkpoint_id s)
    (checkpoint_publication_requests s) (checkpoint_cutover_epochs s) (cutover_membership_views s)
    (serving_node_leases s) (serving_node_activations s) (artifact_readiness_acks s)
    (compaction_work_items s) (not_compacted_checkpoint_ids s) (extension_work_items s) v
    (compactions s) (checkpoints s) (checkpoints_needing_extension_work s)
    (recent_file_extension_metadata s).
Definition set_compactions (v : gmap string (string * CompactionCommit)) (s : EphemeralServiceImpl) : EphemeralServiceImpl :=
  mkService (mode s) (tables s) (table_aliases s) (table_templates s) (pipelines s)
    (lifetime_policies s) (latest_committed_checkpoint_id s) (published_checkpoint_id s)
    (checkpoint_publication_requests s) (checkpoint_cutover_epochs s) (cutover_membership_views s)
    (serving_node_leases s) (serving_node_activations s) (artifact_readiness_acks s)
    (compaction_work_items s) (not_compacted_checkpoint_ids s) (extension_work_items s)
    (cleanup_work_items s) v (checkpoints s) (checkpoints_needing_extension_work s)
    (recent_file_extension_metadata s).
Definition set_checkpoints (v : gmap string TableMetadataCheckpoint) (s : EphemeralServiceImpl) : EphemeralServiceImpl :=
  mkService (mode s) (tables s) (table_aliases s) (table_templates s) (pipelines s)
    (lifetime_policies s) (latest_committed_checkpoint_id s) (published_checkpoint_id s)
    (checkpoint_publication_requests s) (checkpoint_cutover_epochs s) (cutover_membership_views s)
    (serving_node_leases s) (serving_node_activations s) (artifact_readiness_acks s)
    (compaction_work_items s) (not_compacted_checkpoint_ids s) (extension_work_items s)
    (cleanup_work_items s) (compactions s) v (checkpoints_needing_extension_work s)
    (recent_file_extension_metadata s).
Definition set_checkpoints_needing_extension_work (v : gmap string (list string)) (s : EphemeralServiceImpl) : EphemeralServiceImpl :=
  mkService (mode s) (tables s) (table_aliases s) (table_templates s) (pipelines s)
    (lifetime_policies s) (latest_committed_checkpoint_id s) (published_checkpoint_id s)
    (checkpoint_publication_requests s) (checkpoint_cutover_epochs s) (cutover_membership_views s)
    (serving_node_leases s) (serving_node_activations s) (artifact_readiness_acks s)
    (compaction_work_items s) (not_compacted_checkpoint_ids s) (extension_work_items s)
    (cleanup_work_items s) (compactions s) (checkpoints s) v (recent_file_extension_metadata s).
Definition set_recent_file_extension_metadata (v : gmap string (list ExtensionFile)) (s : EphemeralServiceImpl) : EphemeralServiceImpl :=
  mkService (mode s) (tables s) (table_aliases s) (table_templates s) (pipelines s)
    (lifetime_policies s) (latest_committed_checkpoint_id s) (published_checkpoint_id s)
    (checkpoint_publication_requests s) (checkpoint_cutover_epochs s) (cutover_membership_views s)
    (serving_node_leases s) (serving_node_activations s) (artifact_readiness_acks s)
    (compaction_work_items s) (not_compacted_checkpoint_ids s) (extension_work_items s)
    (cleanup_work_items s) (compactions s) (checkpoints s) (checkpoints_needing_extension_work s) v.

(** SRC service_lib/src/ephemeral_service_impl.rs:32-32= LEASE_LENGTH_MS *)
Definition LEASE_LENGTH_MS : Z := 60 * 1000.
(** SRC service_lib/src/ephemeral_service_impl.rs:33-34= WORK_CLAIM_LEASE_LENGTH_MS *)
Definition WORK_CLAIM_LEASE_LENGTH_MS : Z := 60 * 1000.
(** SRC control_plane/src/data_contract.rs:1216-1216 DEFAULT_METADATA_NAMESPACE *)
Definition DEFAULT_METADATA_NAMESPACE : string := "__powdrr__".

(** ** Keys *)

(** SRC service_lib/src/ephemeral_service_impl.rs:184-189 EphemeralServiceImpl::role_key *)
Definition role_key (role : PublishedCheckpointRole) : string :=
  match role with Active => "active" | Target => "target" end.

(** SRC service_lib/src/ephemeral_service_impl.rs:191-193 EphemeralServiceImpl::extension_storage_key *)
Definition extension_storage_key (extension : option string) : string :=
  default "" extension.

(** SRC service_lib/src/ephemeral_service_impl.rs:195-201 EphemeralServiceImpl::extension_from_storage_key *)
Definition extension_from_storage_key (key : string) : option string :=
  if decide (key = "") then None else Some key.

(** SRC service_lib/src/ephemeral_service_impl.rs:203-214 EphemeralServiceImpl::selector_storage_key *)
Definition selector_storage_key (role : PublishedCheckpointRole) (table_name : string) (extension : option string) : string :=
  role_key role +:+ "|" +:+ extension_storage_key extension +:+ "|" +:+ table_name.

(** SRC service_lib/src/ephemeral_service_impl.rs:216-218 EphemeralServiceImpl::selector_group_key *)
Definition selector_group_key (table_name : string) (extension : option string) : string :=
  extension_storage_key extension +:+ "|" +:+ table_name.

(** SRC service_lib/src/ephemeral_service_impl.rs:220-222 EphemeralServiceImpl::checkpoint_publication_request_key *)
Definition checkpoint_publication_request_key (org_id table_name : string) : string :=
  org_id +:+ "|" +:+ table_name.

(** [format!("{}_{}", a, b)] and [format!("{}_{}_{}", a, b, c)]. *)
Definition key2 (a b : string) : string := a +:+ "_" +:+ b.
Definition key3 (a b c : string) : string := a +:+ "_" +:+ b +:+ "_" +:+ c.

Section order.
Context `{HashOrder}.

(** ** Snapshots *)

(** SRC service_lib/src/ephemeral_service_impl.rs:527-536 EphemeralServiceImpl::deserialize_latest_committed_checkpoint_id *)
Definition deserialize_latest_committed_checkpoint_id (serialized : gmap string (gmap string string)) : gmap (option string) (gmap string string) :=
  collect ((λ kv, (extension_from_storage_key kv.1, kv.2)) <$> hash_iter serialized).

(** SRC service_lib/src/ephemeral_service_impl.rs:538-545 EphemeralServiceImpl::serialize_latest_committed_checkpoint_id *)
Definition serialize_latest_committed_checkpoint_id (s : EphemeralServiceImpl) : gmap string (gmap string string) :=
  collect ((λ kv, (extension_storage_key kv.1, kv.2)) <$> hash_iter (latest_committed_checkpoint_id s)).

(** SRC service_lib/src/ephemeral_service_impl.rs:125-156 EphemeralServiceImpl::from_snapshot *)
Definition from_snapshot (processing_mode : TestProcessingMode) (snapshot : EphemeralServiceSnapshot) : EphemeralServiceImpl :=
  mkService
    processing_mode
    (sn_tables snapshot)
    (sn_table_aliases snapshot)
    (sn_table_templates snapshot)
    (sn_pipelines snapshot)
    (sn_lifetime_policies snapshot)
    (deserialize_latest_committed_checkpoint_id (sn_latest_committed_checkpoint_id snapshot))
    (sn_published_checkpoint_id snapshot)
    (sn_checkpoint_publication_requests snapshot)
    (sn_checkpoint_cutover_epochs snapshot)
    (sn_cutover_membership_views snapshot)
    (sn_serving_node_leases snapshot)
    (sn_serving_node_activations snapshot)
    (sn_artifact_readiness_acks snapshot)
    (sn_compaction_work_items snapshot)
    (sn_not_compacted_checkpoint_ids snapshot)
    (if decide (sn_extension_work_items snapshot = ∅) then {[ "es" := ∅ ]}
     else sn_extension_work_items snapshot)
    (sn_cleanup_work_items snapshot)
    (sn_compactions snapshot)
    (sn_checkpoints snapshot)
    (sn_checkpoints_needing_extension_work snapshot)
    (sn_recent_file_extension_metadata snapshot).

(** SRC service_lib/src/ephemeral_service_impl.rs:158-182 EphemeralServiceImpl::snapshot_state *)
Definition snapshot_state (s : EphemeralServiceImpl) : EphemeralServiceSnapshot :=
  mkSnapshot
    (tables s)
    (table_aliases s)
    (table_templates s)
    (pipelines s)
    (lifetime_policies s)
    (serialize_latest_committed_checkpoint_id s)
    (published_checkpoint_id s)
    (checkpoint_publication_requests s)
    (checkpoint_cutover_epochs s)
    (cutover_membership_views s)
    (serving_node_leases s)
    (serving_node_activations s)
    (artifact_readiness_acks s)
    (compaction_work_items s)
    (not_compacted_checkpoint_ids s)
    (extension_work_items s)
    (cleanup_work_items s)
    (compactions s)
    (checkpoints s)
    (checkpoints_needing_extension_work s)
    (recent_file_extension_metadata s).

Definition default_snapshot : EphemeralServiceSnapshot :=
  mkSnapshot ∅ ∅ ∅ ∅ ∅ ∅ ∅ ∅ ∅ ∅ ∅ ∅ ∅ ∅ ∅ ∅ [] ∅ ∅ ∅ ∅.

(** SRC service_lib/src/ephemeral_service_impl.rs:121-123 EphemeralServiceImpl::new *)
Definition new (processing_mode : TestProcessingMode) : EphemeralServiceImpl :=
  from_snapshot processing_mode default_snapshot.
End order.

(** ** Read-only helpers *)

(** The table an alias stands for, or the name itself. *)
Definition real_table_name (s : EphemeralServiceImpl) (table_name : string) : string :=
  default table_name (table_aliases s !! table_name).

(** SRC service_lib/src/ephemeral_service_impl.rs:516-525 EphemeralServiceImpl::get_latest_materialized_checkpoint_sync *)
Definition get_latest_materialized_checkpoint_sync (s : EphemeralServiceImpl) (table_name : string) (extensions : option string) : option string :=
  c ← latest_committed_checkpoint_id s !! extensions;
  c !! real_table_name s table_name.

(** SRC service_lib/src/ephemeral_service_impl.rs:269-276 EphemeralServiceImpl::get_cutover_membership_view *)
Definition get_cutover_membership_view (s : EphemeralServiceImpl) (table_name : string) (extension : option string) : option CutoverMembershipView :=
  cutover_membership_views s !! selector_group_key table_name extension.

(** SRC service_lib/src/ephemeral_service_impl.rs:413-422 EphemeralServiceImpl::get_published_checkpoint_sync *)
Definition get_published_checkpoint_sync (s : EphemeralServiceImpl) (role : PublishedCheckpointRole) (table_name : string) (extension : option string) : option string :=
  published_checkpoint_id s !! selector_storage_key role table_name extension.

(** SRC service_lib/src/ephemeral_service_impl.rs:437-452 EphemeralServiceImpl::published_checkpoint_needs_activation *)
Definition published_checkpoint_needs_activation (s : EphemeralServiceImpl) (table_name : string) (extension : option string) : bool :=
  match get_latest_materialized_checkpoint_sync s table_name extension with
  | Some target_checkpoint_id =>
      negb (bool_decide (get_published_checkpoint_sync s Active table_name extension = Some target_checkpoint_id))
  | None => false
  end.

(** SRC service_lib/src/ephemeral_service_impl.rs:454-465 EphemeralServiceImpl::checkpoint_publication_still_pending *)
Definition checkpoint_publication_still_pending (s : EphemeralServiceImpl) (table_name : string) : bool :=
  match extension_work_items s !! "es" ≫= (λ items, items !! table_name) with
  | Some item => has_work (et_work_item item)
  | None => false
  end
  || bool_decide (is_Some (checkpoints_needing_extension_work s !! key2 table_name "es"))
  || published_checkpoint_needs_activation s table_name None
  || published_checkpoint_needs_activation s table_name (Some "es").

(** SRC service_lib/src/ephemeral_service_impl.rs:467-492 EphemeralServiceImpl::checkpoint_references_any_cleanup_file *)
Definition checkpoint_references_any_cleanup_file (checkpoint : TableMetadataCheckpoint) (files_to_delete : gset string) : bool :=
  match cp_speedboat_metadata checkpoint with
  | Some metadata => existsb (λ p, bool_decide (p ∈ files_to_delete)) (file_paths (sm_files metadata))
  | None => false
  end
  || match cp_deletes_metadata checkpoint with
     | Some metadata => existsb (λ p, bool_decide (p ∈ files_to_delete)) (dm_files metadata)
     | None => false
     end.

(** SRC service_lib/src/ephemeral_service_impl.rs:1071-1078 EphemeralServiceImpl::get_checkpoint_sync *)
Definition get_checkpoint_sync (s : EphemeralServiceImpl) (table_name checkpoint_id : string) : option TableMetadataCheckpoint :=
  checkpoints s !! key2 table_name checkpoint_id.

(** SRC service_lib/src/ephemeral_service_impl.rs:494-514 EphemeralServiceImpl::cleanup_work_item_is_ready *)
Definition cleanup_work_item_is_ready (s : EphemeralServiceImpl) (work_item : CleanupWorkItem) : bool :=
  let files_to_delete : gset string := list_to_set (clw_files_to_delete work_item) in
  forallb (λ extension,
    match get_published_checkpoint_sync s Active (clw_table_name work_item) extension with
    | None => true
    | Some checkpoint_id =>
        match get_checkpoint_sync s (clw_table_name work_item) checkpoint_id with
        | None => true
        | Some checkpoint => negb (checkpoint_references_any_cleanup_file checkpoint files_to_delete)
        end
    end) [None; Some "es"].

(** SRC service_lib/src/ephemeral_service_impl.rs:546-554 EphemeralServiceImpl::checkpoints_needing_extension_work *)
Definition get_checkpoints_needing_extension_work (s : EphemeralServiceImpl) (table_name extension_name : string) : option (list string) :=
  checkpoints_needing_extension_work s !! key2 table_name extension_name.

(** SRC service_lib/src/ephemeral_service_impl.rs:556-565 EphemeralServiceImpl::recent_file_extension_metadata *)
Definition get_recent_file_extension_metadata (s : EphemeralServiceImpl) (table_name extension_name file_name : string) : option (list ExtensionFile) :=
  recent_file_extension_metadata s !! key3 table_name extension_name file_name.

(** SRC service_lib/src/ephemeral_service_impl.rs:1600-1621 EphemeralServiceImpl::readiness_matches_target *)
Definition readiness_matches_target (s : EphemeralServiceImpl) (table_name : string) (extension : option string) (target_checkpoint_id : string) : bool :=
  match artifact_readiness_acks s !! selector_group_key table_name extension with
  | None => false
  | Some readiness_acks =>
      forallb (λ artifact_class,
        match readiness_acks !! artifact_class with
        | Some ack => bool_decide (ara_checkpoint_id ack = target_checkpoint_id)
        | None => false
        end) (required_artifact_classes extension)
  end.

(** ** The world *)

Record World : Type := mkWorld {
  svc : EphemeralServiceImpl;
  ids_used : nat;
  clock_reads : nat;
}.

(** Apply an update of the service's fields. *)
Definition upd (f : EphemeralServiceImpl → EphemeralServiceImpl) (w : World) : World :=
  mkWorld (f (svc w)) (ids_used w) (clock_reads w).

Section effects.
Context `{Environment}.

(** The clock reading a call made in [w] returns; [tick] records that it was made. *)
(** SRC service_lib/src/ephemeral_service_impl.rs:224-229 EphemeralServiceImpl::current_timestamp_ms *)
Definition current_timestamp_ms (w : World) : Z :=
  let t := clock (clock_reads w) in
  if (t <? 0)%Z then 0%Z else wrap_i64 t.

Definition tick (w : World) : World := mkWorld (svc w) (ids_used w) (S (clock_reads w)).

(** SRC service_lib/src/ephemeral_service_impl.rs:231-233 EphemeralServiceImpl::claim_lease_expires_at_ms *)
Definition claim_lease_expires_at_ms (w : World) : Z * World :=
  (wrap_i64 (current_timestamp_ms w + WORK_CLAIM_LEASE_LENGTH_MS), tick w).

(** SRC service_lib/src/ephemeral_service_impl.rs:235-239 EphemeralServiceImpl::lease_is_available *)
Definition lease_is_available (lease_expires_at_ms : option Z) (w : World) : bool * World :=
  match lease_expires_at_ms with
  | Some expires_at_ms => ((expires_at_ms <=? current_timestamp_ms w)%Z, tick w)
  | None => (true, w)
  end.

(** [IdInstance::next_id().to_string()] *)
Definition draw_id (w : World) : string * World :=
  (next_id (ids_used w), mkWorld (svc w) (S (ids_used w)) (clock_reads w)).
End effects.
