(* ===== verification/Cutover.v ===== *)
(** * Checkpoint cutover (service_lib/src/ephemeral_service_impl.rs)

    How the metadata service moves readers from one checkpoint to the next: the
    required serving nodes are captured when a checkpoint becomes the target, the
    nodes acknowledge activation at the captured epoch, artifact producers report
    readiness, and the active pointer moves once both are complete.  The
    operations are functions on the [World]; none of them can fail. *)

From S2P Require Import Prelude Json Schema FileSet Contract Checkpoint Coordination ServiceState.

Section cutover.
Context `{Environment, HashOrder}.

(** ** Epochs, leases and membership views *)

(** SRC service_lib/src/ephemeral_service_impl.rs:241-257 EphemeralServiceImpl::bump_cutover_epoch *)
Definition bump_cutover_epoch (table_name : string) (extension : option string) (w : World) : CutoverEpoch * World :=
  let key := selector_group_key table_name extension in
  let epoch := wrap_u64 (default 0 (checkpoint_cutover_epochs (svc w) !! key) + 1)%Z in
  (epoch, upd (λ s, set_checkpoint_cutover_epochs (<[key := epoch]> (checkpoint_cutover_epochs s)) s) w).

(** SRC service_lib/src/ephemeral_service_impl.rs:259-262 EphemeralServiceImpl::clear_serving_node_activations *)
Definition clear_serving_node_activations (table_name : string) (extension : option string) : World → World :=
  upd (λ s, set_serving_node_activations
    (delete (selector_group_key table_name extension) (serving_node_activations s)) s).

(** SRC service_lib/src/ephemeral_service_impl.rs:264-267 EphemeralServiceImpl::clear_artifact_readiness *)
Definition clear_artifact_readiness (table_name : string) (extension : option string) : World → World :=
  upd (λ s, set_artifact_readiness_acks
    (delete (selector_group_key table_name extension) (artifact_readiness_acks s)) s).

(** SRC service_lib/src/ephemeral_service_impl.rs:278-298 EphemeralServiceImpl::store_cutover_membership_view *)
Definition store_cutover_membership_view (table_name : string) (extension : option string) (epoch : CutoverEpoch) (target_checkpoint_id : string) (required_node_ids : list string) : World → World :=
  upd (λ s, set_cutover_membership_views
    (<[selector_group_key table_name extension :=
        mkView (target table_name extension) epoch target_checkpoint_id required_node_ids]>
      (cutover_membership_views s)) s).

(** SRC service_lib/src/ephemeral_service_impl.rs:300-304 EphemeralServiceImpl::prune_expired_serving_node_leases *)
Definition prune_expired_serving_node_leases (w : World) : World :=
  let earliest_live_ms := wrap_i64 (current_timestamp_ms w - LEASE_LENGTH_MS) in
  upd (λ s, set_serving_node_leases
    (filter (λ kv, (earliest_live_ms ≤ snl_observed_at_ms kv.2)%Z) (serving_node_leases s)) s) (tick w).

(** SRC service_lib/src/ephemeral_service_impl.rs:306-309 EphemeralServiceImpl::live_serving_node_ids *)
Definition live_serving_node_ids (w : World) : gset string * World :=
  let w := prune_expired_serving_node_leases w in
  (dom (serving_node_leases (svc w)), w).

(** [into_iter().collect::<Vec<_>>()] followed by [sort()]. *)
Definition sorted_ids (ids : gset string) : list string := merge_sort String.le (elements ids).

(** SRC service_lib/src/ephemeral_service_impl.rs:311-350 EphemeralServiceImpl::maybe_reconfigure_cutover_membership_for_target *)
Definition maybe_reconfigure_cutover_membership_for_target (table_name : string) (extension : option string) (target_checkpoint_id : string) (w : World) : World :=
  match get_cutover_membership_view (svc w) table_name extension with
  | None => w
  | Some existing_view =>
      if decide (cmv_target_checkpoint_id existing_view ≠ target_checkpoint_id) then w else
      let '(live_node_ids, w) := live_serving_node_ids w in
      if decide (live_node_ids = ∅) then w else
      if forallb (λ node_id, bool_decide (node_id ∈ live_node_ids)) (cmv_required_node_ids existing_view) then w else
      let required_node_ids := sorted_ids live_node_ids in
      let '(epoch, w) := bump_cutover_epoch table_name extension w in
      let w := store_cutover_membership_view table_name extension epoch target_checkpoint_id required_node_ids w in
      clear_serving_node_activations table_name extension w
  end.

(** SRC service_lib/src/ephemeral_service_impl.rs:352-377 EphemeralServiceImpl::capture_cutover_membership_for_target *)
Definition capture_cutover_membership_for_target (table_name : string) (extension : option string) (target_checkpoint_id : string) (w : World) : World :=
  if decide (cmv_target_checkpoint_id <$> get_cutover_membership_view (svc w) table_name extension
             = Some target_checkpoint_id) then w else
  let '(live_node_ids, w) := live_serving_node_ids w in
  let required_node_ids := sorted_ids live_node_ids in
  let '(epoch, w) := bump_cutover_epoch table_name extension w in
  let w := store_cutover_membership_view table_name extension epoch target_checkpoint_id required_node_ids w in
  clear_serving_node_activations table_name extension w.

(** SRC service_lib/src/ephemeral_service_impl.rs:379-411 EphemeralServiceImpl::backfill_cutover_membership_for_target *)
Definition backfill_cutover_membership_for_target (table_name : string) (extension : option string) (target_checkpoint_id : string) (w : World) : World :=
  match get_cutover_membership_view (svc w) table_name extension with
  | None => w
  | Some existing_view =>
      if decide (cmv_target_checkpoint_id existing_view ≠ target_checkpoint_id ∨
                 cmv_required_node_ids existing_view ≠ []) then w else
      let '(live_node_ids, w) := live_serving_node_ids w in
      let required_node_ids := sorted_ids live_node_ids in
      if decide (required_node_ids = []) then w else
      store_cutover_membership_view table_name extension (cmv_epoch existing_view)
        target_checkpoint_id required_node_ids w
  end.

(** ** Targets, activation and promotion *)

(** SRC service_lib/src/ephemeral_service_impl.rs:424-435 EphemeralServiceImpl::set_published_checkpoint *)
Definition set_published_checkpoint (role : PublishedCheckpointRole) (table_name : string) (extension : option string) (checkpoint_id : string) : World → World :=
  upd (λ s, set_published_checkpoint_id
    (<[selector_storage_key role table_name extension := checkpoint_id]> (published_checkpoint_id s)) s).

(** SRC service_lib/src/ephemeral_service_impl.rs:1535-1541 EphemeralServiceImpl::queue_publication_request *)
Definition queue_publication_request (org_id table_name : string) : World → World :=
  upd (λ s, set_checkpoint_publication_requests
    (<[checkpoint_publication_request_key org_id table_name := mkUpdateRequest table_name]>
      (checkpoint_publication_requests s)) s).

(** SRC service_lib/src/ephemeral_service_impl.rs:1543-1562 EphemeralServiceImpl::advance_target_checkpoint *)
Definition advance_target_checkpoint (table_name : string) (extension : option string) (w : World) : bool * World :=
  match get_latest_materialized_checkpoint_sync (svc w) table_name extension with
  | None => (false, w)
  | Some checkpoint_id =>
      let previous_target := cmv_target_checkpoint_id <$> get_cutover_membership_view (svc w) table_name extension in
      let w := if decide (previous_target ≠ Some checkpoint_id)
               then clear_artifact_readiness table_name extension w else w in
      let w := capture_cutover_membership_for_target table_name extension checkpoint_id w in
      (bool_decide (previous_target ≠ Some checkpoint_id), w)
  end.

(** SRC service_lib/src/ephemeral_service_impl.rs:1564-1598 EphemeralServiceImpl::activation_matches_target *)
Definition activation_matches_target (table_name : string) (extension : option string) (target_checkpoint_id : string) (w : World) : bool * World :=
  let w := backfill_cutover_membership_for_target table_name extension target_checkpoint_id w in
  let w := maybe_reconfigure_cutover_membership_for_target table_name extension target_checkpoint_id w in
  match get_cutover_membership_view (svc w) table_name extension with
  | None => (false, w)
  | Some view =>
      if decide (cmv_target_checkpoint_id view ≠ target_checkpoint_id ∨ cmv_required_node_ids view = [])
      then (false, w) else
      match serving_node_activations (svc w) !! selector_group_key table_name extension with
      | None => (false, w)
      | Some acks =>
          (forallb (λ node_id,
             match acks !! node_id with
             | Some ack => bool_decide (sna_checkpoint_id ack = target_checkpoint_id ∧ sna_epoch ack = cmv_epoch view)
             | None => false
             end) (cmv_required_node_ids view), w)
      end
  end.

(** SRC service_lib/src/ephemeral_service_impl.rs:1623-1658 EphemeralServiceImpl::promote_active_checkpoint_if_ready *)
Definition promote_active_checkpoint_if_ready (table_name : string) (extension : option string) (w : World) : bool * World :=
  match get_latest_materialized_checkpoint_sync (svc w) table_name extension with
  | None => (false, w)
  | Some target_checkpoint_id =>
      if decide (get_published_checkpoint_sync (svc w) Active table_name extension = Some target_checkpoint_id)
      then (false, w) else
      if negb (readiness_matches_target (svc w) table_name extension target_checkpoint_id) then (false, w) else
      let '(activated, w) := activation_matches_target table_name extension target_checkpoint_id w in
      if negb activated then (false, w) else
      (true, set_published_checkpoint Active table_name extension target_checkpoint_id w)
  end.

(** The body of the loop of [update_all_checkpoints]. *)
Definition update_request (request : CheckpointUpdateRequest) (w : World) : bool * World :=
  let table_name := cur_table_name request in
  let '(b1, w) := advance_target_checkpoint table_name None w in
  let '(b2, w) := promote_active_checkpoint_if_ready table_name None w in
  let '(b3, w) := advance_target_checkpoint table_name (Some "es") w in
  let '(b4, w) := promote_active_checkpoint_if_ready table_name (Some "es") w in
  let w := if checkpoint_publication_still_pending (svc w) table_name then w
           else upd (λ s, set_checkpoint_publication_requests
                  (delete (checkpoint_publication_request_key DEFAULT_METADATA_NAMESPACE table_name)
                    (checkpoint_publication_requests s)) s) w in
  (b1 || b2 || b3 || b4, w).

Fixpoint update_requests (requests : list CheckpointUpdateRequest) (w : World) : bool * World :=
  match requests with
  | [] => (false, w)
  | request :: requests =>
      let '(b, w) := update_request request w in
      let '(b', w) := update_requests requests w in
      (b || b', w)
  end.

(** SRC service_lib/src/ephemeral_service_impl.rs:1660-1687 EphemeralServiceImpl::update_all_checkpoints *)
Definition update_all_checkpoints (w : World) : bool * World :=
  update_requests (hash_iter (checkpoint_publication_requests (svc w))).*2 w.

(** ** The trait's cutover methods *)

(** SRC service_lib/src/ephemeral_service_impl.rs:1723-1746 MetadataStore for EphemeralServiceImpl::plan_checkpoint_cutover *)
Definition plan_checkpoint_cutover_impl (request : CheckpointCutoverRequest) (w : World) : World :=
  let selector := ccr_selector request in
  if decide (get_published_checkpoint_sync (svc w) Target (sel_table_name selector) (sel_extension selector)
             = Some (ccr_target_checkpoint_id request)) then w else
  let w := set_published_checkpoint Target (sel_table_name selector) (sel_extension selector)
             (ccr_target_checkpoint_id request) w in
  capture_cutover_membership_for_target (sel_table_name selector) (sel_extension selector)
    (ccr_target_checkpoint_id request) w.

(** SRC service_lib/src/ephemeral_service_impl.rs:1748-1787 MetadataStore for EphemeralServiceImpl::get_checkpoint_cutover_state *)
Definition get_checkpoint_cutover_state_impl (table_name : string) (extension : option string) (w : World) : CheckpointCutoverState * World :=
  let target_checkpoint_id := get_latest_materialized_checkpoint_sync (svc w) table_name extension in
  let w := match target_checkpoint_id with
           | Some t =>
               let w := capture_cutover_membership_for_target table_name extension t w in
               backfill_cutover_membership_for_target table_name extension t w
           | None => w
           end in
  let key := selector_group_key table_name extension in
  let epoch :=
    match get_cutover_membership_view (svc w) table_name extension with
    | Some view =>
        if decide (Some (cmv_target_checkpoint_id view) = target_checkpoint_id) then cmv_epoch view
        else default 0%Z (checkpoint_cutover_epochs (svc w) !! key)
    | None => default 0%Z (checkpoint_cutover_epochs (svc w) !! key)
    end in
  (mkCutoverState (target table_name extension) epoch
     (get_published_checkpoint_sync (svc w) Active table_name extension) target_checkpoint_id, w).

(** SRC service_lib/src/ephemeral_service_impl.rs:1789-1797 MetadataStore for EphemeralServiceImpl::heartbeat_serving_node *)
Definition heartbeat_serving_node_impl (lease : ServingNodeLease) (w : World) : World :=
  let w := prune_expired_serving_node_leases w in
  upd (λ s, set_serving_node_leases (<[snl_node_id lease := lease]> (serving_node_leases s)) s) w.

(** SRC service_lib/src/ephemeral_service_impl.rs:1799-1809 MetadataStore for EphemeralServiceImpl::record_serving_node_activation *)
Definition record_serving_node_activation_impl (ack : ServingNodeActivationAck) : World → World :=
  let key := selector_group_key (sel_table_name (sna_selector ack)) (sel_extension (sna_selector ack)) in
  upd (λ s, set_serving_node_activations
    (<[key := <[sna_node_id ack := ack]> (default ∅ (serving_node_activations s !! key))]>
      (serving_node_activations s)) s).

(** SRC service_lib/src/ephemeral_service_impl.rs:1811-1821 MetadataStore for EphemeralServiceImpl::list_serving_node_activations *)
Definition list_serving_node_activations_impl (table_name : string) (extension : option string) (w : World) : list ServingNodeActivationAck :=
  match serving_node_activations (svc w) !! selector_group_key table_name extension with
  | Some acks => (hash_iter acks).*2
  | None => []
  end.

(** SRC service_lib/src/ephemeral_service_impl.rs:1823-1833 MetadataStore for EphemeralServiceImpl::record_artifact_readiness *)
Definition record_artifact_readiness_impl (ack : ArtifactReadinessAck) : World → World :=
  let key := selector_group_key (sel_table_name (ara_selector ack)) (sel_extension (ara_selector ack)) in
  upd (λ s, set_artifact_readiness_acks
    (<[key := <[ara_artifact_class ack := ack]> (default ∅ (artifact_readiness_acks s !! key))]>
      (artifact_readiness_acks s)) s).

(** SRC service_lib/src/ephemeral_service_impl.rs:1835-1845 MetadataStore for EphemeralServiceImpl::list_artifact_readiness *)
Definition list_artifact_readiness_impl (table_name : string) (extension : option string) (w : World) : list ArtifactReadinessAck :=
  match artifact_readiness_acks (svc w) !! selector_group_key table_name extension with
  | Some acks => (hash_iter acks).*2
  | None => []
  end.

(** SRC service_lib/src/ephemeral_service_impl.rs:1711-1721 MetadataStore for EphemeralServiceImpl::get_published_checkpoint_record *)
Definition get_published_checkpoint_record_impl (selector : PublishedCheckpointSelector) (w : World) : option PublishedCheckpointRecord :=
  mkRecord selector <$> get_published_checkpoint_sync (svc w) (sel_role selector) (sel_table_name selector) (sel_extension selector).
End cutover.
