(* ===== verification/Commits.v ===== *)
(** * Commits and work items (service_lib/src/ephemeral_service_impl.rs)

    The operations that create checkpoints (speedboat, iceberg and extension
    commits), the queues of extension, compaction and cleanup work with their
    leases, and the registries of tables, templates, pipelines and policies.
    Commit operations run in the state monad [ST World]: a panic keeps the
    mutations made before it. *)

From S2P Require Import Prelude Json Schema FileSet Contract Checkpoint Coordination ServiceState Cutover.

Section commits.
Context `{Environment, HashOrder}.

(** Pure updates of the service's fields and id draws as monadic steps. *)
Definition modify_svc (f : EphemeralServiceImpl → EphemeralServiceImpl) : ST World () := st_modify (upd f).
Definition fresh_id : ST World string := st_update draw_id.

(** ** Building a checkpoint *)

(** SRC service_lib/src/ephemeral_service_impl.rs:635-650 EphemeralServiceImpl::set_latest_committed_checkpoint_id *)
Definition set_latest_committed_checkpoint_key (extension : option string) (table_name checkpoint_id : string) (s : EphemeralServiceImpl) : EphemeralServiceImpl :=
  set_latest_committed_checkpoint_id
    (<[extension := <[table_name := checkpoint_id]> (default ∅ (latest_committed_checkpoint_id s !! extension))]>
      (latest_committed_checkpoint_id s)) s.

(** SRC service_lib/src/ephemeral_service_impl.rs:816-834 EphemeralServiceImpl::set_latest_committed_checkpoint *)
Definition set_latest_committed_checkpoint (table_name : string) (extensions : option string) (checkpoint_id : string) (s : EphemeralServiceImpl) : EphemeralServiceImpl :=
  set_latest_committed_checkpoint_key extensions (real_table_name s table_name) checkpoint_id s.

(** SRC service_lib/src/ephemeral_service_impl.rs:567-574 EphemeralServiceImpl::add_recent_extension_files *)
Definition add_recent_extension_files (table_name : string) (commit : ExtensionCommit) (s : EphemeralServiceImpl) : EphemeralServiceImpl :=
  set_recent_file_extension_metadata
    (foldl (λ m kv, <[key3 table_name (ec_extension commit) kv.1 := kv.2]> m)
      (recent_file_extension_metadata s) (hash_iter (ec_files commit))) s.

(** One of the two loops of [try_fill_checkpoint_extension_metadata]: files with
    recent metadata are recorded as covered, the others collected. *)
Definition fill_loop (s : EphemeralServiceImpl) (table_name extension_name : string)
    (files : list FileDescriptor) (covered : gmap string (list ExtensionFile))
    : gmap string (list ExtensionFile) * FileSetPayload :=
  foldl (λ acc file_desc,
    match get_recent_file_extension_metadata s table_name extension_name (file_path file_desc) with
    | Some metadata => (<[file_path file_desc := metadata]> acc.1, acc.2)
    | None => (acc.1, add acc.2 file_desc)
    end) (covered, empty_file_set) files.

(** SRC service_lib/src/ephemeral_service_impl.rs:576-633 EphemeralServiceImpl::try_fill_checkpoint_extension_metadata *)
Definition try_fill_checkpoint_extension_metadata (s : EphemeralServiceImpl) (extension_name : string) (metadata : TableMetadataCheckpoint) : outcome (TableMetadataCheckpoint * (FileSetPayload * FileSetPayload)) :=
  let metadata := retain_current_extension_metadata metadata in
  let covered := default ∅ (cp_extension_metadata metadata !! extension_name) in
  iceberg_files ← match cp_iceberg_metadata metadata with
                  | Some im => as_file_tuples (im_files im)
                  | None => Ok []
                  end;
  let '(covered, iceberg_file_set) := fill_loop s (cp_table_name metadata) extension_name iceberg_files covered in
  speedboat_files ← match cp_speedboat_metadata metadata with
                    | Some sm => as_file_tuples (sm_files sm)
                    | None => Ok []
                    end;
  let '(covered, speedboat_file_set) := fill_loop s (cp_table_name metadata) extension_name speedboat_files covered in
  Ok (with_extension metadata (<[extension_name := covered]> (cp_extension_metadata metadata)),
      (speedboat_file_set, iceberg_file_set)).

(** SRC service_lib/src/ephemeral_service_impl.rs:780-814 EphemeralServiceImpl::handle_compaction *)
Definition handle_compaction (s : EphemeralServiceImpl) (compaction : option string) (checkpoint : TableMetadataCheckpoint) : outcome TableMetadataCheckpoint :=
  match compaction with
  | None => Ok checkpoint
  | Some compaction =>
      '(_, compaction_obj) ← unwrap (compactions s !! compaction);
      remove_compacted checkpoint (cc_removed_speedboat_files compaction_obj) (cc_removed_delete_files compaction_obj)
  end.

(** SRC service_lib/src/ephemeral_service_impl.rs:769-778 EphemeralServiceImpl::handle_compactions *)
Definition handle_compactions (s : EphemeralServiceImpl) (ids : list string) (checkpoint : TableMetadataCheckpoint) : outcome TableMetadataCheckpoint :=
  foldM (λ c compaction, handle_compaction s (Some compaction) c) checkpoint ids.

(** ** Work queues *)

(** The two maps [fill_extension_work_item] writes: the table's pending item and
    the list of checkpoints that wait for it. *)
Definition put_extension_item (table_name : string) (tracker : ExtensionWorkItemTracker) (s : EphemeralServiceImpl) : EphemeralServiceImpl :=
  set_extension_work_items
    (<["es" := <[table_name := tracker]> (default ∅ (extension_work_items s !! "es"))]> (extension_work_items s)) s.

Definition push_waiting_checkpoint (table_name extension checkpoint_id : string) (s : EphemeralServiceImpl) : EphemeralServiceImpl :=
  let key := key2 table_name extension in
  set_checkpoints_needing_extension_work
    (<[key := default [] (checkpoints_needing_extension_work s !! key) ++ [checkpoint_id]]>
      (checkpoints_needing_extension_work s)) s.

(** SRC service_lib/src/ephemeral_service_impl.rs:711-767 EphemeralServiceImpl::fill_extension_work_item *)
Definition fill_extension_work_item (table_name extension checkpoint_id : string) (schema : PowdrrSchema) (speedboat_files iceberg_files : FileSetPayload) : ST World () :=
  if decide (file_count speedboat_files = 0 ∧ file_count iceberg_files = 0) then mret () else
  items ← st_gets (λ w, extension_work_items (svc w) !! "es");
  es_work_items ← st_lift (unwrap items);
  _ ← match es_work_items !! table_name with
      | None =>
          id ← fresh_id;
          modify_svc (put_extension_item table_name
            (mkExtensionTracker (mkExtensionWorkItem id extension table_name (Some checkpoint_id)
               schema speedboat_files iceberg_files) None))
      | Some tracker =>
          let item := et_work_item tracker in
          let item_with (speedboat iceberg : FileSetPayload) :=
            mkExtensionTracker (mkExtensionWorkItem (ew_id item) (ew_extension_type item)
              (ew_table_name item) (Some checkpoint_id) schema speedboat iceberg)
              (et_lease_expires_at_ms tracker) in
          _ ← modify_svc (put_extension_item table_name
                (item_with (ew_speedboat_files item) (ew_iceberg_files item)));
          merged_speedboat ← st_lift (merge (ew_speedboat_files item) speedboat_files);
          _ ← modify_svc (put_extension_item table_name (item_with merged_speedboat (ew_iceberg_files item)));
          merged_iceberg ← st_lift (merge (ew_iceberg_files item) iceberg_files);
          modify_svc (put_extension_item table_name (item_with merged_speedboat merged_iceberg))
      end;
  modify_svc (push_waiting_checkpoint table_name extension checkpoint_id).

(** SRC service_lib/src/ephemeral_service_impl.rs:953-999 EphemeralServiceImpl::maybe_create_compaction_work_item *)
Definition maybe_create_compaction_work_item (checkpoint : TableMetadataCheckpoint) : ST World () :=
  let table_name := cp_table_name checkpoint in
  _ ← modify_svc (λ s, set_not_compacted_checkpoint_ids
        (<[table_name := default [] (not_compacted_checkpoint_ids s !! table_name)]> (not_compacted_checkpoint_ids s)) s);
  s ← st_gets svc;
  let waiting := default [] (not_compacted_checkpoint_ids s !! table_name) in
  match compaction_work_items s !! table_name, cp_speedboat_metadata checkpoint with
  | Some _, _ =>
      modify_svc (λ s, set_not_compacted_checkpoint_ids
        (<[table_name := waiting ++ [cp_checkpoint_id checkpoint]]> (not_compacted_checkpoint_ids s)) s)
  | None, None => mret ()
  | None, Some sm =>
      let files := sm_files sm in
      let num_files_threshold := threshold (compaction_mode (mode s)) in
      if (num_files_threshold <=? Z.of_nat (length (file_paths files)))%Z
         || (30 * 1024 * 1024 <? wrap_u64 (foldr Z.add 0 (sizes files)))%Z
      then
        ids ← st_gets ids_used;
        work_item ← st_lift (compaction_work_item_from_checkpoint checkpoint waiting ids);
        _ ← fresh_id;
        modify_svc (λ s, set_not_compacted_checkpoint_ids (<[table_name := []]> (not_compacted_checkpoint_ids s))
          (set_compaction_work_items (<[table_name := mkCompactionTracker work_item None]> (compaction_work_items s)) s))
      else mret ()
  end.

(** SRC service_lib/src/ephemeral_service_impl.rs:920-951 EphemeralServiceImpl::replace_and_delete_checkpoints *)
Definition replace_and_delete_checkpoints (compaction : string) : ST World CleanupWorkItem :=
  s ← st_gets svc;
  '(table_name, compaction_obj) ← st_lift (unwrap (compactions s !! compaction));
  _ ← match compaction_work_items s !! table_name with
      | Some tracker =>
          _ ← st_assert (bool_decide (cw_checkpoint_id_to_replace (ct_work_item tracker) = cc_checkpoint_id_to_replace compaction_obj))
                "assertion `left == right` failed";
          _ ← st_assert (bool_decide (cw_id (ct_work_item tracker) = compaction)) "assertion `left == right` failed";
          modify_svc (λ s, set_compaction_work_items (delete table_name (compaction_work_items s)) s)
      | None => st_lift (Panic ("Compaction work item missing = " +:+ table_name))
      end;
  id ← fresh_id;
  mret (mkCleanupWorkItem id table_name
          (cc_removed_speedboat_files compaction_obj ++ cc_removed_delete_files compaction_obj)).

(** ** Commits *)

(** The table's latest checkpoint, or [first] when it has none; a latest id
    without a stored checkpoint is a panic. *)
Definition latest_checkpoint_or (s : EphemeralServiceImpl) (table_name : string) (first : outcome TableMetadataCheckpoint) : outcome TableMetadataCheckpoint :=
  match get_latest_materialized_checkpoint_sync s table_name None with
  | Some checkpoint_id =>
      match checkpoints s !! key2 table_name checkpoint_id with
      | Some c => Ok c
      | None => Panic ("Found latest checkpoint id but checkpoint missing = " +:+ key2 table_name checkpoint_id)
      end
  | None => first
  end.

Definition put_checkpoint (table_name checkpoint_id : string) (c : TableMetadataCheckpoint) (s : EphemeralServiceImpl) : EphemeralServiceImpl :=
  set_checkpoints (<[key2 table_name checkpoint_id := c]> (checkpoints s)) s.

(** SRC service_lib/src/ephemeral_service_impl.rs:836-918 EphemeralServiceImpl::speedboat_commit_type_commit *)
Definition speedboat_commit_type_commit (table_info : SpeedboatCommitTableInfo) (compaction : option string) : ST World () :=
  let table_name := ti_table_name table_info in
  s ← st_gets svc;
  latest_checkpoint ← st_lift (latest_checkpoint_or s table_name
    (schema ← unwrap (ti_schema table_info); Ok (new_checkpoint table_name "" schema)));
  new_checkpoint_id ← fresh_id;
  new_files ← st_lift
    match cp_speedboat_metadata latest_checkpoint with
    | None =>
        schema ← unwrap (ti_schema table_info);
        Ok (mkFileSet (ti_files table_info) [schema] ((λ _, 0) <$> ti_files table_info) (ti_sizes table_info))
    | Some existing =>
        payload ← as_file_set_payload table_info;
        merge (sm_files existing) payload
    end;
  merged_schema ← st_lift
    match ti_schema table_info with
    | Some schema => merge_from (cp_schema latest_checkpoint) schema
    | None => Ok (cp_schema latest_checkpoint)
    end;
  let c := mkCheckpoint table_name None new_checkpoint_id (cp_iceberg_metadata latest_checkpoint)
    (Some (mkSpeedboatMetadata new_files)) (cp_deletes_metadata latest_checkpoint)
    (cp_extension_metadata latest_checkpoint) merged_schema in
  c ← st_lift (handle_compaction s compaction c);
  '(c, (speedboat_files, iceberg_files)) ← st_lift (try_fill_checkpoint_extension_metadata s "es" c);
  _ ← modify_svc (put_checkpoint table_name new_checkpoint_id c);
  _ ← fill_extension_work_item table_name "es" new_checkpoint_id merged_schema speedboat_files iceberg_files;
  _ ← modify_svc (set_latest_committed_checkpoint table_name None new_checkpoint_id);
  maybe_create_compaction_work_item c.

(** SRC service_lib/src/ephemeral_service_impl.rs:1001-1069 EphemeralServiceImpl::speedboat_commit_type_delete *)
Definition speedboat_commit_type_delete (table_info : SpeedboatCommitTableInfo) (compaction : option string) : ST World () :=
  let table_name := ti_table_name table_info in
  s ← st_gets svc;
  latest_checkpoint ← st_lift (latest_checkpoint_or s table_name (Ok (new_checkpoint table_name "" minimal)));
  new_checkpoint_id ← fresh_id;
  let new_deletes := delete_paths latest_checkpoint ++ ti_files table_info in
  let c := mkCheckpoint table_name None new_checkpoint_id (cp_iceberg_metadata latest_checkpoint)
    (cp_speedboat_metadata latest_checkpoint) (Some (mkDeletesMetadata new_deletes))
    (cp_extension_metadata latest_checkpoint) (cp_schema latest_checkpoint) in
  c ← st_lift (handle_compaction s compaction c);
  '(c, _) ← st_lift (try_fill_checkpoint_extension_metadata s "es" c);
  _ ← modify_svc (put_checkpoint table_name new_checkpoint_id c);
  modify_svc (set_latest_committed_checkpoint table_name None new_checkpoint_id).

(** The distinct tables of a commit, in order of first mention. *)
Definition touch (touched : list string) (table_name : string) : list string :=
  if decide (table_name ∈ touched) then touched else touched ++ [table_name].

(** SRC service_lib/src/ephemeral_service_impl.rs:1272-1299 EphemeralServiceImpl::speedboat_commit *)
Definition speedboat_commit (commit : SpeedboatCommit) : ST World bool :=
  _ ← st_assert (bool_decide (sc_compaction commit = None)) "Speedboat commits do not yet support compactions";
  _ ← st_iter (λ table_info,
        if decide (ti_commit_type table_info = "commit" ∨ ti_commit_type table_info = "compact")
        then speedboat_commit_type_commit table_info (sc_compaction commit)
        else if decide (ti_commit_type table_info = "delete")
        then speedboat_commit_type_delete table_info (sc_compaction commit)
        else st_lift (Panic "Unknown Speedboat commit type")) (type_files commit);
  let touched_tables := foldl touch [] (ti_table_name <$> type_files commit) in
  _ ← st_iter (λ table_name, st_modify (queue_publication_request DEFAULT_METADATA_NAMESPACE table_name)) touched_tables;
  mret true.

(** SRC service_lib/src/ephemeral_service_impl.rs:1301-1375 EphemeralServiceImpl::iceberg_commit *)
Definition iceberg_commit (table_name : string) (commit : IcebergCommit) : ST World bool :=
  s ← st_gets svc;
  latest_checkpoint ← st_lift (latest_checkpoint_or s table_name
    (Ok (new_checkpoint table_name "" (im_table_schema (ic_metadata commit)))));
  new_checkpoint_id ← fresh_id;
  merged_schema ← st_lift (merge_from (cp_schema latest_checkpoint) (im_table_schema (ic_metadata commit)));
  let c := mkCheckpoint table_name None new_checkpoint_id (Some (ic_metadata commit))
    (cp_speedboat_metadata latest_checkpoint) (cp_deletes_metadata latest_checkpoint)
    (cp_extension_metadata latest_checkpoint) merged_schema in
  c ← st_lift (handle_compactions s (ic_compactions commit) c);
  '(c, (speedboat_files, iceberg_files)) ← st_lift (try_fill_checkpoint_extension_metadata s "es" c);
  _ ← modify_svc (put_checkpoint table_name new_checkpoint_id c);
  _ ← modify_svc (set_latest_committed_checkpoint table_name None new_checkpoint_id);
  _ ← fill_extension_work_item table_name "es" new_checkpoint_id merged_schema speedboat_files iceberg_files;
  _ ← st_iter (λ compaction,
        cleanup_work_item ← replace_and_delete_checkpoints compaction;
        modify_svc (λ s, set_cleanup_work_items (cleanup_work_items s ++ [mkCleanupTracker cleanup_work_item None]) s))
        (ic_compactions commit);
  _ ← st_modify (queue_publication_request DEFAULT_METADATA_NAMESPACE table_name);
  mret true.

(** SRC service_lib/src/ephemeral_service_impl.rs:652-709 EphemeralServiceImpl::add_checkpoint *)
Definition add_checkpoint (metadata : TableMetadataCheckpoint) : ST World () :=
  let table_name := cp_table_name metadata in
  let checkpoint_id := cp_checkpoint_id metadata in
  _ ← modify_svc (λ s, match tables s !! table_name with
        | None => set_tables (<[table_name := mkTableDescription table_name ∅ None None None None None]> (tables s)) s
        | Some _ => s
        end);
  _ ← modify_svc (λ s, match checkpoints s !! key2 table_name checkpoint_id with
        | None => put_checkpoint table_name checkpoint_id metadata s
        | Some _ => s
        end);
  _ ← modify_svc (set_latest_committed_checkpoint_key None table_name checkpoint_id);
  _ ← if decide (0 < size (cp_extension_metadata metadata)) then
        st_iter (λ extension, modify_svc (set_latest_committed_checkpoint_key (Some extension) table_name checkpoint_id))
          (hash_iter (cp_extension_metadata metadata)).*1
      else
        fill_extension_work_item table_name "es" checkpoint_id (cp_schema metadata)
          (match cp_speedboat_metadata metadata with Some m => sm_files m | None => empty_file_set end)
          (match cp_iceberg_metadata metadata with Some m => im_files m | None => empty_file_set end);
  st_modify (queue_publication_request DEFAULT_METADATA_NAMESPACE table_name).

(** SRC service_lib/src/ephemeral_service_impl.rs:1080-1104 EphemeralServiceImpl::add_coverage_for *)
Definition add_coverage_for (table_name checkpoint_id : string) (commit : ExtensionCommit) : ST World (option string) :=
  s ← st_gets svc;
  checkpoint ← st_lift (unwrap (checkpoints s !! key2 table_name checkpoint_id));
  let checkpoint := (add_coverage checkpoint commit).1 in
  _ ← modify_svc (put_checkpoint table_name checkpoint_id checkpoint);
  covered ← st_lift (fully_covered_for_extension checkpoint (ec_extension commit));
  if covered : bool then
    let key := key2 table_name (ec_extension commit) in
    _ ← modify_svc (λ s, set_checkpoints_needing_extension_work
          (alter (filter (λ x, x ≠ checkpoint_id)) key (checkpoints_needing_extension_work s)) s);
    mret (Some checkpoint_id)
  else mret None.

(** A panic inside [remove] (only on a malformed file set) leaves the file set as
    it was before the call. *)
(** SRC service_lib/src/ephemeral_service_impl.rs:1106-1129 EphemeralServiceImpl::apply_extension_commit_to_work_item *)
Definition apply_extension_commit_to_work_item (table_name : string) (commit : ExtensionCommit) : ST World () :=
  s ← st_gets svc;
  match extension_work_items s !! ec_extension commit ≫= (λ items, items !! table_name) with
  | None => mret ()
  | Some tracker =>
      let item := et_work_item tracker in
      let committed_files := (hash_iter (ec_files commit)).*1 in
      let put (speedboat iceberg : FileSetPayload) (lease : option Z) :=
        modify_svc (λ s, set_extension_work_items
          (alter (λ items, <[table_name := mkExtensionTracker
             (mkExtensionWorkItem (ew_id item) (ew_extension_type item) (ew_table_name item)
               (ew_checkpoint_id item) (ew_table_schema item) speedboat iceberg) lease]> items)
             (ec_extension commit) (extension_work_items s)) s) in
      speedboat_files ← st_lift (remove (ew_speedboat_files item) committed_files);
      _ ← put speedboat_files (ew_iceberg_files item) (et_lease_expires_at_ms tracker);
      iceberg_files ← st_lift (remove (ew_iceberg_files item) committed_files);
      put speedboat_files iceberg_files None
  end.

(** [iter().max()] of strings. *)
Definition max_string (x : string) (l : list string) : string :=
  foldl (λ m y, if String.leb m y then y else m) x l.

Fixpoint st_map {S A B} (f : A → ST S B) (l : list A) : ST S (list B) :=
  match l with
  | [] => mret []
  | a :: l => b ← f a; bs ← st_map f l; mret (b :: bs)
  end.

(** SRC service_lib/src/ephemeral_service_impl.rs:1377-1415 EphemeralServiceImpl::extension_commit *)
Definition extension_commit (table_name : string) (commit : ExtensionCommit) : ST World bool :=
  s ← st_gets svc;
  let waiting_checkpoint_ids := default [] (get_checkpoints_needing_extension_work s table_name (ec_extension commit)) in
  _ ← st_assert (0 <? length waiting_checkpoint_ids) "assertion failed: waiting_checkpoint_ids.len() > 0";
  covered ← st_map (λ x, add_coverage_for table_name x commit) waiting_checkpoint_ids;
  match omap id covered with
  | [] => st_lift (Panic "assertion failed: removed_checkpoint_ids.len() > 0")
  | first :: rest =>
      let max_id := max_string first rest in
      _ ← modify_svc (add_recent_extension_files table_name commit);
      _ ← apply_extension_commit_to_work_item table_name commit;
      _ ← modify_svc (λ s,
            match get_latest_materialized_checkpoint_sync s table_name (Some "es") with
            | Some latest =>
                if String.ltb latest max_id then set_latest_committed_checkpoint table_name (Some "es") max_id s else s
            | None => set_latest_committed_checkpoint table_name (Some "es") max_id s
            end);
      _ ← st_modify (queue_publication_request DEFAULT_METADATA_NAMESPACE table_name);
      mret true
  end.

(** SRC service_lib/src/ephemeral_service_impl.rs:1417-1429 EphemeralServiceImpl::compaction_commit *)
Definition compaction_commit (table_name : string) (commit : CompactionCommit) : ST World bool :=
  _ ← modify_svc (λ s, set_compactions (<[cc_compaction_id commit := (table_name, commit)]> (compactions s)) s);
  mret true.

(** SRC service_lib/src/ephemeral_service_impl.rs:1431-1438 EphemeralServiceImpl::cleanup_commit *)
Definition cleanup_commit (commit : CleanupCommit) : ST World bool :=
  _ ← modify_svc (λ s, set_cleanup_work_items
        (filter (λ t, clw_id (clt_work_item t) ≠ clc_id commit) (cleanup_work_items s)) s);
  mret true.

(** ** Claims

    Each claim reads the clock once per leased candidate and once per item handed out. *)

Fixpoint claim_extension_loop (extension_type : string) (items : list (string * ExtensionWorkItemTracker)) (w : World) : list ExtensionWorkItem * World :=
  match items with
  | [] => ([], w)
  | (table_name, tracker) :: items =>
      if has_work (et_work_item tracker) then
        let '(available, w) := lease_is_available (et_lease_expires_at_ms tracker) w in
        if available : bool then
          let '(expires, w) := claim_lease_expires_at_ms w in
          let w := upd (λ s, set_extension_work_items
            (alter (λ m, <[table_name := mkExtensionTracker (et_work_item tracker) (Some expires)]> m)
              extension_type (extension_work_items s)) s) w in
          let '(claimed, w) := claim_extension_loop extension_type items w in
          (et_work_item tracker :: claimed, w)
        else claim_extension_loop extension_type items w
      else claim_extension_loop extension_type items w
  end.

(** SRC service_lib/src/ephemeral_service_impl.rs:1470-1495 EphemeralServiceImpl::get_extension_work_items *)
Definition get_extension_work_items (extension_type : string) (w : World) : list ExtensionWorkItem * World :=
  if decide (extension_type = "es") then
    match extension_work_items (svc w) !! extension_type with
    | Some items => claim_extension_loop extension_type (hash_iter items) w
    | None => ([], w)
    end
  else ([], w).

Fixpoint claim_compaction_loop (items : list (string * CompactionWorkItemTracker)) (w : World) : list (string * CompactionWorkItem) * World :=
  match items with
  | [] => ([], w)
  | (table_name, tracker) :: items =>
      let '(available, w) := lease_is_available (ct_lease_expires_at_ms tracker) w in
      if available : bool then
        let '(expires, w) := claim_lease_expires_at_ms w in
        let w := upd (λ s, set_compaction_work_items
          (<[table_name := mkCompactionTracker (ct_work_item tracker) (Some expires)]> (compaction_work_items s)) s) w in
        let '(claimed, w) := claim_compaction_loop items w in
        ((table_name, ct_work_item tracker) :: claimed, w)
      else claim_compaction_loop items w
  end.

(** SRC service_lib/src/ephemeral_service_impl.rs:1497-1509 EphemeralServiceImpl::get_compaction_work_items *)
Definition get_compaction_work_items (w : World) : list (string * CompactionWorkItem) * World :=
  claim_compaction_loop (hash_iter (compaction_work_items (svc w))) w.

(** The two loops of [get_cleanup_work_items]: which indexes are ready, then one
    claim per ready index.  The indexes come from the same vector, so the vector
    access cannot be out of range ([claim_cleanup_in_range] in QueueTheory.v). *)
Fixpoint ready_cleanup_indexes (i : nat) (items : list CleanupWorkItemTracker) (w : World) : list nat * World :=
  match items with
  | [] => ([], w)
  | tracker :: items =>
      if cleanup_work_item_is_ready (svc w) (clt_work_item tracker) then
        let '(available, w) := lease_is_available (clt_lease_expires_at_ms tracker) w in
        let '(indexes, w) := ready_cleanup_indexes (S i) items w in
        (if available then i :: indexes else indexes, w)
      else ready_cleanup_indexes (S i) items w
  end.

Fixpoint claim_cleanup_loop (indexes : list nat) (w : World) : list CleanupWorkItem * World :=
  match indexes with
  | [] => ([], w)
  | i :: indexes =>
      match cleanup_work_items (svc w) !! i with
      | None => ([], w)
      | Some tracker =>
          let '(expires, w) := claim_lease_expires_at_ms w in
          let w := upd (λ s, set_cleanup_work_items
            (<[i := mkCleanupTracker (clt_work_item tracker) (Some expires)]> (cleanup_work_items s)) s) w in
          let '(claimed, w) := claim_cleanup_loop indexes w in
          (clt_work_item tracker :: claimed, w)
      end
  end.

(** SRC service_lib/src/ephemeral_service_impl.rs:1511-1533 EphemeralServiceImpl::get_cleanup_work_items *)
Definition get_cleanup_work_items (w : World) : list CleanupWorkItem * World :=
  let '(indexes, w) := ready_cleanup_indexes 0 (cleanup_work_items (svc w)) w in
  claim_cleanup_loop indexes w.

(** ** Registries *)

(** SRC service_lib/src/ephemeral_service_impl.rs:1131-1133 EphemeralServiceImpl::get_all_iceberg_tables *)
Definition get_all_iceberg_tables (w : World) : list string := (hash_iter (tables (svc w))).*1.

(** SRC service_lib/src/ephemeral_service_impl.rs:1135-1156 EphemeralServiceImpl::create_table *)
Definition create_table (ct : CreateTable) : ST World bool :=
  _ ← modify_svc (λ s,
        match tables s !! ct_name ct with
        | Some _ => set_tables (<[ct_name ct := from_create_table ct]> (tables s)) s
        | None =>
            set_not_compacted_checkpoint_ids (<[ct_name ct := []]> (not_compacted_checkpoint_ids s))
              (set_tables (<[ct_name ct := from_create_table ct]> (tables s)) s)
        end);
  mret true.

(** SRC service_lib/src/ephemeral_service_impl.rs:1158-1163 EphemeralServiceImpl::upsert_table_metadata *)
Definition upsert_table_metadata (ct : CreateTable) : ST World bool := create_table ct.

(** SRC service_lib/src/ephemeral_service_impl.rs:1165-1174 EphemeralServiceImpl::describe_table *)
Definition describe_table (w : World) (name : string) : option TableDescription :=
  tables (svc w) !! real_table_name (svc w) name.

(** SRC service_lib/src/ephemeral_service_impl.rs:1176-1184 EphemeralServiceImpl::add_alias *)
Definition add_alias (table_name alias : string) : ST World bool :=
  _ ← modify_svc (λ s, set_table_aliases (<[alias := table_name]> (table_aliases s)) s);
  mret true.

(** SRC service_lib/src/ephemeral_service_impl.rs:1186-1194 EphemeralServiceImpl::remove_alias *)
Definition remove_alias (table_name alias : string) : ST World bool :=
  _ ← modify_svc (λ s, set_table_aliases (delete alias (table_aliases s)) s);
  mret true.

(** SRC service_lib/src/ephemeral_service_impl.rs:1196-1212 EphemeralServiceImpl::create_table_template *)
Definition create_table_template (name : string) (template : CreateIndexTemplateBody) : ST World bool :=
  _ ← modify_svc (λ s,
        match table_templates s !! name with
        | Some _ => set_table_templates (<[name := template]> (delete name (table_templates s))) s
        | None => set_table_templates (<[name := template]> (table_templates s)) s
        end);
  mret true.

(** SRC service_lib/src/ephemeral_service_impl.rs:1214-1222 EphemeralServiceImpl::describe_table_template *)
Definition describe_table_template (w : World) (name : string) : option CreateIndexTemplateBody :=
  table_templates (svc w) !! name.

(** SRC service_lib/src/ephemeral_service_impl.rs:1224-1236 EphemeralServiceImpl::create_pipeline *)
Definition create_pipeline (name : string) (pipeline : PipelineDefinition) : ST World bool :=
  s ← st_gets svc;
  match pipelines s !! name with
  | Some _ => st_lift (Panic "Need to do a real error path now")
  | None => _ ← modify_svc (λ s, set_pipelines (<[name := pipeline]> (pipelines s)) s); mret true
  end.

(** SRC service_lib/src/ephemeral_service_impl.rs:1238-1246 EphemeralServiceImpl::describe_pipeline *)
Definition describe_pipeline (w : World) (name : string) : option PipelineDefinition :=
  pipelines (svc w) !! name.

(** SRC service_lib/src/ephemeral_service_impl.rs:1248-1260 EphemeralServiceImpl::create_lifetime_policy *)
Definition create_lifetime_policy (name : string) (policy : ILMPolicyDefinition) : ST World bool :=
  s ← st_gets svc;
  match lifetime_policies s !! name with
  | Some _ => st_lift (Panic "Need to do a real error path now")
  | None => _ ← modify_svc (λ s, set_lifetime_policies (<[name := policy]> (lifetime_policies s)) s); mret true
  end.

(** SRC service_lib/src/ephemeral_service_impl.rs:1262-1270 EphemeralServiceImpl::describe_lifetime_policy *)
Definition describe_lifetime_policy (w : World) (name : string) : option ILMPolicyDefinition :=
  lifetime_policies (svc w) !! name.

(** SRC service_lib/src/ephemeral_service_impl.rs:1460-1468 EphemeralServiceImpl::get_checkpoint *)
Definition get_checkpoint (w : World) (snapshot : CheckpointDescriptor) : option TableMetadataCheckpoint :=
  get_checkpoint_sync (svc w) (cd_table_name snapshot) (cd_checkpoint_id snapshot).

(** ** The service as a metadata store *)

(** SRC service_lib/src/ephemeral_service_impl.rs:1692-1701 MetadataStore for EphemeralServiceImpl::queue_checkpoint_publication *)
Definition queue_checkpoint_publication_impl (request : CheckpointUpdateRequest) : World → World :=
  queue_publication_request DEFAULT_METADATA_NAMESPACE (cur_table_name request).

(** SRC service_lib/src/ephemeral_service_impl.rs:1854-1868 MetadataStore for EphemeralServiceImpl::claim_extension_work_items *)
Definition claim_extension_work_items_impl (extension_type : string) (w : World) : list ClaimedExtensionWorkItem * World :=
  let '(items, w) := get_extension_work_items extension_type w in
  (mkClaimedExtension Leased <$> items, w).

(** SRC service_lib/src/ephemeral_service_impl.rs:1870-1882 MetadataStore for EphemeralServiceImpl::claim_compaction_work_items *)
Definition claim_compaction_work_items_impl (w : World) : list ClaimedCompactionWorkItem * World :=
  let '(items, w) := get_compaction_work_items w in
  ((λ it, mkClaimedCompaction Leased it.1 it.2) <$> items, w).

(** SRC service_lib/src/ephemeral_service_impl.rs:1884-1895 MetadataStore for EphemeralServiceImpl::claim_cleanup_work_items *)
Definition claim_cleanup_work_items_impl (w : World) : list ClaimedCleanupWorkItem * World :=
  let '(items, w) := get_cleanup_work_items w in
  (mkClaimedCleanup Leased <$> items, w).

#[export] Instance EphemeralMetadataStore : MetadataStore World := {|
  queue_checkpoint_publication request := st_modify (queue_checkpoint_publication_impl request);
  get_published_checkpoint_record selector := st_gets (get_published_checkpoint_record_impl selector);
  get_checkpoint_metadata checkpoint := st_gets (λ w, get_checkpoint w checkpoint);
  claim_extension_work_items ty := st_update (claim_extension_work_items_impl ty);
  claim_compaction_work_items := st_update claim_compaction_work_items_impl;
  claim_cleanup_work_items := st_update claim_cleanup_work_items_impl;
  advance_published_checkpoints := st_update update_all_checkpoints;
  plan_checkpoint_cutover request := st_modify (plan_checkpoint_cutover_impl request);
  store_cutover_state t e := st_update (get_checkpoint_cutover_state_impl t e);
  heartbeat_serving_node lease := st_modify (heartbeat_serving_node_impl lease);
  record_serving_node_activation ack := st_modify (record_serving_node_activation_impl ack);
  list_serving_node_activations t e := st_gets (list_serving_node_activations_impl t e);
  record_artifact_readiness ack := st_modify (record_artifact_readiness_impl ack);
  list_artifact_readiness t e := st_gets (list_artifact_readiness_impl t e);
  get_latest_committed_checkpoint t e := st_gets (λ w, get_latest_materialized_checkpoint_sync (svc w) t e);
|}.
End commits.
