(* ===== verification/CutoverTheory.v ===== *)
(** * Correctness of checkpoint cutover

    Theorems about Cutover.v: when the active pointer moves and to what, what a new
    target invalidates, that the protocol completes once every acknowledgement is
    in, and that the phase reported to readers is the gate promotion checks. *)

From S2P Require Import Prelude Json Schema FileSet Contract Checkpoint Coordination ServiceState Cutover Commits.

(** ** Required node ids *)

Lemma elem_of_sorted_ids X n : n ∈ sorted_ids X ↔ n ∈ X.
Proof. by rw /sorted_ids merge_sort_Permutation elem_of_elements. Qed.

Lemma sorted_ids_NoDup X : NoDup (sorted_ids X).
Proof. rw /sorted_ids merge_sort_Permutation. apply NoDup_elements. Qed.

Lemma sorted_ids_Sorted X : Sorted String.le (sorted_ids X).
Proof. apply Sorted_merge_sort. apply _. Qed.

Lemma sorted_ids_nil X : sorted_ids X = [] ↔ X = ∅.
Proof.
  split; [|by intros ->].
  intros Hn. apply set_eq. intros n. rw -elem_of_sorted_ids Hn. set_solver.
Qed.

(** ** Frames

    The membership operations write the epochs, views, leases and activations, and
    of the first two and the last only the entry of the selector they are called for. *)
Section frames.
Context `{Environment, HashOrder}.

Definition set_cutover (ep : gmap string CutoverEpoch) (vi : gmap string CutoverMembershipView)
    (le : gmap string ServingNodeLease) (ac : gmap string (gmap string ServingNodeActivationAck))
    (s : EphemeralServiceImpl) : EphemeralServiceImpl :=
  set_serving_node_activations ac (set_serving_node_leases le
    (set_cutover_membership_views vi (set_checkpoint_cutover_epochs ep s))).

Definition cutover_frame (w w' : World) : Prop :=
  svc w' = set_cutover (checkpoint_cutover_epochs (svc w')) (cutover_membership_views (svc w'))
             (serving_node_leases (svc w')) (serving_node_activations (svc w')) (svc w) ∧
  ids_used w' = ids_used w.

#[export] Instance cutover_frame_preorder : PreOrder cutover_frame.
Proof.
  split.
  - intros [[] i n]. done.
  - intros w w1 w2 [H1 Hi1] [H2 Hi2]. split; [|congruence]. rw {1}H2 H1. done.
Qed.

Lemma live_frame w : cutover_frame w (live_serving_node_ids w).2.
Proof. done. Qed.

Lemma store_view_frame t e ep c ids w : cutover_frame w (store_cutover_membership_view t e ep c ids w).
Proof. done. Qed.

Lemma bump_frame t e w : cutover_frame w (bump_cutover_epoch t e w).2.
Proof. done. Qed.

Lemma clear_activations_frame t e w : cutover_frame w (clear_serving_node_activations t e w).
Proof. done. Qed.

(** What [capture] and [reconfigure] do when they act: a fresh epoch, the live nodes
    as the required ones, and no acknowledgement carried over. *)
Definition recaptured (t : string) (e : option string) (c : string) (w : World) : World :=
  let w1 := (live_serving_node_ids w).2 in
  let w2 := (bump_cutover_epoch t e w1).2 in
  clear_serving_node_activations t e
    (store_cutover_membership_view t e (bump_cutover_epoch t e w1).1 c
      (sorted_ids (live_serving_node_ids w).1) w2).

Lemma recaptured_frame t e c w : cutover_frame w (recaptured t e c w).
Proof.
  rw /recaptured. etrans; [apply live_frame|]. etrans; [apply bump_frame|].
  etrans; [apply store_view_frame|]. apply clear_activations_frame.
Qed.

Lemma capture_spec t e c w :
  capture_cutover_membership_for_target t e c w =
  if decide (cmv_target_checkpoint_id <$> get_cutover_membership_view (svc w) t e = Some c)
  then w else recaptured t e c w.
Proof. done. Qed.

Lemma reconfigure_spec t e c w :
  maybe_reconfigure_cutover_membership_for_target t e c w = w ∨
  (∃ v, get_cutover_membership_view (svc w) t e = Some v ∧ cmv_target_checkpoint_id v = c) ∧
  (maybe_reconfigure_cutover_membership_for_target t e c w = (live_serving_node_ids w).2 ∨
   maybe_reconfigure_cutover_membership_for_target t e c w = recaptured t e c w).
Proof.
  rw /maybe_reconfigure_cutover_membership_for_target.
  destruct (get_cutover_membership_view _ _ _) as [v|] eqn:Hv; [|by left].
  case_decide as Ht; [by left|]. right. split; [exists v; split; [done|]; by apply dec_stable|].
  destruct (live_serving_node_ids w) as [live w1] eqn:El.
  case_decide; [by left|]. case_match; [by left|]. right.
  rw /recaptured El /=. done.
Qed.

Lemma backfill_spec t e c w :
  backfill_cutover_membership_for_target t e c w = w ∨
  backfill_cutover_membership_for_target t e c w = (live_serving_node_ids w).2 ∨
  ∃ v, get_cutover_membership_view (svc w) t e = Some v ∧
    cmv_target_checkpoint_id v = c ∧ cmv_required_node_ids v = [] ∧
    backfill_cutover_membership_for_target t e c w =
      store_cutover_membership_view t e (cmv_epoch v) c (sorted_ids (live_serving_node_ids w).1)
        (live_serving_node_ids w).2.
Proof.
  rw /backfill_cutover_membership_for_target.
  destruct (get_cutover_membership_view _ _ _) as [v|] eqn:Hv; [|by left].
  case_decide as Ht; [by left|]. right.
  destruct (live_serving_node_ids w) as [live w1] eqn:El.
  case_decide; [by left|]. right. exists v.
  apply Decidable.not_or in Ht as [?%dec_stable ?%dec_stable]. done.
Qed.

Lemma capture_frame t e c w : cutover_frame w (capture_cutover_membership_for_target t e c w).
Proof. rw capture_spec. case_decide; [reflexivity|apply recaptured_frame]. Qed.

Lemma reconfigure_frame t e c w : cutover_frame w (maybe_reconfigure_cutover_membership_for_target t e c w).
Proof.
  destruct (reconfigure_spec t e c w) as [->|[_ [->| ->]]];
    [reflexivity|apply live_frame|apply recaptured_frame].
Qed.

Lemma backfill_frame t e c w : cutover_frame w (backfill_cutover_membership_for_target t e c w).
Proof.
  destruct (backfill_spec t e c w) as [->|[->|(v & _ & _ & _ & ->)]]; [reflexivity|apply live_frame|].
  etrans; [apply live_frame|apply store_view_frame].
Qed.

Lemma activation_frame t e c w : cutover_frame w (activation_matches_target t e c w).2.
Proof.
  trans (maybe_reconfigure_cutover_membership_for_target t e c (backfill_cutover_membership_for_target t e c w)).
  - etrans; [apply backfill_frame|apply reconfigure_frame].
  - rw /activation_matches_target. repeat case_match; reflexivity.
Qed.

(** What the frame leaves alone. *)
(** The membership operations of a selector: of the epochs, views and acknowledgements
    only the entries of the selector change, and leases can only expire. *)
Record membership_frame (t : string) (e : option string) (w w' : World) : Prop := mkMembershipFrame {
  mf_cutover : cutover_frame w w';
  mf_leases : serving_node_leases (svc w') ⊆ serving_node_leases (svc w);
  mf_epochs : ∀ k, k ≠ selector_group_key t e → checkpoint_cutover_epochs (svc w') !! k = checkpoint_cutover_epochs (svc w) !! k;
  mf_views : ∀ k, k ≠ selector_group_key t e → cutover_membership_views (svc w') !! k = cutover_membership_views (svc w) !! k;
  mf_activations : ∀ k, k ≠ selector_group_key t e → serving_node_activations (svc w') !! k = serving_node_activations (svc w) !! k;
}.

#[export] Instance membership_frame_preorder t e : PreOrder (membership_frame t e).
Proof.
  split; [intros w; split; [reflexivity|reflexivity|done..]|]. intros w w1 w2 [C1 L1 E1 V1 A1] [C2 L2 E2 V2 A2].
  split; [etrans; [exact C1|exact C2]|etrans; [exact L2|exact L1]|intros k Hk; by rw E2 // E1|intros k Hk; by rw V2 // V1|intros k Hk; by rw A2 // A1].
Qed.

Lemma live_membership t e w : membership_frame t e w (live_serving_node_ids w).2.
Proof. split; [apply live_frame|apply map_filter_subseteq|done..]. Qed.
Lemma store_view_membership t e ep c ids w : membership_frame t e w (store_cutover_membership_view t e ep c ids w).
Proof. split; [apply store_view_frame|reflexivity|done| |done]. intros k Hk. apply lookup_insert_ne. congruence. Qed.
Lemma recaptured_membership t e c w : membership_frame t e w (recaptured t e c w).
Proof.
  rw /recaptured. etrans; [apply live_membership|].
  trans (bump_cutover_epoch t e (live_serving_node_ids w).2).2.
  { split; [apply bump_frame|reflexivity| |done|done]. intros k Hk. apply lookup_insert_ne. congruence. }
  etrans; [apply store_view_membership|]. split; [apply clear_activations_frame|reflexivity|done|done|]. intros k Hk. apply lookup_delete_ne. congruence.
Qed.

Lemma activation_membership t e c w : membership_frame t e w (activation_matches_target t e c w).2.
Proof.
  trans (maybe_reconfigure_cutover_membership_for_target t e c (backfill_cutover_membership_for_target t e c w)).
  - trans (backfill_cutover_membership_for_target t e c w).
    + destruct (backfill_spec t e c w) as [->|[->|(v & _ & _ & _ & ->)]]; [reflexivity|apply live_membership|]. etrans; [apply live_membership|apply store_view_membership].
    + destruct (reconfigure_spec t e c (backfill_cutover_membership_for_target t e c w)) as [->|[_ [->| ->]]]; [reflexivity|apply live_membership|apply recaptured_membership].
  - rw /activation_matches_target. repeat case_match; reflexivity.
Qed.

Lemma frame_published w w' : cutover_frame w w' → published_checkpoint_id (svc w') = published_checkpoint_id (svc w).
Proof. by intros [-> _]. Qed.
Lemma frame_latest w w' t e : cutover_frame w w' →
  get_latest_materialized_checkpoint_sync (svc w') t e = get_latest_materialized_checkpoint_sync (svc w) t e.
Proof. by intros [-> _]. Qed.
Lemma frame_get_published w w' r t e : cutover_frame w w' →
  get_published_checkpoint_sync (svc w') r t e = get_published_checkpoint_sync (svc w) r t e.
Proof. by intros [-> _]. Qed.
Lemma frame_readiness w w' : cutover_frame w w' → artifact_readiness_acks (svc w') = artifact_readiness_acks (svc w).
Proof. by intros [-> _]. Qed.
End frames.

(** ** Evidence for a promotion *)

(** Every artifact class the extension requires was reported ready for [c]. *)
Definition readiness_evidence (s : EphemeralServiceImpl) (t : string) (e : option string) (c : string) : Prop :=
  ∃ acks, artifact_readiness_acks s !! selector_group_key t e = Some acks ∧
    ∀ cls, cls ∈ required_artifact_classes e → ∃ ack, acks !! cls = Some ack ∧ ara_checkpoint_id ack = c.

(** Every required node, of which there is at least one, acknowledged [c] at the
    epoch of the membership view; and if any lease is still held, every required
    node holds one. *)
Definition activation_evidence (s : EphemeralServiceImpl) (t : string) (e : option string) (c : string) : Prop :=
  ∃ view acks, get_cutover_membership_view s t e = Some view ∧
    cmv_target_checkpoint_id view = c ∧ cmv_required_node_ids view ≠ [] ∧
    serving_node_activations s !! selector_group_key t e = Some acks ∧
    (∀ n, n ∈ cmv_required_node_ids view →
      ∃ ack, acks !! n = Some ack ∧ sna_checkpoint_id ack = c ∧ sna_epoch ack = cmv_epoch view) ∧
    (serving_node_leases s ≠ ∅ → ∀ n, n ∈ cmv_required_node_ids view → is_Some (serving_node_leases s !! n)).

Lemma readiness_matches_iff s t e c : readiness_matches_target s t e c = true ↔ readiness_evidence s t e c.
Proof.
  rw /readiness_matches_target /readiness_evidence.
  destruct (artifact_readiness_acks s !! _) as [acks|]; [|split; [done|naive_solver]].
  rw forallb_forall. setoid_rewrite <-list_elem_of_In. split.
  - intros Hall. exists acks. split; [done|]. intros cls Hc. specialize (Hall cls Hc).
    destruct (acks !! cls) as [ack|]; [|done]. exists ack. split; [done|].
    by apply bool_decide_eq_true in Hall.
  - intros (? & [= <-] & Hall) cls Hc. destruct (Hall cls Hc) as (ack & -> & Ha).
    by apply bool_decide_eq_true.
Qed.

Section promotion.
Context `{Environment, HashOrder}.

(** After reconfiguration the required nodes hold leases, unless nobody does. *)
Lemma reconfigure_required_live t e c w view :
  let w' := maybe_reconfigure_cutover_membership_for_target t e c w in
  get_cutover_membership_view (svc w') t e = Some view → cmv_target_checkpoint_id view = c →
  serving_node_leases (svc w') ≠ ∅ →
  ∀ n, n ∈ cmv_required_node_ids view → is_Some (serving_node_leases (svc w') !! n).
Proof.
  cbv zeta. rw /maybe_reconfigure_cutover_membership_for_target.
  destruct (get_cutover_membership_view (svc w) t e) as [v|] eqn:Hv; [|congruence].
  case_decide as Ht; [congruence|].
  assert (Hdom : ∀ n, n ∈ (live_serving_node_ids w).1 → is_Some (serving_node_leases (svc (live_serving_node_ids w).2) !! n)).
  { intros n Hn. by apply (elem_of_dom (serving_node_leases (svc (live_serving_node_ids w).2))) in Hn. }
  assert (Hnil : (live_serving_node_ids w).1 = ∅ → serving_node_leases (svc (live_serving_node_ids w).2) = ∅).
  { intros Hd. by apply (dom_empty_inv_L (serving_node_leases (svc (live_serving_node_ids w).2))) in Hd. }
  assert (Hv1 : get_cutover_membership_view (svc (live_serving_node_ids w).2) t e = Some v) by done.
  destruct (live_serving_node_ids w) as [live w1]. simpl in Hdom, Hnil, Hv1.
  case_decide as He; [|destruct (forallb _ _) eqn:Hall].
  - intros _ _ Hne. by destruct Hne; auto.
  - intros Hview _ _ n Hn. apply Hdom. rw Hv1 in Hview. injection Hview as <-.
    rw forallb_forall in Hall. apply list_elem_of_In, Hall in Hn. by apply bool_decide_eq_true in Hn.
  - rw /get_cutover_membership_view /= lookup_insert_eq. intros [= <-] _ _ n Hn.
    apply Hdom. simpl in Hn. by apply elem_of_sorted_ids in Hn.
Qed.

Lemma activation_matches_iff t e c w :
  (activation_matches_target t e c w).1 = true ↔ activation_evidence (svc (activation_matches_target t e c w).2) t e c.
Proof.
  rw /activation_matches_target.
  set (w1 := backfill_cutover_membership_for_target t e c w).
  pose proof (reconfigure_required_live t e c w1) as Hlive. simpl in Hlive.
  set (w' := maybe_reconfigure_cutover_membership_for_target t e c w1) in *. clearbody w'. clear w1 w.
  destruct (get_cutover_membership_view (svc w') t e) as [view|] eqn:Hv.
  2: { simpl. split; [done|]. intros (view & acks & Hv' & _). congruence. }
  case_decide as Hbad.
  { simpl. split; [done|]. intros (v & acks & Hv' & Ht & Hr & _). destruct Hbad; congruence. }
  apply Decidable.not_or in Hbad as [Ht%dec_stable Hr].
  destruct (serving_node_activations (svc w') !! _) as [acks|] eqn:Ha; simpl.
  2: { split; [done|]. intros (v & acks & _ & _ & _ & Ha' & _). congruence. }
  rw forallb_forall. setoid_rewrite <-list_elem_of_In. split.
  - intros Hall. exists view, acks. split_and!; try done.
    + intros n Hn. specialize (Hall n Hn). destruct (acks !! n) as [ack|]; [|done].
      apply bool_decide_eq_true in Hall as []. eauto.
    + eauto.
  - intros (v & acks' & Hv' & _ & _ & Ha' & Hall & _) n Hn. simplify_eq.
    destruct (Hall n Hn) as (ack & -> & ? & ?). by apply bool_decide_eq_true.
Qed.

(** A promotion with its evidence, and the pointer it leaves. *)
Lemma promote_spec t e w :
  let '(b, w') := promote_active_checkpoint_if_ready t e w in
  (b = true ↔ ∃ c, get_latest_materialized_checkpoint_sync (svc w) t e = Some c ∧
     get_published_checkpoint_sync (svc w) Active t e ≠ Some c ∧
     readiness_evidence (svc w') t e c ∧ activation_evidence (svc w') t e c) ∧
  (∀ k, published_checkpoint_id (svc w') !! k =
     if decide (b = true ∧ k = selector_storage_key Active t e)
     then get_latest_materialized_checkpoint_sync (svc w) t e
     else published_checkpoint_id (svc w) !! k).
Proof.
  rw /promote_active_checkpoint_if_ready.
  assert (Hidle : ∀ w1 k, published_checkpoint_id (svc w1) = published_checkpoint_id (svc w) →
    published_checkpoint_id (svc w1) !! k =
    if decide (false = true ∧ k = selector_storage_key Active t e)
    then get_latest_materialized_checkpoint_sync (svc w) t e else published_checkpoint_id (svc w) !! k).
  { intros w1 k ->. case_decide as Hd; [by destruct Hd|done]. }
  destruct (get_latest_materialized_checkpoint_sync (svc w) t e) as [c|] eqn:Hc.
  2: { split; [naive_solver|]. intros k. by apply Hidle. }
  destruct (decide (get_published_checkpoint_sync (svc w) Active t e = Some c)) as [Hact|Hact].
  { split; [|intros k; by apply Hidle]. split; [done|]. intros (? & [= <-] & ? & _). done. }
  destruct (readiness_matches_target (svc w) t e c) eqn:Hready; simpl.
  2: { split; [|intros k; by apply Hidle]. split; [done|].
       intros (? & [= <-] & _ & Hr%readiness_matches_iff & _). congruence. }
  apply readiness_matches_iff in Hready.
  pose proof (activation_matches_iff t e c w) as Hiff.
  pose proof (activation_frame t e c w) as Hframe.
  destruct (activation_matches_target t e c w) as [[] w1]; simpl in *.
  - apply proj1 in Hiff. specialize (Hiff eq_refl). split.
    + split; [intros _|done]. exists c. split_and!; [done..| |done].
      rw /readiness_evidence /= (frame_readiness _ _ Hframe). done.
    + intros k. rw /= (frame_published _ _ Hframe). case_decide as Hk.
      * destruct Hk as [_ ->]. by rw lookup_insert_eq.
      * apply lookup_insert_ne. naive_solver.
  - split; [|intros k; apply Hidle; by apply frame_published].
    split; [done|]. intros (? & [= <-] & _ & _ & Ha%Hiff). done.
Qed.
End promotion.

(** ** The publication pass as a sequence of steps *)

Section steps.
Context `{Environment, HashOrder}.

Definition drop_request (t : string) : World → World :=
  upd (λ s, set_checkpoint_publication_requests
    (delete (checkpoint_publication_request_key DEFAULT_METADATA_NAMESPACE t)
      (checkpoint_publication_requests s)) s).

(** The elementary steps of [update_all_checkpoints] on the table [t]. *)
Inductive publication_step (t : string) : World → World → Prop :=
| AdvanceStep e w : e ∈ [None; Some "es"] → publication_step t w (advance_target_checkpoint t e w).2
| PromoteStep e w : e ∈ [None; Some "es"] → publication_step t w (promote_active_checkpoint_if_ready t e w).2
| DropStep w : checkpoint_publication_still_pending (svc w) t = false → publication_step t w (drop_request t w).

(** Steps for any of the tables of a list. *)
Definition pass_step (tables : list string) (w w' : World) : Prop :=
  ∃ t, t ∈ tables ∧ publication_step t w w'.

Lemma advance_spec t e w :
  advance_target_checkpoint t e w =
  match get_latest_materialized_checkpoint_sync (svc w) t e with
  | None => (false, w)
  | Some c =>
      if decide (cmv_target_checkpoint_id <$> get_cutover_membership_view (svc w) t e = Some c) then (false, w)
      else (true, recaptured t e c (clear_artifact_readiness t e w))
  end.
Proof.
  rw /advance_target_checkpoint.
  destruct (get_latest_materialized_checkpoint_sync (svc w) t e) as [c|]; [|done].
  cbv zeta. rw capture_spec.
  change (get_cutover_membership_view (svc (clear_artifact_readiness t e w)) t e)
    with (get_cutover_membership_view (svc w) t e).
  destruct (decide (_ ≠ Some c)) as [Hn|Hn%dec_stable].
  - rw bool_decide_eq_true_2 //.
    change (get_cutover_membership_view (svc (clear_artifact_readiness t e w)) t e)
      with (get_cutover_membership_view (svc w) t e). by case_decide.
  - rw bool_decide_eq_false_2; [by intros []|]. by case_decide.
Qed.

Lemma advance_published t e w :
  published_checkpoint_id (svc (advance_target_checkpoint t e w).2) = published_checkpoint_id (svc w).
Proof.
  rw /advance_target_checkpoint. destruct (get_latest_materialized_checkpoint_sync (svc w) t e) as [c|]; [|done]. simpl.
  rw (frame_published _ _ (capture_frame _ _ _ _)). by case_decide.
Qed.

Lemma advance_latest t e w t' e' :
  get_latest_materialized_checkpoint_sync (svc (advance_target_checkpoint t e w).2) t' e' =
  get_latest_materialized_checkpoint_sync (svc w) t' e'.
Proof.
  rw /advance_target_checkpoint. destruct (get_latest_materialized_checkpoint_sync (svc w) t e) as [c|]; [|done]. simpl.
  rw (frame_latest _ _ _ _ (capture_frame _ _ _ _)). by case_decide.
Qed.

Lemma promote_latest t e w t' e' :
  get_latest_materialized_checkpoint_sync (svc (promote_active_checkpoint_if_ready t e w).2) t' e' =
  get_latest_materialized_checkpoint_sync (svc w) t' e'.
Proof.
  rw /promote_active_checkpoint_if_ready.
  destruct (get_latest_materialized_checkpoint_sync (svc w) t e) as [c|]; [|done]. case_decide; [done|].
  case_match; [done|]. pose proof (activation_frame t e c w) as Hf.
  destruct (activation_matches_target t e c w) as [[] w1]; simpl in *; by apply frame_latest.
Qed.

Lemma step_latest t w w' t' e' :
  publication_step t w w' →
  get_latest_materialized_checkpoint_sync (svc w') t' e' = get_latest_materialized_checkpoint_sync (svc w) t' e'.
Proof. intros [e ? _|e ? _|? _]; [apply advance_latest|apply promote_latest|done]. Qed.

(** One step changes an active pointer only by a promotion with its evidence. *)
Lemma step_published t w w' k :
  publication_step t w w' → published_checkpoint_id (svc w') !! k ≠ published_checkpoint_id (svc w) !! k →
  ∃ e c, e ∈ [None; Some "es"] ∧ k = selector_storage_key Active t e ∧
    get_latest_materialized_checkpoint_sync (svc w) t e = Some c ∧
    published_checkpoint_id (svc w') !! k = Some c ∧
    readiness_evidence (svc w') t e c ∧ activation_evidence (svc w') t e c.
Proof.
  intros [e ? He|e ? He|? _] Hk.
  - by rw advance_published in Hk.
  - pose proof (promote_spec t e w0) as Hp. destruct (promote_active_checkpoint_if_ready t e w0) as [b w1].
    destruct Hp as [Hb Hpub]. simpl in *. rw Hpub in Hk.
    destruct (decide (b = true ∧ k = selector_storage_key Active t e)) as [[Hbt ->]|]; [|done].
    destruct (proj1 Hb Hbt) as (c & Hc & _ & ? & ?). exists e, c. split_and!; try done.
    rw Hpub. destruct (decide _) as [_|Hd]; [exact Hc|]. by destruct Hd.
  - done.
Qed.

Lemma pass_latest ts w w' t e :
  rtc (pass_step ts) w w' →
  get_latest_materialized_checkpoint_sync (svc w') t e = get_latest_materialized_checkpoint_sync (svc w) t e.
Proof.
  induction 1 as [|w1 w2 w3 (t' & _ & Hs) _ IH]; [done|]. by rw IH (step_latest _ _ _ _ _ Hs).
Qed.

Lemma pass_published ts w w' k :
  rtc (pass_step ts) w w' → published_checkpoint_id (svc w') !! k ≠ published_checkpoint_id (svc w) !! k →
  ∃ t e c wm, t ∈ ts ∧ e ∈ [None; Some "es"] ∧ k = selector_storage_key Active t e ∧
    get_latest_materialized_checkpoint_sync (svc w) t e = Some c ∧
    published_checkpoint_id (svc w') !! k = Some c ∧
    rtc (pass_step ts) w wm ∧ rtc (pass_step ts) wm w' ∧
    readiness_evidence (svc wm) t e c ∧ activation_evidence (svc wm) t e c.
Proof.
  intros Hsteps. revert k. pattern w'. revert w' Hsteps. apply rtc_ind_r; [done|].
  intros w1 w2 Hpre (t & Ht & Hs) IH k Hk.
  destruct (decide (published_checkpoint_id (svc w2) !! k = published_checkpoint_id (svc w1) !! k)) as [Heq|Hne].
  - rw Heq in Hk. destruct (IH k Hk) as (t1 & e1 & c1 & wm & ? & ? & ? & ? & ? & ? & Hr & ? & ?).
    exists t1, e1, c1, wm. split_and!; try done; [congruence|].
    eapply rtc_r; [exact Hr|]. by exists t.
  - destruct (step_published t w1 w2 k Hs Hne) as (e & c & ? & ? & Hl & ? & ? & ?).
    rw (pass_latest ts w w1 t e Hpre) in Hl.
    exists t, e, c, w2. split_and!; try done; [|reflexivity].
    eapply rtc_r; [exact Hpre|]. by exists t.
Qed.

Lemma update_request_steps r ts w :
  cur_table_name r ∈ ts → rtc (pass_step ts) w (update_request r w).2.
Proof.
  intros Hr. rw /update_request. set (t := cur_table_name r) in *.
  assert (Hadv : ∀ e w, e ∈ [None; Some "es"] → pass_step ts w (advance_target_checkpoint t e w).2).
  { intros. exists t. split; [done|]. by constructor. }
  assert (Hpro : ∀ e w, e ∈ [None; Some "es"] → pass_step ts w (promote_active_checkpoint_if_ready t e w).2).
  { intros. exists t. split; [done|]. by constructor. }
  pose proof (Hadv None w ltac:(set_solver)) as H1.
  destruct (advance_target_checkpoint t None w) as [b1 w1].
  pose proof (Hpro None w1 ltac:(set_solver)) as H2.
  destruct (promote_active_checkpoint_if_ready t None w1) as [b2 w2].
  pose proof (Hadv (Some "es") w2 ltac:(set_solver)) as H3.
  destruct (advance_target_checkpoint t (Some "es") w2) as [b3 w3].
  pose proof (Hpro (Some "es") w3 ltac:(set_solver)) as H4.
  destruct (promote_active_checkpoint_if_ready t (Some "es") w3) as [b4 w4]. simpl in *.
  eapply rtc_l; [exact H1|]. eapply rtc_l; [exact H2|]. eapply rtc_l; [exact H3|]. eapply rtc_l; [exact H4|].
  destruct (checkpoint_publication_still_pending (svc w4) t) eqn:Hp; [reflexivity|].
  apply rtc_once. exists t. split; [done|]. by apply DropStep.
Qed.

Lemma update_requests_steps rs ts w :
  (∀ r, r ∈ rs → cur_table_name r ∈ ts) → rtc (pass_step ts) w (update_requests rs w).2.
Proof.
  revert w. induction rs as [|r rs IH]; intros w Hin; simpl; [reflexivity|].
  pose proof (update_request_steps r ts w (Hin r ltac:(left))) as Hs.
  destruct (update_request r w) as [b w1]. simpl in Hs.
  specialize (IH w1 ltac:(intros; apply Hin; by right)).
  destruct (update_requests rs w1) as [b' w2]. simpl in *. etrans; eassumption.
Qed.
End steps.

(** ** Acknowledging *)

Section acks.
Context `{Environment, HashOrder}.

(** The serving nodes [ns] acknowledge [c] at the epoch [ep]; the producer [p]
    reports every class of [cs] ready for [c]. *)
Definition acknowledge_all (t : string) (e : option string) (c : string) (ep : CutoverEpoch) (now : Z) (ns : list string) (w : World) : World :=
  foldl (λ w n, record_serving_node_activation_impl (mkActivationAck (target t e) n ep c now) w) w ns.

Definition report_all_ready (t : string) (e : option string) (c : string) (ep : CutoverEpoch) (p : string) (now : Z) (cs : list ArtifactClass) (w : World) : World :=
  foldl (λ w cls, record_artifact_readiness_impl (mkReadinessAck (target t e) c ep cls p now) w) w cs.

Lemma acknowledge_all_svc t e c ep now ns w :
  ns ≠ [] →
  ∃ acks, acknowledge_all t e c ep now ns w =
      upd (set_serving_node_activations (<[selector_group_key t e := acks]> (serving_node_activations (svc w)))) w ∧
    (∀ n, n ∈ ns → acks !! n = Some (mkActivationAck (target t e) n ep c now)).
Proof.
  induction ns as [|n ns IH] using rev_ind; [done|]. intros _.
  rw /acknowledge_all foldl_app. fold (acknowledge_all t e c ep now ns w). simpl.
  destruct (decide (ns = [])) as [->|Hns].
  { eexists. split; [reflexivity|]. intros n' Hn'. apply list_elem_of_singleton in Hn' as ->. by rw lookup_insert_eq. }
  destruct (IH Hns) as (acks & -> & Hacks).
  exists (<[n := mkActivationAck (target t e) n ep c now]> acks). split.
  - rw /record_serving_node_activation_impl /upd /= lookup_insert_eq /= insert_insert_eq. done.
  - by apply (insert_keyed (λ n', mkActivationAck (target t e) n' ep c now)).
Qed.

Lemma report_all_ready_svc t e c ep p now cs w :
  cs ≠ [] →
  ∃ acks, report_all_ready t e c ep p now cs w =
      upd (set_artifact_readiness_acks (<[selector_group_key t e := acks]> (artifact_readiness_acks (svc w)))) w ∧
    (∀ cls, cls ∈ cs → acks !! cls = Some (mkReadinessAck (target t e) c ep cls p now)).
Proof.
  induction cs as [|n ns IH] using rev_ind; [done|]. intros _.
  rw /report_all_ready foldl_app. fold (report_all_ready t e c ep p now ns w). simpl.
  destruct (decide (ns = [])) as [->|Hns].
  { eexists. split; [reflexivity|]. intros n' Hn'. apply list_elem_of_singleton in Hn' as ->. by rw lookup_insert_eq. }
  destruct (IH Hns) as (acks & -> & Hacks).
  exists (<[n := mkReadinessAck (target t e) c ep n p now]> acks). split.
  - rw /record_artifact_readiness_impl /upd /= lookup_insert_eq /= insert_insert_eq. done.
  - by apply (insert_keyed (λ n', mkReadinessAck (target t e) c ep n' p now)).
Qed.

Lemma required_classes_not_nil e : required_artifact_classes e ≠ [].
Proof. destruct e as [e|]; simpl; [by case_decide|done]. Qed.

(** The nodes whose acknowledgement the current view requires. *)
Definition required_nodes (s : EphemeralServiceImpl) (t : string) (e : option string) : list string :=
  match get_cutover_membership_view s t e with Some v => cmv_required_node_ids v | None => [] end.

(** Asking for the cutover state of a table with a latest checkpoint [c] leaves a
    view for [c], and the reported epoch is the view's. *)
Lemma cutover_state_view t e w c :
  get_latest_materialized_checkpoint_sync (svc w) t e = Some c →
  let '(cs, w1) := get_checkpoint_cutover_state_impl t e w in
  cos_target_checkpoint_id cs = Some c ∧ cutover_frame w w1 ∧
  ∃ v, get_cutover_membership_view (svc w1) t e = Some v ∧
    cmv_target_checkpoint_id v = c ∧ cmv_epoch v = cos_epoch cs.
Proof.
  intros Hc. rw /get_checkpoint_cutover_state_impl Hc. cbv zeta.
  set (w1 := capture_cutover_membership_for_target t e c w).
  assert (Hv1 : ∃ v, get_cutover_membership_view (svc w1) t e = Some v ∧ cmv_target_checkpoint_id v = c).
  { rw /w1 capture_spec. case_decide as Hd.
    - apply fmap_Some in Hd as (v & ? & ->). by exists v.
    - eexists. rw /get_cutover_membership_view /= lookup_insert_eq. done. }
  set (w2 := backfill_cutover_membership_for_target t e c w1).
  assert (Hv2 : ∃ v, get_cutover_membership_view (svc w2) t e = Some v ∧ cmv_target_checkpoint_id v = c).
  { rw /w2. destruct (backfill_spec t e c w1) as [->|[->|(v & _ & _ & _ & ->)]]; [done|done|].
    eexists. rw /get_cutover_membership_view /= lookup_insert_eq. done. }
  split; [done|]. split; [etrans; [apply capture_frame|apply backfill_frame]|].
  destruct Hv2 as (v & Hv & Ht). exists v. rw Hv. split_and!; [done..|]. simpl.
  case_decide; [done|]. congruence.
Qed.

(** With the view's nodes all live, reconfiguration only prunes leases. *)
Lemma activation_complete t e c w v :
  get_cutover_membership_view (svc w) t e = Some v → cmv_target_checkpoint_id v = c →
  cmv_required_node_ids v ≠ [] →
  (∀ n, n ∈ cmv_required_node_ids v → n ∈ (live_serving_node_ids w).1) →
  (∃ acks, serving_node_activations (svc w) !! selector_group_key t e = Some acks ∧
     ∀ n, n ∈ cmv_required_node_ids v →
       ∃ ack, acks !! n = Some ack ∧ sna_checkpoint_id ack = c ∧ sna_epoch ack = cmv_epoch v) →
  (activation_matches_target t e c w).1 = true.
Proof.
  intros Hv Ht Hr Hlive (acks & Ha & Hall).
  assert (Hb : backfill_cutover_membership_for_target t e c w = w).
  { rw /backfill_cutover_membership_for_target Hv. case_decide as Hd; [done|]. destruct Hd. by right. }
  assert (Hm : maybe_reconfigure_cutover_membership_for_target t e c w = (live_serving_node_ids w).2).
  { rw /maybe_reconfigure_cutover_membership_for_target Hv. case_decide; [done|].
    destruct (live_serving_node_ids w) as [live w1]. simpl in *. case_decide; [done|].
    rw (proj2 (forallb_forall _ _)) //. intros n Hn%list_elem_of_In. apply bool_decide_eq_true. auto. }
  rw /activation_matches_target Hb Hm.
  change (get_cutover_membership_view (svc (live_serving_node_ids w).2) t e) with (get_cutover_membership_view (svc w) t e).
  change (serving_node_activations (svc (live_serving_node_ids w).2)) with (serving_node_activations (svc w)).
  rw Hv Ha. case_decide as Hd; [by destruct Hd|]. simpl.
  apply forallb_forall. intros n Hn%list_elem_of_In. destruct (Hall n Hn) as (ack & -> & ? & ?).
  by apply bool_decide_eq_true.
Qed.
End acks.

(** ** The reported phase *)

(** The readiness reports of a selector are filed under their own class. *)
Definition readiness_keyed (s : EphemeralServiceImpl) : Prop :=
  ∀ k acks cls ack, artifact_readiness_acks s !! k = Some acks → acks !! cls = Some ack → ara_artifact_class ack = cls.

(** The test over the listed reports is the test over the map. *)
Lemma readiness_satisfies_matches `{HashOrder} w t e c :
  readiness_keyed (svc w) →
  readiness_satisfies_target (list_artifact_readiness_impl t e w) (Some c) e = readiness_matches_target (svc w) t e c.
Proof.
  intros Hkey. apply eq_true_iff_eq. rw readiness_matches_iff /readiness_satisfies_target /readiness_evidence.
  pose proof (required_classes_not_nil e) as Hnil.
  destruct (required_artifact_classes e) as [|r0 rs] eqn:Hreq; [done|]. rw -Hreq. clear Hnil.
  rw /list_artifact_readiness_impl forallb_forall. setoid_rewrite <-list_elem_of_In.
  setoid_rewrite bool_decide_eq_true. setoid_rewrite elem_of_list_to_set. setoid_rewrite list_elem_of_fmap.
  setoid_rewrite list_elem_of_filter.
  destruct (artifact_readiness_acks (svc w) !! _) as [acks|] eqn:Ha; split.
  - intros Hall. exists acks. split; [done|]. intros cls Hcls.
    destruct (Hall cls Hcls) as (ack & -> & Hc & Hin).
    apply list_elem_of_fmap in Hin as ([cls' ack'] & -> & Hin%elem_of_hash_iter).
    exists ack'. split; [|done]. by rw (Hkey _ _ _ _ Ha Hin).
  - intros (? & [= <-] & Hall) cls Hcls. destruct (Hall cls Hcls) as (ack & Hack & Hc).
    exists ack. split; [by rw (Hkey _ _ _ _ Ha Hack)|]. split; [done|].
    apply list_elem_of_fmap. exists (cls, ack). split; [done|]. by apply elem_of_hash_iter.
  - intros Hall. destruct (Hall r0) as (ack & _ & _ & Hin); [rw Hreq; left|]. by apply elem_of_nil in Hin.
  - intros (? & ? & _). done.
Qed.

(** ** Properties *)
Module CutoverTheory.
Section theorems.
Context `{Environment, HashOrder}.


(** C12. [update_all_checkpoints] moves an active pointer only for a table with a
    pending request, only to that table's latest committed checkpoint, and only
    after a moment of the pass at which all readiness reports and activation
    acknowledgements for it were in. *)
Theorem publication_pass_safe w b w' k :
  update_all_checkpoints w = (b, w') →
  published_checkpoint_id (svc w') !! k ≠ published_checkpoint_id (svc w) !! k →
  let ts := cur_table_name <$> (hash_iter (checkpoint_publication_requests (svc w))).*2 in
  ∃ t e c wm, t ∈ ts ∧ e ∈ [None; Some "es"] ∧ k = selector_storage_key Active t e ∧
    get_latest_materialized_checkpoint_sync (svc w) t e = Some c ∧
    published_checkpoint_id (svc w') !! k = Some c ∧
    rtc (pass_step ts) w wm ∧ rtc (pass_step ts) wm w' ∧
    readiness_evidence (svc wm) t e c ∧ activation_evidence (svc wm) t e c.
Proof.
  intros Hu Hk ts. apply pass_published; [|done].
  change w' with (b, w').2. rw -Hu. apply update_requests_steps.
  intros r Hr. apply list_elem_of_fmap. by exists r.
Qed.

(** When [advance_target_checkpoint] reports a new target it discards what was
    acknowledged for the old one: readiness and activations of the selector are
    empty, the view names the new target, a bumped epoch and exactly the live nodes
    in sorted order without duplicates, so that no evidence for any checkpoint is
    left; every other selector is untouched.  Otherwise nothing changes, and a
    repeated call is always a no-op. *)
Theorem new_target_resets t e w :
  let '(b, w') := advance_target_checkpoint t e w in
  (b = true →
     let k := selector_group_key t e in
     let epoch := wrap_u64 (default 0 (checkpoint_cutover_epochs (svc w) !! k) + 1)%Z in
     ∃ c ids, get_latest_materialized_checkpoint_sync (svc w) t e = Some c ∧
       cutover_membership_views (svc w') !! k = Some (mkView (target t e) epoch c ids) ∧
       checkpoint_cutover_epochs (svc w') !! k = Some epoch ∧
       (∀ n, n ∈ ids ↔ n ∈ (live_serving_node_ids w).1) ∧ NoDup ids ∧ Sorted String.le ids ∧
       (∀ c', ¬ readiness_evidence (svc w') t e c' ∧ ¬ activation_evidence (svc w') t e c') ∧
       (∀ k', k' ≠ k →
          cutover_membership_views (svc w') !! k' = cutover_membership_views (svc w) !! k' ∧
          checkpoint_cutover_epochs (svc w') !! k' = checkpoint_cutover_epochs (svc w) !! k' ∧
          serving_node_activations (svc w') !! k' = serving_node_activations (svc w) !! k' ∧
          artifact_readiness_acks (svc w') !! k' = artifact_readiness_acks (svc w) !! k')) ∧
  (b = false → w' = w) ∧
  advance_target_checkpoint t e w' = (false, w').
Proof.
  rw advance_spec.
  destruct (get_latest_materialized_checkpoint_sync (svc w) t e) as [c|] eqn:Hc; [|by rw advance_spec Hc].
  case_decide as Hd.
  { split; [done|]. split; [done|]. rw advance_spec Hc decide_True //. }
  set (w' := recaptured t e c (clear_artifact_readiness t e w)).
  assert (Hv : get_cutover_membership_view (svc w') t e = Some _) by apply lookup_insert_eq.
  split; [|split; [done|]].
  2: { assert (Hl : get_latest_materialized_checkpoint_sync (svc w') t e = Some c).
       { rw (frame_latest _ _ _ _ (recaptured_frame _ _ _ _)). exact Hc. }
       rw advance_spec Hl Hv /=. clear Hd. by case_decide. }
  intros _ k epoch. exists c, (sorted_ids (live_serving_node_ids w).1). split_and!.
  - done.
  - exact Hv.
  - apply lookup_insert_eq.
  - intros n. apply elem_of_sorted_ids.
  - apply sorted_ids_NoDup.
  - apply sorted_ids_Sorted.
  - intros c'. split.
    + intros (acks & Ha & _). by rw /= lookup_delete_eq in Ha.
    + intros (v & acks & _ & _ & _ & Ha & _). by rw /= lookup_delete_eq in Ha.
  - intros k' Hk'. split_and!; simpl; [apply lookup_insert_ne|apply lookup_insert_ne|
      apply lookup_delete_ne|apply lookup_delete_ne]; by apply not_eq_sym.
Qed.

(** C38. The protocol completes.  Let [w1] be the state after a reader asked for the
    cutover state of a table whose latest checkpoint is [c]; once every required
    artifact class is reported ready for [c] and every required node (there is one)
    acknowledges [c] at the reported epoch while its lease lasts, the next promotion
    attempt leaves [c] active. *)
Theorem cutover_completes t e w c p now cs w1 :
  get_latest_materialized_checkpoint_sync (svc w) t e = Some c →
  get_checkpoint_cutover_state_impl t e w = (cs, w1) →
  required_nodes (svc w1) t e ≠ [] →
  (∀ n, n ∈ required_nodes (svc w1) t e → n ∈ (live_serving_node_ids w1).1) →
  let w2 := report_all_ready t e c (cos_epoch cs) p now (required_artifact_classes e) w1 in
  let w3 := acknowledge_all t e c (cos_epoch cs) now (required_nodes (svc w1) t e) w2 in
  get_published_checkpoint_sync (svc (promote_active_checkpoint_if_ready t e w3).2) Active t e = Some c.
Proof.
  intros Hc Hcs Hr Hlive. cbv zeta. pose proof (cutover_state_view t e w c Hc) as Hst. rw Hcs in Hst.
  destruct Hst as (_ & Hf & v & Hv & Ht & Hep).
  rw /required_nodes Hv in Hr, Hlive |- *.
  destruct (report_all_ready_svc t e c (cos_epoch cs) p now _ w1 (required_classes_not_nil e)) as (racks & -> & Hracks).
  match goal with |- context [acknowledge_all _ _ _ _ _ _ ?w2] => set (w2' := w2) end.
  destruct (acknowledge_all_svc t e c (cos_epoch cs) now _ w2' Hr) as (acks & -> & Hacks).
  set (w3 := upd _ _). rw /promote_active_checkpoint_if_ready.
  assert (Hl3 : get_latest_materialized_checkpoint_sync (svc w3) t e = Some c).
  { change (get_latest_materialized_checkpoint_sync (svc w1) t e = Some c). by rw (frame_latest _ _ _ _ Hf). }
  rw Hl3. case_decide as Hact; [exact Hact|].
  assert (Hready : readiness_matches_target (svc w3) t e c = true).
  { apply readiness_matches_iff. exists racks. split; [apply lookup_insert_eq|].
    intros cls Hcls. eexists. split; [by apply Hracks|done]. }
  assert (Hactive : (activation_matches_target t e c w3).1 = true).
  { apply (activation_complete t e c w3 v); [done..| |].
    - exact Hlive.
    - exists acks. split; [apply lookup_insert_eq|]. intros n Hn. eexists. by split; [apply Hacks|]. }
  rw Hready /=. destruct (activation_matches_target t e c w3) as [b w4]. simpl in Hactive. subst b.
  apply lookup_insert_eq.
Qed.

(** The phase a reader is told is the state of the promotion gate: [Active] when
    the latest checkpoint is the active one, otherwise [AwaitingActivation] exactly
    when [readiness_matches_target], the test promotion performs, holds for the
    latest checkpoint, and [AwaitingReadiness] in every other case. *)
Theorem phase_agrees_with_gate t e w :
  readiness_keyed (svc w) →
  ∃ st w', get_read_only_coordination_state t e w = (Ok st, w') ∧
    let latest := get_latest_materialized_checkpoint_sync (svc w) t e in
    let active := get_published_checkpoint_sync (svc w) Active t e in
    rcs_target_checkpoint_id st = latest ∧ rcs_active_checkpoint_id st = active ∧
    (rcs_phase st = PhaseActive ↔ is_Some latest ∧ active = latest) ∧
    (rcs_phase st = AwaitingActivation ↔
      ∃ c, latest = Some c ∧ active ≠ Some c ∧ readiness_matches_target (svc w) t e c = true) ∧
    (rcs_phase st = AwaitingReadiness ↔
      ∀ c, latest = Some c → active ≠ Some c ∧ readiness_matches_target (svc w) t e c = false).
Proof.
  intros Hkey. rw /get_read_only_coordination_state /get_checkpoint_cutover_state /=.
  assert (Hst : ∃ ep w', get_checkpoint_cutover_state_impl t e w =
    (mkCutoverState (target t e) ep (get_published_checkpoint_sync (svc w) Active t e)
       (get_latest_materialized_checkpoint_sync (svc w) t e), w') ∧ cutover_frame w w').
  { rw /get_checkpoint_cutover_state_impl.
    destruct (get_latest_materialized_checkpoint_sync (svc w) t e) as [c|]; do 2 eexists; (split; [|]).
    - do 2 f_equal. apply frame_get_published. etrans; [apply capture_frame|apply backfill_frame].
    - etrans; [apply capture_frame|apply backfill_frame].
    - reflexivity.
    - reflexivity. }
  destruct Hst as (ep & w' & Hst & Hf). 
  do 2 eexists. split.
  { erewrite st_bind_Ok; [reflexivity|].
    erewrite st_bind_Ok by (apply st_update_eq, Hst). reflexivity. }
  simpl.
  rw (frame_latest _ _ _ _ Hf).
  assert (Hlist : list_artifact_readiness_impl t e w' = list_artifact_readiness_impl t e w).
  { by rw /list_artifact_readiness_impl (frame_readiness _ _ Hf). }
  rw Hlist /target_phase /=.
  destruct (get_latest_materialized_checkpoint_sync (svc w) t e) as [c|] eqn:Hc.
  - rw readiness_satisfies_matches //.
    destruct (decide _) as [[_ Ha]|Hna].
    { rw Ha. split_and!; try done; split; try done; [by intros (? & [= <-] & ? & _)|].
      intros Hx. by destruct (Hx c eq_refl). }
    assert (Hne : get_published_checkpoint_sync (svc w) Active t e ≠ Some c).
    { intros Heq. apply Hna. rw Heq. by split; [eexists|]. }
    destruct (readiness_matches_target (svc w) t e c) eqn:Hr; split_and!; try done; split; try done.
    + by intros [_ ?].
    + intros _. by exists c.
    + intros Hx. destruct (Hx c eq_refl). congruence.
    + by intros [_ ?].
    + intros (? & [= <-] & _ & ?). congruence.
    + by intros _ c' [= <-].
  - simpl. destruct (decide _) as [[[? Hs] Hn]|Hna]; [congruence|].
    split_and!; try done; split; try done; [by intros [[] _]|by intros (? & ? & _)].
Qed.
End theorems.
End CutoverTheory.

(** ** A concrete cutover *)
Module CutoverDemo.
Import FileSetTheory CutoverTheory.
#[export] Existing Instance demo_env.

Export HashOrderDemo.

(** One table with a committed checkpoint, one live serving node, one request. *)
Definition demo_service : EphemeralServiceImpl :=
  set_latest_committed_checkpoint_id {[ None := {[ "logs" := "7" ]} ]}
    (set_serving_node_leases {[ "node-a" := mkLease "node-a" 0%Z 0%Z ]}
      (set_checkpoint_publication_requests {[ "__powdrr__|logs" := mkUpdateRequest "logs" ]}
        (new ephemeral_default))).

Definition demo_world : World := mkWorld demo_service 0 0.

Definition demo_state : CheckpointCutoverState * World := get_checkpoint_cutover_state_impl "logs" None demo_world.

Definition demo_acked : World :=
  acknowledge_all "logs" None "7" (cos_epoch demo_state.1) 0 (required_nodes (svc demo_state.2) "logs" None)
    (report_all_ready "logs" None "7" (cos_epoch demo_state.1) "builder" 0 (required_artifact_classes None) demo_state.2).

Lemma cutover_completes_witness :
  get_published_checkpoint_sync (svc (promote_active_checkpoint_if_ready "logs" None demo_acked).2) Active "logs" None = Some "7".
Proof.
  apply (cutover_completes "logs" None demo_world "7" "builder" 0%Z demo_state.1 demo_state.2).
  - vm_compute. reflexivity.
  - apply surjective_pairing.
  - vm_compute. discriminate.
  - intros n Hn. change (required_nodes (svc demo_state.2) "logs" None) with ["node-a"] in Hn.
    apply list_elem_of_singleton in Hn as ->. vm_compute. reflexivity.
Defined.

Lemma publication_pass_safe_witness :
  let ts := cur_table_name <$> (hash_iter (checkpoint_publication_requests (svc demo_acked))).*2 in
  let w' := (update_all_checkpoints demo_acked).2 in
  ∃ t e c wm, t ∈ ts ∧ e ∈ [None; Some "es"] ∧ "active||logs" = selector_storage_key Active t e ∧
    get_latest_materialized_checkpoint_sync (svc demo_acked) t e = Some c ∧
    published_checkpoint_id (svc w') !! "active||logs" = Some c ∧
    rtc (pass_step ts) demo_acked wm ∧ rtc (pass_step ts) wm w' ∧
    readiness_evidence (svc wm) t e c ∧ activation_evidence (svc wm) t e c.
Proof.
  apply (publication_pass_safe demo_acked (update_all_checkpoints demo_acked).1).
  - apply surjective_pairing.
  - vm_compute. discriminate.
Defined.

Lemma phase_agrees_with_gate_witness :
  ∃ st w', get_read_only_coordination_state "logs" None demo_world = (Ok st, w') ∧
    rcs_target_checkpoint_id st = Some "7" ∧ rcs_phase st = AwaitingReadiness.
Proof.
  destruct (phase_agrees_with_gate "logs" None demo_world) as (st & w' & Hst & Ht & _ & _ & _ & Hp).
  - intros k acks cls ack Hk. vm_compute in Hk. discriminate.
  - exists st, w'. split; [exact Hst|]. split; [rw Ht; vm_compute; reflexivity|].
    apply Hp. intros c Hc. vm_compute in Hc. injection Hc as <-. split; [vm_compute; discriminate|vm_compute; reflexivity].
Defined.
End CutoverDemo.
