(* ===== verification/Service.v ===== *)
(** * The metadata service as a state machine

    Every operation of the service that changes state as a [Command], one step per
    command (whatever the command returns, panics included), and the states
    reachable from a fresh service.  The invariants of those states are proved by
    induction on reachability. *)

From S2P Require Import Prelude Json Schema FileSet Contract Checkpoint Coordination ServiceState Cutover Commits CutoverTheory.

Inductive Command : Type :=
| CmdCreateTable (ct : CreateTable)
| CmdAddAlias (table_name alias : string)
| CmdRemoveAlias (table_name alias : string)
| CmdCreateTemplate (name : string) (template : CreateIndexTemplateBody)
| CmdCreatePipeline (name : string) (pipeline : PipelineDefinition)
| CmdCreatePolicy (name : string) (policy : ILMPolicyDefinition)
| CmdSpeedboatCommit (commit : SpeedboatCommit)
| CmdIcebergCommit (table_name : string) (commit : IcebergCommit)
| CmdExtensionCommit (table_name : string) (commit : ExtensionCommit)
| CmdCompactionCommit (table_name : string) (commit : CompactionCommit)
| CmdCleanupCommit (commit : CleanupCommit)
| CmdAddCheckpoint (metadata : TableMetadataCheckpoint)
| CmdUpdateAll
| CmdQueuePublication (request : CheckpointUpdateRequest)
| CmdPlanCutover (request : CheckpointCutoverRequest)
| CmdGetCutoverState (table_name : string) (extension : option string)
| CmdHeartbeat (lease : ServingNodeLease)
| CmdRecordActivation (ack : ServingNodeActivationAck)
| CmdRecordReadiness (ack : ArtifactReadinessAck)
| CmdClaimExtension (extension_type : string)
| CmdClaimCompaction
| CmdClaimCleanup.

Section machine.
Context `{Environment, HashOrder}.

Definition forget {A} (m : ST World A) : ST World () := m ≫= λ _, mret ().

Definition run_command (c : Command) : ST World () :=
  match c with
  | CmdCreateTable ct => forget (create_table ct)
  | CmdAddAlias t a => forget (add_alias t a)
  | CmdRemoveAlias t a => forget (remove_alias t a)
  | CmdCreateTemplate n b => forget (create_table_template n b)
  | CmdCreatePipeline n b => forget (create_pipeline n b)
  | CmdCreatePolicy n b => forget (create_lifetime_policy n b)
  | CmdSpeedboatCommit b => forget (speedboat_commit b)
  | CmdIcebergCommit t b => forget (iceberg_commit t b)
  | CmdExtensionCommit t b => forget (extension_commit t b)
  | CmdCompactionCommit t b => forget (compaction_commit t b)
  | CmdCleanupCommit b => forget (cleanup_commit b)
  | CmdAddCheckpoint b => add_checkpoint b
  | CmdUpdateAll => forget advance_published_checkpoints
  | CmdQueuePublication r => queue_checkpoint_publication r
  | CmdPlanCutover r => plan_checkpoint_cutover r
  | CmdGetCutoverState t e => forget (store_cutover_state t e)
  | CmdHeartbeat l => heartbeat_serving_node l
  | CmdRecordActivation a => record_serving_node_activation a
  | CmdRecordReadiness a => record_artifact_readiness a
  | CmdClaimExtension ty => forget (claim_extension_work_items ty)
  | CmdClaimCompaction => forget claim_compaction_work_items
  | CmdClaimCleanup => forget claim_cleanup_work_items
  end.

(** States reachable from a fresh service by commands that satisfy [ok]. *)
Inductive reachable (ok : Command → Prop) : World → Prop :=
| reach_init m ids reads : reachable ok (mkWorld (new m) ids reads)
| reach_step c w : ok c → reachable ok w → reachable ok (exec (run_command c) w).

(** ** Frames of the commit operations *)

(** Work-queue operations leave the cutover protocol, the registries and the
    committed checkpoints alone; waiting lists are never dropped. *)
Record queue_frame (w w' : World) : Prop := {
  qf_aliases : table_aliases (svc w') = table_aliases (svc w);
  qf_published : published_checkpoint_id (svc w') = published_checkpoint_id (svc w);
  qf_epochs : checkpoint_cutover_epochs (svc w') = checkpoint_cutover_epochs (svc w);
  qf_views : cutover_membership_views (svc w') = cutover_membership_views (svc w);
  qf_leases : serving_node_leases (svc w') = serving_node_leases (svc w);
  qf_activations : serving_node_activations (svc w') = serving_node_activations (svc w);
  qf_readiness : artifact_readiness_acks (svc w') = artifact_readiness_acks (svc w);
  qf_waiting : ∀ k, is_Some (checkpoints_needing_extension_work (svc w) !! k) →
                    is_Some (checkpoints_needing_extension_work (svc w') !! k);
  qf_ids : ids_used w ≤ ids_used w';
  qf_latest : latest_committed_checkpoint_id (svc w') = latest_committed_checkpoint_id (svc w);
  qf_checkpoints : checkpoints (svc w') = checkpoints (svc w);
}.

(** Commits also write checkpoints and latest ids, and never drop a checkpoint. *)
Record commit_frame (w w' : World) : Prop := {
  cf_aliases : table_aliases (svc w') = table_aliases (svc w);
  cf_published : published_checkpoint_id (svc w') = published_checkpoint_id (svc w);
  cf_epochs : checkpoint_cutover_epochs (svc w') = checkpoint_cutover_epochs (svc w);
  cf_views : cutover_membership_views (svc w') = cutover_membership_views (svc w);
  cf_leases : serving_node_leases (svc w') = serving_node_leases (svc w);
  cf_activations : serving_node_activations (svc w') = serving_node_activations (svc w);
  cf_readiness : artifact_readiness_acks (svc w') = artifact_readiness_acks (svc w);
  cf_waiting : ∀ k, is_Some (checkpoints_needing_extension_work (svc w) !! k) →
                    is_Some (checkpoints_needing_extension_work (svc w') !! k);
  cf_ids : ids_used w ≤ ids_used w';
  cf_checkpoints : ∀ k, is_Some (checkpoints (svc w) !! k) → is_Some (checkpoints (svc w') !! k);
}.

#[export] Instance queue_frame_preorder : PreOrder queue_frame.
Proof.
  split; [by constructor|]. intros w1 w2 w3 [] []. constructor; try congruence; [eauto|lia].
Qed.

#[export] Instance commit_frame_preorder : PreOrder commit_frame.
Proof.
  split; [by constructor|]. intros w1 w2 w3 [] []. constructor; try congruence; [eauto|lia|eauto].
Qed.

Lemma queue_commit_frame w w' : queue_frame w w' → commit_frame w w'.
Proof. intros []. constructor; try done. by intros k; congruence. Qed.

Lemma st_rel_queue_commit {A} (m : ST World A) : st_rel queue_frame m → st_rel commit_frame m.
Proof. intros Hm w. apply queue_commit_frame, Hm. Qed.

Lemma fresh_id_frame : st_rel queue_frame fresh_id.
Proof. intros w. by constructor; try done; simpl; lia. Qed.

Lemma insert_is_Some {V} (m : gmap string V) k v k' : is_Some (m !! k') → is_Some (<[k := v]> m !! k').
Proof. intros. apply lookup_insert_is_Some'. by right. Qed.

#[local] Hint Resolve fresh_id_frame : st_rel.

(** Field updates: all but the waiting lists and the id counter by computation. *)
Ltac solve_qframe :=
  constructor; simpl; try done; try lia; intros; eauto using insert_is_Some.

Lemma fill_frame t e c sch sf icf : st_rel queue_frame (fill_extension_work_item t e c sch sf icf).
Proof.
  rw /fill_extension_work_item /modify_svc. st_rel_tac; solve_qframe.
Qed.

Lemma maybe_compact_frame c : st_rel queue_frame (maybe_create_compaction_work_item c).
Proof. rw /maybe_create_compaction_work_item /modify_svc. st_rel_tac; solve_qframe. Qed.

Lemma replace_and_delete_frame id : st_rel queue_frame (replace_and_delete_checkpoints id).
Proof. rw /replace_and_delete_checkpoints /modify_svc. st_rel_tac; solve_qframe. Qed.

#[local] Hint Resolve fill_frame maybe_compact_frame replace_and_delete_frame : st_rel.
#[local] Hint Resolve st_rel_queue_commit : st_rel.

(** Commit operations. *)
Lemma commit_type_commit_frame ti c : st_rel commit_frame (speedboat_commit_type_commit ti c).
Proof. rw /speedboat_commit_type_commit /modify_svc. st_rel_tac; solve_qframe. Qed.

Lemma commit_type_delete_frame ti c : st_rel commit_frame (speedboat_commit_type_delete ti c).
Proof. rw /speedboat_commit_type_delete /modify_svc. st_rel_tac; solve_qframe. Qed.
#[local] Hint Resolve commit_type_commit_frame commit_type_delete_frame : st_rel.

Lemma speedboat_commit_frame c : st_rel commit_frame (speedboat_commit c).
Proof. rw /speedboat_commit. st_rel_tac; solve_qframe. Qed.

Lemma iceberg_commit_frame t c : st_rel commit_frame (iceberg_commit t c).
Proof. rw /iceberg_commit /modify_svc. st_rel_tac; solve_qframe. Qed.

Lemma add_checkpoint_frame c : st_rel commit_frame (add_checkpoint c).
Proof.
  rw /add_checkpoint /modify_svc. st_rel_tac; try solve [solve_qframe].
  - rw /upd. case_match; solve_qframe.
  - rw /upd. case_match; solve_qframe. 
Qed.

Lemma st_rel_map {S A B} (R : relation S) `{!PreOrder R} (f : A → ST S B) l :
  (∀ a, st_rel R (f a)) → st_rel R (st_map f l).
Proof.
  intros Hf. induction l as [|a l IH]; simpl; [apply st_rel_ret; apply _|].
  apply st_rel_bind; [apply _|apply Hf|intros b]. apply st_rel_bind; [apply _|done|intros bs].
  apply st_rel_ret; apply _.
Qed.

Lemma alter_is_Some {V} (m : gmap string V) f k k' : is_Some (m !! k') → is_Some (alter f k m !! k').
Proof. rw lookup_alter. case_decide; [|done]. by rw fmap_is_Some; subst. Qed.

Lemma add_coverage_for_frame t i c : st_rel commit_frame (add_coverage_for t i c).
Proof.
  rw /add_coverage_for /modify_svc. st_rel_tac; constructor; simpl; try done; intros; eauto using insert_is_Some, alter_is_Some.
Qed.
#[local] Hint Resolve add_coverage_for_frame : st_rel.

Lemma apply_work_item_frame t c : st_rel queue_frame (apply_extension_commit_to_work_item t c).
Proof. rw /apply_extension_commit_to_work_item /modify_svc. st_rel_tac; solve_qframe. Qed.
#[local] Hint Resolve apply_work_item_frame : st_rel.

Lemma extension_commit_frame t c : st_rel commit_frame (extension_commit t c).
Proof.
  rw /extension_commit /modify_svc. st_rel_tac; try solve [solve_qframe].
  - apply st_rel_map; [apply _|]. eauto with st_rel.
  - rw /upd. case_match; [case_match|]; solve_qframe.
Qed.

(** Claims read the clock and renew leases; a relation that allows both holds
    between the states before and after them. *)
Section claims_rel.
Context (R : relation World) `{!PreOrder R}.
Hypothesis R_clock : ∀ w w', svc w' = svc w → ids_used w' = ids_used w → R w w'.

Lemma lease_available_rel l w : R w (lease_is_available l w).2.
Proof. apply R_clock; by destruct l. Qed.

Lemma claim_extension_rel ty :
  (∀ f w, R w (upd (λ s, set_extension_work_items (alter f ty (extension_work_items s)) s) w)) →
  ∀ w, R w (get_extension_work_items ty w).2.
Proof.
  intros Hset. assert (Hloop : ∀ items w, R w (claim_extension_loop ty items w).2).
  { intros items. induction items as [|[t tr] items IH]; intros w; simpl; [reflexivity|].
    destruct (has_work _); [|apply IH].
    pose proof (lease_available_rel (et_lease_expires_at_ms tr) w) as Hl.
    destruct (lease_is_available _ w) as [[] w1]; simpl in Hl; (etrans; [exact Hl|]); [|apply IH].
    match goal with |- context [claim_extension_loop ty items ?w2] => specialize (IH w2) end.
    destruct (claim_extension_loop ty items _) as [cl w3]. simpl in *. etrans; [|exact IH].
    etrans; [|apply Hset]. by apply R_clock. }
  intros w. rw /get_extension_work_items. case_decide; [|reflexivity]. destruct (_ !! ty); [apply Hloop|reflexivity].
Qed.

Lemma claim_compaction_rel :
  (∀ t tr w, R w (upd (λ s, set_compaction_work_items (<[t := tr]> (compaction_work_items s)) s) w)) →
  ∀ w, R w (get_compaction_work_items w).2.
Proof.
  intros Hset w. rw /get_compaction_work_items. generalize (hash_iter (compaction_work_items (svc w))). intros items.
  revert w. induction items as [|[t tr] items IH]; intros w; simpl; [reflexivity|].
  pose proof (lease_available_rel (ct_lease_expires_at_ms tr) w) as Hl.
  destruct (lease_is_available _ w) as [[] w1]; simpl in Hl; (etrans; [exact Hl|]); [|apply IH].
  match goal with |- context [claim_compaction_loop items ?w2] => specialize (IH w2) end.
  destruct (claim_compaction_loop items _) as [cl w3]. simpl in *. etrans; [|exact IH].
  etrans; [|apply Hset]. by apply R_clock.
Qed.

Lemma ready_indexes_rel i items w : R w (ready_cleanup_indexes i items w).2.
Proof.
  revert i w. induction items as [|tr items IH]; intros i w; simpl; [reflexivity|].
  destruct (cleanup_work_item_is_ready _ _); [|apply IH].
  pose proof (lease_available_rel (clt_lease_expires_at_ms tr) w) as Hl.
  destruct (lease_is_available _ w) as [b w1]; simpl in Hl.
  specialize (IH (S i) w1). destruct (ready_cleanup_indexes (S i) items w1) as [l w2]. simpl in *.
  etrans; [exact Hl|exact IH].
Qed.

Lemma claim_cleanup_rel :
  (∀ i tr w, R w (upd (λ s, set_cleanup_work_items (<[i := tr]> (cleanup_work_items s)) s) w)) →
  ∀ w, R w (get_cleanup_work_items w).2.
Proof.
  intros Hset. assert (Hloop : ∀ l w, R w (claim_cleanup_loop l w).2).
  { intros l. induction l as [|i l IH]; intros w; simpl; [reflexivity|].
    destruct (cleanup_work_items (svc w) !! i) as [tr|]; [|reflexivity].
    match goal with |- context [claim_cleanup_loop l ?w2] => specialize (IH w2) end.
    destruct (claim_cleanup_loop l _) as [cl w3]. simpl in *. etrans; [|exact IH].
    etrans; [|apply Hset]. by apply R_clock. }
  intros w. rw /get_cleanup_work_items. pose proof (ready_indexes_rel 0 (cleanup_work_items (svc w)) w) as Hf.
  destruct (ready_cleanup_indexes _ _ _) as [l w1]. etrans; [exact Hf|apply Hloop].
Qed.
End claims_rel.

(** The claims of the trait leave the state the claims of the service leave. *)
Lemma claim_impl_state :
  (∀ ty w, (claim_extension_work_items_impl ty w).2 = (get_extension_work_items ty w).2) ∧
  (∀ w, (claim_compaction_work_items_impl w).2 = (get_compaction_work_items w).2) ∧
  (∀ w, (claim_cleanup_work_items_impl w).2 = (get_cleanup_work_items w).2).
Proof.
  split_and!; intros; rw /claim_extension_work_items_impl /claim_compaction_work_items_impl /claim_cleanup_work_items_impl.
  - by destruct (get_extension_work_items ty w).
  - by destruct (get_compaction_work_items w).
  - by destruct (get_cleanup_work_items w).
Qed.

Lemma claims_frame :
  (∀ ty w, queue_frame w (claim_extension_work_items_impl ty w).2) ∧
  (∀ w, queue_frame w (claim_compaction_work_items_impl w).2) ∧
  (∀ w, queue_frame w (claim_cleanup_work_items_impl w).2).
Proof.
  destruct claim_impl_state as (He & Hc & Hl).
  assert (∀ w w', svc w' = svc w → ids_used w' = ids_used w → queue_frame w w').
  { intros w w' Hs Hi. constructor; rw ?Hs ?Hi //. }
  split_and!; intros; rw ?He ?Hc ?Hl;
    [apply claim_extension_rel|apply claim_compaction_rel|apply claim_cleanup_rel]; solve [apply _|auto|intros; solve_qframe].
Qed.

(** ** Commands outside the cutover protocol *)

(** What such a command leaves alone. *)
Record protocol_frame (w w' : World) : Prop := {
  pf_published : published_checkpoint_id (svc w') = published_checkpoint_id (svc w);
  pf_epochs : checkpoint_cutover_epochs (svc w') = checkpoint_cutover_epochs (svc w);
  pf_views : cutover_membership_views (svc w') = cutover_membership_views (svc w);
  pf_leases : serving_node_leases (svc w') = serving_node_leases (svc w);
  pf_activations : serving_node_activations (svc w') = serving_node_activations (svc w);
  pf_readiness : artifact_readiness_acks (svc w') = artifact_readiness_acks (svc w);
  pf_waiting : ∀ k, is_Some (checkpoints_needing_extension_work (svc w) !! k) →
                    is_Some (checkpoints_needing_extension_work (svc w') !! k);
}.

#[export] Instance protocol_frame_preorder : PreOrder protocol_frame.
Proof. split; [by constructor|]. intros w1 w2 w3 [] []. constructor; try congruence; eauto. Qed.

Lemma commit_protocol_frame w w' : commit_frame w w' → protocol_frame w w'.
Proof. intros []. by constructor. Qed.

Definition is_cutover_command (c : Command) : bool :=
  match c with
  | CmdUpdateAll | CmdPlanCutover _ | CmdGetCutoverState _ _ | CmdHeartbeat _
  | CmdRecordActivation _ | CmdRecordReadiness _ => true
  | _ => false
  end.

Definition is_alias_command (c : Command) : bool :=
  match c with CmdAddAlias _ _ | CmdRemoveAlias _ _ => true | _ => false end.

Lemma exec_forget {A} (m : ST World A) w : exec (forget m) w = exec m w.
Proof. rw /exec /forget st_bind_unfold. by destruct (m w) as [[] ?]. Qed.

Lemma exec_st_update {A} (f : World → A * World) w : exec (st_update f) w = (f w).2.
Proof. rw /exec /st_update. by destruct (f w). Qed.

Lemma create_table_frame ct : st_rel queue_frame (create_table ct).
Proof. rw /create_table /modify_svc. st_rel_tac. rw /upd. case_match; solve_qframe. Qed.

Lemma registry_frame :
  (∀ n b, st_rel queue_frame (create_table_template n b)) ∧
  (∀ n b, st_rel queue_frame (create_pipeline n b)) ∧
  (∀ n b, st_rel queue_frame (create_lifetime_policy n b)) ∧
  (∀ t b, st_rel queue_frame (compaction_commit t b)) ∧
  (∀ b, st_rel queue_frame (cleanup_commit b)).
Proof.
  split_and!; intros; rw /create_table_template /create_pipeline /create_lifetime_policy
    /compaction_commit /cleanup_commit /modify_svc; st_rel_tac; try solve [solve_qframe].
  rw /upd. case_match; solve_qframe.
Qed.

Lemma st_rel_exec {A} (R : relation World) (m : ST World A) w : st_rel R m → R w (exec m w).
Proof. intros Hm. apply Hm. Qed.

Lemma command_commit_frame c w :
  is_cutover_command c = false → is_alias_command c = false → commit_frame w (exec (run_command c) w).
Proof.
  pose proof registry_frame as (? & ? & ? & ? & ?). pose proof claims_frame as (Hce & Hcc & Hcl).
  intros Hc Ha. destruct c; try discriminate; simpl; rw ?exec_forget;
    rw /claim_extension_work_items /claim_compaction_work_items /claim_cleanup_work_items /= ?exec_st_update;
    try (apply st_rel_exec; solve [eauto using create_table_frame, speedboat_commit_frame, iceberg_commit_frame,
      extension_commit_frame, add_checkpoint_frame, st_rel_queue_commit]); auto using queue_commit_frame.
  rw /exec /=. solve_qframe.
Qed.

Lemma command_protocol_frame c w :
  is_cutover_command c = false → protocol_frame w (exec (run_command c) w).
Proof.
  intros Hc. destruct (is_alias_command c) eqn:Ha.
  - destruct c; try discriminate; rw /= exec_forget; by constructor.
  - by apply commit_protocol_frame, command_commit_frame.
Qed.

(** ** The cutover invariant *)

(** A view carries the current epoch of its selector and lists the required nodes
    sorted and without duplicates; readiness reports and activations are filed under
    their own class and node. *)
Record cutover_ok (s : EphemeralServiceImpl) : Prop := {
  co_epoch : ∀ k v, cutover_membership_views s !! k = Some v → checkpoint_cutover_epochs s !! k = Some (cmv_epoch v);
  co_required : ∀ k v, cutover_membership_views s !! k = Some v →
    NoDup (cmv_required_node_ids v) ∧ Sorted String.le (cmv_required_node_ids v);
  co_readiness : readiness_keyed s;
  co_activations : ∀ k acks n ack, serving_node_activations s !! k = Some acks → acks !! n = Some ack → sna_node_id ack = n;
}.

Lemma cutover_ok_protocol_frame w w' : protocol_frame w w' → cutover_ok (svc w) → cutover_ok (svc w').
Proof.
  intros [Hp He Hv Hl Ha Hr Hw] [H1 H2 H3 H4]. constructor; rw /readiness_keyed ?Hv ?He ?Ha ?Hr; done.
Qed.

Lemma cutover_ok_recaptured t e c w : cutover_ok (svc w) → cutover_ok (svc (recaptured t e c w)).
Proof.
  intros [H1 H2 H3 H4]. constructor; simpl.
  - intros k v. destruct (decide (k = selector_group_key t e)) as [->|].
    + rw !lookup_insert_eq. by intros [= <-].
    + rw !lookup_insert_ne; [congruence..|]. apply H1.
  - intros k v. destruct (decide (k = selector_group_key t e)) as [->|].
    + rw !lookup_insert_eq. intros [= <-]. split; [apply sorted_ids_NoDup|apply sorted_ids_Sorted].
    + rw !lookup_insert_ne; [congruence..|]. apply H2.
  - done.
  - intros k acks n ack [_ Hk]%lookup_delete_Some. by apply H4 with k.
Qed.

Lemma cutover_ok_live w : cutover_ok (svc w) → cutover_ok (svc (live_serving_node_ids w).2).
Proof. by intros []. Qed.

Lemma cutover_ok_capture t e c w : cutover_ok (svc w) → cutover_ok (svc (capture_cutover_membership_for_target t e c w)).
Proof. rw capture_spec. case_decide; [done|apply cutover_ok_recaptured]. Qed.

Lemma cutover_ok_backfill t e c w : cutover_ok (svc w) → cutover_ok (svc (backfill_cutover_membership_for_target t e c w)).
Proof.
  intros Hok. destruct (backfill_spec t e c w) as [->|[->|(v & Hv & _ & _ & ->)]]; [done|by apply cutover_ok_live|].
  destruct Hok as [H1 H2 H3 H4]. constructor; simpl; [..|done|done].
  - intros k v'. destruct (decide (k = selector_group_key t e)) as [->|].
    + rw lookup_insert_eq. intros [= <-]. exact (H1 _ _ Hv).
    + rw lookup_insert_ne; [congruence|]. apply H1.
  - intros k v'. destruct (decide (k = selector_group_key t e)) as [->|].
    + rw lookup_insert_eq. intros [= <-]. split; [apply sorted_ids_NoDup|apply sorted_ids_Sorted].
    + rw lookup_insert_ne; [congruence|]. apply H2.
Qed.

Lemma cutover_ok_activation t e c w : cutover_ok (svc w) → cutover_ok (svc (activation_matches_target t e c w).2).
Proof.
  intros Hok%(cutover_ok_backfill t e c). rw /activation_matches_target.
  set (w1 := backfill_cutover_membership_for_target t e c w) in *. clearbody w1.
  assert (Hok' : cutover_ok (svc (maybe_reconfigure_cutover_membership_for_target t e c w1))).
  { destruct (reconfigure_spec t e c w1) as [->|[_ [->| ->]]];
      [done|by apply cutover_ok_live|by apply cutover_ok_recaptured]. }
  repeat case_match; done.
Qed.

Lemma cutover_ok_clear_readiness t e w : cutover_ok (svc w) → cutover_ok (svc (clear_artifact_readiness t e w)).
Proof.
  intros [H1 H2 H3 H4]. constructor; simpl; try done.
  intros k acks cls ack Hk. simpl in Hk. apply lookup_delete_Some in Hk as [_ Hk]. by apply H3 with k.
Qed.

Lemma cutover_ok_step t w w' : publication_step t w w' → cutover_ok (svc w) → cutover_ok (svc w').
Proof.
  intros [e w0 _|e w0 _|w0 _] Hok.
  - rw advance_spec. case_match; [|done]. case_decide; [done|].
    by apply cutover_ok_recaptured, cutover_ok_clear_readiness.
  - rw /promote_active_checkpoint_if_ready. case_match; [|done]. case_decide; [done|]. case_match; [done|].
    match goal with |- context [activation_matches_target t e ?c w0] =>
      pose proof (cutover_ok_activation t e c w0 Hok) as Hok'; destruct (activation_matches_target t e c w0) as [[] w1] end;
      by destruct Hok'.
  - by destruct Hok.
Qed.

Lemma cutover_ok_pass ts w w' : rtc (pass_step ts) w w' → cutover_ok (svc w) → cutover_ok (svc w').
Proof. induction 1 as [|w1 w2 w3 (t & _ & Hs) _ IH]; [done|]. intros Hok. eapply IH, cutover_ok_step; [exact Hs|exact Hok]. Qed.

Lemma insert_default_lookup `{Countable K0} `{Countable K} {V} (m : gmap K0 (gmap K V)) k k' i v (acks : gmap K V) :
  <[k := <[i := v]> (default ∅ (m !! k))]> m !! k' = Some acks →
  ∀ j x, acks !! j = Some x → (j = i ∧ x = v) ∨ ∃ acks', m !! k' = Some acks' ∧ acks' !! j = Some x.
Proof.
  intros Hk j x Hj. destruct (decide (k' = k)) as [->|].
  - rw lookup_insert_eq in Hk. injection Hk as <-.
    destruct (decide (j = i)) as [->|].
    + rw lookup_insert_eq in Hj. injection Hj as <-. by left.
    + rw lookup_insert_ne in Hj; [congruence|]. destruct (m !! k) as [acks'|]; [|done]. eauto.
  - rw lookup_insert_ne in Hk; [congruence|]. eauto.
Qed.

Lemma update_all_pass w :
  rtc (pass_step (cur_table_name <$> (hash_iter (checkpoint_publication_requests (svc w))).*2)) w (update_all_checkpoints w).2.
Proof. apply update_requests_steps. intros r Hr. apply list_elem_of_fmap. by exists r. Qed.

Lemma cutover_ok_command c w : cutover_ok (svc w) → cutover_ok (svc (exec (run_command c) w)).
Proof.
  intros Hok. destruct (is_cutover_command c) eqn:Hc.
  2: { eapply cutover_ok_protocol_frame; [by apply command_protocol_frame|done]. }
  destruct c; try discriminate; simpl; rw ?exec_forget ?exec_st_update.
  - eapply cutover_ok_pass; [apply update_all_pass|done].
  - rw /exec /= /plan_checkpoint_cutover_impl. case_decide; [done|]. apply cutover_ok_capture. by destruct Hok.
  - rw /get_checkpoint_cutover_state_impl /=. case_match; [|done]. by apply cutover_ok_backfill, cutover_ok_capture.
  - by destruct Hok.
  - destruct Hok as [H1 H2 H3 H4]. constructor; try done. intros k acks n ack' Hk Hn.
    destruct (insert_default_lookup _ _ _ _ _ _ Hk _ _ Hn) as [[-> ->]|(? & ? & ?)]; [done|eauto].
  - destruct Hok as [H1 H2 H3 H4]. constructor; try done. intros k acks n ack' Hk Hn.
    destruct (insert_default_lookup _ _ _ _ _ _ Hk _ _ Hn) as [[-> ->]|(? & ? & ?)]; [done|eauto].
Qed.

(** ** Committed and published ids resolve

    Without aliases, a latest-committed id always has its checkpoint. *)
Definition latest_resolves (s : EphemeralServiceImpl) : Prop :=
  ∀ e m t id, latest_committed_checkpoint_id s !! e = Some m → m !! t = Some id → is_Some (checkpoints s !! key2 t id).

Definition published_resolves (s : EphemeralServiceImpl) : Prop :=
  ∀ t e id, e ∈ [None; Some "es"] → get_published_checkpoint_sync s Active t e = Some id → is_Some (checkpoints s !! key2 t id).

Definition committed_ok (w : World) : Prop := table_aliases (svc w) = ∅ ∧ latest_resolves (svc w).

Lemma committed_ok_queue w w' : queue_frame w w' → committed_ok w → committed_ok w'.
Proof.
  intros [Ha _ _ _ _ _ _ _ _ Hl Hc] [H1 H2]. split; [congruence|]. rw /latest_resolves Hl Hc. exact H2.
Qed.

(** The same with a checkpoint of interest. *)
Definition committed_with (t id : string) (w : World) : Prop :=
  committed_ok w ∧ is_Some (checkpoints (svc w) !! key2 t id).

Lemma committed_with_queue t id w w' : queue_frame w w' → committed_with t id w → committed_with t id w'.
Proof. intros Hf [H1 H2]. split; [exact (committed_ok_queue _ _ Hf H1)|]. by rw (qf_checkpoints _ _ Hf). Qed.

Lemma committed_put t id c w : committed_ok w → committed_with t id (upd (put_checkpoint t id c) w).
Proof.
  intros [H1 H2]. split; [split; [done|]|by rw /= lookup_insert_eq; eexists].
  intros e m t' id' He Hm. apply insert_is_Some. exact (H2 _ _ _ _ He Hm).
Qed.

Lemma committed_set_key t e id w :
  committed_with t id w → committed_ok (upd (set_latest_committed_checkpoint_key e t id) w).
Proof.
  intros [[H1 H2] H3]. split; [done|]. intros e' m t' id' He Hm. simpl in He.
  destruct (insert_default_lookup _ _ _ _ _ _ He _ _ Hm) as [[-> ->]|(m' & ? & ?)]; [done|eauto].
Qed.

Lemma committed_set t e id w :
  committed_with t id w → committed_ok (upd (set_latest_committed_checkpoint t e id) w).
Proof.
  intros Hw. destruct (Hw) as [[H1 _] _].
  rw /set_latest_committed_checkpoint /real_table_name /upd. rw H1 lookup_empty /=. by apply committed_set_key.
Qed.

(** A work-queue operation keeps any property its frame keeps. *)
Lemma wp_queue {A} (m : ST World A) (P : World → Prop) w :
  st_rel queue_frame m → (∀ w w', queue_frame w w' → P w → P w') → P w → wp m (λ _, P) P w.
Proof. intros Hm HP Hw. eapply wp_mono; [apply (wp_st_rel queue_frame), Hm| |]; simpl; eauto. Qed.

Lemma committed_draw w : committed_ok w → committed_ok (draw_id w).2.
Proof. done. Qed.

Lemma commit_type_commit_ok ti comp w :
  committed_ok w → wp (speedboat_commit_type_commit ti comp) (λ _, committed_ok) committed_ok w.
Proof.
  intros Hw. rw /speedboat_commit_type_commit /modify_svc /fresh_id.
  do 2 wp_step. wp_step. wp_step; [intros latest _|done].
  do 2 wp_step. apply committed_draw in Hw. set (w1 := (draw_id w).2) in *. set (id := (draw_id w).1).
  wp_step. wp_step; [intros files _|done]. wp_step. wp_step; [intros sch _|done]. cbv zeta.
  wp_step. wp_step; [intros c _|done]. wp_step. wp_step; [intros [c' [sf icf]] _|done].
  wp_step. wp_step. wp_step.
  eapply wp_mono; [apply (wp_queue _ (committed_with (ti_table_name ti) id));
    [apply fill_frame|apply committed_with_queue|by apply committed_put]| |by intros ? []].
  intros [] w2 Hw2. wp_step. wp_step.
  apply wp_queue; [apply maybe_compact_frame|apply committed_ok_queue|by apply committed_set].
Qed.

Lemma commit_type_delete_ok ti comp w :
  committed_ok w → wp (speedboat_commit_type_delete ti comp) (λ _, committed_ok) committed_ok w.
Proof.
  intros Hw. rw /speedboat_commit_type_delete /modify_svc /fresh_id.
  do 2 wp_step. wp_step. wp_step; [intros latest _|done].
  do 2 wp_step. apply committed_draw in Hw. cbv zeta.
  wp_step. wp_step; [intros c _|done]. wp_step. wp_step; [intros [c' fs] _|done].
  wp_step. wp_step. wp_step. by apply committed_set, committed_put.
Qed.

Lemma speedboat_commit_ok c w : committed_ok w → wp (speedboat_commit c) (λ _, committed_ok) committed_ok w.
Proof.
  intros Hw. rw /speedboat_commit. wp_step. wp_step; [intros [] _|done]. wp_step.
  eapply wp_mono; [apply (wp_iter _ committed_ok); [exact Hw|]| |done].
  - intros ti w1 _ Hw1. destruct (decide _); [by apply commit_type_commit_ok|].
    destruct (decide _); [by apply commit_type_delete_ok|]. by wp_step.
  - intros [] w1 Hw1. cbv zeta. wp_step.
    eapply wp_mono; [apply (wp_iter _ committed_ok); [exact Hw1|]| |done]; [by intros|by intros [] w2 Hw2].
Qed.

Lemma iceberg_commit_ok t c w : committed_ok w → wp (iceberg_commit t c) (λ _, committed_ok) committed_ok w.
Proof.
  intros Hw. rw /iceberg_commit /modify_svc /fresh_id.
  do 2 wp_step. wp_step. wp_step; [intros latest _|done].
  do 2 wp_step. apply committed_draw in Hw. wp_step. wp_step; [intros sch _|done]. cbv zeta.
  wp_step. wp_step; [intros c1 _|done]. wp_step. wp_step; [intros [c2 [sf icf]] _|done].
  do 4 wp_step. wp_step.
  eapply wp_mono; [apply (wp_queue _ committed_ok);
    [apply fill_frame|apply committed_ok_queue|by apply committed_set, committed_put]| |done].
  intros [] w1 Hw1. wp_step.
  eapply wp_mono; [apply (wp_iter _ committed_ok); [exact Hw1|]| |done].
  - intros i w2 _ Hw2. wp_step.
    eapply wp_mono; [apply (wp_queue _ committed_ok);
      [apply replace_and_delete_frame|apply committed_ok_queue|exact Hw2]| |done].
    intros item w3 Hw3. by wp_step.
  - intros [] w2 Hw2. wp_step. wp_step. by wp_step.
Qed.

Lemma add_checkpoint_ok c w : committed_ok w → wp (add_checkpoint c) (λ _, committed_ok) committed_ok w.
Proof.
  intros Hw. rw /add_checkpoint /modify_svc. cbv zeta. do 4 wp_step. do 2 wp_step.
  match goal with |- wp _ _ _ (upd ?h (upd ?g (upd ?f w))) =>
    set (w1 := upd f w); set (w2 := upd g w1); set (w3 := upd h w2) end.
  assert (Hw1 : committed_ok w1) by (rw /w1 /upd; case_match; done).
  assert (Hw2 : committed_with (cp_table_name c) (cp_checkpoint_id c) w2).
  { clearbody w1. rw /w2. clear w2 w3.
    destruct (checkpoints (svc w1) !! key2 (cp_table_name c) (cp_checkpoint_id c)) eqn:Hc; [|rw /upd Hc; by apply committed_put].
    rw /upd Hc. split; [by destruct Hw1|by rw /= Hc; eexists]. }
  assert (Hw3 : committed_with (cp_table_name c) (cp_checkpoint_id c) w3).
  { split; [by apply committed_set_key|apply Hw2]. }
  wp_step. case_decide.
  - eapply wp_mono; [apply (wp_iter _ (committed_with (cp_table_name c) (cp_checkpoint_id c))); [exact Hw3|]| |by intros ? []].
    + intros e w4 _ Hw4. wp_step. split; [by apply committed_set_key|apply Hw4].
    + intros [] w4 [Hw4 _]. by wp_step.
  - eapply wp_mono; [apply (wp_queue _ committed_ok); [apply fill_frame|apply committed_ok_queue|apply Hw3]| |done].
    intros [] w4 Hw4. by wp_step.
Qed.

Lemma wp_and {S A} (m : ST S A) Q Q' E E' s :
  wp m Q E s → wp m Q' E' s → wp m (λ a s, Q a s ∧ Q' a s) (λ s, E s ∧ E' s) s.
Proof. rw /wp. destruct (m s) as [[] ?]; done. Qed.

Lemma wp_map {S A B} (R : relation S) `{!PreOrder R} (f : A → ST S B) (I : S → Prop) (P : B → S → Prop) l s :
  (∀ a, st_rel R (f a)) → (∀ b s s', R s s' → P b s → P b s') →
  (∀ a s', I s' → wp (f a) (λ b s'', I s'' ∧ P b s'') I s') →
  I s → wp (st_map f l) (λ bs s', I s' ∧ ∀ b, b ∈ bs → P b s') I s.
Proof.
  intros HR HP Hf. revert s. induction l as [|a l IH]; intros s HI; simpl.
  { wp_step. split; [done|]. intros b Hb. by apply elem_of_nil in Hb. }
  wp_step. eapply wp_mono; [by apply Hf| |done]. intros b s1 [HI1 Hb]. wp_step.
  eapply wp_mono; [apply wp_and; [by apply IH|by apply (wp_st_rel R), st_rel_map]| |by intros ? []].
  intros bs s2 [[HI2 Hbs] HR2]. wp_step. split; [done|].
  intros b' [->|Hb']%elem_of_cons; [exact (HP _ _ _ HR2 Hb)|by apply Hbs].
Qed.

Lemma max_string_elem x l : max_string x l ∈ x :: l.
Proof.
  revert x. induction l as [|y l IH]; intros x; simpl; [left|].
  destruct (String.leb x y); [right; apply IH|].
  specialize (IH x). apply elem_of_cons in IH as [->|?]; [left|right; by right].
Qed.

Lemma add_coverage_for_ok t x c w :
  committed_ok w →
  wp (add_coverage_for t x c)
    (λ o w', committed_ok w' ∧ ∀ id, o = Some id → is_Some (checkpoints (svc w') !! key2 t id)) committed_ok w.
Proof.
  intros Hw. rw /add_coverage_for /modify_svc. do 2 wp_step. wp_step. wp_step; [intros cp _|done]. cbv zeta.
  do 2 wp_step. match goal with |- wp _ _ _ (upd (put_checkpoint _ _ ?cp') _) => pose proof (committed_put t x cp' w Hw) as Hp end.
  set (w1 := upd _ w) in *. wp_step. wp_step; [intros b _|apply Hp]. destruct b.
  - wp_step. wp_step. wp_step. split; [by destruct Hp as [[] _]|]. intros id [= <-]. by destruct Hp.
  - wp_step. by split; [destruct Hp|].
Qed.

Lemma elem_of_omap_id {A} (l : list (option A)) x : x ∈ omap id l → Some x ∈ l.
Proof. intros (y & Hy & Heq)%list_elem_of_omap. simpl in Heq. by subst. Qed.

Lemma extension_commit_ok t c w : committed_ok w → wp (extension_commit t c) (λ _, committed_ok) committed_ok w.
Proof.
  intros Hw. rw /extension_commit /modify_svc. do 2 wp_step. cbv zeta. wp_step. wp_step; [intros [] _|done]. wp_step.
  eapply wp_mono; [apply (wp_map commit_frame _ committed_ok
    (λ o w', ∀ id, o = Some id → is_Some (checkpoints (svc w') !! key2 t id)));
    [intros; apply add_coverage_for_frame| |intros; by apply add_coverage_for_ok|exact Hw]| |done].
  { intros o w1 w2 Hf Ho id Hid. by apply (cf_checkpoints _ _ Hf), Ho. }
  intros covered w1 [Hw1 Hcov].
  destruct (omap id covered) as [|first rest] eqn:Hom; [by wp_step|].
  assert (Hmax : is_Some (checkpoints (svc w1) !! key2 t (max_string first rest))).
  { apply (Hcov (Some (max_string first rest))); [|done].
    apply elem_of_omap_id. rw Hom. apply max_string_elem. }
  set (mx := max_string first rest) in *. do 2 wp_step. wp_step.
  eapply wp_mono; [apply (wp_queue _ (committed_with t mx)); [apply apply_work_item_frame|apply committed_with_queue|done]| |by intros ? []].
  intros [] w2 Hw2. do 2 wp_step. wp_step. wp_step. wp_step. rw /upd /=.
  destruct (get_latest_materialized_checkpoint_sync (svc w2) t (Some "es")) as [latest|].
  - destruct (String.ltb latest mx); [by apply (committed_set t (Some "es") mx w2)|by destruct Hw2].
  - by apply (committed_set t (Some "es") mx w2).
Qed.

(** The cutover commands never touch the committed data. *)
Record data_frame (w w' : World) : Prop := {
  df_aliases : table_aliases (svc w') = table_aliases (svc w);
  df_latest : latest_committed_checkpoint_id (svc w') = latest_committed_checkpoint_id (svc w);
  df_checkpoints : checkpoints (svc w') = checkpoints (svc w);
  df_waiting : checkpoints_needing_extension_work (svc w') = checkpoints_needing_extension_work (svc w);
  df_items : extension_work_items (svc w') = extension_work_items (svc w);
  df_cleanup : cleanup_work_items (svc w') = cleanup_work_items (svc w);
  df_mode : mode (svc w') = mode (svc w);
  df_ids : ids_used w' = ids_used w;
}.

#[export] Instance data_frame_preorder : PreOrder data_frame.
Proof. split; [by constructor|]. intros w1 w2 w3 [] []. constructor; congruence. Qed.

Lemma cutover_data_frame w w' : cutover_frame w w' → data_frame w w'.
Proof. intros [Hs Hi]. constructor; [by rw Hs..|done]. Qed.

Lemma step_data_frame t w w' : publication_step t w w' → data_frame w w'.
Proof.
  intros [e w0 _|e w0 _|w0 _]; [| |done].
  - rw advance_spec. case_match; [|reflexivity]. case_decide; [reflexivity|].
    etrans; [|apply cutover_data_frame, recaptured_frame]. done.
  - rw /promote_active_checkpoint_if_ready. case_match; [|reflexivity]. case_decide; [reflexivity|].
    case_match; [reflexivity|].
    match goal with |- context [activation_matches_target t e ?c w0] =>
      pose proof (cutover_data_frame _ _ (activation_frame t e c w0)) as Hf;
      destruct (activation_matches_target t e c w0) as [[] w1] end; [|done].
    etrans; [exact Hf|]. done.
Qed.

Lemma pass_data_frame ts w w' : rtc (pass_step ts) w w' → data_frame w w'.
Proof.
  induction 1 as [|w1 w2 w3 (t & _ & Hs) _ IH]; [reflexivity|].
  etrans; [exact (step_data_frame _ _ _ Hs)|exact IH].
Qed.

Lemma cutover_command_data_frame c w : is_cutover_command c = true → data_frame w (exec (run_command c) w).
Proof.
  intros Hc. destruct c; try discriminate; simpl; rw ?exec_forget ?exec_st_update; try done.
  - eapply pass_data_frame, update_all_pass.
  - rw /exec /= /plan_checkpoint_cutover_impl. case_decide; [reflexivity|].
    etrans; [|apply cutover_data_frame, capture_frame]. done.
  - rw /get_checkpoint_cutover_state_impl /=. case_match; [|reflexivity].
    apply cutover_data_frame. etrans; [apply capture_frame|apply backfill_frame].
Qed.

Lemma committed_ok_data w w' : data_frame w w' → committed_ok w → committed_ok w'.
Proof. intros [Ha Hl Hc _ _ _ _ _] [H1 H2]. split; [congruence|]. rw /latest_resolves Hl Hc. exact H2. Qed.

Lemma committed_ok_command c w :
  is_alias_command c = false → committed_ok w → committed_ok (exec (run_command c) w).
Proof.
  intros Ha Hw. destruct (is_cutover_command c) eqn:Hc.
  { by eapply committed_ok_data, Hw; apply cutover_command_data_frame. }
  pose proof registry_frame as (? & ? & ? & ? & ?). pose proof claims_frame as (Hce & Hcc & Hcl).
  destruct c; try discriminate; simpl; rw ?exec_forget;
    rw /claim_extension_work_items /claim_compaction_work_items /claim_cleanup_work_items /= ?exec_st_update;
    try (refine (committed_ok_queue w _ _ Hw); solve [auto | apply st_rel_exec; auto using create_table_frame]);
    try (apply exec_wp; auto using speedboat_commit_ok, iceberg_commit_ok, extension_commit_ok, add_checkpoint_ok).
Qed.

(** ** Active pointers resolve *)

Lemma selector_key_inj t e t' e' :
  e ∈ [None; Some "es"] → e' ∈ [None; Some "es"] →
  selector_storage_key Active t e = selector_storage_key Active t' e' → t = t' ∧ e = e'.
Proof.
  rw !elem_of_cons !elem_of_nil. intros [->|[->|[]]] [->|[->|[]]];
    rw /selector_storage_key /= => Heq; simplify_eq; done.
Qed.

Lemma selector_key_roles t e t' e' : selector_storage_key Active t e ≠ selector_storage_key Target t' e'.
Proof. rw /selector_storage_key /=. discriminate. Qed.

Lemma latest_resolves_get s t e c :
  table_aliases s = ∅ → latest_resolves s → get_latest_materialized_checkpoint_sync s t e = Some c →
  is_Some (checkpoints s !! key2 t c).
Proof.
  intros Ha Hl. rw /get_latest_materialized_checkpoint_sync /real_table_name Ha lookup_empty /=.
  intros (m & Hm & Hc)%bind_Some. exact (Hl _ _ _ _ Hm Hc).
Qed.

Lemma published_ok_command c w :
  is_alias_command c = false → committed_ok w → published_resolves (svc w) →
  published_resolves (svc (exec (run_command c) w)).
Proof.
  intros Ha [Hal Hlr] Hp. destruct (is_cutover_command c) eqn:Hc.
  2: { intros t e i He. rw /get_published_checkpoint_sync (cf_published _ _ (command_commit_frame c w Hc Ha)).
       intros Hi. apply (cf_checkpoints _ _ (command_commit_frame c w Hc Ha)). by apply (Hp t e). }
  intros t e i He. rw (df_checkpoints _ _ (cutover_command_data_frame c w Hc)).
  destruct c; try discriminate; simpl; rw ?exec_forget ?exec_st_update; try by apply Hp.
  - rw /get_published_checkpoint_sync. intros Hi.
    destruct (decide (published_checkpoint_id (svc (update_all_checkpoints w).2) !! selector_storage_key Active t e
      = published_checkpoint_id (svc w) !! selector_storage_key Active t e)) as [Heq|Hne].
    + rw Heq in Hi. by apply (Hp t e).
    + destruct (pass_published _ _ _ _ (update_all_pass w) Hne) as (t' & e' & c' & wm & _ & He' & Hk & Hl & Hpub & _).
      apply selector_key_inj in Hk as [<- <-]; [|done..].
      rw Hi in Hpub. injection Hpub as <-. exact (latest_resolves_get _ _ _ _ Hal Hlr Hl).
  - rw /exec /= /plan_checkpoint_cutover_impl. case_decide; [by apply Hp|].
    rw (frame_get_published _ _ _ _ _ (capture_frame _ _ _ _)) /get_published_checkpoint_sync /=.
    rw lookup_insert_ne; [apply not_eq_sym, selector_key_roles|]. by apply Hp.
  - rw /get_checkpoint_cutover_state_impl /=. case_match; [|by apply Hp].
    rw (frame_get_published w); [etrans; [apply capture_frame|apply backfill_frame]|]. by apply Hp.
Qed.
End machine.

(** ** Properties *)
Module ServiceTheory.
Section theorems.
Context `{Environment, HashOrder}.

(** C15. In every reachable state, whatever commands were issued and however they
    ended, each membership view carries the current epoch of its selector and lists
    its required nodes sorted and without duplicates, and readiness reports and
    activation acknowledgements are filed under their own class and node.  Hence the
    evidence a promotion needs is always from the current epoch. *)
Theorem reachable_cutover_ok ok w :
  reachable ok w →
  cutover_ok (svc w) ∧
  ∀ t e c, activation_evidence (svc w) t e c →
    ∃ view acks ep, get_cutover_membership_view (svc w) t e = Some view ∧
      checkpoint_cutover_epochs (svc w) !! selector_group_key t e = Some ep ∧
      serving_node_activations (svc w) !! selector_group_key t e = Some acks ∧
      ∀ n, n ∈ cmv_required_node_ids view →
        ∃ ack, acks !! n = Some ack ∧ sna_node_id ack = n ∧ sna_checkpoint_id ack = c ∧ sna_epoch ack = ep.
Proof.
  intros Hr. assert (Hok : cutover_ok (svc w)).
  { induction Hr as [m ids reads|c w _ _ IH]; [by constructor|]. by apply cutover_ok_command. }
  split; [done|]. intros t e c (view & acks & Hv & _ & _ & Ha & Hall & _).
  exists view, acks, (cmv_epoch view). split_and!; [done|by apply (co_epoch _ Hok)|done|].
  intros n Hn. destruct (Hall n Hn) as (ack & Hack & Hc & He). exists ack. split_and!; try done.
  exact (co_activations _ Hok _ _ _ _ Ha Hack).
Qed.

(** C23. In every state reachable without alias commands, each latest-committed id
    and each active pointer names a stored checkpoint of its table.  So the "checkpoint
    missing" panic of the commit handlers cannot occur: looking up the base of a new
    checkpoint succeeds whenever the first checkpoint of a table can be built. *)
Theorem committed_checkpoints_resolve w :
  reachable (λ c, is_alias_command c = false) w →
  latest_resolves (svc w) ∧ published_resolves (svc w) ∧
  ∀ t first, is_Some (get_latest_materialized_checkpoint_sync (svc w) t None) ∨ (∃ c, first = Ok c) →
    ∃ c, latest_checkpoint_or (svc w) t first = Ok c.
Proof.
  intros Hr. assert (Hok : committed_ok w ∧ published_resolves (svc w)).
  { induction Hr as [m ids reads|c w Hc _ [IH1 IH2]].
    - split; [split; [done|]|]; [|by intros ????].
      intros ????. by rw /= /deserialize_latest_committed_checkpoint_id hash_iter_empty lookup_empty.
    - by split; [apply committed_ok_command|apply published_ok_command]. }
  destruct Hok as [[Ha Hl] Hp]. split_and!; [done..|].
  intros t first Hfirst. rw /latest_checkpoint_or.
  destruct (get_latest_materialized_checkpoint_sync (svc w) t None) as [c|] eqn:Hc.
  - destruct (latest_resolves_get _ _ _ _ Ha Hl Hc) as [cp ->]. eauto.
  - destruct Hfirst as [[]|]; done.
Qed.

(** A waiting list, once created, is never dropped: after a checkpoint of a table
    has waited for the ["es"] extension, [checkpoint_publication_still_pending] is
    true for that table in every later state, so its publication request is never
    retired again. *)
Theorem publication_pending_forever t w cs :
  is_Some (get_checkpoints_needing_extension_work (svc w) t "es") →
  checkpoint_publication_still_pending (svc (foldl (λ w c, exec (run_command c) w) w cs)) t = true.
Proof.
  intros Hw. assert (Hk : is_Some (get_checkpoints_needing_extension_work (svc (foldl (λ w c, exec (run_command c) w) w cs)) t "es")).
  { revert w Hw. induction cs as [|c cs IH]; intros w Hw; [done|]. simpl. apply IH.
    rw /get_checkpoints_needing_extension_work. destruct (is_cutover_command c) eqn:Hc.
    - by rw (df_waiting _ _ (cutover_command_data_frame c w Hc)).
    - by apply (pf_waiting _ _ (command_protocol_frame c w Hc)). }
  rw /checkpoint_publication_still_pending. rw (bool_decide_eq_true_2 (is_Some _)) //.
  by rw orb_true_r.
Qed.
End theorems.
End ServiceTheory.
