(* ===== verification/CommitTheory.v ===== *)
(** * Correctness of commits and work queues

    Well-formedness of the stored data is an invariant of the service fed with
    well-formed commits; on such states commits succeed and install exactly the
    checkpoint they describe, every file still to be covered by the search extension
    is queued, leased work is not handed out twice, cleanup never deletes a file an
    active checkpoint reads, and a snapshot restores the service. *)

From S2P Require Import Prelude Json Schema FileSet Contract Checkpoint Coordination ServiceState Cutover Commits CutoverTheory Service.

(** ** Well-formed data *)

Definition wf_iceberg (c : TableMetadataCheckpoint) : Prop :=
  match cp_iceberg_metadata c with Some im => wf_files (im_files im) | None => True end.
Definition wf_checkpoint (c : TableMetadataCheckpoint) : Prop := wf_iceberg c ∧ wf_speedboat c.
Definition wf_item (i : ExtensionWorkItem) : Prop :=
  wf_files (ew_speedboat_files i) ∧ wf_files (ew_iceberg_files i).

Record data_ok (w : World) : Prop := {
  do_es : is_Some (extension_work_items (svc w) !! "es");
  do_items : ∀ ty items t tr, extension_work_items (svc w) !! ty = Some items → items !! t = Some tr → wf_item (et_work_item tr);
  do_checkpoints : ∀ k c, checkpoints (svc w) !! k = Some c → wf_checkpoint c;
}.

Lemma wf_empty : wf_files empty_file_set.
Proof. by constructor. Qed.

Lemma wf_add fs d : wf_files fs → wf_files (add fs d).
Proof.
  intros Hwf. destruct (wf_files_represents fs Hwf) as [l Hl]. by destruct (add_spec fs l d Hl).
Qed.

Lemma wf_merge fs other : wf_files fs → wf_files other →
  ∃ fs', merge fs other = Ok fs' ∧ wf_files fs' ∧
    (∀ p, p ∈ file_paths fs' ↔ p ∈ file_paths fs ∨ p ∈ file_paths other).
Proof.
  intros [l Hl]%wf_files_represents [k Hk]%wf_files_represents.
  destruct (merge_spec fs other l k Hl Hk) as (fs' & Hm & Hr). exists fs'. split_and!; [done|by destruct Hr|].
  intros p. rw -(represents_paths _ _ Hr) -(represents_paths _ _ Hl) -(represents_paths _ _ Hk).
  case_decide; rw add_files_elem; naive_solver.
Qed.

Lemma wf_remove fs rs : wf_files fs →
  ∃ fs', remove fs rs = Ok fs' ∧ wf_files fs' ∧ file_paths fs' = filter (λ p, p ∉ rs) (file_paths fs).
Proof.
  intros [l Hl]%wf_files_represents. destruct (remove_spec fs l rs Hl) as (fs' & Hr & Hd).
  exists fs'. split_and!; [done|by destruct Hd|].
  rw -(represents_paths _ _ Hd) -(represents_paths _ _ Hl).
  exact (filter_fmap_key file_path (λ p, p ∉ rs) l).
Qed.

Lemma wf_tuples fs : wf_files fs → ∃ l, as_file_tuples fs = Ok l ∧ file_path <$> l = file_paths fs.
Proof. intros [l Hl]%wf_files_represents. exists l. split; [apply Hl|by apply represents_paths]. Qed.

(** ** Filling in extension metadata *)

Lemma elem_of_add_paths fs d p : p ∈ file_paths (add fs d) ↔ p ∈ file_paths fs ∨ p = file_path d.
Proof.
  rw /add. case_decide; [naive_solver|].
  destruct (position _ _); simpl; rw elem_of_app list_elem_of_singleton; done.
Qed.

Lemma fill_loop_spec s t ext files cov :
  let '(cov', fs) := fill_loop s t ext files cov in
  let recent p := is_Some (get_recent_file_extension_metadata s t ext p) in
  wf_files fs ∧
  (∀ p, p ∈ file_paths fs ↔ p ∈ (file_path <$> files) ∧ ¬ recent p) ∧
  (∀ p, is_Some (cov' !! p) ↔ is_Some (cov !! p) ∨ (p ∈ (file_path <$> files) ∧ recent p)).
Proof.
  rw /fill_loop. induction files as [|d files IH] using rev_ind; simpl.
  { split_and!; [apply wf_empty|set_solver|]. intros p. rw elem_of_nil. naive_solver. }
  rw foldl_app. simpl. destruct (foldl _ _ files) as [cov' fs]. simpl. destruct IH as (Hwf & Hfs & Hcov).
  destruct (get_recent_file_extension_metadata s t ext (file_path d)) as [v|] eqn:Hr; simpl.
  - split_and!; [done| |]; intros p; rw fmap_app elem_of_app list_elem_of_singleton.
    + rw Hfs. split; [naive_solver|]. intros [[?| ->] Hn]; [done|]. destruct Hn. by rw Hr.
    + rw lookup_insert_is_Some Hcov. destruct (decide (file_path d = p)) as [<-|]; [|naive_solver].
      split; [intros _; right; split; [by right|by rw Hr]|by left].
  - split_and!; [by apply wf_add| |]; intros p; rw fmap_app elem_of_app list_elem_of_singleton.
    + rw elem_of_add_paths Hfs. split; [|naive_solver].
      intros [[? ?]| ->]; [by split; [left|]|]. split; [by right|]. rw Hr. by intros [].
    + rw Hcov. split; [naive_solver|]. intros [?|[[?| ->] Hs]]; [by left|by right|]. rw Hr in Hs. by destruct Hs.
Qed.

(** The checkpoint keeps its files; its coverage stays current; every data file is
    covered afterwards or handed back to be queued. *)
Lemma try_fill_spec s ext m :
  wf_checkpoint m →
  ∃ c sf icf, try_fill_checkpoint_extension_metadata s ext m = Ok (c, (sf, icf)) ∧
    c = with_extension m (cp_extension_metadata c) ∧
    wf_files sf ∧ wf_files icf ∧ coverage_current c ∧
    (∀ p, p ∈ file_paths sf → p ∈ speedboat_paths c) ∧ (∀ p, p ∈ file_paths icf → p ∈ iceberg_paths c) ∧
    (∀ p, p ∈ current_file_paths c → is_Some (extension_files c ext !! p) ∨ p ∈ file_paths sf ∨ p ∈ file_paths icf).
Proof.
  intros [Hi Hs]. rw /try_fill_checkpoint_extension_metadata.
  set (m' := retain_current_extension_metadata m).
  assert (Hfields : m' = with_extension m (cp_extension_metadata m')) by done.
  assert (Hice : ∃ il, (match cp_iceberg_metadata m' with Some im => as_file_tuples (im_files im) | None => Ok [] end) = Ok il
                 ∧ file_path <$> il = iceberg_paths m).
  { rw /iceberg_paths. change (cp_iceberg_metadata m') with (cp_iceberg_metadata m). rw /wf_iceberg in Hi.
    destruct (cp_iceberg_metadata m); [by apply wf_tuples|by exists []]. }
  assert (Hspd : ∃ sl, (match cp_speedboat_metadata m' with Some sm => as_file_tuples (sm_files sm) | None => Ok [] end) = Ok sl
                 ∧ file_path <$> sl = speedboat_paths m).
  { rw /speedboat_paths. change (cp_speedboat_metadata m') with (cp_speedboat_metadata m). rw /wf_speedboat in Hs.
    destruct (cp_speedboat_metadata m); [by apply wf_tuples|by exists []]. }
  destruct Hice as (il & -> & Hil). destruct Hspd as (sl & Hsl & Hslp). rw bind_Ok.
  pose proof (fill_loop_spec s (cp_table_name m') ext il (default ∅ (cp_extension_metadata m' !! ext))) as H1.
  destruct (fill_loop s (cp_table_name m') ext il _) as [cov1 icf]. destruct H1 as (Hwi & Hicf & Hcov1).
  rw Hsl bind_Ok.
  pose proof (fill_loop_spec s (cp_table_name m') ext sl cov1) as H2.
  destruct (fill_loop s (cp_table_name m') ext sl cov1) as [cov2 sf]. destruct H2 as (Hws & Hsf & Hcov2).
  rw Hil in Hicf Hcov1. rw Hslp in Hsf Hcov2.
  do 3 eexists. split; [reflexivity|]. split; [done|]. split; [done|]. split; [done|].
  assert (Hext : ∀ p, is_Some (cov2 !! p) ↔ is_Some (default ∅ (cp_extension_metadata m' !! ext) !! p) ∨
    (p ∈ current_file_paths m ∧ is_Some (get_recent_file_extension_metadata s (cp_table_name m') ext p))).
  { intros p. rw Hcov2 Hcov1 elem_of_current. naive_solver. }
  split_and!.
  - intros e mm p. simpl. destruct (decide (e = ext)) as [->|Hne].
    + rw lookup_insert_eq. intros [= <-] [Hp|[Hp _]]%Hext; [|by left].
      destruct (cp_extension_metadata m' !! ext) as [mm|] eqn:Hmm; [|by rw lookup_empty in Hp; destruct Hp].
      exact (retain_current m ext mm p Hmm Hp).
    + rw lookup_insert_ne; [congruence|]. exact (retain_current m e mm p).
  - intros p Hp%Hsf. apply Hp.
  - intros p Hp%Hicf. apply Hp.
  - intros p Hp. rw /extension_files /= lookup_insert_eq /= Hext.
    change (p ∈ current_file_paths m) in Hp.
    destruct (decide (is_Some (get_recent_file_extension_metadata s (cp_table_name m') ext p))) as [|Hn]; [by left; right|].
    right. rw Hsf Hicf. apply elem_of_current in Hp as [?|?]; [by right|by left].
Qed.

(** ** Queueing extension work *)

Section commits.
Context `{Environment, HashOrder}.

(** A file of the checkpoint [id] of [t] is queued: the checkpoint waits for the
    extension and the table's work item lists the file. *)
Definition queued (s : EphemeralServiceImpl) (t id p : string) : Prop :=
  (∃ l, get_checkpoints_needing_extension_work s t "es" = Some l ∧ id ∈ l) ∧
  ∃ items tr, extension_work_items s !! "es" = Some items ∧ items !! t = Some tr ∧
    (p ∈ file_paths (ew_speedboat_files (et_work_item tr)) ∨ p ∈ file_paths (ew_iceberg_files (et_work_item tr))).

Lemma data_ok_put_item t tr w :
  wf_item (et_work_item tr) → data_ok w → data_ok (upd (put_extension_item t tr) w).
Proof.
  intros Htr [H1 H2 H3]. constructor; simpl; [by rw lookup_insert_eq; eexists| |done].
  intros ty items t' tr' Hty Ht'.
  destruct (insert_default_lookup _ _ _ _ _ _ Hty _ _ Ht') as [[-> ->]|(items' & ? & ?)]; [done|eauto].
Qed.

Lemma data_ok_put_checkpoint t id c w :
  wf_checkpoint c → data_ok w → data_ok (upd (put_checkpoint t id c) w).
Proof.
  intros Hc [H1 H2 H3]. constructor; [done..|]. simpl. intros k c' [[<- <-]|[_ Hk]]%lookup_insert_Some; [done|eauto].
Qed.

(** Operations that leave the stored checkpoints and the extension queue alone. *)
Definition items_frame (w w' : World) : Prop :=
  extension_work_items (svc w') = extension_work_items (svc w) ∧ checkpoints (svc w') = checkpoints (svc w).

Lemma data_ok_frame w w' : items_frame w w' → data_ok w → data_ok w'.
Proof. intros [He Hc] [H1 H2 H3]. constructor; rw ?He ?Hc; done. Qed.

Lemma fill_wp t id sch sf icf w :
  data_ok w → wf_files sf → wf_files icf →
  wp (fill_extension_work_item t "es" id sch sf icf)
    (λ _ w', data_ok w' ∧ ∀ p, p ∈ file_paths sf ∨ p ∈ file_paths icf → queued (svc w') t id p) (λ _, False) w.
Proof.
  intros Hok Hsf Hicf. rw /fill_extension_work_item /modify_svc /fresh_id.
  case_decide as Hempty.
  { wp_step. split; [done|]. rw /file_count in Hempty. destruct Hempty as [->%nil_length_inv ->%nil_length_inv].
    intros p [Hp|Hp]; by apply elem_of_nil in Hp. }
  destruct (do_es w Hok) as [items Hitems].
  do 2 wp_step. wp_step. rw Hitems. apply wp_lift_fail; [|naive_solver]. intros ? [= <-].
  assert (Hend : ∀ w1 tr, data_ok w1 → extension_work_items (svc w1) !! "es" = Some (<[t := tr]> items) →
    (∀ p, p ∈ file_paths sf → p ∈ file_paths (ew_speedboat_files (et_work_item tr))) →
    (∀ p, p ∈ file_paths icf → p ∈ file_paths (ew_iceberg_files (et_work_item tr))) →
    wp (st_modify (upd (push_waiting_checkpoint t "es" id)))
      (λ _ w', data_ok w' ∧ ∀ p, p ∈ file_paths sf ∨ p ∈ file_paths icf → queued (svc w') t id p) (λ _, False) w1).
  { intros w1 tr Hok1 Hw1 H1 H2. wp_step. split; [by apply (data_ok_frame w1)|]. intros p Hp. split.
    - eexists. rw /get_checkpoints_needing_extension_work /= lookup_insert_eq. split; [done|].
      apply elem_of_app. right. by apply list_elem_of_singleton.
    - exists (<[t := tr]> items), tr. split_and!; [done|by rw lookup_insert_eq|]. destruct Hp; auto. }
  wp_step. destruct (items !! t) as [tr|] eqn:Htr.
  - destruct (do_items w Hok _ _ _ _ Hitems Htr) as [Hws Hwi].
    destruct (wf_merge _ _ Hws Hsf) as (ms & Hms & Hwms & Hpms).
    destruct (wf_merge _ _ Hwi Hicf) as (mi & Hmi & Hwmi & Hpmi).
    do 2 wp_step. wp_step. rw Hms. apply wp_lift_fail; [|naive_solver]. intros ? [= <-].
    do 2 wp_step. wp_step. rw Hmi. apply wp_lift_fail; [|naive_solver]. intros ? [= <-]. wp_step.
    eapply Hend.
    + do 3 (apply data_ok_put_item; [by split|]). done.
    + rw /= !lookup_insert_eq /= Hitems /= !insert_insert_eq. reflexivity.
    + intros p Hp. apply Hpms. by right.
    + intros p Hp. apply Hpmi. by right.
  - wp_step. wp_step. wp_step.
    eapply Hend; [apply data_ok_put_item; [by split|by apply (data_ok_frame w)]|
      rw /= lookup_insert_eq Hitems; reflexivity|done|done].
Qed.

(** ** Installing a checkpoint *)

(** [id] is the new latest checkpoint of [t], stored as [c] next to the old ones; its
    coverage mentions only its own files, and each data file is covered by the search
    extension or queued for it. *)
Record installed (w w' : World) (t id : string) (c : TableMetadataCheckpoint) : Prop := {
  in_stored : checkpoints (svc w') = <[key2 t id := c]> (checkpoints (svc w));
  in_latest : get_latest_materialized_checkpoint_sync (svc w') t None = Some id;
  in_table : cp_table_name c = t;
  in_id : cp_checkpoint_id c = id;
  in_current : coverage_current c;
}.
Definition covered_or_queued (w' : World) (t id : string) (c : TableMetadataCheckpoint) : Prop :=
  ∀ p, p ∈ current_file_paths c → is_Some (extension_files c "es" !! p) ∨ queued (svc w') t id p.

Lemma latest_after_set t e id s :
  get_latest_materialized_checkpoint_sync (set_latest_committed_checkpoint t e id s) t e = Some id.
Proof. rw /get_latest_materialized_checkpoint_sync /= lookup_insert_eq /=. apply lookup_insert_eq. Qed.

(** The compaction trigger writes neither checkpoints nor extension work. *)
Definition ext_frame (w w' : World) : Prop :=
  items_frame w w' ∧ checkpoints_needing_extension_work (svc w') = checkpoints_needing_extension_work (svc w) ∧
  latest_committed_checkpoint_id (svc w') = latest_committed_checkpoint_id (svc w) ∧
  table_aliases (svc w') = table_aliases (svc w).

#[export] Instance ext_frame_preorder : PreOrder ext_frame.
Proof.
  split; [by intros w; split_and!|].
  intros w1 w2 w3 ((?&?)&?&?&?) ((?&?)&?&?&?). repeat split; congruence.
Qed.

Lemma maybe_compact_wp c w : wp (maybe_create_compaction_work_item c) (λ _, ext_frame w) (λ _, False) w.
Proof.
  rw /maybe_create_compaction_work_item /modify_svc /fresh_id. cbv zeta.
  do 2 wp_step. do 2 wp_step.
  destruct (compaction_work_items _ !! _); [by wp_step|].
  destruct (cp_speedboat_metadata c) as [sm|] eqn:Hsm; [|by wp_step].
  case_match; [|by wp_step]. do 2 wp_step.
  rw /compaction_work_item_from_checkpoint Hsm /=. wp_step. apply wp_lift_fail; [|naive_solver].
  intros item _. wp_step. wp_step. by wp_step.
Qed.

Lemma ext_frame_queued w w' t id p : ext_frame w w' → queued (svc w) t id p → queued (svc w') t id p.
Proof. intros ((He & Hc) & Hn & _) Hq. rw /queued /get_checkpoints_needing_extension_work He Hn. exact Hq. Qed.

(** The table information a client builds: sizes match files, and segments, when
    given, name the same files ([from_segments] satisfies it). *)
Definition wf_table_info (ti : SpeedboatCommitTableInfo) : Prop :=
  length (ti_sizes ti) = length (ti_files ti) ∧
  (ti_segments ti = [] ∨ segment_path <$> ti_segments ti = ti_files ti).

Lemma from_segments_wf ct t segs sch : wf_table_info (from_segments ct t segs sch).
Proof. split; simpl; [by rw !length_fmap|by right]. Qed.

Lemma segment_files_paths ti : wf_table_info ti → segment_path <$> segment_files ti = ti_files ti.
Proof.
  intros [Hlen Hseg]. rw /segment_files. destruct (ti_segments ti) as [|seg segs].
  - rw -list_fmap_compose. rw (list_fmap_ext _ fst); [done|]. apply fst_zip. lia.
  - by destruct Hseg.
Qed.

Lemma as_payload_wf ti fs : wf_table_info ti → as_file_set_payload ti = Ok fs → wf_files fs ∧ file_paths fs = ti_files ti.
Proof.
  intros Hti. rw /as_file_set_payload. intros Hfs. invert_ok. split; [|by apply segment_files_paths].
  constructor; simpl; rw ?length_fmap //. apply Forall_fmap, Forall_true. simpl. lia.
Qed.

Lemma direct_payload_wf ti sch :
  wf_table_info ti → wf_files (mkFileSet (ti_files ti) [sch] ((λ _, 0) <$> ti_files ti) (ti_sizes ti)).
Proof. intros [Hlen _]. constructor; simpl; [done|by rw length_fmap|]. apply Forall_fmap, Forall_true. simpl. lia. Qed.

Lemma latest_checkpoint_wf w t first base :
  data_ok w → (∀ c, first = Ok c → wf_checkpoint c) → latest_checkpoint_or (svc w) t first = Ok base → wf_checkpoint base.
Proof.
  intros Hok Hfirst. rw /latest_checkpoint_or. destruct (get_latest_materialized_checkpoint_sync _ _ _) as [c|]; [|auto].
  destruct (checkpoints (svc w) !! key2 t c) as [cp|] eqn:Hcp; [|done]. intros [= <-]. by apply (do_checkpoints w Hok) in Hcp.
Qed.

Lemma new_checkpoint_wf t id sch : wf_checkpoint (new_checkpoint t id sch).
Proof. done. Qed.

(** What a speedboat data commit needs: a schema that merges with the table's. *)
Definition first_speedboat (ti : SpeedboatCommitTableInfo) : outcome TableMetadataCheckpoint :=
  schema ← unwrap (ti_schema ti); Ok (new_checkpoint (ti_table_name ti) "" schema).

Definition speedboat_commit_to (w : World) (ti : SpeedboatCommitTableInfo) (base : TableMetadataCheckpoint) (merged : PowdrrSchema) : Prop :=
  latest_checkpoint_or (svc w) (ti_table_name ti) (first_speedboat ti) = Ok base ∧
  ∃ sch, ti_schema ti = Some sch ∧ merge_from (cp_schema base) sch = Ok merged.

(** The speedboat files of the new checkpoint: the old ones and the commit's. *)
Lemma new_speedboat_files ti base sch :
  wf_table_info ti → ti_schema ti = Some sch → wf_checkpoint base →
  ∃ fs, match cp_speedboat_metadata base with
    | None => schema ← unwrap (Some sch);
        Ok (mkFileSet (ti_files ti) [schema] ((λ _, 0) <$> ti_files ti) (ti_sizes ti))
    | Some existing => payload ← as_file_set_payload ti; merge (sm_files existing) payload
    end = Ok fs ∧ wf_files fs ∧ ∀ p, p ∈ file_paths fs ↔ p ∈ speedboat_paths base ∨ p ∈ ti_files ti.
Proof.
  intros Hti Hsch [_ Hwfs]. rw /speedboat_paths. rw /wf_speedboat in Hwfs.
  destruct (cp_speedboat_metadata base) as [sm|].
  - destruct (as_file_set_payload ti) as [pl| |] eqn:Hpl; [|by rw /as_file_set_payload Hsch in Hpl..].
    destruct (as_payload_wf ti pl Hti Hpl) as [Hwpl <-]. by apply wf_merge.
  - eexists. split; [reflexivity|]. split; [by apply direct_payload_wf|].
    intros p. simpl. rw elem_of_nil. naive_solver.
Qed.

(** Store a filled checkpoint, queue what it does not cover, make it the latest one and
    queue a compaction: the end of a data commit. *)
Lemma install_wp t id c sch sf icf w w1 E :
  data_ok w1 → svc w1 = svc w → wf_checkpoint c → wf_files sf → wf_files icf →
  cp_table_name c = t → cp_checkpoint_id c = id → coverage_current c →
  (∀ p, p ∈ current_file_paths c → is_Some (extension_files c "es" !! p) ∨ p ∈ file_paths sf ∨ p ∈ file_paths icf) →
  wp (_ ← modify_svc (put_checkpoint t id c);
      _ ← fill_extension_work_item t "es" id sch sf icf;
      _ ← modify_svc (set_latest_committed_checkpoint t None id);
      maybe_create_compaction_work_item c)
    (λ _ w', data_ok w' ∧ installed w w' t id c ∧ covered_or_queued w' t id c) E w1.
Proof.
  intros Hok1 Hw1 Hwf Hsf Hicf Ht Hid Hcur Hcov. rw /modify_svc. do 2 wp_step. wp_step.
  eapply wp_mono; [apply wp_and; [apply fill_wp; [by apply data_ok_put_checkpoint|exact Hsf|exact Hicf]|apply (wp_st_rel queue_frame), fill_frame]| |by intros ? []].
  intros [] w2 [[Hok2 Hq] Hf2]. do 2 wp_step.
  eapply wp_mono; [apply maybe_compact_wp| |done]. intros [] w3 Hf3. simpl in Hf3. split_and!.
  - eapply data_ok_frame; [exact (proj1 Hf3)|]. by apply (data_ok_frame w2).
  - constructor; [|..|done]; [| |done..].
    + destruct Hf3 as ((_ & ->) & _). simpl. by rw (qf_checkpoints _ _ Hf2) /= Hw1.
    + destruct Hf3 as (_ & _ & Hl & Ha). rw /get_latest_materialized_checkpoint_sync /real_table_name Hl Ha.
      apply latest_after_set.
  - intros p Hp. destruct (Hcov p Hp) as [?|Hsi]; [by left|]. right. eapply ext_frame_queued; [exact Hf3|]. by apply Hq.
Qed.

Lemma commit_type_commit_wp ti w :
  data_ok w → wf_table_info ti →
  let t := ti_table_name ti in let id := next_id (ids_used w) in
  wp (speedboat_commit_type_commit ti None)
    (λ _ w', data_ok w' ∧ ∃ base c, speedboat_commit_to w ti base (cp_schema c) ∧
       installed w w' t id c ∧ covered_or_queued w' t id c ∧
       cp_iceberg_metadata c = cp_iceberg_metadata base ∧ cp_deletes_metadata c = cp_deletes_metadata base ∧
       ∀ p, p ∈ speedboat_paths c ↔ p ∈ speedboat_paths base ∨ p ∈ ti_files ti)
    (λ w', data_ok w' ∧ ∀ base merged, ¬ speedboat_commit_to w ti base merged) w.
Proof.
  intros Hok Hti t id. rw /speedboat_commit_type_commit /fresh_id. fold (first_speedboat ti) t.
  do 2 wp_step. wp_step. apply wp_lift_fail.
  2: { intros Hn. split; [done|]. intros base merged [Hb _]. exact (Hn _ Hb). }
  intros base Hbase.
  assert (Hwfb : wf_checkpoint base).
  { eapply latest_checkpoint_wf; [exact Hok| |exact Hbase]. rw /first_speedboat. intros c Hc. invert_ok. apply new_checkpoint_wf. }
  do 2 wp_step. change (draw_id w).1 with id. set (w1 := (draw_id w).2).
  assert (Hok1 : data_ok w1) by by apply (data_ok_frame w).
  destruct (ti_schema ti) as [sch|] eqn:Hsch.
  2: { wp_step. apply wp_lift_fail; [|intros _; split; [done|]; intros ? ? [_ (? & ? & _)]; congruence].
       intros fs. rw /as_file_set_payload Hsch. destruct (cp_speedboat_metadata base); simpl; discriminate. }
  pose proof (new_speedboat_files ti base sch Hti Hsch Hwfb) as Hfiles.
  destruct Hfiles as (fs & Hfs & Hwfs & Hps).
  wp_step. rw Hfs. apply wp_lift_fail; [|naive_solver]. intros ? [= <-].
  wp_step. apply wp_lift_fail.
  2: { intros Hn. split; [done|]. intros b m (Hb & s & ? & Hm). simplify_eq.
       assert (b = base) as -> by (rw Hbase in Hb; congruence). exact (Hn _ Hm). }
  intros merged Hmerged. cbv zeta. wp_step. apply wp_lift_fail; [|naive_solver]. intros ? [= <-].
  match goal with |- context [try_fill_checkpoint_extension_metadata (svc w) "es" ?m] => set (c0 := m) end.
  destruct (try_fill_spec (svc w) "es" c0) as (c & sf & icf & Hfill & Hc & Hwsf & Hwicf & Hcur & Hsf & Hicf & Hcov).
  { by split; [apply Hwfb|]. }
  wp_step. rw Hfill. apply wp_lift_fail; [|naive_solver]. intros ? [= <-].
  eapply wp_mono; [apply (install_wp t id c merged sf icf w w1)| |intros ? Hf; exact Hf]; try done; try (rw Hc; done).
  - rw Hc. by split; [apply Hwfb|].
  - intros [] w' (Hok' & Hin & Hq). split; [done|]. exists base, c. split_and!; try done; rw Hc //.
    split; [done|]. by exists sch.
Qed.

Lemma commit_type_delete_wp ti w :
  data_ok w →
  let t := ti_table_name ti in let id := next_id (ids_used w) in
  wp (speedboat_commit_type_delete ti None)
    (λ _ w', data_ok w' ∧ ∃ base c,
       latest_checkpoint_or (svc w) t (Ok (new_checkpoint t "" minimal)) = Ok base ∧
       installed w w' t id c ∧
       cp_iceberg_metadata c = cp_iceberg_metadata base ∧ cp_speedboat_metadata c = cp_speedboat_metadata base ∧
       cp_schema c = cp_schema base ∧ delete_paths c = delete_paths base ++ ti_files ti)
    (λ w', data_ok w' ∧ ∀ base, latest_checkpoint_or (svc w) t (Ok (new_checkpoint t "" minimal)) ≠ Ok base) w.
Proof.
  intros Hok t id. rw /speedboat_commit_type_delete /modify_svc /fresh_id. fold t.
  do 2 wp_step. wp_step. apply wp_lift_fail; [|by intros Hn].
  intros base Hbase.
  assert (Hwfb : wf_checkpoint base).
  { eapply latest_checkpoint_wf; [exact Hok| |exact Hbase]. intros c [= <-]. apply new_checkpoint_wf. }
  do 2 wp_step. change (draw_id w).1 with id. set (w1 := (draw_id w).2).
  assert (Hok1 : data_ok w1) by by apply (data_ok_frame w).
  cbv zeta. wp_step. apply wp_lift_fail; [|naive_solver]. intros ? [= <-].
  match goal with |- context [try_fill_checkpoint_extension_metadata (svc w) "es" ?m] => set (c0 := m) end.
  destruct (try_fill_spec (svc w) "es" c0) as (c & sf & icf & Hfill & Hc & _ & _ & Hcur & _).
  { by split; apply Hwfb. }
  wp_step. rw Hfill. apply wp_lift_fail; [|naive_solver]. intros ? [= <-].
  do 2 wp_step. wp_step. split.
  - match goal with |- data_ok (upd _ ?w2) => apply (data_ok_frame w2); [done|] end.
    apply data_ok_put_checkpoint; [|done]. rw Hc. by split; apply Hwfb.
  - exists base, c. split_and!; [done| |by rw Hc..].
    constructor; [done|apply latest_after_set|by rw Hc|by rw Hc|done].
Qed.

(** The compactions named by an iceberg commit, when all are on record, remove their
    files from a well-formed checkpoint. *)
Definition recorded (s : EphemeralServiceImpl) (compaction : string) : CompactionCommit :=
  match compactions s !! compaction with
  | Some (_, c) => c
  | None => mkCompactionCommit [] [] "" "" "" []
  end.

Lemma handle_compactions_wf s ids c c' :
  wf_checkpoint c → handle_compactions s ids c = Ok c' →
  wf_checkpoint c' ∧ cp_table_name c' = cp_table_name c ∧ cp_checkpoint_id c' = cp_checkpoint_id c ∧
  cp_iceberg_metadata c' = cp_iceberg_metadata c ∧ cp_schema c' = cp_schema c ∧
  (∀ p, p ∈ speedboat_paths c' ↔ p ∈ speedboat_paths c ∧ ∀ i, i ∈ ids → p ∉ cc_removed_speedboat_files (recorded s i)) ∧
  (∀ p, p ∈ delete_paths c' ↔ p ∈ delete_paths c ∧ ∀ i, i ∈ ids → p ∉ cc_removed_delete_files (recorded s i)).
Proof.
  rw /handle_compactions. revert c. induction ids as [|i ids IH]; intros c Hwf; simpl.
  { intros [= <-]. split_and!; try done; set_solver. }
  intros (c1 & H1 & Hr)%bind_Ok_inv. rw /handle_compaction in H1.
  destruct (compactions s !! i) as [[t0 obj]|] eqn:Hi; [|done]. simpl in H1.
  destruct (remove_compacted_spec c (cc_removed_speedboat_files obj) (cc_removed_delete_files obj))
    as (c2 & Hc2 & Hw2 & Hsp & Hdp & Him & Hsc & Hid & Ht & _); [apply Hwf|].
  rw Hc2 in H1. injection H1 as <-.
  destruct (IH c2) as (Hw' & Ht' & Hid' & Him' & Hsc' & Hs' & Hd'); [|exact Hr|].
  { split; [|done]. rw /wf_iceberg Him. apply Hwf. }
  assert (Hrec : recorded s i = obj) by by rw /recorded Hi.
  split_and!; [done|congruence..| |]; intros p.
  - rw Hs' Hsp list_elem_of_filter. setoid_rewrite elem_of_cons. rw -Hrec. naive_solver.
  - rw Hd' Hdp list_elem_of_filter. setoid_rewrite elem_of_cons. rw -Hrec. naive_solver.
Qed.

Definition iceberg_commit_to (w : World) (t : string) (commit : IcebergCommit) (base : TableMetadataCheckpoint) (merged : PowdrrSchema) : Prop :=
  latest_checkpoint_or (svc w) t (Ok (new_checkpoint t "" (im_table_schema (ic_metadata commit)))) = Ok base ∧
  merge_from (cp_schema base) (im_table_schema (ic_metadata commit)) = Ok merged.

Definition requested (w : World) (t : string) : Prop :=
  checkpoint_publication_requests (svc w) !! checkpoint_publication_request_key DEFAULT_METADATA_NAMESPACE t = Some (mkUpdateRequest t).

Lemma replace_and_delete_ext i : st_rel ext_frame (replace_and_delete_checkpoints i).
Proof. rw /replace_and_delete_checkpoints /modify_svc /fresh_id. by st_rel_tac. Qed.

Lemma push_cleanup_ext i :
  st_rel ext_frame (cleanup_work_item ← replace_and_delete_checkpoints i;
    modify_svc (λ s, set_cleanup_work_items (cleanup_work_items s ++ [mkCleanupTracker cleanup_work_item None]) s)).
Proof. rw /modify_svc. apply st_rel_bind; [apply _|apply replace_and_delete_ext|]. intros item. by st_rel_tac. Qed.

Lemma iceberg_commit_wp t commit w :
  data_ok w → wf_files (im_files (ic_metadata commit)) →
  let id := next_id (ids_used w) in
  let removed (f : CompactionCommit → list string) (p : string) :=
    ∃ i, i ∈ ic_compactions commit ∧ p ∈ f (recorded (svc w) i) in
  wp (iceberg_commit t commit)
    (λ b w', b = true ∧ data_ok w' ∧ requested w' t ∧ ∃ base c, iceberg_commit_to w t commit base (cp_schema c) ∧
       installed w w' t id c ∧ covered_or_queued w' t id c ∧
       cp_iceberg_metadata c = Some (ic_metadata commit) ∧
       (∀ p, p ∈ speedboat_paths c ↔ p ∈ speedboat_paths base ∧ ¬ removed cc_removed_speedboat_files p) ∧
       (∀ p, p ∈ delete_paths c ↔ p ∈ delete_paths base ∧ ¬ removed cc_removed_delete_files p))
    (λ w', data_ok w' ∧ (ic_compactions commit = [] → ∀ base merged, ¬ iceberg_commit_to w t commit base merged)) w.
Proof.
  intros Hok Hwf id removed. rw /iceberg_commit /modify_svc /fresh_id.
  do 2 wp_step. wp_step. apply wp_lift_fail; [|intros Hn; split; [done|]; intros _ base merged [Hb _]; exact (Hn _ Hb)].
  intros base Hbase.
  assert (Hwfb : wf_checkpoint base).
  { eapply latest_checkpoint_wf; [exact Hok| |exact Hbase]. intros c [= <-]. apply new_checkpoint_wf. }
  do 2 wp_step. change (draw_id w).1 with id. set (w1 := (draw_id w).2).
  assert (Hok1 : data_ok w1) by by apply (data_ok_frame w).
  wp_step. apply wp_lift_fail.
  2: { intros Hn. split; [done|]. intros _ b m (Hb & Hm). assert (b = base) as -> by (rw Hbase in Hb; congruence). exact (Hn _ Hm). }
  intros merged Hmerged. cbv zeta. wp_step. apply wp_lift_fail.
  2: { intros Hn. split; [done|]. intros Hnil. rw Hnil in Hn. by destruct (Hn _ eq_refl). }
  intros c1 Hc1. apply handle_compactions_wf in Hc1 as (Hw1 & Ht1 & Hid1 & Him1 & Hsc1 & Hsp1 & Hdp1); [|by split; [|apply Hwfb]].
  destruct (try_fill_spec (svc w) "es" c1 Hw1) as (c & sf & icf & Hfill & Hc & Hwsf & Hwicf & Hcur & Hsf & Hicf & Hcov).
  wp_step. rw Hfill. apply wp_lift_fail; [|naive_solver]. intros ? [= <-].
  do 4 wp_step. wp_step.
  eapply wp_mono; [apply wp_and; [apply (fill_wp t id merged sf icf)|apply (wp_st_rel queue_frame), fill_frame]| |by intros ? []].
  { match goal with |- data_ok (upd _ ?w2) => apply (data_ok_frame w2); [done|] end.
    apply data_ok_put_checkpoint; [|done]. by rw Hc. }
  { exact Hwsf. }
  { exact Hwicf. }
  intros [] w2 [[Hok2 Hq] Hf2]. wp_step.
  eapply wp_mono; [apply wp_and; [apply (wp_st_rel ext_frame), st_rel_iter; [apply _|intros; apply push_cleanup_ext]|
    apply wp_iter_fail]| |].
  - intros [] w3 [Hf3 _]. do 3 wp_step. split; [done|].
    assert (Hchk : checkpoints (svc w3) = <[key2 t id := c]> (checkpoints (svc w))).
    { destruct Hf3 as ((_ & ->) & _). by rw (qf_checkpoints _ _ Hf2). }
    split; [apply (data_ok_frame w3); [done|]; exact (data_ok_frame _ _ (proj1 Hf3) Hok2)|].
    split; [apply lookup_insert_eq|]. exists base, c. split_and!.
    + split; [done|]. by rw Hc /= Hsc1.
    + constructor; [done| |by rw Hc|by rw Hc|done].
      destruct Hf3 as (_ & _ & Hl & Ha). rw /get_latest_materialized_checkpoint_sync /real_table_name /= Hl Ha.
      rw (qf_latest _ _ Hf2) (qf_aliases _ _ Hf2). apply latest_after_set.
    + intros p Hp. destruct (Hcov p Hp) as [?|Hsi]; [by left|]. right.
      apply (ext_frame_queued w3 _ t id p); [done|]. apply (ext_frame_queued _ _ t id p Hf3). by apply Hq.
    + by rw Hc /= Him1.
    + intros p. rw Hc. rw {1}/speedboat_paths /=. fold (speedboat_paths c1). rw Hsp1. rw /removed. naive_solver.
    + intros p. rw Hc. rw {1}/delete_paths /=. fold (delete_paths c1). rw Hdp1. rw /removed. naive_solver.
  - intros w3 [Hf3 Hne]. by split; [exact (data_ok_frame _ _ (proj1 Hf3) Hok2)|].
Qed.

(** ** Well-formedness is an invariant *)

Lemma data_ok_alter_item ty t tr w :
  wf_item (et_work_item tr) → data_ok w →
  data_ok (upd (λ s, set_extension_work_items (alter (λ m, <[t := tr]> m) ty (extension_work_items s)) s) w).
Proof.
  intros Htr [H1 H2 H3]. constructor; simpl; [by apply alter_is_Some| |done].
  intros ty' items t' tr'. rw lookup_alter. case_decide; [|eauto].
  intros (m & Hm & ->)%fmap_Some [[<- <-]|[_ Ht']]%lookup_insert_Some; [done|]. eauto.
Qed.

Lemma add_coverage_wf c commit : wf_checkpoint c → wf_checkpoint (add_coverage c commit).1.
Proof. done. Qed.

Lemma add_coverage_for_data t x c w :
  data_ok w → wp (add_coverage_for t x c) (λ _, data_ok) data_ok w.
Proof.
  intros Hok. rw /add_coverage_for /modify_svc. do 2 wp_step. wp_step. wp_step; [|done].
  intros cp Hcp%unwrap_Ok. cbv zeta. do 2 wp_step.
  assert (Hok' : data_ok (upd (put_checkpoint t x (add_coverage cp c).1) w)).
  { apply data_ok_put_checkpoint; [|done]. apply add_coverage_wf. exact (do_checkpoints w Hok _ _ Hcp). }
  wp_step. wp_step; [|done]. intros b _. destruct b; [|by wp_step]. do 2 wp_step. wp_step.
  match goal with |- data_ok (upd _ ?w2) => by apply (data_ok_frame w2) end.
Qed.

Lemma apply_work_item_data t c w :
  data_ok w → wp (apply_extension_commit_to_work_item t c) (λ _, data_ok) data_ok w.
Proof.
  intros Hok. rw /apply_extension_commit_to_work_item /modify_svc. do 2 wp_step.
  destruct (extension_work_items (svc w) !! ec_extension c ≫= _) as [tr|] eqn:Htr; [|by wp_step].
  apply bind_Some in Htr as (items & Hitems & Htr).
  destruct (do_items w Hok _ _ _ _ Hitems Htr) as [Hs Hi]. cbv zeta.
  destruct (wf_remove _ (hash_iter (ec_files c)).*1 Hs) as (fs & Hfs & Hwfs & _).
  destruct (wf_remove _ (hash_iter (ec_files c)).*1 Hi) as (fi & Hfi & Hwfi & _).
  wp_step. rw Hfs. wp_step; [|done]. intros ? [= <-]. do 2 wp_step.
  wp_step. rw Hfi. wp_step; [|by apply data_ok_alter_item]. intros ? [= <-]. wp_step.
  by apply data_ok_alter_item, data_ok_alter_item.
Qed.

Lemma extension_commit_data t c w : data_ok w → wp (extension_commit t c) (λ _, data_ok) data_ok w.
Proof.
  intros Hok. rw /extension_commit /modify_svc. do 2 wp_step. cbv zeta. wp_step. wp_step; [intros [] _|done]. wp_step.
  eapply wp_mono; [apply (wp_map commit_frame _ data_ok (λ _ _, True));
    [intros; apply add_coverage_for_frame|done|intros; by eapply wp_mono; [apply add_coverage_for_data|..]|exact Hok]| |done].
  intros covered w1 [Hok1 _]. destruct (omap id covered); [by wp_step|]. do 2 wp_step. wp_step.
  eapply wp_mono; [apply apply_work_item_data; by apply (data_ok_frame w1)| |done].
  intros [] w2 Hok2. do 2 wp_step. do 3 wp_step.
  apply (data_ok_frame w2); [|done]. rw /upd /=. case_match; [case_match|]; done.
Qed.

Lemma add_checkpoint_data c w : wf_checkpoint c → data_ok w → wp (add_checkpoint c) (λ _, data_ok) data_ok w.
Proof.
  intros Hc Hok. rw /add_checkpoint /modify_svc. cbv zeta. do 4 wp_step. do 2 wp_step. wp_step.
  match goal with |- wp _ _ _ (upd ?h (upd ?g (upd ?f w))) =>
    set (w1 := upd f w); set (w2 := upd g w1); set (w3 := upd h w2) end.
  assert (Hok1 : data_ok w1) by (apply (data_ok_frame w); [rw /w1 /upd; case_match|]; done).
  assert (Hok2 : data_ok w2).
  { clearbody w1. rw /w2. clear w2 w3.
    destruct (checkpoints (svc w1) !! key2 (cp_table_name c) (cp_checkpoint_id c)) eqn:Hk.
    - rw /upd Hk. by destruct Hok1.
    - rw /upd Hk. by apply data_ok_put_checkpoint. }
  assert (Hok3 : data_ok w3) by by apply (data_ok_frame w2).
  case_decide.
  - eapply wp_mono; [apply (wp_iter _ data_ok); [exact Hok3|]| |done].
    + intros e w4 _ Hok4. wp_step. by apply (data_ok_frame w4).
    + intros [] w4 Hok4. wp_step. by apply (data_ok_frame w4).
  - eapply wp_mono; [apply fill_wp; [done| |]| |done].
    + destruct Hc as [_ Hs]. rw /wf_speedboat in Hs. by destruct (cp_speedboat_metadata c).
    + destruct Hc as [Hi _]. rw /wf_iceberg in Hi. by destruct (cp_iceberg_metadata c).
    + intros [] w4 [Hok4 _]. wp_step. by apply (data_ok_frame w4).
Qed.

Definition wf_commit (commit : SpeedboatCommit) : Prop := Forall wf_table_info (type_files commit).

Lemma speedboat_commit_data c w : wf_commit c → data_ok w → wp (speedboat_commit c) (λ _, data_ok) data_ok w.
Proof.
  intros Hc Hok. rw /speedboat_commit. wp_step. apply wp_lift_fail; [intros [] Ha|done].
  destruct (sc_compaction c) eqn:Hsc; [done|]. clear Ha. wp_step.
  eapply wp_mono; [apply (wp_iter _ data_ok); [exact Hok|]| |done].
  - intros ti w1 Hti Hok1. rw /wf_commit Forall_forall in Hc. specialize (Hc ti Hti).
    destruct (decide _); [|destruct (decide _); [|by wp_step]].
    + eapply wp_mono; [by apply commit_type_commit_wp| |]; naive_solver.
    + eapply wp_mono; [by apply commit_type_delete_wp| |]; naive_solver.
  - intros [] w1 Hok1. cbv zeta. wp_step.
    eapply wp_mono; [apply (wp_iter _ data_ok); [exact Hok1|]| |done]; [|done].
    intros t w2 _ Hok2. wp_step. by apply (data_ok_frame w2).
Qed.

Lemma claim_extension_data ty items w :
  (∀ t tr, (t, tr) ∈ items → wf_item (et_work_item tr)) → data_ok w → data_ok (claim_extension_loop ty items w).2.
Proof.
  revert w. induction items as [|[t tr] items IH]; intros w Hitems Hok; simpl; [done|].
  assert (Htail : ∀ t tr, (t, tr) ∈ items → wf_item (et_work_item tr)) by (intros t' tr' Hin; apply (Hitems t' tr'); by right).
  destruct (has_work _); [|by apply IH].
  assert (Hok1 : data_ok (lease_is_available (et_lease_expires_at_ms tr) w).2).
  { apply (data_ok_frame w); [|done]. by destruct (et_lease_expires_at_ms tr). }
  destruct (lease_is_available _ w) as [[] w1]; [|by apply IH]. simpl in Hok1.
  match goal with |- context [claim_extension_loop ty items ?w2] => specialize (IH w2 Htail) end.
  destruct (claim_extension_loop ty items _) as [cl w3]. apply IH.
  match goal with |- data_ok (upd _ ?w2) =>
    apply (data_ok_alter_item ty t (mkExtensionTracker (et_work_item tr) _) w2) end.
  - apply (Hitems t tr). left.
  - by apply (data_ok_frame w1).
Qed.

(** Inputs a client builds correctly. *)
Definition wf_command (c : Command) : Prop :=
  match c with
  | CmdSpeedboatCommit commit => wf_commit commit
  | CmdIcebergCommit _ commit => wf_files (im_files (ic_metadata commit))
  | CmdAddCheckpoint metadata => wf_checkpoint metadata
  | _ => True
  end.

#[local] Instance items_frame_preorder : PreOrder items_frame.
Proof. split; [by intros w; split|]. intros w1 w2 w3 [] []. split; congruence. Qed.

Lemma queue_items_frame :
  (∀ ct, st_rel items_frame (create_table ct)) ∧ (∀ t a, st_rel items_frame (add_alias t a)) ∧
  (∀ t a, st_rel items_frame (remove_alias t a)) ∧ (∀ n b, st_rel items_frame (create_table_template n b)) ∧
  (∀ n b, st_rel items_frame (create_pipeline n b)) ∧ (∀ n b, st_rel items_frame (create_lifetime_policy n b)) ∧
  (∀ t b, st_rel items_frame (compaction_commit t b)) ∧ (∀ b, st_rel items_frame (cleanup_commit b)).
Proof.
  split_and!; intros; rw /create_table /add_alias /remove_alias /create_table_template /create_pipeline
    /create_lifetime_policy /compaction_commit /cleanup_commit /modify_svc; st_rel_tac; try done;
    rw /upd; case_match; done.
Qed.

(** Cutover commands and the other claims. *)
Lemma cutover_items_frame c w : is_cutover_command c = true → items_frame w (exec (run_command c) w).
Proof. intros [_ _ Hk _ Hi _ _ _]%(cutover_command_data_frame c w). done. Qed.

Lemma claims_items_frame :
  (∀ w, items_frame w (claim_compaction_work_items_impl w).2) ∧ (∀ w, items_frame w (claim_cleanup_work_items_impl w).2).
Proof.
  destruct claim_impl_state as (_ & Hc & Hl).
  assert (∀ w w', svc w' = svc w → ids_used w' = ids_used w → items_frame w w') by (intros w w' Hs _; by rw /items_frame Hs).
  split; intros; rw ?Hc ?Hl; [apply claim_compaction_rel|apply claim_cleanup_rel]; solve [apply _|auto|done].
Qed.

Lemma data_ok_command c w : wf_command c → data_ok w → data_ok (exec (run_command c) w).
Proof.
  intros Hc Hok. destruct (is_cutover_command c) eqn:Hcc.
  { eapply data_ok_frame; [by apply cutover_items_frame|done]. }
  pose proof queue_items_frame as (? & ? & ? & ? & ? & ? & ? & ?).
  destruct c; try discriminate; simpl in *; rw ?exec_forget;
    try (refine (data_ok_frame w _ _ Hok); solve [apply st_rel_exec; auto]);
    try (apply exec_wp; auto using speedboat_commit_data, extension_commit_data, add_checkpoint_data).
  - eapply wp_mono; [by apply iceberg_commit_wp| |]; naive_solver.
  - by apply (data_ok_frame w).
  - wp_step. rw /claim_extension_work_items_impl /get_extension_work_items. case_decide; [|done].
    destruct (extension_work_items (svc w) !! extension_type) as [items|] eqn:Hi; [|done].
    pose proof (claim_extension_data extension_type (hash_iter items) w) as Hcl.
    destruct (claim_extension_loop extension_type _ w). apply Hcl; [|done].
    intros t tr Htr%elem_of_hash_iter. exact (do_items w Hok _ _ _ _ Hi Htr).
  - wp_step. by apply (data_ok_frame w); [apply claims_items_frame|].
  - wp_step. by apply (data_ok_frame w); [apply claims_items_frame|].
Qed.
End commits.

(** ** Properties *)
Module CommitTheory.
Section theorems.
Context `{Environment, HashOrder}.

(** Commands a correct client issues: no aliases, well-formed file lists. *)
Definition client_ok (c : Command) : Prop := is_alias_command c = false ∧ wf_command c.

Lemma reachable_mono (P Q : Command → Prop) w : (∀ c, P c → Q c) → reachable P w → reachable Q w.
Proof. intros HPQ. induction 1; constructor; auto. Qed.

Lemma reachable_data_ok w : reachable wf_command w → data_ok w.
Proof.
  induction 1 as [m ids reads|c w Hc _ IH]; [|by apply data_ok_command].
  constructor.
  - simpl. case_decide; [|done]. rw lookup_insert_eq. by eexists.
  - intros ty items t tr. simpl. case_decide; [|done]. rw lookup_insert_Some lookup_empty. intros [[_ <-]|[_ ?]]; [|done].
    by rw lookup_empty.
  - simpl. intros k c. by rw lookup_empty.
Qed.

Lemma reachable_committed w : reachable (λ c, is_alias_command c = false) w → committed_ok w.
Proof.
  induction 1 as [m ids reads|c w Hc _ IH]; [|by apply committed_ok_command].
  split; [done|]. intros ????. by rw /= /deserialize_latest_committed_checkpoint_id hash_iter_empty lookup_empty.
Qed.

Lemma wp_Ok {A} (m : ST World A) Q E w : wp m Q E w → (∀ w', ¬ E w') → ∃ a w', m w = (Ok a, w') ∧ Q a w'.
Proof. rw /wp. destruct (m w) as [[a|e|r] w']; naive_solver. Qed.

(** A commit of a single table. *)
Definition single_commit (ti : SpeedboatCommitTableInfo) : SpeedboatCommit := mkSpeedboatCommit [ti] None.

Lemma single_commit_wp ti w (Q : World → Prop) E :
  wp (if decide (ti_commit_type ti = "commit" ∨ ti_commit_type ti = "compact")
      then speedboat_commit_type_commit ti None
      else if decide (ti_commit_type ti = "delete")
      then speedboat_commit_type_delete ti None
      else st_lift (Panic "Unknown Speedboat commit type")) (λ _, Q) E w →
  wp (speedboat_commit (single_commit ti)) (λ b w', b = true ∧ ∃ w1, Q w1 ∧
    w' = queue_publication_request DEFAULT_METADATA_NAMESPACE (ti_table_name ti) w1) E w.
Proof.
  intros Hwp. rw /speedboat_commit. wp_step. apply wp_lift_fail; [|intros Hn; by destruct (Hn ())].
  intros [] _. wp_step. simpl. wp_step. eapply wp_mono; [exact Hwp| |done].
  intros [] w1 HQ. wp_step. simpl. repeat wp_step. eauto.
Qed.

(** A delete commit cannot fail: in every state reachable by a correct client it
    returns [true] and installs, under a fresh id, a checkpoint with the data files
    and schema of the latest one (or of an empty table) and its delete files extended
    by the commit's, and the table's publication is requested. *)
Theorem delete_commit_total w ti :
  reachable client_ok w → ti_commit_type ti = "delete" →
  let t := ti_table_name ti in let id := next_id (ids_used w) in
  ∃ w' base c, speedboat_commit (single_commit ti) w = (Ok true, w') ∧ requested w' t ∧
    latest_checkpoint_or (svc w) t (Ok (new_checkpoint t "" minimal)) = Ok base ∧
    installed w w' t id c ∧
    cp_iceberg_metadata c = cp_iceberg_metadata base ∧ cp_speedboat_metadata c = cp_speedboat_metadata base ∧
    cp_schema c = cp_schema base ∧ delete_paths c = delete_paths base ++ ti_files ti.
Proof.
  intros Hr Hty t id.
  assert (Hdata : data_ok w) by (apply reachable_data_ok; eapply reachable_mono; [|exact Hr]; by intros c []).
  assert (Hcom : committed_ok w) by (apply reachable_committed; eapply reachable_mono; [|exact Hr]; by intros c []).
  assert (Hbase : ∃ base, latest_checkpoint_or (svc w) t (Ok (new_checkpoint t "" minimal)) = Ok base).
  { rw /latest_checkpoint_or. destruct (get_latest_materialized_checkpoint_sync (svc w) t None) as [c|] eqn:Hc; [|eauto].
    destruct (latest_resolves_get _ _ _ _ (proj1 Hcom) (proj2 Hcom) Hc) as [cp ->]. eauto. }
  eassert (Hs : wp (speedboat_commit (single_commit ti)) _ _ w).
  { apply single_commit_wp. destruct (decide (_ ∨ _)) as [[?|?]|_]; [congruence..|].
    destruct (decide (_ = "delete")) as [_|?]; [|congruence]. apply commit_type_delete_wp. exact Hdata. }
  apply wp_Ok in Hs as (b & w' & Hrun & -> & w1 & HQ & ->);
    [|intros w' [_ Hno]; destruct Hbase as [base Hb]; exact (Hno _ Hb)].
  destruct HQ as (Hok1 & base & c & Hb & Hin & ? & ? & ? & ?).
  eexists _, base, c. split; [exact Hrun|]. split; [apply lookup_insert_eq|]. split; [exact Hb|].
  split; [destruct Hin; by constructor|]. done.
Qed.

(** C13. A data commit whose schema merges with the table's cannot fail either: in
    every state reachable by a correct client it installs a checkpoint that has the
    old speedboat files and the commit's, keeps the iceberg and delete files, carries
    the merged schema, mentions no stale coverage, and whose every data file is
    covered by the search extension or queued for it. *)
Theorem data_commit_total w ti base merged :
  reachable client_ok w → wf_table_info ti → ti_commit_type ti = "commit" ∨ ti_commit_type ti = "compact" →
  speedboat_commit_to w ti base merged →
  let t := ti_table_name ti in let id := next_id (ids_used w) in
  ∃ w' c, speedboat_commit (single_commit ti) w = (Ok true, w') ∧ requested w' t ∧
    installed w w' t id c ∧ covered_or_queued w' t id c ∧ cp_schema c = merged ∧
    cp_iceberg_metadata c = cp_iceberg_metadata base ∧ cp_deletes_metadata c = cp_deletes_metadata base ∧
    ∀ p, p ∈ speedboat_paths c ↔ p ∈ speedboat_paths base ∨ p ∈ ti_files ti.
Proof.
  intros Hr Hti Hty Hto t id.
  assert (Hdata : data_ok w) by (apply reachable_data_ok; eapply reachable_mono; [|exact Hr]; by intros c []).
  eassert (Hs : wp (speedboat_commit (single_commit ti)) _ _ w).
  { apply single_commit_wp. destruct (decide (_ ∨ _)); [|done]. apply commit_type_commit_wp; [exact Hdata|exact Hti]. }
  apply wp_Ok in Hs as (b & w' & Hrun & -> & w1 & HQ & ->); [|intros w' [_ Hno]; exact (Hno _ _ Hto)].
  destruct HQ as (Hok1 & base' & c & [Hb' (sch & Hsch & Hm)] & Hin & Hcov & ? & ? & ?).
  destruct Hto as [Hb (sch' & Hsch' & Hm')].
  assert (base' = base) as -> by (rw Hb in Hb'; congruence). simplify_eq.
  eexists _, c. split; [exact Hrun|]. split; [apply lookup_insert_eq|].
  split; [destruct Hin; by constructor|]. split_and!; try done. congruence.
Qed.

(** C21. Whenever [iceberg_commit] returns, it returned [true] and installed a
    checkpoint whose iceberg metadata is the commit's, whose speedboat and delete
    files are the old ones minus those removed by the named compactions, with the
    merged schema, current coverage, and every data file covered or queued; and with
    no compactions it always returns, provided the schemas merge. *)
Theorem iceberg_commit_correct w t commit :
  reachable client_ok w → wf_files (im_files (ic_metadata commit)) →
  let id := next_id (ids_used w) in
  let removed (f : CompactionCommit → list string) (p : string) :=
    ∃ i, i ∈ ic_compactions commit ∧ p ∈ f (recorded (svc w) i) in
  (∀ b w', iceberg_commit t commit w = (Ok b, w') →
     b = true ∧ requested w' t ∧ ∃ base c, iceberg_commit_to w t commit base (cp_schema c) ∧
       installed w w' t id c ∧ covered_or_queued w' t id c ∧
       cp_iceberg_metadata c = Some (ic_metadata commit) ∧
       (∀ p, p ∈ speedboat_paths c ↔ p ∈ speedboat_paths base ∧ ¬ removed cc_removed_speedboat_files p) ∧
       (∀ p, p ∈ delete_paths c ↔ p ∈ delete_paths base ∧ ¬ removed cc_removed_delete_files p)) ∧
  (ic_compactions commit = [] → (∃ base merged, iceberg_commit_to w t commit base merged) →
     ∃ w', iceberg_commit t commit w = (Ok true, w')).
Proof.
  intros Hr Hwf id removed.
  assert (Hdata : data_ok w) by (apply reachable_data_ok; eapply reachable_mono; [|exact Hr]; by intros c []).
  pose proof (iceberg_commit_wp t commit w Hdata Hwf) as Hwp. split.
  - intros b w' Hrun. rw /wp Hrun in Hwp. destruct Hwp as (-> & _ & Hrest). done.
  - intros Hnil (base & merged & Hto).
    apply wp_Ok in Hwp as (b & w' & Hrun & -> & _); [by exists w'|].
    intros w' [_ Hno]. exact (Hno Hnil _ _ Hto).
Qed.
End theorems.
End CommitTheory.
