(* ===== verification/QueueTheory.v ===== *)
(** * Work claims, cleanup, extension commits and snapshots

    Leased work is not handed out twice within a lease, cleanup never hands out a
    file an active checkpoint reads, the search extension's pointer only moves
    forward and only to fully covered checkpoints, a snapshot restores the service,
    and aliases can make a table uncommittable. *)

From S2P Require Import Prelude Json Schema FileSet Contract Checkpoint Coordination ServiceState Cutover Commits CutoverTheory Service CommitTheory.

Section claims.
Context `{Environment, HashOrder}.

(** All clock readings fall within one lease length of [T]. *)
Definition clock_window (T : Z) : Prop :=
  (0 ≤ T ≤ 2 ^ 62)%Z ∧ ∀ k, (T ≤ clock k < T + WORK_CLAIM_LEASE_LENGTH_MS)%Z.

Lemma window_now T w : clock_window T → (T ≤ current_timestamp_ms w < T + WORK_CLAIM_LEASE_LENGTH_MS)%Z.
Proof.
  intros [HT Hk]. specialize (Hk (clock_reads w)). rw /current_timestamp_ms. rw /WORK_CLAIM_LEASE_LENGTH_MS in Hk |- *.
  destruct (Z.ltb_spec (clock (clock_reads w)) 0); [lia|]. rw wrap_i64_small; lia.
Qed.

Lemma window_expiry T w : clock_window T → (T + WORK_CLAIM_LEASE_LENGTH_MS ≤ (claim_lease_expires_at_ms w).1)%Z.
Proof.
  intros HT. pose proof (window_now T w HT) as Hn. destruct HT as [HT _]. simpl.
  rw /WORK_CLAIM_LEASE_LENGTH_MS in Hn |- *. rw wrap_i64_small; lia.
Qed.

(** A lease found available in the window expires before the window's end. *)
Definition lease_over (T : Z) (lease : option Z) : Prop :=
  ∀ x, lease = Some x → (x < T + WORK_CLAIM_LEASE_LENGTH_MS)%Z.

Lemma window_available T lease w :
  clock_window T → (lease_is_available lease w).1 = true → lease_over T lease.
Proof.
  intros HT Ha x ->. pose proof (window_now T w HT) as Hn. simpl in Ha. apply Z.leb_le in Ha. lia.
Qed.

Lemma lease_available_svc lease w : svc (lease_is_available lease w).2 = svc w.
Proof. by destruct lease. Qed.

(** ** Compaction claims *)

Lemma claim_compaction_spec T items w :
  clock_window T → NoDup items.*1 →
  let '(l, w') := claim_compaction_loop items w in
  (∀ t i, (t, i) ∈ l → ∃ tr exp, (t, tr) ∈ items ∧ ct_work_item tr = i ∧ lease_over T (ct_lease_expires_at_ms tr) ∧
     (T + WORK_CLAIM_LEASE_LENGTH_MS ≤ exp)%Z ∧
     compaction_work_items (svc w') !! t = Some (mkCompactionTracker i (Some exp))) ∧
  (∀ t, t ∉ items.*1 → compaction_work_items (svc w') !! t = compaction_work_items (svc w) !! t).
Proof.
  intros HT. revert w. induction items as [|[t tr] items IH]; intros w Hnd; simpl.
  { split; [|done]. intros ?? Hn. by apply elem_of_nil in Hn. }
  apply NoDup_cons in Hnd as [Hfresh Hnd].
  pose proof (window_available T (ct_lease_expires_at_ms tr) w HT) as Hav.
  pose proof (lease_available_svc (ct_lease_expires_at_ms tr) w) as Hsvc.
  destruct (lease_is_available (ct_lease_expires_at_ms tr) w) as [b w1]. simpl in Hav, Hsvc.
  destruct b.
  - pose proof (window_expiry T w1 HT) as Hexp. set (exp := (claim_lease_expires_at_ms w1).1) in *.
    match goal with |- context [claim_compaction_loop items ?w3] => specialize (IH w3 Hnd) end.
    destruct (claim_compaction_loop items _) as [l w4]. destruct IH as [IH1 IH2]. split.
    + intros t' i [Heq|Hin]%elem_of_cons.
      * injection Heq as -> ->. exists tr, exp. split_and!; [left|done|by apply Hav|done|].
        rw IH2; [done|]. simpl. by rw lookup_insert_eq.
      * destruct (IH1 t' i Hin) as (tr' & exp' & ? & ?). exists tr', exp'. split; [by right|done].
    + intros t' [Hne Hnin]%not_elem_of_cons. rw IH2; [done|]. simpl. rw lookup_insert_ne; [congruence|]. by rw Hsvc.
  - specialize (IH w1 Hnd). destruct (claim_compaction_loop items w1) as [l w4]. destruct IH as [IH1 IH2]. split.
    + intros t' i Hin. destruct (IH1 t' i Hin) as (tr' & exp' & ? & ?). exists tr', exp'. split; [by right|done].
    + intros t' [Hne Hnin]%not_elem_of_cons. rw IH2; [done|]. by rw Hsvc.
Qed.

(** ** Extension claims *)

Definition pending_item (s : EphemeralServiceImpl) (ty t : string) : option ExtensionWorkItemTracker :=
  extension_work_items s !! ty ≫= λ items, items !! t.

Lemma claim_extension_spec T ty items w :
  clock_window T → NoDup items.*1 → is_Some (extension_work_items (svc w) !! ty) →
  let '(l, w') := claim_extension_loop ty items w in
  (∀ i, i ∈ l → ∃ t tr exp, (t, tr) ∈ items ∧ et_work_item tr = i ∧ has_work i = true ∧
     lease_over T (et_lease_expires_at_ms tr) ∧
     (T + WORK_CLAIM_LEASE_LENGTH_MS ≤ exp)%Z ∧ pending_item (svc w') ty t = Some (mkExtensionTracker i (Some exp))) ∧
  (∀ t, t ∉ items.*1 → pending_item (svc w') ty t = pending_item (svc w) ty t).
Proof.
  intros HT. revert w. induction items as [|[t tr] items IH]; intros w Hnd Hty; simpl.
  { split; [|done]. intros ? Hn. by apply elem_of_nil in Hn. }
  apply NoDup_cons in Hnd as [Hfresh Hnd].
  assert (Hskip : ∀ w1, svc w1 = svc w →
    let '(l, w') := claim_extension_loop ty items w1 in
    (∀ i, i ∈ l → ∃ t0 tr0 exp, (t0, tr0) ∈ (t, tr) :: items ∧ et_work_item tr0 = i ∧ has_work i = true ∧
       lease_over T (et_lease_expires_at_ms tr0) ∧
       (T + WORK_CLAIM_LEASE_LENGTH_MS ≤ exp)%Z ∧ pending_item (svc w') ty t0 = Some (mkExtensionTracker i (Some exp))) ∧
    (∀ t0, t0 ∉ t :: items.*1 → pending_item (svc w') ty t0 = pending_item (svc w) ty t0)).
  { intros w1 Hs. specialize (IH w1 Hnd). rw Hs in IH. specialize (IH Hty).
    destruct (claim_extension_loop ty items w1) as [l w4]. destruct IH as [IH1 IH2]. split.
    - intros i Hin. destruct (IH1 i Hin) as (t' & tr' & exp' & ? & ?). exists t', tr', exp'. split; [by right|done].
    - intros t' [Hne Hnin]%not_elem_of_cons. by apply IH2. }
  destruct (has_work (et_work_item tr)) eqn:Hwork; [|by apply Hskip].
  pose proof (window_available T (et_lease_expires_at_ms tr) w HT) as Hav.
  pose proof (lease_available_svc (et_lease_expires_at_ms tr) w) as Hsvc.
  destruct (lease_is_available (et_lease_expires_at_ms tr) w) as [b w1]. simpl in Hav, Hsvc.
  destruct b; [|by apply Hskip].
  pose proof (window_expiry T w1 HT) as Hexp. set (exp := (claim_lease_expires_at_ms w1).1) in *.
  match goal with |- context [claim_extension_loop ty items ?w3] =>
    specialize (IH w3 Hnd); assert (Hty3 : is_Some (extension_work_items (svc w3) !! ty)) by
      (simpl; rw Hsvc; by apply alter_is_Some); specialize (IH Hty3) end.
  destruct Hty as [m Hm].
  destruct (claim_extension_loop ty items _) as [l w4]. destruct IH as [IH1 IH2]. rw /pending_item /= Hsvc lookup_alter_eq Hm /= in IH2.
  split.
  - intros i [->|Hin]%elem_of_cons.
    + exists t, tr, exp. split_and!; [left|done|done|by apply Hav|done|]. rw /pending_item IH2; [done|]. by rw lookup_insert_eq.
    + destruct (IH1 i Hin) as (t' & tr' & exp' & ? & ?). exists t', tr', exp'. split; [by right|done].
  - intros t' [Hne Hnin]%not_elem_of_cons. rw /pending_item IH2; [done|]. rw lookup_insert_ne; [congruence|]. by rw Hm.
Qed.

(** ** Cleanup claims *)

(** The ready indexes, in increasing order, are those of items that are ready and
    whose lease is available. *)
Lemma ready_indexes_spec j items w :
  let '(l, w') := ready_cleanup_indexes j items w in
  svc w' = svc w ∧ NoDup l ∧
  (∀ i, i ∈ l → ∃ tr, j ≤ i ∧ items !! (i - j) = Some tr ∧
     cleanup_work_item_is_ready (svc w) (clt_work_item tr) = true ∧
     ∀ T, clock_window T → lease_over T (clt_lease_expires_at_ms tr)).
Proof.
  revert j w. induction items as [|tr items IH]; intros j w; simpl.
  { split_and!; [done|constructor|]. intros i Hi. by apply elem_of_nil in Hi. }
  assert (Htail : ∀ w1, svc w1 = svc w → let '(l, w') := ready_cleanup_indexes (S j) items w1 in
    svc w' = svc w ∧ NoDup l ∧
    (∀ i, i ∈ l → ∃ tr0, j < i ∧ (tr :: items) !! (i - j) = Some tr0 ∧
       cleanup_work_item_is_ready (svc w) (clt_work_item tr0) = true ∧
       ∀ T, clock_window T → lease_over T (clt_lease_expires_at_ms tr0))).
  { intros w1 Hs. specialize (IH (S j) w1). destruct (ready_cleanup_indexes (S j) items w1) as [l w'].
    rw Hs in IH. destruct IH as (? & ? & Hl). split_and!; [done..|]. intros i Hi.
    destruct (Hl i Hi) as (tr0 & Hle & Hlook & ? & ?). exists tr0. split_and!; [lia| |done..].
    replace (i - j) with (S (i - S j)) by lia. done. }
  destruct (cleanup_work_item_is_ready (svc w) (clt_work_item tr)) eqn:Hready.
  - pose proof (λ T, window_available T (clt_lease_expires_at_ms tr) w) as Hav.
    pose proof (lease_available_svc (clt_lease_expires_at_ms tr) w) as Hs.
    destruct (lease_is_available (clt_lease_expires_at_ms tr) w) as [b w1]. simpl in Hs, Hav.
    specialize (Htail w1 Hs). destruct (ready_cleanup_indexes (S j) items w1) as [l w'].
    destruct Htail as (? & Hnd & Hl). destruct b.
    + split_and!; [done| |].
      * constructor; [|done]. intros Hj. destruct (Hl j Hj) as (? & ? & _). lia.
      * intros i [->|Hi]%elem_of_cons.
        -- exists tr. split_and!; [lia| |done|auto]. by replace (j - j) with 0 by lia.
        -- destruct (Hl i Hi) as (tr0 & ? & ?). exists tr0. split; [lia|done].
    + split_and!; [done..|]. intros i Hi. destruct (Hl i Hi) as (tr0 & ? & ?). exists tr0. split; [lia|done].
  - specialize (Htail w eq_refl). destruct (ready_cleanup_indexes (S j) items w) as [l w'].
    destruct Htail as (? & Hnd & Hl). split_and!; [done..|].
    intros i Hi. destruct (Hl i Hi) as (tr0 & ? & ?). exists tr0. split; [lia|done].
Qed.

(** Every index in range is claimed and leased; the vector access never fails. *)
Lemma claim_cleanup_in_range T l w :
  clock_window T → NoDup l → (∀ i, i ∈ l → is_Some (cleanup_work_items (svc w) !! i)) →
  let '(claimed, w') := claim_cleanup_loop l w in
  length claimed = length l ∧
  (∀ item, item ∈ claimed → ∃ i tr exp, i ∈ l ∧ cleanup_work_items (svc w) !! i = Some tr ∧ clt_work_item tr = item ∧
     (T + WORK_CLAIM_LEASE_LENGTH_MS ≤ exp)%Z ∧
     cleanup_work_items (svc w') !! i = Some (mkCleanupTracker item (Some exp))) ∧
  (∀ i, i ∉ l → cleanup_work_items (svc w') !! i = cleanup_work_items (svc w) !! i).
Proof.
  intros HT. revert w. induction l as [|j l IH]; intros w Hnd Hrange; simpl.
  { split_and!; [done| |done]. intros ? Hn. by apply elem_of_nil in Hn. }
  apply NoDup_cons in Hnd as [Hj Hnd].
  destruct (Hrange j) as [tr Htr]; [left|]. rw Htr.
  pose proof (window_expiry T w HT) as Hexp. set (exp := (claim_lease_expires_at_ms w).1) in *.
  match goal with |- context [claim_cleanup_loop l ?w1] => specialize (IH w1 Hnd) end. simpl in IH.
  destruct (claim_cleanup_loop l _) as [claimed w'].
  assert (Hother : ∀ i, i ∈ l → <[j := mkCleanupTracker (clt_work_item tr) (Some exp)]> (cleanup_work_items (svc w)) !! i
    = cleanup_work_items (svc w) !! i) by (intros i Hi; apply list_lookup_insert_ne; congruence).
  destruct IH as (Hlen & Hcl & Hkeep).
  { intros i Hi. fold exp. rw Hother //. apply Hrange. by right. }
  split_and!; [simpl; congruence| |].
  - intros item [->|Hin]%elem_of_cons.
    + exists j, tr, exp. split_and!; [left|done..|]. rw Hkeep; [done|]. fold exp. apply list_lookup_insert_eq.
      exact (lookup_lt_Some _ _ _ Htr).
    + destruct (Hcl item Hin) as (i & tr' & exp' & Hi & Hlook & ?). fold exp in Hlook. rw Hother in Hlook; [done|].
      exists i, tr', exp'. split; [by right|done].
  - intros i [Hne Hnin]%not_elem_of_cons. rw Hkeep; [done|]. apply list_lookup_insert_ne. congruence.
Qed.
End claims.

(** ** Extension commits *)

Section extension.
Context `{Environment, HashOrder}.

(** Checkpoints keep their files and only gain coverage. *)
Definition coverage_grows (w w' : World) : Prop :=
  ∀ k cp, checkpoints (svc w) !! k = Some cp →
    ∃ cp', checkpoints (svc w') !! k = Some cp' ∧ current_file_paths cp' = current_file_paths cp ∧
      ∀ ext p, is_Some (extension_files cp ext !! p) → is_Some (extension_files cp' ext !! p).

#[export] Instance coverage_grows_preorder : PreOrder coverage_grows.
Proof.
  split; [by intros w k cp ?; exists cp|]. intros w1 w2 w3 H1 H2 k cp Hk.
  destruct (H1 k cp Hk) as (cp2 & Hk2 & Hp2 & He2). destruct (H2 k cp2 Hk2) as (cp3 & Hk3 & Hp3 & He3).
  exists cp3. split_and!; [done|congruence|auto].
Qed.

Lemma coverage_grows_same w w' : checkpoints (svc w') = checkpoints (svc w) → coverage_grows w w'.
Proof. intros Heq k cp Hk. exists cp. by rw Heq. Qed.

Lemma add_coverage_grows_files c commit ext p :
  is_Some (extension_files c ext !! p) → is_Some (extension_files (add_coverage c commit).1 ext !! p).
Proof.
  intros Hs. destruct (decide (ext = ec_extension commit)) as [->|Hne].
  - rw add_coverage_lookup. destruct (extension_files c (ec_extension commit) !! p); [done|by destruct Hs].
  - rw /extension_files add_coverage_other //.
Qed.

Definition covered_at (t ext id : string) (w : World) : Prop :=
  ∃ cp, checkpoints (svc w) !! key2 t id = Some cp ∧ fully_covered_for_extension cp ext = Ok true.

Lemma fully_covered_iff c ext :
  fully_covered_for_extension c ext = Ok true ↔ ∀ p, p ∈ current_file_paths c → is_Some (extension_files c ext !! p).
Proof. destruct (fully_covered_spec c ext) as (b & -> & <-). naive_solver. Qed.

Lemma covered_at_grows t ext id w w' : coverage_grows w w' → covered_at t ext id w → covered_at t ext id w'.
Proof.
  intros Hg (cp & Hcp & Hf). destruct (Hg _ _ Hcp) as (cp' & Hcp' & Hp & He). exists cp'. split; [done|].
  apply fully_covered_iff. rw Hp. intros p Hin. apply He. by apply (proj1 (fully_covered_iff cp ext)).
Qed.

(** Checkpoints gain coverage, and the committed ids stay. *)
Definition coverage_only (w w' : World) : Prop :=
  coverage_grows w w' ∧ latest_committed_checkpoint_id (svc w') = latest_committed_checkpoint_id (svc w) ∧
  table_aliases (svc w') = table_aliases (svc w).

Lemma add_coverage_for_covers t x c w :
  wp (add_coverage_for t x c)
    (λ o w', coverage_only w w' ∧ ∀ id, o = Some id → covered_at t (ec_extension c) id w')
    (coverage_only w) w.
Proof.
  rw /add_coverage_for /modify_svc. do 2 wp_step. wp_step. wp_step; [|by split; [reflexivity|]]. intros cp Hcp%unwrap_Ok. cbv zeta.
  do 2 wp_step. set (w1 := upd _ w).
  assert (Hg : coverage_grows w w1).
  { intros k cp' Hk. destruct (decide (k = key2 t x)) as [->|Hne].
    - simplify_eq. eexists. split; [apply lookup_insert_eq|]. split; [done|]. intros ext p. apply add_coverage_grows_files.
    - exists cp'. split_and!; [|done..]. rw /= lookup_insert_ne; [congruence|done]. }
  wp_step. wp_step; [|by split]. intros b Hb. destruct b; [|by wp_step].
  do 2 wp_step. wp_step. split; [split; [|done]; etrans; [exact Hg|by apply coverage_grows_same]|].
  intros id [= <-]. exists (add_coverage cp c).1. split; [apply lookup_insert_eq|done].
Qed.

Lemma add_coverage_for_grows t x c : st_rel coverage_grows (add_coverage_for t x c).
Proof. intros w. apply exec_wp. eapply wp_mono; [apply add_coverage_for_covers| |]; [by intros o w' [[] _]|by intros w' []]. Qed.

Lemma apply_work_item_ext t c : st_rel (λ w w', checkpoints (svc w') = checkpoints (svc w) ∧
  latest_committed_checkpoint_id (svc w') = latest_committed_checkpoint_id (svc w) ∧
  table_aliases (svc w') = table_aliases (svc w)) (apply_extension_commit_to_work_item t c).
Proof. intros w. destruct (apply_work_item_frame t c w). done. Qed.
End extension.

(** ** Snapshots *)

Section snapshots.
Context `{HashOrder}.

Lemma collect_injective `{Countable K1, Countable K2} {V} (f : K1 → K2) (m : gmap K1 V) :
  (∀ k k', is_Some (m !! k) → is_Some (m !! k') → f k = f k' → k = k') →
  ∀ k v, collect ((λ kv, (f kv.1, kv.2)) <$> hash_iter m) !! k = Some v ↔ ∃ k0, f k0 = k ∧ m !! k0 = Some v.
Proof.
  intros Hinj k v.
  assert (Hnd : NoDup ((λ kv : K1 * V, (f kv.1, kv.2)) <$> hash_iter m).*1).
  { rw -list_fmap_compose. apply NoDup_fmap_2_strong; [|exact (NoDup_fmap_1 fst _ (NoDup_hash_iter m))].
    intros [k1 v1] [k2 v2] Hk1%elem_of_hash_iter Hk2%elem_of_hash_iter Hf. simpl in Hf.
    assert (k1 = k2) as -> by (apply Hinj; eauto). congruence. }
  rw collect_list_to_map; [done|]. rw -elem_of_list_to_map; [done|]. rw list_elem_of_fmap. split.
  - intros ([k0 v0] & Heq & Hin%elem_of_hash_iter). simplify_eq/=. eauto.
  - intros (k0 & <- & Hk0). exists (k0, v). split; [done|]. by apply elem_of_hash_iter.
Qed.

Lemma storage_key_roundtrip e : e ≠ Some "" → extension_from_storage_key (extension_storage_key e) = e.
Proof. rw /extension_from_storage_key. destruct e as [e|]; simpl; [|done]. intros Hne. case_decide; congruence. Qed.

Lemma deserialize_serialize s :
  latest_committed_checkpoint_id s !! Some "" = None →
  deserialize_latest_committed_checkpoint_id (serialize_latest_committed_checkpoint_id s) = latest_committed_checkpoint_id s.
Proof.
  intros Hne. rw /deserialize_latest_committed_checkpoint_id /serialize_latest_committed_checkpoint_id.
  set (m := latest_committed_checkpoint_id s) in *. clearbody m.
  assert (Hok : ∀ e, is_Some (m !! e) → e ≠ Some "") by (intros e He ->; rw Hne in He; by destruct He).
  assert (Hser : ∀ k v, collect ((λ kv, (extension_storage_key kv.1, kv.2)) <$> hash_iter m) !! k = Some v ↔
    ∃ e, extension_storage_key e = k ∧ m !! e = Some v).
  { apply collect_injective. intros e e' He He' Heq.
    apply Hok in He, He'. apply storage_key_roundtrip in He, He'. congruence. }
  set (m1 := collect _) in *. clearbody m1. apply map_eq. intros e. apply option_eq. intros v.
  rw collect_injective.
  { intros k k' _ _. rw /extension_from_storage_key. do 2 case_decide; congruence. }
  setoid_rewrite Hser. split.
  - intros (k & <- & e' & <- & Hv). rw storage_key_roundtrip; [apply Hok; eauto|done].
  - intros Hv. exists (extension_storage_key e). split; [apply storage_key_roundtrip, Hok; eauto|eauto].
Qed.
End snapshots.

(** ** Exclusive claims *)

Section exclusive.
Context `{Environment, HashOrder}.

Lemma compaction_claims_exclusive T w w2 t i i' :
  clock_window T →
  compaction_work_items (svc w2) = compaction_work_items (svc (get_compaction_work_items w).2) →
  (t, i) ∈ (get_compaction_work_items w).1 → (t, i') ∉ (get_compaction_work_items w2).1.
Proof.
  intros HT Hq Hin1 Hin2. rw /get_compaction_work_items in Hin1 Hin2 Hq.
  pose proof (claim_compaction_spec T _ w HT (NoDup_hash_iter (compaction_work_items (svc w)))) as H1.
  destruct (claim_compaction_loop _ w) as [l1 w1]. destruct H1 as [H1 _]. simpl in *.
  destruct (H1 t i Hin1) as (tr & exp & _ & _ & _ & Hexp & Hleased). clear H1.
  pose proof (claim_compaction_spec T _ w2 HT (NoDup_hash_iter (compaction_work_items (svc w2)))) as H2.
  destruct (claim_compaction_loop _ w2) as [l2 w3]. destruct H2 as [H2 _]. simpl in *.
  destruct (H2 t i' Hin2) as (tr' & _ & Htr'%elem_of_hash_iter & _ & Hover & _).
  rw Hq Hleased in Htr'. simplify_eq. specialize (Hover exp eq_refl). lia.
Qed.

(** Pending items are filed under the table they name. *)
Definition items_filed (s : EphemeralServiceImpl) : Prop :=
  ∀ ty t tr, pending_item s ty t = Some tr → ew_table_name (et_work_item tr) = t.

Lemma extension_claim T ty w i :
  clock_window T → i ∈ (get_extension_work_items ty w).1 →
  ∃ t tr exp, pending_item (svc w) ty t = Some tr ∧ et_work_item tr = i ∧ lease_over T (et_lease_expires_at_ms tr) ∧
    (T + WORK_CLAIM_LEASE_LENGTH_MS ≤ exp)%Z ∧
    pending_item (svc (get_extension_work_items ty w).2) ty t = Some (mkExtensionTracker i (Some exp)).
Proof.
  intros HT. rw /get_extension_work_items. case_decide; [|by intros Hn%elem_of_nil].
  destruct (extension_work_items (svc w) !! ty) as [items|] eqn:Hty; [|by intros Hn%elem_of_nil].
  pose proof (claim_extension_spec T ty (hash_iter items) w HT (NoDup_hash_iter items)) as Hspec.
  rw Hty in Hspec. specialize (Hspec ltac:(eauto)).
  destruct (claim_extension_loop ty _ w) as [l w1]. destruct Hspec as [Hspec _]. simpl. intros Hin.
  destruct (Hspec i Hin) as (t & tr & exp & Htr%elem_of_hash_iter & ? & _ & ? & ? & ?).
  exists t, tr, exp. split_and!; try done. by rw /pending_item Hty.
Qed.

Lemma extension_claims_exclusive T ty w w2 i i' :
  clock_window T → items_filed (svc w) → items_filed (svc w2) →
  extension_work_items (svc w2) = extension_work_items (svc (get_extension_work_items ty w).2) →
  i ∈ (get_extension_work_items ty w).1 → i' ∈ (get_extension_work_items ty w2).1 → ew_table_name i ≠ ew_table_name i'.
Proof.
  intros HT Hf Hf2 Hq Hin Hin' Heq.
  destruct (extension_claim T ty w i HT Hin) as (t & tr & exp & Ht & Hi & _ & Hexp & Hleased).
  destruct (extension_claim T ty w2 i' HT Hin') as (t' & tr' & _ & Ht' & Hi' & Hover & _).
  pose proof (Hf _ _ _ Ht) as Hn. pose proof (Hf2 _ _ _ Ht') as Hn'.
  assert (t = t') as <- by congruence.
  rw /pending_item Hq in Ht'. rw /pending_item in Hleased. rw Hleased in Ht'. injection Ht' as <-.
  specialize (Hover exp eq_refl). lia.
Qed.

Lemma cleanup_claim T w item :
  clock_window T → item ∈ (get_cleanup_work_items w).1 →
  ∃ i tr exp, cleanup_work_items (svc w) !! i = Some tr ∧ clt_work_item tr = item ∧
    cleanup_work_item_is_ready (svc w) item = true ∧ lease_over T (clt_lease_expires_at_ms tr) ∧
    (T + WORK_CLAIM_LEASE_LENGTH_MS ≤ exp)%Z ∧
    cleanup_work_items (svc (get_cleanup_work_items w).2) !! i = Some (mkCleanupTracker item (Some exp)).
Proof.
  intros HT. rw /get_cleanup_work_items.
  pose proof (ready_indexes_spec 0 (cleanup_work_items (svc w)) w) as Hr.
  destruct (ready_cleanup_indexes 0 _ w) as [l w1]. destruct Hr as (Hs & Hnd & Hl).
  assert (Hl' : ∀ i, i ∈ l → ∃ tr, cleanup_work_items (svc w) !! i = Some tr ∧
    cleanup_work_item_is_ready (svc w) (clt_work_item tr) = true ∧ lease_over T (clt_lease_expires_at_ms tr)).
  { intros i Hi. destruct (Hl i Hi) as (tr & _ & Hlook & ? & Hover). rw Nat.sub_0_r in Hlook. exists tr. auto. }
  pose proof (claim_cleanup_in_range T l w1 HT Hnd) as Hc.
  destruct (claim_cleanup_loop l w1) as [claimed w2]. destruct Hc as (_ & Hc & _).
  { intros i Hi. rw Hs. destruct (Hl' i Hi) as (tr & ? & _). eauto. }
  simpl. intros Hin. destruct (Hc item Hin) as (i & tr & exp & Hi & Htr & Hitem & ? & ?). rw Hs in Htr.
  destruct (Hl' i Hi) as (tr' & Htr' & Hready & Hover). simplify_eq. exists i, tr, exp. done.
Qed.

Lemma cleanup_claims_exclusive T w w2 i i' :
  clock_window T → NoDup ((λ tr, clw_id (clt_work_item tr)) <$> cleanup_work_items (svc w2)) →
  cleanup_work_items (svc w2) = cleanup_work_items (svc (get_cleanup_work_items w).2) →
  i ∈ (get_cleanup_work_items w).1 → i' ∈ (get_cleanup_work_items w2).1 → clw_id i ≠ clw_id i'.
Proof.
  intros HT Hnd Hq Hin Hin' Heq.
  destruct (cleanup_claim T w i HT Hin) as (k & tr & exp & _ & _ & _ & _ & Hexp & Hleased).
  destruct (cleanup_claim T w2 i' HT Hin') as (k' & tr' & _ & Htr' & Hi' & _ & Hover & _). rw -Hq in Hleased.
  assert (k = k') as <-.
  { eapply NoDup_lookup; [exact Hnd| |]; rw list_lookup_fmap; [by rw Hleased|]. rw Htr' /=. congruence. }
  rw Hleased in Htr'. simplify_eq. specialize (Hover exp eq_refl). lia.
Qed.
End exclusive.

(** ** Queues of reachable states

    Extension items are filed under their tables; cleanup items have ids of their own,
    which the generator has given out. *)
Section queues.
Context `{Environment, HashOrder, !IdGeneratorLaws _}.

Definition cleanup_ids (s : EphemeralServiceImpl) : list string := (λ tr, clw_id (clt_work_item tr)) <$> cleanup_work_items s.
Record queues_ok (w : World) : Prop := mkQueuesOk {
  qo_filed : items_filed (svc w);
  qo_distinct : NoDup (cleanup_ids (svc w));
  qo_drawn : ∀ id, id ∈ cleanup_ids (svc w) → ∃ n, n < ids_used w ∧ id = next_id n;
}.
Definition keeps_queues (w w' : World) : Prop := queues_ok w → queues_ok w'.
#[export] Instance keeps_queues_preorder : PreOrder keeps_queues.
Proof. split; [by intros w|]. intros w1 w2 w3 H1 H2 Hw. by apply H2, H1. Qed.

Lemma queues_same w w' : extension_work_items (svc w') = extension_work_items (svc w) → cleanup_work_items (svc w') = cleanup_work_items (svc w) → ids_used w ≤ ids_used w' → keeps_queues w w'.
Proof.
  intros He Hc Hi [Hf Hd Hn]. split; [by rw /items_filed /pending_item He|by rw /cleanup_ids Hc|]. rw /cleanup_ids Hc. intros id Hid.
  destruct (Hn id Hid) as (n & ? & ->). exists n. split; [lia|done].
Qed.
Lemma keeps_wp {A} (m : ST World A) : (∀ w, queues_ok w → wp m (λ _, queues_ok) queues_ok w) → st_rel keeps_queues m.
Proof. intros Hm w Hw. apply exec_wp. by apply Hm. Qed.
Lemma wp_keeps {A} (m : ST World A) w : st_rel keeps_queues m → queues_ok w → wp m (λ _, queues_ok) queues_ok w.
Proof. intros Hm Hw. apply exec_wp. by apply Hm. Qed.

Ltac solve_same := first [done | apply queues_same; simpl; solve [done|lia] | rw /upd; repeat case_match; apply queues_same; simpl; solve [done|lia]].

(** An item filed under the table it names. *)
Lemma filed_alter t ty f w tr : ew_table_name (et_work_item tr) = t → (∀ items, f items = <[t := tr]> items) →
  queues_ok w → queues_ok (upd (λ s, set_extension_work_items (alter f ty (extension_work_items s)) s) w).
Proof.
  intros Ht Hf [Hfi Hd Hn]. split; [|done|done]. intros ty' t' tr'. rw /pending_item /= lookup_alter. case_decide as Hty; [subst ty'|apply (Hfi ty')].
  destruct (extension_work_items (svc w) !! ty) as [items|] eqn:Hi; [|done]. cbn. rw Hf. destruct (decide (t = t')) as [<-|Hne].
  - rw lookup_insert_eq. by intros [= <-].
  - rw lookup_insert_ne //. intros Hl. apply (Hfi ty). by rw /pending_item Hi.
Qed.
Lemma filed_put t tr w : ew_table_name (et_work_item tr) = t → queues_ok w → queues_ok (upd (put_extension_item t tr) w).
Proof.
  intros Ht [Hfi Hd Hn]. split; [|done|done]. intros ty t' tr'. rw /pending_item /= . destruct (decide ("es" = ty)) as [<-|Hne]; [rw lookup_insert_eq|rw lookup_insert_ne //; apply (Hfi ty)].
  cbn. destruct (decide (t = t')) as [<-|Hne]; [rw lookup_insert_eq; by intros [= <-]|]. rw lookup_insert_ne //. intros Hl. apply (Hfi "es").
  rw /pending_item. by destruct (extension_work_items (svc w) !! "es").
Qed.

Lemma fill_queues t e c sch sf icf : st_rel keeps_queues (fill_extension_work_item t e c sch sf icf).
Proof.
  apply keeps_wp. intros w Hw. rw /fill_extension_work_item /modify_svc. case_decide; [by wp_step|]. do 2 wp_step. wp_step.
  wp_step; [intros items Hitems|done]. assert (Hwait : ∀ w, queues_ok w → queues_ok (upd (push_waiting_checkpoint t e c) w)) by (intros w'; by solve_same).
  wp_step. destruct (items !! t) as [tr|] eqn:Htr.
  - assert (Hname : ew_table_name (et_work_item tr) = t).
    { apply (qo_filed _ Hw "es"). rw /pending_item. destruct (extension_work_items (svc w) !! "es"); [|done]. by injection Hitems as ->. }
    cbv zeta. do 2 wp_step. wp_step. wp_step; [intros m1 _|by apply filed_put]. do 2 wp_step. wp_step. wp_step; [intros m2 _|by do 2 (apply filed_put; [done|])].
    wp_step. wp_step. apply Hwait. by do 3 (apply filed_put; [done|]).
  - rw /fresh_id. do 2 wp_step. wp_step. wp_step. apply Hwait, filed_put; [done|]. revert Hw. by solve_same.
Qed.

Lemma apply_item_queues t c : st_rel keeps_queues (apply_extension_commit_to_work_item t c).
Proof.
  apply keeps_wp. intros w Hw. rw /apply_extension_commit_to_work_item /modify_svc. do 2 wp_step.
  destruct (extension_work_items (svc w) !! ec_extension c ≫= _) as [tr|] eqn:Htr; [|by wp_step]. pose proof (qo_filed _ Hw _ _ _ Htr) as Hname.
  cbv zeta. wp_step. wp_step; [intros m1 _|done]. do 2 wp_step. wp_step. wp_step; [intros m2 _|eapply filed_alter; [|done|done]; done].
  wp_step. eapply filed_alter; [|done|eapply filed_alter; [|done|done]]; done.
Qed.

(** The cleanup of a compaction gets the next id. *)
Lemma compacted_queues i w : queues_ok w → wp (cleanup_work_item ← replace_and_delete_checkpoints i; modify_svc (λ s, set_cleanup_work_items (cleanup_work_items s ++ [mkCleanupTracker cleanup_work_item None]) s)) (λ _, queues_ok) queues_ok w.
Proof.
  intros Hw. rw /replace_and_delete_checkpoints /modify_svc /fresh_id. do 3 wp_step. wp_step. wp_step; [intros [t obj] _|done].
  wp_step. destruct (compaction_work_items (svc w) !! t) as [tr|]; [|by wp_step]. wp_step. wp_step; [intros _ _|done]. wp_step. wp_step; [intros _ _|done].
  wp_step. match goal with |- wp _ _ _ ?w1 => assert (Hw1 : queues_ok w1) by (revert Hw; by solve_same); set (w2 := w1) in Hw1 |- * end. clearbody w2.
  do 2 wp_step. wp_step. wp_step. destruct Hw1 as [Hf Hd Hn]. split; [done| |]; rw /cleanup_ids /= fmap_app /=.
  - apply NoDup_app. split_and!; [done| |apply NoDup_singleton]. intros id Hid ->%list_elem_of_singleton. destruct (Hn _ Hid) as (n & Hlt & Heq). apply next_id_inj in Heq. lia.
  - intros id [Hid| ->%list_elem_of_singleton]%elem_of_app; [destruct (Hn _ Hid) as (n & ? & ->); exists n; split; [lia|done]|]. exists (ids_used w2). split; [lia|done].
Qed.

#[local] Hint Resolve fill_queues apply_item_queues : st_rel.
Lemma fresh_id_queues : st_rel keeps_queues fresh_id.
Proof. intros w. by apply queues_same; simpl; try lia. Qed.
#[local] Hint Resolve fresh_id_queues : st_rel.

Lemma maybe_compact_queues c : st_rel keeps_queues (maybe_create_compaction_work_item c).
Proof. rw /maybe_create_compaction_work_item /modify_svc. st_rel_tac; solve_same. Qed.
#[local] Hint Resolve maybe_compact_queues : st_rel.


Lemma speedboat_commit_queues c : st_rel keeps_queues (speedboat_commit c).
Proof.
  rw /speedboat_commit /speedboat_commit_type_commit /speedboat_commit_type_delete /modify_svc. st_rel_tac; solve_same.
Qed.
Lemma add_checkpoint_queues c : st_rel keeps_queues (add_checkpoint c).
Proof. rw /add_checkpoint /modify_svc. st_rel_tac; solve_same. Qed.

Lemma extension_commit_queues t c : st_rel keeps_queues (extension_commit t c).
Proof.
  rw /extension_commit /modify_svc. st_rel_tac; try solve_same. apply st_rel_map; [apply _|]. intros x. rw /add_coverage_for /modify_svc. st_rel_tac; solve_same.
Qed.

Lemma iceberg_commit_queues t c : st_rel keeps_queues (iceberg_commit t c).
Proof.
  rw /iceberg_commit. repeat lazymatch goal with |- st_rel _ (st_iter _ _) => apply st_rel_iter; [apply _|intros i]; apply keeps_wp; intros; by apply compacted_queues | |- st_rel _ (modify_svc _) => rw /modify_svc | _ => st_rel_step end; solve_same.
Qed.

Lemma cleanup_commit_queues c : st_rel keeps_queues (cleanup_commit c).
Proof.
  rw /cleanup_commit /modify_svc. st_rel_tac. intros [Hf Hd Hn]. assert (Hsub : cleanup_ids (svc (upd (λ s, set_cleanup_work_items (filter (λ t, clw_id (clt_work_item t) ≠ clc_id c) (cleanup_work_items s)) s) s)) `sublist_of` cleanup_ids (svc s)).
  { rw /cleanup_ids /=. apply fmap_sublist, sublist_filter. }
  split; [done|exact (sublist_NoDup _ _ Hd Hsub)|]. intros id Hid. apply Hn. exact (elem_of_sublist _ _ _ Hid Hsub).
Qed.

(** Claims renew leases of items that stay filed as they are. *)
Lemma claim_extension_queues ty w : keeps_queues w (get_extension_work_items ty w).2.
Proof.
  intros Hw. rw /get_extension_work_items. case_decide; [|done]. destruct (extension_work_items (svc w) !! ty) as [items|] eqn:Hi; [|done].
  assert (Hitems : Forall (λ kv, ew_table_name (et_work_item kv.2) = kv.1) (hash_iter items)).
  { apply Forall_forall. intros [t tr] Hin%elem_of_hash_iter. apply (qo_filed _ Hw ty). by rw /pending_item Hi. }
  clear Hi. revert w Hw. induction Hitems as [|[t tr] l Ht _ IH]; intros w Hw; [done|]. cbn [claim_extension_loop].
  destruct (has_work (et_work_item tr)); [|by apply IH]. pose proof (lease_available_svc (et_lease_expires_at_ms tr) w) as Hs.
  destruct (lease_is_available (et_lease_expires_at_ms tr) w) as [b w1] eqn:Hl. assert (Hw1 : queues_ok w1).
  { revert Hw. apply queues_same; [by rw -Hs|by rw -Hs|]. destruct (et_lease_expires_at_ms tr); cbn in Hl; by injection Hl as <- <-. }
  destruct b; [|by apply IH]. simpl. match goal with |- context [claim_extension_loop ty l ?w3] => specialize (IH w3) end.
  destruct (claim_extension_loop ty l _) as [cl w4]. apply IH. eapply (filed_alter t ty _ _ (mkExtensionTracker (et_work_item tr) _)); [exact Ht|done|]. revert Hw1. by apply queues_same.
Qed.
Lemma claim_cleanup_queues w : keeps_queues w (get_cleanup_work_items w).2.
Proof.
  rw /get_cleanup_work_items. pose proof (ready_indexes_rel keeps_queues (λ w w' Hs Hi, queues_same w w' ltac:(by rw Hs) ltac:(by rw Hs) ltac:(lia)) 0 (cleanup_work_items (svc w)) w) as Hr.
  destruct (ready_cleanup_indexes 0 _ w) as [l w1]. intros Hw. apply Hr in Hw. clear Hr. cbn in Hw. revert w1 Hw. clear w. induction l as [|i l IH]; intros w Hw; [done|]. cbn [claim_cleanup_loop].
  destruct (cleanup_work_items (svc w) !! i) as [tr|] eqn:Htr; [|done]. simpl. match goal with |- context [claim_cleanup_loop l ?w3] => specialize (IH w3) end.
  destruct (claim_cleanup_loop l _) as [cl w4]. apply IH. destruct Hw as [Hf Hd Hn].
  match goal with |- queues_ok ?w2 => assert (Heq : cleanup_ids (svc w2) = cleanup_ids (svc w)) end.
  { rw /cleanup_ids /= list_fmap_insert /=. apply list_insert_id. by rw list_lookup_fmap Htr. }
  split; [done|by rw Heq|]. rw Heq. exact Hn.
Qed.

Lemma command_queues c w : keeps_queues w (exec (run_command c) w).
Proof.
  destruct (is_cutover_command c) eqn:Hc; [apply (cutover_command_data_frame c w) in Hc; apply queues_same; [apply Hc..|by rw (df_ids _ _ Hc)]|].
  destruct claim_impl_state as (Hce & _ & Hcl).
  destruct c; try discriminate; cbn [run_command]; rw ?exec_forget;
    rw /claim_extension_work_items /claim_compaction_work_items /claim_cleanup_work_items /= ?exec_st_update;
    try (apply st_rel_exec; solve [eauto using speedboat_commit_queues, iceberg_commit_queues, extension_commit_queues, add_checkpoint_queues, cleanup_commit_queues]).
  all: try (apply st_rel_exec; rw /create_table /add_alias /remove_alias /create_table_template /create_pipeline /create_lifetime_policy /compaction_commit /queue_checkpoint_publication /modify_svc; st_rel_tac; solve_same).
  - rw Hce. apply claim_extension_queues.
  - destruct claim_impl_state as (_ & -> & _). apply claim_compaction_rel; [apply _|intros w1 w2 Hs Hi; apply queues_same; [by rw Hs|by rw Hs|lia]|]. intros; by apply queues_same.
  - rw Hcl. apply claim_cleanup_queues.
Qed.

Lemma reachable_queues ok w : reachable ok w → queues_ok w.
Proof.
  induction 1 as [m ids reads|c w _ _ IH]; [|by apply command_queues]. split; [|apply NoDup_nil_2|by intros id ?%not_elem_of_nil].
  intros ty t tr. rw /pending_item /new /=. intros (items & Hi & Ht)%bind_Some. apply lookup_singleton_Some in Hi as [_ <-]. by rw lookup_empty in Ht.
Qed.
End queues.

(** ** Properties *)
Module QueueTheory.
Section theorems.
Context `{Environment, HashOrder}.

(** C36. Within one lease length no work is handed out twice.  Take two claims of the same
    kind of work with all readings of the clock less than a lease length apart, the first in
    a state reached from a fresh service by any commands, and any number of operations in
    between that leave the queue of that kind as the first claim left it (a commit in
    between may queue new work or end a lease, and then does hand it out again).  The second
    claim returns no compaction of a table the first returned one of, no extension work for
    a table the first returned work for, and no cleanup with an id the first returned. *)
Theorem claims_exclusive `{!IdGeneratorLaws _} ok T w w2 :
  reachable ok w → clock_window T →
  (compaction_work_items (svc w2) = compaction_work_items (svc (get_compaction_work_items w).2) →
     ∀ t i i', (t, i) ∈ (get_compaction_work_items w).1 → (t, i') ∉ (get_compaction_work_items w2).1) ∧
  (∀ ty, extension_work_items (svc w2) = extension_work_items (svc (get_extension_work_items ty w).2) →
     ∀ i i', i ∈ (get_extension_work_items ty w).1 → i' ∈ (get_extension_work_items ty w2).1 →
       ew_table_name i ≠ ew_table_name i') ∧
  (cleanup_work_items (svc w2) = cleanup_work_items (svc (get_cleanup_work_items w).2) →
     ∀ i i', i ∈ (get_cleanup_work_items w).1 → i' ∈ (get_cleanup_work_items w2).1 → clw_id i ≠ clw_id i').
Proof.
  intros Hw%reachable_queues HT. split_and!.
  - intros Hq t i i'. by apply (compaction_claims_exclusive T).
  - intros ty Hq i i'. apply (extension_claims_exclusive T ty); [done|apply Hw| |done].
    rw /items_filed /pending_item Hq. apply (qo_filed _ (claim_extension_queues ty w Hw)).
  - intros Hq i i'. apply (cleanup_claims_exclusive T); [done| |done]. rw Hq. apply (qo_distinct _ (claim_cleanup_queues w Hw)).
Qed.

(** Cleanup is safe: an item handed out is on the queue, and none of the files it
    names is a speedboat or delete file of a checkpoint that readers of its table use
    (the plain active checkpoint or the search extension's). *)
Theorem cleanup_claims_safe T w item :
  clock_window T → item ∈ (get_cleanup_work_items w).1 →
  (∃ tr, tr ∈ cleanup_work_items (svc w) ∧ clt_work_item tr = item) ∧
  ∀ e id c p, e ∈ [None; Some "es"] →
    get_published_checkpoint_sync (svc w) Active (clw_table_name item) e = Some id →
    get_checkpoint_sync (svc w) (clw_table_name item) id = Some c →
    p ∈ clw_files_to_delete item → (p ∉ speedboat_paths c) ∧ (p ∉ delete_paths c).
Proof.
  intros HT Hin. destruct (cleanup_claim T w item HT Hin) as (i & tr & _ & Htr & Hi & Hready & _).
  split; [exists tr; split; [exact (list_elem_of_lookup_2 _ _ _ Htr)|done]|].
  intros e id c p He Hpub Hcp Hp. rw /cleanup_work_item_is_ready forallb_forall in Hready.
  specialize (Hready e ltac:(by apply list_elem_of_In)). rw Hpub Hcp in Hready.
  apply negb_true_iff in Hready. apply orb_false_iff in Hready as [H1 H2].
  rw /speedboat_paths /delete_paths. split.
  - destruct (cp_speedboat_metadata c) as [sm|]; [|apply not_elem_of_nil]. intros Hin'.
    apply not_true_iff_false in H1. destruct H1. apply existsb_exists. exists p.
    split; [by apply list_elem_of_In|]. apply bool_decide_eq_true. set_solver.
  - destruct (cp_deletes_metadata c) as [sm|]; [|apply not_elem_of_nil]. intros Hin'.
    apply not_true_iff_false in H2. destruct H2. apply existsb_exists. exists p.
    split; [by apply list_elem_of_In|]. apply bool_decide_eq_true. set_solver.
Qed.

(** After a successful extension commit for ["es"] the search pointer of the table
    is set; it never moves backwards in the order of ids, and if it moved, the
    checkpoint it names is fully covered by the extension. *)
Theorem extension_pointer_sound t commit w b w' :
  extension_commit t commit w = (Ok b, w') → ec_extension commit = "es" →
  let old := get_latest_materialized_checkpoint_sync (svc w) t (Some "es") in
  ∃ id, get_latest_materialized_checkpoint_sync (svc w') t (Some "es") = Some id ∧
    (∀ o, old = Some o → (o ≤ id)%string) ∧ (old = Some id ∨ covered_at t "es" id w').
Proof.
  intros Hrun Hes old.
  eassert (Hwp : wp (extension_commit t commit) (λ _ w', ∃ id, get_latest_materialized_checkpoint_sync (svc w') t (Some "es") = Some id ∧
    (∀ o, old = Some o → (o ≤ id)%string) ∧ (old = Some id ∨ covered_at t "es" id w')) (λ _, True) w);
    [|by rw /wp Hrun in Hwp].
  clear Hrun b w'. rw /extension_commit /modify_svc. do 2 wp_step. cbv zeta. wp_step. wp_step; [intros [] _|done]. wp_step.
  eapply wp_mono; [apply (wp_map coverage_grows _ (λ w1, latest_committed_checkpoint_id (svc w1) = latest_committed_checkpoint_id (svc w) ∧
      table_aliases (svc w1) = table_aliases (svc w)) (λ o w1, ∀ id, o = Some id → covered_at t "es" id w1))| |done].
  { intros. apply add_coverage_for_grows. }
  { intros o w1 w2 Hg Ho id Hid. eapply covered_at_grows; [exact Hg|]. by apply Ho. }
  { intros x w1 [Hl1 Ha1]. eapply wp_mono; [apply add_coverage_for_covers| |].
    - intros o w2 [(_ & Hl2 & Ha2) Hcov]. rw Hes in Hcov. split; [split; congruence|done].
    - intros w2 (_ & Hl2 & Ha2). split; congruence. }
  { done. }
  intros covered w1 [[Hl1 Ha1] Hcov].
  destruct (omap id covered) as [|first rest] eqn:Hom; [by wp_step|].
  assert (Hmax : covered_at t "es" (max_string first rest) w1).
  { apply (Hcov (Some (max_string first rest))); [|done]. apply elem_of_omap_id. rw Hom. apply max_string_elem. }
  set (mx := max_string first rest) in *. clearbody mx. do 2 wp_step. wp_step.
  eapply wp_mono; [apply (wp_st_rel _ _ _ (apply_work_item_ext t commit))| |done].
  intros [] w2 (Hc2 & Hl2 & Ha2). simpl in Hc2, Hl2, Ha2.
  assert (Hold : get_latest_materialized_checkpoint_sync (svc w2) t (Some "es") = old).
  { rw /old /get_latest_materialized_checkpoint_sync /real_table_name. by rw Hl2 Ha2 Hl1 Ha1. }
  assert (Hmax2 : covered_at t "es" mx w2) by (apply (covered_at_grows t "es" mx w1); [by apply coverage_grows_same|done]).
  do 2 wp_step. do 3 wp_step. rw /upd /= Hold. destruct old as [o|] eqn:Ho.
  - destruct (String.ltb o mx) eqn:Hlt.
    + exists mx. split; [apply latest_after_set|]. split; [|right; exact Hmax2].
      intros ? [= <-]. rw /String.le /String.leb. rw /String.ltb in Hlt. by destruct (String.compare o mx).
    + exists o. split; [exact Hold|]. split; [|by left]. intros ? [= <-]. apply reflexivity.
  - exists mx. split; [apply latest_after_set|]. split; [done|right; exact Hmax2].
Qed.

(** A snapshot restores the service: [from_snapshot] applied to [snapshot_state]
    of a service gives that service back, provided the queue of extension work is not
    empty (it is created with the service) and no latest checkpoint is filed under the
    empty extension name, which the storage key cannot tell from none. *)
Theorem snapshot_roundtrip s :
  extension_work_items s ≠ ∅ → latest_committed_checkpoint_id s !! Some "" = None →
  from_snapshot (mode s) (snapshot_state s) = s.
Proof.
  intros Hes Hne. rw /from_snapshot /snapshot_state /=. rw deserialize_serialize; [done|].
  case_decide; [done|]. by destruct s.
Qed.
End theorems.
End QueueTheory.
