(* ===== verification/Immutability.v ===== *)
(** * Committed checkpoints are immutable

    With an id generator that never repeats an id, a commit files its checkpoint under
    a key no earlier checkpoint has.  So whatever commands run, a checkpoint once
    committed keeps its files, deletes and schema for ever; only the coverage recorded
    by extension commits is added to it. *)

From S2P Require Import Prelude Json Schema FileSet Contract Checkpoint Coordination ServiceState Cutover Commits CutoverTheory Service.

Section history.
Context `{Environment, HashOrder}.

(** Every checkpoint is filed under a table and an id drawn earlier. *)
Definition keys_drawn (w : World) : Prop :=
  ∀ k, is_Some (checkpoints (svc w) !! k) → ∃ t n, n < ids_used w ∧ k = key2 t (next_id n).

(** [cp'] is [cp] with more coverage. *)
Definition more_covered (cp cp' : TableMetadataCheckpoint) : Prop :=
  cp' = with_extension cp (cp_extension_metadata cp') ∧
  ∀ ext p v, extension_files cp ext !! p = Some v → extension_files cp' ext !! p = Some v.

#[export] Instance more_covered_preorder : PreOrder more_covered.
Proof.
  split; [by intros []|]. intros c1 c2 c3 [H1 H1'] [H2 H2']. split; [|auto]. rw H2 H1. done.
Qed.

(** Everything stored in [w] is still stored in [w'], at most more covered. *)
Definition history (w w' : World) : Prop :=
  ids_used w ≤ ids_used w' ∧
  ∀ k cp, checkpoints (svc w) !! k = Some cp → ∃ cp', checkpoints (svc w') !! k = Some cp' ∧ more_covered cp cp'.

#[export] Instance history_preorder : PreOrder history.
Proof.
  split; [intros w; split; [done|]; intros k cp Hk; exists cp; split; [done|reflexivity]|]. intros w1 w2 w3 [Hi1 H1] [Hi2 H2].
  split; [lia|]. intros k cp Hk. destruct (H1 k cp Hk) as (cp2 & Hk2 & Hm2). destruct (H2 k cp2 Hk2) as (cp3 & ? & ?).
  exists cp3. split; [done|]. etrans; eassumption.
Qed.

(** The invariant of a run that started in [w0]. *)
Definition sound (w0 w : World) : Prop := keys_drawn w ∧ history w0 w.

Lemma sound_same w0 w w' :
  ids_used w ≤ ids_used w' → checkpoints (svc w') = checkpoints (svc w) → sound w0 w → sound w0 w'.
Proof.
  intros Hi Hc [Hk Hh]. split.
  - intros k. rw Hc. intros Hs. destruct (Hk k Hs) as (t & n & ? & ->). exists t, n. split; [lia|done].
  - etrans; [exact Hh|]. split; [done|]. intros k cp Hcp. exists cp. rw Hc. split; [done|reflexivity].
Qed.

Lemma sound_queue w0 w w' : queue_frame w w' → sound w0 w → sound w0 w'.
Proof. intros Hf. apply sound_same; [exact (qf_ids _ _ Hf)|exact (qf_checkpoints _ _ Hf)]. Qed.

Lemma wp_sound {A} (m : ST World A) w0 w :
  st_rel queue_frame m → sound w0 w → wp m (λ _, sound w0) (sound w0) w.
Proof.
  intros Hm Hw. eapply wp_mono; [apply (wp_st_rel queue_frame), Hm| |]; simpl; eauto using sound_queue.
Qed.

Context `{!IdGeneratorLaws _}.

Lemma fresh_key w t : keys_drawn w → checkpoints (svc w) !! key2 t (next_id (ids_used w)) = None.
Proof.
  intros Hd. apply eq_None_not_Some. intros Hs. destruct (Hd _ Hs) as (t' & n & Hn & Heq).
  rw /key2 in Heq. apply key_inj_last in Heq as [_ Heq]; [|apply all_digits_no_char; [done|apply next_id_digits]..].
  apply next_id_inj in Heq. lia.
Qed.

(** Filing a checkpoint under the id just drawn. *)
Lemma sound_put t c w0 w : sound w0 w → sound w0 (upd (put_checkpoint t (draw_id w).1 c) (draw_id w).2).
Proof.
  intros [Hk Hh]. split.
  - intros k. simpl. intros [<-|Hs]%lookup_insert_is_Some'; [exists t, (ids_used w); split; [lia|done]|].
    destruct (Hk k Hs) as (t' & n & ? & ->). exists t', n. split; [lia|done].
  - etrans; [exact Hh|]. split; [simpl; lia|]. intros k cp Hcp. exists cp. split; [|reflexivity].
    simpl. rw lookup_insert_ne; [|done]. intros <-. by rw fresh_key in Hcp.
Qed.

Lemma sound_draw w0 w : sound w0 w → sound w0 (draw_id w).2.
Proof. apply sound_same; [simpl; lia|done]. Qed.

Lemma commit_type_commit_sound ti comp w0 w :
  sound w0 w → wp (speedboat_commit_type_commit ti comp) (λ _, sound w0) (sound w0) w.
Proof.
  intros Hw. rw /speedboat_commit_type_commit /modify_svc /fresh_id. pose proof (sound_draw _ _ Hw) as Hw1.
  do 2 wp_step. wp_step. wp_step; [intros latest _|done]. do 2 wp_step.
  wp_step. wp_step; [intros files _|done]. wp_step. wp_step; [intros sch _|done]. cbv zeta.
  wp_step. wp_step; [intros c _|done]. wp_step. wp_step; [intros [c' [sf icf]] _|done].
  do 2 wp_step. wp_step. eapply wp_mono; [apply (wp_sound _ w0); [apply fill_frame|by apply sound_put]| |done].
  intros [] w2 Hw2. do 2 wp_step. apply wp_sound; [apply maybe_compact_frame|]. by apply (sound_same w0 w2).
Qed.

Lemma commit_type_delete_sound ti comp w0 w :
  sound w0 w → wp (speedboat_commit_type_delete ti comp) (λ _, sound w0) (sound w0) w.
Proof.
  intros Hw. rw /speedboat_commit_type_delete /modify_svc /fresh_id. pose proof (sound_draw _ _ Hw) as Hw1.
  do 2 wp_step. wp_step. wp_step; [intros latest _|done]. do 2 wp_step. cbv zeta.
  wp_step. wp_step; [intros c _|done]. wp_step. wp_step; [intros [c' fs] _|done].
  do 2 wp_step. wp_step. match goal with |- sound w0 (upd _ ?w2) => apply (sound_same w0 w2); [done..|] end. by apply sound_put.
Qed.

Lemma speedboat_commit_sound c w0 w : sound w0 w → wp (speedboat_commit c) (λ _, sound w0) (sound w0) w.
Proof.
  intros Hw. rw /speedboat_commit. wp_step. wp_step; [intros [] _|done]. wp_step.
  eapply wp_mono; [apply (wp_iter _ (sound w0)); [exact Hw|]| |done].
  - intros ti w1 _ Hw1. destruct (decide _); [by apply commit_type_commit_sound|].
    destruct (decide _); [by apply commit_type_delete_sound|]. by wp_step.
  - intros [] w1 Hw1. cbv zeta. wp_step.
    eapply wp_mono; [apply (wp_iter _ (sound w0)); [exact Hw1|]| |done]; [|by intros [] w2 Hw2].
    intros t w2 _ Hw2. wp_step. by apply (sound_same w0 w2).
Qed.

Lemma iceberg_commit_sound t c w0 w : sound w0 w → wp (iceberg_commit t c) (λ _, sound w0) (sound w0) w.
Proof.
  intros Hw. rw /iceberg_commit /modify_svc /fresh_id. pose proof (sound_draw _ _ Hw) as Hw1.
  do 2 wp_step. wp_step. wp_step; [intros latest _|done].
  do 2 wp_step. wp_step. wp_step; [intros sch _|done]. cbv zeta.
  wp_step. wp_step; [intros c1 _|done]. wp_step. wp_step; [intros [c2 [sf icf]] _|done].
  do 4 wp_step. wp_step. eapply wp_mono; [apply (wp_sound _ w0); [apply fill_frame|]| |done].
  { match goal with |- sound w0 (upd _ ?w2) => apply (sound_same w0 w2); [done..|] end. by apply sound_put. }
  intros [] w2 Hw2. wp_step. eapply wp_mono; [apply (wp_iter _ (sound w0)); [exact Hw2|]| |done].
  - intros i w3 _ Hw3. wp_step.
    eapply wp_mono; [apply (wp_sound _ w0); [apply replace_and_delete_frame|exact Hw3]| |done].
    intros item w4 Hw4. wp_step. by apply (sound_same w0 w4).
  - intros [] w3 Hw3. wp_step. wp_step. wp_step. by apply (sound_same w0 w3).
Qed.

(** Coverage is added to stored checkpoints only. *)
Lemma add_coverage_more c commit : more_covered c (add_coverage c commit).1.
Proof.
  split; [done|]. intros ext p v Hv. destruct (decide (ext = ec_extension commit)) as [->|Hne].
  - by rw add_coverage_lookup Hv.
  - rw /extension_files add_coverage_other //.
Qed.

Lemma add_coverage_for_sound t x c w0 w :
  sound w0 w → wp (add_coverage_for t x c) (λ _, sound w0) (sound w0) w.
Proof.
  intros [Hk Hh]. rw /add_coverage_for /modify_svc. do 2 wp_step. wp_step. wp_step; [|done].
  intros cp Hcp%unwrap_Ok. cbv zeta. do 2 wp_step. set (w1 := upd _ w).
  assert (Hw1 : sound w0 w1).
  { split.
    - intros k. simpl. intros [<-|Hs]%lookup_insert_is_Some'; apply Hk; [by rw Hcp; eexists|done].
    - etrans; [exact Hh|]. split; [done|]. intros k cp' Hk'. destruct (decide (k = key2 t x)) as [->|Hne].
      + simplify_eq. eexists. split; [apply lookup_insert_eq|apply add_coverage_more].
      + exists cp'. split; [|reflexivity]. simpl. rw lookup_insert_ne; [congruence|done]. }
  wp_step. wp_step; [|done]. intros b _. destruct b; [|by wp_step]. do 2 wp_step. wp_step. by apply (sound_same w0 w1).
Qed.

Lemma extension_commit_sound t c w0 w : sound w0 w → wp (extension_commit t c) (λ _, sound w0) (sound w0) w.
Proof.
  intros Hw. rw /extension_commit /modify_svc. do 2 wp_step. cbv zeta. wp_step. wp_step; [intros [] _|done]. wp_step.
  eapply wp_mono; [apply (wp_map commit_frame _ (sound w0) (λ _ _, True));
    [intros; apply add_coverage_for_frame|done|intros; eapply wp_mono; [by apply (add_coverage_for_sound _ _ _ w0)|done|done]|exact Hw]| |done].
  intros covered w1 [Hw1 _]. destruct (omap id covered); [by wp_step|]. do 2 wp_step. wp_step.
  eapply wp_mono; [apply (wp_sound _ w0); [apply apply_work_item_frame|by apply (sound_same w0 w1)]| |done].
  intros [] w2 Hw2. do 2 wp_step. do 3 wp_step.
  apply (sound_same w0 w2); [done| |done]. rw /upd /=. case_match; [case_match|]; done.
Qed.

(** Commands whose checkpoint ids come from the generator. *)
Definition draws_ids (c : Command) : Prop := match c with CmdAddCheckpoint _ => False | _ => True end.

Lemma sound_command c w0 w : draws_ids c → sound w0 w → sound w0 (exec (run_command c) w).
Proof.
  intros Hc Hw. destruct (is_cutover_command c) eqn:Hcc.
  { pose proof (cutover_command_data_frame c w Hcc) as Hf.
    refine (sound_same w0 w _ _ _ Hw); [by rw (df_ids _ _ Hf)|exact (df_checkpoints _ _ Hf)]. }
  pose proof registry_frame as (? & ? & ? & ? & ?). pose proof claims_frame as (Hce & Hcc' & Hcl).
  destruct c; try discriminate; try done; simpl; rw ?exec_forget;
    rw /claim_extension_work_items /claim_compaction_work_items /claim_cleanup_work_items /= ?exec_st_update;
    try (refine (sound_queue w0 w _ _ Hw); solve [auto | apply st_rel_exec; auto using create_table_frame]);
    try (apply exec_wp; auto using speedboat_commit_sound, iceberg_commit_sound, extension_commit_sound);
    by apply (sound_same w0 w).
Qed.

Lemma reachable_keys w : reachable draws_ids w → keys_drawn w.
Proof.
  induction 1 as [m ids reads|c w Hc _ IH].
  - intros k [c Hc]. simpl in Hc. by rw lookup_empty in Hc.
  - apply (sound_command c w w); [done|]. split; [done|reflexivity].
Qed.
End history.

(** ** Properties *)
Module ImmutabilityTheory.
Section theorems.
Context `{Environment, HashOrder, !IdGeneratorLaws _}.

(** C22. Committed checkpoints are immutable: from a state reached by commands whose
    ids come from the generator (all but [add_checkpoint]), after any further sequence of such commands every
    stored checkpoint is still stored under its key with the same table, id, files,
    deletes and schema, and with at least the coverage it had. *)
Theorem checkpoints_immutable w cs k cp :
  reachable draws_ids w → Forall draws_ids cs → checkpoints (svc w) !! k = Some cp →
  ∃ cp', checkpoints (svc (foldl (λ w c, exec (run_command c) w) w cs)) !! k = Some cp' ∧ more_covered cp cp'.
Proof.
  intros Hr Hcs Hk.
  assert (Hs : ∀ w1, sound w w1 → sound w (foldl (λ w c, exec (run_command c) w) w1 cs)).
  { induction Hcs as [|c cs Hc _ IH]; intros w1 Hw; [done|]. simpl. by apply IH, sound_command. }
  destruct (Hs w) as [_ [_ Hh]]; [split; [by apply reachable_keys|reflexivity]|]. exact (Hh k cp Hk).
Qed.
End theorems.
End ImmutabilityTheory.
