(* ===== verification/ServiceDemo.v ===== *)
(** * A concrete run of the metadata service

    The theorems about the service instantiated on a small trace: a table receives a
    speedboat commit, the extension work is committed, the checkpoint is compacted,
    nodes acknowledge and the checkpoint is published.  It also exhibits the run in
    which an alias makes a table uncommittable. *)

From S2P Require Import Prelude Json Schema FileSet Contract Checkpoint Coordination ServiceState Cutover Commits CutoverTheory Service CommitTheory QueueTheory Immutability.
Import FileSetTheory CutoverDemo CommitTheory QueueTheory.QueueTheory ServiceTheory ImmutabilityTheory.

(** ** An environment that satisfies the id laws: the n-th id is [n+1] ones. *)
Fixpoint ones (n : nat) : string := match n with O => "" | S n => String "1"%char (ones n) end.

#[local] Instance lawful_env : Environment :=
  {| next_id n := ones (S n); clock _ := 0%Z; default_hash := string_length |}.

Lemma ones_inj n m : ones n = ones m → n = m.
Proof. revert m. induction n as [|n IH]; intros [|m]; simpl; try done. intros [= Heq]. f_equal. by apply IH. Qed.

Lemma ones_digits n : all_digits (ones n) = true.
Proof. by induction n. Qed.

#[local] Instance lawful_ids : IdGeneratorLaws lawful_env.
Proof.
  constructor; [intros n m Heq; apply ones_inj in Heq; congruence|]. intros n. apply ones_digits.
Qed.

(** ** The trace *)

Definition demo_schema : PowdrrSchema := mkSchema [].
Definition demo_info (ty file : string) : SpeedboatCommitTableInfo :=
  from_segments ty "logs" [mkSegment "s1" file 10] (Some demo_schema).
Definition demo_start : World := mkWorld (new ephemeral_default) 0 0.
Definition demo_commit : Command := CmdSpeedboatCommit (single_commit (demo_info "commit" "a.arrow")).
Definition demo_committed : World := exec (run_command demo_commit) demo_start.

Lemma demo_start_reachable ok : reachable ok demo_start.
Proof. apply reach_init. Qed.

Lemma demo_commit_wf : wf_commit (single_commit (demo_info "commit" "a.arrow")).
Proof. constructor; [apply from_segments_wf|constructor]. Qed.

Lemma demo_committed_reachable (ok : Command → Prop) : ok demo_commit → reachable ok demo_committed.
Proof. intros Hok. apply reach_step; [done|apply demo_start_reachable]. Qed.

Lemma reachable_cutover_ok_witness : cutover_ok (svc demo_committed).
Proof.
  apply (reachable_cutover_ok (λ _, True)). apply demo_committed_reachable. exact I.
Defined.

Lemma committed_checkpoints_resolve_witness :
  ∃ c, latest_checkpoint_or (svc demo_committed) "logs" (Ok (new_checkpoint "logs" "" minimal)) = Ok c.
Proof.
  apply (committed_checkpoints_resolve demo_committed).
  - apply demo_committed_reachable. reflexivity.
  - right. eexists. reflexivity.
Defined.

Lemma publication_pending_forever_witness :
  checkpoint_publication_still_pending
    (svc (foldl (λ w c, exec (run_command c) w) demo_committed [CmdUpdateAll; CmdClaimExtension "es"])) "logs" = true.
Proof.
  apply publication_pending_forever. vm_compute. eexists. reflexivity.
Defined.

Lemma delete_commit_total_witness :
  ∃ w', speedboat_commit (single_commit (demo_info "delete" "d.arrow")) demo_committed = (Ok true, w').
Proof.
  destruct (delete_commit_total demo_committed (demo_info "delete" "d.arrow")) as (w' & _ & _ & Hrun & _).
  - apply demo_committed_reachable. split; [reflexivity|apply demo_commit_wf].
  - reflexivity.
  - exists w'. exact Hrun.
Defined.

Lemma data_commit_total_witness :
  ∃ w', speedboat_commit (single_commit (demo_info "commit" "b.arrow")) demo_start = (Ok true, w').
Proof.
  destruct (data_commit_total demo_start (demo_info "commit" "b.arrow") (new_checkpoint "logs" "" demo_schema) demo_schema)
    as (w' & _ & Hrun & _).
  - apply demo_start_reachable.
  - apply from_segments_wf.
  - left. reflexivity.
  - split; [vm_compute; reflexivity|]. exists demo_schema. split; vm_compute; reflexivity.
  - exists w'. exact Hrun.
Defined.

Definition demo_iceberg_commit : IcebergCommit :=
  mkIcebergCommit (mkIcebergMetadata demo_schema None (single "p.parquet" 5 demo_schema) [] [] [] [] [] []) None [].

Lemma iceberg_commit_correct_witness :
  ∃ w', iceberg_commit "logs" demo_iceberg_commit demo_start = (Ok true, w').
Proof.
  apply (iceberg_commit_correct demo_start "logs" demo_iceberg_commit).
  - apply demo_start_reachable.
  - constructor; [reflexivity|reflexivity|]. repeat constructor.
  - reflexivity.
  - exists (new_checkpoint "logs" "" demo_schema), demo_schema. split; vm_compute; reflexivity.
Defined.

(** ** Claims *)

Lemma demo_window : clock_window 0.
Proof. split; [lia|]. intros k. simpl. rw /WORK_CLAIM_LEASE_LENGTH_MS. lia. Qed.

(** The committed file waits for its extension work, which is handed out once. *)
Lemma claims_exclusive_witness :
  (ew_table_name <$> (get_extension_work_items "es" demo_committed).1) = ["logs"] ∧
  ∀ i', i' ∈ (get_extension_work_items "es" (get_extension_work_items "es" demo_committed).2).1 → ew_table_name i' ≠ "logs".
Proof.
  split; [vm_compute; reflexivity|]. intros i' Hi' Heq.
  assert (Hin : ∃ i, i ∈ (get_extension_work_items "es" demo_committed).1 ∧ ew_table_name i = "logs") by (vm_compute; eexists; split; [left|reflexivity]).
  destruct Hin as (i & Hi & Hn).
  apply (proj1 (proj2 (claims_exclusive (λ _, True) 0 demo_committed (get_extension_work_items "es" demo_committed).2 (demo_committed_reachable _ I) demo_window)) "es" eq_refl i i' Hi Hi').
  congruence.
Defined.

Definition demo_cleanup : World :=
  upd (set_cleanup_work_items [mkCleanupTracker (mkCleanupWorkItem "5" "logs" ["old.arrow"]) None]) demo_committed.

Lemma cleanup_claims_safe_witness :
  ∃ tr, tr ∈ cleanup_work_items (svc demo_cleanup) ∧ clt_work_item tr = mkCleanupWorkItem "5" "logs" ["old.arrow"].
Proof.
  apply (cleanup_claims_safe 0 demo_cleanup (mkCleanupWorkItem "5" "logs" ["old.arrow"]) demo_window).
  vm_compute. left.
Defined.

(** ** Extension commits *)

Definition demo_coverage : ExtensionCommit :=
  mkExtensionCommit "x" "es" {[ "a.arrow" := [mkExtensionFile "idx" "s3://idx"] ]}.
Definition demo_extended : World := (extension_commit "logs" demo_coverage demo_committed).2.

Lemma extension_pointer_sound_witness :
  ∃ id, get_latest_materialized_checkpoint_sync (svc demo_extended) "logs" (Some "es") = Some id.
Proof.
  destruct (extension_pointer_sound "logs" demo_coverage demo_committed true demo_extended) as (id & Hid & _).
  - vm_compute. reflexivity.
  - reflexivity.
  - exists id. exact Hid.
Defined.

Lemma snapshot_roundtrip_witness :
  from_snapshot (mode (svc demo_committed)) (snapshot_state (svc demo_committed)) = svc demo_committed.
Proof.
  apply snapshot_roundtrip; [vm_compute; discriminate|vm_compute; reflexivity].
Defined.

Lemma checkpoints_immutable_witness :
  ∃ cp', checkpoints (svc (foldl (λ w c, exec (run_command c) w) demo_committed [demo_commit; CmdUpdateAll])) !! "logs_1" = Some cp'.
Proof.
  destruct (checkpoints (svc demo_committed) !! "logs_1") as [cp|] eqn:Hcp; [|vm_compute in Hcp; discriminate].
  destruct (checkpoints_immutable demo_committed [demo_commit; CmdUpdateAll] "logs_1" cp) as (cp' & Hcp' & _).
  - apply demo_committed_reachable. exact I.
  - repeat constructor.
  - exact Hcp.
  - exists cp'. exact Hcp'.
Defined.

(** ** Aliases

    Committing through an alias files the checkpoint under the alias but records it
    as the latest of the real table, so the next commit to the real table panics. *)
Lemma alias_makes_table_uncommittable :
  let w := exec (run_command (CmdAddAlias "logs" "current")) demo_start in
  let w := exec (run_command (CmdIcebergCommit "current" demo_iceberg_commit)) w in
  (iceberg_commit "logs" demo_iceberg_commit w).1 =
    Panic "Found latest checkpoint id but checkpoint missing = logs_1".
Proof. vm_compute. reflexivity. Qed.
