(* ===== verification/Raft.v ===== *)
(** * The replicated metadata service (service_lib/src/raft_service_impl.rs)

    [RaftServiceImpl] keeps one serialized snapshot of the ephemeral service in the
    state machine of a Raft library.  A write restores the service from the snapshot,
    runs the operation and proposes the new snapshot; a read restores and runs.  The
    library, the JSON format and the leader are parameters; the theorems show that
    writes simulate the ephemeral service, that a failed operation leaves the
    replicated state as it was, and that reads change nothing. *)

From S2P Require Import Prelude Json Schema FileSet Contract Checkpoint Coordination ServiceState Cutover Commits CutoverTheory Service CommitTheory QueueTheory Immutability ServiceDemo.

(** ** What the code takes from openraft, openraft_memstore and serde_json

    [client_write k sm serial blob] is the outcome of the [k]-th call and the state
    machine afterwards; [linearizable_error k] is the error, if any, of the [k]-th
    call of [ensure_linearizable]; [leader k] the leader the library reports. *)
Class RaftLibrary : Type := {
  Blob : Type;
  to_json : EphemeralServiceSnapshot → Blob;
  from_json : Blob → option EphemeralServiceSnapshot;
  StateMachine : Type;
  client_status : StateMachine → option Blob;
  last_serial : StateMachine → option Z;
  client_write : nat → StateMachine → Z → Blob → outcome () * StateMachine;
  linearizable_error : nat → option string;
  leader : nat → option Z;
}.

(** What is relied on: an acknowledged request whose serial is not the one applied last is
    applied. *)
Class RaftLibraryLaws (lib : RaftLibrary) : Prop :=
  client_write_applies : ∀ k sm serial blob sm',
    last_serial sm ≠ Some serial → client_write k sm serial blob = (Ok (), sm') →
    client_status sm' = Some blob ∧ last_serial sm' = Some serial.

(** A service whose serialized snapshot reads back as it was.  Not all do: a null that is
    given where an optional document is expected reads back as no document, and doubles may
    lose a digit. *)
Definition survives_json `{HashOrder, RaftLibrary} (s : EphemeralServiceImpl) : Prop := from_json (to_json (snapshot_state s)) = Some (snapshot_state s).

(** SRC service_lib/src/raft_service_impl.rs:53-60 RaftServiceConfig *)
Record RaftServiceConfig : Type := mkRaftConfig {
  cluster_name : string;
  node_id : Z;
  advertise_address : string;
  bootstrap : bool;
  peers : gmap Z string;
}.

Section raft.
Context `{Environment, HashOrder, RaftLibrary} (node_mode : TestProcessingMode) (config : RaftServiceConfig).

(** The node: the library's state machine, the serial counter, and how often the
    surroundings were consulted. *)
(** SRC service_lib/src/raft_service_impl.rs:173-181 RaftServiceImpl *)
Record RaftNode : Type := mkRaftNode {
  state_machine : StateMachine;
  write_serial : Z;
  node_ids : nat;
  node_clock : nat;
  raft_calls : nat;
}.

Definition raft_api_error {A} (error : string) : outcome A := Err ("Raft API error: " +:+ error).

(** SRC service_lib/src/raft_service_impl.rs:283-293 RaftServiceImpl::read_snapshot_state *)
Definition read_snapshot_state (n : RaftNode) : outcome EphemeralServiceSnapshot :=
  match client_status (state_machine n) with
  | Some serialized =>
      match from_json serialized with
      | Some snapshot => Ok snapshot
      | None => Err "Failed to deserialize replicated service state"
      end
  | None => Ok default_snapshot
  end.

(** SRC service_lib/src/raft_service_impl.rs:295-314 RaftServiceImpl::write_snapshot_state *)
Definition write_snapshot_state (snapshot : EphemeralServiceSnapshot) : ST RaftNode () := λ n,
  let serial := wrap_u64 (write_serial n + 1) in
  let '(result, sm) := client_write (raft_calls n) (state_machine n) serial (to_json snapshot) in
  (match result with
   | Ok _ => Ok ()
   | Err error => raft_api_error error
   | Panic r => Panic r
   end, mkRaftNode sm serial (node_ids n) (node_clock n) (S (raft_calls n))).

(** Restore the service, run the operation on it, and account for the ids and clock
    readings it used. *)
Definition run_on_snapshot {A} (m : ST World A) (snapshot : EphemeralServiceSnapshot) (n : RaftNode) : outcome A * World * RaftNode :=
  let '(result, w) := m (mkWorld (from_snapshot node_mode snapshot) (node_ids n) (node_clock n)) in
  (result, w, mkRaftNode (state_machine n) (write_serial n) (ids_used w) (clock_reads w) (raft_calls n)).

(** SRC service_lib/src/raft_service_impl.rs:183-194= raft_read_state *)
Definition raft_read_state {A} (m : ST World A) : ST RaftNode A := λ n,
  let n' := mkRaftNode (state_machine n) (write_serial n) (node_ids n) (node_clock n) (S (raft_calls n)) in
  match linearizable_error (raft_calls n) with
  | Some error => (raft_api_error error, n')
  | None =>
      match read_snapshot_state n' with
      | Ok snapshot => let '(result, _, n'') := run_on_snapshot m snapshot n' in (result, n'')
      | Err error => (Err error, n')
      | Panic r => (Panic r, n')
      end
  end.

(** SRC service_lib/src/raft_service_impl.rs:196-205= raft_write_state *)
Definition raft_write_state {A} (m : ST World A) : ST RaftNode A := λ n,
  match read_snapshot_state n with
  | Ok snapshot =>
      let '(result, w, n') := run_on_snapshot m snapshot n in
      match result with
      | Ok a => (write_snapshot_state (snapshot_state (svc w)) ≫= λ _, mret a) n'
      | Err error => (Err error, n')
      | Panic r => (Panic r, n')
      end
  | Err error => (Err error, n)
  | Panic r => (Panic r, n)
  end.

(** SRC service_lib/src/raft_service_impl.rs:341-343 RaftServiceImpl::current_leader_id *)
Definition current_leader_id : ST RaftNode (option Z) := λ n,
  (Ok (leader (raft_calls n)), mkRaftNode (state_machine n) (write_serial n) (node_ids n) (node_clock n) (S (raft_calls n))).

(** SRC service_lib/src/raft_service_impl.rs:345-349 RaftServiceImpl::current_leader_address *)
Definition current_leader_address : ST RaftNode (option string) :=
  id ← current_leader_id;
  mret (id ≫= λ node_id, peers config !! node_id).

(** SRC service_lib/src/raft_service_impl.rs:351-359 RaftServiceImpl::forward_base_url *)
Definition forward_base_url : ST RaftNode (option string) :=
  id ← current_leader_id;
  mret match id with
       | Some leader_id =>
           if decide (leader_id ≠ node_id config)
           then (λ address, "http://" +:+ address) <$> peers config !! leader_id else None
       | None => None
       end.

(** SRC service_lib/src/raft_service_impl.rs:361-363 RaftServiceImpl::is_local_leader *)
Definition is_local_leader : ST RaftNode bool :=
  id ← current_leader_id;
  mret (bool_decide (id = Some (node_id config))).

(** ** The operations *)

(** SRC service_lib/src/raft_service_impl.rs:387-392 RaftServiceImpl::add_checkpoint *)
Definition raft_add_checkpoint (checkpoint : TableMetadataCheckpoint) : ST RaftNode () :=
  raft_write_state (add_checkpoint checkpoint).

(** SRC service_lib/src/raft_service_impl.rs:394-396 RaftServiceImpl::get_all_iceberg_tables *)
Definition raft_get_all_iceberg_tables : ST RaftNode (list string) :=
  raft_read_state (st_gets get_all_iceberg_tables).

(** SRC service_lib/src/raft_service_impl.rs:398-400 RaftServiceImpl::create_table *)
Definition raft_create_table (ct : CreateTable) : ST RaftNode bool :=
  raft_write_state (create_table ct).

(** SRC service_lib/src/raft_service_impl.rs:402-407 RaftServiceImpl::upsert_table_metadata *)
Definition raft_upsert_table_metadata (ct : CreateTable) : ST RaftNode bool :=
  raft_write_state (upsert_table_metadata ct).

(** SRC service_lib/src/raft_service_impl.rs:409-414 RaftServiceImpl::describe_table *)
Definition raft_describe_table (name : string) : ST RaftNode (option TableDescription) :=
  raft_read_state (st_gets (λ w, describe_table w name)).

(** SRC service_lib/src/raft_service_impl.rs:416-422 RaftServiceImpl::add_alias *)
Definition raft_add_alias (table_name alias : string) : ST RaftNode bool :=
  raft_write_state (add_alias table_name alias).

(** SRC service_lib/src/raft_service_impl.rs:424-430 RaftServiceImpl::remove_alias *)
Definition raft_remove_alias (table_name alias : string) : ST RaftNode bool :=
  raft_write_state (remove_alias table_name alias).

(** SRC service_lib/src/raft_service_impl.rs:432-438 RaftServiceImpl::create_table_template *)
Definition raft_create_table_template (name : string) (template : CreateIndexTemplateBody) : ST RaftNode bool :=
  raft_write_state (create_table_template name template).

(** SRC service_lib/src/raft_service_impl.rs:440-445 RaftServiceImpl::describe_table_template *)
Definition raft_describe_table_template (name : string) : ST RaftNode (option CreateIndexTemplateBody) :=
  raft_read_state (st_gets (λ w, describe_table_template w name)).

(** SRC service_lib/src/raft_service_impl.rs:447-453 RaftServiceImpl::create_pipeline *)
Definition raft_create_pipeline (name : string) (pipeline : PipelineDefinition) : ST RaftNode bool :=
  raft_write_state (create_pipeline name pipeline).

(** SRC service_lib/src/raft_service_impl.rs:455-460 RaftServiceImpl::describe_pipeline *)
Definition raft_describe_pipeline (name : string) : ST RaftNode (option PipelineDefinition) :=
  raft_read_state (st_gets (λ w, describe_pipeline w name)).

(** SRC service_lib/src/raft_service_impl.rs:462-468 RaftServiceImpl::create_lifetime_policy *)
Definition raft_create_lifetime_policy (name : string) (policy : ILMPolicyDefinition) : ST RaftNode bool :=
  raft_write_state (create_lifetime_policy name policy).

(** SRC service_lib/src/raft_service_impl.rs:470-475 RaftServiceImpl::describe_lifetime_policy *)
Definition raft_describe_lifetime_policy (name : string) : ST RaftNode (option ILMPolicyDefinition) :=
  raft_read_state (st_gets (λ w, describe_lifetime_policy w name)).

(** SRC service_lib/src/raft_service_impl.rs:477-482 RaftServiceImpl::speedboat_commit *)
Definition raft_speedboat_commit (commit : SpeedboatCommit) : ST RaftNode bool :=
  raft_write_state (speedboat_commit commit).

(** SRC service_lib/src/raft_service_impl.rs:484-490 RaftServiceImpl::iceberg_commit *)
Definition raft_iceberg_commit (table_name : string) (commit : IcebergCommit) : ST RaftNode bool :=
  raft_write_state (iceberg_commit table_name commit).

(** SRC service_lib/src/raft_service_impl.rs:492-498 RaftServiceImpl::extension_commit *)
Definition raft_extension_commit (table_name : string) (commit : ExtensionCommit) : ST RaftNode bool :=
  raft_write_state (extension_commit table_name commit).

(** SRC service_lib/src/raft_service_impl.rs:500-506 RaftServiceImpl::compaction_commit *)
Definition raft_compaction_commit (table_name : string) (commit : CompactionCommit) : ST RaftNode bool :=
  raft_write_state (compaction_commit table_name commit).

(** SRC service_lib/src/raft_service_impl.rs:508-510 RaftServiceImpl::cleanup_commit *)
Definition raft_cleanup_commit (commit : CleanupCommit) : ST RaftNode bool :=
  raft_write_state (cleanup_commit commit).

(** SRC service_lib/src/raft_service_impl.rs:512-523 RaftServiceImpl::get_latest_committed_checkpoint *)
Definition raft_get_latest_committed_checkpoint (table_name : string) (extension : option string) : ST RaftNode (option string) :=
  raft_read_state (get_latest_committed_checkpoint table_name extension).

(** SRC service_lib/src/raft_service_impl.rs:525-536 RaftServiceImpl::get_published_active_checkpoint *)
Definition raft_get_published_active_checkpoint (table_name : string) (extension : option string) : ST RaftNode (option string) :=
  raft_read_state (get_published_active_checkpoint table_name extension).

(** SRC service_lib/src/raft_service_impl.rs:538-543 RaftServiceImpl::get_checkpoint *)
Definition raft_get_checkpoint (checkpoint : CheckpointDescriptor) : ST RaftNode (option TableMetadataCheckpoint) :=
  raft_read_state (st_gets (λ w, get_checkpoint w checkpoint)).

(** SRC service_lib/src/raft_service_impl.rs:545-553 RaftServiceImpl::get_latest_target_checkpoint *)
Definition raft_get_latest_target_checkpoint (table_name : string) (extension : option string) : ST RaftNode (option string) :=
  raft_read_state (get_latest_target_checkpoint table_name extension).

(** SRC service_lib/src/raft_service_impl.rs:555-563 RaftServiceImpl::get_checkpoint_cutover_state *)
Definition raft_get_checkpoint_cutover_state (table_name : string) (extension : option string) : ST RaftNode CheckpointCutoverState :=
  raft_read_state (store_cutover_state table_name extension).

(** SRC service_lib/src/raft_service_impl.rs:565-572 RaftServiceImpl::heartbeat_serving_node *)
Definition raft_heartbeat_serving_node (lease : ServingNodeLease) : ST RaftNode () :=
  raft_write_state (heartbeat_serving_node lease).

(** SRC service_lib/src/raft_service_impl.rs:574-581 RaftServiceImpl::record_serving_node_activation *)
Definition raft_record_serving_node_activation (ack : ServingNodeActivationAck) : ST RaftNode () :=
  raft_write_state (record_serving_node_activation ack).

(** SRC service_lib/src/raft_service_impl.rs:583-591 RaftServiceImpl::list_serving_node_activations *)
Definition raft_list_serving_node_activations (table_name : string) (extension : option string) : ST RaftNode (list ServingNodeActivationAck) :=
  raft_read_state (list_serving_node_activations table_name extension).

(** SRC service_lib/src/raft_service_impl.rs:593-600 RaftServiceImpl::record_artifact_readiness *)
Definition raft_record_artifact_readiness (ack : ArtifactReadinessAck) : ST RaftNode () :=
  raft_write_state (record_artifact_readiness ack).

(** SRC service_lib/src/raft_service_impl.rs:602-610 RaftServiceImpl::list_artifact_readiness *)
Definition raft_list_artifact_readiness (table_name : string) (extension : option string) : ST RaftNode (list ArtifactReadinessAck) :=
  raft_read_state (list_artifact_readiness table_name extension).

(** SRC service_lib/src/raft_service_impl.rs:612-617 RaftServiceImpl::get_extension_work_items *)
Definition raft_get_extension_work_items (extension_type : string) : ST RaftNode (list ExtensionWorkItem) :=
  raft_write_state (st_update (get_extension_work_items extension_type)).

(** SRC service_lib/src/raft_service_impl.rs:619-623 RaftServiceImpl::get_compaction_work_items *)
Definition raft_get_compaction_work_items : ST RaftNode (list (string * CompactionWorkItem)) :=
  raft_write_state (st_update get_compaction_work_items).

(** SRC service_lib/src/raft_service_impl.rs:625-627 RaftServiceImpl::get_cleanup_work_items *)
Definition raft_get_cleanup_work_items : ST RaftNode (list CleanupWorkItem) :=
  raft_write_state (st_update get_cleanup_work_items).

(** SRC service_lib/src/raft_service_impl.rs:629-636 RaftServiceImpl::update_all_checkpoints *)
Definition raft_update_all_checkpoints : ST RaftNode bool :=
  leader ← is_local_leader;
  if leader : bool then raft_write_state advance_published_checkpoints else mret false.

(** SRC service_lib/src/raft_service_impl.rs:641-648 MetadataStore for RaftServiceImpl::queue_checkpoint_publication *)
Definition raft_queue_checkpoint_publication (request : CheckpointUpdateRequest) : ST RaftNode () :=
  raft_write_state (queue_checkpoint_publication request).

(** SRC service_lib/src/raft_service_impl.rs:663-670 MetadataStore for RaftServiceImpl::get_published_checkpoint_record *)
Definition raft_get_published_checkpoint_record (selector : PublishedCheckpointSelector) : ST RaftNode (option PublishedCheckpointRecord) :=
  raft_read_state (get_published_checkpoint_record selector).

(** SRC service_lib/src/raft_service_impl.rs:679-686 MetadataStore for RaftServiceImpl::plan_checkpoint_cutover *)
Definition raft_plan_checkpoint_cutover (request : CheckpointCutoverRequest) : ST RaftNode () :=
  raft_write_state (plan_checkpoint_cutover request).

(** SRC service_lib/src/raft_service_impl.rs:744-757 MetadataStore for RaftServiceImpl::claim_extension_work_items *)
Definition raft_claim_extension_work_items (extension_type : string) : ST RaftNode (list ClaimedExtensionWorkItem) :=
  items ← raft_get_extension_work_items extension_type;
  mret (mkClaimedExtension Leased <$> items).

(** SRC service_lib/src/raft_service_impl.rs:759-772 MetadataStore for RaftServiceImpl::claim_compaction_work_items *)
Definition raft_claim_compaction_work_items : ST RaftNode (list ClaimedCompactionWorkItem) :=
  items ← raft_get_compaction_work_items;
  mret ((λ it, mkClaimedCompaction Leased it.1 it.2) <$> items).

(** SRC service_lib/src/raft_service_impl.rs:774-786 MetadataStore for RaftServiceImpl::claim_cleanup_work_items *)
Definition raft_claim_cleanup_work_items : ST RaftNode (list ClaimedCleanupWorkItem) :=
  items ← raft_get_cleanup_work_items;
  mret (mkClaimedCleanup Leased <$> items).

#[export] Instance RaftMetadataStore : MetadataStore RaftNode := {|
  queue_checkpoint_publication := raft_queue_checkpoint_publication;
  get_published_checkpoint_record := raft_get_published_checkpoint_record;
  get_checkpoint_metadata := raft_get_checkpoint;
  claim_extension_work_items := raft_claim_extension_work_items;
  claim_compaction_work_items := raft_claim_compaction_work_items;
  claim_cleanup_work_items := raft_claim_cleanup_work_items;
  advance_published_checkpoints := raft_update_all_checkpoints;
  plan_checkpoint_cutover := raft_plan_checkpoint_cutover;
  store_cutover_state := raft_get_checkpoint_cutover_state;
  heartbeat_serving_node := raft_heartbeat_serving_node;
  record_serving_node_activation := raft_record_serving_node_activation;
  list_serving_node_activations := raft_list_serving_node_activations;
  record_artifact_readiness := raft_record_artifact_readiness;
  list_artifact_readiness := raft_list_artifact_readiness;
  get_latest_committed_checkpoint := raft_get_latest_committed_checkpoint;
|}.
End raft.

(** ** What a snapshot can carry *)

(** A service a snapshot restores. *)
Definition restorable (m : TestProcessingMode) (s : EphemeralServiceImpl) : Prop :=
  mode s = m ∧ is_Some (extension_work_items s !! "es") ∧ latest_committed_checkpoint_id s !! Some "" = None.

Lemma restorable_restores `{HashOrder} m s : restorable m s → from_snapshot m (snapshot_state s) = s.
Proof.
  intros (<- & [items Hes] & Hne). rw /from_snapshot /snapshot_state /=. rw deserialize_serialize; [done|].
  case_decide as Hd; [by rw Hd lookup_empty in Hes|]. by destruct s.
Qed.

Lemma new_restorable `{HashOrder} m : restorable m (new m).
Proof. split_and!; [done|by eexists|]. by rw /= /deserialize_latest_committed_checkpoint_id hash_iter_empty. Qed.

Section keeps.
Context `{Environment, HashOrder} (m0 : TestProcessingMode).

Definition keeps (w w' : World) : Prop := restorable m0 (svc w) → restorable m0 (svc w').
#[local] Instance keeps_preorder : PreOrder keeps.
Proof. split; [by intros w|]. intros w1 w2 w3 H12 H23 Hr. by apply H23, H12. Qed.

(** Updates of other fields, and of these three that keep them. *)
Ltac solve_keeps :=
  let Hm := fresh in let He := fresh in let Hn := fresh in
  intros (Hm & He & Hn); split_and!; simpl; [exact Hm| |];
  repeat first [exact He | exact Hn | apply insert_is_Some | apply alter_is_Some
    | apply lookup_insert_is_Some; left; reflexivity | (rw lookup_insert_ne; [discriminate|]) ].

Lemma fresh_id_keeps : st_rel keeps fresh_id.
Proof. intros w Hw. exact Hw. Qed.
#[local] Hint Resolve fresh_id_keeps : st_rel.

Lemma fill_keeps t e c sch sf icf : st_rel keeps (fill_extension_work_item t e c sch sf icf).
Proof. rw /fill_extension_work_item /modify_svc. st_rel_tac; solve_keeps. Qed.
Lemma maybe_compact_keeps c : st_rel keeps (maybe_create_compaction_work_item c).
Proof. rw /maybe_create_compaction_work_item /modify_svc. st_rel_tac; solve_keeps. Qed.
Lemma replace_keeps i : st_rel keeps (replace_and_delete_checkpoints i).
Proof. rw /replace_and_delete_checkpoints /modify_svc. st_rel_tac; solve_keeps. Qed.
#[local] Hint Resolve fill_keeps maybe_compact_keeps replace_keeps : st_rel.

Lemma commit_type_commit_keeps ti c : st_rel keeps (speedboat_commit_type_commit ti c).
Proof. rw /speedboat_commit_type_commit /modify_svc. st_rel_tac; solve_keeps. Qed.
Lemma commit_type_delete_keeps ti c : st_rel keeps (speedboat_commit_type_delete ti c).
Proof. rw /speedboat_commit_type_delete /modify_svc. st_rel_tac; solve_keeps. Qed.
#[local] Hint Resolve commit_type_commit_keeps commit_type_delete_keeps : st_rel.

Lemma speedboat_commit_keeps c : st_rel keeps (speedboat_commit c).
Proof. rw /speedboat_commit. st_rel_tac; solve_keeps. Qed.
Lemma iceberg_commit_keeps t c : st_rel keeps (iceberg_commit t c).
Proof. rw /iceberg_commit /modify_svc. st_rel_tac; solve_keeps. Qed.

Lemma add_coverage_for_keeps t i c : st_rel keeps (add_coverage_for t i c).
Proof. rw /add_coverage_for /modify_svc. st_rel_tac; solve_keeps. Qed.
Lemma apply_work_item_keeps t c : st_rel keeps (apply_extension_commit_to_work_item t c).
Proof. rw /apply_extension_commit_to_work_item /modify_svc. st_rel_tac; solve_keeps. Qed.
#[local] Hint Resolve add_coverage_for_keeps apply_work_item_keeps : st_rel.

Lemma extension_commit_keeps t c : st_rel keeps (extension_commit t c).
Proof.
  rw /extension_commit /modify_svc. st_rel_tac; try solve [solve_keeps].
  - apply st_rel_map; [apply _|]. eauto with st_rel.
  - rw /keeps /upd. case_match; [case_match|]; solve_keeps.
Qed.

(** An imported checkpoint must not carry metadata for an extension named [""],
    which a snapshot cannot tell from no extension. *)
Lemma add_checkpoint_keeps c : cp_extension_metadata c !! "" = None → st_rel keeps (add_checkpoint c).
Proof.
  intros Hc. rw /add_checkpoint /modify_svc. repeat (apply st_rel_bind; [apply _| |intros ?]).
  - apply st_rel_modify; intros w. rw /keeps /upd. case_match; solve_keeps.
  - apply st_rel_modify; intros w. rw /keeps /upd. case_match; solve_keeps.
  - st_rel_tac; solve_keeps.
  - destruct (decide _); [|st_rel_tac].
    assert (Hne : ∀ x, x ∈ (hash_iter (cp_extension_metadata c)).*1 → x ≠ "").
    { intros x ([? v] & -> & Hx)%list_elem_of_fmap. apply elem_of_hash_iter in Hx. simpl. congruence. }
    revert Hne. generalize ((hash_iter (cp_extension_metadata c)).*1). intros exts.
    induction exts as [|x exts IH]; intros Hne; simpl; [st_rel_tac|].
    apply st_rel_bind; [apply _| |intros ?; apply IH; intros; apply Hne; by right].
    apply st_rel_modify; intros w (Hm & He & Hn). split_and!; simpl; [exact Hm|exact He|].
    rw lookup_insert_ne; [|exact Hn]. intros [= ->]. by apply (Hne ""); [left|].
  - st_rel_tac; solve_keeps.
Qed.


Lemma registry_keeps :
  (∀ ct, st_rel keeps (create_table ct)) ∧ (∀ t a, st_rel keeps (add_alias t a)) ∧
  (∀ t a, st_rel keeps (remove_alias t a)) ∧ (∀ n b, st_rel keeps (create_table_template n b)) ∧
  (∀ n b, st_rel keeps (create_pipeline n b)) ∧ (∀ n b, st_rel keeps (create_lifetime_policy n b)) ∧
  (∀ t b, st_rel keeps (compaction_commit t b)) ∧ (∀ b, st_rel keeps (cleanup_commit b)).
Proof.
  split_and!; intros; rw /create_table /add_alias /remove_alias /create_table_template /create_pipeline
    /create_lifetime_policy /compaction_commit /cleanup_commit /modify_svc; st_rel_tac; try solve [solve_keeps];
    rw /keeps /upd; case_match; solve_keeps.
Qed.

(** Claims only renew leases. *)
Lemma claims_keeps :
  (∀ ty w, keeps w (get_extension_work_items ty w).2) ∧ (∀ w, keeps w (get_compaction_work_items w).2) ∧
  (∀ w, keeps w (get_cleanup_work_items w).2).
Proof.
  assert (∀ w w', svc w' = svc w → ids_used w' = ids_used w → keeps w w') by (intros w w' Hs _; by rw /keeps Hs).
  split_and!; intros; [apply claim_extension_rel|apply claim_compaction_rel|apply claim_cleanup_rel];
    solve [apply _|auto|intros; solve_keeps].
Qed.

Lemma cutover_keeps c w : is_cutover_command c = true → keeps w (exec (run_command c) w).
Proof.
  intros [_ Hl _ _ Hi _ Hm _]%(cutover_command_data_frame c w). by rw /keeps /restorable Hl Hi Hm.
Qed.

(** Commands whose effect a snapshot carries. *)
Definition carried (c : Command) : Prop :=
  match c with CmdAddCheckpoint metadata => cp_extension_metadata metadata !! "" = None | _ => True end.
#[export] Instance carried_dec c : Decision (carried c).
Proof. destruct c; apply _. Defined.

Lemma command_keeps c : carried c → st_rel keeps (run_command c).
Proof.
  intros Hc w. destruct (is_cutover_command c) eqn:Hcc; [by apply cutover_keeps|].
  pose proof registry_keeps as (? & ? & ? & ? & ? & ? & ? & ?). pose proof claims_keeps as (? & ? & ?).
  pose proof claim_impl_state as (He & Hk & Hl).
  destruct c; try discriminate; simpl; rw ?exec_forget;
    rw /claim_extension_work_items /claim_compaction_work_items /claim_cleanup_work_items /= ?exec_st_update ?He ?Hk ?Hl;
    try (apply st_rel_exec; solve [eauto using speedboat_commit_keeps, iceberg_commit_keeps, extension_commit_keeps,
      add_checkpoint_keeps]); auto.
  rw /exec /=. solve_keeps.
Qed.
End keeps.

(** ** The replicated machine *)

(** The effect a proposal has when it is all or nothing, and a read's effect: ids and
    clock readings are used up, the service is as it was. *)
Definition rolled_back (w w' : World) : World := mkWorld (svc w) (ids_used w') (clock_reads w').

Definition atomic {A} (m : ST World A) : ST World A := λ w,
  match m w with
  | (Ok a, w') => (Ok a, w')
  | (r, w') => (r, rolled_back w w')
  end.

Definition discarding {A} (m : ST World A) : ST World A := λ w,
  let '(r, w') := m w in (r, rolled_back w w').

(** A node whose proposals are acknowledged: it leads and has a quorum. *)
Class StableLeader (lib : RaftLibrary) (config : RaftServiceConfig) : Prop := {
  acknowledged : ∀ k sm serial blob, (client_write k sm serial blob).1 = Ok ();
  linearizable : ∀ k, linearizable_error k = None;
  leads : ∀ k, leader k = Some (node_id config);
}.

Section simulation.
Context `{Environment, HashOrder} {lib : RaftLibrary} `{!RaftLibraryLaws lib}.
Context (node_mode : TestProcessingMode) (config : RaftServiceConfig).
Implicit Types (n : RaftNode) (w : World).

(** The node holds the service [w]: what it would restore is [w], and it has used as
    many ids and clock readings. *)
Definition replicates n w : Prop :=
  ∃ snapshot, read_snapshot_state n = Ok snapshot ∧ from_snapshot node_mode snapshot = svc w ∧
    node_ids n = ids_used w ∧ node_clock n = clock_reads w.

(** The serial of the next proposal is not the one applied last. *)
Definition fresh_serial n : Prop := last_serial (state_machine n) ≠ Some (wrap_u64 (write_serial n + 1)).

Lemma replicates_eta n w snapshot :
  from_snapshot node_mode snapshot = svc w → node_ids n = ids_used w → node_clock n = clock_reads w →
  mkWorld (from_snapshot node_mode snapshot) (node_ids n) (node_clock n) = w.
Proof. destruct w; simpl; congruence. Qed.

Lemma replicates_same_machine n n' w w' :
  replicates n w → state_machine n' = state_machine n → svc w' = svc w →
  node_ids n' = ids_used w' → node_clock n' = clock_reads w' → replicates n' w'.
Proof.
  intros (s & Hr & Hs & _ & _) Hm Hw Hi Hc. exists s. rw /read_snapshot_state Hm Hw. done.
Qed.

(** A write, on each of its branches. *)
Lemma raft_write_cases {A} (m : ST World A) n w :
  replicates n w →
  let '(r, w') := m w in
  let n1 := mkRaftNode (state_machine n) (write_serial n) (ids_used w') (clock_reads w') (raft_calls n) in
  raft_write_state node_mode m n =
  match r with
  | Ok a => (write_snapshot_state (snapshot_state (svc w')) ≫= λ _, mret a) n1
  | Err e => (Err e, n1)
  | Panic e => (Panic e, n1)
  end.
Proof.
  intros (s & Hr & Hs & Hi & Hc). rw /raft_write_state Hr /run_on_snapshot (replicates_eta n w s) //.
  destruct (m w) as [[] w']; done.
Qed.

Lemma write_snapshot_replicates n w :
  restorable node_mode (svc w) → survives_json (svc w) → fresh_serial n → node_ids n = ids_used w → node_clock n = clock_reads w →
  match write_snapshot_state (snapshot_state (svc w)) n with
  | (Ok _, n') => replicates n' w ∧ write_serial n' = wrap_u64 (write_serial n + 1) ∧
                  last_serial (state_machine n') = Some (write_serial n')
  | _ => True
  end.
Proof.
  intros Hw Hj Hf Hi Hc. rw /write_snapshot_state.
  destruct (client_write _ _ _ _) as [[[]|e|e] sm] eqn:Hcw; [|done..].
  destruct (client_write_applies _ _ _ _ _ Hf Hcw) as [Hb Hl]. split_and!; [|done..].
  exists (snapshot_state (svc w)). rw /read_snapshot_state /= Hb Hj.
  split_and!; [done|by apply restorable_restores|done..].
Qed.

Lemma raft_read_cases {A} (m : ST World A) n w :
  replicates n w → linearizable_error (raft_calls n) = None →
  let '(r, w') := m w in
  raft_read_state node_mode m n =
    (r, mkRaftNode (state_machine n) (write_serial n) (ids_used w') (clock_reads w') (S (raft_calls n))).
Proof.
  intros (s & Hr & Hs & Hi & Hc) Hl. rw /raft_read_state Hl /run_on_snapshot.
  rw /read_snapshot_state /= in Hr |- *. rw Hr (replicates_eta n w s) //. by destruct (m w).
Qed.

(** The node runs a command through the operation that serves it. *)
Definition raft_run_command (c : Command) : ST RaftNode () :=
  let forget {A} (m : ST RaftNode A) : ST RaftNode () := m ≫= λ _, mret () in
  match c with
  | CmdCreateTable ct => forget (raft_create_table node_mode ct)
  | CmdAddAlias t a => forget (raft_add_alias node_mode t a)
  | CmdRemoveAlias t a => forget (raft_remove_alias node_mode t a)
  | CmdCreateTemplate n b => forget (raft_create_table_template node_mode n b)
  | CmdCreatePipeline n b => forget (raft_create_pipeline node_mode n b)
  | CmdCreatePolicy n b => forget (raft_create_lifetime_policy node_mode n b)
  | CmdSpeedboatCommit b => forget (raft_speedboat_commit node_mode b)
  | CmdIcebergCommit t b => forget (raft_iceberg_commit node_mode t b)
  | CmdExtensionCommit t b => forget (raft_extension_commit node_mode t b)
  | CmdCompactionCommit t b => forget (raft_compaction_commit node_mode t b)
  | CmdCleanupCommit b => forget (raft_cleanup_commit node_mode b)
  | CmdAddCheckpoint b => raft_add_checkpoint node_mode b
  | CmdUpdateAll => forget (raft_update_all_checkpoints node_mode config)
  | CmdQueuePublication r => raft_queue_checkpoint_publication node_mode r
  | CmdPlanCutover r => raft_plan_checkpoint_cutover node_mode r
  | CmdGetCutoverState t e => forget (raft_get_checkpoint_cutover_state node_mode t e)
  | CmdHeartbeat l => raft_heartbeat_serving_node node_mode l
  | CmdRecordActivation a => raft_record_serving_node_activation node_mode a
  | CmdRecordReadiness a => raft_record_artifact_readiness node_mode a
  | CmdClaimExtension ty => forget (raft_claim_extension_work_items node_mode ty)
  | CmdClaimCompaction => forget (raft_claim_compaction_work_items node_mode)
  | CmdClaimCleanup => forget (raft_claim_cleanup_work_items node_mode)
  end.

(** What the cluster promises of a command: the ephemeral service's outcome, its
    effect only when it succeeds, and no effect at all of reading the cutover state. *)
Definition replicated_command (c : Command) : ST World () :=
  match c with
  | CmdGetCutoverState _ _ => discarding (run_command c)
  | _ => atomic (run_command c)
  end.

(** The node is in step with [w] and has serials for [k] more proposals. *)
Definition in_step (k : Z) n w : Prop :=
  replicates n w ∧ restorable node_mode (svc w) ∧
  (∀ s, last_serial (state_machine n) = Some s → (s ≤ write_serial n)%Z) ∧
  (0 ≤ write_serial n)%Z ∧ (write_serial n + k < 2 ^ 64)%Z.

Definition simulates {A} (mr : ST RaftNode A) (ms : ST World A) : Prop :=
  ∀ k n w, (0 ≤ k)%Z → in_step (k + 1) n w → survives_json (svc (ms w).2) → ∃ n', mr n = ((ms w).1, n') ∧ in_step k n' (ms w).2.

Lemma simulates_ext {A} (mr : ST RaftNode A) (ms ms' : ST World A) :
  (∀ w, ms w = ms' w) → simulates mr ms → simulates mr ms'.
Proof. intros Heq Hs k n w Hk Hw Hj. rw -Heq in Hj |- *. by apply Hs. Qed.

(** Post-processing the result on both sides. *)
Lemma simulates_map {A B} (f : A → B) (mr : ST RaftNode A) (ms : ST World A) :
  simulates mr ms → simulates (mr ≫= λ a, mret (f a)) (ms ≫= λ a, mret (f a)).
Proof.
  intros Hs k n w Hk Hw Hj. destruct (Hs k n w Hk Hw) as (n' & Hn & Hin). { move: Hj. rw st_bind_unfold. by destruct (ms w) as [[] ?]. } exists n'.
  rw !st_bind_unfold Hn. destruct (ms w) as [[a|e|e] w']; done.
Qed.

Lemma atomic_map {A B} (f : A → B) (m : ST World A) w :
  (atomic m ≫= λ a, mret (f a)) w = atomic (m ≫= λ a, mret (f a)) w.
Proof. rw /atomic !st_bind_unfold. by destruct (m w) as [[] ?]. Qed.

Context `{!StableLeader lib config}.

Lemma write_simulates {A} (m : ST World A) :
  st_rel (keeps node_mode) m → simulates (raft_write_state node_mode m) (atomic m).
Proof.
  intros Hm k n w Hk (Hr & Hrest & Hlast & Hpos & Hmax) Hj. pose proof (raft_write_cases m n w Hr) as Hc.
  specialize (Hm w Hrest). rw /exec in Hm. rw /atomic in Hj |- *. destruct (m w) as [[a|e|e] w'] eqn:Hmw.
  - set (n1 := mkRaftNode _ _ _ _ _) in Hc.
    assert (Hserial : wrap_u64 (write_serial n + 1) = (write_serial n + 1)%Z) by (apply wrap_u64_small; lia).
    assert (Hf : fresh_serial n1). { rw /fresh_serial /= Hserial. intros Hl%Hlast. lia. }
    pose proof (write_snapshot_replicates n1 w' Hm Hj Hf eq_refl eq_refl) as Hw. rw Hc st_bind_unfold.
    pose proof (acknowledged (raft_calls n1) (state_machine n1) (wrap_u64 (write_serial n1 + 1)) (to_json (snapshot_state (svc w')))) as Ha.
    rw /write_snapshot_state in Hw |- *. destruct (client_write _ _ _ _) as [r sm]. simpl in Ha. subst r.
    destruct Hw as (Hw & Hs & Hl). eexists. split; [reflexivity|]. simpl in *.
    split_and!; [exact Hw|exact Hm| |simpl; rw Hserial; lia..].
    intros s. simpl. rw Hl Hserial. intros [= ->]. lia.
  - eexists. split; [exact Hc|]. split_and!; [by apply (replicates_same_machine n _ w)|exact Hrest|exact Hlast|simpl; lia..].
  - eexists. split; [exact Hc|]. split_and!; [by apply (replicates_same_machine n _ w)|exact Hrest|exact Hlast|simpl; lia..].
Qed.

Lemma read_simulates {A} (m : ST World A) :
  simulates (raft_read_state node_mode m) (discarding m).
Proof.
  intros k n w Hk (Hr & Hrest & Hlast & Hpos & Hmax) _. pose proof (raft_read_cases m n w Hr (linearizable _)) as Hc.
  rw /discarding. destruct (m w) as [r w']. eexists. split; [exact Hc|].
  split_and!; [by apply (replicates_same_machine n _ w)|exact Hrest|exact Hlast|simpl; lia..].
Qed.

(** A write whose result is post-processed serves a command with the same effect. *)
Lemma write_serves {A B} (f : A → B) (m : ST World A) (ms : ST World B) :
  (∀ w, (m ≫= λ a, mret (f a)) w = ms w) → st_rel (keeps node_mode) ms →
  simulates (raft_write_state node_mode m ≫= λ a, mret (f a)) (atomic ms).
Proof.
  intros Heq Hk. apply (simulates_ext _ (atomic m ≫= λ a, mret (f a))).
  { intros w. rw atomic_map /atomic. by rw Heq. }
  apply simulates_map, write_simulates. intros w. specialize (Hk w). rw /exec -Heq st_bind_unfold in Hk.
  rw /exec. by destruct (m w) as [[] ?].
Qed.

Lemma simulates_ext_node {A} (mr mr' : ST RaftNode A) (ms : ST World A) :
  (∀ n, mr n = mr' n) → simulates mr ms → simulates mr' ms.
Proof. intros Heq Hs k n w Hk Hw Hj. rw -Heq. by apply Hs. Qed.

(** Asking who leads changes nothing, and the answer is this node. *)
Lemma leader_simulates (mr : ST RaftNode bool) (ms : ST World bool) :
  simulates mr ms → simulates (leader ← is_local_leader config; if leader : bool then mr else mret false) ms.
Proof.
  intros Hs k n w Hk Hw Hj. rw st_bind_unfold /is_local_leader st_bind_unfold /=.
  rw bool_decide_true; [by rw leads|]. by apply Hs.
Qed.

Lemma read_serves {A B} (f : A → B) (m : ST World A) (ms : ST World B) :
  (∀ w, (m ≫= λ a, mret (f a)) w = ms w) →
  simulates (raft_read_state node_mode m ≫= λ a, mret (f a)) (discarding ms).
Proof.
  intros Heq. apply (simulates_ext _ (discarding m ≫= λ a, mret (f a))).
  { intros w. rw /discarding -Heq !st_bind_unfold. by destruct (m w) as [[] ?]. }
  apply simulates_map, read_simulates.
Qed.

(** A claim of the trait, through the claim of the service. *)
Lemma claim_serves {A B} (f : A → B) (get : World → A * World) (claim : World → B * World) :
  (∀ w, claim w = let '(a, w') := get w in (f a, w')) → st_rel (keeps node_mode) (forget (st_update claim)) →
  simulates ((raft_write_state node_mode (st_update get) ≫= λ a, mret (f a)) ≫= λ _, mret ())
    (atomic (forget (st_update claim))).
Proof.
  intros Heq Hk. apply (simulates_ext_node (raft_write_state node_mode (st_update get) ≫= λ _, mret ())).
  { intros n. rw !st_bind_unfold. by destruct (raft_write_state _ _ n) as [[] ?]. }
  apply write_serves; [|done]. intros w. rw /forget !st_bind_unfold /st_update Heq. by destruct (get w).
Qed.

Lemma command_simulates c : carried c → simulates (raft_run_command c) (replicated_command c).
Proof.
  intros Hc. pose proof (command_keeps node_mode c Hc) as Hk.
  destruct c; simpl in Hk |- *; try (apply write_simulates, Hk); try (by apply write_serves).
  - apply (simulates_ext _ (atomic (st_update update_all_checkpoints) ≫= λ _, mret ())).
    { intros w. apply atomic_map. }
    apply simulates_map, leader_simulates, write_simulates. intros w. specialize (Hk w). by rw exec_forget in Hk.
  - by apply read_serves.
  - by apply claim_serves.
  - by apply claim_serves.
  - by apply claim_serves.
Qed.

(** A client that sends commands one after another and records each outcome. *)
Fixpoint outcomes {S} (run : Command → ST S ()) (cs : list Command) (s : S) : list (outcome ()) * S :=
  match cs with
  | [] => ([], s)
  | c :: cs =>
      let '(r, s) := run c s in
      let '(rs, s) := outcomes run cs s in (r :: rs, s)
  end.

(** Every state a sequence of commands goes through survives its serialization. *)
Fixpoint all_survive (cs : list Command) (w : World) : Prop :=
  match cs with
  | [] => True
  | c :: cs => survives_json (svc (replicated_command c w).2) ∧ all_survive cs (replicated_command c w).2
  end.

Lemma history_simulates cs k n w :
  Forall carried cs → all_survive cs w → (0 ≤ k)%Z → in_step (k + Z.of_nat (length cs)) n w →
  ∃ n', outcomes raft_run_command cs n = ((outcomes replicated_command cs w).1, n') ∧
        in_step k n' (outcomes replicated_command cs w).2.
Proof.
  revert n w. induction cs as [|c cs IH]; intros n w Hcs Hj Hk Hin; simpl.
  - exists n. split; [done|]. simpl in Hin. by rw Z.add_0_r in Hin.
  - apply Forall_cons in Hcs as [Hc Hcs]. destruct Hj as [Hj Hjs].
    destruct (command_simulates c Hc (k + Z.of_nat (length cs))%Z n w) as (n1 & -> & Hin1); [lia| |done|].
    { simpl in Hin. by replace (k + Z.of_nat (length cs) + 1)%Z with (k + Z.of_nat (S (length cs)))%Z by lia. }
    destruct (replicated_command c w) as [r w1]. destruct (IH n1 w1 Hcs Hjs Hk Hin1) as (n2 & -> & Hin2).
    exists n2. by destruct (outcomes replicated_command cs w1).
Qed.
End simulation.

(** ** Properties *)
Module RaftTheory.
Section theorems.
Context `{Environment, HashOrder} {lib : RaftLibrary} `{!RaftLibraryLaws lib}.
Context (node_mode : TestProcessingMode) (config : RaftServiceConfig).

(** A write through the replicated service refines the operation of the ephemeral
    service it wraps.  If the node reports success, the operation succeeded with that
    result on the service the node held and the node now holds the service the
    operation left; if the operation fails, the node reports the same failure and
    nothing is proposed, so the operation's partial mutations are lost. *)
Theorem raft_write_refines {A} (m : ST World A) (n : RaftNode) (w : World) :
  replicates node_mode n w → fresh_serial n → restorable node_mode (svc (exec m w)) → survives_json (svc (exec m w)) →
  (∀ a, (raft_write_state node_mode m n).1 = Ok a →
        (m w).1 = Ok a ∧ replicates node_mode (exec (raft_write_state node_mode m) n) (exec m w)) ∧
  ((∀ a, (m w).1 ≠ Ok a) →
        (raft_write_state node_mode m n).1 = (m w).1 ∧
        replicates node_mode (exec (raft_write_state node_mode m) n) (rolled_back w (exec m w))).
Proof.
  intros Hr Hf Hrest Hj. pose proof (raft_write_cases node_mode m n w Hr) as Hc. rw /exec in Hrest Hj |- *.
  destruct (m w) as [[a|e|e] w'] eqn:Hm; rw Hc; simpl in Hrest, Hj.
  - split; [|naive_solver]. set (n1 := mkRaftNode _ _ _ _ _).
    pose proof (write_snapshot_replicates node_mode n1 w' Hrest Hj Hf eq_refl eq_refl) as Hw. rw st_bind_unfold.
    destruct (write_snapshot_state _ n1) as [[[]|?|?] n2]; [|naive_solver..].
    intros ? [= <-]. by destruct Hw as (? & _).
  - split; [naive_solver|]. intros _. split; [done|]. by apply (replicates_same_machine node_mode n _ w).
  - split; [naive_solver|]. intros _. split; [done|]. by apply (replicates_same_machine node_mode n _ w).
Qed.

(** C14. A node that starts on an empty cluster and stays its leader, with every proposal
    acknowledged and every read linearizable, and that serves a sequence of fewer than 2^64
    commands (checkpoints are added without an extension of empty name) whose states survive their
    serialization, gives every client the outcomes of a single ephemeral service in which a
    failed command has no effect and reading the cutover state has none either, and in the
    end holds exactly that service. *)
Theorem raft_history_refines `{!StableLeader lib config} sm ids reads calls cs :
  client_status sm = None → last_serial sm = None →
  Forall carried cs → (Z.of_nat (length cs) < 2 ^ 64)%Z → all_survive cs (mkWorld (new node_mode) ids reads) →
  ∃ n', outcomes (raft_run_command node_mode config) cs (mkRaftNode sm 0 ids reads calls) =
          ((outcomes replicated_command cs (mkWorld (new node_mode) ids reads)).1, n') ∧
        replicates node_mode n' (outcomes replicated_command cs (mkWorld (new node_mode) ids reads)).2.
Proof.
  intros Hs Hl Hcs Hlen Hj.
  destruct (history_simulates node_mode config cs 0 (mkRaftNode sm 0 ids reads calls) (mkWorld (new node_mode) ids reads) Hcs Hj)
    as (n' & Hrun & Hin); [done| |exists n'; split; [exact Hrun|apply Hin]].
  split_and!; simpl; [|apply new_restorable|rw Hl; done|done|lia].
  exists default_snapshot. by rw /read_snapshot_state /= Hs.
Qed.

End theorems.
End RaftTheory.

(** ** A concrete library *)
Module RaftDemo.
Import CutoverDemo RaftTheory.
#[local] Existing Instance lawful_env.
Import HashOrderDemo.

(** The memory store keeps, for the single key the service uses, the last serial with
    the last status, and acknowledges a request whose serial is the last one without
    applying it. *)
#[local] Instance memstore : RaftLibrary := {|
  Blob := EphemeralServiceSnapshot;
  to_json s := s;
  from_json := Some;
  StateMachine := option (Z * EphemeralServiceSnapshot);
  client_status sm := snd <$> sm;
  last_serial sm := fst <$> sm;
  client_write _ sm serial blob := (Ok (), if decide (fst <$> sm = Some serial) then sm else Some (serial, blob));
  linearizable_error _ := None;
  leader _ := Some 1%Z;
|}.

#[local] Instance memstore_laws : RaftLibraryLaws memstore.
Proof.
  intros k sm serial blob sm' Hne [= <-]. simpl in *. by rw decide_False.
Qed.

Definition demo_config : RaftServiceConfig := mkRaftConfig "demo" 1 "localhost" true {[1%Z := "localhost"]}.

#[local] Instance demo_leader : StableLeader memstore demo_config.
Proof. done. Qed.

Definition demo_node : RaftNode := mkRaftNode None 0 0 0 0.

Lemma demo_node_replicates : replicates ephemeral_default demo_node demo_start.
Proof. by exists default_snapshot. Qed.

Lemma raft_write_refines_witness :
  replicates ephemeral_default (exec (raft_write_state ephemeral_default (run_command demo_commit)) demo_node) demo_committed.
Proof.
  refine (proj2 (proj1 (raft_write_refines ephemeral_default (run_command demo_commit) demo_node demo_start _ _ _ _) () _)).
  - exact demo_node_replicates.
  - discriminate.
  - split_and!; [reflexivity|eexists; vm_compute; reflexivity|vm_compute; reflexivity].
  - reflexivity.
  - vm_compute. reflexivity.
Defined.

Lemma raft_history_refines_witness :
  ∃ n', outcomes (raft_run_command ephemeral_default demo_config) [demo_commit; CmdGetCutoverState "logs" None; CmdUpdateAll] demo_node =
          ([Ok (); Ok (); Ok ()], n').
Proof.
  destruct (raft_history_refines (lib:=memstore) ephemeral_default demo_config None 0 0 0
    [demo_commit; CmdGetCutoverState "logs" None; CmdUpdateAll]) as (n' & Hrun & _).
  - reflexivity.
  - reflexivity.
  - repeat constructor.
  - reflexivity.
  - repeat split.
  - exists n'. etransitivity; [exact Hrun|]. f_equal; try reflexivity; vm_compute; reflexivity.
Defined.

(** With this store a node that has not proposed anything yet and takes over after one write
    of another node reports the success of its first write, and nothing is replicated:
    serials are counted per node from zero. *)
Definition first_leader : RaftNode :=
  exec (raft_run_command ephemeral_default demo_config (CmdAddAlias "logs" "l")) demo_node.
Definition second_leader : RaftNode := mkRaftNode (state_machine first_leader) 0 0 0 0.

Theorem first_write_of_second_leader_lost :
  (raft_write_state ephemeral_default (add_alias "logs" "m") second_leader).1 = Ok true ∧
  state_machine (exec (raft_write_state ephemeral_default (add_alias "logs" "m")) second_leader) = state_machine first_leader.
Proof. split; vm_compute; reflexivity. Qed.
End RaftDemo.
