(* ===== verification/QueryPath.v ===== *)
(** * Statistics pruning (query_core/src/query_path.rs)

    Before a file or a row group is read, its column statistics are compared with the
    predicates of the query; what cannot contain a match is skipped.  This file models
    the comparison of JSON scalars (numbers through 64-bit floats), the tests on the
    statistics, and the grouping of files by schema, and shows that pruning never
    skips a match as the same comparison decides it.  An integer beyond 53 bits does
    not fit a float: the last part shows what that does to strict bounds. *)

From S2P Require Import Prelude Json Schema FileSet Contract.

(** ** Numbers as 64-bit floats *)

(** The quotient of [a] by [m] rounded to nearest, ties to even. *)
Definition rne (a m : Z) : Z :=
  let q := (a / m)%Z in
  let r := (a mod m)%Z in
  if (2 * r <? m)%Z then q
  else if (m <? 2 * r)%Z then (q + 1)%Z
  else if Z.even q then q else (q + 1)%Z.

(** [n as f64] for an integer: 53 significant bits, ties to even. *)
Definition round53 (n : Z) : Z :=
  let m := (2 ^ Z.max 0 (Z.log2 (Z.abs n) - 52))%Z in
  (Z.sgn n * (rne (Z.abs n) m * m))%Z.

(** [Number::as_f64] *)
Definition as_f64 (n : Number) : f64 :=
  match n with
  | PosInt n | NegInt n => mkF64 (round53 n) 0
  | NFloat f => f
  end.

Definition bool_compare (a b : bool) : comparison :=
  match a, b with
  | false, true => Lt
  | true, false => Gt
  | _, _ => Eq
  end.

(** SRC query_core/src/query_path.rs:188-195 compare_scalar_values *)
Definition compare_scalar_values (left right : Value) : option comparison :=
  match left, right with
  | VNumber l, VNumber r => Some (f64_compare (as_f64 l) (as_f64 r))
  | VString l, VString r => Some (String.compare l r)
  | VBool l, VBool r => Some (bool_compare l r)
  | _, _ => None
  end.

(** ** The tests *)

(** SRC query_core/src/query_path.rs:7-16 QueryPredicate *)
Record QueryPredicate : Type := mkPredicate {
  qp_field : string;
  qp_eq : option Value;
  qp_in_values : option (list Value);
  qp_gt : option Value;
  qp_gte : option Value;
  qp_lt : option Value;
  qp_lte : option Value;
}.

(** SRC query_core/src/query_path.rs:181-186 column_is_all_null *)
Definition column_is_all_null (column_stats : IcebergColumnStats) (record_count : option Z) : bool :=
  match cs_null_count column_stats, record_count with
  | Some null_count, Some record_count => (record_count <=? null_count)%Z
  | _, _ => false
  end.

Definition is_less (o : option comparison) : bool := match o with Some Lt => true | _ => false end.
Definition is_greater (o : option comparison) : bool := match o with Some Gt => true | _ => false end.
Definition is_at_most (o : option comparison) : bool := match o with Some Lt | Some Eq => true | _ => false end.
Definition is_at_least (o : option comparison) : bool := match o with Some Gt | Some Eq => true | _ => false end.

(** A test of the form [if let (Some(x), Some(y)) = .. { if bad(x, y) { return false } }]. *)
Definition excluded_by (x y : option Value) (bad : Value → Value → bool) : bool :=
  match x, y with Some x, Some y => bad x y | _, _ => false end.

(** SRC query_core/src/query_path.rs:99-126 equality_may_match *)
Definition equality_may_match (column_stats : IcebergColumnStats) (record_count : option Z) (value : Value) : bool :=
  if column_is_all_null column_stats record_count then false
  else if excluded_by (Some value) (cs_lower_bound column_stats) (λ v lower, is_less (compare_scalar_values v lower)) then false
  else if excluded_by (Some value) (cs_upper_bound column_stats) (λ v upper, is_greater (compare_scalar_values v upper)) then false
  else true.

(** SRC query_core/src/query_path.rs:128-179 range_may_match *)
Definition range_may_match (column_stats : IcebergColumnStats) (record_count : option Z) (predicate : QueryPredicate) : bool :=
  if column_is_all_null column_stats record_count then false
  else if excluded_by (qp_gt predicate) (cs_upper_bound column_stats) (λ v upper, is_at_most (compare_scalar_values upper v)) then false
  else if excluded_by (qp_gte predicate) (cs_upper_bound column_stats) (λ v upper, is_less (compare_scalar_values upper v)) then false
  else if excluded_by (qp_lt predicate) (cs_lower_bound column_stats) (λ v lower, is_at_least (compare_scalar_values lower v)) then false
  else if excluded_by (qp_lte predicate) (cs_lower_bound column_stats) (λ v lower, is_greater (compare_scalar_values lower v)) then false
  else true.

(** SRC query_core/src/query_path.rs:82-97 predicate_may_match_stats *)
Definition predicate_may_match_stats (column_stats : IcebergColumnStats) (record_count : option Z) (predicate : QueryPredicate) : bool :=
  match qp_eq predicate with
  | Some eq => equality_may_match column_stats record_count eq
  | None =>
      match qp_in_values predicate with
      | Some values => existsb (equality_may_match column_stats record_count) values
      | None => range_may_match column_stats record_count predicate
      end
  end.

(** SRC query_core/src/query_path.rs:55-65 predicate_may_match_file *)
Definition predicate_may_match_file (file_stats : IcebergFileStats) (predicate : QueryPredicate) : bool :=
  match find (λ stats, String.eqb (cs_field_name stats) (qp_field predicate)) (fst_columns file_stats) with
  | None => true
  | Some column_stats => predicate_may_match_stats column_stats (fst_record_count file_stats) predicate
  end.

(** SRC query_core/src/query_path.rs:67-80 predicate_may_match_row_group *)
Definition predicate_may_match_row_group (row_group_stats : IcebergRowGroupStats) (predicate : QueryPredicate) : bool :=
  match find (λ stats, String.eqb (cs_field_name stats) (qp_field predicate)) (rg_columns row_group_stats) with
  | None => true
  | Some column_stats => predicate_may_match_stats column_stats (rg_record_count row_group_stats) predicate
  end.

(** SRC query_core/src/query_path.rs:37-44 file_may_match_predicates *)
Definition file_may_match_predicates (file_stats : IcebergFileStats) (predicates : list QueryPredicate) : bool :=
  forallb (predicate_may_match_file file_stats) predicates.

(** SRC query_core/src/query_path.rs:46-53 row_group_may_match_predicates *)
Definition row_group_may_match_predicates (row_group_stats : IcebergRowGroupStats) (predicates : list QueryPredicate) : bool :=
  forallb (predicate_may_match_row_group row_group_stats) predicates.

(** ** Grouping files by schema *)

(** One iteration: the file joins the first group whose first file has its schema. *)
Fixpoint join_group (file : FileDescriptor) (groups : list (list FileDescriptor)) : list (list FileDescriptor) :=
  match groups with
  | [] => [[file]]
  | group :: groups =>
      if match group with existing :: _ => bool_decide (file_schema existing = file_schema file) | [] => false end
      then (group ++ [file]) :: groups
      else group :: join_group file groups
  end.

(** SRC query_core/src/query_path.rs:18-35 group_files_by_schema *)
Definition group_files_by_schema (files : list FileDescriptor) : list (list FileDescriptor) :=
  foldl (λ groups file, join_group file groups) [] files.

(** ** The order of scalars *)

(** [vle a b]: both are scalars of one type and [a] is at most [b]. *)
Definition vle (a b : Value) : Prop := is_at_most (compare_scalar_values a b) = true.

(** Each type of scalar as integers or byte strings. *)
Lemma compare_flip a b : compare_scalar_values b a = CompOpp <$> compare_scalar_values a b.
Proof.
  destruct a, b; simpl; try done.
  - by destruct b, b0.
  - by rw /f64_compare Z.min_comm Z.compare_antisym.
  - by rw String.compare_antisym.
Qed.

Lemma is_at_most_spec o : is_at_most o = true ↔ o = Some Lt ∨ o = Some Eq.
Proof. destruct o as [[]|]; naive_solver. Qed.

Lemma z_at_most x y : is_at_most (Some (x ?= y)%Z) = true ↔ (x ≤ y)%Z.
Proof. rw /is_at_most. destruct (Z.compare_spec x y); split; try done; lia. Qed.

Lemma string_at_most x y : is_at_most (Some (String.compare x y)) = true ↔ String.le x y.
Proof. rw /String.le /String.leb /is_at_most. by destruct (String.compare x y). Qed.

#[export] Instance vle_trans : Transitive vle.
Proof.
  intros a b c. rw /vle. destruct a, b; try done; destruct c; try done; simpl compare_scalar_values.
  - by destruct b, b0, b1.
  - set (e := Z.min (exponent (as_f64 n)) (Z.min (exponent (as_f64 n0)) (exponent (as_f64 n1)))).
    rw !(f64_compare_at e); [rw /e; lia..|]. rw !z_at_most. lia.
  - rw !string_at_most. apply transitivity.
Qed.

(** What a strict comparison and an equality say in terms of the order. *)
Lemma compare_lt a b : compare_scalar_values a b = Some Lt → vle a b ∧ ¬ vle b a.
Proof. intros Hc. rw /vle (compare_flip a b) Hc. done. Qed.
Lemma compare_gt a b : compare_scalar_values a b = Some Gt → vle b a ∧ ¬ vle a b.
Proof. intros Hc. rw /vle (compare_flip a b) Hc. done. Qed.
Lemma compare_eq a b : compare_scalar_values a b = Some Eq → vle a b ∧ vle b a.
Proof. intros Hc. rw /vle (compare_flip a b) Hc. done. Qed.

(** ** What statistics promise *)

(** A row gives a value to every field, [Null] where it has none. *)
Definition Row : Type := string → Value.

Definition null_value (v : Value) : bool := match v with VNull => true | _ => false end.

(** A row satisfies a predicate, as far as the comparison through floats tells, when every
    condition the predicate states holds of the field's value; a null satisfies none.  What
    that says of the values themselves is [exact_compare] below. *)
Definition holds (o : option Value) (test : Value → Prop) : Prop :=
  match o with Some x => test x | None => True end.

Definition value_matches_as_floats (p : QueryPredicate) (v : Value) : Prop :=
  v ≠ VNull ∧
  holds (qp_eq p) (λ x, compare_scalar_values v x = Some Eq) ∧
  match qp_in_values p with Some xs => ∃ x, x ∈ xs ∧ compare_scalar_values v x = Some Eq | None => True end ∧
  holds (qp_gt p) (λ x, compare_scalar_values v x = Some Gt) ∧
  holds (qp_gte p) (λ x, vle x v) ∧
  holds (qp_lt p) (λ x, compare_scalar_values v x = Some Lt) ∧
  holds (qp_lte p) (λ x, vle v x).

Definition row_matches_as_floats (ps : list QueryPredicate) (row : Row) : Prop :=
  Forall (λ p, value_matches_as_floats p (row (qp_field p))) ps.

(** Statistics of a column are right for some rows: the counts are the counts, the
    bounds bound every value that is not null. *)
Record column_describes (rows : list Row) (record_count : option Z) (c : IcebergColumnStats) : Prop := {
  cd_nulls : ∀ k, cs_null_count c = Some k → k = Z.of_nat (length (filter (λ row, null_value (row (cs_field_name c)) = true) rows));
  cd_count : ∀ r, record_count = Some r → r = Z.of_nat (length rows);
  cd_lower : ∀ row x, row ∈ rows → row (cs_field_name c) ≠ VNull → cs_lower_bound c = Some x → vle x (row (cs_field_name c));
  cd_upper : ∀ row x, row ∈ rows → row (cs_field_name c) ≠ VNull → cs_upper_bound c = Some x → vle (row (cs_field_name c)) x;
}.

Lemma filter_length_all {A} (P : A → Prop) `{∀ x, Decision (P x)} (l : list A) x :
  length l ≤ length (filter P l) → x ∈ l → P x.
Proof.
  induction l as [|y l IH]; [intros _ ?%elem_of_nil; done|]. rw filter_cons. intros Hl [->|Hx]%elem_of_cons.
  - case_decide; [done|]. pose proof (length_filter P l). simpl in Hl. lia.
  - apply IH; [|done]. case_decide; simpl in Hl; [lia|]. lia.
Qed.

Section soundness.
Context (rows : list Row) (record_count : option Z) (c : IcebergColumnStats).
Hypothesis Hc : column_describes rows record_count c.
Context (row : Row).
Hypothesis Hrow : row ∈ rows.
Let v := row (cs_field_name c).
Hypothesis Hv : v ≠ VNull.

Lemma not_all_null : column_is_all_null c record_count = false.
Proof.
  rw /column_is_all_null. destruct (cs_null_count c) as [k|] eqn:Hk; [|done]. destruct record_count as [r|]; [|done].
  apply Z.leb_gt. apply (cd_nulls _ _ _ Hc) in Hk. pose proof (cd_count _ _ _ Hc r eq_refl) as Hr. subst.
  destruct (decide (length rows ≤ length (filter (λ row, null_value (row (cs_field_name c)) = true) rows))) as [Hle|]; [|lia].
  apply (filter_length_all _ _ row) in Hle; [|done]. simpl in Hle.
  exfalso. apply Hv. revert Hle. rw /v. by destruct (row (cs_field_name c)).
Qed.

(** A test no value between the bounds fails does not exclude. *)
Lemma lower_keeps o (bad : Value → Value → bool) :
  (∀ x l, o = Some x → vle l v → bad x l = false) → excluded_by o (cs_lower_bound c) bad = false.
Proof.
  intros Hx. rw /excluded_by. destruct o as [x|]; [|done]. destruct (cs_lower_bound c) as [l|] eqn:Hl; [|done].
  apply Hx; [done|]. exact (cd_lower _ _ _ Hc row l Hrow Hv Hl).
Qed.

Lemma upper_keeps o (bad : Value → Value → bool) :
  (∀ x u, o = Some x → vle v u → bad x u = false) → excluded_by o (cs_upper_bound c) bad = false.
Proof.
  intros Hx. rw /excluded_by. destruct o as [x|]; [|done]. destruct (cs_upper_bound c) as [u|] eqn:Hu; [|done].
  apply Hx; [done|]. exact (cd_upper _ _ _ Hc row u Hrow Hv Hu).
Qed.

Lemma equality_kept x : compare_scalar_values v x = Some Eq → equality_may_match c record_count x = true.
Proof.
  intros [Hvx Hxv]%compare_eq. rw /equality_may_match not_all_null lower_keeps ?upper_keeps //.
  - intros ? l [= <-] Hlv. cbv beta. destruct (compare_scalar_values x l) as [[]|] eqn:Hxl; try done.
    apply compare_lt in Hxl as [_ []]. by trans v.
  - intros ? u [= <-] Hvu. cbv beta. destruct (compare_scalar_values x u) as [[]|] eqn:Hxu; try done.
    apply compare_gt in Hxu as [_ []]. by trans v.
Qed.

Lemma range_kept p : value_matches_as_floats p v → range_may_match c record_count p = true.
Proof.
  intros (_ & _ & _ & Hgt & Hgte & Hlt & Hlte). rw /range_may_match not_all_null.
  rw (upper_keeps (qp_gt p)); [|rw (upper_keeps (qp_gte p)); [|rw (lower_keeps (qp_lt p)); [|rw (lower_keeps (qp_lte p)); [|done]]]].
  - intros x u Hx Hvu. cbv beta. rw Hx in Hgt. simpl in Hgt. apply compare_gt in Hgt as [_ Hn].
    apply not_true_is_false. intros Hux. apply Hn. by trans u.
  - intros x u Hx Hvu. cbv beta. rw Hx in Hgte. simpl in Hgte.
    destruct (compare_scalar_values u x) as [[]|] eqn:Hux; try done. apply compare_lt in Hux as [_ []]. by trans v.
  - intros x l Hx Hlv. cbv beta. rw Hx in Hlt. simpl in Hlt. apply compare_lt in Hlt as [_ Hn].
    destruct (compare_scalar_values l x) as [[]|] eqn:Hlx; try done; destruct Hn; trans l; try done.
    + by apply compare_eq in Hlx as [_ ?].
    + by apply compare_gt in Hlx as [? _].
  - intros x l Hx Hlv. cbv beta. rw Hx in Hlte. simpl in Hlte.
    destruct (compare_scalar_values l x) as [[]|] eqn:Hlx; try done. apply compare_gt in Hlx as [_ []]. by trans v.
Qed.

Lemma stats_kept p : value_matches_as_floats p v → predicate_may_match_stats c record_count p = true.
Proof.
  intros Hm. rw /predicate_may_match_stats. pose proof Hm as (_ & Heq & Hin & _).
  destruct (qp_eq p) as [x|]; [by apply equality_kept|].
  destruct (qp_in_values p) as [xs|]; [|by apply range_kept].
  destruct Hin as (x & Hx & Heqx). apply existsb_exists. exists x. split; [by apply list_elem_of_In|by apply equality_kept].
Qed.
End soundness.

(** Statistics of a file or a row group, column by column. *)
Definition columns_describe (rows : list Row) (record_count : option Z) (cs : list IcebergColumnStats) : Prop :=
  Forall (column_describes rows record_count) cs.

Lemma columns_kept rows rc cs row p :
  columns_describe rows rc cs → row ∈ rows → value_matches_as_floats p (row (qp_field p)) →
  match find (λ stats, String.eqb (cs_field_name stats) (qp_field p)) cs with
  | None => true
  | Some c => predicate_may_match_stats c rc p
  end = true.
Proof.
  intros Hcs Hrow Hp. destruct (find _ cs) as [c|] eqn:Hf; [|done].
  apply find_some in Hf as [Hin Hname%String.eqb_eq]. rw -Hname in Hp.
  refine (stats_kept rows rc c _ row Hrow _ p Hp); [|by destruct Hp].
  rw /columns_describe Forall_forall in Hcs. by apply Hcs, list_elem_of_In.
Qed.

(** ** Grouping *)

Definition schema_of (group : list FileDescriptor) : option PowdrrSchema := file_schema <$> head group.

(** Groups are the non-empty fibres of the schema, in order of first appearance. *)
Record groups_of (files : list FileDescriptor) (groups : list (list FileDescriptor)) : Prop := {
  go_fibre : ∀ group, group ∈ groups → ∃ s, schema_of group = Some s ∧ group = filter (λ f, file_schema f = s) files;
  go_distinct : NoDup (schema_of <$> groups);
  go_all : ∀ f, f ∈ files → Some (file_schema f) ∈ schema_of <$> groups;
}.

Lemma join_group_schemas f groups :
  schema_of <$> join_group f groups =
  (schema_of <$> groups) ++ (if decide (Some (file_schema f) ∈ schema_of <$> groups) then [] else [Some (file_schema f)]).
Proof.
  induction groups as [|[|x group] groups IH]; [done|..]; simpl join_group.
  - rw !fmap_cons IH -app_comm_cons. f_equal. f_equal. apply decide_ext. rw elem_of_cons. naive_solver.
  - case_bool_decide as Hs; rw !fmap_cons.
    + rw decide_True; [rw /schema_of /= Hs; left|]. by rw app_nil_r.
    + rw IH -app_comm_cons. f_equal. f_equal. apply decide_ext. rw elem_of_cons /schema_of /=. naive_solver.
Qed.

Lemma join_group_elem f groups group :
  NoDup (schema_of <$> groups) → group ∈ join_group f groups →
  (group ∈ groups ∧ schema_of group ≠ Some (file_schema f)) ∨
  (∃ old, old ∈ groups ∧ schema_of old = Some (file_schema f) ∧ group = old ++ [f]) ∨
  (group = [f] ∧ Some (file_schema f) ∉ schema_of <$> groups).
Proof.
  induction groups as [|x groups IH]; simpl.
  - intros _ ->%list_elem_of_singleton. right. right. split; [done|apply not_elem_of_nil].
  - intros [Hx Hnd]%NoDup_cons. destruct (decide (schema_of x = Some (file_schema f))) as [Hs|Hs].
    + assert (Hb : match x with existing :: _ => bool_decide (file_schema existing = file_schema f) | [] => false end = true).
      { destruct x; [done|]. apply bool_decide_eq_true. rw /schema_of /= in Hs. congruence. }
      rw Hb. intros [->|Hg]%elem_of_cons; [right; left; exists x; split_and!; [left|done|done]|].
      left. split; [by right|]. intros Heq. apply Hx. rw Hs -Heq. by apply list_elem_of_fmap_2.
    + assert (Hb : match x with existing :: _ => bool_decide (file_schema existing = file_schema f) | [] => false end = false).
      { destruct x; [done|]. apply bool_decide_eq_false. rw /schema_of /= in Hs. congruence. }
      rw Hb. intros [->|Hg]%elem_of_cons; [left; split; [left|done]|].
      destruct (IH Hnd Hg) as [[? ?]|[(old & ? & ? & ?)|[? Hn]]].
      * left. split; [by right|done].
      * right. left. exists old. split_and!; [by right|done|done].
      * right. right. split; [done|]. rw elem_of_cons. intros [?|?]; [congruence|done].
Qed.

Lemma groups_step files groups f : groups_of files groups → groups_of (files ++ [f]) (join_group f groups).
Proof.
  intros [Hfib Hnd Hall]. split.
  - intros group Hg. destruct (join_group_elem f groups group Hnd Hg) as [[Hin Hne]|[(old & Hin & Hs & ->)|[-> Hn]]].
    + destruct (Hfib group Hin) as (s & Hs & Heq). exists s. split; [done|]. rw filter_app {1}Heq filter_cons filter_nil.
      rw decide_False; [congruence|]. by rw app_nil_r.
    + destruct (Hfib old Hin) as (s & Hs' & Heq). exists s. rw filter_app filter_cons filter_nil -Heq.
      rw Hs' in Hs. injection Hs as ->. split; [|by rw decide_True]. by destruct old.
    + exists (file_schema f). split; [done|]. rw filter_app filter_cons filter_nil decide_True //.
      assert (Hnil : filter (λ f0, file_schema f0 = file_schema f) files = []); [|by rw Hnil].
      destruct (filter _ files) as [|x l] eqn:Hl; [done|].
      assert (Hx : x ∈ filter (λ f0, file_schema f0 = file_schema f) files) by (rw Hl; left).
      apply list_elem_of_filter in Hx as [Hxs Hx]. apply Hall in Hx. rw Hxs in Hx. done.
  - rw join_group_schemas. case_decide; [by rw app_nil_r|]. apply NoDup_app. split_and!; [done| |apply NoDup_singleton].
    intros ? ? ->%list_elem_of_singleton. done.
  - intros x [Hx|Hx]%elem_of_app; rw join_group_schemas elem_of_app.
    + left. by apply Hall.
    + apply list_elem_of_singleton in Hx as ->. case_decide; [by left|right]. left.
Qed.

Lemma groups_fold files files0 groups :
  groups_of files0 groups → groups_of (files0 ++ files) (foldl (λ groups file, join_group file groups) groups files).
Proof.
  revert files0 groups. induction files as [|f files IH]; intros files0 groups Hg; simpl; [by rw app_nil_r|].
  replace (files0 ++ f :: files) with ((files0 ++ [f]) ++ files) by (by rw -app_assoc).
  by apply IH, groups_step.
Qed.

(** ** Rounding *)

Lemma rne_bounds a m : (0 < m → a / m ≤ rne a m ≤ a / m + 1)%Z.
Proof. intros Hm. rw /rne. repeat case_match; lia. Qed.

Lemma rne_mono a b m : (0 < m → a ≤ b → rne a m ≤ rne b m)%Z.
Proof.
  intros Hm Hab. pose proof (Z.div_le_mono a b m Hm Hab) as Hq.
  destruct (decide (a / m = b / m)%Z) as [Heq|Hne].
  - assert (Hr : (a mod m ≤ b mod m)%Z) by (rw !Z.mod_eq; lia).
    rw /rne Heq. destruct (Z.ltb_spec (2 * (a mod m)) m), (Z.ltb_spec (2 * (b mod m)) m),
      (Z.ltb_spec m (2 * (a mod m))), (Z.ltb_spec m (2 * (b mod m))); destruct (Z.even (b / m)); lia.
  - pose proof (rne_bounds a m Hm). pose proof (rne_bounds b m Hm). lia.
Qed.

Lemma rne_one a : rne a 1 = a.
Proof. rw /rne Z.div_1_r Z.mod_1_r //. Qed.

(** Rounding of a magnitude. *)
Definition ulp (a : Z) : Z := (2 ^ Z.max 0 (Z.log2 a - 52))%Z.
Definition round_abs (a : Z) : Z := (rne a (ulp a) * ulp a)%Z.

Lemma round53_abs n : round53 n = (Z.sgn n * round_abs (Z.abs n))%Z.
Proof. done. Qed.

Lemma ulp_pos a : (0 < ulp a)%Z.
Proof. apply Z.pow_pos_nonneg; lia. Qed.

Lemma round_abs_lower a : (0 < a → 2 ^ Z.log2 a ≤ round_abs a)%Z.
Proof.
  intros Ha. pose proof (Z.log2_spec a Ha) as [Hlo _]. pose proof (rne_bounds a (ulp a) (ulp_pos a)) as [Hq _].
  pose proof (Z.log2_nonneg a). rw /round_abs. transitivity (a / ulp a * ulp a)%Z; [|pose proof (ulp_pos a); nia].
  rw /ulp. set (k := Z.max 0 (Z.log2 a - 52)).
  assert (Hs : (2 ^ Z.log2 a = 2 ^ (Z.log2 a - k) * 2 ^ k)%Z) by (rw -Z.pow_add_r; [lia..|f_equal; lia]).
  assert (Hd : (2 ^ (Z.log2 a - k) ≤ a / 2 ^ k)%Z).
  { apply Z.div_le_lower_bound; [apply Z.pow_pos_nonneg; lia|]. lia. }
  pose proof (Z.pow_pos_nonneg 2 k). nia.
Qed.

Lemma round_abs_upper a j : (0 ≤ a → 0 ≤ j → a < 2 ^ j → round_abs a ≤ 2 ^ j)%Z.
Proof.
  intros Ha Hj Hlt. destruct (decide (a = 0)%Z) as [->|Hne]; [rw /round_abs /= rne_one; lia|].
  assert (Hl : (Z.log2 a < j)%Z) by (apply Z.log2_lt_pow2; lia).
  pose proof (rne_bounds a (ulp a) (ulp_pos a)) as [_ Hq]. pose proof (ulp_pos a).
  rw /round_abs. transitivity ((a / ulp a + 1) * ulp a)%Z; [nia|].
  rw /ulp. pose proof (Z.log2_nonneg a). set (k := Z.max 0 (Z.log2 a - 52)).
  assert (Hs : (2 ^ j = 2 ^ (j - k) * 2 ^ k)%Z) by (rw -Z.pow_add_r; [lia..|f_equal; lia]).
  assert (Hd : (a / 2 ^ k < 2 ^ (j - k))%Z).
  { apply Z.div_lt_upper_bound; [apply Z.pow_pos_nonneg; lia|]. lia. }
  pose proof (Z.pow_pos_nonneg 2 k). nia.
Qed.

Lemma round_abs_mono a b : (0 ≤ a → a ≤ b → round_abs a ≤ round_abs b)%Z.
Proof.
  intros Ha Hab. pose proof (Z.log2_le_mono a b Hab) as Hl.
  destruct (decide (Z.log2 a = Z.log2 b)) as [Heq|Hne].
  - rw /round_abs /ulp Heq. pose proof (rne_mono a b (2 ^ Z.max 0 (Z.log2 b - 52))) as Hm.
    pose proof (Z.pow_pos_nonneg 2 (Z.max 0 (Z.log2 b - 52))). nia.
  - assert (Hb : (0 < b)%Z). { destruct (decide (b = 0)%Z) as [->|]; [|lia]. assert (a = 0)%Z as -> by lia. done. }
    transitivity (2 ^ Z.log2 b)%Z; [|by apply round_abs_lower].
    apply round_abs_upper; [done|apply Z.log2_nonneg|]. apply Z.log2_lt_cancel. rw Z.log2_pow2; [apply Z.log2_nonneg|lia].
Qed.

Lemma round_abs_nonneg a : (0 ≤ a → 0 ≤ round_abs a)%Z.
Proof. intros Ha. change 0%Z with (round_abs 0). by apply round_abs_mono. Qed.

Lemma round53_mono a b : (a ≤ b → round53 a ≤ round53 b)%Z.
Proof.
  intros Hab. rw !round53_abs. pose proof (round_abs_nonneg (Z.abs a)). pose proof (round_abs_nonneg (Z.abs b)).
  pose proof (round_abs_mono (Z.abs a) (Z.abs b)). pose proof (round_abs_mono (Z.abs b) (Z.abs a)).
  destruct (Z.sgn_spec a) as [[? ->]|[[? ->]|[? ->]]], (Z.sgn_spec b) as [[? ->]|[[? ->]|[? ->]]]; lia.
Qed.

Lemma round53_exact n : (Z.abs n ≤ 2 ^ 53 → round53 n = n)%Z.
Proof.
  intros Hn. rw round53_abs. assert (Hr : round_abs (Z.abs n) = Z.abs n); [|rw Hr; lia].
  destruct (decide (Z.abs n = 2 ^ 53)%Z) as [->|Hne]; [vm_compute; reflexivity|].
  rw /round_abs /ulp. assert (Hl : (Z.log2 (Z.abs n) < 53)%Z).
  { destruct (decide (Z.abs n = 0)%Z) as [->|]; [done|]. apply Z.log2_lt_pow2; lia. }
  rw Z.max_l; [lia|]. rw Z.pow_0_r rne_one. lia.
Qed.

Lemma compare_int a b : compare_scalar_values (int a) (int b) = Some (round53 a ?= round53 b)%Z.
Proof.
  assert (Hf : ∀ n, as_f64 (if (n <? 0)%Z then NegInt n else PosInt n) = mkF64 (round53 n) 0) by (intros n; by case_match).
  rw /int /= !Hf /f64_compare /= !Z.mul_1_r. done.
Qed.

(** ** The order of the values themselves *)

(** Numbers compared as the numbers they are: an integer is itself, a double its value. *)
Definition exact_number (n : Number) : f64 := match n with PosInt n | NegInt n => mkF64 n 0 | NFloat f => f end.
Definition exact_compare (a b : Value) : option comparison :=
  match a, b with
  | VNumber l, VNumber r => Some (f64_compare (exact_number l) (exact_number r))
  | VString l, VString r => Some (String.compare l r)
  | VBool l, VBool r => Some (bool_compare l r)
  | _, _ => None
  end.

(** A value that a double can hold. *)
Definition fits (v : Value) : Prop := match v with VNumber (PosInt n) | VNumber (NegInt n) => (Z.abs n ≤ 2 ^ 53)%Z | _ => True end.

Lemma exact_agrees a b : fits a → fits b → compare_scalar_values a b = exact_compare a b.
Proof.
  assert (Hn : ∀ n, fits (VNumber n) → as_f64 n = exact_number n) by (intros [n|n|f]; cbn; intros Hf; rw ?round53_exact //).
  intros Ha Hb. destruct a as [| |l| | |]; try done. destruct b as [| |r| | |]; try done. cbn. by rw !Hn.
Qed.

(** A value satisfies a predicate: every condition the predicate states holds of it; a null
    satisfies none. *)
Definition value_matches (p : QueryPredicate) (v : Value) : Prop :=
  v ≠ VNull ∧
  holds (qp_eq p) (λ x, exact_compare v x = Some Eq) ∧
  match qp_in_values p with Some xs => ∃ x, x ∈ xs ∧ exact_compare v x = Some Eq | None => True end ∧
  holds (qp_gt p) (λ x, exact_compare v x = Some Gt) ∧
  holds (qp_gte p) (λ x, is_at_most (exact_compare x v) = true) ∧
  holds (qp_lt p) (λ x, exact_compare v x = Some Lt) ∧
  holds (qp_lte p) (λ x, is_at_most (exact_compare v x) = true).
Definition row_matches (ps : list QueryPredicate) (row : Row) : Prop := Forall (λ p, value_matches p (row (qp_field p))) ps.

(** The values a predicate compares with. *)
Definition predicate_operands (p : QueryPredicate) : list Value :=
  omap id [qp_eq p; qp_gt p; qp_gte p; qp_lt p; qp_lte p] ++ default [] (qp_in_values p).

Lemma exact_matches p v : fits v → Forall fits (predicate_operands p) → value_matches p v → value_matches_as_floats p v.
Proof.
  intros Hv Hp. assert (Hx : ∀ x, x ∈ predicate_operands p → compare_scalar_values v x = exact_compare v x ∧ compare_scalar_values x v = exact_compare x v).
  { intros x Hx. rw Forall_forall in Hp. split; apply exact_agrees; auto. }
  assert (Ho : ∀ o (t t' : Value → Prop), o ∈ [qp_eq p; qp_gt p; qp_gte p; qp_lt p; qp_lte p] → (∀ x, compare_scalar_values v x = exact_compare v x → compare_scalar_values x v = exact_compare x v → t x → t' x) → holds o t → holds o t').
  { intros [x|] t t' Hin Ht; [|done]. cbn. destruct (Hx x) as [H1 H2]; [|by apply Ht]. apply elem_of_app. left. apply list_elem_of_omap. by exists (Some x). }
  intros (Hn & H1 & H2 & H3 & H4 & H5 & H6). split_and!; [done| | | | | |].
  - revert H1. apply Ho; [set_solver|]. intros x E _. by rw E.
  - rw /predicate_operands in Hx. destruct (qp_in_values p) as [xs|]; [|done]. destruct H2 as (x & Hin & He). exists x. split; [done|].
    rw (proj1 (Hx x (proj2 (elem_of_app _ _ _) (or_intror Hin)))). done.
  - revert H3. apply Ho; [set_solver|]. intros x E _. by rw E.
  - revert H4. apply Ho; [set_solver|]. intros x _ E. by rw /vle E.
  - revert H5. apply Ho; [set_solver|]. intros x E _. by rw E.
  - revert H6. apply Ho; [set_solver|]. intros x E _. by rw /vle E.
Qed.

(** Statistics of a column that are true of some rows. *)
Record column_true (rows : list Row) (record_count : option Z) (c : IcebergColumnStats) : Prop := {
  ct_nulls : ∀ k, cs_null_count c = Some k → k = Z.of_nat (length (filter (λ row, null_value (row (cs_field_name c)) = true) rows));
  ct_count : ∀ r, record_count = Some r → r = Z.of_nat (length rows);
  ct_lower : ∀ row x, row ∈ rows → row (cs_field_name c) ≠ VNull → cs_lower_bound c = Some x → is_at_most (exact_compare x (row (cs_field_name c))) = true;
  ct_upper : ∀ row x, row ∈ rows → row (cs_field_name c) ≠ VNull → cs_upper_bound c = Some x → is_at_most (exact_compare (row (cs_field_name c)) x) = true;
}.
Definition column_bounds (c : IcebergColumnStats) : list Value := omap id [cs_lower_bound c; cs_upper_bound c].

Lemma column_true_describes rows rc c : (∀ row field, row ∈ rows → fits (row field)) → Forall fits (column_bounds c) → column_true rows rc c → column_describes rows rc c.
Proof.
  intros Hr Hb [H1 H2 H3 H4]. rw Forall_forall in Hb. assert (Hbound : ∀ x, cs_lower_bound c = Some x ∨ cs_upper_bound c = Some x → fits x).
  { intros x Hx. apply Hb, list_elem_of_omap. exists (Some x). split; [|done]. set_solver. }
  split; [done|done| |]; intros row x Hrow Hn Hx; rw /vle exact_agrees; eauto.
Qed.
Lemma columns_true_describe rows rc cs : (∀ row field, row ∈ rows → fits (row field)) → Forall (λ c, Forall fits (column_bounds c)) cs → Forall (column_true rows rc) cs → columns_describe rows rc cs.
Proof.
  intros Hr Hb Hc. rw /columns_describe. apply Forall_forall. intros c Hin. rw Forall_forall in Hb. rw Forall_forall in Hc. apply column_true_describes; auto.
Qed.

(** ** Properties *)
Module QueryPathTheory.

(** Skipping a file or a row group on its statistics loses nothing: when the
    statistics are right for its rows and some row satisfies all the predicates, the
    file may match, and so may the row group. *)
Theorem may_match_sound rows (fs : IcebergFileStats) (rg : IcebergRowGroupStats) ps row :
  row ∈ rows → row_matches_as_floats ps row →
  (columns_describe rows (fst_record_count fs) (fst_columns fs) → file_may_match_predicates fs ps = true) ∧
  (columns_describe rows (rg_record_count rg) (rg_columns rg) → row_group_may_match_predicates rg ps = true).
Proof.
  intros Hrow Hm. rw /row_matches_as_floats Forall_forall in Hm.
  split; intros Hc; apply forallb_forall; intros p Hp%list_elem_of_In.
  - by apply (columns_kept rows _ _ row); [..|apply Hm].
  - by apply (columns_kept rows _ _ row); [..|apply Hm].
Qed.

(** Grouping by schema is exact: every group is all files of one schema in their
    order, no two groups share a schema, and every file is in a group. *)
Theorem group_files_by_schema_exact files : groups_of files (group_files_by_schema files).
Proof.
  apply (groups_fold files [] []). split; [intros ? ?%elem_of_nil; done|constructor|intros ? ?%elem_of_nil; done].
Qed.

(** Integers compare as integers up to 53 bits, and beyond that the comparison
    never reverses them. *)
Theorem integers_compare_monotonically (a b : Z) :
  ((a ≤ b)%Z → vle (int a) (int b)) ∧
  ((Z.abs a ≤ 2 ^ 53)%Z → (Z.abs b ≤ 2 ^ 53)%Z → compare_scalar_values (int a) (int b) = Some (a ?= b)%Z).
Proof.
  split; [intros Hab|intros Ha Hb].
  - rw /vle compare_int. apply z_at_most. by apply round53_mono.
  - by rw compare_int !round53_exact.
Qed.
End QueryPathTheory.

(** ** Examples *)
Module QueryPathDemo.
Import QueryPathTheory.

Definition demo_row (n : Z) : Row := λ f, if String.eqb f "age" then int n else VNull.
Definition demo_column (lo hi : Z) : IcebergColumnStats := mkColumnStats 1 "age" (Some 0%Z) (Some (int lo)) (Some (int hi)).
Definition demo_stats (count lo hi : Z) : IcebergFileStats := mkFileStats "f" (Some count) [demo_column lo hi] [] [].
Definition demo_group (count lo hi : Z) : IcebergRowGroupStats := mkRowGroupStats 0 (Some count) 0 false false [demo_column lo hi].
Definition greater_than (n : Z) : QueryPredicate := mkPredicate "age" None None (Some (int n)) None None None.

Lemma demo_describes : columns_describe [demo_row 3; demo_row 7] (Some 2%Z) [demo_column 3 7].
Proof.
  repeat constructor; simpl.
  - by intros k [= <-].
  - by intros r [= <-].
  - intros row x [->|[->|[]%elem_of_nil]%elem_of_cons]%elem_of_cons _ [= <-]; reflexivity.
  - intros row x [->|[->|[]%elem_of_nil]%elem_of_cons]%elem_of_cons _ [= <-]; reflexivity.
Qed.

Lemma demo_true : Forall (column_true [demo_row 3; demo_row 7] (Some 2%Z)) [demo_column 3 7].
Proof.
  repeat constructor; simpl.
  - by intros k [= <-].
  - by intros r [= <-].
  - intros row x [->|[->|[]%elem_of_nil]%elem_of_cons]%elem_of_cons _ [= <-]; reflexivity.
  - intros row x [->|[->|[]%elem_of_nil]%elem_of_cons]%elem_of_cons _ [= <-]; reflexivity.
Qed.

Lemma may_match_sound_witness : file_may_match_predicates (demo_stats 2 3 7) [greater_than 5] = true.
Proof.
  refine (proj1 (may_match_sound [demo_row 3; demo_row 7] (demo_stats 2 3 7) (demo_group 2 3 7) [greater_than 5] (demo_row 7) _ _) _).
  - right. left.
  - repeat constructor. discriminate.
  - exact demo_describes.
Defined.

(** A file whose only value is [2^53 + 1] is skipped by [age > 2^53]: both become the
    same float. *)
Theorem strict_bound_loses_large_integer :
  file_may_match_predicates (demo_stats 1 (2 ^ 53 + 1) (2 ^ 53 + 1)) [greater_than (2 ^ 53)] = false ∧
  (2 ^ 53 + 1 > 2 ^ 53)%Z.
Proof. split; [vm_compute; reflexivity|lia]. Qed.
End QueryPathDemo.
