(* ===== verification/Float.v ===== *)
(** * Arithmetic of 64-bit floats

    Sums and quotients of finite doubles, rounded to nearest with ties to even, and the
    way numbers are read from JSON and written back.  [None] stands for an infinity or a
    NaN, which JSON cannot hold. *)

From S2P Require Import Prelude Json QueryPath.

(** Factors of two belong to the exponent. *)
Definition f64_norm (m e : Z) : f64 :=
  if (m =? 0)%Z then mkF64 0 0
  else let t := Z.log2 (Z.land (Z.abs m) (- Z.abs m)) in mkF64 (m / 2 ^ t) (e + t).

(** The double nearest to [r * 2 ^ e] for [r] of at most 53 bits. *)
Definition f64_finite (r e : Z) : option f64 :=
  if (2 ^ (1024 + 1074) <=? Z.abs r * 2 ^ (e + 1074))%Z then None else Some (f64_norm r e).

(** [a + b]: the exact sum rounded to 53 bits, none when it overflows to an infinity. *)
Definition f64_add (a b : f64) : option f64 :=
  let e := Z.min (exponent a) (exponent b) in
  let r := round53 (mantissa a * 2 ^ (exponent a - e) + mantissa b * 2 ^ (exponent b - e)) in
  f64_finite r e.

(** Drop the last [p] bits, to nearest, ties to even. *)
Definition round_bits (n p : Z) : Z := (Z.sgn n * (rne (Z.abs n) (2 ^ p) * 2 ^ p))%Z.

(** [a / b] for [b] not zero.  The quotient is computed to 56 bits or more, with a last
    bit that says whether it was exact, and rounded once: to 53 bits, or to the multiples
    of [2 ^ -1074] when it is subnormal. *)
Definition f64_div (a b : f64) : option f64 :=
  let n := Z.abs (mantissa a) in
  let d := Z.abs (mantissa b) in
  let k := Z.max 0 (Z.log2 d - Z.log2 n + 56) in
  let q := (n * 2 ^ k / d)%Z in
  let sticky := if ((n * 2 ^ k) mod d =? 0)%Z then 0%Z else 1%Z in
  let m := (Z.sgn (mantissa a) * Z.sgn (mantissa b) * (2 * q + sticky))%Z in
  let e := (exponent a - exponent b - k - 1)%Z in
  let p := Z.max 0 (Z.max (Z.log2 (Z.abs m) - 52) (-1074 - e)) in
  let r := (round_bits m p / 2 ^ p)%Z in
  if (2 ^ (1024 + 1074) <=? Z.abs r * 2 ^ (Z.max 0 (e + p + 1074)))%Z then None else Some (f64_norm r (e + p)).

(** [Value::as_i64] *)
Definition as_i64 (v : Value) : option Z :=
  match v with
  | VNumber (PosInt n) => if (n <? 2 ^ 63)%Z then Some n else None
  | VNumber (NegInt n) => Some n
  | _ => None
  end.

(** [Value::as_u64] *)
Definition as_u64 (v : Value) : option Z := match v with VNumber (PosInt n) => Some n | _ => None end.

(** The integer a double is, if it is one. *)
Definition f64_integer (f : f64) : option Z :=
  if (0 <=? exponent f)%Z then Some (mantissa f * 2 ^ exponent f)%Z
  else if (mantissa f mod 2 ^ (- exponent f) =? 0)%Z then Some (mantissa f / 2 ^ (- exponent f))%Z
  else None.

Example a_third : f64_div (mkF64 1 0) (mkF64 3 0) = Some (mkF64 6004799503160661 (-54)).
Proof. vm_compute. reflexivity. Qed.

Example smallest_halved : f64_div (mkF64 1 (-1074)) (mkF64 1 1) = Some (mkF64 0 0).
Proof. vm_compute. reflexivity. Qed.

(** ** Integers below [2 ^ 53] are exact *)

Definition small_int (n : Z) : Prop := (Z.abs n ≤ 2 ^ 53)%Z.

(** The lowest bit of a number. *)
Lemma lowest_bit p : ∃ k b, (0 ≤ k)%Z ∧ (Z.pos p = 2 ^ k * (2 * b + 1))%Z ∧ Z.land (Z.pos p) (- Z.pos p) = (2 ^ k)%Z.
Proof.
  induction p as [p _|p (k & b & Hk & Hp & Hl)|].
  - exists 0%Z, (Z.pos p). split_and!; [done|lia|]. replace (- Z.pos p~1)%Z with (2 * Z.lnot (Z.pos p) + 1)%Z by (rw /Z.lnot; lia).
    change (Z.pos p~1) with (2 * Z.pos p + 1)%Z. apply Z.bits_inj'. intros i Hi. rw Z.land_spec. destruct (decide (i = 0)%Z) as [->|Hne]; [by rw !Z.testbit_odd_0|].
    replace i with (Z.succ (i - 1)) by lia. rw !Z.testbit_odd_succ; [lia..|]. rw -Z.land_spec Z.land_lnot_diag Z.bits_0 Z.pow_0_r. symmetry. apply Z.bits_above_log2; simpl; lia.
  - exists (k + 1)%Z, b. rw Z.pow_add_r; [lia..|]. split_and!; [lia|lia|]. change (Z.pos p~0) with (2 * Z.pos p)%Z. replace (- (2 * Z.pos p))%Z with (2 * - Z.pos p)%Z by lia.
    rw !(Z.mul_comm 2) -!(Z.shiftl_mul_pow2 _ 1) //= -Z.shiftl_land Hl Z.shiftl_mul_pow2 //.
  - exists 0%Z, 0%Z. done.
Qed.

Lemma f64_norm_value m e : (0 ≤ e)%Z → f64_integer (f64_norm m e) = Some (m * 2 ^ e)%Z.
Proof.
  intros He. rw /f64_norm. destruct (Z.eqb_spec m 0) as [->|Hm]; [done|]. assert (∃ p, Z.abs m = Z.pos p) as [p Hp] by (destruct m; [done|by eexists..]).
  destruct (lowest_bit p) as (k & b & Hk & Hb & Hl). rw Hp Hl Z.log2_pow2 // /f64_integer /=. destruct (Z.leb_spec 0 (e + k)); [|lia]. f_equal.
  assert (Hdiv : (m / 2 ^ k * 2 ^ k = m)%Z). { assert (Hm2 : m = (Z.sgn m * (2 * b + 1) * 2 ^ k)%Z) by lia. rw {1}Hm2 Z.div_mul; [apply Z.pow_nonzero; lia|lia]. }
  rw Z.add_comm Z.pow_add_r //. nia.
Qed.

Lemma as_f64_int n : small_int n → as_f64 (if (n <? 0)%Z then NegInt n else PosInt n) = mkF64 n 0.
Proof. intros Hn. assert (Hr : round53 n = n) by (by apply round53_exact). by case_match; rw /= Hr. Qed.

(** SRC query_runtime/src/lakehouse_serving.rs:3795-3800 value_as_f64 *)
Definition value_as_f64 (value : Value) : option f64 := match value with VNumber n => Some (as_f64 n) | _ => None end.

(** [value as i64] saturates: [2 ^ 63], which is not above [i64::MAX as f64], becomes
    [2 ^ 63 - 1]. *)
(** SRC query_runtime/src/lakehouse_serving.rs:3802-3814 json_number_value *)
Definition json_number_value (value : option f64) : Value :=
  match value with
  | None => VNull
  | Some f =>
      match f64_integer f with
      | Some n => if ((- 2 ^ 63 <=? n) && (n <=? 2 ^ 63))%Z then int (Z.min n (2 ^ 63 - 1)) else VNumber (NFloat f)
      | None => VNumber (NFloat f)
      end
  end.

(** Sums of integers that stay below [2 ^ 53] are the sums. *)
Lemma add_small_ints a b : small_int a → small_int b → small_int (a + b) → json_number_value (f64_add (mkF64 a 0) (mkF64 b 0)) = int (a + b).
Proof.
  intros Ha Hb Hab. rw /f64_add /= !Z.mul_1_r round53_exact // /f64_finite Z.min_id. rw /small_int in Hab.
  destruct (Z.leb_spec (2 ^ (1024 + 1074)) (Z.abs (a + b) * 2 ^ (0 + 1074))) as [Hle|_]; [exfalso; revert Hle; apply Z.lt_nge|].
  { eapply Z.le_lt_trans; [apply Z.mul_le_mono_nonneg_r; [lia|exact Hab]|]. vm_compute. reflexivity. }
  rw /json_number_value f64_norm_value // Z.pow_0_r Z.mul_1_r. destruct (Z.leb_spec (- 2 ^ 63) (a + b)), (Z.leb_spec (a + b) (2 ^ 63)); try lia. cbn [andb]. f_equal. lia.
Qed.
