(* ===== verification/Pruning.v ===== *)
(** * Choosing the files to read (query_runtime/src/lakehouse_serving.rs, query_core/src/read_plan.rs)

    A read plan is answered from the files whose partition values and statistics admit
    a match; this file models the selection loop with its accounting and shows that it
    keeps every file with a matching row. *)

From S2P Require Import Prelude Json Schema FileSet Contract QueryPath.

(** SRC query_core/src/read_plan.rs:6-15= ReadPredicate *)
Record ReadPredicate : Type := mkReadPredicate {
  rp_field : string;
  rp_eq : option Value;
  rp_in_values : option (list Value);
  rp_gt : option Value;
  rp_gte : option Value;
  rp_lt : option Value;
  rp_lte : option Value;
}.

(** SRC query_core/src/read_plan.rs:17-21 ReadSort *)
Record ReadSort : Type := mkReadSort { rs_field : string; rs_descending : bool }.

(** SRC query_core/src/read_plan.rs:23-34 ReadPlan *)
Record ReadPlan : Type := mkReadPlan {
  rd_select : option (list string);
  rd_filters : list ReadPredicate;
  rd_aggregate : option ServingAggregateSpec;
  rd_order_by : list ReadSort;
  rd_limit : option nat;
  rd_offset : nat;
  rd_search_after : option (list Value);
  rd_allow_slow_path : bool;
  rd_explain : bool;
}.

(** SRC query_core/src/read_plan.rs:37-39 ReadPlan::normalized_limit *)
Definition normalized_limit (p : ReadPlan) (default_limit max_limit : nat) : nat :=
  Nat.min (default default_limit (rd_limit p)) max_limit.

(** SRC query_core/src/read_plan.rs:41-45 ReadPlan::uses_exact_filters *)
Definition uses_exact_filters (p : ReadPlan) : bool :=
  existsb (λ f, bool_decide (is_Some (rp_eq f)) || bool_decide (is_Some (rp_in_values f))) (rd_filters p).

(** SRC query_core/src/read_plan.rs:47-54 ReadPlan::uses_range_filters *)
Definition uses_range_filters (p : ReadPlan) : bool :=
  existsb (λ f, bool_decide (is_Some (rp_gt f)) || bool_decide (is_Some (rp_gte f))
             || bool_decide (is_Some (rp_lt f)) || bool_decide (is_Some (rp_lte f))) (rd_filters p).

(** SRC query_core/src/read_plan.rs:56-62 ReadPlan::base_extension_suffixes *)
Definition base_extension_suffixes (p : ReadPlan) (calculate_score : bool) : list string :=
  if calculate_score then ["search_index"] else [].

(** SRC query_core/src/read_plan.rs:64-70 ReadPlan::exact_extension_suffixes *)
Definition exact_extension_suffixes (p : ReadPlan) : list string :=
  if uses_exact_filters p then ["exact_index"] else [].

(** SRC query_core/src/read_plan.rs:87-99= From<&ReadPredicate> for QueryPredicate *)
Definition query_predicate (p : ReadPredicate) : QueryPredicate :=
  mkPredicate (rp_field p) (rp_eq p) (rp_in_values p) (rp_gt p) (rp_gte p) (rp_lt p) (rp_lte p).

(** SRC query_runtime/src/lakehouse_serving.rs:5802-5804 serving_request_predicates *)
Definition serving_request_predicates (request : ReadPlan) : list QueryPredicate :=
  query_predicate <$> rd_filters request.

(** SRC query_runtime/src/lakehouse_serving.rs:5794-5796 file_may_match_request *)
Definition file_may_match_request (file_stats : IcebergFileStats) (request : ReadPlan) : bool :=
  file_may_match_predicates file_stats (serving_request_predicates request).

(** SRC query_runtime/src/lakehouse_serving.rs:5798-5800 row_group_may_match_request *)
Definition row_group_may_match_request (row_group_stats : IcebergRowGroupStats) (request : ReadPlan) : bool :=
  row_group_may_match_predicates row_group_stats (serving_request_predicates request).

(** ** Partition values *)

(** SRC query_runtime/src/lakehouse_serving.rs:5758-5792 partition_range_may_match *)
Definition partition_range_may_match (value : Value) (predicate : ReadPredicate) : bool :=
  if excluded_by (Some value) (rp_gt predicate) (λ v x, is_at_most (compare_scalar_values v x)) then false
  else if excluded_by (Some value) (rp_gte predicate) (λ v x, is_less (compare_scalar_values v x)) then false
  else if excluded_by (Some value) (rp_lt predicate) (λ v x, is_at_least (compare_scalar_values v x)) then false
  else if excluded_by (Some value) (rp_lte predicate) (λ v x, is_greater (compare_scalar_values v x)) then false
  else true.

Definition is_equal (o : option comparison) : bool := match o with Some Eq => true | _ => false end.

(** SRC query_runtime/src/lakehouse_serving.rs:5731-5756 partition_predicate_may_match_file *)
Definition partition_predicate_may_match_file (file_stats : IcebergFileStats) (predicate : ReadPredicate) : option (bool * string) :=
  partition_value ← find (λ pv, String.eqb (pv_source_field_name pv) (rp_field predicate) && String.eqb (pv_transform pv) "identity")
                      (fst_partition_values file_stats);
  value ← pv_value partition_value;
  let may_match :=
    match rp_eq predicate with
    | Some eq => is_equal (compare_scalar_values eq value)
    | None =>
        match rp_in_values predicate with
        | Some in_values => existsb (λ candidate, is_equal (compare_scalar_values candidate value)) in_values
        | None => partition_range_may_match value predicate
        end
    end in
  Some (may_match, "partition-spec:" +:+ pv_field_name partition_value).

(** ** The selection loop *)

(** SRC query_runtime/src/lakehouse_serving.rs:787-799 PrunedFileSelection *)
Record PrunedFileSelection : Type := mkPruned {
  selected_files : list FileDescriptor;
  files_selected : nat;
  row_groups_considered : nat;
  row_groups_selected : nat;
  estimated_bytes : Z;
  artifacts_used : list string;
  metadata_files_cached : nat;
  metadata_row_groups_cached : nat;
  page_index_row_groups_selected : nat;
  bloom_filter_row_groups_selected : nat;
}.

Definition default_pruned : PrunedFileSelection := mkPruned [] 0 0 0 0 [] 0 0 0 0.

(** SRC query_runtime/src/lakehouse_serving.rs:4958-4963 push_unique_string *)
Definition push_unique_string (values : list string) (value : string) : list string :=
  if decide (value ∈ values) then values else merge_sort String.le (values ++ [value]).

(** SRC query_runtime/src/lakehouse_serving.rs:5658-5660 record_artifact_usage *)
Definition record_artifact_usage (p : PrunedFileSelection) (artifact_name : string) : PrunedFileSelection :=
  mkPruned (selected_files p) (files_selected p) (row_groups_considered p) (row_groups_selected p) (estimated_bytes p)
    (push_unique_string (artifacts_used p) artifact_name) (metadata_files_cached p) (metadata_row_groups_cached p)
    (page_index_row_groups_selected p) (bloom_filter_row_groups_selected p).

(** SRC query_lib/src/data_access.rs:290-300 cached_parquet_row_group_stats_coverage *)
Definition cached_parquet_row_group_stats_coverage (cache : gmap string nat) (file_paths : list string) : nat * nat :=
  foldl (λ coverage file_path,
    match cache !! file_path with
    | Some row_group_count => (coverage.1 + 1, coverage.2 + row_group_count)
    | None => coverage
    end) (0, 0) file_paths.

Section pruning.
(** The process-wide cache of row-group statistics: the number of row groups it holds
    for a path. *)
Context (metadata_cache : gmap string nat).

(** SRC query_runtime/src/lakehouse_serving.rs:5662-5666 record_metadata_cache_coverage *)
Definition record_metadata_cache_coverage (p : PrunedFileSelection) (path : string) : PrunedFileSelection :=
  let coverage := cached_parquet_row_group_stats_coverage metadata_cache [path] in
  mkPruned (selected_files p) (files_selected p) (row_groups_considered p) (row_groups_selected p) (estimated_bytes p)
    (artifacts_used p) (metadata_files_cached p + coverage.1) (metadata_row_groups_cached p + coverage.2)
    (page_index_row_groups_selected p) (bloom_filter_row_groups_selected p).

(** SRC query_runtime/src/lakehouse_serving.rs:5668-5684 record_file_stats_artifact_usage *)
Definition record_file_stats_artifact_usage (p : PrunedFileSelection) (file_stats : IcebergFileStats) (request : ReadPlan) : PrunedFileSelection :=
  match rd_filters request with
  | [] => p
  | _ =>
      if existsb (λ predicate, existsb (λ column, String.eqb (cs_field_name column) (rp_field predicate)) (fst_columns file_stats))
           (rd_filters request)
      then record_artifact_usage p "file-stats" else p
  end.

(** SRC query_runtime/src/lakehouse_serving.rs:5686-5709 record_page_pruning_coverage *)
Definition record_page_pruning_coverage (p : PrunedFileSelection) (matching_row_groups : list IcebergRowGroupStats) (request : ReadPlan) : PrunedFileSelection :=
  match rd_filters request with
  | [] => p
  | _ =>
      let p := mkPruned (selected_files p) (files_selected p) (row_groups_considered p) (row_groups_selected p) (estimated_bytes p)
        (artifacts_used p) (metadata_files_cached p) (metadata_row_groups_cached p)
        (page_index_row_groups_selected p + length (filter (λ rg, rg_page_index_present rg = true) matching_row_groups))
        (bloom_filter_row_groups_selected p) in
      let p := if 0 <? page_index_row_groups_selected p then record_artifact_usage p "page-index" else p in
      let p := mkPruned (selected_files p) (files_selected p) (row_groups_considered p) (row_groups_selected p) (estimated_bytes p)
        (artifacts_used p) (metadata_files_cached p) (metadata_row_groups_cached p) (page_index_row_groups_selected p)
        (bloom_filter_row_groups_selected p + length (filter (λ rg, rg_bloom_filter_present rg = true) matching_row_groups)) in
      if 0 <? bloom_filter_row_groups_selected p then record_artifact_usage p "bloom-filter" else p
  end.

(** The loop of [partition_values_may_match_request] over the filters. *)
Fixpoint partition_filters_may_match (file_stats : IcebergFileStats) (filters : list ReadPredicate) (p : PrunedFileSelection) : bool * PrunedFileSelection :=
  match filters with
  | [] => (true, p)
  | predicate :: filters =>
      match partition_predicate_may_match_file file_stats predicate with
      | None => partition_filters_may_match file_stats filters p
      | Some (may_match, artifact_name) =>
          let p := record_artifact_usage p artifact_name in
          if may_match : bool then partition_filters_may_match file_stats filters p else (false, p)
      end
  end.

(** SRC query_runtime/src/lakehouse_serving.rs:5711-5729 partition_values_may_match_request *)
Definition partition_values_may_match_request (file_stats : IcebergFileStats) (request : ReadPlan) (p : PrunedFileSelection) : bool * PrunedFileSelection :=
  partition_filters_may_match file_stats (rd_filters request) p.

Definition select_file (file : FileDescriptor) (bytes : Z) (row_groups : nat) (p : PrunedFileSelection) : PrunedFileSelection :=
  mkPruned (selected_files p ++ [file]) (files_selected p + 1) (row_groups_considered p) (row_groups_selected p + row_groups)
    (wrap_u64 (estimated_bytes p + bytes)) (artifacts_used p) (metadata_files_cached p) (metadata_row_groups_cached p)
    (page_index_row_groups_selected p) (bloom_filter_row_groups_selected p).

Definition consider_row_groups (n : nat) (p : PrunedFileSelection) : PrunedFileSelection :=
  mkPruned (selected_files p) (files_selected p) (row_groups_considered p + n) (row_groups_selected p) (estimated_bytes p)
    (artifacts_used p) (metadata_files_cached p) (metadata_row_groups_cached p)
    (page_index_row_groups_selected p) (bloom_filter_row_groups_selected p).

(** One iteration of [prune_candidate_files].  The updates of a selected file touch
    different fields, so their order does not matter. *)
(** SRC query_runtime/src/lakehouse_serving.rs:5607-5653= prune_candidate_files *)
Definition prune_file (file_stats : gmap string IcebergFileStats) (request : ReadPlan) (p : PrunedFileSelection) (file : FileDescriptor) : PrunedFileSelection :=
  match file_stats !! file_path file with
  | None => record_metadata_cache_coverage (select_file file (file_size file) 0 p) (file_path file)
  | Some stats =>
      let '(partitions_match, p) := partition_values_may_match_request stats request p in
      if partitions_match : bool then
        match fst_row_groups stats with
        | [] =>
            let p := record_file_stats_artifact_usage p stats request in
            if file_may_match_request stats request
            then record_metadata_cache_coverage (select_file file (file_size file) 0 p) (file_path file)
            else p
        | _ =>
            let p := consider_row_groups (length (fst_row_groups stats)) p in
            let matching_row_groups := filter (λ rg, row_group_may_match_request rg request = true) (fst_row_groups stats) in
            match matching_row_groups with
            | [] => p
            | _ =>
                let p := match rd_filters request with [] => p | _ => record_artifact_usage p "row-group-stats" end in
                let bytes := wrap_u64 (foldr (λ rg acc, rg_compressed_bytes rg + acc)%Z 0%Z matching_row_groups) in
                let p := select_file file bytes (length matching_row_groups) p in
                let p := record_page_pruning_coverage p matching_row_groups request in
                record_metadata_cache_coverage p (file_path file)
            end
        end
      else p
  end.

(** SRC query_runtime/src/lakehouse_serving.rs:5600-5606= prune_candidate_files *)
Definition prune_candidate_files (files : list FileDescriptor) (file_stats : gmap string IcebergFileStats) (request : ReadPlan) : PrunedFileSelection :=
  foldl (prune_file file_stats request) default_pruned files.
End pruning.

(** ** The selection as a filter *)

Definition partitions_admit (stats : IcebergFileStats) (request : ReadPlan) : bool :=
  forallb (λ predicate, match partition_predicate_may_match_file stats predicate with Some (b, _) => b | None => true end)
    (rd_filters request).

(** The files the loop keeps. *)
Definition file_kept (file_stats : gmap string IcebergFileStats) (request : ReadPlan) (file : FileDescriptor) : bool :=
  match file_stats !! file_path file with
  | None => true
  | Some stats =>
      partitions_admit stats request &&
      match fst_row_groups stats with
      | [] => file_may_match_request stats request
      | row_groups => existsb (λ rg, row_group_may_match_request rg request) row_groups
      end
  end.

(** What the accounting leaves alone. *)
Definition same_selection (p p' : PrunedFileSelection) : Prop :=
  selected_files p' = selected_files p ∧ files_selected p' = files_selected p.

Lemma page_pruning_selection p rgs request : same_selection p (record_page_pruning_coverage p rgs request).
Proof. rw /record_page_pruning_coverage. destruct (rd_filters request); [done|]. by repeat case_match. Qed.

Lemma partition_loop stats filters p :
  let '(b, p') := partition_filters_may_match stats filters p in
  b = forallb (λ predicate, match partition_predicate_may_match_file stats predicate with Some (b, _) => b | None => true end) filters ∧
  same_selection p p'.
Proof.
  revert p. induction filters as [|f filters IH]; intros p; simpl; [done|].
  destruct (partition_predicate_may_match_file stats f) as [[[] name]|]; simpl; [|done|apply IH].
  specialize (IH (record_artifact_usage p name)). destruct (partition_filters_may_match _ _ _). exact IH.
Qed.

Lemma filter_existsb_nil {A} (f : A → bool) (l : list A) : filter (λ x, f x = true) l = [] ↔ existsb f l = false.
Proof.
  induction l as [|x l IH]; [done|]. rw filter_cons /=. destruct (f x) eqn:Hx; simpl.
  - split; done.
  - exact IH.
Qed.

Lemma prune_file_spec cache file_stats request p file :
  let p' := prune_file cache file_stats request p file in
  selected_files p' = selected_files p ++ (if file_kept file_stats request file then [file] else []) ∧
  files_selected p' = files_selected p + (if file_kept file_stats request file then 1 else 0).
Proof.
  rw /prune_file /file_kept. destruct (file_stats !! file_path file) as [stats|]; [|done].
  rw /partition_values_may_match_request /partitions_admit. pose proof (partition_loop stats (rd_filters request) p) as Hl.
  destruct (partition_filters_may_match stats _ p) as [b p1]. destruct Hl as [<- [Hs Hn]].
  destruct b; [rw andb_true_l|by rw /= Hs Hn app_nil_r Nat.add_0_r].
  destruct (fst_row_groups stats) as [|rg rgs].
  - destruct (file_may_match_request stats request); rw /record_file_stats_artifact_usage;
      destruct (rd_filters request); try case_match; simpl; rw ?Hs ?Hn ?app_nil_r; split; try done; lia.
  - pose proof (filter_existsb_nil (λ rg, row_group_may_match_request rg request) (rg :: rgs)) as Hnil.
    cbv iota beta zeta. revert Hnil. generalize (rg :: rgs). intros groups Hnil. destruct (filter _ groups) as [|m ms].
    + rw (proj1 Hnil eq_refl) /= Hs Hn app_nil_r Nat.add_0_r //.
    + destruct (existsb _ groups); [|discriminate (proj2 Hnil eq_refl)].
      match goal with |- context [record_page_pruning_coverage ?p2 ?l request] =>
        pose proof (page_pruning_selection p2 l request) as [Hs2 Hn2] end.
      simpl. rw Hs2 Hn2 /=. by destruct (rd_filters request); rw /= Hs Hn.
Qed.

Lemma prune_fold cache file_stats request files p :
  let p' := foldl (prune_file cache file_stats request) p files in
  selected_files p' = selected_files p ++ filter (λ f, file_kept file_stats request f = true) files ∧
  files_selected p' = files_selected p + length (filter (λ f, file_kept file_stats request f = true) files).
Proof.
  revert p. induction files as [|f files IH]; intros p; simpl; [by rw app_nil_r Nat.add_0_r|].
  destruct (IH (prune_file cache file_stats request p f)) as [-> ->].
  destruct (prune_file_spec cache file_stats request p f) as [-> ->]. rw filter_cons.
  destruct (file_kept _ _ f) eqn:Hk; simpl; rw -?app_assoc /=; split; try done; lia.
Qed.

(** ** What the metadata of a file promises *)

(** Identity partition values are the value of the field in every row, the column
    statistics are right, and every row is in a row group whose statistics are. *)
Record file_described (rows : list Row) (stats : IcebergFileStats) : Prop := {
  fd_partitions : ∀ pv value row, pv ∈ fst_partition_values stats → pv_transform pv = "identity" →
    pv_value pv = Some value → row ∈ rows → compare_scalar_values (row (pv_source_field_name pv)) value = Some Eq;
  fd_columns : columns_describe rows (fst_record_count stats) (fst_columns stats);
  fd_groups : fst_row_groups stats ≠ [] → ∀ row, row ∈ rows →
    ∃ rg group, rg ∈ fst_row_groups stats ∧ row ∈ group ∧ columns_describe group (rg_record_count rg) (rg_columns rg);
}.

(** The same of the values themselves. *)
Record file_true (rows : list Row) (stats : IcebergFileStats) : Prop := {
  ft_partitions : ∀ pv value row, pv ∈ fst_partition_values stats → pv_transform pv = "identity" →
    pv_value pv = Some value → row ∈ rows → exact_compare (row (pv_source_field_name pv)) value = Some Eq;
  ft_columns : Forall (column_true rows (fst_record_count stats)) (fst_columns stats);
  ft_groups : fst_row_groups stats ≠ [] → ∀ row, row ∈ rows →
    ∃ rg group, rg ∈ fst_row_groups stats ∧ row ∈ group ∧ (∀ row, row ∈ group → row ∈ rows) ∧ Forall (column_true group (rg_record_count rg)) (rg_columns rg);
}.
(** No integer beyond 53 bits among the statistics. *)
Definition stats_fit (stats : IcebergFileStats) : Prop :=
  Forall (λ c, Forall fits (column_bounds c)) (fst_columns stats) ∧ Forall (λ rg, Forall (λ c, Forall fits (column_bounds c)) (rg_columns rg)) (fst_row_groups stats) ∧
  Forall (λ pv, Forall fits (omap id [pv_value pv])) (fst_partition_values stats).

Lemma file_true_described rows stats : (∀ row field, row ∈ rows → fits (row field)) → stats_fit stats → file_true rows stats → file_described rows stats.
Proof.
  intros Hr (Hc & Hg & Hp) [T1 T2 T3]. split.
  - intros pv value row Hpv Hid Hval Hrow. rw exact_agrees; [by apply Hr| |by apply (T1 pv value row)]. rw Forall_forall in Hp. specialize (Hp pv Hpv). rw Hval in Hp. cbn in Hp. by inversion Hp.
  - by apply columns_true_describe.
  - intros Hne row Hrow. destruct (T3 Hne row Hrow) as (rg & group & Hrg & Hin & Hsub & Ht). exists rg, group. split_and!; [done|done|]. apply columns_true_describe; [auto| |done].
    rw Forall_forall in Hg. by apply Hg.
Qed.

(** Equal scalars compare alike. *)
Lemma compare_eq_l a b x : compare_scalar_values a b = Some Eq → compare_scalar_values a x = compare_scalar_values b x.
Proof.
  intros [Hab Hba]%compare_eq.
  assert (Hl : vle a x ↔ vle b x) by (split; intros ?; [by trans a|by trans b]).
  assert (Hr : vle x a ↔ vle x b) by (split; intros ?; [by trans a|by trans b]). rw /vle in Hl Hr.
  rw (compare_flip a x) (compare_flip b x) in Hr.
  destruct (compare_scalar_values a x) as [[]|], (compare_scalar_values b x) as [[]|]; simpl in Hl, Hr; naive_solver.
Qed.

Lemma partition_kept rows stats row f :
  file_described rows stats → row ∈ rows → value_matches_as_floats (query_predicate f) (row (rp_field f)) →
  match partition_predicate_may_match_file stats f with Some (b, _) => b | None => true end = true.
Proof.
  intros Hd Hrow (_ & Heq & Hin & Hgt & Hgte & Hlt & Hlte). rw /partition_predicate_may_match_file.
  destruct (find _ (fst_partition_values stats)) as [pv|] eqn:Hf; [|done].
  apply find_some in Hf as [Hpv%list_elem_of_In [Hname%String.eqb_eq Hid%String.eqb_eq]%andb_true_iff]. simpl.
  destruct (pv_value pv) as [value|] eqn:Hval; [|done]. simpl in *.
  pose proof (fd_partitions _ _ Hd pv value row Hpv Hid Hval Hrow) as Hv. rw Hname in Hv.
  destruct (rp_eq f) as [x|]; [by rw -(compare_eq_l _ x value Heq) Hv|].
  destruct (rp_in_values f) as [xs|].
  - destruct Hin as (x & Hx & Hvx). apply existsb_exists. exists x. split; [by apply list_elem_of_In|].
    by rw -(compare_eq_l _ x value Hvx) Hv.
  - assert (Hc : ∀ x, compare_scalar_values value x = compare_scalar_values (row (rp_field f)) x).
    { intros x. symmetry. by apply compare_eq_l. }
    assert (Hex : ∀ o bad, holds o (λ x, bad (compare_scalar_values (row (rp_field f)) x) = false) →
                  excluded_by (Some value) o (λ v x, bad (compare_scalar_values v x)) = false).
    { intros [x|] bad; simpl; [by rw Hc|done]. }
    rw /partition_range_may_match !Hex //.
    + destruct (rp_gt f) as [x|]; [|done]. by rw /= Hgt.
    + destruct (rp_gte f) as [x|]; [|done]. simpl in Hgte |- *. rw /vle (compare_flip (row (rp_field f)) x) in Hgte.
      by destruct (compare_scalar_values _ x) as [[]|].
    + destruct (rp_lt f) as [x|]; [|done]. by rw /= Hlt.
    + destruct (rp_lte f) as [x|]; [|done]. simpl in Hlte |- *. rw /vle in Hlte. by destruct (compare_scalar_values _ x) as [[]|].
Qed.

(** ** Properties *)
Module PruningTheory.

(** The selection is exact: the chosen files are the candidates whose partition
    values and statistics admit the request, in their order, and the count agrees. *)
Theorem prune_candidate_files_exact cache files file_stats request :
  let p := prune_candidate_files cache files file_stats request in
  selected_files p = filter (λ f, file_kept file_stats request f = true) files ∧
  files_selected p = length (selected_files p).
Proof.
  simpl. destruct (prune_fold cache file_stats request files default_pruned) as [Hs Hn].
  rw /prune_candidate_files Hs Hn. done.
Qed.

Lemma matching_file_kept file_stats request file rows row :
  (∀ stats, file_stats !! file_path file = Some stats → file_described rows stats) →
  row ∈ rows → row_matches_as_floats (serving_request_predicates request) row → file_kept file_stats request file = true.
Proof.
  intros Hd Hrow Hm. rw /file_kept.
  destruct (file_stats !! file_path file) as [stats|]; [|done]. specialize (Hd stats eq_refl).
  assert (Hms : ∀ f, f ∈ rd_filters request → value_matches_as_floats (query_predicate f) (row (rp_field f))).
  { intros f Hin. rw /row_matches_as_floats /serving_request_predicates Forall_fmap Forall_forall in Hm. exact (Hm f Hin). }
  apply andb_true_iff. split.
  - apply forallb_forall. intros f Hin%list_elem_of_In. by apply (partition_kept rows stats row); [..|apply Hms].
  - pose proof (fd_groups _ _ Hd) as Hg. destruct (fst_row_groups stats) as [|rg0 rgs] eqn:Hrgs.
    + apply forallb_forall. intros p Hp%list_elem_of_In. rw /row_matches_as_floats Forall_forall in Hm.
      apply (columns_kept rows _ _ row p (fd_columns _ _ Hd) Hrow). by apply Hm.
    + destruct (Hg ltac:(done) row Hrow) as (rg & group & Hin & Hrg & Hdesc).
      apply existsb_exists. exists rg. split; [by apply list_elem_of_In|].
      apply forallb_forall. intros p Hp%list_elem_of_In. rw /row_matches_as_floats Forall_forall in Hm.
      apply (columns_kept group _ _ row p Hdesc Hrg). by apply Hm.
Qed.
(** C32. Pruning loses no answer: a candidate file with a row whose values satisfy every
    filter of the request, numbers compared as numbers, is selected, when what the table's
    metadata says of the file is true of its rows (identity partition values, null and row
    counts, bounds of the columns and of the row groups) and no integer of the rows, the
    filters and the metadata has more than 53 bits. *)
Theorem pruning_keeps_matching_files cache files file_stats request file rows row :
  file ∈ files →
  (∀ stats, file_stats !! file_path file = Some stats → file_true rows stats ∧ stats_fit stats) →
  (∀ row field, row ∈ rows → fits (row field)) → Forall (λ p, Forall fits (predicate_operands p)) (serving_request_predicates request) →
  row ∈ rows → row_matches (serving_request_predicates request) row →
  file ∈ selected_files (prune_candidate_files cache files file_stats request).
Proof.
  intros Hf Hd Hr Hp Hrow Hm. destruct (prune_fold cache file_stats request files default_pruned) as [Hs _].
  rw /prune_candidate_files Hs. apply list_elem_of_filter. split; [|done]. apply (matching_file_kept file_stats request file rows row); [|done|].
  - intros stats Hst. destruct (Hd stats Hst). by apply file_true_described.
  - rw /row_matches_as_floats. rw /row_matches in Hm. rw !Forall_forall in Hm, Hp |- *. intros p Hin. apply exact_matches; auto.
Qed.
End PruningTheory.

Module PruningDemo.
Import QueryPathDemo PruningTheory.

Definition demo_request : ReadPlan :=
  mkReadPlan None [mkReadPredicate "age" None None (Some (int 5)) None None None] None [] None 0 None false false.
Definition demo_file : FileDescriptor := mkFile "f" (mkSchema []) 10.
Definition demo_files : gmap string IcebergFileStats := {[ "f" := demo_stats 2 3 7 ]}.

Lemma pruning_keeps_matching_files_witness :
  demo_file ∈ selected_files (prune_candidate_files ∅ [demo_file] demo_files demo_request).
Proof.
  apply (pruning_keeps_matching_files ∅ [demo_file] demo_files demo_request demo_file [demo_row 3; demo_row 7] (demo_row 7)).
  - left.
  - intros stats [= <-]. split; [split; [intros ??? []%elem_of_nil|exact demo_true|done]|]. split_and!; repeat constructor; discriminate.
  - intros row field [->|[->|[]%elem_of_nil]%elem_of_cons]%elem_of_cons; rw /demo_row; destruct (String.eqb field "age"); cbn; lia.
  - repeat constructor; discriminate.
  - right. left.
  - repeat constructor. discriminate.
Defined.
End PruningDemo.
