(* ===== verification/Planner.v ===== *)
(** * Planning a serving query (query_core/src/serving_plan.rs, query_runtime/src/lakehouse_serving.rs)

    A serving request selects, filters, sorts or aggregates the rows of one table.  It is
    validated against the table's schema, turned into SQL text, matched against the
    query patterns the table declares, and classified: the fast path for a declared
    pattern within the budgets, the slow path or a rejection otherwise.  This file
    models those steps and their composition [plan_request]. *)

From S2P Require Import Prelude Text StableSort Json Schema FileSet Contract QueryPath Pruning.

Definition is_some {A} (o : option A) : bool := match o with Some _ => true | None => false end.

(** ** Requests *)

(** SRC query_core/src/serving_plan.rs:5-11 ServingQueryClassification *)
Inductive ServingQueryClassification : Type := FastPath | SlowPath | Rejected.

#[global] Instance ServingQueryClassification_eq_dec : EqDecision ServingQueryClassification.
Proof. solve_decision. Defined.

(** SRC query_core/src/serving_plan.rs:13-28= ServingPredicate *)
Record ServingPredicate : Type := mkServingPredicate {
  sv_field : string;
  sv_eq : option Value;
  sv_in_values : option (list Value);
  sv_gt : option Value;
  sv_gte : option Value;
  sv_lt : option Value;
  sv_lte : option Value;
}.

(** SRC query_core/src/serving_plan.rs:30-35 ServingSort *)
Record ServingSort : Type := mkServingSort { ss_field : string; ss_descending : bool }.

(** SRC query_core/src/serving_plan.rs:37-53 ServingRequestPlan *)
Record ServingRequestPlan : Type := mkServingRequest {
  sr_select : option (list string);
  sr_filters : list ServingPredicate;
  sr_aggregate : option ServingAggregateSpec;
  sr_order_by : list ServingSort;
  sr_limit : option nat;
  sr_allow_slow_path : bool;
  sr_explain : bool;
}.

(** SRC query_core/src/read_plan.rs:73-85= From<&ServingPredicate> for ReadPredicate *)
Definition read_predicate (p : ServingPredicate) : ReadPredicate :=
  mkReadPredicate (sv_field p) (sv_eq p) (sv_in_values p) (sv_gt p) (sv_gte p) (sv_lt p) (sv_lte p).

(** SRC query_core/src/read_plan.rs:101-108= From<&ServingSort> for ReadSort *)
Definition read_sort (s : ServingSort) : ReadSort := mkReadSort (ss_field s) (ss_descending s).

(** SRC query_core/src/read_plan.rs:110-124= From<&ServingRequestPlan> for ReadPlan *)
Definition read_plan (p : ServingRequestPlan) : ReadPlan :=
  mkReadPlan (sr_select p) (read_predicate <$> sr_filters p) (sr_aggregate p) (read_sort <$> sr_order_by p) (sr_limit p)
    0 None (sr_allow_slow_path p) (sr_explain p).

(** ** Errors and limits *)

(** SRC query_runtime/src/lakehouse_serving.rs:6098-6102 ServingQueryError *)
Record ServingQueryError : Type := mkServingQueryError { sqe_status : Z; sqe_message : string }.

Abbreviation srv := (result ServingQueryError).

(** [Err(ServingQueryError::new(StatusCode::BAD_REQUEST, message))] *)
Definition bad_request {A} (message : string) : srv A := Err (mkServingQueryError 400 message).

Definition DEFAULT_LIMIT : nat := 100.
Definition MAX_LIMIT : nat := 1000.
Definition MAX_IN_VALUES : nat := 32.
Definition DEFAULT_FAST_PATH_MAX_BYTES : Z := 128 * 1024 * 1024.
Definition DEFAULT_FAST_PATH_MAX_FILES : nat := 32.
Definition DEFAULT_FAST_PATH_MAX_ROW_GROUPS : nat := 128.
Definition DEFAULT_FAST_PATH_MAX_DELETE_FILES : nat := 8.
Definition DEFAULT_SLOW_PATH_MAX_BYTES : Z := 512 * 1024 * 1024.
Definition DEFAULT_SLOW_PATH_MAX_FILES : nat := 128.
Definition DEFAULT_SLOW_PATH_MAX_ROW_GROUPS : nat := 512.
Definition DEFAULT_SLOW_PATH_MAX_DELETE_FILES : nat := 64.

(** ** Validation *)

(** SRC query_runtime/src/lakehouse_serving.rs:6051-6057 normalized_select *)
Definition normalized_select (select : option (list string)) : option (list string) :=
  match select with
  | Some [field] => if decide (field = "*") then None else Some [field]
  | Some fields => Some fields
  | None => None
  end.

(** SRC query_runtime/src/lakehouse_serving.rs:4575-4613 validate_literal *)
Definition validate_literal (value : Value) (data_type : PowdrrDataType) (field_name : string) : srv () :=
  match data_type with
  | TBoolean => match value with VBool _ => Ok () | _ => bad_request ("Field " +:+ field_name +:+ " expects a boolean literal") end
  | TFloat | TInteger => match value with VNumber _ => Ok () | _ => bad_request ("Field " +:+ field_name +:+ " expects a numeric literal") end
  | TString => match value with VString _ => Ok () | _ => bad_request ("Field " +:+ field_name +:+ " expects a string literal") end
  | TObject _ | TArray _ | TNull => bad_request ("Field " +:+ field_name +:+ " is not supported by the serving MVP")
  end.

(** [usize::from(o.is_some())] *)
Definition count_some {A} (o : option A) : nat := if is_some o then 1 else 0.

Definition validate_option (value : option Value) (data_type : PowdrrDataType) (field_name : string) : srv () :=
  match value with Some value => validate_literal value data_type field_name | None => Ok () end.

(** [for value in values { check(value)?; }] *)
Definition for_each {E A} (check : A → result E ()) (l : list A) : result E () := foldM (λ _ a, check a) () l.

(** SRC query_runtime/src/lakehouse_serving.rs:4527-4573 validate_filter *)
Definition validate_filter (filter : ServingPredicate) (data_type : PowdrrDataType) : srv () :=
  let eq_like := count_some (sv_eq filter) + count_some (sv_in_values filter) in
  let range_like := count_some (sv_gt filter) + count_some (sv_gte filter) + count_some (sv_lt filter) + count_some (sv_lte filter) in
  if (eq_like =? 0) && (range_like =? 0) then bad_request ("Filter for " +:+ sv_field filter +:+ " has no operator")
  else if (1 <? eq_like) || ((0 <? eq_like) && (0 <? range_like)) then
    bad_request ("Filter for " +:+ sv_field filter +:+ " mixes incompatible operators")
  else
    _ ← match sv_in_values filter with
        | Some values =>
            if (length values =? 0) || (MAX_IN_VALUES <? length values) then
              bad_request ("IN filter for " +:+ sv_field filter +:+ " must have 1-32 values")
            else for_each (λ value, validate_literal value data_type (sv_field filter)) values
        | None => Ok ()
        end;
    _ ← validate_option (sv_eq filter) data_type (sv_field filter);
    for_each (λ range_value, validate_option range_value data_type (sv_field filter))
      [sv_gt filter; sv_gte filter; sv_lt filter; sv_lte filter].

(** SRC query_runtime/src/lakehouse_serving.rs:4716-4732 validate_scalar_serving_field_type *)
Definition validate_scalar_serving_field_type (data_type : PowdrrDataType) (field_name : string) : srv () :=
  match data_type with
  | TBoolean | TFloat | TInteger | TString => Ok ()
  | TObject _ | TArray _ | TNull => bad_request ("Field " +:+ field_name +:+ " is not supported by the serving MVP")
  end.

(** SRC query_runtime/src/lakehouse_serving.rs:4734-4743 normalized_aggregate_function *)
Definition normalized_aggregate_function (function : string) : option string :=
  let f := to_ascii_lowercase function in
  if decide (f ∈ ["count"; "sum"; "avg"; "min"; "max"]) then Some f else None.

(** SRC query_runtime/src/lakehouse_serving.rs:4745-4750 aggregate_measure_signature_with_function *)
Definition aggregate_measure_signature_with_function (measure : ServingAggregateMeasure) (function : string) : srv (string * option string) :=
  Ok (function, sam_field measure).

(** SRC query_runtime/src/lakehouse_serving.rs:4752-4785 aggregate_measure_alias_with_function *)
Definition aggregate_measure_alias_with_function (measure : ServingAggregateMeasure) (function : string) : srv string :=
  match sam_alias measure with
  | Some alias => if decide (alias = "") then bad_request "Aggregate measure aliases must not be empty" else Ok alias
  | None =>
      if decide (function = "count") then Ok "count"
      else if decide (function ∈ ["sum"; "avg"; "min"; "max"]) then
        field ← ok_or (sam_field measure) (bad_request (to_ascii_uppercase function +:+ " serving measures require a field"));
        Ok (function +:+ "_" +:+ field)
      else bad_request ("Unsupported aggregate function " +:+ sam_function measure)
  end.

Section validation.
Context (schema_map : gmap string PowdrrField).

(** One round of the loop over the GROUP BY fields; [seen] is the set of earlier ones. *)
Definition validate_group_by (seen : list string) (field_name : string) : srv (list string) :=
  if decide (field_name ∈ seen) then bad_request ("Duplicate aggregate GROUP BY field " +:+ field_name)
  else
    field ← ok_or (schema_map !! field_name) (bad_request ("Unknown aggregate GROUP BY field " +:+ field_name));
    _ ← validate_scalar_serving_field_type (data_type field) field_name;
    Ok (field_name :: seen).

(** SRC query_runtime/src/lakehouse_serving.rs:4669-4710= validate_aggregate_request, the match on the function *)
Definition validate_measure_field (measure : ServingAggregateMeasure) (function : string) : srv () :=
  if decide (function = "count") then
    match sam_field measure with Some _ => bad_request "COUNT serving measures do not take a field" | None => Ok () end
  else
    field_name ← ok_or (sam_field measure) (bad_request (to_ascii_uppercase function +:+ " serving measures require a field"));
    field ← ok_or (schema_map !! field_name) (bad_request ("Unknown aggregate field " +:+ field_name));
    _ ← validate_scalar_serving_field_type (data_type field) field_name;
    if decide (function ∈ ["sum"; "avg"]) then
      match data_type field with
      | TFloat | TInteger => Ok ()
      | _ => bad_request (to_ascii_uppercase function +:+ " aggregate field " +:+ field_name +:+ " must be numeric")
      end
    else Ok ().

(** One round of the loop over the measures; the sets of aliases and signatures so far. *)
Definition validate_measure (seen : list string * list (string * option string)) (measure : ServingAggregateMeasure) : srv (list string * list (string * option string)) :=
  let '(seen_aliases, seen_signatures) := seen in
  function ← ok_or (normalized_aggregate_function (sam_function measure))
               (bad_request ("Unsupported aggregate function " +:+ sam_function measure));
  alias ← aggregate_measure_alias_with_function measure function;
  if decide (alias ∈ seen_aliases) then bad_request "Aggregate measure aliases must be unique"
  else
    signature ← aggregate_measure_signature_with_function measure function;
    if decide (signature ∈ seen_signatures) then bad_request "Duplicate aggregate measures are not supported"
    else
      _ ← validate_measure_field measure function;
      Ok (alias :: seen_aliases, signature :: seen_signatures).

(** SRC query_runtime/src/lakehouse_serving.rs:4615-4668= validate_aggregate_request *)
Definition validate_aggregate_request (aggregate : ServingAggregateSpec) : srv () :=
  if decide (sas_measures aggregate = []) then bad_request "Aggregate serving queries must declare at least one measure"
  else
    _ ← foldM validate_group_by [] (sas_group_by aggregate);
    _ ← foldM validate_measure ([], []) (sas_measures aggregate);
    Ok ().

(** One round of the loop over the filters. *)
Definition validate_filter_field (seen_filter_fields : list string) (filter : ServingPredicate) : srv (list string) :=
  if decide (sv_field filter ∈ seen_filter_fields) then bad_request "Duplicate filters on the same field are not supported"
  else
    field ← ok_or (schema_map !! sv_field filter) (bad_request ("Unknown filter field " +:+ sv_field filter));
    _ ← validate_filter filter (data_type field);
    Ok (sv_field filter :: seen_filter_fields).
End validation.

(** SRC query_runtime/src/lakehouse_serving.rs:4445-4525 validate_request *)
Definition validate_request (request : ServingRequestPlan) (schema : PowdrrSchema) : srv () :=
  let schema_map := to_map schema in
  if 1 <? length (sr_order_by request) then bad_request "Only one ORDER BY field is supported in the serving MVP"
  else
    _ ← match normalized_select (sr_select request) with
        | Some select_fields =>
            for_each (λ field, if is_some (schema_map !! field) then Ok () else bad_request ("Unknown select field " +:+ field)) select_fields
        | None => Ok ()
        end;
    _ ← (if is_some (sr_aggregate request) then
           if is_some (sr_select request) then bad_request "Aggregate serving queries do not support select"
           else if decide (sr_order_by request = []) then Ok ()
           else bad_request "Aggregate serving queries do not support ORDER BY yet"
         else Ok ());
    _ ← for_each (λ sort, if is_some (schema_map !! ss_field sort) then Ok () else bad_request ("Unknown sort field " +:+ ss_field sort))
          (sr_order_by request);
    _ ← foldM (validate_filter_field schema_map) [] (sr_filters request);
    _ ← match sr_aggregate request with Some aggregate => validate_aggregate_request schema_map aggregate | None => Ok () end;
    if MAX_LIMIT <? default DEFAULT_LIMIT (sr_limit request) then bad_request "Limit must be <= 1000" else Ok ().

(** ** Declared patterns *)

Definition predicate_uses_eq (f : ReadPredicate) : bool := is_some (rp_eq f) || is_some (rp_in_values f).
Definition predicate_uses_range (f : ReadPredicate) : bool :=
  is_some (rp_gt f) || is_some (rp_gte f) || is_some (rp_lt f) || is_some (rp_lte f).

(** The same function under both names: equal, for known functions. *)
Definition same_measure (left right : ServingAggregateMeasure) : bool :=
  match normalized_aggregate_function (sam_function left), normalized_aggregate_function (sam_function right) with
  | Some left_function, Some right_function =>
      bool_decide (left_function = right_function) && bool_decide (sam_field left = sam_field right)
  | _, _ => false
  end.

(** SRC query_runtime/src/lakehouse_serving.rs:4787-4814 aggregate_specs_match *)
Definition aggregate_specs_match (request pattern : option ServingAggregateSpec) : bool :=
  match request, pattern with
  | None, None => true
  | Some request, Some pattern =>
      bool_decide (sas_group_by request = sas_group_by pattern)
      && (length (sas_measures request) =? length (sas_measures pattern))
      && forallb (λ lr, same_measure lr.1 lr.2) (zip (sas_measures request) (sas_measures pattern))
  | _, _ => false
  end.

(** SRC query_runtime/src/lakehouse_serving.rs:4816-4822 request_supported *)
Definition request_supported (request : ReadPlan) : bool :=
  if is_some (rd_aggregate request) then bool_decide (rd_order_by request = []) else length (rd_order_by request) <=? 1.

(** SRC query_runtime/src/lakehouse_serving.rs:4824-4834 sort_order_matches_request *)
Definition sort_order_matches_request (sort_order : list IcebergSortField) (request : ReadPlan) : bool :=
  match rd_order_by request, sort_order with
  | request_sort :: _, sort_field :: _ =>
      String.eqb (sf_transform sort_field) "identity" && String.eqb (sf_source_field_name sort_field) (rs_field request_sort)
      && Bool.eqb (sf_descending sort_field) (rs_descending request_sort)
  | _, _ => false
  end.

(** The filter uses no operator on its field that the pattern does not declare. *)
Definition filter_fits_pattern (pattern : ServingPattern) (filter : ReadPredicate) : bool :=
  if predicate_uses_eq filter && negb (bool_decide (rp_field filter ∈ sp_eq_fields pattern)) then false
  else negb (predicate_uses_range filter && negb (bool_decide (sp_range_field pattern = Some (rp_field filter)))).

(** SRC query_runtime/src/lakehouse_serving.rs:4836-4900 request_matches_pattern *)
Definition request_matches_pattern (request : ReadPlan) (pattern : ServingPattern) (limit : nat) : bool :=
  if match sp_max_limit pattern with Some max_limit => (max_limit <? Z.of_nat limit)%Z | None => false end then false
  else if match normalized_select (rd_select request), sp_projection pattern with
          | Some select_fields, Some projection => negb (forallb (λ field, bool_decide (field ∈ projection)) select_fields)
          | _, projection => negb (is_some (rd_select request)) && is_some projection
          end then false
  else if negb (aggregate_specs_match (rd_aggregate request) (sp_aggregate pattern)) then false
  else if match sp_order_field pattern with
          | Some order_field =>
              match rd_order_by request with
              | sort :: _ => negb (String.eqb (rs_field sort) order_field && Bool.eqb (rs_descending sort) (sp_descending pattern))
              | [] => true
              end
          | None => negb (bool_decide (rd_order_by request = []))
          end then false
  else if negb (forallb (filter_fits_pattern pattern) (rd_filters request)) then false
  else
    let seen_fields := rp_field <$> rd_filters request in
    if negb (forallb (λ field, bool_decide (field ∈ seen_fields)) (sp_eq_fields pattern)) then false
    else match sp_range_field pattern with
         | Some range_field => bool_decide (range_field ∈ seen_fields)
         | None => true
         end.

(** SRC query_runtime/src/lakehouse_serving.rs:4902-4928 warmup_request_for_pattern *)
Definition warmup_request_for_pattern (pattern : ServingPattern) : option (ServingRequestPlan * nat) :=
  order_field ← sp_order_field pattern;
  if decide (sp_eq_fields pattern ≠ [] ∨ is_some (sp_range_field pattern) = true ∨ is_some (sp_aggregate pattern) = true) then None
  else
    let limit := Z.to_nat (Z.min (Z.max 1 (default (Z.of_nat DEFAULT_LIMIT) (sp_max_limit pattern))) (Z.of_nat MAX_LIMIT)) in
    Some (mkServingRequest (sp_projection pattern) [] None [mkServingSort order_field (sp_descending pattern)] (Some limit) false false, limit).

(** ** Access artifacts *)

Definition ACCESS_ARTIFACT_KIND_EXACT_INDEX : string := "exact-index".
Definition ACCESS_ARTIFACT_KIND_EXACT_PRUNING : string := "exact-pruning".
Definition ACCESS_ARTIFACT_KIND_PARTITION_SPEC : string := "partition-spec".
Definition ACCESS_ARTIFACT_KIND_SECONDARY_PATTERN : string := "secondary-pattern".
Definition ACCESS_ARTIFACT_KIND_SORT_ORDER : string := "sort-order".

(** SRC query_runtime/src/lakehouse_serving.rs:5425-5430 secondary_pattern_artifact_name *)
Definition secondary_pattern_artifact_name (pattern_name : string) : string :=
  ACCESS_ARTIFACT_KIND_SECONDARY_PATTERN +:+ ":" +:+ pattern_name.

(** The artifact serves a filter, the sort or the aggregate of the request. *)
Definition artifact_applies (request : ReadPlan) (declared_sort_order_match : bool) (artifact : IcebergAccessArtifact) : bool :=
  let has f := bool_decide (f ∈ aa_fields artifact) in
  existsb (λ predicate, has (rp_field predicate)
             && ((predicate_uses_eq predicate && aa_supports_eq artifact) || (predicate_uses_range predicate && aa_supports_range artifact)))
    (rd_filters request)
  || match head (rd_order_by request) with
     | Some sort => aa_supports_order artifact && declared_sort_order_match && has (rs_field sort)
     | None => false
     end
  || match rd_aggregate request with
     | Some aggregate =>
         existsb has (sas_group_by aggregate)
         || existsb (λ measure, match sam_field measure with Some field => has field | None => false end) (sas_measures aggregate)
     | None => false
     end.

(** SRC query_runtime/src/lakehouse_serving.rs:4965-5031 applicable_artifacts_for_request *)
Definition applicable_artifacts_for_request (request : ReadPlan) (patterns : list ServingPattern) (artifacts : list IcebergAccessArtifact)
    (declared_sort_order_match : bool) : list string :=
  let limit := Nat.min (default DEFAULT_LIMIT (rd_limit request)) MAX_LIMIT in
  foldl (λ matched artifact,
    if decide (aa_kind artifact = ACCESS_ARTIFACT_KIND_SECONDARY_PATTERN) then
      match strip_prefix (ACCESS_ARTIFACT_KIND_SECONDARY_PATTERN +:+ ":") (aa_name artifact) with
      | None => matched
      | Some pattern_name =>
          if existsb (λ pattern, String.eqb (sp_name pattern) pattern_name && request_matches_pattern request pattern limit) patterns
          then push_unique_string matched (aa_name artifact) else matched
      end
    else if artifact_applies request declared_sort_order_match artifact then push_unique_string matched (aa_name artifact)
    else matched) [] artifacts.

(** SRC query_runtime/src/lakehouse_serving.rs:5237-5255 exact_artifact_fields *)
Definition exact_artifact_fields (schema : PowdrrSchema) : list string :=
  omap (λ field, match data_type field with TBoolean | TFloat | TInteger | TString => Some (name field) | _ => None end) (fields schema).

Definition compare_artifacts (left right : IcebergAccessArtifact) : comparison := String.compare (aa_name left) (aa_name right).

(** Every file has an extension file of the suffix. *)
Definition complete_sidecar (suffix : string) (files : list FileDescriptor) (extension_files : gmap string (list ExtensionFile)) : bool :=
  forallb (λ file, match extension_files !! file_path file with
                   | Some files => existsb (λ extension, String.eqb (ef_suffix extension) suffix) files
                   | None => false
                   end) files.

Definition append_exact_artifact (kind suffix : string) (files : list FileDescriptor) (extension_files : gmap string (list ExtensionFile))
    (fields : list string) (access_artifacts : list IcebergAccessArtifact) : list IcebergAccessArtifact :=
  if complete_sidecar suffix files extension_files && negb (existsb (λ artifact, String.eqb (aa_name artifact) kind) access_artifacts)
  then access_artifacts ++ [mkAccessArtifact kind kind fields true true false false] else access_artifacts.

(** SRC query_runtime/src/lakehouse_serving.rs:5278-5335 append_exact_sidecar_artifacts *)
Definition append_exact_sidecar_artifacts (access_artifacts : list IcebergAccessArtifact) (files : list FileDescriptor)
    (extension_files : gmap string (list ExtensionFile)) (fields : list string) : list IcebergAccessArtifact :=
  if decide (fields = []) then access_artifacts
  else
    let a := append_exact_artifact ACCESS_ARTIFACT_KIND_EXACT_PRUNING "exact_pruning" files extension_files fields access_artifacts in
    let a := append_exact_artifact ACCESS_ARTIFACT_KIND_EXACT_INDEX "exact_index" files extension_files fields a in
    sort_by compare_artifacts a.

(** SRC query_runtime/src/lakehouse_serving.rs:5376-5381 pattern_is_secondary *)
Definition pattern_is_secondary (pattern : ServingPattern) : bool :=
  negb (is_some (sp_aggregate pattern))
  && ((1 <? length (sp_eq_fields pattern)) || is_some (sp_range_field pattern)
      || (negb (bool_decide (sp_eq_fields pattern = [])) && is_some (sp_order_field pattern))).

(** SRC query_runtime/src/lakehouse_serving.rs:5403-5414 artifact_supports_field_for_eq *)
Definition artifact_supports_field_for_eq (access_artifacts : list IcebergAccessArtifact) (field : string) : bool :=
  existsb (λ artifact, aa_supports_eq artifact && bool_decide (field ∈ aa_fields artifact)
             && bool_decide (aa_kind artifact ∈ [ACCESS_ARTIFACT_KIND_EXACT_INDEX; ACCESS_ARTIFACT_KIND_EXACT_PRUNING; ACCESS_ARTIFACT_KIND_PARTITION_SPEC]))
    access_artifacts.

(** SRC query_runtime/src/lakehouse_serving.rs:5416-5423 artifact_supports_field_for_range *)
Definition artifact_supports_field_for_range (access_artifacts : list IcebergAccessArtifact) (field : string) : bool :=
  existsb (λ artifact, aa_supports_range artifact && bool_decide (field ∈ aa_fields artifact)) access_artifacts.

(** SRC query_runtime/src/lakehouse_serving.rs:4307-4312 sort_order_supports_field *)
Definition sort_order_supports_field (sort_order : list IcebergSortField) (sort_field : string) : bool :=
  match sort_order with
  | field :: _ => String.eqb (sf_transform field) "identity" && String.eqb (sf_source_field_name field) sort_field
  | [] => false
  end.

(** SRC query_runtime/src/lakehouse_serving.rs:5383-5401 secondary_pattern_is_supported *)
Definition secondary_pattern_is_supported (pattern : ServingPattern) (access_artifacts : list IcebergAccessArtifact) (sort_order : list IcebergSortField) : bool :=
  forallb (λ field, artifact_supports_field_for_eq access_artifacts field || artifact_supports_field_for_range access_artifacts field) (sp_eq_fields pattern)
  && match sp_range_field pattern with Some field => artifact_supports_field_for_range access_artifacts field | None => true end
  && match sp_order_field pattern with Some field => sort_order_supports_field sort_order field | None => true end.

(** One round of the loop over the declared patterns. *)
Definition append_secondary_pattern (sort_order : list IcebergSortField) (access_artifacts : list IcebergAccessArtifact) (pattern : ServingPattern) : list IcebergAccessArtifact :=
  let name := secondary_pattern_artifact_name (sp_name pattern) in
  if negb (pattern_is_secondary pattern) then access_artifacts
  else if negb (secondary_pattern_is_supported pattern access_artifacts sort_order) then access_artifacts
  else if existsb (λ artifact, String.eqb (aa_name artifact) name) access_artifacts then access_artifacts
  else
    let push fields o := match o with Some field => push_unique_string fields field | None => fields end in
    let fields := push (push (sp_eq_fields pattern) (sp_range_field pattern)) (sp_order_field pattern) in
    access_artifacts ++ [mkAccessArtifact name ACCESS_ARTIFACT_KIND_SECONDARY_PATTERN fields false
                           (negb (bool_decide (sp_eq_fields pattern = []))) (is_some (sp_range_field pattern)) (is_some (sp_order_field pattern))].

(** SRC query_runtime/src/lakehouse_serving.rs:5337-5374 append_secondary_pattern_artifacts *)
Definition append_secondary_pattern_artifacts (access_artifacts : list IcebergAccessArtifact) (serving : ServingTableConfig) (sort_order : list IcebergSortField) : list IcebergAccessArtifact :=
  sort_by compare_artifacts (foldl (append_secondary_pattern sort_order) access_artifacts (stc_patterns serving)).

(** ** SQL text *)

(** The double quote and the single quote. *)
Definition dquote : string := String "034" "".
Definition squote : string := "'".

(** SRC query_runtime/src/lakehouse_serving.rs:6094-6096 escape_identifier *)
Definition escape_identifier (identifier : string) : string := replace dquote (dquote +:+ dquote) identifier.

(** [format!("t.\"{}\"", escape_identifier(field))] *)
Definition quoted_field (field : string) : string := "t." +:+ dquote +:+ escape_identifier field +:+ dquote.

Definition show_nat (n : nat) : string := print_int (Z.of_nat n).

Section sql.
Context `{ft : FloatText}.

(** SRC query_runtime/src/lakehouse_serving.rs:6035-6049 sql_literal *)
Definition sql_literal (value : Value) : srv string :=
  match value with
  | VString text => Ok (squote +:+ replace squote (squote +:+ squote) text +:+ squote)
  | VNumber number => Ok (number_to_string number)
  | VBool boolean => Ok (if boolean then "TRUE" else "FALSE")
  | _ => bad_request "Only scalar literals are supported in serving queries"
  end.

(** SRC query_runtime/src/lakehouse_serving.rs:6006-6033 sql_for_filter *)
Definition sql_for_filter (filter : ReadPredicate) : srv string :=
  let field := quoted_field (rp_field filter) in
  match rp_eq filter with
  | Some value => literal ← sql_literal value; Ok (field +:+ " = " +:+ literal)
  | None =>
      match rp_in_values filter with
      | Some values => sql_values ← try_collect sql_literal values; Ok (field +:+ " IN (" +:+ join ", " sql_values +:+ ")")
      | None =>
          parts ← try_collect (λ part : string * Value, literal ← sql_literal part.2; Ok (field +:+ " " +:+ part.1 +:+ " " +:+ literal))
            (omap (λ part : string * option Value, pair part.1 <$> part.2)
               [(">", rp_gt filter); (">=", rp_gte filter); ("<", rp_lt filter); ("<=", rp_lte filter)]);
          Ok (join " AND " parts)
      end
  end.

Definition delete_join : string := " LEFT JOIN {deletes_table} dt ON dt._id_seq_no = t." +:+ dquote +:+ "_id_seq_no" +:+ dquote.

(** The part of the statement the two builders share: the table, the join with the
    deletes and the conditions. *)
Definition sql_from_where (select table_name : string) (where_clauses : list string) (include_delete_filter : bool) : string :=
  let where_clauses := where_clauses ++ (if include_delete_filter then ["dt._id_seq_no IS NULL"] else []) in
  "SELECT " +:+ select +:+ " FROM " +:+ table_name +:+ " t" +:+ (if include_delete_filter then delete_join else "") +:+
  (if decide (where_clauses = []) then "" else " WHERE " +:+ join " AND " where_clauses).

(** SRC query_runtime/src/lakehouse_serving.rs:294-301 AggregateFunction *)
Inductive AggregateFunction : Type := ACount | ASum | AAvg | AMin | AMax.

(** SRC query_runtime/src/lakehouse_serving.rs:285-292 AggregateMeasurePlan *)
Record AggregateMeasurePlan : Type := mkMeasurePlan {
  amp_function : AggregateFunction;
  amp_field : option string;
  amp_alias : string;
  amp_partial_value_alias : string;
  amp_partial_count_alias : option string;
}.

(** [match function { "count" => AggregateFunction::Count, .. , _ => unreachable!() }] *)
Definition aggregate_function (function : string) : srv AggregateFunction :=
  if decide (function = "count") then Ok ACount
  else if decide (function = "sum") then Ok ASum
  else if decide (function = "avg") then Ok AAvg
  else if decide (function = "min") then Ok AMin
  else if decide (function = "max") then Ok AMax
  else Panic "internal error: entered unreachable code".

(** SRC query_runtime/src/lakehouse_serving.rs:5969-6004 aggregate_measure_plans *)
Definition aggregate_measure_plans (aggregate : ServingAggregateSpec) : srv (list AggregateMeasurePlan) :=
  try_collect (λ measure,
    function ← ok_or (normalized_aggregate_function (sam_function measure)) (bad_request ("Unsupported aggregate function " +:+ sam_function measure));
    alias ← aggregate_measure_alias_with_function measure function;
    function ← aggregate_function function;
    Ok (mkMeasurePlan function (sam_field measure) alias ("__partial_value_" +:+ alias)
          (match function with AAvg => Some ("__partial_count_" +:+ alias) | _ => None end))) (sas_measures aggregate).

(** [format!("F({}) AS \"{}\"", argument, escape_identifier(alias))] *)
Definition aggregate_column (function argument alias : string) : string :=
  function +:+ "(" +:+ argument +:+ ") AS " +:+ dquote +:+ escape_identifier alias +:+ dquote.

(** SRC query_runtime/src/lakehouse_serving.rs:5875-5927= build_aggregate_sql, the columns of a measure *)
Definition measure_columns (partial : bool) (plan : AggregateMeasurePlan) : srv (list string) :=
  let alias := if partial then amp_partial_value_alias plan else amp_alias plan in
  match amp_function plan with
  | ACount => Ok [aggregate_column "COUNT" "*" alias]
  | ASum => field ← unwrap (amp_field plan); Ok [aggregate_column "SUM" (quoted_field field) alias]
  | AAvg =>
      field ← unwrap (amp_field plan);
      if partial then
        count_alias ← unwrap (amp_partial_count_alias plan);
        Ok [aggregate_column "SUM" (quoted_field field) alias; aggregate_column "COUNT" (quoted_field field) count_alias]
      else Ok [aggregate_column "AVG" (quoted_field field) alias]
  | AMin => field ← unwrap (amp_field plan); Ok [aggregate_column "MIN" (quoted_field field) alias]
  | AMax => field ← unwrap (amp_field plan); Ok [aggregate_column "MAX" (quoted_field field) alias]
  end.

(** SRC query_runtime/src/lakehouse_serving.rs:5855-5967 build_aggregate_sql *)
Definition build_aggregate_sql (table_name : string) (request : ReadPlan) (limit : nat) (include_delete_filter partial : bool) : srv string :=
  aggregate ← ok_or (rd_aggregate request) (bad_request "Aggregate serving query is missing aggregate specification");
  plans ← aggregate_measure_plans aggregate;
  columns ← try_collect (measure_columns partial) plans;
  let group_by := quoted_field <$> sas_group_by aggregate in
  where_clauses ← try_collect sql_for_filter (rd_filters request);
  Ok (sql_from_where (join ", " (group_by ++ concat columns)) table_name where_clauses include_delete_filter +:+
      (if decide (sas_group_by aggregate = []) then "" else " GROUP BY " +:+ join ", " group_by) +:+
      " LIMIT " +:+ show_nat (if decide (sas_group_by aggregate = []) then 1 else limit)).

(** SRC query_runtime/src/lakehouse_serving.rs:5806-5853 build_sql *)
Definition build_sql (table_name : string) (request : ReadPlan) (limit : nat) (include_delete_filter : bool) : srv string :=
  if is_some (rd_aggregate request) then build_aggregate_sql table_name request limit include_delete_filter false
  else
    let select :=
      match normalized_select (rd_select request) with
      | Some select_fields => join ", " (quoted_field <$> select_fields)
      | None => if include_delete_filter then "t.*" else "*"
      end in
    where_clauses ← try_collect sql_for_filter (rd_filters request);
    Ok (sql_from_where select table_name where_clauses include_delete_filter +:+
        match rd_order_by request with
        | sort :: _ => " ORDER BY " +:+ quoted_field (rs_field sort) +:+ " " +:+ (if rs_descending sort then "DESC" else "ASC")
        | [] => ""
        end +:+
        " LIMIT " +:+ show_nat limit).
End sql.

(** ** Classification *)

(** SRC query_runtime/src/lakehouse_serving.rs:243-258 ServingExecutionContext *)
Record ServingExecutionContext : Type := mkServingContext {
  sx_description : TableDescription;
  sx_checkpoint : CheckpointDescriptor;
  sx_schema : PowdrrSchema;
  sx_files : list FileDescriptor;
  sx_speedboat_files : list FileDescriptor;
  sx_delete_files : list string;
  sx_file_stats : gmap string IcebergFileStats;
  sx_partition_spec : list IcebergPartitionField;
  sx_sort_order : list IcebergSortField;
  sx_access_artifacts : list IcebergAccessArtifact;
  sx_extension_files : gmap string (list ExtensionFile);
  sx_exact_artifact_fields : list string;
  sx_snapshot_id : option string;
  sx_metadata_snapshot_cached : bool;
}.

(** [context.description.serving.clone().unwrap_or_default().patterns] *)
Definition declared_patterns (context : ServingExecutionContext) : list ServingPattern :=
  match td_serving (sx_description context) with Some serving => stc_patterns serving | None => [] end.

(** SRC query_runtime/src/lakehouse_serving.rs:5222-5228 identity_partition_fields *)
Definition identity_partition_fields (partition_spec : list IcebergPartitionField) : list string :=
  pf_source_field_name <$> filter (λ field, pf_transform field = "identity") partition_spec.

(** SRC query_runtime/src/lakehouse_serving.rs:5230-5235 has_exact_artifact *)
Definition has_exact_artifact (artifacts : list string) : bool :=
  existsb (λ artifact, String.eqb artifact ACCESS_ARTIFACT_KIND_EXACT_PRUNING || String.eqb artifact ACCESS_ARTIFACT_KIND_EXACT_INDEX) artifacts.

(** SRC query_runtime/src/lakehouse_serving.rs:5432-5434 request_uses_exact_filters *)
Definition request_uses_exact_filters (request : ReadPlan) : bool := uses_exact_filters request.

(** SRC query_runtime/src/lakehouse_serving.rs:5153-5220 suggested_actions_for_request *)
Definition suggested_actions_for_request (context : ServingExecutionContext) (request : ReadPlan) (declared_sort_order_match : bool)
    (artifacts_considered : list string) : list string :=
  let missing_partition_fields :=
    filter (λ field, field ∉ identity_partition_fields (sx_partition_spec context))
      (rp_field <$> filter (λ predicate, predicate_uses_eq predicate = true) (rd_filters request)) in
  let limit := Nat.min (default DEFAULT_LIMIT (rd_limit request)) MAX_LIMIT in
  (if decide (missing_partition_fields = []) then [] else ["cluster or partition hot data on " +:+ join ", " missing_partition_fields]) ++
  (if request_uses_exact_filters request && negb (has_exact_artifact artifacts_considered)
   then ["publish exact_pruning or exact_index sidecars for exact-match fields"] else []) ++
  (if is_some (rd_aggregate request) then ["declare aggregate fragments or a bitmap/rollup artifact for this aggregate pattern"] else []) ++
  match find (λ pattern, request_matches_pattern request pattern limit) (declared_patterns context) with
  | Some pattern =>
      if negb (bool_decide (secondary_pattern_artifact_name (sp_name pattern) ∈ artifacts_considered)) && negb (is_some (rd_aggregate request))
      then ["build a declared secondary serving artifact for pattern " +:+ sp_name pattern] else []
  | None => []
  end ++
  match rd_order_by request with
  | sort :: _ => if negb declared_sort_order_match then ["rewrite or compact files with Iceberg sort order on " +:+ rs_field sort] else []
  | [] => []
  end ++
  (if DEFAULT_FAST_PATH_MAX_DELETE_FILES <? length (sx_delete_files context)
   then ["compact or apply delete files to reduce delete-join overhead"] else []).

(** SRC query_runtime/src/lakehouse_serving.rs:5122-5151 format_admission_reason *)
Definition format_admission_reason (prefix : string) (context : ServingExecutionContext) (request : ReadPlan) (declared_sort_order_match : bool)
    (artifacts_considered : list string) (pruned : PrunedFileSelection) : string :=
  let suggestions := suggested_actions_for_request context request declared_sort_order_match artifacts_considered in
  prefix +:+ ": estimated " +:+ print_int (estimated_bytes pruned) +:+ " bytes across " +:+ show_nat (files_selected pruned) +:+
  " files and " +:+ show_nat (row_groups_selected pruned) +:+ " row groups with " +:+ show_nat (length (sx_delete_files context)) +:+ " delete files." +:+
  (if decide (suggestions = []) then "" else " Suggested action: " +:+ join "; " suggestions +:+ ".").

(** [files.iter().map(|file| file.size).sum::<u64>()] *)
Definition total_size (files : list FileDescriptor) : Z := foldl (λ acc file, wrap_u64 (acc + file_size file)) 0%Z files.

(** Whether a selection is above a set of limits. *)
Definition exceeds_budget (context : ServingExecutionContext) (pruned : PrunedFileSelection) (max_bytes : Z) (max_files max_row_groups max_delete_files : nat) : bool :=
  (max_bytes <? wrap_u64 (estimated_bytes pruned + total_size (sx_speedboat_files context)))%Z
  || (max_files <? files_selected pruned + length (sx_speedboat_files context))
  || (max_row_groups <? row_groups_selected pruned) || (max_delete_files <? length (sx_delete_files context)).

Definition exceeds_fast_budget (context : ServingExecutionContext) (pruned : PrunedFileSelection) : bool :=
  exceeds_budget context pruned DEFAULT_FAST_PATH_MAX_BYTES DEFAULT_FAST_PATH_MAX_FILES DEFAULT_FAST_PATH_MAX_ROW_GROUPS DEFAULT_FAST_PATH_MAX_DELETE_FILES.
Definition exceeds_slow_budget (context : ServingExecutionContext) (pruned : PrunedFileSelection) : bool :=
  exceeds_budget context pruned DEFAULT_SLOW_PATH_MAX_BYTES DEFAULT_SLOW_PATH_MAX_FILES DEFAULT_SLOW_PATH_MAX_ROW_GROUPS DEFAULT_SLOW_PATH_MAX_DELETE_FILES.

(** SRC query_runtime/src/lakehouse_serving.rs:5033-5120 classify_request_with_admission *)
Definition classify_request_with_admission (context : ServingExecutionContext) (request : ReadPlan) (matched_pattern : option string)
    (declared_sort_order_match : bool) (artifacts_considered : list string) (pruned : PrunedFileSelection) : ServingQueryClassification * option string :=
  let reason prefix := Some (format_admission_reason prefix context request declared_sort_order_match artifacts_considered pruned) in
  if is_some (rd_aggregate request) && negb (is_some matched_pattern) then (Rejected, reason "No declared aggregate serving pattern matched this query")
  else if exceeds_slow_budget context pruned then (Rejected, reason "Query exceeds serving budget")
  else if is_some matched_pattern && negb (exceeds_fast_budget context pruned) then (FastPath, None)
  else if is_some matched_pattern then (SlowPath, reason "Matched serving pattern but exceeds fast-path budget")
  else (SlowPath, reason "No declared serving pattern matched this query").

(** ** Planning *)

(** SRC query_runtime/src/lakehouse_serving.rs:260-283 ServingPlan *)
Record ServingPlan : Type := mkServingPlan {
  pl_classification : ServingQueryClassification;
  pl_matched_pattern : option string;
  pl_reason : option string;
  pl_limit : nat;
  pl_sql : string;
  pl_selected_files : list FileDescriptor;
  pl_files_considered : nat;
  pl_files_selected : nat;
  pl_row_groups_considered : nat;
  pl_row_groups_selected : nat;
  pl_delete_files_considered : nat;
  pl_estimated_bytes : Z;
  pl_partition_fields_available : nat;
  pl_sort_fields_available : nat;
  pl_declared_sort_order_match : bool;
  pl_metadata_snapshot_cached : bool;
  pl_metadata_files_cached : nat;
  pl_metadata_row_groups_cached : nat;
  pl_page_index_row_groups_selected : nat;
  pl_bloom_filter_row_groups_selected : nat;
  pl_artifacts_considered : list string;
  pl_artifacts_used : list string;
}.

Section planning.
Context `{ft : FloatText} (metadata_cache : gmap string nat).

(** The plan of a request of an unsupported shape. *)
Definition rejected_plan (context : ServingExecutionContext) (limit : nat) (sql : string) (declared_sort_order_match : bool)
    (artifacts_considered : list string) : ServingPlan :=
  mkServingPlan Rejected None (Some "Unsupported serving query shape") limit sql []
    (length (sx_files context) + length (sx_speedboat_files context)) 0 0 0 (length (sx_delete_files context)) 0
    (length (sx_partition_spec context)) (length (sx_sort_order context)) declared_sort_order_match (sx_metadata_snapshot_cached context)
    0 0 0 0 artifacts_considered [].

(** SRC query_runtime/src/lakehouse_serving.rs:1318-1414 plan_request *)
Definition plan_request (context : ServingExecutionContext) (request : ReadPlan) : srv ServingPlan :=
  let limit := normalized_limit request DEFAULT_LIMIT MAX_LIMIT in
  sql ← build_sql "{table}" request limit (negb (bool_decide (sx_delete_files context = [])));
  let declared_sort_order_match := sort_order_matches_request (sx_sort_order context) request in
  let matched_pattern := sp_name <$> find (λ pattern, request_matches_pattern request pattern limit) (declared_patterns context) in
  let artifacts_considered :=
    applicable_artifacts_for_request request (declared_patterns context) (sx_access_artifacts context) declared_sort_order_match in
  if negb (request_supported request) then Ok (rejected_plan context limit sql declared_sort_order_match artifacts_considered)
  else
    let pruned := prune_candidate_files metadata_cache (sx_files context) (sx_file_stats context) request in
    let used :=
      if declared_sort_order_match
      then foldl push_unique_string (artifacts_used pruned) (filter (λ artifact, starts_with ACCESS_ARTIFACT_KIND_SORT_ORDER artifact = true) artifacts_considered)
      else artifacts_used pruned in
    let '(classification, reason) :=
      classify_request_with_admission context request matched_pattern declared_sort_order_match artifacts_considered pruned in
    Ok (mkServingPlan classification matched_pattern reason limit sql (selected_files pruned)
          (length (sx_files context) + length (sx_speedboat_files context)) (files_selected pruned + length (sx_speedboat_files context))
          (row_groups_considered pruned) (row_groups_selected pruned) (length (sx_delete_files context))
          (wrap_u64 (estimated_bytes pruned + total_size (sx_speedboat_files context)))
          (length (sx_partition_spec context)) (length (sx_sort_order context)) declared_sort_order_match (sx_metadata_snapshot_cached context)
          (metadata_files_cached pruned) (metadata_row_groups_cached pruned) (page_index_row_groups_selected pruned)
          (bloom_filter_row_groups_selected pruned) artifacts_considered used).
End planning.
