(* ===== verification/SqlText.v ===== *)
(** * Reading the SQL of a serving query back (query_runtime/src/lakehouse_serving.rs)

    The planner pastes field names and values into SQL text.  A reader of SQL's quoting
    rules gives the statement back: whatever bytes a name or a value has, the text says
    what the request says and nothing else. *)

From S2P Require Import Prelude Text StableSort Json Schema FileSet Contract QueryPath Pruning Planner.

(** ** A reader *)

(** The rest of a quoted literal or identifier: up to the next quote that is not
    doubled; a doubled quote stands for one. *)
Fixpoint read_quoted (q : Ascii.ascii) (s : string) : option (string * string) :=
  match s with
  | EmptyString => None
  | String a s1 =>
      if Ascii.eqb a q then
        match s1 with
        | String b s2 => if Ascii.eqb b q then '(text, rest) ← read_quoted q s2; Some (String q text, rest) else Some ("", s1)
        | EmptyString => Some ("", "")
        end
      else '(text, rest) ← read_quoted q s1; Some (String a text, rest)
  end.

(** The longest prefix of characters that pass the test. *)
Fixpoint read_while (p : Ascii.ascii → bool) (s : string) : string * string :=
  match s with
  | EmptyString => ("", "")
  | String a s1 => if p a then let '(text, rest) := read_while p s1 in (String a text, rest) else ("", s)
  end.

Inductive SqlLiteral : Type := LText (text : string) | LBare (text : string).

Inductive SqlCondition : Type :=
| CCompare (field operator : string) (literal : SqlLiteral)
| CIn (field : string) (literals : list SqlLiteral)
| CNotDeleted.

Definition read_literal (s : string) : option (SqlLiteral * string) :=
  match strip_prefix squote s with
  | Some s => '(text, rest) ← read_quoted "'" s; Some (LText text, rest)
  | None => let '(text, rest) := read_while bare_char s in if decide (text = "") then None else Some (LBare text, rest)
  end.

(** A list of one or more items. *)
Fixpoint read_list {A} (fuel : nat) (separator : string) (item : string → option (A * string)) (s : string) : option (list A * string) :=
  match fuel with
  | O => None
  | S fuel =>
      '(a, s) ← item s;
      match strip_prefix separator s with
      | Some s => '(l, s) ← read_list fuel separator item s; Some (a :: l, s)
      | None => Some ([a], s)
      end
  end.

Definition read_field (s : string) : option (string * string) :=
  s ← strip_prefix ("t." +:+ dquote) s; read_quoted "034" s.

Definition not_deleted : string := "dt._id_seq_no IS NULL".

Definition read_condition (s : string) : option (SqlCondition * string) :=
  match strip_prefix not_deleted s with
  | Some rest => Some (CNotDeleted, rest)
  | None =>
      '(field, s) ← read_field s;
      match strip_prefix " IN (" s with
      | Some s =>
          '(literals, s) ← read_list (String.length s) ", " read_literal s;
          s ← strip_prefix ")" s; Some (CIn field literals, s)
      | None =>
          s ← strip_prefix " " s;
          let '(operator, s) := read_while (λ a, negb (Ascii.eqb a " ")) s in
          s ← strip_prefix " " s;
          '(literal, s) ← read_literal s; Some (CCompare field operator literal, s)
      end
  end.

(** The columns of a SELECT: all, or a list. *)
Definition read_columns (s : string) : option (option (list string) * string) :=
  match strip_prefix "*" s with
  | Some s => Some (None, s)
  | None =>
      match strip_prefix "t.*" s with
      | Some s => Some (None, s)
      | None => '(fields, s) ← read_list (String.length s) ", " read_field s; Some (Some fields, s)
      end
  end.

Record SqlSelect : Type := mkSqlSelect {
  sql_columns : option (list string);
  sql_table : string;
  sql_conditions : list SqlCondition;
  sql_order : option (string * string);
  sql_limit : string;
}.

Definition read_order (s : string) : option (option (string * string) * string) :=
  match strip_prefix " ORDER BY " s with
  | Some s =>
      '(field, s) ← read_field s; s ← strip_prefix " " s;
      let '(direction, s) := read_while bare_char s in Some (Some (field, direction), s)
  | None => Some (None, s)
  end.

Definition read_select (s : string) : option SqlSelect :=
  s ← strip_prefix "SELECT " s;
  '(columns, s) ← read_columns s;
  s ← strip_prefix " FROM " s;
  let '(table, s) := read_while (λ a, negb (Ascii.eqb a " ")) s in
  s ← strip_prefix " t" s;
  let s := default s (strip_prefix delete_join s) in
  '(conditions, s) ← match strip_prefix " WHERE " s with
                     | Some s => read_list (String.length s) " AND " read_condition s
                     | None => Some ([], s)
                     end;
  '(order, s) ← read_order s;
  s ← strip_prefix " LIMIT " s;
  Some (mkSqlSelect columns table conditions order s).

(** ** What a request says *)

Section meaning.
Context `{ft : FloatText}.

Definition literal_of (value : Value) : SqlLiteral :=
  match value with
  | VString text => LText text
  | VNumber number => LBare (number_to_string number)
  | VBool boolean => LBare (if boolean then "TRUE" else "FALSE")
  | _ => LBare ""
  end.

(** The comparisons a filter makes, in the order of the text. *)
Definition conditions_of (filter : ReadPredicate) : list SqlCondition :=
  match rp_eq filter with
  | Some value => [CCompare (rp_field filter) "=" (literal_of value)]
  | None =>
      match rp_in_values filter with
      | Some values => [CIn (rp_field filter) (literal_of <$> values)]
      | None => omap (λ part : string * option Value, (λ value, CCompare (rp_field filter) part.1 (literal_of value)) <$> part.2)
                  [(">", rp_gt filter); (">=", rp_gte filter); ("<", rp_lt filter); ("<=", rp_lte filter)]
      end
  end.

Definition select_of (table : string) (request : ReadPlan) (limit : nat) (include_delete_filter : bool) : SqlSelect :=
  mkSqlSelect (normalized_select (rd_select request)) table
    ((rd_filters request ≫= conditions_of) ++ (if include_delete_filter then [CNotDeleted] else []))
    ((λ sort, (rs_field sort, if rs_descending sort then "DESC" else "ASC")) <$> head (rd_order_by request))
    (show_nat limit).

(** A filter that reads as a condition: some operator, and values to choose from. *)
Definition has_operator (filter : ReadPredicate) : Prop := conditions_of filter ≠ [] ∧ rp_in_values filter ≠ Some [].
End meaning.

Module SqlTheory.

(** ** Tokens read back *)

Lemma strip_prefix_app p s : strip_prefix p (p +:+ s) = Some s.
Proof. induction p as [|a p IH]; [done|]. rw str_app_cons. cbn [strip_prefix]. by rw Ascii.eqb_refl. Qed.

(** What follows a text: its first character. *)
Definition starts_with_char (p : Ascii.ascii → bool) (s : string) : bool :=
  match s with EmptyString => false | String a _ => p a end.

Lemma read_quoted_app q text rest :
  starts_with_char (Ascii.eqb q) rest = false →
  read_quoted q (double_char q text +:+ String q rest) = Some (text, rest).
Proof.
  intros Hr. induction text as [|a text IH].
  - change (double_char q "" +:+ String q rest) with (String q rest). cbn [read_quoted]. rw Ascii.eqb_refl. destruct rest as [|b rest]; [done|].
    simpl in Hr. by rw (Ascii.eqb_sym b q) Hr.
  - cbn [double_char]. destruct (Ascii.eqb_spec a q) as [->|Hne]; rw !str_app_cons; cbn [read_quoted].
    + rw !Ascii.eqb_refl. by rw IH.
    + destruct (Ascii.eqb_spec a q); [done|]. by rw IH.
Qed.

Lemma read_while_app p text rest :
  all_chars p text = true → starts_with_char p rest = false → read_while p (text +:+ rest) = (text, rest).
Proof.
  intros Ht Hr. induction text as [|a text IH].
  - change ("" +:+ rest) with rest. destruct rest as [|b rest]; [done|]. simpl in *. by rw Hr.
  - rw str_app_cons. simpl in *. apply andb_true_iff in Ht as [-> Ht]. by rw IH.
Qed.

(** ** Items read back *)
Section items.
Context `{ft : FloatText, !FloatTextLaws ft}.

(** What may follow a literal. *)
Definition ends_literal (s : string) : Prop := starts_with_char (λ a, bare_char a || Ascii.eqb "'" a) s = false.

Lemma number_bare n : number_to_string n ≠ "" ∧ all_chars bare_char (number_to_string n) = true.
Proof.
  destruct n as [n|n|f]; simpl; [..|apply print_f64_bare].
  all: destruct (print_int_all bare_char n) as [? ?]; [done|intros a Ha; by rw /bare_char Ha|done].
Qed.

Lemma read_bare text rest :
  text ≠ "" → all_chars bare_char text = true → ends_literal rest → read_literal (text +:+ rest) = Some (LBare text, rest).
Proof.
  intros Hne Ht Hr. rw /read_literal. assert (Hs : strip_prefix squote (text +:+ rest) = None).
  { destruct text as [|a text]; [done|]. rw str_app_cons. simpl in Ht. apply andb_true_iff in Ht as [Ha _].
    cbn [strip_prefix squote]. destruct (Ascii.eqb_spec "'" a) as [<-|]; [done|done]. }
  rw Hs read_while_app //; [|by destruct (decide (text = ""))].
  destruct rest as [|b rest]; [done|]. rw /ends_literal /= in Hr. by apply orb_false_iff in Hr as [? _].
Qed.

Lemma read_literal_app value literal rest :
  sql_literal value = Ok literal → ends_literal rest → read_literal (literal +:+ rest) = Some (literal_of value, rest).
Proof.
  intros Hl Hr. destruct value as [|b|n|text| |]; simpl in Hl; try done; injection Hl as <-.
  - destruct b; by apply read_bare.
  - by apply read_bare; [apply number_bare..|].
  - rw /read_literal !str_app_assoc strip_prefix_app. rw /squote (replace_double "'" text). rw /= read_quoted_app //.
    destruct rest as [|b rest]; [done|]. rw /ends_literal /= in Hr. by apply orb_false_iff in Hr as [_ ?].
Qed.

Lemma read_field_app field rest :
  starts_with_char (Ascii.eqb "034") rest = false → read_field (quoted_field field +:+ rest) = Some (field, rest).
Proof.
  intros Hr. rw /read_field /quoted_field. rw !str_app_assoc.
  change ("t." +:+ dquote +:+ escape_identifier field +:+ dquote +:+ rest) with (("t." +:+ dquote) +:+ (escape_identifier field +:+ dquote +:+ rest)).
  rw strip_prefix_app. cbn [mbind option_bind]. rw /escape_identifier. change (dquote +:+ dquote) with (String "034" (String "034" "")).
  rw /dquote replace_double. by apply read_quoted_app.
Qed.

(** A list of items reads back when each one does before whatever may follow it. *)
Lemma read_list_app {A} (item : string → option (A * string)) sep (ok : string → Prop) (texts : list string) (l : list A) rest fuel :
  Forall2 (λ text a, ∀ rest, ok rest → item (text +:+ rest) = Some (a, rest)) texts l →
  texts ≠ [] → length texts ≤ fuel → ok rest → (∀ s, ok (sep +:+ s)) → strip_prefix sep rest = None →
  read_list fuel sep item (join sep texts +:+ rest) = Some (l, rest).
Proof.
  intros Hl Hne Hf Hrest Hsep Hstop. revert fuel Hf Hne. induction Hl as [|text a texts l Ht Hl IH]; intros fuel Hf Hne; [done|].
  destruct fuel as [|fuel]; simpl in Hf; [lia|]. destruct texts as [|text2 texts].
  - inversion Hl; subst. simpl. rw Ht //=. by rw Hstop.
  - change (join sep (text :: text2 :: texts)) with (text +:+ sep +:+ join sep (text2 :: texts)). rw !str_app_assoc.
    cbn [read_list]. rw Ht; [apply Hsep|]. cbn [mbind option_bind]. rw strip_prefix_app IH //. simpl in *. lia.
Qed.

Definition comparison_operators : list string := ["="; ">"; ">="; "<"; "<="].

Lemma read_condition_field field s :
  starts_with_char (Ascii.eqb "034") s = false →
  read_condition (quoted_field field +:+ s) =
  match strip_prefix " IN (" s with
  | Some s =>
      '(literals, s) ← read_list (String.length s) ", " read_literal s;
      s ← strip_prefix ")" s; Some (CIn field literals, s)
  | None =>
      s ← strip_prefix " " s;
      let '(operator, s) := read_while (λ a, negb (Ascii.eqb a " ")) s in
      s ← strip_prefix " " s;
      '(literal, s) ← read_literal s; Some (CCompare field operator literal, s)
  end.
Proof.
  intros Hs. rw /read_condition. assert (Hn : strip_prefix not_deleted (quoted_field field +:+ s) = None).
  { rw /quoted_field !str_app_assoc. done. }
  by rw Hn read_field_app.
Qed.

Lemma read_compare field op value literal rest :
  op ∈ comparison_operators → sql_literal value = Ok literal → ends_literal rest →
  read_condition ((quoted_field field +:+ " " +:+ op +:+ " " +:+ literal) +:+ rest) = Some (CCompare field op (literal_of value), rest).
Proof.
  intros Hop Hl Hr. rw (str_app_assoc (quoted_field field)) (str_app_assoc " ") (str_app_assoc op) (str_app_assoc " ").
  rw read_condition_field //.
  assert (Hin : strip_prefix " IN (" (" " +:+ op +:+ " " +:+ literal +:+ rest) = None).
  { repeat (apply elem_of_cons in Hop as [->|Hop]; [done|]). by apply elem_of_nil in Hop. }
  rw Hin strip_prefix_app. cbn [mbind option_bind]. rw read_while_app //.
  { repeat (apply elem_of_cons in Hop as [->|Hop]; [done|]). by apply elem_of_nil in Hop. }
  rw strip_prefix_app. cbn [mbind option_bind]. by rw (read_literal_app value).
Qed.

Lemma join_length sep texts rest : Forall (λ t, t ≠ "") texts → length texts ≤ String.length (join sep texts +:+ rest).
Proof.
  intros Ht. rw str_length_app. assert (length texts ≤ String.length (join sep texts)); [|lia].
  induction Ht as [|t texts Hne Ht IH]; [done|]. destruct t as [|a t]; [done|]. destruct texts as [|t2 texts]; [simpl; lia|].
  change (join sep (String a t :: t2 :: texts)) with (String a t +:+ sep +:+ join sep (t2 :: texts)).
  rw !str_length_app. simpl in *. lia.
Qed.

Lemma literal_nonempty value literal : sql_literal value = Ok literal → literal ≠ "".
Proof.
  destruct value as [|b|n|text| |]; simpl; intros Hl; try done; injection Hl as <-; [by destruct b|apply number_bare|done].
Qed.

Lemma read_in field values literals rest :
  values ≠ [] → try_collect sql_literal values = Ok literals →
  read_condition ((quoted_field field +:+ " IN (" +:+ join ", " literals +:+ ")") +:+ rest) = Some (CIn field (literal_of <$> values), rest).
Proof.
  intros Hne Hl. rw (str_app_assoc (quoted_field field)) (str_app_assoc " IN (") (str_app_assoc (join ", " literals)).
  rw read_condition_field // strip_prefix_app. cbn [mbind option_bind].
  apply try_collect_Ok in Hl. assert (Hlen : literals ≠ []). { intros ->. by inversion Hl; subst. }
  rw (read_list_app _ _ ends_literal literals (literal_of <$> values)) //.
  - apply Forall2_fmap_r. apply Forall2_flip. eapply Forall2_impl; [exact Hl|]. intros v l Hv rest' Hr. by apply read_literal_app.
  - apply join_length. apply Forall_forall. intros l Hin. apply list_elem_of_lookup in Hin as [i Hi].
    destruct (Forall2_lookup_r _ _ _ _ _ Hl Hi) as (v & _ & Hv). by apply (literal_nonempty v).
Qed.

(** The texts of a filter's comparisons. *)
Lemma filter_texts filter clause :
  sql_for_filter filter = Ok clause → has_operator filter →
  ∃ texts, clause = join " AND " texts ∧ texts ≠ [] ∧ Forall (λ t, t ≠ "") texts ∧
    Forall2 (λ text c, ∀ rest, ends_literal rest → read_condition (text +:+ rest) = Some (c, rest)) texts (conditions_of filter).
Proof.
  rw /sql_for_filter /has_operator /conditions_of. intros Hc [Hop Hin]. destruct (rp_eq filter) as [value|].
  { apply bind_Ok_inv in Hc as (literal & Hl & [= <-]). exists [quoted_field (rp_field filter) +:+ " = " +:+ literal].
    split_and!; [done|done|by repeat constructor|]. constructor; [|done]. intros rest Hr.
    apply (read_compare _ "="); [left|done..]. }
  destruct (rp_in_values filter) as [values|].
  { apply bind_Ok_inv in Hc as (literals & Hl & [= <-]). exists [quoted_field (rp_field filter) +:+ " IN (" +:+ join ", " literals +:+ ")"].
    split_and!; [done|done|by repeat constructor|]. constructor; [|done]. intros rest Hr. apply read_in; [naive_solver|done]. }
  apply bind_Ok_inv in Hc as (texts & Hl & [= <-]). exists texts.
  assert (H2 : Forall2 (λ text c, text ≠ "" ∧ ∀ rest, ends_literal rest → read_condition (text +:+ rest) = Some (c, rest)) texts
     (omap (λ part : string * option Value, (λ value, CCompare (rp_field filter) part.1 (literal_of value)) <$> part.2)
        [(">", rp_gt filter); (">=", rp_gte filter); ("<", rp_lt filter); ("<=", rp_lte filter)])).
  { clear Hop Hin. revert texts Hl.
    assert (Hops : Forall (λ part : string * option Value, part.1 ∈ comparison_operators)
       [(">", rp_gt filter); (">=", rp_gte filter); ("<", rp_lt filter); ("<=", rp_lte filter)]).
    { repeat constructor; rw /comparison_operators; set_solver. }
    induction Hops as [|[op [value|]] parts Hop _ IH]; simpl; intros texts Hl; [injection Hl as <-; constructor| |by apply IH].
    apply bind_Ok_inv in Hl as (text & Ht & Hl). apply bind_Ok_inv in Ht as (literal & Hlit & [= <-]).
    apply bind_Ok_inv in Hl as (texts' & Hl & [= <-]). constructor; [|by apply IH]. split; [done|]. intros rest Hr. by apply read_compare. }
  split_and!; [done| | |].
  - intros ->. apply Hop. by apply Forall2_nil_inv_l in H2.
  - clear -H2. induction H2; constructor; naive_solver.
  - eapply Forall2_impl; [exact H2|]. naive_solver.
Qed.
Definition reads_as (text : string) (c : SqlCondition) : Prop := ∀ rest, ends_literal rest → read_condition (text +:+ rest) = Some (c, rest).

Lemma join_app sep l1 l2 : l1 ≠ [] → l2 ≠ [] → join sep (l1 ++ l2) = join sep l1 +:+ sep +:+ join sep l2.
Proof.
  intros H1 H2. induction l1 as [|t l1 IH]; [done|]. destruct l1 as [|t1 l1].
  - by destruct l2.
  - change (join sep ((t :: t1 :: l1) ++ l2)) with (t +:+ sep +:+ join sep ((t1 :: l1) ++ l2)).
    change (join sep (t :: t1 :: l1)) with (t +:+ sep +:+ join sep (t1 :: l1)). by rw IH // !str_app_assoc.
Qed.

(** The clauses of the filters are one list of comparisons. *)
Lemma filters_texts filters clauses :
  try_collect sql_for_filter filters = Ok clauses → Forall has_operator filters →
  ∃ texts, join " AND " texts = join " AND " clauses ∧ (texts = [] ↔ clauses = []) ∧ Forall (λ t, t ≠ "") texts ∧
    Forall2 reads_as texts (filters ≫= conditions_of).
Proof.
  intros Hc%try_collect_Ok Hf. induction Hc as [|filter clause filters clauses Hc Hcs IH]; [by exists []|].
  apply Forall_cons in Hf as [Hf Hfs]. destruct (IH Hfs) as (texts & Hj & Hn & Hne & Hr).
  destruct (filter_texts filter clause Hc Hf) as (texts1 & -> & Hne1 & Hs1 & Hr1). exists (texts1 ++ texts). split_and!.
  - destruct texts as [|t texts].
    + rw app_nil_r. by destruct clauses; [|naive_solver].
    + rw join_app // Hj. destruct clauses; [naive_solver|done].
  - split; [|done]. intros [? ?]%app_eq_nil. done.
  - by apply Forall_app.
  - rw bind_cons. by apply Forall2_app.
Qed.

Lemma read_where clauses filters del tail :
  try_collect sql_for_filter filters = Ok clauses → Forall has_operator filters → clauses ++ (if del : bool then [not_deleted] else []) ≠ [] →
  ends_literal tail → strip_prefix " AND " tail = None →
  let s := join " AND " (clauses ++ (if del then [not_deleted] else [])) +:+ tail in
  read_list (String.length s) " AND " read_condition s =
  Some ((filters ≫= conditions_of) ++ (if del then [CNotDeleted] else []), tail).
Proof.
  intros Hc Hf Hne Ht Ha s. destruct (filters_texts _ _ Hc Hf) as (texts & Hj & Hn & Hs & Hr).
  set (all := texts ++ (if del then [not_deleted] else [])).
  assert (Hall : Forall2 reads_as all ((filters ≫= conditions_of) ++ (if del then [CNotDeleted] else []))).
  { apply Forall2_app; [done|]. destruct del; constructor; [|done]. intros rest _. done. }
  assert (Hs' : s = join " AND " all +:+ tail).
  { rw /s /all. f_equal. destruct del; [|by rw !app_nil_r Hj]. destruct texts as [|t texts].
    - by destruct clauses; [|naive_solver].
    - rw !join_app //; [naive_solver|]. by rw Hj. }
  rw Hs'. apply (read_list_app _ _ ends_literal); [exact Hall| |apply join_length|done|done|done].
  - rw /all. destruct del; [by destruct texts|]. rw app_nil_r in Hne. rw app_nil_r. naive_solver.
  - apply Forall_app. split; [done|]. by destruct del; repeat constructor.
Qed.

Definition order_text (request : ReadPlan) : string :=
  match rd_order_by request with
  | sort :: _ => " ORDER BY " +:+ quoted_field (rs_field sort) +:+ " " +:+ (if rs_descending sort then "DESC" else "ASC")
  | [] => ""
  end.

Lemma read_order_text request s :
  read_order (order_text request +:+ " LIMIT " +:+ s) =
  Some ((λ sort, (rs_field sort, if rs_descending sort then "DESC" else "ASC")) <$> head (rd_order_by request), " LIMIT " +:+ s).
Proof.
  rw /read_order /order_text. destruct (rd_order_by request) as [|sort l]; [done|].
  rw (str_app_assoc " ORDER BY ") (str_app_assoc (quoted_field _)) (str_app_assoc " ") strip_prefix_app. cbn [mbind option_bind].
  rw read_field_app //. cbn [mbind option_bind]. rw strip_prefix_app. cbn [mbind option_bind]. rw read_while_app //. by destruct (rs_descending sort).
Qed.

Lemma tail_concrete request s :
  let tail := order_text request +:+ " LIMIT " +:+ s in
  ends_literal tail ∧ strip_prefix " AND " tail = None ∧ strip_prefix " WHERE " tail = None ∧ strip_prefix delete_join tail = None.
Proof. rw /order_text. destruct (rd_order_by request) as [|sort l]; [done|]. by rw (str_app_assoc " ORDER BY "). Qed.

Lemma read_columns_text (request : ReadPlan) (del : bool) s :
  rd_select request ≠ Some [] →
  read_columns (match normalized_select (rd_select request) with
                | Some select_fields => join ", " (quoted_field <$> select_fields)
                | None => if del then "t.*" else "*"
                end +:+ " FROM " +:+ s) = Some (normalized_select (rd_select request), " FROM " +:+ s).
Proof.
  intros Hne. destruct (normalized_select (rd_select request)) as [fields|] eqn:Hs; [|by destruct del].
  assert (Hf : fields ≠ []).
  { intros ->. rw /normalized_select in Hs. destruct (rd_select request) as [[|f [|g l]]|]; [done| |done|done]. by case_match. }
  assert (Hp : ∀ s, strip_prefix "*" (join ", " (quoted_field <$> fields) +:+ s) = None ∧
                 strip_prefix "t.*" (join ", " (quoted_field <$> fields) +:+ s) = None).
  { intros s'. destruct fields as [|f [|g l]]; [done|..]; cbn [fmap list_fmap join]; rw {1 2}/quoted_field !str_app_assoc; done. }
  rw /read_columns. destruct (Hp (" FROM " +:+ s)) as [-> ->].
  rw (read_list_app _ _ (λ s, starts_with_char (Ascii.eqb "034") s = false) _ fields) //.
  - apply Forall2_fmap_l. apply Forall_Forall2_diag, Forall_true. intros f rest Hr. by apply read_field_app.
  - by destruct fields.
  - apply join_length. apply Forall_fmap, Forall_true. done.
Qed.

(** C30. The SQL of a row query says what the request says: read with SQL's quoting
    rules, the statement has the request's columns, the comparisons of its filters with
    the values as they are, its order and limit, and the delete filter when there are
    deletes, and nothing else, whatever bytes the names and values contain. *)
Theorem serving_sql_reads_back table request limit del sql :
  rd_aggregate request = None → rd_select request ≠ Some [] → Forall has_operator (rd_filters request) →
  all_chars (λ a, negb (Ascii.eqb a " ")) table = true →
  build_sql table request limit del = Ok sql → read_select sql = Some (select_of table request limit del).
Proof.
  intros Hagg Hsel Hop Htable Hsql. rw /build_sql Hagg in Hsql. apply bind_Ok_inv in Hsql as (clauses & Hc & [= <-]).
  rw -/(order_text request). set (tail := order_text request +:+ " LIMIT " +:+ show_nat limit).
  destruct (tail_concrete request (show_nat limit)) as (Hend & Hand & Hwhere & Hdel).
  rw /sql_from_where. set (all := clauses ++ _). set (columns := match normalized_select _ with Some _ => _ | None => _ end).
  rw (str_app_assoc "SELECT ") (str_app_assoc columns) (str_app_assoc " FROM ") (str_app_assoc table) (str_app_assoc " t").
  rw /read_select strip_prefix_app. cbn [mbind option_bind]. rw read_columns_text //. cbn [mbind option_bind].
  rw strip_prefix_app. cbn [mbind option_bind]. rw read_while_app // strip_prefix_app. cbn [mbind option_bind].
  assert (Hjoin : ∀ s, strip_prefix delete_join s = None →
    default ((if del then delete_join else "") +:+ s) (strip_prefix delete_join ((if del then delete_join else "") +:+ s)) = s).
  { intros s Hs. destruct del; [by rw strip_prefix_app|]. change ("" +:+ s) with s. by rw Hs. }
  rw (str_app_assoc (if del then delete_join else "")) Hjoin.
  { destruct (decide (all = [])); [exact Hdel|done]. }
  destruct (decide (all = [])) as [Hall|Hall].
  - change ("" +:+ tail) with tail. rw Hwhere. cbn [mbind option_bind]. rw read_order_text. cbn [mbind option_bind].
    rw strip_prefix_app. cbn [mbind option_bind]. rw /select_of. do 2 f_equal.
    apply app_eq_nil in Hall as [-> Hd]. destruct del; [done|]. apply try_collect_Ok in Hc. by inversion Hc.
  - rw (str_app_assoc " WHERE ") strip_prefix_app (read_where _ (rd_filters request)) //. cbn [mbind option_bind].
    rw read_order_text. cbn [mbind option_bind]. by rw strip_prefix_app.
Qed.
End items.
End SqlTheory.

Module SqlDemo.
Import FloatTextDemo SqlTheory.

Definition hostile : string := "x'; DROP TABLE t; --".

Definition demo_request : ReadPlan :=
  mkReadPlan (Some ["name"; "a" +:+ dquote +:+ "b"])
    [mkReadPredicate "name" (Some (VString hostile)) None None None None None;
     mkReadPredicate "age" None None (Some (int 3)) None None (Some (int 9));
     mkReadPredicate "city" None (Some [VString "Aix"; VString "L'Isle"]) None None None None]
    None [mkReadSort "age" true] (Some 10) 0 None false false.

Lemma hostile_text_is_quoted :
  build_sql "{table}" demo_request 10 true =
  Ok ("SELECT t." +:+ dquote +:+ "name" +:+ dquote +:+ ", t." +:+ dquote +:+ "a" +:+ dquote +:+ dquote +:+ "b" +:+ dquote +:+
      " FROM {table} t" +:+ delete_join +:+ " WHERE t." +:+ dquote +:+ "name" +:+ dquote +:+ " = 'x''; DROP TABLE t; --' AND t." +:+
      dquote +:+ "age" +:+ dquote +:+ " > 3 AND t." +:+ dquote +:+ "age" +:+ dquote +:+ " <= 9 AND t." +:+
      dquote +:+ "city" +:+ dquote +:+ " IN ('Aix', 'L''Isle') AND dt._id_seq_no IS NULL ORDER BY t." +:+
      dquote +:+ "age" +:+ dquote +:+ " DESC LIMIT 10").
Proof. vm_compute. reflexivity. Qed.

Lemma serving_sql_reads_back_witness :
  ∃ sql, build_sql "{table}" demo_request 10 true = Ok sql ∧ read_select sql = Some (select_of "{table}" demo_request 10 true).
Proof.
  eexists. split; [exact hostile_text_is_quoted|].
  apply (serving_sql_reads_back "{table}" demo_request 10 true); [reflexivity|discriminate| |reflexivity|exact hostile_text_is_quoted].
  repeat constructor; discriminate.
Defined.

(** The table name is put in by replacing the text [{table}], and then [{target_table}],
    also inside a value: a search for that very text searches for the name of a
    temporary table. *)
Lemma placeholder_in_value_replaced :
  ∃ sql, build_sql "{table}" (mkReadPlan None [mkReadPredicate "name" (Some (VString "{table}")) None None None None None] None [] None 0 None false false)
           100 false = Ok sql ∧
    sql_conditions <$> read_select (replace "{target_table}" "t_1" (replace "{table}" "{target_table}" sql)) = Some [CCompare "name" "=" (LText "t_1")].
Proof. eexists. split; vm_compute; reflexivity. Qed.
End SqlDemo.
