(* ===== verification/PlannerTheory.v ===== *)
(** * What planning a serving query guarantees (query_runtime/src/lakehouse_serving.rs)

    A request that passes validation is planned without an error or a panic, and its
    class is decided by the declared patterns and the budgets alone. *)

From S2P Require Import Prelude Text StableSort Json Schema FileSet Contract QueryPath Pruning Planner.

Module PlannerTheory.

(** ** Validated parts have SQL *)

Lemma foldM_each {E A B} (f : A → B → result E A) l a r : foldM f a l = Ok r → Forall (λ b, ∃ a a', f a b = Ok a') l.
Proof.
  revert a. induction l as [|b l IH]; intros a H; simpl in H; [constructor|].
  apply bind_Ok_inv in H as (a' & Ha & H). constructor; [by exists a, a'|exact (IH a' H)].
Qed.

Lemma for_each_Ok {E A} (check : A → result E ()) l : for_each check l = Ok () → Forall (λ a, check a = Ok ()) l.
Proof.
  intros H%foldM_each. eapply Forall_impl; [exact H|]. intros a ([] & [] & Ha). done.
Qed.

Lemma try_collect_total {E A B} (f : A → result E B) l : Forall (λ a, ∃ b, f a = Ok b) l → ∃ l', try_collect f l = Ok l'.
Proof. induction 1 as [|a l [b Hb] _ [l' Hl]]; [by exists []|]. exists (b :: l'). simpl. by rw Hb bind_Ok Hl. Qed.

Section sql.
Context `{ft : FloatText}.

Lemma literal_has_sql v t f : validate_literal v t f = Ok () → ∃ text, sql_literal v = Ok text.
Proof. destruct t, v; simpl; try done; intros _; by eexists. Qed.

Lemma option_has_sql o t f : validate_option o t f = Ok () → ∀ v, o = Some v → ∃ text, sql_literal v = Ok text.
Proof. intros H v ->. by apply literal_has_sql in H. Qed.

Lemma filter_has_sql filter t : validate_filter filter t = Ok () → ∃ clause, sql_for_filter (read_predicate filter) = Ok clause.
Proof.
  rw /validate_filter /sql_for_filter. destruct (_ && _); [done|]. destruct (_ || _); [done|]. intros Hv. apply bind_Ok_inv in Hv as ([] & Hin & Hv).
  apply bind_Ok_inv in Hv as ([] & Heq & Hr). apply for_each_Ok in Hr. cbn [rp_eq rp_in_values rp_gt rp_gte rp_lt rp_lte rp_field read_predicate].
  destruct (sv_eq filter) as [v|]. { apply literal_has_sql in Heq as [text ->]. by eexists. }
  destruct (sv_in_values filter) as [vs|].
  { case_match; [done|]. apply for_each_Ok in Hin. destruct (try_collect_total sql_literal vs) as [l ->]; [|by eexists].
    eapply Forall_impl; [exact Hin|]. intros v Hv. by apply literal_has_sql in Hv. }
  apply Forall_cons in Hr as [Hgt Hr]. apply Forall_cons in Hr as [Hgte Hr]. apply Forall_cons in Hr as [Hlt Hr]. apply Forall_cons in Hr as [Hlte _].
  pose proof (option_has_sql _ _ _ Hgt) as H1. pose proof (option_has_sql _ _ _ Hgte) as H2.
  pose proof (option_has_sql _ _ _ Hlt) as H3. pose proof (option_has_sql _ _ _ Hlte) as H4.
  match goal with |- ∃ c, (_ ← try_collect ?f ?l; _) = _ => assert (Hl : ∃ parts, try_collect f l = Ok parts) end.
  { apply try_collect_total. apply Forall_forall. intros [op v] Hv. simpl.
    assert (Hs : ∃ text, sql_literal v = Ok text); [|destruct Hs as [text ->]; by eexists].
    apply list_elem_of_omap in Hv as ([op' o] & Ho & Hs). simpl in Hs. destruct o as [v'|]; [|done]. simpl in Hs. injection Hs as -> ->.
    repeat (apply elem_of_cons in Ho as [[= -> Ho]|Ho]; [naive_solver|]). by apply elem_of_nil in Ho. }
  destruct Hl as [parts ->]. by eexists.
Qed.

Lemma filters_have_sql schema_map seen filters r :
  foldM (validate_filter_field schema_map) seen filters = Ok r → ∃ clauses, try_collect sql_for_filter (read_predicate <$> filters) = Ok clauses.
Proof.
  intros H%foldM_each. apply try_collect_total. apply Forall_fmap. eapply Forall_impl; [exact H|]. intros f (s & s' & Hf).
  rw /validate_filter_field in Hf. case_decide; [done|]. apply bind_Ok_inv in Hf as (field & _ & Hf).
  apply bind_Ok_inv in Hf as ([] & Hf & _). by apply filter_has_sql in Hf.
Qed.

(** A validated measure has a plan and columns. *)
Lemma measure_has_columns schema_map partial seen seen' measure :
  validate_measure schema_map seen measure = Ok seen' →
  ∃ function alias f plan columns, normalized_aggregate_function (sam_function measure) = Some function ∧
    aggregate_measure_alias_with_function measure function = Ok alias ∧ aggregate_function function = Ok f ∧
    plan = mkMeasurePlan f (sam_field measure) alias ("__partial_value_" +:+ alias)
             (match f with AAvg => Some ("__partial_count_" +:+ alias) | _ => None end) ∧
    measure_columns partial plan = Ok columns.
Proof.
  destruct seen as [as_ ss]. rw /validate_measure. intros H. apply bind_Ok_inv in H as (function & Hf & H).
  apply bind_Ok_inv in H as (alias & Ha & H). case_decide; [done|]. apply bind_Ok_inv in H as (sig & _ & H). case_decide; [done|].
  apply bind_Ok_inv in H as ([] & Hm & _). destruct (normalized_aggregate_function (sam_function measure)) as [g|] eqn:Hn; [|done].
  injection Hf as ->. rw /normalized_aggregate_function in Hn. case_decide as Hin; [|done]. injection Hn as Hn.
  assert (Hfield : function ≠ "count" → ∃ field, sam_field measure = Some field).
  { intros Hc. rw /validate_measure_field decide_False // in Hm. destruct (sam_field measure); [by eexists|done]. }
  rw Hn in Hin. rw /measure_columns.
  apply elem_of_cons in Hin as [->|Hin].
  { eexists _, alias, _, _, _. split_and!; [reflexivity|exact Ha|reflexivity|reflexivity|]. simpl. reflexivity. }
  destruct Hfield as [field Hfield]; [intros ->; set_solver|]. rw Hfield.
  destruct partial; repeat (apply elem_of_cons in Hin as [->|Hin];
    [eexists _, alias, _, _, _; split_and!; [reflexivity|exact Ha|reflexivity|reflexivity|simpl; reflexivity]|]); by apply elem_of_nil in Hin.
Qed.

Lemma aggregate_has_sql schema_map aggregate partial :
  validate_aggregate_request schema_map aggregate = Ok () →
  ∃ plans columns, aggregate_measure_plans aggregate = Ok plans ∧ try_collect (measure_columns partial) plans = Ok columns.
Proof.
  rw /validate_aggregate_request. case_decide as Hne; [done|]. clear Hne. intros H. apply bind_Ok_inv in H as (gs & _ & H).
  apply bind_Ok_inv in H as (ms & Hm%foldM_each & _). rw /aggregate_measure_plans.
  induction Hm as [|m l (seen & seen' & Hm) _ (plans & columns & Hp & Hc)]; [by exists [], []|].
  destruct (measure_has_columns schema_map partial _ _ _ Hm) as (function & alias & f & plan & column & Hn & Ha & Hf & -> & Hcol).
  eexists (_ :: plans), (column :: columns). simpl. rw Hn /= Ha bind_Ok Hf bind_Ok bind_Ok Hp bind_Ok. split; [reflexivity|].
  by rw Hcol bind_Ok Hc.
Qed.

Lemma validated_has_sql request schema table limit del :
  validate_request request schema = Ok () → ∃ sql, build_sql table (read_plan request) limit del = Ok sql.
Proof.
  rw /validate_request. case_match; [done|]. intros Hv. apply bind_Ok_inv in Hv as ([] & _ & Hv). apply bind_Ok_inv in Hv as ([] & Hagg & Hv).
  apply bind_Ok_inv in Hv as ([] & _ & Hv). apply bind_Ok_inv in Hv as (seen & Hf & Hv). apply bind_Ok_inv in Hv as ([] & Ha & _).
  destruct (filters_have_sql _ _ _ _ Hf) as [clauses Hc]. rw /build_sql. cbn [rd_aggregate rd_filters read_plan].
  destruct (sr_aggregate request) as [aggregate|] eqn:Hg; simpl; [|rw Hc; by eexists].
  rw /build_aggregate_sql. cbn [rd_aggregate rd_filters read_plan]. rw Hg bind_Ok.
  destruct (aggregate_has_sql _ _ false Ha) as (plans & columns & -> & Hcol). rw bind_Ok Hcol bind_Ok Hc. by eexists.
Qed.
End sql.

(** ** Classification *)

Section classification.
Context `{ft : FloatText} (cache : gmap string nat) (context : ServingExecutionContext).

(** The fast budgets are within the slow ones. *)
Lemma fast_budget_within_slow pruned : exceeds_fast_budget context pruned = false → exceeds_slow_budget context pruned = false.
Proof.
  rw /exceeds_fast_budget /exceeds_slow_budget /exceeds_budget !orb_false_iff !Z.ltb_ge !Nat.ltb_ge.
  rw /DEFAULT_FAST_PATH_MAX_BYTES /DEFAULT_SLOW_PATH_MAX_BYTES /DEFAULT_FAST_PATH_MAX_FILES /DEFAULT_SLOW_PATH_MAX_FILES.
  rw /DEFAULT_FAST_PATH_MAX_ROW_GROUPS /DEFAULT_SLOW_PATH_MAX_ROW_GROUPS /DEFAULT_FAST_PATH_MAX_DELETE_FILES /DEFAULT_SLOW_PATH_MAX_DELETE_FILES.
  lia.
Qed.

Definition some_pattern_matches (request : ReadPlan) (limit : nat) : Prop :=
  ∃ pattern, pattern ∈ declared_patterns context ∧ request_matches_pattern request pattern limit = true.

Lemma find_pattern (f : ServingPattern → bool) (l : list ServingPattern) :
  is_some (sp_name <$> find f l) = true ↔ ∃ pattern, pattern ∈ l ∧ f pattern = true.
Proof.
  split.
  - destruct (find f l) as [x|] eqn:Hf; [|done]. intros _. apply find_some in Hf as [Hin Hx]. exists x. by rw list_elem_of_In.
  - intros (x & Hin%list_elem_of_In & Hx). destruct (find f l) as [y|] eqn:Hf; [done|]. by rw (find_none _ _ Hf x Hin) in Hx.
Qed.

Lemma validated_limit request schema : validate_request request schema = Ok () → default DEFAULT_LIMIT (sr_limit request) ≤ MAX_LIMIT.
Proof.
  rw /validate_request. case_match; [done|]. intros Hv. do 2 apply bind_Ok_inv in Hv as ([] & _ & Hv).
  apply bind_Ok_inv in Hv as ([] & _ & Hv). apply bind_Ok_inv in Hv as (seen & _ & Hv). apply bind_Ok_inv in Hv as ([] & _ & Hv).
  destruct (Nat.ltb_spec MAX_LIMIT (default DEFAULT_LIMIT (sr_limit request))); [done|lia].
Qed.

Lemma validated_supported request schema : validate_request request schema = Ok () → request_supported (read_plan request) = true.
Proof.
  rw /validate_request /request_supported. cbn [rd_aggregate rd_order_by read_plan]. rw length_fmap.
  destruct (Nat.ltb_spec 1 (length (sr_order_by request))); [done|]. intros Hv. apply bind_Ok_inv in Hv as ([] & _ & Hv).
  apply bind_Ok_inv in Hv as ([] & Ha & _). destruct (sr_aggregate request); simpl in *; [|by apply Nat.leb_le].
  destruct (is_some (sr_select request)); [done|]. case_decide as Ho; [|done]. by rw Ho.
Qed.

Lemma plan_request_spec request :
  validate_request request (sx_schema context) = Ok () →
  let limit := default DEFAULT_LIMIT (sr_limit request) in
  let pruned := prune_candidate_files cache (sx_files context) (sx_file_stats context) (read_plan request) in
  ∃ plan, plan_request cache context (read_plan request) = Ok plan ∧ pl_limit plan = limit ∧
    pl_selected_files plan = selected_files pruned ∧
    (pl_classification plan = FastPath ↔ some_pattern_matches (read_plan request) limit ∧ exceeds_fast_budget context pruned = false) ∧
    (pl_classification plan = Rejected ↔
       exceeds_slow_budget context pruned = true ∨ (is_Some (sr_aggregate request) ∧ ¬ some_pattern_matches (read_plan request) limit)).
Proof.
  intros Hv limit pruned. rw /plan_request.
  assert (Hlim : normalized_limit (read_plan request) DEFAULT_LIMIT MAX_LIMIT = limit).
  { pose proof (validated_limit _ _ Hv). rw /normalized_limit /=. rw -/limit in H |- *. lia. }
  rw Hlim (validated_supported _ _ Hv).
  destruct (validated_has_sql request _ "{table}" limit (negb (bool_decide (sx_delete_files context = []))) Hv) as [sql ->].
  rw bind_Ok. cbn [negb]. set (matched := sp_name <$> find _ _).
  assert (Hm : is_some matched = true ↔ some_pattern_matches (read_plan request) limit) by apply find_pattern.
  rw /classify_request_with_admission -/pruned. pose proof (fast_budget_within_slow pruned) as Hfs. clearbody matched.
  assert (Ha : is_some (rd_aggregate (read_plan request)) = true ↔ is_Some (sr_aggregate request)).
  { simpl. destruct (sr_aggregate request); simpl; split; naive_solver. }
  destruct (is_some (rd_aggregate _)), (is_some matched), (exceeds_slow_budget context pruned), (exceeds_fast_budget context pruned);
    cbn [andb negb]; (eexists; split; [reflexivity|]); split_and!; try done; simpl; naive_solver.
Qed.

(** C31. Planning a valid request always gives a plan, with the requested limit and the
    files pruning keeps; the request is on the fast path exactly when a declared pattern
    matches it and the selection is within the fast budgets, and it is rejected exactly
    when the selection is above the slow budgets or it is an aggregate no pattern
    declares. *)
Theorem validated_request_planned request :
  validate_request request (sx_schema context) = Ok () →
  let limit := default DEFAULT_LIMIT (sr_limit request) in
  let pruned := prune_candidate_files cache (sx_files context) (sx_file_stats context) (read_plan request) in
  ∃ plan, plan_request cache context (read_plan request) = Ok plan ∧ pl_limit plan = limit ∧
    pl_selected_files plan = selected_files pruned ∧
    (pl_classification plan = FastPath ↔ some_pattern_matches (read_plan request) limit ∧ exceeds_fast_budget context pruned = false) ∧
    (pl_classification plan = Rejected ↔
       exceeds_slow_budget context pruned = true ∨ (is_Some (sr_aggregate request) ∧ ¬ some_pattern_matches (read_plan request) limit)).
Proof. exact (plan_request_spec request). Qed.
End classification.

(** ** Matching a pattern *)

(** A row request fits a pattern for rows without a projection of its own when limit,
    order and operators fit and the pattern's fields are filtered. *)
Lemma request_matches request pattern limit :
  rd_aggregate request = None → sp_aggregate pattern = None → sp_projection pattern = None →
  (∀ m, sp_max_limit pattern = Some m → (Z.of_nat limit ≤ m)%Z) →
  rd_order_by request = match sp_order_field pattern with Some f => [mkReadSort f (sp_descending pattern)] | None => [] end →
  Forall (λ f, filter_fits_pattern pattern f = true) (rd_filters request) →
  (∀ f, f ∈ sp_eq_fields pattern ∨ sp_range_field pattern = Some f → f ∈ (rp_field <$> rd_filters request)) →
  request_matches_pattern request pattern limit = true.
Proof.
  intros Ha Hpa Hpp Hm Ho Hf Hs. rw /request_matches_pattern Ha Hpa Hpp Ho.
  assert (Hmax : match sp_max_limit pattern with Some m => (m <? Z.of_nat limit)%Z | None => false end = false).
  { destruct (sp_max_limit pattern) as [m|]; [|done]. apply Z.ltb_ge. by apply Hm. }
  rw Hmax. assert (Hproj : match normalized_select (rd_select request) with Some _ | _ => negb (is_some (rd_select request)) && is_some (@None (list string)) end = false).
  { destruct (normalized_select _); by rw andb_false_r. }
  rw Hproj /=.
  assert (Hord : match sp_order_field pattern with
          | Some order_field =>
              match (match sp_order_field pattern with Some f => [mkReadSort f (sp_descending pattern)] | None => [] end) with
              | sort :: _ => negb (String.eqb (rs_field sort) order_field && Bool.eqb (rs_descending sort) (sp_descending pattern))
              | [] => true
              end
          | None => negb (bool_decide ((match sp_order_field pattern with Some f => [mkReadSort f (sp_descending pattern)] | None => [] end) = []))
          end = false).
  { destruct (sp_order_field pattern); [|done]. simpl. by rw String.eqb_refl eqb_reflx. }
  rw Hord. assert (Hfit : forallb (filter_fits_pattern pattern) (rd_filters request) = true).
  { apply forallb_forall. intros f Hin%list_elem_of_In. rw Forall_forall in Hf. by apply Hf. }
  rw Hfit /=. assert (Heq : forallb (λ field, bool_decide (field ∈ (rp_field <$> rd_filters request))) (sp_eq_fields pattern) = true).
  { apply forallb_forall. intros f Hin%list_elem_of_In. apply bool_decide_eq_true. apply Hs. by left. }
  rw Heq /=. destruct (sp_range_field pattern) as [f|]; [|done]. apply bool_decide_eq_true, Hs. by right.
Qed.
End PlannerTheory.

(** ** Examples *)
Module PlannerDemo.
Import FloatTextDemo PlannerTheory.

Definition plan_schema : PowdrrSchema := mkSchema [mkField "id" TString; mkField "n" TInteger].
Definition plan_pattern : ServingPattern := mkServingPattern "by-id" ["id"] None None false None None None.
Definition plan_description : TableDescription :=
  mkTableDescription "t" ∅ (Some (mkServingTableConfig [plan_pattern])) None None None None.
Definition plan_context : ServingExecutionContext :=
  mkServingContext plan_description (mkDescriptor "t" "c" None) plan_schema [mkFile "f" plan_schema 10] [] [] ∅ [] [] [] ∅ [] None false.
Definition by_id : ServingRequestPlan := mkServingRequest None [mkServingPredicate "id" (Some (VString "a")) None None None None None] None [] (Some 5) false false.

Lemma validated_request_planned_witness :
  ∃ plan, plan_request ∅ plan_context (read_plan by_id) = Ok plan ∧ pl_limit plan = 5 ∧ pl_classification plan = FastPath.
Proof.
  destruct (validated_request_planned ∅ plan_context by_id) as (plan & Hp & Hl & _ & Hf & _); [vm_compute; reflexivity|].
  exists plan. split; [exact Hp|]. split; [exact Hl|]. apply Hf. split; [|vm_compute; reflexivity].
  exists plan_pattern. split; [left|vm_compute; reflexivity].
Defined.
End PlannerDemo.
