(* ===== verification/SnapshotLookup.v ===== *)
(** * Lookups in a snapshot (query_runtime/src/lakehouse_serving.rs)

    A request whose filters pin fields to values, or one field to a value with a range
    and an order on another, is answered from a snapshot of the checkpoint: its rows in a
    row store, and workers that each own a shard of an index from field and encoded value
    to row numbers.  A worker sorts the rows of its shard by a field when a request first
    asks for that order, and keeps the result.  Snapshots are built on first use and kept
    for the life of the process, one per checkpoint. *)

From S2P Require Import Prelude Text Bytes StableSort Schema Json JsonText SnapshotCodec FileSet Contract Checkpoint QueryPath Pruning Planner.

(** ** Requests *)

(** SRC query_runtime/src/lakehouse_serving.rs:355-356 SnapshotLookupKey *)
Definition SnapshotLookupKey : Type := string.

(** SRC query_runtime/src/lakehouse_serving.rs:311-315 ExactLookupPredicate *)
Record ExactLookupPredicate : Type := mkExactPredicate { elp_field : string; elp_values : list SnapshotLookupKey }.

(** SRC query_runtime/src/lakehouse_serving.rs:317-324 RangeLookupPredicate *)
Record RangeLookupPredicate : Type := mkRangePredicate {
  rl_field : string;
  rl_gt : option Value;
  rl_gte : option Value;
  rl_lt : option Value;
  rl_lte : option Value;
}.

(** SRC query_runtime/src/lakehouse_serving.rs:326-338 SnapshotLookupPlan *)
Inductive SnapshotLookupPlan : Type :=
| PlanExact (predicates : list ExactLookupPredicate)
| PlanKeyRange (eq_field : string) (eq_value : SnapshotLookupKey) (order_field : string) (descending : bool) (range : option RangeLookupPredicate).

Definition MAX_SNAPSHOT_LOOKUP_CACHE_BYTES : Z := 256 * 1024 * 1024.
Definition SNAPSHOT_LOOKUP_SHARD_COUNT : nat := 32.
Definition ACCESS_ARTIFACT_KIND_SNAPSHOT_EXACT_LOOKUP : string := "snapshot-exact-lookup".
Definition ACCESS_ARTIFACT_KIND_SNAPSHOT_KEY_LOOKUP : string := "snapshot-key-lookup".
Definition ACCESS_ARTIFACT_KIND_SNAPSHOT_KEY_RANGE_LOOKUP : string := "snapshot-key-range-lookup".

(** [Vec::dedup]: neighbours. *)
Fixpoint dedup (l : list string) : list string :=
  match l with
  | [] => []
  | x :: l => match l with
              | y :: _ => if decide (x = y) then dedup l else x :: dedup l
              | [] => [x]
              end
  end.

Section requests.
Context `{ft : FloatText}.

(** SRC query_runtime/src/lakehouse_serving.rs:3373-3384 encode_exact_lookup_key *)
Definition encode_exact_lookup_key (value : Value) : option SnapshotLookupKey :=
  match value with
  | VString text => Some (String "s" text)
  | VNumber number => Some (String "n" (number_to_string number))
  | VBool boolean => Some (String "b" (if boolean then "true" else "false"))
  | _ => None
  end.

(** One filter of the loop. *)
(** SRC query_runtime/src/lakehouse_serving.rs:3321-3355= exact_lookup_predicates, one filter *)
Definition exact_predicate (filter : ReadPredicate) : option ExactLookupPredicate :=
  if predicate_uses_range filter then None
  else
    values ← match rp_eq filter with
             | Some value => (λ key, [key]) <$> encode_exact_lookup_key value
             | None =>
                 match rp_in_values filter with
                 | Some values =>
                     if bool_decide (values = []) || (MAX_IN_VALUES <? length values) then None
                     else normalized ← mapM encode_exact_lookup_key values; Some (dedup (sort_by String.compare normalized))
                 | None => None
                 end
             end;
    if decide (values = []) then None else Some (mkExactPredicate (rp_field filter) values).

(** SRC query_runtime/src/lakehouse_serving.rs:3311-3362 exact_lookup_predicates *)
Definition exact_lookup_predicates (request : ReadPlan) : option (list ExactLookupPredicate) :=
  if is_some (rd_aggregate request) || negb (bool_decide (rd_order_by request = [])) || (0 <? rd_offset request) || is_some (rd_search_after request) then None
  else
    predicates ← mapM exact_predicate (rd_filters request);
    if decide (predicates = []) then None else Some predicates.

(** SRC query_runtime/src/lakehouse_serving.rs:2055-2061 exact_id_lookup_values *)
Definition exact_id_lookup_values (request : ReadPlan) : option (list SnapshotLookupKey) :=
  predicates ← exact_lookup_predicates request;
  match predicates with
  | [predicate] => if decide (elp_field predicate = "_id") then Some (elp_values predicate) else None
  | _ => None
  end.

(** The variables of the loop below. *)
Record PlanState : Type := mkPlanState { ps_eq : option (string * SnapshotLookupKey); ps_range : option RangeLookupPredicate }.

(** SRC query_runtime/src/lakehouse_serving.rs:2289-2327= snapshot_lookup_plan, one filter *)
Definition plan_filter (state : PlanState) (filter : ReadPredicate) : option PlanState :=
  match predicate_uses_eq filter, predicate_uses_range filter with
  | true, false =>
      match ps_eq state with
      | Some _ => None
      | None =>
          value ← match rp_eq filter with
                  | Some value => encode_exact_lookup_key value
                  | None => match rp_in_values filter with
                            | Some [value] => encode_exact_lookup_key value
                            | _ => None
                            end
                  end;
          Some (mkPlanState (Some (rp_field filter, value)) (ps_range state))
      end
  | false, true =>
      match ps_range state with
      | Some _ => None
      | None => Some (mkPlanState (ps_eq state) (Some (mkRangePredicate (rp_field filter) (rp_gt filter) (rp_gte filter) (rp_lt filter) (rp_lte filter))))
      end
  | _, _ => None
  end.

Fixpoint plan_filters (state : PlanState) (filters : list ReadPredicate) : option PlanState :=
  match filters with
  | [] => Some state
  | filter :: filters => state ← plan_filter state filter; plan_filters state filters
  end.

(** SRC query_runtime/src/lakehouse_serving.rs:2271-2355 snapshot_lookup_plan *)
Definition snapshot_lookup_plan (request : ReadPlan) : option SnapshotLookupPlan :=
  match exact_lookup_predicates request with
  | Some predicates => Some (PlanExact predicates)
  | None =>
      if is_some (rd_aggregate request) || (0 <? rd_offset request) || is_some (rd_search_after request)
         || bool_decide (rd_filters request = []) || (1 <? length (rd_order_by request)) then None
      else
        state ← plan_filters (mkPlanState None None) (rd_filters request);
        '(eq_field, eq_value) ← ps_eq state;
        order_field ← match rd_order_by request with
                      | sort :: _ =>
                          match ps_range state with
                          | Some range => if decide (rl_field range = rs_field sort) then Some (rs_field sort) else None
                          | None => if decide (rs_field sort = eq_field) then None else Some (rs_field sort)
                          end
                      | [] => rl_field <$> ps_range state
                      end;
        Some (PlanKeyRange eq_field eq_value order_field (match rd_order_by request with sort :: _ => rs_descending sort | [] => false end) (ps_range state))
  end.
End requests.

(** ** The order of values *)

Section values.
Context `{jt : JsonText}.

(** SRC query_runtime/src/lakehouse_serving.rs:6072-6092 compare_values *)
Definition compare_values (left right : Value) : comparison :=
  match left, right with
  | VNull, VNull => Eq
  | VNull, _ => Gt
  | _, VNull => Lt
  | VNumber l, VNumber r => f64_compare (as_f64 l) (as_f64 r)
  | VString l, VString r => String.compare l r
  | VBool l, VBool r => bool_compare l r
  | _, _ => String.compare (json_to_vec left) (json_to_vec right)
  end.

(** SRC query_runtime/src/lakehouse_serving.rs:6059-6066 compare_row_values *)
Definition compare_row_values (left right : option Value) (descending : bool) : comparison :=
  reverse_if descending (compare_values (default VNull left) (default VNull right)).

(** SRC query_runtime/src/lakehouse_serving.rs:6068-6070 compare_sort_values *)
Definition compare_sort_values (left right : Value) (descending : bool) : comparison := compare_row_values (Some left) (Some right) descending.
End values.

(** ** Workers *)

Definition ExactIndex : Type := gmap string (gmap SnapshotLookupKey (list Z)).

(** [ordered_indexes] is keyed by the field that is pinned and the field of the order. *)
(** SRC query_runtime/src/lakehouse_serving.rs:424-430 SnapshotLookupWorkerState *)
Record SnapshotLookupWorkerState : Type := mkWorker {
  w_row_store : SnapshotLookupRowStore;
  w_exact_indexes : ExactIndex;
  w_ordered_indexes : gmap (string * string) (gmap SnapshotLookupKey (list Z));
}.

(** The channel of a worker hands it one request at a time, so the handles of the source
    are the states of the workers here. *)
(** SRC query_runtime/src/lakehouse_serving.rs:432-439 SnapshotLookupCache *)
Record SnapshotLookupCache : Type := mkLookupCache {
  c_row_store : SnapshotLookupRowStore;
  c_row_count : Z;
  c_estimated_bytes : Z;
  c_shard_count : nat;
  c_workers : list SnapshotLookupWorkerState;
}.

(** [DefaultHasher] over the bytes of a key. *)
Class KeyHasher : Type := { hash_key : SnapshotLookupKey → N }.

(** Folding with an operation on the state. *)
Fixpoint st_fold {S A B} (f : A → B → ST S A) (a : A) (l : list B) : ST S A :=
  match l with
  | [] => mret a
  | b :: l => f a b ≫= λ a, st_fold f a l
  end.

Section lookups.
Context `{jt : JsonText, ft : FloatText, ho : HashOrder, kh : KeyHasher}.

(** SRC query_runtime/src/lakehouse_serving.rs:2381-2385 snapshot_lookup_shard_for_lookup_key *)
Definition snapshot_lookup_shard_for_lookup_key (key : SnapshotLookupKey) (shard_count : nat) : nat :=
  N.to_nat (hash_key key mod N.of_nat (Nat.max shard_count 1)).

(** [index.entry(field).or_default().entry(key).or_default().push(row_ref)] *)
Definition index_push (index : ExactIndex) (field : string) (key : SnapshotLookupKey) (row_ref : Z) : ExactIndex :=
  let by_key := default ∅ (index !! field) in
  <[field := <[key := default [] (by_key !! key) ++ [row_ref]]> by_key]> index.

(** SRC query_runtime/src/lakehouse_serving.rs:2821-2835= build_snapshot_lookup_exact_index_shards_from_store, the visitor *)
Definition index_field (row_ref : Z) (shards : list ExactIndex) (field : string) (value : Value) : outcome (list ExactIndex) :=
  match encode_exact_lookup_key value with
  | None => Ok shards
  | Some encoded =>
      let shard_index := snapshot_lookup_shard_for_lookup_key encoded SNAPSHOT_LOOKUP_SHARD_COUNT in
      match shards !! shard_index with
      | Some shard => Ok (<[shard_index := index_push shard field encoded row_ref]> shards)
      | None => Panic "index out of bounds"
      end
  end.

(** SRC query_runtime/src/lakehouse_serving.rs:2812-2838 build_snapshot_lookup_exact_index_shards_from_store *)
Definition build_snapshot_lookup_exact_index_shards_from_store (row_store : SnapshotLookupRowStore) : outcome (list ExactIndex) :=
  foldM (λ shards row_ref, visit_snapshot_lookup_row_fields row_store row_ref (index_field row_ref) shards)
    (replicate SNAPSHOT_LOOKUP_SHARD_COUNT ∅) (seqZ 0 (store_row_count row_store)).

(** SRC query_runtime/src/lakehouse_serving.rs:2850-2895 spawn_snapshot_lookup_worker *)
Definition spawn_snapshot_lookup_worker (row_store : SnapshotLookupRowStore) (exact_indexes : ExactIndex) : SnapshotLookupWorkerState :=
  mkWorker row_store exact_indexes ∅.

(** SRC query_runtime/src/lakehouse_serving.rs:2840-2848 spawn_snapshot_lookup_workers *)
Definition spawn_snapshot_lookup_workers (row_store : SnapshotLookupRowStore) (shards : list ExactIndex) : list SnapshotLookupWorkerState :=
  spawn_snapshot_lookup_worker row_store <$> shards.

(** SRC query_runtime/src/lakehouse_serving.rs:3136-3142 snapshot_row_field_value *)
Definition snapshot_row_field_value (row_store : SnapshotLookupRowStore) (row_ref : Z) (field : string) : option Value :=
  match row_field_value row_store row_ref field with Ok value => value | _ => None end.

Definition is_lt (c : comparison) : bool := match c with Lt => true | _ => false end.
Definition is_gt (c : comparison) : bool := match c with Gt => true | _ => false end.
Definition bound_ok (bound : option Value) (test : Value → bool) : bool := match bound with Some bound => test bound | None => true end.

(** The four bounds against a value that is there. *)
Definition value_in_range (value : Value) (range : RangeLookupPredicate) : bool :=
  bound_ok (rl_gt range) (λ bound, is_gt (compare_values value bound)) &&
  bound_ok (rl_gte range) (λ bound, negb (is_lt (compare_values value bound))) &&
  bound_ok (rl_lt range) (λ bound, is_lt (compare_values value bound)) &&
  bound_ok (rl_lte range) (λ bound, negb (is_gt (compare_values value bound))).

(** SRC query_runtime/src/lakehouse_serving.rs:3102-3134 snapshot_row_matches_range *)
Definition snapshot_row_matches_range (row_store : SnapshotLookupRowStore) (row_ref : Z) (range : RangeLookupPredicate) : outcome bool :=
  match snapshot_row_field_value row_store row_ref (rl_field range) with
  | None => Ok false
  | Some value => if is_null value then Ok false else Ok (value_in_range value range)
  end.

(** SRC query_runtime/src/lakehouse_serving.rs:2897-2912 snapshot_worker_exact_field_rows *)
Definition snapshot_worker_exact_field_rows (state : SnapshotLookupWorkerState) (field : string) (values : list SnapshotLookupKey) : list Z :=
  match w_exact_indexes state !! field with
  | None => []
  | Some index => values ≫= λ value, default [] (index !! value)
  end.

(** The rows of a partition in the order of a field. *)
Definition order_partition (row_store : SnapshotLookupRowStore) (order_field : string) (row_refs : list Z) : list Z :=
  sort_by (λ left right, compare_row_values (snapshot_row_field_value row_store left order_field) (snapshot_row_field_value row_store right order_field) false) row_refs.

(** SRC query_runtime/src/lakehouse_serving.rs:2927-2943= snapshot_worker_key_range_rows, the index on first use *)
Definition ensure_ordered (eq_field order_field : string) (state : SnapshotLookupWorkerState) : SnapshotLookupWorkerState :=
  match w_ordered_indexes state !! (eq_field, order_field) with
  | Some _ => state
  | None =>
      let ordered_index := match w_exact_indexes state !! eq_field with
                           | Some exact_index => order_partition (w_row_store state) order_field <$> exact_index
                           | None => ∅
                           end in
      mkWorker (w_row_store state) (w_exact_indexes state) (<[(eq_field, order_field) := ordered_index]> (w_ordered_indexes state))
  end.

(** The loop over the rows of the partition. *)
(** SRC query_runtime/src/lakehouse_serving.rs:2959-2970= snapshot_worker_key_range_rows, the loop *)
Fixpoint range_scan (row_store : SnapshotLookupRowStore) (range : option RangeLookupPredicate) (limit : nat) (row_refs : list Z) (rows : list Z) : outcome (list Z) :=
  match rows with
  | [] => Ok row_refs
  | row_ref :: rows =>
      matches ← match range with Some range => snapshot_row_matches_range row_store row_ref range | None => Ok true end;
      if matches : bool then
        let row_refs := row_refs ++ [row_ref] in
        if limit <=? length row_refs then Ok row_refs else range_scan row_store range limit row_refs rows
      else range_scan row_store range limit row_refs rows
  end.

(** SRC query_runtime/src/lakehouse_serving.rs:2914-2971 snapshot_worker_key_range_rows *)
Definition snapshot_worker_key_range_rows (eq_field : string) (eq_value : SnapshotLookupKey) (order_field : string) (descending : bool)
    (range : option RangeLookupPredicate) (limit : nat) : ST SnapshotLookupWorkerState (list Z) :=
  st_modify (ensure_ordered eq_field order_field) ≫= λ _,
  st_gets (λ state, (w_ordered_indexes state !! (eq_field, order_field) ≫= lookup eq_value, w_row_store state)) ≫= λ '(partition, row_store),
  match partition with
  | None => mret []
  | Some partition_rows => st_lift (range_scan row_store range limit [] (if descending then reverse partition_rows else partition_rows))
  end.

(** A request to the worker of a shard. *)
Definition with_worker {A} (shard_index : nat) (m : ST SnapshotLookupWorkerState A) : ST SnapshotLookupCache A := λ cache,
  match c_workers cache !! shard_index with
  | Some worker =>
      let '(r, worker) := m worker in
      (r, mkLookupCache (c_row_store cache) (c_row_count cache) (c_estimated_bytes cache) (c_shard_count cache) (<[shard_index := worker]> (c_workers cache)))
  | None => (Panic "index out of bounds", cache)
  end.

(** SRC query_runtime/src/lakehouse_serving.rs:654-670 SnapshotLookupWorkerHandle::exact_field_rows *)
Definition exact_field_rows (shard_index : nat) (field : string) (values : list SnapshotLookupKey) : ST SnapshotLookupCache (list Z) :=
  with_worker shard_index (st_gets (λ state, snapshot_worker_exact_field_rows state field values)).

(** SRC query_runtime/src/lakehouse_serving.rs:672-696 SnapshotLookupWorkerHandle::key_range_rows *)
Definition key_range_rows (shard_index : nat) (eq_field : string) (eq_value : SnapshotLookupKey) (order_field : string) (descending : bool)
    (range : option RangeLookupPredicate) (limit : nat) : ST SnapshotLookupCache (list Z) :=
  with_worker shard_index (snapshot_worker_key_range_rows eq_field eq_value order_field descending range limit).

(** The values of a predicate by shard. *)
Definition group_by_shard (shard_count : nat) (values : list SnapshotLookupKey) : gmap nat (list SnapshotLookupKey) :=
  foldl (λ shard_values value,
    let shard_index := snapshot_lookup_shard_for_lookup_key value shard_count in
    <[shard_index := default [] (shard_values !! shard_index) ++ [value]]> shard_values) ∅ values.

(** SRC query_runtime/src/lakehouse_serving.rs:3019-3034= execute_snapshot_exact_lookup_row_refs, one predicate *)
Definition predicate_rows (predicate : ExactLookupPredicate) : ST SnapshotLookupCache (gset Z) :=
  st_gets c_shard_count ≫= λ shard_count,
  st_fold (λ rows '(shard_index, values),
    exact_field_rows shard_index (elp_field predicate) values ≫= λ row_refs, mret (rows ∪ list_to_set row_refs))
    ∅ (hash_iter (group_by_shard shard_count (elp_values predicate))).

(** The loop over the predicates; an empty intersection ends it. *)
Fixpoint matching_rows (predicates : list ExactLookupPredicate) (matching : option (gset Z)) : ST SnapshotLookupCache (gset Z) :=
  match predicates with
  | [] => mret (default ∅ matching)
  | predicate :: predicates =>
      predicate_rows predicate ≫= λ rows,
      let matching := match matching with Some existing => existing ∩ rows | None => rows end in
      if decide (matching = ∅) then mret ∅ else matching_rows predicates (Some matching)
  end.

(** SRC query_runtime/src/lakehouse_serving.rs:3012-3052 execute_snapshot_exact_lookup_row_refs *)
Definition execute_snapshot_exact_lookup_row_refs (predicates : list ExactLookupPredicate) (limit : nat) : ST SnapshotLookupCache (list Z) :=
  matching_rows predicates None ≫= λ rows, mret (take limit (sort_by Z.compare (elements rows))).

(** SRC query_runtime/src/lakehouse_serving.rs:3079-3100 execute_snapshot_key_range_lookup_row_refs *)
Definition execute_snapshot_key_range_lookup_row_refs (eq_field : string) (eq_value : SnapshotLookupKey) (order_field : string) (descending : bool)
    (range : option RangeLookupPredicate) (limit : nat) : ST SnapshotLookupCache (list Z) :=
  st_gets c_shard_count ≫= λ shard_count,
  key_range_rows (snapshot_lookup_shard_for_lookup_key eq_value shard_count) eq_field eq_value order_field descending range limit.

(** The match on the plan, which three callers repeat. *)
(** SRC query_runtime/src/lakehouse_serving.rs:1764-1789= execute_checkpoint_exact_lookup_batch_projected_field_bytes, the plan *)
Definition plan_row_refs (plan : SnapshotLookupPlan) (limit : nat) : ST SnapshotLookupCache (list Z) :=
  match plan with
  | PlanExact predicates => execute_snapshot_exact_lookup_row_refs predicates limit
  | PlanKeyRange eq_field eq_value order_field descending range =>
      execute_snapshot_key_range_lookup_row_refs eq_field eq_value order_field descending range limit
  end.

(** SRC query_runtime/src/lakehouse_serving.rs:3162-3176 snapshot_row_refs_to_projected_values *)
Definition snapshot_row_refs_to_projected_values (row_store : SnapshotLookupRowStore) (row_refs : list Z) (request : ReadPlan) : outcome (list Value) :=
  let select_fields := normalized_select (rd_select request) in
  try_collect (λ row_ref, projected_row_value row_store row_ref select_fields) row_refs.

(** SRC query_runtime/src/lakehouse_serving.rs:3178-3194 snapshot_row_refs_to_projected_field_bytes *)
Definition snapshot_row_refs_to_projected_field_bytes (row_store : SnapshotLookupRowStore) (row_refs : list Z) (request : ReadPlan) : outcome (list ProjectedFieldBytesRow) :=
  match normalized_select (rd_select request) with
  | None => Err "Projected field bytes require explicit select fields"
  | Some select_fields => try_collect (λ row_ref, projected_top_level_field_bytes row_store row_ref select_fields) row_refs
  end.

(** SRC query_runtime/src/lakehouse_serving.rs:2759-2786 build_in_memory_snapshot_lookup_cache *)
Definition build_in_memory_snapshot_lookup_cache (batches : list (list Object)) : outcome SnapshotLookupCache :=
  '(rows, estimated_bytes) ← foldM (λ state batch,
    foldM (λ '(rows, estimated_bytes) values,
      row ← snapshot_lookup_row_from_batch values;
      Ok (rows ++ [row], wrap_u64 (estimated_bytes + str_len row))) state batch) ([], 0%Z) batches;
  let row_store := InMemory rows in
  shards ← build_snapshot_lookup_exact_index_shards_from_store row_store;
  Ok (mkLookupCache row_store (Z.of_nat (length rows)) estimated_bytes SNAPSHOT_LOOKUP_SHARD_COUNT (spawn_snapshot_lookup_workers row_store shards)).

(** ** The exact-id artifact *)

(** SRC query_runtime/src/lakehouse_serving.rs:699-704 SnapshotExactLookupIndexEntry *)
Record SnapshotExactLookupIndexEntry : Type := mkIndexEntry { ie_row_ref : Z; ie_seq_no : Z; ie_version : Z }.

(** SRC query_runtime/src/lakehouse_serving.rs:706-710 SnapshotExactLookupCache *)
Record SnapshotExactLookupCache : Type := mkExactCache {
  xc_row_store : SnapshotLookupRowStore;
  xc_entries_by_id : gmap SnapshotLookupKey SnapshotExactLookupIndexEntry;
}.

(** [Value::as_i64], then [Value::as_u64] cast to [i64]. *)
(** SRC query_runtime/src/lakehouse_serving.rs:2255-2259 snapshot_exact_lookup_i64 *)
Definition snapshot_exact_lookup_i64 (value : Value) : option Z :=
  match value with
  | VNumber (PosInt n) => Some (wrap_i64 n)
  | VNumber (NegInt n) => Some n
  | _ => None
  end.

(** SRC query_runtime/src/lakehouse_serving.rs:2261-2269 exact_lookup_index_entry_is_better *)
Definition exact_lookup_index_entry_is_better (candidate existing : SnapshotExactLookupIndexEntry) : bool :=
  if (ie_seq_no candidate =? ie_seq_no existing)%Z then (ie_version existing <? ie_version candidate)%Z
  else (ie_seq_no existing <? ie_seq_no candidate)%Z.

(** SRC query_runtime/src/lakehouse_serving.rs:2232-2253 snapshot_exact_lookup_metadata_from_row_store *)
Definition snapshot_exact_lookup_metadata_from_row_store (row_store : SnapshotLookupRowStore) (row_ref : Z) : outcome (option (SnapshotLookupKey * Z * Z)) :=
  id ← row_field_value row_store row_ref "_id";
  match id ≫= encode_exact_lookup_key with
  | None => Ok None
  | Some id =>
      seq_no ← row_field_value row_store row_ref "_seq_no";
      version ← row_field_value row_store row_ref "_version";
      Ok (Some (id, default 0%Z (seq_no ≫= snapshot_exact_lookup_i64), default 0%Z (version ≫= snapshot_exact_lookup_i64)))
  end.

(** SRC query_runtime/src/lakehouse_serving.rs:2213-2228= build_snapshot_exact_lookup_index_from_store, one row *)
Definition index_row (row_store : SnapshotLookupRowStore) (best_by_id : gmap SnapshotLookupKey SnapshotExactLookupIndexEntry) (row_ref : Z) :
    outcome (gmap SnapshotLookupKey SnapshotExactLookupIndexEntry) :=
  metadata ← snapshot_exact_lookup_metadata_from_row_store row_store row_ref;
  match metadata with
  | None => Ok best_by_id
  | Some (id, seq_no, version) =>
      let candidate := mkIndexEntry row_ref seq_no version in
      match best_by_id !! id with
      | Some existing => if exact_lookup_index_entry_is_better candidate existing then Ok (<[id := candidate]> best_by_id) else Ok best_by_id
      | None => Ok (<[id := candidate]> best_by_id)
      end
  end.

(** SRC query_runtime/src/lakehouse_serving.rs:2206-2230 build_snapshot_exact_lookup_index_from_store *)
Definition build_snapshot_exact_lookup_index_from_store (row_store : SnapshotLookupRowStore) : outcome (gmap SnapshotLookupKey SnapshotExactLookupIndexEntry) :=
  foldM (index_row row_store) ∅ (seqZ 0 (store_row_count row_store)).

(** SRC query_runtime/src/lakehouse_serving.rs:2171-2188 build_in_memory_snapshot_exact_lookup_cache *)
Definition build_in_memory_snapshot_exact_lookup_cache (batches : list (list Object)) : outcome SnapshotExactLookupCache :=
  rows ← foldM (λ rows batch, foldM (λ rows values, row ← snapshot_exact_lookup_row_from_batch values; Ok (rows ++ [row])) rows batch) [] batches;
  let row_store := InMemory rows in
  entries_by_id ← build_snapshot_exact_lookup_index_from_store row_store;
  Ok (mkExactCache row_store entries_by_id).

(** The loop over the identifiers, with what is kept of a row. *)
Fixpoint exact_id_rows {R} (read : Z → outcome R) (entries : gmap SnapshotLookupKey SnapshotExactLookupIndexEntry) (limit : nat) (rows : list R) (doc_ids : list SnapshotLookupKey) :
    outcome (list R) :=
  match doc_ids with
  | [] => Ok rows
  | doc_id :: doc_ids =>
      rows ← match entries !! doc_id with
             | Some entry => row ← read (ie_row_ref entry); Ok (rows ++ [row])
             | None => Ok rows
             end;
      if limit <=? length rows then Ok rows else exact_id_rows read entries limit rows doc_ids
  end.
End lookups.
