(* ===== verification/SnapshotLookupTheory.v ===== *)
(** * Lookups in a snapshot find the rows (query_runtime/src/lakehouse_serving.rs)

    The index of a snapshot, spread over its shards, holds for every field and encoded
    value the rows with that value; a lookup through it returns what filtering, ordering
    and cutting the rows one by one would, whatever the hash of the keys, the order of the
    hash maps and the orders computed for earlier requests. *)

From S2P Require Import Prelude Text Bytes StableSort Schema Json JsonText SnapshotCodec SnapshotCodecTheory FileSet Contract QueryPath Pruning Planner SnapshotLookup.

Module SnapshotLookupTheory.
Import SnapshotCodecTheory.

(** ** The order of values *)

Section order.
Context `{jt : JsonText, !JsonTextLaws jt}.

(** Strings come first, then numbers, arrays, booleans, objects and null. *)
Definition value_rank (v : Value) : nat :=
  match v with VString _ => 0 | VNumber _ => 1 | VArray _ => 2 | VBool _ => 3 | VObject _ => 4 | VNull => 5 end.
Definition value_number (v : Value) : f64 := match v with VNumber n => as_f64 n | _ => mkF64 0 0 end.
Definition value_text (v : Value) : string :=
  match v with VString s => s | VBool b => if b then "true" else "false" | VArray _ | VObject _ => json_to_vec v | _ => "" end.

Lemma first_char_compare a s b t : (byte a < byte b)%N → String.compare (String a s) (String b t) = Lt ∧ String.compare (String b t) (String a s) = Gt.
Proof.
  intros H. cbn [String.compare]. rw /Ascii.compare. change (N_of_ascii a) with (byte a). change (N_of_ascii b) with (byte b).
  by rw (proj2 (N.compare_lt_iff _ _) H) (proj2 (N.compare_gt_iff _ _) H).
Qed.

(** The first byte of the text of a value that is not null. *)
Definition rank_bytes (r : nat) (a : Ascii.ascii) : Prop :=
  match r with
  | 0 => byte a = 34%N
  | 1 => (45 ≤ byte a ≤ 57)%N
  | 2 => byte a = 91%N
  | 3 => (102 ≤ byte a ≤ 116)%N
  | 4 => byte a = 123%N
  | _ => False
  end.

Lemma value_head v : v ≠ VNull → ∃ a rest, json_to_vec v = String a rest ∧ rank_bytes (value_rank v) a.
Proof.
  intros Hv. destruct v as [|b|n|s|l|m]; [done|..]; cbn [value_rank].
  - rw json_bool. destruct b; do 2 eexists; (split; [done|]); vm_compute; by split.
  - destruct (json_number n) as (a & rest & -> & Ha). do 2 eexists. split; [done|]. cbn.
    destruct Ha as [Ha%in_range_spec| ->]; [lia|]. vm_compute. by split.
  - destruct (json_string s) as [rest ->]. do 2 eexists. by split.
  - destruct (json_array l) as [rest ->]. do 2 eexists. by split.
  - destruct (json_object m) as [rest ->]. do 2 eexists. by split.
Qed.

Lemma rank_bytes_lt r1 r2 a b : rank_bytes r1 a → rank_bytes r2 b → r1 < r2 → (byte a < byte b)%N.
Proof. destruct r1 as [|[|[|[|[|]]]]], r2 as [|[|[|[|[|]]]]]; cbn; lia. Qed.

(** Values of different kinds compare by kind. *)
Lemma text_compare_rank v w : v ≠ VNull → w ≠ VNull → value_rank v ≠ value_rank w →
  String.compare (json_to_vec v) (json_to_vec w) = Nat.compare (value_rank v) (value_rank w).
Proof.
  intros Hv Hw Hne. destruct (value_head v Hv) as (a & s & -> & Ha), (value_head w Hw) as (b & t & -> & Hb).
  destruct (decide (value_rank v < value_rank w)) as [Hlt|Hge].
  - rw (proj2 (Nat.compare_lt_iff _ _) Hlt). exact (proj1 (first_char_compare a s b t (rank_bytes_lt _ _ _ _ Ha Hb Hlt))).
  - assert (Hgt : value_rank w < value_rank v) by lia. rw (proj2 (Nat.compare_gt_iff _ _) Hgt). exact (proj2 (first_char_compare b t a s (rank_bytes_lt _ _ _ _ Hb Ha Hgt))).
Qed.

Lemma compare_values_keys v w : compare_values v w =
  then_cmp (Nat.compare (value_rank v) (value_rank w)) (then_cmp (f64_compare (value_number v) (value_number w)) (String.compare (value_text v) (value_text w))).
Proof.
  destruct v as [|bv|nv|sv|lv|mv], w as [|bw|nw|sw|lw|mw]; cbn [compare_values value_number value_text];
    try (rw text_compare_rank //; done); try done.
  - by destruct bv, bw.
  - cbn. by destruct (f64_compare _ _).
Qed.

#[export] Instance f64_total : TotalPreorder f64_compare.
Proof.
  split.
  - intros x y. rw /f64_compare Z.min_comm. apply Z.compare_antisym.
  - intros x y z. set (e := Z.min (exponent x) (Z.min (exponent y) (exponent z))).
    rw !(f64_compare_at e); [lia..|]. rw !Z.compare_le_iff. lia.
Qed.

#[export] Instance compare_values_total : TotalPreorder compare_values.
Proof.
  assert (H : TotalPreorder (λ v w, then_cmp (Nat.compare (value_rank v) (value_rank w))
    (then_cmp (f64_compare (value_number v) (value_number w)) (String.compare (value_text v) (value_text w))))).
  { apply total_then; [apply total_on, _|]. apply total_then; apply total_on, _. }
  split; [intros v w|intros u v w]; rw !compare_values_keys; [apply (cmp_opp (TotalPreorder:=H))|apply (cmp_trans (TotalPreorder:=H))].
Qed.

Lemma total_reverse {A} (cmp : A → A → comparison) d : TotalPreorder cmp → TotalPreorder (λ x y, reverse_if d (cmp x y)).
Proof.
  intros H. destruct d; [|done]. split; [intros x y; cbn; by rw (cmp_opp x y)|].
  intros x y z. cbn. rw -!(cmp_opp (cmp:=cmp)). intros H1 H2. by apply (cmp_trans (cmp:=cmp) z y x).
Qed.

(** The order that sorts rows, bounds ranges and merges results is a total preorder on
    all JSON values, forwards and backwards: it never contradicts itself on values of
    mixed types (strings before numbers, arrays, booleans, objects, and null last), so the
    standard sort, which may panic on an inconsistent order, is given a consistent one;
    and a missing field sorts as null. *)
Theorem value_order_is_total descending :
  TotalPreorder (λ left right, compare_row_values left right descending) ∧
  (∀ v w, compare_row_values (Some v) (Some w) descending = compare_sort_values v w descending) ∧
  (∀ v, v ≠ VNull → compare_row_values (Some v) None descending = reverse_if descending Lt) ∧
  (∀ v w, value_rank v < value_rank w → compare_values v w = Lt).
Proof.
  split_and!; [|done| |].
  - apply (total_on (default VNull) (λ v w, reverse_if descending (compare_values v w))), total_reverse, _.
  - intros v Hv. rw /compare_row_values. by destruct v.
  - intros v w H. rw compare_values_keys (proj2 (Nat.compare_lt_iff _ _) H). done.
Qed.
End order.

(** ** The index *)

Lemma elem_of_dedup x l : x ∈ dedup l ↔ x ∈ l.
Proof.
  induction l as [|a l IH]; [done|]. cbn [dedup]. destruct l as [|b l]; [done|]. case_decide as Hd.
  - subst. rw IH. set_solver.
  - rw !(elem_of_cons _ x a) IH. done.
Qed.

Section index.
Context `{jt : JsonText, !JsonTextLaws jt, ft : FloatText, ho : HashOrder, kh : KeyHasher}.

(** The rows of a field and key in one shard. *)
Definition index_rows (index : ExactIndex) (field : string) (key : SnapshotLookupKey) : list Z := default [] (index !! field ≫= lookup key).

(** Whether a document has the field with a value of that key. *)
Definition doc_has (field : string) (key : SnapshotLookupKey) (doc : Object) : bool :=
  bool_decide (obj_get field doc ≫= encode_exact_lookup_key = Some key).

Definition shard_of (key : SnapshotLookupKey) : nat := snapshot_lookup_shard_for_lookup_key key SNAPSHOT_LOOKUP_SHARD_COUNT.

Lemma shard_bound key : shard_of key < SNAPSHOT_LOOKUP_SHARD_COUNT.
Proof.
  rw /shard_of /snapshot_lookup_shard_for_lookup_key. change (N.of_nat (Nat.max SNAPSHOT_LOOKUP_SHARD_COUNT 1)) with 32%N.
  pose proof (N.mod_lt (hash_key key) 32%N ltac:(done)). rw /SNAPSHOT_LOOKUP_SHARD_COUNT. lia.
Qed.

Lemma index_rows_push index f k r f' k' :
  index_rows (index_push index f k r) f' k' = index_rows index f' k' ++ (if decide (f = f') then if decide (k = k') then [r] else [] else []).
Proof.
  rw /index_rows /index_push. destruct (decide (f = f')) as [<-|Hf].
  - rw lookup_insert_eq. cbn. destruct (decide (k = k')) as [<-|Hk].
    + rw lookup_insert_eq /=. by destruct (index !! f).
    + rw lookup_insert_ne // app_nil_r. by destruct (index !! f).
  - by rw lookup_insert_ne // app_nil_r.
Qed.

(** What one row adds under a field and a key of a shard. *)
Definition row_entry (j : nat) (f : string) (k : SnapshotLookupKey) (row_ref : Z) (doc : Object) : list Z :=
  if decide (shard_of k = j) then if doc_has f k doc then [row_ref] else [] else [].

Lemma row_entry_cons j f k row_ref f0 v0 fields : f0 ∉ obj_keys fields →
  row_entry j f k row_ref ((f0, v0) :: fields) =
  (if decide (f0 = f) then if decide (encode_exact_lookup_key v0 = Some k) then if decide (shard_of k = j) then [row_ref] else [] else [] else []) ++ row_entry j f k row_ref fields.
Proof.
  intros Hf0%obj_get_None. rw /row_entry /doc_has. cbn [obj_get]. destruct (decide (f0 = f)) as [->|]; [|done]. rw Hf0. cbn [mbind option_bind].
  rw (bool_decide_eq_false_2 (None = Some k)) //.
  destruct (decide (shard_of k = j)), (decide (encode_exact_lookup_key v0 = Some k)) as [He|He]; rw ?(bool_decide_eq_true_2 _ He) ?(bool_decide_eq_false_2 _ He) //.
Qed.

(** The shards after the fields of one row. *)
Lemma index_fields row_ref (fields : Object) shards : NoDup (obj_keys fields) → length shards = SNAPSHOT_LOOKUP_SHARD_COUNT →
  ∃ shards', foldM (λ st kv, index_field row_ref st kv.1 kv.2) shards fields = Ok shards' ∧ length shards' = SNAPSHOT_LOOKUP_SHARD_COUNT ∧
  ∀ j f k, index_rows (default ∅ (shards' !! j)) f k = index_rows (default ∅ (shards !! j)) f k ++ row_entry j f k row_ref fields.
Proof.
  revert shards. induction fields as [|[f0 v0] fields IH]; intros shards Hnd Hlen; cbn [foldM].
  { eexists. split_and!; [done..|]. intros j f k. rw /row_entry /doc_has. by case_decide; rw app_nil_r. }
  apply NoDup_cons in Hnd as [Hf0 Hnd]. cbn [fst snd]. rw /index_field. destruct (encode_exact_lookup_key v0) as [k0|] eqn:Hk0.
  - pose proof (shard_bound k0) as Hb. destruct (lookup_lt_is_Some_2 shards (shard_of k0)) as [shard Hs]; [lia|].
    change (snapshot_lookup_shard_for_lookup_key k0 SNAPSHOT_LOOKUP_SHARD_COUNT) with (shard_of k0). rw Hs bind_Ok.
    destruct (IH (<[shard_of k0 := index_push shard f0 k0 row_ref]> shards)) as (shards' & Hf & Hl & Hi); [done|by rw length_insert|].
    exists shards'. split_and!; [done..|]. intros j f k. rw Hi row_entry_cons // app_assoc Hk0. f_equal. destruct (decide (shard_of k0 = j)) as [<-|Hj].
    + rw list_lookup_insert_eq; [lia|]. cbn. rw index_rows_push Hs /=. f_equal. case_decide; [|done].
      destruct (decide (k0 = k)) as [->|]; [by rw !decide_True|]. rw decide_False //. naive_solver.
    + rw list_lookup_insert_ne //. case_decide; [|by rw app_nil_r]. case_decide as Hk; [|by rw app_nil_r]. injection Hk as ->. by rw decide_False // app_nil_r.
  - rw bind_Ok. destruct (IH shards Hnd Hlen) as (shards' & Hf & Hl & Hi). exists shards'. split_and!; [done..|]. intros j f k. rw Hi row_entry_cons // Hk0.
    f_equal. destruct (decide (f0 = f)); [|done]. by destruct (decide (None = Some k)).
Qed.

(** ** The rows of a snapshot *)

Context (store : SnapshotLookupRowStore) (documents : list Object).
Context (Hstore : store_holds store documents) (Hnames : Forall (λ doc, NoDup (obj_keys doc)) documents).

Definition doc_at (row_ref : Z) : Object := default [] (documents !! Z.to_nat row_ref).
Definition all_rows : list Z := seqZ 0 (Z.of_nat (length documents)).

Lemma elem_of_all_rows r : r ∈ all_rows ↔ (0 ≤ r < Z.of_nat (length documents))%Z.
Proof. rw /all_rows elem_of_seqZ. lia. Qed.

Lemma doc_at_lookup r : r ∈ all_rows → ∃ i doc, r = Z.of_nat i ∧ documents !! i = Some doc ∧ doc_at r = doc.
Proof.
  intros Hr%elem_of_all_rows. destruct (lookup_lt_is_Some_2 documents (Z.to_nat r)) as [doc Hd]; [lia|].
  exists (Z.to_nat r), doc. split_and!; [lia|done|]. by rw /doc_at Hd.
Qed.

Lemma field_value_at r f : r ∈ all_rows → snapshot_row_field_value store r f = obj_get f (doc_at r).
Proof.
  intros (i & doc & -> & Hd & ->)%doc_at_lookup. destruct Hstore as (_ & Hrows & _). destruct (Hrows i doc Hd) as (_ & Hf & _).
  by rw /snapshot_row_field_value Hf.
Qed.

(** The rows with a value of that key, in order. *)
Definition rows_with (f : string) (k : SnapshotLookupKey) : list Z := List.filter (λ r, doc_has f k (doc_at r)) all_rows.

(** What every shard holds once the index is built. *)
Definition shards_built (shards : list ExactIndex) : Prop :=
  length shards = SNAPSHOT_LOOKUP_SHARD_COUNT ∧
  ∀ j f k, index_rows (default ∅ (shards !! j)) f k = if decide (shard_of k = j) then rows_with f k else [].

Lemma index_build_loop rows shards : (∀ r, r ∈ rows → r ∈ all_rows) → length shards = SNAPSHOT_LOOKUP_SHARD_COUNT →
  ∃ shards', foldM (λ shards row_ref, visit_snapshot_lookup_row_fields store row_ref (index_field row_ref) shards) shards rows = Ok shards' ∧
    length shards' = SNAPSHOT_LOOKUP_SHARD_COUNT ∧
    ∀ j f k, index_rows (default ∅ (shards' !! j)) f k =
      index_rows (default ∅ (shards !! j)) f k ++ if decide (shard_of k = j) then List.filter (λ r, doc_has f k (doc_at r)) rows else [].
Proof.
  revert shards. induction rows as [|r rows IH]; intros shards Hin Hlen; cbn [foldM].
  { eexists. split_and!; [done..|]. intros j f k. cbn. by case_decide; rw app_nil_r. }
  destruct (doc_at_lookup r) as (i & doc & -> & Hd & Hdoc); [apply Hin; by left|]. destruct Hstore as (_ & Hrows & _).
  destruct (Hrows i doc Hd) as (_ & _ & _ & Hvisit). rw Hvisit. pose proof (proj1 (Forall_lookup _ _) Hnames i doc Hd) as Hnd.
  destruct (index_fields (Z.of_nat i) doc shards Hnd Hlen) as (s1 & -> & Hl1 & H1). rw bind_Ok.
  destruct (IH s1) as (s2 & Hf2 & Hl2 & H2); [intros; apply Hin; by right|done|]. exists s2. split_and!; [done..|].
  intros j f k. rw H2 H1 -app_assoc /row_entry. f_equal. cbn [List.filter]. rw Hdoc. by case_decide; [destruct (doc_has f k doc)|].
Qed.

Lemma index_built : ∃ shards, build_snapshot_lookup_exact_index_shards_from_store store = Ok shards ∧ shards_built shards.
Proof.
  rw /build_snapshot_lookup_exact_index_shards_from_store. destruct Hstore as (-> & _ & _). fold all_rows.
  destruct (index_build_loop all_rows (replicate SNAPSHOT_LOOKUP_SHARD_COUNT ∅)) as (shards & Hf & Hl & Hi); [done|by rw length_replicate|].
  exists shards. split; [done|]. split; [done|]. intros j f k. rw Hi.
  assert (He : index_rows (default ∅ (replicate SNAPSHOT_LOOKUP_SHARD_COUNT ∅ !! j)) f k = []); [|by rw He].
  destruct (replicate _ _ !! j) as [x|] eqn:Hx; cbn; [apply lookup_replicate in Hx as [-> _]|]; by rw /index_rows lookup_empty.
Qed.

(** ** Workers *)

Record worker_ok (j : nat) (w : SnapshotLookupWorkerState) : Prop := {
  wo_store : w_row_store w = store;
  wo_exact : ∀ f k, index_rows (w_exact_indexes w) f k = if decide (shard_of k = j) then rows_with f k else [];
  wo_ordered : ∀ f o index, w_ordered_indexes w !! (f, o) = Some index → index = order_partition store o <$> default ∅ (w_exact_indexes w !! f);
}.

(** What a cache of these rows looks like between requests. *)
Record cache_ok (cache : SnapshotLookupCache) : Prop := {
  co_store : c_row_store cache = store;
  co_shards : c_shard_count cache = SNAPSHOT_LOOKUP_SHARD_COUNT;
  co_workers : length (c_workers cache) = SNAPSHOT_LOOKUP_SHARD_COUNT;
  co_ok : ∀ j w, c_workers cache !! j = Some w → worker_ok j w;
}.

Lemma spawned_ok shards row_count estimated_bytes : shards_built shards →
  cache_ok (mkLookupCache store row_count estimated_bytes SNAPSHOT_LOOKUP_SHARD_COUNT (spawn_snapshot_lookup_workers store shards)).
Proof.
  intros [Hl Hi]. split; [done|done|cbn; by rw /spawn_snapshot_lookup_workers length_fmap|]. cbn. intros j w. rw /spawn_snapshot_lookup_workers list_lookup_fmap.
  destruct (shards !! j) as [ix|] eqn:Hj; [|done]. intros [= <-]. split; [done| |done]. intros f k. cbn. by rw -Hi Hj.
Qed.

Lemma worker_at cache key : cache_ok cache → ∃ w, c_workers cache !! shard_of key = Some w ∧ worker_ok (shard_of key) w.
Proof.
  intros Hc. destruct (lookup_lt_is_Some_2 (c_workers cache) (shard_of key)) as [w Hw]; [rw co_workers //; apply shard_bound|]. exists w. split; [done|exact (co_ok _ Hc _ _ Hw)].
Qed.

Lemma exact_field_rows_spec cache key field values : cache_ok cache → Forall (λ v, shard_of v = shard_of key) values →
  exact_field_rows (shard_of key) field values cache = (Ok (values ≫= rows_with field), cache).
Proof.
  intros Hc Hv. destruct (worker_at cache key Hc) as (w & Hw & Hok). rw /exact_field_rows /with_worker Hw. cbn [st_gets].
  rw list_insert_id //. destruct cache. cbn. do 2 f_equal. rw /snapshot_worker_exact_field_rows.
  assert (Hrows : Forall (λ v, index_rows (w_exact_indexes w) field v = rows_with field v) values).
  { eapply Forall_impl; [exact Hv|]. intros v Hsv. by rw (wo_exact _ _ Hok) decide_True. }
  clear -Hrows. rw /index_rows in Hrows. destruct (w_exact_indexes w !! field) as [ix|]; cbn in Hrows.
  - induction Hrows as [|v values Hv _ IH]; [done|]. cbn. by rw Hv IH.
  - induction Hrows as [|v values Hv _ IH]; [done|]. cbn. by rw -Hv -IH.
Qed.

Lemma group_by_shard_spec values :
  (∀ v, v ∈ values → ∃ vs, group_by_shard SNAPSHOT_LOOKUP_SHARD_COUNT values !! shard_of v = Some vs ∧ v ∈ vs) ∧
  (∀ j vs, group_by_shard SNAPSHOT_LOOKUP_SHARD_COUNT values !! j = Some vs → ∃ v, shard_of v = j ∧ ∀ v', v' ∈ vs → shard_of v' = j ∧ v' ∈ values).
Proof.
  rw /group_by_shard. induction values as [|v values [IH1 IH2]] using rev_ind; [split; [by intros v ?%not_elem_of_nil|done]|].
  rw foldl_app. cbn [foldl]. set (g := foldl _ _ values) in *. fold (shard_of v). split.
  - intros v' [Hv'| ->%list_elem_of_singleton]%elem_of_app.
    + destruct (IH1 v' Hv') as (vs & Hvs & Hin). destruct (decide (shard_of v = shard_of v')) as [Hs|Hs].
      * rw Hs lookup_insert_eq Hvs. eexists. split; [done|]. cbn. rw elem_of_app. by left.
      * rw lookup_insert_ne //. eauto.
    + rw lookup_insert_eq. eexists. split; [done|]. rw elem_of_app list_elem_of_singleton. by right.
  - intros j vs. destruct (decide (shard_of v = j)) as [<-|Hs].
    + rw lookup_insert_eq. intros [= <-]. exists v. split; [done|]. intros v' [Hv'| ->%list_elem_of_singleton]%elem_of_app.
      * destruct (g !! shard_of v) as [vs|] eqn:Hvs; [|by apply not_elem_of_nil in Hv']. cbn in Hv'.
        destruct (IH2 _ _ Hvs) as (_ & _ & H). destruct (H v' Hv'). rw elem_of_app. auto.
      * rw elem_of_app list_elem_of_singleton. auto.
    + rw lookup_insert_ne //. intros (w & Hw & H)%IH2. exists w. split; [done|]. intros v' Hv'. destruct (H v' Hv'). rw elem_of_app. auto.
Qed.

Lemma predicate_rows_spec cache p : cache_ok cache → ∃ rows, predicate_rows p cache = (Ok rows, cache) ∧
  ∀ r, r ∈ rows ↔ ∃ v, v ∈ elp_values p ∧ r ∈ rows_with (elp_field p) v.
Proof.
  intros Hc. rw /predicate_rows (st_bind_Ok _ _ cache (c_shard_count cache) cache) // (co_shards _ Hc).
  destruct (group_by_shard_spec (elp_values p)) as [H1 H2]. set (g := group_by_shard _ _) in *.
  assert (Hfold : ∀ l (acc : gset Z), (∀ j vs, (j, vs) ∈ l → g !! j = Some vs) → ∃ rows : gset Z,
    st_fold (λ (rows : gset Z) '(shard_index, values), exact_field_rows shard_index (elp_field p) values ≫= λ row_refs, mret (rows ∪ list_to_set row_refs)) acc l cache = (Ok rows, cache) ∧
    ∀ r, r ∈ rows ↔ r ∈ acc ∨ ∃ j vs v, (j, vs) ∈ l ∧ v ∈ vs ∧ r ∈ rows_with (elp_field p) v).
  { induction l as [|[j vs] l IH]; intros acc Hl; cbn [st_fold].
    { eexists. split; [done|]. intros r. split; [by left|]. intros [?|(? & ? & ? & []%not_elem_of_nil & _)]. done. }
    destruct (H2 j vs) as (w & <- & Hw); [apply Hl; by left|].
    assert (He : exact_field_rows (shard_of w) (elp_field p) vs cache = (Ok (vs ≫= rows_with (elp_field p)), cache)).
    { apply exact_field_rows_spec; [done|]. apply Forall_forall. intros v' Hv'. by apply Hw. }
    destruct (IH (acc ∪ list_to_set (vs ≫= rows_with (elp_field p)))) as (rows & Hr & Hspec); [intros; apply Hl; by right|].
    exists rows. split. { rw (st_bind_Ok _ _ cache (acc ∪ list_to_set (vs ≫= rows_with (elp_field p))) cache) //. by rw (st_bind_Ok _ _ _ _ _ He). }
    intros r. rw Hspec elem_of_union elem_of_list_to_set list_elem_of_bind. split.
    - intros [[?|(v & ? & ?)]|(j' & vs' & v & ? & ?)]; [by left|right; exists (shard_of w), vs, v; split; [by left|done]|].
      right. exists j', vs', v. split; [by right|done].
    - intros [?|(j' & vs' & v & [[= -> ->]|?]%elem_of_cons & Hv & Hrv)]; [by left; left|left; right; eauto|right; eauto 6]. }
  destruct (Hfold (hash_iter g) ∅) as (rows & -> & Hspec); [intros j vs; by rw elem_of_hash_iter|]. exists rows. split; [done|].
  intros r. rw Hspec. split.
  - intros [[]%not_elem_of_empty|(j & vs & v & Hin & Hv & Hr)]. rw elem_of_hash_iter in Hin. destruct (H2 _ _ Hin) as (_ & _ & Hw). exists v. split; [by apply Hw|done].
  - intros (v & Hv & Hr). right. destruct (H1 v Hv) as (vs & Hvs & Hin). exists (shard_of v), vs, v. by rw elem_of_hash_iter.
Qed.

(** ** Exact lookups *)

Definition doc_matches (predicates : list ExactLookupPredicate) (doc : Object) : bool :=
  forallb (λ p, existsb (λ v, doc_has (elp_field p) v doc) (elp_values p)) predicates.

Lemma elem_of_rows_with r f k : r ∈ rows_with f k ↔ r ∈ all_rows ∧ doc_has f k (doc_at r) = true.
Proof. rw /rows_with list_elem_of_In List.filter_In -list_elem_of_In. done. Qed.

Lemma matching_rows_spec cache predicates matching : cache_ok cache → (predicates ≠ [] ∨ is_Some matching) →
  (∀ m, matching = Some m → ∀ r, r ∈ m → r ∈ all_rows) → ∃ rows,
  matching_rows predicates matching cache = (Ok rows, cache) ∧
  ∀ r, r ∈ rows ↔ r ∈ all_rows ∧ match matching with Some m => r ∈ m | None => True end ∧ doc_matches predicates (doc_at r) = true.
Proof.
  intros Hc. revert matching. induction predicates as [|p predicates IH]; intros matching Hne Hm; cbn [matching_rows].
  { destruct matching as [m|]; [|naive_solver]. exists m. split; [done|]. cbn. intros r. split; [|naive_solver]. intros Hr. split; [by eapply Hm|done]. }
  destruct (predicate_rows_spec cache p Hc) as (rows & Hrows & Hspec). rw (st_bind_Ok _ _ _ _ _ Hrows).
  set (m' := match matching with Some existing => existing ∩ rows | None => rows end).
  assert (Hm' : ∀ r, r ∈ m' ↔ r ∈ all_rows ∧ match matching with Some m => r ∈ m | None => True end ∧ existsb (λ v, doc_has (elp_field p) v (doc_at r)) (elp_values p) = true).
  { intros r. assert (Hp : r ∈ rows ↔ r ∈ all_rows ∧ existsb (λ v, doc_has (elp_field p) v (doc_at r)) (elp_values p) = true).
    { rw Hspec existsb_exists. setoid_rewrite elem_of_rows_with. setoid_rewrite list_elem_of_In. naive_solver. }
    rw /m'. destruct matching as [m|]; [rw elem_of_intersection Hp; naive_solver|rw Hp; naive_solver]. }
  case_decide as Hempty.
  - exists ∅. split; [done|]. intros r. split; [by intros []%not_elem_of_empty|]. intros (Ha & Hb & Hd). exfalso. cbn [doc_matches forallb] in Hd. apply andb_true_iff in Hd as [Hd _].
    apply (not_elem_of_empty (C:=gset Z) r). rw -Hempty. by apply Hm'.
  - destruct (IH (Some m')) as (rows' & Hr' & Hspec'); [by right|by intros m [= <-] r [? _]%Hm'|]. exists rows'. split; [done|]. intros r. rw Hspec' Hm'.
    cbn [doc_matches forallb]. rw andb_true_iff. fold (doc_matches predicates (doc_at r)). naive_solver.
Qed.

Lemma all_rows_sorted : StronglySorted Z.lt all_rows.
Proof.
  rw /all_rows. generalize (Z.of_nat (length documents)) 0%Z. intros n. rw /seqZ. generalize (Z.to_nat n). clear. intros n m.
  enough (H : ∀ k, StronglySorted Z.lt ((λ i : nat, (Z.of_nat i + m)%Z) <$> seq k n)) by apply H.
  induction n as [|n IH]; intros k; cbn; [constructor|]. constructor; [apply IH|]. apply Forall_forall. intros z (i & -> & Hi%elem_of_seq)%list_elem_of_fmap. lia.
Qed.

Lemma sorted_filter_unique (p : Z → bool) (l : list Z) : NoDup l → (∀ r, r ∈ l ↔ r ∈ all_rows ∧ p r = true) → sort_by Z.compare l = List.filter p all_rows.
Proof.
  intros Hnd Hl. assert (Hanti : AntiSymm (=) (cmp_le Z.compare)). { intros x y. rw /cmp_le !Z.compare_le_iff. lia. }
  apply (StronglySorted_unique (cmp_le Z.compare)); [apply (sort_by_in_order Z.compare l)| |].
  - clear Hl. pose proof all_rows_sorted as Hs. induction Hs as [|x xs Hs IH Hx]; cbn; [constructor|]. destruct (p x); [|done]. constructor; [done|].
    apply Forall_forall. intros y Hy. rw list_elem_of_In List.filter_In -list_elem_of_In in Hy. rw Forall_forall in Hx. rw /cmp_le Z.compare_le_iff.
    destruct Hy as [Hy _]. apply Hx in Hy. lia.
  - rw sort_by_perm. apply NoDup_Permutation; [done| |].
    + apply NoDup_ListNoDup, List.NoDup_filter, NoDup_ListNoDup, NoDup_seqZ.
    + intros r. rw Hl (list_elem_of_In (List.filter p all_rows)) List.filter_In -list_elem_of_In. done.
Qed.

Lemma exact_lookup_spec cache predicates limit : cache_ok cache → predicates ≠ [] →
  execute_snapshot_exact_lookup_row_refs predicates limit cache = (Ok (take limit (List.filter (λ r, doc_matches predicates (doc_at r)) all_rows)), cache).
Proof.
  intros Hc Hne. destruct (matching_rows_spec cache predicates None Hc) as (rows & Hrows & Hspec); [by left|done|].
  rw /execute_snapshot_exact_lookup_row_refs (st_bind_Ok _ _ _ _ _ Hrows). unfold mret, st_ret. do 3 f_equal. apply sorted_filter_unique; [apply NoDup_elements|].
  intros r. rw elem_of_elements Hspec. naive_solver.
Qed.

(** ** Range lookups *)

Definition range_of (f : ReadPredicate) : RangeLookupPredicate := mkRangePredicate (rp_field f) (rp_gt f) (rp_gte f) (rp_lt f) (rp_lte f).

Definition doc_in_range (range : RangeLookupPredicate) (doc : Object) : bool :=
  match obj_get (rl_field range) doc with Some v => negb (is_null v) && value_in_range v range | None => false end.
Definition doc_in (range : option RangeLookupPredicate) (doc : Object) : bool := match range with Some range => doc_in_range range doc | None => true end.

Lemma row_matches_range r range : r ∈ all_rows → snapshot_row_matches_range store r range = Ok (doc_in_range range (doc_at r)).
Proof.
  intros Hr. rw /snapshot_row_matches_range /doc_in_range field_value_at //. destruct (obj_get _ _) as [v|]; [|done]. by destruct (is_null v).
Qed.

Lemma range_scan_spec range limit acc rows : Forall (λ r, r ∈ all_rows) rows → length acc < Nat.max 1 limit →
  range_scan store range limit acc rows = Ok (take (Nat.max 1 limit) (acc ++ List.filter (λ r, doc_in range (doc_at r)) rows)).
Proof.
  intros Hrows. revert acc. induction Hrows as [|r rows Hr _ IH]; intros acc Hacc; cbn [range_scan List.filter].
  { rw app_nil_r take_ge //. lia. }
  assert (Hm : (match range with Some range => snapshot_row_matches_range store r range | None => Ok true end) = Ok (doc_in range (doc_at r))).
  { destruct range; [by apply row_matches_range|done]. }
  rw Hm bind_Ok. destruct (doc_in range (doc_at r)); [|by apply IH].
  assert (Hl : length (acc ++ [r]) = S (length acc)) by (rw length_app; cbn; lia).
  replace (acc ++ r :: List.filter (λ r0, doc_in range (doc_at r0)) rows) with ((acc ++ [r]) ++ List.filter (λ r0, doc_in range (doc_at r0)) rows) by by rw -app_assoc.
  destruct (Nat.leb_spec limit (length (acc ++ [r]))); [|apply IH; lia].
  rw take_app_le; [lia|]. rw take_ge //. lia.
Qed.

Definition by_field (field : string) (left right : Z) : comparison :=
  compare_row_values (obj_get field (doc_at left)) (obj_get field (doc_at right)) false.

Lemma order_partition_spec o rows : Forall (λ r, r ∈ all_rows) rows → order_partition store o rows = sort_by (by_field o) rows.
Proof.
  intros Hrows. rw Forall_forall in Hrows. apply sort_by_ext. intros x y Hx Hy. by rw /by_field !field_value_at; [apply Hrows..|].
Qed.

Lemma rows_with_in f k : Forall (λ r, r ∈ all_rows) (rows_with f k).
Proof. apply Forall_forall. by intros r [? _]%elem_of_rows_with. Qed.

Lemma ensure_ordered_spec j w f o : worker_ok j w → worker_ok j (ensure_ordered f o w) ∧
  w_ordered_indexes (ensure_ordered f o w) !! (f, o) = Some (order_partition store o <$> default ∅ (w_exact_indexes w !! f)).
Proof.
  intros Hok. rw /ensure_ordered. destruct (w_ordered_indexes w !! (f, o)) as [ix|] eqn:Hix.
  { split; [done|]. by rw Hix (wo_ordered _ _ Hok _ _ _ Hix). }
  rw (wo_store _ _ Hok). cbn [w_ordered_indexes]. rw lookup_insert_eq. split.
  - split; [done|apply (wo_exact _ _ Hok)|]. cbn. intros f' o' ix'. destruct (decide ((f, o) = (f', o'))) as [[= <- <-]|Hne].
    + rw lookup_insert_eq. intros [= <-]. destruct (w_exact_indexes w !! f); [done|]. cbn. by rw fmap_empty.
    + rw lookup_insert_ne //. apply (wo_ordered _ _ Hok).
  - destruct (w_exact_indexes w !! f); [done|]. cbn. by rw fmap_empty.
Qed.

Definition range_rows (eq_field : string) (eq_value : SnapshotLookupKey) (order_field : string) (descending : bool) (range : option RangeLookupPredicate) : list Z :=
  let ordered := sort_by (by_field order_field) (rows_with eq_field eq_value) in
  List.filter (λ r, doc_in range (doc_at r)) (if descending then reverse ordered else ordered).

Lemma with_worker_ok {A} cache key (m : ST SnapshotLookupWorkerState A) a : cache_ok cache →
  (∀ w, worker_ok (shard_of key) w → ∃ w', m w = (Ok a, w') ∧ worker_ok (shard_of key) w') →
  ∃ cache', with_worker (shard_of key) m cache = (Ok a, cache') ∧ cache_ok cache'.
Proof.
  intros Hc Hm. destruct (worker_at cache key Hc) as (w & Hw & Hok). destruct (Hm w Hok) as (w' & Hmw & Hok'). rw /with_worker Hw Hmw. eexists. split; [done|].
  split; cbn; [apply Hc|apply Hc|rw length_insert; apply Hc|]. intros j v. destruct (decide (shard_of key = j)) as [<-|Hj].
  - rw list_lookup_insert_eq; [rw (co_workers _ Hc); apply shard_bound|]. by intros [= <-].
  - rw list_lookup_insert_ne //. apply (co_ok _ Hc).
Qed.

Lemma range_lookup_spec cache eq_field eq_value order_field descending range limit : cache_ok cache → ∃ cache',
  execute_snapshot_key_range_lookup_row_refs eq_field eq_value order_field descending range limit cache =
    (Ok (take (Nat.max 1 limit) (range_rows eq_field eq_value order_field descending range)), cache') ∧ cache_ok cache'.
Proof.
  intros Hc. rw /execute_snapshot_key_range_lookup_row_refs (st_bind_Ok _ _ cache (c_shard_count cache) cache) // (co_shards _ Hc). fold (shard_of eq_value).
  apply with_worker_ok; [done|]. intros w Hok. destruct (ensure_ordered_spec _ w eq_field order_field Hok) as [Hok' Hord].
  set (w' := ensure_ordered eq_field order_field w) in *. exists w'. split; [|done].
  rw /snapshot_worker_key_range_rows (st_bind_Ok _ _ w () w') // (st_bind_Ok _ _ w' (w_ordered_indexes w' !! (eq_field, order_field) ≫= lookup eq_value, w_row_store w') w') //.
  rw Hord (wo_store _ _ Hok'). cbn [mbind option_bind]. rw lookup_fmap.
  pose proof (wo_exact _ _ Hok eq_field eq_value) as He. rw decide_True // /index_rows in He.
  set (ordered := sort_by (by_field order_field) (rows_with eq_field eq_value)) in *.
  assert (Hin : Forall (λ r, r ∈ all_rows) (if descending then reverse ordered else ordered)).
  { pose proof (rows_with_in eq_field eq_value) as Hin. rw -(sort_by_perm (by_field order_field) (rows_with eq_field eq_value)) in Hin. destruct descending; [by rw reverse_Permutation|done]. }
  destruct (w_exact_indexes w !! eq_field) as [ix|]; cbn [default id] in He |- *.
  2: { rw lookup_empty. rw /range_rows -He. by destruct descending; cbn [sort_by reverse rev_append List.filter]; rw take_nil. }
  cbn [mbind option_bind] in He. destruct (ix !! eq_value) as [rows|]; cbn [default id fmap option_fmap option_map] in He |- *.
  2: { rw /range_rows -He. by destruct descending; cbn [sort_by reverse rev_append List.filter]; rw take_nil. }
  subst rows. rw order_partition_spec; [apply rows_with_in|]. rw /st_lift range_scan_spec; [exact Hin|cbn; lia|done].
Qed.

(** ** Requests *)

Definition key_matches (field : string) (doc : Object) (value : Value) : bool :=
  match encode_exact_lookup_key value with Some key => doc_has field key doc | None => false end.

(** A document against one filter of a request. *)
Definition filter_matches (f : ReadPredicate) (doc : Object) : bool :=
  if predicate_uses_range f then doc_in_range (range_of f) doc
  else match rp_eq f with
       | Some value => key_matches (rp_field f) doc value
       | None => existsb (key_matches (rp_field f) doc) (default [] (rp_in_values f))
       end.

(** The field that orders the answer: the requested one, else that of the range. *)
Definition order_key (request : ReadPlan) : option (string * bool) :=
  match rd_order_by request with
  | sort :: _ => Some (rs_field sort, rs_descending sort)
  | [] => (λ f, (rp_field f, false)) <$> find predicate_uses_range (rd_filters request)
  end.

(** The rows a request selects, read one by one: those that match every filter, in the
    order of the key, descending orders being the reverse of ascending ones. *)
Definition scan_rows (request : ReadPlan) : list Z :=
  let matched := List.filter (λ r, forallb (λ f, filter_matches f (doc_at r)) (rd_filters request)) all_rows in
  match order_key request with
  | Some (field, descending) => let ordered := sort_by (by_field field) matched in if descending then reverse ordered else ordered
  | None => matched
  end.

Lemma exact_predicate_matches f p doc : exact_predicate f = Some p → predicate_uses_range f = false ∧
  existsb (λ v, doc_has (elp_field p) v doc) (elp_values p) = filter_matches f doc.
Proof.
  rw /exact_predicate /filter_matches. destruct (predicate_uses_range f); [done|]. intros H. split; [done|].
  destruct (rp_eq f) as [v|].
  - rw /key_matches. destruct (encode_exact_lookup_key v) as [k|]; [|done]. injection H as <-. cbn. by rw orb_false_r.
  - destruct (rp_in_values f) as [vs|]; [|done]. cbn [default]. destruct (bool_decide _ || _); [done|].
    destruct (mapM _ vs) as [ks|] eqn:Hks in H; [|done]. cbn in H. case_decide; [done|]. injection H as <-. cbn.
    apply mapM_Some in Hks. apply eq_bool_prop_intro. rw !Is_true_true !existsb_exists. setoid_rewrite <- list_elem_of_In. setoid_rewrite elem_of_dedup. setoid_rewrite elem_of_sort_by.
    rw /key_matches. split.
    + intros (k & Hk & Hd). apply list_elem_of_lookup in Hk as [i Hi]. destruct (Forall2_lookup_r _ _ _ _ _ Hks Hi) as (v & Hv & He). exists v. split; [exact (list_elem_of_lookup_2 _ _ _ Hv)|]. by rw He.
    + intros (v & Hv & Hd). apply list_elem_of_lookup in Hv as [i Hi]. destruct (Forall2_lookup_l _ _ _ _ _ Hks Hi) as (k & Hk & He). exists k. split; [exact (list_elem_of_lookup_2 _ _ _ Hk)|]. by rw He in Hd.
Qed.

Lemma exact_plan_matches request predicates : exact_lookup_predicates request = Some predicates →
  predicates ≠ [] ∧ order_key request = None ∧ ∀ doc, doc_matches predicates doc = forallb (λ f, filter_matches f doc) (rd_filters request).
Proof.
  rw /exact_lookup_predicates. destruct (is_some (rd_aggregate request)); [done|]. destruct (bool_decide_reflect (rd_order_by request = [])) as [Ho|]; [|done].
  destruct (_ <? _); [done|]. destruct (is_some (rd_search_after request)); [done|]. cbn [negb orb].
  destruct (mapM exact_predicate (rd_filters request)) as [ps|] eqn:Hps; [|done]. cbn. case_decide as Hne; [done|]. intros [= <-]. split; [done|]. clear Hne. apply mapM_Some in Hps.
  rw /order_key Ho. split.
  - induction Hps as [|f p fs ps Hp Hps IH]; [done|]. destruct (exact_predicate_matches f p [] Hp) as [Hr _]. cbn. rw Hr. done.
  - intros doc. rw /doc_matches. induction Hps as [|f p fs ps Hp _ IH]; [done|]. cbn. rw IH. f_equal. by apply exact_predicate_matches.
Qed.

(** The state of the planning loop says which filters it has seen. *)
Definition plan_state_matches (state : PlanState) (doc : Object) : bool :=
  match ps_eq state with Some (f, k) => doc_has f k doc | None => true end && doc_in (ps_range state) doc.

Lemma plan_filter_matches state f state' : plan_filter state f = Some state' →
  (∀ doc, plan_state_matches state' doc = plan_state_matches state doc && filter_matches f doc) ∧
  (match ps_range state with Some _ => ps_range state' = ps_range state ∧ predicate_uses_range f = false
   | None => ps_range state' = if predicate_uses_range f then Some (range_of f) else None end).
Proof.
  rw /plan_filter /plan_state_matches /filter_matches. destruct (predicate_uses_range f), (predicate_uses_eq f); try done.
  - destruct (ps_range state) as [rg|] eqn:Hr; [done|]. intros [= <-]. cbn. split; [|done]. intros doc. by rw andb_true_r.
  - destruct (ps_eq state) as [|] eqn:He; [done|]. intros H. cbn [andb] in *.
    assert (Hgoal : ∃ k, state' = mkPlanState (Some (rp_field f, k)) (ps_range state) ∧ ∀ doc, doc_has (rp_field f) k doc =
      match rp_eq f with Some value => key_matches (rp_field f) doc value | None => existsb (key_matches (rp_field f) doc) (default [] (rp_in_values f)) end).
    { destruct (rp_eq f) as [v|].
      - destruct (encode_exact_lookup_key v) as [k|] eqn:Hk; [|done]. injection H as <-. exists k. split; [done|]. intros doc. by rw /key_matches Hk.
      - destruct (rp_in_values f) as [[|v [|]]|]; try done. destruct (encode_exact_lookup_key v) as [k|] eqn:Hk; [|done]. injection H as <-. exists k.
        split; [done|]. intros doc. cbn. by rw /key_matches Hk orb_false_r. }
    destruct Hgoal as (k & -> & Hk). cbn [ps_eq ps_range]. split; [intros doc; by rw Hk andb_comm|]. by destruct (ps_range state).
Qed.

Lemma plan_filters_matches filters state state' : plan_filters state filters = Some state' →
  (∀ doc, plan_state_matches state' doc = plan_state_matches state doc && forallb (λ f, filter_matches f doc) filters) ∧
  ps_range state' = match ps_range state with Some r => Some r | None => range_of <$> find predicate_uses_range filters end.
Proof.
  revert state. induction filters as [|f filters IH]; intros state; cbn [plan_filters].
  { intros [= <-]. cbn. split; [intros; by rw andb_true_r|by destruct (ps_range state)]. }
  destruct (plan_filter state f) as [s1|] eqn:H1; [|done]. cbn. intros [Hm Hr]%IH. apply plan_filter_matches in H1 as [H1 H2]. split.
  - intros doc. by rw Hm H1 -andb_assoc.
  - rw Hr. destruct (ps_range state) as [r|]; [by destruct H2 as [-> _]|]. rw H2. by destruct (predicate_uses_range f).
Qed.

Lemma reverse_filter {A} (p : A → bool) l : List.filter p (reverse l) = reverse (List.filter p l).
Proof.
  induction l as [|x l IH]; [done|]. rw reverse_cons List.filter_app IH. cbn [List.filter]. destruct (p x); [by rw reverse_cons|by rw app_nil_r].
Qed.

Lemma by_field_total field : TotalPreorder (by_field field).
Proof. apply (total_on (λ r, obj_get field (doc_at r)) (λ v w, compare_row_values v w false)), (total_on (default VNull) compare_values), _. Qed.

(** The rows of a range plan are those of the scan. *)
Lemma range_rows_scan eq_field eq_value order_field descending range request :
  (∀ doc, doc_has eq_field eq_value doc && doc_in range doc = forallb (λ f, filter_matches f doc) (rd_filters request)) →
  order_key request = Some (order_field, descending) → range_rows eq_field eq_value order_field descending range = scan_rows request.
Proof.
  intros Hm Ho. rw /range_rows /scan_rows Ho. set (p := λ r, doc_in range (doc_at r)).
  assert (Hf : List.filter p (sort_by (by_field order_field) (rows_with eq_field eq_value)) =
    sort_by (by_field order_field) (List.filter (λ r, forallb (λ f, filter_matches f (doc_at r)) (rd_filters request)) all_rows)).
  { pose proof (by_field_total order_field). rw (sort_by_filter (by_field order_field) p) /rows_with. f_equal.
    induction all_rows as [|r rows IH]; [done|]. cbn. rw -Hm -IH /p. by destruct (doc_has eq_field eq_value (doc_at r)). }
  destruct descending; [by rw reverse_filter Hf|done].
Qed.

Lemma plan_scan request plan : snapshot_lookup_plan request = Some plan →
  match plan with
  | PlanExact predicates => predicates ≠ [] ∧ List.filter (λ r, doc_matches predicates (doc_at r)) all_rows = scan_rows request
  | PlanKeyRange eq_field eq_value order_field descending range => range_rows eq_field eq_value order_field descending range = scan_rows request
  end.
Proof.
  rw /snapshot_lookup_plan. destruct (exact_lookup_predicates request) as [ps|] eqn:Hps.
  { intros [= <-]. apply exact_plan_matches in Hps as (Hne & Ho & Hm). split; [done|]. rw /scan_rows Ho.
    induction all_rows as [|r rows IH]; [done|]. cbn. by rw Hm IH. }
  destruct (_ || _); [done|]. destruct (plan_filters _ _) as [state|] eqn:Hst; [|done]. cbn [mbind option_bind]. apply plan_filters_matches in Hst as [Hm Hr]. cbn in Hr, Hm.
  destruct (ps_eq state) as [[ef ev]|] eqn:He; [|done]. cbn [mbind option_bind]. intros (o & Ho & [= <-])%bind_Some.
  apply range_rows_scan.
  - intros doc. rw -Hm /plan_state_matches He. done.
  - rw /order_key. destruct (rd_order_by request) as [|sort rest].
    + rw Hr in Ho. destruct (find predicate_uses_range (rd_filters request)); [|done]. by injection Ho as <-.
    + destruct (ps_range state); case_decide; try done; by injection Ho as <-.
Qed.

Lemma lookup_scan cache request plan limit : cache_ok cache → snapshot_lookup_plan request = Some plan → 1 ≤ limit →
  ∃ cache', plan_row_refs plan limit cache = (Ok (take limit (scan_rows request)), cache') ∧ cache_ok cache'.
Proof.
  intros Hc Hp%plan_scan Hl. destruct plan as [ps|f k o d rg]; cbn [plan_row_refs].
  - destruct Hp as [Hne <-]. exists cache. split; [by apply exact_lookup_spec|done].
  - destruct (range_lookup_spec cache f k o d rg limit Hc) as (cache' & Hr & Hc'). exists cache'. split; [|done]. by rw Hr Hp Nat.max_r.
Qed.
End index.
End SnapshotLookupTheory.
