(* ===== verification/SnapshotServing.v ===== *)
(** * Snapshots of checkpoints (query_runtime/src/lakehouse_serving.rs)

    The snapshots the process keeps, by checkpoint, how they are built from an artifact or
    from the files of the checkpoint, and the entry points that answer point lookups from
    them. *)

From S2P Require Import Prelude Text Bytes StableSort Schema Json JsonText SnapshotCodec FileSet Contract Checkpoint QueryPath Pruning Planner SnapshotLookup.

(** ** Artifacts *)

(** SRC query_runtime/src/lakehouse_serving.rs:340-344 SnapshotLookupArtifact *)
Inductive SnapshotLookupArtifact : Type := LookupMmap (location : string) | LookupParquet (location : string).

(** SRC query_runtime/src/lakehouse_serving.rs:346-350 SnapshotExactLookupArtifact *)
Inductive SnapshotExactLookupArtifact : Type := ExactMmap (location : string) | ExactParquet (location : string).

Definition SNAPSHOT_EXACT_LOOKUP_EXTENSION_SUFFIX : string := "snapshot_exact_lookup".
Definition SNAPSHOT_EXACT_LOOKUP_MMAP_EXTENSION_SUFFIX : string := "snapshot_exact_lookup_mmap".
Definition SNAPSHOT_LOOKUP_EXTENSION_SUFFIX : string := "snapshot_lookup".
Definition SNAPSHOT_LOOKUP_MMAP_EXTENSION_SUFFIX : string := "snapshot_lookup_mmap".

(** SRC query_runtime/src/lakehouse_serving.rs:1886-1888 checkpoint_cache_key *)
Definition checkpoint_cache_key (checkpoint : CheckpointDescriptor) : string := cd_table_name checkpoint +:+ ":" +:+ cd_checkpoint_id checkpoint.

(** The lookup by suffix of the four functions below. *)
Definition artifact_location (suffix checkpoint_id : string) (extension_files : gmap string (list ExtensionFile)) : option string :=
  extension_files ← extension_files !! checkpoint_extension_metadata_key checkpoint_id;
  ef_location <$> find (λ extension, bool_decide (ef_suffix extension = suffix)) extension_files.

(** SRC query_runtime/src/lakehouse_serving.rs:1890-1903 snapshot_lookup_artifact_location *)
Definition snapshot_lookup_artifact_location (checkpoint_id : string) (extension_files : gmap string (list ExtensionFile)) : option string :=
  artifact_location SNAPSHOT_LOOKUP_EXTENSION_SUFFIX checkpoint_id extension_files.

(** SRC query_runtime/src/lakehouse_serving.rs:1905-1918 snapshot_lookup_mmap_artifact_location *)
Definition snapshot_lookup_mmap_artifact_location (checkpoint_id : string) (extension_files : gmap string (list ExtensionFile)) : option string :=
  artifact_location SNAPSHOT_LOOKUP_MMAP_EXTENSION_SUFFIX checkpoint_id extension_files.

(** SRC query_runtime/src/lakehouse_serving.rs:1920-1930 snapshot_lookup_artifact *)
Definition snapshot_lookup_artifact (checkpoint_id : string) (extension_files : gmap string (list ExtensionFile)) : option SnapshotLookupArtifact :=
  match snapshot_lookup_mmap_artifact_location checkpoint_id extension_files with
  | Some location => Some (LookupMmap location)
  | None => LookupParquet <$> snapshot_lookup_artifact_location checkpoint_id extension_files
  end.

(** SRC query_runtime/src/lakehouse_serving.rs:1932-1945 snapshot_exact_lookup_artifact_location *)
Definition snapshot_exact_lookup_artifact_location (checkpoint_id : string) (extension_files : gmap string (list ExtensionFile)) : option string :=
  artifact_location SNAPSHOT_EXACT_LOOKUP_EXTENSION_SUFFIX checkpoint_id extension_files.

(** SRC query_runtime/src/lakehouse_serving.rs:1947-1960 snapshot_exact_lookup_mmap_artifact_location *)
Definition snapshot_exact_lookup_mmap_artifact_location (checkpoint_id : string) (extension_files : gmap string (list ExtensionFile)) : option string :=
  artifact_location SNAPSHOT_EXACT_LOOKUP_MMAP_EXTENSION_SUFFIX checkpoint_id extension_files.

(** SRC query_runtime/src/lakehouse_serving.rs:1962-1972 snapshot_exact_lookup_artifact *)
Definition snapshot_exact_lookup_artifact (checkpoint_id : string) (extension_files : gmap string (list ExtensionFile)) : option SnapshotExactLookupArtifact :=
  match snapshot_exact_lookup_mmap_artifact_location checkpoint_id extension_files with
  | Some location => Some (ExactMmap location)
  | None => ExactParquet <$> snapshot_exact_lookup_artifact_location checkpoint_id extension_files
  end.

(** One entry of the loop below. *)
Definition flatten_entry (flattened : gmap string (list ExtensionFile)) (entry : string * list ExtensionFile) : gmap string (list ExtensionFile) :=
  let '(file_path, extension_files) := entry in
  let known := foldl (λ known extension_file,
    if existsb (λ existing, bool_decide (ef_suffix existing = ef_suffix extension_file) && bool_decide (ef_location existing = ef_location extension_file)) known
    then known else known ++ [extension_file]) (default [] (flattened !! file_path)) extension_files in
  <[file_path := sort_by (λ left right, String.compare (ef_suffix left) (ef_suffix right)) known]> flattened.

(** SRC query_runtime/src/lakehouse_serving.rs:5257-5276 flatten_extension_files *)
Definition flatten_extension_files `{HashOrder} (checkpoint : TableMetadataCheckpoint) : gmap string (list ExtensionFile) :=
  foldl (λ flattened '(_, files_by_path), foldl flatten_entry flattened (hash_iter files_by_path)) ∅ (hash_iter (cp_extension_metadata checkpoint)).

(** ** Where rows come from *)

(** SRC query_lib/src/query_execution.rs:12-16 QueryExtensionFileSpec *)
Record QueryExtensionFileSpec : Type := mkExtensionSpec { qe_suffix : string; qe_file_path : string }.

(** SRC query_lib/src/query_execution.rs:18-22 QueryStorageKind *)
Inductive QueryStorageKind : Type := Iceberg | Speedboat.
#[global] Instance QueryStorageKind_eq_dec : EqDecision QueryStorageKind.
Proof. solve_decision. Defined.

(** SRC query_lib/src/query_execution.rs:24-29 QueryInputFile *)
Record QueryInputFile : Type := mkQueryInput { qi_file : FileDescriptor; qi_storage : QueryStorageKind; qi_extensions : list QueryExtensionFileSpec }.

(** SRC query_runtime/src/lakehouse_serving.rs:4374-4383 iceberg_query_inputs *)
Definition iceberg_query_inputs (files : list FileDescriptor) : list QueryInputFile := (λ file, mkQueryInput file Iceberg []) <$> files.

(** SRC query_runtime/src/lakehouse_serving.rs:4385-4395 speedboat_query_inputs *)
Definition speedboat_query_inputs (files : list FileDescriptor) : list QueryInputFile := (λ file, mkQueryInput file Speedboat []) <$> files.

(** Files are fetched to local disk, artifacts and tables are read with the SQL engine:
    [execute_query_plan_batches sql files delete_files] runs a template over files,
    [query_file path sql] loads one file as a table and runs the SQL made for its name.
    Rows arrive in batches, read as documents. *)
Class SnapshotSource : Type := {
  materialize_local_file : string → outcome string;
  query_file : string → (string → string) → outcome (list (list Object));
  execute_query_plan_batches : string → list QueryInputFile → list string → outcome (list (list Object));
}.

(** SRC query_runtime/src/lakehouse_serving.rs:2973-2990 load_snapshot_lookup_artifact_batches *)
Definition load_snapshot_lookup_artifact_batches `{SnapshotSource} (artifact : string) : outcome (list (list Object)) :=
  query_file artifact (λ local_name, "SELECT * FROM " +:+ local_name).

(** SRC query_runtime/src/lakehouse_serving.rs:2992-2998 snapshot_lookup_full_scan_sql *)
Definition snapshot_lookup_full_scan_sql (include_delete_filter : bool) : string :=
  if include_delete_filter
  then "SELECT t.* FROM {target_table} t" +:+ delete_join +:+ " WHERE dt._id_seq_no IS NULL"
  else "SELECT * FROM {target_table}".

Section serving.
Context `{jt : JsonText, ft : FloatText, ho : HashOrder, kh : KeyHasher, src : SnapshotSource}.

(** SRC query_runtime/src/lakehouse_serving.rs:2788-2810 build_mmap_snapshot_lookup_cache *)
Definition build_mmap_snapshot_lookup_cache (artifact : string) : outcome SnapshotLookupCache :=
  file ← materialize_local_file artifact;
  mmap_rows ← mmap_open file;
  let row_store := Mmap mmap_rows in
  shards ← build_snapshot_lookup_exact_index_shards_from_store row_store;
  Ok (mkLookupCache row_store (row_count mmap_rows) (str_len file) SNAPSHOT_LOOKUP_SHARD_COUNT (spawn_snapshot_lookup_workers row_store shards)).

(** SRC query_runtime/src/lakehouse_serving.rs:2728-2757 build_snapshot_lookup_cache *)
Definition build_snapshot_lookup_cache (artifact : option SnapshotLookupArtifact) (files : list FileDescriptor) (delete_files : list string) : outcome SnapshotLookupCache :=
  match artifact with
  | Some (LookupMmap artifact) => build_mmap_snapshot_lookup_cache artifact
  | Some (LookupParquet artifact) => batches ← load_snapshot_lookup_artifact_batches artifact; build_in_memory_snapshot_lookup_cache batches
  | None =>
      let sql := snapshot_lookup_full_scan_sql (negb (bool_decide (delete_files = []))) in
      batches ← execute_query_plan_batches sql (iceberg_query_inputs files) delete_files;
      build_in_memory_snapshot_lookup_cache batches
  end.

(** SRC query_runtime/src/lakehouse_serving.rs:2190-2204 build_mmap_snapshot_exact_lookup_cache *)
Definition build_mmap_snapshot_exact_lookup_cache (artifact : string) : outcome SnapshotExactLookupCache :=
  file ← materialize_local_file artifact;
  mmap_rows ← mmap_open file;
  let row_store := Mmap mmap_rows in
  entries_by_id ← build_snapshot_exact_lookup_index_from_store row_store;
  Ok (mkExactCache row_store entries_by_id).

(** SRC query_runtime/src/lakehouse_serving.rs:2156-2169 build_snapshot_exact_lookup_cache *)
Definition build_snapshot_exact_lookup_cache (artifact : SnapshotExactLookupArtifact) : outcome SnapshotExactLookupCache :=
  match artifact with
  | ExactMmap artifact => build_mmap_snapshot_exact_lookup_cache artifact
  | ExactParquet artifact => batches ← load_snapshot_lookup_artifact_batches artifact; build_in_memory_snapshot_exact_lookup_cache batches
  end.

(** ** The snapshots of the process

    Both maps only grow, and the shared pointer a request works on is the one in the map,
    so a request names a snapshot by its key. *)
(** SRC query_runtime/src/lakehouse_serving.rs:81-85= SNAPSHOT_EXACT_LOOKUP_CACHE, SNAPSHOT_LOOKUP_CACHE *)
Record ServingCaches : Type := mkServingCaches {
  sc_lookup : gmap string SnapshotLookupCache;
  sc_exact : gmap string SnapshotExactLookupCache;
}.

(** SRC query_runtime/src/lakehouse_serving.rs:2357-2379 get_or_build_snapshot_lookup_cache *)
Definition get_or_build_snapshot_lookup_cache (checkpoint_key : string) (artifact : option SnapshotLookupArtifact) (files : list FileDescriptor) (delete_files : list string) :
    ST ServingCaches () := λ caches,
  match sc_lookup caches !! checkpoint_key with
  | Some _ => (Ok (), caches)
  | None =>
      match build_snapshot_lookup_cache artifact files delete_files with
      | Ok built => (Ok (), mkServingCaches (<[checkpoint_key := built]> (sc_lookup caches)) (sc_exact caches))
      | Err e => (Err e, caches)
      | Panic r => (Panic r, caches)
      end
  end.

(** SRC query_runtime/src/lakehouse_serving.rs:2135-2154 get_or_build_snapshot_exact_lookup_cache *)
Definition get_or_build_snapshot_exact_lookup_cache (checkpoint_key : string) (artifact : SnapshotExactLookupArtifact) : ST ServingCaches SnapshotExactLookupCache := λ caches,
  match sc_exact caches !! checkpoint_key with
  | Some cache => (Ok cache, caches)
  | None =>
      match build_snapshot_exact_lookup_cache artifact with
      | Ok built => (Ok built, mkServingCaches (sc_lookup caches) (<[checkpoint_key := built]> (sc_exact caches)))
      | Err e => (Err e, caches)
      | Panic r => (Panic r, caches)
      end
  end.

(** Work on the snapshot of a checkpoint. *)
Definition with_cache {A} (checkpoint_key : string) (m : ST SnapshotLookupCache A) : ST ServingCaches A := λ caches,
  match sc_lookup caches !! checkpoint_key with
  | Some cache => let '(r, cache) := m cache in (r, mkServingCaches (<[checkpoint_key := cache]> (sc_lookup caches)) (sc_exact caches))
  | None => (Panic "no snapshot", caches)
  end.

(** ** Requests *)

(** SRC query_runtime/src/lakehouse_serving.rs:303-309 ServingExecutionResult *)
Record ServingExecutionResult : Type := mkExecutionResult {
  xr_rows : list Value;
  xr_files_selected : nat;
  xr_estimated_bytes : Z;
  xr_artifacts_used : list string;
}.

(** SRC query_runtime/src/lakehouse_serving.rs:2063-2096 maybe_execute_snapshot_exact_lookup_artifact *)
Definition maybe_execute_snapshot_exact_lookup_artifact (checkpoint_key : string) (artifact : option SnapshotExactLookupArtifact) (request : ReadPlan) (limit : nat) :
    ST ServingCaches (option (list Value)) :=
  match artifact, exact_id_lookup_values request with
  | Some artifact, Some doc_ids =>
      if decide (doc_ids = []) then mret (Some [])
      else
        get_or_build_snapshot_exact_lookup_cache checkpoint_key artifact ≫= λ cache,
        let select_fields := normalized_select (rd_select request) in
        st_lift (rows ← exact_id_rows (λ row_ref, projected_row_value (xc_row_store cache) row_ref select_fields) (xc_entries_by_id cache) limit [] doc_ids; Ok (Some rows))
  | _, _ => mret None
  end.

(** SRC query_runtime/src/lakehouse_serving.rs:2098-2133 maybe_execute_snapshot_exact_lookup_artifact_projected_field_bytes *)
Definition maybe_execute_snapshot_exact_lookup_artifact_projected_field_bytes (checkpoint_key : string) (artifact : option SnapshotExactLookupArtifact) (request : ReadPlan)
    (limit : nat) : ST ServingCaches (option (list ProjectedFieldBytesRow)) :=
  match artifact, exact_id_lookup_values request, normalized_select (rd_select request) with
  | Some artifact, Some doc_ids, Some select_fields =>
      if decide (doc_ids = []) then mret (Some [])
      else
        get_or_build_snapshot_exact_lookup_cache checkpoint_key artifact ≫= λ cache,
        st_lift (rows ← exact_id_rows (λ row_ref, projected_top_level_field_bytes (xc_row_store cache) row_ref select_fields) (xc_entries_by_id cache) limit [] doc_ids; Ok (Some rows))
  | _, _, _ => mret None
  end.

(** A plan and the projection of its rows, on the snapshot of a checkpoint. *)
Definition lookup_rows (checkpoint_key : string) (plan : SnapshotLookupPlan) (request : ReadPlan) (limit : nat) : ST ServingCaches (list Value) :=
  with_cache checkpoint_key (
    plan_row_refs plan limit ≫= λ row_refs,
    st_gets c_row_store ≫= λ row_store, st_lift (snapshot_row_refs_to_projected_values row_store row_refs request)).
Definition lookup_bytes (checkpoint_key : string) (plan : SnapshotLookupPlan) (request : ReadPlan) (limit : nat) : ST ServingCaches (list ProjectedFieldBytesRow) :=
  with_cache checkpoint_key (
    plan_row_refs plan limit ≫= λ row_refs,
    st_gets c_row_store ≫= λ row_store, st_lift (snapshot_row_refs_to_projected_field_bytes row_store row_refs request)).

Definition plan_artifact_used (plan : SnapshotLookupPlan) : string :=
  match plan with PlanExact _ => ACCESS_ARTIFACT_KIND_SNAPSHOT_KEY_LOOKUP | PlanKeyRange _ _ _ _ _ => ACCESS_ARTIFACT_KIND_SNAPSHOT_KEY_RANGE_LOOKUP end.

(** SRC query_runtime/src/lakehouse_serving.rs:1974-2053 maybe_execute_snapshot_lookup *)
Definition maybe_execute_snapshot_lookup (checkpoint_key : string) (exact_artifact : option SnapshotExactLookupArtifact) (artifact : option SnapshotLookupArtifact)
    (files speedboat_files : list FileDescriptor) (delete_files : list string) (request : ReadPlan) (limit : nat) : ST ServingCaches (option ServingExecutionResult) :=
  if bool_decide (files = []) || negb (bool_decide (speedboat_files = [])) then mret None
  else
    maybe_execute_snapshot_exact_lookup_artifact checkpoint_key exact_artifact request limit ≫= λ found,
    match found with
    | Some rows => mret (Some (mkExecutionResult rows 0 0 [ACCESS_ARTIFACT_KIND_SNAPSHOT_EXACT_LOOKUP]))
    | None =>
        match snapshot_lookup_plan request with
        | None => mret None
        | Some plan =>
            let total_bytes := total_size files in
            if negb (is_some artifact) && (MAX_SNAPSHOT_LOOKUP_CACHE_BYTES <? total_bytes)%Z then mret None
            else
              get_or_build_snapshot_lookup_cache checkpoint_key artifact files delete_files ≫= λ _,
              lookup_rows checkpoint_key plan request limit ≫= λ rows,
              mret (Some (mkExecutionResult rows 0 0 [plan_artifact_used plan]))
        end
    end.

(** What every entry point reads from the checkpoint first. *)
Record CheckpointInputs : Type := mkInputs {
  in_files : list FileDescriptor;
  in_speedboat_files : list FileDescriptor;
  in_delete_files : list string;
  in_extension_files : gmap string (list ExtensionFile);
  in_key : string;
  in_exact_artifact : option SnapshotExactLookupArtifact;
  in_artifact : option SnapshotLookupArtifact;
}.

(** SRC query_runtime/src/lakehouse_serving.rs:1582-1603= execute_checkpoint_point_lookup_rows, the inputs *)
Definition checkpoint_inputs (checkpoint : TableMetadataCheckpoint) : outcome CheckpointInputs :=
  files ← match cp_iceberg_metadata checkpoint with Some metadata => as_file_tuples (im_files metadata) | None => Ok [] end;
  speedboat_files ← match cp_speedboat_metadata checkpoint with Some metadata => as_file_tuples (sm_files metadata) | None => Ok [] end;
  let delete_files := match cp_deletes_metadata checkpoint with Some metadata => dm_files metadata | None => [] end in
  let extension_files := flatten_extension_files checkpoint in
  Ok (mkInputs files speedboat_files delete_files extension_files (checkpoint_cache_key (get_descriptor checkpoint))
        (snapshot_exact_lookup_artifact (cp_checkpoint_id checkpoint) extension_files)
        (snapshot_lookup_artifact (cp_checkpoint_id checkpoint) extension_files)).

(** SRC query_runtime/src/lakehouse_serving.rs:1578-1619 execute_checkpoint_point_lookup_rows *)
Definition execute_checkpoint_point_lookup_rows (checkpoint : TableMetadataCheckpoint) (request : ReadPlan) : ST ServingCaches (option (list Value)) :=
  st_lift (checkpoint_inputs checkpoint) ≫= λ inputs,
  let limit := normalized_limit request DEFAULT_LIMIT MAX_LIMIT in
  maybe_execute_snapshot_lookup (in_key inputs) (in_exact_artifact inputs) (in_artifact inputs) (in_files inputs) (in_speedboat_files inputs) (in_delete_files inputs) request limit ≫= λ result,
  mret (xr_rows <$> result).

(** The loop over the requests of a batch: the exact artifact, else the snapshot; a
    request without a plan ends it. *)
Fixpoint batch_loop {R} (exact lookup : ReadPlan → nat → ST ServingCaches (option (list R))) (results : list (list R)) (requests : list ReadPlan) :
    ST ServingCaches (option (list (list R))) :=
  match requests with
  | [] => mret (Some results)
  | request :: requests =>
      let limit := normalized_limit request DEFAULT_LIMIT MAX_LIMIT in
      exact request limit ≫= λ found,
      match found with
      | Some rows => batch_loop exact lookup (results ++ [rows]) requests
      | None =>
          lookup request limit ≫= λ rows,
          match rows with
          | Some rows => batch_loop exact lookup (results ++ [rows]) requests
          | None => mret None
          end
      end
  end.

Definition planned {R} (lookup : SnapshotLookupPlan → ReadPlan → nat → ST ServingCaches (list R)) (request : ReadPlan) (limit : nat) : ST ServingCaches (option (list R)) :=
  match snapshot_lookup_plan request with
  | None => mret None
  | Some plan => lookup plan request limit ≫= λ rows, mret (Some rows)
  end.

(** SRC query_runtime/src/lakehouse_serving.rs:1621-1710 execute_checkpoint_exact_lookup_batch_rows *)
Definition execute_checkpoint_exact_lookup_batch_rows (checkpoint : TableMetadataCheckpoint) (requests : list ReadPlan) : ST ServingCaches (option (list (list Value))) :=
  if decide (requests = []) then mret (Some [])
  else
    st_lift (checkpoint_inputs checkpoint) ≫= λ inputs,
    if bool_decide (in_files inputs = []) || negb (bool_decide (in_speedboat_files inputs = [])) then mret None
    else
      get_or_build_snapshot_lookup_cache (in_key inputs) (in_artifact inputs) (in_files inputs) (in_delete_files inputs) ≫= λ _,
      batch_loop (maybe_execute_snapshot_exact_lookup_artifact (in_key inputs) (in_exact_artifact inputs)) (planned (lookup_rows (in_key inputs))) [] requests.

(** SRC query_runtime/src/lakehouse_serving.rs:1712-1799 execute_checkpoint_exact_lookup_batch_projected_field_bytes *)
Definition execute_checkpoint_exact_lookup_batch_projected_field_bytes (checkpoint : TableMetadataCheckpoint) (requests : list ReadPlan) :
    ST ServingCaches (option (list (list ProjectedFieldBytesRow))) :=
  if decide (requests = []) then mret (Some [])
  else
    st_lift (checkpoint_inputs checkpoint) ≫= λ inputs,
    if bool_decide (in_files inputs = []) || negb (bool_decide (in_speedboat_files inputs = [])) then mret None
    else
      get_or_build_snapshot_lookup_cache (in_key inputs) (in_artifact inputs) (in_files inputs) (in_delete_files inputs) ≫= λ _,
      batch_loop (maybe_execute_snapshot_exact_lookup_artifact_projected_field_bytes (in_key inputs) (in_exact_artifact inputs)) (planned (lookup_bytes (in_key inputs))) [] requests.

(** SRC query_runtime/src/lakehouse_serving.rs:712-718 ServingPointLookupWarmupStats *)
Record ServingPointLookupWarmupStats : Type := mkWarmupStats { ws_rows : Z; ws_estimated_bytes : Z; ws_shard_count : nat; ws_exact_id_entries : nat }.

(** SRC query_runtime/src/lakehouse_serving.rs:1801-1854 warm_checkpoint_point_lookup_caches *)
Definition warm_checkpoint_point_lookup_caches (checkpoint : TableMetadataCheckpoint) : ST ServingCaches ServingPointLookupWarmupStats :=
  st_lift (checkpoint_inputs checkpoint) ≫= λ inputs,
  if bool_decide (in_files inputs = []) || negb (bool_decide (in_speedboat_files inputs = [])) then mret (mkWarmupStats 0 0 0 0)
  else
    get_or_build_snapshot_lookup_cache (in_key inputs) (in_artifact inputs) (in_files inputs) (in_delete_files inputs) ≫= λ _,
    match in_exact_artifact inputs with
    | Some artifact => get_or_build_snapshot_exact_lookup_cache (in_key inputs) artifact ≫= λ cache, mret (size (xc_entries_by_id cache))
    | None => mret 0
    end ≫= λ exact_id_entries,
    with_cache (in_key inputs) (st_gets (λ cache, mkWarmupStats (c_row_count cache) (c_estimated_bytes cache) (c_shard_count cache) exact_id_entries)).
End serving.
