(* ===== verification/SnapshotServingTheory.v ===== *)
(** * Point lookups answer from the rows of the checkpoint (query_runtime/src/lakehouse_serving.rs)

    Whatever was looked up before, and whether the snapshot comes from a mapped file, a
    Parquet artifact or a scan, a batch of requests gets what reading the rows one by one
    would give, as documents and as bytes. *)

From S2P Require Import Prelude Text Bytes StableSort Schema Json JsonText SnapshotCodec SnapshotCodecTheory FileSet Contract Checkpoint QueryPath Pruning Planner.
From S2P Require Import SnapshotLookup SnapshotLookupTheory SnapshotServing.

Module SnapshotServingTheory.
Import SnapshotCodecTheory SnapshotLookupTheory.

(** ** Projections *)

Section projection.
Context `{jt : JsonText, !JsonTextLaws jt}.

(** A field of a document, or of its [_source]. *)
Definition doc_field (doc : Object) (field : string) : option Value :=
  match obj_get field doc with
  | Some value => Some value
  | None => (obj_get "_source" doc ≫= as_object) ≫= obj_get field
  end.

Definition project_doc (doc : Object) (fields : list string) : Object :=
  foldl (λ projected field, match doc_field doc field with Some value => obj_insert field value projected | None => projected end) [] fields.

Definition project_request (request : ReadPlan) (doc : Object) : Value :=
  match normalized_select (rd_select request) with Some fields => VObject (project_doc doc fields) | None => VObject doc end.

Lemma project_fields_spec store documents i doc fields projected source : store_holds store documents → documents !! i = Some doc →
  (source = None ∨ source = obj_get "_source" doc) →
  ∃ source', foldM (project_field store (Z.of_nat i)) (projected, source) fields =
    Ok (foldl (λ projected field, match doc_field doc field with Some value => obj_insert field value projected | None => projected end) projected fields, source') ∧
    (source' = None ∨ source' = obj_get "_source" doc).
Proof.
  intros (_ & Hrows & _) Hi. destruct (Hrows i doc Hi) as (_ & Hf & _). revert projected source.
  induction fields as [|f fields IH]; intros projected source Hs; cbn [foldM foldl]; [eauto|].
  assert (Hstep : ∃ source', project_field store (Z.of_nat i) (projected, source) f =
    Ok (match doc_field doc f with Some value => obj_insert f value projected | None => projected end, source') ∧ (source' = None ∨ source' = obj_get "_source" doc)).
  { rw /project_field. cbv beta iota. rw (Hf f) bind_Ok /doc_field. destruct (obj_get f doc) as [v|]; [eauto|].
    assert (Hsrc : (match source with Some _ => Ok source | None => row_field_value store (Z.of_nat i) "_source" end) = Ok (obj_get "_source" doc)).
    { destruct source as [s|]; [destruct Hs as [?|<-]; done|apply Hf]. }
    rw Hsrc bind_Ok. destruct (obj_get "_source" doc) as [[| | | | |m]|]; cbn [mbind option_bind as_object]; eauto. destruct (obj_get f m); eauto. }
  destruct Hstep as (source' & -> & Hs'). rw bind_Ok. by apply IH.
Qed.

Lemma projected_row_spec store documents i doc request : store_holds store documents → documents !! i = Some doc →
  projected_row_value store (Z.of_nat i) (normalized_select (rd_select request)) = Ok (project_request request doc).
Proof.
  intros Hs Hi. rw /project_request. destruct (normalized_select _) as [fields|]; cbn [projected_row_value].
  - destruct (project_fields_spec store documents i doc fields [] None Hs Hi) as (s' & Hp & _); [by left|]. by rw (Hp : foldM _ _ _ = _) bind_Ok.
  - destruct Hs as (_ & Hrows & _). by destruct (Hrows i doc Hi).
Qed.

Lemma project_doc_get doc fields f : obj_get f (project_doc doc fields) = if decide (f ∈ fields) then doc_field doc f else None.
Proof.
  rw /project_doc. induction fields as [|g fields IH] using rev_ind; [done|]. rw foldl_app. cbn [foldl]. set (acc := foldl _ _ _) in *.
  rw (decide_ext (f ∈ fields ++ [g]) (g = f ∨ f ∈ fields)); [rw elem_of_app list_elem_of_singleton; naive_solver|].
  destruct (decide (g = f)) as [->|Hne].
  - rw (decide_True (P:=f = f ∨ _)); [by left|]. destruct (doc_field doc f) as [v|] eqn:Hv; [by rw obj_get_insert_eq|]. rw IH. by case_decide.
  - rw (decide_ext (g = f ∨ f ∈ fields) (f ∈ fields)); [naive_solver|]. rw -IH. by destruct (doc_field doc g); [rw obj_get_insert_ne|].
Qed.

(** The bytes of a selection are those of the values. *)
Lemma projected_bytes_agree doc fields f :
  project_json_bytes doc fields !! f = snapshot_lookup_value_to_projected_bytes <$> obj_get f (project_doc doc fields).
Proof.
  rw project_json_lookup project_doc_get /projected_field /doc_field. case_decide; [|done]. by destruct (obj_get f doc).
Qed.
End projection.

Section serving.
Context `{jt : JsonText, !JsonTextLaws jt, ft : FloatText, ho : HashOrder, kh : KeyHasher, src : SnapshotSource}.

(** ** Building a snapshot *)

Definition row_fits (doc : Object) : Prop := (Z.of_nat (length doc) < 2 ^ 32)%Z ∧ Forall field_fits doc.

Lemma encode_fits doc : row_fits doc → ∃ bytes, encode_snapshot_lookup_binary_fields doc = Ok bytes.
Proof.
  intros [Hn Hf]. rw /encode_snapshot_lookup_binary_fields /try_u32. destruct (Z.ltb_spec (Z.of_nat (length doc)) (2 ^ 32)); [|lia]. cbn [ok_or]. rw bind_Ok.
  generalize (append_snapshot_lookup_mmap_u32 "" (Z.of_nat (length doc))). clear Hn H.
  induction Hf as [|[k v] doc' [Hk Hv] _ IH]; intros buffer; cbn [foldM fst snd] in *; [eauto|].
  assert (Hstep : ∃ b, encode_field buffer k v = Ok b).
  { rw /encode_field /try_u32. destruct (Z.ltb_spec (str_len k) (2 ^ 32)); [|lia]. cbn [ok_or]. rw bind_Ok.
    destruct (Z.ltb_spec (str_len (json_to_vec v)) (2 ^ 32)); [|lia]. cbn [ok_or]. rw bind_Ok. eauto. }
  destruct Hstep as [b ->]. rw bind_Ok. apply IH.
Qed.

(** Documents as a snapshot can hold them. *)
Definition snapshot_docs (documents : list Object) : Prop := Forall (λ doc, row_exact doc ∧ row_fits doc) documents.

Lemma snapshot_docs_exact documents : snapshot_docs documents → Forall row_exact documents.
Proof. intros H. eapply Forall_impl; [exact H|naive_solver]. Qed.

Lemma snapshot_docs_names documents : snapshot_docs documents → Forall (λ doc, NoDup (obj_keys doc)) documents.
Proof. intros H. eapply Forall_impl; [exact H|]. by intros doc [(? & _)%row_exact_inv _]. Qed.

Lemma in_memory_rows (batches : list (list Object)) (row_builder : Object → outcome string) (state : list string) :
  Forall (λ doc, ∃ row, row_builder doc = Ok row) (concat batches) →
  ∃ rows, Forall2 (λ doc row, row_builder doc = Ok row) (concat batches) rows ∧
    foldM (λ rows batch, foldM (λ rows values, row ← row_builder values; Ok (rows ++ [row])) rows batch) state batches = Ok (state ++ rows).
Proof.
  rw foldM_concat. generalize (concat batches). intros docs Hd. revert state. induction Hd as [|doc docs [row Hrow] _ IH]; intros state; cbn [foldM].
  { exists []. split; [constructor|]. by rw app_nil_r. }
  rw Hrow !bind_Ok. destruct (IH (state ++ [row])) as (rows & Hf & Hr). exists (row :: rows). split; [by constructor|]. rw Hr -app_assoc. done.
Qed.

Lemma in_memory_rows_sized batches (state : list string) size : snapshot_docs (concat batches) →
  ∃ rows size', Forall2 (λ doc row, encode_snapshot_lookup_binary_fields doc = Ok row) (concat batches) rows ∧
    foldM (λ state batch, foldM (λ '(rows, estimated_bytes) values, row ← snapshot_lookup_row_from_batch values; Ok (rows ++ [row], wrap_u64 (estimated_bytes + str_len row))) state batch)
      (state, size) batches = Ok (state ++ rows, size').
Proof.
  rw foldM_concat. generalize (concat batches). intros docs Hd. revert state size. induction Hd as [|doc docs [_ Hfits] _ IH]; intros state size; cbn [foldM].
  { exists [], size. split; [constructor|]. by rw app_nil_r. }
  destruct (encode_fits doc Hfits) as [row Hrow]. rw /snapshot_lookup_row_from_batch Hrow !bind_Ok.
  destruct (IH (state ++ [row]) (wrap_u64 (size + str_len row))) as (rows & size' & Hf & Hr). exists (row :: rows), size'. split; [by constructor|]. rw Hr -app_assoc. done.
Qed.

Lemma in_memory_cache_ok batches : snapshot_docs (concat batches) → ∃ cache store,
  build_in_memory_snapshot_lookup_cache batches = Ok cache ∧ store_holds store (concat batches) ∧ cache_ok store (concat batches) cache.
Proof.
  intros Hd. destruct (in_memory_rows_sized batches [] 0 Hd) as (rows & size & Hrows & Hf). rw /build_in_memory_snapshot_lookup_cache Hf bind_Ok.
  assert (Hholds : store_holds (InMemory rows) (concat batches)) by (apply in_memory_holds; [done|by apply snapshot_docs_exact]).
  destruct (index_built (InMemory rows) (concat batches) Hholds (snapshot_docs_names _ Hd)) as (shards & Hb & Hs). rw /= Hb bind_Ok.
  eexists _, (InMemory rows). split; [done|]. split; [done|]. by apply spawned_ok.
Qed.

Lemma mmap_cache_ok artifact file batches : materialize_local_file artifact = Ok file → record_batches_to_snapshot_lookup_mmap_bytes batches = Ok file →
  snapshot_docs (concat batches) → ∃ cache store,
  build_mmap_snapshot_lookup_cache artifact = Ok cache ∧ store_holds store (concat batches) ∧ cache_ok store (concat batches) cache.
Proof.
  intros Hm Hw Hd. destruct (mmap_holds batches file Hw (snapshot_docs_exact _ Hd)) as (rows & Hopen & Hholds).
  rw /build_mmap_snapshot_lookup_cache Hm bind_Ok Hopen bind_Ok.
  destruct (index_built (Mmap rows) (concat batches) Hholds (snapshot_docs_names _ Hd)) as (shards & Hb & Hs). rw Hb bind_Ok.
  eexists _, (Mmap rows). split; [done|]. split; [done|]. by apply spawned_ok.
Qed.

(** What the snapshot of a checkpoint must be built from: a mapped file that was written
    from the documents, an artifact or a scan that reads them. *)
Definition source_of (artifact : option SnapshotLookupArtifact) (files : list FileDescriptor) (delete_files : list string) (documents : list Object) : Prop :=
  ∃ batches, concat batches = documents ∧ snapshot_docs documents ∧
  match artifact with
  | Some (LookupMmap location) => ∃ file, materialize_local_file location = Ok file ∧ record_batches_to_snapshot_lookup_mmap_bytes batches = Ok file
  | Some (LookupParquet location) => load_snapshot_lookup_artifact_batches location = Ok batches
  | None => execute_query_plan_batches (snapshot_lookup_full_scan_sql (negb (bool_decide (delete_files = [])))) (iceberg_query_inputs files) delete_files = Ok batches
  end.

Lemma build_cache_ok artifact files delete_files documents : source_of artifact files delete_files documents → ∃ cache store,
  build_snapshot_lookup_cache artifact files delete_files = Ok cache ∧ store_holds store documents ∧ cache_ok store documents cache.
Proof.
  intros (batches & <- & Hd & Hsrc). destruct artifact as [[location|location]|]; cbn [build_snapshot_lookup_cache].
  - destruct Hsrc as (file & Hm & Hw). exact (mmap_cache_ok location file batches Hm Hw Hd).
  - rw Hsrc bind_Ok. by apply in_memory_cache_ok.
  - rw Hsrc bind_Ok. by apply in_memory_cache_ok.
Qed.

(** ** The snapshots of the process *)

(** Every snapshot that is kept holds the rows of its checkpoint. *)
Definition caches_ok (documents_of : string → list Object) (caches : ServingCaches) : Prop :=
  ∀ key cache, sc_lookup caches !! key = Some cache →
    snapshot_docs (documents_of key) ∧ ∃ store, store_holds store (documents_of key) ∧ cache_ok store (documents_of key) cache.

Lemma get_or_build_ok documents_of caches key artifact files delete_files : caches_ok documents_of caches → source_of artifact files delete_files (documents_of key) →
  ∃ caches', get_or_build_snapshot_lookup_cache key artifact files delete_files caches = (Ok (), caches') ∧ caches_ok documents_of caches' ∧ is_Some (sc_lookup caches' !! key).
Proof.
  intros Hok Hsrc. rw /get_or_build_snapshot_lookup_cache. destruct (sc_lookup caches !! key) as [c|] eqn:Hc; [eauto|].
  destruct (build_cache_ok _ _ _ _ Hsrc) as (cache & store & -> & Hh & Hcache). eexists. split; [done|]. cbn. rw lookup_insert_eq. split; [|done].
  intros k c. cbn. destruct (decide (key = k)) as [<-|Hne]; [|rw lookup_insert_ne //; apply Hok]. rw lookup_insert_eq. intros [= <-].
  split; [|eauto]. by destruct Hsrc as (? & _ & ? & _).
Qed.

Lemma with_cache_ok {A} documents_of caches key (m : ST SnapshotLookupCache A) a : caches_ok documents_of caches → is_Some (sc_lookup caches !! key) →
  (∀ cache store, snapshot_docs (documents_of key) → store_holds store (documents_of key) → cache_ok store (documents_of key) cache →
    ∃ cache', m cache = (Ok a, cache') ∧ cache_ok store (documents_of key) cache') →
  ∃ caches', with_cache key m caches = (Ok a, caches') ∧ caches_ok documents_of caches' ∧ is_Some (sc_lookup caches' !! key).
Proof.
  intros Hok [cache Hc] Hm. destruct (Hok key cache Hc) as (Hd & store & Hh & Hcache). destruct (Hm cache store Hd Hh Hcache) as (cache' & Hrun & Hcache').
  rw /with_cache Hc Hrun. eexists. split; [done|]. cbn. rw lookup_insert_eq. split; [|done].
  intros k c. cbn. destruct (decide (key = k)) as [<-|Hne]; [|rw lookup_insert_ne //; apply Hok]. rw lookup_insert_eq. intros [= <-]. eauto.
Qed.

(** The documents a request selects, and what it returns of them. *)
Definition scan_documents (documents : list Object) (request : ReadPlan) : list Object :=
  doc_at documents <$> take (normalized_limit request DEFAULT_LIMIT MAX_LIMIT) (scan_rows documents request).

Lemma scan_rows_in documents request : Forall (λ r, r ∈ all_rows documents) (scan_rows documents request).
Proof.
  rw /scan_rows. set (matched := List.filter _ _). assert (Hm : Forall (λ r, r ∈ all_rows documents) matched).
  { apply Forall_forall. intros r. rw /matched list_elem_of_In List.filter_In -list_elem_of_In. by intros [? _]. }
  destruct (order_key request) as [[f d]|]; [|done]. cbn. rw -(sort_by_perm (by_field documents f) matched) in Hm. destruct d; [by rw reverse_Permutation|done].
Qed.

Lemma project_rows {R} documents (read : Z → outcome R) (f : Object → R) rows : (∀ i doc, documents !! i = Some doc → read (Z.of_nat i) = Ok (f doc)) →
  Forall (λ r, r ∈ all_rows documents) rows → try_collect read rows = Ok (f <$> (doc_at documents <$> rows)).
Proof.
  intros Hread Hrows. apply try_collect_Ok_2. rw -list_fmap_compose. apply Forall2_fmap_r. apply Forall_Forall2_diag. eapply Forall_impl; [exact Hrows|].
  intros r (i & doc & -> & Hd & Hdoc)%doc_at_lookup. cbn. rw Hdoc. by apply Hread.
Qed.

Lemma limit_positive request : rd_limit request ≠ Some 0 → 1 ≤ normalized_limit request DEFAULT_LIMIT MAX_LIMIT.
Proof. rw /normalized_limit /DEFAULT_LIMIT /MAX_LIMIT. destruct (rd_limit request) as [[|]|]; [done|cbn; lia..]. Qed.

(** A lookup that reads each row it finds. *)
Lemma lookup_read_ok {R} documents_of caches key plan request (read : SnapshotLookupRowStore → list Z → outcome (list R)) (f : Object → R) :
  caches_ok documents_of caches → is_Some (sc_lookup caches !! key) → snapshot_lookup_plan request = Some plan → rd_limit request ≠ Some 0 →
  (∀ store rows, store_holds store (documents_of key) → Forall (λ r, r ∈ all_rows (documents_of key)) rows → read store rows = Ok (f <$> (doc_at (documents_of key) <$> rows))) →
  ∃ caches', with_cache key (plan_row_refs plan (normalized_limit request DEFAULT_LIMIT MAX_LIMIT) ≫= λ row_refs, st_gets c_row_store ≫= λ row_store, st_lift (read row_store row_refs)) caches =
    (Ok (f <$> scan_documents (documents_of key) request), caches') ∧ caches_ok documents_of caches' ∧ is_Some (sc_lookup caches' !! key).
Proof.
  intros Hok Hc Hplan Hlim Hread. apply with_cache_ok; [done..|]. intros cache store Hd Hh Hcache.
  destruct (lookup_scan store (documents_of key) Hh cache request plan _ Hcache Hplan (limit_positive request Hlim)) as (cache' & Hrun & Hcache').
  exists cache'. split; [|done]. rw (st_bind_Ok _ _ _ _ _ Hrun) (st_bind_Ok _ _ cache' store cache'); [by rw /st_gets (co_store _ _ _ Hcache')|]. rw /st_lift. f_equal.
  apply Hread; [done|]. apply Forall_take, scan_rows_in.
Qed.

Lemma lookup_rows_ok documents_of caches key plan request : caches_ok documents_of caches → is_Some (sc_lookup caches !! key) →
  snapshot_lookup_plan request = Some plan → rd_limit request ≠ Some 0 →
  ∃ caches', lookup_rows key plan request (normalized_limit request DEFAULT_LIMIT MAX_LIMIT) caches =
    (Ok (project_request request <$> scan_documents (documents_of key) request), caches') ∧ caches_ok documents_of caches' ∧ is_Some (sc_lookup caches' !! key).
Proof.
  intros Hok Hc Hplan Hlim. apply lookup_read_ok; [done..|]. intros store rows Hh Hrows. apply project_rows; [|done].
  intros i doc Hi. by apply (projected_row_spec store (documents_of key)).
Qed.

Lemma lookup_bytes_ok documents_of caches key plan request fields : caches_ok documents_of caches → is_Some (sc_lookup caches !! key) →
  snapshot_lookup_plan request = Some plan → rd_limit request ≠ Some 0 → normalized_select (rd_select request) = Some fields →
  ∃ caches', lookup_bytes key plan request (normalized_limit request DEFAULT_LIMIT MAX_LIMIT) caches =
    (Ok ((λ doc, project_json_bytes doc fields) <$> scan_documents (documents_of key) request), caches') ∧ caches_ok documents_of caches' ∧ is_Some (sc_lookup caches' !! key).
Proof.
  intros Hok Hc Hplan Hlim Hsel. apply (lookup_read_ok documents_of caches key plan request (λ store rows, snapshot_row_refs_to_projected_field_bytes store rows request)); [done..|].
  intros store rows Hh Hrows. rw /snapshot_row_refs_to_projected_field_bytes Hsel. apply project_rows; [|done].
  intros i doc Hi. destruct Hh as (_ & Hall & _). by destruct (Hall i doc Hi) as (_ & _ & ? & _).
Qed.

(** The loop of a batch when no request goes to the exact artifact. *)
Lemma batch_loop_ok {R} documents_of key (exact lookup : ReadPlan → nat → ST ServingCaches (option (list R))) (answer : ReadPlan → list R) results requests caches :
  caches_ok documents_of caches → is_Some (sc_lookup caches !! key) →
  (∀ request limit caches, exact request limit caches = (Ok None, caches)) →
  Forall (λ request, ∀ caches, caches_ok documents_of caches → is_Some (sc_lookup caches !! key) → ∃ caches',
    lookup request (normalized_limit request DEFAULT_LIMIT MAX_LIMIT) caches = (Ok (Some (answer request)), caches') ∧ caches_ok documents_of caches' ∧ is_Some (sc_lookup caches' !! key)) requests →
  ∃ caches', batch_loop exact lookup results requests caches = (Ok (Some (results ++ (answer <$> requests))), caches') ∧ caches_ok documents_of caches'.
Proof.
  intros Hok Hc Hexact Hall. revert results caches Hok Hc. induction Hall as [|request requests Hreq _ IH]; intros results caches Hok Hc; cbn [batch_loop].
  { exists caches. split; [|done]. by rw app_nil_r. }
  rw (st_bind_Ok _ _ _ _ _ (Hexact _ _ caches)). destruct (Hreq caches Hok Hc) as (c1 & Hrun & Hok1 & Hc1). rw (st_bind_Ok _ _ _ _ _ Hrun).
  destruct (IH (results ++ [answer request]) c1 Hok1 Hc1) as (c2 & Hrun2 & Hok2). exists c2. split; [|done]. rw Hrun2 -app_assoc. done.
Qed.

(** ** The exact-id index *)

Definition doc_i64 (field : string) (doc : Object) : Z := default 0%Z (obj_get field doc ≫= snapshot_exact_lookup_i64).

(** The version of a document: sequence number, then version number. *)
Definition newer (doc other : Object) : Prop :=
  (doc_i64 "_seq_no" other < doc_i64 "_seq_no" doc)%Z ∨
  (doc_i64 "_seq_no" doc = doc_i64 "_seq_no" other ∧ doc_i64 "_version" other < doc_i64 "_version" doc)%Z.

(** The row an identifier stands for: no row with the identifier is newer, and it is
    newer than those before it. *)
Definition newest_row (documents : list Object) (rows : list Z) (id : SnapshotLookupKey) (r : Z) : Prop :=
  r ∈ rows ∧ doc_has "_id" id (doc_at documents r) = true ∧
  ∀ r', r' ∈ rows → doc_has "_id" id (doc_at documents r') = true →
    ¬ newer (doc_at documents r') (doc_at documents r) ∧ ((r' < r)%Z → newer (doc_at documents r) (doc_at documents r')).

(** The index entry of a row. *)
Definition row_candidate (documents : list Object) (r : Z) : SnapshotExactLookupIndexEntry :=
  mkIndexEntry r (doc_i64 "_seq_no" (doc_at documents r)) (doc_i64 "_version" (doc_at documents r)).

Definition entry_ok (documents : list Object) (rows : list Z) (id : SnapshotLookupKey) (entry : option SnapshotExactLookupIndexEntry) : Prop :=
  match entry with
  | None => ∀ r, r ∈ rows → doc_has "_id" id (doc_at documents r) = false
  | Some e => e = row_candidate documents (ie_row_ref e) ∧ newest_row documents rows id (ie_row_ref e)
  end.

Definition index_ok (documents : list Object) (rows : list Z) (entries : gmap SnapshotLookupKey SnapshotExactLookupIndexEntry) : Prop :=
  ∀ id, entry_ok documents rows id (entries !! id).

Lemma metadata_at store documents r : store_holds store documents → r ∈ all_rows documents →
  snapshot_exact_lookup_metadata_from_row_store store r =
  Ok ((λ id, (id, doc_i64 "_seq_no" (doc_at documents r), doc_i64 "_version" (doc_at documents r))) <$> (obj_get "_id" (doc_at documents r) ≫= encode_exact_lookup_key)).
Proof.
  intros (_ & Hrows & _) (i & doc & -> & Hd & ->)%doc_at_lookup. destruct (Hrows i doc Hd) as (_ & Hf & _).
  rw /snapshot_exact_lookup_metadata_from_row_store (Hf "_id") bind_Ok. destruct (obj_get "_id" doc ≫= encode_exact_lookup_key) as [id|]; [|done].
  by rw (Hf "_seq_no") bind_Ok (Hf "_version") bind_Ok.
Qed.

Lemma better_newer documents r e : e = row_candidate documents (ie_row_ref e) →
  exact_lookup_index_entry_is_better (row_candidate documents r) e = true ↔ newer (doc_at documents r) (doc_at documents (ie_row_ref e)).
Proof.
  intros ->. rw /exact_lookup_index_entry_is_better /newer. cbn [row_candidate ie_seq_no ie_version ie_row_ref].
  destruct (Z.eqb_spec (doc_i64 "_seq_no" (doc_at documents r)) (doc_i64 "_seq_no" (doc_at documents (ie_row_ref e)))); rw Z.ltb_lt; lia.
Qed.

(** A row without the identifier changes nothing. *)
Lemma entry_ok_skip documents rows r k entry : doc_has "_id" k (doc_at documents r) = false → entry_ok documents rows k entry → entry_ok documents (rows ++ [r]) k entry.
Proof.
  intros Hf Hk. destruct entry as [e|].
  - destruct Hk as (Hent & Hin & Hd & Hnew). split; [done|]. split_and!; [rw elem_of_app; by left|done|].
    intros r' [Hr'| ->%list_elem_of_singleton]%elem_of_app Hd'; [by apply Hnew|]. by rw Hf in Hd'.
  - intros r' [Hr'| ->%list_elem_of_singleton]%elem_of_app; [by apply Hk|done].
Qed.

(** A row with it is kept when there was none, or when it is newer. *)
Lemma entry_ok_step documents rows r k entry : (∀ r', r' ∈ rows → (r' < r)%Z) → doc_has "_id" k (doc_at documents r) = true → entry_ok documents rows k entry →
  entry_ok documents (rows ++ [r]) k (match entry with
    | Some existing => if exact_lookup_index_entry_is_better (row_candidate documents r) existing then Some (row_candidate documents r) else Some existing
    | None => Some (row_candidate documents r)
    end).
Proof.
  intros Hlt Hr Hk. assert (Hlast : r ∈ rows ++ [r]) by (rw elem_of_app list_elem_of_singleton; by right).
  destruct entry as [e|]; [destruct Hk as (Hent & Hin & Hd & Hnew); destruct (exact_lookup_index_entry_is_better _ e) eqn:Hb|].
  - apply better_newer in Hb; [|done]. split; [done|]. split_and!; [done..|].
    intros r' [Hr'| ->%list_elem_of_singleton]%elem_of_app Hd'; [|rw /newer; cbn; lia]. destruct (Hnew r' Hr' Hd') as [Hn _]. rw /newer in Hn Hb |- *. cbn in *. lia.
  - assert (Hnb : ¬ newer (doc_at documents r) (doc_at documents (ie_row_ref e))) by (rw -better_newer // Hb; done).
    split; [done|]. split_and!; [rw elem_of_app; by left|done|].
    intros r' [Hr'| ->%list_elem_of_singleton]%elem_of_app Hd'; [by apply Hnew|]. split; [done|]. apply Hlt in Hin. lia.
  - split; [done|]. split_and!; [done..|]. intros r' [Hr'| ->%list_elem_of_singleton]%elem_of_app Hd'; [by rw Hk in Hd'|]. rw /newer. cbn. lia.
Qed.

Lemma index_row_ok store documents rows entries r : store_holds store documents → r ∈ all_rows documents → (∀ r', r' ∈ rows → (r' < r)%Z) →
  index_ok documents rows entries → ∃ entries', index_row store entries r = Ok entries' ∧ index_ok documents (rows ++ [r]) entries'.
Proof.
  intros Hs Hr Hlt Hok. rw /index_row (metadata_at store documents) // bind_Ok. destruct (obj_get "_id" (doc_at documents r) ≫= encode_exact_lookup_key) as [id|] eqn:Hid; cbn [fmap option_fmap option_map].
  - fold (row_candidate documents r). assert (Hhas : ∀ k, doc_has "_id" k (doc_at documents r) = bool_decide (id = k)).
    { intros k. rw /doc_has Hid. apply bool_decide_ext. split; [by intros [= ->]|by intros ->]. }
    set (entry' := match entries !! id with
      | Some existing => if exact_lookup_index_entry_is_better (row_candidate documents r) existing then Some (row_candidate documents r) else Some existing
      | None => Some (row_candidate documents r) end).
    assert (Hstep : ∃ entries', (match entries !! id with
      | Some existing => if exact_lookup_index_entry_is_better (row_candidate documents r) existing then Ok (<[id := row_candidate documents r]> entries) else Ok entries
      | None => Ok (<[id := row_candidate documents r]> entries) end) = @Ok string _ entries' ∧ entries' !! id = entry' ∧ ∀ k, id ≠ k → entries' !! k = entries !! k).
    { rw /entry'. destruct (entries !! id) as [e|] eqn:He; [case_match|]; (eexists; split; [done|]; split; [by rw ?lookup_insert_eq|]; intros k Hne; by rw ?lookup_insert_ne). }
    destruct Hstep as (entries' & -> & Hnew & Hold). exists entries'. split; [done|]. intros k. destruct (decide (id = k)) as [<-|Hne].
    + rw Hnew. apply entry_ok_step; [done|by rw Hhas bool_decide_eq_true_2|apply Hok].
    + rw Hold //. apply entry_ok_skip; [by rw Hhas bool_decide_eq_false_2|apply Hok].
  - exists entries. split; [done|]. intros k. apply entry_ok_skip; [by rw /doc_has Hid|apply Hok].
Qed.

Lemma exact_index_built store documents : store_holds store documents → ∃ entries,
  build_snapshot_exact_lookup_index_from_store store = Ok entries ∧ index_ok documents (all_rows documents) entries.
Proof.
  intros Hs. rw /build_snapshot_exact_lookup_index_from_store. pose proof Hs as (-> & _ & _). fold (all_rows documents).
  assert (Hloop : ∀ todo rows entries, rows ++ todo = all_rows documents → index_ok documents rows entries →
    ∃ entries', foldM (index_row store) entries todo = Ok entries' ∧ index_ok documents (all_rows documents) entries').
  { induction todo as [|r todo IH]; intros rows entries Hall Hok; cbn [foldM]; [rw app_nil_r in Hall; subst; eauto|].
    assert (Hr : r ∈ all_rows documents) by (rw -Hall elem_of_app; right; by left).
    assert (Hlt : ∀ r', r' ∈ rows → (r' < r)%Z).
    { intros r' Hr'. pose proof (all_rows_sorted documents) as Hsorted. rw -Hall in Hsorted. apply StronglySorted_app in Hsorted as (Hcross & _ & _). apply Hcross; [done|by left]. }
    destruct (index_row_ok store documents rows entries r Hs Hr Hlt Hok) as (e1 & -> & Hok1). rw bind_Ok. apply (IH (rows ++ [r])); [by rw -app_assoc|done]. }
  apply (Hloop (all_rows documents) [] ∅); [done|]. intros id. rw lookup_empty. by intros r ?%not_elem_of_nil.
Qed.

(** What the exact-id artifact must be built from. *)
Definition exact_source_of (artifact : SnapshotExactLookupArtifact) (documents : list Object) : Prop :=
  ∃ batches, parse_source <$> concat batches = documents ∧ snapshot_docs documents ∧
  match artifact with
  | ExactMmap location => ∃ file, materialize_local_file location = Ok file ∧ record_batches_to_snapshot_exact_lookup_mmap_bytes batches = Ok file
  | ExactParquet location => load_snapshot_lookup_artifact_batches location = Ok batches
  end.

(** An exact-id cache of these documents. *)
Definition exact_cache_ok (documents : list Object) (cache : SnapshotExactLookupCache) : Prop :=
  store_holds (xc_row_store cache) documents ∧ index_ok documents (all_rows documents) (xc_entries_by_id cache).

Lemma build_exact_ok artifact documents : exact_source_of artifact documents → ∃ cache, build_snapshot_exact_lookup_cache artifact = Ok cache ∧ exact_cache_ok documents cache.
Proof.
  intros (batches & Hview & Hd & Hsrc). destruct artifact as [location|location]; cbn [build_snapshot_exact_lookup_cache].
  - destruct Hsrc as (file & Hm & Hw). pose proof (snapshot_docs_exact _ Hd) as Hx. rw -Hview in Hx.
    destruct (built_holds batches _ parse_source file Hw) as (rows & Hopen & Hholds); [done..|]. rw Hview in Hholds.
    destruct (exact_index_built (Mmap rows) documents Hholds) as (entries & Hb & Hok). rw /build_mmap_snapshot_exact_lookup_cache Hm bind_Ok Hopen bind_Ok Hb bind_Ok.
    eexists. split; [done|]. by split.
  - rw Hsrc bind_Ok /build_in_memory_snapshot_exact_lookup_cache. destruct (in_memory_rows batches snapshot_exact_lookup_row_from_batch []) as (rows & Hrows & Hf).
    { apply Forall_forall. intros doc Hdoc. apply encode_fits. rw /snapshot_docs -Hview Forall_fmap Forall_forall in Hd. by apply Hd. }
    rw Hf bind_Ok. assert (Hholds : store_holds (InMemory rows) documents).
    { apply in_memory_holds; [|by apply snapshot_docs_exact]. rw -Hview. apply Forall2_fmap_l. exact Hrows. }
    destruct (exact_index_built (InMemory rows) documents Hholds) as (entries & Hb & Hok). rw /= Hb bind_Ok. eexists. split; [done|]. by split.
Qed.

Lemma exact_id_rows_spec {R} (read : Z → outcome R) (f : Z → R) entries limit acc ids : (∀ id e, entries !! id = Some e → read (ie_row_ref e) = Ok (f (ie_row_ref e))) →
  length acc < limit → exact_id_rows read entries limit acc ids = Ok (take limit (acc ++ (f <$> omap (λ id, ie_row_ref <$> entries !! id) ids))).
Proof.
  intros Hread. revert acc. induction ids as [|id ids IH]; intros acc Hl; cbn [exact_id_rows omap list_omap]; [rw app_nil_r take_ge //; lia|].
  destruct (entries !! id) as [e|] eqn:He; cbn [fmap option_fmap option_map].
  - rw (Hread id e He) !bind_Ok. assert (Hlen : length (acc ++ [f (ie_row_ref e)]) = S (length acc)) by (rw length_app; cbn; lia).
    match goal with |- context [list_fmap _ _ f (?x :: ?l)] => change (list_fmap _ _ f (x :: l)) with ([f x] ++ (f <$> l)) end. rw app_assoc.
    destruct (Nat.leb_spec limit (length (acc ++ [f (ie_row_ref e)]))); [|apply IH; lia]. rw take_app_le; [lia|]. rw take_ge //. lia.
  - rw bind_Ok. destruct (Nat.leb_spec limit (length acc)); [lia|]. by apply IH.
Qed.

(** Every exact-id cache that is kept holds the documents of its checkpoint. *)
Definition exact_caches_ok (documents_of : string → list Object) (caches : ServingCaches) : Prop :=
  ∀ key cache, sc_exact caches !! key = Some cache → exact_cache_ok (documents_of key) cache.

Lemma get_or_build_exact_ok documents_of caches key artifact : exact_caches_ok documents_of caches → exact_source_of artifact (documents_of key) →
  ∃ cache caches', get_or_build_snapshot_exact_lookup_cache key artifact caches = (Ok cache, caches') ∧ exact_cache_ok (documents_of key) cache ∧ exact_caches_ok documents_of caches'.
Proof.
  intros Hok Hsrc. rw /get_or_build_snapshot_exact_lookup_cache. destruct (sc_exact caches !! key) as [c|] eqn:Hc; [exists c, caches; split_and!; [done|by apply Hok|done]|].
  destruct (build_exact_ok _ _ Hsrc) as (cache & -> & Hcache). exists cache. eexists. split_and!; [done..|]. intros k c. cbn.
  destruct (decide (key = k)) as [<-|Hne]; [|rw lookup_insert_ne //; apply Hok]. rw lookup_insert_eq. by intros [= <-].
Qed.

(** A lookup by document identifiers in the exact-id artifact returns, for each
    requested identifier that has rows, the newest of them: no row with that identifier
    has a higher sequence number, or the same one and a higher version, and among equals
    it is the first; identifiers without a row are left out, and the limit cuts. *)
Theorem exact_id_lookup_returns_newest documents_of caches key artifact request limit ids :
  exact_caches_ok documents_of caches → exact_source_of artifact (documents_of key) → exact_id_lookup_values request = Some ids → ids ≠ [] → 1 ≤ limit →
  ∃ pick caches', maybe_execute_snapshot_exact_lookup_artifact key (Some artifact) request limit caches =
      (Ok (Some (take limit ((λ r, project_request request (doc_at (documents_of key) r)) <$> omap pick ids))), caches') ∧
    exact_caches_ok documents_of caches' ∧
    ∀ id, match pick id with
          | Some r => newest_row (documents_of key) (all_rows (documents_of key)) id r
          | None => ∀ r, r ∈ all_rows (documents_of key) → doc_has "_id" id (doc_at (documents_of key) r) = false
          end.
Proof.
  intros Hok Hsrc Hids Hne Hl. rw /maybe_execute_snapshot_exact_lookup_artifact Hids decide_False //.
  destruct (get_or_build_exact_ok documents_of caches key artifact Hok Hsrc) as (cache & caches' & Hb & [Hholds Hindex] & Hok').
  exists (λ id, ie_row_ref <$> xc_entries_by_id cache !! id), caches'. rw (st_bind_Ok _ _ _ _ _ Hb) /st_lift. split_and!; [|done|].
  - rw (exact_id_rows_spec _ (λ r, project_request request (doc_at (documents_of key) r))) //. intros id e He. pose proof (Hindex id) as Hi. rw He in Hi.
    destruct Hi as (_ & (i & doc & -> & Hd & ->)%doc_at_lookup & _). by apply (projected_row_spec _ (documents_of key)).
  - intros id. pose proof (Hindex id) as Hi. destruct (xc_entries_by_id cache !! id) as [e|]; cbn; [by destruct Hi|done].
Qed.

(** A checkpoint of files only, with its snapshot source. *)
Definition snapshot_checkpoint (checkpoint : TableMetadataCheckpoint) (inputs : CheckpointInputs) (documents : list Object) : Prop :=
  checkpoint_inputs checkpoint = Ok inputs ∧ in_files inputs ≠ [] ∧ in_speedboat_files inputs = [] ∧
  source_of (in_artifact inputs) (in_files inputs) (in_delete_files inputs) documents.

(** Requests the snapshot answers. *)
Definition answerable (request : ReadPlan) : Prop := is_Some (snapshot_lookup_plan request) ∧ rd_limit request ≠ Some 0.

(** C16. A batch of point lookups on a checkpoint gets, for every request, the documents
    that a scan of the checkpoint's rows selects: those that match every filter, in the
    requested order, cut at the limit and projected; it does so whether the snapshot is
    built now (from a mapped file, a Parquet artifact or a full scan) or was kept, if the
    snapshots that are kept are those of their checkpoints ([caches_ok]), and leaves them so
    for the next.  The checkpoint has no uncompacted files and no exact artifact, its rows
    have no doubles, and the requests are ones a snapshot answers, with a limit. *)
Theorem snapshot_batch_equals_scan documents_of caches checkpoint inputs requests :
  caches_ok documents_of caches → snapshot_checkpoint checkpoint inputs (documents_of (in_key inputs)) → in_exact_artifact inputs = None →
  Forall answerable requests →
  ∃ caches', execute_checkpoint_exact_lookup_batch_rows checkpoint requests caches =
      (Ok (Some ((λ request, project_request request <$> scan_documents (documents_of (in_key inputs)) request) <$> requests)), caches') ∧
    caches_ok documents_of caches'.
Proof.
  intros Hok (Hin & Hfiles & Hspeed & Hsrc) Hex Hreq. rw /execute_checkpoint_exact_lookup_batch_rows. case_decide as Hne; [subst; eauto|].
  rw (st_bind_Ok _ _ caches inputs caches); [by rw /st_lift Hin|]. rw bool_decide_eq_false_2 // Hspeed bool_decide_eq_true_2 //. cbn [orb negb].
  destruct (get_or_build_ok documents_of caches (in_key inputs) _ _ _ Hok Hsrc) as (c1 & Hb & Hok1 & Hc1). rw (st_bind_Ok _ _ _ _ _ Hb) Hex.
  apply (batch_loop_ok documents_of (in_key inputs) _ _ (λ request, project_request request <$> scan_documents (documents_of (in_key inputs)) request) []); [done..|]. eapply Forall_impl; [exact Hreq|]. intros request [[plan Hplan] Hlim] c Hokc Hc.
  destruct (lookup_rows_ok documents_of c (in_key inputs) plan request Hokc Hc Hplan Hlim) as (c' & Hrun & ?). exists c'. split; [|done].
  by rw /planned Hplan (st_bind_Ok _ _ _ _ _ Hrun).
Qed.

(** A batch asked for bytes, as one answer per request. *)
Lemma batch_bytes_ok documents_of caches checkpoint inputs requests :
  caches_ok documents_of caches → snapshot_checkpoint checkpoint inputs (documents_of (in_key inputs)) → in_exact_artifact inputs = None →
  Forall (λ request, answerable request ∧ is_Some (normalized_select (rd_select request))) requests →
  ∃ caches', execute_checkpoint_exact_lookup_batch_projected_field_bytes checkpoint requests caches =
      (Ok (Some ((λ request, (λ doc, project_json_bytes doc (default [] (normalized_select (rd_select request)))) <$> scan_documents (documents_of (in_key inputs)) request) <$> requests)), caches') ∧
    caches_ok documents_of caches'.
Proof.
  intros Hok (Hin & Hfiles & Hspeed & Hsrc) Hex Hreq. rw /execute_checkpoint_exact_lookup_batch_projected_field_bytes. case_decide as Hne; [subst; eauto|].
  rw (st_bind_Ok _ _ caches inputs caches); [by rw /st_lift Hin|]. rw bool_decide_eq_false_2 // Hspeed bool_decide_eq_true_2 //. cbn [orb negb].
  destruct (get_or_build_ok documents_of caches (in_key inputs) _ _ _ Hok Hsrc) as (c1 & Hb & Hok1 & Hc1). rw (st_bind_Ok _ _ _ _ _ Hb) Hex.
  set (answer := λ request, (λ doc, project_json_bytes doc (default [] (normalized_select (rd_select request)))) <$> scan_documents (documents_of (in_key inputs)) request).
  apply (batch_loop_ok documents_of (in_key inputs) (maybe_execute_snapshot_exact_lookup_artifact_projected_field_bytes (in_key inputs) None) (planned (lookup_bytes (in_key inputs))) answer [] requests c1); [done..|].
  eapply Forall_impl; [exact Hreq|]. intros request [[[plan Hplan] Hlim] [fields Hsel]] c Hokc Hc.
  destruct (lookup_bytes_ok documents_of c (in_key inputs) plan request fields Hokc Hc Hplan Hlim Hsel) as (c' & Hrun & ?). exists c'. split; [|done].
  by rw /planned Hplan (st_bind_Ok _ _ _ _ _ Hrun) /answer Hsel.
Qed.

(** The same batch asked for bytes selects the same documents, and the bytes of each
    field are those of the value the other form of the batch returns: nothing for null,
    the text of a string, the JSON of anything else. *)
Theorem snapshot_bytes_agree documents_of caches checkpoint inputs requests :
  caches_ok documents_of caches → snapshot_checkpoint checkpoint inputs (documents_of (in_key inputs)) → in_exact_artifact inputs = None →
  Forall (λ request, answerable request ∧ is_Some (normalized_select (rd_select request))) requests →
  ∃ bytes caches', execute_checkpoint_exact_lookup_batch_projected_field_bytes checkpoint requests caches = (Ok (Some bytes), caches') ∧
    caches_ok documents_of caches' ∧
    Forall2 (λ request rows, Forall2 (λ doc row, ∃ projected, project_request request doc = VObject projected ∧
        ∀ field, row !! field = snapshot_lookup_value_to_projected_bytes <$> obj_get field projected)
      (scan_documents (documents_of (in_key inputs)) request) rows) requests bytes.
Proof.
  intros Hok Hcp Hex Hreq. destruct (batch_bytes_ok documents_of caches checkpoint inputs requests Hok Hcp Hex Hreq) as (c2 & Hrun & Hok2).
  do 2 eexists. split; [exact Hrun|]. split; [done|]. apply Forall2_fmap_r, Forall_Forall2_diag. eapply Forall_impl; [exact Hreq|].
  intros request [_ [fields Hsel]]. cbv beta delta [compose]. rw Hsel. apply Forall2_fmap_r, Forall_Forall2_diag, Forall_true.
  intros doc. cbv beta delta [compose]. rw /project_request Hsel.
  eexists. split; [done|]. intros field. apply projected_bytes_agree.
Qed.
End serving.
End SnapshotServingTheory.

(** ** Three people in a snapshot that comes from a scan, a mapped file or an artifact *)
Module SnapshotServingDemo.
Import HashOrderDemo FloatTextDemo JsonTextDemo SnapshotCodecTheory SnapshotCodecDemo SnapshotLookupTheory SnapshotServingTheory.

Definition person (id team : string) (age seq : Z) : Object :=
  [("_id", VString id); ("_seq_no", int seq); ("team", VString team); ("age", int age); ("_source", VObject [("name", VString ("n" +:+ id))])].
Definition people : list Object := [person "a" "red" 40 1; person "b" "blue" 30 2; person "c" "red" 20 3; person "a" "red" 41 4].
Definition people_batches : list (list Object) := [take 2 people; drop 2 people].

#[export] Instance length_hasher : KeyHasher := { hash_key := λ key, N.of_nat (String.length key) }.
#[export] Instance people_source : SnapshotSource := {
  materialize_local_file := λ _, record_batches_to_snapshot_exact_lookup_mmap_bytes people_batches;
  query_file := λ _ _, Ok people_batches;
  execute_query_plan_batches := λ _ _ _, Ok people_batches;
}.

Definition people_checkpoint : TableMetadataCheckpoint :=
  mkCheckpoint "people" None "7" (Some (mkIcebergMetadata (mkSchema []) None (single "s3://p/1" 100 (mkSchema [])) [] [] [] [] [] [])) None None ∅ (mkSchema []).
Definition people_inputs : CheckpointInputs := get_ok (mkInputs [] [] [] ∅ "" None None) (checkpoint_inputs people_checkpoint).

Definition eq_filter (field : string) (value : Value) : ReadPredicate := mkReadPredicate field (Some value) None None None None None.
Definition red_team : ReadPlan :=
  mkReadPlan (Some ["name"; "age"]) [eq_filter "team" (VString "red"); mkReadPredicate "age" None None None (Some (int 21)) None None] None
    [mkReadSort "age" true] (Some 5) 0 None false false.
Definition by_id : ReadPlan := mkReadPlan None [mkReadPredicate "_id" None (Some [VString "c"; VString "a"; VString "z"]) None None None None] None [] None 0 None false false.

Definition people_of (key : string) : list Object := people.
Definition no_caches : ServingCaches := mkServingCaches ∅ ∅.

Lemma people_docs : snapshot_docs people.
Proof.
  apply Forall_forall. intros doc. rw /people !elem_of_cons. intros Hdoc. split; destruct Hdoc as [->|[->|[->|[->|[]%not_elem_of_nil]]]].
  all: try (solve_exact). all: split; [done|]; repeat (constructor; [split; vm_compute; reflexivity|]); constructor.
Qed.

Lemma people_snapshot : snapshot_checkpoint people_checkpoint people_inputs (people_of (in_key people_inputs)).
Proof.
  split_and!; [vm_compute; reflexivity|done|vm_compute; reflexivity|]. exists people_batches. split; [done|]. split; [apply people_docs|]. vm_compute; reflexivity.
Qed.

(** Two requests: the red team by falling age, and everyone called a, c or z. *)
Lemma snapshot_batch_equals_scan_witness : ∃ caches',
  execute_checkpoint_exact_lookup_batch_rows people_checkpoint [red_team; by_id] no_caches =
    (Ok (Some [[VObject [("name", VString "na"); ("age", int 41)]; VObject [("name", VString "na"); ("age", int 40)]];
               [VObject (person "a" "red" 40 1); VObject (person "c" "red" 20 3); VObject (person "a" "red" 41 4)]]), caches') ∧ caches_ok people_of caches'.
Proof.
  destruct (snapshot_batch_equals_scan people_of no_caches people_checkpoint people_inputs [red_team; by_id]) as (caches' & Hrun & Hok).
  - by intros key cache.
  - apply people_snapshot.
  - vm_compute; reflexivity.
  - repeat constructor; [eexists; vm_compute; reflexivity|done|eexists; vm_compute; reflexivity|done].
  - exists caches'. split; [|done]. rw Hrun. vm_compute. reflexivity.
Defined.

Lemma snapshot_bytes_agree_witness : ∃ bytes caches',
  execute_checkpoint_exact_lookup_batch_projected_field_bytes people_checkpoint [red_team] no_caches = (Ok (Some bytes), caches') ∧ length <$> bytes = [2].
Proof.
  destruct (snapshot_bytes_agree people_of no_caches people_checkpoint people_inputs [red_team]) as (bytes & caches' & Hrun & _ & Hb).
  - by intros key cache.
  - apply people_snapshot.
  - vm_compute; reflexivity.
  - repeat constructor; [eexists; vm_compute; reflexivity|done|eexists; vm_compute; reflexivity].
  - exists bytes, caches'. split; [done|]. inversion Hb as [|? rows ? ? Hrows Hrest]; subst. inversion Hrest; subst. apply Forall2_length in Hrows. cbn. by rw -Hrows.
Defined.

(** Of the two rows of a, the one returned is not older than the row of sequence 4. *)
Lemma exact_id_lookup_returns_newest_witness : ∃ pick caches',
  maybe_execute_snapshot_exact_lookup_artifact "people:7" (Some (ExactMmap "s3://p/x")) by_id 10 no_caches =
    (Ok (Some (take 10 ((λ r, project_request by_id (doc_at people r)) <$> omap pick ["sa"; "sc"; "sz"]))), caches') ∧
  ∀ r, pick "sa" = Some r → ¬ newer (person "a" "red" 41 4) (doc_at people r).
Proof.
  destruct (exact_id_lookup_returns_newest people_of no_caches "people:7" (ExactMmap "s3://p/x") by_id 10 ["sa"; "sc"; "sz"]) as (pick & caches' & Hrun & _ & Hpick).
  - by intros key cache.
  - exists people_batches. split; [vm_compute; reflexivity|]. split; [apply people_docs|]. eexists. split; [reflexivity|]. vm_compute; reflexivity.
  - vm_compute; reflexivity.
  - done.
  - lia.
  - exists pick, caches'. split; [done|]. intros r Hr. pose proof (Hpick "sa") as Hp. rw Hr in Hp. destruct Hp as (_ & _ & Hall).
    assert (H3 : (3 ∈ all_rows people)%Z) by (apply elem_of_all_rows; cbn; lia).
    assert (Ha : doc_has "_id" "sa" (doc_at people 3) = true) by (vm_compute; reflexivity). destruct (Hall 3%Z H3 Ha) as [Hn _]. exact Hn.
Defined.

Lemma value_order_is_total_witness : compare_row_values (jt:=demo_json) (Some (VString "9")) None false = Lt ∧ compare_values (jt:=demo_json) (VString "9") (int 1) = Lt.
Proof.
  destruct (value_order_is_total (jt:=demo_json) false) as (_ & _ & Hnone & Hrank). split; [by apply Hnone|]. apply Hrank. cbn. lia.
Defined.
End SnapshotServingDemo.
