(* ===== verification/TopK.v ===== *)
(** * Merging the answers of file groups (query_runtime/src/lakehouse_serving.rs)

    A request runs as one SQL query per group of files with the same schema.  The answers
    are merged as they arrive; an ordered request over files with statistics visits the
    groups from the best bound on, and stops when no later group can matter. *)

From S2P Require Import Prelude Text StableSort Schema Json JsonText FileSet Contract QueryPath Pruning Planner SnapshotCodec SnapshotLookup SnapshotServing.

(** [value.get(field)] *)
Definition value_get (value : Value) (field : string) : option Value := as_object value ≫= obj_get field.

(** SRC query_lib/src/query_execution.rs:56-61= group_query_input_files_by_schema, the suffixes *)
Definition suffixes (file : QueryInputFile) : list string := sort_by String.compare (qe_suffix <$> qi_extensions file).

(** One iteration: the file joins the first group whose first file is like it. *)
Fixpoint join_input_group (file : QueryInputFile) (groups : list (list QueryInputFile)) : list (list QueryInputFile) :=
  match groups with
  | [] => [[file]]
  | group :: groups =>
      if match group with
         | existing :: _ =>
             bool_decide (qi_storage existing = qi_storage file) && bool_decide (file_schema (qi_file existing) = file_schema (qi_file file))
             && bool_decide (suffixes existing = suffixes file)
         | [] => false
         end
      then (group ++ [file]) :: groups
      else group :: join_input_group file groups
  end.

(** SRC query_lib/src/query_execution.rs:52-83 group_query_input_files_by_schema *)
Definition group_query_input_files_by_schema (files : list QueryInputFile) : list (list QueryInputFile) :=
  foldl (λ groups file, join_input_group file groups) [] files.

(** SRC query_runtime/src/lakehouse_serving.rs:4397-4404 serving_query_input_groups *)
Definition serving_query_input_groups (files speedboat_files : list FileDescriptor) : list (list QueryInputFile) :=
  group_query_input_files_by_schema (iceberg_query_inputs files ++ speedboat_query_inputs speedboat_files).

(** [buffer_unordered]: results arrive in some order. *)
Class CompletionOrder : Type := {
  complete : ∀ {A}, list A → list A;
  complete_perm : ∀ A (l : list A), complete l ≡ₚ l;
}.

(** SRC query_runtime/src/lakehouse_serving.rs:781-785 OrderedFileGroup *)
Record OrderedFileGroup : Type := mkOrderedGroup { og_files : list FileDescriptor; og_best_case_sort_value : Value }.

Section merging.
Context `{jt : JsonText, src : SnapshotSource}.

(** ** Merging rows *)

(** The order of rows of a sort. *)
Definition row_compare (sort : ReadSort) (left right : Value) : comparison :=
  compare_row_values (value_get left (rs_field sort)) (value_get right (rs_field sort)) (rs_descending sort).

(** SRC query_runtime/src/lakehouse_serving.rs:3816-3836 merge_rows *)
Definition merge_rows (rows new_rows : list Value) (request : ReadPlan) (limit : nat) : list Value :=
  let rows := rows ++ new_rows in
  match rd_order_by request with
  | sort :: _ => take limit (sort_by (row_compare sort) rows)
  | [] => let unsorted_cap := Nat.max (limit * 4) limit in take unsorted_cap rows
  end.

Definition unprocessable {A} (m : outcome A) : srv A :=
  match m with Ok a => Ok a | Err e => Err (mkServingQueryError 422 e) | Panic r => Panic r end.

(** SRC query_runtime/src/lakehouse_serving.rs:4406-4427 execute_query_input_group_plan *)
Definition execute_query_input_group_plan (query_files : list QueryInputFile) (sql_template : string) (delete_files : list string) : srv (list Value) :=
  batches ← unprocessable (execute_query_plan_batches (replace "{table}" "{target_table}" sql_template) query_files delete_files);
  Ok (VObject <$> concat batches).

(** SRC query_runtime/src/lakehouse_serving.rs:3472-3502 execute_parallel_plan *)
Definition execute_parallel_plan `{CompletionOrder} (files speedboat_files : list FileDescriptor) (delete_files : list string) (request : ReadPlan) (sql : string) (limit : nat) :
    srv (list Value) :=
  foldM (λ rows query_files,
    new_rows ← execute_query_input_group_plan query_files sql delete_files;
    Ok (merge_rows rows new_rows request limit)) [] (complete (serving_query_input_groups files speedboat_files)).

(** ** Bounds on the rows of a group *)

(** SRC query_runtime/src/lakehouse_serving.rs:4220-4227= file_group_sort_bound, the better bound *)
Definition better_bound (descending : bool) (best_bound : option Value) (candidate : Value) : option Value :=
  match best_bound with
  | Some best => match compare_sort_values candidate best descending with Lt => Some candidate | _ => Some best end
  | None => Some candidate
  end.

(** The bound of a column's statistics. *)
Definition column_bound (column_stats : IcebergColumnStats) (record_count : option Z) (descending : bool) : option Value :=
  if column_is_all_null column_stats record_count then Some VNull
  else if descending then cs_upper_bound column_stats else cs_lower_bound column_stats.

(** SRC query_runtime/src/lakehouse_serving.rs:4314-4333 row_group_sort_bound *)
Definition row_group_sort_bound (row_group : IcebergRowGroupStats) (sort_field : string) (descending : bool) : option Value :=
  column_stats ← find (λ stats, String.eqb (cs_field_name stats) sort_field) (rg_columns row_group);
  column_bound column_stats (rg_record_count row_group) descending.

(** SRC query_runtime/src/lakehouse_serving.rs:4296-4305 partition_value_sort_bound *)
Definition partition_value_sort_bound (stats : IcebergFileStats) (sort_field : string) : option Value :=
  partition_value ← find (λ pv, String.eqb (pv_source_field_name pv) sort_field && String.eqb (pv_transform pv) "identity") (fst_partition_values stats);
  pv_value partition_value.

(** SRC query_runtime/src/lakehouse_serving.rs:4270-4294 file_level_sort_bound *)
Definition file_level_sort_bound (stats : IcebergFileStats) (sort_order : list IcebergSortField) (sort_field : string) (descending : bool) : option Value :=
  match find (λ stats, String.eqb (cs_field_name stats) sort_field) (fst_columns stats) with
  | None => if sort_order_supports_field sort_order sort_field then partition_value_sort_bound stats sort_field else None
  | Some column_stats => column_bound column_stats (fst_record_count stats) descending
  end.

(** The loop over the row groups; [None] when one has no bound. *)
Fixpoint best_row_group_bound (sort_field : string) (descending : bool) (best : option Value) (row_groups : list IcebergRowGroupStats) : option (option Value) :=
  match row_groups with
  | [] => Some best
  | row_group :: row_groups =>
      match row_group_sort_bound row_group sort_field descending with
      | None => None
      | Some candidate => best_row_group_bound sort_field descending (better_bound descending best candidate) row_groups
      end
  end.

(** SRC query_runtime/src/lakehouse_serving.rs:4232-4268 file_sort_bound *)
Definition file_sort_bound (file : FileDescriptor) (file_stats : gmap string IcebergFileStats) (sort_order : list IcebergSortField) (request : ReadPlan)
    (sort_field : string) (descending : bool) : option Value :=
  stats ← file_stats !! file_path file;
  if decide (fst_row_groups stats = []) then file_level_sort_bound stats sort_order sort_field descending
  else
    let matching_row_groups := List.filter (λ row_group, row_group_may_match_request row_group request) (fst_row_groups stats) in
    if decide (matching_row_groups = []) then None
    else match best_row_group_bound sort_field descending None matching_row_groups with
         | None => file_level_sort_bound stats sort_order sort_field descending
         | Some best => best
         end.

(** The loop over the files; one without a bound leaves the group without. *)
Fixpoint group_bound_loop (file_stats : gmap string IcebergFileStats) (sort_order : list IcebergSortField) (request : ReadPlan) (sort_field : string) (descending : bool)
    (best_bound : option Value) (files : list FileDescriptor) : option Value :=
  match files with
  | [] => best_bound
  | file :: files =>
      candidate ← file_sort_bound file file_stats sort_order request sort_field descending;
      group_bound_loop file_stats sort_order request sort_field descending (better_bound descending best_bound candidate) files
  end.

(** SRC query_runtime/src/lakehouse_serving.rs:4206-4230 file_group_sort_bound *)
Definition file_group_sort_bound (files : list FileDescriptor) (file_stats : gmap string IcebergFileStats) (sort_order : list IcebergSortField) (request : ReadPlan)
    (sort_field : string) (descending : bool) : option Value :=
  group_bound_loop file_stats sort_order request sort_field descending None files.

(** SRC query_runtime/src/lakehouse_serving.rs:3844-3873 ordered_file_groups_for_top_k *)
Definition ordered_file_groups_for_top_k (files : list FileDescriptor) (file_stats : gmap string IcebergFileStats) (sort_order : list IcebergSortField) (request : ReadPlan)
    (sort_field : string) (descending : bool) : option (list OrderedFileGroup) :=
  groups ← mapM (λ group, mkOrderedGroup group <$> file_group_sort_bound group file_stats sort_order request sort_field descending) (group_files_by_schema files);
  Some (sort_by (λ left right, compare_sort_values (og_best_case_sort_value left) (og_best_case_sort_value right) descending) groups).

(** ** Ordered plans *)

(** SRC query_runtime/src/lakehouse_serving.rs:4335-4351 remaining_groups_cannot_beat_kth_row *)
Definition remaining_groups_cannot_beat_kth_row (rows : list Value) (next_best_sort_value : Value) (sort_field : string) (descending : bool) (limit : nat) : bool :=
  if (limit =? 0) || (length rows <? limit) then false
  else match rows !! (limit - 1) ≫= λ row, value_get row sort_field with
       | None => false
       | Some kth_row_value => match compare_sort_values next_best_sort_value kth_row_value descending with Gt => true | _ => false end
       end.

(** The loop over the groups. *)
Fixpoint top_k_loop (delete_files : list string) (request : ReadPlan) (sort : ReadSort) (sql : string) (limit : nat) (rows : list Value) (file_groups : list OrderedFileGroup) : srv (list Value) :=
  match file_groups with
  | [] => Ok rows
  | file_group :: file_groups =>
      new_rows ← execute_query_input_group_plan (iceberg_query_inputs (og_files file_group)) sql delete_files;
      let rows := merge_rows rows new_rows request limit in
      match file_groups with
      | next_group :: _ =>
          if remaining_groups_cannot_beat_kth_row rows (og_best_case_sort_value next_group) (rs_field sort) (rs_descending sort) limit then Ok rows
          else top_k_loop delete_files request sort sql limit rows file_groups
      | [] => Ok rows
      end
  end.

(** SRC query_runtime/src/lakehouse_serving.rs:3547-3584 execute_ordered_top_k_plan *)
Definition execute_ordered_top_k_plan (file_groups : list OrderedFileGroup) (delete_files : list string) (request : ReadPlan) (sql : string) (limit : nat) : srv (list Value) :=
  match rd_order_by request with
  | [] => Ok []
  | sort :: _ => top_k_loop delete_files request sort sql limit [] file_groups
  end.
End merging.
