(* ===== verification/TopKTheory.v ===== *)
(** * Ordered answers are the best rows (query_runtime/src/lakehouse_serving.rs)

    An answer to an ordered request with a limit is sorted, has as many rows as there are
    up to the limit, and no row left out is better than one in it.  Merging such answers
    of groups gives one for all of them, in whatever order they arrive; and when the
    statistics of the files are true, stopping early changes nothing. *)

From S2P Require Import Prelude Text StableSort Schema Json JsonText FileSet Contract QueryPath Pruning Planner SnapshotCodec SnapshotLookup SnapshotLookupTheory SnapshotServing TopK.

Module TopKTheory.
Import SnapshotLookupTheory.

(** ** Answers *)

Lemma sorted_lookup {A} (R : A → A → Prop) l i j x y : StronglySorted R l → l !! i = Some x → l !! j = Some y → i < j → R x y.
Proof.
  intros Hs. revert i j. induction Hs as [|z l _ IH Hz]; intros i j Hi Hj Hlt; [done|]. destruct j as [|j]; [lia|]. destruct i as [|i].
  - injection Hi as ->. rw Forall_forall in Hz. apply Hz. exact (list_elem_of_lookup_2 l j y Hj).
  - apply (IH i j); [done|done|lia].
Qed.

Section top_k.
Context {A : Type} (cmp : A → A → comparison) `{!TotalPreorder cmp}.

Definition top_k (limit : nat) (all answer : list A) : Prop :=
  ∃ rest, answer ++ rest ≡ₚ all ∧ StronglySorted (cmp_le cmp) answer ∧ (∀ x y, x ∈ answer → y ∈ rest → cmp_le cmp x y) ∧ length answer = Nat.min limit (length all).

Lemma answer_nil limit : top_k limit [] [].
Proof. exists []. split_and!; [done|constructor|by intros ? ? ?%not_elem_of_nil|cbn; lia]. Qed.

Lemma answer_perm limit all all' answer : all ≡ₚ all' → top_k limit all answer → top_k limit all' answer.
Proof. intros Hp (rest & Hr & Hs & Hle & Hl). exists rest. split_and!; [by rw Hr|done..|by rw Hl Hp]. Qed.

Lemma filter_all (P : A → Prop) `{∀ x, Decision (P x)} l : Forall P l → filter P l = l.
Proof. induction 1 as [|x l Hx _ IH]; [done|]. by rw filter_cons decide_True // IH. Qed.

Lemma filter_none (P : A → Prop) `{∀ x, Decision (P x)} l : Forall (λ x, ¬ P x) l → filter P l = [].
Proof. induction 1 as [|x l Hx _ IH]; [done|]. by rw filter_cons decide_False. Qed.

(** In a sorted list, what is smaller than an element is before it. *)
Lemma smaller_before x l1 l2 : StronglySorted (cmp_le cmp) (l1 ++ x :: l2) → length (filter (λ z, cmp z x = Lt) (l1 ++ x :: l2)) ≤ length l1.
Proof.
  intros (Hc & _ & Hs)%StronglySorted_app. rw filter_app length_app. assert (Hnil : filter (λ z, cmp z x = Lt) (x :: l2) = []); [|rw Hnil; pose proof (length_filter (λ z, cmp z x = Lt) l1); cbn; lia].
  apply StronglySorted_inv in Hs as [_ Hx]. rw Forall_forall in Hx. apply filter_none, Forall_forall. intros z [->|Hz]%elem_of_cons Hlt; [by rw cmp_refl in Hlt|].
  apply Hx in Hz. rw /cmp_le in Hz. rw (cmp_opp x z) in Hlt. by destruct (cmp x z).
Qed.

(** The first rows of a merge are no worse than what either side left out. *)
Lemma merged_beats limit (answer other m : list A) x y : m ≡ₚ answer ++ other → StronglySorted (cmp_le cmp) m → length answer = limit →
  (∀ z, z ∈ answer → cmp_le cmp z y) → x ∈ take limit m → cmp_le cmp x y.
Proof.
  intros Hm Hs Hl Hle Hx. destruct (cmp_total cmp x y) as [?|Hyx]; [done|]. intros Hgt.
  apply list_elem_of_split in Hx as (l1 & l2 & Hx). assert (Hlt : length l1 < limit).
  { pose proof (f_equal length Hx) as Hlen. rw length_take length_app in Hlen. cbn in Hlen. lia. }
  assert (Hsplit : m = l1 ++ x :: (l2 ++ drop limit m)) by (rw -{1}(take_drop limit m) Hx -app_assoc; done). rw Hsplit in Hs. apply smaller_before in Hs.
  rw -Hsplit Hm filter_app length_app in Hs. assert (Hall : filter (λ z, cmp z x = Lt) answer = answer).
  { apply filter_all, Forall_forall. intros z Hz%Hle. destruct (cmp z x) eqn:Hzx; [|done|].
    - exfalso. apply Hz. rw (cmp_eq_subst cmp z x y Hzx). done.
    - exfalso. apply cmp_gt_le in Hzx; [|done]. by apply (cmp_trans (cmp:=cmp) x z y Hzx Hz). }
  rw Hall Hl in Hs. lia.
Qed.

Lemma answer_full limit (all answer rest : list A) : answer ++ rest ≡ₚ all → length answer = Nat.min limit (length all) → rest = [] ∨ length answer = limit.
Proof. intros Hp Hl. pose proof (Permutation_length Hp) as Hlen. rw length_app in Hlen. destruct rest; [by left|right]. cbn in Hlen. lia. Qed.

Lemma answers_merge limit a b ra rb : top_k limit a ra → top_k limit b rb → top_k limit (a ++ b) (take limit (sort_by cmp (ra ++ rb))).
Proof.
  intros (resta & Hpa & _ & Hlea & Hla) (restb & Hpb & _ & Hleb & Hlb). set (m := sort_by cmp (ra ++ rb)).
  assert (Hm : m ≡ₚ ra ++ rb) by apply sort_by_perm. pose proof (sort_by_in_order cmp (ra ++ rb)) as Hs. fold m in Hs.
  exists (drop limit m ++ (resta ++ restb)). split_and!.
  - rw app_assoc take_drop Hm -Hpa -Hpb -!app_assoc. apply Permutation_app_head. rw !app_assoc. apply Permutation_app_tail, Permutation_app_comm.
  - rw -(take_drop limit m) in Hs. by apply StronglySorted_app in Hs as (_ & ? & _).
  - intros x y Hx [Hy|[Hy|Hy]%elem_of_app]%elem_of_app.
    + pose proof Hs as Hs'. rw -(take_drop limit m) in Hs'. apply StronglySorted_app in Hs' as (Hc & _ & _). by apply Hc.
    + destruct (answer_full limit a ra resta Hpa Hla) as [->|Hra]; [by apply not_elem_of_nil in Hy|]. apply (merged_beats limit ra rb m x y); [done..| |done]. intros z Hz. by apply Hlea.
    + destruct (answer_full limit b rb restb Hpb Hlb) as [->|Hrb]; [by apply not_elem_of_nil in Hy|].
      apply (merged_beats limit rb ra m x y); [by rw Hm Permutation_app_comm|done..| |done]. intros z Hz. by apply Hleb.
  - rw length_take (Permutation_length Hm) !length_app. lia.
Qed.

(** Sorting everything is one way to answer. *)
Lemma answer_sorted limit l : top_k limit l (take limit (sort_by cmp l)).
Proof.
  pose proof (sort_by_in_order cmp l) as Hs. rw -(take_drop limit (sort_by cmp l)) in Hs. apply StronglySorted_app in Hs as (Hc & Hs & _).
  exists (drop limit (sort_by cmp l)). split_and!; [by rw take_drop sort_by_perm|done|done|by rw length_take sort_by_length].
Qed.

(** Rows no better than a full answer change nothing. *)
Lemma answers_more limit all answer more : top_k limit all answer → length answer = limit → (∀ x y, x ∈ answer → y ∈ more → cmp_le cmp x y) → top_k limit (all ++ more) answer.
Proof.
  intros (rest & Hp & Hs & Hle & Hl) Hfull Hmore. exists (rest ++ more). split_and!; [by rw app_assoc Hp|done| |rw length_app; lia].
  intros x y Hx [Hy|Hy]%elem_of_app; [by apply Hle|by apply Hmore].
Qed.

Lemma answer_elem limit all answer x : top_k limit all answer → x ∈ answer → x ∈ all.
Proof. intros (rest & Hp & _) Hx. rw -Hp elem_of_app. by left. Qed.
End top_k.

(** ** Bounds are bounds *)

Section bounds.
Context `{jt : JsonText, !JsonTextLaws jt}.

(** A row as the statistics see it. *)
Definition row_of (doc : Value) : Row := λ field, default VNull (value_get doc field).

(** The bound is no worse than the value, in the order of the request. *)
Definition bounds (descending : bool) (bound v : Value) : Prop := compare_sort_values bound v descending ≠ Gt.

Lemma compare_scalar_agrees a b c : compare_scalar_values a b = Some c → compare_values a b = c.
Proof. destruct a, b; cbn; naive_solver. Qed.

Lemma vle_ascending a b : vle a b → bounds false a b.
Proof. rw /vle /bounds /compare_sort_values /compare_row_values /=. destruct (compare_scalar_values a b) as [c|] eqn:Hc; [|done]. rw (compare_scalar_agrees a b c Hc). by destruct c. Qed.

Lemma vle_descending a b : vle b a → bounds true a b.
Proof.
  rw /vle /bounds /compare_sort_values /compare_row_values /=. destruct (compare_scalar_values b a) as [c|] eqn:Hc; [|done].
  rw (cmp_opp (cmp:=compare_values) b a) (compare_scalar_agrees b a c Hc). by destruct c.
Qed.

Lemma bounds_total d : TotalPreorder (λ v w, compare_sort_values v w d).
Proof. apply (total_reverse compare_values d), _. Qed.

Lemma bounds_refl d v : bounds d v v.
Proof. pose proof (bounds_total d). pose proof (cmp_refl (λ v w, compare_sort_values v w d) v) as H1. cbn in H1. by rw /bounds H1. Qed.

Lemma bounds_trans d a b c : bounds d a b → bounds d b c → bounds d a c.
Proof. pose proof (bounds_total d). apply (cmp_trans (cmp:=λ v w, compare_sort_values v w d)). Qed.

Lemma column_bound_sound rows record_count c d b row : column_describes rows record_count c → row ∈ rows → (d = true → row (cs_field_name c) ≠ VNull) →
  column_bound c record_count d = Some b → bounds d b (row (cs_field_name c)).
Proof.
  intros Hc Hrow Hnn. rw /column_bound. assert (row (cs_field_name c) = VNull ∨ row (cs_field_name c) ≠ VNull) as [Hnull|Hne] by (destruct (row (cs_field_name c)); auto).
  - destruct d; [by destruct (Hnn eq_refl)|]. rw Hnull. intros _. rw /bounds /compare_sort_values /compare_row_values /=. by destruct b.
  - rw (not_all_null rows record_count c Hc row Hrow Hne). destruct d; intros Hb; [by apply vle_descending, (cd_upper _ _ _ Hc)|by apply vle_ascending, (cd_lower _ _ _ Hc)].
Qed.

Lemma better_bound_spec d best candidate : ∃ b, better_bound d best candidate = Some b ∧ bounds d b candidate ∧ ∀ best', best = Some best' → bounds d b best'.
Proof.
  rw /better_bound. pose proof (bounds_total d) as Ht. pose proof (bounds_refl d) as Hrefl.
  destruct best as [best|]; [|exists candidate; split_and!; [done..|intros ? [=]]].
  destruct (compare_sort_values candidate best d) eqn:Hc.
  - exists best. split_and!; [done| |intros ? [= <-]; apply Hrefl]. rw /bounds (cmp_opp (cmp:=λ v w, compare_sort_values v w d) candidate best) Hc. done.
  - exists candidate. split_and!; [done|apply Hrefl|]. intros ? [= <-]. rw /bounds Hc. done.
  - exists best. split_and!; [done| |intros ? [= <-]; apply Hrefl]. rw /bounds (cmp_opp (cmp:=λ v w, compare_sort_values v w d) candidate best) Hc. done.
Qed.

(** The best of some bounds bounds what each of them bounds. *)
Lemma row_group_bounds sort_field d best groups b : best_row_group_bound sort_field d best groups = Some (Some b) →
  (∀ best', best = Some best' → bounds d b best') ∧ (∀ rg, rg ∈ groups → ∃ c, row_group_sort_bound rg sort_field d = Some c ∧ bounds d b c).
Proof.
  revert best. induction groups as [|rg groups IH]; intros best; cbn [best_row_group_bound].
  { intros [= ->]. split; [intros ? [= <-]|by intros ? ?%not_elem_of_nil]. apply bounds_refl. }
  destruct (row_group_sort_bound rg sort_field d) as [c|] eqn:Hc; [|done]. destruct (better_bound_spec d best c) as (b1 & Hb1 & Hbc & Hbb). rw Hb1. intros [H1 H2]%IH.
  specialize (H1 b1 eq_refl). split.
  - intros best' Hbest. apply (bounds_trans d b b1); [done|by apply Hbb].
  - intros rg' [->|Hrg]%elem_of_cons; [|by apply H2]. exists c. split; [done|]. by apply (bounds_trans d b b1).
Qed.

Lemma found_column field columns c : find (λ stats, String.eqb (cs_field_name stats) field) columns = Some c → c ∈ columns ∧ cs_field_name c = field.
Proof. intros [Hin%list_elem_of_In Hf%String.eqb_eq]%find_some. done. Qed.

Lemma file_level_bound_sound rows stats sort_order sort_field d b row : file_described rows stats → row ∈ rows → (d = true → row sort_field ≠ VNull) →
  file_level_sort_bound stats sort_order sort_field d = Some b → bounds d b (row sort_field).
Proof.
  intros Hd Hrow Hnn. rw /file_level_sort_bound. destruct (find _ (fst_columns stats)) as [c|] eqn:Hf.
  - apply found_column in Hf as [Hin <-]. intros Hb. pose proof (fd_columns _ _ Hd) as Hcs. rw /columns_describe Forall_forall in Hcs. by apply (column_bound_sound rows (fst_record_count stats) c); [apply Hcs|..].
  - destruct (sort_order_supports_field sort_order sort_field); [|done]. rw /partition_value_sort_bound.
    destruct (find _ (fst_partition_values stats)) as [pv|] eqn:Hpv; [|done]. cbn. intros Hv.
    apply find_some in Hpv as [Hpv%list_elem_of_In [Hname%String.eqb_eq Hid%String.eqb_eq]%andb_true_iff].
    pose proof (fd_partitions _ _ Hd pv b row Hpv Hid Hv Hrow) as Heq. rw Hname in Heq. apply compare_eq in Heq as [H1 H2].
    destruct d; [by apply vle_descending|by apply vle_ascending].
Qed.

Lemma file_bound_sound rows file file_stats sort_order request sort_field d b row :
  (∀ stats, file_stats !! file_path file = Some stats → file_described rows stats) → row ∈ rows → row_matches_as_floats (serving_request_predicates request) row →
  (d = true → row sort_field ≠ VNull) → file_sort_bound file file_stats sort_order request sort_field d = Some b → bounds d b (row sort_field).
Proof.
  intros Hd Hrow Hm Hnn. rw /file_sort_bound. destruct (file_stats !! file_path file) as [stats|]; [|done]. cbn. specialize (Hd stats eq_refl).
  case_decide as Hrg; [by apply (file_level_bound_sound rows)|]. case_decide as Hne; [done|].
  destruct (best_row_group_bound _ _ _ _) as [best|] eqn:Hbest; [|by apply (file_level_bound_sound rows)]. intros ->.
  apply row_group_bounds in Hbest as [_ Hall]. destruct (fd_groups _ _ Hd Hrg row Hrow) as (rg & group & Hin & Hg & Hdesc).
  destruct (Hall rg) as (c & Hc & Hbc).
  { rw list_elem_of_In List.filter_In -list_elem_of_In. split; [done|]. apply forallb_forall. intros p Hp%list_elem_of_In. rw /row_matches_as_floats Forall_forall in Hm.
    apply (columns_kept group _ _ row p Hdesc Hg). by apply Hm. }
  apply (bounds_trans d b c); [done|]. rw /row_group_sort_bound in Hc. destruct (find _ (rg_columns rg)) as [col|] eqn:Hcol; [|done].
  apply found_column in Hcol as [Hcin <-]. cbn in Hc. rw /columns_describe Forall_forall in Hdesc. by apply (column_bound_sound group (rg_record_count rg) col); [apply Hdesc| | |].
Qed.

Lemma group_bounds file_stats sort_order request sort_field d best files b : group_bound_loop file_stats sort_order request sort_field d best files = Some b →
  (∀ best', best = Some best' → bounds d b best') ∧ (∀ file, file ∈ files → ∃ c, file_sort_bound file file_stats sort_order request sort_field d = Some c ∧ bounds d b c).
Proof.
  revert best. induction files as [|file files IH]; intros best; cbn [group_bound_loop].
  { intros ->. split; [intros ? [= <-]|by intros ? ?%not_elem_of_nil]. apply bounds_refl. }
  destruct (file_sort_bound file file_stats sort_order request sort_field d) as [c|] eqn:Hc; [|done]. cbn [mbind option_bind].
  destruct (better_bound_spec d best c) as (b1 & Hb1 & Hbc & Hbb). rw Hb1. intros [H1 H2]%IH. specialize (H1 b1 eq_refl). split.
  - intros best' Hbest. apply (bounds_trans d b b1); [done|by apply Hbb].
  - intros f [->|Hf]%elem_of_cons; [|by apply H2]. exists c. split; [done|]. by apply (bounds_trans d b b1).
Qed.
End bounds.

(** ** Groups *)

Lemma join_group_perm file groups : concat (join_group file groups) ≡ₚ concat groups ++ [file].
Proof.
  induction groups as [|group groups IH]; [done|]. cbn [join_group]. case_match; cbn [concat].
  - rw -!app_assoc. apply Permutation_app_head, Permutation_app_comm.
  - rw IH app_assoc. done.
Qed.

Lemma join_input_group_perm file groups : concat (join_input_group file groups) ≡ₚ concat groups ++ [file].
Proof.
  induction groups as [|group groups IH]; [done|]. cbn [join_input_group]. case_match; cbn [concat].
  - rw -!app_assoc. apply Permutation_app_head, Permutation_app_comm.
  - rw IH app_assoc. done.
Qed.

Lemma groups_perm files : concat (group_files_by_schema files) ≡ₚ files.
Proof. rw /group_files_by_schema. induction files as [|f files IH] using rev_ind; [done|]. rw foldl_app. cbn [foldl]. by rw join_group_perm IH. Qed.

Lemma input_groups_perm files : concat (group_query_input_files_by_schema files) ≡ₚ files.
Proof. rw /group_query_input_files_by_schema. induction files as [|f files IH] using rev_ind; [done|]. rw foldl_app. cbn [foldl]. by rw join_input_group_perm IH. Qed.

Lemma bind_concat {A B} (f : A → list B) (groups : list (list A)) : groups ≫= (λ group, group ≫= f) = concat groups ≫= f.
Proof. induction groups as [|g groups IH]; [done|]. cbn [concat]. by rw bind_cons IH bind_app. Qed.

(** ** Plans *)

Section plans.
Context `{jt : JsonText, !JsonTextLaws jt, src : SnapshotSource}.
Context (request : ReadPlan) (sort : ReadSort) (rest : list ReadSort) (Hsort : rd_order_by request = sort :: rest).
Context (delete_files : list string) (sql : string) (limit : nat).

(** The rows of a file that answer the request. *)
Context (answers : QueryInputFile → list Value).

#[local] Instance row_compare_total : TotalPreorder (row_compare sort).
Proof. apply (total_on (λ row, value_get row (rs_field sort)) (λ v w, compare_row_values v w (rs_descending sort))), (total_on (default VNull) (λ v w, reverse_if (rs_descending sort) (compare_values v w))), total_reverse, _. Qed.

(** What the SQL engine is relied on for: the query of the request, run on a group of
    files, returns an answer for the rows of the group. *)
Definition engine_answers (group : list QueryInputFile) : Prop :=
  ∃ batches, execute_query_plan_batches (replace "{table}" "{target_table}" sql) group delete_files = Ok batches ∧
    top_k (row_compare sort) limit (group ≫= answers) (VObject <$> concat batches).

Lemma group_answer group : engine_answers group → ∃ rows, execute_query_input_group_plan group sql delete_files = Ok rows ∧ top_k (row_compare sort) limit (group ≫= answers) rows.
Proof. intros (batches & Hb & Ht). eexists. split; [|exact Ht]. by rw /execute_query_input_group_plan Hb bind_Ok. Qed.

Lemma merge_step all rows group new : top_k (row_compare sort) limit all rows → top_k (row_compare sort) limit (group ≫= answers) new →
  top_k (row_compare sort) limit (all ++ (group ≫= answers)) (merge_rows rows new request limit).
Proof. intros H1 H2. rw /merge_rows Hsort. apply answers_merge; [apply row_compare_total|done|done]. Qed.

Lemma merge_groups_answer groups all rows : Forall engine_answers groups → top_k (row_compare sort) limit all rows → ∃ rows',
  foldM (λ rows query_files, new_rows ← execute_query_input_group_plan query_files sql delete_files; Ok (merge_rows rows new_rows request limit)) rows groups = Ok rows' ∧
  top_k (row_compare sort) limit (all ++ (groups ≫= λ group, group ≫= answers)) rows'.
Proof.
  intros Hg. revert all rows. induction Hg as [|group groups Hgr _ IH]; intros all rows Ht; cbn [foldM]; [exists rows; split; [done|by rw app_nil_r]|].
  destruct (group_answer group Hgr) as (new & -> & Hn). rw !bind_Ok. destruct (IH _ _ (merge_step all rows group new Ht Hn)) as (rows' & Hf & Ht').
  exists rows'. split; [done|]. by rw bind_cons app_assoc.
Qed.

Lemma parallel_answer `{CompletionOrder} files speedboat_files : Forall engine_answers (serving_query_input_groups files speedboat_files) → ∃ rows,
  execute_parallel_plan files speedboat_files delete_files request sql limit = Ok rows ∧
  top_k (row_compare sort) limit ((iceberg_query_inputs files ++ speedboat_query_inputs speedboat_files) ≫= answers) rows.
Proof.
  intros Hg. rw /execute_parallel_plan. destruct (merge_groups_answer (complete (serving_query_input_groups files speedboat_files)) [] []) as (rows & Hf & Ht).
  - by rw complete_perm.
  - apply answer_nil.
  - exists rows. split; [done|]. eapply answer_perm; [|exact Ht]. cbn [app]. rw complete_perm bind_concat. by rw /serving_query_input_groups input_groups_perm.
Qed.

(** *** Stopping early *)

Context (file_stats : gmap string IcebergFileStats) (sort_order : list IcebergSortField) (rows_of : FileDescriptor → list Row).

(** The statistics are true of the files, an answer is a row that matches with its sort
    field in it, and a descending order has no nulls. *)
Record files_described (files : list FileDescriptor) : Prop := {
  fds_stats : ∀ file stats, file ∈ files → file_stats !! file_path file = Some stats → file_described (rows_of file) stats;
  fds_answers : ∀ file doc, file ∈ files → doc ∈ answers (mkQueryInput file Iceberg []) → ∃ row, row ∈ rows_of file ∧
    row_matches_as_floats (serving_request_predicates request) row ∧ value_get doc (rs_field sort) = Some (row (rs_field sort)) ∧ (rs_descending sort = true → row (rs_field sort) ≠ VNull);
}.

(** A group with its bound. *)
Definition group_bounded (group : OrderedFileGroup) : Prop :=
  ∀ doc, doc ∈ iceberg_query_inputs (og_files group) ≫= answers →
    ∃ v, value_get doc (rs_field sort) = Some v ∧ bounds (rs_descending sort) (og_best_case_sort_value group) v.

Lemma ordered_groups files groups : files_described files → ordered_file_groups_for_top_k files file_stats sort_order request (rs_field sort) (rs_descending sort) = Some groups →
  Forall group_bounded groups ∧ concat (og_files <$> groups) ≡ₚ files ∧
  StronglySorted (λ g h, bounds (rs_descending sort) (og_best_case_sort_value g) (og_best_case_sort_value h)) groups.
Proof.
  intros Hd. rw /ordered_file_groups_for_top_k. destruct (mapM _ _) as [gs|] eqn:Hgs; [|done]. cbn [mbind option_bind]. intros [= <-]. apply mapM_Some in Hgs.
  assert (Hfiles : og_files <$> gs = group_files_by_schema files).
  { induction Hgs as [|x g xs gs Hg _ IH]; [done|]. cbn. rw IH. f_equal. destruct (file_group_sort_bound _ _ _ _ _ _); [|done]. by injection Hg as <-. }
  assert (Hperm : concat (og_files <$> sort_by (λ left right, compare_sort_values (og_best_case_sort_value left) (og_best_case_sort_value right) (rs_descending sort)) gs) ≡ₚ files).
  { trans (concat (og_files <$> gs)); [by rw sort_by_perm|by rw Hfiles groups_perm]. }
  split_and!; [|done|].
  - rw sort_by_perm. apply Forall_forall. intros g Hg. assert (Hin : ∀ file, file ∈ og_files g → file ∈ files).
    { intros file Hfile. rw -(groups_perm files) -Hfiles. apply list_elem_of_In, in_concat. exists (og_files g). rw -!list_elem_of_In. split; [|done]. by apply list_elem_of_fmap_2. }
    assert (Hb : file_group_sort_bound (og_files g) file_stats sort_order request (rs_field sort) (rs_descending sort) = Some (og_best_case_sort_value g)).
    { apply list_elem_of_lookup in Hg as [i Hi]. destruct (Forall2_lookup_r _ _ _ _ _ Hgs Hi) as (x & _ & Hx). destruct (file_group_sort_bound x _ _ _ _ _) as [b|] eqn:Hb; [|done].
      by injection Hx as <-. }
    apply group_bounds in Hb as [_ Hb]. intros doc (qi & Hdoc & (file & -> & Hfile)%list_elem_of_fmap)%list_elem_of_bind.
    destruct (fds_answers _ Hd file doc (Hin file Hfile) Hdoc) as (row & Hrow & Hm & Hv & Hnn). exists (row (rs_field sort)). split; [done|].
    destruct (Hb file Hfile) as (c & Hc & Hbc). apply (bounds_trans _ _ c); [done|].
    apply (file_bound_sound (rows_of file) file file_stats sort_order request); [|done..]. intros stats Hs. apply (fds_stats _ Hd file stats); [by apply Hin|done].
  - pose proof (total_on og_best_case_sort_value _ (bounds_total (rs_descending sort))).
    apply (sort_by_in_order (λ left right, compare_sort_values (og_best_case_sort_value left) (og_best_case_sort_value right) (rs_descending sort)) gs).
Qed.

(** Once the last row of a full answer is better than the next bound, nothing that is
    left is better than any row of it. *)
Lemma stop_sound rows all next groups doc x : top_k (row_compare sort) limit all rows →
  remaining_groups_cannot_beat_kth_row rows (og_best_case_sort_value next) (rs_field sort) (rs_descending sort) limit = true →
  Forall group_bounded (next :: groups) → StronglySorted (λ g h, bounds (rs_descending sort) (og_best_case_sort_value g) (og_best_case_sort_value h)) (next :: groups) →
  doc ∈ (next :: groups) ≫= (λ g, iceberg_query_inputs (og_files g) ≫= answers) → x ∈ rows → cmp_le (row_compare sort) x doc ∧ length rows = limit.
Proof.
  intros (rest' & Hp & Hs & _ & Hlen) Hstop Hb Hsorted Hdoc Hx. rw /remaining_groups_cannot_beat_kth_row in Hstop.
  destruct (Nat.eqb_spec limit 0); [done|]. destruct (Nat.ltb_spec (length rows) limit); [done|]. cbn [orb] in Hstop.
  assert (Hfull : length rows = limit) by lia. split; [|done]. destruct (rows !! (limit - 1)) as [kth|] eqn:Hkth; [|done]. cbn [mbind option_bind] in Hstop.
  destruct (value_get kth (rs_field sort)) as [kv|] eqn:Hkv; [|done]. destruct (compare_sort_values _ kv _) eqn:Hgt; try done.
  assert (Hxk : cmp_le (row_compare sort) x kth).
  { apply list_elem_of_lookup in Hx as [i Hi]. destruct (decide (i = limit - 1)) as [->|Hne]; [rw Hkth in Hi; injection Hi as ->; rw /cmp_le (cmp_refl (row_compare sort)); done|].
    pose proof (lookup_lt_Some _ _ _ Hi). apply (sorted_lookup _ rows i (limit - 1)); [done..|lia]. }
  apply list_elem_of_bind in Hdoc as (g & Hdoc & Hg). rw Forall_forall in Hb. destruct (Hb g Hg doc Hdoc) as (v & Hv & Hbv).
  assert (Hnext : bounds (rs_descending sort) (og_best_case_sort_value next) (og_best_case_sort_value g)).
  { apply elem_of_cons in Hg as [->|Hg]; [apply bounds_refl|]. apply StronglySorted_inv in Hsorted as [_ Hall]. rw Forall_forall in Hall. by apply Hall. }
  apply (transitivity (R:=cmp_le (row_compare sort)) Hxk). rw /cmp_le /row_compare Hkv Hv. fold (compare_sort_values kv v (rs_descending sort)).
  change (bounds (rs_descending sort) kv v). apply (bounds_trans _ kv (og_best_case_sort_value next)); [|exact (bounds_trans _ _ _ _ Hnext Hbv)].
  pose proof (bounds_total (rs_descending sort)). rw /bounds (cmp_opp (cmp:=λ v w, compare_sort_values v w (rs_descending sort)) (og_best_case_sort_value next) kv) Hgt. done.
Qed.

Lemma top_k_loop_answer groups all rows : Forall group_bounded groups → Forall engine_answers (iceberg_query_inputs ∘ og_files <$> groups) →
  StronglySorted (λ g h, bounds (rs_descending sort) (og_best_case_sort_value g) (og_best_case_sort_value h)) groups →
  top_k (row_compare sort) limit all rows → ∃ rows', top_k_loop delete_files request sort sql limit rows groups = Ok rows' ∧
  top_k (row_compare sort) limit (all ++ (groups ≫= λ g, iceberg_query_inputs (og_files g) ≫= answers)) rows'.
Proof.
  revert all rows. induction groups as [|g groups IH]; intros all rows Hb He Hs Ht; cbn [top_k_loop]; [exists rows; split; [done|by rw app_nil_r]|].
  apply Forall_cons in He as [Hg He]. destruct (group_answer _ Hg) as (new & Hrun & Hn). cbn [compose] in Hrun. rw Hrun bind_Ok.
  pose proof (merge_step all rows _ new Ht Hn) as Hm. set (merged := merge_rows rows new request limit) in *. apply Forall_cons in Hb as [_ Hb]. apply StronglySorted_inv in Hs as [Hs _].
  rw bind_cons app_assoc. destruct groups as [|next groups]; [exists merged; split; [done|by rw app_nil_r]|].
  destruct (remaining_groups_cannot_beat_kth_row _ _ _ _ _) eqn:Hstop; [|by apply IH]. exists merged. split; [done|].
  assert (Hfull : length merged = limit).
  { rw /remaining_groups_cannot_beat_kth_row in Hstop. destruct (Nat.eqb_spec limit 0); [done|]. destruct (Nat.ltb_spec (length merged) limit); [done|]. destruct Hm as (? & _ & _ & _ & Hl). lia. }
  apply answers_more; [done|done|]. intros x doc Hx Hdoc. exact (proj1 (stop_sound merged _ next groups doc x Hm Hstop Hb Hs Hdoc Hx)).
Qed.

Lemma ordered_answer files groups : files_described files → ordered_file_groups_for_top_k files file_stats sort_order request (rs_field sort) (rs_descending sort) = Some groups →
  Forall engine_answers (iceberg_query_inputs <$> group_files_by_schema files) → ∃ rows,
  execute_ordered_top_k_plan groups delete_files request sql limit = Ok rows ∧ top_k (row_compare sort) limit (iceberg_query_inputs files ≫= answers) rows.
Proof.
  intros Hd Hgroups He. destruct (ordered_groups files groups Hd Hgroups) as (Hb & Hp & Hs). rw /execute_ordered_top_k_plan Hsort.
  assert (He' : Forall engine_answers (iceberg_query_inputs ∘ og_files <$> groups)).
  { rw list_fmap_compose. apply Forall_fmap. apply Forall_fmap in He. rw /ordered_file_groups_for_top_k in Hgroups. destruct (mapM _ _) as [gs|] eqn:Hgs; [|done]. injection Hgroups as <-.
    rw sort_by_perm. apply mapM_Some in Hgs. clear -He Hgs. induction Hgs as [|x g xs gs Hg _ IH]; cbn; [constructor|]. apply Forall_cons in He as [H1 H2]. constructor; [|by apply IH].
    destruct (file_group_sort_bound _ _ _ _ _ _); [|done]. by injection Hg as <-. }
  destruct (top_k_loop_answer groups [] [] Hb He' Hs) as (rows & Hrun & Ht); [apply answer_nil|]. exists rows. split; [done|]. eapply answer_perm; [|exact Ht]. cbn [app].
  assert (Hflat : groups ≫= (λ g, iceberg_query_inputs (og_files g) ≫= answers) = iceberg_query_inputs (concat (og_files <$> groups)) ≫= answers); [|by rw Hflat /iceberg_query_inputs Hp].
  clear. induction groups as [|g groups IH]; [done|]. cbn [concat fmap list_fmap]. by rw bind_cons IH /iceberg_query_inputs fmap_app bind_app.
Qed.

(** Take an ordered request whose first sort is the one merged by, files whose
    statistics are true, answers that carry the sort field (and, for a descending order, no
    nulls in it), and a SQL engine that answers each group of files with the best rows of
    the group up to the limit.  Then visiting the groups from the best bound on and
    stopping at the first whose bound is worse than the last row of a full answer still
    returns the best rows of ALL the files: sorted, as many as there are up to the limit,
    and no row of any file, visited or not, is better than one that is returned. *)
Theorem early_stop_keeps_the_best files groups :
  files_described files →
  ordered_file_groups_for_top_k files file_stats sort_order request (rs_field sort) (rs_descending sort) = Some groups →
  Forall engine_answers (iceberg_query_inputs <$> group_files_by_schema files) →
  ∃ rows, execute_ordered_top_k_plan groups delete_files request sql limit = Ok rows ∧ top_k (row_compare sort) limit (iceberg_query_inputs files ≫= answers) rows.
Proof. apply ordered_answer. Qed.

(** Without early stopping, the groups of Iceberg and of not yet compacted files run
    concurrently and their answers are merged as they arrive.  Whatever the order of
    arrival, the merged answer of an ordered request is the best rows of all the files. *)
Theorem merged_groups_keep_the_best `{CompletionOrder} files speedboat_files :
  Forall engine_answers (serving_query_input_groups files speedboat_files) →
  ∃ rows, execute_parallel_plan files speedboat_files delete_files request sql limit = Ok rows ∧
    top_k (row_compare sort) limit ((iceberg_query_inputs files ++ speedboat_query_inputs speedboat_files) ≫= answers) rows.
Proof. apply parallel_answer. Qed.
End plans.

(** Rows that do not carry the sort field are merged in the order they arrive: a request
    may sort by a field it does not select, and its SQL then returns rows without it. *)
Theorem unselected_sort_field_is_not_sorted `{jt : JsonText, !JsonTextLaws jt} request sort rest rows new limit :
  rd_order_by request = sort :: rest → Forall (λ row, value_get row (rs_field sort) = None) (rows ++ new) →
  merge_rows rows new request limit = take limit (rows ++ new).
Proof.
  intros Hs Hnone. rw /merge_rows Hs. f_equal. apply sort_by_sorted. clear Hs. induction Hnone as [|row l Hrow Hl IH]; constructor; [done|].
  eapply Forall_impl; [exact Hl|]. intros other Ho. cbn in Hrow, Ho. rw /cmp_le /row_compare Hrow Ho. by destruct (rs_descending sort).
Qed.
End TopKTheory.

(** ** Two files of scores *)
Module TopKDemo.
Import FloatTextDemo JsonTextDemo SnapshotLookupTheory TopKTheory.

Definition score (name : string) (points : Value) : Object := [("name", VString name); ("points", points)].
Definition schema_a : PowdrrSchema := mkSchema [].
Definition schema_b : PowdrrSchema := mkSchema [mkField "extra" TString].
Definition file_a : FileDescriptor := mkFile "a" schema_a 10.
Definition file_b : FileDescriptor := mkFile "b" schema_b 10.

(** The rows of the files, best first, with or without a null in the second. *)
Definition scores (with_null : bool) (file : FileDescriptor) : list Object :=
  if decide (file_path file = "a") then [score "ann" (int 100); score "bob" (int 99)]
  else (if with_null then [score "cy" VNull] else [score "cy" (int 60)]) ++ [score "dan" (int 50)].

Definition points_stats (path : string) (lower upper : Z) (nulls : Z) : IcebergFileStats :=
  mkFileStats path (Some 2%Z) [mkColumnStats 1 "points" (Some nulls) (Some (int lower)) (Some (int upper))] [] [].
Definition stats (with_null : bool) : gmap string IcebergFileStats :=
  {["a" := points_stats "a" 99 100 0; "b" := if with_null then points_stats "b" 50 50 1 else points_stats "b" 50 60 0]}.

Definition by_points : ReadSort := mkReadSort "points" true.
Definition best_two : ReadPlan := mkReadPlan None [] None [by_points] (Some 2) 0 None false false.

Definition scores_source (with_null : bool) : SnapshotSource := {|
  materialize_local_file := λ _, Err "no files";
  query_file := λ _ _, Err "no files";
  execute_query_plan_batches := λ _ files _, Ok [files ≫= λ file, scores with_null (qi_file file)];
|}.
Definition score_answers (with_null : bool) (file : QueryInputFile) : list Value := VObject <$> scores with_null (qi_file file).

Definition groups (with_null : bool) : list OrderedFileGroup :=
  default [] (ordered_file_groups_for_top_k (jt:=demo_json) [file_a; file_b] (stats with_null) [] best_two "points" true).

(** With a null in the second file, which a descending order puts first, the search stops
    after the first file: its bound speaks of the values that are not null only. *)
Theorem descending_nulls_are_lost :
  execute_ordered_top_k_plan (jt:=demo_json) (src:=scores_source true) (groups true) [] best_two "" 2 = Ok [VObject (score "ann" (int 100)); VObject (score "bob" (int 99))] ∧
  sort_by (row_compare (jt:=demo_json) by_points) ([file_a; file_b] ≫= λ file, VObject <$> scores true file) =
    [VObject (score "cy" VNull); VObject (score "ann" (int 100)); VObject (score "bob" (int 99)); VObject (score "dan" (int 50))].
Proof. split; vm_compute; reflexivity. Qed.

Lemma demo_engine group : group ∈ [[mkQueryInput file_a Iceberg []]; [mkQueryInput file_b Iceberg []]; [mkQueryInput file_b Speedboat []]] →
  engine_answers (jt:=demo_json) (src:=scores_source false) by_points [] "" 2 (score_answers false) group.
Proof.
  intros Hg. exists [group ≫= λ file, scores false (qi_file file)]. split; [done|]. exists []. rw !elem_of_cons in Hg. destruct Hg as [->|[->|[->|[]%not_elem_of_nil]]].
  all: split_and!; [vm_compute; reflexivity| |by intros ? ? ? ?%not_elem_of_nil|vm_compute; reflexivity]; repeat constructor; vm_compute; done.
Qed.

Definition demo_rows (file : FileDescriptor) : list Row := (λ row, row_of (VObject row)) <$> scores false file.

Lemma demo_column file lower upper : file ∈ [file_a; file_b] → (lower, upper) = (if decide (file_path file = "a") then (99, 100) else (50, 60))%Z →
  column_describes (demo_rows file) (Some 2%Z) (mkColumnStats 1 "points" (Some 0%Z) (Some (int lower)) (Some (int upper))).
Proof.
  intros Hf Hb. rw !elem_of_cons in Hf. destruct Hf as [->|[->|[]%not_elem_of_nil]]; injection Hb as -> ->; split.
  all: cbn [cs_null_count cs_lower_bound cs_upper_bound cs_field_name]; try (intros ? [= <-]; vm_compute; reflexivity).
  all: intros row x Hrow _ [= <-]; rw /demo_rows /= !elem_of_cons in Hrow; destruct Hrow as [->|[->|[]%not_elem_of_nil]]; vm_compute; done.
Qed.

Lemma demo_described : files_described best_two by_points (score_answers false) (stats false) demo_rows [file_a; file_b].
Proof.
  split.
  - intros file fs Hf Hs. assert (fs = points_stats (file_path file) (if decide (file_path file = "a") then 99 else 50)%Z (if decide (file_path file = "a") then 100 else 60)%Z 0%Z) as ->.
    { rw !elem_of_cons in Hf. destruct Hf as [->|[->|[]%not_elem_of_nil]]; vm_compute in Hs; by injection Hs as <-. }
    split; [by intros ? ? ? ?%not_elem_of_nil| |done]. constructor; [|constructor]. apply demo_column; [done|]. by case_decide.
  - intros file doc Hf (row & -> & Hrow)%list_elem_of_fmap. exists (row_of (VObject row)). split_and!; [exact (list_elem_of_fmap_2 (λ row, row_of (VObject row)) (scores false file) row Hrow)|constructor| |].
    all: rw !elem_of_cons in Hf; destruct Hf as [->|[->|[]%not_elem_of_nil]]; rw /= !elem_of_cons in Hrow; destruct Hrow as [->|[->|[]%not_elem_of_nil]]; vm_compute; done.
Qed.

(** The bound of the second file, 60, is worse than the second best score of the first. *)
Lemma early_stop_keeps_the_best_witness : ∃ rows,
  execute_ordered_top_k_plan (jt:=demo_json) (src:=scores_source false) (groups false) [] best_two "" 2 = Ok rows ∧
  top_k (row_compare (jt:=demo_json) by_points) 2 (iceberg_query_inputs [file_a; file_b] ≫= score_answers false) rows.
Proof.
  apply (early_stop_keeps_the_best (jt:=demo_json) (src:=scores_source false) best_two by_points [] eq_refl [] "" 2 (score_answers false) (stats false) [] demo_rows [file_a; file_b]).
  - apply demo_described.
  - vm_compute; reflexivity.
  - change (iceberg_query_inputs <$> group_files_by_schema [file_a; file_b]) with [[mkQueryInput file_a Iceberg []]; [mkQueryInput file_b Iceberg []]].
    repeat constructor; apply demo_engine; rw !elem_of_cons; auto.
Defined.

#[local] Instance last_first : CompletionOrder := {| complete := @reverse; complete_perm := @reverse_Permutation |}.

Lemma merged_groups_keep_the_best_witness : ∃ rows,
  execute_parallel_plan (jt:=demo_json) (src:=scores_source false) [file_a] [file_b] [] best_two "" 2 = Ok rows ∧
  top_k (row_compare (jt:=demo_json) by_points) 2 ((iceberg_query_inputs [file_a] ++ speedboat_query_inputs [file_b]) ≫= score_answers false) rows.
Proof.
  apply (merged_groups_keep_the_best (jt:=demo_json) (src:=scores_source false) best_two by_points [] eq_refl [] "" 2 (score_answers false) [file_a] [file_b]).
  change (serving_query_input_groups [file_a] [file_b]) with [[mkQueryInput file_a Iceberg []]; [mkQueryInput file_b Speedboat []]].
  repeat constructor; apply demo_engine; rw !elem_of_cons; auto.
Defined.
End TopKDemo.
