(* ===== verification/Aggregates.v ===== *)
(** * Aggregates over file groups (query_runtime/src/lakehouse_serving.rs)

    An aggregate runs as one SQL query per group of files with the same schema, which
    returns partial values per GROUP BY key; these are added up by key as they arrive. *)

From S2P Require Import Prelude Text StableSort Schema Json JsonText FileSet Contract QueryPath Float Pruning Planner SnapshotCodec SnapshotLookup SnapshotServing TopK.

(** [entry.entry(key).or_insert(value)] *)
Definition obj_or_insert (key : string) (value : Value) (m : Object) : Object :=
  if obj_contains key m then m else obj_insert key value m.

(** [object.get(key).and_then(value_as_f64).unwrap_or(0.0)] *)
Definition number_or_zero (key : string) (m : Object) : f64 := default (mkF64 0 0) (obj_get key m ≫= value_as_f64).

Definition avg_sum_key (alias : string) : string := "__avg_sum_" +:+ alias.
Definition avg_count_key (alias : string) : string := "__avg_count_" +:+ alias.

Section aggregates.
Context `{jt : JsonText, ft : FloatText, ho : HashOrder, src : SnapshotSource}.

(** [object.get(field).cloned().unwrap_or(Value::Null)] *)
Definition get_or_null (field : string) (object : Object) : Value := default VNull (obj_get field object).

(** SRC query_runtime/src/lakehouse_serving.rs:3777-3783 aggregate_group_key *)
Definition aggregate_group_key (object : Object) (group_by : list string) : string :=
  json_to_vec (VArray ((λ field, get_or_null field object) <$> group_by)).

(** SRC query_runtime/src/lakehouse_serving.rs:3785-3793 compare_grouped_rows *)
Fixpoint compare_grouped_rows (group_by : list string) (left right : Value) : comparison :=
  match group_by with
  | [] => Eq
  | field :: group_by =>
      then_cmp (compare_row_values (value_get left field) (value_get right field) false) (compare_grouped_rows group_by left right)
  end.

(** SRC query_runtime/src/lakehouse_serving.rs:3674-3703 merge_extreme_value *)
Definition merge_extreme_value (entry : Object) (alias : string) (candidate : option Value) (is_min : bool) : Object :=
  match candidate with
  | None => entry
  | Some candidate =>
      if is_null candidate then obj_or_insert alias VNull entry
      else match obj_get alias entry with
           | Some existing =>
               if is_null existing then obj_insert alias candidate entry
               else match compare_values candidate existing, is_min with
                    | Lt, true | Gt, false => obj_insert alias candidate entry
                    | _, _ => entry
                    end
           | None => obj_insert alias candidate entry
           end
  end.

(** SRC query_runtime/src/lakehouse_serving.rs:3607-3671= merge_partial_aggregate_rows, one measure *)
Definition merge_measure (object : Object) (entry : Object) (plan : AggregateMeasurePlan) : srv Object :=
  let alias := amp_alias plan in
  match amp_function plan with
  | ACount =>
      Ok (obj_insert alias (json_number_value (f64_add (number_or_zero alias entry) (number_or_zero (amp_partial_value_alias plan) object))) entry)
  | ASum =>
      match obj_get (amp_partial_value_alias plan) object ≫= value_as_f64 with
      | Some partial_value => Ok (obj_insert alias (json_number_value (f64_add (number_or_zero alias entry) partial_value)) entry)
      | None => Ok (obj_or_insert alias VNull entry)
      end
  | AAvg =>
      let partial_sum := number_or_zero (amp_partial_value_alias plan) object in
      partial_count_alias ← unwrap (amp_partial_count_alias plan);
      let partial_count := number_or_zero partial_count_alias object in
      let existing_sum := number_or_zero (avg_sum_key alias) entry in
      let existing_count := number_or_zero (avg_count_key alias) entry in
      let entry := obj_insert (avg_sum_key alias) (json_number_value (f64_add existing_sum partial_sum)) entry in
      Ok (obj_insert (avg_count_key alias) (json_number_value (f64_add existing_count partial_count)) entry)
  | AMin => Ok (merge_extreme_value entry alias (obj_get (amp_partial_value_alias plan) object) true)
  | AMax => Ok (merge_extreme_value entry alias (obj_get (amp_partial_value_alias plan) object) false)
  end.

(** A fresh entry: the fields of the key. *)
Definition group_entry (group_by : list string) (object : Object) : Object :=
  foldl (λ map field, obj_insert field (get_or_null field object) map) [] group_by.

(** One row. *)
Definition merge_partial_row (aggregate : ServingAggregateSpec) (measure_plans : list AggregateMeasurePlan) (merged : gmap string Object) (row : Value) : srv (gmap string Object) :=
  match as_object row with
  | None => Ok merged
  | Some object =>
      let key := aggregate_group_key object (sas_group_by aggregate) in
      let entry := default (group_entry (sas_group_by aggregate) object) (merged !! key) in
      entry ← foldM (merge_measure object) entry measure_plans;
      Ok (<[key := entry]> merged)
  end.

(** SRC query_runtime/src/lakehouse_serving.rs:3586-3672 merge_partial_aggregate_rows *)
Definition merge_partial_aggregate_rows (merged : gmap string Object) (rows : list Value) (aggregate : ServingAggregateSpec)
    (measure_plans : list AggregateMeasurePlan) : srv (gmap string Object) :=
  foldM (merge_partial_row aggregate measure_plans) merged rows.

(** SRC query_runtime/src/lakehouse_serving.rs:3755-3775 empty_aggregate_rows *)
Definition empty_aggregate_rows (aggregate : ServingAggregateSpec) (measure_plans : list AggregateMeasurePlan) : list Value :=
  if decide (sas_group_by aggregate = []) then
    [VObject (foldl (λ row plan,
       obj_insert (amp_alias plan) (match amp_function plan with ACount => json_number_value (Some (mkF64 0 0)) | _ => VNull end) row) [] measure_plans)]
  else [].

(** SRC query_runtime/src/lakehouse_serving.rs:3722-3751= finalize_aggregate_rows, one measure *)
Definition finalize_measure (row : Object) (plan : AggregateMeasurePlan) : Object :=
  let alias := amp_alias plan in
  match amp_function plan with
  | AAvg =>
      let sum := number_or_zero (avg_sum_key alias) row in
      let count := number_or_zero (avg_count_key alias) row in
      let row := obj_remove (avg_count_key alias) (obj_remove (avg_sum_key alias) row) in
      obj_insert alias (if f64_eqb count (mkF64 0 0) then VNull else json_number_value (f64_div sum count)) row
  | ACount => obj_or_insert alias (json_number_value (Some (mkF64 0 0))) row
  | ASum | AMin | AMax => obj_or_insert alias VNull row
  end.

(** SRC query_runtime/src/lakehouse_serving.rs:3705-3753 finalize_aggregate_rows *)
Definition finalize_aggregate_rows (merged : gmap string Object) (aggregate : ServingAggregateSpec) (measure_plans : list AggregateMeasurePlan) (limit : nat) : srv (list Value) :=
  if decide (merged = ∅) then Ok (empty_aggregate_rows aggregate measure_plans)
  else
    let rows := (λ entry, VObject (foldl finalize_measure entry.2 measure_plans)) <$> hash_iter merged in
    let rows := sort_by (compare_grouped_rows (sas_group_by aggregate)) rows in
    Ok (if negb (bool_decide (sas_group_by aggregate = [])) && (limit <? length rows) then take limit rows else rows).

(** SRC query_runtime/src/lakehouse_serving.rs:3504-3545 execute_aggregate_plan *)
Definition execute_aggregate_plan `{CompletionOrder} (files speedboat_files : list FileDescriptor) (delete_files : list string) (request : ReadPlan) (limit : nat) : srv (list Value) :=
  aggregate ← ok_or (rd_aggregate request) (bad_request "Aggregate serving query is missing aggregate specification");
  measure_plans ← aggregate_measure_plans aggregate;
  let query_input_groups := serving_query_input_groups files speedboat_files in
  if decide (query_input_groups = []) then Ok (empty_aggregate_rows aggregate measure_plans)
  else
    partial_sql ← build_aggregate_sql "{table}" request limit (negb (bool_decide (delete_files = []))) true;
    merged ← foldM (λ merged query_files,
      rows ← execute_query_input_group_plan query_files partial_sql delete_files;
      merge_partial_aggregate_rows merged rows aggregate measure_plans) ∅ (complete query_input_groups);
    finalize_aggregate_rows merged aggregate measure_plans limit.
End aggregates.
