(* ===== verification/AggregatesTheory.v ===== *)
(** * Merged partial aggregates are the aggregates (query_runtime/src/lakehouse_serving.rs)

    When the SQL engine answers the partial query of each file group with the aggregates
    of the rows of the group, what is merged is the aggregates of all the rows, in
    whatever order the groups arrive.  Sums are exact: the theorems ask for integers whose
    absolute values add up to at most [2 ^ 53]. *)

From S2P Require Import Prelude Text StableSort Schema Json JsonText FileSet Contract QueryPath Float Pruning Planner SnapshotCodec SnapshotLookup SnapshotLookupTheory SnapshotServing TopK TopKTheory Aggregates.

Module AggregatesTheory.
Import SnapshotLookupTheory TopKTheory.

(** ** The aggregates of some rows *)

Definition int_of (v : Value) : Z := match v with VNumber (PosInt n) | VNumber (NegInt n) => n | _ => 0%Z end.

Definition total (w : Object → Z) (rows : list Object) : Z := foldr (λ row n, w row + n)%Z 0%Z rows.
Definition isum (field : string) : list Object → Z := total (λ row, int_of (get_or_null field row)).
Definition ncount (field : string) : list Object → Z := total (λ row, if is_null (get_or_null field row) then 0%Z else 1%Z).
Definition wsum (field : string) : list Object → Z := total (λ row, Z.abs (int_of (get_or_null field row))).

Definition sum_value (field : string) (rows : list Object) : Value := if (ncount field rows =? 0)%Z then VNull else int (isum field rows).

(** Null or an integer. *)
Definition integral (field : string) (rows : list Object) : Prop := ∀ row, row ∈ rows → get_or_null field row = VNull ∨ ∃ z, get_or_null field row = int z.

Lemma total_app w a b : total w (a ++ b) = (total w a + total w b)%Z.
Proof. rw /total. induction a as [|x a IH]; simpl; [done|]. rw IH. lia. Qed.

Lemma total_perm w a b : a ≡ₚ b → total w a = total w b.
Proof. rw /total. induction 1; simpl; lia. Qed.

Lemma total_nonneg w rows : (∀ row, 0 ≤ w row)%Z → (0 ≤ total w rows)%Z.
Proof. intros Hw. rw /total. induction rows as [|x rows IH]; simpl; [lia|]. specialize (Hw x). lia. Qed.

Lemma total_submseteq w a b : (∀ row, 0 ≤ w row)%Z → a ⊆+ b → (total w a ≤ total w b)%Z.
Proof. intros Hw [k Hk]%submseteq_Permutation. rw (total_perm w b _ Hk) total_app. pose proof (total_nonneg w k Hw). lia. Qed.

Lemma isum_bound field rows : (Z.abs (isum field rows) ≤ wsum field rows)%Z.
Proof. rw /isum /wsum /total. induction rows as [|x rows IH]; simpl; lia. Qed.

Lemma ncount_range field rows : (0 ≤ ncount field rows ≤ Z.of_nat (length rows))%Z.
Proof. rw /ncount /total. induction rows as [|x rows IH]; simpl; [lia|]. case_match; lia. Qed.

Lemma no_values field rows : ncount field rows = 0%Z → Forall (λ row, get_or_null field row = VNull) rows.
Proof.
  induction rows as [|x rows IH]; [constructor|]. pose proof (ncount_range field rows) as Hr. rw /ncount /total in Hr |- *. simpl.
  destruct (get_or_null field x) eqn:Hx; simpl; intros Hn; try lia. constructor; [done|by apply IH].
Qed.

Lemma no_values_sum field rows : ncount field rows = 0%Z → isum field rows = 0%Z.
Proof. intros Hn%no_values. rw /isum /total. induction Hn as [|x rows Hx _ IH]; [done|]. simpl. by rw Hx IH. Qed.

Lemma int_of_int z : int_of (int z) = z.
Proof. rw /int. by case_match. Qed.

Lemma get_number_or_zero key m z : obj_get key m = Some (int z) → small_int z → number_or_zero key m = mkF64 z 0.
Proof. intros Hg Hz. rw /number_or_zero Hg /int /=. by rw as_f64_int. Qed.

Lemma get_none_zero key m : obj_get key m = None → number_or_zero key m = mkF64 0 0.
Proof. intros Hg. by rw /number_or_zero Hg. Qed.

Lemma get_null_zero key m : obj_get key m = Some VNull → number_or_zero key m = mkF64 0 0.
Proof. intros Hg. by rw /number_or_zero Hg. Qed.

Lemma obj_get_or_insert k k' v m : obj_get k' (obj_or_insert k v m) = if decide (k = k') then Some (default v (obj_get k m)) else obj_get k' m.
Proof. rw /obj_or_insert /obj_contains. destruct (obj_get k m) eqn:Hk; [case_decide; subst; by rw ?Hk|rw obj_get_insert; by case_decide]. Qed.

Lemma obj_or_insert_NoDup k v m : NoDup (obj_keys m) → NoDup (obj_keys (obj_or_insert k v m)).
Proof. intros Hn. rw /obj_or_insert. case_match; [done|by apply obj_insert_NoDup]. Qed.

Section measures.
Context `{jt : JsonText, !JsonTextLaws jt}.

(** The least or the greatest value that is not null, null when there is none. *)
Definition extreme (is_min : bool) (field : string) (rows : list Object) (v : Value) : Prop :=
  (v = VNull ∧ Forall (λ row, get_or_null field row = VNull) rows) ∨
  (v ≠ VNull ∧ (∃ row, row ∈ rows ∧ get_or_null field row = v) ∧
   ∀ row, row ∈ rows → get_or_null field row ≠ VNull → compare_values v (get_or_null field row) ≠ (if is_min then Gt else Lt)).

(** What a measure is of some rows, where its value stands in an object. *)
Definition measure_is (plan : AggregateMeasurePlan) (rows : list Object) (v : option Value) : Prop :=
  match amp_function plan with
  | ACount => v = Some (int (Z.of_nat (length rows)))
  | ASum => ∃ f, amp_field plan = Some f ∧ v = Some (sum_value f rows)
  | AAvg => ∃ f, amp_field plan = Some f ∧
      v = Some (if (ncount f rows =? 0)%Z then VNull else json_number_value (f64_div (mkF64 (isum f rows) 0) (mkF64 (ncount f rows) 0)))
  | AMin => ∃ f w, amp_field plan = Some f ∧ v = Some w ∧ extreme true f rows w
  | AMax => ∃ f w, amp_field plan = Some f ∧ v = Some w ∧ extreme false f rows w
  end.

(** What the partial query returns of it. *)
Definition partial_right (plan : AggregateMeasurePlan) (rows : list Object) (object : Object) : Prop :=
  match amp_function plan with
  | AAvg => ∃ f c, amp_field plan = Some f ∧ amp_partial_count_alias plan = Some c ∧
      obj_get (amp_partial_value_alias plan) object = Some (sum_value f rows) ∧ obj_get c object = Some (int (ncount f rows))
  | _ => measure_is plan rows (obj_get (amp_partial_value_alias plan) object)
  end.

(** What an entry holds of it while merging. *)
Definition acc_right (plan : AggregateMeasurePlan) (rows : list Object) (entry : Object) : Prop :=
  match amp_function plan with
  | AAvg => ∃ f, amp_field plan = Some f ∧
      obj_get (avg_sum_key (amp_alias plan)) entry = Some (int (isum f rows)) ∧ obj_get (avg_count_key (amp_alias plan)) entry = Some (int (ncount f rows))
  | _ => measure_is plan rows (obj_get (amp_alias plan) entry)
  end.

Definition measure_keys (plan : AggregateMeasurePlan) : list string :=
  match amp_function plan with
  | AAvg => [avg_sum_key (amp_alias plan); avg_count_key (amp_alias plan); amp_alias plan]
  | _ => [amp_alias plan]
  end.

(** Before the first row of a key, and after. *)
Definition started (plan : AggregateMeasurePlan) (rows : list Object) (entry : Object) : Prop :=
  acc_right plan rows entry ∨ (rows = [] ∧ ∀ k, k ∈ measure_keys plan → obj_get k entry = None).

(** Rows few and small enough for exact arithmetic. *)
Definition exact_rows (plan : AggregateMeasurePlan) (rows : list Object) : Prop :=
  small_int (Z.of_nat (length rows)) ∧
  ∀ f, amp_field plan = Some f → amp_function plan = ASum ∨ amp_function plan = AAvg → integral f rows ∧ (wsum f rows ≤ 2 ^ 53)%Z.

Lemma exact_rows_part plan a b : a ⊆+ b → exact_rows plan b → exact_rows plan a.
Proof.
  intros Hab [Hl Hf]. pose proof (submseteq_length _ _ Hab). rw /small_int in Hl |- *. split; [rw /small_int; lia|].
  intros f Hfield Hfn. destruct (Hf f Hfield Hfn) as [Hi Hw]. split.
  - intros row Hrow. apply Hi. by apply (elem_of_submseteq _ _ row Hrow).
  - rw /wsum in Hw |- *. etrans; [|exact Hw]. apply total_submseteq; [lia|done].
Qed.

Lemma merge_extreme_get entry alias candidate is_min k : alias ≠ k → obj_get k (merge_extreme_value entry alias candidate is_min) = obj_get k entry.
Proof.
  intros Hk. rw /merge_extreme_value. destruct candidate as [c|]; [|done]. destruct (is_null c); [by rw obj_get_or_insert decide_False|].
  destruct (obj_get alias entry) as [e|]; [|by rw obj_get_insert decide_False]. destruct (is_null e); [by rw obj_get_insert decide_False|].
  destruct (compare_values c e), is_min; try done; by rw obj_get_insert decide_False.
Qed.

Lemma merge_measure_frame object entry plan entry' k : merge_measure object entry plan = Ok entry' → k ∉ measure_keys plan → obj_get k entry' = obj_get k entry.
Proof.
  rw /merge_measure /measure_keys. destruct (amp_function plan); rw !not_elem_of_cons; intros Hm Hk; try destruct Hk as (Hk & Hk2 & Hk3).
  - injection Hm as <-. rw obj_get_insert. case_decide; naive_solver.
  - destruct (obj_get (amp_partial_value_alias plan) object ≫= value_as_f64); injection Hm as <-; [rw obj_get_insert|rw obj_get_or_insert]; case_decide; naive_solver.
  - destruct (amp_partial_count_alias plan); [|done]. injection Hm as <-. rw !obj_get_insert. repeat case_decide; naive_solver.
  - injection Hm as <-. apply merge_extreme_get. naive_solver.
  - injection Hm as <-. apply merge_extreme_get. naive_solver.
Qed.

Lemma merge_measure_NoDup object entry plan entry' : merge_measure object entry plan = Ok entry' → NoDup (obj_keys entry) → NoDup (obj_keys entry').
Proof.
  assert (He : ∀ a c m, NoDup (obj_keys entry) → NoDup (obj_keys (merge_extreme_value entry a c m))).
  { intros a c m Hn. rw /merge_extreme_value. repeat case_match; auto using obj_insert_NoDup, obj_or_insert_NoDup. }
  rw /merge_measure. destruct (amp_function plan); intros Hm Hn; try (injection Hm as <-); auto using obj_insert_NoDup.
  - case_match; injection Hm as <-; auto using obj_insert_NoDup, obj_or_insert_NoDup.
  - destruct (amp_partial_count_alias plan); [|done]. injection Hm as <-. auto using obj_insert_NoDup.
Qed.
(** *** One measure *)

Lemma sum_number f rows key m : (wsum f rows ≤ 2 ^ 53)%Z → obj_get key m = Some (sum_value f rows) → number_or_zero key m = mkF64 (isum f rows) 0.
Proof.
  intros Hw. pose proof (isum_bound f rows). rw /sum_value. destruct (Z.eqb_spec (ncount f rows) 0) as [Hn|_]; intros Hg.
  - rw (no_values_sum f rows Hn). by apply get_null_zero.
  - apply get_number_or_zero; [done|]. rw /small_int. lia.
Qed.

Lemma sum_partial f rows : (wsum f rows ≤ 2 ^ 53)%Z → value_as_f64 (sum_value f rows) = if (ncount f rows =? 0)%Z then None else Some (mkF64 (isum f rows) 0).
Proof. intros Hw. pose proof (isum_bound f rows). rw /sum_value. case_match; [done|]. rw /= as_f64_int // /small_int. lia. Qed.

(** Integers that add up exactly. *)
Lemma exact_sums plan f r1 r2 : amp_field plan = Some f → amp_function plan = ASum ∨ amp_function plan = AAvg → exact_rows plan (r1 ++ r2) →
  (wsum f r1 ≤ 2 ^ 53)%Z ∧ (wsum f r2 ≤ 2 ^ 53)%Z ∧ json_number_value (f64_add (mkF64 (isum f r1) 0) (mkF64 (isum f r2) 0)) = int (isum f (r1 ++ r2)).
Proof.
  intros Hf Hfn [_ He]. destruct (He f Hf Hfn) as [_ Hw]. rw /wsum total_app in Hw. fold (wsum f r1) (wsum f r2) in Hw.
  pose proof (isum_bound f r1). pose proof (isum_bound f r2). split_and!; [lia..|]. rw add_small_ints; [rw /small_int; lia..|]. by rw /isum total_app.
Qed.

Lemma exact_counts plan f r1 r2 : exact_rows plan (r1 ++ r2) →
  small_int (ncount f r1) ∧ small_int (ncount f r2) ∧ json_number_value (f64_add (mkF64 (ncount f r1) 0) (mkF64 (ncount f r2) 0)) = int (ncount f (r1 ++ r2)).
Proof.
  intros [Hl _]. rw length_app in Hl. rw /small_int in Hl |- *. pose proof (ncount_range f r1). pose proof (ncount_range f r2).
  split_and!; [lia..|]. rw add_small_ints; [rw /small_int; lia..|]. by rw /ncount total_app.
Qed.

Lemma Forall_app_null f r1 r2 : Forall (λ row, get_or_null f row = VNull) r1 → Forall (λ row, get_or_null f row = VNull) r2 → Forall (λ row, get_or_null f row = VNull) (r1 ++ r2).
Proof. intros. by apply Forall_app. Qed.

(** A value next to rows that are all null, or next to a value it is not worse than. *)
Lemma extreme_join is_min f r1 r2 v w : extreme is_min f r1 v → extreme is_min f r2 w → v ≠ VNull → w = VNull ∨ compare_values v w ≠ (if is_min then Gt else Lt) → extreme is_min f (r1 ++ r2) v.
Proof.
  intros [[-> _]|(Hv & (row & Hrow & Hval) & Hall)] Hw Hv' Hvw; [done|]. right. split_and!; [done|exists row; split; [apply elem_of_app; by left|done]|].
  intros row' [Hr|Hr]%elem_of_app Hnn; [by apply Hall|]. destruct Hw as [[-> Hn]|(Hw & _ & Hall')]; [rw Forall_forall in Hn; by destruct (Hnn (Hn row' Hr))|].
  destruct Hvw as [->|Hvw]; [done|]. specialize (Hall' row' Hr Hnn). destruct is_min.
  - by apply (cmp_trans (cmp:=compare_values) v w).
  - rw (cmp_opp (cmp:=compare_values) (get_or_null f row') v). rw (cmp_opp (cmp:=compare_values) (get_or_null f row') w) in Hall'. rw (cmp_opp (cmp:=compare_values) w v) in Hvw.
    assert (H1 : cmp_le compare_values (get_or_null f row') w) by (rw /cmp_le; by destruct (compare_values (get_or_null f row') w)).
    assert (H2 : cmp_le compare_values w v) by (rw /cmp_le; by destruct (compare_values w v)).
    pose proof (cmp_trans (cmp:=compare_values) _ _ _ H1 H2) as H3. by destruct (compare_values (get_or_null f row') v).
Qed.

Lemma extreme_comm is_min f r1 r2 v : extreme is_min f (r1 ++ r2) v → extreme is_min f (r2 ++ r1) v.
Proof.
  intros [[-> Hn]|(Hv & (row & Hrow & Hval) & Hall)]; [left|right].
  - split; [done|]. apply Forall_app in Hn as [H1 H2]. by apply Forall_app.
  - split_and!; [done|exists row; split; [|done]; rw !elem_of_app in Hrow |- *; naive_solver|]. intros row' Hr. apply Hall. rw !elem_of_app in Hr |- *. naive_solver.
Qed.

Lemma merge_extreme_right is_min f r1 r2 entry alias v w :
  (obj_get alias entry = Some v ∧ extreme is_min f r1 v) ∨ (obj_get alias entry = None ∧ r1 = []) → extreme is_min f r2 w →
  ∃ u, obj_get alias (merge_extreme_value entry alias (Some w) is_min) = Some u ∧ extreme is_min f (r1 ++ r2) u.
Proof.
  intros Hv Hw. rw /merge_extreme_value. assert (w = VNull ∨ w ≠ VNull) as [->|Hwn] by (destruct w; auto).
  { destruct Hw as [[_ Hn]|[? _]]; [|done]. cbn [is_null]. rw obj_get_or_insert decide_True //. destruct Hv as [[-> Hv]|[-> ->]]; eexists; (split; [done|]); [|by left].
    assert (v = VNull ∨ v ≠ VNull) as [->|Hvn] by (destruct v; auto).
    - destruct Hv as [[_ Hn1]|[? _]]; [|done]. left. by split; [|apply Forall_app].
    - apply (extreme_join is_min f r1 r2 v VNull Hv); [by left|done|by left]. }
  replace (is_null w) with false by (by destruct w). destruct Hv as [[Hg Hv]|[Hg ->]]; rw Hg.
  2: { exists w. by rw obj_get_insert decide_True. }
  assert (Hworse : v = VNull ∨ compare_values w v ≠ (if is_min then Gt else Lt) → extreme is_min f (r1 ++ r2) w) by (intros; by apply extreme_comm, (extreme_join is_min f r2 r1 w v)).
  assert (v = VNull ∨ v ≠ VNull) as [->|Hvn] by (destruct v; auto). { cbn [is_null]. exists w. rw obj_get_insert decide_True //. split; [done|]. apply Hworse. by left. }
  replace (is_null v) with false by (by destruct v).
  assert (Hbetter : compare_values w v ≠ (if is_min then Lt else Gt) → extreme is_min f (r1 ++ r2) v).
  { intros Hc. apply (extreme_join is_min f r1 r2 v w); [done..|]. right. rw (cmp_opp (cmp:=compare_values) v w) in Hc. by destruct (compare_values v w), is_min. }
  destruct (compare_values w v) eqn:Hc, is_min; (exists w; rw obj_get_insert decide_True //; split; [done|]; apply Hworse; by right) || (exists v; split; [done|]; by apply Hbetter).
Qed.
Lemma merge_count_right plan r1 r2 object entry : amp_function plan = ACount → started plan r1 entry → partial_right plan r2 object → exact_rows plan (r1 ++ r2) →
  ∃ entry', merge_measure object entry plan = Ok entry' ∧ acc_right plan (r1 ++ r2) entry'.
Proof.
  intros Hfn Hs Hp [Hl _]. rw /merge_measure /started /acc_right /partial_right /measure_is /measure_keys Hfn in Hs Hp |- *. eexists. split; [done|].
  rw obj_get_insert decide_True //. f_equal. rw length_app in Hl |- *. rw /small_int in Hl. rw (get_number_or_zero _ _ _ Hp); [rw /small_int; lia|].
  assert (Hz : number_or_zero (amp_alias plan) entry = mkF64 (Z.of_nat (length r1)) 0).
  { destruct Hs as [Hs|[-> Hs]]; [apply (get_number_or_zero _ _ _ Hs); rw /small_int; lia|]. apply get_none_zero, Hs. by left. }
  rw Hz add_small_ints; [rw /small_int; lia..|]. f_equal. lia.
Qed.

Lemma merge_sum_right plan r1 r2 object entry : amp_function plan = ASum → started plan r1 entry → partial_right plan r2 object → exact_rows plan (r1 ++ r2) →
  ∃ entry', merge_measure object entry plan = Ok entry' ∧ acc_right plan (r1 ++ r2) entry'.
Proof.
  intros Hfn Hs Hp He. rw /merge_measure /started /acc_right /partial_right /measure_is /measure_keys Hfn in Hs Hp |- *. destruct Hp as (f & Hf & Hp).
  destruct (exact_sums plan f r1 r2 Hf (or_introl Hfn) He) as (H1 & H2 & Hadd). rw Hp /= sum_partial //.
  assert (Hz : number_or_zero (amp_alias plan) entry = mkF64 (isum f r1) 0 ∧ default VNull (obj_get (amp_alias plan) entry) = sum_value f r1).
  { destruct Hs as [(f' & Hf' & Hs)|[-> Hs]].
    - rw Hf in Hf'. injection Hf' as <-. rw Hs. split; [by apply sum_number|done].
    - specialize (Hs (amp_alias plan) ltac:(left)). split; [by apply get_none_zero|by rw Hs]. }
  destruct Hz as [Hz Hd]. pose proof (ncount_range f r1). pose proof (ncount_range f r2). assert (Happ : ncount f (r1 ++ r2) = (ncount f r1 + ncount f r2)%Z) by apply total_app.
  destruct (Z.eqb_spec (ncount f r2) 0) as [Hn|Hn]; eexists; (split; [done|]); exists f; (split; [done|]).
  - rw obj_get_or_insert decide_True // Hd /sum_value Happ Hn Z.add_0_r. do 2 f_equal. rw /isum total_app. fold (isum f r2). rw (no_values_sum f r2 Hn) Z.add_0_r //.
  - rw obj_get_insert decide_True // Hz Hadd /sum_value Happ. destruct (Z.eqb_spec (ncount f r1 + ncount f r2) 0); [lia|done].
Qed.

Lemma merge_avg_right plan r1 r2 object entry : amp_function plan = AAvg → started plan r1 entry → partial_right plan r2 object → exact_rows plan (r1 ++ r2) →
  ∃ entry', merge_measure object entry plan = Ok entry' ∧ acc_right plan (r1 ++ r2) entry'.
Proof.
  intros Hfn Hs Hp He. rw /merge_measure /started /acc_right /partial_right /measure_keys Hfn in Hs Hp |- *. destruct Hp as (f & c & Hf & Hc & Hp & Hpc).
  destruct (exact_sums plan f r1 r2 Hf (or_intror Hfn) He) as (H1 & H2 & Hadd). destruct (exact_counts plan f r1 r2 He) as (H3 & H4 & Hcount).
  assert (Hz : number_or_zero (avg_sum_key (amp_alias plan)) entry = mkF64 (isum f r1) 0 ∧ number_or_zero (avg_count_key (amp_alias plan)) entry = mkF64 (ncount f r1) 0).
  { destruct Hs as [(f' & Hf' & Hsum & Hcnt)|[-> Hs]].
    - rw Hf in Hf'. injection Hf' as <-. pose proof (isum_bound f r1). split; [apply (get_number_or_zero _ _ _ Hsum); rw /small_int; lia|by apply (get_number_or_zero _ _ _ Hcnt)].
    - split; apply get_none_zero, Hs; [left|right; left]. }
  destruct Hz as [Hz1 Hz2]. rw Hc. eexists. split; [done|]. exists f. split; [done|].
  rw Hz1 Hz2 (sum_number f r2 _ _ H2 Hp) (get_number_or_zero _ _ _ Hpc H4) Hadd Hcount. split; [|apply obj_get_insert_eq].
  rw obj_get_insert_ne //. apply obj_get_insert_eq.
Qed.

Lemma merge_measure_right plan r1 r2 object entry : started plan r1 entry → partial_right plan r2 object → exact_rows plan (r1 ++ r2) →
  ∃ entry', merge_measure object entry plan = Ok entry' ∧ acc_right plan (r1 ++ r2) entry'.
Proof.
  intros Hs Hp He. destruct (amp_function plan) eqn:Hfn; [by apply merge_count_right|by apply merge_sum_right|by apply merge_avg_right|..].
  all: rw /merge_measure /started /acc_right /partial_right /measure_is /measure_keys Hfn in Hs Hp |- *; destruct Hp as (f & w & Hf & -> & Hw); eexists; (split; [done|]).
  1: destruct (merge_extreme_right true f r1 r2 entry (amp_alias plan) (default VNull (obj_get (amp_alias plan) entry)) w) as (u & Hu & Hx); [|done|by exists f, u].
  2: destruct (merge_extreme_right false f r1 r2 entry (amp_alias plan) (default VNull (obj_get (amp_alias plan) entry)) w) as (u & Hu & Hx); [|done|by exists f, u].
  all: destruct Hs as [(f' & v & Hf' & Hg & Hv)|[-> Hs]]; [left; rw Hg; split; [done|]; simpl; rw Hf in Hf'; by injection Hf' as <-|right; split; [apply Hs; left|done]].
Qed.

(** *** All measures of a row *)

Definition separate (plans : list AggregateMeasurePlan) : Prop := NoDup (plans ≫= measure_keys).

(** A measure does not see the keys of another. *)
Lemma acc_right_frame plan rows entry entry' : (∀ k, k ∈ measure_keys plan → obj_get k entry' = obj_get k entry) → acc_right plan rows entry → acc_right plan rows entry'.
Proof.
  rw /acc_right /measure_keys. destruct (amp_function plan); intros Hk; try by rw Hk; [left|]. intros (f & Hf & Hs & Hc). exists f. rw !Hk //; set_solver.
Qed.

Lemma started_frame plan rows entry entry' : (∀ k, k ∈ measure_keys plan → obj_get k entry' = obj_get k entry) → started plan rows entry → started plan rows entry'.
Proof.
  intros Hk [Hs|[-> Hs]]; [left; by apply (acc_right_frame plan rows entry)|right]. split; [done|]. intros k Hin. rw Hk //. by apply Hs.
Qed.

Lemma merge_measures_right plans r1 r2 object entry : separate plans → Forall (λ plan, started plan r1 entry ∧ partial_right plan r2 object ∧ exact_rows plan (r1 ++ r2)) plans → NoDup (obj_keys entry) →
  ∃ entry', foldM (merge_measure object) entry plans = Ok entry' ∧ Forall (λ plan, acc_right plan (r1 ++ r2) entry') plans ∧ NoDup (obj_keys entry') ∧
    ∀ k, k ∉ plans ≫= measure_keys → obj_get k entry' = obj_get k entry.
Proof.
  revert entry. induction plans as [|plan plans IH]; intros entry Hsep Hall Hnd; [exists entry; done|]. apply Forall_cons in Hall as [(Hs & Hp & He) Hall].
  rw /separate bind_cons NoDup_app in Hsep. destruct Hsep as (_ & Hdis & Hsep). destruct (merge_measure_right plan r1 r2 object entry Hs Hp He) as (e1 & Hm & Hacc).
  destruct (IH e1 Hsep) as (e2 & Hf & Hall2 & Hnd2 & Hfr); [|by apply (merge_measure_NoDup object entry plan)|].
  { rw Forall_forall in Hall. apply Forall_forall. intros q Hq. destruct (Hall q Hq) as (Hsq & Hpq & Heq). split_and!; [|done|done]. apply (started_frame q r1 entry); [|done].
    intros k Hk. apply (merge_measure_frame object entry plan e1 k Hm). intros Hin. apply (Hdis k Hin). apply list_elem_of_bind. by exists q. }
  exists e2. cbn [foldM]. rw Hm bind_Ok Hf. split_and!; [done| |done|].
  - constructor; [|done]. apply (acc_right_frame plan _ e1); [|done]. intros k Hk. apply Hfr. by apply Hdis.
  - intros k Hk. rw bind_cons not_elem_of_app in Hk. destruct Hk as [Hk1 Hk2]. rw Hfr //. by apply (merge_measure_frame object entry plan).
Qed.
(** *** Finishing an entry *)

Lemma finalize_frame plan row k : NoDup (obj_keys row) → k ∉ measure_keys plan → obj_get k (finalize_measure row plan) = obj_get k row.
Proof.
  intros Hn. rw /finalize_measure /measure_keys. destruct (amp_function plan); rw !not_elem_of_cons; intros Hk; try destruct Hk as (Hk1 & Hk2 & Hk3 & _).
  3: { rw obj_get_insert obj_get_remove; [by apply obj_remove_NoDup|]. rw obj_get_remove //. repeat case_decide; naive_solver. }
  all: rw obj_get_or_insert; case_decide; naive_solver.
Qed.

Lemma finalize_NoDup plan row : NoDup (obj_keys row) → NoDup (obj_keys (finalize_measure row plan)).
Proof. intros Hn. rw /finalize_measure. destruct (amp_function plan); auto using obj_or_insert_NoDup, obj_insert_NoDup, obj_remove_NoDup. Qed.

Lemma finalize_right plan rows row : exact_rows plan rows → acc_right plan rows row → measure_is plan rows (obj_get (amp_alias plan) (finalize_measure row plan)).
Proof.
  intros [Hl He]. rw /acc_right /measure_is /finalize_measure. destruct (amp_function plan) eqn:Hfn.
  1: intros Hr. 2: intros (f & Hf & Hr). 4,5: intros (f & w & Hf & Hr & Hx).
  1,2,4,5: rw obj_get_or_insert decide_True // Hr; naive_solver.
  intros (f & Hf & Hs & Hc). exists f. split; [done|]. rw obj_get_insert_eq. destruct (He f Hf (or_intror eq_refl)) as [_ Hw].
  pose proof (isum_bound f rows). pose proof (ncount_range f rows). rw /small_int in Hl.
  rw (get_number_or_zero _ _ _ Hs); [rw /small_int; lia|]. rw (get_number_or_zero _ _ _ Hc); [rw /small_int; lia|].
  assert (Hz : f64_eqb (mkF64 (ncount f rows) 0) (mkF64 0 0) = (ncount f rows =? 0)%Z); [|by rw Hz].
  rw /f64_eqb (f64_compare_at 0) //= Z.mul_1_r Z.mul_0_l. destruct (Z.compare_spec (ncount f rows) 0), (Z.eqb_spec (ncount f rows) 0); done || lia.
Qed.

Lemma finalize_measures plans rows row : separate plans → NoDup (obj_keys row) → Forall (λ plan, exact_rows plan rows ∧ acc_right plan rows row) plans →
  Forall (λ plan, measure_is plan rows (obj_get (amp_alias plan) (foldl finalize_measure row plans))) plans ∧
  ∀ k, k ∉ plans ≫= measure_keys → obj_get k (foldl finalize_measure row plans) = obj_get k row.
Proof.
  revert row. induction plans as [|plan plans IH]; intros row Hsep Hn Hall; [done|]. apply Forall_cons in Hall as [[He Ha] Hall].
  rw /separate bind_cons NoDup_app in Hsep. destruct Hsep as (_ & Hdis & Hsep). cbn [foldl].
  destruct (IH (finalize_measure row plan) Hsep) as [Hr Hfr]; [by apply finalize_NoDup| |].
  { rw Forall_forall in Hall. apply Forall_forall. intros q Hq. destruct (Hall q Hq) as [Heq Haq]. split; [done|]. apply (acc_right_frame q rows row); [|done].
    intros k Hk. apply finalize_frame; [done|]. intros Hin. apply (Hdis k Hin). apply list_elem_of_bind. by exists q. }
  split.
  - constructor; [|done]. rw Hfr; [apply Hdis; rw /measure_keys; destruct (amp_function plan); set_solver|]. by apply finalize_right.
  - intros k Hk. rw bind_cons not_elem_of_app in Hk. destruct Hk as [Hk1 Hk2]. rw Hfr //. by apply finalize_frame.
Qed.
End measures.
(** ** By key *)

Section keys.
Context `{jt : JsonText, !JsonTextLaws jt, ft : FloatText, ho : HashOrder, src : SnapshotSource}.
Context (aggregate : ServingAggregateSpec) (plans : list AggregateMeasurePlan).

Definition key_of (row : Object) : string := aggregate_group_key row (sas_group_by aggregate).
Definition of_key (k : string) (rows : list Object) : list Object := filter (λ row, key_of row = k) rows.

(** An aggregate without GROUP BY has one row, also of no rows. *)
Definition has_key (rows : list Object) (k : string) : Prop := ((sas_group_by aggregate) = [] ∧ k = json_to_vec (VArray [])) ∨ k ∈ key_of <$> rows.

(** What the engine returns for the partial query over some rows. *)
Definition partial_answer (rows : list Object) (partials : list Object) : Prop :=
  NoDup (key_of <$> partials) ∧ (∀ k, k ∈ key_of <$> partials ↔ has_key rows k) ∧
  ∀ o plan, o ∈ partials → plan ∈ plans → partial_right plan (of_key (key_of o) rows) o.

(** The aggregates of some rows: a row per key with the measures of the rows of the key,
    by falling precedence of the GROUP BY fields. *)
Definition aggregates_of (rows out : list Object) : Prop :=
  NoDup (key_of <$> out) ∧ (∀ k, k ∈ key_of <$> out ↔ has_key rows k) ∧
  (∀ o plan, o ∈ out → plan ∈ plans → measure_is plan (of_key (key_of o) rows) (obj_get (amp_alias plan) o)) ∧
  StronglySorted (λ a b, cmp_le (compare_grouped_rows (sas_group_by aggregate)) (VObject a) (VObject b)) out.

Lemma of_key_app k a b : of_key k (a ++ b) = of_key k a ++ of_key k b.
Proof. apply filter_app. Qed.

Lemma of_key_none k rows : ¬ has_key rows k → of_key k rows = [].
Proof.
  intros Hk. rw /of_key. assert (Hno : ∀ row, row ∈ rows → key_of row ≠ k) by (intros row Hrow <-; apply Hk; right; by apply (list_elem_of_fmap_2 key_of)).
  clear Hk. induction rows as [|row rows IH]; [done|]. rw filter_cons decide_False; [apply Hno; left|]. apply IH. intros r Hr. apply Hno. by right.
Qed.

Hypothesis Hsep : NoDup ((sas_group_by aggregate) ++ (plans ≫= measure_keys)).

Lemma plans_separate : separate plans.
Proof. by apply NoDup_app in Hsep as (_ & _ & ?). Qed.

Lemma key_unchanged o o' : (∀ k, k ∉ plans ≫= measure_keys → obj_get k o' = obj_get k o) → key_of o' = key_of o.
Proof.
  intros Hf. rw /key_of /aggregate_group_key. do 2 f_equal. pose proof (proj1 (NoDup_app _ _) Hsep) as (_ & Hdis & _). revert Hdis. clear Hsep. generalize (sas_group_by aggregate) as l. induction l as [|f l IH]; intros Hdis; [done|].
  rw !fmap_cons. f_equal; [|apply IH; set_solver]. rw /get_or_null Hf //. apply Hdis. left.
Qed.

Lemma group_entry_get object l acc k : obj_get k (foldl (λ map field, obj_insert field (get_or_null field object) map) acc l) = if decide (k ∈ l) then Some (get_or_null k object) else obj_get k acc.
Proof.
  revert acc. induction l as [|f l IH]; intros acc; [done|]. cbn [foldl]. rw IH obj_get_insert. destruct (decide (f = k)) as [->|Hne].
  - rw (decide_True (P:=k ∈ k :: l)); [left|]. by case_decide.
  - destruct (decide (k ∈ l)); [rw decide_True //; by right|]. rw decide_False // elem_of_cons. naive_solver.
Qed.

Lemma fresh_group_key object : key_of (group_entry (sas_group_by aggregate) object) = key_of object.
Proof.
  rw /key_of /aggregate_group_key. do 2 f_equal. apply list_fmap_ext. intros i f Hf%list_elem_of_lookup_2. rw /group_entry {1}/get_or_null group_entry_get decide_True //.
Qed.

Lemma fresh_NoDup object : NoDup (obj_keys (group_entry (sas_group_by aggregate) object)).
Proof.
  rw /group_entry. assert (Hn : NoDup (obj_keys ([] : Object))) by constructor. revert Hn. generalize ([] : Object) as acc. clear Hsep.
  generalize (sas_group_by aggregate) as g. induction g as [|f l IH]; intros acc Hn; [done|]. apply IH. by apply obj_insert_NoDup.
Qed.

(** The entry of a key after some rows of it. *)
Definition entry_right (k : string) (rows : list Object) (entry : Object) : Prop :=
  NoDup (obj_keys entry) ∧ key_of entry = k ∧ Forall (λ plan, acc_right plan rows entry) plans.

(** [acc k] are the rows of key [k] merged so far. *)
Definition merged_right (acc : string → list Object) (seen : list string) (merged : gmap string Object) : Prop :=
  ∀ k, match merged !! k with Some entry => k ∈ seen ∧ entry_right k (acc k) entry | None => (k ∉ seen) ∧ acc k = [] end.

Lemma merged_right_ext acc acc' seen seen' merged : (∀ k, acc k = acc' k) → (∀ k, (k ∈ seen) ↔ (k ∈ seen')) → merged_right acc seen merged → merged_right acc' seen' merged.
Proof. intros Ha Hs Hm k. specialize (Hm k). rw -Ha. by destruct (merged !! k); rw -Hs. Qed.

Lemma merge_row_right acc seen merged o rows : merged_right acc seen merged → (∀ plan, plan ∈ plans → partial_right plan rows o) →
  (∀ plan, plan ∈ plans → exact_rows plan (acc (key_of o) ++ rows)) → ∃ merged',
  merge_partial_row aggregate plans merged (VObject o) = Ok merged' ∧
  merged_right (λ k, if decide (k = key_of o) then acc k ++ rows else acc k) (key_of o :: seen) merged'.
Proof.
  intros Hm Hp He. rw /merge_partial_row /=. fold (key_of o). pose proof (Hm (key_of o)) as Hk.
  set (entry := default (group_entry (sas_group_by aggregate) o) (merged !! key_of o)).
  assert (Hentry : NoDup (obj_keys entry) ∧ key_of entry = key_of o ∧ ∀ plan, plan ∈ plans → started plan (acc (key_of o)) entry).
  { rw /entry. destruct (merged !! key_of o) as [e|]; simpl.
    - destruct Hk as (_ & Hn & Hkey & Hall). split_and!; [done..|]. rw Forall_forall in Hall. intros plan Hin. left. by apply Hall.
    - destruct Hk as [_ ->]. split_and!; [apply fresh_NoDup|apply fresh_group_key|]. intros plan Hin. right. split; [done|]. intros k Hk. rw /group_entry group_entry_get decide_False //.
      intros Hg. pose proof (proj1 (NoDup_app _ _) Hsep) as (_ & Hdis & _). apply (Hdis k Hg). apply list_elem_of_bind. by exists plan. }
  destruct Hentry as (Hn & Hkey & Hst). destruct (merge_measures_right plans (acc (key_of o)) rows o entry plans_separate) as (e' & Hf & Hall & Hn' & Hfr); [|done|].
  { apply Forall_forall. intros plan Hin. split_and!; [by apply Hst|by apply Hp|by apply He]. }
  rw Hf bind_Ok. eexists. split; [done|]. intros k. destruct (decide (k = key_of o)) as [->|Hne].
  - rw lookup_insert_eq. split; [left|]. split_and!; [done|by rw (key_unchanged entry e' Hfr)|done].
  - rw lookup_insert_ne; [by apply not_eq_sym|]. specialize (Hm k). destruct (merged !! k); rw ?not_elem_of_cons ?elem_of_cons; naive_solver.
Qed.

(** The rows of one file group. *)
Lemma merge_group_right acc seen merged rows partials : merged_right acc seen merged → partial_answer rows partials →
  (∀ k plan, plan ∈ plans → exact_rows plan (acc k ++ of_key k rows)) → ∃ merged',
  merge_partial_aggregate_rows merged (VObject <$> partials) aggregate plans = Ok merged' ∧
  merged_right (λ k, acc k ++ of_key k rows) ((key_of <$> partials) ++ seen) merged'.
Proof.
  intros Hm (Hnd & Hkeys & Hright) He. rw /merge_partial_aggregate_rows.
  assert (Hloop : ∀ os acc seen merged, NoDup (key_of <$> os) → (∀ o, o ∈ os → o ∈ partials) → (∀ k plan, k ∈ key_of <$> os → plan ∈ plans → exact_rows plan (acc k ++ of_key k rows)) →
    merged_right acc seen merged → ∃ merged', foldM (merge_partial_row aggregate plans) merged (VObject <$> os) = Ok merged' ∧
    merged_right (λ k, if decide (k ∈ key_of <$> os) then acc k ++ of_key k rows else acc k) ((key_of <$> os) ++ seen) merged').
  { clear acc seen merged Hm He. induction os as [|o os IH]; intros acc seen merged Hn Hin He Hm; [exists merged; split; [done|]; by apply (merged_right_ext acc _ seen seen)|].
    rw !fmap_cons NoDup_cons in Hn. destruct Hn as [Ho Hn]. rw fmap_cons. cbn [foldM].
    destruct (merge_row_right acc seen merged o (of_key (key_of o) rows) Hm) as (m1 & -> & Hm1).
    { intros plan Hplan. apply Hright; [apply Hin; left|done]. }
    { intros plan Hplan. apply He; [left|done]. }
    rw bind_Ok. destruct (IH (λ k, if decide (k = key_of o) then acc k ++ of_key (key_of o) rows else acc k) (key_of o :: seen) m1 Hn) as (m2 & -> & Hm2); [| |exact Hm1|].
    { intros o' Ho'. apply Hin. by right. }
    { cbn beta. intros k plan Hk Hplan. rw decide_False; [intros ->; by apply Ho|]. apply He; [by right|done]. }
    exists m2. split; [done|]. eapply merged_right_ext; [| |exact Hm2].
    - intros k. cbn beta. destruct (decide (k = key_of o)) as [->|Hne].
      + rw decide_False // (decide_True (P:=key_of o ∈ key_of o :: _)) //. left.
      + destruct (decide (k ∈ key_of <$> os)); [rw decide_True //; by right|]. rw decide_False // elem_of_cons. naive_solver.
    - intros k. rw fmap_cons -app_comm_cons !elem_of_app !elem_of_cons !elem_of_app. naive_solver. }
  destruct (Hloop partials acc seen merged Hnd (λ o Ho, Ho) (λ k plan _, He k plan) Hm) as (m' & -> & Hm'). exists m'. split; [done|].
  eapply merged_right_ext; [|done|exact Hm']. intros k. cbn beta. case_decide as Hk; [done|]. rw of_key_none ?app_nil_r //. by rw -Hkeys.
Qed.
(** *** Finishing *)

#[local] Instance grouped_total : TotalPreorder (compare_grouped_rows (sas_group_by aggregate)).
Proof.
  clear Hsep. generalize (sas_group_by aggregate) as g. induction g as [|f g IH]; [apply total_const|].
  assert (Hc : TotalPreorder (λ left right, compare_row_values (value_get left f) (value_get right f) false)).
  { apply (total_on (λ row, value_get row f) (λ v w, compare_row_values v w false)), (total_on (default VNull) (λ v w, reverse_if false (compare_values v w))), total_reverse, _. }
  exact (total_then _ _ Hc IH).
Qed.

Lemma final_rows rows seen merged : merged_right (λ k, of_key k rows) seen merged → (∀ k, k ∈ seen ↔ has_key rows k) → (∀ plan, plan ∈ plans → exact_rows plan rows) →
  ∃ out, sort_by (compare_grouped_rows (sas_group_by aggregate)) ((λ entry, VObject (foldl finalize_measure entry.2 plans)) <$> hash_iter merged) = VObject <$> out ∧ aggregates_of rows out.
Proof.
  intros Hm Hseen He. set (final := λ entry : string * Object, foldl finalize_measure entry.2 plans).
  assert (Hfinal : ∀ k entry, (k, entry) ∈ hash_iter merged → key_of (final (k, entry)) = k ∧ has_key rows k ∧ ∀ plan, plan ∈ plans → measure_is plan (of_key k rows) (obj_get (amp_alias plan) (final (k, entry)))).
  { intros k entry Hk%elem_of_hash_iter. specialize (Hm k). rw Hk in Hm. destruct Hm as (Hs & Hn & Hkey & Hall).
    destruct (finalize_measures plans (of_key k rows) entry plans_separate Hn) as [Hr Hfr].
    { apply Forall_forall. intros plan Hin. rw Forall_forall in Hall. split; [|by apply Hall]. apply (exact_rows_part plan _ rows); [apply sublist_submseteq, sublist_filter|by apply He]. }
    rw Forall_forall in Hr. split_and!; [rw /final (key_unchanged entry _ Hfr) //|by apply Hseen|done]. }
  assert (Hkeys : key_of ∘ final <$> hash_iter merged = (hash_iter merged).*1).
  { apply list_fmap_ext. intros i [k entry] Hi%list_elem_of_lookup_2. by apply Hfinal in Hi as [? _]. }
  exists (sort_by (λ a b, compare_grouped_rows (sas_group_by aggregate) (VObject a) (VObject b)) (final <$> hash_iter merged)). split.
  { rw -(sort_by_fmap (compare_grouped_rows (sas_group_by aggregate)) VObject). f_equal. rw -list_fmap_compose. done. }
  split_and!.
  - rw sort_by_perm -list_fmap_compose Hkeys. apply NoDup_hash_iter.
  - intros k. rw sort_by_perm -list_fmap_compose Hkeys. split.
    + intros ([k' entry] & -> & Hin)%list_elem_of_fmap. by apply Hfinal in Hin as (_ & ? & _).
    + intros Hk%Hseen. pose proof (Hm k) as Hmk. destruct (merged !! k) as [entry|] eqn:Hl; [|by destruct Hmk]. apply list_elem_of_fmap. exists (k, entry). split; [done|]. by apply elem_of_hash_iter.
  - intros o plan Ho Hplan. rw elem_of_sort_by in Ho. apply list_elem_of_fmap in Ho as ([k entry] & -> & Hin). destruct (Hfinal k entry Hin) as (Hkey & _ & Hr). rw Hkey. by apply Hr.
  - pose proof (total_on VObject (compare_grouped_rows (sas_group_by aggregate)) _) as Ht. apply (sort_by_in_order (λ a b, compare_grouped_rows (sas_group_by aggregate) (VObject a) (VObject b))).
Qed.

Lemma aliases_distinct ps : separate ps → NoDup (amp_alias <$> ps).
Proof.
  assert (Halias : ∀ p, amp_alias p ∈ measure_keys p) by (intros p; rw /measure_keys; destruct (amp_function p); set_solver).
  rw /separate. induction ps as [|p ps IH]; [constructor|]. rw bind_cons NoDup_app. intros (_ & Hdis & Hs). rw fmap_cons NoDup_cons. split; [|by apply IH].
  intros (q & Hq & Hin)%list_elem_of_fmap. apply (Hdis (amp_alias p) (Halias p)). apply list_elem_of_bind. exists q. by rw Hq.
Qed.

Lemma empty_row_get (v : AggregateMeasurePlan → Value) ps (acc : Object) p : NoDup (amp_alias <$> ps) → p ∈ ps →
  obj_get (amp_alias p) (foldl (λ row plan, obj_insert (amp_alias plan) (v plan) row) acc ps) = Some (v p).
Proof.
  assert (Hkeep : ∀ ps (acc : Object), amp_alias p ∉ amp_alias <$> ps → obj_get (amp_alias p) (foldl (λ row plan, obj_insert (amp_alias plan) (v plan) row) acc ps) = obj_get (amp_alias p) acc).
  { clear ps acc. induction ps as [|q ps IH]; intros acc; [done|]. rw fmap_cons not_elem_of_cons. intros [Hne Hp]. cbn [foldl]. rw IH // obj_get_insert_ne //. by apply not_eq_sym. }
  revert acc. induction ps as [|q ps IH]; intros acc Hn Hp; [by apply not_elem_of_nil in Hp|]. rw fmap_cons NoDup_cons in Hn. destruct Hn as [Hq Hn]. cbn [foldl].
  apply elem_of_cons in Hp as [<-|Hp]; [|by apply IH]. rw Hkeep // obj_get_insert_eq //.
Qed.

Lemma empty_rows : Forall (λ plan, amp_function plan = ACount ∨ is_Some (amp_field plan)) plans → ∃ out, empty_aggregate_rows aggregate plans = VObject <$> out ∧ aggregates_of [] out.
Proof.
  intros Hfields. rw /empty_aggregate_rows. case_decide as Hg.
  2: { exists []. split; [done|]. split_and!; [constructor| |by intros ? ? ?%not_elem_of_nil|constructor]. intros k. split; [by intros ?%not_elem_of_nil|]. intros [[? _]|?%not_elem_of_nil]; done. }
  eexists [_]. split; [done|]. set (o := foldl _ [] plans). assert (Hkey : key_of o = json_to_vec (VArray [])) by (by rw /key_of Hg). split_and!; [apply NoDup_singleton| | |repeat constructor].
  - intros k. rw /= list_elem_of_singleton Hkey /has_key. split; [by left|]. intros [[_ ?]|?%not_elem_of_nil]; done.
  - intros o' plan ->%list_elem_of_singleton Hplan. rw /o empty_row_get //; [apply aliases_distinct, plans_separate|].
    rw Forall_forall in Hfields. destruct (Hfields plan Hplan) as [Hc|[f Hf]]; rw /measure_is ?Hc; [done|]. destruct (amp_function plan); [done|..].
    all: try by exists f. all: exists f, VNull; split_and!; [done..|by left].
Qed.

(** Aggregates do not depend on the order of the rows. *)
Lemma measure_is_perm plan a b v : a ≡ₚ b → measure_is plan a v → measure_is plan b v.
Proof.
  intros Hp. assert (Hx : ∀ m f w, extreme m f a w → extreme m f b w).
  { intros m f w. rw /extreme. intros [[-> Hn]|(Hw & (row & Hrow & Hv) & Hall)]; [left; by rw -Hp|right]. split_and!; [done|exists row; by rw -Hp|]. intros r. rw -Hp. apply Hall. }
  assert (Hs : ∀ f, isum f a = isum f b ∧ ncount f a = ncount f b) by (intros f; split; by apply total_perm).
  rw /measure_is /sum_value. destruct (amp_function plan); [by rw Hp|..].
  - intros (f & Hf & ->). exists f. destruct (Hs f) as [-> ->]. done.
  - intros (f & Hf & ->). exists f. destruct (Hs f) as [-> ->]. done.
  - intros (f & w & Hf & -> & Hw). exists f, w. auto.
  - intros (f & w & Hf & -> & Hw). exists f, w. auto.
Qed.

Lemma aggregates_of_perm a b out : a ≡ₚ b → aggregates_of a out → aggregates_of b out.
Proof.
  intros Hp (Hn & Hk & Hm & Hs). split_and!; [done| | |done].
  - intros k. rw Hk /has_key. by rw Hp.
  - intros o plan Ho Hplan. apply (measure_is_perm plan (of_key (key_of o) a)); [by rw /of_key Hp|by apply Hm].
Qed.

(** ** The whole plan *)

Section plan.
Context (request : ReadPlan) (delete_files : list string) (sql : string) (limit : nat).

(** The rows of a file that match the request. *)
Context (answers : QueryInputFile → list Object).

Hypothesis Hrequest : rd_aggregate request = Some aggregate.
Hypothesis Hplans : aggregate_measure_plans aggregate = Ok plans.
Hypothesis Hsql : build_aggregate_sql "{table}" request limit (negb (bool_decide (delete_files = []))) true = Ok sql.
Hypothesis Hfields : Forall (λ plan, amp_function plan = ACount ∨ is_Some (amp_field plan)) plans.

(** The LIMIT of the partial query does not cut. *)
Definition few_keys (rows : list Object) : Prop := sas_group_by aggregate = [] ∨ ∃ keys, length keys ≤ limit ∧ ∀ row, row ∈ rows → key_of row ∈ keys.

(** What the SQL engine is relied on for: run on a group of files with no more keys than
    the limit of the query, the partial query returns the partial values of its rows. *)
Definition engine_aggregates (group : list QueryInputFile) : Prop :=
  ∃ batches, execute_query_plan_batches (replace "{table}" "{target_table}" sql) group delete_files = Ok batches ∧
    (few_keys (group ≫= answers) → partial_answer (group ≫= answers) (concat batches)).

Lemma merge_groups_right groups finished rest all seen merged : Forall engine_aggregates groups → Forall (λ group, few_keys (group ≫= answers)) groups →
  (∀ plan, plan ∈ plans → exact_rows plan all) → finished ++ (groups ≫= λ group, group ≫= answers) ++ rest ≡ₚ all →
  merged_right (λ k, of_key k finished) seen merged → ∃ seen' merged',
  foldM (λ merged query_files, rows ← execute_query_input_group_plan query_files sql delete_files; merge_partial_aggregate_rows merged rows aggregate plans) merged groups = Ok merged' ∧
  merged_right (λ k, of_key k (finished ++ (groups ≫= λ group, group ≫= answers))) seen' merged' ∧
  ∀ k, k ∈ seen' ↔ k ∈ seen ∨ ∃ group, group ∈ groups ∧ has_key (group ≫= answers) k.
Proof.
  intros Hg Hfew He. revert finished seen merged. induction Hg as [|group groups Hgr _ IH]; intros finished seen merged Hall Hm; cbn [foldM].
  { exists seen, merged. split_and!; [done|by rw app_nil_r|]. intros k. split; [by left|]. intros [?|(? & ?%not_elem_of_nil & _)]; done. }
  apply Forall_cons in Hfew as [Hf Hfew]. destruct Hgr as (batches & Hb & Hp). specialize (Hp Hf). rw bind_cons in Hall.
  assert (Hexec : execute_query_input_group_plan group sql delete_files = Ok (VObject <$> concat batches)) by (by rw /execute_query_input_group_plan Hb). rw Hexec bind_Ok.
  destruct (merge_group_right (λ k, of_key k finished) seen merged (group ≫= answers) (concat batches) Hm Hp) as (m1 & -> & Hm1).
  { intros k plan Hplan. rw -of_key_app. apply (exact_rows_part plan _ all); [|by apply He]. trans (finished ++ (group ≫= answers)); [apply sublist_submseteq, sublist_filter|].
    rw -Hall !app_assoc. apply submseteq_inserts_r, submseteq_inserts_r. done. }
  rw bind_Ok. destruct (IH Hfew (finished ++ (group ≫= answers)) ((key_of <$> concat batches) ++ seen) m1) as (seen' & m' & Hrun & Hm' & Hs').
  { by rw -app_assoc app_assoc in Hall |- *; rw -!app_assoc in Hall |- *. }
  { eapply merged_right_ext; [|done|exact Hm1]. intros k. cbn beta. by rw of_key_app. }
  exists seen', m'. split_and!; [done|by rw bind_cons app_assoc|]. intros k. rw Hs' elem_of_app. destruct Hp as (_ & Hk & _). rw Hk. split.
  - intros [[?|?]|(g & ? & ?)]; [right; exists group; split; [left|done]|by left|right; exists g; split; [by right|done]].
  - intros [?|(g & [->|?]%elem_of_cons & ?)]; [by left; right|by left; left|right; by exists g].
Qed.

Lemma has_key_groups groups k : groups ≠ [] → (∃ group, group ∈ groups ∧ has_key (group ≫= answers) k) ↔ has_key (groups ≫= λ group, group ≫= answers) k.
Proof.
  intros Hne. rw /has_key. split.
  - intros (group & Hin & [?|Hk]); [by left|right]. apply list_elem_of_fmap in Hk as (row & -> & Hrow). apply (list_elem_of_fmap_2 key_of). apply list_elem_of_bind. by exists group.
  - intros [?|Hk]; [destruct groups as [|g groups]; [done|]; exists g; split; [left|by left]|]. apply list_elem_of_fmap in Hk as (row & -> & (group & Hrow & Hin)%list_elem_of_bind).
    exists group. split; [done|right]. by apply (list_elem_of_fmap_2 key_of).
Qed.

Lemma aggregate_answer `{CompletionOrder} files speedboat_files :
  let all := (iceberg_query_inputs files ++ speedboat_query_inputs speedboat_files) ≫= answers in
  Forall engine_aggregates (serving_query_input_groups files speedboat_files) → Forall (λ group, few_keys (group ≫= answers)) (serving_query_input_groups files speedboat_files) →
  (∀ plan, plan ∈ plans → exact_rows plan all) → ∃ out, aggregates_of all out ∧
  execute_aggregate_plan files speedboat_files delete_files request limit = Ok (VObject <$> if decide (sas_group_by aggregate = []) then out else take limit out).
Proof.
  intros all Hg Hfew He. rw /execute_aggregate_plan Hrequest /= Hplans bind_Ok.
  set (groups := serving_query_input_groups files speedboat_files) in *. assert (Hperm : (groups ≫= λ group, group ≫= answers) ≡ₚ all).
  { rw bind_concat /all. by rw /groups /serving_query_input_groups input_groups_perm. }
  case_decide as Hempty.
  { rw Hempty in Hperm. apply Permutation_nil_l in Hperm. destruct (empty_rows Hfields) as (out & -> & Hout). exists out. rw -Hperm. split; [done|]. destruct Hout as (_ & Hk & _).
    case_decide as Hgb; [done|]. destruct out as [|o out]; [by rw take_nil|]. exfalso. destruct (proj1 (Hk (key_of o)) ltac:(left)) as [[? _]|?%not_elem_of_nil]; done. }
  rw Hsql bind_Ok. destruct (merge_groups_right (complete groups) [] [] all [] ∅) as (seen & merged & Hrun & Hm & Hs).
  { by rw complete_perm. } { by rw complete_perm. } { done. } { cbn [app]. by rw app_nil_r complete_perm. } { intros k. rw lookup_empty. split; [apply not_elem_of_nil|done]. }
  rw Hrun bind_Ok. cbn [app] in Hm. assert (Hne : complete groups ≠ []) by (intros Hn; apply Hempty; pose proof (complete_perm _ groups) as Hp; rw Hn in Hp; by apply Permutation_nil_l in Hp).
  assert (Hperm' : (complete groups ≫= λ group, group ≫= answers) ≡ₚ all) by (by rw complete_perm).
  destruct (final_rows (complete groups ≫= λ group, group ≫= answers) seen merged) as (out & Hout & Haggs); [done| | |].
  { intros k. rw Hs (has_key_groups _ k Hne). split; [intros [?%not_elem_of_nil|?]; done|by right]. }
  { intros plan Hplan. apply (exact_rows_part plan _ all); [by apply Permutation_submseteq|by apply He]. }
  exists out. split; [by apply (aggregates_of_perm _ all out Hperm')|]. rw /finalize_aggregate_rows Hout length_fmap. destruct Haggs as (_ & Hk & _ & _).
  case_decide as Hnone.
  - subst merged. assert (Hno : ∀ k, ¬ has_key (complete groups ≫= λ group, group ≫= answers) k).
    { intros k Hk'. specialize (Hm k). rw lookup_empty in Hm. destruct Hm as [Hm _]. apply Hm, Hs. right. by apply has_key_groups. }
    destruct out as [|o out]; [|exfalso; apply (Hno (key_of o)), Hk; left]. rw /empty_aggregate_rows. case_decide as Hgb; [exfalso; apply (Hno (json_to_vec (VArray []))); by left|by rw take_nil].
  - case_decide as Hgb; [by rw bool_decide_true|]. rw bool_decide_false //=. destruct (Nat.ltb_spec limit (length out)); [by rw fmap_take|]. by rw take_ge.
Qed.

End plan.
End keys.
End AggregatesTheory.

Module AggregatesDemo.
Import FloatTextDemo HashOrderDemo JsonTextDemo AggregatesTheory.

(** Orders by team, in two files of different schemas. *)
Definition order (team : string) (cents : Z) : Object := [("team", VString team); ("cents", int cents)].
Definition file_a : FileDescriptor := mkFile "a" (mkSchema []) 10.
Definition file_b : FileDescriptor := mkFile "b" (mkSchema [mkField "extra" TString]) 10.
Definition orders (file : QueryInputFile) : list Object :=
  if decide (file_path (qi_file file) = "a") then [order "red" 10; order "blue" 5] else [order "blue" 6; order "red" 32].

Definition by_team : ServingAggregateSpec :=
  mkServingAggregateSpec ["team"] [mkServingAggregateMeasure "count" None None; mkServingAggregateMeasure "avg" (Some "cents") None].
Definition team_plans : list AggregateMeasurePlan :=
  [mkMeasurePlan ACount None "count" "__partial_value_count" None;
   mkMeasurePlan AAvg (Some "cents") "avg_cents" "__partial_value_avg_cents" (Some "__partial_count_avg_cents")].
Definition team_request : ReadPlan := mkReadPlan None [] (Some by_team) [] None 0 None false false.

(** The partial query by hand: the keys in the order they come, cut to the limit. *)
Definition team_of (row : Object) : option string := obj_get "team" row ≫= as_str.
Definition partial_row (rows : list Object) (team : string) : Object :=
  let group := filter (λ row, team_of row = Some team) rows in
  [("team", VString team); ("__partial_value_count", int (Z.of_nat (length group)));
   ("__partial_value_avg_cents", sum_value "cents" group); ("__partial_count_avg_cents", int (ncount "cents" group))].
Definition orders_engine (limit : nat) : SnapshotSource := {|
  materialize_local_file := λ _, Err "no files";
  query_file := λ _ _, Err "no files";
  execute_query_plan_batches := λ _ files _, let rows := files ≫= orders in Ok [take limit (partial_row rows <$> remove_dups (omap team_of rows))];
|}.

#[local] Instance first_first : CompletionOrder := {| complete := λ A l, l; complete_perm := λ A l, reflexivity _ |}.

(** The query of each group is cut to the limit before the merge.  With a limit of one
    and an engine that returns the first key of each group, the count of blue, which has
    two orders, comes out as one. *)
Theorem limited_partials_lose_rows :
  execute_aggregate_plan (src:=orders_engine 1) [file_a; file_b] [] [] team_request 1 =
    Ok [VObject [("team", VString "blue"); ("count", int 1); ("avg_cents", int 6)]] ∧
  execute_aggregate_plan (src:=orders_engine 2) [file_a; file_b] [] [] team_request 2 =
    Ok [VObject [("team", VString "blue"); ("count", int 2); ("avg_cents", VNumber (NFloat (mkF64 11 (-1))))];
        VObject [("team", VString "red"); ("count", int 2); ("avg_cents", int 21)]].
Proof. split; vm_compute; reflexivity. Qed.

Definition demo_groups : list (list QueryInputFile) := [[mkQueryInput file_a Iceberg []]; [mkQueryInput file_b Iceberg []]].

Lemma demo_partials group : group ∈ demo_groups → partial_answer by_team team_plans (group ≫= orders) (partial_row (group ≫= orders) <$> remove_dups (omap team_of (group ≫= orders))).
Proof.
  rw /demo_groups !elem_of_cons. intros Hg. split_and!.
  - apply (bool_decide_unpack _). destruct Hg as [->|[->|[]%not_elem_of_nil]]; vm_compute; exact I.
  - intros k. rw /has_key. assert (Heq : key_of by_team <$> (partial_row (group ≫= orders) <$> remove_dups (omap team_of (group ≫= orders))) = key_of by_team <$> (group ≫= orders)).
    { destruct Hg as [->|[->|[]%not_elem_of_nil]]; vm_compute; reflexivity. }
    rw Heq. split; [by right|]. by intros [[? _]|?].
  - intros o plan Ho Hplan. rw /team_plans !elem_of_cons in Hplan. destruct Hg as [->|[->|[]%not_elem_of_nil]].
    all: rw -[_ <$> _]/(_ :: _ :: []) !elem_of_cons in Ho; destruct Ho as [->|[->|[]%not_elem_of_nil]]; destruct Hplan as [->|[->|[]%not_elem_of_nil]].
    all: first [vm_compute; reflexivity|exists "cents", "__partial_count_avg_cents"; split_and!; vm_compute; reflexivity].
Qed.

Lemma demo_separate : NoDup (sas_group_by by_team ++ (team_plans ≫= measure_keys)).
Proof. apply (bool_decide_unpack _). vm_compute. exact I. Qed.

Lemma demo_fields : Forall (λ plan, amp_function plan = ACount ∨ is_Some (amp_field plan)) team_plans.
Proof. constructor; [by left|]. constructor; [right; by eexists|constructor]. Qed.

End AggregatesDemo.
