(* ===== verification/ExactSidecars.v ===== *)
(** * Exact sidecars (query_runtime/src/elastic_search_index.rs)

    For every file of a table an index of its scalar values (a row per document and
    field) and a summary of the values of each field (all of them up to a limit) are
    written next to the file.  The queries that fill them are run by the SQL engine: the
    text a value is cast to is the class [CastText], the order of a GROUP BY is open. *)

From S2P Require Import Prelude Text StableSort Json Contract QueryPath Aggregates TopK.

(** [CAST(v AS string)] *)
Class CastText : Type := { cast_text : Value → string }.

(** Documented: strings stay, integers are decimal, booleans are words, and equal values
    have the same text. *)
Class CastTextLaws (ct : CastText) : Prop := {
  cast_string : ∀ s, cast_text (VString s) = s;
  cast_pos : ∀ n, cast_text (VNumber (PosInt n)) = print_int n;
  cast_neg : ∀ n, cast_text (VNumber (NegInt n)) = print_int n;
  cast_bool : ∀ b : bool, cast_text (VBool b) = if b then "true" else "false";
  cast_equal : ∀ v w, value_eqb v w = true → cast_text v = cast_text w;
}.

(** The types of Arrow, those that are not scalar as one. *)
Inductive ArrowType : Type :=
| Utf8View | Utf8 | LargeUtf8 | Boolean | Int8 | Int16 | Int32 | Int64 | UInt8 | UInt16 | UInt32 | UInt64 | Float16 | Float32 | Float64
| OtherType (name : string).

(** SRC query_runtime/src/elastic_search_index.rs:83-102 is_exact_index_type *)
Definition is_exact_index_type (data_type : ArrowType) : bool := match data_type with OtherType _ => false | _ => true end.

(** A file loaded as a table. *)
Record Table : Type := mkTable { t_columns : list (string * ArrowType); t_rows : list Object }.

(** SRC query_runtime/src/elastic_search_index.rs:253-258= create_exact_index_worker, the fields *)
Definition exact_fields (table : Table) (doc_id_field_name : string) : list string :=
  (filter (λ column, is_exact_index_type column.2 = true ∧ column.1 ≠ doc_id_field_name) (t_columns table)).*1.

(** A row of the index. *)
Record IndexRow : Type := mkIndexRow { ix_doc_id : Value; ix_field_name : string; ix_field_value : string }.

Section writers.
Context `{ct : CastText}.

(** The rows with a value, as rows of the index. *)
Definition field_index_rows (table : Table) (doc_id_field_name field_name : string) : list IndexRow :=
  (λ row, mkIndexRow (get_or_null doc_id_field_name row) field_name (cast_text (get_or_null field_name row))) <$>
  filter (λ row, is_null (get_or_null field_name row) = false) (t_rows table).

(** The rows of the index; without a scalar field nothing is written. *)
(** SRC query_runtime/src/elastic_search_index.rs:239-290 create_exact_index_worker *)
Definition create_exact_index_worker (table : Table) (doc_id_field_name : string) : option (list IndexRow) :=
  let exact_fields := exact_fields table doc_id_field_name in
  if decide (exact_fields = []) then None
  else Some (exact_fields ≫= field_index_rows table doc_id_field_name).

Definition EXACT_PRUNING_VALUE_LIMIT : nat := 64.

(** GROUP BY: one of each value. *)
Definition group_values (values : list Value) : list Value :=
  foldl (λ seen value, if existsb (value_eqb value) seen then seen else seen ++ [value]) [] values.

(** SRC query_runtime/src/elastic_search_index.rs:296-321 exact_pruning_field_values *)
Definition exact_pruning_field_values `{CompletionOrder} (table : Table) (field_name : string) : list string :=
  take (EXACT_PRUNING_VALUE_LIMIT + 1)
    (cast_text <$> complete (group_values (filter (λ value, is_null value = false) (get_or_null field_name <$> t_rows table)))).

(** A row of the summary. *)
Definition pruning_row (field_name : string) (field_value : Value) (complete : bool) : Object :=
  [("field_name", VString field_name); ("field_value", field_value); ("complete", VBool complete)].

(** SRC query_runtime/src/elastic_search_index.rs:344-371= create_exact_pruning_worker, the rows of a field *)
Definition field_pruning_rows `{CompletionOrder} (table : Table) (field_name : string) : list Object :=
  let values := exact_pruning_field_values table field_name in
  if EXACT_PRUNING_VALUE_LIMIT <? length values then [pruning_row field_name VNull false]
  else if decide (values = []) then [pruning_row field_name VNull true]
  else (λ value, pruning_row field_name (VString value) true) <$> values.

(** SRC query_runtime/src/elastic_search_index.rs:323-387 create_exact_pruning_worker *)
Definition create_exact_pruning_worker `{CompletionOrder} (table : Table) (doc_id_field_name : string) : option (list Object) :=
  let exact_fields := exact_fields table doc_id_field_name in
  if decide (exact_fields = []) then None
  else Some (exact_fields ≫= field_pruning_rows table).
End writers.
