(* ===== verification/Provider.v ===== *)
(** * The state provider (query_runtime/src/state_provider.rs)

    The front ends and the serving path read and change table metadata through one
    process-wide handle.  Which service answers (in memory, replicated, DynamoDB) is
    configuration; [StateProvider] is the part of the handle they use, over the state [W]
    of whatever is behind it. *)

From S2P Require Import Prelude Contract Checkpoint.

Class StateProvider (W : Type) : Type := {
  sp_is_read_only : W → bool;
  sp_describe_table : W → string → outcome (option TableDescription);
  sp_get_all_iceberg_tables : W → outcome (list string);
  sp_get_published_active_servable_checkpoint : W → string → outcome (option string);
  sp_get_checkpoint : W → CheckpointDescriptor → outcome (option TableMetadataCheckpoint);
  sp_upsert_table_metadata : CreateTable → W → outcome bool * W;
}.

(** What storing a description changes: the description of that name, and the list of
    tables when the name is new. *)
Record upserted {W : Type} `{StateProvider W} (request : CreateTable) (w w' : W) : Prop := {
  up_describe : ∀ t, sp_describe_table w' t = if decide (t = ct_name request) then Ok (Some (from_create_table request)) else sp_describe_table w t;
  up_tables : ∀ ts', sp_get_all_iceberg_tables w' = Ok ts' → NoDup ts' ∧
    ∃ ts, sp_get_all_iceberg_tables w = Ok ts ∧ NoDup ts ∧ ∀ t, t ∈ ts' ↔ t ∈ ts ∨ t = ct_name request;
  up_checkpoints : ∀ descriptor, sp_get_checkpoint w' descriptor = sp_get_checkpoint w descriptor;
}.
