(* ===== verification/ServingExec.v ===== *)
(** * Execution of serving queries (query_runtime/src/lakehouse_serving.rs)

    A planned request is answered by the first of: the snapshot of the checkpoint, the
    exact index of each file, or SQL over the files that remain after exact pruning, with
    early stopping for ordered requests.  This file has the exact sidecars, the choice
    between the ways, and the entry points. *)

From S2P Require Import Prelude Text Bytes StableSort Schema Json JsonText FileSet Contract Checkpoint QueryPath Float Pruning Planner SnapshotCodec SnapshotLookup SnapshotServing TopK Aggregates Provider.

(** Sidecar files: fetched and registered as a table, then queried under the name they
    were registered with. *)
Class SidecarSource : Type := {
  load_file_as_table : string → outcome ();
  execute_sql : string → (string → string) → outcome (list (list Object));
}.

(** [f64::to_string], which unlike JSON prints no fraction for an integer. *)
Class FloatDisplay : Type := { display_f64 : f64 → string }.

(** ** Exact indexes *)

Definition MAX_EXACT_LOOKUP_DOC_IDS : nat := 256.

(** SRC query_runtime/src/lakehouse_serving.rs:3390-3394 exact_index_extension_file *)
Definition exact_index_extension_file (extension_files : list ExtensionFile) : option ExtensionFile :=
  find (λ extension, String.eqb (ef_suffix extension) "exact_index") extension_files.

(** SRC query_runtime/src/lakehouse_serving.rs:3386-3388 exact_lookup_key_sql_text *)
Definition exact_lookup_key_sql_text (value : SnapshotLookupKey) : option string :=
  match value with
  | String _ text => if utf8_valid text then Some text else None
  | EmptyString => None
  end.

(** SRC query_runtime/src/lakehouse_serving.rs:3468-3470 sql_escape_text *)
Definition sql_escape_text (text : string) : string := replace squote (squote +:+ squote) text.

Section execution.
Context `{jt : JsonText, ft : FloatText, fd : FloatDisplay, ho : HashOrder, kh : KeyHasher, src : SnapshotSource, side : SidecarSource}.

(** SRC query_runtime/src/lakehouse_serving.rs:3364-3371 normalize_exact_lookup_value *)
Definition normalize_exact_lookup_value (value : Value) : option string :=
  match value with
  | VString text => Some text
  | VNumber number => Some (number_to_string number)
  | VBool boolean => Some (if boolean then "true" else "false")
  | _ => None
  end.

(** A row without the column has a null in it: the column is in the query. *)
(** SRC query_runtime/src/lakehouse_serving.rs:3443-3466 extract_string_column_values *)
Definition extract_string_column_values (batches : list (list Object)) (field_name : string) : outcome (list string) :=
  try_collect (λ value, ok_or (normalize_exact_lookup_value value) (Err ("Field " +:+ field_name +:+ " could not be normalized")))
    (List.filter (λ value, negb (is_null value)) ((λ row, get_or_null field_name row) <$> concat batches)).

(** SRC query_runtime/src/lakehouse_serving.rs:3406-3424= load_exact_lookup_doc_ids, one predicate *)
Definition exact_predicate_sql (predicate : ExactLookupPredicate) : outcome string :=
  values_sql ← try_collect (λ value,
    value ← ok_or (exact_lookup_key_sql_text value) (Err "Exact lookup key was not valid utf-8");
    Ok ("(field_name = '" +:+ sql_escape_text (elp_field predicate) +:+ "' AND field_value = '" +:+ sql_escape_text value +:+ "')")) (elp_values predicate);
  Ok ("(" +:+ join " OR " values_sql +:+ ")").

(** The statement, for the name of the table. *)
Definition doc_ids_sql (predicate_sql : list string) (local_name : string) : string :=
  "SELECT doc_id FROM " +:+ local_name +:+ " WHERE " +:+ join " OR " predicate_sql +:+ " GROUP BY doc_id HAVING COUNT(*) = " +:+
  show_nat (length predicate_sql) +:+ " LIMIT " +:+ show_nat (MAX_EXACT_LOOKUP_DOC_IDS + 1).

(** SRC query_runtime/src/lakehouse_serving.rs:3396-3441 load_exact_lookup_doc_ids *)
Definition load_exact_lookup_doc_ids (extension_file_path : string) (predicates : list ExactLookupPredicate) : outcome (list string) :=
  _ ← load_file_as_table extension_file_path;
  predicate_sql ← try_collect exact_predicate_sql predicates;
  batches ← execute_sql extension_file_path (doc_ids_sql predicate_sql);
  extract_string_column_values batches "doc_id".

(** [.map_err(|error| error.message)] *)
Definition message_of {A} (m : srv A) : outcome A :=
  match m with Ok a => Ok a | Err e => Err (sqe_message e) | Panic r => Panic r end.

(** SRC query_runtime/src/lakehouse_serving.rs:3268-3284= execute_exact_lookup_file, the request *)
Definition with_doc_ids (request : ReadPlan) (doc_ids : list string) : ReadPlan :=
  mkReadPlan (rd_select request) (rd_filters request ++ [mkReadPredicate "_id_seq_no" None (Some (VString <$> doc_ids)) None None None None])
    (rd_aggregate request) (rd_order_by request) (rd_limit request) (rd_offset request) (rd_search_after request) (rd_allow_slow_path request) (rd_explain request).

(** SRC query_runtime/src/lakehouse_serving.rs:3260-3309 execute_exact_lookup_file *)
Definition execute_exact_lookup_file (file : FileDescriptor) (storage : QueryStorageKind) (delete_files : list string) (request : ReadPlan) (limit : nat) (doc_ids : list string) :
    outcome (list Value) :=
  sql ← message_of (build_sql "{target_table}" (with_doc_ids request doc_ids) limit (negb (bool_decide (delete_files = []))));
  batches ← execute_query_plan_batches sql [mkQueryInput file storage []] delete_files;
  Ok (VObject <$> concat batches).

(** The loop over the files; [None] hands the request over to SQL. *)
Fixpoint exact_lookup_loop (predicates : list ExactLookupPredicate) (delete_files : list string) (extension_files : gmap string (list ExtensionFile)) (request : ReadPlan) (limit : nat)
    (rows : list Value) (files_selected : nat) (estimated_bytes : Z) (files : list (FileDescriptor * QueryStorageKind)) : outcome (option ServingExecutionResult) :=
  match files with
  | [] => Ok (Some (mkExecutionResult rows files_selected estimated_bytes [ACCESS_ARTIFACT_KIND_EXACT_INDEX]))
  | (file, storage) :: files =>
      match extension_files !! file_path file ≫= exact_index_extension_file with
      | None => Ok None
      | Some exact_index =>
          doc_ids ← load_exact_lookup_doc_ids (ef_location exact_index) predicates;
          if MAX_EXACT_LOOKUP_DOC_IDS <? length doc_ids then Ok None
          else if decide (doc_ids = []) then exact_lookup_loop predicates delete_files extension_files request limit rows files_selected estimated_bytes files
          else
            new_rows ← execute_exact_lookup_file file storage delete_files request limit doc_ids;
            exact_lookup_loop predicates delete_files extension_files request limit (merge_rows rows new_rows request limit) (S files_selected)
              (wrap_u64 (estimated_bytes + file_size file)) files
      end
  end.

Definition has_exact_index (extension_files : gmap string (list ExtensionFile)) (file : FileDescriptor) : bool :=
  is_some (extension_files !! file_path file ≫= exact_index_extension_file).

(** SRC query_runtime/src/lakehouse_serving.rs:3196-3258 maybe_execute_exact_lookup *)
Definition maybe_execute_exact_lookup (files speedboat_files : list FileDescriptor) (delete_files : list string) (extension_files : gmap string (list ExtensionFile)) (request : ReadPlan)
    (limit : nat) : outcome (option ServingExecutionResult) :=
  match exact_lookup_predicates request with
  | None => Ok None
  | Some predicates =>
      if negb (forallb (has_exact_index extension_files) (files ++ speedboat_files)) then Ok None
      else exact_lookup_loop predicates delete_files extension_files request limit [] 0 0%Z
             (((λ file, (file, Iceberg)) <$> files) ++ ((λ file, (file, Speedboat)) <$> speedboat_files))
  end.

(** ** Exact pruning *)

(** SRC query_runtime/src/lakehouse_serving.rs:801-805 ExactPruningFieldSummary *)
Record ExactPruningFieldSummary : Type := mkFieldSummary { eps_complete : bool; eps_values : gset string }.
Definition ExactPruningSummary : Type := gmap string ExactPruningFieldSummary.

(** SRC query_runtime/src/lakehouse_serving.rs:5436-5440 exact_pruning_extension_file *)
Definition exact_pruning_extension_file (extension_files : list ExtensionFile) : option ExtensionFile :=
  find (λ extension, String.eqb (ef_suffix extension) "exact_pruning") extension_files.

(** One row of the artifact. *)
Definition add_pruning_row (summary : ExactPruningSummary) (row : Object) : ExactPruningSummary :=
  match obj_get "field_name" row ≫= as_str with
  | None => summary
  | Some field_name =>
      let complete := default false (obj_get "complete" row ≫= as_bool) in
      let entry := default (mkFieldSummary false ∅) (summary !! field_name) in
      let complete := if bool_decide (eps_values entry = ∅) && negb (eps_complete entry) then complete else eps_complete entry && complete in
      let values := match obj_get "field_value" row ≫= as_str with Some field_value => {[field_value]} ∪ eps_values entry | None => eps_values entry end in
      <[field_name := mkFieldSummary complete values]> summary
  end.

(** SRC query_runtime/src/lakehouse_serving.rs:5533-5556 exact_pruning_summary_from_rows *)
Definition exact_pruning_summary_from_rows (rows : list Object) : ExactPruningSummary := foldl add_pruning_row ∅ rows.

(** SRC query_runtime/src/lakehouse_serving.rs:5590-5598 render_exact_pruning_value *)
Definition render_exact_pruning_value (value : Value) : option string :=
  match value with
  | VString text => Some text
  | VNumber (PosInt n) | VNumber (NegInt n) => Some (print_int n)
  | VNumber (NFloat f) => Some (display_f64 f)
  | VBool boolean => Some (if boolean then "true" else "false")
  | _ => None
  end.

(** SRC query_runtime/src/lakehouse_serving.rs:5584-5588 exact_pruning_value_matches *)
Definition exact_pruning_value_matches (summary : ExactPruningFieldSummary) (value : Value) : bool :=
  match render_exact_pruning_value value with Some candidate => bool_decide (candidate ∈ eps_values summary) | None => true end.

(** One predicate of the loop below. *)
Definition exact_pruning_predicate_may_match (summary : ExactPruningSummary) (predicate : ReadPredicate) : bool :=
  match summary !! rp_field predicate with
  | None => true
  | Some field_summary =>
      negb (eps_complete field_summary)
      || (match rp_eq predicate with Some eq => exact_pruning_value_matches field_summary eq | None => true end
          && match rp_in_values predicate with Some in_values => existsb (exact_pruning_value_matches field_summary) in_values | None => true end)
  end.

(** SRC query_runtime/src/lakehouse_serving.rs:5558-5582 exact_pruning_summary_may_match_request *)
Definition exact_pruning_summary_may_match_request (summary : ExactPruningSummary) (request : ReadPlan) : bool :=
  forallb (exact_pruning_predicate_may_match summary) (rd_filters request).

(** ** What the process keeps: the snapshots and the summaries *)
(** SRC query_runtime/src/lakehouse_serving.rs:79-80= EXACT_PRUNING_SUMMARY_CACHE *)
Record ServingState : Type := mkServingState { ss_caches : ServingCaches; ss_summaries : gmap string ExactPruningSummary }.

Definition with_status {A} (status : Z) (m : outcome A) : srv A :=
  match m with Ok a => Ok a | Err e => Err (mkServingQueryError status e) | Panic r => Panic r end.

(** SRC query_runtime/src/lakehouse_serving.rs:5487-5531 load_exact_pruning_summary_for_serving *)
Definition load_exact_pruning_summary_for_serving (extension_files : list ExtensionFile) : RST ServingQueryError ServingState (option ExactPruningSummary) := λ s,
  match exact_pruning_extension_file extension_files with
  | None => (Ok None, s)
  | Some extension_file =>
      match ss_summaries s !! ef_location extension_file with
      | Some cached => (Ok (Some cached), s)
      | None =>
          match (_ ← with_status 503 (load_file_as_table (ef_location extension_file));
                 batches ← with_status 422 (execute_sql (ef_location extension_file) (λ local_name, "SELECT field_name, field_value, complete FROM " +:+ local_name));
                 Ok (exact_pruning_summary_from_rows (concat batches))) with
          | Ok summary => (Ok (Some summary), mkServingState (ss_caches s) (<[ef_location extension_file := summary]> (ss_summaries s)))
          | Err e => (Err e, s)
          | Panic r => (Panic r, s)
          end
      end
  end.

(** The loop over the files. *)
Fixpoint exact_pruning_loop (extension_files : gmap string (list ExtensionFile)) (request : ReadPlan) (retained : list FileDescriptor) (used : bool) (files : list FileDescriptor) :
    RST ServingQueryError ServingState (list FileDescriptor * bool) :=
  match files with
  | [] => mret (retained, used)
  | file :: files =>
      match extension_files !! file_path file with
      | None => exact_pruning_loop extension_files request (retained ++ [file]) used files
      | Some extensions =>
          load_exact_pruning_summary_for_serving extensions ≫= λ summary,
          match summary with
          | None => exact_pruning_loop extension_files request (retained ++ [file]) used files
          | Some summary =>
              exact_pruning_loop extension_files request (if exact_pruning_summary_may_match_request summary request then retained ++ [file] else retained) true files
          end
      end
  end.

(** SRC query_runtime/src/lakehouse_serving.rs:5442-5485 prune_execution_files_with_exact_artifact *)
Definition prune_execution_files_with_exact_artifact (files : list FileDescriptor) (extension_files : gmap string (list ExtensionFile)) (request : ReadPlan) :
    RST ServingQueryError ServingState (list FileDescriptor * list string) :=
  if bool_decide (files = []) || negb (request_uses_exact_filters request) then mret (files, [])
  else if negb (forallb (λ file, is_some (extension_files !! file_path file ≫= exact_pruning_extension_file)) files) then mret (files, [])
  else
    exact_pruning_loop extension_files request [] false files ≫= λ '(retained, used),
    mret (retained, if used : bool then [ACCESS_ARTIFACT_KIND_EXACT_PRUNING] else []).

(** ** Plans *)

(** Work on the snapshots, with a failure as an answer of status 422. *)
Definition on_caches {A} (m : ST ServingCaches A) : RST ServingQueryError ServingState A := λ s,
  let '(r, caches) := m (ss_caches s) in (with_status 422 r, mkServingState caches (ss_summaries s)).

(** SRC query_runtime/src/lakehouse_serving.rs:1416-1517 execute_plan *)
Definition execute_plan `{CompletionOrder} (checkpoint_key : string) (exact_artifact : option SnapshotExactLookupArtifact) (artifact : option SnapshotLookupArtifact)
    (files speedboat_files : list FileDescriptor) (delete_files : list string) (file_stats : gmap string IcebergFileStats) (extension_files : gmap string (list ExtensionFile))
    (sort_order : list IcebergSortField) (request : ReadPlan) (sql : string) (limit : nat) : RST ServingQueryError ServingState ServingExecutionResult :=
  if limit =? 0 then mret (mkExecutionResult [] 0 0 [])
  else
    on_caches (maybe_execute_snapshot_lookup checkpoint_key exact_artifact artifact files speedboat_files delete_files request limit) ≫= λ found,
    match found with
    | Some result => mret result
    | None =>
        rst_lift (with_status 422 (maybe_execute_exact_lookup files speedboat_files delete_files extension_files request limit)) ≫= λ found,
        match found with
        | Some result => mret result
        | None =>
            prune_execution_files_with_exact_artifact files extension_files request ≫= λ '(files, used),
            prune_execution_files_with_exact_artifact speedboat_files extension_files request ≫= λ '(speedboat_files, speedboat_used),
            let artifacts_used := foldl push_unique_string used speedboat_used in
            let estimated_bytes := total_size (files ++ speedboat_files) in
            let finished rows := mkExecutionResult rows (length files + length speedboat_files) estimated_bytes artifacts_used in
            let in_parallel :=
              rst_lift (execute_parallel_plan files speedboat_files delete_files request sql limit) ≫= λ rows, mret (finished rows) in
            if is_some (rd_aggregate request) then
              rst_lift (execute_aggregate_plan files speedboat_files delete_files request limit) ≫= λ rows, mret (finished rows)
            else if negb (bool_decide (speedboat_files = [])) then in_parallel
            else match rd_order_by request with
                 | [] => in_parallel
                 | sort :: _ =>
                     match ordered_file_groups_for_top_k files file_stats sort_order request (rs_field sort) (rs_descending sort) with
                     | None => in_parallel
                     | Some ordered_groups =>
                         rst_lift (execute_ordered_top_k_plan ordered_groups delete_files request sql limit) ≫= λ rows, mret (finished rows)
                     end
                 end
        end
    end.

(** The same for callers that want the message only, over the snapshots alone. *)
(** SRC query_runtime/src/lakehouse_serving.rs:1519-1576 execute_checkpoint_exact_lookup_rows *)
Definition execute_checkpoint_exact_lookup_rows `{CompletionOrder} (checkpoint : TableMetadataCheckpoint) (request : ReadPlan) : ST ServingCaches (option (list Value)) :=
  execute_checkpoint_point_lookup_rows checkpoint request ≫= λ found,
  match found with
  | Some rows => mret (Some rows)
  | None =>
      st_lift (inputs ← checkpoint_inputs checkpoint;
               let limit := normalized_limit request DEFAULT_LIMIT MAX_LIMIT in
               result ← maybe_execute_exact_lookup (in_files inputs) (in_speedboat_files inputs) (in_delete_files inputs) (in_extension_files inputs) request limit;
               match result with
               | Some result => Ok (Some (xr_rows result))
               | None =>
                   sql ← message_of (build_sql "{target_table}" request limit (negb (bool_decide (in_delete_files inputs = []))));
                   rows ← message_of (if is_some (rd_aggregate request)
                                      then execute_aggregate_plan (in_files inputs) (in_speedboat_files inputs) (in_delete_files inputs) request limit
                                      else execute_parallel_plan (in_files inputs) (in_speedboat_files inputs) (in_delete_files inputs) request sql limit);
                   Ok (Some rows)
               end)
  end.

(** SRC query_runtime/src/lakehouse_serving.rs:1856-1884 execute_checkpoint_exact_id_lookup_rows *)
Definition execute_checkpoint_exact_id_lookup_rows `{CompletionOrder} (checkpoint : TableMetadataCheckpoint) (doc_ids : list string) : ST ServingCaches (option (list Value)) :=
  if decide (doc_ids = []) then mret (Some [])
  else execute_checkpoint_exact_lookup_rows checkpoint
         (mkReadPlan None [mkReadPredicate "_id" None (Some (VString <$> doc_ids)) None None None None] None [] (Some (length doc_ids)) 0 None true false).

(** ** Queries *)

Section queries.
Context {W : Type} `{provider : StateProvider W} (iceberg_table_metadata_cache_contains : string → string → Z → bool) (metadata_cache : gmap string nat).

(** A read of the provider that has to find something. *)
Definition require {A} (m : outcome (option A)) (status : Z) (missing : string) : srv A :=
  match m with
  | Ok (Some a) => Ok a
  | Ok None => Err (mkServingQueryError status missing)
  | Err e => Err (mkServingQueryError 503 e)
  | Panic r => Panic r
  end.

(** The file tuples of a set panic or succeed. *)
Definition no_error {E A} (m : outcome A) : result E A := match m with Ok a => Ok a | Err e => Panic e | Panic r => Panic r end.

(** SRC query_runtime/src/lakehouse_serving.rs:1191-1316 load_serving_context *)
Definition load_serving_context (w : W) (table_name : string) : srv ServingExecutionContext :=
  description ← require (sp_describe_table w table_name) 404 "Table not found";
  checkpoint_id ← require (sp_get_published_active_servable_checkpoint w (td_name description)) 404 "No checkpoint available for table";
  checkpoint ← require (sp_get_checkpoint w (new_descriptor (td_name description) checkpoint_id)) 404 "Checkpoint metadata was not found";
  iceberg_metadata ← ok_or (cp_iceberg_metadata checkpoint) (Err (mkServingQueryError 422 "Serving queries currently require Iceberg-backed storage"));
  files ← no_error (as_file_tuples (im_files iceberg_metadata));
  speedboat_files ← no_error (match cp_speedboat_metadata checkpoint with Some metadata => as_file_tuples (sm_files metadata) | None => Ok [] end);
  let delete_files := match cp_deletes_metadata checkpoint with Some metadata => dm_files metadata | None => [] end in
  let file_stats := collect ((λ stats, (fst_file_path stats, stats)) <$> im_file_stats iceberg_metadata) in
  let extension_files := flatten_extension_files checkpoint in
  let exact_artifact_fields := exact_artifact_fields (im_table_schema iceberg_metadata) in
  let serving := default (mkServingTableConfig []) (td_serving description) in
  let access_artifacts := append_exact_sidecar_artifacts (im_access_artifacts iceberg_metadata) (files ++ speedboat_files) extension_files exact_artifact_fields in
  let access_artifacts := append_secondary_pattern_artifacts access_artifacts serving (im_sort_order iceberg_metadata) in
  let metadata_snapshot_cached :=
    match im_snapshot_id iceberg_metadata ≫= parse_i64 with
    | Some snapshot_id => iceberg_table_metadata_cache_contains "default" table_name snapshot_id
    | None => false
    end in
  Ok (mkServingContext description (new_descriptor table_name checkpoint_id) (im_table_schema iceberg_metadata) files speedboat_files delete_files file_stats
        (im_partition_spec iceberg_metadata) (im_sort_order iceberg_metadata) access_artifacts extension_files exact_artifact_fields (im_snapshot_id iceberg_metadata)
        metadata_snapshot_cached).

(** The answer; the counters that are copied from the plan are the plan's, and the
    statistics of the bulk cache are left out. *)
(** SRC query_runtime/src/lakehouse_serving.rs:89-134 ServingQueryResponse *)
Record ServingQueryResponse : Type := mkQueryResponse {
  qr_table : string;
  qr_snapshot_id : option string;
  qr_plan : ServingPlan;
  qr_reason : option string;
  qr_files_selected : nat;
  qr_estimated_bytes : Z;
  qr_artifacts_used : list string;
  qr_rows : list Value;
}.

(** An answer that is only the plan. *)
Definition plan_response (context : ServingExecutionContext) (plan : ServingPlan) (reason : option string) : ServingQueryResponse :=
  mkQueryResponse (td_name (sx_description context)) (sx_snapshot_id context) plan reason (pl_files_selected plan) (pl_estimated_bytes plan) (pl_artifacts_used plan) [].

(** SRC query_runtime/src/lakehouse_serving.rs:1040-1189 execute_serving_query *)
Definition execute_serving_query `{CompletionOrder} (w : W) (table_name : string) (request : ServingRequestPlan) : RST ServingQueryError ServingState ServingQueryResponse :=
  rst_lift (load_serving_context w table_name) ≫= λ context,
  rst_lift (validate_request request (sx_schema context)) ≫= λ _,
  let read_plan := read_plan request in
  rst_lift (plan_request metadata_cache context read_plan) ≫= λ plan,
  if rd_explain read_plan then mret (plan_response context plan (pl_reason plan))
  else if decide (pl_classification plan = Rejected) then mret (plan_response context plan (pl_reason plan))
  else if bool_decide (pl_classification plan = SlowPath) && negb (rd_allow_slow_path read_plan)
  then mret (plan_response context plan (Some "Query requires slow path. Set allow_slow_path=true to execute it"))
  else
    execute_plan (checkpoint_cache_key (sx_checkpoint context)) (snapshot_exact_lookup_artifact (cd_checkpoint_id (sx_checkpoint context)) (sx_extension_files context))
      (snapshot_lookup_artifact (cd_checkpoint_id (sx_checkpoint context)) (sx_extension_files context)) (pl_selected_files plan) (sx_speedboat_files context)
      (sx_delete_files context) (sx_file_stats context) (sx_extension_files context) (sx_sort_order context) read_plan (pl_sql plan) (pl_limit plan) ≫= λ execution,
    let rows := if decide (rd_order_by read_plan = []) then take (pl_limit plan) (xr_rows execution) else xr_rows execution in
    mret (mkQueryResponse (td_name (sx_description context)) (sx_snapshot_id context) plan (pl_reason plan) (xr_files_selected execution) (xr_estimated_bytes execution)
            (foldl push_unique_string (pl_artifacts_used plan) (xr_artifacts_used execution)) rows).
End queries.
End execution.
