(* ===== verification/ExactTheory.v ===== *)
(** * The exact sidecars are right (query_runtime/src/elastic_search_index.rs, lakehouse_serving.rs)

    What the writers of the exact sidecars store is what the readers rely on: a document
    is hit as often as a request has predicates exactly when it satisfies all of them, and
    a summary that is complete names every value of its field.  So neither the index nor
    the summary loses a matching row. *)

From S2P Require Import Prelude Text Bytes StableSort Schema Json JsonText FileSet Contract QueryPath Float Pruning Planner SnapshotCodec SnapshotLookup SnapshotServing TopK Aggregates ExactSidecars Provider ServingExec.

Module ExactTheory.

Definition count {A} (p : A → bool) (l : list A) : nat := length (List.filter p l).
Definition b2n (b : bool) : nat := if b then 1 else 0.

Lemma bool_filter_sublist {A} (p : A → bool) l : List.filter p l `sublist_of` l.
Proof. induction l as [|x l IH]; simpl; [constructor|]. case_match; by constructor. Qed.

Lemma count_cons {A} (p : A → bool) x l : count p (x :: l) = b2n (p x) + count p l.
Proof. rw /count. simpl. by destruct (p x). Qed.

Lemma count_app {A} (p : A → bool) a b : count p (a ++ b) = count p a + count p b.
Proof. by rw /count List.filter_app length_app. Qed.

Lemma count_fmap {A B} (f : A → B) (p : B → bool) l : count p (f <$> l) = count (λ x, p (f x)) l.
Proof. induction l as [|x l IH]; [done|]. rw fmap_cons !count_cons. by rw IH. Qed.

Lemma count_filter {A} (p : A → bool) (P : A → Prop) `{∀ x, Decision (P x)} l : count p (filter P l) = count (λ x, bool_decide (P x) && p x) l.
Proof. induction l as [|x l IH]; [done|]. rw filter_cons count_cons. case_decide; [rw bool_decide_true //= count_cons IH //|rw bool_decide_false //= IH //]. Qed.

Lemma count_zero {A} (p : A → bool) l : (∀ x, x ∈ l → p x = false) → count p l = 0.
Proof. induction l as [|x l IH]; intros Hp; [done|]. rw count_cons Hp; [left|]. apply IH. intros y Hy. apply Hp. by right. Qed.

Lemma count_all {A} (p : A → bool) l : count p l = length l ↔ forallb p l = true.
Proof.
  induction l as [|x l IH]; [done|]. rw count_cons /= andb_true_iff -IH. assert (Hle : count p l ≤ length l) by (rw /count; clear IH; induction l as [|y l IH]; simpl; [done|]; case_match; simpl; lia).
  destruct (p x); simpl; split; try lia; try naive_solver lia.
Qed.

Lemma count_unique {A B} `{EqDecision B} (key : A → B) (q : A → bool) l x : NoDup (key <$> l) → x ∈ l → count (λ y, bool_decide (key y = key x) && q y) l = b2n (q x).
Proof.
  induction l as [|y l IH]; [by intros _ ?%not_elem_of_nil|]. rw fmap_cons NoDup_cons count_cons. intros [Hy Hn] [->|Hx]%elem_of_cons.
  - rw bool_decide_true //= count_zero; [|lia]. intros z Hz. rw bool_decide_false //. intros Heq. apply Hy. rw -Heq. by apply list_elem_of_fmap_2.
  - rw IH // bool_decide_false //=. intros Heq. apply Hy. rw Heq. by apply list_elem_of_fmap_2.
Qed.

(** ** The index *)

Section index.
Context `{ct : CastText} (table : Table) (id_field : string).

Definition row_id (row : Object) : option string := as_str (get_or_null id_field row).

(** The texts a predicate asks for. *)
Definition predicate_texts (predicate : ExactLookupPredicate) : list string := omap exact_lookup_key_sql_text (elp_values predicate).

(** The WHERE clause of the query for documents, on a row of the index. *)
Definition index_row_matches (predicates : list ExactLookupPredicate) (row : IndexRow) : bool :=
  existsb (λ predicate, bool_decide (elp_field predicate = ix_field_name row) && bool_decide (ix_field_value row ∈ predicate_texts predicate)) predicates.

(** The count of the group of a document. *)
Definition index_hits (predicates : list ExactLookupPredicate) (index : list IndexRow) (d : string) : nat :=
  count (λ row, bool_decide (as_str (ix_doc_id row) = Some d) && index_row_matches predicates row) index.

(** A row of the table satisfies a predicate: it has a value, and the value has one of the
    texts. *)
Definition text_matches (row : Object) (predicate : ExactLookupPredicate) : bool :=
  negb (is_null (get_or_null (elp_field predicate) row)) && bool_decide (cast_text (get_or_null (elp_field predicate) row) ∈ predicate_texts predicate).

Hypothesis Hids : NoDup (row_id <$> t_rows table).

Lemma field_hits predicates field row d : row ∈ t_rows table → row_id row = Some d →
  index_hits predicates (field_index_rows table id_field field) d =
  b2n (negb (is_null (get_or_null field row)) && index_row_matches predicates (mkIndexRow (get_or_null id_field row) field (cast_text (get_or_null field row)))).
Proof.
  intros Hrow Hd. rw /index_hits /field_index_rows count_fmap count_filter.
  rw -(count_unique row_id (λ row, negb (is_null (get_or_null field row)) && index_row_matches predicates (mkIndexRow (get_or_null id_field row) field (cast_text (get_or_null field row)))) (t_rows table) row Hids Hrow).
  rw /count. f_equal. apply List.filter_ext. intros x. rw /= Hd. fold (row_id x). destruct (is_null (get_or_null field x)); simpl; [by rw andb_false_r|done].
Qed.

Lemma fields_hits predicates fields row d : row ∈ t_rows table → row_id row = Some d →
  index_hits predicates (fields ≫= field_index_rows table id_field) d =
  count (λ field, negb (is_null (get_or_null field row)) && index_row_matches predicates (mkIndexRow (get_or_null id_field row) field (cast_text (get_or_null field row)))) fields.
Proof.
  intros Hrow Hd. induction fields as [|field fields IH]; [done|]. rw bind_cons count_cons -IH -(field_hits predicates field row d Hrow Hd). apply count_app.
Qed.

(** Each satisfied predicate is one hit. *)
Lemma hits_are_predicates predicates row d : NoDup (elp_field <$> predicates) → NoDup (t_columns table).*1 →
  (∀ predicate, predicate ∈ predicates → elp_field predicate ∈ exact_fields table id_field) → row ∈ t_rows table → row_id row = Some d →
  index_hits predicates (exact_fields table id_field ≫= field_index_rows table id_field) d = count (text_matches row) predicates.
Proof.
  intros Hp Hc Hin Hrow Hd. rw (fields_hits predicates _ row d Hrow Hd). rw /count -(length_fmap elp_field). apply Permutation_length, NoDup_Permutation.
  - apply (sublist_NoDup _ (t_columns table).*1); [done|]. etrans; [apply bool_filter_sublist|]. apply fmap_sublist, sublist_filter.
  - apply (sublist_NoDup _ (elp_field <$> predicates)); [done|]. apply fmap_sublist, bool_filter_sublist.
  - intros field. rw list_elem_of_In List.filter_In -list_elem_of_In list_elem_of_fmap andb_true_iff. rw /index_row_matches existsb_exists. cbn [ix_field_name ix_field_value]. split.
    + intros (Hf & Hnn & predicate & Hpr%list_elem_of_In & [<-%bool_decide_eq_true Ht]%andb_true_iff). exists predicate. split; [done|]. rw list_elem_of_In List.filter_In -list_elem_of_In /text_matches Hnn. done.
    + intros (predicate & -> & Hpr). rw list_elem_of_In List.filter_In -list_elem_of_In /text_matches andb_true_iff in Hpr. destruct Hpr as (Hpr & Hnn & Ht). split; [by apply Hin|]. split; [done|].
      exists predicate. split; [by apply list_elem_of_In|]. rw bool_decide_true //.
Qed.

(** Counting the hits decides the conjunction of the predicates. *)
Lemma hits_decide predicates row d : NoDup (elp_field <$> predicates) → NoDup (t_columns table).*1 →
  (∀ predicate, predicate ∈ predicates → elp_field predicate ∈ exact_fields table id_field) → row ∈ t_rows table → row_id row = Some d →
  index_hits predicates (exact_fields table id_field ≫= field_index_rows table id_field) d = length predicates ↔ forallb (text_matches row) predicates = true.
Proof. intros. rw (hits_are_predicates predicates row d) //. apply count_all. Qed.
End index.

(** ** The summary *)

Section summary.
Context `{ct : CastText, !CastTextLaws ct, fd : FloatDisplay, co : CompletionOrder}.

(** The rows of a summary about a field. *)
Definition about (field : string) (row : Object) : bool := bool_decide (obj_get "field_name" row ≫= as_str = Some field).

(** One row, as an update of the entry of its field. *)
Definition add_entry (entry : option ExactPruningFieldSummary) (row : Object) : option ExactPruningFieldSummary :=
  let complete := default false (obj_get "complete" row ≫= as_bool) in
  let entry := default (mkFieldSummary false ∅) entry in
  Some (mkFieldSummary (if bool_decide (eps_values entry = ∅) && negb (eps_complete entry) then complete else eps_complete entry && complete)
          (match obj_get "field_value" row ≫= as_str with Some v => {[v]} ∪ eps_values entry | None => eps_values entry end)).

Lemma summary_of_field rows summary field : foldl add_pruning_row summary rows !! field = foldl add_entry (summary !! field) (List.filter (about field) rows).
Proof.
  revert summary. induction rows as [|row rows IH]; intros summary; [done|]. cbn [foldl List.filter]. rw IH /add_pruning_row /about.
  destruct (obj_get "field_name" row ≫= as_str) as [name|]; [|done]. destruct (decide (name = field)) as [->|Hne].
  - rw (bool_decide_true (Some field = Some field)) //. cbn [foldl]. f_equal. by rw lookup_insert_eq.
  - rw (bool_decide_false (Some name = Some field)); [naive_solver|]. f_equal. by rw lookup_insert_ne.
Qed.

Lemma complete_entries field values acc : (∃ vs, acc = Some (mkFieldSummary true vs) ∧ vs ≠ ∅) ∨ acc = None →
  values ≠ [] ∨ acc ≠ None → foldl add_entry acc ((λ v, pruning_row field (VString v) true) <$> values) =
  Some (mkFieldSummary true (list_to_set values ∪ match acc with Some e => eps_values e | None => ∅ end)).
Proof.
  revert acc. induction values as [|v values IH]; intros acc Hacc Hne.
  { destruct Hacc as [(vs & -> & _)| ->]; [|by destruct Hne]. cbn. do 2 f_equal. set_solver. }
  rw fmap_cons. cbn [foldl]. assert (Hstep : add_entry acc (pruning_row field (VString v) true) = Some (mkFieldSummary true ({[v]} ∪ match acc with Some e => eps_values e | None => ∅ end))).
  { destruct Hacc as [(vs & -> & Hvs)| ->]; [|done]. rw /add_entry. cbn [default eps_values eps_complete from_option]. by rw (bool_decide_false (vs = ∅)). }
  rw Hstep IH; [left; eexists; split; [done|set_solver]|by right|]. cbn [eps_values]. do 2 f_equal. cbn [list_to_set]. by rw union_assoc_L (union_comm_L (list_to_set values)).
Qed.

(** The values of a field in the order the engine groups them. *)
Definition all_values (table : Table) (field : string) : list string :=
  cast_text <$> complete (group_values (filter (λ value, is_null value = false) (get_or_null field <$> t_rows table))).

Lemma about_field table field : List.filter (about field) (field_pruning_rows table field) = field_pruning_rows table field.
Proof.
  assert (Hrow : ∀ v c, about field (pruning_row field v c) = true) by (intros; by rw /about bool_decide_true). rw /field_pruning_rows. case_match; [cbn [List.filter]; by rw Hrow|]. case_decide; [cbn [List.filter]; by rw Hrow|].
  generalize (exact_pruning_field_values table field) as vs. induction vs as [|v vs IH]; [done|]. rw fmap_cons. cbn [List.filter]. by rw Hrow IH.
Qed.

Lemma about_other table field field' : field ≠ field' → List.filter (about field) (field_pruning_rows table field') = [].
Proof.
  intros Hne. assert (Hrow : ∀ v c, about field (pruning_row field' v c) = false) by (intros; rw /about bool_decide_false //=; naive_solver). rw /field_pruning_rows. case_match; [cbn [List.filter]; by rw Hrow|].
  case_decide; [cbn [List.filter]; by rw Hrow|]. generalize (exact_pruning_field_values table field') as vs. induction vs as [|v vs IH]; [done|]. rw fmap_cons. cbn [List.filter]. by rw Hrow IH.
Qed.

Lemma about_fields table field fields : NoDup fields → field ∈ fields → List.filter (about field) (fields ≫= field_pruning_rows table) = field_pruning_rows table field.
Proof.
  induction fields as [|f fields IH]; [by intros _ ?%not_elem_of_nil|]. rw bind_cons List.filter_app NoDup_cons. intros [Hf Hn] [->|Hin]%elem_of_cons.
  - rw about_field. assert (Hnone : List.filter (about f) (fields ≫= field_pruning_rows table) = []); [|by rw Hnone app_nil_r].
    clear IH Hn. induction fields as [|g fields IH]; [done|]. rw bind_cons List.filter_app about_other; [set_solver|]. apply IH. set_solver.
  - rw about_other; [by intros ->|]. by apply IH.
Qed.

(** What is read back for a field, in whatever order the rows are stored: all its values,
    or nothing that counts as complete. *)
Lemma summary_read_back table fields rows field : NoDup fields → field ∈ fields → rows ≡ₚ fields ≫= field_pruning_rows table → ∃ summary,
  exact_pruning_summary_from_rows rows !! field = Some summary ∧ (eps_complete summary = true → eps_values summary = list_to_set (all_values table field)).
Proof.
  intros Hn Hin Hp. rw /exact_pruning_summary_from_rows summary_of_field lookup_empty.
  assert (Hrows : List.filter (about field) rows ≡ₚ field_pruning_rows table field).
  { rw -(about_fields table field fields Hn Hin). by apply bool_filter_perm. }
  revert Hrows. rw /field_pruning_rows. set (vs := exact_pruning_field_values table field). destruct (Nat.ltb_spec EXACT_PRUNING_VALUE_LIMIT (length vs)) as [_|Hle].
  { intros ->%Permutation_singleton_r. by eexists. }
  assert (Hall : vs = all_values table field). { rw /vs /exact_pruning_field_values take_ge //. rw /vs /exact_pruning_field_values length_take in Hle. fold (all_values table field) in Hle |- *. lia. }
  case_decide as Hempty; [intros ->%Permutation_singleton_r; eexists; split; [done|]; by rw -Hall Hempty|].
  intros Hrows. assert (∃ ws, ws ≡ₚ vs ∧ List.filter (about field) rows = (λ value, pruning_row field (VString value) true) <$> ws) as (ws & Hws & ->).
  { apply Permutation_map_inv in Hrows as (ws & Hw & Hp'). exists ws. by split; [symmetry|]. }
  rw complete_entries; [by right|left; intros ->; apply Hempty; by apply Permutation_nil_l in Hws|]. eexists. split; [done|]. intros _. cbn. by rw union_empty_r_L Hws Hall.
Qed.
End summary.
End ExactTheory.
