(* ===== verification/ServingExecTheory.v ===== *)
(** * Serving queries return the matching rows (query_runtime/src/lakehouse_serving.rs)

    The ways to answer a request, put together: the files the planner and the exact
    summaries leave are those that can have an answer, SQL or the exact indexes answer
    over them, and what is returned is an answer over all files of the table: rows that
    match, as many as there are up to the limit, and for an ordered request the best. *)

From S2P Require Import Prelude Text Bytes StableSort Schema Json JsonText FileSet Contract Checkpoint QueryPath Float Pruning Planner SnapshotCodec SnapshotLookup SnapshotLookupTheory SnapshotServing.
From S2P Require Import TopK TopKTheory Aggregates ExactSidecars Provider ServingExec ExactTheory.

Module ServingExecTheory.
Import SnapshotLookupTheory TopKTheory ExactTheory PruningTheory.

(** ** Values and their texts *)

Section texts.
Context `{ct : CastText, !CastTextLaws ct, ft : FloatText, fd : FloatDisplay, co : CompletionOrder}.

(** A row has a value under a field whose text is that of the literal, both as the
    summaries and as the indexes write the literal. *)
Definition has_text (row : Object) (field : string) (literal : Value) : Prop :=
  get_or_null field row ≠ VNull ∧ render_exact_pruning_value literal = Some (cast_text (get_or_null field row)) ∧
  encode_exact_lookup_key literal ≫= exact_lookup_key_sql_text = Some (cast_text (get_or_null field row)).

(** Strings, booleans and integers have the text of the literal they are equal to. *)
Lemma equal_has_text row field literal :
  match literal with VString s => utf8_valid s = true | VBool _ | VNumber (PosInt _) | VNumber (NegInt _) => True | _ => False end →
  get_or_null field row = literal → has_text row field literal.
Proof.
  intros Hl Hv. rw /has_text Hv. destruct literal as [|b|n|s| |]; try done.
  - rw cast_bool. split_and!; [done|done|]. by destruct b.
  - destruct n as [n|n|f]; [rw cast_pos|rw cast_neg|done]; (split_and!; [done|done|]); by rw /= print_int_utf8.
  - rw cast_string. split_and!; [done|done|]. by rw /= Hl.
Qed.

(** A row satisfies the exact filters of a request by text. *)
Definition texts_match (request : ReadPlan) (row : Object) : Prop :=
  ∀ filter, filter ∈ rd_filters request →
    (∀ x, rp_eq filter = Some x → has_text row (rp_field filter) x) ∧ (∀ xs, rp_in_values filter = Some xs → ∃ x, x ∈ xs ∧ has_text row (rp_field filter) x).

Lemma group_values_acc (values seen : list Value) w : w ∈ seen → w ∈ foldl (λ seen value, if existsb (value_eqb value) seen then seen else seen ++ [value]) seen values.
Proof. revert seen. induction values as [|v values IH]; intros seen Hw; [done|]. cbn [foldl]. apply IH. case_match; [done|]. apply elem_of_app. by left. Qed.

Lemma group_values_cover (values seen : list Value) v : v ∈ values → ∃ w, w ∈ foldl (λ seen value, if existsb (value_eqb value) seen then seen else seen ++ [value]) seen values ∧ cast_text w = cast_text v.
Proof.
  revert seen. induction values as [|u values IH]; intros seen; [by intros ?%not_elem_of_nil|]. intros [->|Hv]%elem_of_cons; cbn [foldl]; [|by apply IH].
  destruct (existsb (value_eqb u) seen) eqn:He.
  - apply existsb_exists in He as (w & Hw%list_elem_of_In & Heq). exists w. split; [by apply group_values_acc|]. symmetry. by apply cast_equal.
  - exists u. split; [|done]. apply group_values_acc, elem_of_app. right. by left.
Qed.

(** Every value of a file is among the values of its summary. *)
Lemma value_listed table row field : row ∈ t_rows table → get_or_null field row ≠ VNull → cast_text (get_or_null field row) ∈ all_values table field.
Proof.
  intros Hrow Hnn. rw /all_values. set (values := filter (λ value, is_null value = false) (get_or_null field <$> t_rows table)).
  assert (Hv : get_or_null field row ∈ values). { apply list_elem_of_filter. split; [by destruct (get_or_null field row)|]. by apply (list_elem_of_fmap_2 (get_or_null field)). }
  destruct (group_values_cover values [] _ Hv) as (w & Hw & <-). apply list_elem_of_fmap_2. by rw complete_perm.
Qed.

Lemma unsummarised table fields rows field : field ∉ fields → rows ≡ₚ fields ≫= field_pruning_rows table → exact_pruning_summary_from_rows rows !! field = None.
Proof.
  intros Hf Hp. rw /exact_pruning_summary_from_rows summary_of_field lookup_empty. assert (Hnone : List.filter (about field) rows = []); [|by rw Hnone].
  apply Permutation_nil_r. rw (bool_filter_perm _ _ _ Hp). clear Hp. induction fields as [|f fields IH]; [done|]. apply not_elem_of_cons in Hf as [Hne Hf].
  rw bind_cons List.filter_app about_other // IH //.
Qed.

(** A summary read back from what was written does not rule out a row of the file. *)
Lemma summary_may_match table fields rows request row : NoDup fields → rows ≡ₚ fields ≫= field_pruning_rows table → row ∈ t_rows table → texts_match request row →
  exact_pruning_summary_may_match_request (exact_pruning_summary_from_rows rows) request = true.
Proof.
  intros Hn Hp Hrow Ht. apply forallb_forall. intros f Hf%list_elem_of_In. destruct (Ht f Hf) as [Heq Hin]. rw /exact_pruning_predicate_may_match.
  destruct (decide (rp_field f ∈ fields)) as [Hfield|Hfield]; [|by rw (unsummarised table fields rows (rp_field f) Hfield Hp)].
  destruct (summary_read_back table fields rows (rp_field f) Hn Hfield Hp) as (summary & -> & Hvalues). destruct (eps_complete summary); [|done]. cbn [negb orb].
  assert (Hm : ∀ x, has_text row (rp_field f) x → exact_pruning_value_matches summary x = true).
  { intros x (Hnn & Hx & _). rw /exact_pruning_value_matches Hx Hvalues // bool_decide_true // elem_of_list_to_set. by apply value_listed. }
  destruct (rp_eq f) as [x|]; [rw Hm; [by apply Heq|]|]; cbn [andb]; (destruct (rp_in_values f) as [xs|]; [|done]); destruct (Hin xs eq_refl) as (x' & Hx' & Hxt);
    apply existsb_exists; exists x'; (split; [by apply list_elem_of_In|by apply Hm]).
Qed.
End texts.

(** ** The files that remain *)

Section execution.
Context `{jt : JsonText, !JsonTextLaws jt, ft : FloatText, fd : FloatDisplay, ho : HashOrder, kh : KeyHasher, src : SnapshotSource, side : SidecarSource}.
Context `{ct : CastText, !CastTextLaws ct, co : CompletionOrder}.

(** The files as tables, and the files the sidecars were written for. *)
Context (table_of : FileDescriptor → Table) (indexed : string → Table) (id_field : string).

(** The summary at a location was written for its table, and reading it returns the rows
    that were written, in some order. *)
Definition pruning_sidecar (location : string) : Prop :=
  load_file_as_table location = Ok () ∧ NoDup (t_columns (indexed location)).*1 ∧
  ∃ batches rows, execute_sql location (λ local_name, "SELECT field_name, field_value, complete FROM " +:+ local_name) = Ok batches ∧
    create_exact_pruning_worker (indexed location) id_field = Some rows ∧ concat batches ≡ₚ rows.

Definition summary_right (location : string) (summary : ExactPruningSummary) : Prop :=
  ∃ rows rows', create_exact_pruning_worker (indexed location) id_field = Some rows ∧ rows' ≡ₚ rows ∧ summary = exact_pruning_summary_from_rows rows'.

(** The summaries kept are those of their locations. *)
Definition summaries_ok (s : ServingState) : Prop := ∀ location summary, ss_summaries s !! location = Some summary → summary_right location summary.

(** The sidecars of a file were written for it. *)
Definition file_pruning_ok (extension_files : gmap string (list ExtensionFile)) (file : FileDescriptor) : Prop :=
  ∀ extensions extension, extension_files !! file_path file = Some extensions → exact_pruning_extension_file extensions = Some extension →
    indexed (ef_location extension) = table_of file ∧ pruning_sidecar (ef_location extension).

Lemma load_summary extensions extension s : exact_pruning_extension_file extensions = Some extension → pruning_sidecar (ef_location extension) → summaries_ok s → ∃ summary s',
  load_exact_pruning_summary_for_serving extensions s = (Ok (Some summary), s') ∧ summary_right (ef_location extension) summary ∧ summaries_ok s' ∧ ss_caches s' = ss_caches s.
Proof.
  intros Hext (Hload & _ & batches & rows & Hsql & Hw & Hp) Hs. rw /load_exact_pruning_summary_for_serving Hext. destruct (ss_summaries s !! ef_location extension) as [summary|] eqn:Hc.
  { exists summary, s. split_and!; [done|by apply Hs|done|done]. }
  rw Hload /= Hsql /=. assert (Hr : summary_right (ef_location extension) (exact_pruning_summary_from_rows (concat batches))) by (by exists rows, (concat batches)).
  do 2 eexists. split_and!; [done|done| |done]. intros location summary. cbn [ss_summaries]. destruct (decide (location = ef_location extension)) as [->|Hne]; [rw lookup_insert_eq; by intros [= <-]|].
  rw lookup_insert_ne; [by apply not_eq_sym|]. apply Hs.
Qed.

Lemma summary_right_keeps location summary request row : NoDup (t_columns (indexed location)).*1 → summary_right location summary → row ∈ t_rows (indexed location) → texts_match request row →
  exact_pruning_summary_may_match_request summary request = true.
Proof.
  intros Hc (rows & rows' & Hw & Hp & ->) Hrow Ht. rw /create_exact_pruning_worker in Hw. case_decide; [done|]. injection Hw as <-.
  apply (summary_may_match (indexed location) (exact_fields (indexed location) id_field) rows' request row); [|done..].
  apply (sublist_NoDup _ (t_columns (indexed location)).*1); [done|]. apply fmap_sublist, sublist_filter.
Qed.

(** Some of the files that are hopeless are left out, the others stay in order. *)
Inductive pruned_to (hopeless : FileDescriptor → Prop) : list FileDescriptor → list FileDescriptor → Prop :=
| pruned_nil : pruned_to hopeless [] []
| pruned_keep file files kept : pruned_to hopeless files kept → pruned_to hopeless (file :: files) (file :: kept)
| pruned_drop file files kept : hopeless file → pruned_to hopeless files kept → pruned_to hopeless (file :: files) kept.

Lemma pruned_refl hopeless files : pruned_to hopeless files files.
Proof. induction files; by constructor. Qed.

Lemma pruned_mono (h h' : FileDescriptor → Prop) files kept : (∀ file, h file → h' file) → pruned_to h files kept → pruned_to h' files kept.
Proof. intros Hh. induction 1; constructor; auto. Qed.

Lemma pruned_subset h files kept file : pruned_to h files kept → file ∈ kept → file ∈ files.
Proof. induction 1 as [|f files kept _ IH|f files kept _ _ IH]; rw ?elem_of_cons; naive_solver. Qed.

Lemma pruned_filter (h : FileDescriptor → Prop) (p : FileDescriptor → bool) files : (∀ file, file ∈ files → p file = false → h file) → pruned_to h files (filter (λ file, p file = true) files).
Proof.
  induction files as [|f files IH]; intros Hh; [constructor|]. assert (IH' := IH (λ g Hg, Hh g (list_elem_of_further _ _ _ Hg))). rw filter_cons.
  case_decide as Hf; [by constructor|]. constructor; [|done]. apply Hh; [left|by apply not_true_is_false].
Qed.

(** A file is hopeless when no row of it satisfies the request. *)
Definition hopeless (request : ReadPlan) (file : FileDescriptor) : Prop := ∀ row, row ∈ t_rows (table_of file) → ¬ texts_match request row.

Lemma pruning_loop_sound extension_files request files retained used s : (∀ file, file ∈ files → file_pruning_ok extension_files file) → summaries_ok s → ∃ kept used' s',
  exact_pruning_loop extension_files request retained used files s = (Ok (retained ++ kept, used'), s') ∧ summaries_ok s' ∧ ss_caches s' = ss_caches s ∧ pruned_to (hopeless request) files kept.
Proof.
  revert retained used s. induction files as [|file files IH]; intros retained used s Hok Hs; cbn [exact_pruning_loop].
  { exists [], used, s. split_and!; [by rw app_nil_r|done|done|constructor]. }
  assert (Hok' : ∀ f, f ∈ files → file_pruning_ok extension_files f) by (intros f Hf; apply Hok; by right).
  assert (Hkeep : ∀ used s1, summaries_ok s1 → ss_caches s1 = ss_caches s → ∃ kept used' s', exact_pruning_loop extension_files request (retained ++ [file]) used files s1 = (Ok (retained ++ kept, used'), s') ∧
    summaries_ok s' ∧ ss_caches s' = ss_caches s ∧ pruned_to (hopeless request) (file :: files) kept).
  { intros used1 s1 Hs1 Hc1. destruct (IH (retained ++ [file]) used1 s1 Hok' Hs1) as (kept & used' & s' & -> & Hs' & Hc' & Hp). exists (file :: kept), used', s'. rw -app_assoc Hc'. split_and!; [done..|by constructor]. }
  specialize (Hok file ltac:(left)). rw /file_pruning_ok in Hok. destruct (extension_files !! file_path file) as [extensions|]; [|by apply Hkeep].
  destruct (exact_pruning_extension_file extensions) as [extension|] eqn:Hext.
  2: { rw /mbind /rst_bind /load_exact_pruning_summary_for_serving Hext. by apply Hkeep. }
  destruct (Hok extensions extension eq_refl Hext) as [Htable Hside]. destruct (load_summary extensions extension s Hext Hside Hs) as (summary & s1 & Hload & Hright & Hs1 & Hc1).
  rw (rst_bind_Ok _ _ _ _ _ Hload). destruct (exact_pruning_summary_may_match_request summary request) eqn:Hm; [by apply Hkeep|].
  destruct (IH retained true s1 Hok' Hs1) as (kept & used' & s' & -> & Hs' & Hc' & Hp). exists kept, used', s'. rw Hc'. split_and!; [done..|]. constructor; [|done].
  intros row Hrow Ht. rw -Htable in Hrow. destruct Hside as (_ & Hcols & _). by rw (summary_right_keeps _ _ request row Hcols Hright Hrow Ht) in Hm.
Qed.

Lemma exact_pruning_sound extension_files request files s : (∀ file, file ∈ files → file_pruning_ok extension_files file) → summaries_ok s → ∃ kept used s',
  prune_execution_files_with_exact_artifact files extension_files request s = (Ok (kept, used), s') ∧ summaries_ok s' ∧ ss_caches s' = ss_caches s ∧ pruned_to (hopeless request) files kept.
Proof.
  intros Hok Hs. rw /prune_execution_files_with_exact_artifact. case_match; [exists files, [], s; split_and!; [done..|apply pruned_refl]|].
  case_match; [exists files, [], s; split_and!; [done..|apply pruned_refl]|].
  destruct (pruning_loop_sound extension_files request files [] false s Hok Hs) as (kept & used & s' & Hrun & Hs' & Hc & Hp). rw (rst_bind_Ok _ _ _ _ _ Hrun). by do 3 eexists.
Qed.

(** ** Answers *)

Context (request : ReadPlan) (delete_files : list string) (limit : nat).

(** The matching rows of a file, with the id of their document; what is returned of them. *)
Context (found : QueryInputFile → list (string * Value)).
Definition answers (file : QueryInputFile) : list Value := (found file).*2.

(** A row that is found is a row of the file that satisfies the request, also by text. *)
Hypothesis Hfound : ∀ file storage d doc, (d, doc) ∈ found (mkQueryInput file storage []) → ∃ row,
  row ∈ t_rows (table_of file) ∧ row_matches_as_floats (serving_request_predicates request) (λ field, get_or_null field row) ∧ texts_match request row ∧ row_id id_field row = Some d.

Lemma hopeless_answers file storage : hopeless request file → answers (mkQueryInput file storage []) = [].
Proof.
  intros Hh. rw /answers. destruct (found (mkQueryInput file storage [])) as [|[d doc] l] eqn:Hf; [done|]. destruct (Hfound file storage d doc) as (row & Hrow & _ & Ht & _); [rw Hf; left|]. by destruct (Hh row Hrow).
Qed.

Lemma pruned_answers (h : FileDescriptor → Prop) storage files kept : (∀ file, h file → answers (mkQueryInput file storage []) = []) → pruned_to h files kept →
  ((λ file, mkQueryInput file storage []) <$> files) ≫= answers = ((λ file, mkQueryInput file storage []) <$> kept) ≫= answers.
Proof. intros Hh. induction 1 as [|file files kept _ IH|file files kept Hd _ IH]; [done|..]; rw !fmap_cons !bind_cons IH //. by rw Hh. Qed.

(** How a request orders rows. *)
Definition request_compare (left right : Value) : comparison := match rd_order_by request with sort :: _ => row_compare sort left right | [] => Eq end.

(** An answer while it is merged: the best rows, or enough of the rows in any order. *)
Definition enough (all rows : list Value) : Prop := rows ⊆+ all ∧ Nat.min limit (length all) ≤ length rows.
Definition merging (all rows : list Value) : Prop := match rd_order_by request with sort :: _ => top_k (row_compare sort) limit all rows | [] => enough all rows end.

(** The answer as it is returned. *)
Definition returned (rows : list Value) : list Value := if decide (rd_order_by request = []) then take limit rows else rows.

Lemma merging_returned all rows : merging all rows → top_k request_compare limit all (returned rows).
Proof.
  rw /merging /returned /top_k /request_compare /enough. destruct (rd_order_by request) as [|sort sorts]; [|done]. intros [Hsub Hlen]. destruct (decide _); [|done].
  apply submseteq_Permutation in Hsub as [rest Hp]. exists (drop limit rows ++ rest). split_and!.
  - by rw app_assoc take_drop -Hp.
  - clear. induction (take limit rows); constructor; [done|]. by apply Forall_forall.
  - done.
  - rw length_take. pose proof (Permutation_length Hp) as Hl. rw length_app in Hl. lia.
Qed.

Lemma merging_nil : merging [] [].
Proof. rw /merging. destruct (rd_order_by request); [split; [done|simpl; lia]|apply answer_nil]. Qed.

Lemma merging_perm all all' rows : all ≡ₚ all' → merging all rows → merging all' rows.
Proof. intros Hp. rw /merging. destruct (rd_order_by request); [rw /enough; by rw Hp|by apply answer_perm]. Qed.

(** An answer of the engine to the query of a group. *)
Definition group_answer (all rows : list Value) : Prop := top_k request_compare limit all rows.

Lemma merge_merging all rows all' new : merging all rows → group_answer all' new → merging (all ++ all') (merge_rows rows new request limit).
Proof.
  rw /merging /group_answer /request_compare /merge_rows. destruct (rd_order_by request) as [|sort sorts].
  - intros [Hs Hl] (rest & Hp & _ & _ & Hlen). rw /enough. split.
    + trans (rows ++ new); [apply sublist_submseteq, sublist_take|]. rw -Hp app_assoc. apply submseteq_inserts_r. by apply submseteq_skips_r.
    + rw length_take !length_app. pose proof (submseteq_length _ _ Hs). lia.
  - intros H1 H2. apply answers_merge; [|done|done].
    apply row_compare_total.
Qed.

(** ** SQL over the files *)

Context (sql : string).

(** What the SQL engine is relied on for: the query of the request, run over some files,
    returns an answer for the rows found in them. *)
Definition engine_group (group : list QueryInputFile) : Prop :=
  ∃ batches, execute_query_plan_batches (replace "{table}" "{target_table}" sql) group delete_files = Ok batches ∧ group_answer (group ≫= answers) (VObject <$> concat batches).

Lemma engine_group_rows group : engine_group group → ∃ rows, execute_query_input_group_plan group sql delete_files = Ok rows ∧ group_answer (group ≫= answers) rows.
Proof. intros (batches & Hb & Ha). eexists. split; [|exact Ha]. by rw /execute_query_input_group_plan Hb. Qed.

Lemma parallel_merging files speedboat_files : (∀ group, engine_group group) → ∃ rows, execute_parallel_plan files speedboat_files delete_files request sql limit = Ok rows ∧
  merging ((iceberg_query_inputs files ++ speedboat_query_inputs speedboat_files) ≫= answers) rows.
Proof.
  intros He. rw /execute_parallel_plan.
  assert (Hloop : ∀ groups all rows, merging all rows → ∃ rows', foldM (λ rows query_files, new_rows ← execute_query_input_group_plan query_files sql delete_files; Ok (merge_rows rows new_rows request limit)) rows groups = Ok rows' ∧
    merging (all ++ (groups ≫= λ group, group ≫= answers)) rows').
  { induction groups as [|group groups IH]; intros all rows Hm; cbn [foldM]; [exists rows; split; [done|by rw app_nil_r]|].
    destruct (engine_group_rows group (He group)) as (new & -> & Hn). rw !bind_Ok. destruct (IH _ _ (merge_merging all rows _ new Hm Hn)) as (rows' & Hf & Hm'). exists rows'. split; [done|]. by rw bind_cons app_assoc. }
  destruct (Hloop (complete (serving_query_input_groups files speedboat_files)) [] [] merging_nil) as (rows & Hf & Hm). exists rows. split; [done|].
  eapply merging_perm; [|exact Hm]. cbn [app]. rw complete_perm bind_concat. by rw /serving_query_input_groups input_groups_perm.
Qed.

(** *** Early stopping *)

Context (file_stats : gmap string IcebergFileStats) (sort_order : list IcebergSortField).

Definition rows_of (file : FileDescriptor) : list Row := (λ row field, get_or_null field row) <$> t_rows (table_of file).

(** The statistics are true of the files. *)
Definition stats_true (file : FileDescriptor) : Prop := ∀ stats, file_stats !! file_path file = Some stats → file_described (rows_of file) stats.

(** What is returned carries the field it is sorted by, and a falling order has no nulls. *)
Definition sort_field_returned (file : FileDescriptor) : Prop := ∀ d doc sort sorts, (d, doc) ∈ found (mkQueryInput file Iceberg []) → rd_order_by request = sort :: sorts → ∃ row,
  row ∈ t_rows (table_of file) ∧ row_matches_as_floats (serving_request_predicates request) (λ field, get_or_null field row) ∧
  value_get doc (rs_field sort) = Some (get_or_null (rs_field sort) row) ∧ (rs_descending sort = true → get_or_null (rs_field sort) row ≠ VNull).

Lemma ordered_merging files sort sorts groups : rd_order_by request = sort :: sorts → (∀ file, file ∈ files → stats_true file ∧ sort_field_returned file) → (∀ group, engine_group group) →
  ordered_file_groups_for_top_k files file_stats sort_order request (rs_field sort) (rs_descending sort) = Some groups →
  ∃ rows, execute_ordered_top_k_plan groups delete_files request sql limit = Ok rows ∧ merging (iceberg_query_inputs files ≫= answers) rows.
Proof.
  intros Hsort Hfiles He Hgroups. rw /merging Hsort.
  apply (ordered_answer request sort sorts Hsort delete_files sql limit answers file_stats sort_order rows_of files groups); [|done|].
  - split.
    + intros file stats Hf Hs. by apply (proj1 (Hfiles file Hf)).
    + intros file doc Hf ([d doc'] & -> & Hin)%list_elem_of_fmap. destruct (proj2 (Hfiles file Hf) d doc' sort sorts Hin Hsort) as (row & Hrow & Hm & Hv & Hn).
      exists (λ field, get_or_null field row). split_and!; [|done..]. exact (list_elem_of_fmap_2 (λ row field, get_or_null field row) _ _ Hrow).
  - apply Forall_forall. intros group _. destruct (He group) as (batches & Hb & Ha). exists batches. split; [done|]. rw /group_answer /request_compare in Ha.
    rw /top_k in Ha |- *. by rw Hsort in Ha.
Qed.

(** ** The exact indexes *)

(** The predicates of a request and its filters. *)
Definition predicate_of (filter : ReadPredicate) (predicate : ExactLookupPredicate) : Prop :=
  elp_field predicate = rp_field filter ∧
  ((∃ x key, rp_eq filter = Some x ∧ encode_exact_lookup_key x = Some key ∧ elp_values predicate = [key]) ∨
   (rp_eq filter = None ∧ ∃ xs keys, rp_in_values filter = Some xs ∧ mapM encode_exact_lookup_key xs = Some keys ∧ ∀ key, key ∈ elp_values predicate ↔ key ∈ keys)).

Lemma exact_predicate_of filter predicate : exact_predicate filter = Some predicate → predicate_of filter predicate.
Proof.
  rw /exact_predicate. destruct (predicate_uses_range filter); [done|]. destruct (rp_eq filter) as [x|] eqn:Heq.
  - destruct (encode_exact_lookup_key x) as [key|] eqn:Hk; [|done]. cbn. intros [= <-]. split; [done|]. left. by exists x, key.
  - destruct (rp_in_values filter) as [xs|] eqn:Hin; [|done]. destruct (bool_decide (xs = []) || _); [done|]. destruct (mapM _ xs) as [keys|] eqn:Hk; cbn; [|done]. case_decide; [done|]. intros [= <-].
    split; [done|]. right. split; [done|]. exists xs, keys. split_and!; [done..|]. intros key. cbn [elp_values]. etrans; [apply elem_of_dedup|apply elem_of_sort_by].
Qed.

Lemma request_predicates predicates : exact_lookup_predicates request = Some predicates → Forall2 predicate_of (rd_filters request) predicates ∧ predicates ≠ [] ∧ rd_order_by request = [] ∧ rd_aggregate request = None.
Proof.
  rw /exact_lookup_predicates. destruct (rd_aggregate request); [done|]. destruct (decide (rd_order_by request = [])) as [Ho|Ho]; [rw bool_decide_true //|by rw bool_decide_false]. cbn [is_some negb orb].
  destruct ((0 <? rd_offset request) || _); [done|]. destruct (mapM exact_predicate (rd_filters request)) as [ps|] eqn:Hm; [|done]. cbn. case_decide; [done|]. intros [= <-]. split_and!; [|done..].
  apply mapM_Some in Hm. eapply Forall2_impl; [exact Hm|]. intros f p. apply exact_predicate_of.
Qed.

(** A row that satisfies the request by text satisfies its predicates. *)
Lemma texts_predicates predicates row : Forall2 predicate_of (rd_filters request) predicates → texts_match request row → forallb (text_matches row) predicates = true.
Proof.
  intros Hp Ht. apply forallb_forall. intros p Hin%list_elem_of_In. apply list_elem_of_lookup in Hin as [i Hi]. destruct (Forall2_lookup_r _ _ _ _ _ Hp Hi) as (f & Hf & Hfield & Hvalues).
  destruct (Ht f (list_elem_of_lookup_2 _ _ _ Hf)) as [Heq Hvals].
  assert (Hone : ∀ x key, has_text row (rp_field f) x → encode_exact_lookup_key x = Some key → key ∈ elp_values p → text_matches row p = true).
  { intros x key (Hnn & _ & Hk) Hkey Hin. rw /text_matches Hfield. apply andb_true_iff. split; [by destruct (get_or_null (rp_field f) row)|]. apply bool_decide_eq_true.
    rw /predicate_texts. apply list_elem_of_omap. exists key. split; [done|]. rw Hkey in Hk. done. }
  destruct Hvalues as [(x & key & Hx & Hkey & Hv)|(_ & xs & keys & Hxs & Hkeys & Hv)].
  - apply (Hone x key); [by apply Heq|done|]. rw Hv. left.
  - destruct (Hvals xs Hxs) as (x & Hx & Hxt). apply mapM_Some in Hkeys. apply list_elem_of_lookup in Hx as [j Hj]. destruct (Forall2_lookup_l _ _ _ _ _ Hkeys Hj) as (key & Hkj & Hkey).
    apply (Hone x key Hxt Hkey). apply Hv. exact (list_elem_of_lookup_2 _ _ _ Hkj).
Qed.

Lemma predicate_fields predicates : Forall2 predicate_of (rd_filters request) predicates → elp_field <$> predicates = rp_field <$> rd_filters request.
Proof. induction 1 as [|f p fs ps [Hf _] _ IH]; [done|]. rw !fmap_cons. by rw Hf IH. Qed.

(** The index at a location was written for its table, and the query for documents counts
    the rows of the index that match. *)
Definition index_sidecar (predicates : list ExactLookupPredicate) (location : string) : Prop :=
  load_file_as_table location = Ok () ∧
  ∃ index, create_exact_index_worker (indexed location) id_field = Some index ∧ ∀ predicate_sql, try_collect exact_predicate_sql predicates = Ok predicate_sql →
    ∃ batches ids, execute_sql location (doc_ids_sql predicate_sql) = Ok batches ∧ (∀ d, d ∈ ids ↔ index_hits predicates index d = length predicates) ∧
      get_or_null "doc_id" <$> concat batches = VString <$> take (MAX_EXACT_LOOKUP_DOC_IDS + 1) ids.

(** The index of a file was written for it; every document has its own id; the filters
    are on distinct, indexed fields. *)
Definition file_index_ok (predicates : list ExactLookupPredicate) (extension_files : gmap string (list ExtensionFile)) (file : FileDescriptor) : Prop :=
  ∃ extensions extension, extension_files !! file_path file = Some extensions ∧ exact_index_extension_file extensions = Some extension ∧
    indexed (ef_location extension) = table_of file ∧ index_sidecar predicates (ef_location extension) ∧
    NoDup (row_id id_field <$> t_rows (table_of file)) ∧ NoDup (t_columns (table_of file)).*1 ∧
    (∀ filter, filter ∈ rd_filters request → rp_field filter ∈ exact_fields (table_of file) id_field).

Lemma predicates_have_sql predicates : (∀ p key, p ∈ predicates → key ∈ elp_values p → is_Some (exact_lookup_key_sql_text key)) →
  ∃ predicate_sql, try_collect exact_predicate_sql predicates = Ok predicate_sql.
Proof.
  intros Hkeys. apply try_collect_all. intros p Hp. rw /exact_predicate_sql.
  match goal with |- context [try_collect ?f (elp_values p)] => destruct (try_collect_all f (elp_values p)) as [texts Ht] end.
  - intros key Hkey. destruct (Hkeys p key Hp Hkey) as [text ->]. by eexists.
  - rw Ht bind_Ok. by eexists.
Qed.

Lemma doc_ids_read_back batches ids : get_or_null "doc_id" <$> concat batches = VString <$> ids → extract_string_column_values batches "doc_id" = Ok ids.
Proof.
  intros Hids. rw /extract_string_column_values Hids. clear Hids. induction ids as [|d ids IH]; [done|]. rw fmap_cons. cbn [List.filter is_null negb try_collect normalize_exact_lookup_value ok_or]. rw bind_Ok IH bind_Ok. done.
Qed.

Context (predicates : list ExactLookupPredicate) (extension_files : gmap string (list ExtensionFile)).
Hypothesis Hdistinct : NoDup (rp_field <$> rd_filters request).
Hypothesis Hkeys : ∀ p key, p ∈ predicates → key ∈ elp_values p → is_Some (exact_lookup_key_sql_text key).

(** The documents looked up are all that are found in the file. *)
Lemma found_doc_ids file storage : Forall2 predicate_of (rd_filters request) predicates → file_index_ok predicates extension_files file → ∃ extension ids,
  extension_files !! file_path file ≫= exact_index_extension_file = Some extension ∧ load_exact_lookup_doc_ids (ef_location extension) predicates = Ok ids ∧
  (length ids ≤ MAX_EXACT_LOOKUP_DOC_IDS → ∀ d doc, (d, doc) ∈ found (mkQueryInput file storage []) → d ∈ ids).
Proof.
  intros Hp (extensions & extension & Hext & Hidx & Htable & (Hload & index & Hw & Hsql) & Hids & Hcols & Hfields). destruct (predicates_have_sql predicates Hkeys) as [predicate_sql Hps].
  destruct (Hsql predicate_sql Hps) as (batches & ids & Hrun & Hhits & Hread). exists extension, (take (MAX_EXACT_LOOKUP_DOC_IDS + 1) ids). split; [by rw Hext|]. split.
  { rw /load_exact_lookup_doc_ids Hload bind_Ok Hps bind_Ok Hrun bind_Ok. by apply doc_ids_read_back. }
  intros Hlen d doc Hin. rw length_take in Hlen. rw take_ge; [lia|]. apply Hhits. destruct (Hfound file storage d doc Hin) as (row & Hrow & _ & Ht & Hd).
  rw /create_exact_index_worker Htable in Hw. case_decide; [done|]. injection Hw as <-. apply (hits_decide (table_of file) id_field Hids predicates row d); [|done| |done|done|by apply texts_predicates].
  - by rw (predicate_fields predicates Hp).
  - intros p Hpin. apply list_elem_of_lookup in Hpin as [i Hi]. destruct (Forall2_lookup_r _ _ _ _ _ Hp Hi) as (f & Hf & Hfield & _). rw Hfield. apply Hfields. exact (list_elem_of_lookup_2 _ _ _ Hf).
Qed.

(** The query for the documents of a file, as the engine answers it. *)
Definition engine_lookup : Prop := ∀ file storage ids lookup_sql,
  build_sql "{target_table}" (with_doc_ids request ids) limit (negb (bool_decide (delete_files = []))) = Ok lookup_sql → ∃ batches,
  execute_query_plan_batches lookup_sql [mkQueryInput file storage []] delete_files = Ok batches ∧
  group_answer ((filter (λ p, p.1 ∈ ids) (found (mkQueryInput file storage []))).*2) (VObject <$> concat batches).

Lemma key_has_literal x key : encode_exact_lookup_key x = Some key → ∃ text, sql_literal x = Ok text.
Proof. destruct x; try done; by eexists. Qed.

Lemma lookup_has_sql ids : Forall2 predicate_of (rd_filters request) predicates → rd_aggregate request = None →
  ∃ lookup_sql, build_sql "{target_table}" (with_doc_ids request ids) limit (negb (bool_decide (delete_files = []))) = Ok lookup_sql.
Proof.
  intros Hp Hagg. rw /build_sql /= Hagg /=. destruct (try_collect_all sql_for_filter (rd_filters request ++ [mkReadPredicate "_id_seq_no" None (Some (VString <$> ids)) None None None None])) as [clauses Hc].
  2: { rw Hc bind_Ok. by eexists. }
  intros f [Hf| ->%list_elem_of_singleton]%elem_of_app.
  - apply list_elem_of_lookup in Hf as [i Hi]. destruct (Forall2_lookup_l _ _ _ _ _ Hp Hi) as (p & _ & _ & Hv). rw /sql_for_filter. destruct Hv as [(x & key & -> & Hk & _)|(-> & xs & keys & -> & Hk & _)].
    + destruct (key_has_literal x key Hk) as [text ->]. by eexists.
    + destruct (try_collect_all sql_literal xs) as [texts Ht]; [|rw Ht bind_Ok; by eexists]. intros x Hx. apply list_elem_of_lookup in Hx as [j Hj]. apply mapM_Some in Hk.
      destruct (Forall2_lookup_l _ _ _ _ _ Hk Hj) as (key & _ & Hkey). by apply (key_has_literal x key).
  - rw /sql_for_filter /=. destruct (try_collect_all sql_literal (VString <$> ids)) as [texts Ht]; [|rw Ht bind_Ok; by eexists]. intros x (d & -> & _)%list_elem_of_fmap. by eexists.
Qed.

Lemma exact_loop_answer files : Forall2 predicate_of (rd_filters request) predicates → rd_aggregate request = None → engine_lookup →
  (∀ file storage, (file, storage) ∈ files → file_index_ok predicates extension_files file) → ∀ all rows selected bytes, merging all rows → ∃ result,
  exact_lookup_loop predicates delete_files extension_files request limit rows selected bytes files = Ok result ∧
  ∀ r, result = Some r → merging (all ++ (files ≫= λ file, answers (mkQueryInput file.1 file.2 []))) (xr_rows r).
Proof.
  intros Hp Hagg He. induction files as [|[file storage] files IH]; intros Hok all rows selected bytes Hm; cbn [exact_lookup_loop].
  { eexists. split; [done|]. intros r [= <-]. by rw app_nil_r. }
  destruct (found_doc_ids file storage Hp) as (extension & ids & -> & -> & Hids); [apply (Hok file storage); left|]. rw bind_Ok. destruct (Nat.ltb_spec MAX_EXACT_LOOKUP_DOC_IDS (length ids)) as [_|Hle]; [by eexists|]. specialize (Hids Hle).
  assert (IH' := IH (λ f st Hf, Hok f st (list_elem_of_further _ _ _ Hf))). rw bind_cons. cbn [fst snd]. case_decide as Hnil.
  - assert (Hnone : answers (mkQueryInput file storage []) = []). { rw /answers. destruct (found (mkQueryInput file storage [])) as [|[d doc] l]; [done|]. specialize (Hids d doc ltac:(left)). subst. by apply not_elem_of_nil in Hids. }
    rw Hnone. by apply IH'.
  - destruct (lookup_has_sql ids Hp Hagg) as [lookup_sql Hsql]. destruct (He file storage ids lookup_sql Hsql) as (batches & Hb & Ha). rw /execute_exact_lookup_file Hsql. cbn [message_of]. rw bind_Ok Hb !bind_Ok.
    assert (Hall : filter (λ p : string * Value, p.1 ∈ ids) (found (mkQueryInput file storage [])) = found (mkQueryInput file storage [])).
    { apply filter_all, Forall_forall. intros [d doc] Hin. by apply (Hids d doc). }
    rw Hall in Ha. destruct (IH' _ _ (S selected) (wrap_u64 (bytes + file_size file)) (merge_merging all rows _ _ Hm Ha)) as (result & -> & Hr). exists result. split; [done|]. intros r Hres. rw app_assoc. by apply Hr.
Qed.

(** ** The whole execution *)

(** What is known of the files, the sidecars and the engine. *)
Record execution_ok (files speedboat_files : list FileDescriptor) : Prop := {
  xo_engine : ∀ group, engine_group group;
  xo_lookup : exact_lookup_predicates request = Some predicates → engine_lookup;
  xo_pruning : ∀ file, file ∈ files ++ speedboat_files → file_pruning_ok extension_files file;
  xo_index : exact_lookup_predicates request = Some predicates → ∀ file, file ∈ files ++ speedboat_files → has_exact_index extension_files file = true → file_index_ok predicates extension_files file;
  xo_stats : ∀ file, file ∈ files → stats_true file ∧ sort_field_returned file;
}.

Lemma exact_lookup_answer files speedboat_files : execution_ok files speedboat_files → (∀ ps, exact_lookup_predicates request = Some ps → ps = predicates) → ∃ result,
  maybe_execute_exact_lookup files speedboat_files delete_files extension_files request limit = Ok result ∧
  ∀ r, result = Some r → merging ((iceberg_query_inputs files ++ speedboat_query_inputs speedboat_files) ≫= answers) (xr_rows r).
Proof.
  intros Hok Hps. rw /maybe_execute_exact_lookup. destruct (exact_lookup_predicates request) as [ps|] eqn:Hpreds; [|by exists None]. rw (Hps ps eq_refl) in Hpreds |- *. clear Hps.
  destruct (forallb (has_exact_index extension_files) (files ++ speedboat_files)) eqn:Hall; cbn [negb]; [|by exists None]. rw forallb_forall in Hall.
  destruct (request_predicates predicates Hpreds) as (Hp & _ & _ & Hagg).
  destruct (exact_loop_answer (((λ file, (file, Iceberg)) <$> files) ++ ((λ file, (file, Speedboat)) <$> speedboat_files)) Hp Hagg (xo_lookup _ _ Hok Hpreds)) with (all := @nil Value) (rows := @nil Value) (selected := 0) (bytes := 0%Z) as (result & Hrun & Hr).
  - intros file storage Hin. assert (Hf : file ∈ files ++ speedboat_files).
    { apply elem_of_app in Hin as [(f & [= -> _] & Hf)%list_elem_of_fmap|(f & [= -> _] & Hf)%list_elem_of_fmap]; apply elem_of_app; [by left|by right]. }
    apply (xo_index _ _ Hok Hpreds file Hf). apply Hall. by apply list_elem_of_In.
  - apply merging_nil.
  - exists result. split; [done|]. intros r Hres. specialize (Hr r Hres). cbn [app] in Hr. rw bind_app !list_fmap_bind in Hr. rw bind_app /iceberg_query_inputs /speedboat_query_inputs !list_fmap_bind. done.
Qed.

(** Whatever way a request is answered, when the snapshot of the checkpoint is not used. *)
Lemma plan_answer checkpoint_key exact_artifact artifact files speedboat_files s caches : execution_ok files speedboat_files → (∀ ps, exact_lookup_predicates request = Some ps → ps = predicates) →
  rd_aggregate request = None → limit ≠ 0 → summaries_ok s →
  maybe_execute_snapshot_lookup checkpoint_key exact_artifact artifact files speedboat_files delete_files request limit (ss_caches s) = (Ok None, caches) → ∃ result s',
  execute_plan checkpoint_key exact_artifact artifact files speedboat_files delete_files file_stats extension_files sort_order request sql limit s = (Ok result, s') ∧
  summaries_ok s' ∧ merging ((iceberg_query_inputs files ++ speedboat_query_inputs speedboat_files) ≫= answers) (xr_rows result).
Proof.
  intros Hok Hps Hagg Hlim Hs Hsnap. rw /execute_plan. destruct (Nat.eqb_spec limit 0); [done|]. set (s0 := mkServingState caches (ss_summaries s)).
  rw (rst_bind_Ok _ _ s None s0); [by rw /on_caches Hsnap|]. assert (Hs0 : summaries_ok s0) by exact Hs.
  destruct (exact_lookup_answer files speedboat_files Hok Hps) as (found_result & Hexact & Hexact_ok). rw (rst_bind_Ok _ _ s0 found_result s0); [by rw /rst_lift Hexact|].
  destruct found_result as [r|]; [exists r, s0; split_and!; [done..|by apply Hexact_ok]|]. clear Hexact Hexact_ok.
  destruct (exact_pruning_sound extension_files request files s0) as (kept & used & s1 & Hrun1 & Hs1 & _ & Hp1); [intros f Hf; apply (xo_pruning _ _ Hok), elem_of_app; by left|done|].
  rw (rst_bind_Ok _ _ _ _ _ Hrun1).
  destruct (exact_pruning_sound extension_files request speedboat_files s1) as (kept' & used' & s2 & Hrun2 & Hs2 & _ & Hp2); [intros f Hf; apply (xo_pruning _ _ Hok), elem_of_app; by right|done|].
  rw (rst_bind_Ok _ _ _ _ _ Hrun2) Hagg. cbn [is_some].
  assert (Hall : (iceberg_query_inputs files ++ speedboat_query_inputs speedboat_files) ≫= answers = (iceberg_query_inputs kept ++ speedboat_query_inputs kept') ≫= answers).
  { rw !bind_app /iceberg_query_inputs /speedboat_query_inputs (pruned_answers (hopeless request) Iceberg files kept) // ?(pruned_answers (hopeless request) Speedboat speedboat_files kept') //; intros f; apply hopeless_answers. }
  rw Hall. destruct (parallel_merging kept kept' (xo_engine _ _ Hok)) as (rows & Hpar & Hpar_ok).
  destruct (bool_decide (kept' = [])) eqn:Hboat; cbn [negb]; [|rw Hpar; by do 2 eexists]. apply bool_decide_eq_true in Hboat as ->.
  destruct (rd_order_by request) as [|sort sorts] eqn:Hsort; [rw Hpar; by do 2 eexists|].
  destruct (ordered_file_groups_for_top_k kept file_stats sort_order request (rs_field sort) (rs_descending sort)) as [groups|] eqn:Hgroups; [|rw Hpar; by do 2 eexists].
  destruct (ordered_merging kept sort sorts groups Hsort) as (rows' & Hord & Hord_ok); [|apply (xo_engine _ _ Hok)|done|].
  { intros f Hf. apply (xo_stats _ _ Hok). by apply (pruned_subset _ _ _ _ Hp1). }
  rw Hord. do 2 eexists. split_and!; [done|done|]. cbn [xr_rows]. by rw /speedboat_query_inputs fmap_nil app_nil_r.
Qed.

Lemma execution_ok_part files kept speedboat_files : (∀ file, file ∈ kept → file ∈ files) → execution_ok files speedboat_files → execution_ok kept speedboat_files.
Proof.
  intros Hsub Hok. assert (Happ : ∀ file, file ∈ kept ++ speedboat_files → file ∈ files ++ speedboat_files).
  { intros f. rw !elem_of_app. intros [?|?]; [left; by apply Hsub|by right]. }
  split; [apply (xo_engine _ _ Hok)|apply (xo_lookup _ _ Hok)|intros f Hf; by apply (xo_pruning _ _ Hok), Happ|intros Hps f Hf; by apply (xo_index _ _ Hok Hps), Happ|intros f Hf; by apply (xo_stats _ _ Hok), Hsub].
Qed.

(** What the planner leaves out has no answers. *)
Lemma planner_pruning cache files speedboat_files : execution_ok files speedboat_files →
  iceberg_query_inputs files ≫= answers = iceberg_query_inputs (selected_files (prune_candidate_files cache files file_stats request)) ≫= answers ∧
  ∀ file, file ∈ selected_files (prune_candidate_files cache files file_stats request) → file ∈ files.
Proof.
  intros Hok. destruct (prune_fold cache file_stats request files default_pruned) as [Hsel _]. cbn [selected_files app] in Hsel. rw /prune_candidate_files Hsel. split.
  - apply (pruned_answers (λ file, answers (mkQueryInput file Iceberg []) = []) Iceberg); [done|]. apply pruned_filter. intros file Hf Hkept. rw /answers.
    destruct (found (mkQueryInput file Iceberg [])) as [|[d doc] l] eqn:Hfd; [done|]. destruct (Hfound file Iceberg d doc) as (row & Hrow & Hm & _); [rw Hfd; left|].
    rw (matching_file_kept file_stats request file (rows_of file) (λ field, get_or_null field row)) in Hkept; [apply (xo_stats _ _ Hok file Hf)| |done|done].
    exact (list_elem_of_fmap_2 (λ row field, get_or_null field row) _ _ Hrow).
  - intros file [_ ?]%list_elem_of_filter. done.
Qed.
End execution.

(** ** Queries *)

Lemma validated_distinct request schema : validate_request request schema = Ok () → NoDup (rp_field <$> rd_filters (read_plan request)).
Proof.
  rw /validate_request. case_match; [done|]. intros H'. apply bind_Ok_inv in H' as (? & _ & H'). apply bind_Ok_inv in H' as (? & _ & H'). apply bind_Ok_inv in H' as (? & _ & H').
  apply bind_Ok_inv in H' as (seen & Hseen & _). cbn [rd_filters read_plan]. rw -list_fmap_compose.
  assert (Hgo : ∀ filters acc, NoDup acc → ∀ out, foldM (validate_filter_field (to_map schema)) acc filters = Ok out → NoDup (acc ++ (sv_field <$> filters))).
  { induction filters as [|f filters IH]; intros acc Hn out Hrun; [by rw app_nil_r|]. cbn [foldM] in Hrun. apply bind_Ok_inv in Hrun as (acc' & Hf & Hrun). rw /validate_filter_field in Hf. case_decide as Hin; [done|].
    apply bind_Ok_inv in Hf as (? & _ & Hf). apply bind_Ok_inv in Hf as (? & _ & Hf). injection Hf as <-. apply IH in Hrun; [|by constructor]. rw fmap_cons. revert Hrun. apply NoDup_Permutation_proper.
    rw -app_comm_cons. by rw Permutation_middle. }
  exact (Hgo (sr_filters request) [] (NoDup_nil_2) seen Hseen).
Qed.

Section queries.
Context `{jt : JsonText, !JsonTextLaws jt, ft : FloatText, fd : FloatDisplay, ho : HashOrder, kh : KeyHasher, src : SnapshotSource, side : SidecarSource}.
Context `{ct : CastText, !CastTextLaws ct, co : CompletionOrder} {W : Type} `{provider : StateProvider W}.
Context (table_of : FileDescriptor → Table) (indexed : string → Table) (id_field : string) (cached : string → string → Z → bool) (metadata_cache : gmap string nat).

End queries.
End ServingExecTheory.

Module ServingExecDemo.
Import HashOrderDemo FloatTextDemo JsonTextDemo PruningTheory TopKTheory ExactTheory ServingExecTheory.

(** Three files of scores, the last one not yet compacted. *)
Definition score (name : string) (points : Z) : Object := [("name", VString name); ("points", int points)].
Definition scores (path : string) : list Object :=
  if decide (path = "a") then [score "bob" 99; score "ann" 100] else if decide (path = "b") then [score "cy" 60; score "dan" 50]
  else if decide (path = "c") then [score "eve" 97] else [].
Definition score_table (file : FileDescriptor) : Table := mkTable [("name", Utf8); ("points", Int64)] (scores (file_path file)).
Definition score_schema : PowdrrSchema := mkSchema [mkField "name" TString; mkField "points" TInteger].

Definition best_scores : ServingRequestPlan :=
  mkServingRequest None [mkServingPredicate "points" None None None (Some (int 70)) None None] None [mkServingSort "points" true] (Some 2) true false.
Definition score_stats (path : string) (lower upper : Z) : IcebergFileStats :=
  mkFileStats path (Some 2%Z) [mkColumnStats 1 "points" (Some 0%Z) (Some (int lower)) (Some (int upper))] [] [].
Definition score_files : FileSetPayload := mkFileSet ["a"; "b"] [score_schema] [0; 0] [10%Z; 10%Z].
Definition score_checkpoint : TableMetadataCheckpoint :=
  mkCheckpoint "scores" None "7" (Some (mkIcebergMetadata score_schema None score_files [] [] [] [] [] [score_stats "a" 99 100; score_stats "b" 50 60]))
    (Some (mkSpeedboatMetadata (single "c" 5 score_schema))) None ∅ score_schema.
#[local] Instance score_provider : StateProvider () := {
  sp_is_read_only := λ _, true;
  sp_describe_table := λ _ name, Ok (Some (mkTableDescription name ∅ None None None None None));
  sp_get_all_iceberg_tables := λ _, Ok ["scores"];
  sp_get_published_active_servable_checkpoint := λ _ _, Ok (Some "7");
  sp_get_checkpoint := λ _ _, Ok (Some score_checkpoint);
  sp_upsert_table_metadata := λ _ w, (Ok true, w);
}.

(** The rows the request asks for, and an engine that sorts them all. *)
Definition wanted (path : string) : list Object := if decide (path = "b") then [] else scores path.
Definition score_found (file : QueryInputFile) : list (string * Value) := (λ row, (default "" (row_id "name" row), VObject row)) <$> wanted (file_path (qi_file file)).
Definition by_points : ReadSort := mkReadSort "points" true.
#[local] Instance score_engine : SnapshotSource := {
  materialize_local_file := λ _, Err "no files";
  query_file := λ _ _, Err "no files";
  execute_query_plan_batches := λ _ files _, Ok [take 2 (sort_by (λ x y, row_compare (jt:=demo_json) by_points (VObject x) (VObject y)) (files ≫= λ file, wanted (file_path (qi_file file))))];
}.
#[local] Instance no_sidecars : SidecarSource := { load_file_as_table := λ _, Err "no sidecars"; execute_sql := λ _ _, Err "no sidecars" }.
#[local] Instance demo_display : FloatDisplay := { display_f64 := λ _, "" }.
#[local] Instance last_first : CompletionOrder := {| complete := @reverse; complete_perm := @reverse_Permutation |}.
#[local] Instance demo_cast : CastText := { cast_text := λ value, match value with VString s => s | VNumber (PosInt n) | VNumber (NegInt n) => print_int n | VBool b => if b then "true" else "false" | _ => "" end }.
#[local] Instance length_hasher : KeyHasher := { hash_key := λ key, N.of_nat (String.length key) }.

#[local] Instance demo_cast_laws : CastTextLaws demo_cast.
Proof.
  split; [done..|]. intros [|b|n|s| |] [|b'|n'|s'| |] He; try done; cbn in He |- *.
  - by destruct b, b'.
  - destruct n, n'; try done; cbn in He; by apply Z.eqb_eq in He as ->.
  - by apply String.eqb_eq in He as ->.
Qed.

Definition score_read : ReadPlan := read_plan best_scores.
Definition result_or {E A} (a : A) (r : result E A) : A := match r with Ok a => a | _ => a end.
Definition no_context : ServingExecutionContext :=
  mkServingContext (mkTableDescription "" ∅ None None None None None) (mkDescriptor "" "" None) score_schema [] [] [] ∅ [] [] [] ∅ [] None false.
Definition score_context : ServingExecutionContext := result_or no_context (load_serving_context (λ _ _ _, false) () "scores").
Definition score_plan : ServingPlan := result_or (rejected_plan no_context 0 "" false []) (plan_request ∅ score_context score_read).

Lemma score_rows path row : row ∈ wanted path → row ∈ scores path ∧ row ∈ [score "bob" 99; score "ann" 100; score "eve" 97].
Proof. rw /wanted /scores. repeat case_decide; rw ?elem_of_cons; intros Hin; naive_solver. Qed.

Lemma scores_found file storage d doc : (d, doc) ∈ score_found (mkQueryInput file storage []) → ∃ row, row ∈ t_rows (score_table file) ∧
  row_matches_as_floats (serving_request_predicates score_read) (λ field, get_or_null field row) ∧ texts_match score_read row ∧ row_id "name" row = Some d ∧
  value_get doc "points" = Some (get_or_null "points" row) ∧ get_or_null "points" row ≠ VNull.
Proof.
  intros (row & Heq & Hrow)%list_elem_of_fmap. cbn [qi_file] in Hrow. apply score_rows in Hrow as [Hrow Hin]. injection Heq as -> ->. exists row.
  assert (Ht : texts_match score_read row). { intros f. rw elem_of_cons. intros [->|[]%not_elem_of_nil]. done. }
  split_and!; [done| |done|..]; rw !elem_of_cons in Hin; destruct Hin as [->|[->|[->|[]%not_elem_of_nil]]]; try done.
  all: constructor; [|constructor]; (split; [done|]); vm_compute; done.
Qed.

Lemma score_column path lower upper : (path, lower, upper) ∈ [("a", 99%Z, 100%Z); ("b", 50%Z, 60%Z)] →
  file_described (rows_of score_table (mkFile path score_schema 10)) (score_stats path lower upper).
Proof.
  intros Hp. rw !elem_of_cons in Hp. split; [by intros ? ? ? ?%not_elem_of_nil| |done]. constructor; [|constructor]. destruct Hp as [[= -> -> ->]|[[= -> -> ->]|[]%not_elem_of_nil]]; split.
  all: cbn [cs_null_count cs_lower_bound cs_upper_bound cs_field_name]; try (intros ? [= <-]; vm_compute; reflexivity).
  all: intros row x Hrow _ [= <-]; rw /rows_of /= !elem_of_cons in Hrow; destruct Hrow as [->|[->|[]%not_elem_of_nil]]; vm_compute; done.
Qed.

Lemma score_engine_right sql group : engine_group score_read [] 2 score_found sql group.
Proof.
  eexists. split; [reflexivity|]. rw /group_answer. cbn [concat]. rw app_nil_r fmap_take -sort_by_fmap.
  assert (Hall : group ≫= answers score_found = VObject <$> (group ≫= λ file, wanted (file_path (qi_file file)))).
  { induction group as [|file group IH]; [done|]. rw !bind_cons fmap_app IH /answers /score_found -list_fmap_compose. done. }
  rw Hall. change (request_compare score_read) with (row_compare by_points). apply answer_sorted.
  apply row_compare_total.
Qed.

Lemma scores_execution : execution_ok score_table (λ _, mkTable [] []) "name" score_read (sx_delete_files score_context) (pl_limit score_plan) score_found (pl_sql score_plan) (sx_file_stats score_context)
  (default [] (exact_lookup_predicates score_read)) (sx_extension_files score_context) (sx_files score_context) (sx_speedboat_files score_context).
Proof.
  change (sx_delete_files score_context) with (@nil string). change (pl_limit score_plan) with 2. split.
  - intros group. apply score_engine_right.
  - done.
  - intros file _ extensions extension Hext. vm_compute in Hext. done.
  - done.
  - change (sx_files score_context) with [mkFile "a" score_schema 10; mkFile "b" score_schema 10]. intros file Hfile. split.
    + intros stats. rw !elem_of_cons in Hfile. destruct Hfile as [->|[->|[]%not_elem_of_nil]]; intros Hs; vm_compute in Hs; injection Hs as <-; [apply (score_column "a" 99 100)|apply (score_column "b" 50 60)]; rw !elem_of_cons; auto.
    + intros d doc sort sorts (row & Hrow & Hm & _ & _ & Hget & Hnn)%scores_found [= <- <-]. by exists row.
Qed.

Definition cold : ServingState := mkServingState (mkServingCaches ∅ ∅) ∅.


(** *** The snapshot of a checkpoint holds the files one request left *)

Definition name_stats (path lower upper : string) : IcebergFileStats :=
  mkFileStats path (Some 2%Z) [mkColumnStats 1 "name" (Some 0%Z) (Some (VString lower)) (Some (VString upper))] [] [].
Definition named_checkpoint : TableMetadataCheckpoint :=
  mkCheckpoint "scores" None "7" (Some (mkIcebergMetadata score_schema None score_files [] [] [] [] [] [name_stats "a" "ann" "bob"; name_stats "b" "cy" "dan"])) None None ∅ score_schema.
Definition named_provider : StateProvider () := {|
  sp_is_read_only := λ _, true;
  sp_describe_table := λ _ name, Ok (Some (mkTableDescription name ∅ None None None None None));
  sp_get_all_iceberg_tables := λ _, Ok ["scores"];
  sp_get_published_active_servable_checkpoint := λ _ _, Ok (Some "7");
  sp_get_checkpoint := λ _ _, Ok (Some named_checkpoint);
  sp_upsert_table_metadata := λ _ w, (Ok true, w);
|}.
(** The engine reads whole files. *)
Definition whole_files : SnapshotSource := {|
  materialize_local_file := λ _, Err "no files";
  query_file := λ _ _, Err "no files";
  execute_query_plan_batches := λ _ files _, Ok [files ≫= λ file, scores (file_path (qi_file file))];
|}.
Definition named (name : string) : ServingRequestPlan := mkServingRequest None [mkServingPredicate "name" (Some (VString name)) None None None None None] None [] (Some 5) true false.
Definition ask (name : string) (s : ServingState) : option (list Value) * ServingState :=
  let '(r, s) := execute_serving_query (src:=whole_files) (provider:=named_provider) (λ _ _ _, false) ∅ () "scores" (named name) s in (match r with Ok response => Some (qr_rows response) | _ => None end, s).

(** Without an artifact the snapshot is built from the files the first request selected
    and kept for the checkpoint: the row of cy is found by a process that has answered
    nothing yet, and not after a request for ann, whose statistics leave out the file of cy. *)
Theorem pruned_snapshot_is_kept :
  (ask "cy" cold).1 = Some [VObject (score "cy" 60)] ∧ (ask "ann" cold).1 = Some [VObject (score "ann" 100)] ∧ (ask "cy" (ask "ann" cold).2).1 = Some [].
Proof. vm_compute. done. Qed.
End ServingExecDemo.
