(* ===== verification/ActiveLookup.v ===== *)
(** * Lookups on the active checkpoint (query_server/src/exact_lookup.rs)

    The Redis, DynamoDB and MongoDB front ends answer point lookups from the active
    checkpoint of a table, which a process keeps by table as long as its id is the
    published one.  The theorems show that what is kept is never seen: a lookup answers
    as if the checkpoint had been read from the provider. *)

From S2P Require Import Prelude Text Json JsonText Schema FileSet Contract Checkpoint QueryPath Pruning Planner SnapshotCodec SnapshotLookup SnapshotServing TopK ServingExec Provider.

(** SRC query_server/src/exact_lookup.rs:18-22 CachedActiveCheckpoint *)
Record CachedActiveCheckpoint : Type := mkCachedActive { ca_checkpoint_id : string; ca_checkpoint : TableMetadataCheckpoint }.

(** SRC query_server/src/exact_lookup.rs:27-31 ActiveCheckpointLookupError *)
Inductive ActiveCheckpointLookupError : Type := NotFound (message : string) | Internal (message : string).

(** What a process keeps: the snapshots and summaries of the serving path, and
    [ACTIVE_CHECKPOINT_CACHE]. *)
(** SRC query_server/src/exact_lookup.rs:24-25 ACTIVE_CHECKPOINT_CACHE *)
Record FrontEnd : Type := mkFrontEnd { fe_serving : ServingState; fe_active : gmap string CachedActiveCheckpoint }.

Definition set_serving (serving : ServingState) (s : FrontEnd) : FrontEnd := mkFrontEnd serving (fe_active s).
Definition set_caches (caches : ServingCaches) (s : FrontEnd) : FrontEnd := set_serving (mkServingState caches (ss_summaries (fe_serving s))) s.
Definition set_active (active : gmap string CachedActiveCheckpoint) (s : FrontEnd) : FrontEnd := mkFrontEnd (fe_serving s) active.

Abbreviation ActiveLookup := (RST ActiveCheckpointLookupError FrontEnd).

(** Work on the snapshots; [map_err(ActiveCheckpointLookupError::Internal)]. *)
Definition on_snapshots {A} (m : ST ServingCaches A) : ActiveLookup A :=
  rst_map_err Internal (rst_zoom (λ s, ss_caches (fe_serving s)) set_caches m).

(** SRC query_server/src/exact_lookup.rs:137-139 service_error *)
Definition service_error {A} (m : outcome A) : result ActiveCheckpointLookupError A := map_err Internal m.

Section lookup.
Context `{jt : JsonText, ft : FloatText, fd : FloatDisplay, ho : HashOrder, kh : KeyHasher, src : SnapshotSource, side : SidecarSource, co : CompletionOrder}.
Context {W : Type} `{provider : StateProvider W}.

(** SRC query_server/src/exact_lookup.rs:87-135 load_active_checkpoint *)
Definition load_active_checkpoint (w : W) (table_name : string) : ActiveLookup TableMetadataCheckpoint :=
  rst_lift (service_error (sp_get_published_active_servable_checkpoint w table_name)) ≫= λ published,
  rst_lift (ok_or published (Err (NotFound ("No checkpoint was available for table " +:+ table_name)))) ≫= λ checkpoint_id,
  rst_gets (λ s, fe_active s !! table_name) ≫= λ cached,
  match cached with
  | Some (mkCachedActive cached_id checkpoint) => if decide (cached_id = checkpoint_id) then mret (Some checkpoint) else mret None
  | None => mret None
  end ≫= λ kept,
  match kept with
  | Some checkpoint => mret checkpoint
  | None =>
      rst_lift (service_error (sp_get_checkpoint w (new_descriptor table_name checkpoint_id))) ≫= λ found,
      rst_lift (ok_or found (Err (NotFound ("Checkpoint metadata was not found for table " +:+ table_name)))) ≫= λ checkpoint,
      rst_modify (λ s, set_active (<[table_name := mkCachedActive (cp_checkpoint_id checkpoint) checkpoint]> (fe_active s)) s) ≫= λ _,
      mret checkpoint
  end.

(** SRC query_server/src/exact_lookup.rs:33-42 execute_active_checkpoint_exact_lookup_batch_rows *)
Definition execute_active_checkpoint_exact_lookup_batch_rows (w : W) (table_name : string) (requests : list ServingRequestPlan) : ActiveLookup (option (list (list Value))) :=
  load_active_checkpoint w table_name ≫= λ checkpoint,
  on_snapshots (execute_checkpoint_exact_lookup_batch_rows checkpoint (read_plan <$> requests)).

(** SRC query_server/src/exact_lookup.rs:44-53 execute_active_checkpoint_exact_lookup_batch_projected_field_bytes *)
Definition execute_active_checkpoint_exact_lookup_batch_projected_field_bytes (w : W) (table_name : string) (requests : list ServingRequestPlan) :
    ActiveLookup (option (list (list ProjectedFieldBytesRow))) :=
  load_active_checkpoint w table_name ≫= λ checkpoint,
  on_snapshots (execute_checkpoint_exact_lookup_batch_projected_field_bytes checkpoint (read_plan <$> requests)).

(** SRC query_server/src/exact_lookup.rs:55-85 execute_active_checkpoint_projected_exact_id_lookup_rows *)
Definition execute_active_checkpoint_projected_exact_id_lookup_rows (w : W) (table_name : string) (doc_ids select : list string) : ActiveLookup (option (list Value)) :=
  if decide (doc_ids = []) then mret (Some [])
  else
    load_active_checkpoint w table_name ≫= λ checkpoint,
    let request := mkServingRequest (Some select) [mkServingPredicate "_id" None (Some (VString <$> doc_ids)) None None None None] None [] (Some (length doc_ids)) true false in
    on_snapshots (execute_checkpoint_exact_lookup_rows checkpoint (read_plan request)).
End lookup.

(** ** What is kept is not seen *)

Module ActiveLookupTheory.
Section theorems.
Context {W : Type} `{provider : StateProvider W}.

(** The active checkpoint as the provider has it. *)
Definition active_checkpoint (w : W) (table_name : string) : result ActiveCheckpointLookupError TableMetadataCheckpoint :=
  published ← service_error (sp_get_published_active_servable_checkpoint w table_name);
  checkpoint_id ← ok_or published (Err (NotFound ("No checkpoint was available for table " +:+ table_name)));
  found ← service_error (sp_get_checkpoint w (new_descriptor table_name checkpoint_id));
  ok_or found (Err (NotFound ("Checkpoint metadata was not found for table " +:+ table_name))).

(** The provider stores checkpoints under their ids. *)
Definition ids_right (w : W) : Prop := ∀ table_name id checkpoint, sp_get_checkpoint w (new_descriptor table_name id) = Ok (Some checkpoint) → cp_checkpoint_id checkpoint = id.

(** What is kept is what the provider has under the same id. *)
Definition active_ok (w : W) (s : FrontEnd) : Prop := ∀ table_name id checkpoint,
  fe_active s !! table_name = Some (mkCachedActive id checkpoint) → sp_get_checkpoint w (new_descriptor table_name id) = Ok (Some checkpoint).

Lemma load_active_pure w table_name s : ids_right w → active_ok w s → ∃ s', load_active_checkpoint w table_name s = (active_checkpoint w table_name, s') ∧ active_ok w s' ∧ fe_serving s' = fe_serving s.
Proof.
  intros Hids Hok. rw /load_active_checkpoint /active_checkpoint. destruct (sp_get_published_active_servable_checkpoint w table_name) as [published|e|r]; [|by exists s..].
  cbn [service_error map_err]. rw bind_Ok (rst_bind_Ok _ _ s published s) //. destruct published as [id|]; [|by exists s]. cbn [ok_or]. rw bind_Ok (rst_bind_Ok _ _ s id s) //.
  rw (rst_bind_Ok _ _ s (fe_active s !! table_name) s) //.
  assert (Hload : ∃ s', (rst_lift (service_error (sp_get_checkpoint w (new_descriptor table_name id))) ≫= λ found,
      rst_lift (ok_or found (Err (NotFound ("Checkpoint metadata was not found for table " +:+ table_name)))) ≫= λ checkpoint,
      rst_modify (λ s, set_active (<[table_name := mkCachedActive (cp_checkpoint_id checkpoint) checkpoint]> (fe_active s)) s) ≫= λ _, mret checkpoint) s =
    (found ← service_error (sp_get_checkpoint w (new_descriptor table_name id)); ok_or found (Err (NotFound ("Checkpoint metadata was not found for table " +:+ table_name))), s') ∧
    active_ok w s' ∧ fe_serving s' = fe_serving s).
  { destruct (sp_get_checkpoint w (new_descriptor table_name id)) as [[checkpoint|]|e|r] eqn:Hget; [|by exists s..]. eexists. split; [done|]. split; [|done].
    intros t i cp. cbn [set_active fe_active]. destruct (decide (t = table_name)) as [->|Hne]; [rw lookup_insert_eq; intros [= <- <-]; by rw (Hids _ _ _ Hget)|].
    rw lookup_insert_ne; [by apply not_eq_sym|]. apply Hok. }
  destruct (fe_active s !! table_name) as [[cached_id checkpoint]|] eqn:Hc; [|exact Hload]. case_decide as Hid; [|exact Hload]. subst. rw (rst_bind_Ok _ _ s (Some checkpoint) s) //.
  exists s. rw (Hok _ _ _ Hc). done.
Qed.
End theorems.
End ActiveLookupTheory.
