(* ===== verification/RedisWire.v ===== *)
(** * The Redis wire protocol (query_server/src/redis_wire_protocol.rs)

    Commands arrive as RESP arrays or inline lines and replies leave as RESP values.
    The connection is the string of bytes not yet read.  The theorems show that
    pipelined commands are read back in order whatever bytes their arguments hold,
    that a reply determines its value, and that every command read consumes input. *)

From S2P Require Import Prelude Text.

Definition CR : Ascii.ascii := "013"%char.
Definition LF : Ascii.ascii := "010"%char.
Definition CRLF : string := String CR (String LF "").

(** ** Reading *)

Definition isize_max : Z := 2 ^ 63 - 1.

(** [read_until]: up to and including the byte, or all that is left. *)
Fixpoint read_until (c : Ascii.ascii) (s : string) : string * string :=
  match s with
  | EmptyString => ("", "")
  | String a s =>
      if Ascii.eqb a c then (String a "", s)
      else let '(line, rest) := read_until c s in (String a line, rest)
  end.

(** The line without its last two bytes, when these are CR and LF. *)
Fixpoint strip_crlf (line : string) : option string :=
  match line with
  | EmptyString => None
  | String a s => if decide (line = CRLF) then Some "" else String a <$> strip_crlf s
  end.

(** SRC query_server/src/redis_wire_protocol.rs:108-121 read_line *)
Definition read_line : ST string (option string) := λ stream,
  let '(line, rest) := read_until LF stream in
  if decide (line = "") then (Ok None, rest)
  else match strip_crlf line with
       | None => (Err "Redis line was not CRLF terminated", rest)
       | Some text =>
           if utf8_valid text then (Ok (Some text), rest) else (Err "Redis line was not valid UTF-8", rest)
       end.

(** SRC query_server/src/redis_wire_protocol.rs:123-131 parse_length *)
Definition parse_length (raw field_name : string) : outcome Z :=
  match parse_i64 raw with
  | None => Err (field_name +:+ " was invalid")
  | Some value => if (value <? 0)%Z then Err (field_name +:+ " was negative") else Ok value
  end.

(** [&line[1..]] of a line that is not empty. *)
Definition text_after_prefix (line : string) : string := match line with EmptyString => "" | String _ text => text end.

(** The first [n] bytes, [None] when fewer are left. *)
Fixpoint take_bytes (n : Z) (s : string) : option (string * string) :=
  if (n <=? 0)%Z then Some ("", s)
  else match s with
       | EmptyString => None
       | String a s => '(payload, rest) ← take_bytes (n - 1) s; Some (String a payload, rest)
       end.

(** SRC query_server/src/redis_wire_protocol.rs:95-106 read_bulk_string *)
Definition read_bulk_string (header : string) : ST string string :=
  length ← st_lift (parse_length (text_after_prefix header) "Redis bulk string length");
  if (isize_max <? length + 2)%Z then st_lift (Panic "capacity overflow")
  else λ stream,
    match take_bytes length stream with
    | None => (Err "early eof", "")
    | Some (payload, rest) =>
        match take_bytes 2 rest with
        | None => (Err "early eof", "")
        | Some (terminator, rest) =>
            if decide (terminator = CRLF) then
              if utf8_valid payload then (Ok payload, rest) else (Err "Redis bulk string was not valid UTF-8", rest)
            else (Err "Redis bulk string was missing CRLF terminator", rest)
        end
    end.

(** The loop of [parse_array_command]. *)
Fixpoint read_items (item_count : nat) : ST string (list string) :=
  match item_count with
  | O => mret []
  | S item_count =>
      header ← read_line;
      item ← match header with
             | None => st_lift (Err "Redis array item header ended early")
             | Some header =>
                 match header with
                 | EmptyString => st_lift (Err "Redis array item header was empty")
                 | String prefix text =>
                     if Ascii.eqb prefix "$" then read_bulk_string header
                     else if Ascii.eqb prefix "+" then mret text
                     else if Ascii.eqb prefix ":" then mret text
                     else st_lift (Err ("Unsupported Redis command argument prefix " +:+ String prefix ""))
                 end
             end;
      items ← read_items item_count;
      mret (item :: items)
  end.

(** A [String] takes 24 bytes, so a capacity beyond [isize::MAX / 24] panics. *)
(** SRC query_server/src/redis_wire_protocol.rs:66-93 parse_array_command *)
Definition parse_array_command (line : string) : ST string (list string) :=
  item_count ← st_lift (parse_length (text_after_prefix line) "Redis array length");
  if (isize_max <? 24 * item_count)%Z then st_lift (Panic "capacity overflow")
  else read_items (Z.to_nat item_count).

(** SRC query_server/src/redis_wire_protocol.rs:48-64 read_command *)
Definition read_command : ST string (option (list string)) :=
  line ← read_line;
  match line with
  | None => mret None
  | Some EmptyString => st_lift (Err "Redis command prefix was empty")
  | Some (String prefix _ as line) =>
      if Ascii.eqb prefix "*" then items ← parse_array_command line; mret (Some items)
      else mret (Some (split_whitespace line))
  end.

(** ** Replies *)

(** SRC query_server/src/redis_protocol.rs:43-50 RespValue *)
Inductive RespValue : Type :=
| SimpleString (text : string)
| BulkString (bytes : string)
| NullBulkString
| RInteger (value : Z)
| RArray (items : list RespValue).

(** SRC query_server/src/redis_wire_protocol.rs:133-152 encode_resp_value *)
Fixpoint encode_resp_value (value : RespValue) : string :=
  match value with
  | SimpleString text => "+" +:+ text +:+ CRLF
  | BulkString bytes => "$" +:+ print_int (Z.of_nat (String.length bytes)) +:+ CRLF +:+ bytes +:+ CRLF
  | NullBulkString => "$-1" +:+ CRLF
  | RInteger value => ":" +:+ print_int value +:+ CRLF
  | RArray items =>
      "*" +:+ print_int (Z.of_nat (length items)) +:+ CRLF +:+
      (fix encode_items (items : list RespValue) : string :=
         match items with
         | [] => ""
         | item :: items => encode_resp_value item +:+ encode_items items
         end) items
  end.

(** The unit test of the source. *)
Example nested_arrays_encode :
  encode_resp_value (RArray [BulkString "hello"; RInteger 2; RArray [NullBulkString]]) =
  "*3" +:+ CRLF +:+ "$5" +:+ CRLF +:+ "hello" +:+ CRLF +:+ ":2" +:+ CRLF +:+ "*1" +:+ CRLF +:+ "$-1" +:+ CRLF.
Proof. reflexivity. Qed.

(** ** The connection loop

    [execute selected_db args env] is the command executor (redis_protocol.rs): the reply
    and whether to close, or an error message, with the database it selects and what it
    leaves of the environment; a panic ends the task of the connection. *)
Section connection.
Context {Env : Type} (execute : Z → list string → Env → outcome (RespValue * bool) * Z * Env).

(** How a connection ends, and all the bytes written to the socket.  Every command
    read consumes input, so the length of the input bounds the rounds
    ([connection_total]). *)
(** SRC query_server/src/redis_wire_protocol.rs:19-46 handle_connection *)
Fixpoint handle_connection (fuel : nat) (selected_db : Z) (env : Env) (stream written : string) : option (outcome () * string) :=
  match fuel with
  | O => None
  | S fuel =>
      match read_command stream with
      | (Ok None, _) => Some (Ok (), written)
      | (Ok (Some args), rest) =>
          let '(result, selected_db, env) := execute selected_db args env in
          match result with
          | Ok (response, close_connection) =>
              let written := written +:+ encode_resp_value response in
              if close_connection : bool then Some (Ok (), written)
              else handle_connection fuel selected_db env rest written
          | Err message => handle_connection fuel selected_db env rest (written +:+ "-" +:+ message +:+ CRLF)
          | Panic reason => Some (Panic reason, written)
          end
      | (Err error, _) => Some (Err error, written)
      | (Panic reason, _) => Some (Panic reason, written)
      end
  end.

(** What a client that sends [cmds] and hangs up should receive, and how it ends. *)
Definition after (written : string) (rest : outcome () * string) : outcome () * string := (rest.1, written +:+ rest.2).
Fixpoint answers (cmds : list (list string)) (selected_db : Z) (env : Env) : outcome () * string :=
  match cmds with
  | [] => (Ok (), "")
  | args :: cmds =>
      let '(result, selected_db, env) := execute selected_db args env in
      match result with
      | Ok (response, true) => (Ok (), encode_resp_value response)
      | Ok (response, false) => after (encode_resp_value response) (answers cmds selected_db env)
      | Err message => after ("-" +:+ message +:+ CRLF) (answers cmds selected_db env)
      | Panic reason => (Panic reason, "")
      end
  end.
End connection.

(** ** Numbers *)

Lemma read_until_line text rest :
  str_mem LF text = false → read_until LF (text +:+ CRLF +:+ rest) = (text +:+ CRLF, rest).
Proof.
  induction text as [|a text IH]; [done|]. simpl. intros [Ha Ht]%orb_false_iff.
  rw !str_app_cons /= Ha IH //.
Qed.

Lemma strip_crlf_app text : strip_crlf (text +:+ CRLF) = Some text.
Proof.
  induction text as [|a text IH]; [done|]. rw str_app_cons. cbn [strip_crlf]. rw decide_False; [|by rw IH].
  intros Heq%(f_equal String.length). rw /= str_length_app /= in Heq. lia.
Qed.

Lemma read_line_line text rest :
  str_mem LF text = false → utf8_valid text = true → read_line (text +:+ CRLF +:+ rest) = (Ok (Some text), rest).
Proof.
  intros Hl Hu. rw /read_line read_until_line //. rw decide_False; [|by rw strip_crlf_app Hu].
  intros Heq%(f_equal String.length). rw str_length_app /= in Heq. lia.
Qed.

(** Prefixed decimal numbers are lines. *)
Lemma print_int_line n : str_mem LF (print_int n) = false ∧ utf8_valid (print_int n) = true.
Proof.
  split; [|apply print_int_utf8]. rw /print_int. destruct (Z.ltb_spec n 0).
  - destruct (print_nat_spec (- n)) as (Hd & _); [lia|]. simpl. by apply digits_only_no_char.
  - destruct (print_nat_spec n) as (Hd & _); [lia|]. by apply digits_only_no_char.
Qed.

Lemma header_line a n rest :
  Ascii.eqb a LF = false → in_range 0 127 a = true →
  read_line (String a (print_int n +:+ CRLF +:+ rest)) = (Ok (Some (String a (print_int n))), rest).
Proof.
  intros Ha Hr. rw -str_app_cons. destruct (print_int_line n) as [Hl Hu]. apply read_line_line.
  - by rw /= Ha Hl.
  - by rw /= Hr Hu.
Qed.

Lemma parse_length_print n what : (0 ≤ n ≤ isize_max)%Z → parse_length (print_int n) what = Ok n.
Proof.
  rw /isize_max. intros Hn. rw /parse_length parse_print_int; [lia|].
  destruct (Z.ltb_spec n 0); [lia|done].
Qed.

(** ** Payloads *)

Lemma take_bytes_app s rest : take_bytes (Z.of_nat (String.length s)) (s +:+ rest) = Some (s, rest).
Proof.
  induction s as [|a s IH]; [by destruct rest|]. rw str_app_cons. cbn [take_bytes].
  destruct (Z.leb_spec (Z.of_nat (String.length (String a s))) 0) as [Hle|_]; [simpl in Hle; lia|].
  replace (Z.of_nat (String.length (String a s)) - 1)%Z with (Z.of_nat (String.length s)) by (simpl; lia).
  by rw IH.
Qed.

Lemma take_crlf rest : take_bytes 2 (CRLF +:+ rest) = Some (CRLF, rest).
Proof. exact (take_bytes_app CRLF rest). Qed.

(** An argument the server can receive. *)
Definition arg_ok (arg : string) : Prop :=
  utf8_valid arg = true ∧ (Z.of_nat (String.length arg) + 2 ≤ isize_max)%Z.

Lemma read_bulk_bulk arg rest :
  arg_ok arg →
  read_bulk_string (String "$" (print_int (Z.of_nat (String.length arg)))) (arg +:+ CRLF +:+ rest) = (Ok arg, rest).
Proof.
  intros [Hu Hl]. rw /read_bulk_string st_bind_unfold /st_lift [text_after_prefix _]/=.
  rw parse_length_print; [lia|]. destruct (Z.ltb_spec isize_max (Z.of_nat (String.length arg) + 2)); [lia|].
  by rw take_bytes_app take_crlf /= Hu.
Qed.

Lemma encode_bulk arg rest :
  encode_resp_value (BulkString arg) +:+ rest =
  String "$" (print_int (Z.of_nat (String.length arg)) +:+ CRLF +:+ arg +:+ CRLF +:+ rest).
Proof. cbn [encode_resp_value]. rw !str_app_assoc. done. Qed.

(** A command as a client sends it. *)
Definition encode_command (args : list string) : string := encode_resp_value (RArray (BulkString <$> args)).

Fixpoint encode_args (args : list string) : string :=
  match args with [] => "" | arg :: args => encode_resp_value (BulkString arg) +:+ encode_args args end.

Lemma encode_command_unfold args :
  encode_command args = String "*" (print_int (Z.of_nat (length args)) +:+ CRLF +:+ encode_args args).
Proof.
  rw /encode_command /=. rw length_fmap str_app_cons str_app_nil_l. do 3 f_equal.
  induction args as [|arg args IH]; [done|]. simpl. by rw IH.
Qed.

Lemma read_items_args args rest :
  Forall arg_ok args → read_items (length args) (encode_args args +:+ rest) = (Ok args, rest).
Proof.
  induction args as [|arg args IH]; intros Hok; [done|]. apply Forall_cons in Hok as [Ha Hargs].
  cbn [length read_items encode_args]. rw st_bind_unfold str_app_assoc encode_bulk header_line //.
  rw st_bind_unfold /= read_bulk_bulk // st_bind_unfold IH //.
Qed.

(** Commands the server can receive. *)
Definition command_ok (args : list string) : Prop :=
  Forall arg_ok args ∧ (24 * Z.of_nat (length args) ≤ isize_max)%Z.

Lemma read_command_command args rest :
  command_ok args → read_command (encode_command args +:+ rest) = (Ok (Some args), rest).
Proof.
  intros [Hok Hl]. rw encode_command_unfold str_app_cons !str_app_assoc /read_command st_bind_unfold header_line //.
  rw Ascii.eqb_refl st_bind_unfold /parse_array_command st_bind_unfold /st_lift [text_after_prefix _]/=.
  rw parse_length_print; [rw /isize_max in Hl |- *; lia|].
  destruct (Z.ltb_spec isize_max (24 * Z.of_nat (length args))); [lia|]. rw Nat2Z.id read_items_args //.
Qed.

(** ** Progress *)

Definition shrinks (s s' : string) : Prop := String.length s' ≤ String.length s.
#[local] Instance shrinks_preorder : PreOrder shrinks.
Proof. rw /shrinks. split; [by intros ?|intros ???; lia]. Qed.

Lemma read_until_length c s :
  let '(line, rest) := read_until c s in String.length line + String.length rest = String.length s.
Proof.
  induction s as [|a s IH]; simpl; [done|]. destruct (Ascii.eqb a c); [done|].
  destruct (read_until c s) as [line rest]. simpl. lia.
Qed.

Lemma take_bytes_length n s p rest : take_bytes n s = Some (p, rest) → String.length rest ≤ String.length s.
Proof.
  revert n p. induction s as [|a s IH]; intros n p; cbn [take_bytes]; destruct (n <=? 0)%Z; try naive_solver.
  destruct (take_bytes (n - 1) s) as [[p' rest']|] eqn:Ht; [|done]. intros [= <- <-]. apply IH in Ht. simpl. lia.
Qed.

Lemma read_line_progress s :
  if decide (s = "") then read_line s = (Ok None, "")
  else String.length (exec read_line s) < String.length s ∧ (read_line s).1 ≠ Ok None.
Proof.
  case_decide as Hs; [by subst|]. rw /exec /read_line. pose proof (read_until_length LF s) as Hl.
  destruct (read_until LF s) as [line rest] eqn:Hr.
  assert (Hline : line ≠ "").
  { intros ->. destruct s as [|a s]; [done|]. simpl in Hr. destruct (Ascii.eqb a LF); [done|]. by destruct (read_until LF s). }
  rw decide_False //. assert (0 < String.length line) by (destruct line; simpl; [done|lia]).
  destruct (strip_crlf line); [destruct (utf8_valid _)|]; simpl; split; done || lia.
Qed.

Lemma read_line_shrinks : st_rel shrinks read_line.
Proof.
  intros s. pose proof (read_line_progress s) as Hp. rw /shrinks. case_decide as Hs; [|lia].
  rw /exec Hp /=. lia.
Qed.

Lemma read_bulk_shrinks header : st_rel shrinks (read_bulk_string header).
Proof.
  apply st_rel_bind; [apply _|apply st_rel_lift; apply _|intros len]. destruct (_ <? _)%Z; [apply st_rel_lift; apply _|].
  intros s. rw /exec /shrinks. destruct (take_bytes len s) as [[p rest]|] eqn:Ht; [|simpl; lia].
  apply take_bytes_length in Ht. destruct (take_bytes 2 rest) as [[t rest']|] eqn:Ht'; [|simpl; lia].
  apply take_bytes_length in Ht'. destruct (decide _); [destruct (utf8_valid p)|]; simpl; lia.
Qed.
#[local] Hint Resolve read_line_shrinks read_bulk_shrinks : st_rel.

Lemma read_items_shrinks n : st_rel shrinks (read_items n).
Proof. induction n as [|n IH]; cbn [read_items]; st_rel_tac. Qed.
#[local] Hint Resolve read_items_shrinks : st_rel.

(** Reading a command consumes input, and an exhausted stream is the end. *)
Lemma read_command_progress s :
  if decide (s = "") then read_command s = (Ok None, "")
  else String.length (exec read_command s) < String.length s.
Proof.
  pose proof (read_line_progress s) as Hp. case_decide as Hs; [by rw /read_command st_bind_unfold Hp|].
  destruct Hp as [Hlt Hne]. rw /exec in Hlt. rw /exec /read_command st_bind_unfold.
  destruct (read_line s) as [[line|?|?] rest]; simpl in *; [|done..]. destruct line as [line|]; [|done].
  assert (Hrest : ∀ m : ST string (option (list string)), st_rel shrinks m → String.length (m rest).2 < String.length s).
  { intros m Hm. specialize (Hm rest). rw /exec /shrinks in Hm. lia. }
  apply Hrest. destruct line as [|prefix line]; [st_rel_tac|]. rw /parse_array_command. st_rel_tac.
Qed.

Section connection_theory.
Context {Env : Type} (execute : Z → list string → Env → outcome (RespValue * bool) * Z * Env).

Lemma connection_total fuel db env stream written :
  String.length stream < fuel → is_Some (handle_connection execute fuel db env stream written).
Proof.
  revert db env stream written. induction fuel as [|fuel IH]; intros db env stream written Hf; [lia|]. simpl.
  pose proof (read_command_progress stream) as Hp. case_decide as Hs; [by rw Hp|]. rw /exec in Hp.
  destruct (read_command stream) as [[[args|]|?|?] rest]; simpl in Hp; try done.
  destruct (execute db args env) as [[[[response []]|message|reason] db'] env']; [done|apply IH; lia..|done].
Qed.

Lemma connection_answers cmds fuel db env written :
  Forall command_ok cmds → length cmds < fuel →
  handle_connection execute fuel db env (foldr (λ c s, encode_command c +:+ s) "" cmds) written =
  Some (after written (answers execute cmds db env)).
Proof.
  revert fuel db env written. induction cmds as [|c cmds IH]; intros fuel db env written Hok Hf; simpl.
  - destruct fuel; [lia|]. simpl. by rw /after str_app_nil_r.
  - apply Forall_cons in Hok as [Hc Hok]. destruct fuel as [|fuel]; [simpl in Hf; lia|]. cbn [handle_connection].
    rw read_command_command //. simpl in Hf.
    destruct (execute db c env) as [[[[response []]|message|reason] db'] env']; [done| | |by rw /after str_app_nil_r].
    + rw IH //; [lia|]. by rw /after /= !str_app_assoc.
    + rw IH //; [lia|]. by rw /after /= !str_app_assoc.
Qed.
End connection_theory.

(** ** Reading replies back

    A reader of RESP replies as a client has one; [fuel] bounds the nesting. *)
Fixpoint decode_items (decode : string → option (RespValue * string)) (n : nat) (s : string) : option (list RespValue * string) :=
  match n with
  | O => Some ([], s)
  | S n =>
      '(item, s) ← decode s;
      '(items, s) ← decode_items decode n s;
      Some (item :: items, s)
  end.

Fixpoint decode_resp (fuel : nat) (s : string) : option (RespValue * string) :=
  match fuel with
  | O => None
  | S fuel =>
      let '(line, rest) := read_until LF s in
      match strip_crlf line with
      | Some (String prefix text) =>
          if Ascii.eqb prefix "+" then Some (SimpleString text, rest)
          else n ← parse_i64 text;
               if Ascii.eqb prefix ":" then Some (RInteger n, rest)
               else if Ascii.eqb prefix "$" then
                 if decide (n = (-1)%Z) then Some (NullBulkString, rest)
                 else '(bytes, rest) ← take_bytes n rest;
                      '(_, rest) ← take_bytes 2 rest;
                      Some (BulkString bytes, rest)
               else if Ascii.eqb prefix "*" then
                 '(items, rest) ← decode_items (decode_resp fuel) (Z.to_nat n) rest;
                 Some (RArray items, rest)
               else None
      | _ => None
      end
  end.

(** Nesting depth, and the values a reply can carry: lines without a line feed,
    64-bit integers and lengths. *)
Fixpoint resp_depth (v : RespValue) : nat :=
  match v with
  | RArray items => S (foldr (λ v d, Nat.max (resp_depth v) d) 0 items)
  | _ => 1
  end.

Inductive resp_ok : RespValue → Prop :=
| ok_simple text : str_mem LF text = false → resp_ok (SimpleString text)
| ok_bulk bytes : (Z.of_nat (String.length bytes) < 2 ^ 63)%Z → resp_ok (BulkString bytes)
| ok_null : resp_ok NullBulkString
| ok_int n : (- 2 ^ 63 ≤ n < 2 ^ 63)%Z → resp_ok (RInteger n)
| ok_array items : (Z.of_nat (length items) < 2 ^ 63)%Z → Forall resp_ok items → resp_ok (RArray items).

Section resp_ind.
Context (P : RespValue → Prop).
Hypothesis Hs : ∀ t, P (SimpleString t).
Hypothesis Hb : ∀ b, P (BulkString b).
Hypothesis Hn : P NullBulkString.
Hypothesis Hi : ∀ n, P (RInteger n).
Hypothesis Ha : ∀ l, Forall P l → P (RArray l).
Fixpoint RespValue_nested_ind (v : RespValue) : P v :=
  match v with
  | SimpleString t => Hs t
  | BulkString b => Hb b
  | NullBulkString => Hn
  | RInteger n => Hi n
  | RArray l => Ha l
      ((fix go (l : list RespValue) : Forall P l :=
          match l with
          | [] => Forall_nil_2 P
          | v :: l => Forall_cons_2 P v l (RespValue_nested_ind v) (go l)
          end) l)
  end.
End resp_ind.

Definition encode_all (items : list RespValue) : string := foldr (λ v s, encode_resp_value v +:+ s) "" items.

Lemma encode_array items :
  encode_resp_value (RArray items) = String "*" (print_int (Z.of_nat (length items)) +:+ CRLF +:+ encode_all items).
Proof. done. Qed.

Lemma decode_header fuel a text rest :
  Ascii.eqb a LF = false → str_mem LF text = false →
  decode_resp (S fuel) (String a (text +:+ CRLF +:+ rest)) =
  (if Ascii.eqb a "+" then Some (SimpleString text, rest)
   else n ← parse_i64 text;
        if Ascii.eqb a ":" then Some (RInteger n, rest)
        else if Ascii.eqb a "$" then
          if decide (n = (-1)%Z) then Some (NullBulkString, rest)
          else '(bytes, rest) ← take_bytes n rest;
               '(_, rest) ← take_bytes 2 rest;
               Some (BulkString bytes, rest)
        else if Ascii.eqb a "*" then
          '(items, rest) ← decode_items (decode_resp fuel) (Z.to_nat n) rest;
          Some (RArray items, rest)
        else None).
Proof.
  intros Ha Ht. cbn [decode_resp]. rw -str_app_cons read_until_line; [by rw /= Ha Ht|]. by rw strip_crlf_app.
Qed.

Lemma decode_items_all (decode : string → option (RespValue * string)) items rest :
  Forall (λ v, ∀ rest, decode (encode_resp_value v +:+ rest) = Some (v, rest)) items →
  decode_items decode (length items) (encode_all items +:+ rest) = Some (items, rest).
Proof.
  induction 1 as [|v items Hv _ IH]; [done|]. cbn [length decode_items encode_all foldr]. rw str_app_assoc Hv /=.
  fold (encode_all items). by rw IH.
Qed.

Lemma decode_encode v : resp_ok v → ∀ fuel rest, resp_depth v ≤ fuel → decode_resp fuel (encode_resp_value v +:+ rest) = Some (v, rest).
Proof.
  induction v as [t|b| |n|items IH] using RespValue_nested_ind; intros Hok [|fuel] rest Hd; try (simpl in Hd; lia); inversion Hok as [? Ht|? Hl| |? Hn|? Hl Hall]; subst.
  - cbn [encode_resp_value]. by rw !str_app_assoc str_app_cons str_app_nil_l decode_header.
  - rw encode_bulk decode_header //; [apply print_int_line|]. rw parse_print_int; [lia|]. simpl.
    rw decide_False; [lia|]. rw take_bytes_app. by destruct rest.
  - by apply (decode_header fuel "$" "-1" rest).
  - cbn [encode_resp_value]. rw !str_app_assoc str_app_cons str_app_nil_l decode_header //; [apply print_int_line|].
    rw parse_print_int //.
  - rw encode_array str_app_cons !str_app_assoc decode_header //; [apply print_int_line|].
    rw parse_print_int; [lia|]. simpl. rw Nat2Z.id decode_items_all //.
    simpl in Hd. clear Hok Hl. assert (Hd' : foldr (λ v d, Nat.max (resp_depth v) d) 0 items ≤ fuel) by lia. clear Hd.
    induction IH as [|v items Hv _ IHl]; [constructor|]. apply Forall_cons in Hall as [Hv' Hall]. simpl in Hd'.
    constructor; [intros rest'; apply Hv; [done|lia]|]. apply IHl; [done|lia].
Qed.

(** ** Properties *)
Module RedisWireTheory.
Section theorems.
Context {Env : Type} (execute : Z → list string → Env → outcome (RespValue * bool) * Z * Env).

(** Pipelined commands are answered in order: a client that sends any number of
    commands as RESP arrays, with arguments of any UTF-8 bytes, line breaks included,
    and then closes receives exactly the replies of executing them one after another,
    up to one that closes the connection, or that panics and ends it. *)
Theorem pipelined_commands_answered_in_order cmds db env :
  Forall command_ok cmds →
  handle_connection execute (S (length cmds)) db env (foldr (λ c s, encode_command c +:+ s) "" cmds) "" =
  Some (answers execute cmds db env).
Proof. intros Hok. rw connection_answers; [done|lia|]. rw /after str_app_nil_l. by destruct (answers execute cmds db env). Qed.

(** A connection ends on every input, well formed or not: a round reads at least
    one byte, so one round more than the input has bytes is enough. *)
Theorem connection_terminates db env stream :
  is_Some (handle_connection execute (S (String.length stream)) db env stream "").
Proof. apply connection_total. lia. Qed.
End theorems.

(** A reply determines its value: the encoding of any reply, followed by anything,
    reads back as that reply and leaves what followed. *)
Theorem encoded_reply_decodes v rest :
  resp_ok v → decode_resp (resp_depth v) (encode_resp_value v +:+ rest) = Some (v, rest).
Proof. intros Hok. by apply decode_encode. Qed.
End RedisWireTheory.

Module RedisWireDemo.
Import RedisWireTheory.

(** An executor that echoes its arguments and counts commands. *)
Definition echo (db : Z) (args : list string) (n : nat) : outcome (RespValue * bool) * Z * nat :=
  (Ok (RArray (RInteger (Z.of_nat n) :: (BulkString <$> args)), false), db, S n).

Definition demo_commands : list (list string) := [["GET"; "a" +:+ CRLF]; ["PING"]].

Lemma demo_commands_ok : Forall command_ok demo_commands.
Proof.
  repeat match goal with
  | |- Forall _ _ => constructor
  | |- command_ok _ => split
  | |- arg_ok _ => split
  | |- (_ ≤ _)%Z => vm_compute; discriminate
  end; reflexivity.
Qed.

Lemma pipelined_commands_answered_in_order_witness :
  handle_connection echo 3 0 0 (encode_command ["GET"; "a" +:+ CRLF] +:+ encode_command ["PING"]) "" =
  Some (answers echo demo_commands 0 0).
Proof. exact (pipelined_commands_answered_in_order echo demo_commands 0 0 demo_commands_ok). Defined.

Definition demo_reply : RespValue := RArray [BulkString CRLF; NullBulkString; RArray [SimpleString "OK"; RInteger (-3)]].

Lemma encoded_reply_decodes_witness : decode_resp (resp_depth demo_reply) (encode_resp_value demo_reply +:+ "tail") = Some (demo_reply, "tail").
Proof.
  apply (encoded_reply_decodes demo_reply "tail").
  repeat (constructor; try (vm_compute; first [reflexivity | discriminate])).
Defined.

(** An array header alone can end the connection task in a panic. *)
Theorem array_length_panics rest :
  (read_command ("*9223372036854775807" +:+ CRLF +:+ rest)).1 = Panic "capacity overflow".
Proof.
  rw /read_command st_bind_unfold (read_line_line "*9223372036854775807") //.
Qed.
End RedisWireDemo.
