(* ===== verification/RedisCommands.v ===== *)
(** * Redis commands (query_server/src/redis_protocol.rs)

    A table is exposed as a Redis database: a configured column is the key, another one
    the value, and the columns of the row are the fields of a hash.  Commands look rows
    up in the active checkpoint.  Which table a database stands for is kept per process.

    A command sees one state of the metadata provider; what the process keeps is the
    state that is passed on. *)

From S2P Require Import Prelude Text Json JsonText Schema FileSet Contract Checkpoint QueryPath Pruning Planner SnapshotCodec SnapshotLookup SnapshotServing TopK ServingExec Provider ActiveLookup RedisWire.
From S2P Require Import StableSort.

(** ** Data *)

(** SRC query_server/src/redis_protocol.rs:36-41 RedisConfigResponse *)
Record RedisConfigResponse : Type := mkRedisConfigResponse { rr_acknowledged : bool; rr_table : string; rr_redis : RedisTableConfig }.

(** SRC query_server/src/redis_protocol.rs:52-56 RedisCommandResult *)
Record RedisCommandResult : Type := mkCommandResult { response : RespValue; close_connection : bool }.

(** SRC query_server/src/redis_protocol.rs:58-63 RedisCommandError *)
Record RedisCommandError : Type := mkCommandError { ce_status : Z; ce_prefix : string; ce_message : string }.

(** SRC query_server/src/redis_protocol.rs:65-69 RedisTableBinding *)
Record RedisTableBinding : Type := mkTableBinding { tb_table_name : string; tb_config : RedisTableConfig }.

(** SRC query_server/src/redis_protocol.rs:71-77 ResolvedRedisDatabaseBinding *)
Record ResolvedRedisDatabaseBinding : Type := mkResolvedBinding {
  rb_binding : RedisTableBinding;
  rb_active_checkpoint_id : string;
  rb_known_fields : gset string;
  rb_all_fields : list string;
}.

(** What a process keeps, with [REDIS_DATABASE_BINDING_CACHE]. *)
(** SRC query_server/src/redis_protocol.rs:79-80 REDIS_DATABASE_BINDING_CACHE *)
Record RedisProcess : Type := mkRedisProcess { rp_front : FrontEnd; rp_bindings : gmap Z ResolvedRedisDatabaseBinding }.
Definition set_front (front : FrontEnd) (s : RedisProcess) : RedisProcess := mkRedisProcess front (rp_bindings s).
Definition keep_binding (database : Z) (binding : ResolvedRedisDatabaseBinding) (s : RedisProcess) : RedisProcess :=
  mkRedisProcess (rp_front s) (<[database := binding]> (rp_bindings s)).

Abbreviation redis := (result RedisCommandError).
Abbreviation Redis := (RST RedisCommandError RedisProcess).

(** ** Errors *)

(** SRC query_server/src/redis_protocol.rs:85-91= RedisCommandError::validation *)
Definition validation_error (message : string) : RedisCommandError := mkCommandError 400 "ERR" message.
(** SRC query_server/src/redis_protocol.rs:93-99= RedisCommandError::namespace_not_found *)
Definition namespace_not_found (message : string) : RedisCommandError := mkCommandError 404 "ERR" message.
(** SRC query_server/src/redis_protocol.rs:101-107= RedisCommandError::internal *)
Definition internal_error (message : string) : RedisCommandError := mkCommandError 503 "ERR" message.
(** SRC query_server/src/redis_protocol.rs:109-111= RedisCommandError::unsupported *)
Definition unsupported (command : string) : RedisCommandError := validation_error ("unsupported Redis command " +:+ command).
(** SRC query_server/src/redis_protocol.rs:113-119= RedisCommandError::read_only *)
Definition read_only_error : RedisCommandError := mkCommandError 403 "READONLY" "This Powdrr Redis frontend is running in read-only mode".
(** SRC query_server/src/redis_protocol.rs:121-123= RedisCommandError::resp_message *)
Definition resp_message (error : RedisCommandError) : string := ce_prefix error +:+ " " +:+ ce_message error.

Definition validation {A} (message : string) : redis A := Err (validation_error message).

(** SRC query_server/src/redis_protocol.rs:1184-1192 convert_serving_error *)
Definition convert_serving_error (error : ServingQueryError) : RedisCommandError :=
  if (sqe_status error =? 404)%Z then namespace_not_found (sqe_message error)
  else if (sqe_status error =? 400)%Z || (sqe_status error =? 422)%Z then validation_error (sqe_message error)
  else internal_error (sqe_message error).

(** SRC query_server/src/redis_protocol.rs:1194-1201 convert_active_checkpoint_lookup_error *)
Definition convert_active_checkpoint_lookup_error (error : ActiveCheckpointLookupError) : RedisCommandError :=
  match error with NotFound message => namespace_not_found message | Internal message => internal_error message end.

(** SRC query_server/src/redis_protocol.rs:1203-1205 service_error *)
Definition service_error {A} (m : outcome A) : redis A := map_err internal_error m.

(** ** Commands about the connection *)

(** SRC query_server/src/redis_protocol.rs:272-304 is_known_redis_write_command *)
Definition is_known_redis_write_command (command : string) : bool :=
  bool_decide (command ∈ ["APPEND"; "DECR"; "DECRBY"; "DEL"; "EXPIRE"; "FLUSHALL"; "FLUSHDB"; "GETSET"; "HDEL"; "HINCRBY"; "HMSET"; "HSET"; "INCR"; "INCRBY";
    "LPOP"; "LPUSH"; "MSET"; "PERSIST"; "PSETEX"; "RPOP"; "RPUSH"; "SADD"; "SET"; "SETEX"; "SETNX"; "UNLINK"; "XADD"; "ZADD"]).

(** SRC query_server/src/redis_protocol.rs:1241-1246 simple_result *)
Definition simple_result (value : string) : RedisCommandResult := mkCommandResult (SimpleString value) false.
(** SRC query_server/src/redis_protocol.rs:1237-1239 ok_result *)
Definition ok_result : RedisCommandResult := simple_result "OK".
(** A reply that leaves the connection open. *)
Definition reply (value : RespValue) : RedisCommandResult := mkCommandResult value false.
(** SRC query_server/src/redis_protocol.rs:1248-1250 bulk *)
Definition bulk (value : string) : RespValue := BulkString value.

(** SRC query_server/src/redis_protocol.rs:306-317 execute_ping *)
Definition execute_ping (args : list string) : redis RedisCommandResult :=
  match args with
  | [] => Ok (simple_result "PONG")
  | [message] => Ok (reply (BulkString message))
  | _ => validation "wrong number of arguments for 'ping' command"
  end.

(** SRC query_server/src/redis_protocol.rs:319-329 execute_echo *)
Definition execute_echo (args : list string) : redis RedisCommandResult :=
  match args with
  | [message] => Ok (reply (BulkString message))
  | _ => validation "wrong number of arguments for 'echo' command"
  end.

(** SRC query_server/src/redis_protocol.rs:331-341 execute_quit *)
Definition execute_quit (args : list string) : redis RedisCommandResult :=
  match args with
  | [] => Ok (mkCommandResult (SimpleString "OK") true)
  | _ => validation "wrong number of arguments for 'quit' command"
  end.

(** SRC query_server/src/redis_protocol.rs:343-365 execute_command_command *)
Definition execute_command_command (args : list string) : redis RedisCommandResult :=
  match args with
  | [] => Ok (reply (RArray []))
  | subcommand :: _ => Ok (reply (if String.eqb (to_ascii_uppercase subcommand) "COUNT" then RInteger 0 else RArray []))
  end.

(** SRC query_server/src/redis_protocol.rs:367-404 execute_client_command *)
Definition execute_client_command (args : list string) : redis RedisCommandResult :=
  match args with
  | [] => validation "wrong number of arguments for 'client' command"
  | subcommand :: _ =>
      let upper := to_ascii_uppercase subcommand in
      if String.eqb upper "SETINFO" then
        if length args =? 3 then Ok ok_result else validation "wrong number of arguments for 'client setinfo' command"
      else if String.eqb upper "SETNAME" then
        if length args =? 2 then Ok ok_result else validation "wrong number of arguments for 'client setname' command"
      else if String.eqb upper "GETNAME" then Ok (reply NullBulkString)
      else if String.eqb upper "ID" then Ok (reply (RInteger 1))
      else validation ("unsupported CLIENT subcommand " +:+ subcommand)
  end.

(** SRC query_server/src/redis_protocol.rs:406-444 execute_hello *)
Definition execute_hello (args : list string) (selected_db : Z) : redis RedisCommandResult :=
  if 1 <? length args then validation "HELLO only supports an optional proto argument"
  else
    _ ← match args with
        | proto :: _ =>
            parsed ← ok_or (parse_u32 proto) (validation "HELLO protover must be a positive integer");
            if negb (parsed =? 2)%Z && negb (parsed =? 3)%Z then validation "unsupported HELLO protover" else Ok ()
        | [] => Ok ()
        end;
    Ok (reply (RArray [bulk "server"; bulk "powdrr"; bulk "version"; bulk "0.0.1"; bulk "proto"; RInteger 2; bulk "mode"; bulk "standalone"; bulk "role"; bulk "master";
          bulk "db"; RInteger selected_db; bulk "modules"; RArray []])).

(** SRC query_server/src/redis_protocol.rs:912-916 parse_database *)
Definition parse_database (database : string) : redis Z := ok_or (parse_u32 database) (validation "database index must be a non-negative integer").

(** ** Keys, fields and rows *)

(** SRC query_server/src/redis_protocol.rs:722-740 redis_lookup_request *)
Definition redis_lookup_request (key_field key : string) (select : list string) : ServingRequestPlan :=
  mkServingRequest (Some select) [mkServingPredicate key_field (Some (VString key)) None None None None None] None [] (Some 2) false false.

(** At most one row may have a key. *)
Definition row_from_rows {R} (table_name key : string) (rows : list R) : redis (option R) :=
  if 1 <? length rows then Err (internal_error ("Redis key " +:+ key +:+ " matched multiple rows in table " +:+ table_name)) else Ok (head rows).
(** SRC query_server/src/redis_protocol.rs:845-857 redis_row_from_rows *)
Definition redis_row_from_rows : string → string → list Value → redis (option Value) := row_from_rows.
(** SRC query_server/src/redis_protocol.rs:865-877 redis_projected_row_from_rows *)
Definition redis_projected_row_from_rows : string → string → list ProjectedFieldBytesRow → redis (option ProjectedFieldBytesRow) := row_from_rows.

(** SRC query_server/src/redis_protocol.rs:904-910 redis_value_bytes *)
Definition redis_value_bytes `{JsonText} (value : Value) : option string :=
  match value with VNull => None | VString text => Some text | value => Some (json_to_vec value) end.

(** SRC query_server/src/redis_protocol.rs:859-863 redis_field_bytes *)
Definition redis_field_bytes `{JsonText} (row : option Value) (field : string) : option string :=
  row ← row; value ← value_get row field; redis_value_bytes value.

(** SRC query_server/src/redis_protocol.rs:879-884 redis_projected_field_bytes *)
Definition redis_projected_field_bytes (row : option ProjectedFieldBytesRow) (field : string) : option string :=
  row ← row; mjoin (row !! field).

(** SRC query_server/src/redis_protocol.rs:928-936 unique_fields *)
Definition unique_fields (fields : list string) : list string :=
  foldl (λ unique field, if existsb (String.eqb field) unique then unique else unique ++ [field]) [] fields.

(** The loop of [dedupe_lookup_keys]. *)
Definition dedupe_step (acc : gmap string nat * list string * list nat) (key : string) : gmap string nat * list string * list nat :=
  let '(positions_by_key, unique_keys, key_positions) := acc in
  match positions_by_key !! key with
  | Some index => (positions_by_key, unique_keys, key_positions ++ [index])
  | None => let index := length unique_keys in (<[key := index]> positions_by_key, unique_keys ++ [key], key_positions ++ [index])
  end.

(** SRC query_server/src/redis_protocol.rs:938-954 dedupe_lookup_keys *)
Definition dedupe_lookup_keys (keys : list string) : list string * list nat :=
  let '(_, unique_keys, key_positions) := foldl dedupe_step (∅, [], []) keys in (unique_keys, key_positions).

(** SRC query_server/src/redis_protocol.rs:956-961 expand_lookup_row_sets *)
Definition expand_lookup_row_sets {T} (row_sets : list (list T)) (key_positions : list nat) : list (list T) :=
  (λ index, default [] (row_sets !! index)) <$> key_positions.

(** SRC query_server/src/redis_protocol.rs:963-969 select_known_fields *)
Definition select_known_fields (known_fields : gset string) (fields : list string) : list string :=
  filter (λ field, field ∈ known_fields) (unique_fields fields).

(** SRC query_server/src/redis_protocol.rs:918-926 configured_redis_value_field *)
Definition configured_redis_value_field (binding : ResolvedRedisDatabaseBinding) : redis string :=
  ok_or (rd_value_field (tb_config (rb_binding binding)))
    (validation "Redis value_field must be configured to use GET, MGET, or EXISTS; use HGET, HMGET, HGETALL, or HEXISTS for multi-column row access").

(** SRC query_server/src/redis_protocol.rs:1128-1150 schema_from_checkpoint *)
Definition schema_from_checkpoint (checkpoint : TableMetadataCheckpoint) : redis PowdrrSchema :=
  match cp_iceberg_metadata checkpoint with
  | Some metadata => Ok (im_table_schema metadata)
  | None =>
      match (match cp_speedboat_metadata checkpoint with Some metadata => schemas (sm_files metadata) | None => [] end) with
      | first_schema :: schemas => no_error (foldM merge_from first_schema schemas)
      | [] =>
          match fields (cp_schema checkpoint) with
          | _ :: _ => Ok (cp_schema checkpoint)
          | [] => Err (internal_error "Checkpoint did not contain a usable schema")
          end
      end
  end.

(** SRC query_server/src/redis_protocol.rs:1063-1080 resolved_redis_database_binding_from_checkpoint *)
Definition resolved_redis_database_binding_from_checkpoint (binding : RedisTableBinding) (checkpoint : TableMetadataCheckpoint) : redis ResolvedRedisDatabaseBinding :=
  schema ← schema_from_checkpoint checkpoint;
  let all_fields := name <$> fields schema in
  Ok (mkResolvedBinding binding (cp_checkpoint_id checkpoint) (list_to_set all_fields) all_fields).

(** SRC query_server/src/redis_protocol.rs:1152-1182 validate_redis_config *)
Definition validate_redis_config (schema : PowdrrSchema) (config : RedisTableConfig) : redis () :=
  if decide (trim (rd_key_field config) = "") then validation "Redis key field must be a non-empty string"
  else
    let schema_map := to_map schema in
    if negb (is_some (schema_map !! rd_key_field config)) then validation ("Unknown Redis key field " +:+ rd_key_field config)
    else match rd_value_field config with
         | Some value_field =>
             if decide (trim value_field = "") then validation "Redis value field must be a non-empty string when provided"
             else if negb (is_some (schema_map !! value_field)) then validation ("Unknown Redis value field " +:+ value_field)
             else Ok ()
         | None => Ok ()
         end.

(** ** The table of a database *)

Section commands.
Context `{jt : JsonText, ft : FloatText, fd : FloatDisplay, ho : HashOrder, kh : KeyHasher, src : SnapshotSource, side : SidecarSource, co : CompletionOrder}.
Context {W : Type} `{provider : StateProvider W} (iceberg_table_metadata_cache_contains : string → string → Z → bool) (metadata_cache : gmap string nat).

(** Work on what the front ends share. *)
Definition on_front {A} (m : ActiveLookup A) : Redis A := rst_map_err convert_active_checkpoint_lookup_error (rst_zoom rp_front set_front m).

(** SRC query_server/src/redis_protocol.rs:1119-1126 load_active_checkpoint *)
Definition load_active_checkpoint (w : W) (table_name : string) : Redis TableMetadataCheckpoint := on_front (ActiveLookup.load_active_checkpoint w table_name).

(** The bindings of the tables, one after the other. *)
Fixpoint collect_bindings (w : W) (table_names : list string) : redis (list RedisTableBinding) :=
  match table_names with
  | [] => Ok []
  | table_name :: table_names =>
      description ← service_error (sp_describe_table w table_name);
      bindings ← collect_bindings w table_names;
      Ok (match description ≫= td_redis with Some config => mkTableBinding table_name config :: bindings | None => bindings end)
  end.

(** SRC query_server/src/redis_protocol.rs:975-997 list_redis_bindings *)
Definition list_redis_bindings (w : W) : redis (list RedisTableBinding) :=
  table_names ← service_error (sp_get_all_iceberg_tables w);
  collect_bindings w (sort_by String.compare table_names).

(** [binding.config.enabled && binding.config.database == database] *)
Definition exposed_as (database : Z) (binding : RedisTableBinding) : bool := rd_enabled (tb_config binding) && (rd_database (tb_config binding) =? database)%Z.

(** SRC query_server/src/redis_protocol.rs:1029-1061 refresh_redis_database_binding *)
Definition refresh_redis_database_binding (w : W) (database : Z) : Redis ResolvedRedisDatabaseBinding :=
  rst_lift (list_redis_bindings w) ≫= λ bindings,
  match List.filter (exposed_as database) bindings with
  | [] => rst_lift (Err (namespace_not_found ("Redis database " +:+ print_int database +:+ " is not configured")))
  | [binding] =>
      load_active_checkpoint w (tb_table_name binding) ≫= λ checkpoint,
      rst_lift (resolved_redis_database_binding_from_checkpoint binding checkpoint) ≫= λ resolved,
      rst_modify (keep_binding database resolved) ≫= λ _,
      mret resolved
  | _ => rst_lift (Err (internal_error ("Multiple Powdrr tables are exposed as Redis database " +:+ print_int database)))
  end.

(** SRC query_server/src/redis_protocol.rs:999-1027 load_redis_database_binding *)
Definition load_redis_database_binding (w : W) (database : Z) : Redis ResolvedRedisDatabaseBinding := λ s,
  match rp_bindings s !! database with
  | Some cached =>
      match load_active_checkpoint w (tb_table_name (rb_binding cached)) s with
      | (Ok checkpoint, s) =>
          if decide (cp_checkpoint_id checkpoint = rb_active_checkpoint_id cached) then (Ok cached, s)
          else (rst_lift (resolved_redis_database_binding_from_checkpoint (rb_binding cached) checkpoint) ≫= λ resolved,
                rst_modify (keep_binding database resolved) ≫= λ _,
                mret resolved) s
      | (Err _, s) => refresh_redis_database_binding w database s
      | (Panic reason, s) => (Panic reason, s)
      end
  | None => refresh_redis_database_binding w database s
  end.

(** ** Lookups *)

(** SRC query_server/src/redis_protocol.rs:886-893 execute_fast_path_point_lookup_batch_rows *)
Definition execute_fast_path_point_lookup_batch_rows (w : W) (table_name : string) (requests : list ServingRequestPlan) : Redis (option (list (list Value))) :=
  on_front (execute_active_checkpoint_exact_lookup_batch_rows w table_name requests).

(** SRC query_server/src/redis_protocol.rs:895-902 execute_fast_path_point_lookup_batch_projected_field_bytes *)
Definition execute_fast_path_point_lookup_batch_projected_field_bytes (w : W) (table_name : string) (requests : list ServingRequestPlan) :
    Redis (option (list (list ProjectedFieldBytesRow))) :=
  on_front (execute_active_checkpoint_exact_lookup_batch_projected_field_bytes w table_name requests).

(** SRC query_server/src/redis_protocol.rs:770-793 fetch_redis_rows_field_bytes *)
Definition fetch_redis_rows_field_bytes (w : W) (binding : ResolvedRedisDatabaseBinding) (keys select : list string) : Redis (option (list (list ProjectedFieldBytesRow))) :=
  if decide (select = []) then mret (Some (replicate (length keys) []))
  else
    let '(lookup_keys, key_positions) := dedupe_lookup_keys keys in
    let requests := (λ key, redis_lookup_request (rd_key_field (tb_config (rb_binding binding))) key select) <$> lookup_keys in
    execute_fast_path_point_lookup_batch_projected_field_bytes w (tb_table_name (rb_binding binding)) requests ≫= λ found,
    mret ((λ row_sets, expand_lookup_row_sets row_sets key_positions) <$> found).

(** The queries of [fetch_redis_rows], one after the other. *)
Fixpoint query_loop (w : W) (table_name : string) (requests : list ServingRequestPlan) : Redis (list (list Value)) :=
  match requests with
  | [] => mret []
  | request :: requests =>
      rst_map_err convert_serving_error (rst_zoom (λ s, fe_serving (rp_front s)) (λ serving s, set_front (set_serving serving (rp_front s)) s)
        (execute_serving_query iceberg_table_metadata_cache_contains metadata_cache w table_name request)) ≫= λ response,
      if decide (pl_classification (qr_plan response) = FastPath) then query_loop w table_name requests ≫= λ values, mret (qr_rows response :: values)
      else rst_lift (validation (default "Query did not qualify for the serving fast path" (qr_reason response)))
  end.

(** SRC query_server/src/redis_protocol.rs:811-843 fetch_redis_rows *)
Definition fetch_redis_rows (w : W) (binding : ResolvedRedisDatabaseBinding) (keys select : list string) : Redis (list (list Value)) :=
  let '(lookup_keys, key_positions) := dedupe_lookup_keys keys in
  let requests := (λ key, redis_lookup_request (rd_key_field (tb_config (rb_binding binding))) key select) <$> lookup_keys in
  execute_fast_path_point_lookup_batch_rows w (tb_table_name (rb_binding binding)) requests ≫= λ found,
  match found with
  | Some row_sets => mret (expand_lookup_row_sets row_sets key_positions)
  | None => query_loop w (tb_table_name (rb_binding binding)) requests ≫= λ values, mret (expand_lookup_row_sets values key_positions)
  end.

(** SRC query_server/src/redis_protocol.rs:795-809 fetch_redis_row *)
Definition fetch_redis_row (w : W) (binding : ResolvedRedisDatabaseBinding) (key : string) (select : list string) : Redis (option Value) :=
  if decide (select = []) then mret None
  else
    fetch_redis_rows w binding [key] select ≫= λ rows,
    rst_lift (redis_row_from_rows (tb_table_name (rb_binding binding)) key (default [] (head rows))).

(** SRC query_server/src/redis_protocol.rs:742-768 fetch_redis_values *)
Definition fetch_redis_values (w : W) (binding : ResolvedRedisDatabaseBinding) (keys : list string) (value_field : string) : Redis (list (option string)) :=
  let table_name := tb_table_name (rb_binding binding) in
  fetch_redis_rows_field_bytes w binding keys [value_field] ≫= λ found,
  match found with
  | Some rows =>
      rst_lift (try_collect (λ '(key, rows), row ← redis_projected_row_from_rows table_name key rows; Ok (redis_projected_field_bytes row value_field)) (zip keys rows))
  | None =>
      fetch_redis_rows w binding keys [value_field] ≫= λ rows,
      rst_lift (try_collect (λ '(key, rows), row ← redis_row_from_rows table_name key rows; Ok (redis_field_bytes row value_field)) (zip keys rows))
  end.
(** ** Commands on keys *)

(** [.map(RespValue::BulkString).unwrap_or(RespValue::NullBulkString)] *)
Definition bulk_or_null (value : option string) : RespValue := match value with Some bytes => BulkString bytes | None => NullBulkString end.

(** The steps the hash commands share: the row of a key, from the snapshot or by a query,
    as the bytes of its fields. *)
Definition hash_row (w : W) (binding : ResolvedRedisDatabaseBinding) (key : string) (select : list string) : Redis (option (string → option string)) :=
  fetch_redis_rows_field_bytes w binding [key] select ≫= λ found,
  match found with
  | Some rows =>
      rst_lift (redis_projected_row_from_rows (tb_table_name (rb_binding binding)) key (default [] (head rows))) ≫= λ row,
      mret ((λ row, redis_projected_field_bytes (Some row)) <$> row)
  | None => fetch_redis_row w binding key select ≫= λ row, mret ((λ row, redis_field_bytes (Some row)) <$> row)
  end.
Definition row_field (row : option (string → option string)) (field : string) : option string := row ≫= λ row, row field.

(** SRC query_server/src/redis_protocol.rs:462-483 execute_get *)
Definition execute_get (w : W) (selected_db : Z) (args : list string) : Redis RedisCommandResult :=
  match args with
  | [key] =>
      load_redis_database_binding w selected_db ≫= λ binding,
      rst_lift (configured_redis_value_field binding) ≫= λ value_field,
      fetch_redis_values w binding [key] value_field ≫= λ values,
      mret (reply (bulk_or_null (mjoin (head values))))
  | _ => rst_lift (validation "wrong number of arguments for 'get' command")
  end.

(** SRC query_server/src/redis_protocol.rs:485-511 execute_mget *)
Definition execute_mget (w : W) (selected_db : Z) (args : list string) : Redis RedisCommandResult :=
  if decide (args = []) then rst_lift (validation "wrong number of arguments for 'mget' command")
  else
    load_redis_database_binding w selected_db ≫= λ binding,
    rst_lift (configured_redis_value_field binding) ≫= λ value_field,
    fetch_redis_values w binding args value_field ≫= λ values,
    mret (reply (RArray (bulk_or_null <$> values))).

(** SRC query_server/src/redis_protocol.rs:698-720 execute_exists *)
Definition execute_exists (w : W) (selected_db : Z) (args : list string) : Redis RedisCommandResult :=
  if decide (args = []) then rst_lift (validation "wrong number of arguments for 'exists' command")
  else
    load_redis_database_binding w selected_db ≫= λ binding,
    rst_lift (configured_redis_value_field binding) ≫= λ value_field,
    fetch_redis_values w binding args value_field ≫= λ values,
    mret (reply (RInteger (Z.of_nat (length (List.filter is_some values))))).

(** SRC query_server/src/redis_protocol.rs:513-545 execute_hget *)
Definition execute_hget (w : W) (selected_db : Z) (args : list string) : Redis RedisCommandResult :=
  match args with
  | [key; field] =>
      load_redis_database_binding w selected_db ≫= λ binding,
      hash_row w binding key (select_known_fields (rb_known_fields binding) [field]) ≫= λ row,
      mret (reply (bulk_or_null (row_field row field)))
  | _ => rst_lift (validation "wrong number of arguments for 'hget' command")
  end.

(** SRC query_server/src/redis_protocol.rs:547-598 execute_hmget *)
Definition execute_hmget (w : W) (selected_db : Z) (args : list string) : Redis RedisCommandResult :=
  match args with
  | key :: field :: fields =>
      load_redis_database_binding w selected_db ≫= λ binding,
      hash_row w binding key (select_known_fields (rb_known_fields binding) (field :: fields)) ≫= λ row,
      mret (reply (RArray ((λ field, bulk_or_null (row_field row field)) <$> field :: fields)))
  | _ => rst_lift (validation "wrong number of arguments for 'hmget' command")
  end.

(** SRC query_server/src/redis_protocol.rs:600-663 execute_hgetall *)
Definition execute_hgetall (w : W) (selected_db : Z) (args : list string) : Redis RedisCommandResult :=
  match args with
  | [key] =>
      load_redis_database_binding w selected_db ≫= λ binding,
      let fields := rb_all_fields binding in
      hash_row w binding key fields ≫= λ row,
      mret (reply (match row with
                   | Some row => RArray (fields ≫= λ field, [BulkString field; bulk_or_null (row field)])
                   | None => RArray []
                   end))
  | _ => rst_lift (validation "wrong number of arguments for 'hgetall' command")
  end.

(** SRC query_server/src/redis_protocol.rs:665-696 execute_hexists *)
Definition execute_hexists (w : W) (selected_db : Z) (args : list string) : Redis RedisCommandResult :=
  match args with
  | [key; field] =>
      load_redis_database_binding w selected_db ≫= λ binding,
      hash_row w binding key (select_known_fields (rb_known_fields binding) [field]) ≫= λ row,
      mret (reply (RInteger (if is_some (row_field row field) then 1 else 0)%Z))
  | _ => rst_lift (validation "wrong number of arguments for 'hexists' command")
  end.

(** ** Dispatch *)

(** The state of a connection: the selected database, and what the process keeps. *)
Definition on_process {A} (m : Redis A) : RST RedisCommandError (Z * RedisProcess) A := rst_zoom snd (λ process s, (s.1, process)) m.

(** SRC query_server/src/redis_protocol.rs:446-460 execute_select *)
Definition execute_select (w : W) (args : list string) : RST RedisCommandError (Z * RedisProcess) RedisCommandResult :=
  match args with
  | [database] =>
      rst_lift (parse_database database) ≫= λ database,
      on_process (load_redis_database_binding w database) ≫= λ _,
      rst_modify (λ s, (database, s.2)) ≫= λ _,
      mret ok_result
  | _ => rst_lift (validation "wrong number of arguments for 'select' command")
  end.

(** SRC query_server/src/redis_protocol.rs:238-270 execute_redis_command *)
Definition execute_redis_command (w : W) (args : list string) : RST RedisCommandError (Z * RedisProcess) RedisCommandResult :=
  match args with
  | [] => rst_lift (validation "empty Redis command")
  | first :: rest =>
      let command := to_ascii_uppercase first in
      if sp_is_read_only w && is_known_redis_write_command command then rst_lift (Err read_only_error)
      else
        rst_gets fst ≫= λ selected_db,
        if String.eqb command "PING" then rst_lift (execute_ping rest)
        else if String.eqb command "ECHO" then rst_lift (execute_echo rest)
        else if String.eqb command "QUIT" then rst_lift (execute_quit rest)
        else if String.eqb command "COMMAND" then rst_lift (execute_command_command rest)
        else if String.eqb command "CLIENT" then rst_lift (execute_client_command rest)
        else if String.eqb command "HELLO" then rst_lift (execute_hello rest selected_db)
        else if String.eqb command "READONLY" then mret ok_result
        else if String.eqb command "SELECT" then execute_select w rest
        else if String.eqb command "GET" then on_process (execute_get w selected_db rest)
        else if String.eqb command "MGET" then on_process (execute_mget w selected_db rest)
        else if String.eqb command "HGET" then on_process (execute_hget w selected_db rest)
        else if String.eqb command "HMGET" then on_process (execute_hmget w selected_db rest)
        else if String.eqb command "HGETALL" then on_process (execute_hgetall w selected_db rest)
        else if String.eqb command "HEXISTS" then on_process (execute_hexists w selected_db rest)
        else if String.eqb command "EXISTS" then on_process (execute_exists w selected_db rest)
        else rst_lift (Err (unsupported command))
  end.

(** The executor of a connection: [match execute_redis_command(&mut selected_db, args)]. *)
Definition connection_execute (w : W) (selected_db : Z) (args : list string) (process : RedisProcess) : outcome (RespValue * bool) * Z * RedisProcess :=
  let '(result, (selected_db, process)) := execute_redis_command w args (selected_db, process) in
  (map_err resp_message (result ← result; Ok (response result, close_connection result)), selected_db, process).

(** ** Configuration

    The handlers without the HTTP framework: the path of the request, and its body when
    it is a configuration, to the answer or the error that is rendered. *)

(** SRC query_server/src/redis_protocol.rs:1104-1112 load_table_description *)
Definition load_table_description (w : W) (table_name : string) : redis TableDescription :=
  description ← service_error (sp_describe_table w table_name);
  ok_or description (Err (namespace_not_found ("Table " +:+ table_name +:+ " was not found"))).

(** SRC query_server/src/redis_protocol.rs:126-157 get_redis_config *)
Definition get_redis_config (w : W) (path : string) : redis RedisConfigResponse :=
  description ← load_table_description w path;
  config ← ok_or (td_redis description) (Err (namespace_not_found ("No Redis config declared for table " +:+ path)));
  Ok (mkRedisConfigResponse true path config).

(** SRC query_server/src/redis_protocol.rs:1082-1102 validate_redis_database_uniqueness *)
Definition validate_redis_database_uniqueness (w : W) (table_name : string) (config : RedisTableConfig) : redis () :=
  if negb (rd_enabled config) then Ok ()
  else
    bindings ← list_redis_bindings w;
    match find (λ binding, negb (String.eqb (tb_table_name binding) table_name) && exposed_as (rd_database config) binding) bindings with
    | Some binding => validation ("Redis database " +:+ print_int (rd_database config) +:+ " is already mapped to table " +:+ tb_table_name binding)
    | None => Ok ()
    end.

(** SRC query_server/src/redis_protocol.rs:1114-1117 load_table_schema *)
Definition load_table_schema (w : W) (table_name : string) : Redis PowdrrSchema :=
  load_active_checkpoint w table_name ≫= λ checkpoint,
  rst_lift (schema_from_checkpoint checkpoint).

(** SRC query_server/src/redis_protocol.rs:971-973 clear_redis_database_binding_cache *)
Definition clear_redis_database_binding_cache : Redis () := rst_modify (λ s, mkRedisProcess (rp_front s) ∅).

(** Work of the process, beside the provider. *)
Definition beside_provider {A} (m : Redis A) : RST RedisCommandError (W * RedisProcess) A := rst_zoom snd (λ process s, (s.1, process)) m.

(** SRC query_server/src/redis_protocol.rs:159-236 put_redis_config *)
Definition put_redis_config (path : string) (body : outcome RedisTableConfig) : RST RedisCommandError (W * RedisProcess) RedisConfigResponse := λ '(w, process),
  (if sp_is_read_only w then rst_lift (Err read_only_error)
   else
     rst_lift (map_err validation_error body) ≫= λ body,
     rst_lift (service_error (sp_describe_table w path)) ≫= λ existing,
     beside_provider (load_table_schema w path) ≫= λ schema,
     rst_lift (validate_redis_config schema body) ≫= λ _,
     rst_lift (validate_redis_database_uniqueness w path body) ≫= λ _,
     let request := mkCreateTable path (default ∅ (td_tags <$> existing)) (existing ≫= td_serving) (existing ≫= td_support) (existing ≫= td_dynamodb) (existing ≫= td_mongodb) (Some body) in
     (λ s, let '(r, w) := sp_upsert_table_metadata request s.1 in (service_error r, (w, s.2))) ≫= λ _,
     beside_provider clear_redis_database_binding_cache ≫= λ _,
     mret (mkRedisConfigResponse true path body)) (w, process).
End commands.
