(* ===== verification/RedisTheory.v ===== *)
(** * Redis commands read the table (query_server/src/redis_protocol.rs)

    A database is a map from keys to rows; a row is a hash of fields.  The commands,
    through the bindings, checkpoints and snapshots a process keeps, answer from that
    map, and a connection carries the answers in order. *)

From S2P Require Import Prelude Text Json JsonText Schema FileSet Contract Checkpoint QueryPath Pruning Planner SnapshotCodec SnapshotCodecTheory SnapshotLookup SnapshotLookupTheory.
From S2P Require Import SnapshotServing SnapshotServingTheory TopK ServingExec Provider ActiveLookup RedisWire RedisCommands.
From S2P Require Import StableSort.

Module RedisTheory.
Import ActiveLookupTheory SnapshotCodecTheory SnapshotLookupTheory SnapshotServingTheory.

(** ** Keys asked for more than once *)

Lemma dedupe_loop {T} (f : string → list T) keys positions unique key_positions :
  (∀ key index, positions !! key = Some index ↔ unique !! index = Some key) → NoDup unique →
  ∀ positions' unique' key_positions', foldl dedupe_step (positions, unique, key_positions) keys = (positions', unique', key_positions') →
  expand_lookup_row_sets (f <$> unique') key_positions' = expand_lookup_row_sets (f <$> unique') key_positions ++ (f <$> keys) ∧ unique `prefix_of` unique' ∧ NoDup unique'.
Proof.
  revert positions unique key_positions. induction keys as [|key keys IH]; intros positions unique key_positions Hpos Hn positions' unique' key_positions'.
  { cbn. intros [= <- <- <-]. by rw app_nil_r. }
  cbn [foldl dedupe_step]. destruct (positions !! key) as [index|] eqn:Hkey.
  - intros Hrun. destruct (IH _ _ _ Hpos Hn _ _ _ Hrun) as (-> & Hpre & Hn'). split; [|done]. rw /expand_lookup_row_sets fmap_app -app_assoc fmap_cons. f_equal. cbn. f_equal.
    apply Hpos in Hkey. rw list_lookup_fmap (prefix_lookup_Some _ _ _ _ Hkey Hpre). done.
  - intros Hrun. assert (Hfresh : key ∉ unique). { intros [i Hi]%list_elem_of_lookup. apply Hpos in Hi. by rw Hkey in Hi. }
    assert (Hn1 : NoDup (unique ++ [key])). { apply NoDup_app. split_and!; [done| |apply NoDup_singleton]. intros k Hk ->%list_elem_of_singleton. done. }
    assert (Hpos1 : ∀ k i, (<[key := length unique]> positions) !! k = Some i ↔ (unique ++ [key]) !! i = Some k).
    { intros k i. destruct (decide (k = key)) as [->|Hne]; [rw lookup_insert_eq|rw lookup_insert_ne; [by apply not_eq_sym|]].
      - split; [intros [= <-]; by apply list_lookup_middle|]. intros Hi. apply lookup_app_Some in Hi as [Hi|[Hle Hi]]; [by apply list_elem_of_lookup_2 in Hi|].
        apply list_lookup_singleton_Some in Hi as [Hi _]. f_equal. lia.
      - rw Hpos lookup_app_Some. split; [by left|]. intros [?|[Hle Hi]]; [done|]. by apply list_lookup_singleton_Some in Hi as [_ ->]. }
    destruct (IH _ _ _ Hpos1 Hn1 _ _ _ Hrun) as (-> & Hpre & Hn'). split; [|split; [|done]].
    + rw /expand_lookup_row_sets fmap_app -app_assoc fmap_cons. f_equal. cbn. f_equal. rw list_lookup_fmap (prefix_lookup_Some _ _ _ key _ Hpre) //. by apply list_lookup_middle.
    + etrans; [by apply prefix_app_r|exact Hpre].
Qed.

(** Looking every key up once and giving each place its answer is looking all keys up. *)
Lemma dedupe_expand {T} (f : string → list T) keys : let '(lookup_keys, key_positions) := dedupe_lookup_keys keys in
  expand_lookup_row_sets (f <$> lookup_keys) key_positions = f <$> keys ∧ NoDup lookup_keys.
Proof.
  rw /dedupe_lookup_keys. destruct (foldl dedupe_step (∅, [], []) keys) as [[positions unique] key_positions] eqn:Hrun.
  apply (dedupe_loop f) in Hrun as (-> & _ & Hn); [done| |constructor]. intros key index. by rw lookup_empty lookup_nil.
Qed.

(** ** One lookup *)

Section lookups.
Context `{jt : JsonText, !JsonTextLaws jt, ft : FloatText, fd : FloatDisplay, ho : HashOrder, kh : KeyHasher, src : SnapshotSource, side : SidecarSource, co : CompletionOrder}.

(** A document has a key. *)
Definition has_key (key_field key : string) (doc : Object) : bool := match obj_get key_field doc with Some (VString text) => String.eqb text key | _ => false end.
Definition rows_of_key (documents : list Object) (key_field key : string) : list Object := List.filter (has_key key_field key) documents.

Lemma key_lookup_matches key_field key doc : key_matches key_field doc (VString key) = has_key key_field key doc.
Proof.
  rw /key_matches /doc_has /has_key. cbn [encode_exact_lookup_key]. destruct (obj_get key_field doc) as [[| | |text| |]|]; cbn; try (apply bool_decide_eq_false; congruence).
  destruct (String.eqb_spec text key) as [->|Hne]; [by apply bool_decide_eq_true|apply bool_decide_eq_false]. by intros [= ->].
Qed.

Lemma doc_at_all documents : doc_at documents <$> all_rows documents = documents.
Proof.
  apply list_eq. intros i. rw list_lookup_fmap /all_rows. destruct (decide (i < length documents)) as [Hi|Hi].
  - rw lookup_seqZ_lt; [lia|]. cbn. rw /doc_at Z.add_0_l Nat2Z.id. destruct (lookup_lt_is_Some_2 documents i Hi) as [doc Hdoc]. change (list (string * Value)) with Object in *. by rw Hdoc.
  - rw lookup_seqZ_ge; [lia|]. symmetry. apply lookup_ge_None_2. lia.
Qed.

Lemma filter_doc_at (p : Object → bool) documents : doc_at documents <$> List.filter (λ r, p (doc_at documents r)) (all_rows documents) = List.filter p documents.
Proof.
  trans (List.filter p (doc_at documents <$> all_rows documents)); [|by rw doc_at_all]. induction (all_rows documents) as [|r rows IH]; [done|]. rw fmap_cons. cbn [List.filter]. destruct (p (doc_at documents r)); [by rw fmap_cons IH|done].
Qed.

Lemma key_scan documents key_field key select :
  scan_documents documents (read_plan (redis_lookup_request key_field key select)) = take 2 (rows_of_key documents key_field key).
Proof.
  rw /scan_documents. change (normalized_limit _ _ _) with 2. rw fmap_take. f_equal. rw /rows_of_key -(filter_doc_at (has_key key_field key)). f_equal.
  apply List.filter_ext. intros r. rw -key_lookup_matches. exact (andb_true_r (key_matches key_field (doc_at documents r) (VString key))).
Qed.

Lemma key_answerable key_field key select : answerable (read_plan (redis_lookup_request key_field key select)).
Proof. split; [by eexists|done]. Qed.

(** ** Databases *)

Context {W : Type} `{provider : StateProvider W} (cached : string → string → Z → bool) (metadata_cache : gmap string nat).

(** The database as the provider describes it: the one table exposed under the number,
    with the fields of its active checkpoint. *)
Definition database_view (w : W) (database : Z) : redis ResolvedRedisDatabaseBinding :=
  bindings ← list_redis_bindings w;
  match List.filter (exposed_as database) bindings with
  | [] => Err (namespace_not_found ("Redis database " +:+ print_int database +:+ " is not configured"))
  | [binding] =>
      checkpoint ← map_err convert_active_checkpoint_lookup_error (active_checkpoint w (tb_table_name binding));
      resolved_redis_database_binding_from_checkpoint binding checkpoint
  | _ => Err (internal_error ("Multiple Powdrr tables are exposed as Redis database " +:+ print_int database))
  end.

(** The bindings that are kept are those of the configuration, each with the fields of a
    checkpoint of its table. *)
Definition bindings_ok (w : W) (s : RedisProcess) : Prop := ∀ database b, rp_bindings s !! database = Some b →
  (∃ bindings, list_redis_bindings w = Ok bindings ∧ List.filter (exposed_as database) bindings = [rb_binding b]) ∧
  ∃ checkpoint, sp_get_checkpoint w (new_descriptor (tb_table_name (rb_binding b)) (rb_active_checkpoint_id b)) = Ok (Some checkpoint) ∧
    resolved_redis_database_binding_from_checkpoint (rb_binding b) checkpoint = Ok b.

Context (documents_of : string → list Object).

(** A process whose caches are right. *)
Record process_ok (w : W) (s : RedisProcess) : Prop := {
  pk_snapshots : caches_ok documents_of (ss_caches (fe_serving (rp_front s)));
  pk_active : active_ok w (rp_front s);
  pk_bindings : bindings_ok w s;
}.

Context (w : W) (Hids : ids_right w).

Lemma load_checkpoint_pure table_name s : process_ok w s → ∃ s', RedisCommands.load_active_checkpoint w table_name s =
    (map_err convert_active_checkpoint_lookup_error (active_checkpoint w table_name), s') ∧ process_ok w s' ∧ rp_bindings s' = rp_bindings s.
Proof.
  intros [Hs Ha Hb]. destruct (load_active_pure w table_name (rp_front s) Hids Ha) as (f & Hrun & Ha' & Hf). rw /RedisCommands.load_active_checkpoint /on_front /rst_map_err /rst_zoom Hrun.
  eexists. split; [done|]. split; [|done]. split; [by rw /= Hf|done|exact Hb].
Qed.

Lemma active_checkpoint_stored table_name checkpoint : active_checkpoint w table_name = Ok checkpoint → sp_get_checkpoint w (new_descriptor table_name (cp_checkpoint_id checkpoint)) = Ok (Some checkpoint).
Proof.
  rw /active_checkpoint. intros H'. apply bind_Ok_inv in H' as (published & _ & H'). apply bind_Ok_inv in H' as (id & _ & H'). apply bind_Ok_inv in H' as (found & Hget & Hfound).
  destruct found as [c|]; [|done]. injection Hfound as ->. destruct (sp_get_checkpoint w (new_descriptor table_name id)) eqn:Hg; try done. injection Hget as ->. by rw (Hids _ _ _ Hg).
Qed.

(** Keeping a binding that was just resolved. *)
Lemma resolve_and_keep database binding checkpoint s : process_ok w s → (∃ bindings, list_redis_bindings w = Ok bindings ∧ List.filter (exposed_as database) bindings = [binding]) →
  active_checkpoint w (tb_table_name binding) = Ok checkpoint → ∃ s',
  (rst_lift (resolved_redis_database_binding_from_checkpoint binding checkpoint) ≫= λ resolved, rst_modify (keep_binding database resolved) ≫= λ _, mret resolved) s =
    (resolved_redis_database_binding_from_checkpoint binding checkpoint, s') ∧ process_ok w s'.
Proof.
  intros [Hs Ha Hb] Hbind Hact. destruct (resolved_redis_database_binding_from_checkpoint binding checkpoint) as [b|e|r] eqn:Hr; [|by exists s..]. eexists. split; [done|]. split; [done|done|].
  assert (Heq : rb_binding b = binding ∧ rb_active_checkpoint_id b = cp_checkpoint_id checkpoint). { rw /resolved_redis_database_binding_from_checkpoint in Hr. apply bind_Ok_inv in Hr as (schema & _ & [= <-]). done. }
  destruct Heq as [Heq Hid]. intros d c. cbn. destruct (decide (d = database)) as [->|Hne]; [rw lookup_insert_eq|rw lookup_insert_ne; [by apply not_eq_sym|apply Hb]].
  intros [= <-]. rw Heq Hid. split; [done|]. exists checkpoint. split; [by apply active_checkpoint_stored|done].
Qed.

Lemma refresh_pure database s : process_ok w s → ∃ s', refresh_redis_database_binding w database s = (database_view w database, s') ∧ process_ok w s'.
Proof.
  intros Hok. rw /refresh_redis_database_binding /database_view. destruct (list_redis_bindings w) as [bindings|e|r] eqn:Hl; [|by exists s..]. rw bind_Ok (rst_bind_Ok _ _ s bindings s) //.
  destruct (List.filter (exposed_as database) bindings) as [|binding [|]] eqn:Hf; [by exists s| |by exists s].
  destruct (load_checkpoint_pure (tb_table_name binding) s Hok) as (s1 & Hrun & Hok1 & _). destruct (active_checkpoint w (tb_table_name binding)) as [checkpoint|e|r] eqn:Hact.
  - rw (rst_bind_Ok _ _ _ _ _ Hrun) bind_Ok. by apply resolve_and_keep; [|exists bindings|].
  - rw {1}/mbind /rst_bind Hrun. by exists s1.
  - rw {1}/mbind /rst_bind Hrun. by exists s1.
Qed.

(** What is kept of a database is not seen. *)
Lemma load_binding_pure database s : process_ok w s → ∃ s', load_redis_database_binding w database s = (database_view w database, s') ∧ process_ok w s'.
Proof.
  intros Hok. rw /load_redis_database_binding. destruct (rp_bindings s !! database) as [b|] eqn:Hb; [|by apply refresh_pure].
  destruct (pk_bindings _ _ Hok _ _ Hb) as [(bindings & Hl & Hf) (checkpoint' & Hget & Hr)]. destruct (load_checkpoint_pure (tb_table_name (rb_binding b)) s Hok) as (s1 & -> & Hok1 & _).
  destruct (active_checkpoint w (tb_table_name (rb_binding b))) as [checkpoint|e|r] eqn:Hact; cbn [map_err].
  - assert (Hview : database_view w database = resolved_redis_database_binding_from_checkpoint (rb_binding b) checkpoint) by (by rw /database_view Hl bind_Ok Hf Hact).
    rw Hview. case_decide as Hid; [|by apply resolve_and_keep; [|exists bindings|]]. exists s1. split; [|done].
    apply active_checkpoint_stored in Hact. rw Hid Hget in Hact. injection Hact as ->. by rw Hr.
  - by apply refresh_pure.
  - exists s1. split; [|done]. by rw /database_view Hl bind_Ok Hf Hact.
Qed.

(** ** Commands *)

(** A database whose table has a snapshot: files only, every key on at most one row. *)
Record served (database : Z) (b : ResolvedRedisDatabaseBinding) (documents : list Object) : Prop := {
  sd_view : database_view w database = Ok b;
  sd_snapshot : ∃ checkpoint inputs, active_checkpoint w (tb_table_name (rb_binding b)) = Ok checkpoint ∧ in_exact_artifact inputs = None ∧
    documents_of (in_key inputs) = documents ∧ snapshot_checkpoint checkpoint inputs documents;
  sd_keys : ∀ key, length (rows_of_key documents (rd_key_field (tb_config (rb_binding b))) key) ≤ 1;
  sd_fields : ("*" ∉ rb_all_fields b) ∧ rd_value_field (tb_config (rb_binding b)) ≠ Some "*";
}.

Section commands.
Context (database : Z) (b : ResolvedRedisDatabaseBinding) (documents : list Object) (Hserved : served database b documents).

(** The row of a key, and the bytes of one of its fields: nothing for null, the text of a
    string, the JSON of anything else. *)
Definition row_of (key : string) : option Object := head (rows_of_key documents (rd_key_field (tb_config (rb_binding b))) key).
Definition field_of (key field : string) : option string := row_of key ≫= λ doc, doc_field doc field ≫= snapshot_lookup_value_to_projected_bytes.
Definition hash_field (key field : string) : option string := if decide (field ∈ rb_known_fields b) then field_of key field else None.

(** What a command on keys answers, the name of the command in capitals. *)
Inductive redis_answer : string → list string → RespValue → Prop :=
| get_answer value_field key : rd_value_field (tb_config (rb_binding b)) = Some value_field →
    redis_answer "GET" [key] (bulk_or_null (field_of key value_field))
| mget_answer value_field keys : rd_value_field (tb_config (rb_binding b)) = Some value_field → keys ≠ [] →
    redis_answer "MGET" keys (RArray ((λ key, bulk_or_null (field_of key value_field)) <$> keys))
| exists_answer value_field keys : rd_value_field (tb_config (rb_binding b)) = Some value_field → keys ≠ [] →
    redis_answer "EXISTS" keys (RInteger (Z.of_nat (length (List.filter (λ key, is_some (field_of key value_field)) keys))))
| hget_answer key field : redis_answer "HGET" [key; field] (bulk_or_null (hash_field key field))
| hmget_answer key fields : fields ≠ [] → redis_answer "HMGET" (key :: fields) (RArray ((λ field, bulk_or_null (hash_field key field)) <$> fields))
| hgetall_answer key : redis_answer "HGETALL" [key]
    (RArray (if is_some (row_of key) then rb_all_fields b ≫= λ field, [BulkString field; bulk_or_null (field_of key field)] else []))
| hexists_answer key field : redis_answer "HEXISTS" [key; field] (RInteger (if is_some (hash_field key field) then 1 else 0)%Z).

Lemma snapshot_bytes requests s : process_ok w s → Forall (λ request, answerable (read_plan request) ∧ is_Some (normalized_select (sr_select request))) requests → ∃ s',
  execute_fast_path_point_lookup_batch_projected_field_bytes w (tb_table_name (rb_binding b)) requests s =
    (Ok (Some ((λ request, (λ doc, project_json_bytes doc (default [] (normalized_select (sr_select request)))) <$> scan_documents documents (read_plan request)) <$> requests)), s') ∧ process_ok w s'.
Proof.
  intros Hok Hreq. destruct (sd_snapshot _ _ _ Hserved) as (checkpoint & inputs & Hact & Hex & Hdocs & Hsnap).
  destruct (load_active_pure w (tb_table_name (rb_binding b)) (rp_front s) Hids (pk_active _ _ Hok)) as (f & Hrun & Ha & Hf). rw Hact in Hrun.
  rw -Hdocs in Hsnap. destruct (batch_bytes_ok documents_of (ss_caches (fe_serving f)) checkpoint inputs (read_plan <$> requests)) as (caches & Hbatch & Hcaches);
    [rw Hf; apply (pk_snapshots _ _ Hok)|done|done|by apply Forall_fmap|].
  eexists (mkRedisProcess (set_caches caches f) (rp_bindings s)). split; [|split; [done|exact Ha|apply (pk_bindings _ _ Hok)]].
  rw /execute_fast_path_point_lookup_batch_projected_field_bytes /on_front /rst_map_err /rst_zoom /execute_active_checkpoint_exact_lookup_batch_projected_field_bytes (rst_bind_Ok _ _ _ _ _ Hrun).
  rw /on_snapshots /rst_map_err /rst_zoom Hbatch. cbn [map_err]. by rw -list_fmap_compose Hdocs.
Qed.

(** The rows of some keys, as bytes. *)
Lemma fetch_bytes_ok keys fields s : process_ok w s → fields ≠ [] → fields ≠ ["*"] → ∃ s',
  fetch_redis_rows_field_bytes w b keys fields s = (Ok (Some ((λ key, (λ doc, project_json_bytes doc fields) <$> option_list (row_of key)) <$> keys)), s') ∧ process_ok w s'.
Proof.
  intros Hok Hne Hstar. rw /fetch_redis_rows_field_bytes. case_decide; [done|]. set (rows := λ key, (λ doc, project_json_bytes doc fields) <$> option_list (row_of key)).
  pose proof (dedupe_expand rows keys) as Hdd. destruct (dedupe_lookup_keys keys) as [lookup_keys key_positions]. destruct Hdd as [Hexp _].
  set (requests := (λ key, redis_lookup_request (rd_key_field (tb_config (rb_binding b))) key fields) <$> lookup_keys).
  assert (Hsel : normalized_select (Some fields) = Some fields). { destruct fields as [|f [|]]; [done| |done]. cbn. case_decide; [by subst|done]. }
  destruct (snapshot_bytes requests s Hok) as (s' & Hrun & Hok'). { apply Forall_fmap, Forall_true. intros key. split; [apply key_answerable|]. cbn [compose redis_lookup_request sr_select]. by rw Hsel. }
  exists s'. split; [|done]. rw (rst_bind_Ok _ _ _ _ _ Hrun) -Hexp. rw /mret /rst_ret. cbn [fmap option_fmap option_map]. do 4 f_equal. rw /requests -list_fmap_compose. apply list_fmap_ext.
  intros i key _. cbn [compose redis_lookup_request sr_select]. rw Hsel /= key_scan /rows /row_of. pose proof (sd_keys _ _ _ Hserved key) as Hlen.
  by destruct (rows_of_key documents _ key) as [|doc [|]]; [..|cbn in Hlen; lia].
Qed.

Lemma projected_bytes_of doc fields field : redis_projected_field_bytes (Some (project_json_bytes doc fields)) field =
  if decide (field ∈ fields) then doc_field doc field ≫= snapshot_lookup_value_to_projected_bytes else None.
Proof.
  cbn. change (list (string * Value)) with Object. rw project_json_lookup. case_decide; [|done]. rw /projected_field /doc_field. destruct (obj_get field doc) as [v|]; [done|].
  by destruct ((obj_get "_source" doc ≫= as_object) ≫= obj_get field).
Qed.

Lemma values_ok keys value_field s : process_ok w s → value_field ≠ "*" → ∃ s', fetch_redis_values cached metadata_cache w b keys value_field s = (Ok ((λ key, field_of key value_field) <$> keys), s') ∧ process_ok w s'.
Proof.
  intros Hok Hstar. destruct (fetch_bytes_ok keys [value_field] s Hok) as (s' & Hrun & Hok'); [done|by intros [= ->]|]. exists s'. split; [|done].
  rw /fetch_redis_values (rst_bind_Ok _ _ _ _ _ Hrun) /rst_lift. f_equal. clear Hrun. induction keys as [|key keys IH]; [done|]. rw !fmap_cons. cbn [zip zip_with try_collect].
  assert (Hrow : redis_projected_row_from_rows (tb_table_name (rb_binding b)) key ((λ doc, project_json_bytes doc [value_field]) <$> option_list (row_of key)) =
    Ok ((λ doc, project_json_bytes doc [value_field]) <$> row_of key)) by (by destruct (row_of key)). rw Hrow !bind_Ok.
  replace (redis_projected_field_bytes _ value_field) with (field_of key value_field); [by rw IH|]. rw /field_of. destruct (row_of key) as [doc|]; [|done].
  cbn [fmap option_fmap option_map mbind option_bind]. rw projected_bytes_of. rw decide_True //. by apply list_elem_of_singleton.
Qed.

Lemma hash_row_ok key fields s : process_ok w s → fields ≠ ["*"] → ∃ row s', hash_row cached metadata_cache w b key fields s = (Ok row, s') ∧ process_ok w s' ∧
  (fields ≠ [] → is_some row = is_some (row_of key)) ∧ ∀ field, row_field row field = if decide (field ∈ fields) then field_of key field else None.
Proof.
  intros Hok Hstar. rw /hash_row. destruct (decide (fields = [])) as [->|Hne].
  - exists None, s. split_and!; [done..|]. intros field. case_decide as Hin; [by apply not_elem_of_nil in Hin|done].
  - destruct (fetch_bytes_ok [key] fields s Hok Hne Hstar) as (s' & Hrun & Hok'). rw (rst_bind_Ok _ _ _ _ _ Hrun). cbn [fmap list_fmap head default from_option]. rw /field_of.
    destruct (row_of key) as [doc|]; do 2 eexists; (split; [done|]); (split; [done|]); (split; [done|]); intros field; [|by case_decide]. apply projected_bytes_of.
Qed.

Lemma known_select field fields : field ∈ fields → (field ∈ select_known_fields (rb_known_fields b) fields ↔ field ∈ rb_known_fields b).
Proof.
  intros Hin. rw /select_known_fields list_elem_of_filter. split; [by intros [? _]|]. intros Hk. split; [done|]. clear Hk Hserved. rw /unique_fields.
  assert (Hgo : ∀ l acc, field ∈ l ∨ field ∈ acc → field ∈ foldl (λ unique field, if existsb (String.eqb field) unique then unique else unique ++ [field]) acc l); [|apply Hgo; by left].
  induction l as [|f l IH]; intros acc [Hl|Ha]; cbn [foldl]; [by apply not_elem_of_nil in Hl|done|apply IH..].
  - apply elem_of_cons in Hl as [->|Hl]; [right|by left]. destruct (existsb (String.eqb f) acc) eqn:He; [|apply elem_of_app; right; by left].
    apply existsb_exists in He as (g & Hg%list_elem_of_In & ->%String.eqb_eq). done.
  - right. case_match; [done|]. apply elem_of_app. by left.
Qed.

Lemma known_fields_all field : field ∈ rb_known_fields b ↔ field ∈ rb_all_fields b.
Proof.
  pose proof (sd_view _ _ _ Hserved) as Hv. rw /database_view in Hv. apply bind_Ok_inv in Hv as (bindings & _ & Hv). destruct (List.filter _ _) as [|binding [|]]; try done.
  apply bind_Ok_inv in Hv as (checkpoint & _ & Hv). rw /resolved_redis_database_binding_from_checkpoint in Hv. apply bind_Ok_inv in Hv as (schema & _ & [= <-]). cbn. apply elem_of_list_to_set.
Qed.

Lemma known_not_star fields : select_known_fields (rb_known_fields b) fields ≠ ["*"].
Proof.
  intros Heq. assert (Hin : "*" ∈ select_known_fields (rb_known_fields b) fields) by (rw Heq; left). apply list_elem_of_filter in Hin as [Hin%known_fields_all _].
  by destruct (sd_fields _ _ _ Hserved).
Qed.

(** The fields of the row of a key, as the hash commands see them. *)
Lemma known_row_ok key fields s : process_ok w s → ∃ row s', hash_row cached metadata_cache w b key (select_known_fields (rb_known_fields b) fields) s = (Ok row, s') ∧ process_ok w s' ∧
  ∀ field, field ∈ fields → row_field row field = hash_field key field.
Proof.
  intros Hok. destruct (hash_row_ok key (select_known_fields (rb_known_fields b) fields) s Hok (known_not_star fields)) as (row & s' & Hrun & Hok' & _ & Hrow).
  exists row, s'. split; [done|]. split; [done|]. intros field Hf. rw Hrow /hash_field. by apply decide_ext, known_select.
Qed.

Lemma value_field_ok value_field : rd_value_field (tb_config (rb_binding b)) = Some value_field → configured_redis_value_field b = Ok value_field ∧ value_field ≠ "*".
Proof. intros Hv. rw /configured_redis_value_field Hv. split; [done|]. intros ->. by destruct (sd_fields _ _ _ Hserved). Qed.

(** A command on keys is run on what the process keeps. *)
Lemma dispatch name args (run : Redis RedisCommandResult) result s s' : (∀ s, execute_redis_command cached metadata_cache w (name :: args) (database, s) = on_process run (database, s)) →
  run s = (Ok result, s') → execute_redis_command cached metadata_cache w (name :: args) (database, s) = (Ok result, (database, s')).
Proof. intros -> Hrun. rw /on_process /rst_zoom. cbn [snd fst]. by rw Hrun. Qed.

Ltac dispatched := let s0 := fresh in intros s0; rw /execute_redis_command; match goal with H : _ = to_ascii_uppercase _ |- _ => rw -H end; by destruct (sp_is_read_only w).

(** Every command answers what the map of keys gives. *)
Lemma command_answers name args answer s : process_ok w s → redis_answer (to_ascii_uppercase name) args answer → ∃ s',
  execute_redis_command cached metadata_cache w (name :: args) (database, s) = (Ok (reply answer), (database, s')) ∧ process_ok w s'.
Proof.
  intros Hok Ha. destruct (load_binding_pure database s Hok) as (s1 & Hload & Hok1). rw (sd_view _ _ _ Hserved) in Hload.
  assert (Hvalues : ∀ keys value_field, rd_value_field (tb_config (rb_binding b)) = Some value_field → ∃ s2, process_ok w s2 ∧ ∀ (k : list (option string) → Redis RedisCommandResult),
    (load_redis_database_binding w database ≫= λ binding, rst_lift (configured_redis_value_field binding) ≫= λ value_field, fetch_redis_values cached metadata_cache w binding keys value_field ≫= k) s =
    k ((λ key, field_of key value_field) <$> keys) s2).
  { intros keys value_field Hv. destruct (value_field_ok _ Hv) as [Hconf Hstar]. destruct (values_ok keys value_field s1 Hok1 Hstar) as (s2 & Hrun & Hok2). exists s2. split; [done|]. intros k.
    rw (rst_bind_Ok _ _ _ _ _ Hload) (rst_bind_Ok _ _ s1 value_field s1); [by rw /rst_lift Hconf|]. by rw (rst_bind_Ok _ _ _ _ _ Hrun). }
  remember (to_ascii_uppercase name) as command eqn:Hname. destruct Ha as [value_field key Hv|value_field keys Hv Hne|value_field keys Hv Hne|key field|key fields Hne|key|key field].
  - destruct (Hvalues [key] value_field Hv) as (s2 & Hok2 & Hrun). exists s2. split; [|done]. apply (dispatch _ _ (execute_get cached metadata_cache w database [key])); [dispatched|].
    rw /execute_get. by rw Hrun.
  - destruct (Hvalues keys value_field Hv) as (s2 & Hok2 & Hrun). exists s2. split; [|done]. apply (dispatch _ _ (execute_mget cached metadata_cache w database keys)); [dispatched|].
    rw /execute_mget decide_False // Hrun. by rw -list_fmap_compose.
  - destruct (Hvalues keys value_field Hv) as (s2 & Hok2 & Hrun). exists s2. split; [|done]. apply (dispatch _ _ (execute_exists cached metadata_cache w database keys)); [dispatched|].
    rw /execute_exists decide_False // Hrun. rw /mret /rst_ret. do 5 f_equal. clear. induction keys as [|key keys IH]; [done|]. rw fmap_cons. cbn [List.filter]. destruct (is_some _); cbn [length]; by rw IH.
  - destruct (known_row_ok key [field] s1 Hok1) as (row & s2 & Hrun & Hok2 & Hrow). exists s2. split; [|done]. apply (dispatch _ _ (execute_hget cached metadata_cache w database [key; field])); [dispatched|].
    rw /execute_hget (rst_bind_Ok _ _ _ _ _ Hload) (rst_bind_Ok _ _ _ _ _ Hrun) Hrow //. left.
  - destruct (known_row_ok key fields s1 Hok1) as (row & s2 & Hrun & Hok2 & Hrow). exists s2. split; [|done]. apply (dispatch _ _ (execute_hmget cached metadata_cache w database (key :: fields))); [dispatched|].
    rw /execute_hmget. destruct fields as [|field fields]; [done|]. rw (rst_bind_Ok _ _ _ _ _ Hload) (rst_bind_Ok _ _ _ _ _ Hrun). rw /mret /rst_ret /reply. do 4 f_equal. apply list_fmap_ext.
    intros i f Hf%list_elem_of_lookup_2. by rw Hrow.
  - destruct (hash_row_ok key (rb_all_fields b) s1 Hok1) as (row & s2 & Hrun & Hok2 & Hsome & Hrow). { intros Heq. destruct (sd_fields _ _ _ Hserved) as [Hstar _]. apply Hstar. rw Heq. left. }
    exists s2. split; [|done]. apply (dispatch _ _ (execute_hgetall cached metadata_cache w database [key])); [dispatched|].
    rw /execute_hgetall (rst_bind_Ok _ _ _ _ _ Hload) (rst_bind_Ok _ _ _ _ _ Hrun). rw /mret /rst_ret /reply. do 3 f_equal.
    destruct (decide (rb_all_fields b = [])) as [Hnil|Hne]; [rw Hnil; by destruct row, (row_of key)|]. rw -(Hsome Hne). destruct row as [row|]; [|done]. cbn [is_some]. f_equal.
    assert (Hall : ∀ field, field ∈ rb_all_fields b → row field = field_of key field). { intros field Hf. specialize (Hrow field). rw decide_True // in Hrow. }
    clear -Hall. induction (rb_all_fields b) as [|field fields IH]; [done|]. rw !bind_cons IH; [intros f Hf; apply Hall; by right|]. rw (Hall field); [left|done].
  - destruct (known_row_ok key [field] s1 Hok1) as (row & s2 & Hrun & Hok2 & Hrow). exists s2. split; [|done]. apply (dispatch _ _ (execute_hexists cached metadata_cache w database [key; field])); [dispatched|].
    rw /execute_hexists (rst_bind_Ok _ _ _ _ _ Hload) (rst_bind_Ok _ _ _ _ _ Hrun) Hrow //. left.
Qed.

(** A sequence of commands is answered from the map. *)
Lemma commands_answered cmds replies s : process_ok w s → Forall2 (λ cmd reply, ∃ name args, cmd = name :: args ∧ redis_answer (to_ascii_uppercase name) args reply) cmds replies →
  answers (connection_execute cached metadata_cache w) cmds database s = (Ok (), foldr (λ reply rest, encode_resp_value reply +:+ rest) "" replies).
Proof.
  intros Hok Hall. revert s Hok. induction Hall as [|cmd answer cmds replies (name & args & -> & Ha) _ IH]; intros s Hok; [done|]. cbn [answers foldr].
  destruct (command_answers name args answer s Hok Ha) as (s' & Hrun & Hok'). rw /connection_execute Hrun. cbn [mbind outcome_bind map_err reply response close_connection]. by rw IH.
Qed.

(** C2. A connection serves the table: a client that pipelines commands on keys (GET, MGET,
    EXISTS, HGET, HMGET, HGETALL, HEXISTS, in any case, with keys and fields of any
    bytes and keys repeated at will) receives the replies that the table as a map from
    keys to rows gives, in order and nothing else.  The bindings, checkpoints and snapshots
    the process kept before are right for the current state ([process_ok]), and the table of
    the database has a snapshot with at most one row per key ([served]). *)
Theorem connection_serves_the_table cmds replies s : process_ok w s → Forall command_ok cmds →
  Forall2 (λ cmd reply, ∃ name args, cmd = name :: args ∧ redis_answer (to_ascii_uppercase name) args reply) cmds replies →
  handle_connection (connection_execute cached metadata_cache w) (S (length cmds)) database s (foldr (λ c s, encode_command c +:+ s) "" cmds) "" =
  Some (Ok (), foldr (λ reply rest, encode_resp_value reply +:+ rest) "" replies).
Proof.
  intros Hok Hcmds Hall. rw connection_answers; [done|lia|]. by rw (commands_answered cmds replies s Hok Hall).
Qed.
End commands.

(** What a process keeps of a database is never seen: whatever bindings and checkpoints
    it kept, as long as they were right when they were kept, loading a database gives
    what the provider describes now, errors included; and what is kept stays right. *)
Theorem kept_bindings_are_not_seen database s : process_ok w s →
  ∃ s', load_redis_database_binding w database s = (database_view w database, s') ∧ process_ok w s'.
Proof. apply load_binding_pure. Qed.
End lookups.

(** ** Configuration *)

Section configuration.
Context `{jt : JsonText, !JsonTextLaws jt, ft : FloatText, fd : FloatDisplay, ho : HashOrder, kh : KeyHasher, src : SnapshotSource, side : SidecarSource, co : CompletionOrder}.
Context {W : Type} `{provider : StateProvider W} (documents_of : string → list Object).

(** How a table is exposed. *)
Definition redis_of (w : W) (table_name : string) : option RedisTableConfig := match sp_describe_table w table_name with Ok (Some description) => td_redis description | _ => None end.
Definition exposes (w : W) (database : Z) (table_name : string) : bool :=
  match redis_of w table_name with Some config => rd_enabled config && (rd_database config =? database)%Z | None => false end.

Lemma collected w0 table_names bindings : collect_bindings w0 table_names = Ok bindings → bindings = omap (λ t, mkTableBinding t <$> redis_of w0 t) table_names.
Proof.
  revert bindings. induction table_names as [|t table_names IH]; intros bindings; cbn [collect_bindings]; [by intros [= <-]|]. intros H'. apply bind_Ok_inv in H' as (description & Hd & H').
  apply bind_Ok_inv in H' as (bindings' & Hb & [= <-]). apply IH in Hb as ->. cbn [omap list_omap]. assert (Hr : redis_of w0 t = description ≫= td_redis).
  { rw /redis_of. destruct (sp_describe_table w0 t) as [d|e|r]; try done. injection Hd as ->. by destruct description. }
  rw Hr. by destruct (description ≫= td_redis).
Qed.

Lemma exposed_names w0 database table_names : tb_table_name <$> List.filter (exposed_as database) (omap (λ t, mkTableBinding t <$> redis_of w0 t) table_names) = List.filter (exposes w0 database) table_names.
Proof.
  induction table_names as [|t table_names IH]; [done|]. cbn [omap list_omap List.filter].
  assert (He : exposes w0 database t = match redis_of w0 t with Some config => exposed_as database (mkTableBinding t config) | None => false end) by done. rw He.
  destruct (redis_of w0 t) as [config|]; [|exact IH]. cbn [fmap option_fmap option_map List.filter]. case_match; [by rw fmap_cons IH|done].
Qed.

(** No two tables are exposed as the same database. *)
Definition databases_distinct (w0 : W) : Prop := ∀ table_names database, sp_get_all_iceberg_tables w0 = Ok table_names → length (List.filter (exposes w0 database) table_names) ≤ 1.

Lemma listed_names w0 bindings : list_redis_bindings w0 = Ok bindings → ∃ table_names, sp_get_all_iceberg_tables w0 = Ok table_names ∧
  ∀ database, tb_table_name <$> List.filter (exposed_as database) bindings ≡ₚ List.filter (exposes w0 database) table_names.
Proof.
  rw /list_redis_bindings. intros H'. apply bind_Ok_inv in H' as (table_names & Ht & Hc). apply collected in Hc as ->. exists table_names. split; [destruct (sp_get_all_iceberg_tables w0); try done; by injection Ht as ->|].
  intros database. rw exposed_names. apply bool_filter_perm, sort_by_perm.
Qed.

Lemma bool_filter_NoDup {A} (p : A → bool) l : NoDup l → NoDup (List.filter p l).
Proof.
  induction 1 as [|y l Hy Hn IH]; [constructor|]. cbn [List.filter]. case_match; [|done]. constructor; [|done]. rw list_elem_of_In List.filter_In -list_elem_of_In. by intros [? _].
Qed.

(** At most one name of a list without repetition has a property only one name may have. *)
Lemma filter_at_most_one (p : string → bool) (l : list string) x : NoDup l → (∀ y, y ∈ l → p y = true → y = x) → length (List.filter p l) ≤ 1.
Proof.
  intros Hn Hx. pose proof (bool_filter_NoDup p l Hn) as Hn'.
  assert (Hall : ∀ y, y ∈ List.filter p l → y = x). { intros y. rw list_elem_of_In List.filter_In -list_elem_of_In. intros [? ?]. by apply Hx. }
  destruct (List.filter p l) as [|a [|c rest]]; [cbn; lia..|]. exfalso. assert (a = x) by (apply Hall; left). assert (c = x) by (apply Hall; right; left). subst. apply NoDup_cons in Hn' as [Hin _]. apply Hin. left.
Qed.

Lemma filter_fewer (p q : string → bool) (l l' : list string) : NoDup l → (∀ y, y ∈ l → p y = true → y ∈ l' ∧ q y = true) → length (List.filter p l) ≤ length (List.filter q l').
Proof.
  intros Hn Hp. pose proof (bool_filter_NoDup p l Hn) as Hn'.
  apply submseteq_length, NoDup_submseteq; [done|]. intros y. rw !list_elem_of_In !List.filter_In -!list_elem_of_In. intros [? ?]. by apply Hp.
Qed.

(** The check for another table with the database. *)
Lemma unique_checked path config w1 table_names t : validate_redis_database_uniqueness w1 path config = Ok () → sp_get_all_iceberg_tables w1 = Ok table_names → t ∈ table_names → t ≠ path →
  rd_enabled config = true → exposes w1 (rd_database config) t = true → False.
Proof.
  intros Hu Hts Hin Hne Hen Hexp. rw /validate_redis_database_uniqueness Hen in Hu. apply bind_Ok_inv in Hu as (bindings & Hl & Hu). apply listed_names in Hl as (names & Hn & Hnames).
  rw Hts in Hn. injection Hn as <-. assert (Hb : t ∈ tb_table_name <$> List.filter (exposed_as (rd_database config)) bindings).
  { rw Hnames list_elem_of_In List.filter_In -list_elem_of_In. done. }
  apply list_elem_of_fmap in Hb as (binding & -> & Hb). rw list_elem_of_In List.filter_In in Hb. destruct Hb as [Hb He]. destruct (find _ bindings) as [|] eqn:Hf; [done|].
  apply (List.find_none _ _ Hf) in Hb. rw He andb_true_r in Hb. apply negb_false_iff, String.eqb_eq in Hb. done.
Qed.

(** What a successful change of the configuration did. *)
Lemma put_config_steps path body w1 s r w2 s2 : put_redis_config path body (w1, s) = (Ok r, (w2, s2)) → ∃ config request s1,
  sp_is_read_only w1 = false ∧ body = Ok config ∧ r = mkRedisConfigResponse true path config ∧ validate_redis_database_uniqueness w1 path config = Ok () ∧
  (∃ schema, RedisCommands.load_table_schema w1 path s = (Ok schema, s1) ∧ validate_redis_config schema config = Ok ()) ∧
  ct_name request = path ∧ ct_redis request = Some config ∧ (∃ stored, sp_upsert_table_metadata request w1 = (Ok stored, w2)) ∧ s2 = mkRedisProcess (rp_front s1) ∅.
Proof.
  rw /put_redis_config. destruct (sp_is_read_only w1); [done|]. intros H'. apply rst_bind_Ok_inv in H' as (config & x & [= Hbody <-] & H').
  apply rst_bind_Ok_inv in H' as (existing & y & [= _ <-] & H'). apply rst_bind_Ok_inv in H' as (schema & z & Hload & H').
  apply rst_bind_Ok_inv in H' as ([] & z' & [= Hvalid <-] & H'). apply rst_bind_Ok_inv in H' as ([] & z'' & [= Hunique <-] & H').
  apply rst_bind_Ok_inv in H' as (stored & z3 & Hup & H'). apply rst_bind_Ok_inv in H' as ([] & z4 & [= <-] & [= <- <- <-]).
  rw /beside_provider /rst_zoom in Hload. destruct (RedisCommands.load_table_schema w1 path (w1, s).2) as [[sc|e|r] p] eqn:Hl; try done. injection Hload as -> <-.
  cbn [fst] in Hup. destruct (sp_upsert_table_metadata _ w1) as [[d|e|r] w3] eqn:Hu; try done. injection Hup as _ <-.
  match type of Hu with sp_upsert_table_metadata ?request _ = _ => exists config, request, p end.
  split_and!; [done|destruct body; try done; by injection Hbody as ->|done|done|by exists schema|done|done|by exists d|done].
Qed.

(** C20. Changing the configuration keeps databases apart: after a PUT that succeeds the
    table has the configuration, no two tables are exposed as one database if none were,
    and what the process keeps is right for the new state, so that the next command
    sees the change. *)
Theorem put_config_keeps_databases_apart path body w1 s r w2 s2 : put_redis_config path body (w1, s) = (Ok r, (w2, s2)) → ids_right w1 →
  (∀ request stored, sp_upsert_table_metadata request w1 = (Ok stored, w2) → upserted request w1 w2) → databases_distinct w1 → process_ok documents_of w1 s →
  RedisCommands.get_redis_config w2 path = Ok r ∧ databases_distinct w2 ∧ process_ok documents_of w2 s2.
Proof.
  intros Hput Hids1 Hlaw Hdistinct Hok. apply put_config_steps in Hput as (config & request & s1 & _ & -> & -> & Hunique & (schema & Hload & _) & Hname & Hredis & (stored & Hup) & ->).
  pose proof (Hlaw _ _ Hup) as Hw. clear Hlaw Hup. assert (Hr : ∀ t, redis_of w2 t = if decide (t = path) then Some config else redis_of w1 t).
  { intros t. rw /redis_of (up_describe _ _ _ Hw) Hname. case_decide; [|done]. by rw /= Hredis. }
  split_and!.
  - rw /RedisCommands.get_redis_config /load_table_description (up_describe _ _ _ Hw) Hname decide_True //. cbn. by rw Hredis.
  - intros names database Ht. destruct (up_tables _ _ _ Hw _ Ht) as (Hn & ts & Hts & Hn1 & Hin). rw Hname in Hin. destruct (rd_enabled config && (rd_database config =? database)%Z) eqn:He.
    + apply (filter_at_most_one _ _ path Hn). intros t Ht' Hexp. destruct (decide (t = path)) as [|Hne]; [done|exfalso]. apply Hin in Ht' as [Ht'|]; [|done].
      apply andb_true_iff in He as [Hen Hdb%Z.eqb_eq]. subst database. apply (unique_checked path config w1 ts t); [done..|]. rw /exposes Hr decide_False // in Hexp.
    + etrans; [apply (filter_fewer _ (exposes w1 database) names ts Hn)|by apply Hdistinct]. intros t Ht' Hexp. rw /exposes Hr in Hexp. case_decide as Hp; [by rw He in Hexp|]. apply Hin in Ht' as [?|]; [|done]. done.
  - rw /RedisCommands.load_table_schema in Hload. apply rst_bind_Ok_inv in Hload as (checkpoint & s3 & Hload & [= _ <-]). destruct (load_checkpoint_pure documents_of w1 Hids1 path s Hok) as (s4 & Hrun & [Hs Ha Hb] & _).
    rw Hrun in Hload. injection Hload as _ <-. split; [exact Hs| |by intros ? ? ?]. intros t id cp Hc. rw (up_checkpoints _ _ _ Hw). by apply Ha.
Qed.
End configuration.
End RedisTheory.

(** ** A table of users, exposed as database 3 *)

Module RedisDemo.
Import HashOrderDemo FloatTextDemo JsonTextDemo ActiveLookupTheory SnapshotCodecTheory SnapshotCodecDemo SnapshotLookupTheory SnapshotServingTheory RedisTheory.

Definition user (id name : string) (age : Value) : Object := [("id", VString id); ("name", VString name); ("age", age)].
Definition users : list Object := [user "u1" "Ann" (int 40); user "u2" "Bob" VNull].
Definition user_schema : PowdrrSchema := mkSchema [mkField "id" TString; mkField "name" TString; mkField "age" TInteger].
Definition user_config : RedisTableConfig := mkRedis true 3 "id" (Some "name").

#[local] Instance demo_hasher : KeyHasher := { hash_key := λ key, N.of_nat (String.length key) }.
#[local] Instance users_source : SnapshotSource := {
  materialize_local_file := λ _, Err "no files";
  query_file := λ _ _, Err "no files";
  execute_query_plan_batches := λ _ _ _, Ok [users];
}.
#[local] Instance no_sidecars : SidecarSource := { load_file_as_table := λ _, Err "no sidecars"; execute_sql := λ _ _, Err "no sidecars" }.
#[local] Instance demo_display : FloatDisplay := { display_f64 := λ _, "" }.
#[local] Instance demo_completion : CompletionOrder := {| complete := λ A l, l; complete_perm := λ A l, Permutation_refl l |}.

Definition users_checkpoint (table_name id : string) : TableMetadataCheckpoint :=
  mkCheckpoint table_name None id (Some (mkIcebergMetadata user_schema None (single "s3://u/1" 100 user_schema) [] [] [] [] [] [])) None None ∅ user_schema.

(** A provider that keeps descriptions. *)
#[local] Instance users_provider : StateProvider (gmap string TableDescription) := {
  sp_is_read_only := λ _, false;
  sp_describe_table := λ w name, Ok (w !! name);
  sp_get_all_iceberg_tables := λ w, Ok (map_to_list w).*1;
  sp_get_published_active_servable_checkpoint := λ _ _, Ok (Some "7");
  sp_get_checkpoint := λ _ descriptor, Ok (Some (users_checkpoint (cd_table_name descriptor) (cd_checkpoint_id descriptor)));
  sp_upsert_table_metadata := λ request w, (Ok true, <[ct_name request := from_create_table request]> w);
}.
Definition users_world : gmap string TableDescription := {["users" := mkTableDescription "users" ∅ None None None None (Some user_config)]}.
Definition users_binding : ResolvedRedisDatabaseBinding := mkResolvedBinding (mkTableBinding "users" user_config) "7" {["id"; "name"; "age"]} ["id"; "name"; "age"].
Definition fresh_process : RedisProcess := mkRedisProcess (mkFrontEnd (mkServingState (mkServingCaches ∅ ∅) ∅) ∅) ∅.
Definition users_of (key : string) : list Object := users.
Definition never_cached (_ _ : string) (_ : Z) : bool := false.

Lemma users_ids w : ids_right w.
Proof. intros table_name id checkpoint [= <-]. done. Qed.

Lemma fresh_ok w : process_ok users_of w fresh_process.
Proof. split; [by intros key cache|by intros ? ? ? ?|by intros ? ? ?]. Qed.

Lemma users_docs : snapshot_docs users.
Proof.
  apply Forall_forall. intros doc. rw /users !elem_of_cons. intros Hdoc. split; destruct Hdoc as [->|[->|[]%not_elem_of_nil]].
  all: try (solve_exact). all: split; [done|]; repeat (constructor; [split; vm_compute; reflexivity|]); constructor.
Qed.

Lemma users_served : served users_of users_world 3 users_binding users.
Proof.
  split.
  - vm_compute. reflexivity.
  - exists (users_checkpoint "users" "7"). eexists. split; [vm_compute; reflexivity|]. split; [|split; [done|]]; [|split_and!; [vm_compute; reflexivity|done|vm_compute; reflexivity|]].
    + vm_compute; reflexivity.
    + exists [users]. split; [done|]. split; [apply users_docs|]. vm_compute; reflexivity.
  - intros key. change (rows_of_key users _ key) with (List.filter (has_key "id" key) users). cbn [List.filter users].
    change (has_key "id" key (user "u1" "Ann" (int 40))) with (String.eqb "u1" key). change (has_key "id" key (user "u2" "Bob" VNull)) with (String.eqb "u2" key).
    destruct (String.eqb_spec "u1" key) as [<-|]; [by cbn; lia|]. destruct (String.eqb "u2" key); cbn; lia.
  - split; [|done]. cbn. rw !elem_of_cons. by intros [?|[?|[?|[]%not_elem_of_nil]]].
Qed.

Definition user_commands : list (list string) := [["get"; "u1"]; ["MGET"; "u1"; "nobody"; "u1"]; ["HMGET"; "u2"; "age"; "name"; "shoe size"]; ["HGETALL"; "u1"]; ["EXISTS"; "u1"; "u2"; "u3"]].
Definition user_replies : list RespValue :=
  [BulkString "Ann"; RArray [BulkString "Ann"; NullBulkString; BulkString "Ann"]; RArray [NullBulkString; BulkString "Bob"; NullBulkString];
   RArray [BulkString "id"; BulkString "u1"; BulkString "name"; BulkString "Ann"; BulkString "age"; BulkString (json_to_vec (int 40))]; RInteger 2].

Lemma connection_serves_the_table_witness :
  handle_connection (connection_execute never_cached ∅ users_world) 6 3 fresh_process (foldr (λ c s, encode_command c +:+ s) "" user_commands) "" =
  Some (Ok (), foldr (λ reply rest, encode_resp_value reply +:+ rest) "" user_replies).
Proof.
  apply (connection_serves_the_table never_cached ∅ users_of users_world (users_ids users_world) 3 users_binding users users_served user_commands user_replies fresh_process).
  - apply fresh_ok.
  - repeat match goal with |- Forall _ _ => constructor | |- command_ok _ => split | |- arg_ok _ => split | |- (_ ≤ _)%Z => vm_compute; discriminate end; reflexivity.
  - repeat constructor; (do 2 eexists; split; [reflexivity|]).
    + apply (get_answer users_binding users "name" "u1"). done.
    + apply (mget_answer users_binding users "name" ["u1"; "nobody"; "u1"]); done.
    + apply (hmget_answer users_binding users "u2" ["age"; "name"; "shoe size"]). done.
    + apply (hgetall_answer users_binding users "u1").
    + apply (exists_answer users_binding users "name" ["u1"; "u2"; "u3"]); done.
Defined.

(** A process that has answered before. *)
Definition used_process : RedisProcess := (connection_execute never_cached ∅ users_world 3 ["GET"; "u1"] fresh_process).2.

Lemma used_ok : process_ok users_of users_world used_process ∧ is_some (rp_bindings used_process !! 3%Z) = true.
Proof.
  split; [|vm_compute; reflexivity]. destruct (command_answers never_cached ∅ users_of users_world (users_ids _) 3 users_binding users users_served "GET" ["u1"] (BulkString "Ann") fresh_process) as (s' & Hrun & Hok).
  - apply fresh_ok.
  - by apply (get_answer users_binding users "name" "u1").
  - rw /used_process /connection_execute Hrun. exact Hok.
Qed.

Lemma kept_bindings_are_not_seen_witness : ∃ s', load_redis_database_binding users_world 3 used_process = (Ok users_binding, s') ∧ process_ok users_of users_world s'.
Proof.
  destruct (kept_bindings_are_not_seen users_of users_world (users_ids users_world) 3 used_process (proj1 used_ok)) as (s' & Hrun & Hok). exists s'. split; [|exact Hok].
  rw Hrun (sd_view _ _ _ _ _ users_served). reflexivity.
Defined.

Lemma users_upserted request w : upserted request w (<[ct_name request := from_create_table request]> w).
Proof.
  split.
  - intros t. cbn. case_decide as Ht; [subst; by rw lookup_insert_eq|by rw lookup_insert_ne; [apply not_eq_sym|]].
  - intros ts' [= <-]. split; [apply NoDup_fst_map_to_list|]. exists (map_to_list w).*1. split_and!; [done|apply NoDup_fst_map_to_list|]. intros t.
    assert (Hkey : ∀ m : gmap string TableDescription, t ∈ (map_to_list m).*1 ↔ is_Some (m !! t)).
    { intros m. rw list_elem_of_fmap. split; [intros ([k d] & -> & Hd%elem_of_map_to_list); by exists d|intros [d Hd]; exists (t, d); split; [done|by apply elem_of_map_to_list]]. }
    rw !Hkey lookup_insert_is_Some'. naive_solver.
  - done.
Qed.

Definition moved_config : RedisTableConfig := mkRedis true 4 "id" (Some "name").

Lemma users_distinct : databases_distinct users_world.
Proof.
  intros table_names database Hnames. assert (table_names = ["users"]) as ->. { vm_compute in Hnames. by injection Hnames as <-. }
  cbn [List.filter]. generalize (exposes users_world database "users"). intros []; cbn; lia.
Qed.

Lemma put_config_keeps_databases_apart_witness : ∃ w2 s2, put_redis_config "users" (Ok moved_config) (users_world, used_process) = (Ok (mkRedisConfigResponse true "users" moved_config), (w2, s2)) ∧
  get_redis_config w2 "users" = Ok (mkRedisConfigResponse true "users" moved_config) ∧ databases_distinct w2 ∧ process_ok users_of w2 s2.
Proof.
  destruct (put_redis_config "users" (Ok moved_config) (users_world, used_process)) as [r [w2 s2]] eqn:Hput. exists w2, s2.
  assert (Hr : r = Ok (mkRedisConfigResponse true "users" moved_config)). { vm_compute in Hput. by injection Hput as <- _ _. }
  split; [by rw Hr|]. subst r. apply (put_config_keeps_databases_apart users_of "users" (Ok moved_config) users_world used_process _ w2 s2 Hput).
  - apply users_ids.
  - intros request stored [= _ <-]. apply users_upserted.
  - apply users_distinct.
  - apply used_ok.
Defined.

(** The bindings a process keeps are cleared by its own PUT only: after another node has
    moved the table to database 4, this one still serves it as database 3. *)
Theorem moved_table_is_still_served :
  let moved := <["users" := mkTableDescription "users" ∅ None None None None (Some moved_config)]> users_world in
  (connection_execute never_cached ∅ moved 3 ["GET"; "u1"] used_process).1.1 = Ok (BulkString "Ann", false) ∧
  database_view moved 3 = Err (namespace_not_found "Redis database 3 is not configured").
Proof. vm_compute. done. Qed.
End RedisDemo.
