(* ===== verification/SqlExpr.v ===== *)
(** * SQL expressions and the query builder (query_core/src/schema_massager.rs)

    A search is compiled to SQL through a tree of expressions that is fitted to the schema
    of each file before it is printed.  The builder keeps a stack of filter contexts; its
    operations are those of the source, in a state monad whose panics are [unwrap]s and
    assertions. *)

From S2P Require Import Prelude Text StableSort Schema.

(** ** Expressions *)

(** SRC query_core/src/schema_massager.rs:10-34= SqlExpression, NamedStructEntry *)
Inductive SqlExpression : Type :=
| SAnd (exprs : list SqlExpression)
| SArithmetic (l : SqlExpression) (op : string) (r : SqlExpression)
| SAverage (value : SqlExpression)
| SComparison (l : SqlExpression) (op : string) (r : SqlExpression)
| SCount
| SCountDistinct (value : SqlExpression)
| SFieldRef (table field : string)
| SIn (l : SqlExpression) (r : list SqlExpression)
| SIsNull (value : SqlExpression)
| SLike (l r : SqlExpression)
| SLiteralNonString (value : string)
| SLiteralString (value : string)
| SNamedStruct (entries : list (string * SqlExpression))
| SNot (value : SqlExpression)
| SNull (type : PowdrrDataType)
| SOr (exprs : list SqlExpression).

(** SRC query_core/src/schema_massager.rs:400-408= SqlExpression::and *)
Definition sql_and (exprs : list SqlExpression) : option SqlExpression := match exprs with [] => None | [e] => Some e | _ => Some (SAnd exprs) end.
(** SRC query_core/src/schema_massager.rs:410-418= SqlExpression::or *)
Definition sql_or (exprs : list SqlExpression) : option SqlExpression := match exprs with [] => None | [e] => Some e | _ => Some (SOr exprs) end.

(** SRC query_core/src/schema_massager.rs:40-50= SqlExpression::is_delete_filter *)
Definition is_delete_filter (e : SqlExpression) : bool :=
  match e with SIsNull (SFieldRef table field) => String.eqb table "dt" && String.eqb field "_id_seq_no" | _ => false end.

(** SRC query_core/src/schema_massager.rs:52-63= SqlExpression::without_delete_filter *)
Fixpoint without_delete_filter (e : SqlExpression) : option SqlExpression :=
  if is_delete_filter e then None
  else match e with
       | SAnd exprs => sql_and (omap without_delete_filter exprs)
       | _ => Some e
       end.

(** [path.split('.')] of a name in which the dots were replaced is the name itself. *)
(** SRC query_core/src/schema_massager.rs:65-90= SqlExpression::lookup_field, lookup_field_worker *)
Fixpoint lookup_field_worker (schema : gmap string PowdrrField) (path : list string) : option PowdrrField :=
  match path with
  | [] => None
  | [last] => schema !! last
  | first :: path =>
      match schema !! first with
      | Some field => match data_type field with TObject schema => lookup_field_worker (to_map schema) path | _ => None end
      | None => None
      end
  end.
Definition lookup_field (schema : gmap string PowdrrField) (path : string) : option PowdrrField := lookup_field_worker schema (split_on "." path).

Definition denormalized (name : string) : string := replace "." "_" name.

(** SRC control_plane/src/schema_massager.rs:52-63 PowdrrDataType::to_sql_type *)
Definition to_sql_type (t : PowdrrDataType) : outcome string :=
  match t with
  | TBoolean => Ok "BOOLEAN"
  | TFloat => Ok "DOUBLE"
  | TInteger => Ok "BIGINT"
  | TString => Ok "STRING"
  | TNull => Panic "Cannot convert null to SQL type"
  | TArray _ | TObject _ => Panic "not yet implemented"
  end.

Definition sql_quote (text : string) : string := "'" +:+ text +:+ "'".
Definition sql_name (text : string) : string := String "034" "" +:+ text +:+ String "034" "".

(** SRC query_core/src/schema_massager.rs:325-398= SqlExpression::stringize *)
Fixpoint stringize (e : SqlExpression) : outcome string :=
  match e with
  | SAnd exprs => texts ← try_collect stringize exprs; Ok ("(" +:+ join " AND " texts +:+ ")")
  | SArithmetic l op r | SComparison l op r => left ← stringize l; right ← stringize r; Ok ("(" +:+ left +:+ " " +:+ op +:+ " " +:+ right +:+ ")")
  | SAverage value => text ← stringize value; Ok ("AVG(" +:+ text +:+ ")")
  | SCount => Ok "count(1)"
  | SCountDistinct value => text ← stringize value; Ok ("count(distinct " +:+ text +:+ ")")
  | SFieldRef table field =>
      if String.eqb table "t" then Ok (table +:+ "." +:+ sql_name (denormalized field))
      else if str_mem "." field then Panic "Need to handle this case now" else Ok (table +:+ "." +:+ sql_name field)
  | SIn l r => left ← stringize l; texts ← try_collect stringize r; Ok (left +:+ " IN (" +:+ join ", " texts +:+ ")")
  | SIsNull value => text ← stringize value; Ok (text +:+ " IS NULL")
  | SLike l r => left ← stringize l; right ← stringize r; Ok (left +:+ " LIKE " +:+ right)
  | SLiteralNonString value => Ok value
  | SLiteralString value => Ok (sql_quote value)
  | SNamedStruct entries =>
      texts ← (fix go (entries : list (string * SqlExpression)) : outcome (list string) :=
        match entries with
        | [] => Ok []
        | (name, e) :: entries => text ← stringize e; rest ← go entries; Ok ((sql_quote name +:+ ", " +:+ text) :: rest)
        end) entries;
      Ok ("NAMED_STRUCT(" +:+ join ", " texts +:+ ")")
  | SNot value => text ← stringize value; Ok ("NOT(" +:+ text +:+ ")")
  | SNull t =>
      match t with
      | TObject _ | TArray _ | TNull => Ok "NULL"
      | TBoolean => Ok "false"
      | _ => type ← to_sql_type t; Ok ("CAST(NULL AS " +:+ type +:+ ")")
      end
  | SOr exprs => texts ← try_collect stringize exprs; Ok ("(" +:+ join " OR " texts +:+ ")")
  end.

Section finalize.
Context `{HashOrder}.

(** Both types are of the one Rust type, so that the test on it never fails. *)
(** SRC query_core/src/schema_massager.rs:286-323= SqlExpression::populate_field *)
Fixpoint populate_field (self : SqlExpression) (original target : PowdrrDataType) : SqlExpression :=
  match original, target with
  | TObject original_schema, TObject target_schema =>
      let target_map := to_map target_schema in
      let entries := (fix go (fields : list PowdrrField) : gmap string SqlExpression :=
        match fields with
        | [] => ∅
        | mkField field_name field_type :: fields =>
            let rest := go fields in
            match rest !! field_name with
            | Some _ => rest
            | None => <[field_name := match target_map !! field_name with
                                      | Some target_field => populate_field self field_type (data_type target_field)
                                      | None => SNull field_type
                                      end]> rest
            end
        end) (let '(mkSchema fields) := original_schema in fields) in
      SNamedStruct (hash_iter entries)
  | _, _ => self
  end.

Context (original_schema target_schema : gmap string PowdrrField).

(** SRC query_core/src/schema_massager.rs:187-284= SqlExpression::finalize *)
Fixpoint finalize (e : SqlExpression) : outcome SqlExpression :=
  match e with
  | SAnd exprs => exprs ← try_collect finalize exprs; Ok (SAnd exprs)
  | SArithmetic l op r => l ← finalize l; r ← finalize r; Ok (SArithmetic l op r)
  | SAverage value => value ← finalize value; Ok (SAverage value)
  | SComparison l op r =>
      final_left ← finalize l;
      final_right ← finalize r;
      text ← stringize final_left;
      Ok (if String.eqb text "null" then SLiteralNonString "false" else SComparison final_left op final_right)
  | SCountDistinct value => value ← finalize value; Ok (SCountDistinct value)
  | SFieldRef table name =>
      if String.eqb table "t" then
        let denormalized_name := denormalized name in
        match lookup_field original_schema denormalized_name with
        | None => Ok (SLiteralNonString "null")
        | Some original_field =>
            Ok (match lookup_field target_schema denormalized_name with
                | Some target_field => populate_field e (data_type original_field) (data_type target_field)
                | None => SNull (data_type original_field)
                end)
        end
      else Ok e
  | SIn l r => l ← finalize l; r ← try_collect finalize r; Ok (SIn l r)
  | SIsNull value => value ← finalize value; Ok (SIsNull value)
  | SLike l r => l ← finalize l; r ← finalize r; Ok (SLike l r)
  | SNamedStruct entries =>
      entries ← (fix go (entries : list (string * SqlExpression)) : outcome (list (string * SqlExpression)) :=
        match entries with
        | [] => Ok []
        | (name, e) :: entries => e ← finalize e; rest ← go entries; Ok ((name, e) :: rest)
        end) entries;
      Ok (SNamedStruct entries)
  | SNot value => value ← finalize value; Ok (SNot value)
  | SOr exprs => exprs ← try_collect finalize exprs; Ok (SOr exprs)
  | SCount | SLiteralNonString _ | SLiteralString _ | SNull _ => Ok e
  end.

(** ** Fields of a result *)

(** SRC query_core/src/schema_massager.rs:178-185= SqlExpression::make_exploded_ref *)
Definition make_exploded_ref (self : SqlExpression) (prefix : string) : outcome SqlExpression :=
  match self with SFieldRef table name => Ok (SFieldRef table (name +:+ prefix)) | _ => Panic "Expected a field ref" end.

(** [HashMap::extend] of one map by another. *)
Definition extend {A} (result more : gmap string A) : gmap string A := more ∪ result.

(** SRC query_core/src/schema_massager.rs:163-176= SqlExpression::explode_full_ref *)
Fixpoint explode_full_ref (prefix : string) (t : PowdrrDataType) : gmap string SqlExpression :=
  match t with
  | TObject (mkSchema fields) =>
      (fix go (result : gmap string SqlExpression) (fields : list PowdrrField) : gmap string SqlExpression :=
         match fields with
         | [] => result
         | mkField field_name field_type :: fields => go (extend result (explode_full_ref (prefix +:+ "_" +:+ field_name) field_type)) fields
         end) ∅ fields
  | _ => {[prefix := SNull t]}
  end.

(** SRC query_core/src/schema_massager.rs:116-161= SqlExpression::explode_partial_ref *)
Fixpoint explode_partial_ref (self : SqlExpression) (prefix : string) (original target : PowdrrDataType) : outcome (gmap string SqlExpression) :=
  match target with
  | TObject target_schema =>
      match original with
      | TObject (mkSchema fields) =>
          let target_map := to_map target_schema in
          (fix go (result : gmap string SqlExpression) (fields : list PowdrrField) : outcome (gmap string SqlExpression) :=
             match fields with
             | [] => Ok result
             | mkField field_name field_type :: fields =>
                 more ← match target_map !! field_name with
                        | Some tf => explode_partial_ref self (prefix +:+ "_" +:+ field_name) field_type (data_type tf)
                        | None => Ok (explode_full_ref (prefix +:+ "_" +:+ field_name) field_type)
                        end;
                 go (extend result more) fields
             end) ∅ fields
      | _ => exploded ← make_exploded_ref self prefix; Ok {[prefix := exploded]}
      end
  | TNull => Ok {[prefix := SNull original]}
  | _ => exploded ← make_exploded_ref self prefix; Ok {[prefix := exploded]}
  end.

(** SRC query_core/src/schema_massager.rs:92-114= SqlExpression::explode_ref *)
Definition explode_ref (self : SqlExpression) (name : string) : outcome (gmap string SqlExpression) :=
  let denormalized_name := denormalized name in
  match lookup_field original_schema denormalized_name, lookup_field target_schema denormalized_name with
  | None, _ => Ok {["" := self]}
  | Some original_field, Some target_field => explode_partial_ref self "" (data_type original_field) (data_type target_field)
  | Some original_field, None => Ok (explode_full_ref "" (data_type original_field))
  end.
End finalize.

(** SRC query_core/src/schema_massager.rs:421-425= FieldExpression *)
Record FieldExpression : Type := mkFieldExpression { fe_name : string; fe_expression : SqlExpression }.

(** SRC query_core/src/schema_massager.rs:455-457= FieldExpression::stringize *)
Definition field_stringize (f : FieldExpression) : outcome string := text ← stringize (fe_expression f); Ok (text +:+ " as " +:+ sql_name (fe_name f)).

(** SRC query_core/src/schema_massager.rs:428-453= FieldExpression::finalize *)
Definition field_finalize `{HashOrder} (original_schema target_schema : gmap string PowdrrField) (f : FieldExpression) : outcome (list FieldExpression) :=
  match fe_expression f with
  | SFieldRef table name =>
      if String.eqb table "t" then
        exploded ← explode_ref original_schema target_schema (fe_expression f) name;
        Ok ((λ '(suffix, e), mkFieldExpression (fe_name f +:+ suffix) e) <$> hash_iter exploded)
      else e ← finalize original_schema target_schema (fe_expression f); Ok [mkFieldExpression (fe_name f) e]
  | _ => e ← finalize original_schema target_schema (fe_expression f); Ok [mkFieldExpression (fe_name f) e]
  end.

(** ** The builder *)

(** SRC query_core/src/schema_massager.rs:460-471= SqlBuilder *)
Record SqlBuilder : Type := mkSqlBuilder {
  sb_all_fields : bool;
  sb_fields : list FieldExpression;
  sb_joins : list string;
  sb_filter_stack : list (list SqlExpression);
  sb_limit : option Z;
  sb_calculate_score : bool;
  sb_order_by : list SqlExpression;
  sb_group_by : list SqlExpression;
  sb_doc_id_field_name : string;
}.

(** SRC query_core/src/schema_massager.rs:473-483= SqlQuery *)
Record SqlQuery : Type := mkSqlQuery {
  sq_dummy : bool;
  sq_all_fields : bool;
  sq_fields : list FieldExpression;
  sq_joins : string;
  sq_filters : option SqlExpression;
  sq_limit : option Z;
  sq_order_by : list SqlExpression;
  sq_group_by : list SqlExpression;
}.

(** The stack with its top first. *)
Definition set_filter_stack (stack : list (list SqlExpression)) (b : SqlBuilder) : SqlBuilder :=
  mkSqlBuilder (sb_all_fields b) (sb_fields b) (sb_joins b) stack (sb_limit b) (sb_calculate_score b) (sb_order_by b) (sb_group_by b) (sb_doc_id_field_name b).
Definition set_calculate_score (score : bool) (b : SqlBuilder) : SqlBuilder :=
  mkSqlBuilder (sb_all_fields b) (sb_fields b) (sb_joins b) (sb_filter_stack b) (sb_limit b) score (sb_order_by b) (sb_group_by b) (sb_doc_id_field_name b).
Definition set_fields (fields : list FieldExpression) (b : SqlBuilder) : SqlBuilder :=
  mkSqlBuilder (sb_all_fields b) fields (sb_joins b) (sb_filter_stack b) (sb_limit b) (sb_calculate_score b) (sb_order_by b) (sb_group_by b) (sb_doc_id_field_name b).
Definition set_joins (joins : list string) (b : SqlBuilder) : SqlBuilder :=
  mkSqlBuilder (sb_all_fields b) (sb_fields b) joins (sb_filter_stack b) (sb_limit b) (sb_calculate_score b) (sb_order_by b) (sb_group_by b) (sb_doc_id_field_name b).

(** SRC query_core/src/schema_massager.rs:490-521= SqlBuilder::for_query_with_options *)
Definition for_query_with_options (all_fields : bool) (doc_id_field_name : string) (include_deletes_join : bool) : SqlBuilder :=
  let normalized := denormalized doc_id_field_name in
  mkSqlBuilder all_fields [] (if include_deletes_join then ["LEFT JOIN {deletes_table} dt ON dt._id_seq_no = t." +:+ sql_name normalized] else [])
    [if include_deletes_join then [SIsNull (SFieldRef "dt" "_id_seq_no")] else []] None false [] [] normalized.

(** SRC query_core/src/schema_massager.rs:486-488= SqlBuilder::for_query *)
Definition for_query (all_fields : bool) : SqlBuilder := for_query_with_options all_fields "_id_seq_no" true.

(** SRC query_core/src/schema_massager.rs:523-535= SqlBuilder::for_agg *)
Definition for_agg : SqlBuilder := mkSqlBuilder false [] [] [[]] None false [] [] "_id_seq_no".

(** SRC query_core/src/schema_massager.rs:537-554= SqlBuilder::for_compaction *)
Definition for_compaction : SqlBuilder :=
  mkSqlBuilder true [mkFieldExpression "_dt_id_seq_no" (SFieldRef "dt" "_id_seq_no")] ["FULL OUTER JOIN {deletes_table} dt ON (dt._id_seq_no = t._id_seq_no)"] [[]] None false [] [] "_id_seq_no".

(** SRC query_core/src/schema_massager.rs:561-564= SqlBuilder::push_filter_context *)
Definition push_filter_context : ST SqlBuilder () := st_modify (λ b, set_filter_stack ([] :: sb_filter_stack b) b).

(** SRC query_core/src/schema_massager.rs:574-596= SqlBuilder::pop_and_maybe_not_filter_context *)
Definition pop_and_maybe_not_filter_context (is_and is_not : bool) : ST SqlBuilder () := λ b,
  match sb_filter_stack b with
  | [] => (Panic "assertion failed: local_filter_stack.len() > 0", b)
  | top :: rest =>
      match (if is_and then sql_and top else sql_or top) with
      | None => (Ok (), set_filter_stack rest b)
      | Some filter =>
          match rest with
          | [] => (Panic "called `Option::unwrap()` on a `None` value", set_filter_stack [] b)
          | next :: rest => (Ok (), set_filter_stack ((next ++ [if is_not then SNot filter else filter]) :: rest) b)
          end
      end
  end.

(** SRC query_core/src/schema_massager.rs:566-572= SqlBuilder::pop_filter_context, pop_and_not_filter_context *)
Definition pop_filter_context (is_and : bool) : ST SqlBuilder () := pop_and_maybe_not_filter_context is_and false.
Definition pop_and_not_filter_context (is_and : bool) : ST SqlBuilder () := pop_and_maybe_not_filter_context is_and true.

(** SRC query_core/src/schema_massager.rs:598-602= SqlBuilder::filter *)
Definition add_filter (filter : SqlExpression) : ST SqlBuilder () := λ b,
  match sb_filter_stack b with
  | [] => (Panic "called `Option::unwrap()` on a `None` value", b)
  | top :: rest => (Ok (), set_filter_stack ((top ++ [filter]) :: rest) b)
  end.

(** SRC query_core/src/schema_massager.rs:604-613= SqlBuilder::_joins *)
Definition builder_joins (b : SqlBuilder) : list string :=
  sb_joins b ++ (if sb_calculate_score b then ["INNER JOIN {target_table}_search_index si on si.doc_id = t." +:+ sql_name (sb_doc_id_field_name b)] else []).

(** SRC query_core/src/schema_massager.rs:615-620= SqlBuilder::_filters *)
Definition builder_filters (b : SqlBuilder) : outcome (option SqlExpression) :=
  match sb_filter_stack b with [top] => Ok (sql_and top) | _ => Panic "assertion `left == right` failed" end.

(** SRC query_core/src/schema_massager.rs:622-635= SqlBuilder::_fields *)
Definition builder_fields (b : SqlBuilder) : list FieldExpression :=
  sb_fields b ++ (if sb_calculate_score b then [mkFieldExpression "term_cnt" (SFieldRef "si" "term_cnt"); mkFieldExpression "word_cnt" (SFieldRef "si" "word_cnt")] else []).

(** SRC query_core/src/schema_massager.rs:637-648= SqlBuilder::build *)
Definition builder_build (b : SqlBuilder) : outcome SqlQuery :=
  filters ← builder_filters b;
  Ok (mkSqlQuery false (sb_all_fields b) (builder_fields b) (join " " (builder_joins b)) filters (sb_limit b) (sb_order_by b) (sb_group_by b)).

(** ** The text of a query *)

(** SRC query_core/src/schema_massager.rs:652-669= SqlQuery::without_deletes *)
Definition without_deletes (q : SqlQuery) : SqlQuery :=
  mkSqlQuery (sq_dummy q) (sq_all_fields q) (sq_fields q) (trim (replace ("LEFT JOIN {deletes_table} dt ON dt._id_seq_no = t." +:+ sql_name "_id_seq_no") " " (sq_joins q)))
    (sq_filters q ≫= without_delete_filter) (sq_limit q) (sq_order_by q) (sq_group_by q).

(** SRC query_core/src/schema_massager.rs:671-685= SqlQuery::dummy *)
Definition dummy_query : SqlQuery := mkSqlQuery false false [mkFieldExpression "cnt" SCount] "" None None [] [].

Section text.
Context `{HashOrder} (original_schema target_schema : PowdrrSchema).
Let original_map := to_map original_schema.
Let target_map := to_map target_schema.

(** SRC query_core/src/schema_massager.rs:687-714= SqlQuery::fields *)
Definition query_fields (q : SqlQuery) : outcome string :=
  let fields_copy := sq_fields q ++ (if sq_all_fields q then (λ '(_, field), mkFieldExpression (name field) (SFieldRef "t" (name field))) <$> hash_iter original_map else []) in
  let fields_copy := sort_by (λ a b, String.compare (fe_name a) (fe_name b)) fields_copy in
  final_fields ← try_collect (λ field, finals ← field_finalize original_map target_map field; try_collect field_stringize finals) fields_copy;
  Ok (join ", " (concat final_fields)).

(** SRC query_core/src/schema_massager.rs:716-732= SqlQuery::filters *)
Definition query_filters (q : SqlQuery) : outcome string :=
  match sq_filters q with
  | Some filter => final ← finalize original_map target_map filter; text ← stringize final; Ok (" WHERE " +:+ text)
  | None => Ok ""
  end.

Definition clause_list (keyword : string) (exprs : list SqlExpression) : outcome string :=
  match exprs with
  | [] => Ok ""
  | _ => texts ← try_collect (λ e, final ← finalize original_map target_map e; stringize final) exprs; Ok (keyword +:+ join ", " texts)
  end.
(** SRC query_core/src/schema_massager.rs:734-768= SqlQuery::order_by, SqlQuery::group_by *)
Definition query_order_by (q : SqlQuery) : outcome string := clause_list " ORDER BY " (sq_order_by q).
Definition query_group_by (q : SqlQuery) : outcome string := clause_list " GROUP BY " (sq_group_by q).

(** SRC query_core/src/schema_massager.rs:770-783= SqlQuery::limit, SqlQuery::from *)
Definition query_limit (q : SqlQuery) : string := match sq_limit q with Some limit => " LIMIT " +:+ print_int limit | None => "" end.
Definition query_from (q : SqlQuery) : string := if sq_dummy q then " " else " FROM {target_table} t ".

(** SRC query_core/src/schema_massager.rs:789-801= SqlQuery::build *)
Definition query_build (q : SqlQuery) : outcome string :=
  fields ← query_fields q;
  filters ← query_filters q;
  order_by ← query_order_by q;
  group_by ← query_group_by q;
  Ok ("SELECT " +:+ fields +:+ query_from q +:+ sq_joins q +:+ filters +:+ group_by +:+ order_by +:+ query_limit q).
End text.
