(* ===== verification/SearchPlan.v ===== *)
(** * Search plans (query_core/src/search_plan.rs)

    What a search asks for, as the parser of the search language leaves it. *)

From S2P Require Import Prelude Json.

(** SRC query_core/src/search_plan.rs:230-235 ScriptPlan *)
Record ScriptPlan : Type := mkScriptPlan { sc_source : string; sc_lang : string; sc_params : Value }.

(** SRC query_core/src/search_plan.rs:21-25 PitTarget *)
Record PitTarget : Type := mkPitTarget { pit_id : string; pit_keep_alive : string }.

(** SRC query_core/src/search_plan.rs:15-19 SearchTarget *)
Inductive SearchTarget : Type := TargetTable (table : string) | TargetPit (pit : PitTarget).

(** SRC query_core/src/search_plan.rs:27-36 SortPlan *)
Inductive SortPlan : Type :=
| SortBare (field : string)
| SortField (field : string) (order unmapped_type : option string) (script : option ScriptPlan).

(** SRC query_core/src/search_plan.rs:53-57 MatchClausePlan *)
Record MatchClausePlan : Type := mkMatchClause { mc_field : string; mc_query : string }.

(** SRC query_core/src/search_plan.rs:73-77 TermClausePlan *)
Record TermClausePlan : Type := mkTermClause { tc_field : string; tc_value : Value }.

(** SRC query_core/src/search_plan.rs:99-105 RangeOperatorPlan *)
Inductive RangeOperatorPlan : Type := OpGt (value : Value) | OpGte (value : Value) | OpLt (value : Value) | OpLte (value : Value).

(** SRC query_core/src/search_plan.rs:89-97 RangeClausePlan *)
Record RangeClausePlan : Type := mkRangeClause {
  rc_field : string;
  rc_operator : RangeOperatorPlan;
  rc_format : option string;
  rc_relation : option string;
  rc_time_zone : option string;
  rc_boost : option f64;
}.

(** SRC query_core/src/search_plan.rs:107-112 SimpleQueryStringPlan *)
Record SimpleQueryStringPlan : Type := mkSimpleQueryString { sqs_query : string; sqs_fields : list string; sqs_default_operator : string }.

(** The plans of a boolean query are a record of lists of plans. *)
(** SRC query_core/src/search_plan.rs:38-66= QueryPlan, BoolPlan *)
Inductive QueryPlan : Type :=
| QMatch (clauses : list MatchClausePlan)
| QBool (filter should must must_not : list QueryPlan) (minimum_should_match : option Z)
| QTerm (clauses : list TermClausePlan)
| QExists (field : string)
| QRange (clauses : list RangeClausePlan)
| QSimpleQueryString (plan : SimpleQueryStringPlan).

(** SRC query_core/src/search_plan.rs:141-147 TermsOrderPlan *)
Inductive TermsOrderPlan : Type := CountAsc | CountDesc | KeyAsc | KeyDesc.

(** SRC query_core/src/search_plan.rs:214-218 AggregationWindowPlan *)
Record AggregationWindowPlan : Type := mkWindow { aw_from : string; aw_to : string }.

(** SRC query_core/src/search_plan.rs:202-212 AggregationRangeBoundsPlan *)
Inductive AggregationRangeBoundsPlan : Type :=
| RangeRaw (field : string) (operator : RangeOperatorPlan)
| RangeStructured (field : string) (ranges : list AggregationWindowPlan).

(** SRC query_core/src/search_plan.rs:163-167 AggregationFilterPlan *)
Inductive AggregationFilterPlan : Type := FilterTerm (field value : string) | FilterRange (range : AggregationRangeBoundsPlan).

(** SRC query_core/src/search_plan.rs:178-182 DateHistogramExtendedBoundsPlan *)
Record DateHistogramExtendedBoundsPlan : Type := mkExtendedBounds { eb_min : Value; eb_max : Value }.

(** An aggregation is its name and its specification, with the aggregations below it. *)
(** SRC query_core/src/search_plan.rs:114-129= AggregationPlan, AggregationPlanSpec *)
Inductive AggregationPlan : Type :=
| ATerms (name field : string) (size : option Z) (order : option TermsOrderPlan) (missing : option Value) (show_term_doc_count_error : bool) (sub_aggregations : list AggregationPlan)
| AMissing (name field : string) (size : option Z) (show_term_doc_count_error : bool) (sub_aggregations : list AggregationPlan)
| AFilter (name : string) (filter : AggregationFilterPlan) (sub_aggregations : list AggregationPlan)
| ADateHistogram (name field fixed_interval : string) (min_doc_count : option Z) (extended_bounds : option DateHistogramExtendedBoundsPlan) (sub_aggregations : list AggregationPlan)
| ACardinality (name field : string) (sub_aggregations : list AggregationPlan)
| ARange (name : string) (range : AggregationRangeBoundsPlan) (sub_aggregations : list AggregationPlan)
| AAverage (name field : string) (sub_aggregations : list AggregationPlan).

Definition ag_name (a : AggregationPlan) : string :=
  match a with
  | ATerms name _ _ _ _ _ _ | AMissing name _ _ _ _ | AFilter name _ _ | ADateHistogram name _ _ _ _ _ | ACardinality name _ _ | ARange name _ _ | AAverage name _ _ => name
  end.

(** SRC query_core/src/search_plan.rs:3-13 SearchPlan *)
Record SearchPlan : Type := mkSearchPlan {
  sn_target : SearchTarget;
  sn_from : Z;
  sn_size : option Z;
  sn_search_after : option (list Value);
  sn_seq_no_primary_term : option bool;
  sn_query : option QueryPlan;
  sn_aggregations : list AggregationPlan;
  sn_sort : list SortPlan;
}.

(** SRC query_core/src/search_plan.rs:220-228 UpdateByQueryPlan *)
Record UpdateByQueryPlan : Type := mkUpdateByQuery {
  uq_table : string;
  uq_query : QueryPlan;
  uq_script : ScriptPlan;
  uq_sort : list SortPlan;
  uq_max_docs : option Z;
  uq_conflicts : option string;
}.

(** Induction through the lists of a boolean query. *)
Lemma QueryPlan_nested_ind (Q : QueryPlan → Prop) : (∀ clauses, Q (QMatch clauses)) →
  (∀ filter should must must_not minimum, Forall Q filter → Forall Q should → Forall Q must → Forall Q must_not → Q (QBool filter should must must_not minimum)) →
  (∀ clauses, Q (QTerm clauses)) → (∀ field, Q (QExists field)) → (∀ clauses, Q (QRange clauses)) → (∀ plan, Q (QSimpleQueryString plan)) → ∀ q, Q q.
Proof.
  intros H1 H2 H3 H4 H5 H6. fix IH 1. assert (Hall : ∀ l : list QueryPlan, Forall Q l → Forall Q l) by done.
  intros [clauses|f s m n min|clauses|field|clauses|plan]; [apply H1| |apply H3|apply H4|apply H5|apply H6].
  apply H2; [induction f as [|q f IHf]|induction s as [|q s IHs]|induction m as [|q m IHm]|induction n as [|q n IHn]]; constructor; auto.
Qed.
