(* ===== verification/ElasticParser.v ===== *)
(** * The search language (query_runtime/src/elastic_search_parser.rs)

    Bodies of searches, as the derived decoders leave them, are turned into search plans.
    A [HashMap] of a body is the list of its entries in the order it is iterated, one entry
    for each key.  The decoders themselves are written by a macro and are parameters, as
    is the debug text of a plan, by which some alternatives are sorted. *)

From S2P Require Import Prelude Text Json Float StableSort SearchPlan.

(** A parse error is its message. *)
Abbreviation parse := (result string).

(** ** Bodies *)

(** SRC query_runtime/src/search_runtime.rs:95-101 ScriptBlock *)
Record ScriptBlock : Type := mkScriptBlock { sk_source : string; sk_lang : string; sk_params : Value }.

(** SRC query_runtime/src/elastic_search_parser.rs:382-389 SortBody *)
Record SortBody : Type := mkSortBody { sy_type : option string; sy_order : option string; sy_unmapped_type : option string; sy_script : option ScriptBlock }.

(** SRC query_runtime/src/elastic_search_parser.rs:55-67= SortType, SortSection *)
Inductive SortType : Type := SortTypeBare (field : string) | SortTypeParameterized (parameters : list (string * SortBody)).
Inductive SortSection : Type := SortSingle (sort : SortType) | SortMultiple (sorts : list SortType).

(** SRC query_runtime/src/elastic_search_parser.rs:338-365= RangeSpecOperator, RangeSpecGt, RangeSpecGte, RangeSpecLt, RangeSpecLte *)
Inductive RangeSpecOperator : Type := SpecGT (gt : Value) | SpecGTE (gte : Value) | SpecLT (lt : Value) | SpecLTE (lte : Value).

(** SRC query_runtime/src/elastic_search_parser.rs:367-375 RangeSpec *)
Record RangeSpec : Type := mkRangeSpec { rp_op : RangeSpecOperator; rp_format : option string; rp_relation : option string; rp_time_zone : option string; rp_boost : option f64 }.

(** SRC query_runtime/src/elastic_search_parser.rs:255-265= FieldMatch, FieldMatchBody *)
Inductive FieldMatch : Type := FieldMatchString (text : string) | FieldMatchStruct (query : string).

(** SRC query_runtime/src/elastic_search_parser.rs:408-413 QueryStringBody *)
Record QueryStringBody : Type := mkQueryStringBody { qs_query : string; qs_fields : option (list string); qs_default_operator : option string }.

(** A single query or a list of them is read as a list. *)
(** SRC query_runtime/src/elastic_search_parser.rs:223-236= Query *)
Inductive Query : Type :=
| QueryMatch (fields : list (string * FieldMatch))
| QueryMultiMatch (query : string) (fields : list string)
| QueryBool (filter should must must_not : SingleOrVec) (minimum_should_match : option Z)
| QueryTerm (term : list (string * Value))
| QueryTerms (terms : list (string * list Value))
| QueryIds (values : list Value)
| QueryExists (field : string)
| QueryQueryString (body : QueryStringBody)
| QuerySimpleQueryString (query : string) (fields : list string) (default_operator : string)
| QueryRange (range : list (string * RangeSpec))
(** SRC query_runtime/src/elastic_search_parser.rs:273-278 SingleOrVec *)
with SingleOrVec : Type :=
| SVec (queries : list Query)
| SSingle (query : Query).

(** SRC query_runtime/src/elastic_search_parser.rs:108-125= AggSpecFilterRangeBody, AggSpecFilterRangeStructured, AggSpecFilterRangeSpan *)
Inductive AggSpecFilterRangeBody : Type :=
| BodyStructured (field : string) (ranges : list (string * string))
| BodyRaw (raw : list (string * RangeSpecOperator)).

(** SRC query_runtime/src/elastic_search_parser.rs:132-137 AggSpecFilterBody *)
Inductive AggSpecFilterBody : Type := BodyTerm (term : list (string * string)) | BodyRange (range : AggSpecFilterRangeBody).

(** SRC query_runtime/src/elastic_search_parser.rs:73-81 AggSpecTermsBody *)
Record AggSpecTermsBody : Type := mkTermsBody {
  tb_field : string;
  tb_size : option Z;
  tb_order : option (list (string * string));
  tb_missing : option Value;
  tb_show_term_doc_count_error : bool;
}.

(** SRC query_runtime/src/elastic_search_parser.rs:192-203= AggSpec *)
Inductive AggSpec : Type :=
| SpecTerms (terms : AggSpecTermsBody) (aggs : option (list (string * AggSpec)))
| SpecMissing (field : string) (size : option Z) (show_term_doc_count_error : bool) (aggs : option (list (string * AggSpec)))
| SpecFilter (filter : AggSpecFilterBody) (aggs : option (list (string * AggSpec)))
| SpecDateHistogram (field fixed_interval : string) (min_doc_count : option Z) (extended_bounds : option (Value * Value)) (aggs : option (list (string * AggSpec)))
| SpecCardinality (field : string) (aggs : option (list (string * AggSpec)))
| SpecRange (range : AggSpecFilterRangeBody) (aggs : option (list (string * AggSpec)))
| SpecAverage (field : string) (aggs : option (list (string * AggSpec))).

(** SRC query_runtime/src/elastic_search_parser.rs:205-215 SearchBody *)
Record SearchBody : Type := mkSearchBody {
  by_pit : option PitTarget;
  by_size : option Z;
  by_from : option Z;
  by_search_after : option (list Value);
  by_seq_no_primary_term : option bool;
  by_query : option Query;
  by_aggs : option (list (string * AggSpec));
  by_sort : option SortSection;
}.

(** SRC query_runtime/src/elastic_search_parser.rs:415-422 UpdateByQueryBody *)
Record UpdateByQueryBody : Type := mkUpdateBody { ub_query : Query; ub_script : ScriptBlock; ub_sort : option (list SortType); ub_max_docs : option Z; ub_conflicts : option string }.

(** SRC query_runtime/src/elastic_search_parser.rs:281-288 SingleOrVec::as_vec *)
Definition as_vec (s : SingleOrVec) : list Query := match s with SVec queries => queries | SSingle query => [query] end.

(** ** Query strings *)

(** SRC query_runtime/src/elastic_search_parser.rs:642-650 QueryStringToken *)
Inductive QueryStringToken : Type := TLParen | TRParen | TAnd | TOr | TWord (word : string) | TQuoted (value : string).

Definition dquote_char : Ascii.ascii := "034"%char.
Definition backslash : Ascii.ascii := "092"%char.

(** [char::is_whitespace] of the first character. *)
Definition starts_with_whitespace (s : string) : bool := match skip_whitespace_char s with Some _ => true | None => false end.

(** The characters of a quoted string, and what follows the closing quote. *)
Fixpoint read_quoted (s : string) : option (string * string) :=
  match s with
  | EmptyString => None
  | String a rest =>
      if Ascii.eqb a backslash then
        match rest with
        | String b rest => '(value, rest) ← read_quoted rest; Some (String b value, rest)
        | EmptyString => None
        end
      else if Ascii.eqb a dquote_char then Some ("", rest)
      else '(value, rest) ← read_quoted rest; Some (String a value, rest)
  end.

(** A word up to whitespace or a parenthesis.  A character of more than one byte is told
    from whitespace by its first byte, so that the bytes can be taken one by one. *)
Fixpoint read_word (s : string) : string * string :=
  match s with
  | EmptyString => ("", "")
  | String a rest =>
      if starts_with_whitespace s || Ascii.eqb a "(" || Ascii.eqb a ")" then ("", s)
      else let '(word, rest) := read_word rest in (String a word, rest)
  end.

Definition word_token (raw : string) : QueryStringToken :=
  let upper := to_ascii_uppercase raw in if String.eqb upper "AND" then TAnd else if String.eqb upper "OR" then TOr else TWord raw.

Fixpoint tokenize_fuel (fuel : nat) (s : string) : parse (list QueryStringToken) :=
  match fuel with
  | O => Panic "out of fuel"
  | S fuel =>
      match s with
      | EmptyString => Ok []
      | String a rest =>
          match skip_whitespace_char s with
          | Some rest => tokenize_fuel fuel rest
          | None =>
              if Ascii.eqb a "(" then tokens ← tokenize_fuel fuel rest; Ok (TLParen :: tokens)
              else if Ascii.eqb a ")" then tokens ← tokenize_fuel fuel rest; Ok (TRParen :: tokens)
              else if Ascii.eqb a dquote_char then
                match read_quoted rest with
                | None => Err "unterminated quoted string in `query_string`"
                | Some (value, rest) => tokens ← tokenize_fuel fuel rest; Ok (TQuoted value :: tokens)
                end
              else
                let '(raw, rest) := read_word s in
                tokens ← tokenize_fuel fuel rest; Ok (word_token raw :: tokens)
          end
      end
  end.

(** SRC query_runtime/src/elastic_search_parser.rs:681-746 tokenize_query_string *)
Definition tokenize_query_string (query : string) : parse (list QueryStringToken) := tokenize_fuel (S (String.length query)) query.

(** [s.strip_suffix(c)] and [s.ends_with(c)] for a character of one byte. *)
Fixpoint strip_suffix_char (c : Ascii.ascii) (s : string) : option string :=
  match s with
  | EmptyString => None
  | String a EmptyString => if Ascii.eqb a c then Some "" else None
  | String a s => String a <$> strip_suffix_char c s
  end.
Definition ends_with_char (c : Ascii.ascii) (s : string) : bool := match strip_suffix_char c s with Some _ => true | None => false end.

(** SRC query_runtime/src/elastic_search_parser.rs:772-777 query_string_token_can_end_primary *)
Definition query_string_token_can_end_primary (token : QueryStringToken) : bool :=
  match token with TQuoted _ | TRParen => true | TWord word => negb (ends_with_char ":" word) | _ => false end.

(** SRC query_runtime/src/elastic_search_parser.rs:779-784 query_string_token_can_start_primary *)
Definition query_string_token_can_start_primary (token : QueryStringToken) : bool := match token with TWord _ | TQuoted _ | TLParen => true | _ => false end.

(** SRC query_runtime/src/elastic_search_parser.rs:748-770 insert_implicit_query_string_operators *)
Definition insert_implicit_query_string_operators (tokens : list QueryStringToken) (default_operator : string) : list QueryStringToken :=
  let implicit := if String.eqb default_operator "AND" then TAnd else TOr in
  foldl (λ expanded token,
    match last expanded with
    | Some previous => if query_string_token_can_end_primary previous && query_string_token_can_start_primary token then expanded ++ [implicit; token] else expanded ++ [token]
    | None => expanded ++ [token]
    end) [] tokens.

(** SRC query_runtime/src/elastic_search_parser.rs:919-931 reject_unsupported_query_string_fragment *)
Definition reject_unsupported_query_string_fragment (fragment : string) : parse () :=
  if str_mem "*" fragment || str_mem "?" fragment || str_mem "~" fragment || str_mem "^" fragment
  then Err "restricted `query_string` does not support wildcards, fuzziness, or boosts" else Ok ().

(** [value.ends_with(text)] *)
Fixpoint ends_with (text s : string) : bool := String.eqb s text || match s with EmptyString => false | String _ s => ends_with text s end.

(** SRC query_runtime/src/elastic_search_parser.rs:1018-1020 field_uses_exact_match_for_strings *)
Definition field_uses_exact_match_for_strings (value : string) : bool := String.eqb value "_id" || ends_with ".keyword" value.

Section parser.
Context `{ft : FloatText} (debug_text : QueryPlan → string).

(** SRC query_runtime/src/elastic_search_parser.rs:994-1016 query_string_value_to_term_value *)
Definition query_string_value_to_term_value (field value : string) : option Value :=
  if eq_ignore_ascii_case value "true" then Some (VBool true)
  else if eq_ignore_ascii_case value "false" then Some (VBool false)
  else if field_uses_exact_match_for_strings field then Some (VString value)
  else if starts_with (String dquote_char "") value || str_mem " " value then None
  else match parse_i64 value with
       | Some parsed => Some (int parsed)
       | None => match parse_f64 value with Some (Some parsed) => Some (VNumber (NFloat parsed)) | _ => Some (VString value) end
       end.

(** SRC query_runtime/src/elastic_search_parser.rs:967-992 lower_fielded_query_string_clause *)
Definition lower_fielded_query_string_clause (field value : string) : parse QueryPlan :=
  if decide (field = "") then Err "restricted `query_string` requires a non-empty field"
  else
    _ ← reject_unsupported_query_string_fragment field;
    match query_string_value_to_term_value field value with
    | Some term_value => Ok (QTerm [mkTermClause field term_value])
    | None => Ok (QMatch [mkMatchClause field value])
    end.

(** Alternatives: one alone, or a boolean query that one of them has to match. *)
Definition any_of (should : list QueryPlan) : QueryPlan := match should with [plan] => plan | _ => QBool [] should [] [] (Some 1%Z) end.
Definition all_of (must : list QueryPlan) : QueryPlan := match must with [plan] => plan | _ => QBool [] [] must [] None end.
Definition by_debug_text (plans : list QueryPlan) : list QueryPlan := sort_by (λ l r, String.compare (debug_text l) (debug_text r)) plans.

(** SRC query_runtime/src/elastic_search_parser.rs:933-965 lower_bare_query_string_term *)
Definition lower_bare_query_string_term (value : string) (fields : option (list string)) : parse QueryPlan :=
  match fields with
  | None => Err "restricted `query_string` requires `fields` for bare terms"
  | Some [] => Err "restricted `query_string` requires at least one field"
  | Some fields => should ← try_collect (λ field, lower_fielded_query_string_clause field value) fields; Ok (any_of (by_debug_text should))
  end.

(** SRC query_runtime/src/elastic_search_parser.rs:906-917 query_string_value_token *)
Definition query_string_value_token (token : QueryStringToken) : parse string :=
  match token with
  | TWord word => _ ← reject_unsupported_query_string_fragment word; Ok word
  | TQuoted value => Ok value
  | _ => Err "fielded `query_string` clause requires a literal value"
  end.

(** The tokens not yet read are the state of the parser. *)
Abbreviation QS := (ST (list QueryStringToken)).

(** SRC query_runtime/src/elastic_search_parser.rs:873-904 query_string_word_to_plan *)
Definition query_string_word_to_plan (word : string) (fields : option (list string)) : QS QueryPlan := λ tokens,
  if eq_ignore_ascii_case word "NOT" || starts_with "-" word || starts_with "+" word
  then (Err "restricted `query_string` does not support NOT, required, or prohibited clauses", tokens)
  else
    match reject_unsupported_query_string_fragment word with
    | Ok _ =>
        match strip_suffix_char ":" word with
        | Some field =>
            match tokens with
            | [] => (Err "fielded `query_string` clause is missing a value", tokens)
            | value_token :: tokens => ((value ← query_string_value_token value_token; lower_fielded_query_string_clause field value), tokens)
            end
        | None =>
            (match split_once ":" word with
             | Some (field, value) => lower_fielded_query_string_clause field value
             | None => lower_bare_query_string_term word fields
             end, tokens)
        end
    | Err e => (Err e, tokens)
    | Panic r => (Panic r, tokens)
    end.

(** The operands of an operator, as long as it comes. *)
Fixpoint operand_loop (fuel : nat) (operator : QueryStringToken → bool) (operand : QS QueryPlan) : QS (list QueryPlan) :=
  match fuel with
  | O => st_lift (Panic "out of fuel")
  | S fuel =>
      operand ≫= λ plan,
      st_gets (λ tokens, match tokens with token :: _ => operator token | [] => false end) ≫= λ more,
      if more : bool then st_modify tail ≫= λ _, operand_loop fuel operator operand ≫= λ plans, mret (plan :: plans) else mret [plan]
  end.

Definition is_and (token : QueryStringToken) : bool := match token with TAnd => true | _ => false end.
Definition is_or (token : QueryStringToken) : bool := match token with TOr => true | _ => false end.

(** SRC query_runtime/src/elastic_search_parser.rs:809-830 parse_query_string_and *)
Definition parse_query_string_and (fuel : nat) (parse_query_string_primary : QS QueryPlan) : QS QueryPlan :=
  operand_loop fuel is_and parse_query_string_primary ≫= λ must, mret (all_of must).

(** SRC query_runtime/src/elastic_search_parser.rs:786-807 parse_query_string_or *)
Definition parse_query_string_or (fuel : nat) (parse_query_string_primary : QS QueryPlan) : QS QueryPlan :=
  operand_loop fuel is_or (parse_query_string_and fuel parse_query_string_primary) ≫= λ should, mret (any_of should).

Definition close_parenthesis (plan : QueryPlan) : QS QueryPlan := λ rest,
  match rest with TRParen :: rest => (Ok plan, rest) | _ => (Err "unclosed parenthesis in `query_string`", rest) end.

(** SRC query_runtime/src/elastic_search_parser.rs:832-871 parse_query_string_primary *)
Fixpoint parse_query_string_primary (fuel : nat) (fields : option (list string)) : QS QueryPlan :=
  match fuel with
  | O => st_lift (Panic "out of fuel")
  | S fuel => λ tokens,
      match tokens with
      | [] => (Err "unexpected end of `query_string` expression", tokens)
      | TLParen :: tokens =>
          (parse_query_string_or fuel (parse_query_string_primary fuel fields) ≫= close_parenthesis) tokens
      | TWord word :: tokens => query_string_word_to_plan word fields tokens
      | TQuoted value :: tokens => (lower_bare_query_string_term value fields, tokens)
      | TAnd :: _ | TOr :: _ | TRParen :: _ => (Err "unsupported operator placement in `query_string`", tokens)
      end
  end.

(** SRC query_runtime/src/elastic_search_parser.rs:652-679 query_string_to_plan *)
Definition query_string_to_plan (body : QueryStringBody) : parse QueryPlan :=
  let default_operator := to_ascii_uppercase (default "OR" (qs_default_operator body)) in
  if negb (String.eqb default_operator "AND") && negb (String.eqb default_operator "OR") then Err "`query_string.default_operator` only supports `AND` or `OR`"
  else
    tokens ← tokenize_query_string (qs_query body);
    match tokens with
    | [] => Err "`query_string.query` cannot be empty"
    | _ =>
        let tokens := insert_implicit_query_string_operators tokens default_operator in
        let fuel := S (length tokens) in
        let '(plan, rest) := parse_query_string_or fuel (parse_query_string_primary fuel (qs_fields body)) tokens in
        plan ← plan;
        match rest with [] => Ok plan | _ => Err "unsupported trailing token in `query_string`" end
    end.

(** ** Queries *)

(** SRC query_runtime/src/elastic_search_parser.rs:1260-1265 to_field_term *)
Definition to_field_term (body : FieldMatch) : string := match body with FieldMatchString s => s | FieldMatchStruct query => query end.

(** SRC query_runtime/src/elastic_search_parser.rs:1050-1080 term_values_to_query_plan *)
Definition term_values_to_query_plan (field : string) (values : list Value) (empty_message : string) : parse QueryPlan :=
  match (λ value, QTerm [mkTermClause field value]) <$> values with
  | [] => Err empty_message
  | should => Ok (any_of should)
  end.

(** SRC query_runtime/src/elastic_search_parser.rs:1082-1089 range_operator_to_plan *)
Definition range_operator_to_plan (operator : RangeSpecOperator) : RangeOperatorPlan :=
  match operator with SpecGT v => OpGt v | SpecGTE v => OpGte v | SpecLT v => OpLt v | SpecLTE v => OpLte v end.

(** SRC query_runtime/src/elastic_search_parser.rs:495-640 to_query_plan *)
Fixpoint to_query_plan (query : Query) : parse QueryPlan :=
  match query with
  | QueryMatch fields => Ok (QMatch (sort_by (λ l r, String.compare (mc_field l) (mc_field r)) ((λ '(field, value), mkMatchClause field (to_field_term value)) <$> fields)))
  | QueryMultiMatch text fields =>
      match fields with
      | [] => Err "`multi_match` query requires at least one field"
      | _ => Ok (any_of (by_debug_text ((λ field, QMatch [mkMatchClause field text]) <$> fields)))
      end
  | QueryBool filter should must must_not minimum_should_match =>
      let plans s := match s with SVec queries => try_collect to_query_plan queries | SSingle query => plan ← to_query_plan query; Ok [plan] end in
      filter ← plans filter;
      should ← plans should;
      must ← plans must;
      must_not ← plans must_not;
      Ok (QBool filter should must must_not minimum_should_match)
  | QueryTerm term => Ok (QTerm (sort_by (λ l r, String.compare (tc_field l) (tc_field r)) ((λ '(field, value), mkTermClause field value) <$> term)))
  | QueryTerms terms =>
      match terms with
      | [(field, values)] => term_values_to_query_plan field values "`terms` query requires at least one value"
      | _ => Err "`terms` query requires exactly one field"
      end
  | QueryIds values => term_values_to_query_plan "_id" values "`ids` query requires at least one value"
  | QueryExists field => Ok (QExists field)
  | QueryQueryString body => query_string_to_plan body
  | QueryRange range =>
      Ok (QRange (sort_by (λ l r, String.compare (rc_field l) (rc_field r))
            ((λ '(field, spec), mkRangeClause field (range_operator_to_plan (rp_op spec)) (rp_format spec) (rp_relation spec) (rp_time_zone spec) (rp_boost spec)) <$> range)))
  | QuerySimpleQueryString query fields default_operator => Ok (QSimpleQueryString (mkSimpleQueryString query fields default_operator))
  end.

(** ** Sorting and aggregations *)

(** SRC query_runtime/src/elastic_search_parser.rs:487-493 to_script_plan *)
Definition to_script_plan (script : ScriptBlock) : ScriptPlan := mkScriptPlan (sk_source script) (sk_lang script) (sk_params script).

(** SRC query_runtime/src/elastic_search_parser.rs:1105-1119 sort_type_to_plan *)
Definition sort_type_to_plan (sort : SortType) : parse SortPlan :=
  match sort with
  | SortTypeBare field => Ok (SortBare field)
  | SortTypeParameterized [(field, body)] => Ok (SortField field (sy_order body) (sy_unmapped_type body) (to_script_plan <$> sy_script body))
  | SortTypeParameterized _ => Panic "assertion `left == right` failed"
  end.

(** SRC query_runtime/src/elastic_search_parser.rs:1091-1097 sort_section_to_plans *)
Definition sort_section_to_plans (sort : option SortSection) : parse (list SortPlan) :=
  match sort with
  | Some (SortSingle sort) => plan ← sort_type_to_plan sort; Ok [plan]
  | Some (SortMultiple sorts) => try_collect sort_type_to_plan sorts
  | None => Ok []
  end.

(** SRC query_runtime/src/elastic_search_parser.rs:1099-1103 sort_vec_to_plans *)
Definition sort_vec_to_plans (sort : option (list SortType)) : parse (list SortPlan) := match sort with Some values => try_collect sort_type_to_plan values | None => Ok [] end.

(** SRC query_runtime/src/elastic_search_parser.rs:1022-1048 terms_order_to_plan *)
Definition terms_order_to_plan (order : option (list (string * string))) : parse (option TermsOrderPlan) :=
  match order with
  | None => Ok None
  | Some [(field, direction)] =>
      let direction := to_ascii_lowercase direction in
      if String.eqb field "_count" && String.eqb direction "asc" then Ok (Some CountAsc)
      else if String.eqb field "_count" && String.eqb direction "desc" then Ok (Some CountDesc)
      else if String.eqb field "_key" && String.eqb direction "asc" then Ok (Some KeyAsc)
      else if String.eqb field "_key" && String.eqb direction "desc" then Ok (Some KeyDesc)
      else Err "`terms.order` only supports `_count` or `_key` with `asc` or `desc`"
  | Some _ => Err "`terms.order` only supports a single `_count` or `_key` entry"
  end.

(** SRC query_runtime/src/elastic_search_parser.rs:1222-1248 aggregation_range_to_plan *)
Definition aggregation_range_to_plan (range : AggSpecFilterRangeBody) : parse AggregationRangeBoundsPlan :=
  match range with
  | BodyRaw [(field, operator)] => Ok (RangeRaw field (range_operator_to_plan operator))
  | BodyRaw _ => Panic "assertion `left == right` failed"
  | BodyStructured field ranges => Ok (RangeStructured field ((λ '(from, to), mkWindow from to) <$> ranges))
  end.

(** SRC query_runtime/src/elastic_search_parser.rs:1206-1220 aggregation_filter_to_plan *)
Definition aggregation_filter_to_plan (filter : AggSpecFilterBody) : parse AggregationFilterPlan :=
  match filter with
  | BodyTerm [(field, value)] => Ok (FilterTerm field value)
  | BodyTerm _ => Panic "assertion `left == right` failed"
  | BodyRange range => range ← aggregation_range_to_plan range; Ok (FilterRange range)
  end.

(** SRC query_runtime/src/elastic_search_parser.rs:1121-1204= aggs_to_plan, agg_spec_to_plan *)
Fixpoint agg_spec_to_plan (name : string) (spec : AggSpec) : parse AggregationPlan :=
  let aggs_to_plan (aggs : option (list (string * AggSpec))) : parse (list AggregationPlan) :=
    match aggs with
    | None => Ok []
    | Some aggs =>
        plans ← (fix go (aggs : list (string * AggSpec)) : parse (list AggregationPlan) :=
          match aggs with
          | [] => Ok []
          | (name, spec) :: aggs => plan ← agg_spec_to_plan name spec; plans ← go aggs; Ok (plan :: plans)
          end) aggs;
        Ok (sort_by (λ l r, String.compare (ag_name l) (ag_name r)) plans)
    end in
  match spec with
  | SpecTerms terms aggs =>
      order ← terms_order_to_plan (tb_order terms);
      subs ← aggs_to_plan aggs;
      Ok (ATerms name (tb_field terms) (tb_size terms) order (tb_missing terms) (tb_show_term_doc_count_error terms) subs)
  | SpecMissing field size show aggs => subs ← aggs_to_plan aggs; Ok (AMissing name field size show subs)
  | SpecFilter filter aggs => filter ← aggregation_filter_to_plan filter; subs ← aggs_to_plan aggs; Ok (AFilter name filter subs)
  | SpecDateHistogram field fixed_interval min_doc_count extended_bounds aggs =>
      subs ← aggs_to_plan aggs;
      Ok (ADateHistogram name field fixed_interval min_doc_count ((λ '(min, max), mkExtendedBounds min max) <$> extended_bounds) subs)
  | SpecCardinality field aggs => subs ← aggs_to_plan aggs; Ok (ACardinality name field subs)
  | SpecRange range aggs => range ← aggregation_range_to_plan range; subs ← aggs_to_plan aggs; Ok (ARange name range subs)
  | SpecAverage field aggs => subs ← aggs_to_plan aggs; Ok (AAverage name field subs)
  end.
Definition aggs_to_plan (aggs : option (list (string * AggSpec))) : parse (list AggregationPlan) :=
  match aggs with
  | None => Ok []
  | Some aggs => plans ← try_collect (λ '(name, spec), agg_spec_to_plan name spec) aggs; Ok (sort_by (λ l r, String.compare (ag_name l) (ag_name r)) plans)
  end.

(** ** Bodies *)

(** SRC query_runtime/src/elastic_search_parser.rs:433-462 to_search_plan *)
Definition to_search_plan (table : option string) (body : SearchBody) : parse SearchPlan :=
  target ← match table, by_pit body with
           | Some table_name, _ => Ok (TargetTable table_name)
           | None, Some pit => Ok (TargetPit pit)
           | None, None => Err "Didn't find a table"
           end;
  query ← match by_query body with Some query => Some <$> to_query_plan query | None => Ok None end;
  aggregations ← aggs_to_plan (by_aggs body);
  sort ← sort_section_to_plans (by_sort body);
  Ok (mkSearchPlan target (default 0%Z (by_from body)) (by_size body) (by_search_after body) (by_seq_no_primary_term body) query aggregations sort).

(** SRC query_runtime/src/elastic_search_parser.rs:464-485 to_update_by_query_plan *)
Definition to_update_by_query_plan (table : option string) (body : UpdateByQueryBody) : parse UpdateByQueryPlan :=
  table_name ← ok_or table (Err "Didn't find a table");
  query ← to_query_plan (ub_query body);
  sort ← sort_vec_to_plans (ub_sort body);
  Ok (mkUpdateByQuery table_name query (to_script_plan (ub_script body)) sort (ub_max_docs body) (ub_conflicts body)).
End parser.
