(* ===== verification/Painless.v ===== *)
(** * Painless scripts (control_plane/src/painless_parser.rs)

    A script in the Painless language is split into tokens, parsed to statements, and
    written out as a template of another language.  The context of the parser is the list
    of tokens not yet read; reading past its end panics, as [unwrap] does.  The loops and
    the recursion of the parser run on fuel: every round reads a token, so that one more
    than the number of tokens is enough. *)

From S2P Require Import Prelude Text.

Definition quote : string := String "034" "".
Definition newline : string := String "010" "".

(** ** Tokens *)

(** SRC control_plane/src/painless_parser.rs:3-7 TokenKind *)
Inductive TokenKind : Type := Identifier | Keyword.

(** SRC control_plane/src/painless_parser.rs:9-17 Token *)
Record Token : Type := mkToken { kind : TokenKind; value : string; line : nat; pos : nat }.

(** SRC control_plane/src/painless_parser.rs:24-36= KEYWORDS, STRING_LITERAL_BEGINS, DELIMITERS, DELIMITER_CONTAINING_KEYWORDS, WHITESPACE *)
Definition KEYWORDS : list string := ["if"; "null"].
Definition DELIMITERS : list string := [","; "("; ")"; "="; ":"; ";"; "["; "]"; "?"; "."; "<"; ">"; "!"; "|"; "&"; "["; "]"].
Definition DELIMITER_CONTAINING_KEYWORDS : list string := ["<="; ">="; "?."; "!="; "=="; "||"; "&&"].
Definition WHITESPACE : list string := [" "; newline].

(** SRC control_plane/src/painless_parser.rs:38-59= Token::new, Token::keyword *)
Definition new_token (val : string) (line pos : nat) : Token := mkToken (if decide (val ∈ KEYWORDS) then Keyword else Identifier) val line pos.
Definition keyword_token (val : string) (line pos : nat) : Token := mkToken Keyword val line pos.

(** What the tokenizer keeps: the tokens so far, the text since the start of the current
    one, where that is, where it stands, and whether it is inside a string. *)
Record Tokenizer : Type := mkTokenizer {
  tz_tokens : list Token;
  tz_current : string;
  tz_start_index : nat;
  tz_start_line : nat;
  tz_start_pos : nat;
  tz_index : nat;
  tz_line : nat;
  tz_pos : nat;
  tz_in_string : bool;
}.

(** The tokens go on with [added]; the next one starts [n] bytes further, with [text]. *)
Definition restart (added : list Token) (text : string) (n line pos : nat) (in_string : bool) (z : Tokenizer) : Tokenizer :=
  mkTokenizer (tz_tokens z ++ added) text (tz_index z + n - String.length text) line (pos - String.length text) (tz_index z + n) line pos in_string.

(** One more byte of the current token. *)
Definition advance (a : Ascii.ascii) (line pos : nat) (z : Tokenizer) : Tokenizer :=
  mkTokenizer (tz_tokens z) (tz_current z +:+ String a "") (tz_start_index z) (tz_start_line z) (tz_start_pos z) (S (tz_index z)) line pos (tz_in_string z).

Definition current_token (z : Tokenizer) : Token := new_token (tz_current z) (tz_start_line z) (tz_start_pos z).

(** The loop.  Slices of one and two bytes are taken at every step: a character of more
    than one byte there is a panic. *)
Fixpoint tokenize (script : string) (z : Tokenizer) : outcome Tokenizer :=
  match script with
  | EmptyString => Ok z
  | String a rest =>
      let current_val := String a "" in
      let current_val_2 := match rest with String b _ => String a (String b "") | EmptyString => "" end in
      if negb (is_ascii current_val && is_ascii current_val_2) then Panic "end byte index is not a char boundary"
      else if tz_in_string z then
        if String.eqb current_val quote then
          tokenize rest (restart [new_token (tz_current z +:+ quote) (tz_start_index z) (tz_start_pos z)] "" 1 (tz_line z) (S (tz_pos z)) false z)
        else if String.eqb current_val newline then tokenize rest (advance a (S (tz_line z)) 1 z)
        else tokenize rest (advance a (tz_line z) (S (tz_pos z)) z)
      else if decide (current_val ∈ WHITESPACE) then
        tokenize rest (restart [current_token z] "" 1 (if String.eqb current_val newline then S (tz_line z) else tz_line z) (if String.eqb current_val newline then 1 else S (tz_pos z)) false z)
      else if decide (current_val_2 ∈ DELIMITER_CONTAINING_KEYWORDS) then
        match rest with
        | String _ rest => tokenize rest (restart [current_token z; keyword_token current_val_2 (tz_line z) (tz_pos z)] "" 2 (tz_line z) (2 + tz_pos z) false z)
        | EmptyString => Ok z
        end
      else if decide (current_val ∈ DELIMITERS) then
        tokenize rest (restart [current_token z; keyword_token current_val (tz_line z) (tz_pos z)] "" 1 (tz_line z) (S (tz_pos z)) false z)
      else if String.eqb current_val quote then tokenize rest (restart [current_token z] quote 1 (tz_line z) (S (tz_pos z)) true z)
      else tokenize rest (advance a (tz_line z) (S (tz_pos z)) z)
  end.

(** SRC control_plane/src/painless_parser.rs:73-199= ParserContext::new *)
Definition new_context (script : string) : outcome (list Token) :=
  z ← tokenize script (mkTokenizer [] "" 0 1 1 0 1 1 false);
  Ok (filter (λ x, value x ≠ "") (tz_tokens z ++ [current_token z])).

(** ** Syntax *)

(** SRC control_plane/src/painless_parser.rs:279-282= Expression *)
Inductive Expression : Type :=
| VariableOrTypeReference (name : string)
| NullReference
| FieldAccess (expression : Expression) (field_name : string)
| Index (outer_expression index_expression : Expression)
| MethodInvocation (expression : Expression) (params : list Expression)
| Comparison (left_expression : Expression) (operator : string) (right_expression : Expression)
| NullTestFieldAccess (expression : Expression) (field_name : string).

(** SRC control_plane/src/painless_parser.rs:284-311= Statement *)
Inductive Statement : Type :=
| ExpressionStatement (expression : Expression)
| IfStatement (condition_expr : Expression) (then_statements else_statements : list Statement)
| AssignmentStatement (left_side right_side : Expression).

(** ** Translation *)

Definition braces (text : string) : string := "{{ " +:+ text +:+ " }}".

(** SRC control_plane/src/painless_parser.rs:242-260 TranslationContext::nested_prefix_worker *)
Fixpoint nested_prefix_worker (fuel nested : nat) : string :=
  match fuel with
  | O => ""
  | S fuel =>
      match nested with
      | 0 => "" | 1 => "  " | 2 => "    " | 3 => "      " | 4 => "        " | 5 => "          " | 6 => "            " | 7 => "              "
      | 8 => "                " | 9 => "                  " | 10 => "                    "
      | _ => "                    " +:+ nested_prefix_worker fuel (nested - 10)
      end
  end.
(** SRC control_plane/src/painless_parser.rs:238-240 TranslationContext::nested_prefix *)
Definition nested_prefix (nested : nat) : string := nested_prefix_worker (S nested) nested.

(** SRC control_plane/src/painless_parser.rs:579-586 create_field_access *)
Definition create_field_access (field_chain : list string) : string := join "" ((λ x, "[" +:+ quote +:+ x +:+ quote +:+ "]") <$> reverse field_chain).

(** SRC control_plane/src/painless_parser.rs:588-594 create_field_chains *)
Definition create_field_chains (nested_field_chain : list string) : list (list string) := (λ i, drop i nested_field_chain) <$> seq 0 (length nested_field_chain).

(** SRC control_plane/src/painless_parser.rs:596-618 create_conditions_str *)
Definition create_conditions_str (outer_expression_str : string) (nested_field_chain : list string) : string :=
  let condition_str := (λ x, outer_expression_str +:+ x +:+ " is defined and " +:+ outer_expression_str +:+ x +:+ " is mapping") <$> (create_field_access <$> create_field_chains nested_field_chain) in
  join " and " (reverse (condition_str ++ [outer_expression_str +:+ " is defined and " +:+ outer_expression_str +:+ " is mapping"])).

(** The fields behind [?.] and the expression in front of them. *)
Fixpoint null_test_chain (e : Expression) : list string :=
  match e with NullTestFieldAccess e field_name => field_name :: null_test_chain e | _ => [] end.

Definition is_null (e : Expression) : bool := match e with NullReference => true | _ => false end.
Definition is_field_access (e : Expression) : bool := match e with FieldAccess _ _ => true | _ => false end.

(** The text of an expression, one case for each implementation of the trait. *)
(** SRC control_plane/src/painless_parser.rs:387-656= Expression::translate *)
Fixpoint translate_expression (e : Expression) : outcome string :=
  match e with
  | VariableOrTypeReference name =>
      Ok (if decide (name = "ctx" ∨ name = "params") then name else if starts_with quote name then name else "__types." +:+ name)
  | NullReference => Ok "none"
  | FieldAccess expression field_name => text ← translate_expression expression; Ok (text +:+ "." +:+ field_name)
  | Index outer_expression index_expression =>
      outer ← translate_expression outer_expression;
      index ← translate_expression index_expression;
      Ok (outer +:+ "[" +:+ index +:+ "]")
  | MethodInvocation expression params =>
      match expression with
      | FieldAccess expr method_name =>
          if String.eqb method_name "contains" then
            match params with
            | [param] => param ← translate_expression param; expr ← translate_expression expr; Ok (param +:+ " in " +:+ expr)
            | _ => Panic "assertion `left == right` failed"
            end
          else
            params_translated ← try_collect translate_expression params;
            callee ← translate_expression expression;
            Ok (callee +:+ "(" +:+ join ", " params_translated +:+ ")")
      | _ => Panic "Tried to unwrap expression that does not support it"
      end
  | Comparison left_expression operator right_expression =>
      left ← translate_expression left_expression;
      if String.eqb operator "!=" && is_null right_expression then
        Ok (if is_field_access left_expression then "(" +:+ left +:+ " is defined and " +:+ left +:+ " is not none)" else left +:+ " is not none")
      else if String.eqb operator "==" && is_null right_expression then
        Ok (if is_field_access left_expression then "(" +:+ left +:+ " is not defined or " +:+ left +:+ " is none)" else left +:+ " is none")
      else
        right ← translate_expression right_expression;
        Ok (left +:+ " " +:+ operator +:+ " " +:+ right)
  | NullTestFieldAccess expression field_name =>
      let nested_field_chain := null_test_chain expression in
      expression_str ← (fix outer (e : Expression) : outcome string := match e with NullTestFieldAccess e _ => outer e | _ => translate_expression e end) expression;
      Ok ("(" +:+ expression_str +:+ create_field_access (field_name :: nested_field_chain) +:+ " if " +:+ create_conditions_str expression_str nested_field_chain +:+ " else none)")
  end.

(** The names of an assigned field, outermost last. *)
Fixpoint assigned_names (e : Expression) : outcome (list string) :=
  match e with
  | FieldAccess e field_name => names ← assigned_names e; Ok (field_name :: names)
  | VariableOrTypeReference name => Ok [name]
  | _ => Panic "Don't know how to translate this type of assignment"
  end.

(** SRC control_plane/src/painless_parser.rs:284-382= Statement::translate *)
Fixpoint translate_statement (nested : nat) (s : Statement) : outcome string :=
  text ← match s with
         | ExpressionStatement expression => text ← translate_expression expression; Ok (braces text)
         | IfStatement condition_expr then_statements else_statements =>
             then_str ← try_collect (translate_statement (S nested)) then_statements;
             else_str ← try_collect (translate_statement (S nested)) else_statements;
             condition ← translate_expression condition_expr;
             Ok ("{% if " +:+ condition +:+ " %}" +:+ newline +:+ join newline then_str +:+ newline +:+
                 match else_statements with [] => "" | _ => "{% else %}" +:+ newline +:+ join newline else_str +:+ newline end +:+ "{% endif %}")
         | AssignmentStatement left_side right_side =>
             left_side_raw ← assigned_names left_side;
             right ← translate_expression right_side;
             Ok (braces ("__private_impl.assign(" +:+ quote +:+ join "." (reverse left_side_raw) +:+ quote +:+ ", " +:+ right +:+ ")"))
         end;
  Ok (nested_prefix nested +:+ text).

(** ** Parsing *)

(** [Ok] with a syntax tree, or a panic: the error type of the source is never built. *)
Abbreviation P := (ST (list Token)).

(** SRC control_plane/src/painless_parser.rs:201-203 ParserContext::has_more *)
Definition has_more : P bool := λ ts, (Ok (match ts with [] => false | _ => true end), ts).

(** SRC control_plane/src/painless_parser.rs:205-217= ParserContext::peek, peek_offset, pop *)
Definition unwrap_none {A} : outcome A := Panic "called `Option::unwrap()` on a `None` value".
Definition peek : P Token := λ ts, (match ts with t :: _ => Ok t | [] => unwrap_none end, ts).
Definition peek_offset (offset : nat) : P Token := λ ts, (match ts !! offset with Some t => Ok t | None => unwrap_none end, ts).
Definition pop : P Token := λ ts, match ts with t :: ts => (Ok t, ts) | [] => (unwrap_none, []) end.

(** SRC control_plane/src/painless_parser.rs:219-223 ParserContext::pop_validate *)
Definition pop_validate (text : string) : P () := λ ts,
  match ts with t :: ts => (if String.eqb (value t) text then Ok () else Panic "assertion `left == right` failed", ts) | [] => (unwrap_none, []) end.

Definition p_panic {A} (reason : string) : P A := st_lift (Panic reason).
Definition out_of_fuel {A} : P A := p_panic "out of fuel".

(** SRC control_plane/src/painless_parser.rs:415-425 create_expression *)
Definition create_expression (token : Token) : outcome Expression :=
  match kind token with
  | Keyword => if String.eqb (value token) "null" then Ok NullReference else Panic "Not implemented"
  | Identifier => Ok (VariableOrTypeReference (value token))
  end.

(** The loop of an operator level: as long as one of its operators comes, an operand of the
    level below, joined to the left. *)
Fixpoint operator_loop (fuel : nat) (operators : list string) (rename : string → string) (operand : P Expression) (expression : Expression) : P Expression :=
  match fuel with
  | O => out_of_fuel
  | S fuel =>
      has_more ≫= λ more,
      if more : bool then
        peek ≫= λ token,
        if decide (value token ∈ operators) then
          pop ≫= λ token,
          operand ≫= λ right,
          operator_loop fuel operators rename operand (Comparison expression (rename (value token)) right)
        else mret expression
      else mret expression
  end.

(** SRC control_plane/src/painless_parser.rs:957-968 parse_field_access *)
Definition parse_field_access (expression : Expression) : P Expression :=
  pop_validate "." ≫= λ _, pop ≫= λ field_name, mret (FieldAccess expression (value field_name)).

(** SRC control_plane/src/painless_parser.rs:970-981 parse_null_test_field_access *)
Definition parse_null_test_field_access (expression : Expression) : P Expression :=
  pop_validate "?." ≫= λ _, pop ≫= λ field_name, mret (NullTestFieldAccess expression (value field_name)).

Section levels.
(** [parse_expression], which the innermost level calls again. *)
Context (fuel : nat) (parse_expression : P Expression).

(** SRC control_plane/src/painless_parser.rs:936-948 parse_index *)
Definition parse_index (expression : Expression) : P Expression :=
  pop_validate "[" ≫= λ _, parse_expression ≫= λ index_expr, pop_validate "]" ≫= λ _, mret (Index expression index_expr).

(** The arguments up to the closing parenthesis. *)
Fixpoint parse_params (fuel : nat) : P (list Expression) :=
  match fuel with
  | O => out_of_fuel
  | S fuel =>
      peek ≫= λ token,
      if String.eqb (value token) ")" then mret [] else parse_expression ≫= λ param, parse_params fuel ≫= λ params, mret (param :: params)
  end.

(** SRC control_plane/src/painless_parser.rs:983-998 parse_method_invocation *)
Definition parse_method_invocation (left_expression : Expression) : P Expression :=
  pop_validate "(" ≫= λ _, parse_params fuel ≫= λ params, pop_validate ")" ≫= λ _, mret (MethodInvocation left_expression params).

Fixpoint postfix_loop (rounds : nat) (expression : Expression) : P Expression :=
  match rounds with
  | O => out_of_fuel
  | S rounds =>
      has_more ≫= λ more,
      if more : bool then
        peek ≫= λ token,
        if String.eqb (value token) "." then parse_field_access expression ≫= postfix_loop rounds
        else if String.eqb (value token) "?." then parse_null_test_field_access expression ≫= postfix_loop rounds
        else if String.eqb (value token) "(" then parse_method_invocation expression ≫= postfix_loop rounds
        else if String.eqb (value token) "[" then parse_index expression ≫= postfix_loop rounds
        else mret expression
      else mret expression
  end.

(** SRC control_plane/src/painless_parser.rs:912-934 parse_expression_inner_most *)
Definition parse_expression_inner_most : P Expression :=
  pop ≫= λ token, st_lift (create_expression token) ≫= postfix_loop fuel.

(** SRC control_plane/src/painless_parser.rs:886-910 parse_expression_add_sub *)
Definition parse_expression_add_sub : P Expression :=
  parse_expression_inner_most ≫= operator_loop fuel ["+"; "-"] (λ operator, operator) parse_expression_inner_most.

(** SRC control_plane/src/painless_parser.rs:860-884 parse_expression_mut_div *)
Definition parse_expression_mut_div : P Expression :=
  parse_expression_add_sub ≫= operator_loop fuel ["*"; "/"] (λ operator, operator) parse_expression_add_sub.

(** SRC control_plane/src/painless_parser.rs:806-858 parse_expression_comparisons *)
Definition parse_expression_comparisons : P Expression :=
  parse_expression_mut_div ≫= operator_loop fuel ["<"; "<="; ">"; ">="; "=="; "!="] (λ operator, operator) parse_expression_mut_div.

(** SRC control_plane/src/painless_parser.rs:778-804 parse_expression_booleans *)
Definition parse_expression_booleans : P Expression :=
  parse_expression_comparisons ≫= operator_loop fuel ["&&"; "||"] (λ operator, if String.eqb operator "&&" then "and" else "or") parse_expression_comparisons.
End levels.

(** SRC control_plane/src/painless_parser.rs:772-776 parse_expression *)
Fixpoint parse_expression (fuel : nat) : P Expression :=
  match fuel with
  | O => out_of_fuel
  | S fuel => parse_expression_booleans fuel (parse_expression fuel)
  end.

(** SRC control_plane/src/painless_parser.rs:760-770 parse_assignment_statement *)
Definition parse_assignment_statement (fuel : nat) (expression : Expression) : P Statement :=
  pop_validate "=" ≫= λ _, parse_expression fuel ≫= λ right_side, mret (AssignmentStatement expression right_side).

(** SRC control_plane/src/painless_parser.rs:950-955 parse_variable_declaration *)
Definition parse_variable_declaration : P Statement := p_panic "Not implemented".

Section statements.
Context (fuel : nat) (parse_statement : P Statement).

(** The statements up to the closing brace. *)
Fixpoint parse_block (rounds : nat) : P (list Statement) :=
  match rounds with
  | O => out_of_fuel
  | S rounds =>
      peek ≫= λ token,
      if String.eqb (value token) "}" then mret [] else parse_statement ≫= λ s, parse_block rounds ≫= λ statements, mret (s :: statements)
  end.

(** SRC control_plane/src/painless_parser.rs:721-758 parse_if_statement *)
Fixpoint parse_if_statement (rounds : nat) : P Statement :=
  match rounds with
  | O => out_of_fuel
  | S rounds =>
      pop_validate "if" ≫= λ _,
      pop_validate "(" ≫= λ _,
      parse_expression fuel ≫= λ condition_expr,
      pop_validate ")" ≫= λ _,
      pop_validate "{" ≫= λ _,
      parse_block fuel ≫= λ then_statements,
      pop_validate "}" ≫= λ _,
      peek ≫= λ token,
      (if String.eqb (value token) "else" then
         pop_validate "else" ≫= λ _,
         peek ≫= λ token,
         if String.eqb (value token) "{" then
           pop_validate "{" ≫= λ _, parse_block fuel ≫= λ else_statements, pop_validate "}" ≫= λ _, mret else_statements
         else if String.eqb (value token) "if" then parse_if_statement rounds ≫= λ s, mret [s]
         else p_panic "What is this?"
       else mret []) ≫= λ else_statements,
      mret (IfStatement condition_expr then_statements else_statements)
  end.
End statements.

(** SRC control_plane/src/painless_parser.rs:677-719 parse_statement *)
Fixpoint parse_statement (fuel : nat) : P Statement :=
  match fuel with
  | O => out_of_fuel
  | S fuel =>
      peek ≫= λ token,
      match kind token with
      | Keyword => if String.eqb (value token) "if" then parse_if_statement fuel (parse_statement fuel) fuel else p_panic "Not implemented"
      | Identifier =>
          peek_offset 1 ≫= λ next_token,
          match kind next_token with
          | Keyword =>
              parse_expression fuel ≫= λ expression,
              has_more ≫= λ more,
              if more : bool then
                peek ≫= λ token,
                if String.eqb (value token) ";" then pop_validate ";" ≫= λ _, mret (ExpressionStatement expression)
                else if String.eqb (value token) "=" then
                  parse_assignment_statement fuel expression ≫= λ stmt,
                  has_more ≫= λ more,
                  (if more : bool then peek ≫= λ token, if String.eqb (value token) ";" then pop_validate ";" else mret () else mret ()) ≫= λ _,
                  mret stmt
                else p_panic "What is this?"
              else mret (ExpressionStatement expression)
          | Identifier => parse_variable_declaration
          end
      end
  end.

(** SRC control_plane/src/painless_parser.rs:661-664= translate, the loop over the statements *)
Fixpoint parse_statements (rounds fuel : nat) : P (list Statement) :=
  match rounds with
  | O => out_of_fuel
  | S rounds =>
      has_more ≫= λ more,
      if more : bool then parse_statement fuel ≫= λ s, parse_statements rounds fuel ≫= λ statements, mret (s :: statements) else mret []
  end.

(** SRC control_plane/src/painless_parser.rs:658-675= translate *)
Definition translate (painless_script : string) : outcome string :=
  tokens ← new_context painless_script;
  statements ← (parse_statements (S (S (length tokens))) (S (S (length tokens))) tokens).1;
  translated_statements ← try_collect (translate_statement 0) statements;
  Ok (join newline translated_statements).
