(* ===== verification/PainlessTheory.v ===== *)
(** * Correctness of the Painless translator

    The parser ends on every text, and reads back what it is given: a program written out
    token by token is tokenised to those tokens, parsed to that program, and translated. *)

From S2P Require Import Prelude Text Painless.

Module PainlessTheory.

(** ** The parser ends

    [uses b n m]: on at most [n] tokens [m] does not run out of fuel, and if it returns it
    has read at least [b] of them; there are no errors but panics. *)
Definition uses {A} (b n : nat) (m : P A) : Prop := ∀ ts, length ts ≤ n →
  match m ts with
  | (Ok _, ts') => length ts' + b ≤ length ts
  | (Err _, _) => False
  | (Panic reason, _) => reason ≠ "out of fuel"
  end.

Lemma uses_bind {A B} b1 b2 n (m : P A) (k : A → P B) : uses b1 n m → (b1 ≤ n → ∀ a, uses b2 (n - b1) (k a)) → uses (b1 + b2) n (m ≫= k).
Proof.
  intros Hm Hk ts Hts. specialize (Hm ts Hts). rw st_bind_unfold. destruct (m ts) as [[a|e|r] ts']; [|done..].
  specialize (Hk ltac:(lia) a ts' ltac:(lia)). destruct (k a ts') as [[b|e|r] ts'']; [lia|done..].
Qed.

Lemma uses_weaken {A} b b' n n' (m : P A) : b' ≤ b → n' ≤ n → uses b n m → uses b' n' m.
Proof. intros Hb Hn Hm ts Hts. specialize (Hm ts ltac:(lia)). destruct (m ts) as [[a|e|r] ts']; [lia|done..]. Qed.

(** Sequencing after an operation that need not read anything. *)
Lemma uses_bind0 {A B} b n (m : P A) (k : A → P B) : uses 0 n m → (∀ a, uses b n (k a)) → uses b n (m ≫= k).
Proof. intros Hm Hk. apply (uses_bind 0 b); [done|]. intros _ a. by rw Nat.sub_0_r. Qed.

Lemma uses_bind1 {A B} b n (m : P A) (k : A → P B) : uses 1 n m → (1 ≤ n → ∀ a, uses b (n - 1) (k a)) → uses (S b) n (m ≫= k).
Proof. apply (uses_bind 1 b). Qed.

(** The same where what follows need not be counted. *)
Lemma uses_then {A B} n (m : P A) (k : A → P B) : uses 1 n m → (1 ≤ n → ∀ a, uses 0 (n - 1) (k a)) → uses 1 n (m ≫= k).
Proof. apply (uses_bind 1 0). Qed.
Lemma uses_then0 {A B} n (m : P A) (k : A → P B) : uses 1 n m → (1 ≤ n → ∀ a, uses 0 (n - 1) (k a)) → uses 0 n (m ≫= k).
Proof. intros Hm Hk. apply (uses_weaken 1 0 n n); [lia..|]. by apply uses_then. Qed.

Lemma uses_ret {A} n (a : A) : uses 0 n (mret a).
Proof. intros ts Hts. cbn. lia. Qed.
Lemma uses_lift {A} n (m : outcome A) : (∀ e, m ≠ Err e) → (∀ r, m = Panic r → r ≠ "out of fuel") → uses 0 n (st_lift m).
Proof. intros He Hm ts Hts. rw /st_lift. destruct m as [|e|]; [lia|by destruct (He e)|by apply Hm]. Qed.
Lemma uses_panic {A} b n reason : reason ≠ "out of fuel" → uses b n (p_panic reason : P A).
Proof. by intros Hr ts Hts. Qed.
Lemma uses_has_more n : uses 0 n has_more.
Proof. intros ts Hts. cbn. lia. Qed.
Lemma uses_peek n : uses 0 n peek.
Proof. intros [|t ts] Hts; cbn; [done|lia]. Qed.
Lemma uses_peek_offset n i : uses 0 n (peek_offset i).
Proof. intros ts Hts. rw /peek_offset. destruct (ts !! i); [lia|done]. Qed.
Lemma uses_pop n : uses 1 n pop.
Proof. intros [|t ts] Hts; cbn; [done|lia]. Qed.
Lemma uses_pop_validate n text : uses 1 n (pop_validate text).
Proof. intros [|t ts] Hts; cbn; [done|]. destruct (String.eqb (value t) text); [cbn; lia|done]. Qed.

Lemma create_expression_no_error token e : create_expression token ≠ Err e.
Proof. rw /create_expression. by repeat case_match. Qed.
Lemma create_expression_fuel token r : create_expression token = Panic r → r ≠ "out of fuel".
Proof. rw /create_expression. repeat case_match; try done. by intros [= <-]. Qed.

(** Steps through a parser, one operation after the other. *)
Ltac eat :=
  repeat first
    [ progress intros
    | apply uses_ret | apply uses_lift; [apply create_expression_no_error|apply create_expression_fuel] | apply uses_has_more | apply uses_peek | apply uses_peek_offset | apply uses_pop | apply uses_pop_validate
    | apply uses_panic; discriminate
    | match goal with
      | |- uses ?b _ (has_more ≫= _) => apply uses_bind0
      | |- uses ?b _ (peek ≫= _) => apply uses_bind0
      | |- uses ?b _ (peek_offset _ ≫= _) => apply uses_bind0
      | |- uses ?b _ (st_lift _ ≫= _) => apply uses_bind0
      | |- uses 0 _ (pop ≫= _) => apply uses_then0
      | |- uses 1 _ (pop ≫= _) => apply uses_then
      | |- uses 0 _ (pop_validate _ ≫= _) => apply uses_then0
      | |- uses 1 _ (pop_validate _ ≫= _) => apply uses_then
      | |- uses _ _ (if ?b then _ else _) => case_match
      end ].

Lemma uses_operator_loop fuel operators rename operand n : (∀ n', n' ≤ n → uses 1 n' operand) → n < fuel → ∀ e, uses 0 n (operator_loop fuel operators rename operand e).
Proof.
  revert n. induction fuel as [|fuel IH]; intros n Hop Hn e; [lia|]. cbn [operator_loop]. eat.
  apply uses_then0; [apply Hop; lia|]. intros. apply IH; [intros; apply Hop; lia|lia].
Qed.

Section levels.
Context (fuel : nat) (self : P Expression) (Hself : ∀ n, n < fuel → uses 1 n self).

Lemma uses_params rounds n : n < rounds → n < fuel → uses 0 n (parse_params self rounds).
Proof.
  revert n. induction rounds as [|rounds IH]; intros n Hr Hn; [lia|]. cbn [parse_params]. eat. apply uses_then0; [by apply Hself|]. intros. apply uses_bind0; [apply IH; lia|]. eat.
Qed.

Lemma uses_postfix rounds n e : n < rounds → n ≤ fuel → uses 0 n (postfix_loop fuel self rounds e).
Proof.
  revert n e. induction rounds as [|rounds IH]; intros n e Hr Hn; [lia|]. cbn [postfix_loop].
  assert (Hnext : ∀ m : P Expression, uses 1 n m → uses 0 n (m ≫= postfix_loop fuel self rounds)).
  { intros m Hm. apply uses_then0; [done|]. intros. apply IH; lia. }
  eat; apply Hnext; rw /parse_field_access /parse_null_test_field_access /parse_method_invocation /parse_index; eat.
  - apply uses_bind0; [apply uses_params; lia|]. eat.
  - apply uses_then0; [apply Hself; lia|]. eat.
Qed.

Lemma uses_inner_most n : n ≤ fuel → uses 1 n (parse_expression_inner_most fuel self).
Proof. intros Hn. rw /parse_expression_inner_most. eat. apply uses_postfix; lia. Qed.

Lemma uses_level n operators rename (m : P Expression) : (∀ n, n ≤ fuel → uses 1 n m) → n ≤ fuel → uses 1 n (m ≫= operator_loop fuel operators rename m).
Proof. intros Hm Hn. apply uses_then; [by apply Hm|]. intros. apply uses_operator_loop; [intros; apply Hm; lia|lia]. Qed.

Lemma uses_booleans n : n ≤ fuel → uses 1 n (parse_expression_booleans fuel self).
Proof. revert n. repeat (intros n Hn; apply uses_level; [clear n Hn|done]). apply uses_inner_most. Qed.
End levels.

Lemma uses_expression fuel n : n < fuel → uses 1 n (parse_expression fuel).
Proof. revert n. induction fuel as [|fuel IH]; intros n Hn; [lia|]. apply uses_booleans; [done|lia]. Qed.

Section statements.
Context (fuel : nat) (self : P Statement) (Hself : ∀ n, S n < fuel → uses 1 n self).

Lemma uses_block rounds n : n < rounds → S n < fuel → uses 0 n (parse_block self rounds).
Proof.
  revert n. induction rounds as [|rounds IH]; intros n Hr Hn; [lia|]. cbn [parse_block]. eat. apply uses_then0; [by apply Hself|]. intros. apply uses_bind0; [apply IH; lia|]. eat.
Qed.

Lemma uses_if rounds n : n ≤ rounds → n ≤ fuel → 0 < rounds → uses 1 n (parse_if_statement fuel self rounds).
Proof.
  revert n. induction rounds as [|rounds IH]; intros n Hr Hn Hpos; [lia|]. cbn [parse_if_statement]. eat.
  apply uses_then0; [apply uses_expression; lia|]. eat. apply uses_bind0; [apply uses_block; lia|]. eat.
  apply uses_bind0; [|eat]. eat; [apply uses_bind0; [apply uses_block; lia|]; eat|]. apply uses_bind0; [|eat].
  apply (uses_weaken 1 0 (n - 1 - 1 - 1 - 1 - 1 - 1 - 1) (n - 1 - 1 - 1 - 1 - 1 - 1 - 1)); [lia..|]. apply IH; lia.
Qed.
End statements.

Lemma uses_statement fuel n : S n < fuel → uses 1 n (parse_statement fuel).
Proof.
  revert n. induction fuel as [|fuel IH]; intros n Hn; [lia|]. cbn [parse_statement]. eat.
  - apply uses_then; [apply uses_expression; lia|]. eat. rw /parse_assignment_statement. apply uses_bind0.
    + eat. apply uses_then0; [apply uses_expression; lia|]. eat.
    + eat. apply uses_bind0; eat. apply (uses_weaken 1 0 (n - 1) (n - 1)); [lia..|]. eat.
  - apply uses_if; [done|lia..].
Qed.

Lemma uses_statements rounds fuel n : n < rounds → S n < fuel → uses 0 n (parse_statements rounds fuel).
Proof.
  revert n. induction rounds as [|rounds IH]; intros n Hr Hn; [lia|]. cbn [parse_statements]. eat.
  apply uses_then0; [by apply uses_statement|]. intros. apply uses_bind0; [apply IH; lia|]. eat.
Qed.

(** C40. The parser comes to an end on every list of tokens: the fuel [translate] gives it
    (two more than there are tokens) is never used up.  It either returns statements, and has
    then read all tokens, or stops with one of its own panics (a token that is missing or not
    the expected one); it reports no errors in any other way. *)
Theorem painless_parser_terminates (tokens : list Token) :
  match parse_statements (S (S (length tokens))) (S (S (length tokens))) tokens with
  | (Ok _, rest) => rest = []
  | (Err _, _) => False
  | (Panic reason, _) => reason ≠ "out of fuel"
  end.
Proof.
  pose proof (uses_statements (S (S (length tokens))) (S (S (length tokens))) (length tokens) ltac:(lia) ltac:(lia) tokens ltac:(done)) as Hend.
  destruct (parse_statements _ _ tokens) as [[statements|e|r] rest] eqn:Hparse; [|done..].
  clear Hend. revert Hparse. generalize (S (S (length tokens))) at 2. generalize (S (S (length tokens))). intros rounds fuel. revert tokens statements.
  induction rounds as [|rounds IH]; intros tokens statements Hparse; [discriminate|]. cbn [parse_statements] in Hparse. rw st_bind_unfold in Hparse. cbn in Hparse.
  destruct tokens as [|t tokens]; [by injection Hparse as _ <-|]. apply st_bind_Ok_inv in Hparse as (s & ts1 & _ & Hparse).
  apply st_bind_Ok_inv in Hparse as (ss & ts2 & Hparse & [= _ <-]). by apply IH in Hparse.
Qed.

(** ** Tokens written out

    A token is a symbol, a word or a string; a list of them is written with a space after
    each. *)
Definition symbol (v : string) : bool := bool_decide (v ∈ DELIMITERS ++ DELIMITER_CONTAINING_KEYWORDS).
Definition plain_char (a : Ascii.ascii) : bool := in_range 0 127 a && negb (bool_decide (String a "" ∈ quote :: WHITESPACE ++ DELIMITERS)).
Definition word (v : string) : bool := negb (String.eqb v "") && all_chars plain_char v.
Definition literal_char (a : Ascii.ascii) : bool := in_range 0 127 a && negb (String.eqb (String a "") quote).
Definition literal (v : string) : Prop := ∃ body, v = quote +:+ body +:+ quote ∧ all_chars literal_char body = true.
Definition token_ok (v : string) : Prop := symbol v = true ∨ word v = true ∨ literal v.

Definition kind_of (v : string) : TokenKind := if symbol v then Keyword else if decide (v ∈ KEYWORDS) then Keyword else Identifier.
Definition spaced (vs : list string) : string := foldr (λ v rest, v +:+ " " +:+ rest) "" vs.

(** The tokens of a list of texts, wherever they were found. *)
Definition reads : list string → list Token → Prop := Forall2 (λ v t, value t = v ∧ kind t = kind_of v).

Definition seen (z : Tokenizer) : list Token := filter (λ x, value x ≠ "") (tz_tokens z).

(** A tokenizer between two tokens. *)
Definition between (z : Tokenizer) : Prop := tz_current z = "" ∧ tz_in_string z = false.

Lemma seen_restart added text n line pos b z : seen (restart added text n line pos b z) = seen z ++ filter (λ x, value x ≠ "") added.
Proof. by rw /seen /restart /= filter_app. Qed.

Lemma ascii_head a s : in_range 0 127 a = true → is_ascii (String a s) = is_ascii s.
Proof. intros Ha. cbn. by rw Ha. Qed.

(** The second slice is fine as long as the next byte is a character of its own. *)
Definition ascii_start (s : string) : bool := match s with String b _ => in_range 0 127 b | EmptyString => true end.

Lemma slices_ok a rest : in_range 0 127 a = true → ascii_start rest = true →
  negb (is_ascii (String a "") && is_ascii (match rest with String b _ => String a (String b "") | EmptyString => "" end)) = false.
Proof. intros Ha Hrest. destruct rest as [|b rest]; cbn in *; by rw Ha ?Hrest. Qed.

(** A space ends the current token. *)
Lemma tokenize_space z rest : tz_in_string z = false → ascii_start rest = true →
  tokenize (" " +:+ rest) z = tokenize rest (restart [current_token z] "" 1 (tz_line z) (S (tz_pos z)) false z).
Proof. intros Hz Hrest. change (" " +:+ rest) with (String " " rest). cbn [tokenize]. rw slices_ok; [done..|]. by rw Hz. Qed.

Lemma plain_char_spec a : plain_char a = true → in_range 0 127 a = true ∧ String a "" ∉ quote :: WHITESPACE ++ DELIMITERS.
Proof. rw /plain_char. intros [Ha Hp%negb_true_iff]%andb_true_iff. by apply bool_decide_eq_false in Hp. Qed.

(** No symbol of two characters starts with a plain one. *)
Lemma plain_no_symbol a b : plain_char a = true → String a (String b "") ∉ DELIMITER_CONTAINING_KEYWORDS.
Proof.
  intros [_ Ha]%plain_char_spec Hin. apply Ha. clear Ha. rw /DELIMITER_CONTAINING_KEYWORDS in Hin.
  repeat (apply elem_of_cons in Hin as [[= -> _]|Hin]; [by apply (bool_decide_unpack _)|]). by apply not_elem_of_nil in Hin.
Qed.

Lemma tokenize_word w z rest : all_chars plain_char w = true → tz_in_string z = false → ascii_start rest = true →
  ∃ z', tokenize (w +:+ rest) z = tokenize rest z' ∧ tz_tokens z' = tz_tokens z ∧ tz_current z' = tz_current z +:+ w ∧ tz_in_string z' = false.
Proof.
  revert z. induction w as [|a w IH]; intros z Hw Hz Hrest; [exists z; by rw str_app_nil_r|].
  cbn in Hw. apply andb_true_iff in Hw as [Ha Hw]. pose proof (plain_char_spec a Ha) as [Hascii Hplain]. rw str_app_cons.
  assert (Hstart : ascii_start (w +:+ rest) = true). { destruct w as [|b w]; [done|]. cbn in Hw |- *. apply andb_true_iff in Hw as [Hb _]. by apply plain_char_spec in Hb as [? _]. }
  destruct (IH (advance a (tz_line z) (S (tz_pos z)) z) Hw) as (z' & Hrun & Ht & Hc & Hs); [done..|]. exists z'. split_and!; [|done| |done].
  - cbn [tokenize]. rw slices_ok; [done..|]. rw Hz.
    destruct (decide (String a "" ∈ WHITESPACE)) as [Hin|_]; [exfalso; apply Hplain; right; apply elem_of_app; by left|].
    case_decide as Htwo.
    { destruct (w +:+ rest) as [|b ?]; [by assert (bool_decide ("" ∈ DELIMITER_CONTAINING_KEYWORDS) = true) by (by apply bool_decide_eq_true)|]. by apply (plain_no_symbol a b) in Ha. }
    destruct (decide (String a "" ∈ DELIMITERS)) as [Hin|_]; [exfalso; apply Hplain; right; apply elem_of_app; by right|].
    destruct (String.eqb_spec (String a "") quote) as [Hq|_]; [exfalso; apply Hplain; rw Hq; left|]. exact Hrun.
  - rw Hc. cbn. by rw str_app_assoc.
Qed.

Lemma tokenize_string body z rest : all_chars literal_char body = true → tz_in_string z = true → ascii_start rest = true →
  ∃ z', tokenize (body +:+ quote +:+ rest) z = tokenize rest z' ∧ (∃ l p, tz_tokens z' = tz_tokens z ++ [new_token (tz_current z +:+ body +:+ quote) l p]) ∧ between z'.
Proof.
  revert z. induction body as [|a body IH]; intros z Hbody Hz Hrest.
  { eexists. split; [|split].
    - change (("" +:+ quote) +:+ rest) with (String "034" rest). rw str_app_nil_l. change (quote +:+ rest) with (String "034" rest). cbn [tokenize]. rw slices_ok; [done..|]. rw Hz. reflexivity.
    - do 2 eexists. reflexivity.
    - done. }
  cbn in Hbody. apply andb_true_iff in Hbody as [Ha Hbody]. rw /literal_char in Ha. apply andb_true_iff in Ha as [Ha Hq%negb_true_iff]. rw str_app_cons.
  assert (Hstart : ascii_start (body +:+ quote +:+ rest) = true). { destruct body as [|b body]; [done|]. cbn in Hbody |- *. apply andb_true_iff in Hbody as [Hb _]. by apply andb_true_iff in Hb as [? _]. }
  assert (Hstep : ∃ l p, tokenize (String a (body +:+ quote +:+ rest)) z = tokenize (body +:+ quote +:+ rest) (advance a l p z)).
  { cbn [tokenize]. rw slices_ok; [done..|]. rw Hz Hq. case_match; by do 2 eexists. }
  destruct Hstep as (l & p & ->). destruct (IH (advance a l p z) Hbody) as (z' & Hrun & (l' & p' & Ht) & Hb); [done..|].
  exists z'. split_and!; [done| |apply Hb]. exists l', p'. rw Ht. cbn. by rw str_app_assoc.
Qed.

Definition one_step (a : Ascii.ascii) : bool :=
  in_range 0 127 a && bool_decide ((String a "" ∉ WHITESPACE) ∧ (String a " " ∉ DELIMITER_CONTAINING_KEYWORDS) ∧ String a "" ∈ DELIMITERS).
Definition two_step (a b : Ascii.ascii) : bool :=
  in_range 0 127 a && in_range 0 127 b && bool_decide ((String a "" ∉ WHITESPACE) ∧ String a (String b "") ∈ DELIMITER_CONTAINING_KEYWORDS).

Lemma tokenize_one a z rest : one_step a = true → tz_in_string z = false →
  tokenize (String a (String " " rest)) z = tokenize (String " " rest) (restart [current_token z; keyword_token (String a "") (tz_line z) (tz_pos z)] "" 1 (tz_line z) (S (tz_pos z)) false z).
Proof.
  rw /one_step. intros [Ha Hd]%andb_true_iff Hz. apply bool_decide_eq_true in Hd as (Hw & Htwo & Hd). remember (String " " rest) as tail eqn:Htail. cbn [tokenize].
  rw slices_ok; [done|by rw Htail|]. rw Hz. case_decide; [done|]. rw (decide_False (P := _ ∈ DELIMITER_CONTAINING_KEYWORDS)); [by rw Htail|]. by case_decide.
Qed.

Lemma tokenize_two a b z rest : two_step a b = true → tz_in_string z = false →
  tokenize (String a (String b rest)) z = tokenize rest (restart [current_token z; keyword_token (String a (String b "")) (tz_line z) (tz_pos z)] "" 2 (tz_line z) (2 + tz_pos z) false z).
Proof.
  rw /two_step. intros [[Ha Hb]%andb_true_iff Hd]%andb_true_iff Hz. apply bool_decide_eq_true in Hd as (Hw & Htwo). cbn [tokenize].
  rw (slices_ok a (String b rest)); [done..|]. rw Hz. case_decide; [done|]. by case_decide.
Qed.

(** Every symbol is read in one of these two ways. *)
Lemma symbol_steps v : symbol v = true → (∃ a, v = String a "" ∧ one_step a = true) ∨ ∃ a b, v = String a (String b "") ∧ two_step a b = true.
Proof.
  rw /symbol. intros Hv%bool_decide_eq_true. apply elem_of_app in Hv as [Hv|Hv]; [left|right].
  - rw /DELIMITERS in Hv. repeat (apply elem_of_cons in Hv as [->|Hv]; [eexists; split; [reflexivity|vm_compute; reflexivity]|]). by apply not_elem_of_nil in Hv.
  - rw /DELIMITER_CONTAINING_KEYWORDS in Hv. repeat (apply elem_of_cons in Hv as [->|Hv]; [do 2 eexists; split; [reflexivity|vm_compute; reflexivity]|]). by apply not_elem_of_nil in Hv.
Qed.

Lemma word_not_symbol v : word v = true → symbol v = false.
Proof.
  rw /word. intros [_ Hv]%andb_true_iff. apply not_true_iff_false. intros Hs. rw /symbol in Hs. apply bool_decide_eq_true in Hs. revert Hv.
  rw /DELIMITERS /DELIMITER_CONTAINING_KEYWORDS in Hs. cbn [app] in Hs. repeat (apply elem_of_cons in Hs as [->|Hs]; [by vm_compute|]). by apply not_elem_of_nil in Hs.
Qed.

Lemma literal_kind v : literal v → kind_of v = Identifier ∧ v ∉ KEYWORDS.
Proof.
  intros (body & -> & _). assert (Hk : quote +:+ body +:+ quote ∉ KEYWORDS). { rw /KEYWORDS !elem_of_cons. intros [[=]|[[=]|[]%not_elem_of_nil]]. }
  split; [|done]. rw /kind_of. case_match eqn:Hs; [|by case_decide]. exfalso. rw /symbol in Hs. apply bool_decide_eq_true in Hs.
  rw /DELIMITERS /DELIMITER_CONTAINING_KEYWORDS in Hs. cbn [app] in Hs. repeat (apply elem_of_cons in Hs as [[=]|Hs]). by apply not_elem_of_nil in Hs.
Qed.

Lemma quote_opens : (quote ∉ WHITESPACE) ∧ (quote ∉ DELIMITERS) ∧ ∀ b, String "034" (String b "") ∉ DELIMITER_CONTAINING_KEYWORDS.
Proof.
  split_and!; [by assert (bool_decide (quote ∈ WHITESPACE) = false) as ?%bool_decide_eq_false by done|by assert (bool_decide (quote ∈ DELIMITERS) = false) as ?%bool_decide_eq_false by done|].
  rw /DELIMITER_CONTAINING_KEYWORDS. intros b Hin. repeat (apply elem_of_cons in Hin as [[=]|Hin]). by apply not_elem_of_nil in Hin.
Qed.

(** The token that ends with a space. *)
Lemma read_space z rest v : tz_in_string z = false → ascii_start rest = true → tz_current z = v → v ≠ "" → symbol v = false →
  ∃ z' t, tokenize (" " +:+ rest) z = tokenize rest z' ∧ between z' ∧ seen z' = seen z ++ [t] ∧ value t = v ∧ kind t = kind_of v.
Proof.
  intros Hz Hrest Hc Hv Hs. eexists _, (current_token z). split; [by apply tokenize_space|]. split; [done|]. rw seen_restart filter_cons filter_nil. rw /current_token Hc.
  cbn [new_token value kind]. rw decide_True; [done|]. split_and!; [done|done|]. rw /kind_of Hs. by case_decide.
Qed.

Lemma read_token v z rest : token_ok v → between z → ascii_start rest = true →
  ∃ z' t, tokenize (v +:+ " " +:+ rest) z = tokenize rest z' ∧ between z' ∧ seen z' = seen z ++ [t] ∧ value t = v ∧ kind t = kind_of v.
Proof.
  intros Hv [Hcur Hz] Hrest. destruct Hv as [Hs|[Hw|Hl]].
  - assert (Hkind : kind_of v = Keyword) by (by rw /kind_of Hs).
    assert (Hsym : ∃ z1 t, tokenize (v +:+ " " +:+ rest) z = tokenize (" " +:+ rest) z1 ∧ between z1 ∧ seen z1 = seen z ++ [t] ∧ value t = v ∧ kind t = Keyword).
    { destruct (symbol_steps v Hs) as [(a & -> & Ha)|(a & b & -> & Hab)].
      - do 2 eexists. split; [by apply tokenize_one|]. split; [done|]. rw seen_restart /current_token Hcur. done.
      - do 2 eexists. split; [by apply tokenize_two|]. split; [done|]. rw seen_restart /current_token Hcur. done. }
    destruct Hsym as (z1 & t & -> & [Hcur1 Hz1] & Hseen & Ht & Htk). eexists _, t. split; [by apply tokenize_space|]. split; [done|].
    rw seen_restart /current_token Hcur1. cbn. rw app_nil_r Hkind. done.
  - pose proof (word_not_symbol v Hw) as Hns. rw /word in Hw. apply andb_true_iff in Hw as [Hne%negb_true_iff Hw]. apply String.eqb_neq in Hne.
    destruct (tokenize_word v z (" " +:+ rest) Hw Hz) as (z1 & -> & Ht1 & Hc1 & Hs1); [done|].
    destruct (read_space z1 rest v) as (z2 & t & Hrun & Hb & Hseen & Hval); [done..|by rw Hc1 Hcur|done|done|]. exists z2, t. split_and!; [done|done| |apply Hval..]. by rw Hseen /seen Ht1.
  - destruct (literal_kind v Hl) as [Hk Hkw]. destruct Hl as (body & -> & Hbody). rw !str_app_assoc. change (quote +:+ (body +:+ (quote +:+ (" " +:+ rest)))) with (String "034" (body +:+ (quote +:+ (" " +:+ rest)))).
    assert (Hstart : ascii_start (body +:+ quote +:+ " " +:+ rest) = true).
    { destruct body as [|b body]; [done|]. cbn in Hbody |- *. apply andb_true_iff in Hbody as [Hb _]. by apply andb_true_iff in Hb as [? _]. }
    assert (Hopen : ∃ z1, tokenize (String "034" (body +:+ quote +:+ " " +:+ rest)) z = tokenize (body +:+ quote +:+ " " +:+ rest) z1 ∧ tz_in_string z1 = true ∧ tz_current z1 = quote ∧ seen z1 = seen z).
    { eexists. split; [|].
      - remember (body +:+ quote +:+ " " +:+ rest) as tail. cbn [tokenize]. rw slices_ok; [done..|]. rw Hz. destruct quote_opens as (Hq1 & Hq2 & Hq3).
        assert (Hq4 : "" ∉ DELIMITER_CONTAINING_KEYWORDS) by (by assert (bool_decide ("" ∈ DELIMITER_CONTAINING_KEYWORDS) = false) as ?%bool_decide_eq_false by done).
        destruct tail as [|b tail]; repeat (rw decide_False; [first [exact Hq1|exact Hq2|exact Hq4|exact (Hq3 b)]|]); reflexivity.
      - rw seen_restart /current_token Hcur. cbn. by rw app_nil_r. }
    destruct Hopen as (z1 & -> & Hs1 & Hc1 & Hseen1). destruct (tokenize_string body z1 (" " +:+ rest) Hbody Hs1) as (z2 & -> & (l & p & Ht2) & [Hc2 Hz2]); [done|].
    eexists _, _. split; [by apply tokenize_space|]. split; [done|]. rw seen_restart /current_token Hc2. cbn [filter list_filter value new_token]. rw /seen Ht2 Hc1.
    rw filter_app. fold (seen z1). rw Hseen1 filter_cons filter_nil. cbn [value new_token kind]. case_decide; [|by exfalso; auto]. case_decide; [by exfalso; auto|]. rw app_nil_r.
    split_and!; [done|done|]. cbn [kind new_token]. rw Hk. by case_decide.
Qed.

(** The tokenizer reads back the tokens it is given, whatever they are: words, strings
    with any characters but quotes, and all symbols. *)
Lemma tokens_read_back vs : Forall token_ok vs → ∃ ts, new_context (spaced vs) = Ok ts ∧ reads vs ts.
Proof.
  intros Hvs. assert (Hrun : ∀ z, between z → ∃ z' ts, tokenize (spaced vs) z = Ok z' ∧ between z' ∧ seen z' = seen z ++ ts ∧ reads vs ts).
  { induction Hvs as [|v vs Hv Hvs IH]; intros z Hz; [exists z, []; rw app_nil_r; split_and!; [done..|constructor]|]. cbn [spaced foldr].
    destruct (read_token v z (spaced vs) Hv Hz) as (z1 & t & Hrun & Hz1 & Hseen & Hval & Hkind).
    { destruct Hvs as [|v' vs' Hv' _]; [done|]. cbn [spaced foldr]. destruct Hv' as [Hs|[Hw|Hl]].
      - destruct (symbol_steps v' Hs) as [(a & -> & Ha)|(a & b & -> & Ha)].
        + by apply andb_true_iff in Ha as [Ha _].
        + by apply andb_true_iff in Ha as [[Ha _]%andb_true_iff _].
      - rw /word in Hw. apply andb_true_iff in Hw as [_ Hw]. destruct v' as [|a v']; [done|]. cbn in Hw |- *. apply andb_true_iff in Hw as [Ha _]. by apply plain_char_spec in Ha as [? _].
      - by destruct Hl as (body & -> & _). }
    rw Hrun. destruct (IH z1 Hz1) as (z2 & ts & Hrest & Hz2 & Hseen2 & Hreads). exists z2, (t :: ts). split_and!; [done|apply Hz2..| |by constructor].
    rw Hseen2 Hseen -app_assoc. done. }
  destruct (Hrun (mkTokenizer [] "" 0 1 1 0 1 1 false)) as (z & ts & Htok & [Hcur _] & Hseen & Hreads); [done|]. exists ts. split; [|done].
  rw /new_context Htok. cbn [mbind outcome_bind]. rw filter_app. fold (seen z). rw Hseen filter_cons filter_nil /current_token Hcur. cbn [value new_token]. case_decide; [by exfalso; auto|]. by rw app_nil_r.
Qed.

(** ** Programs written out *)

(** The operators of the levels, from the tightest: additions bind tighter than
    multiplications here, and the two boolean operators are on one level. *)
Definition operators (k : nat) : list string :=
  match k with 1 => ["+"; "-"] | 2 => ["*"; "/"] | 3 => ["<"; "<="; ">"; ">="; "=="; "!="] | 4 => ["&&"; "||"] | _ => [] end.
Definition rename (k : nat) (operator : string) : string := if decide (k = 4) then if String.eqb operator "&&" then "and" else "or" else operator.

(** The level of an operator of a tree, and how it is written. *)
Definition operator_level (operator : string) : nat :=
  if bool_decide (operator ∈ operators 1) then 1 else if bool_decide (operator ∈ operators 2) then 2 else if bool_decide (operator ∈ operators 3) then 3
  else if bool_decide (operator ∈ ["and"; "or"]) then 4 else 0.
Definition source_operator (operator : string) : string := if String.eqb operator "and" then "&&" else if String.eqb operator "or" then "||" else operator.

(** Words that begin an expression: not a keyword, an operator or a brace. *)
Definition reserved : list string := ["if"; "null"; "else"; "{"; "}"; "+"; "-"; "*"; "/"].
Definition name_ok (v : string) : Prop := (word v = true ∨ literal v) ∧ v ∉ reserved.

(** Expressions as the levels build them. *)
Fixpoint expression_ok (k : nat) (e : Expression) : Prop :=
  match e with
  | VariableOrTypeReference name => name_ok name
  | NullReference => True
  | FieldAccess e field_name | NullTestFieldAccess e field_name => expression_ok 0 e ∧ token_ok field_name
  | Index outer index => expression_ok 0 outer ∧ expression_ok 4 index
  | MethodInvocation e params => expression_ok 0 e ∧ (fix go (params : list Expression) : Prop := match params with [] => True | p :: params => expression_ok 4 p ∧ go params end) params
  | Comparison l operator r => let j := operator_level operator in 0 < j ≤ k ∧ expression_ok j l ∧ expression_ok (pred j) r
  end.

Fixpoint show_expression (e : Expression) : list string :=
  match e with
  | VariableOrTypeReference name => [name]
  | NullReference => ["null"]
  | FieldAccess e field_name => show_expression e ++ ["."; field_name]
  | NullTestFieldAccess e field_name => show_expression e ++ ["?."; field_name]
  | Index outer index => show_expression outer ++ ["["] ++ show_expression index ++ ["]"]
  | MethodInvocation e params => show_expression e ++ ["("] ++ concat (map show_expression params) ++ [")"]
  | Comparison l operator r => show_expression l ++ [source_operator operator] ++ show_expression r
  end.

(** A level of the parser, by number. *)
Fixpoint level (fuel : nat) (self : P Expression) (k : nat) : P Expression :=
  match k with
  | O => parse_expression_inner_most fuel self
  | S k => level fuel self k ≫= operator_loop fuel (operators (S k)) (rename (S k)) (level fuel self k)
  end.

Lemma booleans_level fuel self : parse_expression_booleans fuel self = level fuel self 4.
Proof. done. Qed.

(** What would continue an expression of level [k]. *)
Definition continues (k : nat) (v : string) : Prop := v ∈ ["."; "?."; "("; "["] ∨ ∃ j, j ≤ k ∧ v ∈ operators j.
Definition stops (k : nat) (rest : list Token) : Prop := match rest with t :: _ => ¬ continues k (value t) | [] => True end.

Lemma stops_less k k' rest : k' ≤ k → stops k rest → stops k' rest.
Proof. intros Hk. destruct rest as [|t rest]; [done|]. intros Hstop [?|(j & ? & ?)]; apply Hstop; [by left|right; exists j; split; [lia|done]]. Qed.

(** How an operation starts when there is a token. *)
Lemma run_has_more {A} (k : bool → P A) t ts : (has_more ≫= k) (t :: ts) = k true (t :: ts).
Proof. done. Qed.
Lemma run_peek {A} (k : Token → P A) t ts : (peek ≫= k) (t :: ts) = k t (t :: ts).
Proof. done. Qed.
Lemma run_pop {A} (k : Token → P A) t ts : (pop ≫= k) (t :: ts) = k t ts.
Proof. done. Qed.
Lemma run_pop_validate {A} text (k : () → P A) t ts : value t = text → (pop_validate text ≫= k) (t :: ts) = k () ts.
Proof. intros Hv. rw st_bind_unfold. cbn [pop_validate]. by rw Hv String.eqb_refl. Qed.

Lemma operator_source operator k : operator_level operator = S k →
  source_operator operator ∈ operators (S k) ∧ rename (S k) (source_operator operator) = operator ∧ (∀ j, j ≤ k → source_operator operator ∉ operators j) ∧ source_operator operator ∉ ["."; "?."; "("; "["].
Proof.
  assert (Hall : Forall (λ operator, match operator_level operator with
    | S k => bool_decide (source_operator operator ∈ operators (S k)) && String.eqb (rename (S k) (source_operator operator)) operator &&
             forallb (λ j, bool_decide (source_operator operator ∉ operators j)) (seq 0 (S k)) && bool_decide (source_operator operator ∉ ["."; "?."; "("; "["])
    | O => true end = true) (operators 1 ++ operators 2 ++ operators 3 ++ ["and"; "or"])) by (repeat constructor).
  intros Hlevel. assert (Hin : operator ∈ operators 1 ++ operators 2 ++ operators 3 ++ ["and"; "or"]).
  { rw !elem_of_app. revert Hlevel. rw /operator_level. repeat (match goal with |- context [bool_decide ?Q] => destruct (bool_decide Q) eqn:Hb end; [apply bool_decide_eq_true in Hb; tauto|clear Hb]). done. }
  rw Forall_forall in Hall. specialize (Hall operator Hin). rw Hlevel in Hall. apply andb_true_iff in Hall as [[[H1 H2]%andb_true_iff H3]%andb_true_iff H4].
  apply bool_decide_eq_true in H1, H4. apply String.eqb_eq in H2. split_and!; [done..| |done]. intros j Hj. rw forallb_forall in H3.
  specialize (H3 j). rw bool_decide_eq_true in H3. apply H3. apply in_seq. lia.
Qed.

Lemma name_ok_plain v : name_ok v → symbol v = false ∧ (v ∉ reserved) ∧ token_ok v.
Proof.
  intros [[Hw|Hl] Hr]; (split_and!; [|done|rw /token_ok; tauto]); [by apply word_not_symbol|].
  destruct (literal_kind v Hl) as [Hk _]. rw /kind_of in Hk. by destruct (symbol v).
Qed.

(** The first token of an expression never continues another one. *)
Definition starts (v : string) : Prop := name_ok v ∨ v = "null".
Definition closing : list string := [")"; "]"; ";"; "="; "}"; "else"; "{"].

Lemma starts_apart v : starts v → ¬ continues 4 v ∧ v ∉ closing.
Proof.
  assert (Hall : Forall (λ v, symbol v || bool_decide (v ∈ reserved) = true) (["."; "?."; "("; "["] ++ operators 1 ++ operators 2 ++ operators 3 ++ operators 4 ++ closing)) by (repeat constructor).
  assert (Hapart : starts v → v ∉ ["."; "?."; "("; "["] ++ operators 1 ++ operators 2 ++ operators 3 ++ operators 4 ++ closing).
  { intros [(Hs & Hr & _)%name_ok_plain| ->] Hin; [|by assert (bool_decide ("null" ∈ ["."; "?."; "("; "["] ++ operators 1 ++ operators 2 ++ operators 3 ++ operators 4 ++ closing) = true) by (by apply bool_decide_eq_true)].
    rw Forall_forall in Hall. specialize (Hall v Hin). rw Hs /= in Hall. by apply bool_decide_eq_true in Hall. }
  intros Hv%Hapart. rw !elem_of_app in Hv. split; [|tauto]. intros [?|(j & Hj & Hin)]; [tauto|].
  destruct j as [|[|[|[|[|j]]]]]; [by apply not_elem_of_nil in Hin|tauto..|lia].
Qed.

Lemma closing_stops v : v ∈ closing → ¬ continues 4 v.
Proof.
  assert (Hall : Forall (λ v, bool_decide (v ∉ ["."; "?."; "("; "["] ++ operators 1 ++ operators 2 ++ operators 3 ++ operators 4) = true) closing) by (repeat constructor).
  intros Hin. rw Forall_forall in Hall. specialize (Hall v Hin). apply bool_decide_eq_true in Hall. rw !elem_of_app in Hall. intros [?|(j & Hj & Hop)]; [tauto|].
  destruct j as [|[|[|[|[|j]]]]]; [by apply not_elem_of_nil in Hop|tauto..|lia].
Qed.

Lemma first_token k e ts : expression_ok k e → reads (show_expression e) ts → ∃ t ts', ts = t :: ts' ∧ starts (value t).
Proof.
  revert k ts. induction e as [name| |e IH f|o IH i _|e IH ps|l IH op r _|e IH f]; intros k ts He Hreads; cbn [show_expression expression_ok] in *.
  - inversion Hreads as [|v t vs ts' [Hv _] _]; subst. exists t, ts'. split; [done|]. by left.
  - inversion Hreads as [|v t vs ts' [Hv _] _]; subst. exists t, ts'. split; [done|]. by right.
  - apply Forall2_app_inv_l in Hreads as (ts1 & ts2 & Hreads & _ & ->). destruct (IH 0 ts1 (proj1 He) Hreads) as (t & ts' & -> & Ht). by exists t, (ts' ++ ts2).
  - apply Forall2_app_inv_l in Hreads as (ts1 & ts2 & Hreads & _ & ->). destruct (IH 0 ts1 (proj1 He) Hreads) as (t & ts' & -> & Ht). by exists t, (ts' ++ ts2).
  - apply Forall2_app_inv_l in Hreads as (ts1 & ts2 & Hreads & _ & ->). destruct (IH 0 ts1 (proj1 He) Hreads) as (t & ts' & -> & Ht). by exists t, (ts' ++ ts2).
  - apply Forall2_app_inv_l in Hreads as (ts1 & ts2 & Hreads & _ & ->). destruct (IH _ ts1 (proj1 (proj2 He)) Hreads) as (t & ts' & -> & Ht). by exists t, (ts' ++ ts2).
  - apply Forall2_app_inv_l in Hreads as (ts1 & ts2 & Hreads & _ & ->). destruct (IH 0 ts1 (proj1 He) Hreads) as (t & ts' & -> & Ht). by exists t, (ts' ++ ts2).
Qed.

(** Comparing numbers of tokens. *)
Ltac lens := repeat first [match goal with H : context [length (_ ++ _)] |- _ => rw length_app in H end | rw length_app | progress cbn [length] in *]; lia.

Section parse.
Context (fuel : nat) (self : P Expression).
Context (Hself : ∀ e ts rest, expression_ok 4 e → reads (show_expression e) ts → stops 4 rest → length (ts ++ rest) < fuel → self (ts ++ rest) = (Ok e, rest)).

(** The loop of a level, on what follows an expression. *)
Definition continue_at (k rounds : nat) (e : Expression) : P Expression :=
  match k with O => postfix_loop fuel self rounds e | S j => operator_loop rounds (operators (S j)) (rename (S j)) (level fuel self j) e end.

Lemma continue_stops k rounds e rest : stops k rest → 0 < rounds → continue_at k rounds e rest = (Ok e, rest).
Proof.
  intros Hstop Hr. destruct rounds as [|rounds]; [lia|]. destruct rest as [|t rest]; [by destruct k|]. cbn [stops] in Hstop. destruct k as [|j]; cbn [continue_at].
  - cbn [postfix_loop]. rw run_has_more run_peek. assert (Hno : value t ∉ ["."; "?."; "("; "["]) by (intros ?; apply Hstop; by left). rw !not_elem_of_cons in Hno.
    destruct Hno as (H1 & H2 & H3 & H4 & _). apply String.eqb_neq in H1, H2, H3, H4. by rw H1 H2 H3 H4.
  - cbn [operator_loop]. rw run_has_more run_peek. case_decide as Hin; [|reflexivity]. exfalso. apply Hstop. right. by exists (S j).
Qed.

Lemma lift_level k0 k e ts rest : k0 ≤ k → (∃ rounds, length rest < rounds ∧ level fuel self k0 (ts ++ rest) = continue_at k0 rounds e rest) →
  (k0 < k → stops (pred k) rest) → length rest < fuel → ∃ rounds, length rest < rounds ∧ level fuel self k (ts ++ rest) = continue_at k rounds e rest.
Proof.
  intros Hk Hbase Hstops Hfuel. induction Hk as [|k Hk IH]; [done|]. destruct IH as (rounds & Hr & Hlevel).
  { intros ?. apply (stops_less k); [lia|]. apply Hstops. lia. }
  exists fuel. split; [done|]. cbn [level continue_at]. rw st_bind_unfold Hlevel continue_stops; [apply Hstops; lia|lia|done].
Qed.

(** A list of texts and one more. *)
Lemma reads_snoc vs v ts : reads (vs ++ [v]) ts → ∃ ts' t, ts = ts' ++ [t] ∧ reads vs ts' ∧ value t = v.
Proof. intros (ts' & ts2 & Hr & Ht & ->)%Forall2_app_inv_l. inversion Ht as [|? t ? ts3 [Hv _] Hnil]; subst. inversion Hnil; subst. by exists ts', t. Qed.

Lemma params_read params rounds ts t rest : expression_ok 0 (MethodInvocation NullReference params) → reads (concat (map show_expression params)) ts → value t = ")" →
  length (ts ++ t :: rest) < rounds → length (ts ++ t :: rest) < fuel → parse_params self rounds (ts ++ t :: rest) = (Ok params, t :: rest).
Proof.
  intros [_ Hps]. revert rounds ts Hps. induction params as [|p params IH]; intros rounds ts Hps Hreads Ht Hr Hf; (destruct rounds as [|rounds]; [lia|]); cbn [parse_params map concat] in *.
  { inversion Hreads; subst. rw run_peek Ht. done. }
  destruct Hps as [Hp Hps]. apply Forall2_app_inv_l in Hreads as (ts1 & ts2 & Hr1 & Hr2 & ->). destruct (first_token 4 p ts1 Hp Hr1) as (t1 & ts1' & -> & Hstart).
  apply starts_apart in Hstart as [_ Hclose]. rw -!app_assoc -!app_comm_cons run_peek. destruct (String.eqb_spec (value t1) ")") as [He|_]; [exfalso; apply Hclose; rw He; by left|].
  rw app_comm_cons st_bind_unfold. rw (Hself p (t1 :: ts1')); [done..| | |].
  - destruct params as [|p' params]; cbn [map concat] in Hr2; [inversion Hr2; subst; cbn; rw Ht; apply closing_stops; by left|].
    apply Forall2_app_inv_l in Hr2 as (ts3 & ts4 & Hr3 & _ & ->). destruct (first_token 4 p' ts3 (proj1 Hps) Hr3) as (t3 & ts3' & -> & Hstart). by apply starts_apart in Hstart as [? _].
  - by rw app_assoc.
  - rw st_bind_unfold IH; [done..| | |done]; lens.
Qed.

Lemma reads_cons v vs ts : reads (v :: vs) ts → ∃ t ts', ts = t :: ts' ∧ (value t = v ∧ kind t = kind_of v) ∧ reads vs ts'.
Proof. inversion 1 as [|? t ? ts' Ht Hr]; subst. by exists t, ts'. Qed.

Lemma reads_app vs1 vs2 ts : reads (vs1 ++ vs2) ts → ∃ ts1 ts2, ts = ts1 ++ ts2 ∧ reads vs1 ts1 ∧ reads vs2 ts2.
Proof. intros (ts1 & ts2 & H1 & H2 & ->)%Forall2_app_inv_l. by exists ts1, ts2. Qed.

(** One more postfix operator. *)
Lemma postfix_step rounds e e' ts rest t : length (t :: ts ++ rest) < rounds →
  (∀ r, postfix_loop fuel self (S r) e (t :: ts ++ rest) = postfix_loop fuel self r e' rest) →
  ∃ rounds', length rest < rounds' ∧ continue_at 0 rounds e (t :: ts ++ rest) = continue_at 0 rounds' e' rest.
Proof. intros Hr Hstep. destruct rounds as [|r]; [lia|]. exists r. split; [lens|]. apply Hstep. Qed.

Lemma atom_reads e t rest : create_expression t = Ok e → length (t :: rest) ≤ fuel → ∃ rounds, length rest < rounds ∧ level fuel self 0 ([t] ++ rest) = continue_at 0 rounds e rest.
Proof.
  intros He Hfuel. exists fuel. split; [lens|]. cbn [level app]. rw /parse_expression_inner_most run_pop. rw st_bind_unfold /st_lift He. done.
Qed.

(** The operator of a level with its operand. *)
Lemma operator_step j rounds l op r t ts rest : operator_level op = S j → value t = source_operator op → length (t :: ts ++ rest) < rounds →
  level fuel self j (ts ++ rest) = (Ok r, rest) → ∃ rounds', length rest < rounds' ∧ continue_at (S j) rounds l (t :: ts ++ rest) = continue_at (S j) rounds' (Comparison l op r) rest.
Proof.
  intros Hop Ht Hr Hright. destruct (operator_source op j Hop) as (Hin & Hname & _ & _). destruct rounds as [|rounds]; [lia|]. exists rounds. split; [lens|].
  cbn [continue_at operator_loop]. rw run_has_more run_peek Ht decide_True; [done|]. rw run_pop st_bind_unfold Hright Ht Hname. done.
Qed.

Lemma level_reads k e ts rest : expression_ok k e → reads (show_expression e) ts → (k = 0 ∨ stops (pred k) rest) → length (ts ++ rest) ≤ fuel →
  ∃ rounds, length rest < rounds ∧ level fuel self k (ts ++ rest) = continue_at k rounds e rest.
Proof.
  revert k ts rest. assert (Hlift : ∀ k k0 e ts rest, k0 ≤ k → (k = 0 ∨ stops (pred k) rest) → reads (show_expression e) ts → length (ts ++ rest) ≤ fuel →
    (∃ rounds, length rest < rounds ∧ level fuel self k0 (ts ++ rest) = continue_at k0 rounds e rest) → ∃ rounds, length rest < rounds ∧ level fuel self k (ts ++ rest) = continue_at k rounds e rest).
  { clear e. intros k k0 e ts rest Hk Hstops Hreads Hfuel Hbase. apply (lift_level k0); [done|done| |].
    - intros Hlt. destruct Hstops as [->|?]; [lia|done].
    - assert (0 < length ts); [|lens]. apply Forall2_length in Hreads. rw -Hreads. clear. induction e; cbn; rw ?length_app; cbn; lia. }
  induction e as [name| |e1 IH f|e1 IH i _|e1 IH ps|l IHl op r IHr|e1 IH f]; intros k ts rest He Hreads Hstops Hfuel; cbn [expression_ok] in He.
  - apply (Hlift k 0); [lia|done..|]. apply reads_cons in Hreads as (t & ts' & -> & [Hv Hk] & Hnil). inversion Hnil; subst. apply atom_reads; [|done].
    destruct (name_ok_plain _ He) as (Hs & Hr & _). rw /create_expression Hk /kind_of Hs decide_False; [|done]. intros Hin. apply Hr. rw /KEYWORDS /reserved !elem_of_cons in Hin |- *. tauto.
  - apply (Hlift k 0); [lia|done..|]. apply reads_cons in Hreads as (t & ts' & -> & [Hv Hk] & Hnil). inversion Hnil; subst. apply atom_reads; [|done].
    by rw /create_expression Hk Hv.
  - apply (Hlift k 0); [lia|done..|]. cbn [show_expression] in Hreads. apply reads_app in Hreads as (ts1 & ts2 & -> & Hr1 & Hr2).
    apply reads_cons in Hr2 as (t1 & ts3 & -> & [Ht1 _] & Hr2). apply reads_cons in Hr2 as (t2 & ts4 & -> & [Ht2 _] & Hnil). inversion Hnil; subst ts4.
    destruct (IH 0 ts1 ([t1; t2] ++ rest)) as (rounds & Hrounds & Hlevel); [apply He|done|by left|by rw app_assoc|]. rw -app_assoc Hlevel.
    apply (postfix_step rounds e1 _ [t2] rest t1); [done|]. intros r. cbn [postfix_loop app]. rw run_has_more run_peek Ht1. cbn [String.eqb Ascii.eqb Bool.eqb].
    rw st_bind_unfold /parse_field_access run_pop_validate; [done|]. by rw run_pop /mret /st_ret Ht2.
  - apply (Hlift k 0); [lia|done..|]. cbn [show_expression] in Hreads. apply reads_app in Hreads as (ts1 & ts2 & -> & Hr1 & Hr2).
    apply reads_cons in Hr2 as (t1 & ts3 & -> & [Ht1 _] & Hr2). apply reads_snoc in Hr2 as (ts4 & t2 & -> & Hr2 & Ht2).
    destruct (IH 0 ts1 ((t1 :: ts4 ++ [t2]) ++ rest)) as (rounds & Hrounds & Hlevel); [apply He|done|by left|by rw app_assoc|]. rw -app_assoc Hlevel.
    apply (postfix_step rounds e1 _ (ts4 ++ [t2]) rest t1); [done|]. intros r. cbn [postfix_loop]. rw run_has_more run_peek Ht1. cbn [String.eqb Ascii.eqb Bool.eqb].
    rw st_bind_unfold /parse_index run_pop_validate; [done|]. rw -app_assoc st_bind_unfold (Hself i ts4); [apply He|done|cbn; rw Ht2; apply closing_stops; right; by left|lens|].
    cbn [app]. rw run_pop_validate; [done|]. done.
  - apply (Hlift k 0); [lia|done..|]. cbn [show_expression] in Hreads. apply reads_app in Hreads as (ts1 & ts2 & -> & Hr1 & Hr2).
    apply reads_cons in Hr2 as (t1 & ts3 & -> & [Ht1 _] & Hr2). apply reads_snoc in Hr2 as (ts4 & t2 & -> & Hr2 & Ht2).
    destruct (IH 0 ts1 ((t1 :: ts4 ++ [t2]) ++ rest)) as (rounds & Hrounds & Hlevel); [apply He|done|by left|by rw app_assoc|]. rw -app_assoc Hlevel.
    apply (postfix_step rounds e1 _ (ts4 ++ [t2]) rest t1); [done|]. intros r. cbn [postfix_loop]. rw run_has_more run_peek Ht1. cbn [String.eqb Ascii.eqb Bool.eqb].
    rw st_bind_unfold /parse_method_invocation run_pop_validate; [done|]. rw -app_assoc st_bind_unfold (params_read ps fuel ts4 t2 rest); [split; [done|apply He]|done|done|lens|lens|].
    cbn [app]. rw run_pop_validate; [done|]. done.
  - destruct He as (Hj & Hl & Hr). destruct (operator_level op) as [|j] eqn:Hop; [lia|]. apply (Hlift k (S j)); [lia|done..|].
    cbn [show_expression] in Hreads. apply reads_app in Hreads as (ts1 & ts2 & -> & Hr1 & Hr2). apply reads_cons in Hr2 as (t & ts3 & -> & [Ht _] & Hr2).
    assert (Hstop : stops j rest). { destruct Hstops as [->|Hstops]; [lia|]. apply (stops_less (pred k)); [lia|done]. }
    destruct (operator_source op j Hop) as (_ & _ & Hnot & Hpost).
    destruct (IHl (S j) ts1 ((t :: ts3) ++ rest)) as (rounds & Hrounds & Hlevel); [done|done| |by rw app_assoc|].
    { right. cbn. rw Ht. intros [?|(j' & Hj' & Hin)]; [done|]. by apply (Hnot j'). }
    rw -app_assoc Hlevel. apply operator_step; [done..|].
    destruct (IHr j ts3 rest) as (rounds' & Hrounds' & ->); [done|done| |lens|apply continue_stops; [done|lia]].
    right. apply (stops_less j); [lia|done].
  - apply (Hlift k 0); [lia|done..|]. cbn [show_expression] in Hreads. apply reads_app in Hreads as (ts1 & ts2 & -> & Hr1 & Hr2).
    apply reads_cons in Hr2 as (t1 & ts3 & -> & [Ht1 _] & Hr2). apply reads_cons in Hr2 as (t2 & ts4 & -> & [Ht2 _] & Hnil). inversion Hnil; subst ts4.
    destruct (IH 0 ts1 ([t1; t2] ++ rest)) as (rounds & Hrounds & Hlevel); [apply He|done|by left|by rw app_assoc|]. rw -app_assoc Hlevel.
    apply (postfix_step rounds e1 _ [t2] rest t1); [done|]. intros r. cbn [postfix_loop app]. rw run_has_more run_peek Ht1. cbn [String.eqb Ascii.eqb Bool.eqb].
    rw st_bind_unfold /parse_null_test_field_access run_pop_validate; [done|]. by rw run_pop /mret /st_ret Ht2.
Qed.
End parse.

(** An expression written out is read back, up to what follows it. *)
Lemma expression_reads fuel e ts rest : expression_ok 4 e → reads (show_expression e) ts → stops 4 rest → length (ts ++ rest) < fuel → parse_expression fuel (ts ++ rest) = (Ok e, rest).
Proof.
  revert e ts rest. induction fuel as [|fuel IH]; intros e ts rest He Hreads Hstop Hfuel; [lia|]. cbn [parse_expression]. rw booleans_level.
  destruct (level_reads fuel (parse_expression fuel) IH 4 e ts rest) as (rounds & Hr & ->); [done|done| |lia|apply continue_stops; [done|lia]].
  right. apply (stops_less 4); [cbn; lia|done].
Qed.

(** ** Statements *)

Fixpoint show_statement (s : Statement) : list string :=
  match s with
  | ExpressionStatement e => show_expression e ++ [";"]
  | AssignmentStatement l r => show_expression l ++ ["="] ++ show_expression r ++ [";"]
  | IfStatement c then_statements else_statements =>
      ["if"; "("] ++ show_expression c ++ [")"; "{"] ++ concat (map show_statement then_statements) ++ ["}"] ++
      match else_statements with [] => [] | _ => ["else"; "{"] ++ concat (map show_statement else_statements) ++ ["}"] end
  end.

(** A statement starts with a word that a symbol follows: two words in a row are read as a
    declaration, which is not implemented. *)
Definition simple_start (vs : list string) : Prop := match vs with v1 :: v2 :: _ => name_ok v1 ∧ kind_of v2 = Keyword | _ => False end.

Fixpoint statement_ok (s : Statement) : Prop :=
  match s with
  | ExpressionStatement e => expression_ok 4 e ∧ simple_start (show_expression e ++ [";"])
  | AssignmentStatement l r => expression_ok 4 l ∧ expression_ok 4 r ∧ simple_start (show_expression l ++ ["="])
  | IfStatement c then_statements else_statements =>
      expression_ok 4 c ∧ (fix go (l : list Statement) : Prop := match l with [] => True | s :: l => statement_ok s ∧ go l end) then_statements ∧
      (fix go (l : list Statement) : Prop := match l with [] => True | s :: l => statement_ok s ∧ go l end) else_statements
  end.

Lemma statements_ok_Forall l : (fix go (l : list Statement) : Prop := match l with [] => True | s :: l => statement_ok s ∧ go l end) l ↔ Forall statement_ok l.
Proof. induction l as [|s l IH]; [by split|]. rw Forall_cons IH. done. Qed.

(** After an [if] without [else] the parser looks at the next token, which must be there. *)
Definition needs_more (s : Statement) : bool := match s with IfStatement _ _ [] => true | _ => false end.
Definition follows (s : Statement) (rest : list Token) : Prop := needs_more s = false ∨ match rest with t :: _ => value t ≠ "else" | [] => False end.

Lemma statement_start s ts : statement_ok s → reads (show_statement s) ts → ∃ t ts', ts = t :: ts' ∧ (name_ok (value t) ∨ value t = "if").
Proof.
  destruct s as [e|c th el|l r]; cbn [show_statement statement_ok]; intros Hs Hreads.
  - destruct Hs as [He Hstart]. apply reads_app in Hreads as (ts1 & ts2 & -> & Hr & _). destruct (first_token 4 e ts1 He Hr) as (t & ts' & -> & _). exists t, (ts' ++ ts2). split; [done|left].
    inversion Hr as [|v ? vs ? [Hv _] _ Heq]; subst. rw -Heq in Hstart. cbn in Hstart. destruct (vs ++ [";"]); [done|]. apply Hstart.
  - apply reads_cons in Hreads as (t & ts' & -> & [Hv _] & _). exists t, ts'. by split; [|right].
  - destruct Hs as (Hl & _ & Hstart). apply reads_app in Hreads as (ts1 & ts2 & -> & Hr & _). destruct (first_token 4 l ts1 Hl Hr) as (t & ts' & -> & _). exists t, (ts' ++ ts2). split; [done|left].
    inversion Hr as [|v ? vs ? [Hv _] _ Heq]; subst. rw -Heq in Hstart. cbn in Hstart. destruct (vs ++ ["="]); [done|]. apply Hstart.
Qed.

(** The two first tokens of a statement that is not an [if]. *)
Lemma simple_tokens vs v ts rest : simple_start (vs ++ [v]) → reads vs ts → (∃ t rest', rest = t :: rest' ∧ value t = v ∧ kind t = kind_of v) →
  ∃ t1 t2, (ts ++ rest) !! 0 = Some t1 ∧ (ts ++ rest) !! 1 = Some t2 ∧ kind t1 = Identifier ∧ kind t2 = Keyword.
Proof.
  intros Hstart Hreads (t & rest' & -> & Hv & Hk).
  assert (Hkind : ∀ v1, name_ok v1 → kind_of v1 = Identifier).
  { intros v1 (Hs & Hr & _)%name_ok_plain. rw /kind_of Hs decide_False; [|done]. intros Hin. apply Hr. rw /KEYWORDS /reserved !elem_of_cons in Hin |- *. tauto. }
  destruct Hreads as [|v1 t1 vs ts [Hv1 Hk1] Hreads]; [done|]. exists t1. destruct Hreads as [|v2 t2 vs ts [Hv2 Hk2] _]; cbn in Hstart |- *; destruct Hstart as [Hn Hkey].
  - exists t. split_and!; [done..|by rw Hk1 Hkind|by rw Hk].
  - exists t2. split_and!; [done..|by rw Hk1 Hkind|by rw Hk2].
Qed.

Lemma run_peek_offset {A} (k : Token → P A) t ts n : ts !! n = Some t → (peek_offset n ≫= k) ts = k t ts.
Proof. intros Ht. rw st_bind_unfold /peek_offset. by rw Ht. Qed.

Section statements.
Context (fuel : nat) (self : P Statement).
Context (Hself : ∀ s ts rest, statement_ok s → reads (show_statement s) ts → follows s rest → S (length (ts ++ rest)) < fuel → self (ts ++ rest) = (Ok s, rest)).

Lemma block_reads statements rounds ts t rest : Forall statement_ok statements → reads (concat (map show_statement statements)) ts → value t = "}" →
  length (ts ++ t :: rest) < rounds → S (length (ts ++ t :: rest)) < fuel → parse_block self rounds (ts ++ t :: rest) = (Ok statements, t :: rest).
Proof.
  intros Hok. revert rounds ts. induction Hok as [|s statements Hs Hok IH]; intros rounds ts Hreads Ht Hr Hf; (destruct rounds as [|rounds]; [lia|]); cbn [parse_block map concat] in *.
  { inversion Hreads; subst. rw run_peek Ht. done. }
  apply reads_app in Hreads as (ts1 & ts2 & -> & Hr1 & Hr2). destruct (statement_start s ts1 Hs Hr1) as (t1 & ts1' & -> & Hstart).
  rw -!app_assoc -!app_comm_cons run_peek. destruct (String.eqb_spec (value t1) "}") as [He|_].
  { exfalso. destruct Hstart as [(_ & Hres & _)%name_ok_plain|Hif]; [apply Hres; rw He /reserved !elem_of_cons; tauto|by rw He in Hif]. }
  rw app_comm_cons st_bind_unfold. rw (Hself s (t1 :: ts1')); [done..| |by rw app_assoc|rw st_bind_unfold IH; [done..|lens|lens|done]].
  right. destruct Hok as [|s' statements Hs' _]; cbn [map concat] in Hr2; [inversion Hr2; subst; cbn; by rw Ht|].
  apply reads_app in Hr2 as (ts3 & ts4 & -> & Hr3 & _). destruct (statement_start s' ts3 Hs' Hr3) as (t3 & ts3' & -> & Hstart3). cbn.
  intros He. destruct Hstart3 as [(_ & Hres & _)%name_ok_plain|Hif]; [apply Hres; rw He /reserved !elem_of_cons; tauto|by rw He in Hif].
Qed.

Lemma if_reads rounds c then_statements else_statements ts rest : statement_ok (IfStatement c then_statements else_statements) →
  reads (show_statement (IfStatement c then_statements else_statements)) ts → follows (IfStatement c then_statements else_statements) rest → 0 < rounds → length (ts ++ rest) ≤ fuel →
  parse_if_statement fuel self rounds (ts ++ rest) = (Ok (IfStatement c then_statements else_statements), rest).
Proof.
  intros (Hc & Hthen%statements_ok_Forall & Helse%statements_ok_Forall) Hreads Hfollows Hr Hf. destruct rounds as [|rounds]; [lia|]. cbn [parse_if_statement].
  cbn [show_statement] in Hreads. apply reads_cons in Hreads as (t1 & ts1 & -> & [Ht1 _] & Hreads). apply reads_cons in Hreads as (t2 & ts2 & -> & [Ht2 _] & Hreads).
  apply reads_app in Hreads as (tc & ts3 & -> & Hrc & Hreads). apply reads_cons in Hreads as (t3 & ts4 & -> & [Ht3 _] & Hreads). apply reads_cons in Hreads as (t4 & ts5 & -> & [Ht4 _] & Hreads).
  apply reads_app in Hreads as (tt & ts6 & -> & Hrt & Hreads). apply reads_cons in Hreads as (t5 & te & -> & [Ht5 _] & Hre).
  cbn [app]. rw run_pop_validate; [done|]. rw run_pop_validate; [done|]. rw -app_assoc st_bind_unfold (expression_reads fuel c tc); [done|done|cbn; rw Ht3; apply closing_stops; by left|lens|].
  cbn [app]. rw run_pop_validate; [done|]. rw run_pop_validate; [done|]. rw -app_assoc. cbn [app]. rw st_bind_unfold (block_reads then_statements fuel tt t5); [done|done|done|lens|lens|].
  rw run_pop_validate; [done|]. destruct else_statements as [|s else_statements].
  - inversion Hre; subst te. cbn [app]. destruct Hfollows as [|Hfollows]; [done|]. destruct rest as [|t rest]; [done|]. rw run_peek. destruct (String.eqb_spec (value t) "else"); [done|]. done.
  - apply reads_cons in Hre as (t6 & ts7 & -> & [Ht6 _] & Hre). apply reads_cons in Hre as (t7 & ts8 & -> & [Ht7 _] & Hre). apply reads_snoc in Hre as (ts9 & t8 & -> & Hre & Ht8).
    cbn [app]. rw run_peek Ht6 String.eqb_refl. rw st_bind_unfold run_pop_validate; [done|]. rw run_peek Ht7 String.eqb_refl run_pop_validate; [done|].
    rw -app_assoc. cbn [app]. rw st_bind_unfold (block_reads (s :: else_statements) fuel ts9 t8); [done|done|done|lens|lens|]. rw run_pop_validate; [done|]. done.
Qed.
End statements.

(** The part of [parse_statement] behind its first expression. *)
Lemma simple_statement_reads fuel e ts t rest v : v ∈ [";"; "="] → expression_ok 4 e → simple_start (show_expression e ++ [v]) → reads (show_expression e) ts → value t = v → kind t = kind_of v →
  S (length (ts ++ t :: rest)) < S fuel →
  parse_statement (S fuel) (ts ++ t :: rest) =
  (if String.eqb v ";" then pop_validate ";" ≫= λ _, mret (ExpressionStatement e)
   else parse_assignment_statement fuel e ≫= λ stmt, has_more ≫= λ more,
     (if more : bool then peek ≫= λ token, if String.eqb (value token) ";" then pop_validate ";" else mret () else mret ()) ≫= λ _, mret stmt) (t :: rest).
Proof.
  intros Hin He Hstart Hreads Hv Hk Hf. destruct (simple_tokens _ _ ts (t :: rest) Hstart Hreads) as (t1 & t2 & H1 & H2 & Hk1 & Hk2); [by exists t, rest|].
  assert (Hrun : parse_expression fuel (ts ++ t :: rest) = (Ok e, t :: rest)).
  { apply expression_reads; [done..| |lia]. cbn. rw Hv. apply closing_stops. rw /closing !elem_of_cons in Hin |- *. destruct Hin as [->|[->|[]%not_elem_of_nil]]; tauto. }
  cbn [parse_statement]. destruct (ts ++ t :: rest) as [|t' ts'] eqn:Hts; [done|]. injection H1 as ->. rw run_peek Hk1 (run_peek_offset _ t2); [done|]. rw Hk2 st_bind_unfold Hrun run_has_more run_peek Hv.
  rw !elem_of_cons in Hin. by destruct Hin as [->|[->|[]%not_elem_of_nil]].
Qed.

Lemma statement_reads fuel s ts rest : statement_ok s → reads (show_statement s) ts → follows s rest → S (length (ts ++ rest)) < fuel → parse_statement fuel (ts ++ rest) = (Ok s, rest).
Proof.
  revert s ts rest. induction fuel as [|fuel IH]; intros s ts rest Hs Hreads Hfollows Hf; [lia|]. destruct s as [e|c th el|l r].
  - destruct Hs as [He Hstart]. cbn [show_statement] in Hreads. apply reads_app in Hreads as (ts1 & ts2 & -> & Hr1 & Hr2). apply reads_cons in Hr2 as (t & ts3 & -> & [Ht Hk] & Hnil). inversion Hnil; subst ts3.
    rw -app_assoc. cbn [app]. rw (simple_statement_reads fuel e ts1 t rest ";"); [by left|done..|lens|]. rw String.eqb_refl run_pop_validate; [done|done].
  - pose proof Hreads as Hreads'. cbn [show_statement] in Hreads'. apply reads_cons in Hreads' as (t & ts' & -> & [Ht Hk] & _). cbn [parse_statement app]. rw run_peek Hk Ht.
    change (kind_of "if") with Keyword. cbv iota. change (String.eqb "if" "if") with true. cbv iota.
    apply (if_reads fuel (parse_statement fuel) IH fuel c th el (t :: ts') rest); [done..|lia|lens].
  - destruct Hs as (Hl & Hr & Hstart). cbn [show_statement] in Hreads. apply reads_app in Hreads as (ts1 & ts2 & -> & Hr1 & Hr2). apply reads_cons in Hr2 as (t & ts3 & -> & [Ht Hk] & Hr2).
    apply reads_snoc in Hr2 as (ts4 & t2 & -> & Hr2 & Ht2). rw -app_assoc -app_comm_cons -app_assoc. cbn [app]. rw (simple_statement_reads fuel l ts1 t (ts4 ++ t2 :: rest) "="); [right; by left|done..|lens|].
    change (String.eqb "=" ";") with false. cbv iota. rw st_bind_unfold /parse_assignment_statement run_pop_validate; [done|].
    rw st_bind_unfold (expression_reads fuel r ts4 (t2 :: rest)); [done|done|cbn; rw Ht2; apply closing_stops; rw /closing !elem_of_cons; tauto|lens|].
    cbn [mret st_ret]. rw /mret /st_ret run_has_more. rw st_bind_unfold run_peek Ht2 String.eqb_refl /pop_validate Ht2 String.eqb_refl. done.
Qed.

(** The statements of a program, the last of which has an [else] if it is an [if]. *)
Definition program_ok (statements : list Statement) : Prop := Forall statement_ok statements ∧ match last statements with Some s => needs_more s = false | None => True end.

Lemma statements_read rounds fuel statements ts : program_ok statements → reads (concat (map show_statement statements)) ts → length ts < rounds → S (length ts) < fuel →
  parse_statements rounds fuel ts = (Ok statements, []).
Proof.
  intros [Hok Hlast]. revert rounds ts Hlast. induction Hok as [|s statements Hs Hok IH]; intros rounds ts Hlast Hreads Hr Hf; (destruct rounds as [|rounds]; [lia|]); cbn [parse_statements map concat] in *.
  { inversion Hreads; subst. done. }
  apply reads_app in Hreads as (ts1 & ts2 & -> & Hr1 & Hr2). destruct (statement_start s ts1 Hs Hr1) as (t1 & ts1' & -> & Hstart). rw run_has_more. cbv iota.
  rw st_bind_unfold (statement_reads fuel s (t1 :: ts1') ts2); [done..| |done|].
  - rw /follows. destruct Hok as [|s' statements Hs' _]; [by left|right]. cbn [map concat] in Hr2. apply reads_app in Hr2 as (ts3 & ts4 & -> & Hr3 & _).
    destruct (statement_start s' ts3 Hs' Hr3) as (t3 & ts3' & -> & Hstart3). cbn. intros He. destruct Hstart3 as [(_ & Hres & _)%name_ok_plain|Hif]; [apply Hres; rw He /reserved !elem_of_cons; tauto|by rw He in Hif].
  - rw st_bind_unfold IH; [|done|lens|lens|done]. destruct statements; [done|]. by rw last_cons_cons in Hlast.
Qed.

(** ** Texts *)

Ltac fixed := first [left; reflexivity | right; left; reflexivity].
Ltac toks := repeat first [split | apply Forall_nil_2 | apply Forall_cons_2 | apply Forall_app | fixed].

Lemma Expression_nested_ind (Q : Expression → Prop) : (∀ name, Q (VariableOrTypeReference name)) → Q NullReference → (∀ e f, Q e → Q (FieldAccess e f)) → (∀ o i, Q o → Q i → Q (Index o i)) →
  (∀ e ps, Q e → Forall Q ps → Q (MethodInvocation e ps)) → (∀ l op r, Q l → Q r → Q (Comparison l op r)) → (∀ e f, Q e → Q (NullTestFieldAccess e f)) → ∀ e, Q e.
Proof.
  intros H1 H2 H3 H4 H5 H6 H7. fix IH 1. intros [name| |e f|o i|e ps|l op r|e f]; [apply H1|apply H2|apply H3, IH|apply H4; apply IH| |apply H6; apply IH|apply H7, IH].
  apply H5; [apply IH|]. induction ps as [|p ps IHps]; constructor; [apply IH|done].
Qed.

Lemma Statement_nested_ind (Q : Statement → Prop) : (∀ e, Q (ExpressionStatement e)) → (∀ c th el, Forall Q th → Forall Q el → Q (IfStatement c th el)) → (∀ l r, Q (AssignmentStatement l r)) → ∀ s, Q s.
Proof.
  intros H1 H2 H3. fix IH 1. intros [e|c th el|l r]; [apply H1| |apply H3]. apply H2.
  - induction th as [|s th IHth]; constructor; [apply IH|done].
  - induction el as [|s el IHel]; constructor; [apply IH|done].
Qed.

Lemma expression_tokens k e : expression_ok k e → Forall token_ok (show_expression e).
Proof.
  revert k. induction e as [name| |e f IH|o i IHo IHi|e ps IH IHps|l op r IHl IHr|e f IH] using Expression_nested_ind; intros k He; cbn [show_expression expression_ok app] in *.
  - by destruct (name_ok_plain _ He) as (_ & _ & ?); toks.
  - toks.
  - toks; [apply (IH 0), He|apply He].
  - toks; [apply (IHo 0), He|apply (IHi 4), He].
  - destruct He as [He Hps]. toks; [by apply (IH 0)|]. clear -IHps Hps. induction IHps as [|p ps Hp _ IH]; cbn [map concat]; toks; [apply (Hp 4), Hps|apply IH, Hps].
  - destruct He as (Hj & Hl & Hr). destruct (operator_level op) as [|j] eqn:Hop; [lia|]. destruct (operator_source op j Hop) as (Hin & _). toks; [by apply (IHl (S j))| |by apply (IHr j)].
    destruct j as [|[|[|[|j]]]]; cbn [operators] in Hin; rw ?elem_of_cons elem_of_nil in Hin; [..|done]; repeat (destruct Hin as [->|Hin]; [fixed|]); done.
  - toks; [apply (IH 0), He|apply He].
Qed.

Lemma statement_tokens s : statement_ok s → Forall token_ok (show_statement s).
Proof.
  assert (Hblock : ∀ l, Forall (λ s, statement_ok s → Forall token_ok (show_statement s)) l → Forall statement_ok l → Forall token_ok (concat (map show_statement l))).
  { induction 1 as [|s' l Hs _ IH]; [constructor|]. intros [Hok Hl]%Forall_cons. cbn [map concat]. toks; [by apply Hs|by apply IH]. }
  induction s as [e|c th el IHth IHel|l r] using Statement_nested_ind; cbn [show_statement statement_ok app].
  - intros [He _]. toks. by apply (expression_tokens 4).
  - intros (Hc & Hth%statements_ok_Forall & Hel%statements_ok_Forall). toks; [by apply (expression_tokens 4)|by apply Hblock|]. destruct el as [|s el]; [toks|].
    pose proof (Hblock _ IHel Hel) as Hb. cbn [map concat] in Hb. apply Forall_app in Hb as [Hb1 Hb2]. toks; done.
  - intros (Hl & Hr & _). toks; by apply (expression_tokens 4).
Qed.

End PainlessTheory.

(** ** Examples *)
Module PainlessDemo.
Import PainlessTheory.

Definition ctx : Expression := VariableOrTypeReference "ctx".
Definition task (name : string) : Expression := FieldAccess (FieldAccess ctx "task") name.

(** A claim of a task, with a test for a missing field, a call, and an [else]. *)
Definition claim_task : list Statement :=
  [IfStatement (Comparison (Comparison (task "retryAt") "!=" NullReference) "and"
                 (Comparison (MethodInvocation (FieldAccess (VariableOrTypeReference "ZonedDateTime") "parse") [task "retryAt"]) "<" (FieldAccess (VariableOrTypeReference "params") "now")))
     [AssignmentStatement (task "status") (VariableOrTypeReference (quote +:+ "claiming" +:+ quote))]
     [AssignmentStatement (FieldAccess ctx "op") (VariableOrTypeReference (quote +:+ "no; op" +:+ quote))]].

Definition claim_template : string :=
  "{% if (ctx.task.retryAt is defined and ctx.task.retryAt is not none) and __types.ZonedDateTime.parse(ctx.task.retryAt) < params.now %}" +:+ newline +:+
  "  {{ __private_impl.assign(" +:+ quote +:+ "ctx.task.status" +:+ quote +:+ ", " +:+ quote +:+ "claiming" +:+ quote +:+ ") }}" +:+ newline +:+ "{% else %}" +:+ newline +:+
  "  {{ __private_impl.assign(" +:+ quote +:+ "ctx.op" +:+ quote +:+ ", " +:+ quote +:+ "no; op" +:+ quote +:+ ") }}" +:+ newline +:+ "{% endif %}".

Lemma name_by_word v : word v = true → bool_decide (v ∉ reserved) = true → name_ok v.
Proof. intros Hw Hr. split; [by left|by apply bool_decide_eq_true in Hr]. Qed.
Lemma name_by_literal body : all_chars literal_char body = true → bool_decide (quote +:+ body +:+ quote ∉ reserved) = true → name_ok (quote +:+ body +:+ quote).
Proof. intros Hb Hr. split; [right; by exists body|by apply bool_decide_eq_true in Hr]. Qed.

Lemma ctx_ok : name_ok "ctx".
Proof. apply name_by_word; [reflexivity|vm_compute; reflexivity]. Qed.
Lemma task_ok k name : word name = true → expression_ok k (task name).
Proof. intros Hname. split; [split; [exact ctx_ok|right; left; reflexivity]|by right; left]. Qed.

Lemma claim_task_ok : program_ok claim_task.
Proof.
  split; [|done]. constructor; [|constructor]. cbn [statement_ok expression_ok]. split_and!; try done; try (vm_compute; lia).
  all: try (apply name_by_word; [reflexivity|vm_compute; reflexivity]).
  all: try (right; left; reflexivity).
  all: try (apply (name_by_literal "claiming"); [reflexivity|vm_compute; reflexivity]).
  all: try (apply (name_by_literal "no; op"); [reflexivity|vm_compute; reflexivity]).
  all: try (by apply task_ok). all: split; [exact ctx_ok|reflexivity].
Qed.

Theorem claim_task_translates : translate (spaced (concat (map show_statement claim_task))) = Ok claim_template.
Proof. vm_compute. reflexivity. Qed.

(** The tests of the source. *)
Lemma tokenizer_test : (length <$> new_context "ctx?.kibana?.log?.meta?.res?.responseTime != null") = Ok 13.
Proof. vm_compute. reflexivity. Qed.

Lemma datetime_test :
  translate ("ZonedDateTime.parse(" +:+ quote +:+ "2025-05-31T12:34:56" +:+ quote +:+ ").toInstant().toEpochMilli()") =
  Ok ("{{ __types.ZonedDateTime.parse(" +:+ quote +:+ "2025-05-31T12:34:56" +:+ quote +:+ ").toInstant().toEpochMilli() }}").
Proof. vm_compute. reflexivity. Qed.

(** *** Findings *)

(** A script that ends with an [if] that has no [else] is a panic: the parser looks for the
    [else] behind the last token. *)
Theorem trailing_if_panics : translate "if (ctx.a == null) { ctx.b = ctx.c; }" = unwrap_none ∧ ∃ text, translate "if (ctx.a == null) { ctx.b = ctx.c; } else { ctx.b = ctx.d; }" = Ok text.
Proof. split; [vm_compute; reflexivity|]. eexists. vm_compute. reflexivity. Qed.

(** So is a call with two arguments, and a negation. *)
Theorem two_arguments_panic : translate "ctx.list.add(ctx.a, ctx.b);" = Panic "Not implemented" ∧ translate "if (!ctx.a) { ctx.b = ctx.c; } else { ctx.b = ctx.d; }" = Panic "Not implemented".
Proof. vm_compute. done. Qed.

(** A number is taken for the name of a type. *)
Theorem numbers_are_types : translate "ctx.count = 5;" = Ok ("{{ __private_impl.assign(" +:+ quote +:+ "ctx.count" +:+ quote +:+ ", __types.5) }}").
Proof. vm_compute. done. Qed.
End PainlessDemo.
