(* ===== verification/DateMath.v ===== *)
(** * Date expressions (query_core/src/elastic_search_datetime_parser.rs)

    A bound such as [now-1d] or [now/h] is split into tokens, parsed and evaluated against
    the clock.  Instants are nanoseconds from the epoch.  Rounding, the range of instants
    and their text are chrono's.  The kind and the position of a token are never read and
    are left out. *)

From S2P Require Import Prelude Text.

(** [representable]: the instants chrono can hold.  [duration_round]: an instant rounded to
    a multiple of a duration, or the text of its error.  [instant_text]: RFC 3339 with
    milliseconds. *)
Class DateLibrary : Type := {
  representable : Z → bool;
  duration_round : Z → Z → outcome Z;
  instant_text : Z → string;
}.

(** Rounding goes to the nearest multiple, and up when two are equally near. *)
Class DateLibraryLaws (lib : DateLibrary) : Prop := {
  round_nearest : ∀ t span r, (0 < span)%Z → duration_round t span = Ok r → (r mod span = 0 ∧ 2 * (r - t) ≤ span ∧ 2 * (t - r) < span)%Z;
  round_no_panic : ∀ t span, no_panic (duration_round t span);
}.

(** ** Tokens *)

Definition date_delimiter (a : Ascii.ascii) : bool := existsb (Ascii.eqb a) ["+"; "-"; "/"]%char.
Definition date_whitespace (a : Ascii.ascii) : bool := existsb (Ascii.eqb a) [" "; "010"]%char.
Definition date_quote : Ascii.ascii := "034"%char.
Definition one_byte (a : Ascii.ascii) : bool := in_range 0 127 a.

(** The loop: the tokens so far, the current one and whether it is a string.  Slices of one
    and two bytes are taken at every step: a longer character is a panic. *)
Fixpoint date_tokens (script current : string) (in_string : bool) : outcome (list string) :=
  match script with
  | EmptyString => Ok [current]
  | String a rest =>
      if negb (one_byte a && match rest with String b _ => one_byte b | EmptyString => true end) then Panic "end byte index is not a char boundary"
      else if in_string then
        if Ascii.eqb a date_quote then tokens ← date_tokens rest "" false; Ok ((current +:+ String a "") :: tokens)
        else date_tokens rest (current +:+ String a "") true
      else if date_whitespace a then tokens ← date_tokens rest "" false; Ok (current :: tokens)
      else if date_delimiter a then tokens ← date_tokens rest "" false; Ok (current :: String a "" :: tokens)
      else if Ascii.eqb a date_quote then tokens ← date_tokens rest (String a "") true; Ok (current :: tokens)
      else date_tokens rest (current +:+ String a "") false
  end.
(** SRC query_core/src/elastic_search_datetime_parser.rs:73-197= ParserContext::new *)
Definition date_context (script : string) : outcome (list string) := tokens ← date_tokens script "" false; Ok (filter (λ value, value ≠ "") tokens).

(** ** Syntax *)

(** SRC query_core/src/elastic_search_datetime_parser.rs:267-272 DateUnit *)
Inductive DateUnit : Type := Day | Hour | Minute | Week.

(** SRC query_core/src/elastic_search_datetime_parser.rs:308-311 ArithmeticOperator *)
Inductive ArithmeticOperator : Type := DateAdd | DateSub.

(** SRC query_core/src/elastic_search_datetime_parser.rs:336-339 IntervalExpression *)
Record IntervalExpression : Type := mkInterval { ix_quantity : Z; ix_unit : DateUnit }.

(** SRC query_core/src/elastic_search_datetime_parser.rs:246-320= Expression, NowExpression, FloorExpression, ArithmeticExpression *)
Inductive DateExpression : Type :=
| NowExpression
| FloorExpression (left_expr : DateExpression) (unit : DateUnit)
| ArithmeticExpression (left_expr : DateExpression) (op : ArithmeticOperator) (right_expr : IntervalExpression).

(** The context of the parser is the tokens not yet read. *)
Definition DateParser : Type → Type := ST (list string).

(** SRC query_core/src/elastic_search_datetime_parser.rs:215-219 ParserContext::pop *)
Definition date_pop : ST (list string) string := λ tokens,
  match tokens with token :: tokens => (Ok token, tokens) | [] => (Panic "called `Option::unwrap()` on a `None` value", []) end.

(** SRC query_core/src/elastic_search_datetime_parser.rs:221-225 ParserContext::pop_validate *)
Definition date_pop_validate (value : string) : ST (list string) () := token ← date_pop; st_assert (String.eqb token value) "assertion `left == right` failed".

(** SRC query_core/src/elastic_search_datetime_parser.rs:386-396 parse_date_unit *)
Definition parse_date_unit (value : string) : outcome DateUnit :=
  if String.eqb value "d" then Ok Day
  else if String.eqb value "m" then Ok Minute
  else if String.eqb value "h" then Ok Hour
  else if String.eqb value "w" then Ok Week else Panic "not yet implemented".

(** The digits in front; a longer character is a panic. *)
Fixpoint leading_digits (value : string) : outcome (string * string) :=
  match value with
  | EmptyString => Ok ("", "")
  | String a rest =>
      if negb (one_byte a) then Panic "end byte index is not a char boundary"
      else if is_digit a then '(digits, rest) ← leading_digits rest; Ok (String a digits, rest)
      else Ok ("", value)
  end.
(** SRC query_core/src/elastic_search_datetime_parser.rs:398-411 parse_interval *)
Definition parse_interval (value : string) : outcome (Z * DateUnit) :=
  '(digits, rest) ← leading_digits value;
  quantity ← unwrap (parse_i64 digits);
  unit ← parse_date_unit rest;
  Ok (quantity, unit).

(** SRC query_core/src/elastic_search_datetime_parser.rs:413-421 parse_interval_expression *)
Definition parse_interval_expression : ST (list string) IntervalExpression :=
  val ← date_pop;
  '(quantity, unit) ← st_lift (parse_interval val);
  mret (mkInterval quantity unit).

(** SRC query_core/src/elastic_search_datetime_parser.rs:423-444 parse_arithmetic_expression *)
Definition parse_arithmetic_expression (left_expr : DateExpression) : ST (list string) DateExpression :=
  op_token ← date_pop;
  op ← st_lift (if String.eqb op_token "+" then Ok DateAdd else if String.eqb op_token "-" then Ok DateSub else Panic "Unexpected token");
  right_expr ← parse_interval_expression;
  mret (ArithmeticExpression left_expr op right_expr).

(** SRC query_core/src/elastic_search_datetime_parser.rs:446-455 parse_floor_expression *)
Definition parse_floor_expression (left_expr : DateExpression) : ST (list string) DateExpression :=
  _ ← date_pop_validate "/";
  val ← date_pop;
  unit ← st_lift (parse_date_unit val);
  mret (FloorExpression left_expr unit).

(** SRC query_core/src/elastic_search_datetime_parser.rs:363-384 parse_top_level_expression *)
Definition parse_top_level_expression : ST (list string) DateExpression :=
  _ ← date_pop_validate "now";
  next ← st_gets head;
  match next with
  | None => mret NowExpression
  | Some token =>
      if String.eqb token "-" || String.eqb token "+" then parse_arithmetic_expression NowExpression
      else if String.eqb token "/" then parse_floor_expression NowExpression
      else st_lift (Panic "Unexpected token")
  end.

(** ** Evaluation *)

Definition seconds (n : Z) : Z := n * 10 ^ 9.

(** [Duration::days] and the like panic beyond what milliseconds of 64 bits hold. *)
Definition checked_duration (n : Z) : outcome Z := if (Z.abs n <=? (2 ^ 63 - 1) * 10 ^ 6)%Z then Ok n else Panic "TimeDelta out of bounds".

(** SRC query_core/src/elastic_search_datetime_parser.rs:342-349 IntervalExpression::to_duration *)
Definition to_duration (i : IntervalExpression) : outcome Z :=
  checked_duration (match ix_unit i with
                    | Day => seconds (86400 * ix_quantity i)
                    | Minute => seconds (60 * ix_quantity i)
                    | Hour => seconds (3600 * ix_quantity i)
                    | Week => seconds (86400 * wrap_i64 (7 * ix_quantity i))
                    end).

Section evaluation.
Context `{lib : DateLibrary}.

(** [DateTime + Duration] panics when the sum cannot be held. *)
Definition shift_instant (t d : Z) : outcome Z := if representable (t + d) then Ok (t + d)%Z else Panic "`DateTime + TimeDelta` overflowed".

(** The unit of a floor and its half. *)
Definition unit_span (unit : DateUnit) : Z := match unit with Day => seconds 86400 | Hour => seconds 3600 | Minute => seconds 60 | Week => seconds (7 * 86400) end.
Definition half_span (unit : DateUnit) : Z := match unit with Day => seconds (12 * 3600) | Hour => seconds (30 * 60) | Minute => seconds 30 | Week => seconds (84 * 3600) end.

(** SRC query_core/src/elastic_search_datetime_parser.rs:245-334= NowExpression::translate, FloorExpression::translate, ArithmeticExpression::translate *)
Fixpoint translate_date (now : Z) (e : DateExpression) : outcome Z :=
  match e with
  | NowExpression => Ok now
  | FloorExpression left_expr unit =>
      left_val ← translate_date now left_expr;
      shifted ← shift_instant left_val (- half_span unit);
      duration_round shifted (unit_span unit)
  | ArithmeticExpression left_expr op right_expr =>
      left_val ← translate_date now left_expr;
      right_val ← to_duration right_expr;
      match op with
      | DateAdd => shift_instant left_val right_val
      | DateSub => shift_instant left_val (- right_val)
      end
  end.

(** SRC query_core/src/elastic_search_datetime_parser.rs:352-361 evaluate *)
Definition evaluate_date (dt_spec : string) (now : Z) : outcome string :=
  tokens ← date_context dt_spec;
  expression ← (parse_top_level_expression tokens).1;
  final_dt ← translate_date now expression;
  Ok (instant_text final_dt).
End evaluation.

(** ** Floors *)
Module DateMathTheory.
Section laws.
Context `{lib : DateLibrary, !DateLibraryLaws lib}.

(** Shifting by half a unit and rounding to the nearest is rounding down. *)
Lemma floor_is_floor now unit r : translate_date now (FloorExpression NowExpression unit) = Ok r → r = (now / unit_span unit * unit_span unit)%Z.
Proof.
  cbn [translate_date]. rw bind_Ok. intros H. apply bind_Ok_inv in H as (shifted & Hs & H). rw /shift_instant in Hs. destruct (representable _); [|done]. injection Hs as <-.
  assert (Hspan : (0 < unit_span unit ∧ unit_span unit = 2 * half_span unit)%Z) by (destruct unit; rw /unit_span /half_span /seconds; lia). destruct Hspan as [Hpos Hhalf].
  apply round_nearest in H as (Hm & Hup & Hdown); [|done]. pose proof (Z.div_mod r (unit_span unit)) as Hr. rw Hm in Hr.
  assert (Hdiv : (now / unit_span unit = r / unit_span unit)%Z); [|rw Hdiv; lia]. symmetry. apply (Z.div_unique_pos now (unit_span unit) (r / unit_span unit) (now - r)); lia.
Qed.

(** What follows the first operation is not read. *)
Theorem rounding_after_arithmetic_is_ignored now : evaluate_date "now-1d/d" now = evaluate_date "now-1d" now.
Proof. done. Qed.
End laws.
End DateMathTheory.
