(* ===== verification/PeerHits.v ===== *)
(** * The hits of a search on one peer (query_runtime/src/private_api.rs, search_runtime.rs)

    A peer runs the SQL of a search on its share of the files and gets record batches of
    the columnar engine.  This file models the readers of their cells, the sort values and
    the score of a row, and the selection of the best rows with a buffer of four times the
    page, trimmed as it fills.  The floats of a column are finite. *)

From S2P Require Import Prelude Text StableSort Json JsonText QueryPath Float ServingExec.

(** ** Record batches *)

Inductive TimeUnit : Type := USecond | UMillisecond | UMicrosecond | UNanosecond.

(** A value of a column with its data type. *)
Inductive Cell : Type :=
| CNull
| CInt64 (n : Z)
| CInt32 (n : Z)
| CUInt64 (n : Z)
| CUInt32 (n : Z)
| CFloat64 (f : f64)
| CFloat32 (f : f64)
| CBoolean (b : bool)
| CUtf8 (s : string)
| CLargeUtf8 (s : string)
| CUtf8View (s : string)
| CTimestamp (unit : TimeUnit) (n : Z)
| CDate32 (n : Z)
| CDate64 (n : Z)
| CStruct (fields : list (string * Cell))
| CList (values : list Cell)
| CLargeList (values : list Cell)
| COther (type_name : string).

(** Columns by name; every column has a cell for each row. *)
Record RecordBatch : Type := mkBatch { rb_columns : list (string * list Cell); rb_num_rows : nat }.

(** [batch.schema().index_of(field).ok()?] and the cell of the row. *)
Definition batch_cell (batch : RecordBatch) (row_index : nat) (field : string) : option Cell :=
  column ← obj_get field (rb_columns batch);
  column !! row_index.

(** Dates as chrono reads and prints them: milliseconds of an RFC 3339 text, and the text
    of milliseconds within its range. *)
Class Chrono : Type := {
  parse_from_rfc3339 : string → option Z;
  millis_to_rfc3339 : Z → option string;
}.

(** [f32::to_string] *)
Class Float32Display : Type := { display_f32 : f64 → string }.

Section cells.
Context `{ch : Chrono, fd : FloatDisplay, fd32 : Float32Display}.

(** SRC query_runtime/src/private_api.rs:2393-2436 numeric_array_value *)
Definition numeric_array_value (cell : Cell) : option f64 :=
  match cell with
  | CFloat64 f | CFloat32 f => Some f
  | CInt64 n | CInt32 n | CUInt64 n | CUInt32 n => Some (mkF64 (round53 n) 0)
  | _ => None
  end.

(** SRC query_runtime/src/private_api.rs:2438-2471 u64_array_value *)
Definition u64_array_value (cell : Cell) : option Z :=
  match cell with
  | CUInt64 n | CUInt32 n => Some n
  | CInt64 n | CInt32 n => if (n <? 0)%Z then None else Some n
  | _ => None
  end.

(** SRC query_runtime/src/private_api.rs:2473-2549 timestamp_array_value *)
Definition timestamp_array_value (cell : Cell) : option Z :=
  match cell with
  | CTimestamp USecond n => Some (wrap_i64 (n * 1000))
  | CTimestamp UMillisecond n => Some n
  | CTimestamp UMicrosecond n => Some (Z.quot n 1000)
  | CTimestamp UNanosecond n => Some (Z.quot n 1000000)
  | CDate64 n => Some n
  | CDate32 n => Some (n * 86400000)%Z
  | CInt64 n => Some n
  | CUInt64 n => if (n <? 2 ^ 63)%Z then Some n else None
  | CUtf8 s | CLargeUtf8 s => parse_from_rfc3339 s
  | _ => None
  end.

(** SRC query_runtime/src/private_api.rs:2551-2621 string_key_array_value *)
Definition string_key_array_value (cell : Cell) : option string :=
  match cell with
  | CUtf8 s | CLargeUtf8 s => Some s
  | CInt64 n | CInt32 n | CUInt64 n | CUInt32 n => Some (print_int n)
  | CFloat64 f => Some (display_f64 f)
  | CFloat32 f => Some (display_f32 f)
  | CBoolean b => Some (if b then "true" else "false")
  | _ => None
  end.

(** SRC query_runtime/src/private_api.rs:2361-2364 batch_string_field *)
Definition batch_string_field (batch : RecordBatch) (row_index : nat) (field : string) : option string := batch_cell batch row_index field ≫= string_key_array_value.
(** SRC query_runtime/src/private_api.rs:2352-2359 extract_term_key_from_batch_row *)
Definition extract_term_key_from_batch_row (batch : RecordBatch) (row_index : nat) (field : string) : option string := batch_cell batch row_index field ≫= string_key_array_value.
(** SRC query_runtime/src/private_api.rs:2366-2381 batch_bool_field *)
Definition batch_bool_field (batch : RecordBatch) (row_index : nat) (field : string) : option bool :=
  batch_cell batch row_index field ≫= (λ cell, match cell with CBoolean b => Some b | _ => None end).
(** SRC query_runtime/src/private_api.rs:2383-2386 batch_u64_field *)
Definition batch_u64_field (batch : RecordBatch) (row_index : nat) (field : string) : option Z := batch_cell batch row_index field ≫= u64_array_value.
(** SRC query_runtime/src/private_api.rs:2388-2391 batch_numeric_field *)
Definition batch_numeric_field (batch : RecordBatch) (row_index : nat) (field : string) : option f64 := batch_cell batch row_index field ≫= numeric_array_value.
(** SRC query_runtime/src/private_api.rs:2282-2289 extract_numeric_field_from_batch_row *)
Definition extract_numeric_field_from_batch_row (batch : RecordBatch) (row_index : nat) (field : string) : option f64 := batch_cell batch row_index field ≫= numeric_array_value.
(** SRC query_runtime/src/private_api.rs:2291-2298 extract_timestamp_millis_from_batch_row *)
Definition extract_timestamp_millis_from_batch_row (batch : RecordBatch) (row_index : nat) (field : string) : option Z := batch_cell batch row_index field ≫= timestamp_array_value.

(** ** Cells as JSON *)

(** SRC query_runtime/src/search_runtime.rs:187-354= array_value_to_json, list_array_to_json *)
Fixpoint array_value_to_json (cell : Cell) : outcome Value :=
  match cell with
  | CNull => Ok VNull
  | CBoolean b => Ok (VBool b)
  | CUtf8 s | CUtf8View s | CLargeUtf8 s => Ok (VString s)
  | CInt32 n | CInt64 n => Ok (int n)
  | CUInt32 n | CUInt64 n => Ok (VNumber (PosInt n))
  | CFloat32 f | CFloat64 f => Ok (VNumber (NFloat f))
  | CTimestamp _ n | CDate32 n | CDate64 n => Ok (int n)
  | CStruct fields =>
      m ← (fix go (value_map : Object) (fields : list (string * Cell)) : outcome Object :=
        match fields with
        | [] => Ok value_map
        | (name, cell) :: fields => value ← array_value_to_json cell; go (obj_insert name value value_map) fields
        end) [] fields;
      Ok (VObject m)
  | CList values | CLargeList values => values ← try_collect array_value_to_json values; Ok (VArray values)
  | COther type_name => Err ("Direct batch JSON conversion does not support Arrow type " +:+ type_name)
  end.
End cells.

(** ** Sort values *)

(** SRC query_runtime/src/peers.rs:96-100 PrivateSearchSortSpec *)
Record PrivateSearchSortSpec : Type := mkSortSpec { pss_field : string; pss_descending : bool }.

(** SRC query_runtime/src/private_api.rs:1023-1031 SortScalar *)
Inductive SortScalar : Type :=
| SNull
| SInt (n : Z)
| SUInt (n : Z)
| SFloat (f : f64)
| SString (s : string)
| SBool (b : bool).

(** SRC query_runtime/src/private_api.rs:1519-1528 sort_scalar_numeric_as_f64 *)
Definition sort_scalar_numeric_as_f64 (value : SortScalar) : option f64 :=
  match value with
  | SInt n | SUInt n => Some (mkF64 (round53 n) 0)
  | SFloat f => Some f
  | SNull | SString _ | SBool _ => None
  end.

(** SRC query_runtime/src/private_api.rs:1374-1418 compare_sort_values *)
Definition compare_sort_scalars (left right : SortScalar) : comparison :=
  match left, right with
  | SNull, SNull => Eq
  | SNull, _ => Gt
  | _, SNull => Lt
  | SInt l, SInt r => (l ?= r)%Z
  | SUInt l, SUInt r => (l ?= r)%Z
  | SInt l, SUInt r => if (l <? 0)%Z then Lt else (l ?= r)%Z
  | SUInt l, SInt r => if (r <? 0)%Z then Gt else (l ?= r)%Z
  | SString l, SString r => String.compare l r
  | SBool l, SBool r => bool_compare l r
  | _, _ =>
      match sort_scalar_numeric_as_f64 left, sort_scalar_numeric_as_f64 right with
      | Some l, Some r => f64_compare l r
      | _, _ => Eq
      end
  end.

(** SRC query_runtime/src/private_api.rs:1490-1499 sort_scalar_to_json *)
Definition sort_scalar_to_json (value : SortScalar) : Value :=
  match value with
  | SNull => VNull
  | SInt n => int n
  | SUInt n => VNumber (PosInt n)
  | SFloat f => VNumber (NFloat f)
  | SString s => VString s
  | SBool b => VBool b
  end.

(** SRC query_runtime/src/private_api.rs:1501-1517 sort_scalar_from_json_value *)
Definition sort_scalar_from_json_value `{JsonText} (value : Value) : SortScalar :=
  match value with
  | VNull => SNull
  | VBool b => SBool b
  | VString s => SString s
  | VNumber number =>
      match as_i64 value with
      | Some n => SInt n
      | None => match as_u64 value with Some n => SUInt n | None => SFloat (as_f64 number) end
      end
  | _ => SString (json_to_vec value)
  end.

(** SRC query_runtime/src/private_api.rs:1420-1488 sort_scalar_from_array *)
Definition sort_scalar_from_array `{Chrono} (cell : Cell) : option SortScalar :=
  match cell with
  | CNull => Some SNull
  | _ =>
      match timestamp_array_value cell with
      | Some timestamp => Some (SInt timestamp)
      | None =>
          match cell with
          | CInt64 n | CInt32 n | CDate64 n => Some (SInt n)
          | CUInt64 n | CUInt32 n => Some (SUInt n)
          | CFloat64 f | CFloat32 f => Some (SFloat f)
          | CBoolean b => Some (SBool b)
          | CUtf8 s | CLargeUtf8 s => Some (SString s)
          | CDate32 n => Some (SInt (n * 86400000))
          | _ => None
          end
      end
  end.

(** [Option<String>::cmp] *)
Definition option_compare (left right : option string) : comparison :=
  match left, right with
  | None, None => Eq
  | None, Some _ => Lt
  | Some _, None => Gt
  | Some l, Some r => String.compare l r
  end.

(** ** Scores *)

(** [m * 2 ^ e] rounded to nearest, ties to even; none when it is not finite. *)
Definition f64_round (m e : Z) : option f64 :=
  let p := Z.max 0 (Z.max (Z.log2 (Z.abs m) - 52) (-1074 - e)) in
  let r := (round_bits m p / 2 ^ p)%Z in
  if (2 ^ (1024 + 1074) <=? Z.abs r * 2 ^ (Z.max 0 (e + p + 1074)))%Z then None else Some (f64_norm r (e + p)).

Definition f64_mul (a b : f64) : option f64 := f64_round (mantissa a * mantissa b) (exponent a + exponent b).
Definition f64_quot (a b : f64) : option f64 := if (mantissa b =? 0)%Z then None else f64_div a b.

Definition constant_k : f64 := mkF64 5404319552844595 (-52).
Definition one_minus_b : f64 := mkF64 1 (-2).
Definition constant_b : f64 := mkF64 3 (-2).
Definition avgdl : f64 := mkF64 3152519739159347 (-49).
Definition one : f64 := mkF64 1 0.

(** None stands for a score that is not finite, which the counts of an index never give:
    both are positive. *)
(** SRC query_runtime/src/private_api.rs:1530-1536 bm25_fallback_score *)
Definition bm25_fallback_score (term_cnt word_cnt : f64) : option f64 :=
  k1 ← f64_add constant_k one;
  top ← f64_mul term_cnt k1;
  scaled ← f64_mul constant_b word_cnt;
  relative ← f64_quot scaled avgdl;
  norm ← f64_add one_minus_b relative;
  weighted ← f64_mul constant_k norm;
  bottom ← f64_add term_cnt weighted;
  f64_quot top bottom.

Example words_scored :
  bm25_fallback_score one (mkF64 5 0) = Some (mkF64 588755808671525 (-49)) ∧ bm25_fallback_score (mkF64 7 0) (mkF64 100 0) = Some (mkF64 5935061611620287 (-53)).
Proof. vm_compute. done. Qed.

(** ** The best rows of the batches *)

(** SRC query_runtime/src/elastic_search_responses.rs:74-91 QueryResultHit *)
Record QueryResultHit : Type := mkHit {
  qh_index : option string;
  qh_id : option string;
  qh_version : Z;
  qh_seq_no : Z;
  qh_score : option f64;
  qh_primary_term : option Z;
  qh_found : option bool;
  qh_sort : option (list Value);
  qh_source : Value;
}.

(** SRC query_runtime/src/private_api.rs:1012-1021 QueryResultHitRef *)
Record QueryResultHitRef : Type := mkHitRef {
  hr_batch_index : nat;
  hr_row_index : nat;
  hr_id : option string;
  hr_version : Z;
  hr_seq_no : Z;
  hr_score : option f64;
  hr_sort : option (list SortScalar);
}.

(** [slice::select_nth_unstable_by] puts the first elements in front, in no specified
    order.  What it promises needs a comparison that is a total order of the elements of
    the slice. *)
Class SelectNth : Type := {
  select_nth : ∀ {A}, (A → A → comparison) → nat → list A → list A;
  select_nth_perm : ∀ A (cmp : A → A → comparison) n l, select_nth cmp n l ≡ₚ l;
  select_nth_first : ∀ A (cmp order : A → A → comparison) n l, TotalPreorder order → (∀ x y, x ∈ l → y ∈ l → cmp x y = order x y) →
    ∀ x y, x ∈ take n (select_nth cmp n l) → y ∈ drop n (select_nth cmp n l) → order x y ≠ Gt;
}.

(** [values.get(index).unwrap_or(&Null)] *)
Definition sort_value (values : option (list SortScalar)) (index : nat) : SortScalar := default SNull (default [] values !! index).

(** The loop over the sorts, on the values at each index, and what follows it. *)
Fixpoint compare_by_sorts {A} (compare : A → A → comparison) (left right : nat → A) (index : nat) (sorts : list PrivateSearchSortSpec) (otherwise : comparison) : comparison :=
  match sorts with
  | [] => otherwise
  | sort :: sorts => then_cmp (reverse_if (pss_descending sort) (compare (left index) (right index))) (compare_by_sorts compare left right (S index) sorts otherwise)
  end.

Section hits.
Context `{ch : Chrono, fd : FloatDisplay, fd32 : Float32Display, jt : JsonText, sn : SelectNth}.

(** SRC query_runtime/src/private_api.rs:1252-1259 batch_sort_scalar_field *)
Definition batch_sort_scalar_field (batch : RecordBatch) (row_index : nat) (field : string) : option SortScalar := batch_cell batch row_index field ≫= sort_scalar_from_array.

Definition is_ascii_alphanumeric (a : Ascii.ascii) : bool := in_range 48 57 a || in_range 65 90 a || in_range 97 122 a.

(** A character of more than one byte becomes one underscore. *)
Fixpoint normalized_chars (s : string) : string :=
  match s with
  | EmptyString => ""
  | String a rest =>
      if in_range 128 191 a then normalized_chars rest
      else String (if is_ascii_alphanumeric a then a else "_"%char) (normalized_chars rest)
  end.
(** SRC query_runtime/src/search_executor.rs:157-163 typed_sort_projection_name *)
Definition typed_sort_projection_name (field : string) : string := "__powdrr_sort_" +:+ normalized_chars field.

Definition fallback_score (batch : RecordBatch) (row_index : nat) : option f64 :=
  term_cnt ← batch_numeric_field batch row_index "term_cnt";
  word_cnt ← batch_numeric_field batch row_index "word_cnt";
  bm25_fallback_score term_cnt word_cnt.

(** [batch_numeric_field(.., "score").or_else(..)] *)
Definition row_score (batch : RecordBatch) (row_index : nat) (calculate_score : bool) : option f64 :=
  match batch_numeric_field batch row_index "score" with
  | Some score => Some score
  | None => if calculate_score then fallback_score batch row_index else None
  end.

Definition row_sort_value (batch : RecordBatch) (row_index : nat) (calculate_score : bool) (sort : PrivateSearchSortSpec) : SortScalar :=
  if String.eqb (pss_field sort) "_score" then from_option SFloat SNull (row_score batch row_index calculate_score)
  else match batch_sort_scalar_field batch row_index (typed_sort_projection_name (pss_field sort)) with
       | Some scalar => scalar
       | None => default SNull (batch_sort_scalar_field batch row_index (pss_field sort))
       end.
(** SRC query_runtime/src/private_api.rs:1165-1212 batch_sort_values_for_row *)
Definition batch_sort_values_for_row (batch : RecordBatch) (row_index : nat) (calculate_score : bool) (sorts : list PrivateSearchSortSpec) : option (list SortScalar) :=
  match sorts with [] => None | _ => Some (row_sort_value batch row_index calculate_score <$> sorts) end.

(** SRC query_runtime/src/private_api.rs:1098-1128 query_result_hit_ref_from_batch_row *)
Definition query_result_hit_ref_from_batch_row (batch_index : nat) (batch : RecordBatch) (row_index : nat) (calculate_score : bool) (sorts : list PrivateSearchSortSpec) : QueryResultHitRef :=
  mkHitRef batch_index row_index (batch_string_field batch row_index "_id") (default 0%Z (batch_u64_field batch row_index "_version"))
    (default 0%Z (batch_u64_field batch row_index "_seq_no")) (row_score batch row_index calculate_score) (batch_sort_values_for_row batch row_index calculate_score sorts).

(** SRC query_runtime/src/private_api.rs:1261-1286 compare_query_result_hit_refs_by_sort *)
Definition compare_query_result_hit_refs_by_sort (sorts : list PrivateSearchSortSpec) (left right : QueryResultHitRef) : comparison :=
  compare_by_sorts compare_sort_scalars (sort_value (hr_sort left)) (sort_value (hr_sort right)) 0 sorts
    (then_cmp (hr_seq_no right ?= hr_seq_no left)%Z (option_compare (hr_id left) (hr_id right))).

(** SRC query_runtime/src/private_api.rs:1288-1312 compare_hit_ref_to_search_after *)
Definition compare_hit_ref_to_search_after (hit : QueryResultHitRef) (search_after : list Value) (sorts : list PrivateSearchSortSpec) : comparison :=
  compare_by_sorts compare_sort_scalars (sort_value (hr_sort hit)) (λ index, from_option sort_scalar_from_json_value SNull (search_after !! index)) 0 sorts Eq.

(** The scores of two hits, the higher one first. *)
Definition compare_scores_desc (left right : option f64) : comparison :=
  match left, right with
  | Some l, Some r => f64_compare r l
  | Some _, None => Lt
  | None, Some _ => Gt
  | None, None => Eq
  end.
(** SRC query_runtime/src/private_api.rs:1358-1372 compare_query_result_hit_refs_desc *)
Definition compare_query_result_hit_refs_desc (left right : QueryResultHitRef) : comparison :=
  then_cmp (then_cmp (compare_scores_desc (hr_score left) (hr_score right)) (hr_seq_no right ?= hr_seq_no left)%Z) (option_compare (hr_id left) (hr_id right)).

(** SRC query_runtime/src/private_api.rs:1080-1096 hit_ref_buffer_limit *)
Definition hit_ref_buffer_limit (size : Z) (calculate_score : bool) (sorts : list PrivateSearchSortSpec) : Z :=
  if (size =? u64_max)%Z then u64_max
  else if (size =? 0)%Z then 0%Z
  else match sorts, calculate_score with
       | [], false => size
       | _, _ => Z.max (Z.min (size * 4) u64_max) size
       end.

(** SRC query_runtime/src/private_api.rs:1314-1339 trim_query_result_hit_refs *)
Definition trim_query_result_hit_refs (hit_refs : list QueryResultHitRef) (size : Z) (calculate_score : bool) (sorts : list PrivateSearchSortSpec) : list QueryResultHitRef :=
  if (size =? 0)%Z then []
  else if (Z.of_nat (length hit_refs) <=? size)%Z then hit_refs
  else match sorts, calculate_score with
       | [], true => take (Z.to_nat size) (select_nth compare_query_result_hit_refs_desc (Z.to_nat size) hit_refs)
       | [], false => take (Z.to_nat size) hit_refs
       | _, _ => take (Z.to_nat size) (select_nth (compare_query_result_hit_refs_by_sort sorts) (Z.to_nat size) hit_refs)
       end.

(** [hit_refs.truncate(size)] *)
Definition truncate {A} (size : Z) (l : list A) : list A := if (Z.of_nat (length l) <=? size)%Z then l else take (Z.to_nat size) l.
(** SRC query_runtime/src/private_api.rs:1341-1356 finalize_query_result_hit_refs *)
Definition finalize_query_result_hit_refs (hit_refs : list QueryResultHitRef) (size : Z) (calculate_score : bool) (sorts : list PrivateSearchSortSpec) : list QueryResultHitRef :=
  let hit_refs := trim_query_result_hit_refs hit_refs size calculate_score sorts in
  truncate size
    (match sorts, calculate_score with
     | [], true => sort_by compare_query_result_hit_refs_desc hit_refs
     | [], false => hit_refs
     | _, _ => sort_by (compare_query_result_hit_refs_by_sort sorts) hit_refs
     end).

(** Every row of every batch with the index of its batch, in order. *)
Definition batch_rows (batches : list RecordBatch) : list (nat * RecordBatch * nat) :=
  concat (imap (λ batch_index batch, (λ row_index, (batch_index, batch, row_index)) <$> seq 0 (rb_num_rows batch)) batches).

(** One iteration of the loop. *)
Definition collect_row (size : Z) (calculate_score : bool) (sorts : list PrivateSearchSortSpec) (search_after : option (list Value))
    (hits : list QueryResultHitRef) (hit : QueryResultHitRef) : list QueryResultHitRef :=
  let ranked := match sorts with [] => calculate_score | _ => true end in
  if match search_after with Some marker => negb (bool_decide (compare_hit_ref_to_search_after hit marker sorts = Gt)) | None => false end then hits
  else if negb ranked && (size <=? Z.of_nat (length hits))%Z then hits
  else
    let hits := hits ++ [hit] in
    if ranked && (hit_ref_buffer_limit size calculate_score sorts <? Z.of_nat (length hits))%Z then trim_query_result_hit_refs hits size calculate_score sorts
    else hits.
(** SRC query_runtime/src/private_api.rs:1033-1078 collect_query_result_hit_refs *)
Definition collect_query_result_hit_refs (batches : list RecordBatch) (size : Z) (calculate_score : bool) (sorts : list PrivateSearchSortSpec) (search_after : option (list Value)) : list QueryResultHitRef :=
  let rows := (λ '(batch_index, batch, row_index), query_result_hit_ref_from_batch_row batch_index batch row_index calculate_score sorts) <$> batch_rows batches in
  finalize_query_result_hit_refs (foldl (collect_row size calculate_score sorts search_after) [] rows) size calculate_score sorts.

(** ** Hits *)

(** SRC query_runtime/src/private_api.rs:1247-1250 batch_json_field *)
Definition batch_json_field (batch : RecordBatch) (row_index : nat) (field : string) : option Value :=
  cell ← batch_cell batch row_index field;
  match array_value_to_json cell with Ok value => Some value | _ => None end.

Definition hidden_column (name : string) : bool :=
  starts_with "__powdrr_sort_" name || existsb (String.eqb name) ["_id"; "_version"; "_seq_no"; "_source"; "score"; "term_cnt"; "word_cnt"].

(** The columns that are not hidden, as an object. *)
Fixpoint source_columns (row_index : nat) (source_map : Object) (columns : list (string * list Cell)) : outcome Object :=
  match columns with
  | [] => Ok source_map
  | (name, column) :: columns =>
      if hidden_column name then source_columns row_index source_map columns
      else cell ← unwrap (column !! row_index);
           value ← array_value_to_json cell;
           source_columns row_index (obj_insert name value source_map) columns
  end.
(** SRC query_runtime/src/private_api.rs:1214-1245 batch_source_value *)
Definition batch_source_value (batch : RecordBatch) (row_index : nat) : outcome Value :=
  match batch_json_field batch row_index "_source" with
  | Some (VString source) => map_err (λ error, "Could not parse _source payload: " +:+ error) (json_from_slice source)
  | Some other => Ok other
  | None => source_map ← source_columns row_index [] (rb_columns batch); Ok (VObject source_map)
  end.

(** SRC query_runtime/src/private_api.rs:1141-1163 query_result_hit_from_ref *)
Definition query_result_hit_from_ref (batches : list RecordBatch) (hit_ref : QueryResultHitRef) (index : option string) : outcome QueryResultHit :=
  batch ← unwrap (batches !! hr_batch_index hit_ref);
  source ← batch_source_value batch (hr_row_index hit_ref);
  Ok (mkHit index (hr_id hit_ref) (hr_version hit_ref) (hr_seq_no hit_ref) (hr_score hit_ref) (match hr_id hit_ref with Some _ => Some 1%Z | None => None end) None
        (option_map (map sort_scalar_to_json) (hr_sort hit_ref)) source).

(** SRC query_runtime/src/private_api.rs:1130-1139 query_result_hits_from_refs *)
Definition query_result_hits_from_refs (batches : list RecordBatch) (hit_refs : list QueryResultHitRef) (index : option string) : outcome (list QueryResultHit) :=
  try_collect (λ hit_ref, query_result_hit_from_ref batches hit_ref index) hit_refs.
End hits.
