(* ===== verification/SearchAggs.v ===== *)
(** * Aggregations of a search (query_runtime/src/private_api.rs, search_executor.rs, peers.rs)

    Every peer aggregates the rows it found into partial buckets, which the coordinator
    adds up by key, sorts, cuts and, for date histograms, fills with empty buckets.  A
    reference to a row is its batch and its index there.  [u64] counters and [i64] keys wrap
    around. *)

From S2P Require Import Prelude Text StableSort Json JsonText QueryPath Float ServingExec PeerHits.

(** ** What is asked *)

(** SRC query_runtime/src/peers.rs:150-156 PrivateSearchTermsOrderSpec *)
Inductive PrivateSearchTermsOrderSpec : Type := SpecCountAsc | SpecCountDesc | SpecKeyAsc | SpecKeyDesc.

(** SRC query_runtime/src/peers.rs:158-162 PrivateSearchDateHistogramExtendedBoundsSpec *)
Record ExtendedBoundsSpec : Type := mkBoundsSpec { ebs_min : Value; ebs_max : Value }.

(** SRC query_runtime/src/peers.rs:164-167 PrivateSearchAggregationFilterSpec *)
Inductive PrivateSearchAggregationFilterSpec : Type := FilterSpecTerm (field value : string).

(** SRC query_runtime/src/peers.rs:117-148 PrivateSearchAggregationSpec *)
Inductive PrivateSearchAggregationSpec : Type :=
| PTerms (name field : string) (size : option Z) (order : option PrivateSearchTermsOrderSpec) (missing : option Value) (sub_aggregations : list PrivateSearchAggregationSpec)
| PAverage (name field : string)
| PCardinality (name field : string)
| PDateHistogram (name field fixed_interval : string) (min_doc_count : option Z) (extended_bounds : option ExtendedBoundsSpec) (sub_aggregations : list PrivateSearchAggregationSpec)
| PFilter (name : string) (filter : PrivateSearchAggregationFilterSpec) (sub_aggregations : list PrivateSearchAggregationSpec).

(** Sums that are not finite are none. *)
(** SRC query_runtime/src/peers.rs:169-208= PrivateSearchAggregationPartial, PrivateSearchTermsBucketPartial, PrivateSearchHistogramBucketPartial *)
Inductive PrivateSearchAggregationPartial : Type :=
| RTerms (name : string) (buckets : list PrivateSearchTermsBucketPartial)
| RAverage (name : string) (sum : option f64) (count : Z)
| RCardinality (name : string) (values : list string)
| RDateHistogram (name : string) (buckets : list PrivateSearchHistogramBucketPartial)
| RFilter (name : string) (doc_count : Z) (sub_aggregations : list PrivateSearchAggregationPartial)
with PrivateSearchTermsBucketPartial : Type :=
| mkTermsBucket (key : string) (doc_count : Z) (sub_aggregations : list PrivateSearchAggregationPartial)
with PrivateSearchHistogramBucketPartial : Type :=
| mkHistogramBucket (key : Z) (key_as_string : string) (doc_count : Z) (sub_aggregations : list PrivateSearchAggregationPartial).

(** SRC query_runtime/src/search_executor.rs:1240-1248 typed_aggregation_name *)
Definition typed_aggregation_name (spec : PrivateSearchAggregationSpec) : string :=
  match spec with PTerms name _ _ _ _ _ | PAverage name _ | PCardinality name _ | PDateHistogram name _ _ _ _ _ | PFilter name _ _ => name end.

(** SRC query_runtime/src/search_executor.rs:1344-1352 typed_aggregation_partial_name *)
Definition typed_aggregation_partial_name (partial : PrivateSearchAggregationPartial) : string :=
  match partial with RTerms name _ | RAverage name _ _ | RCardinality name _ | RDateHistogram name _ | RFilter name _ _ => name end.

(** ** Grouping *)

(** The entries of a [BTreeMap] are in the order of its keys. *)
Definition btree_iter `{Countable K} {V} (cmp : K → K → comparison) (m : gmap K V) : list (K * V) := sort_by (λ a b, cmp a.1 b.1) (map_to_list m).

(** [*counts.entry(key).or_default() += 1] for each key. *)
Definition count_keys `{Countable K} (keys : list K) : gmap K Z := foldl (λ m k, <[k := wrap_u64 (default 0%Z (m !! k) + 1)]> m) ∅ keys.

(** [groups.entry(key).or_default().push(row)] for each row with a key. *)
Definition group_rows `{Countable K} {R} (key : R → option K) (rows : list R) : gmap K (list R) :=
  foldl (λ m row, match key row with Some k => <[k := default [] (m !! k) ++ [row]]> m | None => m end) ∅ rows.

Definition terms_order {B} (key : B → string) (doc_count : B → Z) (order : option PrivateSearchTermsOrderSpec) (left right : B) : comparison :=
  match default SpecCountDesc order with
  | SpecCountAsc => then_cmp (doc_count left ?= doc_count right)%Z (String.compare (key left) (key right))
  | SpecCountDesc => then_cmp (doc_count right ?= doc_count left)%Z (String.compare (key left) (key right))
  | SpecKeyAsc => String.compare (key left) (key right)
  | SpecKeyDesc => String.compare (key right) (key left)
  end.

Definition tb_key (b : PrivateSearchTermsBucketPartial) : string := let '(mkTermsBucket key _ _) := b in key.
Definition tb_doc_count (b : PrivateSearchTermsBucketPartial) : Z := let '(mkTermsBucket _ doc_count _) := b in doc_count.

(** SRC query_runtime/src/private_api.rs:2327-2344 compare_terms_bucket_partials *)
Definition compare_terms_bucket_partials (order : option PrivateSearchTermsOrderSpec) : PrivateSearchTermsBucketPartial → PrivateSearchTermsBucketPartial → comparison := terms_order tb_key tb_doc_count order.

(** [interval.split_at(interval.len() - 1)] panics within a character. *)
Definition split_unit (interval : string) : outcome (string * string) :=
  let n := String.length interval - 1 in
  let unit := String.substring n 1 interval in
  if match unit with String a _ => in_range 128 191 a | EmptyString => false end then Panic "byte index is not a char boundary"
  else Ok (String.substring 0 n interval, unit).

Definition unit_millis (unit : string) : option Z :=
  if String.eqb unit "s" then Some 1000%Z
  else if String.eqb unit "m" then Some (60 * 1000)%Z
  else if String.eqb unit "h" then Some (60 * 60 * 1000)%Z
  else if String.eqb unit "d" then Some (24 * 60 * 60 * 1000)%Z
  else if String.eqb unit "w" then Some (7 * 24 * 60 * 60 * 1000)%Z else None.

Definition is_i64 (n : Z) : bool := (- 2 ^ 63 <=? n)%Z && (n <? 2 ^ 63)%Z.
Definition checked_i64 (n : Z) : option Z := if is_i64 n then Some n else None.

(** SRC query_runtime/src/private_api.rs:2300-2315 parse_fixed_interval_millis *)
Definition parse_fixed_interval_millis (interval : string) : outcome (option Z) :=
  if String.length interval <? 2 then Ok None
  else '(value, unit) ← split_unit interval;
       Ok (quantity ← parse_i64 value; multiplier ← unit_millis unit; checked_i64 (quantity * multiplier)).

(** [timestamp - timestamp.rem_euclid(interval)], which panics on an interval of zero. *)
Definition bucket_key (timestamp interval : Z) : outcome Z :=
  if (interval =? 0)%Z then Panic "attempt to calculate the remainder with a divisor of zero"
  else Ok (wrap_i64 (timestamp - timestamp mod Z.abs interval)).

Section peer.
Context `{ch : Chrono, fd : FloatDisplay, fd32 : Float32Display, ho : HashOrder}.

(** SRC query_runtime/src/private_api.rs:1995-1999 BatchRowRef *)
Definition BatchRowRef : Type := RecordBatch * nat.

(** SRC query_runtime/src/private_api.rs:2009-2021 all_batch_rows *)
Definition all_batch_rows (batches : list RecordBatch) : list BatchRowRef := batches ≫= (λ batch, pair batch <$> seq 0 (rb_num_rows batch)).

(** SRC query_runtime/src/private_api.rs:2346-2350 timestamp_millis_to_key_as_string *)
Definition timestamp_millis_to_key_as_string (timestamp_ms : Z) : outcome string := unwrap (millis_to_rfc3339 timestamp_ms).

(** SRC query_runtime/src/private_api.rs:2317-2325 render_missing_term_key *)
Definition render_missing_term_key (value : Value) : option string :=
  match value with
  | VString text => Some text
  | VNumber (PosInt n) | VNumber (NegInt n) => Some (print_int n)
  | VNumber (NFloat f) => Some (display_f64 f)
  | VBool b => Some (if b then "true" else "false")
  | _ => None
  end.

(** SRC query_runtime/src/private_api.rs:2268-2280 row_matches_aggregation_filter_batch_row *)
Definition row_matches_aggregation_filter_batch_row (filter : PrivateSearchAggregationFilterSpec) (row : BatchRowRef) : bool :=
  let '(FilterSpecTerm field value) := filter in
  match extract_term_key_from_batch_row row.1 row.2 field with Some field_value => String.eqb field_value value | None => false end.

(** The term of a row, or the one for rows without the field. *)
Definition row_term (field : string) (missing : option Value) (row : BatchRowRef) : option string :=
  match extract_term_key_from_batch_row row.1 row.2 field with
  | Some key => Some key
  | None => missing ≫= render_missing_term_key
  end.

Definition row_timestamp (field : string) (row : BatchRowRef) : option Z := extract_timestamp_millis_from_batch_row row.1 row.2 field.

(** The rows with a timestamp and their bucket. *)
Definition row_buckets (field : string) (interval_ms : Z) (rows : list BatchRowRef) : outcome (list (Z * BatchRowRef)) :=
  try_collect (λ '(timestamp, row), key ← bucket_key timestamp interval_ms; Ok (key, row)) (omap (λ row, timestamp ← row_timestamp field row; Some (timestamp, row)) rows).

Definition average_step (field : string) (acc : option f64 * Z) (row : BatchRowRef) : option f64 * Z :=
  match extract_numeric_field_from_batch_row row.1 row.2 field with
  | Some value => (acc.1 ≫= (λ sum, f64_add sum value), wrap_u64 (acc.2 + 1))
  | None => acc
  end.

(** SRC query_runtime/src/private_api.rs:2034-2266 compute_search_aggregation_partial *)
Fixpoint compute_search_aggregation_partial (rows : list BatchRowRef) (spec : PrivateSearchAggregationSpec) : outcome PrivateSearchAggregationPartial :=
  match spec with
  | PAverage name field => let '(sum, count) := foldl (average_step field) (Some (mkF64 0 0), 0%Z) rows in Ok (RAverage name sum count)
  | PCardinality name field =>
      Ok (RCardinality name (sort_by String.compare (elements (list_to_set (omap (λ row : BatchRowRef, extract_term_key_from_batch_row row.1 row.2 field) rows) : gset string))))
  | PDateHistogram name field fixed_interval _ _ sub_aggregations =>
      interval ← parse_fixed_interval_millis fixed_interval;
      match interval with
      | None => Ok (RDateHistogram name [])
      | Some interval_ms =>
          keyed ← row_buckets field interval_ms rows;
          match sub_aggregations with
          | [] =>
              buckets ← try_collect (λ '(key, doc_count), text ← timestamp_millis_to_key_as_string key; Ok (mkHistogramBucket key text doc_count [])) (btree_iter Z.compare (count_keys keyed.*1));
              Ok (RDateHistogram name buckets)
          | _ =>
              buckets ← try_collect (λ '(key, bucket_rows),
                  text ← timestamp_millis_to_key_as_string key;
                  partials ← try_collect (compute_search_aggregation_partial bucket_rows.*2) sub_aggregations;
                  Ok (mkHistogramBucket key text (Z.of_nat (length bucket_rows)) partials))
                (btree_iter Z.compare (group_rows (λ row, Some row.1) keyed));
              Ok (RDateHistogram name buckets)
          end
      end
  | PTerms name field _ order missing sub_aggregations =>
      match sub_aggregations with
      | [] =>
          let buckets := (λ '(key, doc_count), mkTermsBucket key doc_count []) <$> hash_iter (count_keys (omap (row_term field missing) rows)) in
          Ok (RTerms name (sort_by (compare_terms_bucket_partials order) buckets))
      | _ =>
          buckets ← try_collect (λ '(key, bucket_rows),
              partials ← try_collect (compute_search_aggregation_partial bucket_rows) sub_aggregations;
              Ok (mkTermsBucket key (Z.of_nat (length bucket_rows)) partials))
            (hash_iter (group_rows (row_term field missing) rows));
          Ok (RTerms name (sort_by (compare_terms_bucket_partials order) buckets))
      end
  | PFilter name filter sub_aggregations =>
      let filtered_rows := List.filter (row_matches_aggregation_filter_batch_row filter) rows in
      match sub_aggregations with
      | [] => Ok (RFilter name (Z.of_nat (length filtered_rows)) [])
      | _ => partials ← try_collect (compute_search_aggregation_partial filtered_rows) sub_aggregations; Ok (RFilter name (Z.of_nat (length filtered_rows)) partials)
      end
  end.

(** SRC query_runtime/src/private_api.rs:2023-2032 compute_search_aggregation_partials *)
Definition compute_search_aggregation_partials (rows : list BatchRowRef) (specs : list PrivateSearchAggregationSpec) : outcome (list PrivateSearchAggregationPartial) :=
  try_collect (compute_search_aggregation_partial rows) specs.

(** SRC query_runtime/src/private_api.rs:2001-2007 compute_search_aggregation_partials_from_batches *)
Definition compute_search_aggregation_partials_from_batches (batches : list RecordBatch) (specs : list PrivateSearchAggregationSpec) : outcome (list PrivateSearchAggregationPartial) :=
  compute_search_aggregation_partials (all_batch_rows batches) specs.
End peer.

(** ** What is answered *)

(** The range buckets of the answers are built on another path. *)
(** SRC query_runtime/src/elastic_search_responses.rs:187-266= AggregationResult, TermAggregationBucket, TermAggregationResult, AverageAggregationResult, FilterAggregationResult, CardinalityAggregationResult, RangeAggregationBucket, HistogramAggregationBucket, HistogramAggregationResult, RangeAggregationResult *)
Inductive AggregationResult : Type :=
| ResAverage (value : option f64) (aggs : gmap string AggregationResult)
| ResCardinality (value : Z) (aggs : gmap string AggregationResult)
| ResFilter (doc_count : Z) (aggs : gmap string AggregationResult)
| ResHistogram (buckets : list HistogramAggregationBucket)
| ResRange (buckets : list RangeAggregationBucket)
| ResTerms (doc_count_error_upper_bound sum_other_doc_count : Z) (buckets : list TermAggregationBucket) (aggs : gmap string AggregationResult)
with TermAggregationBucket : Type :=
| mkTermBucket (key : string) (doc_count : Z) (aggs : gmap string AggregationResult)
with HistogramAggregationBucket : Type :=
| mkHistogram (key : Z) (key_as_string : string) (doc_count : Z) (aggs : gmap string AggregationResult)
with RangeAggregationBucket : Type :=
| mkRangeBucket (key : string) (from : Z) (from_as_string : string) (to : Z) (to_as_string : string) (doc_count : Z) (aggs : gmap string AggregationResult).

Definition term_key (b : TermAggregationBucket) : string := let '(mkTermBucket key _ _) := b in key.
Definition term_doc_count (b : TermAggregationBucket) : Z := let '(mkTermBucket _ doc_count _) := b in doc_count.
Definition histogram_key (b : HistogramAggregationBucket) : Z := let '(mkHistogram key _ _ _) := b in key.

(** SRC query_runtime/src/search_executor.rs:1508-1525 compare_terms_aggregation_buckets *)
Definition compare_terms_aggregation_buckets (order : option PrivateSearchTermsOrderSpec) : TermAggregationBucket → TermAggregationBucket → comparison := terms_order term_key term_doc_count order.

(** SRC query_runtime/src/search_executor.rs:1585-1600 parse_histogram_fixed_interval_millis *)
Definition parse_histogram_fixed_interval_millis (interval : string) : outcome (option Z) :=
  if String.length interval <? 2 then Ok None
  else '(value, unit) ← split_unit interval;
       Ok (quantity ← parse_i64 value; multiplier ← unit_millis unit; checked_i64 (quantity * multiplier)).

Section coordinator.
Context `{ch : Chrono, ho : HashOrder}.

(** SRC query_runtime/src/search_executor.rs:1607-1618 histogram_bound_to_timestamp_millis *)
Definition histogram_bound_to_timestamp_millis (value : Value) : option Z :=
  match as_i64 value with
  | Some timestamp_ms => Some timestamp_ms
  | None =>
      match as_u64 value with
      | Some timestamp_ms => checked_i64 timestamp_ms
      | None => match value with VString timestamp => parse_from_rfc3339 timestamp | _ => None end
      end
  end.

(** SRC query_runtime/src/search_executor.rs:1602-1605 histogram_bound_to_bucket_key *)
Definition histogram_bound_to_bucket_key (value : Value) (interval_ms : Z) : outcome (option Z) :=
  match histogram_bound_to_timestamp_millis value with
  | Some timestamp_ms => key ← bucket_key timestamp_ms interval_ms; Ok (Some key)
  | None => Ok None
  end.

Definition lower_of (a b : option Z) : option Z := match a, b with Some x, Some y => Some (Z.min x y) | Some x, None => Some x | None, o => o end.
Definition upper_of (a b : option Z) : option Z := match a, b with Some x, Some y => Some (Z.max x y) | Some x, None => Some x | None, o => o end.

(** The loop over the keys.  It has as many steps as there are keys up to the end, or, for a
    negative interval, down to the lowest [i64]; with an interval of zero it never ends. *)
Fixpoint fill_loop (fuel : nat) (interval_ms cursor last : Z) (buckets_by_key : gmap Z HistogramAggregationBucket) : outcome (list HistogramAggregationBucket) :=
  match fuel with
  | O => Panic "the loop does not end"
  | S fuel =>
      if (last <? cursor)%Z then Ok []
      else
        bucket ← match buckets_by_key !! cursor with
                 | Some bucket => Ok bucket
                 | None => text ← timestamp_millis_to_key_as_string cursor; Ok (mkHistogram cursor text 0 ∅)
                 end;
        rest ← match checked_i64 (cursor + interval_ms) with
               | Some next_cursor => fill_loop fuel interval_ms next_cursor last (delete cursor buckets_by_key)
               | None => Ok []
               end;
        Ok (bucket :: rest)
  end.
Definition fill_steps (interval_ms start last : Z) : nat :=
  if (0 <? interval_ms)%Z then Z.to_nat (Z.max 0 ((last - start) / interval_ms) + 2) else if (interval_ms <? 0)%Z then Z.to_nat ((start + 2 ^ 63) / - interval_ms + 2) else 1.

(** SRC query_runtime/src/search_executor.rs:1527-1583 fill_empty_histogram_buckets *)
Definition fill_empty_histogram_buckets (buckets : list HistogramAggregationBucket) (fixed_interval : string) (extended_bounds : option ExtendedBoundsSpec) : outcome (list HistogramAggregationBucket) :=
  interval ← parse_histogram_fixed_interval_millis fixed_interval;
  match interval with
  | None => Ok buckets
  | Some interval_ms =>
      match buckets, extended_bounds with
      | [], None => Ok buckets
      | _, _ =>
          let buckets_by_key : gmap Z HistogramAggregationBucket := collect ((λ bucket, (histogram_key bucket, bucket)) <$> buckets) in
          let keys := (btree_iter Z.compare buckets_by_key).*1 in
          extended_start ← match extended_bounds with Some bounds => histogram_bound_to_bucket_key (ebs_min bounds) interval_ms | None => Ok None end;
          extended_end ← match extended_bounds with Some bounds => histogram_bound_to_bucket_key (ebs_max bounds) interval_ms | None => Ok None end;
          match lower_of (head keys) extended_start, upper_of (last keys) extended_end with
          | Some start, Some last => fill_loop (fill_steps interval_ms start last) interval_ms start last buckets_by_key
          | _, _ => Ok []
          end
      end
  end.

(** ** Adding up *)

(** The buckets of one key: the sum of the counts and the partials below, node by node. *)
Definition merge_terms_bucket (m : gmap string (Z * list (list PrivateSearchAggregationPartial))) (bucket : PrivateSearchTermsBucketPartial) : gmap string (Z * list (list PrivateSearchAggregationPartial)) :=
  let '(mkTermsBucket key doc_count sub_aggregations) := bucket in
  let entry := default (0%Z, []) (m !! key) in
  <[key := (wrap_u64 (entry.1 + doc_count), entry.2 ++ [sub_aggregations])]> m.
Definition merge_histogram_bucket (m : gmap Z (string * Z * list (list PrivateSearchAggregationPartial))) (bucket : PrivateSearchHistogramBucketPartial) : gmap Z (string * Z * list (list PrivateSearchAggregationPartial)) :=
  let '(mkHistogramBucket key key_as_string doc_count sub_aggregations) := bucket in
  let '(text, count, subs) := default (key_as_string, 0%Z, []) (m !! key) in
  <[key := (text, wrap_u64 (count + doc_count), subs ++ [sub_aggregations])]> m.

Definition terms_buckets (partial : PrivateSearchAggregationPartial) : list PrivateSearchTermsBucketPartial := match partial with RTerms _ buckets => buckets | _ => [] end.
Definition histogram_buckets (partial : PrivateSearchAggregationPartial) : list PrivateSearchHistogramBucketPartial := match partial with RDateHistogram _ buckets => buckets | _ => [] end.
Definition cardinality_values (partial : PrivateSearchAggregationPartial) : list string := match partial with RCardinality _ values => values | _ => [] end.
Definition filter_subs (partial : PrivateSearchAggregationPartial) : list PrivateSearchAggregationPartial := match partial with RFilter _ _ subs => subs | _ => [] end.

Definition merge_average (acc : option f64 * Z) (partial : PrivateSearchAggregationPartial) : option f64 * Z :=
  match partial with
  | RAverage _ sum count => (total ← acc.1; local ← sum; f64_add total local, wrap_u64 (acc.2 + count))
  | _ => acc
  end.
Definition merge_filter_count (count : Z) (partial : PrivateSearchAggregationPartial) : Z :=
  match partial with RFilter _ doc_count _ => wrap_u64 (count + doc_count) | _ => count end.

(** SRC query_runtime/src/search_executor.rs:1231-1238 partial_for_spec *)
Definition partial_for_spec (spec : PrivateSearchAggregationSpec) (partials : list PrivateSearchAggregationPartial) : option PrivateSearchAggregationPartial :=
  List.find (λ partial, String.eqb (typed_aggregation_partial_name partial) (typed_aggregation_name spec)) partials.

(** SRC query_runtime/src/search_executor.rs:1354-1506 merge_typed_aggregation_partial *)
Fixpoint merge_typed_aggregation_partial (spec : PrivateSearchAggregationSpec) (partials : list PrivateSearchAggregationPartial) : outcome AggregationResult :=
  let merge_subs (sub_aggregations : list PrivateSearchAggregationSpec) (partials_by_node : list (list PrivateSearchAggregationPartial)) : outcome (gmap string AggregationResult) :=
    entries ← try_collect (λ sub, result ← merge_typed_aggregation_partial sub (omap (partial_for_spec sub) partials_by_node); Ok (typed_aggregation_name sub, result)) sub_aggregations;
    Ok (collect entries) in
  match spec with
  | PTerms _ _ size order _ sub_aggregations =>
      let merged_buckets := foldl merge_terms_bucket ∅ (partials ≫= terms_buckets) in
      buckets ← try_collect (λ '(key, (doc_count, sub_partials_by_node)), aggs ← merge_subs sub_aggregations sub_partials_by_node; Ok (mkTermBucket key doc_count aggs)) (hash_iter merged_buckets);
      Ok (ResTerms 0 0 (truncate (default 10%Z size) (sort_by (compare_terms_aggregation_buckets order) buckets)) ∅)
  | PCardinality _ _ => Ok (ResCardinality (Z.of_nat (size (list_to_set (partials ≫= cardinality_values) : gset string))) ∅)
  | PDateHistogram _ _ fixed_interval min_doc_count extended_bounds sub_aggregations =>
      let merged_buckets := foldl merge_histogram_bucket ∅ (partials ≫= histogram_buckets) in
      buckets ← try_collect (λ '(key, (key_as_string, doc_count, sub_partials_by_node)), aggs ← merge_subs sub_aggregations sub_partials_by_node; Ok (mkHistogram key key_as_string doc_count aggs))
                  (btree_iter Z.compare merged_buckets);
      buckets ← if (default 0 min_doc_count =? 0)%Z then fill_empty_histogram_buckets buckets fixed_interval extended_bounds else Ok buckets;
      Ok (ResHistogram buckets)
  | PAverage _ _ =>
      let '(sum, count) := foldl merge_average (Some (mkF64 0 0), 0%Z) partials in
      Ok (ResAverage (if (count =? 0)%Z then Some (mkF64 0 0) else sum ≫= (λ sum, f64_div sum (mkF64 (round53 count) 0))) ∅)
  | PFilter _ _ sub_aggregations =>
      aggs ← merge_subs sub_aggregations (filter_subs <$> partials);
      Ok (ResFilter (foldl merge_filter_count 0%Z partials) aggs)
  end.

(** SRC query_runtime/src/search_executor.rs:1211-1229 merge_typed_aggregation_partials *)
Definition merge_typed_aggregation_partials (partials_by_node : list (list PrivateSearchAggregationPartial)) (specs : list PrivateSearchAggregationSpec) : outcome (gmap string AggregationResult) :=
  entries ← try_collect (λ spec, result ← merge_typed_aggregation_partial spec (omap (partial_for_spec spec) partials_by_node); Ok (typed_aggregation_name spec, result)) specs;
  Ok (collect entries).
End coordinator.
