(* ===== verification/SearchAggTheory.v ===== *)
(** * Aggregating on many peers is aggregating once

    The buckets that the coordinator merges from the partial buckets of the peers are those
    of one aggregation over all their rows, whatever way the rows are spread. *)

From S2P Require Import Prelude Text StableSort Json JsonText QueryPath Float ServingExec PeerHits SearchAggs.

Module SearchAggTheory.

(** ** Counting and grouping *)

Section grouping.
Context `{Countable K}.

Definition occurrences (k : K) (keys : list K) : nat := length (filter (eq k) keys).

Lemma occurrences_cons k k' keys : occurrences k (k' :: keys) = (if decide (k = k') then 1 else 0) + occurrences k keys.
Proof. rw /occurrences filter_cons. by case_decide. Qed.

Lemma occurrences_pos k keys : k ∈ keys ↔ occurrences k keys ≠ 0.
Proof.
  rw /occurrences. split.
  - intros Hk Hz. apply length_zero_iff_nil in Hz. assert (Hf : k ∈ filter (eq k) keys) by by apply list_elem_of_filter. rw Hz in Hf. by apply not_elem_of_nil in Hf.
  - destruct (filter (eq k) keys) as [|x l] eqn:Hf; [done|]. intros _. assert (Hx : x ∈ filter (eq k) keys) by (rw Hf; left). by apply list_elem_of_filter in Hx as [-> ?].
Qed.

Lemma occurrences_le k keys : occurrences k keys ≤ length keys.
Proof. apply length_filter. Qed.

Lemma count_keys_step keys (m : gmap K Z) k : (∀ k, (default 0%Z (m !! k) + Z.of_nat (length keys) < 2 ^ 64)%Z) → (∀ k n, m !! k = Some n → 0 ≤ n)%Z →
  foldl (λ m k, <[k := wrap_u64 (default 0%Z (m !! k) + 1)]> m) m keys !! k
  = if decide (k ∈ keys) then Some (default 0%Z (m !! k) + Z.of_nat (occurrences k keys))%Z else m !! k.
Proof.
  revert m. induction keys as [|k' keys IH]; intros m Hlen Hpos; [done|]. cbn [foldl]. cbn [length] in Hlen.
  assert (Hk' : (0 ≤ default 0 (m !! k'))%Z) by (destruct (m !! k') eqn:Hm; [by apply (Hpos k')|done]).
  assert (Hw : wrap_u64 (default 0%Z (m !! k') + 1) = (default 0 (m !! k') + 1)%Z) by (apply wrap_u64_small; specialize (Hlen k'); lia).
  rw IH.
  - intros k0. destruct (decide (k0 = k')) as [->|Hne]; [rw lookup_insert_eq Hw /=; specialize (Hlen k'); lia|]. rw lookup_insert_ne; [congruence|]. specialize (Hlen k0). lia.
  - intros k0 n. destruct (decide (k0 = k')) as [->|Hne]; [rw lookup_insert_eq Hw; intros [= <-]; lia|]. rw lookup_insert_ne; [congruence|]. apply Hpos.
  - rw occurrences_cons. destruct (decide (k = k')) as [->|Hne].
    + rw lookup_insert_eq Hw /=. rw (decide_True (P:=k' ∈ k' :: keys)); [left|]. case_decide as Hin; [f_equal; lia|]. f_equal. assert (occurrences k' keys = 0) by (destruct (decide (occurrences k' keys = 0)) as [|Hz]; [done|by apply occurrences_pos in Hz]). lia.
    + rw lookup_insert_ne; [congruence|]. destruct (decide (k ∈ keys)) as [Hin|Hin]; [rw decide_True; [by right|done]|]. rw decide_False; [by intros [->|?]%elem_of_cons|done].
Qed.

Lemma count_keys_lookup keys k : (Z.of_nat (length keys) < 2 ^ 64)%Z → count_keys keys !! k = if decide (k ∈ keys) then Some (Z.of_nat (occurrences k keys)) else None.
Proof. intros Hl. rw /count_keys count_keys_step; [intros k0; by rw lookup_empty|intros k0 n; by rw lookup_empty|]. by rw lookup_empty. Qed.

Context {R : Type} (key : R → option K).

(** The rows of a key. *)
Definition rows_of (k : K) (rows : list R) : list R := filter (λ row, key row = Some k) rows.

Lemma rows_of_app k l1 l2 : rows_of k (l1 ++ l2) = rows_of k l1 ++ rows_of k l2.
Proof. apply filter_app. Qed.

Lemma rows_of_concat k (nodes : list (list R)) : rows_of k (concat nodes) = concat (rows_of k <$> nodes).
Proof. induction nodes as [|rows nodes IH]; [done|]. cbn [concat fmap list_fmap]. by rw rows_of_app IH. Qed.

Lemma elem_of_rows_of k rows row : row ∈ rows_of k rows ↔ key row = Some k ∧ row ∈ rows.
Proof. rw /rows_of. by rw list_elem_of_filter. Qed.

Lemma elem_of_keys k rows : k ∈ omap key rows ↔ rows_of k rows ≠ [].
Proof.
  rw list_elem_of_omap. split.
  - intros (row & Hrow & Hk) Hnil. assert (Hin : row ∈ rows_of k rows) by by apply elem_of_rows_of. rw Hnil in Hin. by apply not_elem_of_nil in Hin.
  - destruct (rows_of k rows) as [|row l] eqn:Hr; [done|]. intros _. assert (Hin : row ∈ rows_of k rows) by (rw Hr; left). apply elem_of_rows_of in Hin as [Hk Hin]. by exists row.
Qed.

Lemma rows_of_length k rows : length (rows_of k rows) = occurrences k (omap key rows).
Proof.
  rw /rows_of /occurrences. induction rows as [|row rows IH]; [done|]. rw filter_cons. cbn [omap list_omap]. destruct (key row) as [k'|] eqn:Hk.
  - rw filter_cons. destruct (decide (k = k')) as [->|Hne]; [rw !decide_True //= IH //|]. rw !decide_False //. intros [= ->]; by destruct Hne.
  - exact IH.
Qed.

Lemma group_rows_step rows (m : gmap K (list R)) k :
  foldl (λ m row, match key row with Some k => <[k := default [] (m !! k) ++ [row]]> m | None => m end) m rows !! k
  = match rows_of k rows with [] => m !! k | found => Some (default [] (m !! k) ++ found) end.
Proof.
  revert m. induction rows as [|row rows IH]; intros m; [done|]. cbn [foldl]. rw IH /rows_of filter_cons -/(rows_of k rows). destruct (key row) as [k'|] eqn:Hk.
  - destruct (decide (Some k' = Some k)) as [[= ->]|Hne].
    + rw lookup_insert_eq /=. destruct (rows_of k rows); [done|]. by rw -app_assoc.
    + rw lookup_insert_ne; [congruence|done].
  - done.
Qed.

Lemma group_rows_lookup rows k : group_rows key rows !! k = match rows_of k rows with [] => None | found => Some found end.
Proof. rw /group_rows group_rows_step lookup_empty. by destruct (rows_of k rows). Qed.
End grouping.

Lemma omap_length_le {A B} (f : A → option B) l : length (omap f l) ≤ length l.
Proof. induction l as [|x l IH]; [done|]. cbn. destruct (f x); cbn; lia. Qed.

(** Counting the keys of rows is counting the rows of the groups. *)
Lemma count_keys_groups `{Countable K} {R} (key : R → option K) (rows : list R) : (Z.of_nat (length rows) < 2 ^ 64)%Z →
  count_keys (omap key rows) = (λ found, Z.of_nat (length found)) <$> group_rows key rows.
Proof.
  intros Hl. apply map_eq. intros k. rw lookup_fmap group_rows_lookup count_keys_lookup. { pose proof (omap_length_le key rows). lia. }
  pose proof (elem_of_keys key k rows) as Hk. rw -(rows_of_length key). case_decide as Hin; destruct (rows_of key k rows) eqn:Hr; naive_solver.
Qed.

(** The keys of rows, each once. *)
Definition keys_of `{Countable K} {R} (key : R → option K) (rows : list R) : list K := elements (list_to_set (omap key rows) : gset K).

Lemma elem_of_keys_of `{Countable K} {R} (key : R → option K) k (rows : list R) : k ∈ keys_of key rows ↔ rows_of key k rows ≠ [].
Proof. rw /keys_of elem_of_elements elem_of_list_to_set. apply elem_of_keys. Qed.

Lemma group_rows_entries `{Countable K} {R} (key : R → option K) (rows : list R) : map_to_list (group_rows key rows) ≡ₚ (λ k, (k, rows_of key k rows)) <$> keys_of key rows.
Proof.
  apply NoDup_Permutation; [apply NoDup_map_to_list|apply NoDup_fmap_2; [intros ?? [= ->]; done|apply NoDup_elements]|]. intros [k found].
  rw elem_of_map_to_list group_rows_lookup list_elem_of_fmap. split.
  - destruct (rows_of key k rows) as [|row l] eqn:Hr; [done|]. intros [= <-]. exists k. rw Hr. split; [done|]. apply elem_of_keys_of. by rw Hr.
  - intros (k' & [= -> ->] & Hk%elem_of_keys_of). by destruct (rows_of key k' rows).
Qed.

(** ** Collecting and sorting what comes in any order *)

Lemma try_collect_perm {E A B} (f : A → result E B) l k l' : try_collect f l = Ok l' → l ≡ₚ k → ∃ k', try_collect f k = Ok k' ∧ l' ≡ₚ k'.
Proof.
  rw try_collect_Ok. intros Hl Hp. destruct (Permutation_Forall2 Hp Hl) as (k' & Hk' & Hf). exists k'. by rw try_collect_Ok.
Qed.

Lemma try_collect_fmap {E A B C} (g : C → A) (f : A → result E B) l : try_collect f (g <$> l) = try_collect (f ∘ g) l.
Proof. induction l as [|x l IH]; [done|]. cbn. by rw IH. Qed.

Lemma try_collect_ext {E A B} (f g : A → result E B) l : (∀ x, f x = g x) → try_collect f l = try_collect g l.
Proof. intros Hfg. induction l as [|x l IH]; [done|]. cbn. by rw Hfg IH. Qed.

Lemma try_collect_map_Ok {E A B} (f : A → result E B) (g : A → B) l : (∀ x, x ∈ l → f x = Ok (g x)) → try_collect f l = Ok (g <$> l).
Proof. intros Hf. apply try_collect_Ok_2, Forall2_fmap_r, Forall_Forall2_diag, Forall_forall, Hf. Qed.

(** Sorting by a comparison that tells the elements apart forgets their order. *)
Lemma sort_by_unique {A} (cmp : A → A → comparison) `{!TotalPreorder cmp} l k : l ≡ₚ k → (∀ x y, x ∈ l → y ∈ l → cmp x y = Eq → x = y) → sort_by cmp l = sort_by cmp k.
Proof.
  intros Hp Heq. pose proof (sort_by_in_order cmp l) as Hl. pose proof (sort_by_in_order cmp k) as Hk.
  assert (Hperm : sort_by cmp l ≡ₚ sort_by cmp k) by by rw !sort_by_perm.
  assert (Heq' : ∀ x y, x ∈ sort_by cmp l → y ∈ sort_by cmp l → cmp x y = Eq → x = y) by (intros x y; rw !elem_of_sort_by; apply Heq).
  revert Hl Hk Hperm Heq'. generalize (sort_by cmp l) as a, (sort_by cmp k) as b. clear l k Hp Heq. intros a b Ha. revert b.
  induction Ha as [|x a Ha IH Hx]; intros b Hb Hp Heq; [by apply Permutation_nil_l in Hp|].
  destruct b as [|y b]; [by apply Permutation_nil_r in Hp|]. apply StronglySorted_inv in Hb as [Hb Hy].
  assert (Hyx : y = x).
  { assert (Hya : y ∈ x :: a) by (rw Hp; left). assert (Hxb : x ∈ y :: b) by (rw -Hp; left).
    apply elem_of_cons in Hya as [->|Hya]; [done|]. apply elem_of_cons in Hxb as [->|Hxb]; [done|]. symmetry. apply Heq; [left|by right|].
    rw Forall_forall in Hx. rw Forall_forall in Hy. specialize (Hx y Hya). specialize (Hy x Hxb). rw /cmp_le (cmp_opp x y) in Hy. rw /cmp_le in Hx. by destruct (cmp x y). }
  subst y. f_equal. apply IH; [done|by apply Permutation_cons_inv in Hp|]. intros y z Hy' Hz. apply Heq; by right.
Qed.

Lemma terms_order_total {B} (key : B → string) (doc_count : B → Z) order : TotalPreorder (terms_order key doc_count order).
Proof.
  pose proof (total_on key String.compare string_total) as Hk. pose proof (total_on doc_count Z.compare Z_total) as Hc.
  assert (Hflip : ∀ (c : B → B → comparison), TotalPreorder c → TotalPreorder (λ x y, c y x)).
  { intros c [H1 H2]. split; [intros; apply H1|]. intros x y z Hxy Hyz. by apply (H2 z y x). }
  rw /terms_order. destruct (default SpecCountDesc order); [by apply total_then|apply (total_then (λ x y, doc_count y ?= doc_count x)%Z), Hk|exact Hk|].
  - by apply (Hflip (λ x y, doc_count x ?= doc_count y)%Z).
  - by apply (Hflip (λ x y, String.compare (key x) (key y))).
Qed.

Lemma terms_order_key {B} (key : B → string) (doc_count : B → Z) order x y : terms_order key doc_count order x y = Eq → key x = key y.
Proof.
  rw /terms_order. destruct (default SpecCountDesc order).
  - destruct (doc_count x ?= doc_count y)%Z; [apply String.compare_eq_iff|done..].
  - destruct (doc_count y ?= doc_count x)%Z; [apply String.compare_eq_iff|done..].
  - apply String.compare_eq_iff.
  - intros H. symmetry. by apply String.compare_eq_iff.
Qed.

(** Buckets with distinct keys come out in one order. *)
Lemma sorted_buckets {B} (key : B → string) (doc_count : B → Z) order (l k : list B) : l ≡ₚ k → NoDup (key <$> l) → sort_by (terms_order key doc_count order) l = sort_by (terms_order key doc_count order) k.
Proof.
  intros Hp Hnd. pose proof (terms_order_total key doc_count order). apply sort_by_unique; [done..|]. intros x y Hx Hy Heq%terms_order_key.
  apply list_elem_of_lookup in Hx as [i Hi]. apply list_elem_of_lookup in Hy as [j Hj]. assert (i = j) as ->; [|congruence].
  apply (NoDup_lookup _ _ _ (key x) Hnd); rw list_lookup_fmap; [by rw Hi|by rw Hj Heq].
Qed.

Lemma btree_entries `{Countable K} {V} (cmp : K → K → comparison) `{!TotalPreorder cmp} (m : gmap K V) (f : K → V) keys :
  (∀ x y, cmp x y = Eq → x = y) → NoDup keys → map_to_list m ≡ₚ (λ k, (k, f k)) <$> keys → btree_iter cmp m = (λ k, (k, f k)) <$> sort_by cmp keys.
Proof.
  intros Heq Hnd Hp. rw /btree_iter. pose proof (total_on (fst (A:=K) (B:=V)) cmp _). rw (sort_by_unique _ (map_to_list m) ((λ k, (k, f k)) <$> keys)) //; [|by rw sort_by_fmap].
  intros [x v] [y w]. rw !elem_of_map_to_list. intros Hx Hy Hxy. cbn in Hxy. apply Heq in Hxy as ->. congruence.
Qed.

(** ** One aggregation over all rows *)

Section reference.
Context `{ch : Chrono, fd : FloatDisplay, fd32 : Float32Display, ho : HashOrder}.

(** The bucket of a row in a date histogram. *)
Definition row_bucket (field : string) (interval_ms : Z) (row : BatchRowRef) : option Z :=
  timestamp ← row_timestamp field row;
  match bucket_key timestamp interval_ms with Ok key => Some key | _ => None end.

Fixpoint aggregate (rows : list BatchRowRef) (spec : PrivateSearchAggregationSpec) : outcome AggregationResult :=
  let aggregate_subs (found : list BatchRowRef) (subs : list PrivateSearchAggregationSpec) : outcome (gmap string AggregationResult) :=
    entries ← try_collect (λ sub, result ← aggregate found sub; Ok (typed_aggregation_name sub, result)) subs;
    Ok (collect entries) in
  match spec with
  | PTerms _ field size order missing subs =>
      buckets ← try_collect (λ key,
          let found := rows_of (row_term field missing) key rows in
          aggs ← aggregate_subs found subs;
          Ok (mkTermBucket key (Z.of_nat (length found)) aggs)) (keys_of (row_term field missing) rows);
      Ok (ResTerms 0 0 (truncate (default 10%Z size) (sort_by (compare_terms_aggregation_buckets order) buckets)) ∅)
  | PCardinality _ field => Ok (ResCardinality (Z.of_nat (length (keys_of (λ row : BatchRowRef, extract_term_key_from_batch_row row.1 row.2 field) rows))) ∅)
  | PDateHistogram _ field fixed_interval min_doc_count extended_bounds subs =>
      interval ← parse_fixed_interval_millis fixed_interval;
      buckets ← match interval with
                | None => Ok []
                | Some interval_ms =>
                    _ ← row_buckets field interval_ms rows;
                    try_collect (λ key,
                        let found := rows_of (row_bucket field interval_ms) key rows in
                        text ← timestamp_millis_to_key_as_string key;
                        aggs ← aggregate_subs found subs;
                        Ok (mkHistogram key text (Z.of_nat (length found)) aggs)) (sort_by Z.compare (keys_of (row_bucket field interval_ms) rows))
                end;
      buckets ← if (default 0 min_doc_count =? 0)%Z then fill_empty_histogram_buckets buckets fixed_interval extended_bounds else Ok buckets;
      Ok (ResHistogram buckets)
  | PAverage _ field =>
      let '(sum, count) := foldl (average_step field) (Some (mkF64 0 0), 0%Z) rows in
      Ok (ResAverage (if (count =? 0)%Z then Some (mkF64 0 0) else sum ≫= (λ sum, f64_div sum (mkF64 (round53 count) 0))) ∅)
  | PFilter _ filter subs =>
      let found := List.filter (row_matches_aggregation_filter_batch_row filter) rows in
      aggs ← aggregate_subs found subs;
      Ok (ResFilter (Z.of_nat (length found)) aggs)
  end.

Definition aggregate_all (rows : list BatchRowRef) (specs : list PrivateSearchAggregationSpec) : outcome (gmap string AggregationResult) :=
  entries ← try_collect (λ spec, result ← aggregate rows spec; Ok (typed_aggregation_name spec, result)) specs;
  Ok (collect entries).

(** ** The partial buckets of one peer *)

Definition terms_bucket (subs : list PrivateSearchAggregationSpec) (key : string) (found : list BatchRowRef) : outcome PrivateSearchTermsBucketPartial :=
  partials ← compute_search_aggregation_partials found subs;
  Ok (mkTermsBucket key (Z.of_nat (length found)) partials).

Lemma terms_bucket_key subs key found b : terms_bucket subs key found = Ok b → tb_key b = key.
Proof. rw /terms_bucket. intros H. invert_ok. done. Qed.

Lemma collected_keys {A B K} (f : A → outcome B) (bkey : B → K) (key : A → K) l bs : (∀ a b, f a = Ok b → bkey b = key a) → try_collect f l = Ok bs → bkey <$> bs = key <$> l.
Proof. intros Hk Hf%try_collect_Ok. induction Hf as [|a b l bs Hab _ IH]; [done|]. cbn. by rw (Hk a b Hab) IH. Qed.

(** Both ways of counting give the buckets of the keys. *)
Lemma compute_terms rows name field size order missing subs p : (Z.of_nat (length rows) < 2 ^ 64)%Z →
  compute_search_aggregation_partial rows (PTerms name field size order missing subs) = Ok p ↔
  ∃ buckets, try_collect (λ key, terms_bucket subs key (rows_of (row_term field missing) key rows)) (keys_of (row_term field missing) rows) = Ok buckets ∧
    p = RTerms name (sort_by (compare_terms_bucket_partials order) buckets).
Proof.
  intros Hl. set (key := row_term field missing). set (f := λ k, terms_bucket subs k (rows_of key k rows)).
  assert (Hgroups : ∀ buckets, try_collect (λ '(k, found), terms_bucket subs k found) (hash_iter (group_rows key rows)) = Ok buckets → ∃ buckets', try_collect f (keys_of key rows) = Ok buckets' ∧ buckets ≡ₚ buckets').
  { intros buckets Hb. destruct (try_collect_perm _ _ ((λ k, (k, rows_of key k rows)) <$> keys_of key rows) _ Hb) as (bs & Hbs & Hp); [by rw hash_iter_perm group_rows_entries|].
    exists bs. by rw try_collect_fmap in Hbs. }
  assert (Hkeys : ∀ buckets', try_collect f (keys_of key rows) = Ok buckets' → NoDup (tb_key <$> buckets')).
  { intros buckets' Hb. rw (collected_keys f tb_key id _ _ _ Hb) ?list_fmap_id; [intros a b; apply terms_bucket_key|]. apply NoDup_elements. }
  assert (Hback : ∀ buckets', try_collect f (keys_of key rows) = Ok buckets' → ∃ buckets, try_collect (λ '(k, found), terms_bucket subs k found) (hash_iter (group_rows key rows)) = Ok buckets ∧ buckets' ≡ₚ buckets).
  { intros buckets' Hb. apply (try_collect_perm _ ((λ k, (k, rows_of key k rows)) <$> keys_of key rows)); [by rw try_collect_fmap|]. by rw hash_iter_perm group_rows_entries. }
  destruct subs as [|sub subs].
  - cbn [compute_search_aggregation_partial]. assert (Hf : try_collect f (keys_of key rows) = Ok ((λ k, mkTermsBucket k (Z.of_nat (length (rows_of key k rows))) []) <$> keys_of key rows)) by by apply try_collect_map_Ok.
    rw Hf. pose proof (Hkeys _ Hf) as Hnd. rw (sorted_buckets tb_key tb_doc_count order _ ((λ k, mkTermsBucket k (Z.of_nat (length (rows_of key k rows))) []) <$> keys_of key rows)); [| |naive_solver].
    + rw hash_iter_perm (count_keys_groups key rows Hl) map_to_list_fmap group_rows_entries -!list_fmap_compose. done.
    + rw hash_iter_perm (count_keys_groups key rows Hl) map_to_list_fmap group_rows_entries. rw -!list_fmap_compose in Hnd |- *. exact Hnd.
  - cbn [compute_search_aggregation_partial]. split.
    + intros H. apply bind_Ok_inv in H as (buckets & Hb & [= <-]). destruct (Hgroups buckets Hb) as (bs & Hbs & Hp). exists bs. split; [done|]. f_equal.
      apply sorted_buckets; [done|]. rw Hp. by apply Hkeys.
    + intros (bs & Hbs & ->). destruct (Hback bs Hbs) as (buckets & Hb & Hp). change (mbind (λ buckets, Ok (RTerms name (sort_by (compare_terms_bucket_partials order) buckets))) (try_collect (λ '(k, found), terms_bucket (sub :: subs) k found) (hash_iter (group_rows key rows))) = Ok (RTerms name (sort_by (compare_terms_bucket_partials order) bs))). rw Hb /=. do 2 f_equal. symmetry. apply sorted_buckets; [done|by apply Hkeys].
Qed.
(** Rows paired with their bucket. *)
Lemma row_buckets_Ok field interval_ms rows keyed : row_buckets field interval_ms rows = Ok keyed → keyed = omap (λ row, key ← row_bucket field interval_ms row; Some (key, row)) rows.
Proof.
  rw /row_buckets /row_bucket. revert keyed. induction rows as [|row rows IH]; intros keyed; cbn [omap list_omap]; [by intros [= <-]|].
  destruct (row_timestamp field row) as [timestamp|]; [|apply IH]. cbn. destruct (bucket_key timestamp interval_ms) as [key| |]; [|done..]. cbn.
  intros H. apply bind_Ok_inv in H as (rest & Hr & [= <-]). f_equal. by apply IH.
Qed.

Section keyed.
Context {K R : Type} `{Countable K} (key : R → option K).
Let keyed (rows : list R) : list (K * R) := omap (λ row, k ← key row; Some (k, row)) rows.

Lemma keyed_keys rows : omap (λ kr : K * R, Some kr.1) (keyed rows) = omap key rows.
Proof. rw /keyed. induction rows as [|row rows IH]; [done|]. cbn. destruct (key row); cbn; by rw IH. Qed.

Lemma keyed_firsts rows : (keyed rows).*1 = omap key rows.
Proof. rw /keyed. induction rows as [|row rows IH]; [done|]. cbn. destruct (key row); cbn; by rw IH. Qed.

Lemma keyed_rows k rows : rows_of (λ kr : K * R, Some kr.1) k (keyed rows) = pair k <$> rows_of key k rows.
Proof.
  rw /keyed /rows_of. induction rows as [|row rows IH]; [done|]. rw filter_cons. cbn [omap list_omap]. destruct (key row) as [k'|] eqn:Hk; cbn [mbind option_bind]; [|exact IH].
  rw filter_cons. cbn [fst]. destruct (decide (Some k' = Some k)) as [[= ->]|Hne]; [|exact IH]. cbn [fmap list_fmap]. f_equal. exact IH.
Qed.
End keyed.

Definition histogram_bucket (subs : list PrivateSearchAggregationSpec) (key : Z) (found : list BatchRowRef) : outcome PrivateSearchHistogramBucketPartial :=
  text ← timestamp_millis_to_key_as_string key;
  partials ← compute_search_aggregation_partials found subs;
  Ok (mkHistogramBucket key text (Z.of_nat (length found)) partials).

Lemma Z_compare_Eq x y : (x ?= y)%Z = Eq → x = y.
Proof. apply Z.compare_eq. Qed.

Lemma compute_histogram rows name field fixed_interval min_doc_count extended_bounds subs interval_ms keyed : (Z.of_nat (length rows) < 2 ^ 64)%Z →
  parse_fixed_interval_millis fixed_interval = Ok (Some interval_ms) → row_buckets field interval_ms rows = Ok keyed →
  compute_search_aggregation_partial rows (PDateHistogram name field fixed_interval min_doc_count extended_bounds subs) =
  (buckets ← try_collect (λ key, histogram_bucket subs key (rows_of (row_bucket field interval_ms) key rows)) (sort_by Z.compare (keys_of (row_bucket field interval_ms) rows));
   Ok (RDateHistogram name buckets)).
Proof.
  intros Hl Hi Hk. set (key := row_bucket field interval_ms). pose proof (row_buckets_Ok _ _ _ _ Hk) as Hkeyed. destruct subs as [|sub subs].
  - cbn [compute_search_aggregation_partial]. rw Hi bind_Ok. cbv beta iota. rw Hk bind_Ok Hkeyed keyed_firsts.
    rw (btree_entries Z.compare _ (λ k, Z.of_nat (length (rows_of key k rows))) (keys_of key rows)); [apply Z_compare_Eq|apply NoDup_elements| |].
    + rw (count_keys_groups key rows Hl) map_to_list_fmap group_rows_entries -!list_fmap_compose. done.
    + rw try_collect_fmap. done.
  - cbn [compute_search_aggregation_partial]. rw Hi bind_Ok. cbv beta iota. rw Hk bind_Ok Hkeyed.
    rw (btree_entries Z.compare _ (λ k, pair k <$> rows_of key k rows) (keys_of key rows)); [apply Z_compare_Eq|apply NoDup_elements| |].
    + rw group_rows_entries /keys_of keyed_keys. erewrite list_fmap_ext; [done|]. intros ? k _. cbn. by rw keyed_rows.
    + rw try_collect_fmap. erewrite try_collect_ext; [done|]. intros k. cbn. rw -list_fmap_compose list_fmap_id length_fmap. done.
Qed.
(** ** The buckets of a key on all peers *)

Fixpoint total (counts : list Z) : Z := match counts with [] => 0%Z | c :: counts => (c + total counts)%Z end.

Lemma count_total_app a b : total (a ++ b) = (total a + total b)%Z.
Proof. induction a as [|x a IH]; cbn; [done|]. rw IH. lia. Qed.

(** Peers without rows for a key add nothing to its rows. *)
Lemma concat_nonempty {A} (l : list (list A)) : concat (filter (λ x, x ≠ []) l) = concat l.
Proof. induction l as [|x l IH]; [done|]. rw filter_cons. destruct x as [|y x]; case_decide as Hx; [done|exact IH|cbn [concat]; by rw IH|done]. Qed.

Lemma rows_of_nodes {K} `{Countable K} (key : BatchRowRef → option K) k nodes :
  concat (rows_of key k <$> filter (λ rows, rows_of key k rows ≠ []) nodes) = rows_of key k (concat nodes).
Proof.
  rw rows_of_concat -(concat_nonempty (rows_of key k <$> nodes)). f_equal. induction nodes as [|rows nodes IH]; [done|].
  cbn [fmap list_fmap]. rw !filter_cons. destruct (decide (rows_of key k rows ≠ [])) as [Hr|Hr]; [|exact IH]. cbn [fmap list_fmap]. by rw IH.
Qed.

Section nodes.
Context {K B : Type} `{Countable K} (bkey : B → K) (bucket : K → list BatchRowRef → outcome B) (key : BatchRowRef → option K).
Hypothesis bucket_has_key : ∀ k found b, bucket k found = Ok b → bkey b = k.

(** The buckets of the keys of one peer, in some order. *)
Definition node_buckets (rows : list BatchRowRef) (bs : list B) : Prop :=
  ∃ keys buckets, keys ≡ₚ keys_of key rows ∧ try_collect (λ k, bucket k (rows_of key k rows)) keys = Ok buckets ∧ bs ≡ₚ buckets.

Lemma one_bucket k (f : K → outcome B) keys bs : (∀ k b, f k = Ok b → bkey b = k) → NoDup keys → try_collect f keys = Ok bs →
  ((k ∉ keys) ∧ filter (λ b, bkey b = k) bs = []) ∨ (k ∈ keys ∧ ∃ b, f k = Ok b ∧ filter (λ b, bkey b = k) bs = [b]).
Proof.
  intros Hf Hnd Hbs%try_collect_Ok. revert Hnd. induction Hbs as [|k' b keys bs Hb _ IH]; intros Hnd; [left; split; [apply not_elem_of_nil|done]|].
  apply NoDup_cons in Hnd as [Hk' Hnd]. specialize (IH Hnd). rw filter_cons. destruct (decide (bkey b = k)) as [<-|Hne].
  - pose proof (Hf k' b Hb) as Hkb. right. rw Hkb in IH |- *. split; [left|]. exists b. split; [done|]. f_equal. by destruct IH as [[_ ->]|[Hin _]].
  - destruct IH as [[Hin Hnil]|(Hin & b' & Hb' & Hone)].
    + left. split; [|done]. intros [->|?]%elem_of_cons; [|done]. apply Hne. by apply Hf.
    + right. split; [by right|]. by exists b'.
Qed.

Lemma node_bucket rows bs k : node_buckets rows bs →
  (rows_of key k rows = [] ∧ filter (λ b, bkey b = k) bs = []) ∨ (rows_of key k rows ≠ [] ∧ ∃ b, bucket k (rows_of key k rows) = Ok b ∧ filter (λ b, bkey b = k) bs = [b]).
Proof.
  intros (keys & buckets & Hkeys & Hb & Hp). assert (Hnd : NoDup keys) by (rw Hkeys; apply NoDup_elements).
  destruct (one_bucket k (λ k, bucket k (rows_of key k rows)) keys buckets) as [[Hin Hf]|(Hin & b & Hbk & Hf)]; [intros k' b; apply bucket_has_key|done|done| |].
  - left. rw Hkeys in Hin. split; [destruct (decide (rows_of key k rows = [])) as [|Hne]; [done|by apply elem_of_keys_of in Hne]|]. apply Permutation_nil_r. by rw Hp Hf.
  - right. rw Hkeys elem_of_keys_of in Hin. split; [done|]. exists b. split; [done|]. apply Permutation_singleton_r. by rw Hp Hf.
Qed.

Lemma nodes_buckets k nodes bss : Forall2 node_buckets nodes bss →
  Forall2 (λ rows b, bucket k (rows_of key k rows) = Ok b) (filter (λ rows, rows_of key k rows ≠ []) nodes) (filter (λ b, bkey b = k) (concat bss)).
Proof.
  induction 1 as [|rows bs nodes bss Hb _ IH]; [constructor|]. cbn [concat]. rw filter_cons filter_app. destruct (node_bucket rows bs k Hb) as [[Hr ->]|(Hr & b & Hbk & ->)].
  - rw decide_False; [by intros Hne|done].
  - rw decide_True; [done|]. by constructor.
Qed.
Context (bcount : B → Z) (bsubs : B → list PrivateSearchAggregationPartial) (subs : list PrivateSearchAggregationSpec).
Hypothesis bucket_counts : ∀ k found b, bucket k found = Ok b → bcount b = Z.of_nat (length found).
Hypothesis bucket_subs : ∀ k found b, bucket k found = Ok b → compute_search_aggregation_partials found subs = Ok (bsubs b).

Lemma counts_nonneg nodes bss : Forall2 node_buckets nodes bss → Forall (λ b, 0 ≤ bcount b)%Z (concat bss).
Proof.
  induction 1 as [|rows bs nodes bss (keys & buckets & _ & Hb & Hp) _ IH]; [constructor|]. cbn [concat]. apply Forall_app. split; [|exact IH]. rw Hp. clear Hp. apply try_collect_Ok in Hb.
  induction Hb as [|k b keys buckets Hkb _ IHb]; constructor; [rw (bucket_counts _ _ _ Hkb); lia|exact IHb].
Qed.

Lemma group_sizes keys rows : NoDup keys → (total ((λ k, Z.of_nat (length (rows_of key k rows))) <$> keys) ≤ Z.of_nat (length rows))%Z.
Proof.
  intros Hnd. induction rows as [|row rows IH].
  { induction keys as [|k keys IHk]; cbn [fmap list_fmap total]; [done|]. apply NoDup_cons in Hnd as [_ Hnd]. specialize (IHk Hnd). cbn in *. lia. }
  enough (total ((λ k, Z.of_nat (length (rows_of key k (row :: rows)))) <$> keys) ≤ 1 + total ((λ k, Z.of_nat (length (rows_of key k rows))) <$> keys)
    ∧ ((∀ k, k ∈ keys → key row ≠ Some k) → total ((λ k, Z.of_nat (length (rows_of key k (row :: rows)))) <$> keys) = total ((λ k, Z.of_nat (length (rows_of key k rows))) <$> keys)))%Z as [H1 _] by (cbn [length]; lia).
  clear IH. induction keys as [|k keys IHk]; cbn [fmap list_fmap total]; [done|]. apply NoDup_cons in Hnd as [Hk Hnd]. destruct (IHk Hnd) as [H1 H2].
  assert (Hrow : rows_of key k (row :: rows) = if decide (key row = Some k) then row :: rows_of key k rows else rows_of key k rows) by (rw {1}/rows_of filter_cons; done). rw Hrow. case_decide as Hd.
  - assert (Hother : ∀ k', k' ∈ keys → key row ≠ Some k') by (intros k' Hk' Heq; rw Hd in Heq; by injection Heq as ->). rw (H2 Hother). cbn [length]. split; [lia|]. intros Hno. by destruct (Hno k (list_elem_of_here _ _)).
  - split; [lia|]. intros Hno. rw H2; [intros k' Hk'; apply Hno; by right|done].
Qed.

Lemma counts_total nodes bss : Forall2 node_buckets nodes bss → (total (bcount <$> concat bss) ≤ Z.of_nat (length (concat nodes)))%Z.
Proof.
  induction 1 as [|rows bs nodes bss (keys & buckets & Hkeys & Hb & Hp) _ IH]; [done|]. cbn [concat]. rw fmap_app count_total_app length_app. assert (Hnd : NoDup keys) by (rw Hkeys; apply NoDup_elements).
  assert (Hperm : ∀ l l' : list Z, l ≡ₚ l' → total l = total l') by (induction 1; cbn [total]; lia). rw (Hperm (bcount <$> bs) (bcount <$> buckets)); [by rw Hp|].
  assert (Hc : bcount <$> buckets = (λ k, Z.of_nat (length (rows_of key k rows))) <$> keys).
  { apply try_collect_Ok in Hb. clear Hkeys Hnd Hp. induction Hb as [|k b keys buckets Hkb _ IHb]; [done|]. cbn. by rw (bucket_counts _ _ _ Hkb) IHb. }
  rw Hc. pose proof (group_sizes keys rows Hnd). lia.
Qed.

(** What the peers know of a key together. *)
Lemma key_entry k nodes bss : Forall2 node_buckets nodes bss → let found := filter (λ b, bkey b = k) (concat bss) in
  (found = [] ↔ rows_of key k (concat nodes) = []) ∧ total (bcount <$> found) = Z.of_nat (length (rows_of key k (concat nodes))) ∧
  ∃ parts, concat parts = rows_of key k (concat nodes) ∧ Forall2 (λ rows ps, compute_search_aggregation_partials rows subs = Ok ps) parts (bsubs <$> found).
Proof.
  intros Hb found. pose proof (nodes_buckets k nodes bss Hb) as Hf. rw -/found in Hf. rw -(rows_of_nodes key k nodes). set (mine := filter (λ rows, rows_of key k rows ≠ []) nodes) in *.
  assert (Hne : Forall (λ rows, rows_of key k rows ≠ []) mine) by (apply Forall_forall; intros rows; rw /mine; by intros [? _]%list_elem_of_filter). clearbody mine found. clear Hb. induction Hf as [|rows b mine found Hbk _ IH].
  - split_and!; [done|done|]. exists []. by split.
  - apply Forall_cons in Hne as [Hr Hne]. destruct (IH Hne) as (_ & Ht & parts & Hp & Hps). cbn [fmap list_fmap concat total]. split_and!.
    + split; [done|]. intros [? _]%app_nil. done.
    + rw (bucket_counts _ _ _ Hbk) length_app Ht. lia.
    + exists (rows_of key k rows :: parts). cbn [concat]. rw Hp. split; [done|]. constructor; [by apply (bucket_subs k)|exact Hps].
Qed.
End nodes.

Definition tb_subs (b : PrivateSearchTermsBucketPartial) : list PrivateSearchAggregationPartial := let '(mkTermsBucket _ _ subs) := b in subs.
Definition hb_key (b : PrivateSearchHistogramBucketPartial) : Z := let '(mkHistogramBucket key _ _ _) := b in key.
Definition hb_text (b : PrivateSearchHistogramBucketPartial) : string := let '(mkHistogramBucket _ text _ _) := b in text.
Definition hb_doc_count (b : PrivateSearchHistogramBucketPartial) : Z := let '(mkHistogramBucket _ _ doc_count _) := b in doc_count.
Definition hb_subs (b : PrivateSearchHistogramBucketPartial) : list PrivateSearchAggregationPartial := let '(mkHistogramBucket _ _ _ subs) := b in subs.

Lemma merge_terms_fold bs m k : Forall (λ b, 0 ≤ tb_doc_count b)%Z bs → (∀ k, 0 ≤ (default (0%Z, []) (m !! k)).1 ∧ (default (0%Z, []) (m !! k)).1 + total (tb_doc_count <$> bs) < 2 ^ 64)%Z →
  foldl merge_terms_bucket m bs !! k = match filter (λ b, tb_key b = k) bs with
    | [] => m !! k
    | found => Some ((default (0%Z, []) (m !! k)).1 + total (tb_doc_count <$> found), (default (0%Z, []) (m !! k)).2 ++ (tb_subs <$> found))%Z
    end.
Proof.
  intros Hpos. revert m. induction Hpos as [|[k' c ss] bs Hc Hpos IH]; intros m Hm; [done|]. cbn [foldl]. cbn in Hc, Hm.
  assert (Hbs : (0 ≤ total (tb_doc_count <$> bs))%Z) by (clear -Hpos; induction Hpos; cbn; lia).
  assert (Hw : wrap_u64 ((default (0%Z, []) (m !! k')).1 + c) = ((default (0%Z, []) (m !! k')).1 + c)%Z) by (apply wrap_u64_small; specialize (Hm k'); lia).
  rw IH; clear IH.
  - intros k0. rw /merge_terms_bucket. destruct (decide (k0 = k')) as [->|Hne]; [rw lookup_insert_eq Hw /=; specialize (Hm k'); lia|]. rw lookup_insert_ne; [congruence|]. specialize (Hm k0). lia.
  - rw filter_cons. cbn [tb_key merge_terms_bucket]. destruct (decide (k' = k)) as [->|Hne].
    + rw lookup_insert_eq Hw. cbn [default from_option fst snd]. rw fmap_cons. destruct (filter (λ b, tb_key b = k) bs) as [|b found]; cbn [tb_subs fmap list_fmap total tb_doc_count]; [f_equal; f_equal; lia|].
      f_equal. f_equal; [cbn; lia|by rw -app_assoc].
    + rw lookup_insert_ne //.
Qed.
Definition hist_count (e : option (string * Z * list (list PrivateSearchAggregationPartial))) : Z := match e with Some (_, c, _) => c | None => 0%Z end.

Lemma merge_histogram_fold bs m k : Forall (λ b, 0 ≤ hb_doc_count b)%Z bs → (∀ k, 0 ≤ hist_count (m !! k) ∧ hist_count (m !! k) + total (hb_doc_count <$> bs) < 2 ^ 64)%Z →
  foldl merge_histogram_bucket m bs !! k = match filter (λ b, hb_key b = k) bs with
    | [] => m !! k
    | b :: found => Some (from_option (λ e, e.1.1) (hb_text b) (m !! k), hist_count (m !! k) + total (hb_doc_count <$> b :: found), from_option snd [] (m !! k) ++ (hb_subs <$> b :: found))%Z
    end.
Proof.
  intros Hpos. revert m. induction Hpos as [|[k' text c ss] bs Hc Hpos IH]; intros m Hm; [done|]. cbn [foldl]. cbn in Hc, Hm.
  assert (Hbs : (0 ≤ total (hb_doc_count <$> bs))%Z) by (clear -Hpos; induction Hpos; cbn; lia).
  assert (Hstep : ∃ t, merge_histogram_bucket m (mkHistogramBucket k' text c ss) = <[k' := (t, hist_count (m !! k') + c, from_option snd [] (m !! k') ++ [ss])%Z]> m ∧ t = from_option (λ e, e.1.1) text (m !! k')).
  { assert (Hw : wrap_u64 (hist_count (m !! k') + c) = (hist_count (m !! k') + c)%Z) by (apply wrap_u64_small; specialize (Hm k'); lia).
    rw /merge_histogram_bucket. destruct (m !! k') as [[[t0 c0] s0]|]; cbn in Hw |- *; rw Hw; by eexists. }
  destruct Hstep as (t & -> & Ht). rw IH; clear IH.
  - intros k0. destruct (decide (k0 = k')) as [->|Hne]; [rw lookup_insert_eq /=; specialize (Hm k'); lia|]. rw lookup_insert_ne; [congruence|]. specialize (Hm k0). lia.
  - rw filter_cons. cbn [hb_key]. destruct (decide (k' = k)) as [->|Hne].
    + rw lookup_insert_eq. cbn [from_option fst snd hist_count]. rw Ht !fmap_cons. destruct (filter (λ b, hb_key b = k) bs) as [|b found]; cbn [hb_text hb_subs fmap list_fmap total hb_doc_count]; [f_equal; f_equal; f_equal; lia|].
      rw -app_assoc. f_equal. f_equal. f_equal. lia.
    + rw lookup_insert_ne //.
Qed.

(** ** Names *)

Lemma compute_name rows spec p : compute_search_aggregation_partial rows spec = Ok p → typed_aggregation_partial_name p = typed_aggregation_name spec.
Proof.
  destruct spec as [name field size order missing subs|name field|name field|name field fixed min bounds subs|name filter subs]; cbn.
  - destruct subs; intros H; invert_ok; done.
  - destruct (foldl _ _ _). by intros [= <-].
  - by intros [= <-].
  - intros H. apply bind_Ok_inv in H as ([interval|] & _ & H); [|by injection H as <-]. apply bind_Ok_inv in H as (keyed & _ & H). destruct subs; invert_ok; done.
  - destruct subs; intros H; invert_ok; done.
Qed.

Lemma partial_found rows subs ps sub p : NoDup (typed_aggregation_name <$> subs) → compute_search_aggregation_partials rows subs = Ok ps → sub ∈ subs → compute_search_aggregation_partial rows sub = Ok p →
  partial_for_spec sub ps = Some p.
Proof.
  rw /compute_search_aggregation_partials /partial_for_spec try_collect_Ok. intros Hnd Hps. revert Hnd. induction Hps as [|s q subs ps Hq _ IH]; intros Hnd Hin Hp; [by apply not_elem_of_nil in Hin|].
  cbn [fmap list_fmap] in Hnd. apply NoDup_cons in Hnd as [Hs Hnd]. pose proof (compute_name _ _ _ Hq) as Hname. cbn [List.find]. apply elem_of_cons in Hin as [->|Hin].
  - rw Hname String.eqb_refl. congruence.
  - rw Hname. destruct (String.eqb_spec (typed_aggregation_name s) (typed_aggregation_name sub)) as [Heq|_]; [|by apply IH].
    destruct Hs. rw Heq. by apply list_elem_of_fmap_2.
Qed.

(** Names are told apart at every level. *)
Inductive well_named : PrivateSearchAggregationSpec → Prop :=
| named_terms name field size order missing subs : NoDup (typed_aggregation_name <$> subs) → Forall well_named subs → well_named (PTerms name field size order missing subs)
| named_average name field : well_named (PAverage name field)
| named_cardinality name field : well_named (PCardinality name field)
| named_histogram name field fixed_interval min_doc_count bounds subs : NoDup (typed_aggregation_name <$> subs) → Forall well_named subs → well_named (PDateHistogram name field fixed_interval min_doc_count bounds subs)
| named_filter name filter subs : NoDup (typed_aggregation_name <$> subs) → Forall well_named subs → well_named (PFilter name filter subs).

(** Induction through the aggregations below. *)
Lemma spec_ind (P : PrivateSearchAggregationSpec → Prop) :
  (∀ name field size order missing subs, Forall P subs → P (PTerms name field size order missing subs)) → (∀ name field, P (PAverage name field)) → (∀ name field, P (PCardinality name field)) →
  (∀ name field fixed_interval min_doc_count bounds subs, Forall P subs → P (PDateHistogram name field fixed_interval min_doc_count bounds subs)) →
  (∀ name filter subs, Forall P subs → P (PFilter name filter subs)) → ∀ spec, P spec.
Proof.
  intros H1 H2 H3 H4 H5. fix IH 1. intros [? ? ? ? ? subs|? ?|? ?|? ? ? ? ? subs|? ? subs]; [apply H1|apply H2|apply H3|apply H4|apply H5]; induction subs as [|sub subs IHs]; constructor; auto.
Qed.
(** ** Averages of integers are exact *)

Definition is_int (f : f64) (n : Z) : Prop := (0 ≤ exponent f ∧ mantissa f * 2 ^ exponent f = n)%Z.

Lemma odd_part k b k' b' : (0 ≤ k → 0 ≤ k' → 2 ^ k * (2 * b + 1) = 2 ^ k' * (2 * b' + 1) → k = k')%Z.
Proof.
  assert (Hlt : ∀ k b k' b', (0 ≤ k → k < k' → 2 ^ k * (2 * b + 1) = 2 ^ k' * (2 * b' + 1) → False)%Z).
  { intros x c x' c' Hx Hlt Heq. replace x' with (x + (1 + (x' - x - 1)))%Z in Heq by lia. rw (Z.pow_add_r _ x) ?(Z.pow_add_r _ 1) in Heq; [lia..|].
    assert (H2 : (2 ^ x ≠ 0)%Z) by (apply Z.pow_nonzero; lia). rw -!Z.mul_assoc in Heq. apply Z.mul_reg_l in Heq; [|done]. change (2 ^ 1)%Z with 2%Z in Heq. lia. }
  intros Hk Hk' Heq. destruct (Z.lt_trichotomy k k') as [H1|[H1|H1]]; [|done|]; exfalso; [by apply (Hlt k b k' b')|by apply (Hlt k' b' k b)].
Qed.

(** The exponent of a number that is not zero: how often two divides it. *)
Lemma norm_parts n : n ≠ 0%Z → ∃ k b, (0 ≤ k)%Z ∧ (Z.abs n = 2 ^ k * (2 * b + 1))%Z ∧ ∀ e, f64_norm n e = mkF64 (n / 2 ^ k) (e + k).
Proof.
  intros Hn. assert (∃ p, Z.abs n = Z.pos p) as [p Hp] by (destruct n; [done|by eexists..]). destruct (lowest_bit p) as (k & b & Hk & Hb & Hl).
  exists k, b. split; [done|]. split; [lia|]. intros e. rw /f64_norm. destruct (Z.eqb_spec n 0); [done|]. by rw Hp Hl Z.log2_pow2.
Qed.

Lemma div_exact n k b : (0 ≤ k → Z.abs n = 2 ^ k * (2 * b + 1) → n / 2 ^ k * 2 ^ k = n)%Z.
Proof.
  intros Hk Hn. assert (H2 : (2 ^ k ≠ 0)%Z) by (apply Z.pow_nonzero; lia). assert (Hd : (n = Z.sgn n * (2 * b + 1) * 2 ^ k)%Z) by lia. rw {1}Hd Z.div_mul; [done|lia].
Qed.

Lemma norm_is_int n : is_int (f64_norm n 0) n.
Proof.
  destruct (decide (n = 0)%Z) as [->|Hn]; [done|]. destruct (norm_parts n Hn) as (k & b & Hk & Hb & Heq). rw Heq /is_int /=. split; [lia|]. rw Z.add_0_l. by apply (div_exact n k b).
Qed.

Lemma norm_shift m e : (0 ≤ e)%Z → f64_norm m e = f64_norm (m * 2 ^ e) 0.
Proof.
  intros He. destruct (decide (m = 0)%Z) as [->|Hm]; [done|]. assert (H2 : (0 < 2 ^ e)%Z) by (apply Z.pow_pos_nonneg; lia).
  destruct (norm_parts m Hm) as (k & b & Hk & Hb & Heq). destruct (norm_parts (m * 2 ^ e)) as (k' & b' & Hk' & Hb' & Heq'); [nia|].
  assert (k' = k + e)%Z as ->. { apply (odd_part k' b' (k + e) b); [done|lia|]. rw Z.pow_add_r // -Hb' Z.abs_mul Hb (Z.abs_eq (2 ^ e)); lia. }
  rw Heq Heq' Z.pow_add_r // Z.div_mul_cancel_r; [apply Z.pow_nonzero; lia|lia|]. f_equal. lia.
Qed.

Lemma add_ints x y a b : is_int x a → is_int y b → small_int (a + b) → f64_add x y = Some (f64_norm (a + b) 0).
Proof.
  intros [Hx <-] [Hy <-] Hs. rw /f64_add. set (e := Z.min (exponent x) (exponent y)). assert (He : (0 ≤ e)%Z) by lia. assert (H2 : (0 < 2 ^ e)%Z) by (apply Z.pow_pos_nonneg; lia).
  set (S := (mantissa x * 2 ^ (exponent x - e) + mantissa y * 2 ^ (exponent y - e))%Z).
  assert (HS : (S * 2 ^ e = mantissa x * 2 ^ exponent x + mantissa y * 2 ^ exponent y)%Z).
  { rw /S Z.mul_add_distr_r -!Z.mul_assoc -!Z.pow_add_r; [lia..|]. by rw !Z.sub_add. }
  rw -HS in Hs |- *. rw /small_int Z.abs_mul (Z.abs_eq (2 ^ e)) in Hs; [lia|]. rw round53_exact; [nia|]. rw /f64_finite norm_shift //.
  destruct (Z.leb_spec (2 ^ (1024 + 1074)) (Z.abs S * 2 ^ (e + 1074))) as [Hle|_]; [exfalso|done]. revert Hle. apply Z.lt_nge.
  rw Z.pow_add_r; [lia..|]. rw Z.mul_assoc. eapply Z.le_lt_trans; [apply Z.mul_le_mono_nonneg_r; [apply Z.pow_nonneg; lia|exact Hs]|]. rw -Z.pow_add_r; [lia..|]. apply Z.pow_lt_mono_r; lia.
Qed.

Definition row_int (field : string) (row : BatchRowRef) : Z := match extract_numeric_field_from_batch_row row.1 row.2 field with Some f => (mantissa f * 2 ^ exponent f)%Z | None => 0%Z end.
Definition numbers (field : string) (rows : list BatchRowRef) : nat := length (omap (λ row : BatchRowRef, extract_numeric_field_from_batch_row row.1 row.2 field) rows).

(** A column of integers whose absolute values add up to no more than [2 ^ 53]. *)
Definition exact_column (field : string) (rows : list BatchRowRef) : Prop :=
  (∀ row f, row ∈ rows → extract_numeric_field_from_batch_row row.1 row.2 field = Some f → (0 ≤ exponent f)%Z) ∧ (total ((λ row, Z.abs (row_int field row)) <$> rows) ≤ 2 ^ 53)%Z.

Lemma total_abs (f : BatchRowRef → Z) rows : (Z.abs (total (f <$> rows)) ≤ total ((λ row, Z.abs (f row)) <$> rows))%Z.
Proof. induction rows as [|row rows IH]; cbn [fmap list_fmap total]; [done|lia]. Qed.

Lemma average_fold field rows a c : (∀ row f, row ∈ rows → extract_numeric_field_from_batch_row row.1 row.2 field = Some f → (0 ≤ exponent f)%Z) →
  (Z.abs a + total ((λ row, Z.abs (row_int field row)) <$> rows) ≤ 2 ^ 53)%Z → (0 ≤ c ∧ c + Z.of_nat (length rows) < 2 ^ 64)%Z →
  foldl (average_step field) (Some (f64_norm a 0), c) rows = (Some (f64_norm (a + total (row_int field <$> rows)) 0), c + Z.of_nat (numbers field rows))%Z.
Proof.
  revert a c. induction rows as [|row rows IH]; intros a c He Ha Hc; [cbn; by rw !Z.add_0_r|]. cbn [fmap list_fmap total length foldl] in *.
  assert (He' : ∀ row f, row ∈ rows → extract_numeric_field_from_batch_row row.1 row.2 field = Some f → (0 ≤ exponent f)%Z) by (intros row' f Hr; apply He; by right).
  assert (Hstep : average_step field (Some (f64_norm a 0), c) row = (Some (f64_norm (a + row_int field row) 0), c + Z.of_nat (numbers field [row]))%Z).
  { pose proof (total_abs (row_int field) rows) as Ht. revert Ha. rw /average_step /numbers /row_int. cbn [omap list_omap]. destruct (extract_numeric_field_from_batch_row row.1 row.2 field) as [f|] eqn:Hf; [|cbn; by rw !Z.add_0_r].
    intros Ha. cbn [fst snd mbind option_bind length]. assert (Hin : row ∈ row :: rows) by left. specialize (He row f Hin Hf).
    rw (add_ints _ f a (mantissa f * 2 ^ exponent f)); [apply norm_is_int|done|rw /small_int; rw /row_int in Ht; lia|]. by rw wrap_u64_small; [lia|]. }
  assert (Hn : numbers field (row :: rows) = numbers field [row] + numbers field rows) by (rw /numbers; cbn; by destruct (extract_numeric_field_from_batch_row row.1 row.2 field)).
  assert (Hle : numbers field [row] ≤ 1) by apply (omap_length_le _ [row]). rw Hstep IH; [done|lia|lia|]. rw Hn. f_equal; [f_equal; f_equal; lia|lia].
Qed.
(** The fields that are averaged, at every level. *)
Fixpoint average_fields (spec : PrivateSearchAggregationSpec) : list string :=
  match spec with
  | PAverage _ field => [field]
  | PCardinality _ _ => []
  | PTerms _ _ _ _ _ subs | PDateHistogram _ _ _ _ _ subs | PFilter _ _ subs => concat (map average_fields subs)
  end.

Definition exact_averages (rows : list BatchRowRef) (specs : list PrivateSearchAggregationSpec) : Prop :=
  ∀ field, field ∈ concat (map average_fields specs) → exact_column field rows.

Lemma total_part rows rows' (f : BatchRowRef → Z) : (∀ row, 0 ≤ f row)%Z → rows' ⊆+ rows → (total (f <$> rows') ≤ total (f <$> rows))%Z.
Proof.
  intros Hf. induction 1 as [|x a b _ IH|x y a|x a b _ IH|a b c _ IH1 _ IH2]; cbn [fmap list_fmap total]; [done|lia|lia| |lia]. specialize (Hf x). lia.
Qed.

Lemma exact_part field rows rows' : rows' ⊆+ rows → exact_column field rows → exact_column field rows'.
Proof.
  intros Hsub [He Ht]. split; [|eapply Z.le_trans; [apply (total_part rows); [intros; apply Z.abs_nonneg|done]|exact Ht]].
  intros row f Hin. apply He. destruct (submseteq_Permutation _ _ Hsub) as [k ->]. apply elem_of_app. by left.
Qed.

Lemma part_of_nodes {A} (rows : list A) nodes : rows ∈ nodes → rows ⊆+ concat nodes.
Proof.
  induction nodes as [|x nodes IH]; intros Hin; [by apply not_elem_of_nil in Hin|]. cbn. apply elem_of_cons in Hin as [->|Hin]; [by apply submseteq_inserts_r|]. by apply submseteq_inserts_l, IH.
Qed.

Lemma rows_of_part {K} `{Countable K} (key : BatchRowRef → option K) k rows rows' : rows' ⊆+ rows → rows_of key k rows' ⊆+ rows_of key k rows.
Proof. intros [l Hp]%submseteq_Permutation. rw /rows_of Hp filter_app. by apply submseteq_inserts_r. Qed.

Lemma filter_part {A} (p : A → bool) rows rows' : rows' ⊆+ rows → List.filter p rows' ⊆+ List.filter p rows.
Proof. intros [l Hp]%submseteq_Permutation. rw (bool_filter_perm p _ _ Hp) List.filter_app. by apply submseteq_inserts_r. Qed.

Lemma rows_of_self {K} `{Countable K} (key : BatchRowRef → option K) k rows : rows_of key k rows ⊆+ rows.
Proof. rw /rows_of. induction rows as [|row rows IH]; [done|]. rw filter_cons. case_decide; [by apply submseteq_skip|by apply submseteq_cons]. Qed.

Lemma filter_self {A} (p : A → bool) (rows : list A) : List.filter p rows ⊆+ rows.
Proof. induction rows as [|row rows IH]; [done|]. cbn. destruct (p row); [by apply submseteq_skip|by apply submseteq_cons]. Qed.

Lemma part_length {A} (rows rows' : list A) : rows' ⊆+ rows → (Z.of_nat (length rows) < 2 ^ 64)%Z → (Z.of_nat (length rows') < 2 ^ 64)%Z.
Proof. intros Hsub%submseteq_length. lia. Qed.

(** ** Every peer can aggregate a part of what can be aggregated *)

Lemma aggregate_all_elem rows subs m : aggregate_all rows subs = Ok m → ∀ sub, sub ∈ subs → ∃ r, aggregate rows sub = Ok r.
Proof.
  rw /aggregate_all. intros H sub Hin. apply bind_Ok_inv in H as (entries & He%try_collect_Ok & _). clear m.
  induction He as [|s e subs entries Hs _ IH]; [by apply not_elem_of_nil in Hin|]. apply elem_of_cons in Hin as [->|Hin]; [|by apply IH]. apply bind_Ok_inv in Hs as (r & Hr & _). by exists r.
Qed.

Definition computes_parts (spec : PrivateSearchAggregationSpec) : Prop := ∀ rows rows' r, (Z.of_nat (length rows) < 2 ^ 64)%Z → rows' ⊆+ rows → aggregate rows spec = Ok r →
  ∃ p, compute_search_aggregation_partial rows' spec = Ok p.

Lemma computes_subs subs rows rows' m : Forall computes_parts subs → (Z.of_nat (length rows) < 2 ^ 64)%Z → rows' ⊆+ rows → aggregate_all rows subs = Ok m → ∃ ps, compute_search_aggregation_partials rows' subs = Ok ps.
Proof.
  intros Hs Hl Hsub Hm. apply try_collect_all. intros sub Hin. destruct (aggregate_all_elem _ _ _ Hm sub Hin) as [r Hr]. rw Forall_forall in Hs. by apply (Hs sub Hin rows rows' r).
Qed.

Lemma keys_of_part {K} `{Countable K} (key : BatchRowRef → option K) k rows rows' : rows' ⊆+ rows → k ∈ keys_of key rows' → k ∈ keys_of key rows.
Proof. rw !elem_of_keys_of. intros Hsub Hk Hn. apply Hk. pose proof (rows_of_part key k _ _ Hsub) as Hp. rw Hn in Hp. by apply submseteq_nil_r in Hp. Qed.

Lemma row_buckets_part field interval_ms rows rows' keyed : rows' ⊆+ rows → row_buckets field interval_ms rows = Ok keyed → ∃ keyed', row_buckets field interval_ms rows' = Ok keyed'.
Proof.
  intros [l Hp]%submseteq_Permutation Hk. rw /row_buckets in Hk |- *. apply try_collect_all. intros [timestamp row] Hin.
  eapply try_collect_perm in Hk as (k' & Hk' & _); [|by rw Hp]. apply try_collect_Ok in Hk'. rw omap_app in Hk'. apply Forall2_app_inv_l in Hk' as (k1 & k2 & Hk1 & _ & _).
  apply list_elem_of_lookup in Hin as [i Hi]. destruct (Forall2_lookup_l _ _ _ _ _ Hk1 Hi) as (b & _ & Hb). by exists b.
Qed.

Lemma computed spec : computes_parts spec.
Proof.
  induction spec as [name field size order missing subs IH|name field|name field|name field fixed_interval min_doc_count bounds subs IH|name filter subs IH] using spec_ind; intros rows rows' r Hl Hsub Hr.
  - cbn [aggregate] in Hr. apply bind_Ok_inv in Hr as (buckets & Hb & _). apply try_collect_Ok in Hb. set (key := row_term field missing) in *.
    destruct (try_collect_all (λ k, terms_bucket subs k (rows_of key k rows')) (keys_of key rows')) as [bs Hbs].
    { intros k Hk. apply (keys_of_part key k _ _ Hsub) in Hk. apply list_elem_of_lookup in Hk as [i Hi]. destruct (Forall2_lookup_l _ _ _ _ _ Hb Hi) as (b & _ & Hbk).
      apply bind_Ok_inv in Hbk as (aggs & Ha & _). destruct (computes_subs subs (rows_of key k rows) (rows_of key k rows') aggs) as [ps Hps]; [done|by eapply part_length; [apply rows_of_self|]|by apply rows_of_part|exact Ha|].
      rw /terms_bucket Hps. by eexists. }
    eexists. apply compute_terms; [by apply (part_length rows)|]. exists bs. split; [exact Hbs|done].
  - cbn. destruct (foldl _ _ _). by eexists.
  - by eexists.
  - cbn [aggregate] in Hr. apply bind_Ok_inv in Hr as (interval & Hi & Hr). apply bind_Ok_inv in Hr as (buckets & Hb & _). destruct interval as [interval_ms|]; [|cbn; rw Hi; by eexists].
    apply bind_Ok_inv in Hb as (keyed & Hk & Hb). apply try_collect_Ok in Hb. set (key := row_bucket field interval_ms) in *. destruct (row_buckets_part _ _ _ _ _ Hsub Hk) as [keyed' Hk'].
    rw (compute_histogram rows' name field fixed_interval min_doc_count bounds subs interval_ms keyed') //; [by apply (part_length rows)|].
    destruct (try_collect_all (λ k, histogram_bucket subs k (rows_of key k rows')) (sort_by Z.compare (keys_of key rows'))) as [bs Hbs]; [|rw Hbs; by eexists].
    intros k. rw elem_of_sort_by. intros Hk1. apply (keys_of_part key k _ _ Hsub) in Hk1. rw -(elem_of_sort_by Z.compare) in Hk1. apply list_elem_of_lookup in Hk1 as [i Hi1]. destruct (Forall2_lookup_l _ _ _ _ _ Hb Hi1) as (b & _ & Hbk).
    apply bind_Ok_inv in Hbk as (text & Ht & Hbk). apply bind_Ok_inv in Hbk as (aggs & Ha & _). destruct (computes_subs subs (rows_of key k rows) (rows_of key k rows') aggs) as [ps Hps]; [done|by eapply part_length; [apply rows_of_self|]|by apply rows_of_part|exact Ha|].
    rw /histogram_bucket Ht Hps. by eexists.
  - cbn [aggregate] in Hr. apply bind_Ok_inv in Hr as (aggs & Ha & _). cbn [compute_search_aggregation_partial]. destruct subs as [|sub subs]; [by eexists|].
    destruct (computes_subs (sub :: subs) (List.filter (row_matches_aggregation_filter_batch_row filter) rows) (List.filter (row_matches_aggregation_filter_batch_row filter) rows') aggs) as [ps Hps]; [done|by eapply part_length; [apply filter_self|]|by apply filter_part|exact Ha|].
    rw /compute_search_aggregation_partials in Hps. rw Hps. by eexists.
Qed.
(** ** Merging *)

Lemma try_collect_mono {E A B} (f g : A → result E B) l bs : try_collect f l = Ok bs → (∀ a b, a ∈ l → f a = Ok b → g a = Ok b) → try_collect g l = Ok bs.
Proof.
  rw !try_collect_Ok. intros Hf Hfg. induction Hf as [|a b l bs Hab _ IH]; constructor; [apply Hfg; [left|done]|]. apply IH. intros a' b' Hin. apply Hfg. by right.
Qed.

Lemma list_bind_concat {A B} (f : A → list B) l : l ≫= f = concat (f <$> l).
Proof. induction l as [|x l IH]; [done|]. cbn. by rw IH. Qed.

Lemma entries_by_keys {K V} `{Countable K} (m : gmap K V) (f : K → V) keys : NoDup keys → (∀ k, k ∈ keys ↔ is_Some (m !! k)) → (∀ k v, m !! k = Some v → f k = v) →
  map_to_list m ≡ₚ (λ k, (k, f k)) <$> keys.
Proof.
  intros Hnd Hk Hf. apply NoDup_Permutation; [apply NoDup_map_to_list|apply NoDup_fmap_2; [intros ?? [= ->]; done|done]|]. intros [k v]. rw elem_of_map_to_list list_elem_of_fmap. split.
  - intros Hm. exists k. rw (Hf k v Hm). split; [done|]. apply (Hk k). by exists v.
  - intros (k' & [= -> ->] & [v' Hv]%Hk). by rw Hv (Hf _ _ Hv).
Qed.

Definition merges (spec : PrivateSearchAggregationSpec) : Prop := well_named spec → ∀ nodes partials r, (Z.of_nat (length (concat nodes)) < 2 ^ 64)%Z → exact_averages (concat nodes) [spec] →
  Forall2 (λ rows p, compute_search_aggregation_partial rows spec = Ok p) nodes partials → aggregate (concat nodes) spec = Ok r → merge_typed_aggregation_partial spec partials = Ok r.

Lemma column_of_partials subs nodes pbn sub : NoDup (typed_aggregation_name <$> subs) → Forall2 (λ rows ps, compute_search_aggregation_partials rows subs = Ok ps) nodes pbn → sub ∈ subs →
  Forall2 (λ rows p, compute_search_aggregation_partial rows sub = Ok p) nodes (omap (partial_for_spec sub) pbn).
Proof.
  intros Hnd Hps Hin. induction Hps as [|rows ps nodes pbn Hrow _ IH]; [constructor|]. cbn [omap list_omap].
  assert (∃ p, compute_search_aggregation_partial rows sub = Ok p) as [p Hp].
  { rw /compute_search_aggregation_partials in Hrow. apply try_collect_Ok in Hrow. apply list_elem_of_lookup in Hin as [i Hi]. destruct (Forall2_lookup_l _ _ _ _ _ Hrow Hi) as (p & _ & Hp). by exists p. }
  rw (partial_found rows subs ps sub p) //. by constructor.
Qed.

Lemma merges_subs subs nodes pbn m : Forall merges subs → Forall well_named subs → NoDup (typed_aggregation_name <$> subs) → (Z.of_nat (length (concat nodes)) < 2 ^ 64)%Z → exact_averages (concat nodes) subs →
  Forall2 (λ rows ps, compute_search_aggregation_partials rows subs = Ok ps) nodes pbn → aggregate_all (concat nodes) subs = Ok m → merge_typed_aggregation_partials pbn subs = Ok m.
Proof.
  intros Hmerge Hwell Hnd Hl Hex Hps Hm. rw /aggregate_all in Hm. rw /merge_typed_aggregation_partials. apply bind_Ok_inv in Hm as (entries & He & [= <-]).
  erewrite (try_collect_mono _ _ _ _ He); [done|]. intros sub e Hin Hsub. apply bind_Ok_inv in Hsub as (r & Hr & [= <-]). rw Forall_forall in Hmerge. rw Forall_forall in Hwell.
  rw (Hmerge sub Hin (Hwell sub Hin) nodes _ r) //; [|by apply (column_of_partials subs)]. intros field Hf. apply Hex. cbn [map concat] in Hf. rw app_nil_r in Hf.
  apply list_elem_of_In, in_concat. exists (average_fields sub). split; [by apply in_map, list_elem_of_In|by apply list_elem_of_In].
Qed.

Lemma exact_subs rows rows' spec subs : concat (map average_fields [spec]) = concat (map average_fields subs) → rows' ⊆+ rows → exact_averages rows [spec] → exact_averages rows' subs.
Proof. intros Heq Hsub Hex field Hf. apply (exact_part field rows); [done|]. apply Hex. by rw Heq. Qed.

Lemma merge_terms name field size order missing subs : Forall merges subs → merges (PTerms name field size order missing subs).
Proof.
  intros IH Hwell nodes partials r Hl Hex Hps Hr. set (key := row_term field missing) in *. inversion Hwell as [? ? ? ? ? ? Hnd Hsubs| | | |]; subst. cbn [aggregate] in Hr. apply bind_Ok_inv in Hr as (rb & Hrb & [= <-]).
  set (bss := terms_buckets <$> partials).
  assert (Hb : Forall2 (node_buckets (terms_bucket subs) key) nodes bss).
  { rw /bss. apply Forall2_fmap_r. assert (Hlen : ∀ rows, rows ∈ nodes → (Z.of_nat (length rows) < 2 ^ 64)%Z) by (intros rows Hin; apply (part_length (concat nodes)); [by apply part_of_nodes|done]).
    clear -Hps Hlen. induction Hps as [|rows p nodes partials Hp _ IH]; constructor; [|apply IH; intros; apply Hlen; by right].
    apply compute_terms in Hp as (buckets & Hb & ->); [|apply Hlen; left]. exists (keys_of key rows), buckets. split_and!; [done|done|]. cbn. by rw sort_by_perm. }
  assert (Hcount : ∀ k found b, terms_bucket subs k found = Ok b → tb_doc_count b = Z.of_nat (length found)) by (intros k found b; rw /terms_bucket; intros H; invert_ok; done).
  assert (Hsub : ∀ k found b, terms_bucket subs k found = Ok b → compute_search_aggregation_partials found subs = Ok (tb_subs b)) by (intros k found b; rw /terms_bucket; intros H; invert_ok; done).
  pose proof (λ k, key_entry tb_key (terms_bucket subs) key (terms_bucket_key subs) tb_doc_count tb_subs subs Hcount Hsub k nodes bss Hb) as Hentry. cbn [merge_typed_aggregation_partial]. rw list_bind_concat -/bss. set (m := foldl merge_terms_bucket ∅ (concat bss)).
  assert (Hlook : ∀ k, m !! k = match filter (λ b, tb_key b = k) (concat bss) with [] => None | found => Some (total (tb_doc_count <$> found), tb_subs <$> found) end).
  { intros k. rw /m merge_terms_fold; [by apply (counts_nonneg (terms_bucket subs) key tb_doc_count Hcount nodes)| |].
    - intros k0. rw lookup_empty. cbn. pose proof (counts_total (terms_bucket subs) key tb_doc_count Hcount nodes bss Hb). lia.
    - rw lookup_empty. cbn. by destruct (filter _ _). }
  set (f := λ k, default (0%Z, []) (m !! k)).
  assert (Hperm : map_to_list m ≡ₚ (λ k, (k, f k)) <$> keys_of key (concat nodes)).
  { apply entries_by_keys; [apply NoDup_elements| |intros k v; rw /f; by intros ->]. intros k. rw elem_of_keys_of Hlook. destruct (Hentry k) as (Hnil & _). destruct (filter _ (concat bss)); [|naive_solver]. split; [intros Hne; by destruct Hne; apply Hnil|by intros [? ?]]. }
  set (F := λ '(key0, (doc_count, sub_partials_by_node)), aggs ← merge_typed_aggregation_partials sub_partials_by_node subs; Ok (mkTermBucket key0 doc_count aggs)).
  assert (HF : try_collect F ((λ k, (k, f k)) <$> keys_of key (concat nodes)) = Ok rb).
  { rw try_collect_fmap. apply (try_collect_mono _ _ _ _ Hrb). intros k b Hk Hkb. cbn in Hkb |- *. apply bind_Ok_inv in Hkb as (aggs & Ha & [= <-]). rw elem_of_keys_of in Hk.
    destruct (Hentry k) as (Hnil & Ht & parts & Hparts & Hpp). rw /f Hlook. destruct (filter _ (concat bss)) as [|b found]; [by destruct Hk; apply Hnil|]. cbn [default from_option id]. rw /F. cbv beta iota.
    rw (merges_subs subs parts _ aggs) ?Hparts //; [by apply (part_length (concat nodes)); [apply rows_of_self|]|eapply exact_subs; [|apply rows_of_self|exact Hex]; cbn [map concat average_fields]; by rw app_nil_r|].
    by rw bind_Ok Ht. }
  destruct (try_collect_perm F _ (hash_iter m) _ HF) as (bs & Hbs & Hpb); [by rw hash_iter_perm Hperm|].
  change (mbind (λ buckets, Ok (ResTerms 0 0 (truncate (default 10%Z size) (sort_by (compare_terms_aggregation_buckets order) buckets)) ∅)) (try_collect F (hash_iter m)) = Ok (ResTerms 0 0 (truncate (default 10%Z size) (sort_by (compare_terms_aggregation_buckets order) rb)) ∅)).
  rw Hbs. cbn [mbind outcome_bind]. do 3 f_equal. symmetry. apply sorted_buckets; [done|].
  assert (Hkeys : term_key <$> rb = keys_of key (concat nodes)); [|rw Hkeys; apply NoDup_elements].
  rw (collected_keys _ term_key id _ _ _ Hrb) ?list_fmap_id //. intros k b Hkb. apply bind_Ok_inv in Hkb as (aggs & _ & [= <-]). done.
Qed.
Lemma histogram_bucket_key subs k found b : histogram_bucket subs k found = Ok b → hb_key b = k.
Proof. rw /histogram_bucket. intros H. invert_ok. done. Qed.

Lemma histogram_nodes name field fixed_interval min_doc_count bounds subs interval_ms nodes partials : (Z.of_nat (length (concat nodes)) < 2 ^ 64)%Z → parse_fixed_interval_millis fixed_interval = Ok (Some interval_ms) →
  Forall2 (λ rows p, compute_search_aggregation_partial rows (PDateHistogram name field fixed_interval min_doc_count bounds subs) = Ok p) nodes partials →
  Forall2 (node_buckets (histogram_bucket subs) (row_bucket field interval_ms)) nodes (histogram_buckets <$> partials).
Proof.
  intros Hl Hi Hps. apply Forall2_fmap_r. assert (Hlen : ∀ rows, rows ∈ nodes → (Z.of_nat (length rows) < 2 ^ 64)%Z) by (intros rows Hin; apply (part_length (concat nodes)); [by apply part_of_nodes|done]).
  clear -Hps Hlen Hi. induction Hps as [|rows p nodes partials Hp _ IH]; constructor; [|apply IH; intros; apply Hlen; by right].
  assert (∃ keyed, row_buckets field interval_ms rows = Ok keyed) as [keyed Hk]. { cbn [compute_search_aggregation_partial] in Hp. rw Hi bind_Ok in Hp. apply bind_Ok_inv in Hp as (keyed & Hk & _). by exists keyed. }
  rw (compute_histogram rows name field fixed_interval min_doc_count bounds subs interval_ms keyed) in Hp; [apply Hlen; left|done|done|]. apply bind_Ok_inv in Hp as (buckets & Hb & [= <-]).
  exists (sort_by Z.compare (keys_of (row_bucket field interval_ms) rows)), buckets. split_and!; [by rw sort_by_perm|done|done].
Qed.

Lemma merge_histogram name field fixed_interval min_doc_count bounds subs : Forall merges subs → merges (PDateHistogram name field fixed_interval min_doc_count bounds subs).
Proof.
  intros IH Hwell nodes partials r Hl Hex Hps Hr. inversion Hwell as [| | |? ? ? ? ? ? Hnd Hsubs|]; subst. cbn [aggregate] in Hr. apply bind_Ok_inv in Hr as (interval & Hi & Hr). apply bind_Ok_inv in Hr as (rb & Hrb & Hr).
  cbn [merge_typed_aggregation_partial]. rw list_bind_concat. set (bss := histogram_buckets <$> partials). set (m := foldl merge_histogram_bucket ∅ (concat bss)).
  set (F := λ '(key0, (key_as_string, doc_count, sub_partials_by_node)), aggs ← merge_typed_aggregation_partials sub_partials_by_node subs; Ok (mkHistogram key0 key_as_string doc_count aggs)).
  change (mbind (λ buckets, mbind (λ buckets, Ok (ResHistogram buckets)) (if (default 0 min_doc_count =? 0)%Z then fill_empty_histogram_buckets buckets fixed_interval bounds else Ok buckets)) (try_collect F (btree_iter Z.compare m)) = Ok r).
  enough (HF : try_collect F (btree_iter Z.compare m) = Ok rb) by by rw HF. destruct interval as [interval_ms|].
  2: { injection Hrb as <-. assert (Hnil : concat bss = []). { rw /bss. clear -Hps Hi. induction Hps as [|rows p nodes partials Hp _ IHp]; [done|]. cbn [compute_search_aggregation_partial] in Hp. rw Hi bind_Ok in Hp. injection Hp as <-. exact IHp. }
    rw /m Hnil. done. }
  apply bind_Ok_inv in Hrb as (keyed & _ & Hrb). set (key := row_bucket field interval_ms) in *. pose proof (histogram_nodes _ _ _ _ _ _ _ _ _ Hl Hi Hps) as Hb. rw -/bss -/key in Hb.
  assert (Hcount : ∀ k found b, histogram_bucket subs k found = Ok b → hb_doc_count b = Z.of_nat (length found)) by (intros k found b; rw /histogram_bucket; intros H; invert_ok; done).
  assert (Hsub : ∀ k found b, histogram_bucket subs k found = Ok b → compute_search_aggregation_partials found subs = Ok (hb_subs b)) by (intros k found b; rw /histogram_bucket; intros H; invert_ok; done).
  pose proof (λ k, key_entry hb_key (histogram_bucket subs) key (histogram_bucket_key subs) hb_doc_count hb_subs subs Hcount Hsub k nodes bss Hb) as Hentry.
  assert (Hlook : ∀ k, m !! k = match filter (λ b, hb_key b = k) (concat bss) with [] => None | b :: found => Some (hb_text b, total (hb_doc_count <$> b :: found), hb_subs <$> b :: found) end).
  { intros k. rw /m merge_histogram_fold; [by apply (counts_nonneg (histogram_bucket subs) key hb_doc_count Hcount nodes)| |].
    - intros k0. rw lookup_empty. cbn. pose proof (counts_total (histogram_bucket subs) key hb_doc_count Hcount nodes bss Hb). lia.
    - rw lookup_empty. cbn [hist_count from_option]. by destruct (filter _ _). }
  set (f := λ k, default (""%string, 0%Z, []) (m !! k)).
  rw (btree_entries Z.compare m f (keys_of key (concat nodes))); [apply Z_compare_Eq|apply NoDup_elements| |].
  { apply entries_by_keys; [apply NoDup_elements| |intros k v; rw /f; by intros ->]. intros k. rw elem_of_keys_of Hlook. destruct (Hentry k) as (Hnil & _). destruct (filter _ (concat bss)); [|naive_solver]. split; [intros Hne; by destruct Hne; apply Hnil|by intros [? ?]]. }
  rw try_collect_fmap. apply (try_collect_mono _ _ _ _ Hrb). intros k b Hk Hkb. cbn in Hkb |- *. apply bind_Ok_inv in Hkb as (text & Htext & Hkb). apply bind_Ok_inv in Hkb as (aggs & Ha & [= <-]). rw elem_of_sort_by elem_of_keys_of in Hk.
  destruct (Hentry k) as (Hnil & Ht & parts & Hparts & Hpp). pose proof (nodes_buckets hb_key (histogram_bucket subs) key (histogram_bucket_key subs) k nodes bss Hb) as Hbuckets. rw /f Hlook.
  destruct (filter (λ b, hb_key b = k) (concat bss)) as [|b found]; [by destruct Hk; apply Hnil|]. cbn [default from_option id]. rw /F. cbv beta iota.
  rw (merges_subs subs parts _ aggs) ?Hparts //; [by apply (part_length (concat nodes)); [apply rows_of_self|]|eapply exact_subs; [|apply rows_of_self|exact Hex]; cbn [map concat average_fields]; by rw app_nil_r|].
  rw bind_Ok Ht. do 2 f_equal. inversion Hbuckets as [|? ? ? ? Hbk]; subst. apply bind_Ok_inv in Hbk as (text' & Ht' & Hbk). apply bind_Ok_inv in Hbk as (ps & _ & [= <-]). cbn. congruence.
Qed.

Lemma merge_average_fold field name nodes partials a c : exact_column field (concat nodes) → (Z.abs a + total ((λ row, Z.abs (row_int field row)) <$> concat nodes) ≤ 2 ^ 53)%Z → (0 ≤ c ∧ c + Z.of_nat (length (concat nodes)) < 2 ^ 64)%Z →
  Forall2 (λ rows p, compute_search_aggregation_partial rows (PAverage name field) = Ok p) nodes partials →
  foldl merge_average (Some (f64_norm a 0), c) partials = (Some (f64_norm (a + total (row_int field <$> concat nodes)) 0), c + Z.of_nat (numbers field (concat nodes)))%Z.
Proof.
  intros Hex Ha Hc Hps. revert a c Hex Ha Hc. induction Hps as [|rows p nodes partials Hp _ IH]; intros a c Hex Ha Hc; [cbn; by rw !Z.add_0_r|]. cbn [concat] in *. rw fmap_app count_total_app length_app in Ha Hc.
  assert (Hex1 : exact_column field rows) by (apply (exact_part field (rows ++ concat nodes)); [by apply submseteq_inserts_r|done]). assert (Hex2 : exact_column field (concat nodes)) by (apply (exact_part field (rows ++ concat nodes)); [by apply submseteq_inserts_l|done]).
  pose proof (total_abs (row_int field) rows). pose proof (omap_length_le (λ row : BatchRowRef, extract_numeric_field_from_batch_row row.1 row.2 field) rows) as Hnum. rw -/(numbers field rows) in Hnum.
  assert (Hpos : (0 ≤ total ((λ row, Z.abs (row_int field row)) <$> concat nodes))%Z) by (generalize (concat nodes); intros l; induction l as [|x l IHl]; cbn [fmap list_fmap total]; lia).
  cbn [compute_search_aggregation_partial] in Hp. change (mkF64 0 0) with (f64_norm 0 0) in Hp. rw average_fold in Hp; [apply Hex1|rw Z.abs_0; lia|lia|]. injection Hp as <-. cbn [foldl merge_average fst snd mbind option_bind]. rw !Z.add_0_l.
  rw (add_ints _ _ a (total (row_int field <$> rows))); [apply norm_is_int|apply norm_is_int|rw /small_int; lia|]. rw wrap_u64_small; [lia|]. rw IH; [done|lia|lia|]. rw fmap_app count_total_app /numbers omap_app length_app. f_equal; [f_equal; f_equal; lia|lia].
Qed.

Lemma merged spec : merges spec.
Proof.
  induction spec as [name field size order missing subs IH|name field|name field|name field fixed_interval min_doc_count bounds subs IH|name filter subs IH] using spec_ind; [by apply merge_terms| | |by apply merge_histogram|].
  - intros _ nodes partials r Hl Hex Hps Hr. assert (Hcol : exact_column field (concat nodes)) by (apply Hex; cbn; left). destruct (Hcol) as [He Ht]. cbn [aggregate] in Hr. cbn [merge_typed_aggregation_partial].
    change (mkF64 0 0) with (f64_norm 0 0) in Hr |- *. rw (merge_average_fold field name nodes); [done|rw Z.abs_0; lia|lia|done|]. rw average_fold in Hr; [done|rw Z.abs_0; lia|lia|]. exact Hr.
  - intros _ nodes partials r _ _ Hps [= <-]. cbn [merge_typed_aggregation_partial]. rw list_bind_concat. do 3 f_equal. rw /keys_of -/(size _). set (key := λ row : BatchRowRef, extract_term_key_from_batch_row row.1 row.2 field).
    enough (Hset : (list_to_set (concat (cardinality_values <$> partials)) : gset string) = list_to_set (omap key (concat nodes))) by by rw Hset.
    apply set_eq. intros x. rw !elem_of_list_to_set. induction Hps as [|rows p nodes partials Hp _ IH]; [done|]. injection Hp as <-. cbn [fmap list_fmap concat cardinality_values]. rw omap_app !elem_of_app IH elem_of_sort_by elem_of_elements elem_of_list_to_set. done.
  - intros Hwell nodes partials r Hl Hex Hps Hr. inversion Hwell as [| | | |? ? ? Hnd Hsubs]; subst. cbn [aggregate] in Hr. apply bind_Ok_inv in Hr as (aggs & Ha & [= <-]). set (test := row_matches_aggregation_filter_batch_row filter) in *.
    assert (Hconcat : List.filter test (concat nodes) = concat (List.filter test <$> nodes)) by (clear; induction nodes as [|rows nodes IHn]; [done|]; cbn [concat fmap list_fmap]; by rw List.filter_app IHn).
    assert (Hparts : Forall2 (λ rows ps, compute_search_aggregation_partials rows subs = Ok ps) (List.filter test <$> nodes) (filter_subs <$> partials) ∧ ∀ c, (0 ≤ c)%Z → (c + Z.of_nat (length (concat nodes)) < 2 ^ 64)%Z → foldl merge_filter_count c partials = (c + Z.of_nat (length (List.filter test (concat nodes))))%Z).
    { clear -Hps. induction Hps as [|rows p nodes partials Hp _ [IH1 IH2]]; [split; [constructor|intros; cbn; lia]|].
      assert (Hpp : compute_search_aggregation_partials (List.filter test rows) subs = Ok (filter_subs p) ∧ ∀ c, merge_filter_count c p = wrap_u64 (c + Z.of_nat (length (List.filter test rows)))).
      { cbn [compute_search_aggregation_partial] in Hp. destruct subs as [|sub subs]; [injection Hp as <-; done|]. apply bind_Ok_inv in Hp as (ps & Hps & [= <-]). done. }
      destruct Hpp as [H1 H2]. split; [by constructor|]. intros c Hc Hlen. cbn [concat foldl] in *. rw H2 List.filter_app length_app. rw length_app in Hlen. pose proof (submseteq_length _ _ (filter_self test rows)). rw wrap_u64_small; [lia|]. rw IH2; lia. }
    destruct Hparts as [Hparts Hcount]. cbn [merge_typed_aggregation_partial].
    change (mbind (λ aggs, Ok (ResFilter (foldl merge_filter_count 0%Z partials) aggs)) (merge_typed_aggregation_partials (filter_subs <$> partials) subs) = Ok (ResFilter (Z.of_nat (length (List.filter test (concat nodes)))) aggs)).
    rw (merges_subs subs (List.filter test <$> nodes) _ aggs) -?Hconcat //; [apply (part_length (concat nodes)); [apply filter_self|done]|eapply exact_subs; [|apply filter_self|exact Hex]; cbn [map concat average_fields]; by rw app_nil_r|].
    rw bind_Ok Hcount; [lia|lia|done].
Qed.
(** C8. The rows of a search are spread over peers, each of which aggregates what it holds;
    the coordinator merges the partial buckets.  If one aggregation over all rows
    ([aggregate_all]: terms, cardinalities, date histograms, filters and averages, nested to
    any depth) returns a result, then every peer returns its partials and the merge returns
    that same result: buckets, counts, order, cut and the aggregations below them.  The names
    of a level differ, counters do not overflow, and averaged columns are integers that add
    up to at most [2 ^ 53]. *)
Theorem peers_aggregate_as_one nodes specs m :
  Forall well_named specs → NoDup (typed_aggregation_name <$> specs) → (Z.of_nat (length (concat nodes)) < 2 ^ 64)%Z → exact_averages (concat nodes) specs →
  aggregate_all (concat nodes) specs = Ok m →
  ∃ partials, Forall2 (λ rows ps, compute_search_aggregation_partials rows specs = Ok ps) nodes partials ∧ merge_typed_aggregation_partials partials specs = Ok m.
Proof.
  intros Hwell Hnd Hl Hex Hm. destruct (try_collect_all (λ rows, compute_search_aggregation_partials rows specs) nodes) as [partials Hp].
  { intros rows Hin. apply (computes_subs specs (concat nodes) rows m); [apply Forall_forall; intros; apply computed|done|by apply part_of_nodes|done]. }
  apply try_collect_Ok in Hp. exists partials. split; [done|]. apply (merges_subs specs nodes); [apply Forall_forall; intros; apply merged|done..].
Qed.

(** ** Filling date histograms *)

Lemma Forall2_impl_in {A B} (P Q : A → B → Prop) l k : Forall2 P l k → (∀ x y, x ∈ l → P x y → Q x y) → Forall2 Q l k.
Proof. induction 1 as [|x y l k Hxy _ IH]; intros H; constructor; [apply H; [left|done]|]. apply IH. intros x' y' Hin. apply H. by right. Qed.

(** The bucket at a key: the one found there, or an empty one. *)
Definition bucket_at (m : gmap Z HistogramAggregationBucket) (key : Z) (bucket : HistogramAggregationBucket) : Prop :=
  m !! key = Some bucket ∨ m !! key = None ∧ ∃ text, millis_to_rfc3339 key = Some text ∧ bucket = mkHistogram key text 0 ∅.

(** [count] keys from [start] on, [step] apart. *)
Fixpoint every (start step : Z) (count : nat) : list Z := match count with O => [] | S count => start :: every (start + step) step count end.

Lemma elem_of_every key start step count : key ∈ every start step count ↔ ∃ n, (0 ≤ n < Z.of_nat count)%Z ∧ key = (start + step * n)%Z.
Proof.
  revert start. induction count as [|count IH]; intros start; cbn [every]; [split; [by intros ?%not_elem_of_nil|intros (n & ? & _); lia]|]. rw elem_of_cons IH. split.
  - intros [->|(n & Hn & ->)]; [exists 0%Z; lia|]. exists (n + 1)%Z. lia.
  - intros (n & Hn & ->). destruct (decide (n = 0)%Z) as [->|]; [left; lia|]. right. exists (n - 1)%Z. lia.
Qed.

Lemma fill_loop_keys interval_ms last count : (0 < interval_ms)%Z → (last < 2 ^ 63)%Z → ∀ fuel cursor m, count < fuel → (- 2 ^ 63 ≤ cursor)%Z → Z.to_nat ((last - cursor) / interval_ms + 1) = count →
  (∀ key, (cursor ≤ key ≤ last)%Z → is_Some (millis_to_rfc3339 key)) → ∃ filled, fill_loop fuel interval_ms cursor last m = Ok filled ∧ Forall2 (bucket_at m) (every cursor interval_ms count) filled.
Proof.
  intros Hi Hlast. induction count as [|count IH]; intros [|fuel] cursor m Hfuel Hc Hcount Htext; [lia| |lia|]; cbn [fill_loop].
  - destruct (Z.ltb_spec last cursor) as [_|Hle]; [exists []; by split|]. assert (0 ≤ (last - cursor) / interval_ms)%Z by (apply Z.div_pos; lia). lia.
  - destruct (Z.ltb_spec last cursor) as [Hlt|Hle]; [assert ((last - cursor) / interval_ms < 0)%Z by (apply Z.div_lt_upper_bound; lia); lia|].
    assert (Hbucket : ∃ b, (match m !! cursor with Some bucket => Ok bucket | None => text ← timestamp_millis_to_key_as_string cursor; Ok (mkHistogram cursor text 0 ∅) end) = Ok b ∧ bucket_at m cursor b).
    { rw /bucket_at. destruct (m !! cursor) as [b|]; [exists b; naive_solver|]. destruct (Htext cursor) as [text Ht]; [lia|]. rw /timestamp_millis_to_key_as_string Ht. eexists. split; [done|]. right. split; [done|]. by exists text. }
    destruct Hbucket as (b & -> & Hb). rw bind_Ok. assert (Hnext : Z.to_nat ((last - (cursor + interval_ms)) / interval_ms + 1) = count).
    { replace (last - (cursor + interval_ms))%Z with (last - cursor + (-1) * interval_ms)%Z by lia. rw Z.div_add; lia. }
    cbn [every]. rw /checked_i64 /is_i64. destruct (Z.leb_spec (- 2 ^ 63) (cursor + interval_ms)); [|lia]. destruct (Z.ltb_spec (cursor + interval_ms) (2 ^ 63)) as [Hfit|Hover]; cbn [andb].
    + destruct (IH fuel (cursor + interval_ms)%Z (delete cursor m)) as (filled & -> & Hf); [lia|lia|done|intros key Hkey; apply Htext; lia|]. exists (b :: filled). split; [done|]. constructor; [done|].
      eapply Forall2_impl_in; [exact Hf|]. intros key x Hkey. apply elem_of_every in Hkey as (n & Hn & ->). rw /bucket_at lookup_delete_ne; [lia|done].
    + exists [b]. split; [done|]. assert (count = 0) as ->; [|constructor; [done|constructor]]. rw -Hnext. assert ((last - (cursor + interval_ms)) / interval_ms < 0)%Z by (apply Z.div_lt_upper_bound; lia). lia.
Qed.
Lemma collected_buckets buckets k b : NoDup (histogram_key <$> buckets) →
  (collect ((λ bucket, (histogram_key bucket, bucket)) <$> buckets) : gmap Z HistogramAggregationBucket) !! k = Some b ↔ b ∈ buckets ∧ histogram_key b = k.
Proof.
  intros Hnd. assert (Hkeys : NoDup ((λ bucket, (histogram_key bucket, bucket)) <$> buckets).*1) by by rw -list_fmap_compose. rw collect_list_to_map // -elem_of_list_to_map //. rw list_elem_of_fmap.
  split; [intros (b' & [= -> ->] & Hin); done|]. intros [Hin <-]. by exists b.
Qed.

Lemma bucket_keys buckets : NoDup (histogram_key <$> buckets) →
  (btree_iter Z.compare (collect ((λ bucket, (histogram_key bucket, bucket)) <$> buckets) : gmap Z HistogramAggregationBucket)).*1 = sort_by Z.compare (histogram_key <$> buckets).
Proof.
  intros Hnd. set (m := collect _). set (f := λ k, default (mkHistogram 0 "" 0 ∅) (m !! k)). rw (btree_entries Z.compare m f (histogram_key <$> buckets)); [apply Z_compare_Eq|done| |].
  - apply entries_by_keys; [done| |intros k v; rw /f; by intros ->]. intros k. rw list_elem_of_fmap. split.
    + intros (b & -> & Hin). exists b. by apply collected_buckets.
    + intros [b [Hin <-]%(collected_buckets _ _ _ Hnd)]. by exists b.
  - rw -list_fmap_compose. apply list_fmap_id.
Qed.

Lemma sorted_ends keys key : key ∈ keys → ∃ lo hi, head (sort_by Z.compare keys) = Some lo ∧ list.last (sort_by Z.compare keys) = Some hi ∧ (lo ≤ key ≤ hi)%Z.
Proof.
  intros Hin. rw -(elem_of_sort_by Z.compare) in Hin. pose proof (sort_by_in_order Z.compare keys) as Hs. revert Hin Hs. generalize (sort_by Z.compare keys). clear keys. intros keys Hin Hs.
  assert (Hle : ∀ x y, cmp_le Z.compare x y → (x ≤ y)%Z) by (intros x y; by rw /cmp_le Z.compare_le_iff).
  destruct keys as [|lo keys]; [by apply not_elem_of_nil in Hin|]. exists lo. apply StronglySorted_inv in Hs as Hs'. destruct Hs' as [_ Hlo]. rw Forall_forall in Hlo.
  assert (Hmin : (lo ≤ key)%Z) by (apply elem_of_cons in Hin as [->|Hin]; [lia|by apply Hle, Hlo]). enough (∃ hi, list.last (lo :: keys) = Some hi ∧ (key ≤ hi)%Z) as (hi & ? & ?) by by exists hi.
  clear Hmin Hlo. revert key Hin Hs. generalize (lo :: keys) as l. clear lo keys. intros l. induction l as [|x l IH]; intros key Hin Hs; [by apply not_elem_of_nil in Hin|]. apply StronglySorted_inv in Hs as [Hs Hx].
  destruct l as [|y l]; [exists x; split; [done|]; apply list_elem_of_singleton in Hin; lia|]. assert (Hy : y ∈ y :: l) by left. rw last_cons_cons. apply elem_of_cons in Hin as [->|Hin]; [|by apply IH].
  destruct (IH y Hy Hs) as (hi & Hhi & Hyh). exists hi. split; [done|]. rw Forall_forall in Hx. pose proof (Hle _ _ (Hx y Hy)). lia.
Qed.

(** C10. A date histogram with a positive interval is filled within its bounds: the keys of
    the answer are those from the first to the last one, one interval apart, each once
    (their number, and so the memory the request takes, is the span over the interval); the
    buckets with documents are kept as they are and the others are empty, with the text of
    their own key.  First and last are the least and greatest of the keys found and of the
    extended bounds; keys are multiples of the interval, and the calendar covers the span. *)
Theorem histogram_is_filled buckets fixed_interval extended_bounds interval_ms extended_start extended_end start last :
  parse_histogram_fixed_interval_millis fixed_interval = Ok (Some interval_ms) → (0 < interval_ms)%Z →
  NoDup (histogram_key <$> buckets) → (∀ b, b ∈ buckets → (histogram_key b mod interval_ms = start mod interval_ms)%Z) →
  match extended_bounds with Some bounds => histogram_bound_to_bucket_key (ebs_min bounds) interval_ms = Ok extended_start ∧ histogram_bound_to_bucket_key (ebs_max bounds) interval_ms = Ok extended_end
  | None => extended_start = None ∧ extended_end = None end →
  lower_of (head (sort_by Z.compare (histogram_key <$> buckets))) extended_start = Some start → upper_of (list.last (sort_by Z.compare (histogram_key <$> buckets))) extended_end = Some last →
  (- 2 ^ 63 ≤ start)%Z → (last < 2 ^ 63)%Z → (∀ key, (start ≤ key ≤ last)%Z → is_Some (millis_to_rfc3339 key)) →
  ∃ filled, fill_empty_histogram_buckets buckets fixed_interval extended_bounds = Ok filled ∧
    histogram_key <$> filled = every start interval_ms (Z.to_nat ((last - start) / interval_ms + 1)) ∧
    (∀ b, b ∈ buckets → b ∈ filled) ∧
    (∀ b, b ∈ filled → b ∈ buckets ∨ ∃ key text, (key ∉ histogram_key <$> buckets) ∧ millis_to_rfc3339 key = Some text ∧ b = mkHistogram key text 0 ∅).
Proof.
  intros Hparse Hi Hnd Halign Hbounds Hstart Hlast Hmin Hmax Htext. set (m := collect ((λ bucket, (histogram_key bucket, bucket)) <$> buckets) : gmap Z HistogramAggregationBucket).
  assert (Hfill : fill_empty_histogram_buckets buckets fixed_interval extended_bounds = fill_loop (fill_steps interval_ms start last) interval_ms start last m).
  { rw /fill_empty_histogram_buckets Hparse bind_Ok bucket_keys // -/m. destruct buckets as [|b0 rest]; destruct extended_bounds as [bounds|]; [|by destruct Hbounds as [-> _]|..]; destruct Hbounds as [Hb1 Hb2].
    1,2: by rw Hb1 bind_Ok Hb2 bind_Ok Hstart Hlast. subst extended_start extended_end. by rw !bind_Ok Hstart Hlast. }
  destruct (fill_loop_keys interval_ms last (Z.to_nat ((last - start) / interval_ms + 1)) Hi Hmax (fill_steps interval_ms start last) start m) as (filled & Hok & Hf); [|done|done|done|].
  { rw /fill_steps. destruct (Z.ltb_spec 0 interval_ms); lia. }
  exists filled. rw Hfill. split; [done|].
  assert (Hkeys : histogram_key <$> filled = every start interval_ms (Z.to_nat ((last - start) / interval_ms + 1))).
  { clear Hok. revert Hf. generalize (every start interval_ms (Z.to_nat ((last - start) / interval_ms + 1))). intros keys Hf. induction Hf as [|k b keys filled Hb _ IH]; [done|]. cbn. rw IH. f_equal.
    destruct Hb as [[_ Hk]%(collected_buckets _ _ _ Hnd)|(_ & text & _ & ->)]; done. }
  split; [done|]. split.
  - intros b Hb. assert (Hin : histogram_key b ∈ every start interval_ms (Z.to_nat ((last - start) / interval_ms + 1))).
    { destruct (sorted_ends (histogram_key <$> buckets) (histogram_key b)) as (lo & hi & Hlo & Hhi & Hrange); [by apply list_elem_of_fmap_2|]. rw Hlo in Hstart. rw Hhi in Hlast.
      assert (Hin : (start ≤ histogram_key b ≤ last)%Z) by (destruct extended_start, extended_end; injection Hstart as <-; injection Hlast as <-; lia).
      specialize (Halign b Hb). pose proof (Z.div_mod (histogram_key b) interval_ms) as H1. pose proof (Z.div_mod start interval_ms) as H2. apply elem_of_every. exists (histogram_key b / interval_ms - start / interval_ms)%Z.
      assert (Hn : (histogram_key b - start = interval_ms * (histogram_key b / interval_ms - start / interval_ms))%Z) by lia. split; [|lia]. split; [nia|].
      assert (histogram_key b / interval_ms - start / interval_ms ≤ (last - start) / interval_ms)%Z by (apply Z.div_le_lower_bound; lia). lia. }
    apply list_elem_of_lookup in Hin as [n Hn]. destruct (Forall2_lookup_l _ _ _ _ _ Hf Hn) as (b' & Hb' & [Hm|[Hm _]]).
    + apply (list_elem_of_lookup_2 _ n). rw Hb'. f_equal. assert (Hm2 : m !! histogram_key b = Some b) by by apply collected_buckets. congruence.
    + assert (Hm2 : m !! histogram_key b = Some b) by by apply collected_buckets. congruence.
  - intros b Hb. apply list_elem_of_lookup in Hb as [n Hn]. destruct (Forall2_lookup_r _ _ _ _ _ Hf Hn) as (k & _ & [[Hin _]%(collected_buckets _ _ _ Hnd)|(Hm & text & Ht & ->)]); [by left|]. right. exists k, text. split_and!; [|done|done].
    intros (b' & -> & Hin)%list_elem_of_fmap. assert (Hm2 : m !! histogram_key b' = Some b') by by apply collected_buckets. congruence.
Qed.
(** A negative interval never reaches the last key: the loop runs down to the lowest [i64]. *)
Lemma fill_down interval_ms last : (interval_ms < 0)%Z → ∀ fuel cursor m filled, (cursor ≤ last)%Z → (- 2 ^ 63 ≤ cursor < 2 ^ 63)%Z → fill_loop fuel interval_ms cursor last m = Ok filled →
  Z.of_nat (length filled) = ((cursor + 2 ^ 63) / - interval_ms + 1)%Z.
Proof.
  intros Hi. induction fuel as [|fuel IH]; intros cursor m filled Hle Hc; [done|]. cbn [fill_loop]. destruct (Z.ltb_spec last cursor); [lia|]. intros H1. apply bind_Ok_inv in H1 as (b & _ & H1). apply bind_Ok_inv in H1 as (rest & Hr & [= <-]).
  cbn [length]. rw /checked_i64 /is_i64 in Hr. destruct (Z.leb_spec (- 2 ^ 63) (cursor + interval_ms)); destruct (Z.ltb_spec (cursor + interval_ms) (2 ^ 63)); cbn [andb] in Hr; [|lia| |lia].
  - rw Nat2Z.inj_succ (IH _ _ _ _ _ Hr); [lia|lia|]. replace (cursor + interval_ms + 2 ^ 63)%Z with (cursor + 2 ^ 63 + (-1) * - interval_ms)%Z by lia. rw Z.div_add; lia.
  - injection Hr as <-. rw Z.div_small; [lia|done].
Qed.

(** An interval of minus one second is accepted, and one document at the epoch fills its
    histogram with more than [9 * 10 ^ 15] buckets, should it ever return. *)
Theorem negative_interval_exhausts_memory text filled : fill_empty_histogram_buckets [mkHistogram 0 text 1 ∅] "-1s" None = Ok filled → Z.of_nat (length filled) = 9223372036854776%Z.
Proof.
  intros H1. assert (Hp : parse_histogram_fixed_interval_millis "-1s" = Ok (Some (-1000)%Z)) by (vm_compute; reflexivity). rw /fill_empty_histogram_buckets Hp bind_Ok in H1.
  rw (bucket_keys [mkHistogram 0 text 1 ∅]) in H1; [cbn; apply NoDup_singleton|]. rw !bind_Ok in H1. cbn [fmap list_fmap histogram_key sort_by insert_by head lower_of upper_of list.last] in H1.
  apply fill_down in H1; [|lia..]. rw H1. vm_compute. reflexivity.
Qed.

(** An interval of zero stops a peer that holds a timestamp, and the coordinator when bounds
    are given. *)
Theorem zero_interval_panics timestamp bounds : ∃ reason, bucket_key timestamp 0 = Panic reason ∧
  (is_Some (histogram_bound_to_timestamp_millis (ebs_min bounds)) → fill_empty_histogram_buckets [] "0s" (Some bounds) = Panic reason).
Proof.
  eexists. split; [done|]. intros [t Ht]. assert (Hp : parse_histogram_fixed_interval_millis "0s" = Ok (Some 0%Z)) by (vm_compute; reflexivity). rw /fill_empty_histogram_buckets Hp bind_Ok. cbv zeta.
  assert (Hk : histogram_bound_to_bucket_key (ebs_min bounds) 0 = Panic "attempt to calculate the remainder with a divisor of zero") by by rw /histogram_bound_to_bucket_key Ht.
  by rw Hk.
Qed.
End reference.

End SearchAggTheory.

(** ** Two peers *)
Module SearchAggDemo.
Import SearchAggTheory HashOrderDemo.

#[local] Instance demo_chrono : Chrono := {| parse_from_rfc3339 := λ _, None; millis_to_rfc3339 := λ t, Some (print_int t) |}.
#[local] Instance demo_display : FloatDisplay := { display_f64 := λ _, "" }.
#[local] Instance demo_display32 : Float32Display := { display_f32 := λ _, "" }.

Definition first_batch : RecordBatch := mkBatch [("team", [CUtf8 "red"; CUtf8 "blue"]); ("points", [CInt64 3; CInt64 5]); ("at", [CInt64 1500; CInt64 61000])] 2.
Definition second_batch : RecordBatch := mkBatch [("team", [CUtf8 "blue"; CNull]); ("points", [CInt64 4; CInt64 10]); ("at", [CInt64 62000; CInt64 185000])] 2.
Definition demo_nodes : list (list BatchRowRef) := [all_batch_rows [first_batch]; all_batch_rows [second_batch]].
Definition demo_specs : list PrivateSearchAggregationSpec :=
  [PTerms "teams" "team" None None (Some (VString "none")) [PAverage "mean" "points"]; PCardinality "distinct" "team"; PDateHistogram "minutes" "at" "1m" None None []; PFilter "blue" (FilterSpecTerm "team" "blue") [PCardinality "scores" "points"]].

Definition mean (f : f64) : gmap string AggregationResult := {[ "mean" := ResAverage (Some f) ∅ ]}.
Definition demo_result : gmap string AggregationResult :=
  list_to_map [
    ("teams", ResTerms 0 0 [mkTermBucket "blue" 2 (mean (mkF64 9 (-1))); mkTermBucket "none" 1 (mean (mkF64 5 1)); mkTermBucket "red" 1 (mean (mkF64 3 0))] ∅);
    ("distinct", ResCardinality 2 ∅);
    ("minutes", ResHistogram [mkHistogram 0 "0" 1 ∅; mkHistogram 60000 "60000" 2 ∅; mkHistogram 120000 "120000" 0 ∅; mkHistogram 180000 "180000" 1 ∅]);
    ("blue", ResFilter 2 {[ "scores" := ResCardinality 2 ∅ ]})].

Lemma demo_aggregate : aggregate_all (concat demo_nodes) demo_specs = Ok demo_result.
Proof. vm_compute. reflexivity. Qed.

Lemma demo_averages_exact : exact_averages (concat demo_nodes) demo_specs.
Proof.
  intros field Hf. assert (Hfield : field = "points"); [|subst; split; [|vm_compute; done]].
  - vm_compute in Hf. apply list_elem_of_In in Hf. cbn in Hf. naive_solver.
  - intros row f Hrow. assert (Hall : Forall (λ row : BatchRowRef, ∃ n, extract_numeric_field_from_batch_row row.1 row.2 "points" = Some (mkF64 n 0)) (concat demo_nodes)) by (repeat constructor; eexists; vm_compute; reflexivity).
    rw Forall_forall in Hall. destruct (Hall row Hrow) as [n ->]. by intros [= <-].
Qed.

Lemma peers_aggregate_as_one_witness : ∃ partials, Forall2 (λ rows ps, compute_search_aggregation_partials rows demo_specs = Ok ps) demo_nodes partials ∧ merge_typed_aggregation_partials partials demo_specs = Ok demo_result.
Proof.
  apply (peers_aggregate_as_one demo_nodes demo_specs demo_result).
  - repeat constructor; (apply not_elem_of_nil || by intros ?%list_elem_of_singleton).
  - vm_compute. repeat constructor; intros Hin; apply list_elem_of_In in Hin; cbn in Hin; naive_solver.
  - vm_compute. reflexivity.
  - exact demo_averages_exact.
  - exact demo_aggregate.
Defined.

Lemma histogram_is_filled_witness : ∃ filled, fill_empty_histogram_buckets [mkHistogram 60000 "60000" 2 ∅] "1m" (Some (mkBoundsSpec (int 1) (int 180500))) = Ok filled ∧ histogram_key <$> filled = [0; 60000; 120000; 180000]%Z.
Proof.
  destruct (histogram_is_filled [mkHistogram 60000 "60000" 2 ∅] "1m" (Some (mkBoundsSpec (int 1) (int 180500))) 60000 (Some 0%Z) (Some 180000%Z) 0 180000) as (filled & Hf & Hk & _).
  1,2: vm_compute; reflexivity.
  - apply NoDup_singleton.
  - intros b ->%list_elem_of_singleton. reflexivity.
  - split; vm_compute; reflexivity.
  - reflexivity.
  - reflexivity.
  - lia.
  - lia.
  - intros key _. by eexists.
  - exists filled. split; [exact Hf|]. rw Hk. vm_compute. reflexivity.
Defined.
End SearchAggDemo.
