(* ===== verification/SearchCompile.v ===== *)
(** * From search plans to SQL (query_runtime/src/search_executor.rs)

    A search plan is compiled to the SQL every peer runs, to the exact constraints and the
    ranges that prune files, to the aggregations and sorts in the form peers take them, and
    to the strategy the coordinator follows.  A parse error is its message. *)

From S2P Require Import Prelude Text StableSort Json JsonText Schema QueryPath Float Pruning Planner ServingExec SqlExpr SearchPlan DateMath PeerHits SearchAggs.

Section compile.
Context `{jt : JsonText, dl : DateLibrary} (now : Z).

(** ** Queries as filters *)

(** SRC query_runtime/src/search_executor.rs:3061-3067 convert_datetime_if_necessary *)
Definition convert_datetime_if_necessary (value : string) : outcome string :=
  if str_contains value "now" then
    match evaluate_date value now with Ok text => Ok text | Err e => Panic e | Panic r => Panic r end
  else Ok value.

(** SRC query_runtime/src/search_executor.rs:3042-3059 range_operator_to_sql_expression *)
Definition range_operator_to_sql_expression (operator : RangeOperatorPlan) : outcome (string * SqlExpression) :=
  let '(op, value) := match operator with OpGt value => (">", value) | OpGte value => (">=", value) | OpLt value => ("<", value) | OpLte value => ("<=", value) end in
  final_val ← match value with
              | VString text => converted ← convert_datetime_if_necessary text; Ok (SLiteralString converted)
              | _ => Ok (SLiteralNonString (json_to_vec value))
              end;
  Ok (op, final_val).

Definition set_score : ST SqlBuilder () := st_modify (set_calculate_score true).

(** SRC query_runtime/src/search_executor.rs:2867-2899 apply_match_plan *)
Definition apply_match_plan (clauses : list MatchClausePlan) : ST SqlBuilder () :=
  if negb (length clauses =? 1) then st_lift (Err "Multiple match clauses are not implemented")
  else
    _ ← set_score;
    _ ← push_filter_context;
    _ ← st_iter (λ clause,
          _ ← add_filter (SComparison (SFieldRef "si" "field_name") "=" (SLiteralString (mc_field clause)));
          add_filter (SComparison (SFieldRef "si" "field_term") "=" (SLiteralString (mc_query clause)))) clauses;
    pop_filter_context true.

Definition term_literal (value : Value) : SqlExpression := match value with VString text => SLiteralString text | _ => SLiteralNonString (json_to_vec value) end.
Definition term_filter (clause : TermClausePlan) : SqlExpression := SComparison (SFieldRef "t" (tc_field clause)) "=" (term_literal (tc_value clause)).
(** SRC query_runtime/src/search_executor.rs:2938-2958 apply_term_plan *)
Definition apply_term_plan (clauses : list TermClausePlan) : ST SqlBuilder () := st_iter (λ clause, add_filter (term_filter clause)) clauses.

(** SRC query_runtime/src/search_executor.rs:2960-2965 apply_exists_plan *)
Definition apply_exists_plan (field : string) : ST SqlBuilder () := mret ().

(** SRC query_runtime/src/search_executor.rs:2967-3004 apply_range_plan *)
Definition apply_range_plan (clauses : list RangeClausePlan) : ST SqlBuilder () :=
  match clauses with
  | [clause] =>
      if is_some (rc_format clause) || is_some (rc_relation clause) || is_some (rc_time_zone clause) || is_some (rc_boost clause) then st_lift (Err "Range options are not implemented")
      else
        '(op, final_val) ← st_lift (range_operator_to_sql_expression (rc_operator clause));
        _ ← push_filter_context;
        _ ← add_filter (SComparison (SFieldRef "t" (rc_field clause)) op final_val);
        _ ← add_filter (SIsNull (SFieldRef "t" (rc_field clause)));
        pop_filter_context false
  | _ => st_lift (Err "Multiple range clauses are not implemented")
  end.

(** SRC query_runtime/src/search_executor.rs:3006-3040 apply_simple_query_string_plan *)
Definition apply_simple_query_string_plan (plan : SimpleQueryStringPlan) : ST SqlBuilder () :=
  match sqs_fields plan with
  | [] => st_lift (Err "simple_query_string.fields is required")
  | fields =>
      _ ← set_score;
      _ ← push_filter_context;
      _ ← st_iter (λ field_term,
            st_iter (λ field_name,
              _ ← add_filter (SComparison (SFieldRef "si" "field_name") "=" (SLiteralString field_name));
              add_filter (SComparison (SFieldRef "si" "field_term") "=" (SLiteralString field_term))) fields) (split_on " " (sqs_query plan));
      pop_filter_context true
  end.

Definition apply_each (apply : QueryPlan → ST SqlBuilder ()) : list QueryPlan → ST SqlBuilder () :=
  fix go (queries : list QueryPlan) : ST SqlBuilder () :=
    match queries with
    | [] => mret ()
    | query :: queries => _ ← apply query; go queries
    end.
(** [if !queries.is_empty() { push; for each: apply; pop }] *)
Definition apply_group (apply : QueryPlan → ST SqlBuilder ()) (queries : list QueryPlan) (pop : ST SqlBuilder ()) : ST SqlBuilder () :=
  match queries with
  | [] => mret ()
  | _ =>
      _ ← push_filter_context;
      _ ← apply_each apply queries;
      pop
  end.

(** SRC query_runtime/src/search_executor.rs:2851-2936= apply_query_plan, apply_bool_plan *)
Fixpoint apply_query_plan (query : QueryPlan) : ST SqlBuilder () :=
  match query with
  | QMatch clauses => apply_match_plan clauses
  | QBool filter should must must_not _ =>
      _ ← push_filter_context;
      _ ← apply_group apply_query_plan must (pop_filter_context true);
      _ ← apply_group apply_query_plan should (pop_filter_context false);
      _ ← apply_group apply_query_plan must_not (pop_and_not_filter_context false);
      _ ← apply_group apply_query_plan filter (pop_filter_context true);
      pop_filter_context true
  | QTerm clauses => apply_term_plan clauses
  | QExists field => apply_exists_plan field
  | QRange clauses => apply_range_plan clauses
  | QSimpleQueryString plan => apply_simple_query_string_plan plan
  end.

(** ** Exact constraints *)

(** SRC query_runtime/src/search_executor.rs:1712-1716 ExactConstraintGroup *)
Record ExactConstraintGroup : Type := mkExactGroup { eg_field : string; eg_values : list Value }.

(** SRC query_runtime/src/peers.rs:102-106 PrivateExactConstraintGroup *)
Record PrivateExactConstraintGroup : Type := mkPrivateGroup { pg_field : string; pg_values : list string }.

(** SRC query_runtime/src/peers.rs:108-115 PrivateSearchRangeConstraint *)
Record PrivateSearchRangeConstraint : Type := mkRangeConstraint { pr_field : string; pr_gt : option Value; pr_gte : option Value; pr_lt : option Value; pr_lte : option Value }.

(** SRC query_runtime/src/search_executor.rs:2000-2007 exact_value_to_index_string *)
Definition exact_value_to_index_string (value : Value) : option string :=
  match value with
  | VString value => Some value
  | VBool b => Some (if b then "true" else "false")
  | VNumber _ => Some (json_to_vec value)
  | _ => None
  end.

(** SRC query_runtime/src/search_executor.rs:1895-1907 exact_constraint_groups_for_term *)
Definition exact_constraint_groups_for_term (clauses : list TermClausePlan) : option (list ExactConstraintGroup) :=
  match clauses with
  | [clause] => _ ← exact_value_to_index_string (tc_value clause); Some [mkExactGroup (tc_field clause) [tc_value clause]]
  | _ => None
  end.

(** The first group of the field keeps the values both allow; none when nothing is left. *)
Fixpoint merge_incoming (groups : list ExactConstraintGroup) (incoming : ExactConstraintGroup) : option (list ExactConstraintGroup) :=
  match groups with
  | [] => Some [incoming]
  | existing :: groups =>
      if String.eqb (eg_field existing) (eg_field incoming) then
        let allowed := json_to_vec <$> eg_values incoming in
        match List.filter (λ value, bool_decide (json_to_vec value ∈ allowed)) (eg_values existing) with
        | [] => None
        | intersection => Some (mkExactGroup (eg_field existing) intersection :: groups)
        end
      else groups ← merge_incoming groups incoming; Some (existing :: groups)
  end.
(** SRC query_runtime/src/search_executor.rs:1971-1998 merge_exact_constraint_groups *)
Definition merge_exact_constraint_groups (left right : list ExactConstraintGroup) : option (list ExactConstraintGroup) :=
  merged ← foldl (λ groups incoming, groups ← groups; merge_incoming groups incoming) (Some left) right;
  Some (sort_by (λ l r, String.compare (eg_field l) (eg_field r)) merged).

(** [existing == &value] of the values of groups, which are strings, numbers and booleans. *)
Definition same_value (a b : Value) : bool :=
  match a, b with
  | VString a, VString b => String.eqb a b
  | VBool a, VBool b => Bool.eqb a b
  | VNumber (PosInt a), VNumber (PosInt b) | VNumber (NegInt a), VNumber (NegInt b) => (a =? b)%Z
  | VNumber (NFloat a), VNumber (NFloat b) => f64_eqb a b
  | _, _ => false
  end.

Definition push_new_values (values incoming : list Value) : list Value := foldl (λ values value, if existsb (λ existing, same_value existing value) values then values else values ++ [value]) values incoming.

(** One query of the alternatives: its one group has the field of the others. *)
Definition should_step (acc : option string * list Value) (groups : list ExactConstraintGroup) : option (option string * list Value) :=
  match groups with
  | [group] =>
      match acc.1 with
      | Some existing => if String.eqb existing (eg_field group) then Some (Some existing, push_new_values acc.2 (eg_values group)) else None
      | None => Some (Some (eg_field group), push_new_values acc.2 (eg_values group))
      end
  | _ => None
  end.

(** The loops over the queries that must hold and over the alternatives. *)
Definition merge_all (f : QueryPlan → option (list ExactConstraintGroup)) : list ExactConstraintGroup → list QueryPlan → option (list ExactConstraintGroup) :=
  fix go (groups : list ExactConstraintGroup) (queries : list QueryPlan) {struct queries} : option (list ExactConstraintGroup) :=
    match queries with
    | [] => Some groups
    | query :: queries => next_groups ← f query; groups ← merge_exact_constraint_groups groups next_groups; go groups queries
    end.
Definition alternatives (f : QueryPlan → option (list ExactConstraintGroup)) : option string * list Value → list QueryPlan → option (option string * list Value) :=
  fix go (acc : option string * list Value) (queries : list QueryPlan) {struct queries} : option (option string * list Value) :=
    match queries with
    | [] => Some acc
    | query :: queries => groups ← f query; acc ← should_step acc groups; go acc queries
    end.

(** SRC query_runtime/src/search_executor.rs:1885-1969= exact_constraint_groups_for_query, exact_constraint_groups_for_bool, exact_should_group *)
Fixpoint exact_constraint_groups_for_query (query : QueryPlan) : option (list ExactConstraintGroup) :=
  match query with
  | QTerm clauses => exact_constraint_groups_for_term clauses
  | QBool filter should must must_not minimum_should_match =>
      match must_not with
      | _ :: _ => None
      | [] =>
          groups ← merge_all exact_constraint_groups_for_query [] must;
          groups ← merge_all exact_constraint_groups_for_query groups filter;
          groups ← match should with
                   | [] => Some groups
                   | _ =>
                       let effective_minimum_should_match := default (match must, filter with [], [] => 1%Z | _, _ => 0%Z end) minimum_should_match in
                       if negb (effective_minimum_should_match =? 1)%Z then None
                       else
                         '(field_name, values) ← alternatives exact_constraint_groups_for_query (None, []) should;
                         field ← field_name;
                         merge_exact_constraint_groups groups [mkExactGroup field (sort_by (λ l r, String.compare (json_to_vec l) (json_to_vec r)) values)]
                   end;
          match groups with [] => None | _ => Some groups end
      end
  | _ => None
  end.

(** ** Mandatory ranges *)

Definition range_constraint (clause : RangeClausePlan) : PrivateSearchRangeConstraint :=
  match rc_operator clause with
  | OpGt value => mkRangeConstraint (rc_field clause) (Some value) None None None
  | OpGte value => mkRangeConstraint (rc_field clause) None (Some value) None None
  | OpLt value => mkRangeConstraint (rc_field clause) None None (Some value) None
  | OpLte value => mkRangeConstraint (rc_field clause) None None None (Some value)
  end.
(** SRC query_runtime/src/search_executor.rs:2031-2069 collect_mandatory_range_constraints *)
Fixpoint collect_mandatory_range_constraints (query : QueryPlan) : list PrivateSearchRangeConstraint :=
  match query with
  | QRange clauses => range_constraint <$> clauses
  | QBool filter _ must _ _ => concat (map collect_mandatory_range_constraints must) ++ concat (map collect_mandatory_range_constraints filter)
  | _ => []
  end.

(** SRC query_runtime/src/search_executor.rs:2009-2029 compile_range_constraints *)
Definition compile_range_constraints (plan : ReadPlan) : list PrivateSearchRangeConstraint :=
  omap (λ p, if is_some (rp_gt p) || is_some (rp_gte p) || is_some (rp_lt p) || is_some (rp_lte p)
             then Some (mkRangeConstraint (rp_field p) (rp_gt p) (rp_gte p) (rp_lt p) (rp_lte p)) else None) (rd_filters plan).

Definition or_new {A} (incoming existing : option A) : option A := match incoming with Some _ => incoming | None => existing end.
(** SRC query_runtime/src/search_executor.rs:1043-1069 merge_read_predicate *)
Fixpoint merge_read_predicate (filters : list ReadPredicate) (incoming : ReadPredicate) : list ReadPredicate :=
  match filters with
  | [] => [incoming]
  | e :: filters =>
      if String.eqb (rp_field e) (rp_field incoming) then
        mkReadPredicate (rp_field e) (or_new (rp_eq incoming) (rp_eq e)) (or_new (rp_in_values incoming) (rp_in_values e)) (or_new (rp_gt incoming) (rp_gt e))
          (or_new (rp_gte incoming) (rp_gte e)) (or_new (rp_lt incoming) (rp_lt e)) (or_new (rp_lte incoming) (rp_lte e)) :: filters
      else e :: merge_read_predicate filters incoming
  end.

(** SRC query_runtime/src/search_executor.rs:1027-1041 read_sort_from_search_sort *)
Definition read_sort_from_search_sort (sort : SortPlan) : ReadSort :=
  match sort with
  | SortBare field => mkReadSort field (String.eqb field "_score")
  | SortField field order _ _ => mkReadSort field (match order with Some order => String.eqb (to_ascii_lowercase order) "desc" | None => String.eqb field "_score" end)
  end.

Definition group_predicate (group : ExactConstraintGroup) : ReadPredicate :=
  match eg_values group with
  | [value] => mkReadPredicate (eg_field group) (Some value) None None None None None
  | values => mkReadPredicate (eg_field group) None (Some values) None None None None
  end.
Definition range_predicate (c : PrivateSearchRangeConstraint) : ReadPredicate := mkReadPredicate (pr_field c) None None (pr_gt c) (pr_gte c) (pr_lt c) (pr_lte c).
(** SRC query_runtime/src/search_executor.rs:961-1025 read_plan_from_search_plan *)
Definition read_plan_from_search_plan (plan : SearchPlan) : ReadPlan :=
  let filters := match sn_query plan with
                 | None => []
                 | Some query =>
                     let filters := foldl merge_read_predicate [] (group_predicate <$> default [] (exact_constraint_groups_for_query query)) in
                     foldl merge_read_predicate filters (range_predicate <$> collect_mandatory_range_constraints query)
                 end in
  mkReadPlan None filters None (read_sort_from_search_sort <$> sn_sort plan) (Z.to_nat <$> sn_size plan) (Z.to_nat (sn_from plan)) (sn_search_after plan) false false.

(** [values.sort(); values.dedup()] *)
Fixpoint dedup (values : list string) : list string :=
  match values with
  | x :: ((y :: _) as rest) => if String.eqb x y then dedup rest else x :: dedup rest
  | _ => values
  end.
Definition index_strings (values : list Value) : outcome (list string) :=
  match mapM exact_value_to_index_string values with
  | Some values => Ok (dedup (sort_by String.compare values))
  | None => Err "Exact-match sidecar only supports string, numeric, and boolean values"
  end.

(** SRC query_runtime/src/search_executor.rs:1718-1751 compile_exact_constraint_groups *)
Definition compile_exact_constraint_groups (plan : ReadPlan) : outcome (list PrivateExactConstraintGroup) :=
  groups ← try_collect (λ predicate,
    match or_new ((λ value, [value]) <$> rp_eq predicate) (rp_in_values predicate) with
    | None => Ok None
    | Some raw_values => values ← index_strings raw_values; Ok (Some (mkPrivateGroup (rp_field predicate) values))
    end) (rd_filters plan);
  Ok (sort_by (λ l r, String.compare (pg_field l) (pg_field r)) (omap id groups)).
(** ** Projections *)

(** SRC query_runtime/src/search_executor.rs:119-123 SearchSqlProjection *)
Inductive SearchSqlProjection : Type := FullRow | SourceProjection.

(** SRC query_runtime/src/search_executor.rs:2103-2105 search_plan_returns_hits *)
Definition search_plan_returns_hits (plan : SearchPlan) : bool := (0 <? default 10 (sn_size plan))%Z.

(** SRC query_runtime/src/search_executor.rs:2245-2253 push_projection_field *)
Definition push_projection_field (name : string) (expression : SqlExpression) (builder : SqlBuilder) : SqlBuilder :=
  if sb_all_fields builder || existsb (λ field, String.eqb (fe_name field) name) (sb_fields builder) then builder
  else set_fields (sb_fields builder ++ [mkFieldExpression name expression]) builder.

(** SRC query_runtime/src/search_executor.rs:2237-2243 push_source_field_projection *)
Definition push_source_field_projection (field : string) (builder : SqlBuilder) : SqlBuilder := push_projection_field field (SFieldRef "t" field) builder.

(** SRC query_runtime/src/search_executor.rs:2225-2235 append_range_bounds_projection_fields *)
Definition append_range_bounds_projection_fields (range : AggregationRangeBoundsPlan) (builder : SqlBuilder) : SqlBuilder :=
  match range with RangeRaw field _ | RangeStructured field _ => push_source_field_projection field builder end.

(** SRC query_runtime/src/search_executor.rs:2211-2223 append_aggregation_filter_projection_fields *)
Definition append_aggregation_filter_projection_fields (filter : AggregationFilterPlan) (builder : SqlBuilder) : SqlBuilder :=
  match filter with
  | FilterTerm field _ => push_source_field_projection field builder
  | FilterRange bounds => append_range_bounds_projection_fields bounds builder
  end.

(** SRC query_runtime/src/search_executor.rs:2175-2209 append_aggregation_plan_projection_fields *)
Fixpoint append_aggregation_plan_projection_fields (plan : AggregationPlan) (builder : SqlBuilder) : SqlBuilder :=
  match plan with
  | ATerms _ field _ _ _ _ subs | AMissing _ field _ _ subs | ADateHistogram _ field _ _ _ subs | ACardinality _ field subs | AAverage _ field subs =>
      foldl (λ builder sub, append_aggregation_plan_projection_fields sub builder) (push_source_field_projection field builder) subs
  | AFilter _ filter subs => foldl (λ builder sub, append_aggregation_plan_projection_fields sub builder) (append_aggregation_filter_projection_fields filter builder) subs
  | ARange _ range subs => foldl (λ builder sub, append_aggregation_plan_projection_fields sub builder) (append_range_bounds_projection_fields range builder) subs
  end.

(** SRC query_runtime/src/search_executor.rs:2166-2173 append_aggregation_projection_fields *)
Definition append_aggregation_projection_fields (aggregations : list AggregationPlan) (builder : SqlBuilder) : SqlBuilder :=
  foldl (λ builder aggregation, append_aggregation_plan_projection_fields aggregation builder) builder aggregations.

(** SRC query_runtime/src/search_executor.rs:2122-2147 append_projection_fields_for_source_hit_query *)
Definition append_projection_fields_for_source_hit_query (plan : SearchPlan) (builder : SqlBuilder) : SqlBuilder :=
  append_aggregation_projection_fields (sn_aggregations plan) (foldl (λ builder name, push_projection_field name (SFieldRef "t" name) builder) builder ["_id"; "_version"; "_seq_no"; "_source"]).

(** SRC query_runtime/src/search_executor.rs:2149-2164 append_projection_fields_for_agg_only_query *)
Definition append_projection_fields_for_agg_only_query (plan : SearchPlan) (doc_id_field_name : string) (builder : SqlBuilder) : SqlBuilder :=
  if search_plan_returns_hits plan then builder
  else append_aggregation_projection_fields (sn_aggregations plan) (push_projection_field "__powdrr_row_id" (SFieldRef "t" (denormalized doc_id_field_name)) builder).

(** SRC query_runtime/src/search_executor.rs:2107-2120 append_projection_fields_for_query *)
Definition append_projection_fields_for_query (plan : SearchPlan) (doc_id_field_name : string) (projection : SearchSqlProjection) (builder : SqlBuilder) : SqlBuilder :=
  if search_plan_returns_hits plan then match projection with SourceProjection => append_projection_fields_for_source_hit_query plan builder | FullRow => builder end
  else append_projection_fields_for_agg_only_query plan doc_id_field_name builder.

Definition append_sort_projection_field (builder : SqlBuilder) (sort : SortPlan) : SqlBuilder :=
  match (match sort with SortBare field => Some field | SortField field _ _ script => if is_some script then None else Some field end) with
  | None => builder
  | Some field =>
      if String.eqb field "_score" then builder
      else
        let projection_name := typed_sort_projection_name field in
        if existsb (λ expr, String.eqb (fe_name expr) projection_name) (sb_fields builder) then builder
        else set_fields (sb_fields builder ++ [mkFieldExpression projection_name (SFieldRef "t" field)]) builder
  end.
(** SRC query_runtime/src/search_executor.rs:2071-2101 append_sort_projection_fields *)
Definition append_sort_projection_fields (sorts : list SortPlan) (builder : SqlBuilder) : SqlBuilder := foldl append_sort_projection_field builder sorts.

(** ** Aggregations of the other path *)

(** SRC query_runtime/src/search_runtime.rs:761-778= AggProcessor, Aggregation *)
Inductive Aggregation : Type := mkAggregation (name : string) (processor : AggProcessor) (subaggregations : option (list Aggregation))
with AggProcessor : Type :=
| ProcAverage (sql : SqlQuery)
| ProcCardinality (sql : SqlQuery)
| ProcDateHistogram
| ProcFilter (sql : SqlQuery)
| ProcMissing
| ProcRange (sql : SqlQuery) (key : string) (from : Z) (from_as_string : string) (to : Z) (to_as_string : string) (subaggregations : option (list Aggregation))
| ProcTerm (sql : SqlQuery).

Definition push_field (name : string) (expression : SqlExpression) (builder : SqlBuilder) : SqlBuilder := set_fields (sb_fields builder ++ [mkFieldExpression name expression]) builder.
Definition push_group_by (expression : SqlExpression) (b : SqlBuilder) : SqlBuilder :=
  mkSqlBuilder (sb_all_fields b) (sb_fields b) (sb_joins b) (sb_filter_stack b) (sb_limit b) (sb_calculate_score b) (sb_order_by b) (sb_group_by b ++ [expression]) (sb_doc_id_field_name b).

(** [builder.filter(..)] for each. *)
Definition add_filters (filters : list SqlExpression) (builder : SqlBuilder) : outcome SqlBuilder :=
  match st_iter add_filter filters builder with (Ok _, builder) => Ok builder | (Err e, _) => Err e | (Panic r, _) => Panic r end.

(** SRC query_runtime/src/search_executor.rs:3262-3293 create_aggregation_range_filters_from_plan *)
Definition create_aggregation_range_filters_from_plan (range : AggregationRangeBoundsPlan) : outcome (list SqlExpression) :=
  match range with
  | RangeRaw field operator => '(converted_op, converted_value) ← range_operator_to_sql_expression operator; Ok [SComparison (SFieldRef "t" field) converted_op converted_value]
  | RangeStructured field ranges =>
      filters ← try_collect (λ range,
        converted_from_value ← convert_datetime_if_necessary (aw_from range);
        converted_to_value ← convert_datetime_if_necessary (aw_to range);
        Ok [SComparison (SFieldRef "t" field) ">=" (SLiteralString converted_from_value); SComparison (SFieldRef "t" field) "<" (SLiteralString converted_to_value)]) ranges;
      Ok (concat filters)
  end.

(** SRC query_runtime/src/search_executor.rs:3245-3260 create_aggregation_filters_from_plan *)
Definition create_aggregation_filters_from_plan (filter : AggregationFilterPlan) : outcome (list SqlExpression) :=
  match filter with
  | FilterTerm field value => Ok [SComparison (SFieldRef "t" field) "=" (SLiteralString value)]
  | FilterRange range => create_aggregation_range_filters_from_plan range
  end.

(** [(value - 0) / 5 + 0]: the offset and the interval are fixed. *)
Definition histogram_group (field : string) : SqlExpression :=
  SArithmetic (SArithmetic (SArithmetic (SFieldRef "t" field) "-" (SLiteralNonString "0")) "/" (SLiteralNonString "5")) "+" (SLiteralNonString "0").

(** SRC query_runtime/src/search_executor.rs:3085-3243= create_aggregation_from_plan, create_aggregation_processor_from_plan *)
Fixpoint create_aggregation_from_plan (builder : SqlBuilder) (plan : AggregationPlan) : outcome Aggregation :=
  let subs (builder : SqlBuilder) (plans : list AggregationPlan) : outcome (option (list Aggregation)) :=
    match plans with
    | [] => Ok None
    | _ => aggregations ← try_collect (create_aggregation_from_plan builder) plans; Ok (Some aggregations)
    end in
  match plan with
  | ATerms name field _ _ _ _ plans =>
      let field_ref_expr := SFieldRef "t" field in
      let grouped := push_group_by field_ref_expr builder in
      subaggregations ← subs grouped plans;
      sql ← builder_build (push_field "cnt" SCount (push_field "field_name" field_ref_expr grouped));
      Ok (mkAggregation name (ProcTerm sql) subaggregations)
  | AFilter name filter plans =>
      filters ← create_aggregation_filters_from_plan filter;
      builder ← add_filters filters builder;
      sql ← builder_build (push_field "cnt" SCount builder);
      subaggregations ← subs builder plans;
      Ok (mkAggregation name (ProcFilter sql) subaggregations)
  | AMissing name _ _ _ plans => subaggregations ← subs builder plans; Ok (mkAggregation name ProcMissing subaggregations)
  | ADateHistogram name field _ _ _ plans =>
      subaggregations ← subs (push_group_by (histogram_group field) (push_field "doc_count" SCount (push_field "field_value" (SFieldRef "t" field) builder))) plans;
      Ok (mkAggregation name ProcDateHistogram subaggregations)
  | ACardinality name field plans =>
      sql ← builder_build (push_field "type_count" (SCountDistinct (SFieldRef "t" field)) builder);
      subaggregations ← subs builder plans;
      Ok (mkAggregation name (ProcCardinality sql) subaggregations)
  | ARange name range plans =>
      filters ← create_aggregation_range_filters_from_plan range;
      builder ← add_filters filters builder;
      subaggregations ← subs builder plans;
      sql ← builder_build (push_field "cnt" SCount builder);
      Ok (mkAggregation name (ProcRange sql "2025-06-27T20:18:59.356Z-2025-06-27T20:20:59.356Z" 1751055539356 "2025-06-27T20:18:59.356Z" 1751055659356 "2025-06-27T20:20:59.356Z" subaggregations) None)
  | AAverage name field plans =>
      sql ← builder_build (push_field "avg" (SAverage (SFieldRef "t" field)) builder);
      subaggregations ← subs builder plans;
      Ok (mkAggregation name (ProcAverage sql) subaggregations)
  end.

(** SRC query_runtime/src/search_executor.rs:3069-3083 aggregation_plans_to_runtime *)
Definition aggregation_plans_to_runtime (plans : list AggregationPlan) : outcome (option (list Aggregation)) :=
  match plans with
  | [] => Ok None
  | _ => aggregations ← try_collect (create_aggregation_from_plan for_agg) plans; Ok (Some aggregations)
  end.
(** ** Commands *)

(** SRC query_core/src/elastic_search_api_types.rs:3-16 QueryStringSearch *)
Record QueryStringSearch : Type := mkQueryStringSearch {
  qss_allow_partial_search_results : option bool;
  qss_sort : option string;
  qss_ignore_unavailable : option bool;
  qss_allow_no_indices : option bool;
  qss_expand_wildcards : option string;
  qss_rest_total_hits_as_int : option bool;
}.

(** SRC query_runtime/src/elastic_search_commands.rs:162-168 SqlCommand *)
Record SqlCommand : Type := mkSqlCommand {
  sq_sql : SqlQuery;
  sq_table : string;
  sq_aggs : option (list Aggregation);
  sq_query_params : QueryStringSearch;
  sq_calculate_score : bool;
}.

(** SRC query_runtime/src/elastic_search_commands.rs:267-273 SqlCommand::required_extensions *)
Definition required_extensions (command : SqlCommand) : list string := if sq_calculate_score command then ["es"] else [].

Definition target_name (target : SearchTarget) : string := match target with TargetTable table => table | TargetPit pit => pit_id pit end.

(** What a computation on the builder leaves. *)
Definition run_builder (m : ST SqlBuilder ()) (builder : SqlBuilder) : outcome SqlBuilder :=
  match m builder with (Ok _, builder) => Ok builder | (Err e, _) => Err e | (Panic r, _) => Panic r end.

Definition query_builder (plan : SearchPlan) (doc_id_field_name : string) (include_deletes_join : bool) (projection : SearchSqlProjection) : SqlBuilder :=
  for_query_with_options (match projection with FullRow => search_plan_returns_hits plan | SourceProjection => false end) doc_id_field_name include_deletes_join.

(** SRC query_runtime/src/search_executor.rs:1665-1710 compile_sql_command *)
Definition compile_sql_command (plan : SearchPlan) (query : QueryStringSearch) (doc_id_field_name : option string) (include_deletes_join : bool) (projection : SearchSqlProjection) : outcome SqlCommand :=
  let doc_id_field_name := default "_id_seq_no" doc_id_field_name in
  let builder := query_builder plan doc_id_field_name include_deletes_join projection in
  if negb (sn_from plan =? 0)%Z then Err "from != 0 is not implemented"
  else
    builder ← match sn_query plan with Some query_plan => run_builder (apply_query_plan query_plan) builder | None => Ok builder end;
    let builder := append_sort_projection_fields (sn_sort plan) (append_projection_fields_for_query plan doc_id_field_name projection builder) in
    aggs ← aggregation_plans_to_runtime (sn_aggregations plan);
    sql ← builder_build builder;
    Ok (mkSqlCommand sql (target_name (sn_target plan)) aggs query (sb_calculate_score builder)).

(** SRC query_runtime/src/search_executor.rs:1630-1643 compile_legacy_sql_command *)
Definition compile_legacy_sql_command (plan : SearchPlan) (query : QueryStringSearch) (doc_id_field_name : option string) (include_deletes_join : bool) : outcome SqlCommand :=
  compile_sql_command plan query doc_id_field_name include_deletes_join FullRow.

(** SRC query_runtime/src/search_executor.rs:1645-1663 compile_source_projection_sql_command *)
Definition compile_source_projection_sql_command (plan : SearchPlan) (query : QueryStringSearch) (doc_id_field_name : option string) (include_deletes_join : bool) : outcome (option SqlCommand) :=
  if negb (search_plan_returns_hits plan) then Ok None
  else command ← compile_sql_command plan query doc_id_field_name include_deletes_join SourceProjection; Ok (Some command).

Definition exact_alias (index : nat) : string := "ei" +:+ print_int (Z.of_nat index).
Definition exact_join (index : nat) (normalized_doc_id_field_name : string) : string :=
  "INNER JOIN {target_table}_exact_index " +:+ exact_alias index +:+ " ON " +:+ exact_alias index +:+ ".doc_id = t." +:+ sql_name normalized_doc_id_field_name.

(** One group: its join, the test of the field and the test of the value. *)
Definition add_exact_group (normalized_doc_id_field_name : string) (index : nat) (group : ExactConstraintGroup) (builder : SqlBuilder) : outcome SqlBuilder :=
  let alias := exact_alias index in
  let builder := set_joins (sb_joins builder ++ [exact_join index normalized_doc_id_field_name]) builder in
  builder ← run_builder (add_filter (SComparison (SFieldRef alias "field_name") "=" (SLiteralString (eg_field group)))) builder;
  values ← index_strings (eg_values group);
  run_builder (add_filter (match values with
                           | [value] => SComparison (SFieldRef alias "field_value") "=" (SLiteralString value)
                           | _ => SIn (SFieldRef alias "field_value") (SLiteralString <$> values)
                           end)) builder.

(** SRC query_runtime/src/search_executor.rs:1787-1883 compile_exact_sql_query_with_projection *)
Definition compile_exact_sql_query_with_projection (plan : SearchPlan) (query : QueryStringSearch) (doc_id_field_name : option string) (include_deletes_join : bool) (projection : SearchSqlProjection) : outcome (option SqlQuery) :=
  match sn_query plan ≫= exact_constraint_groups_for_query with
  | None | Some [] => Ok None
  | Some groups =>
      let doc_id_field_name := default "_id_seq_no" doc_id_field_name in
      let normalized_doc_id_field_name := denormalized doc_id_field_name in
      builder ← foldM (λ builder '(index, group), add_exact_group normalized_doc_id_field_name index group builder) (query_builder plan doc_id_field_name include_deletes_join projection) (imap pair groups);
      let builder := append_sort_projection_fields (sn_sort plan) (append_projection_fields_for_query plan doc_id_field_name projection builder) in
      _ ← aggregation_plans_to_runtime (sn_aggregations plan);
      sql ← builder_build builder;
      Ok (Some sql)
  end.

(** SRC query_runtime/src/search_executor.rs:1753-1766 compile_exact_sql_query *)
Definition compile_exact_sql_query (plan : SearchPlan) (query : QueryStringSearch) (doc_id_field_name : option string) (include_deletes_join : bool) : outcome (option SqlQuery) :=
  compile_exact_sql_query_with_projection plan query doc_id_field_name include_deletes_join FullRow.

(** SRC query_runtime/src/search_executor.rs:1768-1785 compile_source_projection_exact_sql_query *)
Definition compile_source_projection_exact_sql_query (plan : SearchPlan) (query : QueryStringSearch) (doc_id_field_name : option string) (include_deletes_join : bool) : outcome (option SqlQuery) :=
  if negb (search_plan_returns_hits plan) then Ok None
  else compile_exact_sql_query_with_projection plan query doc_id_field_name include_deletes_join SourceProjection.

(** SRC query_runtime/src/search_executor.rs:1107-1127 private_search_sort_field *)
Definition private_search_sort_field (field : string) (order : option string) (backend : SqlCommand) : option PrivateSearchSortSpec :=
  if String.eqb field "_score" && negb (sq_calculate_score backend) then None
  else
    match to_ascii_lowercase <$> order with
    | None => Some (mkSortSpec field (String.eqb field "_score"))
    | Some value => if String.eqb value "asc" then Some (mkSortSpec field false) else if String.eqb value "desc" then Some (mkSortSpec field true) else None
    end.

(** SRC query_runtime/src/search_executor.rs:1087-1105 private_search_sort_spec *)
Definition private_search_sort_spec (backend : SqlCommand) (plan : SortPlan) : option PrivateSearchSortSpec :=
  match plan with
  | SortBare field => private_search_sort_field field None backend
  | SortField field order _ script => if is_some script then None else private_search_sort_field field order backend
  end.

(** SRC query_runtime/src/search_executor.rs:1077-1085 private_search_sort_specs *)
Definition private_search_sort_specs (plans : list SortPlan) (backend : SqlCommand) : option (list PrivateSearchSortSpec) := mapM (private_search_sort_spec backend) plans.

(** SRC query_runtime/src/search_executor.rs:1183-1195 private_search_terms_order *)
Definition private_search_terms_order (order : TermsOrderPlan) : PrivateSearchTermsOrderSpec :=
  match order with CountAsc => SpecCountAsc | CountDesc => SpecCountDesc | KeyAsc => SpecKeyAsc | KeyDesc => SpecKeyDesc end.

(** SRC query_runtime/src/search_executor.rs:1197-1209 private_search_aggregation_filter *)
Definition private_search_aggregation_filter (filter : AggregationFilterPlan) : option PrivateSearchAggregationFilterSpec :=
  match filter with FilterTerm field value => Some (FilterSpecTerm field value) | FilterRange _ => None end.

(** [plans.iter().map(f).collect::<Option<Vec<_>>>()], for an [f] that recurs. *)
Definition collect_options {A B} (f : A → option B) : list A → option (list B) :=
  fix go (l : list A) : option (list B) := match l with [] => Some [] | x :: l => y ← f x; rest ← go l; Some (y :: rest) end.
(** SRC query_runtime/src/search_executor.rs:1129-1181 private_search_aggregation_spec *)
Fixpoint private_search_aggregation_spec (plan : AggregationPlan) : option PrivateSearchAggregationSpec :=
  match plan with
  | ATerms name field size order missing _ subs => specs ← collect_options private_search_aggregation_spec subs; Some (PTerms name field size (private_search_terms_order <$> order) missing specs)
  | AAverage name field _ => Some (PAverage name field)
  | ACardinality name field _ => Some (PCardinality name field)
  | ADateHistogram name field fixed_interval min_doc_count extended_bounds subs =>
      specs ← collect_options private_search_aggregation_spec subs;
      Some (PDateHistogram name field fixed_interval min_doc_count ((λ bounds, mkBoundsSpec (eb_min bounds) (eb_max bounds)) <$> extended_bounds) specs)
  | AFilter name filter subs => filter ← private_search_aggregation_filter filter; specs ← collect_options private_search_aggregation_spec subs; Some (PFilter name filter specs)
  | AMissing _ _ _ _ _ | ARange _ _ _ => None
  end.
(** SRC query_runtime/src/search_executor.rs:1071-1075 private_search_aggregation_specs *)
Definition private_search_aggregation_specs (plans : list AggregationPlan) : option (list PrivateSearchAggregationSpec) := collect_options private_search_aggregation_spec plans.

(** SRC query_runtime/src/search_executor.rs:93-106= SearchExecutionStrategy, SearchResultOrder *)
Inductive SearchResultOrder : Type := ScoreDesc | PeerConcat | ExplicitSort.
Inductive SearchExecutionStrategy : Type := LegacySqlFanout | TypedNodeMerge (order : SearchResultOrder).

#[global] Instance SearchResultOrder_eq_dec : EqDecision SearchResultOrder.
Proof. solve_decision. Defined.
#[global] Instance SearchExecutionStrategy_eq_dec : EqDecision SearchExecutionStrategy.
Proof. solve_decision. Defined.

(** SRC query_runtime/src/search_executor.rs:933-959 choose_execution_strategy *)
Definition choose_execution_strategy (plan : ReadPlan) (query : QueryStringSearch) (backend : SqlCommand) (typed_aggregation_specs : option (list PrivateSearchAggregationSpec)) (typed_sort_specs : option (list PrivateSearchSortSpec)) : SearchExecutionStrategy :=
  let sorted := match rd_order_by plan with [] => false | _ => true end in
  if (negb (is_some typed_aggregation_specs) && is_some (sq_aggs backend)) || (sorted && negb (is_some typed_sort_specs)) || is_some (qss_sort query) then LegacySqlFanout
  else if sorted then TypedNodeMerge ExplicitSort
  else if sq_calculate_score backend then TypedNodeMerge ScoreDesc
  else TypedNodeMerge PeerConcat.

(** SRC query_runtime/src/search_executor.rs:881-931 validate_search_after *)
Definition validate_search_after (plan : ReadPlan) (query : QueryStringSearch) (typed_sort_specs : option (list PrivateSearchSortSpec)) (execution_strategy : SearchExecutionStrategy) : outcome () :=
  match rd_search_after plan with
  | None => Ok ()
  | Some search_after =>
      if negb (rd_offset plan =? 0) then Err "`search_after` does not support `from`"
      else if is_some (qss_sort query) then Err "`search_after` requires request-body sort, not query-string sort"
      else match typed_sort_specs with
           | None => Err "`search_after` requires an explicit supported sort"
           | Some specs =>
               match specs, rd_order_by plan with
               | [], _ | _, [] => Err "`search_after` requires an explicit sort"
               | _, _ =>
                   if negb (length search_after =? length specs) then Err "`search_after` must include one value per sort field"
                   else if decide (execution_strategy = TypedNodeMerge ExplicitSort) then Ok ()
                   else Err "`search_after` is only supported on typed sorted searches"
               end
           end
  end.

(** The plan of execution has one shard of one segment; what is read of it is how the
    results are merged. *)
(** SRC query_runtime/src/search_executor.rs:75-81 SearchMergePlan *)
Record SearchMergePlan : Type := mkMergePlan { sm_from : Z; sm_size : Z }.

(** SRC query_runtime/src/search_executor.rs:2255-2291 create_execution_plan *)
Definition create_execution_plan (plan : ReadPlan) : SearchMergePlan := mkMergePlan (Z.of_nat (rd_offset plan) mod 2 ^ 32) (Z.of_nat (default 10 (rd_limit plan))).

(** SRC query_runtime/src/search_executor.rs:125-145 SearchCommand *)
Record SearchCommand : Type := mkSearchCommand {
  sd_search_plan : SearchPlan;
  sd_read_plan : ReadPlan;
  sd_merge : SearchMergePlan;
  sd_execution_strategy : SearchExecutionStrategy;
  sd_typed_aggregation_specs : option (list PrivateSearchAggregationSpec);
  sd_typed_sort_specs : list PrivateSearchSortSpec;
  sd_sql_without_deletes : option SqlQuery;
  sd_source_projection_sql : option SqlQuery;
  sd_source_projection_sql_without_deletes : option SqlQuery;
  sd_source_projection_exact_sql : option SqlQuery;
  sd_exact_sql : option SqlQuery;
  sd_exact_sql_without_deletes : option SqlQuery;
  sd_source_projection_exact_sql_without_deletes : option SqlQuery;
  sd_exact_constraints : list PrivateExactConstraintGroup;
  sd_range_constraints : list PrivateSearchRangeConstraint;
  sd_backend : SqlCommand;
}.

(** [if include { Some(m?) } else { None }] *)
Definition when_some {A} (include : bool) (m : outcome A) : outcome (option A) := if include then a ← m; Ok (Some a) else Ok None.
Definition when_option {A} (include : bool) (m : outcome (option A)) : outcome (option A) := if include then m else Ok None.
(** SRC query_runtime/src/search_executor.rs:795-879 search_plan_to_command_with_options *)
Definition search_plan_to_command_with_options (plan : SearchPlan) (query : QueryStringSearch) (doc_id_field_name : option string) (include_deletes_join : bool) : outcome SearchCommand :=
  backend ← compile_legacy_sql_command plan query doc_id_field_name include_deletes_join;
  sql_without_deletes ← when_some include_deletes_join (command ← compile_legacy_sql_command plan query doc_id_field_name false; Ok (sq_sql command));
  source_projection ← compile_source_projection_sql_command plan query doc_id_field_name include_deletes_join;
  source_projection_without_deletes ← when_option include_deletes_join (compile_source_projection_sql_command plan query doc_id_field_name false);
  let read_plan := read_plan_from_search_plan plan in
  exact_constraints ← compile_exact_constraint_groups read_plan;
  let range_constraints := compile_range_constraints read_plan in
  exact_sql ← compile_exact_sql_query plan query doc_id_field_name include_deletes_join;
  exact_sql_without_deletes ← when_option include_deletes_join (compile_exact_sql_query plan query doc_id_field_name false);
  source_projection_exact_sql ← compile_source_projection_exact_sql_query plan query doc_id_field_name include_deletes_join;
  source_projection_exact_sql_without_deletes ← when_option include_deletes_join (compile_source_projection_exact_sql_query plan query doc_id_field_name false);
  let typed_aggregation_specs := private_search_aggregation_specs (sn_aggregations plan) in
  let typed_sort_specs := private_search_sort_specs (sn_sort plan) backend in
  let execution_strategy := choose_execution_strategy read_plan query backend typed_aggregation_specs typed_sort_specs in
  _ ← validate_search_after read_plan query typed_sort_specs execution_strategy;
  Ok (mkSearchCommand plan read_plan (create_execution_plan read_plan) execution_strategy typed_aggregation_specs (default [] typed_sort_specs) sql_without_deletes (sq_sql <$> source_projection)
        (sq_sql <$> source_projection_without_deletes) source_projection_exact_sql exact_sql exact_sql_without_deletes source_projection_exact_sql_without_deletes exact_constraints range_constraints backend).

(** SRC query_runtime/src/search_executor.rs:788-793 search_plan_to_command *)
Definition search_plan_to_command (plan : SearchPlan) (query : QueryStringSearch) : outcome SearchCommand := search_plan_to_command_with_options plan query None true.

(** SRC query_runtime/src/search_executor.rs:2293-2316 update_by_query_plan_to_command *)
Definition update_by_query_plan_to_command (plan : UpdateByQueryPlan) : outcome (SqlCommand * ScriptPlan) :=
  builder ← run_builder (apply_query_plan (uq_query plan)) (for_query true);
  sql ← builder_build builder;
  Ok (mkSqlCommand sql (uq_table plan) None (mkQueryStringSearch None None None None None None) (sb_calculate_score builder), uq_script plan).

(** ** Why a search is slow *)

(** SRC query_runtime/src/search_executor.rs:321-333 typed_node_merge_reason *)
Definition typed_node_merge_reason (result_order : SearchResultOrder) : string :=
  match result_order with
  | ScoreDesc => "Query stays on the typed node-merge path with score-based merging."
  | PeerConcat => "Query stays on the typed node-merge path without legacy SQL fanout."
  | ExplicitSort => "Query stays on the typed node-merge path with typed sort merging."
  end.

Definition find_map {A B} (f : A → option B) : list A → option B := fix go (l : list A) : option B := match l with [] => None | x :: l => match f x with Some y => Some y | None => go l end end.
(** SRC query_runtime/src/search_executor.rs:368-404 aggregation_legacy_path_reason *)
Fixpoint aggregation_legacy_path_reason (plan : AggregationPlan) : option string :=
  match plan with
  | ATerms _ _ _ _ _ _ subs | ADateHistogram _ _ _ _ _ subs => find_map aggregation_legacy_path_reason subs
  | AAverage _ _ _ | ACardinality _ _ _ => None
  | AFilter name filter subs =>
      match filter with
      | FilterTerm _ _ => find_map aggregation_legacy_path_reason subs
      | FilterRange _ => Some ("Filter aggregation `" +:+ name +:+ "` uses a non-term filter, which currently uses the legacy SQL fanout path.")
      end
  | AMissing name _ _ _ _ => Some ("Missing aggregation `" +:+ name +:+ "` currently uses the legacy SQL fanout path.")
  | ARange name _ _ => Some ("Range aggregation `" +:+ name +:+ "` currently uses the legacy SQL fanout path.")
  end.

(** SRC query_runtime/src/search_executor.rs:406-441 sort_legacy_path_reason *)
Definition sort_legacy_path_reason (backend : SqlCommand) (plan : SortPlan) : option string :=
  match plan with
  | SortBare field =>
      if String.eqb field "_score" && negb (sq_calculate_score backend) then Some "Sorting by `_score` without a scoring query currently uses the legacy SQL fanout path." else None
  | SortField field order _ script =>
      if is_some script then Some ("Sort on `" +:+ field +:+ "` uses a script, which currently uses the legacy SQL fanout path.")
      else match to_ascii_lowercase <$> order with
           | None => None
           | Some value =>
               if String.eqb value "asc" || String.eqb value "desc" then None
               else Some ("Sort on `" +:+ field +:+ "` uses unsupported order `" +:+ value +:+ "`, which currently uses the legacy SQL fanout path.")
           end
  end.

(** SRC query_runtime/src/search_executor.rs:335-366 legacy_sql_fanout_reason *)
Definition legacy_sql_fanout_reason (command : SearchCommand) : string :=
  if is_some (rd_search_after (sd_read_plan command)) then "Queries using `search_after` currently require the typed sorted path."
  else match find_map aggregation_legacy_path_reason (sn_aggregations (sd_search_plan command)) with
       | Some reason => reason
       | None =>
           match find_map (sort_legacy_path_reason (sd_backend command)) (sn_sort (sd_search_plan command)) with
           | Some reason => reason
           | None =>
               if is_some (qss_sort (sq_query_params (sd_backend command))) then "Query-string sort currently uses the legacy SQL fanout path."
               else "Query is supported, but it falls back to the legacy SQL fanout path."
           end
       end.

(** SRC query_runtime/src/search_executor.rs:191-202 SearchCommand::performance_assessment *)
Definition performance_assessment (command : SearchCommand) : bool * string :=
  match sd_execution_strategy command with
  | TypedNodeMerge result_order => (true, typed_node_merge_reason result_order)
  | LegacySqlFanout => (false, legacy_sql_fanout_reason command)
  end.
End compile.
