(* ===== verification/PeerSearch.v ===== *)
(** * A search on one peer (query_runtime/src/private_api.rs)

    A peer reads its share of the files of the checkpoints, prunes the files that cannot
    hold a matching row with the statistics of Iceberg files and the summaries of exact
    values, runs the SQL over what is left and returns the best hits with the partial
    aggregations.  Summaries are cached by the path of their file, in a cache of the
    process that calls add to; [try_join_all] runs its futures in order.  Running a plan and
    reading a summary file are the SQL engine's, [SearchEngine]. *)

From S2P Require Import Prelude Text Json JsonText Schema FileSet Contract Checkpoint QueryPath Pruning Float Planner Provider SnapshotServing ServingExec SqlExpr PeerHits SearchAggs SearchCompile.

(** ** What is asked of a peer *)

(** SRC query_runtime/src/peers.rs:62-80 PrivateSearchInvocation *)
Record PrivateSearchInvocation : Type := mkSearchInvocation {
  pi_sql : SqlQuery;
  pi_sql_without_deletes : option SqlQuery;
  pi_exact_sql : option SqlQuery;
  pi_exact_sql_without_deletes : option SqlQuery;
  pi_exact_constraints : list PrivateExactConstraintGroup;
  pi_range_constraints : list PrivateSearchRangeConstraint;
  pi_required_extensions : list string;
  pi_base_extension_suffixes : list string;
  pi_exact_extension_suffixes : list string;
  pi_checkpoints : list CheckpointDescriptor;
  pi_table : string;
  pi_size : Z;
  pi_calculate_score : bool;
  pi_aggregations : list PrivateSearchAggregationSpec;
  pi_sorts : list PrivateSearchSortSpec;
  pi_search_after : option (list Value);
}.

(** SRC query_runtime/src/peers.rs:89-94 PrivateSearchResult *)
Record PrivateSearchResult : Type := mkSearchResult {
  sr_hits : list QueryResultHit;
  sr_total_hits : Z;
  sr_aggregations : list PrivateSearchAggregationPartial;
}.

(** SRC query_runtime/src/private_api.rs:60-64 ExtensionFileSpec *)
Record ExtensionFileSpec : Type := mkExtensionFileSpec { xs_suffix : string; xs_file_path : string }.

(** SRC query_runtime/src/private_api.rs:95-105 RequiredFiles *)
Record RequiredFiles : Type := mkRequiredFiles {
  rf_table_schema : PowdrrSchema;
  rf_iceberg_files : list FileDescriptor;
  rf_all_iceberg_files_count : nat;
  rf_iceberg_file_extensions : list (list ExtensionFileSpec);
  rf_speedboat_files : list FileDescriptor;
  rf_all_speedboat_files_count : nat;
  rf_speedboat_file_extensions : list (list ExtensionFileSpec);
  rf_delete_files : list string;
}.

(** The SQL of a plan is given with the schema its expressions are massaged to. *)
(** SRC query_lib/src/query_execution.rs:40-50 QueryExecutionPlan *)
Record QueryExecutionPlan : Type := mkExecutionPlan {
  ep_sql : SqlQuery;
  ep_table_schema : PowdrrSchema;
  ep_files : list QueryInputFile;
  ep_delete_files : list string;
  ep_use_deletes_table : bool;
  ep_extension_suffixes : option (list string);
  ep_use_cpu_threadpool : bool;
}.

(** [run_plan] executes a plan, [read_summary base extension size] loads the summary file
    of a file as a table and selects the columns [field_name], [field_value] and
    [complete]. *)
Class SearchEngine : Type := {
  run_plan : QueryExecutionPlan → outcome (list RecordBatch);
  read_summary : string → ExtensionFileSpec → Z → outcome (list RecordBatch);
}.

(** ** The files of a peer *)

(** SRC query_runtime/src/private_api.rs:103-131= FilteredFiles, filter_iceberg *)
Definition filter_iceberg `{Environment} (iceberg_metadata : option IcebergMetadata) (index num : Z) : outcome (list FileDescriptor * nat) :=
  match iceberg_metadata with
  | Some im => files ← as_selected_tuples (im_files im) index num; Ok (files, length (file_paths (im_files im)))
  | None => Ok ([], 0)
  end.

(** SRC query_runtime/src/private_api.rs:133-152 filter_speedboat *)
Definition filter_speedboat `{Environment} (speedboat_metadata : option SpeedboatMetadata) (index num : Z) : outcome (list FileDescriptor * nat) :=
  match speedboat_metadata with
  | Some sm => files ← as_selected_tuples (sm_files sm) index num; Ok (files, length (file_paths (sm_files sm)))
  | None => Ok ([], 0)
  end.

(** SRC query_runtime/src/private_api.rs:438-445 normalize_extension_suffix *)
Definition normalize_extension_suffix (suffix : string) : string :=
  let trimmed := (fix go (s : string) : string := match s with String "_" s => go s | _ => s end) suffix in
  if String.eqb trimmed "" then suffix else trimmed.

(** SRC query_runtime/src/private_api.rs:431-436 extension_file_spec *)
Definition extension_file_spec (extension_file : ExtensionFile) : ExtensionFileSpec := mkExtensionFileSpec (normalize_extension_suffix (ef_suffix extension_file)) (ef_location extension_file).

(** SRC control_plane/src/data_contract.rs:299-305 TableMetadataCheckpoint::get_descriptor *)
Definition checkpoint_descriptor (checkpoint : TableMetadataCheckpoint) : CheckpointDescriptor := mkDescriptor (cp_table_name checkpoint) (cp_checkpoint_id checkpoint) (cp_original_checkpoint_id checkpoint).

(** SRC control_plane/src/checkpoint_descriptor.rs:56-60= CheckpointDescriptor::fmt *)
Definition display_descriptor (descriptor : CheckpointDescriptor) : string := cd_table_name descriptor +:+ ":" +:+ cd_checkpoint_id descriptor.

(** SRC query_runtime/src/private_api.rs:405-429 get_extension_files_for_name *)
Definition get_extension_files_for_name (table_metadata : TableMetadataCheckpoint) (extension_name file_path : string) : outcome (list ExtensionFile) :=
  let descriptor := full_name (checkpoint_descriptor table_metadata) in
  extension_metadata ← ok_or (cp_extension_metadata table_metadata !! extension_name)
    (Err ("Checkpoint " +:+ descriptor +:+ " is missing published metadata for required extension " +:+ extension_name));
  ok_or (extension_metadata !! file_path) (Err ("Checkpoint " +:+ descriptor +:+ " is missing published " +:+ extension_name +:+ " files for " +:+ file_path)).

(** SRC query_runtime/src/private_api.rs:386-403 get_extension_files *)
Definition get_extension_files (required_extensions : list string) (table_metadata : TableMetadataCheckpoint) (file_path : string) : outcome (list ExtensionFileSpec) :=
  specs ← try_collect (λ extension_name, files ← get_extension_files_for_name table_metadata extension_name file_path; Ok (map extension_file_spec files)) required_extensions;
  Ok (concat specs).

Section files.
Context {W : Type} `{env : Environment, sp : StateProvider W}.

(** SRC query_runtime/src/private_api.rs:211-244 required_files_from_table_metadata *)
Definition required_files_from_table_metadata (required_extensions : list string) (table_metadata : TableMetadataCheckpoint) (index num : Z) : outcome RequiredFiles :=
  '(iceberg_files, all_iceberg) ← filter_iceberg (cp_iceberg_metadata table_metadata) index num;
  '(speedboat_files, all_speedboat) ← filter_speedboat (cp_speedboat_metadata table_metadata) index num;
  iceberg_file_extensions ← try_collect (λ f, get_extension_files required_extensions table_metadata (file_path f)) iceberg_files;
  speedboat_file_extensions ← try_collect (λ f, get_extension_files required_extensions table_metadata (file_path f)) speedboat_files;
  Ok (mkRequiredFiles (cp_schema table_metadata) iceberg_files all_iceberg iceberg_file_extensions speedboat_files all_speedboat speedboat_file_extensions
        (from_option dm_files [] (cp_deletes_metadata table_metadata))).

(** One iteration of the loop below. *)
Definition merge_required_files (required_extensions : list string) (index num : Z) (merged : RequiredFiles) (table_metadata : TableMetadataCheckpoint) : outcome RequiredFiles :=
  if decide (cp_schema table_metadata ≠ rf_table_schema merged) then Err "Multi-target search currently requires identical schemas"
  else
    next ← required_files_from_table_metadata required_extensions table_metadata index num;
    Ok (mkRequiredFiles (rf_table_schema merged) (rf_iceberg_files merged ++ rf_iceberg_files next) (rf_all_iceberg_files_count merged + rf_all_iceberg_files_count next)
          (rf_iceberg_file_extensions merged ++ rf_iceberg_file_extensions next) (rf_speedboat_files merged ++ rf_speedboat_files next)
          (rf_all_speedboat_files_count merged + rf_all_speedboat_files_count next) (rf_speedboat_file_extensions merged ++ rf_speedboat_file_extensions next)
          (rf_delete_files merged ++ rf_delete_files next)).
(** SRC query_runtime/src/private_api.rs:246-292 required_files_from_table_metadatas *)
Definition required_files_from_table_metadatas (required_extensions : list string) (table_metadatas : list TableMetadataCheckpoint) (index num : Z) : outcome RequiredFiles :=
  match table_metadatas with
  | [] => Err "Only read for one table at a time please."
  | first_table_metadata :: _ => foldM (merge_required_files required_extensions index num) (mkRequiredFiles (cp_schema first_table_metadata) [] 0 [] [] 0 [] []) table_metadatas
  end.

(** SRC query_runtime/src/private_api.rs:170-197 load_checkpoint_table_metadatas *)
Definition load_checkpoint_table_metadatas (w : W) (checkpoints : list CheckpointDescriptor) : outcome (list TableMetadataCheckpoint) :=
  match checkpoints with
  | [] => Err "Only read for one table at a time please."
  | _ => try_collect (λ target_checkpoint,
      match sp_get_checkpoint w target_checkpoint with
      | Ok (Some tmc) => Ok tmc
      | Ok None => Panic ("The table metadata was not found for a known checkpoint: " +:+ display_descriptor target_checkpoint)
      | Err _ => Err "Error calling get checkpoint"
      | Panic reason => Panic reason
      end) checkpoints
  end.

(** SRC query_runtime/src/private_api.rs:199-209 load_checkpoint_table_metadata *)
Definition load_checkpoint_table_metadata (w : W) (checkpoints : list CheckpointDescriptor) : outcome TableMetadataCheckpoint :=
  metadatas ← load_checkpoint_table_metadatas w checkpoints;
  match metadatas with [metadata] => Ok metadata | _ => Err "Only read for one table at a time please." end.

(** SRC query_runtime/src/private_api.rs:154-168 determine_required_files *)
Definition determine_required_files (w : W) (required_extensions : list string) (checkpoints : list CheckpointDescriptor) (index num : Z) : outcome RequiredFiles :=
  if (1 <? length required_extensions) || match checkpoints with [] => true | _ => false end then Err "Only read for one table at a time please."
  else table_metadatas ← load_checkpoint_table_metadatas w checkpoints; required_files_from_table_metadatas required_extensions table_metadatas index num.
End files.

(** ** Pruning *)

(** SRC query_runtime/src/private_api.rs:66-72= ExactPruningFieldSummary, ExactPruningSummary *)
Record ExactPruningFieldSummary : Type := mkFieldSummary { fs_complete : bool; fs_values : gset string }.
Abbreviation ExactPruningSummary := (gmap string ExactPruningFieldSummary).

(** SRC query_runtime/src/private_api.rs:532-538 exact_pruning_extension_file *)
Definition exact_pruning_extension_file (extension_files : list ExtensionFileSpec) : option ExtensionFileSpec :=
  find (λ extension, String.eqb (xs_suffix extension) "exact_pruning") extension_files.

(** SRC query_runtime/src/private_api.rs:605-623 exact_pruning_summary_may_match *)
Definition exact_pruning_summary_may_match (summary : ExactPruningSummary) (exact_constraints : list PrivateExactConstraintGroup) : bool :=
  forallb (λ constraint,
    match summary !! pg_field constraint with
    | None => true
    | Some field_summary => negb (fs_complete field_summary) || existsb (λ value, bool_decide (value ∈ fs_values field_summary)) (pg_values constraint)
    end) exact_constraints.

(** SRC query_runtime/src/private_api.rs:625-660 search_query_predicates *)
Definition search_query_predicates (exact_constraints : list PrivateExactConstraintGroup) (range_constraints : list PrivateSearchRangeConstraint) : list QueryPredicate :=
  ((λ constraint, mkPredicate (pg_field constraint) None (Some (VString <$> pg_values constraint)) None None None None) <$> exact_constraints) ++
  ((λ constraint, mkPredicate (pr_field constraint) None None (pr_gt constraint) (pr_gte constraint) (pr_lt constraint) (pr_lte constraint)) <$> range_constraints).

(** [try_join_all] over the files with their extensions: those to keep. *)
Fixpoint retain {S A} (keep : A → ST S bool) (l : list A) : ST S (list A) :=
  match l with
  | [] => mret []
  | x :: l => kept ← keep x; rest ← retain keep l; mret (if kept : bool then x :: rest else rest)
  end.

(** SRC query_runtime/src/private_api.rs:1000-1010 required_files_have_extension_suffix *)
Definition required_files_have_extension_suffix (required_files : RequiredFiles) (suffix : string) : bool :=
  forallb (existsb (λ extension, String.eqb (xs_suffix extension) suffix)) (rf_iceberg_file_extensions required_files ++ rf_speedboat_file_extensions required_files).

Section search.
Context {W : Type} `{env : Environment, sp : StateProvider W, ft : FloatText, ch : Chrono, fd : FloatDisplay, fd32 : Float32Display, jt : JsonText, ho : HashOrder, sn : SelectNth, se : SearchEngine}.

(** One row of the table of a summary. *)
Definition summary_row (summary : ExactPruningSummary) (row : RecordBatch * nat) : ExactPruningSummary :=
  let '(batch, row_index) := row in
  match batch_string_field batch row_index "field_name" with
  | None => summary
  | Some field_name =>
      let complete := default false (batch_bool_field batch row_index "complete") in
      let entry := default (mkFieldSummary false ∅) (summary !! field_name) in
      let complete := if bool_decide (fs_values entry = ∅) && negb (fs_complete entry) then complete else fs_complete entry && complete in
      <[field_name := mkFieldSummary complete (match batch_string_field batch row_index "field_value" with Some field_value => {[field_value]} ∪ fs_values entry | None => fs_values entry end)]> summary
  end.
(** SRC query_runtime/src/private_api.rs:540-560 exact_pruning_summary_from_batches *)
Definition exact_pruning_summary_from_batches (batches : list RecordBatch) : ExactPruningSummary :=
  foldl summary_row ∅ (batches ≫= λ batch, (λ row_index, (batch, row_index)) <$> seq 0 (rb_num_rows batch)).

(** [EXACT_PRUNING_SUMMARY_CACHE]; [PrivateApiError::from] names the engine. *)
Abbreviation SummaryCache := (gmap string ExactPruningSummary).
Definition engine_error (error : string) : string := "DataFusionError: " +:+ error.
(** SRC query_runtime/src/private_api.rs:562-603 load_exact_pruning_summary *)
Definition load_exact_pruning_summary (base_file_path : string) (top_level_size : Z) (extension_files : list ExtensionFileSpec) : ST SummaryCache (option ExactPruningSummary) :=
  match exact_pruning_extension_file extension_files with
  | None => mret None
  | Some extension_file =>
      cached ← st_gets (λ cache, cache !! xs_file_path extension_file);
      match cached with
      | Some summary => mret (Some summary)
      | None =>
          batches ← st_lift (map_err engine_error (read_summary base_file_path extension_file top_level_size));
          let summary := exact_pruning_summary_from_batches batches in
          _ ← st_modify (λ cache, <[xs_file_path extension_file := summary]> cache);
          mret (Some summary)
      end
  end.

(** SRC query_runtime/src/private_api.rs:662-700 file_may_match_search *)
Definition file_may_match_search (file : FileDescriptor) (extension_files : list ExtensionFileSpec) (iceberg_file_stats : option IcebergFileStats)
    (exact_constraints : list PrivateExactConstraintGroup) (range_constraints : list PrivateSearchRangeConstraint) (parquet : bool) : ST SummaryCache bool :=
  let predicates := search_query_predicates exact_constraints range_constraints in
  if match iceberg_file_stats with
     | Some file_stats =>
         negb (file_may_match_predicates file_stats predicates) ||
         (negb (bool_decide (fst_row_groups file_stats = [])) && negb (existsb (λ row_group, row_group_may_match_predicates row_group predicates) (fst_row_groups file_stats)))
     | None => false
     end then mret false
  else match exact_constraints with
       | [] => mret true
       | _ =>
           summary ← load_exact_pruning_summary (file_path file) (if parquet then 1%Z else file_size file) extension_files;
           mret (match summary with Some summary => exact_pruning_summary_may_match summary exact_constraints | None => true end)
       end.

(** SRC query_runtime/src/private_api.rs:702-771 prune_required_files_for_search *)
Definition prune_required_files_for_search (required_files : RequiredFiles) (table_metadata : TableMetadataCheckpoint)
    (exact_constraints : list PrivateExactConstraintGroup) (range_constraints : list PrivateSearchRangeConstraint) : ST SummaryCache RequiredFiles :=
  let iceberg_file_stats : gmap string IcebergFileStats := from_option (λ metadata, collect ((λ stats, (fst_file_path stats, stats)) <$> im_file_stats metadata)) ∅ (cp_iceberg_metadata table_metadata) in
  iceberg ← retain (λ '(file, extensions), file_may_match_search file extensions (iceberg_file_stats !! file_path file) exact_constraints range_constraints true)
    (zip (rf_iceberg_files required_files) (rf_iceberg_file_extensions required_files));
  speedboat ← retain (λ '(file, extensions), file_may_match_search file extensions None exact_constraints range_constraints false)
    (zip (rf_speedboat_files required_files) (rf_speedboat_file_extensions required_files));
  mret (mkRequiredFiles (rf_table_schema required_files) (map fst iceberg) (rf_all_iceberg_files_count required_files) (map snd iceberg)
          (map fst speedboat) (rf_all_speedboat_files_count required_files) (map snd speedboat) (rf_delete_files required_files)).

(** ** The search *)

Definition query_input (storage : QueryStorageKind) (entry : FileDescriptor * list ExtensionFileSpec) : QueryInputFile :=
  mkQueryInput (fst entry) storage ((λ extension, mkExtensionSpec (xs_suffix extension) (xs_file_path extension)) <$> snd entry).
(** SRC query_runtime/src/private_api.rs:2623-2678 data_query_batches_worker *)
Definition data_query_batches_worker (sql : SqlQuery) (required_files : RequiredFiles) (use_deletes_table use_cpu_threadpool : bool) (extension_suffixes : option (list string)) : outcome (list RecordBatch) :=
  let iceberg_query_files := query_input Iceberg <$> zip (rf_iceberg_files required_files) (rf_iceberg_file_extensions required_files) in
  let speedboat_query_files := query_input Speedboat <$> zip (rf_speedboat_files required_files) (rf_speedboat_file_extensions required_files) in
  map_err engine_error (run_plan (mkExecutionPlan sql (rf_table_schema required_files) (iceberg_query_files ++ speedboat_query_files) (rf_delete_files required_files) use_deletes_table extension_suffixes use_cpu_threadpool)).

(** The files for the invocation: without those of the extension when it is missing and
    the search does not score. *)
Definition invocation_files (w : W) (invocation : PrivateSearchInvocation) (index num : Z) : outcome RequiredFiles :=
  match determine_required_files w (pi_required_extensions invocation) (pi_checkpoints invocation) index num with
  | Err e =>
      if is_some (pi_exact_sql invocation) && negb (pi_calculate_score invocation)
      then match determine_required_files w [] (pi_checkpoints invocation) index num with Err _ => Err e | r => r end
      else Err e
  | r => r
  end.

(** Pruned with the metadata of the first checkpoint. *)
Definition prune_for_invocation (w : W) (invocation : PrivateSearchInvocation) (required_files : RequiredFiles) : ST SummaryCache RequiredFiles :=
  match pi_exact_constraints invocation, pi_range_constraints invocation with
  | [], [] => mret required_files
  | _, _ =>
      target_checkpoint ← st_lift (ok_or (head (pi_checkpoints invocation)) (Panic "index out of bounds"));
      table_metadata ← st_lift (match sp_get_checkpoint w target_checkpoint with
        | Ok (Some table_metadata) => Ok table_metadata
        | Ok None => Err ("Checkpoint " +:+ display_descriptor target_checkpoint +:+ " was not found")
        | Err error => Err ("Error loading checkpoint metadata: " +:+ error)
        | Panic reason => Panic reason
        end);
      prune_required_files_for_search required_files table_metadata (pi_exact_constraints invocation) (pi_range_constraints invocation)
  end.

(** Which of the four statements runs. *)
Definition or_else {A} (left right : option A) : option A := match left with Some _ => left | None => right end.
Definition invocation_sql (invocation : PrivateSearchInvocation) (use_exact_sql use_deletes_table : bool) : SqlQuery :=
  let exact_sql := default (pi_sql invocation) (pi_exact_sql invocation) in
  if use_exact_sql
  then if use_deletes_table then exact_sql
       else default (without_deletes exact_sql) (or_else (pi_exact_sql_without_deletes invocation) (pi_sql_without_deletes invocation))
  else if use_deletes_table then pi_sql invocation
  else default (without_deletes (pi_sql invocation)) (pi_sql_without_deletes invocation).

(** The hits and the aggregations of the rows that were found. *)
Definition search_result (invocation : PrivateSearchInvocation) (batches : list RecordBatch) : outcome PrivateSearchResult :=
  let total_hits := Z.of_nat (sum_list (rb_num_rows <$> batches)) in
  aggregations ← compute_search_aggregation_partials_from_batches batches (pi_aggregations invocation);
  if (pi_size invocation =? 0)%Z then Ok (mkSearchResult [] total_hits aggregations)
  else
    let hit_refs := collect_query_result_hit_refs batches (pi_size invocation) (pi_calculate_score invocation) (pi_sorts invocation) (pi_search_after invocation) in
    hits ← query_result_hits_from_refs batches hit_refs (Some (pi_table invocation));
    Ok (mkSearchResult hits total_hits aggregations).

(** SRC query_runtime/src/private_api.rs:829-998 search_query *)
Definition search_query (w : W) (invocation : PrivateSearchInvocation) (index num : Z) : ST SummaryCache PrivateSearchResult :=
  match pi_checkpoints invocation with
  | [] => mret (mkSearchResult [] 0 [])
  | _ =>
      required_files ← st_lift (invocation_files w invocation index num);
      required_files ← prune_for_invocation w invocation required_files;
      let use_exact_sql := is_some (pi_exact_sql invocation) && required_files_have_extension_suffix required_files "exact_index" in
      let extension_suffixes := if use_exact_sql then pi_exact_extension_suffixes invocation else pi_base_extension_suffixes invocation in
      let use_deletes_table := negb (bool_decide (rf_delete_files required_files = [])) in
      batches ← st_lift (data_query_batches_worker (invocation_sql invocation use_exact_sql use_deletes_table) required_files use_deletes_table true (Some extension_suffixes));
      st_lift (search_result invocation batches)
  end.
End search.
