(* ===== verification/SearchExecute.v ===== *)
(** * The coordinator of a search (query_runtime/src/search_executor.rs)

    The node that receives a search sends one invocation to every peer, merges what they
    answer in the order of the search, keeps what comes after the marker, and cuts the page.
    Searches over several tables are combined into one invocation when no hits are asked
    for, or else run one by one.  The clients of the peers are a list of functions; an error
    is the message of a [QueryFailure], a response with hits the record [QueryResults].  A
    search on the legacy path is run by [execute_command], an argument, and the message of a
    peer that fails is its debug text. *)

From S2P Require Import Prelude Text StableSort Json JsonText Schema Contract Checkpoint QueryPath Pruning Float Planner Provider SnapshotLookup ServingExec SqlExpr SearchPlan PeerHits SearchAggs SearchCompile PeerSearch.

(** ** Responses *)

(** SRC query_runtime/src/elastic_search_responses.rs:61-72= QueryResultTotal, QueryResultTotalComplex *)
Inductive QueryResultTotal : Type :=
| TotalSimple (value : Z)
| TotalComplex (value : Z) (relation : string).

(** [took] and the shards, all of them successful, the hits with their total, and the
    aggregations. *)
(** SRC query_runtime/src/elastic_search_responses.rs:268-276 QueryResults *)
Record QueryResults : Type := mkQueryResults {
  qr_took : Z;
  qr_timed_out : bool;
  qr_shards : Z;
  qr_total : QueryResultTotal;
  qr_max_score : option f64;
  qr_hits : list QueryResultHit;
  qr_aggregations : option (gmap string AggregationResult);
}.

(** SRC query_runtime/src/elastic_search_responses.rs:395-425 QueryResults::success *)
Definition query_results_success (took num_shards total_hits : Z) (max_score : option f64) (hits : list QueryResultHit) (aggregations : option (gmap string AggregationResult)) (total_hits_complex : bool) : QueryResults :=
  mkQueryResults took false num_shards (if total_hits_complex then TotalComplex total_hits "eq" else TotalSimple total_hits) max_score hits aggregations.

(** SRC query_runtime/src/elastic_search_responses.rs:343-369 QueryResults::empty *)
Definition query_results_empty (took num_shards : Z) (aggregations : option (gmap string AggregationResult)) (total_hits_complex : bool) : QueryResults :=
  mkQueryResults took false num_shards (if total_hits_complex then TotalComplex 0 "eq" else TotalSimple 0) None [] aggregations.

(** SRC query_runtime/src/elastic_search_responses.rs:165-179 compare_query_result_hits_desc *)
Definition compare_query_result_hits_desc (left right : QueryResultHit) : comparison :=
  then_cmp (then_cmp (compare_scores_desc (qh_score left) (qh_score right)) (qh_seq_no right ?= qh_seq_no left)%Z) (option_compare (qh_id left) (qh_id right)).

(** ** One invocation for several tables *)

(** Equal texts of two queries: the derived serialisation writes every field under its
    name and every variant with its name. *)
Definition list_eqb {A} (eqb : A → A → bool) : list A → list A → bool :=
  fix go (l r : list A) : bool := match l, r with [], [] => true | x :: l, y :: r => eqb x y && go l r | _, _ => false end.
Definition option_eqb {A} (eqb : A → A → bool) (l r : option A) : bool := match l, r with Some x, Some y => eqb x y | None, None => true | _, _ => false end.
Fixpoint expression_eqb (l r : SqlExpression) {struct l} : bool :=
  match l, r with
  | SAnd xs, SAnd ys | SOr xs, SOr ys => list_eqb expression_eqb xs ys
  | SArithmetic a op b, SArithmetic a' op' b' | SComparison a op b, SComparison a' op' b' => expression_eqb a a' && String.eqb op op' && expression_eqb b b'
  | SAverage a, SAverage b | SCountDistinct a, SCountDistinct b | SIsNull a, SIsNull b | SNot a, SNot b => expression_eqb a b
  | SCount, SCount => true
  | SFieldRef t f, SFieldRef t' f' => String.eqb t t' && String.eqb f f'
  | SIn a xs, SIn b ys => expression_eqb a b && list_eqb expression_eqb xs ys
  | SLike a b, SLike a' b' => expression_eqb a a' && expression_eqb b b'
  | SLiteralNonString a, SLiteralNonString b | SLiteralString a, SLiteralString b => String.eqb a b
  | SNamedStruct xs, SNamedStruct ys =>
      (fix go (xs ys : list (string * SqlExpression)) : bool :=
        match xs, ys with
        | [], [] => true
        | (n, x) :: xs, (m, y) :: ys => String.eqb n m && expression_eqb x y && go xs ys
        | _, _ => false
        end) xs ys
  | SqlExpr.SNull t, SqlExpr.SNull t' => bool_decide (t = t')
  | _, _ => false
  end.
(** SRC query_runtime/src/search_executor.rs:606-608 same_sql_query *)
Definition same_sql_query (left right : SqlQuery) : bool :=
  Bool.eqb (sq_dummy left) (sq_dummy right) && Bool.eqb (sq_all_fields left) (sq_all_fields right) &&
  list_eqb (λ a b, String.eqb (fe_name a) (fe_name b) && expression_eqb (fe_expression a) (fe_expression b)) (sq_fields left) (sq_fields right) &&
  String.eqb (sq_joins left) (sq_joins right) && option_eqb expression_eqb (sq_filters left) (sq_filters right) && option_eqb Z.eqb (sq_limit left) (sq_limit right) &&
  list_eqb expression_eqb (sq_order_by left) (sq_order_by right) && list_eqb expression_eqb (sq_group_by left) (sq_group_by right).

(** SRC query_runtime/src/search_executor.rs:610-616 same_optional_sql_query *)
Definition same_optional_sql_query (left right : option SqlQuery) : bool :=
  option_eqb same_sql_query left right.

Definition terms_order_eqb (l r : PrivateSearchTermsOrderSpec) : bool :=
  match l, r with SpecCountAsc, SpecCountAsc | SpecCountDesc, SpecCountDesc | SpecKeyAsc, SpecKeyAsc | SpecKeyDesc, SpecKeyDesc => true | _, _ => false end.
Fixpoint spec_eqb (l r : PrivateSearchAggregationSpec) {struct l} : bool :=
  match l, r with
  | PTerms n f s o m subs, PTerms n' f' s' o' m' subs' =>
      String.eqb n n' && String.eqb f f' && option_eqb Z.eqb s s' && option_eqb terms_order_eqb o o' && option_eqb value_eqb m m' && list_eqb spec_eqb subs subs'
  | PAverage n f, PAverage n' f' | PCardinality n f, PCardinality n' f' => String.eqb n n' && String.eqb f f'
  | PDateHistogram n f i m b subs, PDateHistogram n' f' i' m' b' subs' =>
      String.eqb n n' && String.eqb f f' && String.eqb i i' && option_eqb Z.eqb m m' &&
      option_eqb (λ x y, value_eqb (ebs_min x) (ebs_min y) && value_eqb (ebs_max x) (ebs_max y)) b b' && list_eqb spec_eqb subs subs'
  | PFilter n (FilterSpecTerm f v) subs, PFilter n' (FilterSpecTerm f' v') subs' => String.eqb n n' && String.eqb f f' && String.eqb v v' && list_eqb spec_eqb subs subs'
  | _, _ => false
  end.
(** SRC query_runtime/src/search_executor.rs:580-604 can_combine_private_search_invocations *)
Definition can_combine_private_search_invocations (left right : PrivateSearchInvocation) : bool :=
  same_sql_query (pi_sql left) (pi_sql right) && same_optional_sql_query (pi_sql_without_deletes left) (pi_sql_without_deletes right) &&
  same_optional_sql_query (pi_exact_sql left) (pi_exact_sql right) && same_optional_sql_query (pi_exact_sql_without_deletes left) (pi_exact_sql_without_deletes right) &&
  list_eqb (λ a b, String.eqb (pg_field a) (pg_field b) && list_eqb String.eqb (pg_values a) (pg_values b)) (pi_exact_constraints left) (pi_exact_constraints right) &&
  list_eqb (λ a b, String.eqb (pr_field a) (pr_field b) && opt_value_eqb (pr_gt a) (pr_gt b) && opt_value_eqb (pr_gte a) (pr_gte b) && opt_value_eqb (pr_lt a) (pr_lt b) && opt_value_eqb (pr_lte a) (pr_lte b))
    (pi_range_constraints left) (pi_range_constraints right) &&
  list_eqb String.eqb (pi_required_extensions left) (pi_required_extensions right) && list_eqb String.eqb (pi_base_extension_suffixes left) (pi_base_extension_suffixes right) &&
  list_eqb String.eqb (pi_exact_extension_suffixes left) (pi_exact_extension_suffixes right) && (pi_size left =? pi_size right)%Z && Bool.eqb (pi_calculate_score left) (pi_calculate_score right) &&
  list_eqb spec_eqb (pi_aggregations left) (pi_aggregations right) &&
  list_eqb (λ a b, String.eqb (pss_field a) (pss_field b) && Bool.eqb (pss_descending a) (pss_descending b)) (pi_sorts left) (pi_sorts right) &&
  option_eqb (list_eqb value_eqb) (pi_search_after left) (pi_search_after right).

Section coordinator.
Context {W : Type} `{sp : StateProvider W, jt : JsonText, ch : Chrono, ho : HashOrder}.

(** ** The order of hits *)

(** [compare_sort_values] is the same function as [compare_values] of the serving path. *)
Definition json_sort_value (values : option (list Value)) (index : nat) : Value := default VNull (default [] values !! index).
(** SRC query_runtime/src/search_executor.rs:1250-1297= compare_query_result_hits_by_sort, compare_sort_values *)
Definition compare_query_result_hits_by_sort (sorts : list PrivateSearchSortSpec) (left right : QueryResultHit) : comparison :=
  compare_by_sorts compare_values (json_sort_value (qh_sort left)) (json_sort_value (qh_sort right)) 0 sorts
    (then_cmp (qh_seq_no right ?= qh_seq_no left)%Z (option_compare (qh_id left) (qh_id right))).

(** SRC query_runtime/src/search_executor.rs:1299-1320 compare_hit_to_search_after *)
Definition compare_hit_to_search_after (hit : QueryResultHit) (search_after : list Value) (sorts : list PrivateSearchSortSpec) : comparison :=
  compare_by_sorts compare_values (json_sort_value (qh_sort hit)) (λ index, default VNull (search_after !! index)) 0 sorts Eq.

(** SRC query_runtime/src/search_executor.rs:1322-1342 apply_search_after *)
Definition apply_search_after (hits : list QueryResultHit) (search_after : option (list Value)) (result_order : SearchResultOrder) (sorts : list PrivateSearchSortSpec) : outcome (list QueryResultHit) :=
  match search_after with
  | None => Ok hits
  | Some search_after =>
      match result_order with
      | ExplicitSort => Ok (filter (λ hit, compare_hit_to_search_after hit search_after sorts = Gt) hits)
      | _ => Err "`search_after` requires explicit sort"
      end
  end.

(** ** The page *)

(** SRC query_runtime/src/search_executor.rs:152-155 TypedSearchSourceResults *)
Record TypedSearchSourceResults : Type := mkSourceResults { ts_peer_results : list PrivateSearchResult; ts_num_shards : Z }.

Definition z_sum (l : list Z) : Z := foldr Z.add 0%Z l.
Definition sort_hits (result_order : SearchResultOrder) (sorts : list PrivateSearchSortSpec) (hits : list QueryResultHit) : list QueryResultHit :=
  match result_order with
  | ScoreDesc => sort_by compare_query_result_hits_desc hits
  | ExplicitSort => sort_by (compare_query_result_hits_by_sort sorts) hits
  | PeerConcat => hits
  end.
Definition max_score (result_order : SearchResultOrder) (sorts : list PrivateSearchSortSpec) (paged_hits : list QueryResultHit) : option f64 :=
  match result_order with
  | ScoreDesc => head paged_hits ≫= qh_score
  | _ => match sorts with spec :: _ => if String.eqb (pss_field spec) "_score" then head paged_hits ≫= qh_score else None | [] => None end
  end.
(** SRC query_runtime/src/search_executor.rs:650-740 build_typed_search_response *)
Definition build_typed_search_response (command : SearchCommand) (command_results : list TypedSearchSourceResults) (result_order : SearchResultOrder) : outcome QueryResults :=
  let total_num_shards := z_sum (ts_num_shards <$> command_results) in
  let results := command_results ≫= ts_peer_results in
  let total_hits := z_sum (sr_total_hits <$> results) in
  let aggregation_partials := sr_aggregations <$> results in
  let hits := sort_hits result_order (sd_typed_sort_specs command) (results ≫= sr_hits) in
  hits ← apply_search_after hits (rd_search_after (sd_read_plan command)) result_order (sd_typed_sort_specs command);
  let paged_hits := take (Z.to_nat (sm_size (sd_merge command))) (drop (Z.to_nat (sm_from (sd_merge command))) hits) in
  let total_hits_complex := negb (default false (qss_rest_total_hits_as_int (sq_query_params (sd_backend command)))) in
  aggregations ← match sd_typed_aggregation_specs command with
                 | None | Some [] => Ok None
                 | Some specs => merged ← merge_typed_aggregation_partials aggregation_partials specs; Ok (Some merged)
                 end;
  if (total_hits =? 0)%Z then Ok (query_results_empty 50 total_num_shards aggregations total_hits_complex)
  else Ok (query_results_success 50 total_num_shards total_hits (max_score result_order (sd_typed_sort_specs command) paged_hits) paged_hits aggregations total_hits_complex).

(** ** The invocation of a command *)

(** SRC query_runtime/src/search_executor.rs:1620-1622= table_schema_has_source_field *)
Definition table_schema_has_source_field (schema : PowdrrSchema) : bool := existsb (λ field, String.eqb (name field) "_source") (fields schema).

(** SRC query_runtime/src/search_executor.rs:272-295 SearchCommand::current_target_snapshots *)
Definition current_target_snapshots (w : W) (legacy_command : SqlCommand) : outcome (list CheckpointDescriptor) :=
  match sp_get_published_active_servable_checkpoint w (sq_table legacy_command) with
  | Ok (Some checkpoint_id) => Ok [new_descriptor (sq_table legacy_command) checkpoint_id]
  | Ok None | Err _ => Ok []
  | Panic reason => Panic reason
  end.

(** SRC query_runtime/src/search_executor.rs:297-318 SearchCommand::can_use_source_projection *)
Definition can_use_source_projection (w : W) (command : SearchCommand) (checkpoints : list CheckpointDescriptor) : outcome bool :=
  if negb (search_plan_returns_hits (sd_search_plan command)) || negb (is_some (sd_source_projection_sql command)) then Ok false
  else match checkpoints with
       | [] => Ok false
       | target_checkpoint :: _ =>
           match sp_get_checkpoint w target_checkpoint with
           | Ok (Some table_metadata) => Ok (table_schema_has_source_field (cp_schema table_metadata))
           | Ok None | Err _ => Ok false
           | Panic reason => Panic reason
           end
       end.

(** SRC query_runtime/src/search_executor.rs:204-270 SearchCommand::private_search_invocation *)
Definition private_search_invocation (w : W) (command : SearchCommand) : outcome PrivateSearchInvocation :=
  let legacy_command := sd_backend command in
  checkpoints ← current_target_snapshots w legacy_command;
  let size := (sm_from (sd_merge command) + sm_size (sd_merge command))%Z in
  use_source_projection ← can_use_source_projection w command checkpoints;
  let required_extensions := required_extensions legacy_command in
  let required_extensions := if is_some (sd_exact_sql command) && negb (existsb (String.eqb "es") required_extensions) then required_extensions ++ ["es"] else required_extensions in
  let projected (projection full : option SqlQuery) := if use_source_projection : bool then or_else projection full else full in
  Ok (mkSearchInvocation (default (sq_sql legacy_command) (projected (sd_source_projection_sql command) None))
        (projected (sd_source_projection_sql_without_deletes command) (sd_sql_without_deletes command))
        (projected (sd_source_projection_exact_sql command) (sd_exact_sql command))
        (projected (sd_source_projection_exact_sql_without_deletes command) (sd_exact_sql_without_deletes command))
        (sd_exact_constraints command) (sd_range_constraints command) required_extensions
        (base_extension_suffixes (sd_read_plan command) (sq_calculate_score legacy_command)) (exact_extension_suffixes (sd_read_plan command))
        checkpoints (sq_table legacy_command) size (sq_calculate_score legacy_command) (default [] (sd_typed_aggregation_specs command)) (sd_typed_sort_specs command)
        (rd_search_after (sd_read_plan command))).

(** ** Sending it to the peers *)

Section peers.
Context (peers : list (PrivateSearchInvocation → Z → Z → outcome PrivateSearchResult)).

Definition call_peers (invocation : PrivateSearchInvocation) : outcome (list PrivateSearchResult) :=
  try_collect (λ '(index, peer), peer invocation (Z.of_nat index) (Z.of_nat (length peers))) (imap pair peers).

(** SRC query_runtime/src/search_executor.rs:618-648 execute_private_search_invocation *)
Definition execute_private_search_invocation (invocation : PrivateSearchInvocation) : outcome TypedSearchSourceResults :=
  match pi_checkpoints invocation with
  | [] => Ok (mkSourceResults [] 1)
  | _ => peer_results ← call_peers invocation; Ok (mkSourceResults peer_results (Z.of_nat (length peers)))
  end.

(** SRC query_runtime/src/search_executor.rs:526-540 execute_typed_search_source_results *)
Definition execute_typed_search_source_results (w : W) (command : SearchCommand) : outcome TypedSearchSourceResults :=
  invocation ← private_search_invocation w command; execute_private_search_invocation invocation.

(** The loop over the commands: none when one of them cannot be combined with the first. *)
Fixpoint combine_loop (w : W) (invocations : list PrivateSearchInvocation) (commands : list SearchCommand) : outcome (option (list PrivateSearchInvocation)) :=
  match commands with
  | [] => Ok (Some invocations)
  | command :: commands =>
      invocation ← private_search_invocation w command;
      if match invocations with [] => false | first :: _ => negb (can_combine_private_search_invocations first invocation) end then Ok None
      else combine_loop w (invocations ++ [invocation]) commands
  end.
Definition with_checkpoints (checkpoints : list CheckpointDescriptor) (i : PrivateSearchInvocation) : PrivateSearchInvocation :=
  mkSearchInvocation (pi_sql i) (pi_sql_without_deletes i) (pi_exact_sql i) (pi_exact_sql_without_deletes i) (pi_exact_constraints i) (pi_range_constraints i) (pi_required_extensions i)
    (pi_base_extension_suffixes i) (pi_exact_extension_suffixes i) checkpoints (pi_table i) (pi_size i) (pi_calculate_score i) (pi_aggregations i) (pi_sorts i) (pi_search_after i).
(** SRC query_runtime/src/search_executor.rs:542-578 execute_combined_typed_search_source_results *)
Definition execute_combined_typed_search_source_results (w : W) (commands : list SearchCommand) : outcome (option TypedSearchSourceResults) :=
  if (length commands <=? 1) || existsb (λ command, negb (sm_size (sd_merge command) =? 0)%Z) commands then Ok None
  else
    combined ← combine_loop w [] commands;
    match combined with
    | None => Ok None
    | Some [] => Ok (Some (mkSourceResults [] 1))
    | Some ((first :: _) as invocations) =>
        result ← execute_private_search_invocation (with_checkpoints (invocations ≫= pi_checkpoints) first);
        Ok (Some result)
    end.

Context (execute_command : SearchCommand → outcome QueryResults).
(** SRC query_runtime/src/search_executor.rs:473-524 execute_multi_target_search_commands *)
Definition execute_multi_target_search_commands (w : W) (commands : list SearchCommand) : outcome QueryResults :=
  match commands with
  | [] => Ok (query_results_empty 50 0 None true)
  | first_command :: _ =>
      match sd_execution_strategy first_command with
      | LegacySqlFanout =>
          if (1 <? length commands) then Err "Multi-target query requires a legacy merge path that is not yet supported"
          else execute_command first_command
      | TypedNodeMerge result_order =>
          if existsb (λ command, negb (bool_decide (sd_execution_strategy command = sd_execution_strategy first_command))) commands
          then Err "Multi-target query mix requires the legacy path and is not yet supported"
          else
            combined ← execute_combined_typed_search_source_results w commands;
            command_results ← match combined with
                              | Some combined_result => Ok [combined_result]
                              | None => try_collect (execute_typed_search_source_results w) commands
                              end;
            build_typed_search_response first_command command_results result_order
      end
  end.

(** SRC query_runtime/src/search_executor.rs:461-471 execute_search_command *)
Definition execute_search_command (w : W) (command : SearchCommand) : outcome QueryResults :=
  match sd_execution_strategy command with
  | LegacySqlFanout => execute_command command
  | TypedNodeMerge _ => execute_multi_target_search_commands w [command]
  end.

(** The total and the number of shards. *)
(** SRC query_runtime/src/search_executor.rs:742-786 execute_count_command *)
Definition execute_count_command (w : W) (command : SearchCommand) : outcome (Z * Z) :=
  invocation ← private_search_invocation w command;
  match pi_checkpoints invocation with
  | [] => Ok (0%Z, 1%Z)
  | _ => peer_results ← call_peers invocation; Ok (z_sum (sr_total_hits <$> peer_results), Z.of_nat (length peers))
  end.
End peers.
End coordinator.
