(* ===== verification/SearchExecuteTheory.v ===== *)
(** * A search returns the best hits of all peers

    Every peer keeps only the hits its answer can need, trimming its buffer with an
    unstable selection while it reads; the coordinator merges the answers.  What is kept
    always holds the best hits ([holds_best]), which is closed under reading, trimming and
    merging, so that the page is a page of the best hits of all the rows that were found. *)

From S2P Require Import Prelude Text StableSort Json JsonText Schema Contract Checkpoint QueryPath Pruning Float Planner Provider SnapshotLookup SnapshotLookupTheory TopKTheory ServingExec SqlExpr SearchPlan DateMath PeerHits SearchAggs SearchCompile PeerSearch SearchExecute.

Module SearchExecuteTheory.
Import SnapshotLookupTheory TopKTheory.

(** ** What a buffer holds *)

Section best.
Context {A : Type} (cmp : A → A → comparison) `{!TotalPreorder cmp}.

(** Of [all], the hits that were given up are no better than [n] that are kept. *)
Definition holds_best (n : nat) (all kept : list A) : Prop :=
  ∃ dropped, kept ++ dropped ≡ₚ all ∧ ∀ y, y ∈ dropped → n ≤ length (filter (λ z, cmp z y ≠ Gt) kept).

Lemma holds_all n l : holds_best n l l.
Proof. exists []. split; [by rw app_nil_r|]. by intros ? ?%not_elem_of_nil. Qed.

Lemma holds_app n a b ka kb : holds_best n a ka → holds_best n b kb → holds_best n (a ++ b) (ka ++ kb).
Proof.
  intros (da & Ha & Hda) (db & Hb & Hdb). exists (da ++ db). split.
  - rw -Ha -Hb -!app_assoc. apply Permutation_app_head. rw !app_assoc. apply Permutation_app_tail, Permutation_app_comm.
  - intros y [Hy|Hy]%elem_of_app; rw filter_app length_app; [specialize (Hda y Hy)|specialize (Hdb y Hy)]; lia.
Qed.

Lemma holds_full n all kept y : holds_best n all kept → (n ≤ length (filter (λ z, cmp z y ≠ Gt) kept)) → holds_best n (all ++ [y]) kept.
Proof.
  intros (d & Hp & Hd) Hy. exists (d ++ [y]). split; [by rw app_assoc Hp|]. intros z [Hz|Hz]%elem_of_app; [by apply Hd|].
  by apply list_elem_of_singleton in Hz as ->.
Qed.

(** The first [n] by a selection hold the best. *)
Lemma holds_select n all kept front back : holds_best n all kept → front ++ back ≡ₚ kept → length front = n → (∀ x y, x ∈ front → y ∈ back → cmp x y ≠ Gt) →
  holds_best n all front.
Proof.
  intros (d & Hp & Hd) Hk Hn Hfb. exists (back ++ d). split; [by rw app_assoc Hk|].
  assert (Hall : ∀ y, (∀ x, x ∈ front → cmp x y ≠ Gt) → n ≤ length (filter (λ z, cmp z y ≠ Gt) front)).
  { intros y Hy. rw filter_all; [by rw Forall_forall|]. by rw Hn. }
  intros y [Hy|Hy]%elem_of_app; [apply Hall; intros x Hx; by apply Hfb|]. specialize (Hd y Hy). rw -Hk filter_app length_app in Hd.
  destruct (decide (filter (λ z, cmp z y ≠ Gt) back = [])) as [Hb|Hb]; [rw Hb /= in Hd; lia|]. apply Hall. intros x Hx.
  destruct (filter (λ z, cmp z y ≠ Gt) back) as [|w ws] eqn:Hw; [done|].
  assert (Hin : w ∈ filter (λ z, cmp z y ≠ Gt) back) by (rw Hw; by left). apply list_elem_of_filter in Hin as [Hwy Hwb]. exact (cmp_trans x w y (Hfb x w Hx Hwb) Hwy).
Qed.

Lemma holds_perm n all all' kept : all ≡ₚ all' → holds_best n all kept → holds_best n all' kept.
Proof. intros Ha (d & Hp & Hd). exists d. split; [by rw Hp|done]. Qed.

Lemma holds_reorder n all kept kept' : kept ≡ₚ kept' → holds_best n all kept → holds_best n all kept'.
Proof. intros Hk (d & Hp & Hd). exists d. split; [by rw -Hk|]. intros y Hy. rw -Hk. by apply Hd. Qed.

Lemma holds_length n all kept : holds_best n all kept → length kept ≤ length all ∧ Nat.min n (length all) ≤ length kept.
Proof.
  intros (d & Hp & Hd). pose proof (Permutation_length Hp) as Hl. rw length_app in Hl. split; [lia|]. destruct d as [|y d]; [cbn in Hl; lia|].
  specialize (Hd y ltac:(by left)). pose proof (length_filter (λ z, cmp z y ≠ Gt) kept). lia.
Qed.

(** The first [n] of what is kept, in order, are the answer. *)
Lemma holds_answer n all kept : holds_best n all kept → top_k cmp n all (take n (sort_by cmp kept)).
Proof.
  intros Hh. destruct (answer_sorted cmp n kept) as (rest & Hr & Hs & Hle & Hl). set (answer := take n (sort_by cmp kept)) in *.
  pose proof (holds_length n all kept Hh) as Hlen. assert (Hfront : holds_best n all answer).
  { destruct (decide (length kept ≤ n)) as [Hk|Hk].
    - assert (rest = []) as -> by (destruct rest; [done|]; pose proof (Permutation_length Hr) as Hc; rw length_app in Hc; cbn in Hc; lia). rw app_nil_r in Hr.
      apply (holds_reorder n all kept); [by symmetry|done].
    - apply (holds_select n all kept answer rest); [done|done|lia|done]. }
  pose proof (holds_length n all answer Hfront). destruct Hfront as (d & Hp & Hd). exists d. split_and!; [done|done| |lia].
  intros x y Hx Hy. specialize (Hd y Hy). pose proof (length_filter (λ z, cmp z y ≠ Gt) answer).
  destruct (decide (cmp x y ≠ Gt)) as [|Hn]; [done|]. exfalso. apply list_elem_of_split in Hx as (l1 & l2 & Hx). rw Hx filter_app filter_cons decide_False // length_app in Hd.
  pose proof (length_filter (λ z, cmp z y ≠ Gt) l1). pose proof (length_filter (λ z, cmp z y ≠ Gt) l2). pose proof (f_equal length Hx) as Hc. rw length_app in Hc. cbn in Hc. lia.
Qed.

Lemma answer_holds n all answer : top_k cmp n all answer → holds_best n all answer.
Proof.
  intros (rest & Hp & _ & Hle & Hl). exists rest. split; [done|]. intros y Hy. rw filter_all; [rw Forall_forall; intros x Hx; by apply Hle|].
  destruct (answer_full n all answer rest Hp Hl) as [->|]; [by apply not_elem_of_nil in Hy|lia].
Qed.
End best.

Lemma answers_fmap {A B} (f : A → B) (cmp : B → B → comparison) n all answer : top_k (λ x y, cmp (f x) (f y)) n all answer → top_k cmp n (f <$> all) (f <$> answer).
Proof.
  intros (rest & Hp & Hs & Hle & Hl). exists (f <$> rest). split_and!.
  - by rw -fmap_app Hp.
  - clear -Hs. induction Hs as [|x l _ IH Hx]; [constructor|]. cbn. constructor; [done|]. rw Forall_fmap. exact Hx.
  - intros ? ? (x & -> & Hx)%list_elem_of_fmap (y & -> & Hy)%list_elem_of_fmap. by apply Hle.
  - by rw !length_fmap.
Qed.

(** ** Peers and coordinator agree on the order *)

Section order.
Context `{jt : JsonText, !JsonTextLaws jt}.

(** A position of the sort holds values of one kind, or nulls; integers are exact as
    doubles. *)
Inductive ScalarKind : Type := KindNumber | KindString | KindBool.
Definition of_kind (kind : ScalarKind) (value : SortScalar) : Prop :=
  match value, kind with
  | SNull, _ | SFloat _, KindNumber | SString _, KindString | SBool _, KindBool => True
  | SInt n, KindNumber => (Z.abs n ≤ 2 ^ 53)%Z
  | SUInt n, KindNumber => (0 ≤ n ≤ 2 ^ 53)%Z
  | _, _ => False
  end.

Lemma int_as_f64 n : (Z.abs n ≤ 2 ^ 53)%Z → as_f64 (if (n <? 0)%Z then NegInt n else PosInt n) = mkF64 n 0.
Proof. intros Hn. assert (Hr : round53 n = n) by (by apply round53_exact). by case_match; rw /= Hr. Qed.

Lemma f64_compare_int a b : f64_compare (mkF64 a 0) (mkF64 b 0) = (a ?= b)%Z.
Proof. rw /f64_compare /= !Z.mul_1_r. done. Qed.

Lemma scalars_agree kind s t : of_kind kind s → of_kind kind t → compare_sort_scalars s t = compare_values (sort_scalar_to_json s) (sort_scalar_to_json t).
Proof.
  assert (Hr' : ∀ n, (Z.abs n ≤ 2 ^ 53)%Z → round53 n = n) by (intros; by apply round53_exact).
  destruct kind, s as [|n|n|f|x|b], t as [|m|m|g|y|c]; cbn [of_kind]; intros Hs Ht; try done; cbn [sort_scalar_to_json compare_sort_scalars sort_scalar_numeric_as_f64];
    rw /int; cbn [compare_values]; rw ?int_as_f64 //; cbn [as_f64]; rw ?Hr' ?f64_compare_int //; try lia.
  - destruct (Z.ltb_spec n 0); [|done]. symmetry. apply Z.compare_lt_iff. lia.
  - destruct (Z.ltb_spec m 0); [|done]. symmetry. apply Z.compare_gt_iff. lia.
Qed.

(** The value of a marker is the value of a hit. *)
Lemma scalar_read_back kind s : of_kind kind s → sort_scalar_to_json (sort_scalar_from_json_value (sort_scalar_to_json s)) = sort_scalar_to_json s ∧ of_kind kind (sort_scalar_from_json_value (sort_scalar_to_json s)).
Proof.
  destruct s as [|n|n|f|x|b], kind; cbn [of_kind]; intros Hs; try done; cbn [sort_scalar_to_json sort_scalar_from_json_value]; rw /int /sort_scalar_from_json_value.
  - destruct (Z.ltb_spec n 0); cbn [as_i64].
    + split; [|done]. cbn. rw /int. by destruct (Z.ltb_spec n 0); [|lia].
    + destruct (Z.ltb_spec n (2 ^ 63)); [|lia]. split; [|done]. cbn. rw /int. by destruct (Z.ltb_spec n 0); [lia|].
  - cbn [as_i64]. destruct (Z.ltb_spec n (2 ^ 63)); [|lia]. split; [|cbn; lia]. cbn. rw /int. by destruct (Z.ltb_spec n 0); [lia|].
Qed.

Lemma compare_by_sorts_ext {A B} (cmp : A → A → comparison) (cmp' : B → B → comparison) l r l' r' sorts o : (∀ i, cmp (l i) (r i) = cmp' (l' i) (r' i)) →
  ∀ i, compare_by_sorts cmp l r i sorts o = compare_by_sorts cmp' l' r' i sorts o.
Proof. intros Hc. induction sorts as [|sort sorts IH]; intros i; [done|]. cbn [compare_by_sorts]. by rw Hc IH. Qed.

(** The values of a hit at the positions of the sort. *)
Definition sortable (kinds : nat → ScalarKind) (values : nat → SortScalar) : Prop := ∀ i, of_kind (kinds i) (values i).

Lemma option_compare_total : TotalPreorder option_compare.
Proof.
  split.
  - intros [x|] [y|]; cbn; [apply String.compare_antisym|done..].
  - intros [x|] [y|] [z|]; cbn; try done. apply (cmp_trans (cmp:=String.compare)).
Qed.

Lemma tie_total : TotalPreorder (λ left right, then_cmp (qh_seq_no right ?= qh_seq_no left)%Z (option_compare (qh_id left) (qh_id right))).
Proof.
  apply total_then; [|apply total_on, option_compare_total]. split.
  - intros x y. apply Z.compare_antisym.
  - intros x y z. rw !Z.compare_le_iff. lia.
Qed.

Lemma by_sorts_total {A H} (cmp : A → A → comparison) (value : H → nat → A) sorts (tie : H → H → comparison) : TotalPreorder cmp → TotalPreorder tie →
  ∀ i, TotalPreorder (λ left right, compare_by_sorts cmp (value left) (value right) i sorts (tie left right)).
Proof.
  intros Hc Ht. induction sorts as [|sort sorts IH]; intros i; [done|]. cbn [compare_by_sorts].
  apply (total_then (λ left right, reverse_if (pss_descending sort) (cmp (value left i) (value right i)))); [|apply IH].
  apply (total_on (λ h, value h i) (λ x y, reverse_if (pss_descending sort) (cmp x y))), total_reverse, Hc.
Qed.

Lemma hits_by_sort_total sorts : TotalPreorder (compare_query_result_hits_by_sort sorts).
Proof. apply (by_sorts_total compare_values (λ hit, json_sort_value (qh_sort hit))); [apply _|apply tie_total]. Qed.

Lemma scores_total : TotalPreorder compare_scores_desc.
Proof.
  split.
  - intros [x|] [y|]; cbn; [|done..]. apply (cmp_opp (cmp:=f64_compare)).
  - intros [x|] [y|] [z|]; cbn; try done. intros H1 H2. exact (cmp_trans (cmp:=f64_compare) z y x H2 H1).
Qed.

Lemma hits_desc_total : TotalPreorder compare_query_result_hits_desc.
Proof.
  assert (Hs : TotalPreorder (λ left right : QueryResultHit, (qh_seq_no right ?= qh_seq_no left)%Z)).
  { split; [intros; apply Z.compare_antisym|]. intros x y z. rw !Z.compare_le_iff. lia. }
  apply (total_then (λ left right, then_cmp (compare_scores_desc (qh_score left) (qh_score right)) (qh_seq_no right ?= qh_seq_no left)%Z)); [|apply total_on, option_compare_total].
  apply total_then; [apply total_on, scores_total|done].
Qed.
End order.

(** ** One peer *)

Section peer.
Context `{ch : Chrono, fd : FloatDisplay, fd32 : Float32Display, jt : JsonText, !JsonTextLaws jt, sn : SelectNth}.
Context (calculate_score : bool) (sorts : list PrivateSearchSortSpec).

(** The order of a search: by its sorts, else by score, else none. *)
Definition ref_compare : QueryResultHitRef → QueryResultHitRef → comparison :=
  match sorts, calculate_score with [], false => λ _ _, Eq | [], true => compare_query_result_hit_refs_desc | _, _ => compare_query_result_hit_refs_by_sort sorts end.
Definition hit_compare : QueryResultHit → QueryResultHit → comparison :=
  match sorts, calculate_score with [], false => λ _ _, Eq | [], true => compare_query_result_hits_desc | _, _ => compare_query_result_hits_by_sort sorts end.

Lemma hit_compare_total : TotalPreorder hit_compare.
Proof. rw /hit_compare. destruct sorts; [destruct calculate_score; [apply hits_desc_total|apply total_const]|apply hits_by_sort_total]. Qed.

(** A hit without its source. *)
Definition bare_hit (ref : QueryResultHitRef) : QueryResultHit :=
  mkHit None (hr_id ref) (hr_version ref) (hr_seq_no ref) (hr_score ref) None None (option_map (map sort_scalar_to_json) (hr_sort ref)) VNull.

Lemma json_value_of_ref ref i : json_sort_value (option_map (map sort_scalar_to_json) (hr_sort ref)) i = sort_scalar_to_json (sort_value (hr_sort ref) i).
Proof.
  rw /json_sort_value /sort_value. destruct (hr_sort ref) as [values|]; [|done]. cbn. change (map sort_scalar_to_json values) with (sort_scalar_to_json <$> values). rw list_lookup_fmap.
  by destruct (values !! i).
Qed.

Context (kinds : nat → ScalarKind).
Definition ref_sortable (ref : QueryResultHitRef) : Prop := sortable kinds (sort_value (hr_sort ref)).

Lemma refs_agree a b : ref_sortable a → ref_sortable b → ref_compare a b = hit_compare (bare_hit a) (bare_hit b).
Proof.
  intros Ha Hb. rw /ref_compare /hit_compare. destruct sorts as [|sort ss]; [by destruct calculate_score|].
  rw /compare_query_result_hit_refs_by_sort /compare_query_result_hits_by_sort. apply (compare_by_sorts_ext compare_sort_scalars compare_values). intros i.
  rw !json_value_of_ref. by apply (scalars_agree (kinds i)).
Qed.

(** A marker made of the sort values of a hit. *)
Definition marker_of (search_after : option (list Value)) : Prop :=
  match search_after with Some marker => ∃ values, marker = sort_scalar_to_json <$> values ∧ sortable kinds (λ i, default SNull (values !! i)) | None => True end.

(** The rows after the marker. *)
Definition ref_after (search_after : option (list Value)) (ref : QueryResultHitRef) : Prop := match search_after with Some marker => compare_hit_ref_to_search_after ref marker sorts = Gt | None => True end.
Definition hit_after (search_after : option (list Value)) (hit : QueryResultHit) : Prop := match search_after with Some marker => compare_hit_to_search_after hit marker sorts = Gt | None => True end.
#[export] Instance ref_after_dec search_after ref : Decision (ref_after search_after ref).
Proof. rw /ref_after. destruct search_after; apply _. Defined.
#[export] Instance hit_after_dec search_after hit : Decision (hit_after search_after hit).
Proof. rw /hit_after. destruct search_after; apply _. Defined.

Lemma after_agree search_after ref : marker_of search_after → ref_sortable ref → ref_after search_after ref ↔ hit_after search_after (bare_hit ref).
Proof.
  rw /ref_after /hit_after. destruct search_after as [marker|]; [|done]. intros (values & -> & Hm) Hr. rw /compare_hit_ref_to_search_after /compare_hit_to_search_after.
  rw (compare_by_sorts_ext compare_sort_scalars compare_values (sort_value (hr_sort ref)) _ (json_sort_value (qh_sort (bare_hit ref))) (λ index, default VNull ((sort_scalar_to_json <$> values) !! index))); [|done].
  intros i. cbn [qh_sort bare_hit]. rw json_value_of_ref !list_lookup_fmap. specialize (Hm i). specialize (Hr i). cbn beta in Hm. destruct (values !! i) as [v|]; cbn [default from_option fmap option_fmap option_map] in *.
  - destruct (scalar_read_back (kinds i) v Hm) as [Hj Hk]. rw (scalars_agree (kinds i) _ _ Hr Hk). by rw Hj.
  - exact (scalars_agree (kinds i) _ SNull Hr I).
Qed.

(** The buffer *)
Definition row_order (a b : QueryResultHitRef) : comparison := hit_compare (bare_hit a) (bare_hit b).
Lemma row_order_total : TotalPreorder row_order.
Proof. apply (total_on bare_hit hit_compare), hit_compare_total. Qed.

Lemma select_agrees n l : Forall ref_sortable l → take n (select_nth ref_compare n l) ++ drop n (select_nth ref_compare n l) ≡ₚ l ∧
  ∀ x y, x ∈ take n (select_nth ref_compare n l) → y ∈ drop n (select_nth ref_compare n l) → row_order x y ≠ Gt.
Proof.
  rw Forall_forall. intros Hl. split; [rw take_drop; apply select_nth_perm|]. apply (select_nth_first _ ref_compare row_order); [apply row_order_total|].
  intros x y Hx Hy. by apply refs_agree; apply Hl.
Qed.

Lemma trim_holds size all kept : (0 ≤ size)%Z → Forall ref_sortable kept → holds_best row_order (Z.to_nat size) all kept →
  holds_best row_order (Z.to_nat size) all (trim_query_result_hit_refs kept size calculate_score sorts) ∧
  Forall ref_sortable (trim_query_result_hit_refs kept size calculate_score sorts) ∧ (Z.of_nat (length (trim_query_result_hit_refs kept size calculate_score sorts)) ≤ size)%Z.
Proof.
  intros Hsize Hk Hh. pose proof row_order_total. rw /trim_query_result_hit_refs. destruct (Z.eqb_spec size 0) as [->|Hne].
  { split_and!; [|constructor|done]. destruct Hh as (d & Hp & _). exists (kept ++ d). split; [done|]. intros. cbn. lia. }
  destruct (Z.leb_spec (Z.of_nat (length kept)) size) as [Hle|Hgt]; [done|].
  assert (Hfront : ∀ front back, front ++ back ≡ₚ kept → length front = Z.to_nat size → (∀ x y, x ∈ front → y ∈ back → row_order x y ≠ Gt) →
    holds_best row_order (Z.to_nat size) all front ∧ Forall ref_sortable front ∧ (Z.of_nat (length front) ≤ size)%Z).
  { intros front back Hp Hl Hle. split_and!; [by apply (holds_select row_order _ all kept front back)| |lia]. rw -Hp in Hk. by apply Forall_app in Hk as [? _]. }
  pose proof (select_agrees (Z.to_nat size) kept Hk) as [Hp Hle]. assert (Hlen : length (take (Z.to_nat size) (select_nth ref_compare (Z.to_nat size) kept)) = Z.to_nat size).
  { rw length_take (Permutation_length (select_nth_perm _ ref_compare (Z.to_nat size) kept)). lia. }
  destruct sorts as [|sort ss] eqn:Hs; [destruct calculate_score eqn:Hc|].
  - by apply (Hfront _ (drop (Z.to_nat size) (select_nth ref_compare (Z.to_nat size) kept))); rw /ref_compare Hs Hc in Hp Hle Hlen |- *.
  - apply (Hfront _ (drop (Z.to_nat size) kept)); [by rw take_drop|rw length_take; lia|]. intros x y _ _. by rw /row_order /hit_compare Hs Hc.
  - by apply (Hfront _ (drop (Z.to_nat size) (select_nth ref_compare (Z.to_nat size) kept))); rw /ref_compare Hs in Hp Hle Hlen |- *.
Qed.

Lemma row_holds size search_after all kept hit : (0 ≤ size)%Z → Forall ref_sortable kept → ref_sortable hit → holds_best row_order (Z.to_nat size) all kept →
  holds_best row_order (Z.to_nat size) (all ++ filter (ref_after search_after) [hit]) (collect_row size calculate_score sorts search_after kept hit) ∧
  Forall ref_sortable (collect_row size calculate_score sorts search_after kept hit).
Proof.
  intros Hsize Hk Hhit Hh. rw /collect_row. rw filter_cons filter_nil.
  assert (Hmarker : match search_after with Some marker => negb (bool_decide (compare_hit_ref_to_search_after hit marker sorts = Gt)) | None => false end = negb (bool_decide (ref_after search_after hit))).
  { rw /ref_after. destruct search_after; [f_equal; by apply bool_decide_ext|]. by rw bool_decide_true. }
  rw Hmarker. case_bool_decide as Ha; cbn [negb]; [rw decide_True //|rw decide_False // app_nil_r //]. clear Hmarker.
  assert (Happ : holds_best row_order (Z.to_nat size) (all ++ [hit]) (kept ++ [hit])) by (apply holds_app; [done|apply holds_all]).
  assert (Hks : Forall ref_sortable (kept ++ [hit])) by (apply Forall_app; split; [done|by constructor]).
  destruct (negb _ && (size <=? Z.of_nat (length kept))%Z) eqn:Hfull.
  - apply andb_prop in Hfull as [Hr Hle%Z.leb_le]. split; [|done]. apply holds_full; [done|].
    rw filter_all; [|lia]. rw Forall_forall. intros z _. rw /row_order /hit_compare. by destruct sorts, calculate_score.
  - destruct (_ && (hit_ref_buffer_limit size calculate_score sorts <? _)%Z); [|done]. by destruct (trim_holds size (all ++ [hit]) (kept ++ [hit]) Hsize Hks Happ) as (? & ? & _).
Qed.

Lemma rows_hold size search_after rows all kept : (0 ≤ size)%Z → Forall ref_sortable kept → Forall ref_sortable rows → holds_best row_order (Z.to_nat size) all kept →
  holds_best row_order (Z.to_nat size) (all ++ filter (ref_after search_after) rows) (foldl (collect_row size calculate_score sorts search_after) kept rows) ∧
  Forall ref_sortable (foldl (collect_row size calculate_score sorts search_after) kept rows).
Proof.
  intros Hsize. revert all kept. induction rows as [|hit rows IH]; intros all kept Hk Hr Hh; [by rw filter_nil app_nil_r|]. apply Forall_cons in Hr as [Hhit Hr].
  destruct (row_holds size search_after all kept hit Hsize Hk Hhit Hh) as [Hh' Hk']. destruct (IH _ _ Hk' Hr Hh') as [H1 H2]. split; [|done].
  cbn [foldl]. rw -app_assoc -filter_app in H1. exact H1.
Qed.

Lemma truncate_take {A} size (l : list A) : (0 ≤ size)%Z → truncate size l = take (Z.to_nat size) l.
Proof. intros Hs. rw /truncate. destruct (Z.leb_spec (Z.of_nat (length l)) size); [|done]. rw take_ge //. lia. Qed.

(** What a peer keeps of its rows is the answer over its rows. *)
Lemma finalize_answer size all kept : (0 ≤ size)%Z → Forall ref_sortable kept → holds_best row_order (Z.to_nat size) all kept →
  top_k row_order (Z.to_nat size) all (finalize_query_result_hit_refs kept size calculate_score sorts).
Proof.
  intros Hsize Hk Hh. rw /finalize_query_result_hit_refs. destruct (trim_holds size all kept Hsize Hk Hh) as (Hh' & Hk' & _). set (trimmed := trim_query_result_hit_refs _ _ _ _) in *.
  rw truncate_take //. pose proof row_order_total as Ht. pose proof (holds_answer row_order _ _ _ Hh') as Htop.
  assert (Hsort : sort_by row_order trimmed = match sorts, calculate_score with [], true => sort_by compare_query_result_hit_refs_desc trimmed | [], false => trimmed | _, _ => sort_by (compare_query_result_hit_refs_by_sort sorts) trimmed end).
  { rw -(sort_by_ext ref_compare).
    - rw Forall_forall in Hk'. intros x y Hx Hy. apply refs_agree; by apply Hk'.
    - rw /ref_compare. destruct sorts; [|done]. destruct calculate_score; [done|]. apply sort_by_sorted. clear. induction trimmed; constructor; [done|]. by apply Forall_forall. }
  rw Hsort in Htop. exact Htop.
Qed.

(** *** The hits of a peer *)

Definition row_refs (batches : list RecordBatch) : list QueryResultHitRef :=
  (λ '(batch_index, batch, row_index), query_result_hit_ref_from_batch_row batch_index batch row_index calculate_score sorts) <$> batch_rows batches.
(** Every row that was found, as a hit. *)
Definition row_hits (table : string) (batches : list RecordBatch) : outcome (list QueryResultHit) := query_result_hits_from_refs batches (row_refs batches) (Some table).

Lemma batch_rows_length batches : length (batch_rows batches) = sum_list (rb_num_rows <$> batches).
Proof.
  rw /batch_rows. assert (H : ∀ (f : nat → RecordBatch → list (nat * RecordBatch * nat)), (∀ i b, length (f i b) = rb_num_rows b) → length (concat (imap f batches)) = sum_list (rb_num_rows <$> batches)).
  { induction batches as [|b batches IH]; intros f Hf; [done|]. rw imap_cons. cbn. rw length_app Hf (IH (f ∘ S)) //. intros i b'. apply Hf. }
  apply H. intros i b. by rw length_fmap length_seq.
Qed.

Section hits.
Context (batches : list RecordBatch) (index : option string).

Definition whole_hit (ref : QueryResultHitRef) : QueryResultHit := match query_result_hit_from_ref batches ref index with Ok hit => hit | _ => bare_hit ref end.

Lemma whole_hit_order a b : hit_compare (whole_hit a) (whole_hit b) = row_order a b.
Proof.
  assert (Hf : ∀ ref, qh_id (whole_hit ref) = hr_id ref ∧ qh_seq_no (whole_hit ref) = hr_seq_no ref ∧ qh_score (whole_hit ref) = hr_score ref ∧ qh_sort (whole_hit ref) = qh_sort (bare_hit ref)).
  { intros ref. rw /whole_hit /query_result_hit_from_ref. destruct (unwrap _); cbn [mbind outcome_bind]; [|done..]. by destruct (batch_source_value _ _). }
  destruct (Hf a) as (Ha1 & Ha2 & Ha3 & Ha4), (Hf b) as (Hb1 & Hb2 & Hb3 & Hb4). rw /row_order /hit_compare. destruct sorts; [destruct calculate_score; [|done]|].
  - by rw /compare_query_result_hits_desc Ha1 Ha2 Ha3 Hb1 Hb2 Hb3.
  - by rw /compare_query_result_hits_by_sort Ha1 Ha2 Ha4 Hb1 Hb2 Hb4.
Qed.

Lemma whole_hit_after search_after ref : marker_of search_after → ref_sortable ref → ref_after search_after ref ↔ hit_after search_after (whole_hit ref).
Proof.
  intros Hm Hr. rw (after_agree search_after ref Hm Hr) /hit_after. destruct search_after as [marker|]; [|done]. rw /compare_hit_to_search_after.
  assert (Hs : qh_sort (whole_hit ref) = qh_sort (bare_hit ref)); [|by rw Hs].
  rw /whole_hit /query_result_hit_from_ref. destruct (unwrap _); cbn [mbind outcome_bind]; [|done..]. by destruct (batch_source_value _ _).
Qed.

Lemma hits_are_whole refs hits : query_result_hits_from_refs batches refs index = Ok hits → hits = whole_hit <$> refs ∧ ∀ refs', refs' ⊆ refs → query_result_hits_from_refs batches refs' index = Ok (whole_hit <$> refs').
Proof.
  rw /query_result_hits_from_refs. intros Hr%try_collect_Ok. assert (Hin : ∀ ref, ref ∈ refs → query_result_hit_from_ref batches ref index = Ok (whole_hit ref)).
  { intros ref (i & Hi)%list_elem_of_lookup. destruct (Forall2_lookup_l _ _ _ _ _ Hr Hi) as (h & _ & Hh). by rw /whole_hit Hh. }
  split.
  - clear Hin. induction Hr as [|ref h refs hits Hh _ IH]; [done|]. cbn. rw -IH /whole_hit Hh. done.
  - intros refs' Hsub. apply try_collect_Ok, Forall2_fmap_r, Forall_Forall2_diag, Forall_forall. intros ref Href. by apply Hin, Hsub.
Qed.
End hits.

Lemma answer_zero {A} (cmp : A → A → comparison) all : top_k cmp 0 all [].
Proof. exists all. split_and!; [done|constructor|by intros ? ? ?%not_elem_of_nil|done]. Qed.

Lemma peer_answer `{ho : HashOrder} invocation batches hits : pi_sorts invocation = sorts → pi_calculate_score invocation = calculate_score → pi_aggregations invocation = [] →
  (0 ≤ pi_size invocation)%Z → marker_of (pi_search_after invocation) → Forall ref_sortable (row_refs batches) → row_hits (pi_table invocation) batches = Ok hits →
  ∃ r, search_result invocation batches = Ok r ∧ sr_total_hits r = Z.of_nat (length hits) ∧
    top_k hit_compare (Z.to_nat (pi_size invocation)) (filter (hit_after (pi_search_after invocation)) hits) (sr_hits r).
Proof.
  intros Hs Hc Ha Hsize Hm Hrefs Hhits. destruct (hits_are_whole batches (Some (pi_table invocation)) _ hits Hhits) as [-> Hsub]. rw /search_result Ha.
  assert (Htotal : sum_list (rb_num_rows <$> batches) = length (whole_hit batches (Some (pi_table invocation)) <$> row_refs batches)) by (by rw length_fmap /row_refs length_fmap batch_rows_length).
  rw Htotal. change (compute_search_aggregation_partials_from_batches batches []) with (@Ok string (list PrivateSearchAggregationPartial) []). rw bind_Ok.
  destruct (Z.eqb_spec (pi_size invocation) 0) as [Hz|Hz]; [eexists; split_and!; [done|done|rw Hz; apply answer_zero]|].
  destruct (rows_hold (pi_size invocation) (pi_search_after invocation) (row_refs batches) [] [] Hsize ltac:(constructor) Hrefs (holds_all row_order _ [])) as [Hh Hk].
  pose proof (finalize_answer _ _ _ Hsize Hk Hh) as Htop. rw app_nil_l in Htop.
  change (finalize_query_result_hit_refs _ _ _ _) with (collect_query_result_hit_refs batches (pi_size invocation) calculate_score sorts (pi_search_after invocation)) in Htop.
  rw Hs Hc. set (refs := collect_query_result_hit_refs _ _ _ _ _) in *.
  assert (Hin : refs ⊆ row_refs batches) by (intros ref Href; by apply (answer_elem row_order _ _ _ ref Htop), list_elem_of_filter in Href as [_ ?]).
  rw (Hsub refs Hin) bind_Ok. eexists. split_and!; [done|done|]. cbn [sr_hits].
  assert (Hfilter : filter (hit_after (pi_search_after invocation)) (whole_hit batches (Some (pi_table invocation)) <$> row_refs batches) =
    whole_hit batches (Some (pi_table invocation)) <$> filter (ref_after (pi_search_after invocation)) (row_refs batches)).
  { clear -Hm Hrefs JsonTextLaws0. induction Hrefs as [|ref l Hr _ IH]; [done|]. rw fmap_cons !filter_cons IH. pose proof (whole_hit_after batches (Some (pi_table invocation)) _ ref Hm Hr).
    repeat case_decide; naive_solver. }
  rw Hfilter. apply answers_fmap. destruct Htop as (rest & Hp & Hsorted & Hle & Hl). exists rest. split_and!; [done| | |done].
  - clear -Hsorted. induction Hsorted as [|x l _ IH Hx]; [constructor|]. constructor; [done|]. eapply Forall_impl; [exact Hx|]. intros y. by rw /cmp_le whole_hit_order.
  - intros x y Hx Hy. rw /cmp_le whole_hit_order. by apply Hle.
Qed.
End peer.

(** ** Commands and their order *)

(** What a strategy says of the sorts, the scores and the marker of its command. *)
Definition order_of (result_order : SearchResultOrder) (command : SearchCommand) : Prop :=
  let calculate_score := sq_calculate_score (sd_backend command) in
  match result_order with
  | ScoreDesc => sd_typed_sort_specs command = [] ∧ calculate_score = true ∧ rd_search_after (sd_read_plan command) = None
  | PeerConcat => sd_typed_sort_specs command = [] ∧ calculate_score = false ∧ rd_search_after (sd_read_plan command) = None
  | ExplicitSort => sd_typed_sort_specs command ≠ []
  end.

Section commands.
Context `{jt : JsonText, dl : DateLibrary} (now : Z).

Lemma strategy_of_command plan query command result_order : search_plan_to_command now plan query = Ok command → sd_execution_strategy command = TypedNodeMerge result_order →
  order_of result_order command ∧ sd_merge command = create_execution_plan (sd_read_plan command) ∧
  sd_typed_aggregation_specs command = private_search_aggregation_specs (sn_aggregations plan) ∧ rd_search_after (sd_read_plan command) = sn_search_after plan.
Proof.
  rw /search_plan_to_command /search_plan_to_command_with_options. intros H. repeat (apply bind_Ok_inv in H as (? & ? & H)). injection H as <-. cbn [sd_execution_strategy sd_merge sd_typed_aggregation_specs sd_read_plan].
  intros Hs. split_and!; [|done|done|by rw /read_plan_from_search_plan]. rw /order_of. cbn [sd_backend sd_typed_sort_specs sd_read_plan].
  match goal with Hv : validate_search_after _ _ _ _ = Ok _ |- _ => rw Hs in Hv; revert Hv end. revert Hs.
  rw /choose_execution_strategy. assert (Ho : rd_order_by (read_plan_from_search_plan plan) = read_sort_from_search_sort <$> sn_sort plan) by done. rw Ho.
  destruct (_ || is_some (qss_sort query)) eqn:Hlegacy; [done|]. apply orb_false_elim in Hlegacy as [Hlegacy _]. apply orb_false_elim in Hlegacy as [_ Hsorts].
  rw /private_search_sort_specs in Hsorts |- *. destruct (sn_sort plan) as [|sort sort_plans]; cbn [fmap list_fmap] in *.
  - destruct (sq_calculate_score _) eqn:Hc; intros [= <-]; rw /validate_search_after; (destruct (rd_search_after _) as [marker|]; [|done]);
      destruct (negb (rd_offset _ =? 0)), (is_some (qss_sort query)); done.
  - destruct (mapM _ (sort :: sort_plans)) as [specs|] eqn:Hspecs; [|done]. intros [= <-] _. cbn. apply mapM_Some in Hspecs. by inv Hspecs.
Qed.
End commands.

(** ** The page *)

Section page.
Context {W : Type} `{sp : StateProvider W, ch : Chrono, fd : FloatDisplay, fd32 : Float32Display, jt : JsonText, !JsonTextLaws jt, sn : SelectNth, ho : HashOrder, dl : DateLibrary}.
Context (peers : list (PrivateSearchInvocation → Z → Z → outcome PrivateSearchResult)) (execute_command : SearchCommand → outcome QueryResults) (w : W) (now : Z) (kinds : nat → ScalarKind).

Lemma sort_hits_order result_order command hits : order_of result_order command →
  sort_hits result_order (sd_typed_sort_specs command) hits = sort_by (hit_compare (sq_calculate_score (sd_backend command)) (sd_typed_sort_specs command)) hits.
Proof.
  rw /order_of /sort_hits /hit_compare. destruct result_order.
  - by intros (-> & -> & _).
  - intros (-> & -> & _). symmetry. apply sort_by_sorted. induction hits; constructor; [done|]. by apply Forall_forall.
  - by destruct (sd_typed_sort_specs command).
Qed.

Lemma merged_hold n (cmp : QueryResultHit → QueryResultHit → comparison) alls results : TotalPreorder cmp → Forall2 (λ all r, top_k cmp n all (sr_hits r)) alls results →
  holds_best cmp n (concat alls) (results ≫= sr_hits).
Proof.
  intros Hc. induction 1 as [|all r alls results Hr _ IH]; [apply holds_all|]. rw bind_cons. cbn [concat]. apply holds_app; [by apply answer_holds|done].
Qed.

(** The marker was applied by the peers. *)
Lemma after_again result_order command hits sorted : order_of result_order command →
  sorted ⊆ filter (hit_after (sd_typed_sort_specs command) (rd_search_after (sd_read_plan command))) hits →
  apply_search_after sorted (rd_search_after (sd_read_plan command)) result_order (sd_typed_sort_specs command) = Ok sorted.
Proof.
  intros Ho Hsub. rw /apply_search_after. destruct (rd_search_after (sd_read_plan command)) as [marker|] eqn:Hm; [|done].
  rw /order_of Hm in Ho. destruct result_order; [by destruct Ho as (_ & _ & ?)..|]. f_equal. apply filter_all, Forall_forall. intros hit Hin.
  apply Hsub, list_elem_of_filter in Hin as [Ha _]. exact Ha.
Qed.

(** What the coordinator makes of the answers of the peers. *)
Lemma page_of_answers result_order command hits results shards : order_of result_order command → (0 ≤ sm_from (sd_merge command))%Z → (0 ≤ sm_size (sd_merge command))%Z →
  default [] (sd_typed_aggregation_specs command) = [] →
  Forall2 (λ hits r, sr_total_hits r = Z.of_nat (length hits) ∧ top_k (hit_compare (sq_calculate_score (sd_backend command)) (sd_typed_sort_specs command))
    (Z.to_nat (sm_from (sd_merge command) + sm_size (sd_merge command))) (filter (hit_after (sd_typed_sort_specs command) (rd_search_after (sd_read_plan command))) hits) (sr_hits r)) hits results →
  ∃ r answer, build_typed_search_response command [mkSourceResults results shards] result_order = Ok r ∧
    qr_hits r = drop (Z.to_nat (sm_from (sd_merge command))) answer ∧
    top_k (hit_compare (sq_calculate_score (sd_backend command)) (sd_typed_sort_specs command)) (Z.to_nat (sm_from (sd_merge command) + sm_size (sd_merge command)))
      (filter (hit_after (sd_typed_sort_specs command) (rd_search_after (sd_read_plan command))) (concat hits)) answer ∧
    (qr_total r = TotalSimple (Z.of_nat (length (concat hits))) ∨ qr_total r = TotalComplex (Z.of_nat (length (concat hits))) "eq").
Proof.
  intros Ho Hfrom Hsize Haggs Hres. set (cmp := hit_compare _ _) in *. set (n := Z.to_nat (_ + _)) in *. set (after := hit_after _ _) in *.
  assert (Hcmp : TotalPreorder cmp) by apply hit_compare_total.
  assert (Hfilter : filter after (concat hits) = concat (filter after <$> hits)) by (clear; induction hits as [|h hits IH]; [done|]; cbn; by rw filter_app IH).
  assert (Htops : Forall2 (λ all r, top_k cmp n all (sr_hits r)) (filter after <$> hits) results) by (apply Forall2_fmap_l; eapply Forall2_impl; [exact Hres|]; by intros ? ? [_ ?]).
  pose proof (merged_hold n cmp _ _ Hcmp Htops) as Hh. rw -Hfilter in Hh. pose proof (holds_answer cmp _ _ _ Hh) as Htop. set (sorted := sort_by cmp (results ≫= sr_hits)) in *.
  assert (Hsub : sorted ⊆ filter after (concat hits)).
  { destruct Hh as (d & Hp & _). intros x Hx. rw /sorted sort_by_perm in Hx. rw -Hp. apply elem_of_app. by left. }
  assert (Htotal : z_sum (sr_total_hits <$> results) = Z.of_nat (length (concat hits))).
  { clear -Hres. induction Hres as [|h r hits results [Hr _] _ IH]; [done|]. cbn. rw length_app Hr. rw -/(z_sum _) IH. lia. }
  rw /build_typed_search_response. cbn [mbind list_bind fmap list_fmap ts_peer_results]. rw app_nil_r (sort_hits_order _ _ _ Ho) -/cmp -/sorted.
  rw (after_again result_order command (concat hits) sorted Ho Hsub) bind_Ok Htotal.
  assert (Hag : match sd_typed_aggregation_specs command with None | Some [] => Ok None | Some specs => merged ← merge_typed_aggregation_partials (sr_aggregations <$> results) specs; Ok (Some merged) end = @Ok string (option (gmap string AggregationResult)) None).
  { destruct (sd_typed_aggregation_specs command) as [[|? ?]|]; done. }
  rw Hag bind_Ok. destruct (Z.eqb_spec (Z.of_nat (length (concat hits))) 0) as [Hz|Hz].
  - exists (query_results_empty 50 (z_sum [shards]) None (negb (default false (qss_rest_total_hits_as_int (sq_query_params (sd_backend command)))))), [].
    assert (Hnil : concat hits = []) by (apply length_zero_iff_nil; lia). split_and!; [done|by rw drop_nil| |].
    + rw Hnil filter_nil. apply answer_nil.
    + rw Hnil. rw /query_results_empty. destruct (negb _); [by right|by left].
  - eexists _, (take n sorted). split_and!; [done| |done|].
    + cbn [qr_hits query_results_success]. rw take_drop_commute. f_equal. f_equal. by rw /n Z2Nat.inj_add.
    + rw /query_results_success. cbn [qr_total]. destruct (negb _); [by right|by left].
Qed.

(** C6. A search returns the best hits of all peers.  For every search plan that compiles
    to a typed strategy and asks for no aggregations, when each peer answers over the rows
    it found, the response is the page [from, from + size) of the best hits, among all rows
    of all peers that come after the marker: ordered by the sorts, then the sequence number
    and the identifier; by score when there are no sorts; in no particular order when the
    search does not score either.  The total counts the rows of all peers.  The values at a
    position of the sort are of one kind, with integers that doubles represent, and the
    marker is the sort values of a hit. *)
Theorem searches_return_the_best plan query command result_order invocation found hits :
  search_plan_to_command now plan query = Ok command →
  sd_execution_strategy command = TypedNodeMerge result_order →
  sn_aggregations plan = [] →
  private_search_invocation w command = Ok invocation →
  pi_checkpoints invocation ≠ [] →
  Forall2 (λ '(index, peer) batches, peer invocation (Z.of_nat index) (Z.of_nat (length peers)) = search_result invocation batches) (imap pair peers) found →
  Forall (λ batches, Forall (ref_sortable kinds) (row_refs (sq_calculate_score (sd_backend command)) (sd_typed_sort_specs command) batches)) found →
  marker_of kinds (sn_search_after plan) →
  Forall2 (λ batches hits, row_hits (sq_calculate_score (sd_backend command)) (sd_typed_sort_specs command) (pi_table invocation) batches = Ok hits) found hits →
  let from := Z.to_nat (sm_from (sd_merge command)) in
  let size := Z.to_nat (sm_size (sd_merge command)) in
  ∃ r answer, execute_search_command peers execute_command w command = Ok r ∧ qr_hits r = drop from answer ∧
    top_k (hit_compare (sq_calculate_score (sd_backend command)) (sd_typed_sort_specs command)) (from + size)
      (filter (hit_after (sd_typed_sort_specs command) (sn_search_after plan)) (concat hits)) answer ∧
    (qr_total r = TotalSimple (Z.of_nat (length (concat hits))) ∨ qr_total r = TotalComplex (Z.of_nat (length (concat hits))) "eq").
Proof.
  intros Hcommand Hstrategy Hnoaggs Hinv Hck Hpeers Hsortable Hmarker Hhits from size. destruct (strategy_of_command now plan query command result_order Hcommand Hstrategy) as (Ho & Hmerge & Haggs & Hafter).
  assert (Hfrom : (0 ≤ sm_from (sd_merge command))%Z) by (rw Hmerge; cbn; apply Z.mod_pos_bound; lia). assert (Hsize : (0 ≤ sm_size (sd_merge command))%Z) by (rw Hmerge; cbn; lia).
  assert (Hspecs : default [] (sd_typed_aggregation_specs command) = []) by (by rw Haggs Hnoaggs).
  assert (Hfields : pi_sorts invocation = sd_typed_sort_specs command ∧ pi_calculate_score invocation = sq_calculate_score (sd_backend command) ∧ pi_aggregations invocation = [] ∧
    pi_size invocation = (sm_from (sd_merge command) + sm_size (sd_merge command))%Z ∧ pi_search_after invocation = rd_search_after (sd_read_plan command)).
  { rw /private_search_invocation in Hinv. apply bind_Ok_inv in Hinv as (checkpoints & _ & Hinv). apply bind_Ok_inv in Hinv as (projected & _ & Hinv). by injection Hinv as <-. }
  destruct Hfields as (Hf1 & Hf2 & Hf3 & Hf4 & Hf5). rw -Hafter in Hmarker |- *.
  assert (Hresults : ∃ results, try_collect (λ '(index, peer), peer invocation (Z.of_nat index) (Z.of_nat (length peers))) (imap pair peers) = Ok results ∧
    Forall2 (λ hits r, sr_total_hits r = Z.of_nat (length hits) ∧ top_k (hit_compare (sq_calculate_score (sd_backend command)) (sd_typed_sort_specs command))
      (Z.to_nat (sm_from (sd_merge command) + sm_size (sd_merge command))) (filter (hit_after (sd_typed_sort_specs command) (rd_search_after (sd_read_plan command))) hits) (sr_hits r)) hits results).
  { clear Hck. revert Hpeers. generalize (imap pair peers). intros calls Hpeers. revert hits Hhits Hsortable. induction Hpeers as [|[index peer] batches calls found Hp _ IH]; intros hits Hhits Hsortable.
    { inv Hhits. by exists []. }
    apply Forall2_cons_inv_l in Hhits as (h & hits' & Hh & Hhits & ->). apply Forall_cons in Hsortable as [Hs Hsortable]. destruct (IH hits' Hhits Hsortable) as (results & Hr & Hres).
    destruct (peer_answer (sq_calculate_score (sd_backend command)) (sd_typed_sort_specs command) kinds invocation batches h) as (r & Hsearch & Ht & Htop); [done|done|done|lia|by rw Hf5|done|done|].
    exists (r :: results). split; [cbn; by rw Hp Hsearch bind_Ok Hr|]. constructor; [|done]. split; [done|]. by rw -Hf4 -Hf5. }
  destruct Hresults as (results & Hcalls & Hresults). assert (Hn : from + size = Z.to_nat (sm_from (sd_merge command) + sm_size (sd_merge command))) by (rw Z2Nat.inj_add //). rw Hn.
  destruct (page_of_answers result_order command hits results (Z.of_nat (length peers)) Ho Hfrom Hsize Hspecs Hresults) as (r & answer & Hr & Hrest). exists r, answer. split; [|exact Hrest].
  rw /execute_search_command Hstrategy /execute_multi_target_search_commands Hstrategy. cbn [existsb]. rw Hstrategy bool_decide_true // /execute_combined_typed_search_source_results. cbn [length Nat.leb orb negb].
  rw bind_Ok. cbn [try_collect]. rw /execute_typed_search_source_results Hinv bind_Ok /execute_private_search_invocation. destruct (pi_checkpoints invocation); [done|].
  rw /call_peers Hcalls !bind_Ok. exact Hr.
Qed.
End page.
End SearchExecuteTheory.

(** ** A search over two peers *)

Module SearchExecuteDemo.
Import SearchExecuteTheory HashOrderDemo JsonTextDemo TopKTheory.

(** A full sort is a selection. *)
Lemma sorting_selects A (cmp order : A → A → comparison) n l : TotalPreorder order → (∀ x y, x ∈ l → y ∈ l → cmp x y = order x y) →
  ∀ x y, x ∈ take n (sort_by cmp l) → y ∈ drop n (sort_by cmp l) → order x y ≠ Gt.
Proof.
  intros Ho Hc x y Hx Hy. rw (sort_by_ext cmp order l Hc) in Hx Hy. pose proof (sort_by_in_order order l) as Hs. rw -(take_drop n (sort_by order l)) in Hs.
  apply StronglySorted_app in Hs as (H & _ & _). by apply H.
Qed.

#[local] Instance demo_select : SelectNth := { select_nth := λ A cmp n l, sort_by cmp l; select_nth_perm := λ A cmp n l, sort_by_perm cmp l; select_nth_first := sorting_selects }.
#[local] Instance demo_chrono : Chrono := {| parse_from_rfc3339 := λ text, if String.eqb text "2024-01-02T00:00:00Z" then Some 2%Z else if String.eqb text "2024-01-01T00:00:00Z" then Some 1%Z else None; millis_to_rfc3339 := λ _, None |}.
#[local] Instance demo_display : FloatDisplay := { display_f64 := λ _, "" }.
#[local] Instance demo_display32 : Float32Display := { display_f32 := λ _, "" }.
#[local] Instance demo_dates : DateLibrary := {| representable := λ _, true; duration_round := λ t _, Ok t; instant_text := λ _, "" |}.
#[local] Instance demo_provider : StateProvider () := {|
  sp_is_read_only := λ _, false; sp_describe_table := λ _ _, Ok None; sp_get_all_iceberg_tables := λ _, Ok []; sp_get_published_active_servable_checkpoint := λ _ _, Ok (Some "c1");
  sp_get_checkpoint := λ _ _, Ok None; sp_upsert_table_metadata := λ _ w, (Ok true, w) |}.

(** People by age, the eldest first: the two that come after 50. *)
Definition demo_plan : SearchPlan := mkSearchPlan (TargetTable "people") 0 (Some 2%Z) (Some [int 50]) None None [] [SortField "age" (Some "desc") None None].
Definition no_parameters : QueryStringSearch := mkQueryStringSearch None None None None None None.
Definition demo_command : SearchCommand := match search_plan_to_command 0 demo_plan no_parameters with Ok command => command | _ => mkSearchCommand demo_plan (read_plan_from_search_plan demo_plan) (mkMergePlan 0 0) LegacySqlFanout None [] None None None None None None None [] [] (mkSqlCommand dummy_query "" None no_parameters false) end.
Definition demo_invocation : PrivateSearchInvocation := match private_search_invocation () demo_command with Ok invocation => invocation | _ => mkSearchInvocation dummy_query None None None [] [] [] [] [] [] "" 0 false [] [] None end.

Definition people (ids : list string) (ages : list Z) : RecordBatch := mkBatch [("_id", CUtf8 <$> ids); ("_seq_no", CUInt64 ∘ Z.of_nat <$> seq 1 (length ids)); ("age", CInt64 <$> ages)] (length ids).
Definition demo_found : list (list RecordBatch) := [[people ["ann"; "bob"; "cat"] [61; 34; 50]%Z]; [people ["dan"] [12%Z]; people ["eve"; "fay"] [47; 23]%Z]].
Definition demo_peers : list (PrivateSearchInvocation → Z → Z → outcome PrivateSearchResult) := (λ batches invocation _ _, search_result invocation batches) <$> demo_found.
Definition demo_hits : list (list QueryResultHit) := (λ batches, match row_hits false (sd_typed_sort_specs demo_command) "people" batches with Ok hits => hits | _ => [] end) <$> demo_found.
Definition legacy (_ : SearchCommand) : outcome QueryResults := Err "legacy".

Lemma demo_page : (λ r, (qh_id <$> qr_hits r, qr_total r)) <$> execute_search_command demo_peers legacy () demo_command = Ok ([Some "eve"; Some "bob"], TotalComplex 6 "eq").
Proof. vm_compute. reflexivity. Qed.

Lemma demo_sortable : Forall (λ batches, Forall (ref_sortable (λ _, KindNumber)) (row_refs false (sd_typed_sort_specs demo_command) batches)) demo_found.
Proof. repeat constructor; intros [|[|i]]; vm_compute; done. Qed.

Lemma searches_return_the_best_witness : ∃ r answer, execute_search_command demo_peers legacy () demo_command = Ok r ∧ qr_hits r = answer ∧
  top_k (hit_compare false (sd_typed_sort_specs demo_command)) 2 (filter (hit_after (sd_typed_sort_specs demo_command) (Some [int 50])) (concat demo_hits)) answer.
Proof.
  destruct (searches_return_the_best demo_peers legacy () 0 (λ _, KindNumber) demo_plan no_parameters demo_command ExplicitSort demo_invocation demo_found demo_hits) as (r & answer & Hr & Hhits & Htop & _).
  - vm_compute. reflexivity.
  - vm_compute. reflexivity.
  - reflexivity.
  - vm_compute. reflexivity.
  - vm_compute. done.
  - repeat constructor.
  - exact demo_sortable.
  - exists [SInt 50]. split; [reflexivity|]. intros [|i]; vm_compute; done.
  - repeat constructor; vm_compute; reflexivity.
  - exists r, answer. split; [exact Hr|]. split; [exact Hhits|exact Htop].
Defined.

(** Peers compare integers, the coordinator compares them as doubles.  The hit with
    [2 ^ 53 + 1] comes after the marker [2 ^ 53] on the peer that found it, and the
    coordinator drops it: no page shows it. *)
Theorem large_integers_are_lost : let sorts := [mkSortSpec "serial" false] in let hit := mkHitRef 0 0 (Some "a") 1 1 None (Some [SInt (2 ^ 53 + 1)]) in
  compare_hit_ref_to_search_after hit [int (2 ^ 53)] sorts = Gt ∧ apply_search_after [bare_hit hit] (Some [int (2 ^ 53)]) ExplicitSort sorts = Ok [].
Proof. vm_compute. done. Qed.

(** A text that reads as a date sorts as a number, which is equal to every other text: the
    comparison given to the sort is not transitive. *)
Theorem dates_among_texts_misorder : let value text := default SNull (sort_scalar_from_array (CUtf8 text)) in
  compare_sort_scalars (value "2024-01-02T00:00:00Z") (value "soon") = Eq ∧ compare_sort_scalars (value "soon") (value "2024-01-01T00:00:00Z") = Eq ∧
  compare_sort_scalars (value "2024-01-02T00:00:00Z") (value "2024-01-01T00:00:00Z") = Gt.
Proof. vm_compute. done. Qed.
End SearchExecuteDemo.
