(* ===== verification/Ingest.v ===== *)
(** * Writing documents (query_runtime/src/elastic_search_ingest.rs, elastic_search_storage_schema.rs, distributed_cache.rs, query_lib/src/speedboat_buffer.rs)

    A document that is indexed becomes a record: its fields flattened, with its identifier,
    version, sequence number and source.  A commit gives the records of a table sequence
    numbers, fits them to one schema, writes them and the keys of the records they replace as
    segments, and commits the segments to the metadata service.  Single requests commit at
    once; bulk requests are collected by an actor that commits a few times a second.

    The metadata service, the object store, lookups by identifier, schema inference, hashes
    and random identifiers are the class [DocumentStore]; the derived decoding of commands is
    part of it.  Sequence numbers come from the cache in memory; with Redis they come from a
    counter of the same meaning. *)

From S2P Require Import Prelude Text StableSort Json JsonText Schema Coerce Contract Float TopK PeerHits.

(** ** Sequence numbers *)

(** SRC query_runtime/src/distributed_cache.rs:21-25 NativeTableState *)
Record NativeTableState : Type := mkNativeState { approx_num_records : Z; next_seq_no : Z }.
Abbreviation SeqCache := (gmap string NativeTableState).

(** SRC query_runtime/src/distributed_cache.rs:159-168 get_approx_num_records *)
Definition get_approx_num_records (table : string) (cache : SeqCache) : Z := from_option approx_num_records 0%Z (cache !! table).

(** SRC query_runtime/src/distributed_cache.rs:170-183 create_table *)
Definition cache_create_table (table : string) (cache : SeqCache) : SeqCache := <[table := mkNativeState 0 0]> cache.

(** The numbers come from the last one down. *)
(** SRC query_runtime/src/distributed_cache.rs:185-223 report_table_changes *)
Definition report_table_changes (table : string) (num_inserts num_updates num_deletes : nat) (cache : SeqCache) : list Z * SeqCache :=
  let delta := num_inserts + num_updates + num_deletes in
  if delta =? 0 then ([], cache)
  else
    let state := default (mkNativeState 0 0) (cache !! table) in
    let new_approx := (approx_num_records state + Z.of_nat num_inserts - Z.of_nat num_deletes)%Z in
    let new_last_seq_no := wrap_u64 (next_seq_no state + Z.of_nat delta) in
    ((λ offset, wrap_u64 (new_last_seq_no - Z.of_nat offset)) <$> seq 0 delta, <[table := mkNativeState (Z.max 0 new_approx) new_last_seq_no]> cache).

(** ** Records *)

(** SRC query_runtime/src/elastic_search_storage_schema.rs:9-17 RecordInput *)
Record RecordInput : Type := mkRecord {
  ri_id : string;
  ri_version : Z;
  ri_status : option Z;
  ri_existing_normalized : option Value;
  ri_source : option Value;
  ri_source_str : option string;
}.

(** SRC query_runtime/src/elastic_search_responses.rs:18-31 OperationResult *)
Record OperationResult : Type := mkOperation {
  op_index : string;
  op_id : string;
  op_version : Z;
  op_result : string;
  op_seq_no : Z;
  op_primary_term : Z;
  op_status : option Z;
  op_get : option QueryResultHit;
}.

(** SRC query_runtime/src/elastic_search_storage_schema.rs:187-192 RecordDelete *)
Record RecordDelete : Type := mkRecordDelete { rd_id : string; rd_seq_no : Z; rd_version : Z }.

(** SRC query_runtime/src/elastic_search_storage_schema.rs:164-168 FullRecord *)
Record FullRecord : Type := mkFullRecord { fr_record_input : RecordInput; fr_seq_no : Z }.

(** SRC query_runtime/src/elastic_search_storage_schema.rs:20-29 RecordInput::new *)
Definition new_record (id : string) (version : Z) (source : Value) (status : option Z) : RecordInput := mkRecord id version status None (Some source) None.

Definition record_text (value_map : Object) (field : string) : outcome string := v ← unwrap (obj_get field value_map); unwrap (as_str v).
Definition record_number (value_map : Object) (field : string) : outcome Z := v ← unwrap (obj_get field value_map); unwrap (as_u64 v).
(** SRC query_runtime/src/elastic_search_storage_schema.rs:31-44 RecordInput::from_record *)
Definition record_from_record (value : Value) : outcome RecordInput :=
  value_map ← unwrap (as_object value);
  id ← record_text value_map "_id";
  version ← record_number value_map "_version";
  source ← record_text value_map "_source";
  Ok (mkRecord id version None None None (Some source)).

(** SRC query_runtime/src/elastic_search_storage_schema.rs:171-184 FullRecord::from_record *)
Definition full_record_from_record (value : Value) : outcome FullRecord :=
  value_map ← unwrap (as_object value);
  seq_no ← record_number value_map "_seq_no";
  record_input ← record_from_record value;
  Ok (mkFullRecord record_input seq_no).

(** Objects are flattened, arrays and nulls are left out. *)
(** SRC query_runtime/src/elastic_search_common.rs:240-266 create_denormalized_value_worker *)
Fixpoint create_denormalized_value_worker (target_map : Object) (prefix : string) (value : Value) {struct value} : outcome Object :=
  match value with
  | VObject fields =>
      (fix go (target_map : Object) (fields : list (string * Value)) {struct fields} : outcome Object :=
        match fields with
        | [] => Ok target_map
        | (map_key, map_value) :: fields =>
            target_map ← match map_value with
                         | VObject _ => create_denormalized_value_worker target_map (prefix +:+ map_key +:+ "_") map_value
                         | VArray _ | VNull => Ok target_map
                         | _ => Ok (obj_insert (prefix +:+ map_key) map_value target_map)
                         end;
            go target_map fields
        end) target_map fields
  | _ => Panic "assertion failed: value.is_object()"
  end.
(** SRC query_runtime/src/elastic_search_common.rs:268-274 create_denormalized_value *)
Definition create_denormalized_value (value : Value) : outcome Object := create_denormalized_value_worker [] "" value.

(** [format!("{}_{}", id, seq_no)] *)
Definition id_seq_no (id : string) (seq_no : Z) : string := id +:+ "_" +:+ print_int seq_no.

Section records.
Context `{jt : JsonText}.

(** SRC query_runtime/src/elastic_search_storage_schema.rs:106-110 RecordInput::ensure_source *)
Definition ensure_source (r : RecordInput) : outcome RecordInput :=
  match ri_source r, ri_source_str r with
  | None, Some source_str =>
      source ← match json_from_slice source_str with Ok v => Ok v | _ => Panic "called Result::unwrap on an Err value" end;
      Ok (mkRecord (ri_id r) (ri_version r) (ri_status r) (ri_existing_normalized r) (Some source) (ri_source_str r))
  | _, _ => Ok r
  end.

(** The record that is stored. *)
Definition normalized_record (id : string) (version seq_no : Z) (source_text : string) (denormalized : Object) : Value :=
  VObject (foldl (λ values '(k, v), obj_insert k v values)
    (obj_insert "_source" (VString source_text) (obj_insert "_version" (VNumber (PosInt version))
      (obj_insert "_id_seq_no" (VString (id_seq_no id seq_no)) (obj_insert "_seq_no" (VNumber (PosInt seq_no)) (obj_insert "_id" (VString id) []))))) denormalized).
(** SRC query_runtime/src/elastic_search_storage_schema.rs:68-104 RecordInput::ensure_normalized_value *)
Definition ensure_normalized_value (seq_no : option Z) (r : RecordInput) : outcome RecordInput :=
  match ri_existing_normalized r with
  | Some _ => Ok r
  | None =>
      seq_no ← ok_or seq_no (Panic "Need to pass in a seq_no when calling ensure_normalized_value() on a record that doesn't have one already.");
      r ← ensure_source r;
      source ← unwrap (ri_source r);
      denormalized_value ← create_denormalized_value source;
      Ok (mkRecord (ri_id r) (ri_version r) (ri_status r)
            (Some (normalized_record (ri_id r) (ri_version r) seq_no (default (json_to_vec source) (ri_source_str r)) denormalized_value)) (ri_source r) (ri_source_str r))
  end.

(** SRC query_runtime/src/elastic_search_storage_schema.rs:112-115 RecordInput::as_record *)
Definition as_record (seq_no : option Z) (r : RecordInput) : outcome Value := r ← ensure_normalized_value seq_no r; unwrap (ri_existing_normalized r).

(** SRC query_runtime/src/elastic_search_storage_schema.rs:117-161 RecordInput::as_operation *)
Definition as_operation (table : string) (seq_no : Z) (update : bool) (r : RecordInput) : outcome OperationResult :=
  if update then
    source ← unwrap (ri_source r);
    Ok (mkOperation table (ri_id r) (ri_version r) "updated" seq_no 1 (ri_status r) (Some (mkHit None None 1 seq_no None (Some 1%Z) (Some true) None source)))
  else Ok (mkOperation table (ri_id r) (ri_version r) "created" seq_no 1 (ri_status r) None).

(** SRC query_runtime/src/elastic_search_storage_schema.rs:203-208 RecordDelete::as_value *)
Definition delete_as_value (d : RecordDelete) : Value := VObject [("_id_seq_no", VString (id_seq_no (rd_id d) (rd_seq_no d)))].

(** SRC query_runtime/src/elastic_search_storage_schema.rs:210-226 RecordDelete::as_operation *)
Definition delete_as_operation (table : string) (d : RecordDelete) : OperationResult := mkOperation table (rd_id d) (rd_version d) "delete" (rd_seq_no d) 1 None None.

(** SRC query_runtime/src/elastic_search_ingest.rs:935-956 merge_source *)
Fixpoint merge_source (existing_doc update_doc : Value) {struct update_doc} : outcome Value :=
  match existing_doc, update_doc with
  | VObject existing, VObject updates =>
      merged ← (fix go (new_doc_map : Object) (updates : list (string * Value)) {struct updates} : outcome Object :=
        match updates with
        | [] => Ok new_doc_map
        | (key, value) :: updates =>
            new_value ← match obj_get key new_doc_map, value with
                        | Some (VObject m), VObject _ => merge_source (VObject m) value
                        | _, _ => Ok value
                        end;
            go (obj_insert key new_value new_doc_map) updates
        end) existing updates;
      Ok (VObject merged)
  | VObject _, _ => Panic "assertion failed: update_doc.is_object()"
  | _, _ => Panic "assertion failed: existing_doc.is_object()"
  end.

(** ** Lookups *)

Definition record_seq_no (v : Value) : Z := default 0%Z (value_get v "_seq_no" ≫= as_u64).
Definition record_version (v : Value) : Z := default 0%Z (value_get v "_version" ≫= as_u64).
(** SRC query_runtime/src/elastic_search_ingest.rs:645-667 lookup_record_is_newer *)
Definition lookup_record_is_newer (candidate current : Value) : bool :=
  if negb (record_seq_no candidate =? record_seq_no current)%Z then (record_seq_no current <? record_seq_no candidate)%Z
  else (record_version current <? record_version candidate)%Z.

Definition record_id (v : Value) : option string := value_get v "_id" ≫= as_str.
(** One value of the loop. *)
Definition dedupe_step (acc : gmap string Value * list Value) (value : Value) : gmap string Value * list Value :=
  let '(by_id, passthrough) := acc in
  match record_id value with
  | None => (by_id, passthrough ++ [value])
  | Some doc_id =>
      match by_id !! doc_id with
      | Some existing => if lookup_record_is_newer value existing then (<[doc_id := value]> by_id, passthrough) else (by_id, passthrough)
      | None => (<[doc_id := value]> by_id, passthrough)
      end
  end.
Definition take_requested (acc : list Value * gmap string Value) (doc_id : string) : list Value * gmap string Value :=
  let '(deduped, by_id) := acc in
  match by_id !! doc_id with Some value => (deduped ++ [value], delete doc_id by_id) | None => (deduped, by_id) end.
(** SRC query_runtime/src/elastic_search_ingest.rs:669-700 dedupe_lookup_docs *)
Definition dedupe_lookup_docs `{HashOrder} (doc_ids : list string) (values : list Value) : list Value :=
  let '(by_id, passthrough) := foldl dedupe_step (∅, []) values in
  let '(deduped, by_id) := foldl take_requested ([], by_id) doc_ids in
  deduped ++ (hash_iter by_id).*2 ++ passthrough.
End records.

(** ** Buffers *)

(** SRC query_lib/src/speedboat_buffer.rs:16-48= WriteBuffer, empty, insert_and_update, delete *)
Record WriteBuffer : Type := mkWriteBuffer { wb_lines : list Value; wb_schema : option PowdrrSchema }.

(** SRC query_runtime/src/elastic_search_storage_schema.rs:233-239 SpeedboatCommitBuilder *)
Record SpeedboatCommitBuilder : Type := mkBuilder {
  sb_table_name : string;
  sb_insert_records : list RecordInput;
  sb_update_records : list RecordInput;
  sb_delete_records : list RecordDelete;
}.

(** SRC query_runtime/src/elastic_search_storage_schema.rs:242-249 SpeedboatCommitBuilder::new *)
Definition new_builder (table_name : string) : SpeedboatCommitBuilder := mkBuilder table_name [] [] [].
(** SRC query_runtime/src/elastic_search_storage_schema.rs:251-253 SpeedboatCommitBuilder::insert *)
Definition builder_insert (record : RecordInput) (b : SpeedboatCommitBuilder) : SpeedboatCommitBuilder := mkBuilder (sb_table_name b) (sb_insert_records b ++ [record]) (sb_update_records b) (sb_delete_records b).
(** SRC query_runtime/src/elastic_search_storage_schema.rs:255-257 SpeedboatCommitBuilder::update *)
Definition builder_update (record : RecordInput) (b : SpeedboatCommitBuilder) : SpeedboatCommitBuilder := mkBuilder (sb_table_name b) (sb_insert_records b) (sb_update_records b ++ [record]) (sb_delete_records b).
(** SRC query_runtime/src/elastic_search_storage_schema.rs:259-261 SpeedboatCommitBuilder::delete *)
Definition builder_delete (record : RecordDelete) (b : SpeedboatCommitBuilder) : SpeedboatCommitBuilder := mkBuilder (sb_table_name b) (sb_insert_records b) (sb_update_records b) (sb_delete_records b ++ [record]).
(** SRC query_runtime/src/elastic_search_storage_schema.rs:275-282 SpeedboatCommitBuilder::extend *)
Definition builder_extend (b builder : SpeedboatCommitBuilder) : SpeedboatCommitBuilder :=
  mkBuilder (sb_table_name b) (sb_insert_records b ++ sb_insert_records builder) (sb_update_records b ++ sb_update_records builder) (sb_delete_records b ++ sb_delete_records builder).

(** ** Commands *)

(** What is read of a command's body: the index and the identifier. *)
(** SRC query_runtime/src/elastic_search_ingest.rs:95-155= IndexOrCreateBody, UpdateOrDeleteBody, Create, Index, Delete, Update, IngestCommand *)
Record CommandBody : Type := mkCommandBody { cb_index : option string; cb_id : option string }.
Inductive IngestCommand : Type := CmdCreate (body : CommandBody) | CmdIndex (body : CommandBody) | CmdDelete (body : CommandBody) | CmdUpdate (body : CommandBody).

(** Of a script it only matters that there is one. *)
(** SRC query_runtime/src/elastic_search_parser.rs:424-431 UpdateBody *)
Record UpdateBody : Type := mkUpdateBody { ub_scripted_upsert : option bool; ub_script : bool; ub_doc : option Value; ub_upsert : option Value; ub_doc_as_upsert : option bool }.

(** [lookup_by_id]: the rows of a table with one of the identifiers.  [put_segment]: the
    bytes of an Arrow file written under a path, with their number.  [segment_hash]: the
    SHA-256 of an index, a label and a buffer. *)
Class DocumentStore (W : Type) : Type := {
  describe_document_table : W → string → outcome (option TableDescription);
  lookup_by_id : W → string → list string → outcome (list Value);
  put_segment : string → WriteBuffer → W → outcome Z * W;
  commit_segments : SpeedboatCommit → W → outcome () * W;
  put_orphan_marker : string → SpeedboatCommit → string → W → W;
  new_document_id : W → string * W;
  segment_hash : string → string → WriteBuffer → string;
  infer_document_schema : Value → PowdrrSchema;
  ingest_base_path : string;
  encode_userinfo : string → string;
  decode_command : string → outcome IngestCommand;
  decode_update : string → outcome UpdateBody;
}.

(** The process and what is around it. *)
Record IngestState (W : Type) : Type := mkIngestState { is_cache : SeqCache; is_world : W }.
Arguments mkIngestState {W}.
Arguments is_cache {W}.
Arguments is_world {W}.

Section ingest.
Context {W : Type} `{jt : JsonText, ho : HashOrder, ds : DocumentStore W}.

Definition on_world {A} (f : W → outcome A * W) : ST (IngestState W) A := λ s, let '(r, w) := f (is_world s) in (r, mkIngestState (is_cache s) w).
Definition on_cache {A} (f : SeqCache → A * SeqCache) : ST (IngestState W) A := st_update (λ s, let '(a, c) := f (is_cache s) in (a, mkIngestState c (is_world s))).
Definition read_world {A} (f : W → outcome A) : ST (IngestState W) A := λ s, (f (is_world s), s).

(** SRC query_core/src/schema_massager.rs:913-919 extract_powdrr_schema_option *)
Definition extract_powdrr_schema_option (value : option Value) : PowdrrSchema := from_option infer_document_schema minimal value.

Definition set_normalized (normalized : option Value) (r : RecordInput) : RecordInput := mkRecord (ri_id r) (ri_version r) (ri_status r) normalized (ri_source r) (ri_source_str r).

(** The inserts and updates, normalised: the builder with them, the buffer and their
    operations. *)
Definition build_records (seq_no_vec : list Z) (b : SpeedboatCommitBuilder) : outcome (SpeedboatCommitBuilder * WriteBuffer * list OperationResult) :=
  let inserts := length (sb_insert_records b) in
  records ← try_collect (λ '(record, seq_no), ensure_normalized_value (Some seq_no) record) (zip (sb_insert_records b ++ sb_update_records b) seq_no_vec);
  created ← try_collect (λ '(record, seq_no), as_operation (sb_table_name b) seq_no false record) (zip (take inserts records) seq_no_vec);
  updated ← try_collect (λ '(record, seq_no), as_operation (sb_table_name b) seq_no true record) (zip (drop inserts records) (drop inserts seq_no_vec));
  merged_schema ← merge_all ((λ r, extract_powdrr_schema_option (ri_existing_normalized r)) <$> records);
  records ← try_collect (λ r, normalized ← coerce_value_option merged_schema (ri_existing_normalized r); Ok (set_normalized normalized r)) records;
  final_records ← try_collect (as_record None) records;
  Ok (mkBuilder (sb_table_name b) (take inserts records) (drop inserts records) (sb_delete_records b), mkWriteBuffer final_records (Some merged_schema), created ++ updated).
(** SRC query_runtime/src/elastic_search_storage_schema.rs:284-349 SpeedboatCommitBuilder::build_buffers *)
Definition build_buffers (b : SpeedboatCommitBuilder) : ST (IngestState W) (SpeedboatCommitBuilder * WriteBuffer * WriteBuffer * list OperationResult) :=
  seq_no_vec ← on_cache (report_table_changes (sb_table_name b) (length (sb_insert_records b)) (length (sb_update_records b)) (length (sb_delete_records b)));
  '(b, insert_update_write_buffer, operations) ← st_lift (match sb_insert_records b ++ sb_update_records b with [] => Ok (b, mkWriteBuffer [] None, []) | _ => build_records seq_no_vec b end);
  mret (b, insert_update_write_buffer, mkWriteBuffer (delete_as_value <$> sb_delete_records b) (Some deletes), operations ++ (delete_as_operation (sb_table_name b) <$> sb_delete_records b)).

(** ** Commits *)

(** SRC query_runtime/src/elastic_search_ingest.rs:471-493 next_speedboat_segment *)
Definition next_speedboat_segment (buffer : WriteBuffer) (index label : string) : SpeedboatSegmentFile :=
  let segment_id := segment_hash index label buffer in
  mkSegment segment_id (ingest_base_path +:+ "/" +:+ index +:+ "/" +:+ label +:+ "/" +:+ segment_id) 0.

(** SRC query_runtime/src/elastic_search_ingest.rs:533-553 write_to_file *)
Definition write_to_file (buffer : WriteBuffer) (index label : string) : ST (IngestState W) SpeedboatSegmentFile :=
  let segment := next_speedboat_segment buffer index label in
  size ← on_world (put_segment (segment_path segment +:+ ".arrow") buffer);
  mret (mkSegment (segment_id segment) (segment_path segment) size).

(** The table info of a buffer, none for an empty one. *)
Definition commit_buffer (buffer : WriteBuffer) (table commit_type : string) : ST (IngestState W) (list SpeedboatCommitTableInfo) :=
  match wb_lines buffer with
  | [] => mret []
  | _ => segment ← write_to_file buffer table commit_type; mret [from_segments commit_type table [segment] (wb_schema buffer)]
  end.
(** A commit that the metadata service refuses leaves a marker beside its segments. *)
Definition commit_metadata (table : string) (speedboat_commit : SpeedboatCommit) : ST (IngestState W) () := λ s,
  match commit_segments speedboat_commit (is_world s) with
  | (Err error, w) => (Err ("Uploaded speedboat segments but failed to commit metadata: " +:+ error), mkIngestState (is_cache s) (put_orphan_marker table speedboat_commit error w))
  | (r, w) => (r, mkIngestState (is_cache s) w)
  end.
(** SRC query_runtime/src/elastic_search_ingest.rs:555-606= commit_speedboat *)
Definition commit_speedboat (table : string) (inserts_and_updates deletes : WriteBuffer) (compaction : option string) (commit_type : string) : ST (IngestState W) () :=
  inserted ← commit_buffer inserts_and_updates table commit_type;
  deleted ← commit_buffer deletes table "delete";
  commit_metadata table (mkSpeedboatCommit (inserted ++ deleted) compaction).

(** The builder keeps its normalised records, also when the commit fails. *)
(** SRC query_runtime/src/elastic_search_storage_schema.rs:351-363 SpeedboatCommitBuilder::commit *)
Definition builder_commit (b : SpeedboatCommitBuilder) (s : IngestState W) : outcome (list OperationResult) * SpeedboatCommitBuilder * IngestState W :=
  match build_buffers b s with
  | (Ok (b, insert_update_write_buffer, delete_write_buffer, operations), s) =>
      let '(r, s) := commit_speedboat (sb_table_name b) insert_update_write_buffer delete_write_buffer None "commit" s in
      (_ ← r; Ok operations, b, s)
  | (Err e, s) => (Err e, b, s)
  | (Panic r, s) => (Panic r, b, s)
  end.
Definition commit_once (b : SpeedboatCommitBuilder) : ST (IngestState W) (list OperationResult) := λ s, let '(r, _, s) := builder_commit b s in (r, s).

(** ** Single documents *)

(** SRC query_runtime/src/elastic_search_ingest.rs:608-643 get_existing_docs *)
Definition get_existing_docs (index : string) (doc_ids : list string) : ST (IngestState W) (list Value) :=
  read_world (λ w, match lookup_by_id w index doc_ids with Ok values => Ok (dedupe_lookup_docs doc_ids values) | Err _ => Panic "weird" | Panic reason => Panic reason end).

(** SRC query_runtime/src/util.rs:73-83 describe_table_log_error_then_none *)
Definition describe_table_log_error_then_none (table_name : string) : ST (IngestState W) (option TableDescription) :=
  read_world (λ w, match describe_document_table w table_name with Err _ => Ok None | r => r end).
Definition existing_table (index : string) : ST (IngestState W) TableDescription :=
  description ← describe_table_log_error_then_none index;
  st_lift (ok_or description (Err "Index does not exist")).

(** SRC query_runtime/src/elastic_search_ingest.rs:702-710 insert_record *)
Definition insert_record (doc_id : string) (version : Z) (doc : Value) (status : option Z) (buffer : SpeedboatCommitBuilder) : SpeedboatCommitBuilder := builder_insert (new_record doc_id version doc status) buffer.

(** SRC query_runtime/src/elastic_search_ingest.rs:724-743 replace_record *)
Definition replace_record (existing_doc : FullRecord) (doc : Value) (status : option Z) (buffer : SpeedboatCommitBuilder) : SpeedboatCommitBuilder :=
  let existing := fr_record_input existing_doc in
  builder_delete (mkRecordDelete (ri_id existing) (fr_seq_no existing_doc) (ri_version existing))
    (builder_update (new_record (ri_id existing) (wrap_u64 (ri_version existing + 1)) doc status) buffer).

(** SRC query_runtime/src/elastic_search_ingest.rs:712-722 primary_operation *)
Definition primary_operation (operations : list OperationResult) : outcome OperationResult :=
  match find (λ operation, negb (String.eqb (op_result operation) "delete")) operations with
  | Some operation => Ok operation
  | None => ok_or (head operations) (Err "Mutation commit returned no operations")
  end.

(** Whether the document was created or updated, and the buffer. *)
(** SRC query_runtime/src/elastic_search_ingest.rs:745-748= UpdateOutcome *)
Inductive UpdateOutcome : Type := Created | Updated.

(** SRC query_runtime/src/elastic_search_ingest.rs:750-794= apply_update_request *)
Definition apply_update_request (buffer : SpeedboatCommitBuilder) (doc_id : string) (existing_doc : option FullRecord) (update_request : UpdateBody) (created_status updated_status : option Z) : outcome (UpdateOutcome * SpeedboatCommitBuilder) :=
  if ub_script update_request || default false (ub_scripted_upsert update_request) then Err "Scripted document updates are not implemented"
  else match existing_doc with
       | Some existing_doc =>
           doc_patch ← ok_or (ub_doc update_request) (Err "Document update without a doc payload is not implemented");
           record_input ← ensure_source (fr_record_input existing_doc);
           source ← unwrap (ri_source record_input);
           merged_doc ← merge_source source doc_patch;
           Ok (Updated, replace_record (mkFullRecord record_input (fr_seq_no existing_doc)) merged_doc updated_status buffer)
       | None =>
           if default false (ub_doc_as_upsert update_request)
           then doc ← ok_or (ub_doc update_request) (Err "doc_as_upsert requires a doc payload"); Ok (Created, insert_record doc_id 1 doc created_status buffer)
           else match ub_upsert update_request with
                | Some upsert_doc => Ok (Created, insert_record doc_id 1 upsert_doc created_status buffer)
                | None => Err "Document update requires an existing document or an upsert payload"
                end
       end.

(** The body is an operation, a conflict on a document that exists, or a text. *)
(** SRC query_runtime/src/elastic_search_common.rs:49-54 ElasticSearchResponse *)
Inductive ResponseBody : Type := BodyOperation (operation : OperationResult) | BodyConflict (doc_id index : string) | BodyText (text : string).
Record DocumentResponse : Type := mkDocumentResponse { dr_status : Z; dr_body : ResponseBody; dr_location : option string }.
Definition bad_request_response : DocumentResponse := mkDocumentResponse 400 (BodyText "Bad request") None.
Definition document_location (table doc_id : string) : string := "/" +:+ table +:+ "/_doc/" +:+ encode_userinfo doc_id.

(** [assert_eq!(docs.values.len(), 1)] and the record. *)
Definition only_record (values : list Value) : outcome (option FullRecord) :=
  match values with
  | [] => Ok None
  | [value] => record ← full_record_from_record value; Ok (Some record)
  | _ => Panic "assertion failed: docs.values.len() == 1"
  end.

(** SRC query_runtime/src/elastic_search_ingest.rs:796-870 create_single_worker *)
Definition create_single_worker (index doc_id payload : string) : ST (IngestState W) DocumentResponse :=
  table_description ← existing_table index;
  match json_from_slice payload with
  | Ok valid_doc =>
      docs ← get_existing_docs (td_name table_description) [doc_id];
      match docs with
      | _ :: _ => mret (mkDocumentResponse 409 (BodyConflict doc_id index) None)
      | [] =>
          operations ← commit_once (insert_record doc_id 1 valid_doc None (new_builder index));
          match operations with
          | [operation] => mret (mkDocumentResponse 201 (BodyOperation operation) (Some (document_location (td_name table_description) doc_id)))
          | _ => st_lift (Panic "assertion failed: commit_result.operations.len() == 1")
          end
      end
  | _ => mret bad_request_response
  end.

(** SRC query_runtime/src/elastic_search_ingest.rs:872-933 index_single_worker *)
Definition index_single_worker (index : string) (doc_id : option string) (payload : string) : ST (IngestState W) DocumentResponse :=
  table_description ← existing_table index;
  match json_from_slice payload with
  | Ok valid_doc =>
      resolved_doc_id ← match doc_id with Some id => mret id | None => on_world (λ w, let '(id, w) := new_document_id w in (Ok id, w)) end;
      '(status, buffer) ← match doc_id with
                          | Some _ =>
                              docs ← get_existing_docs (td_name table_description) [resolved_doc_id];
                              existing ← st_lift (only_record docs);
                              mret (match existing with
                                    | None => (201%Z, insert_record resolved_doc_id 1 valid_doc None (new_builder index))
                                    | Some existing_doc => (200%Z, replace_record existing_doc valid_doc None (new_builder index))
                                    end)
                          | None => mret (201%Z, insert_record resolved_doc_id 1 valid_doc None (new_builder index))
                          end;
      operations ← commit_once buffer;
      operation ← st_lift (primary_operation operations);
      mret (mkDocumentResponse status (BodyOperation operation) (Some (document_location (td_name table_description) resolved_doc_id)))
  | _ => mret bad_request_response
  end.

(** SRC query_runtime/src/elastic_search_ingest.rs:958-1029 update_single_worker *)
Definition update_single_worker (index doc_id payload : string) : ST (IngestState W) DocumentResponse :=
  table_description ← existing_table index;
  match decode_update payload with
  | Ok update_request =>
      docs ← get_existing_docs (td_name table_description) [doc_id];
      existing_doc ← st_lift (only_record docs);
      '(update_outcome, buffer) ← st_lift (apply_update_request (new_builder (td_name table_description)) doc_id existing_doc update_request None None);
      operations ← commit_once buffer;
      operation ← st_lift (primary_operation operations);
      mret (mkDocumentResponse (match update_outcome with Created => 201 | Updated => 200 end) (BodyOperation operation) (Some (document_location (td_name table_description) doc_id)))
  | _ => mret bad_request_response
  end.

(** SRC query_runtime/src/elastic_search_ingest.rs:1031-1078= delete *)
Definition delete_document (index doc_id : string) : ST (IngestState W) DocumentResponse :=
  table_description ← existing_table index;
  docs ← get_existing_docs (td_name table_description) [doc_id];
  match docs with
  | [] => mret (mkDocumentResponse 404 (BodyOperation (mkOperation index doc_id 1 "not_found" 0 1 None None)) None)
  | first :: _ =>
      target_seq_no ← st_lift (unwrap (value_get first "_seq_no" ≫= as_u64));
      target_version ← st_lift (unwrap (value_get first "_version" ≫= as_u64));
      operations ← commit_once (builder_delete (mkRecordDelete doc_id target_seq_no target_version) (new_builder (td_name table_description)));
      match operations with
      | [operation] => mret (mkDocumentResponse 200 (BodyOperation operation) None)
      | _ => st_lift (Panic "assertion failed: result.operations.len() == 1")
      end
  end.

(** ** Bulk requests *)

(** SRC query_runtime/src/elastic_search_ingest.rs:390-393 IngestResult *)
Record IngestResult : Type := mkIngestResult { ir_tables : gmap string SpeedboatCommitBuilder; ir_operations : list OperationResult }.

(** SRC query_runtime/src/elastic_search_ingest.rs:403-412 IngestResult::get *)
Definition result_get (table : string) (tables : gmap string SpeedboatCommitBuilder) : SpeedboatCommitBuilder := default (new_builder table) (tables !! table).
Definition result_set (table : string) (buffer : SpeedboatCommitBuilder) (r : IngestResult) : IngestResult := mkIngestResult (<[table := buffer]> (ir_tables r)) (ir_operations r).

(** [payload.lines()]: a line ends with a newline, which may follow a carriage return. *)
Definition strip_carriage_return (line : string) : string :=
  (fix go (s : string) : string := match s with EmptyString => "" | String "013" EmptyString => "" | String a s => String a (go s) end) line.
Fixpoint lines_from (parts : list string) : list string :=
  match parts with
  | [] => []
  | [last] => if String.eqb last "" then [] else [last]
  | line :: parts => strip_carriage_return line :: lines_from parts
  end.
Definition payload_lines (payload : string) : list string := lines_from (split_on "010"%char payload).

(** The index of a command, which must be the one of the request. *)
Definition command_index (provided_index : option string) (body : CommandBody) : outcome string :=
  match cb_index body, provided_index with
  | Some i, Some pi => if String.eqb i pi then Ok i else Err "Can not provide a index in create here"
  | Some i, None => Ok i
  | None, Some pi => Ok pi
  | None, None => Err "Must provide index name"
  end.
Definition command_table (provided_index : option string) (body : CommandBody) : ST (IngestState W) (string * TableDescription) :=
  index ← st_lift (command_index provided_index body);
  table_description ← existing_table index;
  mret (index, table_description).
Definition serde_doc (doc : outcome Value) : outcome Value := map_err (λ e, "Serde error doc: " +:+ e) doc.
Definition fresh_unless (id : option string) : ST (IngestState W) string :=
  match id with Some id => mret id | None => on_world (λ w, let '(id, w) := new_document_id w in (Ok id, w)) end.

(** SRC query_runtime/src/elastic_search_ingest.rs:375-388 ingest_create *)
Definition ingest_create (id : option string) (doc : Value) (version : Z) (status : option Z) (buffer : SpeedboatCommitBuilder) : ST (IngestState W) SpeedboatCommitBuilder :=
  id ← fresh_unless id; mret (builder_insert (new_record id version doc status) buffer).

(** What follows the line with the document, for each command. *)
Definition bulk_create (table_description : TableDescription) (body : CommandBody) (doc_str : string) (ingest_result : IngestResult) : ST (IngestState W) IngestResult :=
  valid_doc ← st_lift (serde_doc (json_from_slice (trim doc_str)));
  buffer ← ingest_create (cb_id body) valid_doc 1 (Some 201%Z) (result_get (td_name table_description) (ir_tables ingest_result));
  mret (result_set (td_name table_description) buffer ingest_result).
Definition bulk_index (table_description : TableDescription) (body : CommandBody) (doc_str : string) (ingest_result : IngestResult) : ST (IngestState W) IngestResult :=
  valid_doc ← st_lift (serde_doc (json_from_slice (trim doc_str)));
  resolved_doc_id ← fresh_unless (cb_id body);
  docs ← get_existing_docs (td_name table_description) [resolved_doc_id];
  existing ← st_lift (only_record docs);
  let buffer := result_get (td_name table_description) (ir_tables ingest_result) in
  mret (result_set (td_name table_description)
    (match existing with None => insert_record resolved_doc_id 1 valid_doc (Some 201%Z) buffer | Some existing_doc => replace_record existing_doc valid_doc (Some 200%Z) buffer end) ingest_result).
Definition bulk_update (index doc_id : string) (existing_docs : list Value) (doc_str : string) (ingest_result : IngestResult) : ST (IngestState W) IngestResult :=
  update_request ← st_lift (map_err (λ e, "Serde error doc: " +:+ e) (decode_update (trim doc_str)));
  existing_doc ← st_lift (only_record existing_docs);
  '(_, buffer) ← st_lift (apply_update_request (result_get index (ir_tables ingest_result)) doc_id existing_doc update_request (Some 201%Z) (Some 200%Z));
  mret (result_set index buffer ingest_result).
Definition bulk_delete (index : string) (existing_docs : list Value) (ingest_result : IngestResult) : ST (IngestState W) IngestResult :=
  match existing_docs with
  | [] => mret ingest_result
  | existing_doc :: _ =>
      existing_doc ← st_lift (full_record_from_record existing_doc);
      let existing := fr_record_input existing_doc in
      mret (result_set index (builder_delete (mkRecordDelete (ri_id existing) (fr_seq_no existing_doc) (ri_version existing)) (result_get index (ir_tables ingest_result))) ingest_result)
  end.

Fixpoint ingest_lines (provided_index : option string) (ingest_result : IngestResult) (lines : list string) : ST (IngestState W) IngestResult :=
  match lines with
  | [] => mret ingest_result
  | command_str :: lines =>
      if String.eqb command_str "" then ingest_lines provided_index ingest_result lines
      else
        command ← st_lift (map_err (λ e, "Serde error command: " +:+ e) (decode_command command_str));
        match command with
        | CmdCreate body =>
            '(_, table_description) ← command_table provided_index body;
            match lines with
            | [] => st_lift (Err "Bulk create is missing a source document line")
            | doc_str :: lines => r ← bulk_create table_description body doc_str ingest_result; ingest_lines provided_index r lines
            end
        | CmdIndex body =>
            '(_, table_description) ← command_table provided_index body;
            match lines with
            | [] => st_lift (Err "Bulk index is missing a source document line")
            | doc_str :: lines => r ← bulk_index table_description body doc_str ingest_result; ingest_lines provided_index r lines
            end
        | CmdUpdate body =>
            '(index, table_description) ← command_table provided_index body;
            doc_id ← st_lift (ok_or (cb_id body) (Err "Bulk update requires an _id"));
            existing_docs ← get_existing_docs (td_name table_description) [doc_id];
            match lines with
            | [] => st_lift (Err "Bulk update is missing an update body line")
            | doc_str :: lines => r ← bulk_update index doc_id existing_docs doc_str ingest_result; ingest_lines provided_index r lines
            end
        | CmdDelete body =>
            '(index, table_description) ← command_table provided_index body;
            doc_id ← st_lift (ok_or (cb_id body) (Err "Bulk delete requires an _id"));
            existing_docs ← get_existing_docs (td_name table_description) [doc_id];
            r ← bulk_delete index existing_docs ingest_result;
            ingest_lines provided_index r lines
        end
  end.
(** SRC query_runtime/src/elastic_search_ingest.rs:1080-1366= ingest *)
Definition ingest (provided_index : option string) (payload : string) : ST (IngestState W) IngestResult := ingest_lines provided_index (mkIngestResult ∅ []) (payload_lines payload).

(** ** The actor *)

(** SRC query_runtime/src/elastic_search_responses.rs:34-52= BulkResult, success *)
Record BulkResult : Type := mkBulkResult { bulk_errors : bool; bulk_took : Z; bulk_items : list (gmap string OperationResult) }.
Definition bulk_success (took : Z) (created : list OperationResult) : BulkResult := mkBulkResult false took ((λ x, {[ "created" := x ]}) <$> created).

(** A request waits for its answer under a number. *)
(** SRC query_runtime/src/elastic_search_ingest.rs:1368-1377= IngestRequest, IngestActor *)
Record IngestActor : Type := mkIngestActor { ia_tables : gmap string SpeedboatCommitBuilder; ia_requests : list (nat * list OperationResult) }.
(** SRC query_runtime/src/elastic_search_ingest.rs:1379-1392 IngestActorMessage *)
Inductive IngestActorMessage : Type :=
| MsgIngestSingleTable (table payload : string) (respond_to : nat)
| MsgIngest (payload : string) (respond_to : nat)
| MsgCommit.

(** SRC query_runtime/src/elastic_search_ingest.rs:1403-1412 IngestActor::merge_table_buffers *)
Definition merge_table_buffers (tables : gmap string SpeedboatCommitBuilder) (actor : gmap string SpeedboatCommitBuilder) : gmap string SpeedboatCommitBuilder :=
  foldl (λ actor '(table, buffer_builder), <[table := match actor !! table with Some buffer => builder_extend buffer buffer_builder | None => buffer_builder end]> actor) actor (hash_iter tables).

(** A step of the actor: the answers it sends, its state and that of the process; a panic
    ends it. *)
Definition Answers : Type := list (nat * outcome BulkResult).
Definition actor_step : Type := outcome Answers * IngestActor * IngestState W.

(** SRC query_runtime/src/elastic_search_ingest.rs:1414-1434 IngestActor::do_ingest *)
Definition do_ingest (table : option string) (payload : string) (respond_to : nat) (actor : IngestActor) (s : IngestState W) : actor_step :=
  match ingest table payload s with
  | (Ok bi, s) => (Ok [], mkIngestActor (merge_table_buffers (ir_tables bi) (ia_tables actor)) (ia_requests actor ++ [(respond_to, ir_operations bi)]), s)
  | (Err e, s) => (Ok [(respond_to, Err e)], actor, s)
  | (Panic r, s) => (Panic r, actor, s)
  end.

(** The tables in the order of the map; the first that fails ends it. *)
Fixpoint commit_tables (entries : list (string * SpeedboatCommitBuilder)) (tables : gmap string SpeedboatCommitBuilder) (s : IngestState W) : outcome () * gmap string SpeedboatCommitBuilder * IngestState W :=
  match entries with
  | [] => (Ok (), tables, s)
  | (table, builder) :: entries =>
      let '(r, builder, s) := builder_commit builder s in
      let tables := <[table := builder]> tables in
      match r with
      | Ok _ => commit_tables entries tables s
      | Err e => (Err e, tables, s)
      | Panic reason => (Panic reason, tables, s)
      end
  end.
(** SRC query_runtime/src/elastic_search_ingest.rs:1454-1476 IngestActor::commit *)
Definition actor_commit (actor : IngestActor) (s : IngestState W) : actor_step :=
  match ia_requests actor with
  | [] => (Ok [], actor, s)
  | requests =>
      match commit_tables (hash_iter (ia_tables actor)) (ia_tables actor) s with
      | (Ok _, _, s) => (Ok ((λ '(respond_to, response), (respond_to, Ok (bulk_success 0 response))) <$> requests), mkIngestActor ∅ [], s)
      | (Err _, tables, s) => (Ok [], mkIngestActor tables requests, s)
      | (Panic reason, tables, s) => (Panic reason, mkIngestActor tables requests, s)
      end
  end.

(** The sender of a commit is told that it ended, whatever its result; that is left out. *)
(** SRC query_runtime/src/elastic_search_ingest.rs:1436-1452 IngestActor::handle_message *)
Definition handle_message (msg : IngestActorMessage) (actor : IngestActor) (s : IngestState W) : actor_step :=
  match msg with
  | MsgIngestSingleTable table payload respond_to => do_ingest (Some table) payload respond_to actor s
  | MsgIngest payload respond_to => do_ingest None payload respond_to actor s
  | MsgCommit => actor_commit actor s
  end.
End ingest.
