(* ===== verification/IngestTheory.v ===== *)
(** * Documents are what was written last

    The records a table keeps are a log: updates add a record and the key of the one they
    replace.  [documents] reads the log as a map from identifiers to versions and sources.
    Every request on a single document changes that map as its name says, or fails and
    leaves it as it was. *)

From S2P Require Import Prelude Text StableSort Json JsonText Schema Coerce Contract Float TopK PeerHits Ingest.

Module IngestTheory.

(** ** Flat objects *)

Definition scalar (v : Value) : Prop := match v with VObject _ | VArray _ | VNull => False | _ => True end.
(** Keys that cannot be mistaken for those of the record. *)
Definition plain_key (k : string) : Prop := match k with String a _ => a ≠ "_"%char | EmptyString => False end.
Definition plain_document (doc : Value) : Prop := match doc with VObject m => Forall (λ kv, plain_key kv.1) m | _ => False end.
Definition flat (m : Object) : Prop := Forall (λ kv, plain_key kv.1 ∧ scalar kv.2) m.

Lemma plain_app k s : plain_key k → plain_key (k +:+ s).
Proof. by destruct k. Qed.

Lemma Forall_obj_insert {A} (P : string * A → Prop) k v m : Forall P m → P (k, v) → Forall P (obj_insert k v m).
Proof.
  intros Hm Hv. induction Hm as [|[k' v'] m Hk Hm IH]; cbn [obj_insert]; [by constructor|].
  case_decide as Heq; [subst; by constructor|by constructor].
Qed.

(** One field of the flattening loop, and the loop. *)
Definition flatten_field (prefix : string) (target_map : Object) (kv : string * Value) : outcome Object :=
  match kv.2 with
  | VObject _ => create_denormalized_value_worker target_map (prefix +:+ kv.1 +:+ "_") kv.2
  | VArray _ | VNull => Ok target_map
  | _ => Ok (obj_insert (prefix +:+ kv.1) kv.2 target_map)
  end.
Lemma flatten_object prefix fields : ∀ target_map, create_denormalized_value_worker target_map prefix (VObject fields) = foldM (flatten_field prefix) target_map fields.
Proof.
  cbn [create_denormalized_value_worker]. induction fields as [|[k v] fields IH]; intros target_map; [done|]. cbn [foldM]. rw /flatten_field /=.
  destruct v; try apply IH. destruct (create_denormalized_value_worker _ _ _); [apply IH|done..].
Qed.

Lemma flattens value : ∀ target_map prefix, flat target_map → plain_key prefix ∨ (prefix = "" ∧ plain_document value) → is_Some (as_object value) →
  ∃ out, create_denormalized_value_worker target_map prefix value = Ok out ∧ flat out.
Proof.
  induction value as [|b|n|s|l _|fields IH] using Value_nested_ind; intros target_map prefix Ht Hp [m Hm]; [done..|]. clear Hm m. rw flatten_object.
  assert (Hkeys : Forall (λ kv : string * Value, plain_key (prefix +:+ kv.1)) fields).
  { destruct Hp as [Hp|[-> Hp]]; [|exact Hp]. apply Forall_forall. intros. by apply plain_app. }
  clear Hp. revert target_map Ht Hkeys. induction IH as [|[k v] fields Hv _ IHf]; intros target_map Ht Hkeys; [by exists target_map|].
  apply Forall_cons in Hkeys as [Hk Hrest]. cbn [fst snd] in Hk, Hv.
  assert (Hstep : ∃ out, flatten_field prefix target_map (k, v) = Ok out ∧ flat out).
  { rw /flatten_field /=. destruct v as [|b|n|s|l|m]; [by eexists| | | |by eexists|].
    1-3: eexists; split; [done|]; apply Forall_obj_insert; [done|by split].
    apply Hv; [done|left; rw -str_app_assoc; by apply plain_app|by eexists]. }
  destruct Hstep as (out & Hs & Hout). cbn [foldM]. rw Hs bind_Ok. by apply IHf.
Qed.

Lemma denormalizes doc : plain_document doc → ∃ out, create_denormalized_value doc = Ok out ∧ flat out.
Proof. intros Hd. apply flattens; [constructor|by right|]. by destruct doc. Qed.

(** ** Merging *)

Definition merge_entry (new_doc_map : Object) (kv : string * Value) : outcome Object :=
  new_value ← match obj_get kv.1 new_doc_map, kv.2 with
              | Some (VObject m), VObject _ => merge_source (VObject m) kv.2
              | _, _ => Ok kv.2
              end;
  Ok (obj_insert kv.1 new_value new_doc_map).
Lemma merge_object updates : ∀ existing, merge_source (VObject existing) (VObject updates) = (merged ← foldM merge_entry existing updates; Ok (VObject merged)).
Proof.
  intros existing. cbn [merge_source]. f_equal. revert existing. induction updates as [|[k v] updates IH]; intros existing; [done|]. cbn [foldM]. rw /merge_entry /=.
  destruct (obj_get k existing) as [[| | | | |m]|]; try apply IH. destruct v; try apply IH. destruct (merge_source _ _); [apply IH|done..].
Qed.

(** Merging two objects gives one with the fields of either. *)
Lemma merges update : ∀ n existing, exact_within n (VObject existing) → exact_within n update → is_Some (as_object update) →
  ∃ m, merge_source (VObject existing) update = Ok (VObject m) ∧ exact_within n (VObject m) ∧ ∀ (P : string → Prop), Forall (λ kv, P kv.1) existing → Forall (λ kv, P kv.1) (default [] (as_object update)) → Forall (λ kv, P kv.1) m.
Proof.
  induction update as [|b|n|s|l _|updates IH] using Value_nested_ind; intros n' existing Hex Hup [o Ho]; [done..|]. clear Ho o. destruct n' as [|n]; [by inversion Hup|]. rw merge_object. cbn [as_object default].
  apply exact_object_inv in Hup as [_ Hup]. revert existing Hex Hup. induction IH as [|[k v] updates Hv _ IHu]; intros existing Hex Hup; [by exists existing|].
  apply Forall_cons in Hup as [[Hk Hve] Hup]. cbn [fst snd] in Hk, Hve, Hv. apply exact_object_inv in Hex as [Hnd Hex].
  assert (Hentry : ∃ v', merge_entry existing (k, v) = Ok (obj_insert k v' existing) ∧ exact_within n v').
  { rw /merge_entry /=. destruct (obj_get k existing) as [[| | | | |m]|] eqn:Hget; try by exists v. destruct v as [| | | | |mv]; try by eexists.
    apply obj_get_elem in Hget. apply (proj1 (Forall_forall _ _) Hex) in Hget as [_ Hm]. destruct (Hv n m Hm Hve) as (m' & -> & Hm' & _); [by eexists|]. by exists (VObject m'). }
  destruct Hentry as (v' & He & Hv'). cbn [foldM]. rw He bind_Ok. destruct (IHu (obj_insert k v' existing)) as (m & Hm & Hme & HP); [|done|].
  { constructor; [by apply obj_insert_NoDup|by apply Forall_obj_insert]. }
  exists m. split_and!; [done|done|]. intros P Hp [Hpk Hpu]%Forall_cons. apply HP; [by apply Forall_obj_insert|done].
Qed.

Definition writable (doc : Value) : Prop := plain_document doc ∧ exact_value doc.
Lemma merges_writable existing update : writable existing → writable update → ∃ merged, merge_source existing update = Ok merged ∧ writable merged.
Proof.
  intros [He1 He2] [Hu1 Hu2]. destruct existing as [| | | | |m]; try done. destruct update as [| | | | |u]; try done.
  destruct (merges (VObject u) json_nesting m He2 Hu2) as (out & Ho & Hoe & Hp); [by eexists|]. exists (VObject out). split; [done|]. split; [by apply (Hp plain_key)|done].
Qed.

(** ** Rows *)

(** What is read of a stored record. *)
Record Row : Type := mkRow { row_id : string; row_seq : Z; row_version : Z; row_source : string }.
Definition row_key (r : Row) : string := id_seq_no (row_id r) (row_seq r).
Definition value_key (v : Value) : option string := value_get v "_id_seq_no" ≫= as_str.
Definition row_of (v : Value) : option Row :=
  id ← record_id v;
  seq_no ← value_get v "_seq_no" ≫= as_u64;
  version ← value_get v "_version" ≫= as_u64;
  source ← value_get v "_source" ≫= as_str;
  Some (mkRow id seq_no version source).

(** A record that holds a row, whatever its other fields. *)
Definition holds (m : Object) (r : Row) : Prop :=
  obj_get "_id" m = Some (VString (row_id r)) ∧ obj_get "_seq_no" m = Some (VNumber (PosInt (row_seq r))) ∧ obj_get "_id_seq_no" m = Some (VString (row_key r)) ∧
  obj_get "_version" m = Some (VNumber (PosInt (row_version r))) ∧ obj_get "_source" m = Some (VString (row_source r)).

Lemma holds_row m r : holds m r → row_of (VObject m) = Some r ∧ value_key (VObject m) = Some (row_key r).
Proof. intros (H1 & H2 & H3 & H4 & H5). rw /row_of /value_key /record_id. cbn. rw H1 H2 H3 H4 H5. by destruct r. Qed.

Definition reserved (k : string) : Prop := match k with String a _ => a = "_"%char | EmptyString => False end.
Lemma holds_mono m m' r : holds m r → (∀ k v, reserved k → obj_get k m = Some v → obj_get k m' = Some v) → holds m' r.
Proof. intros (H1 & H2 & H3 & H4 & H5) Hm. split_and!; by apply Hm. Qed.

Lemma plain_not_reserved k : plain_key k → ¬ reserved k.
Proof. by destruct k. Qed.

Lemma insert_flat_get out : flat out → ∀ m k v, reserved k → obj_get k m = Some v → obj_get k (foldl (λ values '(k, v), obj_insert k v values) m out) = Some v.
Proof.
  induction 1 as [|[k0 v0] out [Hk _] _ IH]; intros m k v Hr Hg; [done|]. cbn [foldl]. apply IH; [done|].
  rw obj_get_insert_ne //. intros ->. by apply (plain_not_reserved _ Hk).
Qed.

Definition scalars (m : Object) : Prop := Forall (λ kv, scalar kv.2) m.
Lemma insert_flat_scalars out : flat out → ∀ m, scalars m → scalars (foldl (λ values '(k, v), obj_insert k v values) m out).
Proof. induction 1 as [|[k0 v0] out [_ Hv] _ IH]; intros m Hm; [done|]. apply IH. by apply Forall_obj_insert. Qed.

Lemma normalized_holds id version seq_no text out : flat out →
  ∃ m, normalized_record id version seq_no text out = VObject m ∧ holds m (mkRow id seq_no version text) ∧ scalars m.
Proof.
  intros Hf. eexists. split_and!; [done|eapply holds_mono; [|by apply insert_flat_get]; by split_and!|]. apply insert_flat_scalars; [done|]. by repeat constructor.
Qed.

(** ** Fitting a record to its own schema *)

Definition flat_schema (s : PowdrrSchema) : Prop := Forall (λ f, ∀ inner, data_type f ≠ TObject inner) (fields s).

Lemma coerces_flat fs : Forall (λ f, ∀ inner, data_type f ≠ TObject inner) fs → ∀ m, ∃ m', foldM coerce_step m fs = Ok m' ∧ ∀ k v, obj_get k m = Some v → obj_get k m' = Some v.
Proof.
  induction 1 as [|f fs Hf _ IH]; intros m; [by exists m|]. cbn [foldM].
  assert (Hstep : ∃ m1, coerce_step m f = Ok m1 ∧ ∀ k v, obj_get k m = Some v → obj_get k m1 = Some v).
  { rw /coerce_step. destruct (obj_get (name f) m) as [v0|] eqn:Hn.
    - exists m. split; [|done]. destruct (data_type f) eqn:Ht; try done. by destruct (Hf schema).
    - eexists. split; [done|]. intros k v Hk. rw obj_get_insert_ne //. congruence. }
  destruct Hstep as (m1 & Hs & Hm1). rw Hs bind_Ok. destruct (IH m1) as (m' & Hm' & Hk). exists m'. eauto.
Qed.

Lemma merge_one s : flat_schema s → ∃ merged, merge_all [s] = Ok merged ∧ flat_schema merged.
Proof. intros Hs. exists (mkSchema (sort_by compare_names (fields s))). split; [done|]. rw /flat_schema. cbn [fields]. by rw sort_by_perm. Qed.

Lemma coerces_record s m r : flat_schema s → holds m r → ∃ m', coerce_value s (VObject m) = Ok (VObject m') ∧ holds m' r.
Proof.
  intros Hs Hm. destruct s as [fs]. rw coerce_value_unfold. destruct (coerces_flat fs Hs m) as (m' & Hm' & Hk). rw Hm'. exists m'. split; [done|].
  apply (holds_mono m); eauto.
Qed.

(** ** Keys *)

Lemma key_inj id id' n n' : (0 ≤ n < 2 ^ 63)%Z → (0 ≤ n' < 2 ^ 63)%Z → id_seq_no id n = id_seq_no id' n' → id = id' ∧ n = n'.
Proof.
  intros Hn Hn' Heq. apply key_inj_last in Heq as [-> Heq]; [|by apply print_int_no_char..]. split; [done|].
  apply (f_equal parse_i64) in Heq. rw !parse_print_int in Heq; [lia..|]. congruence.
Qed.

(** ** The log of a table: its records and the keys that were deleted *)

(** A record is read unless its key was deleted. *)
Definition is_live (deleted : list string) (v : Value) : Prop := match value_key v with Some key => key ∉ deleted | None => True end.
#[export] Instance is_live_dec deleted v : Decision (is_live deleted v).
Proof. rw /is_live. destruct (value_key v); apply _. Defined.
Definition live (deleted : list string) (stored : list Value) : list Value := filter (is_live deleted) stored.

(** Identifiers with the version and the source of their document. *)
Abbreviation Documents := (gmap string (Z * Value)).

Section log.
Context `{jt : JsonText, !JsonTextLaws jt}.
Implicit Types (deleted : list string) (stored : list Value) (v doc : Value).

Definition row_document v : option (string * (Z * Value)) :=
  r ← row_of v;
  match json_from_slice (row_source r) with Ok doc => Some (row_id r, (row_version r, doc)) | _ => None end.
Definition log_documents deleted stored : Documents := list_to_map (omap row_document (live deleted stored)).

(** A record that was written for a document, with a sequence number that was given out. *)
Record record_for (n : Z) (r : Row) doc v : Prop := mkRecordFor {
  rf_object : ∃ m, v = VObject m ∧ holds m r;
  rf_seq : (1 ≤ row_version r ≤ row_seq r)%Z ∧ (row_seq r ≤ n)%Z;
  rf_source : row_source r = json_to_vec doc;
  rf_exact : exact_value doc;
  rf_plain : plain_document doc;
}.
Definition good_record (n : Z) v : Prop := ∃ r doc, record_for n r doc v.
Definition good_key (n : Z) (key : string) : Prop := ∃ id seq_no, key = id_seq_no id seq_no ∧ (0 ≤ seq_no ≤ n)%Z.
Record log_ok (n : Z) deleted stored : Prop := mkLogOk {
  log_records : Forall (good_record n) stored;
  log_keys : Forall (good_key n) deleted;
  log_ids : NoDup (omap record_id (live deleted stored));
}.

Lemma record_for_mono n n' r doc v : (n ≤ n')%Z → record_for n r doc v → record_for n' r doc v.
Proof. intros Hn []. split; [done|lia|done..]. Qed.
Lemma log_mono n n' deleted stored : (n ≤ n')%Z → log_ok n deleted stored → log_ok n' deleted stored.
Proof.
  intros Hn [Hr Hk Hi]. split; [|eapply Forall_impl; [exact Hk|]; intros key (id & q & ? & ?); exists id, q; split; [done|lia]|done].
  eapply Forall_impl; [exact Hr|]. intros v (r & doc & Hv). exists r, doc. by apply (record_for_mono n).
Qed.

Lemma record_reads n r doc v : record_for n r doc v → record_id v = Some (row_id r) ∧ row_of v = Some r ∧ value_key v = Some (row_key r) ∧ row_document v = Some (row_id r, (row_version r, doc)).
Proof.
  intros [(m & -> & Hm) _ Hs He _]. pose proof (holds_row m r Hm) as [Hr Hk]. split_and!; [|done|done|].
  - destruct Hm as (Hid & _). rw /record_id. cbn. by rw Hid.
  - rw /row_document Hr /=. by rw Hs json_reads_back.
Qed.

Lemma live_elem deleted stored v : v ∈ live deleted stored ↔ is_live deleted v ∧ v ∈ stored.
Proof. apply list_elem_of_filter. Qed.

Lemma live_key n deleted stored r doc v : v ∈ live deleted stored → record_for n r doc v → row_key r ∉ deleted.
Proof. intros [Hv _]%live_elem Hf. rw /is_live in Hv. pose proof (record_reads _ _ _ _ Hf) as (_ & _ & Hk & _). by rw Hk in Hv. Qed.

Lemma live_records n deleted stored : log_ok n deleted stored → Forall (good_record n) (live deleted stored).
Proof. intros [Hr _ _]. apply Forall_forall. intros v [_ Hv]%live_elem. revert v Hv. by apply Forall_forall. Qed.

Lemma document_keys n l : Forall (good_record n) l → (omap row_document l).*1 = omap record_id l.
Proof.
  induction 1 as [|v l (r & doc & Hv) _ IH]; [done|]. apply record_reads in Hv as (Hid & _ & _ & Hd). cbn. rw Hid Hd. cbn. by f_equal.
Qed.

(** The document under an identifier is that of the one record that is read. *)
Lemma documents_lookup n deleted stored id version doc : log_ok n deleted stored →
  log_documents deleted stored !! id = Some (version, doc) ↔ ∃ v r, v ∈ live deleted stored ∧ record_for n r doc v ∧ row_id r = id ∧ row_version r = version.
Proof.
  intros Hlog. pose proof (live_records _ _ _ Hlog) as Hr. rw /log_documents -elem_of_list_to_map. { rw (document_keys n); [done|apply Hlog]. }
  rw list_elem_of_omap. split.
  - intros (v & Hv & Hd). apply (proj1 (Forall_forall _ _) Hr) in Hv as Hg. destruct Hg as (r & doc' & Hf). pose proof (record_reads _ _ _ _ Hf) as (_ & _ & _ & Hd').
    rw Hd' in Hd. injection Hd as <- <- <-. by exists v, r.
  - intros (v & r & Hv & Hf & <- & <-). exists v. split; [done|]. by apply record_reads in Hf as (_ & _ & _ & ->).
Qed.

Lemma record_bounds n r doc v : (n < 2 ^ 63)%Z → record_for n r doc v → (0 ≤ row_seq r < 2 ^ 63)%Z.
Proof. intros Hn [_ Hs _ _ _]. lia. Qed.

Lemma good_key_bound n key id seq_no : (n < 2 ^ 63)%Z → good_key n key → (n < seq_no < 2 ^ 63)%Z → key ≠ id_seq_no id seq_no.
Proof. intros Hn (id' & q & -> & Hq) Hs Heq. apply key_inj in Heq as [_ ->]; lia. Qed.

(** A record with a new number and a new identifier. *)
Lemma append_record n n' deleted stored r doc v : log_ok n deleted stored → (0 ≤ n)%Z → (n ≤ n' < 2 ^ 63)%Z → record_for n' r doc v → (n < row_seq r)%Z →
  log_documents deleted stored !! row_id r = None →
  log_ok n' deleted (stored ++ [v]) ∧ log_documents deleted (stored ++ [v]) = <[row_id r := (row_version r, doc)]> (log_documents deleted stored).
Proof.
  intros Hlog H0 Hn Hf Hseq Hnone. pose proof (record_reads _ _ _ _ Hf) as (Hid & _ & Hkey & Hdoc). pose proof (record_bounds n' r doc v ltac:(lia) Hf) as Hb.
  assert (Hlive : live deleted (stored ++ [v]) = live deleted stored ++ [v]).
  { rw /live filter_app. f_equal. rw filter_cons_True //. rw /is_live Hkey. intros Hin.
    apply (proj1 (Forall_forall _ _) (log_keys _ _ _ Hlog)) in Hin. by apply (good_key_bound n _ (row_id r) (row_seq r)) in Hin; [|lia..]. }
  assert (Hfresh : row_id r ∉ (omap row_document (live deleted stored)).*1).
  { intros Hin. apply not_elem_of_list_to_map in Hnone. by apply Hnone. }
  split.
  - destruct (log_mono n n' deleted stored ltac:(lia) Hlog) as [Hr Hk Hi]. split; [apply Forall_app; split; [done|]; apply Forall_singleton; by exists r, doc|done|].
    rw Hlive omap_app. cbn. rw Hid. apply NoDup_app. split_and!; [done| |apply NoDup_singleton].
    intros id Hin ->%list_elem_of_singleton. apply Hfresh. by rw (document_keys n); [apply live_records|].
  - rw /log_documents Hlive omap_app. cbn. rw Hdoc. by rw list_to_map_snoc.
Qed.

Lemma omap_filter_NoDup {A B} (f : A → option B) (P : A → Prop) `{∀ x, Decision (P x)} l : NoDup (omap f l) → NoDup (omap f (filter P l)).
Proof.
  induction l as [|x l IH]; [done|]. rw filter_cons. cbn [omap list_omap]. destruct (f x) as [y|] eqn:Hf.
  - intros [Hy Hl]%NoDup_cons. destruct (decide (P x)); [|by apply IH]. cbn. rw Hf. apply NoDup_cons. split; [|by apply IH].
    intros (z & Hz & Hfz)%list_elem_of_omap. apply Hy, list_elem_of_omap. exists z. split; [|done]. by apply list_elem_of_filter in Hz as [_ Hz].
  - intros Hl. destruct (decide (P x)); [cbn; rw Hf|]; by apply IH.
Qed.
Lemma omap_NoDup_inj {A B} (f : A → option B) l x y b : NoDup (omap f l) → x ∈ l → y ∈ l → f x = Some b → f y = Some b → x = y.
Proof.
  induction l as [|z l IH]; [intros _ []%not_elem_of_nil|]. intros Hnd Hx Hy Hfx Hfy. cbn [omap list_omap] in Hnd.
  assert (Hl : ∀ c, f z = Some c → (c ∉ omap f l) ∧ NoDup (omap f l)) by (intros c Hc; rw Hc in Hnd; by apply NoDup_cons in Hnd).
  assert (Hin : ∀ w, w ∈ l → f w = Some b → b ∈ omap f l) by (intros w Hw Hfw; apply list_elem_of_omap; eauto).
  apply elem_of_cons in Hx as [->|Hx], Hy as [->|Hy]; [done|exfalso; by apply (proj1 (Hl _ Hfx)); eauto|exfalso; by apply (proj1 (Hl _ Hfy)); eauto|].
  apply IH; try done. destruct (f z); [by eapply Hl|done].
Qed.

(** The key of a record that is read. *)
Lemma delete_record n deleted stored r doc v : log_ok n deleted stored → (n < 2 ^ 63)%Z → v ∈ live deleted stored → record_for n r doc v →
  log_ok n (deleted ++ [row_key r]) stored ∧ log_documents (deleted ++ [row_key r]) stored = delete (row_id r) (log_documents deleted stored).
Proof.
  intros Hlog Hn Hv Hf. pose proof (record_bounds n r doc v Hn Hf) as Hb. pose proof (record_reads _ _ _ _ Hf) as (Hid & _ & Hkey & _).
  assert (Hlive : live (deleted ++ [row_key r]) stored = filter (λ v, value_key v ≠ Some (row_key r)) (live deleted stored)).
  { rw /live list_filter_filter. apply list_filter_iff. intros x. rw /is_live. destruct (value_key x) as [key|]; [|naive_solver].
    rw not_elem_of_app list_elem_of_singleton. naive_solver. }
  assert (Hlog' : log_ok n (deleted ++ [row_key r]) stored).
  { destruct Hlog as [Hr Hk Hi]. split; [done| |rw Hlive; by apply omap_filter_NoDup].
    apply Forall_app. split; [done|]. apply Forall_singleton. exists (row_id r), (row_seq r). split; [done|]. destruct Hf as [_ Hs _ _ _]. lia. }
  split; [done|]. apply map_eq. intros id. apply option_eq. intros [version d]. rw (documents_lookup n) // lookup_delete_Some (documents_lookup n) // Hlive.
  split.
  - intros (v' & r' & [Hne Hv']%list_elem_of_filter & Hf' & <- & <-). split; [|by exists v', r'].
    pose proof (record_reads _ _ _ _ Hf') as (Hid' & _ & Hkey' & _). intros Heq. rw -Heq in Hid'.
    rw (omap_NoDup_inj record_id (live deleted stored) v' v (row_id r)) in Hne; [apply Hlog|done..].
  - intros [Hne (v' & r' & Hv' & Hf' & <- & <-)]. exists v', r'. split; [|done]. apply list_elem_of_filter. split; [|done].
    pose proof (record_reads _ _ _ _ Hf') as (_ & _ & -> & _). intros [= Heq]. apply Hne. symmetry.
    eapply (key_inj _ _ (row_seq r') (row_seq r)); [by apply (record_bounds n r' d v')|done|exact Heq].
Qed.
End log.

(** ** The store *)

(** What is kept around the process: the lines of the Arrow files, and the segments of a
    table with records and with the keys of records that were replaced or deleted. *)
Class DocumentView (W : Type) : Type := {
  file_lines : W → string → option (list Value);
  data_segments : W → string → list string;
  delete_segments : W → string → list string;
}.

Section view.
Context {W : Type} `{dv : DocumentView W, ds : DocumentStore W}.
Implicit Types w : W.

Definition arrow_file (path : string) : string := path +:+ ".arrow".
Definition segment_lines w (path : string) : list Value := default [] (file_lines w (arrow_file path)).
Definition stored_records w (t : string) : list Value := concat (segment_lines w <$> data_segments w t).
Definition deleted_keys w (t : string) : list string := omap value_key (concat (segment_lines w <$> delete_segments w t)).
Definition live_records_of w (t : string) : list Value := live (deleted_keys w t) (stored_records w t).
Definition files_present w (t : string) : Prop := ∀ path, path ∈ data_segments w t ++ delete_segments w t → is_Some (file_lines w (arrow_file path)).

Definition table_named w (t : string) : Prop := ∃ td, describe_document_table w t = Ok (Some td) ∧ td_name td = t.
Definition segment_name (buffer : WriteBuffer) (index label : string) : string := segment_path (next_speedboat_segment buffer index label).
Definition committed_paths (label t : string) (commit : SpeedboatCommit) : list string :=
  concat (ti_files <$> filter (λ info, ti_commit_type info = label ∧ ti_table_name info = t) (type_files commit)).

(** Two states with the same tables. *)
Record same_tables w w' : Prop := mkSameTables {
  same_data : ∀ t, data_segments w' t = data_segments w t;
  same_deletes : ∀ t, delete_segments w' t = delete_segments w t;
  same_names : ∀ t, table_named w t → table_named w' t;
}.
Definition same_files w w' : Prop := ∀ path, file_lines w' path = file_lines w path.

(** No write and no commit is refused. *)
Definition reliable : Prop := (∀ path buffer w, ∃ size, (put_segment path buffer w).1 = Ok size) ∧ (∀ commit w, (commit_segments commit w).1 = Ok ()).

(** What the code relies on: hashes without collisions, files that are written whole or not
    at all, commits that add their segments or change nothing, and lookups that read the
    records of a table that were not deleted. *)
Class DocumentStoreLaws : Prop := {
  hash_no_collision : ∀ i l b i' l' b', segment_hash i l b = segment_hash i' l' b' → wb_lines b = wb_lines b';
  hash_no_slash : ∀ i l b, str_mem "/" (segment_hash i l b) = false;
  infer_flat : ∀ m, scalars m → flat_schema (infer_document_schema (VObject m));
  put_segment_spec : ∀ path b w r w', put_segment path b w = (r, w') →
    same_tables w w' ∧ (∀ q, q ≠ path → file_lines w' q = file_lines w q) ∧
    match r with
    | Ok _ => file_lines w' path = Some (wb_lines b)
    | Err _ => file_lines w' path = file_lines w path ∨ file_lines w' path = Some (wb_lines b)
    | Panic _ => False
    end;
  commit_segments_spec : ∀ commit w r w', commit_segments commit w = (r, w') →
    same_files w w' ∧
    match r with
    | Ok _ =>
        (∀ t, table_named w t → table_named w' t) ∧
        ∀ t, (∀ path, path ∈ committed_paths "commit" t commit → path ∉ data_segments w t) → (∀ path, path ∈ committed_paths "delete" t commit → path ∉ delete_segments w t) →
          data_segments w' t = data_segments w t ++ committed_paths "commit" t commit ∧ delete_segments w' t = delete_segments w t ++ committed_paths "delete" t commit
    | Err _ => same_tables w w'
    | Panic _ => False
    end;
  put_orphan_marker_spec : ∀ t commit error w, same_tables w (put_orphan_marker t commit error w) ∧ same_files w (put_orphan_marker t commit error w);
  lookup_by_id_spec : ∀ w t ids, table_named w t → files_present w t → Forall (λ v, is_Some (row_of v)) (stored_records w t) →
    ∃ values, lookup_by_id w t ids = Ok values ∧ row_of <$> values ≡ₚ row_of <$> filter (λ v, record_id v ∈ (Some <$> ids)) (live_records_of w t);
}.

(** ** Files are named by what they hold *)

Context `{!DocumentStoreLaws}.

Definition addressed w : Prop := ∀ buffer index label lines, file_lines w (arrow_file (segment_name buffer index label)) = Some lines → lines = wb_lines buffer.

Lemma segment_name_inj b i l b' i' l' : arrow_file (segment_name b i l) = arrow_file (segment_name b' i' l') → wb_lines b = wb_lines b'.
Proof.
  rw /arrow_file /segment_name /next_speedboat_segment. cbn [segment_path]. intros [Heq _]%key_inj_last; [|done..]. rw -!(str_app_assoc) in Heq.
  rw !(str_app_assoc _ "/" (segment_hash _ _ _)) in Heq. apply key_inj_last in Heq as [_ Heq]; [|apply hash_no_slash..]. exact (hash_no_collision _ _ _ _ _ _ Heq).
Qed.

(** More files, the same tables. *)
Record grown w w' : Prop := mkGrown {
  grown_tables : same_tables w w';
  grown_files : ∀ path lines, file_lines w path = Some lines → file_lines w' path = Some lines;
  grown_addressed : addressed w → addressed w';
}.

Lemma put_grows buffer index label w r w' : put_segment (arrow_file (segment_name buffer index label)) buffer w = (r, w') → addressed w →
  grown w w' ∧ ((∃ size, r = Ok size ∧ file_lines w' (arrow_file (segment_name buffer index label)) = Some (wb_lines buffer)) ∨ (∃ e, r = Err e ∧ ¬ reliable)).
Proof.
  intros Hput Haddr. pose proof (put_segment_spec _ _ _ _ _ Hput) as (Ht & Hother & Hr). set path := arrow_file _ in Hput, Hother, Hr |- *.
  assert (Hpath : file_lines w' path = file_lines w path ∨ file_lines w' path = Some (wb_lines buffer)) by (destruct r; [by right|done|done]).
  split; [split; [done| |]|].
  - intros q lines Hq. destruct (decide (q = path)) as [->|Hne]; [|by rw Hother]. destruct Hpath as [->| ->]; [done|]. by rw (Haddr _ _ _ _ Hq).
  - intros _ b i l lines Hq. destruct (decide (arrow_file (segment_name b i l) = path)) as [Heq|Hne]; [|rw Hother // in Hq; exact (Haddr _ _ _ _ Hq)].
    destruct Hpath as [Hp|Hp]; rw Heq Hp in Hq; [rw -Heq in Hq; exact (Haddr _ _ _ _ Hq)|]. injection Hq as <-. symmetry. exact (segment_name_inj _ _ _ _ _ _ Heq).
  - destruct r as [size|e|reason]; [left; by exists size| |done]. right. exists e. split; [done|]. intros [Hok _].
    destruct (Hok path buffer w) as [size Hs]. by rw Hput in Hs.
Qed.

Lemma grown_refl w : grown w w.
Proof. by split. Qed.
Lemma grown_trans w w1 w2 : grown w w1 → grown w1 w2 → grown w w2.
Proof.
  intros [[D1 E1 N1] F1 A1] [[D2 E2 N2] F2 A2]. split; [split| |]; [intros t; by rw D2 D1|intros t; by rw E2 E1|auto..].
Qed.

(** What grew keeps the log of its tables. *)
Lemma grown_lines w w' (paths : list string) : (∀ path lines, file_lines w path = Some lines → file_lines w' path = Some lines) → (∀ path, path ∈ paths → is_Some (file_lines w (arrow_file path))) →
  segment_lines w' <$> paths = segment_lines w <$> paths.
Proof.
  intros Hf Hp. apply list_fmap_ext. intros i path Hi. destruct (Hp path) as [lines Hl]; [exact (list_elem_of_lookup_2 _ _ _ Hi)|]. rw /segment_lines Hl. by rw (Hf _ _ Hl).
Qed.
Lemma grown_log w w' t : grown w w' → files_present w t → stored_records w' t = stored_records w t ∧ deleted_keys w' t = deleted_keys w t ∧ files_present w' t.
Proof.
  intros [[D E _] F _] Hp. split_and!.
  - rw /stored_records D. f_equal. apply grown_lines; [done|]. intros path Hin. apply Hp, elem_of_app. by left.
  - rw /deleted_keys E. do 2 f_equal. apply grown_lines; [done|]. intros path Hin. apply Hp, elem_of_app. by right.
  - intros path Hin. rw D E in Hin. destruct (Hp path Hin) as [lines Hl]. exists lines. by apply F.
Qed.

(** ** Commits *)

Implicit Types s : IngestState W.

(** The path of a buffer that is written, none for an empty one. *)
Definition buffer_paths (buffer : WriteBuffer) (t label : string) : list string := match wb_lines buffer with [] => [] | _ => [segment_name buffer t label] end.
Definition describes (infos : list SpeedboatCommitTableInfo) (buffer : WriteBuffer) (t label : string) : Prop :=
  match wb_lines buffer with [] => infos = [] | _ => ∃ id size, infos = [from_segments label t [mkSegment id (segment_name buffer t label) size] (wb_schema buffer)] end.
Definition buffer_stored w (buffer : WriteBuffer) (t label : string) : Prop := ∀ path, path ∈ buffer_paths buffer t label → file_lines w (arrow_file path) = Some (wb_lines buffer).

(** A buffer is written and described, or not written at all. *)
Lemma commit_buffer_spec buffer t label s : addressed (is_world s) → ∃ r s', commit_buffer buffer t label s = (r, s') ∧ is_cache s' = is_cache s ∧ grown (is_world s) (is_world s') ∧
  ((∃ infos, r = Ok infos ∧ describes infos buffer t label ∧ buffer_stored (is_world s') buffer t label) ∨ (∃ e, r = Err e ∧ ¬ reliable)).
Proof.
  intros Haddr. rw /commit_buffer. destruct (wb_lines buffer) as [|line lines] eqn:Hlines.
  { exists (Ok []), s. split_and!; [done|done|apply grown_refl|]. left. exists []. rw /describes /buffer_stored /buffer_paths Hlines. split_and!; [done|done|]. by intros path ?%not_elem_of_nil. }
  rw st_bind_unfold /write_to_file st_bind_unfold /on_world. fold (segment_name buffer t label). fold (arrow_file (segment_name buffer t label)).
  destruct (put_segment (arrow_file (segment_name buffer t label)) buffer (is_world s)) as [r w'] eqn:Hput.
  apply put_grows in Hput as [Hg Hr]; [|done]. destruct Hr as [(size & -> & Hl)|(e & -> & He)].
  - do 2 eexists. split_and!; [done|done|done|]. left. eexists. rw /describes /buffer_stored /buffer_paths Hlines. split_and!; [done|by do 2 eexists|]. intros path ->%list_elem_of_singleton. by rw -Hlines.
  - do 2 eexists. split_and!; [done|done|done|]. right. by exists e.
Qed.

Lemma committed_paths_app label t c inserted deleted : committed_paths label t (mkSpeedboatCommit (inserted ++ deleted) c) =
  committed_paths label t (mkSpeedboatCommit inserted c) ++ committed_paths label t (mkSpeedboatCommit deleted c).
Proof. rw /committed_paths /= filter_app fmap_app. by rw concat_app. Qed.
Lemma describes_paths infos buffer t label c : describes infos buffer t label → committed_paths label t (mkSpeedboatCommit infos c) = buffer_paths buffer t label.
Proof.
  rw /describes /buffer_paths. destruct (wb_lines buffer); [by intros ->|]. intros (id & size & ->). rw /committed_paths /=. by rw filter_cons_True.
Qed.
Lemma describes_other infos buffer t label label' c : describes infos buffer t label → label ≠ label' → committed_paths label' t (mkSpeedboatCommit infos c) = [].
Proof.
  rw /describes. destruct (wb_lines buffer); [by intros ->|]. intros (id & size & ->) Hne. rw /committed_paths /= filter_cons_False //. by intros [? _].
Qed.

Lemma stored_paths w buffer t label : buffer_stored w buffer t label → concat (segment_lines w <$> buffer_paths buffer t label) = wb_lines buffer.
Proof.
  rw /buffer_stored /buffer_paths. destruct (wb_lines buffer) as [|line lines]; [done|]. intros Hs. cbn. rw /segment_lines Hs; [by left|]. by rw /= app_nil_r.
Qed.
Lemma grown_stored w w' buffer t label : grown w w' → buffer_stored w buffer t label → buffer_stored w' buffer t label.
Proof. intros Hg Hs path Hp. apply Hg. by apply Hs. Qed.

(** The log after a commit: longer, or as it was. *)
Record log_became t w stored deleted : Prop := mkLogBecame {
  lb_stored : stored_records w t = stored;
  lb_deleted : deleted_keys w t = deleted;
  lb_files : files_present w t;
  lb_addressed : addressed w;
  lb_named : table_named w t;
}.
Definition fresh_paths (paths : list string) (known : list string) : Prop := ∀ path, path ∈ paths → path ∉ known.

Lemma files_as_before w w' : same_tables w w' → same_files w w' → grown w w'.
Proof. intros Ht Hf. split; [done| |]; [intros path lines; by rw Hf|]. intros Ha b i l lines. rw Hf. apply Ha. Qed.

Lemma grown_became t w w' : grown w w' → files_present w t → addressed w → table_named w t → log_became t w' (stored_records w t) (deleted_keys w t).
Proof. intros Hg Hf Ha Hn. destruct (grown_log w w' t Hg Hf) as (? & ? & ?). split; [done..|by apply Hg|by apply Hg]. Qed.

Lemma committed_became t w w' ins dels infos_i infos_d c : commit_segments (mkSpeedboatCommit (infos_i ++ infos_d) c) w = (Ok (), w') →
  describes infos_i ins t "commit" → describes infos_d dels t "delete" → buffer_stored w ins t "commit" → buffer_stored w dels t "delete" →
  fresh_paths (buffer_paths ins t "commit") (data_segments w t) → fresh_paths (buffer_paths dels t "delete") (delete_segments w t) →
  files_present w t → addressed w → table_named w t →
  log_became t w' (stored_records w t ++ wb_lines ins) (deleted_keys w t ++ omap value_key (wb_lines dels)).
Proof.
  intros Hc Hi Hd Hsi Hsd Hfi Hfd Hf Ha Hn. apply commit_segments_spec in Hc as (Hfiles & Hnames & Hpaths). specialize (Hpaths t).
  rw !committed_paths_app (describes_paths infos_i ins t "commit") // (describes_paths infos_d dels t "delete") // (describes_other infos_i ins t "commit" "delete") // (describes_other infos_d dels t "delete" "commit") // app_nil_r in Hpaths.
  destruct Hpaths as [Hdata Hdel]; [done|done|]. cbn [app] in Hdel.
  assert (Hl : ∀ paths : list string, segment_lines w' <$> paths = segment_lines w <$> paths).
  { intros paths. apply list_fmap_ext. intros i path _. by rw /segment_lines Hfiles. }
  split; [| | |intros b i l lines; rw Hfiles; apply Ha|by apply Hnames].
  - rw /stored_records Hdata Hl fmap_app concat_app. by rw (stored_paths _ ins).
  - rw /deleted_keys Hdel Hl fmap_app concat_app omap_app. by rw (stored_paths _ dels).
  - intros path. rw Hdata Hdel Hfiles !elem_of_app. intros [[Hp|Hp]|[Hp|Hp]]; [apply Hf, elem_of_app; by left|by rw (Hsi _ Hp)|apply Hf, elem_of_app; by right|by rw (Hsd _ Hp)].
Qed.

(** A commit adds its records and keys, or is refused and changes nothing. *)
Lemma commit_speedboat_spec t ins dels s : files_present (is_world s) t → addressed (is_world s) → table_named (is_world s) t →
  fresh_paths (buffer_paths ins t "commit") (data_segments (is_world s) t) → fresh_paths (buffer_paths dels t "delete") (delete_segments (is_world s) t) →
  ∃ r s', commit_speedboat t ins dels None "commit" s = (r, s') ∧ is_cache s' = is_cache s ∧
    ((r = Ok () ∧ log_became t (is_world s') (stored_records (is_world s) t ++ wb_lines ins) (deleted_keys (is_world s) t ++ omap value_key (wb_lines dels))) ∨
     (∃ e, r = Err e ∧ ¬ reliable ∧ log_became t (is_world s') (stored_records (is_world s) t) (deleted_keys (is_world s) t))).
Proof.
  intros Hf Ha Hn Hfi Hfd. rw /commit_speedboat. set cache := is_cache s. set w := is_world s in Hf, Ha, Hn, Hfi, Hfd |- *.
  destruct (commit_buffer_spec ins t "commit" s Ha) as (r1 & s1 & H1 & Hc1 & Hg1 & Hr1). rw st_bind_unfold H1.
  destruct Hr1 as [(infos_i & -> & Hi & Hsi)|(e & -> & He)].
  2: { do 2 eexists. split_and!; [done|done|]. right. exists e. split_and!; [done|done|by apply grown_became]. }
  destruct (commit_buffer_spec dels t "delete" s1) as (r2 & s2 & H2 & Hc2 & Hg2 & Hr2); [by apply Hg1|]. rw st_bind_unfold H2.
  assert (Hg : grown w (is_world s2)) by by apply (grown_trans _ (is_world s1)).
  destruct Hr2 as [(infos_d & -> & Hd & Hsd)|(e & -> & He)].
  2: { do 2 eexists. split_and!; [done|by rw Hc2|]. right. exists e. split_and!; [done|done|by apply grown_became]. }
  rw /commit_metadata. destruct (commit_segments (mkSpeedboatCommit (infos_i ++ infos_d) None) (is_world s2)) as [r w'] eqn:Hcommit.
  pose proof (grown_became t _ _ Hg Hf Ha Hn) as [Hst Hdl Hf2 Ha2 Hn2]. destruct r as [[]|e|reason].
  - do 2 eexists. split_and!; [done|by rw /= Hc2|]. left. split; [done|]. rw -Hst -Hdl. cbn [is_world].
    apply (committed_became t (is_world s2) w' ins dels infos_i infos_d None); try done; [by apply (grown_stored (is_world s1))| |].
    + by rw (same_data _ _ (grown_tables _ _ Hg)).
    + by rw (same_deletes _ _ (grown_tables _ _ Hg)).
  - do 2 eexists. split_and!; [done|by rw /= Hc2|]. right. eexists. split_and!; [done| |].
    + intros [_ Hok]. specialize (Hok (mkSpeedboatCommit (infos_i ++ infos_d) None) (is_world s2)). by rw Hcommit in Hok.
    + cbn [is_world]. apply commit_segments_spec in Hcommit as [Hsf Hst']. pose proof (put_orphan_marker_spec t (mkSpeedboatCommit (infos_i ++ infos_d) None) e w') as [Ho1 Ho2].
      apply grown_became; [|done..]. apply (grown_trans _ (is_world s2)); [done|]. apply (grown_trans _ w'); by apply files_as_before.
  - by apply commit_segments_spec in Hcommit as [_ []].
Qed.
End view.

(** What a table of documents answers: a status, and the identifier and version of the
    document it is about. *)
Abbreviation Answer := (Z * option (string * Z))%type.

(** ** The buffers of a request *)

Section buffers.
Context {W : Type} `{jt : JsonText, !JsonTextLaws jt, ho : HashOrder, dv : DocumentView W, ds : DocumentStore W, !DocumentStoreLaws}.
Implicit Types (s : IngestState W) (doc v : Value).

(** The operation reported for a record. *)
Definition reports (op : OperationResult) (t id : string) (version : Z) : Prop := op_index op = t ∧ op_id op = id ∧ op_version op = version ∧ op_result op ∈ ["created"; "updated"].

Lemma normalizes id version status doc seq_no : plain_document doc →
  ∃ m, ensure_normalized_value (Some seq_no) (new_record id version doc status) = Ok (mkRecord id version status (Some (VObject m)) (Some doc) None) ∧
       holds m (mkRow id seq_no version (json_to_vec doc)) ∧ scalars m.
Proof.
  intros Hd. destruct (denormalizes doc Hd) as (out & Ho & Hf). destruct (normalized_holds id version seq_no (json_to_vec doc) out Hf) as (m & Hm & Hh & Hs).
  exists m. split_and!; [|done|done]. rw /ensure_normalized_value /new_record. cbn. rw Ho. cbn. by rw Hm.
Qed.

Lemma build_one t id version status doc seq_no rest inserts updates dels : plain_document doc → (inserts = [new_record id version doc status] ∧ updates = []) ∨ (inserts = [] ∧ updates = [new_record id version doc status]) →
  ∃ b m op schema, build_records (seq_no :: rest) (mkBuilder t inserts updates dels) = Ok (b, mkWriteBuffer [VObject m] schema, [op]) ∧
    sb_table_name b = t ∧ sb_delete_records b = dels ∧ holds m (mkRow id seq_no version (json_to_vec doc)) ∧ reports op t id version.
Proof.
  intros Hd Hin. destruct (normalizes id version status doc seq_no Hd) as (m & Hm & Hh & Hs).
  destruct (merge_one (infer_document_schema (VObject m))) as (schema & Hmerge & Hflat); [by apply infer_flat|].
  destruct (coerces_record schema m _ Hflat Hh) as (m' & Hco & Hh').
  rw /build_records. cbn [sb_insert_records sb_update_records sb_table_name sb_delete_records].
  assert (Hz : inserts ++ updates = [new_record id version doc status]) by (destruct Hin as [[-> ->]|[-> ->]]; done).
  rw Hz. cbn [zip zip_with try_collect]. rw Hm. cbn -[merge_all coerce_value].
  destruct Hin as [[-> ->]|[-> ->]]; cbn [length take drop zip zip_with try_collect]; rw /as_operation; cbn -[merge_all coerce_value]; rw Hmerge; cbn -[coerce_value]; rw Hco; cbn; do 4 eexists; (split_and!; [done|done|done|done|]); split_and!; try done; set_solver.
Qed.

(** ** The state of a table *)

Definition seq_of s (t : string) : Z := next_seq_no (default (mkNativeState 0 0) (is_cache s !! t)).
Definition documents s (t : string) : Documents := log_documents (deleted_keys (is_world s) t) (stored_records (is_world s) t).
Record sound (t : string) s : Prop := mkSound {
  so_files : files_present (is_world s) t;
  so_addressed : addressed (is_world s);
  so_named : table_named (is_world s) t;
  so_log : log_ok (seq_of s t) (deleted_keys (is_world s) t) (stored_records (is_world s) t);
  so_seq : (0 ≤ seq_of s t)%Z;
}.

Lemma holds_functional m r r' : holds m r → holds m r' → r = r'.
Proof. intros [Hr _]%holds_row [Hr' _]%holds_row. congruence. Qed.

Lemma present_line t s path lines v : sound t s → file_lines (is_world s) (arrow_file path) = Some lines → v ∈ lines →
  (path ∈ data_segments (is_world s) t → v ∈ stored_records (is_world s) t) ∧ (path ∈ delete_segments (is_world s) t → ∀ key, value_key v = Some key → key ∈ deleted_keys (is_world s) t).
Proof.
  intros Hs Hl Hv.
  assert (Hc : ∀ paths, path ∈ paths → v ∈ concat (segment_lines (is_world s) <$> paths)).
  { intros paths Hp. apply list_elem_of_In, in_concat. exists lines. split; apply list_elem_of_In; [|done]. apply list_elem_of_fmap. exists path. split; [|done]. by rw /segment_lines Hl. }
  split; [apply Hc|]. intros Hp key Hkey. apply list_elem_of_omap. exists v. split; [by apply Hc|done].
Qed.

Lemma fresh_path t s buffer label paths : sound t s → (∀ path, path ∈ paths → is_Some (file_lines (is_world s) (arrow_file path))) →
  (∀ path v, path ∈ paths → file_lines (is_world s) (arrow_file path) = Some (wb_lines buffer) → v ∈ wb_lines buffer → False) → fresh_paths (buffer_paths buffer t label) paths.
Proof.
  intros Hs Hp Hno path Hin Hk. rw /buffer_paths in Hin. destruct (wb_lines buffer) as [|v lines] eqn:Hlines; [by apply not_elem_of_nil in Hin|].
  apply list_elem_of_singleton in Hin as ->. destruct (Hp _ Hk) as [lines' Hl]. pose proof (so_addressed _ _ Hs _ _ _ _ Hl) as ->. apply (Hno _ v Hk); [by rw Hl Hlines|left].
Qed.

(** A record with a number that was not given out is in a new file. *)
Lemma fresh_record t s m r schema label : sound t s → holds m r → (seq_of s t < row_seq r)%Z →
  fresh_paths (buffer_paths (mkWriteBuffer [VObject m] schema) t label) (data_segments (is_world s) t).
Proof.
  intros Hs Hm Hseq. apply (fresh_path t s); [done|intros path Hp; apply (so_files _ _ Hs), elem_of_app; by left|]. intros path v Hp Hl Hv.
  pose proof (proj1 (present_line t s path _ v Hs Hl Hv) Hp) as Hin. cbn in Hv. apply list_elem_of_singleton in Hv as ->.
  apply (proj1 (Forall_forall _ _) (log_records _ _ _ (so_log _ _ Hs))) in Hin as (r' & doc & [(m' & [= <-] & Hm') Hq _ _ _]).
  rw (holds_functional _ _ _ Hm Hm') in Hseq. lia.
Qed.
(** So is a key that was not deleted. *)
Lemma fresh_key_file t s d label : sound t s → id_seq_no (rd_id d) (rd_seq_no d) ∉ deleted_keys (is_world s) t →
  fresh_paths (buffer_paths (mkWriteBuffer [delete_as_value d] (Some deletes)) t label) (delete_segments (is_world s) t).
Proof.
  intros Hs Hnot. apply (fresh_path t s); [done|intros path Hp; apply (so_files _ _ Hs), elem_of_app; by right|]. intros path v Hp Hl Hv.
  apply Hnot. apply (proj2 (present_line t s path _ v Hs Hl Hv) Hp). cbn in Hv. by apply list_elem_of_singleton in Hv as ->.
Qed.

(** ** Commits of one document *)

Lemma commit_step t b s b' ins dels ops cache docs n approx : build_buffers b s = (Ok (b', ins, dels, ops), mkIngestState cache (is_world s)) → sb_table_name b' = t → sound t s →
  cache !! t = Some (mkNativeState approx n) → (seq_of s t ≤ n)%Z → fresh_paths (buffer_paths ins t "commit") (data_segments (is_world s) t) → fresh_paths (buffer_paths dels t "delete") (delete_segments (is_world s) t) →
  (log_ok n (deleted_keys (is_world s) t ++ omap value_key (wb_lines dels)) (stored_records (is_world s) t ++ wb_lines ins) ∧
   log_documents (deleted_keys (is_world s) t ++ omap value_key (wb_lines dels)) (stored_records (is_world s) t ++ wb_lines ins) = docs) →
  ∃ r s', commit_once b s = (r, s') ∧ seq_of s' t = n ∧ sound t s' ∧
    ((r = Ok ops ∧ documents s' t = docs) ∨ (∃ e, r = Err e ∧ ¬ reliable ∧ documents s' t = documents s t)).
Proof.
  intros Hb Hname Hs Hcn Hn Hfi Hfd [Hlog Hdocs]. rw /commit_once /builder_commit Hb Hname.
  destruct (commit_speedboat_spec t ins dels (mkIngestState cache (is_world s)) (so_files _ _ Hs) (so_addressed _ _ Hs) (so_named _ _ Hs) Hfi Hfd) as (r & s' & Hc & Hcache & Hr).
  rw Hc. do 2 eexists. split; [done|]. cbn [is_cache is_world] in Hcache, Hr. assert (Hseq : seq_of s' t = n) by by rw /seq_of Hcache Hcn. split; [done|].
  pose proof (so_seq _ _ Hs) as H0. destruct Hr as [[-> [Hst Hdl Hf Ha Hnm]]|(e & -> & He & [Hst Hdl Hf Ha Hnm])].
  - split; [split; [done|done|done|by rw Hseq Hst Hdl|lia]|]. left. split; [done|]. by rw /documents Hst Hdl.
  - split; [split; [done|done|done| |lia]|]. { rw Hseq Hst Hdl. apply (log_mono (seq_of s t)); [done|apply Hs]. }
    right. exists e. split_and!; [done|done|]. by rw /documents Hst Hdl.
Qed.

(** The document is written with a version, or nothing changes. *)
Definition written (t : string) s (b : SpeedboatCommitBuilder) (answer : list OperationResult → Prop) (docs : Documents) : Prop :=
  ∃ r s', commit_once b s = (r, s') ∧ (seq_of s t ≤ seq_of s' t ≤ seq_of s t + 2)%Z ∧ sound t s' ∧
    ((∃ ops, r = Ok ops ∧ answer ops ∧ documents s' t = docs) ∨ (∃ e, r = Err e ∧ ¬ reliable ∧ documents s' t = documents s t)).

Lemma report_changes t i u d cache k : i + u + d = S k → let state := default (mkNativeState 0 0) (cache !! t) in
  (0 ≤ next_seq_no state)%Z → (next_seq_no state + Z.of_nat (S k) < 2 ^ 63)%Z →
  ∃ rest approx, report_table_changes t i u d cache = ((next_seq_no state + Z.of_nat (S k))%Z :: rest, <[t := mkNativeState approx (next_seq_no state + Z.of_nat (S k))]> cache).
Proof.
  intros Hk state H0 Hb. rw /report_table_changes Hk. cbn [Nat.eqb]. fold state. rw wrap_u64_small; [lia|]. cbn [seq fmap list_fmap]. rw Z.sub_0_r wrap_u64_small; [lia|]. eauto.
Qed.

Lemma build_buffers_eq b s seqs cache b' ins ops :
  report_table_changes (sb_table_name b) (length (sb_insert_records b)) (length (sb_update_records b)) (length (sb_delete_records b)) (is_cache s) = (seqs, cache) →
  match sb_insert_records b ++ sb_update_records b with [] => Ok (b, mkWriteBuffer [] None, []) | _ => build_records seqs b end = Ok (b', ins, ops) →
  build_buffers b s = (Ok (b', ins, mkWriteBuffer (delete_as_value <$> sb_delete_records b') (Some deletes), ops ++ (delete_as_operation (sb_table_name b') <$> sb_delete_records b')), mkIngestState cache (is_world s)).
Proof. intros Hrep Hrec. rw /build_buffers st_bind_unfold /on_cache /st_update Hrep st_bind_unfold /st_lift. by rw Hrec. Qed.

(** The record of a document with a new number. *)
Lemma fresh_record_for n m id version doc seq_no : holds m (mkRow id seq_no version (json_to_vec doc)) → (1 ≤ version ≤ seq_no)%Z → (seq_no ≤ n)%Z → writable doc →
  record_for n (mkRow id seq_no version (json_to_vec doc)) doc (VObject m).
Proof. intros Hm Hv Hn [Hp He]. split; [by exists m|done..]. Qed.

Lemma insert_written t s id doc : sound t s → (seq_of s t + 2 < 2 ^ 63)%Z → writable doc → documents s t !! id = None →
  written t s (insert_record id 1 doc None (new_builder t)) (λ ops, ∃ op, ops = [op] ∧ reports op t id 1) (<[id := (1%Z, doc)]> (documents s t)).
Proof.
  intros Hs Hb Hw Hnone. pose proof (so_seq _ _ Hs) as H0.
  destruct (report_changes t 1 0 0 (is_cache s) 0 eq_refl) as (rest & approx & Hrep); [done|rw /seq_of in Hb; lia|]. fold (seq_of s t) in Hrep.
  destruct (build_one t id 1 None doc (seq_of s t + 1) rest [new_record id 1 doc None] [] [] (proj1 Hw)) as (b & m & op & schema & Hbuild & Hname & Hdel & Hm & Hop); [by left|].
  pose proof (build_buffers_eq (insert_record id 1 doc None (new_builder t)) s _ _ _ _ _ Hrep Hbuild) as Hbb. rw Hdel in Hbb.
  destruct (commit_step t _ s _ _ _ _ _ (<[id := (1%Z, doc)]> (documents s t)) _ _ Hbb Hname Hs (lookup_insert_eq _ _ _)) as (r & s' & Hc & Hq & Hs' & Hr).
  - lia.
  - eapply fresh_record; [exact Hs|exact Hm|]. cbn. lia.
  - by intros path ?%not_elem_of_nil.
  - cbn [wb_lines fmap list_fmap omap list_omap]. rw app_nil_r. 
    apply (append_record (seq_of s t) _ _ _ (mkRow id (seq_of s t + 1) 1 (json_to_vec doc))); [apply Hs|done|lia|apply fresh_record_for; [done|lia|lia|done]|cbn; lia|done].
  - exists r, s'. split_and!; [done|lia|lia|done|]. destruct Hr as [[-> Hd]|Hr]; [left; eexists; split_and!; [done|by exists op|done]|by right].
Qed.

(** What is read under an identifier. *)
Definition reads (t : string) s (r : Row) doc : Prop := ∃ v, v ∈ live_records_of (is_world s) t ∧ record_for (seq_of s t) r doc v.

Lemma replace_written t s r doc doc' : sound t s → (seq_of s t + 2 < 2 ^ 63)%Z → writable doc' → reads t s r doc → ∀ source status source_str,
  written t s (replace_record (mkFullRecord (mkRecord (row_id r) (row_version r) status None source source_str) (row_seq r)) doc' None (new_builder t))
    (λ ops, ∃ op op', ops = [op; op'] ∧ reports op t (row_id r) (row_version r + 1)) (<[row_id r := ((row_version r + 1)%Z, doc')]> (documents s t)).
Proof.
  intros Hs Hb Hw (v & Hv & Hf) source status source_str. pose proof (so_seq _ _ Hs) as H0. pose proof (rf_seq _ _ _ _ Hf) as Hrs.
  destruct (report_changes t 0 1 1 (is_cache s) 1 eq_refl) as (rest & approx & Hrep); [done|rw /seq_of in Hb; lia|]. fold (seq_of s t) in Hrep.
  set d := mkRecordDelete (row_id r) (row_seq r) (row_version r).
  destruct (build_one t (row_id r) (row_version r + 1) None doc' (seq_of s t + 2) rest [] [new_record (row_id r) (row_version r + 1) doc' None] [d] (proj1 Hw)) as (b & m & op & schema & Hbuild & Hname & Hdel & Hm & Hop); [by right|].
  assert (Hrr : replace_record (mkFullRecord (mkRecord (row_id r) (row_version r) status None source source_str) (row_seq r)) doc' None (new_builder t) = mkBuilder t [] [new_record (row_id r) (row_version r + 1) doc' None] [d]).
  { rw /replace_record /=. by rw wrap_u64_small; [lia|]. }
  rw Hrr. pose proof (build_buffers_eq (mkBuilder t [] [new_record (row_id r) (row_version r + 1) doc' None] [d]) s _ _ _ _ _ Hrep Hbuild) as Hbb. rw Hdel in Hbb.
  destruct (delete_record (seq_of s t) _ _ r doc v (so_log _ _ Hs) ltac:(lia) Hv Hf) as [Hlog1 Hdocs1].
  destruct (commit_step t _ s _ _ _ _ _ (<[row_id r := ((row_version r + 1)%Z, doc')]> (documents s t)) _ _ Hbb Hname Hs (lookup_insert_eq _ _ _)) as (r0 & s' & Hc & Hq & Hs' & Hr).
  - lia.
  - eapply fresh_record; [exact Hs|exact Hm|]. cbn. lia.
  - apply (fresh_key_file t s d); [done|]. exact (live_key _ _ _ _ _ _ Hv Hf).
  - cbn [wb_lines fmap list_fmap omap list_omap].
    destruct (append_record (seq_of s t) (seq_of s t + 2) (deleted_keys (is_world s) t ++ [row_key r]) (stored_records (is_world s) t) (mkRow (row_id r) (seq_of s t + 2) (row_version r + 1) (json_to_vec doc')) doc' (VObject m)) as [Hl Hd]; [done|done|lia|apply fresh_record_for; [done|lia|lia|done]|cbn; lia|by rw Hdocs1 lookup_delete_eq|].
    split; [exact Hl|]. etrans; [exact Hd|]. rw Hdocs1. cbn. by rw insert_delete_eq.
  - exists r0, s'. split_and!; [done|lia|lia|done|]. destruct Hr as [[-> Hd]|Hr]; [left; eexists; split_and!; [done|by do 2 eexists|done]|by right].
Qed.

Lemma delete_written t s r doc : sound t s → (seq_of s t + 2 < 2 ^ 63)%Z → reads t s r doc →
  written t s (builder_delete (mkRecordDelete (row_id r) (row_seq r) (row_version r)) (new_builder t))
    (λ ops, ∃ op, ops = [op] ∧ op_id op = row_id r ∧ op_version op = row_version r) (delete (row_id r) (documents s t)).
Proof.
  intros Hs Hb (v & Hv & Hf). pose proof (so_seq _ _ Hs) as H0.
  destruct (report_changes t 0 0 1 (is_cache s) 0 eq_refl) as (rest & approx & Hrep); [done|rw /seq_of in Hb; lia|]. fold (seq_of s t) in Hrep.
  set d := mkRecordDelete (row_id r) (row_seq r) (row_version r).
  pose proof (build_buffers_eq (builder_delete d (new_builder t)) s _ _ _ _ _ Hrep eq_refl) as Hbb.
  destruct (delete_record (seq_of s t) _ _ r doc v (so_log _ _ Hs) ltac:(lia) Hv Hf) as [Hlog1 Hdocs1].
  destruct (commit_step t _ s _ _ _ _ _ (delete (row_id r) (documents s t)) _ _ Hbb eq_refl Hs (lookup_insert_eq _ _ _)) as (r0 & s' & Hc & Hq & Hs' & Hr).
  - lia.
  - by intros path ?%not_elem_of_nil.
  - apply (fresh_key_file t s d); [done|]. exact (live_key _ _ _ _ _ _ Hv Hf).
  - cbn [wb_lines]. rw app_nil_r. split; [|exact Hdocs1]. apply (log_mono (seq_of s t)); [lia|exact Hlog1].
  - exists r0, s'. split_and!; [done|lia|lia|done|]. destruct Hr as [[-> Hd]|Hr]; [left; eexists; split_and!; [done|by eexists|done]|by right].
Qed.

(** ** Lookups *)

Lemma row_object value r : row_of value = Some r → ∃ m, value = VObject m.
Proof. rw /row_of /record_id. destruct value; try done. by eexists. Qed.

Lemma row_fields m r : row_of (VObject m) = Some r →
  record_text m "_id" = Ok (row_id r) ∧ record_number m "_seq_no" = Ok (row_seq r) ∧ record_number m "_version" = Ok (row_version r) ∧ record_text m "_source" = Ok (row_source r).
Proof.
  rw /row_of /record_id /record_text /record_number /value_get. cbn. intros Hr.
  destruct (obj_get "_id" m) as [vid|]; [|done]. cbn in *. destruct (as_str vid); [|done].
  destruct (obj_get "_seq_no" m) as [vs|]; [|done]. cbn in *. destruct (as_u64 vs); [|done].
  destruct (obj_get "_version" m) as [vv|]; [|done]. cbn in *. destruct (as_u64 vv); [|done].
  destruct (obj_get "_source" m) as [vt|]; [|done]. cbn in *. destruct (as_str vt); [|done]. by injection Hr as <-.
Qed.

Lemma row_record_id v r : row_of v = Some r → record_id v = Some (row_id r).
Proof.
  rw /row_of. destruct (record_id v); [|done]. cbn. destruct (value_get v "_seq_no" ≫= as_u64); [|done]. cbn. destruct (value_get v "_version" ≫= as_u64); [|done]. cbn.
  destruct (value_get v "_source" ≫= as_str); [|done]. by intros [= <-].
Qed.

Definition record_of (r : Row) : FullRecord := mkFullRecord (mkRecord (row_id r) (row_version r) None None None (Some (row_source r))) (row_seq r).
Lemma reads_full_record value r : row_of value = Some r → full_record_from_record value = Ok (record_of r).
Proof.
  intros Hr. destruct (row_object _ _ Hr) as [m ->]. destruct (row_fields _ _ Hr) as (H1 & H2 & H3 & H4). rw /full_record_from_record /record_from_record. cbn. by rw H1 H2 H3 H4.
Qed.

Lemma dedupe_none id : dedupe_lookup_docs [id] [] = [].
Proof. rw /dedupe_lookup_docs /=. by rw lookup_empty hash_iter_empty. Qed.
Lemma dedupe_one id value : record_id value = Some id → dedupe_lookup_docs [id] [value] = [value].
Proof.
  intros Hid. rw /dedupe_lookup_docs. cbn [foldl dedupe_step]. rw Hid lookup_empty. cbn [foldl take_requested]. rw lookup_insert_eq delete_insert_id; [apply lookup_empty|].
  by rw hash_iter_empty.
Qed.

(** At most one record is read under an identifier. *)
Lemma filter_id l id : NoDup (omap record_id l) → (filter (λ v, record_id v ∈ (Some <$> [id])) l = [] ∧ id ∉ omap record_id l) ∨
  (∃ v, filter (λ v, record_id v ∈ (Some <$> [id])) l = [v] ∧ v ∈ l ∧ record_id v = Some id).
Proof.
  intros Hnd. set P := λ v, record_id v ∈ (Some <$> [id]). assert (HP : ∀ v, P v ↔ record_id v = Some id) by (intros v; rw /P /=; apply list_elem_of_singleton).
  destruct (filter P l) as [|v rest] eqn:Hf.
  - left. split; [done|]. intros (v & Hv & Hid)%list_elem_of_omap. apply (not_elem_of_nil v). rw -Hf. apply list_elem_of_filter. by rw HP.
  - right. exists v. assert (Hin : ∀ u, u ∈ v :: rest → u ∈ l ∧ record_id u = Some id) by (intros u; rw -Hf list_elem_of_filter HP; naive_solver).
    destruct (Hin v) as [Hv Hid]; [left|]. split_and!; [|done|done]. f_equal. destruct rest as [|u rest]; [done|]. exfalso.
    pose proof (omap_filter_NoDup record_id P l Hnd) as Hnd'. rw Hf in Hnd'. destruct (Hin u) as [_ Hu]; [right; left|]. cbn in Hnd'. rw Hid Hu in Hnd'.
    apply NoDup_cons in Hnd' as [Hn _]. apply Hn. left.
Qed.

Lemma lookup_one t s id : sound t s →
  (documents s t !! id = None ∧ get_existing_docs t [id] s = (Ok [], s)) ∨
  (∃ r doc value, reads t s r doc ∧ row_id r = id ∧ documents s t !! id = Some (row_version r, doc) ∧ get_existing_docs t [id] s = (Ok [value], s) ∧ row_of value = Some r).
Proof.
  intros Hs. pose proof (so_log _ _ Hs) as Hlog.
  destruct (lookup_by_id_spec (is_world s) t [id]) as (values & Hl & Hp); [apply Hs..| |].
  { eapply Forall_impl; [apply Hlog|]. intros v (r & doc & Hf). by pose proof (record_reads _ _ _ _ Hf) as (_ & -> & _). }
  rw /get_existing_docs /read_world Hl. destruct (filter_id (live_records_of (is_world s) t) id (log_ids _ _ _ Hlog)) as [[Hf Hn]|(v & Hf & Hv & Hid)]; rw Hf in Hp.
  - left. apply Permutation_nil_r in Hp. destruct values; [|done]. rw dedupe_none. split; [|done].
    apply not_elem_of_list_to_map. rw (document_keys (seq_of s t)); [by apply live_records|done].
  - right. pose proof (proj1 (Forall_forall _ _) (live_records _ _ _ Hlog) v Hv) as (r & doc & Hfor). pose proof (record_reads _ _ _ _ Hfor) as (Hid' & Hr & _ & _).
    cbn in Hp. rw Hr in Hp. apply Permutation_singleton_r in Hp. destruct values as [|value [|]]; [done| |done]. injection Hp as Hval.
    assert (Hvid : record_id value = Some id) by by rw (row_record_id _ _ Hval) -Hid' Hid.
    exists r, doc, value. rw Hid in Hid'. injection Hid' as Hidr. split_and!; [by exists v|done| |by rw dedupe_one|done].
    apply (documents_lookup (seq_of s t)); [done|]. by exists v, r.
Qed.

(** ** Requests *)

Inductive Request : Type :=
| IndexDocument (id payload : string)
| CreateDocument (id payload : string)
| UpdateDocument (id payload : string)
| DeleteDocument (id : string).
Definition serve_one (t : string) (request : Request) : ST (IngestState W) DocumentResponse :=
  match request with
  | IndexDocument id payload => index_single_worker t (Some id) payload
  | CreateDocument id payload => create_single_worker t id payload
  | UpdateDocument id payload => update_single_worker t id payload
  | DeleteDocument id => delete_document t id
  end.

Definition respond_update (docs : Documents) (id : string) (update : UpdateBody) : outcome Answer * Documents :=
  if ub_script update || default false (ub_scripted_upsert update) then (Err "Scripted document updates are not implemented", docs)
  else match docs !! id, ub_doc update with
       | Some _, None => (Err "Document update without a doc payload is not implemented", docs)
       | Some (version, doc), Some patch =>
           match merge_source doc patch with
           | Ok merged => (Ok (200%Z, Some (id, (version + 1)%Z)), <[id := ((version + 1)%Z, merged)]> docs)
           | Err e => (Err e, docs)
           | Panic reason => (Panic reason, docs)
           end
       | None, doc =>
           match (if default false (ub_doc_as_upsert update) then ok_or doc (Err "doc_as_upsert requires a doc payload")
                  else ok_or (ub_upsert update) (Err "Document update requires an existing document or an upsert payload")) with
           | Ok doc => (Ok (201%Z, Some (id, 1%Z)), <[id := (1%Z, doc)]> docs)
           | Err e => (Err e, docs)
           | Panic reason => (Panic reason, docs)
           end
       end.
Definition respond (docs : Documents) (request : Request) : outcome Answer * Documents :=
  let bad_request := (Ok (400%Z, None), docs) in
  match request with
  | IndexDocument id payload =>
      match json_from_slice payload with
      | Ok doc => match docs !! id with
                  | None => (Ok (201%Z, Some (id, 1%Z)), <[id := (1%Z, doc)]> docs)
                  | Some (version, _) => (Ok (200%Z, Some (id, (version + 1)%Z)), <[id := ((version + 1)%Z, doc)]> docs)
                  end
      | _ => bad_request
      end
  | CreateDocument id payload =>
      match json_from_slice payload with
      | Ok doc => match docs !! id with None => (Ok (201%Z, Some (id, 1%Z)), <[id := (1%Z, doc)]> docs) | Some _ => (Ok (409%Z, None), docs) end
      | _ => bad_request
      end
  | UpdateDocument id payload => match decode_update payload with Ok update => respond_update docs id update | _ => bad_request end
  | DeleteDocument id => match docs !! id with None => (Ok (404%Z, Some (id, 1%Z)), docs) | Some (version, _) => (Ok (200%Z, Some (id, version)), delete id docs) end
  end.

Definition answer_of (response : DocumentResponse) : Answer :=
  (dr_status response, match dr_body response with BodyOperation operation => Some (op_id operation, op_version operation) | _ => None end).
Definition answers (r : outcome DocumentResponse) (expected : outcome Answer) : Prop :=
  match r, expected with Ok response, Ok answer => answer_of response = answer | Err e, Err e' => e = e' | _, _ => False end.

(** Documents are objects whose keys are not empty and do not start with an underscore, of
    integers of 64 bits. *)
Definition plain_request (request : Request) : Prop :=
  match request with
  | IndexDocument _ payload | CreateDocument _ payload => ∀ doc, json_from_slice payload = Ok doc → writable doc
  | UpdateDocument _ payload => ∀ update doc, decode_update payload = Ok update → ub_doc update = Some doc ∨ ub_upsert update = Some doc → writable doc
  | DeleteDocument _ => True
  end.

(** A request is answered as a table of documents answers it, or refused. *)
Definition served (t : string) s (docs : Documents) (expected : outcome Answer * Documents) (result : outcome DocumentResponse * IngestState W) : Prop :=
  let '(r, s') := result in
  sound t s' ∧ (seq_of s t ≤ seq_of s' t ≤ seq_of s t + 2)%Z ∧
  ((answers r expected.1 ∧ documents s' t = expected.2) ∨ (∃ e, r = Err e ∧ ¬ reliable ∧ documents s' t = docs)).

Lemma unchanged t s r expected : sound t s → answers r expected → served t s (documents s t) (expected, documents s t) (r, s).
Proof. intros Hs Ha. split_and!; [done|lia|lia|by left]. Qed.

Lemma existing_named t s : sound t s → ∃ td, existing_table t s = (Ok td, s) ∧ td_name td = t.
Proof.
  intros [_ _ (td & Hd & Hn) _ _]. exists td. split; [|done]. rw /existing_table st_bind_unfold /describe_table_log_error_then_none /read_world. by rw Hd.
Qed.

(** After a commit only the answer is left. *)
Lemma written_served {ok : list OperationResult → Prop} t s b docs expected (k : list OperationResult → ST (IngestState W) DocumentResponse) :
  written t s b ok docs → (∀ ops s', ok ops → ∃ response, k ops s' = (Ok response, s') ∧ answer_of response = expected) →
  served t s (documents s t) (Ok expected, docs) ((operations ← commit_once b; k operations) s).
Proof.
  intros (r & s' & Hc & Hq & Hs' & Hr) Hk. rw st_bind_unfold Hc. destruct Hr as [(ops & -> & Hok & Hd)|(e & -> & He & Hd)].
  - destruct (Hk ops s' Hok) as (response & -> & Ha). split_and!; [done|lia|lia|]. by left.
  - split_and!; [done|lia|lia|]. right. by exists e.
Qed.

(** The operation of a document that was written is the first. *)
Lemma reports_primary op t id version rest : reports op t id version → primary_operation (op :: rest) = Ok op.
Proof.
  intros (_ & _ & _ & Hr). rw /primary_operation /=. rw !elem_of_cons in Hr. by destruct Hr as [->|[->|[]%not_elem_of_nil]].
Qed.

Lemma create_served t s id payload : sound t s → (seq_of s t + 2 < 2 ^ 63)%Z → plain_request (CreateDocument id payload) →
  served t s (documents s t) (respond (documents s t) (CreateDocument id payload)) (create_single_worker t id payload s).
Proof.
  intros Hs Hb Hp. cbn in Hp. rw /create_single_worker /respond. destruct (existing_named t s Hs) as (td & Htd & Hn). rw st_bind_unfold Htd Hn.
  destruct (json_from_slice payload) as [doc| |]; [|by apply unchanged..]. specialize (Hp doc eq_refl).
  rw st_bind_unfold. destruct (lookup_one t s id Hs) as [[Hd ->]|(r & d & value & Hr & <- & Hd & -> & Hv)]; rw Hd; [|by apply unchanged].
  eapply written_served; [by apply insert_written|]. intros ops s' (op & -> & Hop). eexists. split; [done|]. destruct Hop as (_ & Hi & Hv & _). by rw /answer_of /= Hi Hv.
Qed.

(** The buffer of an index or update request, committed. *)
Lemma primary_served t s b docs status id version location : written t s b (λ ops, ∃ op rest, ops = op :: rest ∧ reports op t id version) docs →
  served t s (documents s t) (Ok (status, Some (id, version)), docs) ((operations ← commit_once b; operation ← st_lift (primary_operation operations); mret (mkDocumentResponse status (BodyOperation operation) location)) s).
Proof.
  intros Hw. eapply written_served; [exact Hw|]. intros ops s' (op & rest & -> & Hop). rw (reports_primary op t id version) //. eexists. split; [done|].
  destruct Hop as (_ & Hi & Hv & _). by rw /answer_of /= Hi Hv.
Qed.
Lemma written_mono t s b (P Q : list OperationResult → Prop) docs : written t s b P docs → (∀ ops, P ops → Q ops) → written t s b Q docs.
Proof. intros (r & s' & ? & ? & ? & Hr) HPQ. exists r, s'. do 3 (split; [done|]). naive_solver. Qed.

Lemma index_served t s id payload : sound t s → (seq_of s t + 2 < 2 ^ 63)%Z → plain_request (IndexDocument id payload) →
  served t s (documents s t) (respond (documents s t) (IndexDocument id payload)) (index_single_worker t (Some id) payload s).
Proof.
  intros Hs Hb Hp. cbn in Hp. rw /index_single_worker /respond. destruct (existing_named t s Hs) as (td & Htd & Hn). rw st_bind_unfold Htd Hn.
  destruct (json_from_slice payload) as [doc| |]; [|by apply unchanged..]. specialize (Hp doc eq_refl).
  rw st_bind_unfold. cbn [mret st_ret]. rw !st_bind_unfold. destruct (lookup_one t s id Hs) as [[Hd ->]|(r & d & value & Hr & <- & Hd & -> & Hv)]; rw Hd.
  - cbn -[commit_once]. apply primary_served. eapply written_mono; [by apply insert_written|]. intros ops (op & -> & Hop). by exists op, [].
  - rw /only_record (reads_full_record _ _ Hv). cbn -[commit_once replace_record]. apply primary_served.
    eapply written_mono; [by apply (replace_written t s r d)|]. intros ops (op & op' & -> & Hop). by exists op, [op'].
Qed.

Lemma unwrap_bind {A B} (o : option A) (f : A → option B) : unwrap (o ≫= f) = (a ← unwrap o; unwrap (f a)) :> outcome B.
Proof. by destruct o. Qed.

Lemma delete_served t s id : sound t s → (seq_of s t + 2 < 2 ^ 63)%Z → served t s (documents s t) (respond (documents s t) (DeleteDocument id)) (delete_document t id s).
Proof.
  intros Hs Hb. rw /delete_document /respond. destruct (existing_named t s Hs) as (td & Htd & Hn). rw st_bind_unfold Htd Hn st_bind_unfold.
  destruct (lookup_one t s id Hs) as [[Hd ->]|(r & d & value & Hr & <- & Hd & -> & Hv)]; rw Hd; [by apply unchanged|].
  destruct (row_object _ _ Hv) as [m ->]. destruct (row_fields _ _ Hv) as (_ & Hseq & Hver & _). rw /record_number in Hseq Hver.
  rw st_bind_unfold /st_lift. rw (unwrap_bind (obj_get "_seq_no" m)) Hseq st_bind_unfold. rw (unwrap_bind (obj_get "_version" m)) Hver.
  eapply written_served; [by apply (delete_written t s r d)|]. intros ops s' (op & -> & Hi & Hvn). eexists. split; [done|]. by rw /answer_of /= Hi Hvn.
Qed.

(** What an update does to the buffer is what it does to the documents. *)
Lemma update_existing t s id r doc update : reads t s r doc → row_id r = id → documents s t !! id = Some (row_version r, doc) →
  (∀ patch, ub_doc update = Some patch → writable patch) → sound t s → (seq_of s t + 2 < 2 ^ 63)%Z →
  match apply_update_request (new_builder t) id (Some (record_of r)) update None None with
  | Ok (outcome, b) => outcome = Updated ∧ ∃ merged, respond_update (documents s t) id update = (Ok (200%Z, Some (id, (row_version r + 1)%Z)), <[id := ((row_version r + 1)%Z, merged)]> (documents s t)) ∧
      written t s b (λ ops, ∃ op rest, ops = op :: rest ∧ reports op t id (row_version r + 1)) (<[id := ((row_version r + 1)%Z, merged)]> (documents s t))
  | Err e => respond_update (documents s t) id update = (Err e, documents s t)
  | Panic _ => False
  end.
Proof.
  intros Hr <- Hd Hpatch Hs Hb. rw /apply_update_request /respond_update. destruct (_ || _); [done|]. rw Hd. destruct (ub_doc update) as [patch|]; [|done]. specialize (Hpatch patch eq_refl).
  destruct Hr as (v & Hv & Hf). pose proof Hf as [_ _ Hsrc He Hpl]. cbn. rw Hsrc json_reads_back //. cbn.
  destruct (merges_writable doc patch) as (merged & -> & Hm); [by split|done|]. cbn -[replace_record]. split; [done|]. exists merged. split; [done|]. rw -Hsrc.
  eapply written_mono; [apply (replace_written t s r doc merged); [done|done|done|by exists v]|]. intros ops (op & op' & -> & Hop). by exists op, [op'].
Qed.
Lemma update_absent t s id update : documents s t !! id = None → (∀ doc, ub_doc update = Some doc ∨ ub_upsert update = Some doc → writable doc) → sound t s → (seq_of s t + 2 < 2 ^ 63)%Z →
  match apply_update_request (new_builder t) id None update None None with
  | Ok (outcome, b) => outcome = Created ∧ ∃ doc, respond_update (documents s t) id update = (Ok (201%Z, Some (id, 1%Z)), <[id := (1%Z, doc)]> (documents s t)) ∧
      written t s b (λ ops, ∃ op rest, ops = op :: rest ∧ reports op t id 1) (<[id := (1%Z, doc)]> (documents s t))
  | Err e => respond_update (documents s t) id update = (Err e, documents s t)
  | Panic _ => False
  end.
Proof.
  intros Hd Hdoc Hs Hb. rw /apply_update_request /respond_update. destruct (_ || _); [done|]. rw Hd.
  assert (Hins : ∀ doc, writable doc → written t s (insert_record id 1 doc None (new_builder t)) (λ ops, ∃ op rest, ops = op :: rest ∧ reports op t id 1) (<[id := (1%Z, doc)]> (documents s t))).
  { intros doc Hw. eapply written_mono; [by apply insert_written|]. intros ops (op & -> & Hop). by exists op, []. }
  destruct (default false (ub_doc_as_upsert update)).
  - destruct (ub_doc update) as [doc|]; [|done]. cbn -[insert_record]. split; [done|]. exists doc. split; [done|]. apply Hins, Hdoc. by left.
  - destruct (ub_upsert update) as [doc|]; [|done]. cbn -[insert_record]. split; [done|]. exists doc. split; [done|]. apply Hins, Hdoc. by right.
Qed.

Lemma update_served t s id payload : sound t s → (seq_of s t + 2 < 2 ^ 63)%Z → plain_request (UpdateDocument id payload) →
  served t s (documents s t) (respond (documents s t) (UpdateDocument id payload)) (update_single_worker t id payload s).
Proof.
  intros Hs Hb Hp. cbn in Hp. rw /update_single_worker /respond. destruct (existing_named t s Hs) as (td & Htd & Hn). rw st_bind_unfold Htd Hn.
  destruct (decode_update payload) as [update| |]; [|by apply unchanged..]. pose proof (λ doc, Hp update doc eq_refl) as Hdoc. clear Hp.
  rw st_bind_unfold. destruct (lookup_one t s id Hs) as [[Hd ->]|(r & d & value & Hr & Hid & Hd & -> & Hv)].
  - pose proof (update_absent t s id update Hd Hdoc Hs Hb) as Hu. cbn -[apply_update_request commit_once respond_update]. rw !st_bind_unfold. rw /st_lift.
    destruct (apply_update_request (new_builder t) id None update None None) as [[out b]|e|]; [|rw Hu; by apply unchanged|done].
    destruct Hu as (-> & doc & -> & Hw). by apply primary_served.
  - pose proof (update_existing t s id r d update Hr Hid Hd ltac:(naive_solver) Hs Hb) as Hu. rw st_bind_unfold /only_record (reads_full_record _ _ Hv). cbn -[apply_update_request commit_once respond_update record_of].
    rw st_bind_unfold /st_lift. destruct (apply_update_request (new_builder t) id (Some (record_of r)) update None None) as [[out b]|e|]; [|rw Hu; by apply unchanged|done].
    destruct Hu as (-> & merged & -> & Hw). by apply primary_served.
Qed.

Lemma request_served t s request : sound t s → (seq_of s t + 2 < 2 ^ 63)%Z → plain_request request → served t s (documents s t) (respond (documents s t) request) (serve_one t request s).
Proof. intros Hs Hb Hp. destruct request; [by apply index_served|by apply create_served|by apply update_served|by apply delete_served]. Qed.

(** ** Sequences of requests *)

Fixpoint serve (t : string) (requests : list Request) s : list (outcome DocumentResponse) * IngestState W :=
  match requests with
  | [] => ([], s)
  | request :: requests => let '(r, s) := serve_one t request s in let '(rs, s) := serve t requests s in (r :: rs, s)
  end.

(** The answers of a table of documents that may refuse requests when [refuses] holds; a
    request that is refused changes nothing. *)
Inductive behaves (refuses : Prop) : Documents → list Request → list (outcome DocumentResponse) → Documents → Prop :=
| behaves_nil docs : behaves refuses docs [] [] docs
| behaves_answer docs request requests r rs docs' : answers r (respond docs request).1 → behaves refuses (respond docs request).2 requests rs docs' → behaves refuses docs (request :: requests) (r :: rs) docs'
| behaves_refuse docs request requests e rs docs' : refuses → behaves refuses docs requests rs docs' → behaves refuses docs (request :: requests) (Err e :: rs) docs'.

End buffers.

End IngestTheory.

(** ** A store in memory, for examples *)
Module IngestDemo.
Import IngestTheory JsonTextDemo HashOrderDemo.

(** The commits that will be refused. *)
Record MemoryStore : Type := mkMemory { ms_files : gmap string (list Value); ms_data : gmap string (list string); ms_deletes : gmap string (list string); ms_refusals : list bool }.
#[local] Instance memory_view : DocumentView MemoryStore := {
  file_lines := λ w path, ms_files w !! path;
  data_segments := λ w t, default [] (ms_data w !! t);
  delete_segments := λ w t, default [] (ms_deletes w !! t);
}.

Definition add_path (label : string) (segments : gmap string (list string)) (info : SpeedboatCommitTableInfo) : gmap string (list string) :=
  if String.eqb (ti_commit_type info) label then <[ti_table_name info := default [] (segments !! ti_table_name info) ++ ti_files info]> segments else segments.
Definition memory_commit (commit : SpeedboatCommit) (w : MemoryStore) : outcome () * MemoryStore :=
  match ms_refusals w with
  | true :: refusals => (Err "the commit was refused", mkMemory (ms_files w) (ms_data w) (ms_deletes w) refusals)
  | refusals => (Ok (), mkMemory (ms_files w) (foldl (add_path "commit") (ms_data w) (type_files commit)) (foldl (add_path "delete") (ms_deletes w) (type_files commit)) (tail refusals))
  end.
#[local] Instance memory_store : DocumentStore MemoryStore := {
  describe_document_table := λ w t, Ok (Some (mkTableDescription t ∅ None None None None None));
  lookup_by_id := λ w t ids, Ok (filter (λ v, record_id v ∈ (Some <$> ids)) (live_records_of w t));
  put_segment := λ path buffer w, (Ok (Z.of_nat (length (wb_lines buffer))), mkMemory (<[path := wb_lines buffer]> (ms_files w)) (ms_data w) (ms_deletes w) (ms_refusals w));
  commit_segments := memory_commit;
  put_orphan_marker := λ t commit error w, w;
  new_document_id := λ w, ("new", w);
  segment_hash := λ index label buffer, bits (countable.encode (value_tree <$> wb_lines buffer));
  infer_document_schema := λ v, mkSchema ((λ kv, mkField kv.1 TString) <$> default [] (as_object v));
  ingest_base_path := "s3://lake";
  encode_userinfo := λ id, id;
  decode_command := λ line,
    v ← json_from_slice line;
    match v with VObject [("index", VObject body)] => Ok (CmdIndex (mkCommandBody (obj_get "_index" body ≫= as_str) (obj_get "_id" body ≫= as_str))) | _ => Err "expected a command" end;
  decode_update := λ payload, v ← json_from_slice payload; m ← ok_or (as_object v) (Err "expected an object"); Ok (mkUpdateBody None false (obj_get "doc" m) (obj_get "upsert" m) None);
}.

Lemma bits_no_slash p : str_mem "/" (bits p) = false.
Proof. by induction p. Qed.
Lemma bits_inj p q : bits p = bits q → p = q.
Proof. intros Heq. by rw -(of_bits_bits p) Heq of_bits_bits. Qed.

Lemma tree_values (l : list Value) : tree_value ∘ value_tree <$> l = l.
Proof. rw -{2}(list_fmap_id l). apply list_fmap_ext. intros. apply tree_value_tree. Qed.

Lemma add_paths label infos : ∀ segments t, default [] (foldl (add_path label) segments infos !! t) = default [] (segments !! t) ++ concat (ti_files <$> filter (λ info, ti_commit_type info = label ∧ ti_table_name info = t) infos).
Proof.
  induction infos as [|info infos IH]; intros segments t; [by rw app_nil_r|]. cbn [foldl]. rw IH /add_path filter_cons. destruct (String.eqb_spec (ti_commit_type info) label) as [He|He].
  - destruct (decide (ti_table_name info = t)) as [<-|Hne].
    + rw lookup_insert_eq decide_True //. cbn. by rw -app_assoc.
    + rw lookup_insert_ne // decide_False //. by intros [_ ?].
  - rw decide_False //. by intros [? _].
Qed.

#[local] Instance memory_laws : DocumentStoreLaws.
Proof.
  split.
  - intros i l b i' l' b' Heq%bits_inj. apply countable.encode_inj in Heq. cbn in Heq.
    apply (f_equal (fmap tree_value)) in Heq. rw -!list_fmap_compose in Heq. by rw !tree_values in Heq.
  - intros i l b. apply bits_no_slash.
  - intros m Hm. apply Forall_fmap, Forall_forall. by intros [].
  - intros path b w r w' [= <- <-]. split_and!; [by split|intros q Hq; cbn; rw lookup_insert_ne; [congruence|done]|]. cbn. by rw lookup_insert_eq.
  - intros commit w r w'. cbn. rw /memory_commit. destruct (ms_refusals w) as [|[] refusals]; intros [= <- <-]; (split; [done|]); [|by split|]; (split; [done|]); intros t _ _; cbn; by rw !add_paths.
  - done.
  - intros w t ids _ _ _. by eexists.
Qed.

(** Two documents; the second is created again, merged, refused once, and deleted. *)
Definition doc_a : Value := VObject [("title", VString "a"); ("size", VObject [("width", int 3)])].
Definition doc_b : Value := VObject [("title", VString "b")].
Definition patch_b : Value := VObject [("doc", VObject [("size", VObject [("width", int 7)])])].
Definition demo_requests : list Request :=
  [IndexDocument "1" (json_to_vec doc_a); CreateDocument "2" (json_to_vec doc_b); CreateDocument "2" (json_to_vec doc_a); UpdateDocument "2" (json_to_vec patch_b);
   IndexDocument "1" (json_to_vec doc_b); IndexDocument "1" "{"; DeleteDocument "2"; DeleteDocument "3"].
Definition demo_state : IngestState MemoryStore := mkIngestState ∅ (mkMemory ∅ ∅ ∅ [false; false; false; true]).

Lemma demo_sound : sound "docs" demo_state.
Proof.
  split; [|by intros b i l lines|by eexists|split; constructor|done]. intros path Hin. by apply not_elem_of_nil in Hin.
Qed.

Lemma demo_writable : writable doc_a ∧ writable doc_b.
Proof. split; (split; [by repeat constructor|]); repeat (constructor || set_solver || done). Qed.

Lemma demo_plain : Forall plain_request demo_requests.
Proof.
  destruct demo_writable as [Ha Hb].
  assert (Hread : ∀ d doc, writable d → json_from_slice (json_to_vec d) = Ok doc → writable doc) by (intros d doc Hd; rw json_reads_back; [apply Hd|]; by intros [= <-]).
  rw /demo_requests !Forall_cons Forall_nil. split_and!; cbn [plain_request]; [exact (λ doc, Hread doc_a doc Ha)|exact (λ doc, Hread doc_b doc Hb)|exact (λ doc, Hread doc_a doc Ha)| |exact (λ doc, Hread doc_b doc Hb)|by vm_compute|done..].
  intros update doc Hu. vm_compute in Hu. injection Hu as <-. intros [[= <-]|]; [|done]. split; [by repeat constructor|]. repeat (constructor || set_solver || done).
Qed.


(** The answers, with the index request that was refused, and what is left. *)
Definition shown (r : outcome DocumentResponse) : outcome Answer := match r with Ok response => Ok (answer_of response) | Err e => Err e | Panic reason => Panic reason end.
Lemma demo_run : (shown <$> (serve "docs" demo_requests demo_state).1) =
  [Ok (201, Some ("1", 1)); Ok (201, Some ("2", 1)); Ok (409, None); Ok (200, Some ("2", 2));
   Err "Uploaded speedboat segments but failed to commit metadata: the commit was refused"; Ok (400, None); Ok (200, Some ("2", 2)); Ok (404, Some ("3", 1))]%Z ∧
  documents (serve "docs" demo_requests demo_state).2 "docs" = {[ "1" := (1%Z, doc_a) ]}.
Proof. split; vm_compute; reflexivity. Qed.

(** ** What the code does not do *)

(** Two index commands for one identifier in a bulk request keep two records, since the
    second looks for the first in the committed table only; numbers are given from the last
    down, so the first command is the one that is read. *)
Definition index_command (id : string) : string := json_to_vec (VObject [("index", VObject [("_id", VString id)])]).
Definition newline : string := String "010" "".
Definition bulk_payload : string := index_command "1" +:+ newline +:+ json_to_vec doc_a +:+ newline +:+ index_command "1" +:+ newline +:+ json_to_vec doc_b +:+ newline.
Definition after_bulk : actor_step (W := MemoryStore) :=
  let '(_, actor, s) := handle_message (MsgIngestSingleTable "docs" bulk_payload 7) (mkIngestActor ∅ []) demo_state in handle_message MsgCommit actor s.
Definition read_sources (s : IngestState MemoryStore) (id : string) : outcome (list (option Row)) := match (get_existing_docs "docs" [id] s).1 with Ok values => Ok (map row_of values) | Err e => Err e | Panic reason => Panic reason end.

Theorem first_bulk_index_wins :
  length (live_records_of (is_world after_bulk.2) "docs") = 2 ∧ read_sources after_bulk.2 "1" = Ok [Some (mkRow "1" 2 1 (json_to_vec doc_a))].
Proof. split; vm_compute; reflexivity. Qed.

(** The response of a bulk request has no items. *)
Theorem bulk_response_is_empty : after_bulk.1.1 = Ok [(7, Ok (mkBulkResult false 0 []))].
Proof. vm_compute. reflexivity. Qed.

(** A document that is not an object ends the task that serves it. *)
Theorem document_not_an_object_panics : (serve_one "docs" (IndexDocument "1" (json_to_vec (int 3))) demo_state).1 = Panic "assertion failed: value.is_object()".
Proof. vm_compute. reflexivity. Qed.

(** A field of the document may take the place of the record's own: here it is stored under
    another identifier than the one of the request, with version nine. *)
Definition disguised : Value := VObject [("_id", VString "2"); ("_version", int 9)].
Theorem document_overrides_the_record : let s := (serve_one "docs" (IndexDocument "1" (json_to_vec disguised)) demo_state).2 in
  read_sources s "1" = Ok [] ∧ read_sources s "2" = Ok [Some (mkRow "2" 1 9 (json_to_vec disguised))].
Proof. split; vm_compute; reflexivity. Qed.
End IngestDemo.
