(* ===== verification/MongoFind.v ===== *)
(** * MongoDB find commands (query_runtime/src/serving_protocol.rs)

    A [find] document is translated to a serving request and back, and a serving request
    to an Elasticsearch body; what is not supported is refused. *)

From S2P Require Import Prelude Text Json QueryPath Float Pruning Planner.

Abbreviation mgo := (result string).

(** SRC query_runtime/src/serving_protocol.rs:6-25 MongoFindCommand *)
Record MongoFindCommand : Type := mkFindCommand {
  fc_find : string;
  fc_filter : Value;
  fc_projection : option Value;
  fc_sort : option Value;
  fc_limit : option Z;
  fc_skip : option Z;
  fc_batch_size : option Z;
  fc_single_batch : option bool;
  fc_no_cursor_timeout : option bool;
}.

(** SRC query_runtime/src/serving_protocol.rs:27-36 MongoFindRequest *)
Record MongoFindRequest : Type := mkFindRequest { fr_filter : Value; fr_projection : option Value; fr_sort : option Value; fr_limit : option nat }.

(** SRC query_runtime/src/serving_protocol.rs:59-61 default_mongo_filter *)
Definition default_mongo_filter : Value := VObject [].

(** [json!(1.0)] and objects from pairs ([collect::<Map<_, _>>()] inserts one by one). *)
Definition one : Value := VNumber (NFloat (mkF64 1 0)).
Definition object_of (pairs : list (string * Value)) : Object := foldl (λ object pair, obj_insert pair.1 pair.2 object) [] pairs.

(** ** From a request *)

(** The entries of a range, in the order they are inserted. *)
Definition range_entries (prefix : string) (predicate : ServingPredicate) : Object :=
  option_list ((λ value, (prefix +:+ "gt", value)) <$> sv_gt predicate) ++ option_list ((λ value, (prefix +:+ "gte", value)) <$> sv_gte predicate) ++
  option_list ((λ value, (prefix +:+ "lt", value)) <$> sv_lt predicate) ++ option_list ((λ value, (prefix +:+ "lte", value)) <$> sv_lte predicate).

(** SRC query_runtime/src/serving_protocol.rs:169-203 elasticsearch_filter *)
Definition elasticsearch_filter (predicate : ServingPredicate) : Value :=
  match sv_eq predicate, sv_in_values predicate with
  | Some eq, _ => VObject [("term", VObject [(sv_field predicate, eq)])]
  | None, Some values => VObject [("terms", VObject [(sv_field predicate, VArray values)])]
  | None, None => VObject [("range", VObject [(sv_field predicate, VObject (range_entries "" predicate))])]
  end.

(** SRC query_runtime/src/serving_protocol.rs:63-100 to_elasticsearch_search *)
Definition to_elasticsearch_search (plan : ServingRequestPlan) : Value :=
  VObject (
    option_list ((λ select, ("_source", VArray (VString <$> select))) <$> sr_select plan) ++
    option_list ((λ limit : nat, ("size", int (Z.of_nat limit))) <$> sr_limit plan) ++
    (if decide (sr_order_by plan = []) then []
     else [("sort", VArray ((λ sort, VObject [(ss_field sort, VObject [("order", VString (if ss_descending sort then "desc" else "asc"))])]) <$> sr_order_by plan))]) ++
    [("query", if decide (sr_filters plan = []) then VObject [("match_all", VObject [])]
               else VObject [("bool", VObject [("filter", VArray (elasticsearch_filter <$> sr_filters plan))])])]).

(** SRC query_runtime/src/serving_protocol.rs:205-227 mongodb_filter *)
Definition mongodb_filter (predicate : ServingPredicate) : Value :=
  match sv_eq predicate, sv_in_values predicate with
  | Some eq, _ => eq
  | None, Some values => VObject [("$in", VArray values)]
  | None, None => VObject (range_entries "$" predicate)
  end.

(** SRC query_runtime/src/serving_protocol.rs:102-142 to_mongodb_find *)
Definition to_mongodb_find (plan : ServingRequestPlan) : MongoFindRequest :=
  mkFindRequest
    (VObject (object_of ((λ predicate, (sv_field predicate, mongodb_filter predicate)) <$> sr_filters plan)))
    (Some (match sr_select plan with
           | Some fields => VObject (obj_insert "_id" (int 0) (object_of ((λ field, (field, int 1)) <$> fields)))
           | None => VObject [("_id", int 0)]
           end))
    (if decide (sr_order_by plan = []) then None
     else Some (VObject (object_of ((λ item, (ss_field item, int (if ss_descending item then -1 else 1)%Z)) <$> sr_order_by plan))))
    (sr_limit plan).

(** ** To a request *)

Definition dollar (text : string) : bool := starts_with "$" text.

(** [map.keys().all(|key| !key.starts_with('$'))] *)
Definition no_operators (map : Object) : bool := forallb (λ key, negb (dollar key)) (obj_keys map).

(** One operator of a predicate. *)
Definition parse_operator (field : string) (predicate : ServingPredicate) (entry : string * Value) : mgo ServingPredicate :=
  let '(operator, operand) := entry in
  let '(mkServingPredicate f eq in_values gt gte lt lte) := predicate in
  if String.eqb operator "$eq" then Ok (mkServingPredicate f (Some operand) in_values gt gte lt lte)
  else if String.eqb operator "$in" then
    match as_array operand with
    | Some values => Ok (mkServingPredicate f eq (Some values) gt gte lt lte)
    | None => Err ("Mongo filter field " +:+ field +:+ " uses $in with a non-array operand")
    end
  else if String.eqb operator "$gt" then Ok (mkServingPredicate f eq in_values (Some operand) gte lt lte)
  else if String.eqb operator "$gte" then Ok (mkServingPredicate f eq in_values gt (Some operand) lt lte)
  else if String.eqb operator "$lt" then Ok (mkServingPredicate f eq in_values gt gte (Some operand) lte)
  else if String.eqb operator "$lte" then Ok (mkServingPredicate f eq in_values gt gte lt (Some operand))
  else Err ("Unsupported Mongo filter operator " +:+ operator +:+ " for field " +:+ field).

Definition has_range (predicate : ServingPredicate) : bool :=
  is_some (sv_gt predicate) || is_some (sv_gte predicate) || is_some (sv_lt predicate) || is_some (sv_lte predicate).

(** SRC query_runtime/src/serving_protocol.rs:258-343 parse_mongodb_field_predicate *)
Definition parse_mongodb_field_predicate (field : string) (value : Value) : mgo ServingPredicate :=
  let literal := Ok (mkServingPredicate field (Some value) None None None None None) in
  match as_object value with
  | None => literal
  | Some value_map =>
      if bool_decide (value_map = []) || no_operators value_map then literal
      else if existsb (λ key, negb (dollar key)) (obj_keys value_map) then Err ("Mongo filter field " +:+ field +:+ " mixed operator and literal keys")
      else
        predicate ← foldM (parse_operator field) (mkServingPredicate field None None None None None None) value_map;
        if is_some (sv_eq predicate) && (is_some (sv_in_values predicate) || has_range predicate)
        then Err ("Mongo filter field " +:+ field +:+ " mixes $eq with other operators")
        else if is_some (sv_in_values predicate) && has_range predicate
        then Err ("Mongo filter field " +:+ field +:+ " mixes $in with range operators")
        else Ok predicate
  end.

(** SRC query_runtime/src/serving_protocol.rs:229-256 parse_mongodb_filter_document *)
Fixpoint parse_mongodb_filter_document (value : Value) : mgo (list ServingPredicate) :=
  match value with
  | VObject document =>
      (fix go (document : list (string * Value)) : mgo (list ServingPredicate) :=
         match document with
         | [] => Ok []
         | (field, value) :: document =>
             predicates ← (if String.eqb field "$and" then
                             match value with
                             | VArray clauses =>
                                 (fix clauses_go (clauses : list Value) : mgo (list ServingPredicate) :=
                                    match clauses with
                                    | [] => Ok []
                                    | clause :: clauses =>
                                        first ← parse_mongodb_filter_document clause;
                                        rest ← clauses_go clauses;
                                        Ok (first ++ rest)
                                    end) clauses
                             | _ => Err "$and must be an array of documents"
                             end
                           else if dollar field then Err ("Unsupported top-level Mongo filter operator " +:+ field)
                           else predicate ← parse_mongodb_field_predicate field value; Ok [predicate]);
             rest ← go document;
             Ok (predicates ++ rest)
         end) document
  | _ => Err "Mongo filter must be a document"
  end.

(** SRC query_runtime/src/serving_protocol.rs:386-398 mongodb_projection_mode *)
Definition mongodb_projection_mode (value : Value) : option bool :=
  match value with
  | VBool boolean => Some boolean
  | VNumber (PosInt n) => if (n =? 0)%Z then Some false else if (n =? 1)%Z then Some true else None
  | _ => None
  end.

(** One field of a projection: the included fields and whether one was excluded. *)
Definition project_mode (state : list string * bool) (entry : string * Value) : mgo (list string * bool) :=
  let '(included_fields, saw_exclusion) := state in
  mode ← ok_or (mongodb_projection_mode entry.2) (Err ("Mongo projection field " +:+ entry.1 +:+ " must be 0/1 or false/true"));
  Ok (if mode : bool then (included_fields ++ [entry.1], saw_exclusion)
      else if String.eqb entry.1 "_id" then (included_fields, saw_exclusion) else (included_fields, true)).

(** SRC query_runtime/src/serving_protocol.rs:345-384 parse_mongodb_projection *)
Definition parse_mongodb_projection (projection : option Value) : mgo (option (list string)) :=
  match projection with
  | None => Ok None
  | Some projection =>
      projection_map ← ok_or (as_object projection) (Err "Mongo projection must be a document");
      '(included_fields, saw_exclusion) ← foldM project_mode ([], false) projection_map;
      if saw_exclusion : bool then Err "Mongo exclusion projection is not supported yet except for `_id: 0`"
      else Ok (if decide (included_fields = []) then None else Some included_fields)
  end.

(** [value.as_i64().or_else(|| value.as_u64().map(|number| number as i64))]: an integer
    above the signed range wraps. *)
Definition wrapping_i64 (value : Value) : option Z :=
  match as_i64 value with Some n => Some n | None => (λ n, (n - 2 ^ 64)%Z) <$> as_u64 value end.

(** SRC query_runtime/src/serving_protocol.rs:400-432 parse_mongodb_sort *)
Definition parse_mongodb_sort (sort : option Value) : mgo (list ServingSort) :=
  match sort with
  | None => Ok []
  | Some sort =>
      sort_map ← ok_or (as_object sort) (Err "Mongo sort must be a document");
      try_collect (λ '(field, value),
        match wrapping_i64 value with
        | Some 1%Z => Ok (mkServingSort field false)
        | Some (-1)%Z => Ok (mkServingSort field true)
        | _ => Err ("Mongo sort field " +:+ field +:+ " must use 1 or -1")
        end) sort_map
  end.

(** SRC query_runtime/src/serving_protocol.rs:434-442 parse_mongodb_limit *)
Definition parse_mongodb_limit (limit : option Z) : mgo (option nat) :=
  match limit with
  | None => Ok None
  | Some value => if (value =? 0)%Z then Ok None else if (0 <? value)%Z then Ok (Some (Z.to_nat value)) else Err "Mongo limit must be a non-negative integer"
  end.

(** SRC query_runtime/src/serving_protocol.rs:144-167 from_mongodb_find *)
Definition from_mongodb_find (command : MongoFindCommand) : mgo ServingRequestPlan :=
  if decide (trim (fc_find command) = "") then Err "find command must include a non-empty collection name"
  else if negb (default 0%Z (fc_skip command) =? 0)%Z then Err "skip is not supported by the serving request planner yet"
  else
    select ← parse_mongodb_projection (fc_projection command);
    filters ← parse_mongodb_filter_document (fc_filter command);
    order_by ← parse_mongodb_sort (fc_sort command);
    limit ← parse_mongodb_limit (fc_limit command);
    Ok (mkServingRequest select filters None order_by limit false false).
