(* ===== verification/MongoCommands.v ===== *)
(** * MongoDB commands (query_server/src/mongodb_protocol.rs)

    A table is exposed as a MongoDB collection with one of its columns as [_id].  A
    [find] is rewritten to the columns of the table, answered by the serving path, and its
    rows are handed out in batches through cursors that a process keeps and expires.

    A command sees one state of the metadata provider; the process state holds what the
    serving path keeps, the cursors, and how often the clock was read. *)

From S2P Require Import Prelude Text Json JsonText Schema FileSet Contract Checkpoint QueryPath Float Pruning Planner SnapshotCodec SnapshotLookup SnapshotServing TopK ServingExec Provider.
From S2P Require Import StableSort MongoFind.

(** ** Data *)

(** SRC query_server/src/mongodb_protocol.rs:54-59 MongoDbConfigResponse *)
Record MongoDbConfigResponse : Type := mkMongoConfigResponse { mr_acknowledged : bool; mr_table : string; mr_mongodb : MongoDbTableConfig }.

(** SRC query_server/src/mongodb_protocol.rs:61-73= MongoFindResponse, MongoCursorResponse *)
Record MongoFindResponse : Type := mkFindResponse { fp_id : Z; fp_ns : string; fp_first_batch : list Value }.

(** SRC query_server/src/mongodb_protocol.rs:75-83 MongoCursorState *)
Record MongoCursorState : Type := mkCursor {
  cu_ns : string;
  cu_database : string;
  cu_collection : string;
  cu_remaining_rows : list Value;
  cu_no_cursor_timeout : bool;
  cu_expires_at_ms : option Z;
}.

(** SRC query_server/src/mongodb_protocol.rs:85-89 MongoCollectionMetadataStats *)
Record MongoCollectionMetadataStats : Type := mkCollectionStats { ms_storage_size_bytes : Z; ms_document_count : option Z }.

(** SRC query_server/src/mongodb_protocol.rs:100-106 MongoCommandError *)
Record MongoCommandError : Type := mkMongoError { me_status : Z; me_code : Z; me_code_name : string; me_message : string }.

(** SRC query_server/src/mongodb_protocol.rs:1196-1200 MongoTableBinding *)
Record MongoTableBinding : Type := mkMongoBinding { mb_table_name : string; mb_config : MongoDbTableConfig }.

(** SRC query_server/src/mongodb_protocol.rs:42-42 MONGO_CURSOR_TIMEOUT_MS *)
Definition MONGO_CURSOR_TIMEOUT_MS : Z := 10 * 60 * 1000.

(** What a process keeps: the serving path's caches, [MONGO_CURSOR_IDS], [MONGO_CURSORS]
    and the readings of the clock so far. *)
(** SRC query_server/src/mongodb_protocol.rs:43-45= MONGO_CURSOR_IDS, MONGO_CURSORS *)
Record MongoProcess : Type := mkMongoProcess { mp_serving : ServingState; mp_next_id : Z; mp_cursors : gmap Z MongoCursorState; mp_readings : nat }.
Definition set_mongo_serving (serving : ServingState) (s : MongoProcess) : MongoProcess := mkMongoProcess serving (mp_next_id s) (mp_cursors s) (mp_readings s).
Definition set_cursors (cursors : gmap Z MongoCursorState) (s : MongoProcess) : MongoProcess := mkMongoProcess (mp_serving s) (mp_next_id s) cursors (mp_readings s).

Abbreviation mongo := (result MongoCommandError).
Abbreviation Mongo := (RST MongoCommandError MongoProcess).

(** ** Errors *)

(** SRC query_server/src/mongodb_protocol.rs:109-116= MongoCommandError::bad_value *)
Definition bad_value (message : string) : MongoCommandError := mkMongoError 400 2 "BadValue" message.
(** SRC query_server/src/mongodb_protocol.rs:118-125= MongoCommandError::namespace_not_found *)
Definition mongo_namespace_not_found (message : string) : MongoCommandError := mkMongoError 404 26 "NamespaceNotFound" message.
(** SRC query_server/src/mongodb_protocol.rs:127-134= MongoCommandError::cursor_not_found *)
Definition cursor_not_found (cursor_id : Z) : MongoCommandError := mkMongoError 404 43 "CursorNotFound" ("Mongo cursor " +:+ print_int cursor_id +:+ " was not found or expired").
(** SRC query_server/src/mongodb_protocol.rs:136-143= MongoCommandError::internal *)
Definition mongo_internal (message : string) : MongoCommandError := mkMongoError 503 1 "InternalError" message.
(** SRC query_server/src/mongodb_protocol.rs:145-152= MongoCommandError::read_only *)
Definition mongo_read_only (message : string) : MongoCommandError := mkMongoError 403 13 "Unauthorized" message.
(** SRC query_server/src/mongodb_protocol.rs:158-166= MongoCommandError::from_serving_error *)
Definition from_serving_error (error : ServingQueryError) : MongoCommandError :=
  if (sqe_status error =? 404)%Z then mongo_namespace_not_found (sqe_message error)
  else if (sqe_status error =? 400)%Z || (sqe_status error =? 422)%Z then bad_value (sqe_message error)
  else mongo_internal (sqe_message error).
(** SRC query_server/src/mongodb_protocol.rs:168-184= MongoCommandError::from_query_response *)
Definition from_query_response (response : ServingQueryResponse) : MongoCommandError :=
  let message := default "Serving query could not be satisfied" (qr_reason response) in
  match pl_classification (qr_plan response) with
  | SlowPath => mkMongoError 422 2 "QueryPlanKilled" message
  | _ => bad_value message
  end.
(** SRC query_server/src/mongodb_protocol.rs:1472-1474 service_error *)
Definition mongo_service_error {A} (m : outcome A) : mongo A := map_err mongo_internal m.

(** [Err(MongoCommandError::bad_value(message))] *)
Definition refuse {A} (message : string) : mongo A := Err (bad_value message).

(** SRC query_server/src/mongodb_protocol.rs:1496-1507= command_error_value, command_error_response *)
Definition command_error_value (error : MongoCommandError) : Value :=
  VObject [("ok", VNumber (NFloat (mkF64 0 0))); ("errmsg", VString (me_message error)); ("code", int (me_code error)); ("codeName", VString (me_code_name error))].

(** ** Fields of a command *)

(** SRC query_server/src/mongodb_protocol.rs:973-984 required_string *)
Definition required_string (command : Object) (field : string) : mongo string :=
  value ← ok_or (obj_get field command) (refuse ("Mongo command requires " +:+ field));
  ok_or (as_str value) (refuse ("Mongo command field " +:+ field +:+ " must be a string")).

(** [as_i64] or an unsigned value that fits: every integer of the signed range. *)
(** SRC query_server/src/mongodb_protocol.rs:993-998 value_as_i64 *)
Definition value_as_i64 (value : Value) : mongo Z := ok_or (as_i64 value) (refuse "Mongo command integer field was invalid").

(** SRC query_server/src/mongodb_protocol.rs:986-991 required_i64 *)
Definition required_i64 (command : Object) (field : string) : mongo Z :=
  value ← ok_or (obj_get field command) (refuse ("Mongo command requires " +:+ field));
  value_as_i64 value.

(** SRC query_server/src/mongodb_protocol.rs:937-947 optional_bool *)
Definition optional_bool (command : Object) (field : string) : mongo (option bool) :=
  match obj_get field command with
  | None => Ok None
  | Some value => Some <$> ok_or (as_bool value) (refuse ("Mongo command field " +:+ field +:+ " must be a boolean"))
  end.

(** SRC query_server/src/mongodb_protocol.rs:915-935 list_collections_filter_name *)
Definition list_collections_filter_name (command : Object) : mongo (option string) :=
  match obj_get "filter" command with
  | None => Ok None
  | Some filter =>
      filter ← ok_or (as_object filter) (refuse "Mongo listCollections filter must be a document");
      match obj_get "name" filter with
      | None => Ok None
      | Some name => Some <$> ok_or (as_str name) (refuse "Mongo listCollections filter field name must be a string")
      end
  end.

(** SRC query_server/src/mongodb_protocol.rs:949-963 command_scale_factor *)
Definition command_scale_factor (command : Object) : mongo Z :=
  match obj_get "scale" command with
  | None => Ok 1%Z
  | Some value =>
      scale_factor ← value_as_i64 value;
      if (scale_factor <=? 0)%Z then refuse "Mongo command field scale must be a positive integer" else Ok scale_factor
  end.

(** SRC query_server/src/mongodb_protocol.rs:965-971 scale_size *)
Definition scale_size (size scale_factor : Z) : Z := if (scale_factor <=? 1)%Z then size else (size / scale_factor)%Z.

(** SRC query_server/src/mongodb_protocol.rs:905-913 validate_positive_batch_size *)
Definition validate_positive_batch_size (batch_size : Z) : mongo nat :=
  if (batch_size <=? 0)%Z then refuse "Mongo batchSize must be a positive integer" else Ok (Z.to_nat batch_size).

(** SRC query_server/src/mongodb_protocol.rs:1338-1355 validate_command_database *)
Definition validate_command_database (command : Object) (database : string) : mongo () :=
  match obj_get "$db" command with
  | None => Ok ()
  | Some (VString request_database) =>
      if String.eqb request_database database then Ok ()
      else refuse ("Mongo command path database " +:+ database +:+ " did not match $db " +:+ request_database)
  | Some _ => refuse "Mongo command field $db must be a string"
  end.

(** ** Rewriting to the columns of the table *)

(** SRC query_server/src/mongodb_protocol.rs:1126-1132 rewrite_mongodb_field_name *)
Definition rewrite_mongodb_field_name (field id_field : string) : string := if String.eqb field "_id" then id_field else field.

(** SRC query_server/src/mongodb_protocol.rs:1017-1050 rewrite_mongodb_filter_document *)
Fixpoint rewrite_mongodb_filter_document (id_field : string) (filter : Value) : mongo Value :=
  match filter with
  | VObject filter_map =>
      rewritten ← (fix go (rewritten : Object) (filter_map : list (string * Value)) : mongo Object :=
         match filter_map with
         | [] => Ok rewritten
         | (field, value) :: filter_map =>
             entry ← (if String.eqb field "$and" then
                        match value with
                        | VArray clauses =>
                            clauses ← (fix clauses_go (clauses : list Value) : mongo (list Value) :=
                                         match clauses with
                                         | [] => Ok []
                                         | clause :: clauses =>
                                             first ← rewrite_mongodb_filter_document id_field clause;
                                             rest ← clauses_go clauses;
                                             Ok (first :: rest)
                                         end) clauses;
                            Ok ("$and", VArray clauses)
                        | _ => refuse "$and must be an array of documents"
                        end
                      else if dollar field then Ok (field, value)
                      else Ok (rewrite_mongodb_field_name field id_field, value));
             go (obj_insert entry.1 entry.2 rewritten) filter_map
         end) [] filter_map;
      Ok (VObject rewritten)
  | _ => refuse "Mongo filter must be a document"
  end.

(** SRC query_server/src/mongodb_protocol.rs:1134-1147 should_include_mongo_id *)
Definition should_include_mongo_id (projection : option Value) : mongo bool :=
  match projection with
  | None => Ok true
  | Some projection =>
      projection_map ← ok_or (as_object projection) (refuse "Mongo projection must be a document");
      match obj_get "_id" projection_map with
      | Some value => ok_or (mongodb_projection_mode value) (refuse "Mongo projection field _id must be 0/1 or false/true")
      | None => Ok true
      end
  end.

(** SRC query_server/src/mongodb_protocol.rs:1149-1163 projection_explicitly_includes_field *)
Definition projection_explicitly_includes_field (projection : option Value) (field_name : string) : mongo bool :=
  match projection with
  | None => Ok false
  | Some projection =>
      projection_map ← ok_or (as_object projection) (refuse "Mongo projection must be a document");
      Ok (default false (obj_get field_name projection_map ≫= mongodb_projection_mode))
  end.

(** SRC query_server/src/mongodb_protocol.rs:1052-1077 rewrite_mongodb_projection *)
Definition rewrite_mongodb_projection (projection : option Value) (id_field : string) : mongo (option Value) :=
  match projection with
  | None => Ok None
  | Some projection =>
      projection_map ← ok_or (as_object projection) (refuse "Mongo projection must be a document");
      include_mongo_id ← should_include_mongo_id (Some projection);
      let rewritten := foldl (λ rewritten '(field, value),
        if String.eqb field "_id" && bool_decide (mongodb_projection_mode value = Some false) then rewritten
        else obj_insert (rewrite_mongodb_field_name field id_field) value rewritten) [] projection_map in
      Ok (Some (VObject (if (include_mongo_id : bool) && negb (obj_contains id_field rewritten) then obj_insert id_field (int 1) rewritten else rewritten)))
  end.

(** SRC query_server/src/mongodb_protocol.rs:1079-1094 rewrite_mongodb_sort *)
Definition rewrite_mongodb_sort (sort : option Value) (id_field : string) : mongo (option Value) :=
  match sort with
  | None => Ok None
  | Some sort =>
      sort_map ← ok_or (as_object sort) (refuse "Mongo sort must be a document");
      Ok (Some (VObject (object_of ((λ '(field, value), (rewrite_mongodb_field_name field id_field, value)) <$> sort_map))))
  end.

(** SRC query_server/src/mongodb_protocol.rs:1000-1015 rewrite_mongodb_find_command *)
Definition rewrite_mongodb_find_command (command : MongoFindCommand) (config : MongoDbTableConfig) : mongo MongoFindCommand :=
  filter ← rewrite_mongodb_filter_document (mg_id_field config) (fc_filter command);
  projection ← rewrite_mongodb_projection (fc_projection command) (mg_id_field config);
  sort ← rewrite_mongodb_sort (fc_sort command) (mg_id_field config);
  Ok (mkFindCommand (fc_find command) filter projection sort (fc_limit command) (fc_skip command) (fc_batch_size command) (fc_single_batch command)
        (fc_no_cursor_timeout command)).

(** SRC query_server/src/mongodb_protocol.rs:1096-1124 shape_mongodb_row *)
Definition shape_mongodb_row (row : Value) (command : MongoFindCommand) (config : MongoDbTableConfig) : mongo Value :=
  document ← ok_or (as_object row) (Err (mongo_internal "Serving query returned a non-document row for Mongo"));
  let id_field := mg_id_field config in
  include_mongo_id ← should_include_mongo_id (fc_projection command);
  keep_source_id_field ← projection_explicitly_includes_field (fc_projection command) id_field;
  document ← (if include_mongo_id : bool then
                id_value ← ok_or (obj_get id_field document)
                  (Err (mongo_internal ("Mongo _id field backing column " +:+ id_field +:+ " was not present in the serving result")));
                Ok (obj_insert "_id" id_value document)
              else Ok document);
  Ok (VObject (if negb (String.eqb id_field "_id") && negb (keep_source_id_field : bool) then obj_remove id_field document else document)).

(** ** Cursors *)

Section cursors.
Context `{env : Environment}.

(** SRC query_server/src/mongodb_protocol.rs:886-903= current_cursor_time_ms *)
Definition current_cursor_time_ms : Mongo Z := λ s, (Ok (clock (mp_readings s)), mkMongoProcess (mp_serving s) (mp_next_id s) (mp_cursors s) (S (mp_readings s))).

(** SRC query_server/src/mongodb_protocol.rs:871-876 mongo_cursor_expired *)
Definition mongo_cursor_expired (cursor : MongoCursorState) (now_ms : Z) : bool :=
  match cu_expires_at_ms cursor with Some expires_at_ms => (expires_at_ms <=? now_ms)%Z | None => false end.

(** SRC query_server/src/mongodb_protocol.rs:867-869 prune_expired_mongo_cursors *)
Definition prune_expired_mongo_cursors (cursors : gmap Z MongoCursorState) (now_ms : Z) : gmap Z MongoCursorState :=
  filter (λ '(_, cursor), mongo_cursor_expired cursor now_ms = false) cursors.

(** SRC query_server/src/mongodb_protocol.rs:878-884 next_cursor_expiry_ms *)
Definition next_cursor_expiry_ms (no_cursor_timeout : bool) (now_ms : Z) : option Z :=
  if no_cursor_timeout then None else Some (now_ms + MONGO_CURSOR_TIMEOUT_MS)%Z.

(** [fetch_add(1)] of a 64-bit signed counter. *)
Definition wrap_i64 (n : Z) : Z := ((n + 2 ^ 63) mod 2 ^ 64 - 2 ^ 63)%Z.

(** SRC query_server/src/mongodb_protocol.rs:755-763 register_mongo_cursor *)
Definition register_mongo_cursor (cursor : MongoCursorState) : Mongo Z :=
  rst_gets mp_next_id ≫= λ cursor_id,
  rst_modify (λ s, mkMongoProcess (mp_serving s) (wrap_i64 (mp_next_id s + 1)) (mp_cursors s) (mp_readings s)) ≫= λ _,
  current_cursor_time_ms ≫= λ now_ms,
  rst_modify (λ s, set_cursors (<[cursor_id := cursor]> (prune_expired_mongo_cursors (mp_cursors s) now_ms)) s) ≫= λ _,
  mret cursor_id.

(** SRC query_server/src/mongodb_protocol.rs:695-753 build_mongodb_find_response *)
Definition build_mongodb_find_response (namespace : string) (command : MongoFindCommand) (config : MongoDbTableConfig) (rows : list Value) : Mongo MongoFindResponse :=
  rst_lift (match fc_batch_size command with Some batch_size => Some <$> validate_positive_batch_size batch_size | None => Ok None end) ≫= λ batch_size,
  let single_batch := default false (fc_single_batch command) in
  let no_cursor_timeout := default false (fc_no_cursor_timeout command) in
  match batch_size with
  | Some batch_size =>
      if batch_size <? length rows then
        let remaining_rows := drop batch_size rows in
        (if single_batch : bool then mret 0%Z
         else
           current_cursor_time_ms ≫= λ now_ms,
           register_mongo_cursor (mkCursor namespace (mg_database config) (mg_collection config) remaining_rows no_cursor_timeout (next_cursor_expiry_ms no_cursor_timeout now_ms))) ≫= λ cursor_id,
        mret (mkFindResponse cursor_id namespace (take batch_size rows))
      else mret (mkFindResponse 0 namespace (take batch_size rows))
  | None => mret (mkFindResponse 0 namespace rows)
  end.

(** The part of [getMore] that works on the cursors. *)
Definition take_batch (cursor_id : Z) (database collection : string) (batch_size : option nat) (now_ms : Z) (cursors : gmap Z MongoCursorState) :
    mongo (Z * string * list Value) * gmap Z MongoCursorState :=
  match cursors !! cursor_id with
  | None => (Err (cursor_not_found cursor_id), cursors)
  | Some cursor =>
      if negb (String.eqb (cu_database cursor) database) || negb (String.eqb (cu_collection cursor) collection) then
        (refuse ("Mongo cursor " +:+ print_int cursor_id +:+ " belongs to " +:+ cu_database cursor +:+ "." +:+ cu_collection cursor +:+ ", not " +:+ database +:+ "." +:+ collection), cursors)
      else
        let batch_size := default (length (cu_remaining_rows cursor)) batch_size in
        let next_batch_len := Nat.min batch_size (length (cu_remaining_rows cursor)) in
        let next_batch := take next_batch_len (cu_remaining_rows cursor) in
        match drop next_batch_len (cu_remaining_rows cursor) with
        | [] => (Ok (0%Z, cu_ns cursor, next_batch), delete cursor_id cursors)
        | remaining_rows =>
            (Ok (cursor_id, cu_ns cursor, next_batch),
             <[cursor_id := mkCursor (cu_ns cursor) (cu_database cursor) (cu_collection cursor) remaining_rows (cu_no_cursor_timeout cursor)
                 (next_cursor_expiry_ms (cu_no_cursor_timeout cursor) now_ms)]> cursors)
        end
  end.

(** Work on the cursors that have not expired. *)
Definition on_cursors {A} (now_ms : Z) (f : gmap Z MongoCursorState → mongo A * gmap Z MongoCursorState) : Mongo A := λ s,
  let '(r, cursors) := f (prune_expired_mongo_cursors (mp_cursors s) now_ms) in (r, set_cursors cursors s).

(** SRC query_server/src/mongodb_protocol.rs:765-819 execute_mongodb_get_more *)
Definition execute_mongodb_get_more (database : string) (command : Object) : Mongo Value :=
  rst_lift (required_i64 command "getMore") ≫= λ cursor_id,
  rst_lift (required_string command "collection") ≫= λ collection,
  rst_lift (match obj_get "batchSize" command with Some value => batch_size ← value_as_i64 value; Some <$> validate_positive_batch_size batch_size | None => Ok None end) ≫= λ batch_size,
  current_cursor_time_ms ≫= λ now_ms,
  on_cursors now_ms (take_batch cursor_id database collection batch_size now_ms) ≫= λ '(response_cursor_id, ns, next_batch),
  mret (VObject [("cursor", VObject [("id", int response_cursor_id); ("ns", VString ns); ("nextBatch", VArray next_batch)]); ("ok", one)]).

(** One cursor of [killCursors]. *)
Definition kill_step (database collection : string) (state : list Z * list Z * gmap Z MongoCursorState) (cursor_id : Z) : list Z * list Z * gmap Z MongoCursorState :=
  let '(killed, not_found, cursors) := state in
  match cursors !! cursor_id with
  | Some cursor =>
      if String.eqb (cu_database cursor) database && String.eqb (cu_collection cursor) collection then (killed ++ [cursor_id], not_found, delete cursor_id cursors)
      else (killed, not_found ++ [cursor_id], cursors)
  | None => (killed, not_found ++ [cursor_id], cursors)
  end.

(** SRC query_server/src/mongodb_protocol.rs:821-865 execute_mongodb_kill_cursors *)
Definition execute_mongodb_kill_cursors (database : string) (command : Object) : Mongo Value :=
  rst_lift (required_string command "killCursors") ≫= λ collection,
  rst_lift (value ← ok_or (obj_get "cursors" command) (refuse "Mongo killCursors command requires a cursors array");
            cursors ← ok_or (as_array value) (refuse "Mongo killCursors command field cursors must be an array");
            try_collect value_as_i64 cursors) ≫= λ cursor_ids,
  current_cursor_time_ms ≫= λ now_ms,
  on_cursors now_ms (λ cursors, let '(killed, not_found, cursors) := foldl (kill_step database collection) ([], [], cursors) cursor_ids in (Ok (killed, not_found), cursors)) ≫= λ '(killed, not_found),
  mret (VObject [("cursorsKilled", VArray (int <$> killed)); ("cursorsNotFound", VArray (int <$> not_found)); ("cursorsAlive", VArray []); ("cursorsUnknown", VArray []); ("ok", one)]).
End cursors.

(** ** Fixed answers *)

Definition ok_only : Value := VObject [("ok", one)].

(** SRC query_server/src/mongodb_protocol.rs:475-491 build_mongodb_hello_response *)
Definition build_mongodb_hello_response : Value :=
  VObject [("isWritablePrimary", VBool true); ("ismaster", VBool true); ("secondary", VBool false); ("helloOk", VBool true); ("maxBsonObjectSize", int (16 * 1024 * 1024));
    ("maxMessageSizeBytes", int (48 * 1000 * 1000)); ("maxWriteBatchSize", int 100000); ("minWireVersion", int 0); ("maxWireVersion", int 21);
    ("logicalSessionTimeoutMinutes", int 30); ("connectionId", int 1); ("readOnly", VBool true); ("ok", one)].

(** SRC query_server/src/mongodb_protocol.rs:493-505 build_mongodb_build_info_response *)
Definition build_mongodb_build_info_response : Value :=
  VObject [("version", VString "0.0.1-powdrr"); ("gitVersion", VString "powdrr-mongo-http-bridge"); ("modules", VArray []); ("allocator", VString "system");
    ("javascriptEngine", VString "none"); ("maxBsonObjectSize", int (16 * 1024 * 1024)); ("bits", int 64); ("debug", VBool true); ("ok", one)].

(** ** Collections *)

Section commands.
Context `{jt : JsonText, ft : FloatText, fd : FloatDisplay, ho : HashOrder, kh : KeyHasher, src : SnapshotSource, side : SidecarSource, co : CompletionOrder, env : Environment}.
Context {W : Type} `{provider : StateProvider W} (iceberg_table_metadata_cache_contains : string → string → Z → bool) (metadata_cache : gmap string nat).

(** [serde_json::from_value::<MongoFindCommand>], which the derive macro writes. *)
Context (find_from_value : Value → outcome MongoFindCommand).

(** The bindings of the tables, one after the other. *)
Fixpoint collect_mongo_bindings (w : W) (table_names : list string) : mongo (list MongoTableBinding) :=
  match table_names with
  | [] => Ok []
  | table_name :: table_names =>
      description ← mongo_service_error (sp_describe_table w table_name);
      bindings ← collect_mongo_bindings w table_names;
      Ok (match description ≫= td_mongodb with Some config => mkMongoBinding table_name config :: bindings | None => bindings end)
  end.

(** SRC query_server/src/mongodb_protocol.rs:1202-1224 list_mongodb_bindings *)
Definition list_mongodb_bindings (w : W) : mongo (list MongoTableBinding) :=
  table_names ← mongo_service_error (sp_get_all_iceberg_tables w);
  collect_mongo_bindings w (sort_by String.compare table_names).

(** [enabled] under a database, and as a collection of it. *)
Definition in_database (database : string) (binding : MongoTableBinding) : bool := mg_enabled (mb_config binding) && String.eqb (mg_database (mb_config binding)) database.
Definition as_collection (database collection : string) (binding : MongoTableBinding) : bool :=
  in_database database binding && String.eqb (mg_collection (mb_config binding)) collection.

(** SRC query_server/src/mongodb_protocol.rs:1226-1251 load_mongodb_collection_binding *)
Definition load_mongodb_collection_binding (w : W) (database collection : string) : mongo MongoTableBinding :=
  bindings ← list_mongodb_bindings w;
  match List.filter (as_collection database collection) bindings with
  | [] => Err (mongo_namespace_not_found ("Mongo collection " +:+ database +:+ "." +:+ collection +:+ " is not configured"))
  | [binding] => Ok binding
  | _ => Err (mongo_internal ("Multiple Powdrr tables are exposed as Mongo collection " +:+ database +:+ "." +:+ collection))
  end.

(** SRC query_server/src/mongodb_protocol.rs:1253-1276 validate_mongodb_namespace_uniqueness *)
Definition validate_mongodb_namespace_uniqueness (w : W) (table_name : string) (config : MongoDbTableConfig) : mongo () :=
  if negb (mg_enabled config) then Ok ()
  else
    bindings ← list_mongodb_bindings w;
    match find (λ binding, negb (String.eqb (mb_table_name binding) table_name) && as_collection (mg_database config) (mg_collection config) binding) bindings with
    | Some binding => refuse ("Mongo collection " +:+ mg_database config +:+ "." +:+ mg_collection config +:+ " is already exposed by table " +:+ mb_table_name binding)
    | None => Ok ()
    end.

(** SRC query_server/src/mongodb_protocol.rs:1318-1336 load_latest_table_checkpoint *)
Definition load_latest_table_checkpoint (w : W) (table_name : string) : mongo (option TableMetadataCheckpoint) :=
  checkpoint_id ← mongo_service_error (sp_get_published_active_servable_checkpoint w table_name);
  match checkpoint_id with
  | None => Ok None
  | Some checkpoint_id => mongo_service_error (sp_get_checkpoint w (new_descriptor table_name checkpoint_id))
  end.

(** [u64::saturating_add] *)
Definition saturating_add (a b : Z) : Z := Z.min (a + b) (2 ^ 64 - 1).

(** SRC query_server/src/mongodb_protocol.rs:1278-1306 load_mongodb_collection_metadata_stats *)
Definition load_mongodb_collection_metadata_stats (w : W) (table_name : string) : mongo MongoCollectionMetadataStats :=
  checkpoint ← load_latest_table_checkpoint w table_name;
  match checkpoint ≫= cp_iceberg_metadata with
  | None => Ok (mkCollectionStats 0 None)
  | Some iceberg_metadata =>
      let storage_size_bytes := foldl (λ total size, wrap_u64 (total + size)) 0%Z (sizes (im_files iceberg_metadata)) in
      let document_count :=
        if decide (im_file_stats iceberg_metadata = []) then None
        else foldl (λ running file_stats, running_total ← running; record_count ← fst_record_count file_stats; Some (saturating_add running_total record_count)) (Some 0%Z)
               (im_file_stats iceberg_metadata) in
      Ok (mkCollectionStats storage_size_bytes document_count)
  end.

(** [size as f64 / count as f64], 0.0 for no documents. *)
Definition average_size (size count : Z) : Value :=
  if (count =? 0)%Z then VNumber (NFloat (mkF64 0 0))
  else match f64_div (as_f64 (PosInt size)) (as_f64 (PosInt count)) with Some f => VNumber (NFloat f) | None => VNull end.
Definition or_null {A} (f : A → Value) (o : option A) : Value := match o with Some a => f a | None => VNull end.

(** SRC query_server/src/mongodb_protocol.rs:507-558 list_mongodb_collections *)
Definition list_mongodb_collections (w : W) (database : string) (command : Object) : mongo Value :=
  bindings ← list_mongodb_bindings w;
  name_only ← optional_bool command "nameOnly";
  filter_name ← list_collections_filter_name command;
  let collections := List.filter (λ binding, in_database database binding && match filter_name with Some name => String.eqb (mg_collection (mb_config binding)) name | None => true end) bindings in
  let collections := sort_by (λ left right, String.compare (mg_collection (mb_config left)) (mg_collection (mb_config right))) collections in
  Ok (VObject [("cursor", VObject [("id", int 0); ("ns", VString (database +:+ ".$cmd.listCollections"));
        ("firstBatch", VArray ((λ binding,
           VObject ([("name", VString (mg_collection (mb_config binding))); ("type", VString "collection")] ++
                    (if default false name_only then []
                     else [("options", VObject []); ("info", VObject [("readOnly", VBool true)]); ("idIndex", VObject [("name", VString "_id_"); ("key", VObject [("_id", int 1)])])])))
           <$> collections))]); ("ok", one)]).

(** SRC query_server/src/mongodb_protocol.rs:560-587 list_mongodb_databases *)
Definition list_mongodb_databases (w : W) : mongo Value :=
  bindings ← list_mongodb_bindings w;
  let databases := sort_by String.compare (remove_dups ((λ binding, mg_database (mb_config binding)) <$> List.filter (λ binding, mg_enabled (mb_config binding)) bindings)) in
  Ok (VObject [("databases", VArray ((λ name, VObject [("name", VString name); ("sizeOnDisk", int 1); ("empty", VBool false)]) <$> databases));
        ("totalSize", int (Z.of_nat (length databases))); ("ok", one)]).

(** SRC query_server/src/mongodb_protocol.rs:589-612 execute_mongodb_list_indexes *)
Definition execute_mongodb_list_indexes (w : W) (database : string) (command : Object) : mongo Value :=
  collection ← required_string command "listIndexes";
  binding ← load_mongodb_collection_binding w database collection;
  let namespace := mg_database (mb_config binding) +:+ "." +:+ mg_collection (mb_config binding) in
  Ok (VObject [("cursor", VObject [("id", int 0); ("ns", VString (database +:+ ".$cmd.listIndexes." +:+ collection));
        ("firstBatch", VArray [VObject [("v", int 2); ("key", VObject [("_id", int 1)]); ("name", VString "_id_"); ("ns", VString namespace)]])]); ("ok", one)]).

(** SRC query_server/src/mongodb_protocol.rs:614-644 execute_mongodb_coll_stats *)
Definition execute_mongodb_coll_stats (w : W) (database : string) (command : Object) : mongo Value :=
  collection ← required_string command "collStats";
  scale_factor ← command_scale_factor command;
  binding ← load_mongodb_collection_binding w database collection;
  metadata_stats ← load_mongodb_collection_metadata_stats w (mb_table_name binding);
  let namespace := mg_database (mb_config binding) +:+ "." +:+ mg_collection (mb_config binding) in
  let scaled_storage_size := scale_size (ms_storage_size_bytes metadata_stats) scale_factor in
  Ok (VObject [("ns", VString namespace); ("count", or_null int (ms_document_count metadata_stats)); ("size", int scaled_storage_size); ("storageSize", int scaled_storage_size);
        ("avgObjSize", or_null (average_size (ms_storage_size_bytes metadata_stats)) (ms_document_count metadata_stats)); ("nindexes", int 1); ("totalIndexSize", int 0);
        ("indexSizes", VObject [("_id_", int 0)]); ("scaleFactor", int scale_factor); ("ok", one)]).

(** The totals of [dbStats]. *)
Definition add_stats (w : W) (total : Z * option Z) (binding : MongoTableBinding) : mongo (Z * option Z) :=
  metadata_stats ← load_mongodb_collection_metadata_stats w (mb_table_name binding);
  Ok (saturating_add total.1 (ms_storage_size_bytes metadata_stats),
      current_total ← total.2; document_count ← ms_document_count metadata_stats; Some (saturating_add current_total document_count)).

(** SRC query_server/src/mongodb_protocol.rs:646-693 execute_mongodb_db_stats *)
Definition execute_mongodb_db_stats (w : W) (database : string) (command : Object) : mongo Value :=
  scale_factor ← command_scale_factor command;
  bindings ← list_mongodb_bindings w;
  let enabled_bindings := List.filter (in_database database) bindings in
  '(total_storage_size_bytes, total_document_count) ← foldM (add_stats w) (0%Z, Some 0%Z) enabled_bindings;
  let scaled_storage_size := scale_size total_storage_size_bytes scale_factor in
  Ok (VObject [("db", VString database); ("collections", int (Z.of_nat (length enabled_bindings))); ("views", int 0); ("objects", or_null int total_document_count);
        ("avgObjSize", or_null (average_size total_storage_size_bytes) total_document_count); ("dataSize", int scaled_storage_size); ("storageSize", int scaled_storage_size);
        ("indexes", int (Z.of_nat (length enabled_bindings))); ("indexSize", int 0); ("scaleFactor", int scale_factor); ("ok", one)]).

(** ** Queries *)

(** SRC query_server/src/mongodb_protocol.rs:445-473 execute_mongodb_find_for_table *)
Definition execute_mongodb_find_for_table (w : W) (table_name : string) (command : MongoFindCommand) (config : MongoDbTableConfig) : Mongo MongoFindResponse :=
  rst_lift (rewrite_mongodb_find_command command config) ≫= λ rewritten_command,
  rst_lift (map_err bad_value (from_mongodb_find rewritten_command)) ≫= λ request,
  rst_map_err from_serving_error (rst_zoom mp_serving set_mongo_serving
    (execute_serving_query iceberg_table_metadata_cache_contains metadata_cache w table_name request)) ≫= λ response,
  if decide (pl_classification (qr_plan response) = FastPath) then
    rst_lift (try_collect (λ row, shape_mongodb_row row command config) (qr_rows response)) ≫= λ rows,
    build_mongodb_find_response (mg_database config +:+ "." +:+ mg_collection config) command config rows
  else rst_lift (Err (from_query_response response)).

(** [serde_json::to_value] of a find response. *)
Definition find_response_value (response : MongoFindResponse) : Value :=
  VObject [("cursor", VObject [("id", int (fp_id response)); ("ns", VString (fp_ns response)); ("firstBatch", VArray (fp_first_batch response))]); ("ok", one)].

(** SRC query_server/src/mongodb_protocol.rs:376-436 execute_mongodb_command *)
Definition execute_mongodb_command (w : W) (database : string) (payload : Value) : Mongo Value :=
  rst_lift (ok_or (as_object payload) (refuse "Mongo command body must be a document")) ≫= λ command,
  rst_lift (validate_command_database command database) ≫= λ _,
  if obj_contains "hello" command || obj_contains "isMaster" command || obj_contains "ismaster" command then mret build_mongodb_hello_response
  else if obj_contains "ping" command then mret ok_only
  else if obj_contains "endSessions" command then mret ok_only
  else if obj_contains "buildInfo" command then mret build_mongodb_build_info_response
  else if obj_contains "listCollections" command then rst_lift (list_mongodb_collections w database command)
  else if obj_contains "listDatabases" command then rst_lift (list_mongodb_databases w)
  else if obj_contains "listIndexes" command then rst_lift (execute_mongodb_list_indexes w database command)
  else if obj_contains "collStats" command then rst_lift (execute_mongodb_coll_stats w database command)
  else if obj_contains "dbStats" command then rst_lift (execute_mongodb_db_stats w database command)
  else if obj_contains "getMore" command then execute_mongodb_get_more database command
  else if obj_contains "killCursors" command then execute_mongodb_kill_cursors database command
  else if obj_contains "find" command then
    rst_lift (map_err bad_value (find_from_value payload)) ≫= λ find_command,
    rst_lift (load_mongodb_collection_binding w database (fc_find find_command)) ≫= λ binding,
    execute_mongodb_find_for_table w (mb_table_name binding) find_command (mb_config binding) ≫= λ response,
    mret (find_response_value response)
  else rst_lift (refuse "Unsupported Mongo command. Supported commands: hello, ping, endSessions, buildInfo, listCollections, listDatabases, listIndexes, collStats, dbStats, find, getMore, killCursors").

(** SRC query_server/src/mongodb_protocol.rs:438-443 execute_mongodb_command_value *)
Definition execute_mongodb_command_value (w : W) (database : string) (payload : Value) : ST MongoProcess Value := λ s,
  match execute_mongodb_command w database payload s with
  | (Ok response, s) => (Ok response, s)
  | (Err error, s) => (Ok (command_error_value error), s)
  | (Panic reason, s) => (Panic reason, s)
  end.

(** ** Configuration

    The handlers without the HTTP framework: the path of the request, and its body when it
    could be read, to the answer or the error that is rendered. *)

(** SRC query_server/src/mongodb_protocol.rs:1308-1316 load_table_description *)
Definition mongo_table_description (w : W) (table_name : string) : mongo TableDescription :=
  description ← mongo_service_error (sp_describe_table w table_name);
  ok_or description (Err (mongo_namespace_not_found ("Table " +:+ table_name +:+ " was not found"))).

(** SRC query_server/src/mongodb_protocol.rs:1179-1194 load_enabled_mongodb_config *)
Definition load_enabled_mongodb_config (w : W) (table_name : string) : mongo MongoDbTableConfig :=
  description ← mongo_table_description w table_name;
  match td_mongodb description with
  | Some config => if mg_enabled config then Ok config else Err (mongo_namespace_not_found ("Mongo collection for table " +:+ table_name +:+ " is disabled"))
  | None => Err (mongo_namespace_not_found ("Mongo collection is not configured for table " +:+ table_name))
  end.

(** SRC query_server/src/mongodb_protocol.rs:187-218 get_mongodb_config *)
Definition get_mongodb_config (w : W) (path : string) : mongo MongoDbConfigResponse :=
  description ← mongo_table_description w path;
  config ← ok_or (td_mongodb description) (Err (mongo_namespace_not_found ("No Mongo config declared for table " +:+ path)));
  Ok (mkMongoConfigResponse true path config).

(** SRC query_server/src/mongodb_protocol.rs:1408-1430 schema_from_checkpoint *)
Definition mongo_schema_from_checkpoint (checkpoint : TableMetadataCheckpoint) : mongo PowdrrSchema :=
  match cp_iceberg_metadata checkpoint with
  | Some metadata => Ok (im_table_schema metadata)
  | None =>
      match (match cp_speedboat_metadata checkpoint with Some metadata => schemas (sm_files metadata) | None => [] end) with
      | first_schema :: schemas => no_error (foldM merge_from first_schema schemas)
      | [] =>
          match fields (cp_schema checkpoint) with
          | _ :: _ => Ok (cp_schema checkpoint)
          | [] => Err (mongo_internal "Checkpoint did not contain a usable schema")
          end
      end
  end.

(** SRC query_server/src/mongodb_protocol.rs:1381-1406 load_table_schema *)
Definition mongo_table_schema (w : W) (table_name : string) : mongo PowdrrSchema :=
  published ← mongo_service_error (sp_get_published_active_servable_checkpoint w table_name);
  checkpoint_id ← ok_or published (Err (mongo_namespace_not_found ("No checkpoint was available for table " +:+ table_name)));
  found ← mongo_service_error (sp_get_checkpoint w (new_descriptor table_name checkpoint_id));
  checkpoint ← ok_or found (Err (mongo_namespace_not_found ("Checkpoint metadata was not found for table " +:+ table_name)));
  mongo_schema_from_checkpoint checkpoint.

(** SRC query_server/src/mongodb_protocol.rs:1455-1470 mongodb_id_type *)
Definition mongodb_id_type (schema : PowdrrSchema) (field_name : string) : mongo () :=
  field ← ok_or (to_map schema !! field_name) (refuse ("Unknown Mongo _id field " +:+ field_name));
  match data_type field with
  | TString | TInteger | TFloat | TBoolean => Ok ()
  | _ => refuse ("Field " +:+ field_name +:+ " is not a valid Mongo _id backing field type")
  end.

(** SRC query_server/src/mongodb_protocol.rs:1432-1453 validate_mongodb_config *)
Definition validate_mongodb_config (schema : PowdrrSchema) (config : MongoDbTableConfig) : mongo () :=
  if decide (trim (mg_database config) = "") then refuse "Mongo database must be a non-empty string"
  else if decide (trim (mg_collection config) = "") then refuse "Mongo collection must be a non-empty string"
  else if decide (trim (mg_id_field config) = "") then refuse "Mongo _id mapping field must be a non-empty string"
  else mongodb_id_type schema (mg_id_field config).

(** SRC query_server/src/mongodb_protocol.rs:220-302 put_mongodb_config *)
Definition put_mongodb_config (path : string) (body : outcome MongoDbTableConfig) : RST MongoCommandError W MongoDbConfigResponse := λ w,
  (if sp_is_read_only w then rst_lift (Err (mongo_read_only "Mongo config writes are disabled in Powdrr read-only mode"))
   else
     rst_lift (map_err bad_value body) ≫= λ body,
     rst_lift (mongo_service_error (sp_describe_table w path)) ≫= λ existing,
     rst_lift (mongo_table_schema w path) ≫= λ schema,
     rst_lift (validate_mongodb_config schema body) ≫= λ _,
     rst_lift (validate_mongodb_namespace_uniqueness w path body) ≫= λ _,
     let request := mkCreateTable path (default ∅ (td_tags <$> existing)) (existing ≫= td_serving) (existing ≫= td_support) (existing ≫= td_dynamodb) (Some body) (existing ≫= td_redis) in
     rst_map_err mongo_internal (sp_upsert_table_metadata request : RST string W bool) ≫= λ _,
     mret (mkMongoConfigResponse true path body)) w.

(** SRC query_server/src/mongodb_protocol.rs:332-374 mongodb_find *)
Definition mongodb_find (w : W) (path : string) (body : outcome MongoFindCommand) : Mongo MongoFindResponse :=
  rst_lift (map_err bad_value body) ≫= λ command,
  rst_lift (load_enabled_mongodb_config w path) ≫= λ config,
  if String.eqb (fc_find command) (mg_collection config) then execute_mongodb_find_for_table w path command config
  else rst_lift (refuse ("Path table " +:+ path +:+ " is exposed as Mongo collection " +:+ mg_collection config +:+ " but request targeted " +:+ fc_find command)).

(** SRC query_server/src/mongodb_protocol.rs:304-330 mongodb_command *)
Definition mongodb_command (w : W) (database : string) (body : outcome Value) : Mongo Value :=
  rst_lift (map_err bad_value body) ≫= λ payload,
  execute_mongodb_command w database payload.
End commands.
