(* ===== verification/MongoTheory.v ===== *)
(** * Correctness of the MongoDB wire protocol

    Lengths on the wire come from the client.  No stream of bytes makes the parser read
    outside its buffers or loop, whatever the lengths say; and well-formed requests sent
    back to back are read as they were written and answered in order, each reply naming the
    request it answers. *)

From S2P Require Import Prelude Text Bytes Json MongoWire.
#[local] Open Scope Z_scope.

Module MongoWireTheory.
Section theory.
Context `{bson : Bson, !BsonLaws bson}.

Lemma slice_or_panic_ok bytes start end_ : 0 ≤ start ≤ end_ → end_ ≤ str_len bytes → ∃ t, slice_or_panic bytes start end_ = Ok t ∧ str_len t = end_ - start.
Proof. intros H1 H2. destruct (slice_is_Some bytes start end_) as (t & Ht & Hlen); [done..|]. exists t. by rw /slice_or_panic Ht. Qed.

Lemma read_i32_no_panic bytes : no_panic (read_i32 bytes).
Proof. rw /read_i32. by case_match. Qed.

Lemma read_length_no_panic bytes field_name : no_panic (read_length bytes field_name).
Proof. apply no_panic_bind; [apply read_i32_no_panic|]. intros v _. by case_match. Qed.

(** A document is read inside the buffer, and the offset moves past it. *)
Lemma parse_document_bounds sections offset : 0 ≤ offset →
  match parse_document sections offset with
  | Ok (_, next) => offset + 5 ≤ next ≤ str_len sections
  | Err _ => True
  | Panic _ => False
  end.
Proof.
  intros Hoffset. rw /parse_document. destruct (Z.ltb_spec (str_len sections) (offset + 4)) as [|Hlen]; [done|].
  destruct (slice_or_panic_ok sections offset (offset + 4)) as (prefix & -> & _); [lia..|]. cbn [mbind outcome_bind].
  pose proof (read_length_no_panic prefix "Mongo BSON document length") as Hlength.
  destruct (read_length prefix _) as [n|e|r]; cbn [mbind outcome_bind]; [|done..].
  destruct (Z.ltb_spec n 5); [done|]. destruct (Z.ltb_spec (str_len sections) (offset + n)); [done|]. cbn [orb].
  destruct (slice_or_panic_ok sections offset (offset + n)) as (bytes & -> & _); [lia..|]. cbn [mbind outcome_bind].
  pose proof (bson_no_panic bytes) as Hbson. destruct (bson_from_slice bytes); [cbn [mbind outcome_bind]; lia|done..].
Qed.

(** The fuel of the section loop is the bytes left: it neither runs out nor reads outside. *)
Lemma parse_sections_no_panic fuel sections offset command : 0 ≤ offset ≤ str_len sections → str_len sections - offset < Z.of_nat fuel → no_panic (parse_sections fuel sections offset command).
Proof.
  revert offset command. induction fuel as [|fuel IH]; intros offset command Hoffset Hfuel; cbn [parse_sections]; [lia|].
  destruct (Z.leb_spec (str_len sections) offset); [done|].
  destruct (slice_or_panic_ok sections offset (offset + 1)) as (byte & -> & _); [lia..|]. cbn [mbind outcome_bind].
  case_match; [|case_match; [|done]].
  - pose proof (parse_document_bounds sections (offset + 1) ltac:(lia)) as Hdoc.
    destruct (parse_document sections (offset + 1)) as [[document next]|e|r]; cbn [mbind outcome_bind]; [|done..].
    destruct command; [done|]. apply IH; lia.
  - destruct (Z.ltb_spec (str_len sections) (offset + 1 + 4)); [done|].
    destruct (slice_or_panic_ok sections (offset + 1) (offset + 1 + 4)) as (header & -> & _); [lia..|]. cbn [mbind outcome_bind].
    pose proof (read_length_no_panic header "Mongo OP_MSG section-1 size") as Hlength.
    destruct (read_length header _) as [n|e|r]; cbn [mbind outcome_bind]; [|done..].
    destruct (Z.ltb_spec n 4); [done|]. destruct (Z.ltb_spec (str_len sections) (offset + 1 + n)); [done|]. cbn [orb]. apply IH; lia.
Qed.

Lemma parse_op_msg_no_panic body : no_panic (parse_op_msg_command body).
Proof.
  rw /parse_op_msg_command. destruct (Z.ltb_spec (str_len body) 5); [done|].
  destruct (slice_or_panic_ok body 0 4) as (flags & -> & Hflags); [lia..|]. cbn [mbind outcome_bind].
  rw /read_u32 Hflags. cbn [mbind outcome_bind]. change (4 - 0 =? 4) with true. cbn [mbind outcome_bind].
  destruct (slice_or_panic_ok body 4 (str_len body)) as (sections & -> & Hsections); [lia..|]. cbn [mbind outcome_bind].
  apply no_panic_bind.
  - case_match; [done|]. destruct (Z.ltb_spec (str_len sections) 4); [done|].
    by destruct (slice_or_panic_ok sections 0 (str_len sections - 4)) as (t & -> & _); [lia..|].
  - intros kept _. apply no_panic_bind; [apply parse_sections_no_panic; [pose proof (str_len_nonneg kept); lia|rw /str_len; lia]|]. intros command _. by apply ok_or_no_panic.
Qed.

(** ** Streams *)

Lemma read_bytes_length n stream bytes rest : read_bytes n stream = Some (bytes, rest) → (String.length rest = String.length stream - Z.to_nat n)%nat ∧ str_len bytes = Z.max 0 n.
Proof.
  rw /read_bytes. destruct (Z.leb_spec n (str_len stream)) as [Hn|]; [|done]. intros [= <- <-]. rw str_drop_length. split; [done|].
  rw /str_len in Hn. rw /str_len str_take_length; lia.
Qed.

Lemma read_message_header_shorter stream :
  match read_message_header stream with
  | (Ok (Some _), rest) => (String.length rest + 16 = String.length stream)%nat
  | (Panic _, _) => False
  | _ => True
  end.
Proof.
  rw /read_message_header. case_decide; [done|]. destruct (read_bytes 16 stream) as [[header rest]|] eqn:Hread; [|done].
  assert (Hlong : 16 ≤ str_len stream). { rw /read_bytes in Hread. destruct (Z.leb_spec 16 (str_len stream)); [done|discriminate]. }
  apply read_bytes_length in Hread as [Hrest Hheader].
  destruct (slice_or_panic_ok header 0 4) as (b1 & -> & _); [lia..|]. cbn [mbind outcome_bind].
  pose proof (read_length_no_panic b1 "Mongo wire message length") as H1. destruct (read_length b1 _) as [n|e|r]; cbn [mbind outcome_bind]; [|done..].
  destruct (slice_or_panic_ok header 4 8) as (b2 & -> & _); [lia..|]. cbn [mbind outcome_bind].
  pose proof (read_i32_no_panic b2) as H2. destruct (read_i32 b2) as [id|e|r]; cbn [mbind outcome_bind]; [|done..].
  destruct (slice_or_panic_ok header 12 16) as (b3 & -> & _); [lia..|]. cbn [mbind outcome_bind].
  pose proof (read_i32_no_panic b3) as H3. destruct (read_i32 b3) as [code|e|r]; cbn [mbind outcome_bind]; [|done..].
  rw /str_len in Hlong. lia.
Qed.

Context {Env : Type} (execute : string → Value → Env → outcome Value * Env).

Lemma answer_message_no_panic header body next_id env :
  (∀ database payload env, no_panic (execute database payload env).1) → no_panic (answer_message execute header body next_id env).1.
Proof.
  intros Hexecute. rw /answer_message. case_match; [done|].
  assert (Hparse : no_panic (command ← parse_op_msg_command body;
    payload ← match document_to_value command with Ok v => Ok v | Err e => Err ("Failed to convert BSON command to JSON: " +:+ e) | Panic r => Panic r end;
    Ok (default "admin" (get_str command "$db"), payload))).
  { apply no_panic_bind; [apply parse_op_msg_no_panic|]. intros command _. apply no_panic_bind; [|done].
    pose proof (document_to_value_no_panic command). by case_match. }
  match type of Hparse with no_panic ?m => destruct m as [[database payload]|e|r] end; [|done..]. specialize (Hexecute database payload env). destruct (execute database payload env) as [answer env'].
  cbn [fst] in *. apply no_panic_bind; [done|]. intros v _. apply no_panic_bind; [pose proof (value_to_document_no_panic v); by case_match|].
  intros d _. rw /encode_op_msg_response. pose proof (bson_to_vec_no_panic d). by case_match.
Qed.

(** C4. Whatever bytes a client sends, the connection ends after finitely many messages
    (at most one for sixteen bytes, so as many rounds as there are bytes are enough) and it
    ends in a regular way: closed, or with an error.  No length field, section kind,
    document or flag makes the server read outside the message it has received. *)
Theorem hostile_streams_end (next_id : Z) (env : Env) (stream written : string) :
  (∀ database payload env, no_panic (execute database payload env).1) →
  ∃ r all, mongo_handle_connection execute (S (String.length stream)) next_id env stream written = Some (r, all) ∧ no_panic r.
Proof.
  intros Hexecute. remember (S (String.length stream)) as fuel eqn:Hfuel. assert (Hle : (String.length stream < fuel)%nat) by lia. clear Hfuel.
  revert next_id env stream written Hle. induction fuel as [|fuel IH]; intros next_id env stream written Hle; [lia|]. cbn [mongo_handle_connection].
  pose proof (read_message_header_shorter stream) as Hheader. destruct (read_message_header stream) as [[[header|]|e|r] rest]; [|by do 2 eexists..|done].
  case_match; [by do 2 eexists|]. destruct (read_bytes (message_length header - 16) rest) as [[body rest']|] eqn:Hread; [|by do 2 eexists].
  apply read_bytes_length in Hread as [Hrest' _].
  pose proof (answer_message_no_panic header body next_id env Hexecute) as Hanswer.
  destruct (answer_message execute header body next_id env) as [[[response next]|e|r] env']; [|by do 2 eexists|done]. apply IH. lia.
Qed.

(** ** Requests as clients write them *)

Lemma le_value_mod k n : le_value (le_bytes k n) = n mod 256 ^ Z.of_nat k.
Proof.
  revert n. induction k as [|k IH]; intros n; [by rw Z.mod_1_r|]. cbn [le_bytes le_value]. rw byte_ascii_of_Z; [apply Z.mod_pos_bound; lia|].
  rw IH Nat2Z.inj_succ Z.pow_succ_r; [lia|]. by rw Z.rem_mul_r; [lia|lia|].
Qed.

(** The ids and lengths of messages are signed. *)
Lemma read_i32_bytes n : - 2 ^ 31 ≤ n < 2 ^ 31 → read_i32 (le_bytes 4 n) = Ok n.
Proof.
  intros Hn. rw /read_i32 le_bytes_len. cbn [Z.of_nat Z.eqb]. change (Z.of_nat 4 =? 4) with true. cbv iota. f_equal. rw le_value_mod /signed32.
  change (256 ^ Z.of_nat 4) with (2 ^ 32). destruct (Z.ltb_spec n 0) as [Hneg|Hpos].
  - assert (n mod 2 ^ 32 = n + 2 ^ 32) as ->. { symmetry. apply (Z.mod_unique _ _ (-1)); lia. } case_match eqn:Hcmp; [apply Z.ltb_lt in Hcmp; lia|lia].
  - rw Z.mod_small; [lia|]. case_match eqn:Hcmp; [done|apply Z.ltb_ge in Hcmp; lia].
Qed.

Lemma read_length_bytes n field_name : 0 ≤ n < 2 ^ 31 → read_length (le_bytes 4 n) field_name = Ok n.
Proof. intros Hn. rw /read_length read_i32_bytes; [lia|]. cbn [mbind outcome_bind]. by destruct (Z.ltb_spec n 0); [lia|]. Qed.

Lemma slice_at s t u start end_ : start = str_len s → end_ = start + str_len t → slice_or_panic (s +:+ t +:+ u) start end_ = Ok t.
Proof. intros H1 H2. by rw /slice_or_panic (slice_mid s t u). Qed.

Lemma str_take_drop n s : str_take n s +:+ str_drop n s = s.
Proof. revert n. induction s as [|a s IH]; intros [|n]; try done. cbn [str_take str_drop]. by rw str_app_cons IH. Qed.

(** A document written by the library is read back where it stands. *)
Lemma parse_document_written pre d bytes : bson_to_vec d = Ok bytes → parse_document (pre +:+ bytes) (str_len pre) = Ok (d, str_len (pre +:+ bytes)).
Proof.
  intros Hvec. destruct (bson_length d bytes Hvec) as [Hlen Hprefix]. rw /parse_document str_len_app.
  destruct (Z.ltb_spec (str_len pre + str_len bytes) (str_len pre + 4)); [lia|].
  assert (slice_or_panic (pre +:+ bytes) (str_len pre) (str_len pre + 4) = Ok (le_bytes 4 (str_len bytes))) as ->.
  { rw -{1}(str_take_drop 4 bytes) Hprefix. apply slice_at; [done|]. by rw le_bytes_len. }
  cbn [mbind outcome_bind]. rw read_length_bytes; [lia|]. cbn [mbind outcome_bind].
  destruct (Z.ltb_spec (str_len bytes) 5); [lia|]. destruct (Z.ltb_spec (str_len pre + str_len bytes) (str_len pre + str_len bytes)); [lia|]. cbn [orb].
  assert (slice_or_panic (pre +:+ bytes) (str_len pre) (str_len pre + str_len bytes) = Ok bytes) as ->.
  { rw -{1}(str_app_nil_r bytes). by apply slice_at. }
  cbn [mbind outcome_bind]. by rw (bson_reads_back d bytes Hvec).
Qed.

Definition op_msg_body (bytes : string) : string := le_bytes 4 0 +:+ String "000" "" +:+ bytes.

Lemma parse_op_msg_written d bytes : bson_to_vec d = Ok bytes → parse_op_msg_command (op_msg_body bytes) = Ok d.
Proof.
  intros Hvec. destruct (bson_length d bytes Hvec) as [Hlen _]. rw /parse_op_msg_command /op_msg_body.
  assert (Hbody : str_len (le_bytes 4 0 +:+ String "000" "" +:+ bytes) = 5 + str_len bytes). { rw !str_len_app le_bytes_len. change (str_len (String "000" "")) with 1. lia. }
  rw !Hbody. destruct (Z.ltb_spec (5 + str_len bytes) 5); [lia|].
  rw (slice_at "" (le_bytes 4 0) (String "000" "" +:+ bytes) 0 4); [done..|]. cbn [mbind outcome_bind].
  rw /read_u32 le_bytes_len. change (Z.of_nat 4 =? 4) with true. cbv iota. cbn [mbind outcome_bind].
  assert (slice_or_panic (le_bytes 4 0 +:+ String "000" "" +:+ bytes) 4 (5 + str_len bytes) = Ok (String "000" "" +:+ bytes)) as ->.
  { rw -{1}(str_app_nil_r (String "000" "" +:+ bytes)). apply slice_at; [done|]. rw str_len_app. change (str_len (String "000" "")) with 1. lia. }
  cbn [mbind outcome_bind]. change (Z.land (le_value (le_bytes 4 0)) OP_MSG_CHECKSUM_PRESENT =? 0) with true. cbv iota. cbn [mbind outcome_bind].
  set (sections := String "000" "" +:+ bytes). assert (Hsections : str_len sections = 1 + str_len bytes) by (by rw /sections str_len_app).
  assert (Hfuel : ∃ fuel, String.length sections = S (S fuel)). { exists (String.length sections - 2)%nat. rw /str_len in Hsections Hlen. lia. }
  destruct Hfuel as [fuel ->]. cbn [parse_sections]. destruct (Z.leb_spec (str_len sections) 0); [lia|].
  assert (slice_or_panic sections 0 (0 + 1) = Ok (String "000" "")) as ->. { by apply (slice_at "" (String "000" "") bytes). }
  cbn [mbind outcome_bind]. change (le_value (String "000" "") =? 0) with true. cbv iota.
  change (0 + 1) with (str_len (String "000" "")). rw (parse_document_written (String "000" "") d bytes Hvec). cbn [mbind outcome_bind].
  fold sections. by destruct (Z.leb_spec (str_len sections) (str_len sections)); [|lia].
Qed.

(** What a client sends: a request id and a document, small enough for one message. *)
Definition request_ok (request : Z * Document) : Prop :=
  - 2 ^ 31 ≤ request.1 < 2 ^ 31 ∧ ∃ bytes, bson_to_vec request.2 = Ok bytes ∧ 21 + str_len bytes < 2 ^ 31.

Definition request_bytes (request : Z * Document) : string :=
  match bson_to_vec request.2 with Ok bytes => op_msg request.1 0 bytes | _ => "" end.

Lemma read_bytes_app n s t : n = str_len s → read_bytes n (s +:+ t) = Some (s, t).
Proof.
  intros ->. rw /read_bytes str_len_app. pose proof (str_len_nonneg t). destruct (Z.leb_spec (str_len s) (str_len s + str_len t)); [|lia].
  by rw /str_len !Nat2Z.id str_take_app str_drop_app.
Qed.

(** The header and the body of a message are read back. *)
Lemma read_written_message id response_to bytes rest : - 2 ^ 31 ≤ id < 2 ^ 31 → 21 + str_len bytes < 2 ^ 31 →
  read_message_header (op_msg id response_to bytes +:+ rest) = (Ok (Some (mkHeader (21 + str_len bytes) id OP_MSG)), op_msg_body bytes +:+ rest).
Proof.
  intros Hid Hlen. pose proof (str_len_nonneg bytes). rw /op_msg. fold (op_msg_body bytes).
  assert (Hbody : str_len (op_msg_body bytes) = 5 + str_len bytes). { rw /op_msg_body !str_len_app le_bytes_len. change (str_len (String "000" "")) with 1. lia. }
  rw Hbody. replace (16 + (5 + str_len bytes)) with (21 + str_len bytes) by lia.
  set (b1 := le_bytes 4 (21 + str_len bytes)). set (b2 := le_bytes 4 id). set (b3 := le_bytes 4 response_to). set (b4 := le_bytes 4 OP_MSG).
  assert (Hsplit : (b1 +:+ b2 +:+ b3 +:+ b4 +:+ op_msg_body bytes) +:+ rest = (b1 +:+ b2 +:+ b3 +:+ b4) +:+ (op_msg_body bytes +:+ rest)) by (by rw !str_app_assoc).
  rw Hsplit /read_message_header. assert (Hb : str_len (b1 +:+ b2 +:+ b3 +:+ b4) = 16) by (by rw !str_len_app !le_bytes_len).
  case_decide as Hempty; [apply (f_equal str_len) in Hempty; rw str_len_app Hb in Hempty; pose proof (str_len_nonneg (op_msg_body bytes +:+ rest)); change (str_len "") with 0 in Hempty; lia|].
  rw read_bytes_app; [done|]. rw (slice_at "" b1 (b2 +:+ b3 +:+ b4) 0 4); [done|by rw le_bytes_len|]. cbn [mbind outcome_bind].
  rw read_length_bytes; [lia|]. cbn [mbind outcome_bind]. rw (slice_at b1 b2 (b3 +:+ b4) 4 8); [by rw le_bytes_len|by rw le_bytes_len|]. cbn [mbind outcome_bind].
  rw read_i32_bytes; [done|]. cbn [mbind outcome_bind].
  assert (slice_or_panic (b1 +:+ b2 +:+ b3 +:+ b4) 12 16 = Ok b4) as ->.
  { replace (b1 +:+ b2 +:+ b3 +:+ b4) with ((b1 +:+ b2 +:+ b3) +:+ b4 +:+ "") by (by rw !str_app_assoc str_app_nil_r). apply slice_at; [by rw !str_len_app !le_bytes_len|by rw le_bytes_len]. }
  cbn [mbind outcome_bind]. by rw read_i32_bytes.
Qed.

(** The replies a run of the executor gives: each request is executed in the state the one
    before left, in the database it names, and its reply carries the next reply id and the
    id of the request. *)
Inductive replies : Z → Env → list (Z * Document) → list string → Prop :=
  | replies_nil next_id env : replies next_id env [] []
  | replies_cons next_id env id command payload answer env' document bytes requests rest :
      document_to_value command = Ok payload →
      execute (default "admin" (get_str command "$db")) payload env = (Ok answer, env') →
      value_to_document answer = Ok document →
      bson_to_vec document = Ok bytes →
      replies (signed32 ((next_id + 1) mod 2 ^ 32)) env' requests rest →
      replies next_id env ((id, command) :: requests) (op_msg next_id id bytes :: rest).

Lemma answer_written id command bytes payload answer env env' document reply next_id :
  bson_to_vec command = Ok bytes → document_to_value command = Ok payload → execute (default "admin" (get_str command "$db")) payload env = (Ok answer, env') →
  value_to_document answer = Ok document → bson_to_vec document = Ok reply →
  answer_message execute (mkHeader (21 + str_len bytes) id OP_MSG) (op_msg_body bytes) next_id env = (Ok (op_msg next_id id reply, signed32 ((next_id + 1) mod 2 ^ 32)), env').
Proof.
  intros Hvec Hpayload Hexecute Hdocument Hreply. rw /answer_message. cbn [op_code negb]. change (OP_MSG =? OP_MSG) with true. cbn [negb].
  rw (parse_op_msg_written command bytes Hvec). cbn [mbind outcome_bind]. rw Hpayload. cbn [mbind outcome_bind]. rw Hexecute. cbn [mbind outcome_bind].
  rw Hdocument. cbn [mbind outcome_bind]. by rw /encode_op_msg_response Hreply.
Qed.

(** C5. A client may send requests without waiting for replies: the messages are taken
    apart where they were put together, executed one after the other, each in the database
    its [$db] names, and answered in the same order, every reply naming its request and
    carrying its own id.  Then the connection ends as the client closes it. *)
Theorem wire_requests_answered_in_order (next_id : Z) (env : Env) (requests : list (Z * Document)) (answers : list string) (written : string) :
  Forall request_ok requests → replies next_id env requests answers →
  mongo_handle_connection execute (S (length requests)) next_id env (foldr (λ request rest, request_bytes request +:+ rest) "" requests) written =
  Some (Ok (), written +:+ foldr (λ answer rest, answer +:+ rest) "" answers).
Proof.
  intros Hok Hreplies. revert written. induction Hreplies as [next_id env|next_id env id command payload answer env' document reply requests rest Hpayload Hexecute Hdocument Hreply _ IH]; intros written.
  { cbn [length foldr mongo_handle_connection]. rw /read_message_header. cbn. by rw str_app_nil_r. }
  apply Forall_cons in Hok as [(Hid & bytes & Hvec & Hlen) Hok]. cbn [fst snd] in Hid, Hvec. pose proof (str_len_nonneg bytes).
  cbn [length foldr mongo_handle_connection]. rw {1}/request_bytes. cbn [fst snd]. rw Hvec read_written_message; [done..|]. cbn [message_length].
  destruct (Z.ltb_spec (21 + str_len bytes) 16); [lia|].
  rw read_bytes_app; [rw /op_msg_body !str_len_app le_bytes_len; change (str_len (String "000" "")) with 1; lia|].
  rw (answer_written id command bytes payload answer env env' document reply next_id); [done..|].
  etrans; [apply (IH Hok)|]. by rw str_app_assoc.
Qed.
End theory.
End MongoWireTheory.
