(* ===== verification/MongoCursorTheory.v ===== *)
(** * Correctness of the MongoDB cursors

    The rows of a [find] that asks for batches stay with the process, under a cursor that
    expires.  Other clients use the same map of cursors between two requests of a client.
    [quiet] says of an operation that it leaves a given cursor alone, however it ends, and
    how often it reads the clock and takes ids; it is closed under sequencing, so that a
    whole command is quiet when its parts are. *)

From S2P Require Import Prelude Text Json JsonText Schema FileSet Contract Checkpoint QueryPath Float Pruning Planner SnapshotCodec SnapshotLookup SnapshotServing TopK ServingExec Provider.
From S2P Require Import StableSort MongoFind MongoCommands.

Create HintDb quiet.

Module MongoCursorTheory.

(** A command that names a cursor: [getMore] of it, or [killCursors] with it in the list. *)
Definition names_cursor (id : Z) (payload : Value) : bool :=
  match as_object payload with
  | Some command =>
      bool_decide (obj_get "getMore" command ≫= as_i64 = Some id) ||
      match obj_get "cursors" command with Some (VArray ids) => existsb (λ v, bool_decide (as_i64 v = Some id)) ids | _ => false end
  | None => false
  end.

Lemma value_as_i64_Ok v n : value_as_i64 v = Ok n → as_i64 v = Some n.
Proof. rw /value_as_i64. destruct (as_i64 v); cbn; [by intros [= ->]|discriminate]. Qed.

Section quiet.
Context `{env : Environment} (id : Z) (cursor : MongoCursorState).

(** The cursor is there and its id will not be given out again; it is alive at the next
    [reads] readings of the clock. *)
Record alive (reads takes : nat) (s : MongoProcess) : Prop := {
  al_there : mp_cursors s !! id = Some cursor;
  al_taken : (0 < id < mp_next_id s)%Z;
  al_room : (mp_next_id s + Z.of_nat takes < 2 ^ 63)%Z;
  al_fresh : ∀ j, mp_readings s ≤ j < mp_readings s + reads → mongo_cursor_expired cursor (clock j) = false;
}.

Definition quiet {A} (reads takes : nat) (m : Mongo A) : Prop :=
  ∀ s extra extra', alive (reads + extra) (takes + extra') s → alive extra extra' (m s).2.

Lemma alive_weaken reads takes reads' takes' s : reads' ≤ reads → takes' ≤ takes → alive reads takes s → alive reads' takes' s.
Proof. intros H1 H2 [Hc Ht Hr Hf]. split; [done..|lia|]. intros j Hj. apply Hf. lia. Qed.

Lemma quiet_weaken {A} reads takes reads' takes' (m : Mongo A) : reads ≤ reads' → takes ≤ takes' → quiet reads takes m → quiet reads' takes' m.
Proof. intros H1 H2 Hm s extra extra' Hs. apply Hm. apply (alive_weaken (reads' + extra) (takes' + extra')); [lia..|done]. Qed.

Lemma quiet_bind {A B} r1 t1 r2 t2 (m : Mongo A) (k : A → Mongo B) : quiet r1 t1 m → (∀ a, quiet r2 t2 (k a)) → quiet (r1 + r2) (t1 + t2) (m ≫= k).
Proof.
  intros Hm Hk s extra extra' Hs. rw -!Nat.add_assoc in Hs. specialize (Hm s _ _ Hs). rw /mbind /rst_bind. destruct (m s) as [[a|e|r] s1]; cbn [snd] in Hm.
  - by apply Hk.
  - cbn [snd]. apply (alive_weaken (r2 + extra) (t2 + extra')); [lia..|done].
  - cbn [snd]. apply (alive_weaken (r2 + extra) (t2 + extra')); [lia..|done].
Qed.

(** The parts that leave the cursors alone altogether. *)
Lemma quiet_lift {A} (m : mongo A) : quiet 0 0 (rst_lift m).
Proof. by intros s extra extra' Hs. Qed.

Lemma quiet_ret {A} (a : A) : quiet 0 0 (mret a).
Proof. by intros s extra extra' Hs. Qed.

Lemma quiet_serving {E A} (f : E → MongoCommandError) (m : RST E ServingState A) : quiet 0 0 (rst_map_err f (rst_zoom mp_serving set_mongo_serving m)).
Proof. intros s extra extra' Hs. rw /rst_map_err /rst_zoom. destruct (m (mp_serving s)) as [r t]. by destruct Hs. Qed.

(** Binding a part that changes nothing costs nothing. *)
Lemma quiet_bind0 {A B} r t (m : Mongo A) (k : A → Mongo B) : quiet 0 0 m → (∀ a, quiet r t (k a)) → quiet r t (m ≫= k).
Proof. apply (quiet_bind 0 0 r t). Qed.

Lemma quiet_bind_lift {A B} r t (m : mongo A) (k : A → Mongo B) : (∀ a, m = Ok a → quiet r t (k a)) → quiet r t (rst_lift m ≫= k).
Proof.
  intros Hk s extra extra' Hs. rw /mbind /rst_bind /rst_lift. destruct m as [a|e|reason]; [by apply Hk|..]; cbn [snd].
  all: by apply (alive_weaken (r + extra) (t + extra')); [lia..|].
Qed.

Lemma quiet_clock : quiet 1 0 current_cursor_time_ms.
Proof. intros s extra extra' [Hc Ht Hr Hf]. split; cbn in *; [done..|]. intros j Hj. apply Hf. lia. Qed.

(** The reading taken is one at which the cursor is alive. *)
Lemma quiet_with_clock {A} r t (k : Z → Mongo A) : (∀ now, mongo_cursor_expired cursor now = false → quiet r t (k now)) → quiet (S r) t (current_cursor_time_ms ≫= k).
Proof.
  intros Hk s extra extra' Hs. rw (rst_bind_Ok _ _ _ (clock (mp_readings s)) (current_cursor_time_ms s).2); [done|]. apply Hk.
  - apply (al_fresh _ _ _ Hs). lia.
  - by apply (quiet_clock s (r + extra) (t + extra')).
Qed.

Lemma prune_keeps cursors now : mongo_cursor_expired cursor now = false → cursors !! id = Some cursor → prune_expired_mongo_cursors cursors now !! id = Some cursor.
Proof. intros Hlive Hc. rw /prune_expired_mongo_cursors map_lookup_filter_Some. done. Qed.

Lemma quiet_register other : quiet 1 1 (register_mongo_cursor other).
Proof.
  intros s extra extra' [Hc Ht Hr Hf]. rw /register_mongo_cursor /rst_gets /rst_modify /current_cursor_time_ms. cbv [mbind rst_bind mret rst_ret]. cbn.
  assert (wrap_i64 (mp_next_id s + 1) = (mp_next_id s + 1)%Z) as -> by (rw /wrap_i64 Z.mod_small; lia).
  split; cbn; [|lia..|intros j Hj; apply Hf; lia]. rw lookup_insert_ne; [lia|]. apply prune_keeps; [|done]. apply Hf. lia.
Qed.

Lemma quiet_build namespace command config rows : quiet 2 1 (build_mongodb_find_response namespace command config rows).
Proof.
  rw /build_mongodb_find_response. apply quiet_bind0; [apply quiet_lift|]. intros [batch|]; [|by apply (quiet_weaken 0 0); [lia..|apply quiet_ret]].
  case_match; [|by apply (quiet_weaken 0 0); [lia..|apply quiet_ret]]. apply (quiet_bind 2 1 0 0); [|intros; apply quiet_ret].
  case_match; [by apply (quiet_weaken 0 0); [lia..|apply quiet_ret]|]. apply quiet_with_clock. intros. apply quiet_register.
Qed.

Lemma quiet_on_cursors {A} now (f : gmap Z MongoCursorState → mongo A * gmap Z MongoCursorState) :
  mongo_cursor_expired cursor now = false → (∀ cursors, cursors !! id = Some cursor → (f cursors).2 !! id = Some cursor) → quiet 0 0 (on_cursors now f).
Proof.
  intros Hlive Hf s extra extra' [Hc Ht Hr Hfresh]. rw /on_cursors. specialize (Hf _ (prune_keeps _ _ Hlive Hc)).
  destruct (f _) as [r cursors]. by split.
Qed.

(** [getMore] of another cursor. *)
Lemma take_batch_other other database collection batch_size now cursors :
  other ≠ id → cursors !! id = Some cursor → (take_batch other database collection batch_size now cursors).2 !! id = Some cursor.
Proof. intros Hne Hc. rw /take_batch. repeat case_match; cbn [snd]; by rw ?lookup_delete_ne ?lookup_insert_ne. Qed.

Lemma quiet_get_more database command : obj_get "getMore" command ≫= as_i64 ≠ Some id → quiet 1 0 (execute_mongodb_get_more database command).
Proof.
  intros Hother. rw /execute_mongodb_get_more. apply quiet_bind_lift. intros other Hid.
  assert (other ≠ id).
  { intros ->. apply Hother. rw /required_i64 in Hid. destruct (obj_get "getMore" command) as [v|]; [|done]. cbn in Hid |- *.
    by apply value_as_i64_Ok. }
  apply quiet_bind_lift. intros collection _. apply quiet_bind_lift. intros batch_size _. apply quiet_with_clock. intros now Hlive.
  apply quiet_bind0; [|intros [[? ?] ?]; apply quiet_ret]. apply quiet_on_cursors; [done|]. intros cursors. by apply take_batch_other.
Qed.

(** [killCursors] of other cursors. *)
Lemma kill_others database collection ids killed not_found cursors : id ∉ ids → cursors !! id = Some cursor →
  (foldl (kill_step database collection) (killed, not_found, cursors) ids).2 !! id = Some cursor.
Proof.
  revert killed not_found cursors. induction ids as [|other ids IH]; intros killed not_found cursors Hin Hc; [done|].
  apply not_elem_of_cons in Hin as [Hne Hids]. cbn [foldl kill_step]. repeat case_match; apply IH; try done. rw lookup_delete_ne; [by apply not_eq_sym|done].
Qed.

Lemma quiet_kill database command : names_cursor id (VObject command) = false → quiet 1 0 (execute_mongodb_kill_cursors database command).
Proof.
  intros Hnames. rw /execute_mongodb_kill_cursors. apply quiet_bind_lift. intros collection _. apply quiet_bind_lift. intros ids Hids.
  assert (id ∉ ids).
  { rw /names_cursor in Hnames. cbn [as_object] in Hnames. apply orb_false_iff in Hnames as [_ Hnames].
    destruct (obj_get "cursors" command) as [v|]; [|done]. cbn in Hids. destruct v as [| | | |l|]; cbn in Hids; try discriminate.
    intros Hin. apply not_true_iff_false in Hnames. apply Hnames. clear Hnames. revert ids Hids Hin. induction l as [|v l IH]; intros ids Hids Hin; cbn in Hids.
    { injection Hids as <-. by apply not_elem_of_nil in Hin. }
    cbn [existsb]. apply orb_true_iff. destruct (value_as_i64 v) as [n|e|r] eqn:Hv; [|discriminate Hids..]. apply value_as_i64_Ok in Hv. cbn in Hids.
    destruct (try_collect value_as_i64 l) as [rest|e|r]; [|discriminate Hids..]. cbn in Hids. injection Hids as <-. apply elem_of_cons in Hin as [->|Hin]; [left; by apply bool_decide_eq_true|right; by apply (IH rest)]. }
  apply quiet_with_clock. intros now Hlive. apply quiet_bind0; [|intros [? ?]; apply quiet_ret]. apply quiet_on_cursors; [done|]. intros cursors Hc.
  pose proof (kill_others database collection ids [] [] cursors ltac:(done) Hc) as Hkept. by destruct (foldl _ _ _) as [[killed not_found] cursors'].
Qed.
End quiet.

Section commands.
Context `{jt : JsonText, ft : FloatText, fd : FloatDisplay, ho : HashOrder, kh : KeyHasher, src : SnapshotSource, side : SidecarSource, co : CompletionOrder, env : Environment}.
Context {W : Type} `{provider : StateProvider W} (cached : string → string → Z → bool) (metadata_cache : gmap string nat) (find_from_value : Value → outcome MongoFindCommand).

Abbreviation run := (execute_mongodb_command cached metadata_cache find_from_value).
Abbreviation find_for_table := (execute_mongodb_find_for_table cached metadata_cache).

Lemma quiet_find id cursor w table_name command config : quiet id cursor 2 1 (find_for_table w table_name command config).
Proof.
  rw /execute_mongodb_find_for_table. apply quiet_bind_lift. intros rewritten _. apply quiet_bind_lift. intros request _.
  apply quiet_bind0; [apply quiet_serving|]. intros response. case_decide; [|by apply (quiet_weaken _ _ 0 0); [lia..|apply quiet_lift]].
  apply quiet_bind_lift. intros rows _. apply quiet_build.
Qed.

(** No command of another client disturbs a cursor it does not name. *)
Lemma quiet_command id cursor w database payload : names_cursor id payload = false → quiet id cursor 2 1 (run w database payload).
Proof.
  intros Hnames. assert (Hfree : ∀ m : Mongo Value, quiet id cursor 0 0 m → quiet id cursor 2 1 m) by (intros m; apply quiet_weaken; lia).
  rw /execute_mongodb_command. apply quiet_bind_lift. intros command Hcommand. apply quiet_bind_lift. intros _ _.
  assert (payload = VObject command) as -> by (destruct payload; cbn in Hcommand; try discriminate; by injection Hcommand as ->).
  repeat (case_match; [first [by apply Hfree, quiet_ret|by apply Hfree, quiet_lift|idtac]|]); [..|by apply Hfree, quiet_lift].
  - apply (quiet_weaken _ _ 1 0); [lia..|]. apply quiet_get_more. rw /names_cursor in Hnames. cbn [as_object] in Hnames.
    apply orb_false_iff in Hnames as [Hget _]. by apply bool_decide_eq_false in Hget.
  - apply (quiet_weaken _ _ 1 0); [lia..|]. by apply quiet_kill.
  - apply quiet_bind_lift. intros find_command _. apply quiet_bind_lift. intros binding _.
    apply (quiet_bind _ _ 2 1 0 0); [apply quiet_find|]. intros response. apply quiet_ret.
Qed.

(** ** A conversation

    A client asks for batches of [n] rows and then for more until it is told that there is
    no cursor any more.  Between its requests come those of others, in a state of the
    provider of their own. *)
Definition others_run (others : list (W * string * Value)) : Mongo () := λ s,
  (Ok (), foldl (λ s '(w, database, payload), (run w database payload s).2) s others).

(** What a client reads from the reply of [getMore]. *)
Definition cursor_reply (reply : Value) : mongo (Z * list Value) :=
  ok_or (reply ← as_object reply; cursor ← obj_get "cursor" reply; cursor ← as_object cursor; id ← obj_get "id" cursor; id ← as_i64 id;
         batch ← obj_get "nextBatch" cursor; batch ← as_array batch; Some (id, batch)) (refuse "not a cursor").

Fixpoint drain (w : W) (database collection : string) (n : Z) (rounds : list (list (W * string * Value))) (id : Z) : Mongo (Z * list Value) :=
  match rounds with
  | [] => mret (id, [])
  | others :: rounds =>
      if (id =? 0)%Z then mret (id, [])
      else
        others_run others ≫= λ _,
        run w database (VObject [("getMore", int id); ("collection", VString collection); ("batchSize", int n)]) ≫= λ reply,
        rst_lift (cursor_reply reply) ≫= λ '(id, batch),
        drain w database collection n rounds id ≫= λ '(id, rest),
        mret (id, batch ++ rest)
  end.

Definition with_batch_size (n : option Z) (command : MongoFindCommand) : MongoFindCommand :=
  mkFindCommand (fc_find command) (fc_filter command) (fc_projection command) (fc_sort command) (fc_limit command) (fc_skip command) n (fc_single_batch command) (fc_no_cursor_timeout command).

Definition conversation (w : W) (table_name : string) (command : MongoFindCommand) (config : MongoDbTableConfig) (n : Z) (rounds : list (list (W * string * Value))) : Mongo (Z * list Value) :=
  find_for_table w table_name (with_batch_size (Some n) command) config ≫= λ first,
  drain w (mg_database config) (mg_collection config) n rounds (fp_id first) ≫= λ '(id, rest),
  mret (id, fp_first_batch first ++ rest).

Lemma others_alive id cursor others extra extra' s : Forall (λ '(_, _, payload), names_cursor id payload = false) others →
  alive id cursor (2 * length others + extra) (length others + extra') s → alive id cursor extra extra' (others_run others s).2.
Proof.
  revert s. induction others as [|[[w database] payload] others IH]; intros s Hothers Hs; [done|]. apply Forall_cons in Hothers as [Hname Hothers].
  cbn [others_run foldl snd] in *. apply IH; [done|]. apply (quiet_command id cursor w database payload Hname).
  apply (alive_weaken _ _ _ _ _ _ _) with (3 := Hs); cbn [length]; lia.
Qed.

Definition get_more (collection : string) (n id : Z) : Object := [("getMore", int id); ("collection", VString collection); ("batchSize", int n)].

Lemma as_i64_int n : (0 ≤ n < 2 ^ 63)%Z → as_i64 (int n) = Some n.
Proof. intros Hn. rw /int. destruct (Z.ltb_spec n 0); [lia|]. cbn [as_i64]. by destruct (Z.ltb_spec n (2 ^ 63)); [|lia]. Qed.

Lemma run_get_more w database collection n id s : run w database (VObject (get_more collection n id)) s = execute_mongodb_get_more database (get_more collection n id) s.
Proof. done. Qed.

(** The cursor after a batch of [n] rows. *)
Definition advanced (cursor : MongoCursorState) (n : nat) (now : Z) : MongoCursorState :=
  mkCursor (cu_ns cursor) (cu_database cursor) (cu_collection cursor) (drop n (cu_remaining_rows cursor)) (cu_no_cursor_timeout cursor)
    (next_cursor_expiry_ms (cu_no_cursor_timeout cursor) now).

Lemma take_own_batch id cursor n now cursors : cursors !! id = Some cursor →
  take_batch id (cu_database cursor) (cu_collection cursor) (Some n) now cursors =
  if decide (length (cu_remaining_rows cursor) ≤ n) then (Ok (0%Z, cu_ns cursor, cu_remaining_rows cursor), delete id cursors)
  else (Ok (id, cu_ns cursor, take n (cu_remaining_rows cursor)), <[id := advanced cursor n now]> cursors).
Proof.
  intros Hc. rw /take_batch Hc !String.eqb_refl. cbn [negb orb]. change (default (length (cu_remaining_rows cursor)) (Some n)) with n. case_decide as Hlen.
  - rw Nat.min_r; [lia|]. by rw take_ge ?drop_ge.
  - rw Nat.min_l; [lia|]. rw /advanced. destruct (drop n (cu_remaining_rows cursor)) as [|r rest] eqn:Hdrop; [|done].
    apply (f_equal length) in Hdrop. rw length_drop /= in Hdrop. lia.
Qed.

(** A [getMore] of one's own cursor: the next rows, and either the end or the rest, with a
    new time limit. *)
Lemma own_get_more id cursor w n s extra extra' : (0 < n < 2 ^ 63)%Z → alive id cursor (S extra) extra' s →
  let answer id' batch := VObject [("cursor", VObject [("id", int id'); ("ns", VString (cu_ns cursor)); ("nextBatch", VArray batch)]); ("ok", one)] in
  let rows := cu_remaining_rows cursor in let count := Z.to_nat n in
  ∃ s', run w (cu_database cursor) (VObject (get_more (cu_collection cursor) n id)) s =
    (Ok (if decide (length rows ≤ count) then answer 0%Z rows else answer id (take count rows)), s') ∧
    mp_readings s' = S (mp_readings s) ∧ mp_next_id s' = mp_next_id s ∧
    (count < length rows → mp_cursors s' !! id = Some (advanced cursor count (clock (mp_readings s)))).
Proof.
  intros Hn [Hc Ht Hr Hf] answer rows count. rw run_get_more /execute_mongodb_get_more.
  rw (rst_bind_Ok _ _ _ id s). { rw /rst_lift /required_i64 /value_as_i64. cbn [get_more]. change (obj_get "getMore" (get_more (cu_collection cursor) n id)) with (Some (int id)). cbn [ok_or mbind outcome_bind]. rw as_i64_int; [lia|done]. }
  rw (rst_bind_Ok _ _ _ (cu_collection cursor) s); [done|].
  rw (rst_bind_Ok _ _ _ (Some count) s).
  { change (obj_get "batchSize" (get_more (cu_collection cursor) n id)) with (Some (int n)). rw /rst_lift /value_as_i64 as_i64_int; [lia|]. cbn [ok_or mbind outcome_bind].
    rw /validate_positive_batch_size. by destruct (Z.leb_spec n 0); [lia|]. }
  rw (rst_bind_Ok _ _ _ (clock (mp_readings s)) (current_cursor_time_ms s).2); [done|].
  assert (Hlive : prune_expired_mongo_cursors (mp_cursors s) (clock (mp_readings s)) !! id = Some cursor). { apply prune_keeps; [apply Hf; lia|done]. }
  rw /on_cursors. cbv [mbind rst_bind mret rst_ret]. cbn [current_cursor_time_ms snd mp_cursors]. rw (take_own_batch id cursor _ _ _ Hlive).
  rw /rows. case_decide; (eexists; split; [reflexivity|]); (split_and!; [done..|]); cbn [set_cursors mp_cursors]; [rw /rows /count; lia|]. by rw lookup_insert_eq.
Qed.

(** The clock does not pass the time limit within so many readings, unless there is none. *)
Definition timely (no_cursor_timeout : bool) (window : nat) : Prop :=
  no_cursor_timeout = true ∨ ∀ i j, i ≤ j ≤ i + window → (clock j < clock i + MONGO_CURSOR_TIMEOUT_MS)%Z.

Lemma timely_fresh cursor window i j : timely (cu_no_cursor_timeout cursor) window →
  cu_expires_at_ms cursor = next_cursor_expiry_ms (cu_no_cursor_timeout cursor) (clock i) → i ≤ j ≤ i + window → mongo_cursor_expired cursor (clock j) = false.
Proof.
  intros Htimely Hexpiry Hj. rw /mongo_cursor_expired Hexpiry /next_cursor_expiry_ms. destruct Htimely as [->|Hclock]; [done|].
  case_match; [|done]. case_match; [done|]. simplify_eq. apply Z.leb_gt. by apply Hclock.
Qed.

(** The requests of others between those of the client: at most [m] at a time, none about
    the client's cursor. *)
Definition apart (id : Z) (m : nat) (others : list (W * string * Value)) : Prop :=
  length others ≤ m ∧ Forall (λ '(_, _, payload), names_cursor id payload = false) others.

Lemma cursor_reply_answer id ns batch : (0 ≤ id < 2 ^ 63)%Z →
  cursor_reply (VObject [("cursor", VObject [("id", int id); ("ns", VString ns); ("nextBatch", VArray batch)]); ("ok", one)]) = Ok (id, batch).
Proof. intros Hid. pose proof (as_i64_int id Hid) as Hint. revert Hint. generalize (int id). intros v Hint. transitivity (ok_or (n ← as_i64 v; Some (n, batch)) (refuse "not a cursor" : mongo (Z * list Value))); [reflexivity|by rw Hint]. Qed.

Lemma drain_all w n m id rounds : (0 < n < 2 ^ 63)%Z → Forall (apart id m) rounds → ∀ cursor s i,
  timely (cu_no_cursor_timeout cursor) (2 + 2 * m) → cu_expires_at_ms cursor = next_cursor_expiry_ms (cu_no_cursor_timeout cursor) (clock i) → i ≤ mp_readings s ≤ i + 2 →
  mp_cursors s !! id = Some cursor → (0 < id < mp_next_id s)%Z → (mp_next_id s + Z.of_nat (length (concat rounds)) < 2 ^ 63)%Z →
  0 < length (cu_remaining_rows cursor) ≤ Z.to_nat n * length rounds →
  ∃ s', drain w (cu_database cursor) (cu_collection cursor) n rounds id s = (Ok (0%Z, cu_remaining_rows cursor), s').
Proof.
  intros Hn Hrounds. induction Hrounds as [|others rounds [Hm Hothers] _ IH]; intros cursor s i Htimely Hexpiry Hi Hc Hid Hroom Hrows; [cbn in Hrows; lia|].
  cbn [concat length] in Hroom, Hrows. rw length_app Nat2Z.inj_add in Hroom. cbn [drain]. destruct (Z.eqb_spec id 0); [lia|].
  rw (rst_bind_Ok _ _ _ () (others_run others s).2); [done|]. set (s1 := (others_run others s).2).
  assert (Halive : alive id cursor 1 (length (concat rounds)) s1).
  { apply others_alive; [done|]. split; [done..|lia|]. intros j Hj. apply (timely_fresh cursor (2 + 2 * m) i); [done..|lia]. }
  destruct (own_get_more id cursor w n s1 0 _ Hn Halive) as (s2 & Hrun & Hreadings & Hnext & Hkept).
  rw (rst_bind_Ok _ _ _ _ s2 Hrun). case_decide as Hlen.
  - rw (rst_bind_Ok _ _ _ (0%Z, cu_remaining_rows cursor) s2); [by rw /rst_lift cursor_reply_answer|].
    exists s2. rw (rst_bind_Ok _ _ _ (0%Z, []) s2); [by destruct rounds|]. by rw /mret /rst_ret app_nil_r.
  - apply Nat.nle_gt in Hlen. specialize (Hkept Hlen). rw (rst_bind_Ok _ _ _ (id, take (Z.to_nat n) (cu_remaining_rows cursor)) s2).
    { destruct Halive as [_ ? ? _]. rw /rst_lift cursor_reply_answer; [lia|done]. }
    destruct (IH (advanced cursor (Z.to_nat n) (clock (mp_readings s1))) s2 (mp_readings s1)) as [s3 Hdrain]; try done.
    + lia.
    + rw Hnext. apply (al_taken _ _ _ _ _ Halive).
    + rw Hnext. apply (al_room _ _ _ _ _ Halive).
    + cbn [advanced cu_remaining_rows]. rw length_drop. lia.
    + exists s3. cbn [advanced cu_database cu_collection cu_remaining_rows] in Hdrain. rw (rst_bind_Ok _ _ _ _ _ Hdrain). by rw /mret /rst_ret take_drop.
Qed.

(** Batching only concerns how the rows are handed out. *)
Lemma find_in_batches w table_name command config n s first s1 : find_for_table w table_name (with_batch_size None command) config s = (Ok first, s1) →
  mp_next_id s1 = mp_next_id s ∧ mp_readings s1 = mp_readings s ∧
  find_for_table w table_name (with_batch_size n command) config s =
  build_mongodb_find_response (mg_database config +:+ "." +:+ mg_collection config) (with_batch_size n command) config (fp_first_batch first) s1.
Proof.
  intros Hfind. rw /execute_mongodb_find_for_table in Hfind. apply rst_bind_Ok_inv in Hfind as (rewritten & s2 & Hrewrite & Hfind).
  injection Hrewrite as Hrewrite <-. apply rst_bind_Ok_inv in Hfind as (request & s2 & Hrequest & Hfind). injection Hrequest as Hrequest <-.
  apply rst_bind_Ok_inv in Hfind as (response & s2 & Hserve & Hfind). case_decide as Hfast; [|discriminate].
  apply rst_bind_Ok_inv in Hfind as (rows & s3 & Hrows & Hfind). injection Hrows as Hrows <-.
  injection Hfind as <- <-. cbn [fp_first_batch].
  assert (Hkept : mp_next_id s2 = mp_next_id s ∧ mp_readings s2 = mp_readings s).
  { revert Hserve. rw /rst_map_err /rst_zoom. destruct (execute_serving_query _ _ _ _ _ _) as [r t]. by intros [= _ <-]. }
  split_and!; [apply Hkept..|]. rw /execute_mongodb_find_for_table.
  rw (rst_bind_Ok _ _ _ (with_batch_size n rewritten) s).
  { rw /rst_lift. f_equal. revert Hrewrite. rw /rewrite_mongodb_find_command. cbn [with_batch_size fc_filter fc_projection fc_sort].
    destruct (rewrite_mongodb_filter_document _ _); [|done..]. destruct (rewrite_mongodb_projection _ _); [|done..]. destruct (rewrite_mongodb_sort _ _); [|done..]. by intros [= <-]. }
  rw (rst_bind_Ok _ _ _ request s); [by rw -Hrequest|]. rw (rst_bind_Ok _ _ _ _ _ Hserve). case_decide; [|done].
  by rw (rst_bind_Ok _ _ _ rows s2); [rw -Hrows|].
Qed.

(** C3. Asking for the rows of a [find] in batches gives exactly the rows the same [find]
    gives at once, every row once and in its order, and the last batch says that it is the
    last: after at most as many [getMore] requests as the batch size needs.  Other clients
    may find, fetch and kill cursors of their own in between, in any number, as long as
    none of them names this cursor and no pause is longer than the ten minutes a cursor
    lives (or the client asked for no limit). *)
Theorem batches_are_the_whole_answer w table_name command config n m rounds s first s1 :
  find_for_table w table_name (with_batch_size None command) config s = (Ok first, s1) →
  default false (fc_single_batch command) = false → (0 < n < 2 ^ 63)%Z →
  Forall (apart (mp_next_id s) m) rounds → timely (default false (fc_no_cursor_timeout command)) (2 + 2 * m) →
  (0 < mp_next_id s)%Z → (mp_next_id s + 1 + Z.of_nat (length (concat rounds)) < 2 ^ 63)%Z →
  length (fp_first_batch first) ≤ Z.to_nat n * S (length rounds) →
  ∃ s', conversation w table_name command config n rounds s = (Ok (0%Z, fp_first_batch first), s').
Proof.
  intros Hfind Hmany Hn Hrounds Htimely Hid Hroom Hlen. destruct (find_in_batches w table_name command config (Some n) s first s1 Hfind) as (Hnext & Hreadings & Hbatches).
  set (rows := fp_first_batch first) in *. rw /conversation {1}/mbind /rst_bind Hbatches /build_mongodb_find_response. cbn [with_batch_size fc_batch_size fc_single_batch fc_no_cursor_timeout].
  rw /validate_positive_batch_size. destruct (Z.leb_spec n 0); [lia|]. rw (rst_bind_Ok _ _ _ (Some (Z.to_nat n)) s1); [done|].
  destruct (Nat.ltb_spec (Z.to_nat n) (length rows)) as [Hmore|Hall].
  - rw Hmany. set (cursor := mkCursor (mg_database config +:+ "." +:+ mg_collection config) (mg_database config) (mg_collection config) (drop (Z.to_nat n) rows)
      (default false (fc_no_cursor_timeout command)) (next_cursor_expiry_ms (default false (fc_no_cursor_timeout command)) (clock (mp_readings s)))).
    set (s2 := set_cursors (<[mp_next_id s := cursor]> (prune_expired_mongo_cursors (mp_cursors s1) (clock (S (mp_readings s)))))
      (mkMongoProcess (mp_serving s1) (mp_next_id s + 1) (mp_cursors s1) (S (S (mp_readings s))))).
    rw (rst_bind_Ok _ _ _ (mp_next_id s) s2).
    { rw (rst_bind_Ok _ _ _ (clock (mp_readings s1)) (current_cursor_time_ms s1).2); [done|]. rw /register_mongo_cursor. cbv [mbind rst_bind mret rst_ret rst_gets rst_modify current_cursor_time_ms].
      cbn. rw Hreadings Hnext /wrap_i64 Z.mod_small; [lia|]. replace (mp_next_id s + 1 + 2 ^ 63 - 2 ^ 63)%Z with (mp_next_id s + 1)%Z by lia. done. }
    destruct (drain_all w n m (mp_next_id s) rounds Hn Hrounds cursor s2 (mp_readings s)) as [s3 Hdrain]; try done; rw /s2; cbn [mp_readings mp_cursors mp_next_id set_cursors]; [lia|by rw lookup_insert_eq|lia|rw /cursor; cbn [cu_remaining_rows]; rw length_drop; lia|].
    exists s3. rw /mret /rst_ret. cbn [fp_id fp_first_batch]. cbn [cursor cu_database cu_collection cu_remaining_rows] in Hdrain.
    rw (rst_bind_Ok _ _ _ _ _ Hdrain). by rw take_drop.
  - exists s1. rw /mret /rst_ret. cbn [fp_id fp_first_batch]. rw (rst_bind_Ok _ _ _ (0%Z, []) s1); [by destruct rounds|]. by rw take_ge ?app_nil_r.
Qed.
End commands.
End MongoCursorTheory.
