(* ===== verification/MongoDemo.v ===== *)
(** * Examples of the MongoDB protocol

    A table of scores behind a MongoDB collection, a concrete document format, and
    conversations over it; and what happens to a filter that names a column twice. *)

From S2P Require Import Prelude Text Bytes Json JsonText Schema FileSet Contract Checkpoint QueryPath Float Pruning Planner SnapshotCodec SnapshotLookup SnapshotServing TopK TopKTheory ServingExec Provider.
From S2P Require Import ExactTheory ServingExecTheory StableSort MongoFind MongoCommands MongoWire MongoTheory MongoCursorTheory.

Module MongoDemo.
Import HashOrderDemo FloatTextDemo JsonTextDemo ServingExecTheory.ServingExecTheory ServingExecDemo MongoWireTheory MongoCursorTheory.

(** ** A document format: the length, then the text of the JSON value *)
Definition demo_to_vec (v : Value) : outcome string :=
  let bytes := le_bytes 4 (4 + str_len (json_to_vec v)) +:+ json_to_vec v in if (str_len bytes <? 2 ^ 31)%Z then Ok bytes else Err "too long".

Lemma demo_to_vec_Ok v bytes : demo_to_vec v = Ok bytes → bytes = le_bytes 4 (4 + str_len (json_to_vec v)) +:+ json_to_vec v ∧ (str_len bytes < 2 ^ 31)%Z.
Proof. rw /demo_to_vec. case_match eqn:Hlen; [|done]. intros Hb. assert (bytes = le_bytes 4 (4 + str_len (json_to_vec v)) +:+ json_to_vec v) as -> by congruence. by apply Z.ltb_lt in Hlen. Qed.

#[local] Instance demo_bson : Bson := {
  Document := Value;
  bson_from_slice := λ bytes, json_from_slice (str_drop 4 bytes);
  bson_to_vec := demo_to_vec;
  get_str := λ document key, match value_get document key with Some (VString s) => Some s | _ => None end;
  document_to_value := λ document, Ok document;
  value_to_document := λ value, match value with VObject _ => Ok value | _ => Err "not a document" end;
}.

Lemma demo_reads_back v : json_from_slice (json_to_vec v) = Ok v.
Proof.
  destruct v as [|b| | | |]; [done|by destruct b| |done|..]; cbn [json_from_slice json_to_vec demo_json existsb Ascii.eqb Bool.eqb orb]; rw of_bits_bits decode_encode; by rw tree_value_tree.
Qed.

Lemma json_not_empty v : (1 ≤ str_len (json_to_vec v))%Z.
Proof. rw /str_len. destruct v as [|b| | | |]; [done|by destruct b|..]; cbn [json_to_vec demo_json String.length]; lia. Qed.

#[local] Instance demo_bson_laws : BsonLaws demo_bson.
Proof.
  split.
  - intros bytes. apply json_never_panics.
  - intros v. cbn [bson_to_vec demo_bson]. rw /demo_to_vec. by case_match.
  - done.
  - by intros [].
  - intros v bytes [-> Hlen]%demo_to_vec_Ok. pose proof (json_not_empty v). rw !str_len_app le_bytes_len in Hlen |- *. split; [lia|]. apply (str_take_app (le_bytes 4 _)).
  - intros v bytes [-> _]%demo_to_vec_Ok. cbn [bson_from_slice demo_bson].
    assert (str_drop 4 (le_bytes 4 (4 + str_len (json_to_vec v)) +:+ json_to_vec v) = json_to_vec v) as -> by apply (str_drop_app (le_bytes 4 _)). apply demo_reads_back.
Qed.

(** ** A collection of scores *)
#[local] Existing Instances score_engine no_sidecars demo_display last_first length_hasher.
Definition score_config : MongoDbTableConfig := mkMongoDb true "game" "best" "name".
Definition best_pattern : ServingPattern := mkServingPattern "best" [] (Some "points") (Some "points") true None None None.
#[local] Instance mongo_provider : StateProvider () := {
  sp_is_read_only := λ _, true;
  sp_describe_table := λ _ name, Ok (Some (mkTableDescription name ∅ (Some (mkServingTableConfig [best_pattern])) None None (Some score_config) None));
  sp_get_all_iceberg_tables := λ _, Ok ["scores"];
  sp_get_published_active_servable_checkpoint := λ _ _, Ok (Some "7");
  sp_get_checkpoint := λ _ _, Ok (Some score_checkpoint);
  sp_upsert_table_metadata := λ _ w, (Ok true, w);
}.
#[local] Instance one_second_clock : Environment := { next_id := λ _, ""; clock := λ i, (1000 * Z.of_nat i)%Z; default_hash := λ _, 0%Z }.

(** The fields of a [find] document. *)
Definition find_of (payload : Value) : outcome MongoFindCommand :=
  match value_get payload "find" with
  | Some (VString collection) =>
      Ok (mkFindCommand collection (default default_mongo_filter (value_get payload "filter")) (value_get payload "projection") (value_get payload "sort")
            (value_get payload "limit" ≫= as_i64) (value_get payload "skip" ≫= as_i64) (value_get payload "batchSize" ≫= as_i64) None None)
  | _ => Err "missing field `find`"
  end.

Definition uncached (_ _ : string) (_ : Z) : bool := false.
Definition start : MongoProcess := mkMongoProcess cold 1 ∅ 0.
Definition best : MongoFindCommand :=
  mkFindCommand "best" (VObject [("points", VObject [("$gte", int 70)])]) None (Some (VObject [("points", int (-1))])) (Some 2%Z) None None None None.
Definition document (name : string) (points : Z) : Value := VObject [("_id", VString name); ("points", int points)].

Lemma best_at_once : ∃ s1, execute_mongodb_find_for_table uncached ∅ () "scores" (with_batch_size None best) score_config start =
  (Ok (mkFindResponse 0 "game.best" [document "ann" 100; document "bob" 99]), s1).
Proof. eexists. vm_compute. reflexivity. Qed.

(** Somebody else's requests in between: a conversation of the same kind, a kill of an
    unknown cursor, and a malformed request. *)
Definition find_document : Value :=
  VObject [("find", VString "best"); ("filter", VObject [("points", VObject [("$gte", int 70)])]); ("sort", VObject [("points", int (-1))]); ("limit", int 2); ("batchSize", int 1); ("$db", VString "game")].
Definition interruptions : list (() * string * Value) :=
  [((), "game", find_document); ((), "game", VObject [("killCursors", VString "best"); ("cursors", VArray [int 9])]); ((), "game", VObject [("getMore", VString "x")])].

Lemma interruptions_apart : Forall (apart 1 3) [interruptions; []].
Proof. repeat constructor. Qed.

Lemma seconds_timely : timely false 8.
Proof. right. intros i j Hij. cbn [clock one_second_clock]. rw /MONGO_CURSOR_TIMEOUT_MS. lia. Qed.

Lemma batches_are_the_whole_answer_witness : ∃ s',
  conversation uncached ∅ find_of () "scores" best score_config 1 [interruptions; []] start = (Ok (0%Z, [document "ann" 100; document "bob" 99]), s').
Proof.
  destruct best_at_once as [s1 Hbest].
  apply (batches_are_the_whole_answer uncached ∅ find_of () "scores" best score_config 1 3 [interruptions; []] start (mkFindResponse 0 "game.best" [document "ann" 100; document "bob" 99]) s1).
  - exact Hbest.
  - reflexivity.
  - lia.
  - exact interruptions_apart.
  - exact seconds_timely.
  - cbn. lia.
  - cbn. lia.
  - cbn. lia.
Defined.

(** ** Over the wire *)
Definition serve (database : string) (payload : Value) (s : MongoProcess) : outcome Value * MongoProcess := execute_mongodb_command_value uncached ∅ find_of () database payload s.

Definition requests : list (Z * Document) :=
  [(7%Z, VObject [("ping", int 1)]); (-8, find_document)%Z; (9%Z, VObject [("getMore", int 1); ("collection", VString "best"); ("$db", VString "game")]);
   (10%Z, VObject [("getMore", int 1); ("collection", VString "best"); ("$db", VString "game")])].
Definition batch_document (field : string) (id : Z) (rows : list Value) : Value :=
  VObject [("cursor", VObject [("id", int id); ("ns", VString "game.best"); (field, VArray rows)]); ("ok", one)].
Definition answers : list (Z * Value) :=
  [(7%Z, VObject [("ok", one)]); (-8, batch_document "firstBatch" 1 [document "ann" 100])%Z; (9%Z, batch_document "nextBatch" 0 [document "bob" 99]);
   (10%Z, command_error_value (cursor_not_found 1))].
Definition reply_messages : list string := imap (λ i reply, match demo_to_vec reply.2 with Ok bytes => op_msg (1 + Z.of_nat i) reply.1 bytes | _ => "" end) answers.

Lemma requests_ok : Forall request_ok requests.
Proof. repeat constructor; try (cbn; lia); (eexists; split; [vm_compute; reflexivity|vm_compute; reflexivity]). Qed.

Lemma requests_replies : replies serve 1 start requests reply_messages.
Proof.
  assert (∃ messages, replies serve 1 start requests messages ∧ messages = reply_messages) as (messages & Hreplies & <-); [|done].
  eexists. split.
  - unfold requests. do 4 (eapply (replies_cons (bson := demo_bson) serve); [reflexivity|vm_compute; reflexivity|reflexivity|vm_compute; reflexivity|]). apply (replies_nil (bson := demo_bson) serve).
  - vm_compute. reflexivity.
Qed.

Lemma wire_requests_answered_in_order_witness :
  mongo_handle_connection serve 5 1 start (foldr (λ request rest, request_bytes request +:+ rest) "" requests) "" = Some (Ok (), "" +:+ foldr (λ answer rest, answer +:+ rest) "" reply_messages).
Proof. apply (wire_requests_answered_in_order serve 1 start requests reply_messages ""); [exact requests_ok|exact requests_replies]. Defined.

(** An executor that always answers, and bytes that are no message. *)
Definition echo (database : string) (payload : Value) (env : ()) : outcome Value * () := (Ok payload, env).
Definition noise : string := le_bytes 4 40 +:+ le_bytes 4 1 +:+ le_bytes 4 0 +:+ le_bytes 4 OP_MSG +:+ le_bytes 4 1 +:+ String "001" (le_bytes 4 (2 ^ 31 - 1)) +:+ "0123456789abcde".

Lemma hostile_streams_end_witness : ∃ r all, mongo_handle_connection echo (S (String.length noise)) 1 () noise "" = Some (r, all) ∧ no_panic r.
Proof. apply (hostile_streams_end echo 1 () noise ""). intros database payload env. exact I. Defined.

(** ** Findings *)

(** The column behind [_id] may be named by its own name as well, and then one condition
    replaces the other: the filter asks for the player ann with the id bob, and the player
    bob is found. *)
Theorem condition_on_id_is_overwritten :
  rewrite_mongodb_filter_document "name" (VObject [("name", VString "ann"); ("_id", VString "bob")]) = Ok (VObject [("name", VString "bob")]).
Proof. reflexivity. Qed.

(** A sort direction of 2^64 - 1 is read as -1. *)
Theorem unsigned_direction_is_descending : parse_mongodb_sort (Some (VObject [("points", VNumber (PosInt (2 ^ 64 - 1)))])) = parse_mongodb_sort (Some (VObject [("points", int (-1))])).
Proof. vm_compute. reflexivity. Qed.
End MongoDemo.
