(* ===== verification/DynamoAttr.v ===== *)
(** * DynamoDB attribute values (query_server/src/dynamodb_protocol.rs)

    The DynamoDB front end stores items as JSON rows.  A row cannot hold DynamoDB's
    binaries and sets, so they become objects with one marker key.  This file has the
    errors of the front end, the two conversions, and the rows and keys built from
    them; what is stored comes back as it was written, unless an item has one of the
    marker keys itself. *)

From S2P Require Import Prelude Text Json.

(** ** Errors *)

(** SRC query_server/src/dynamodb_protocol.rs:63-68 DynamoDbError *)
Record DynamoDbError : Type := mkDynamoDbError {
  de_status : Z;
  de_type_name : string;
  de_message : string;
}.

Section errors.
Context {A : Type}.
Implicit Types message : string.

(** SRC query_server/src/dynamodb_protocol.rs:79-81 DynamoDbError::validation *)
Definition validation message : result DynamoDbError A := Err (mkDynamoDbError 400 "ValidationException" message).

(** SRC query_server/src/dynamodb_protocol.rs:83-89 DynamoDbError::resource_not_found *)
Definition resource_not_found message : result DynamoDbError A := Err (mkDynamoDbError 400 "ResourceNotFoundException" message).

(** SRC query_server/src/dynamodb_protocol.rs:91-97 DynamoDbError::auth *)
Definition auth message : result DynamoDbError A := Err (mkDynamoDbError 403 "UnrecognizedClientException" message).

(** SRC query_server/src/dynamodb_protocol.rs:99-105 DynamoDbError::conditional_check_failed *)
Definition conditional_check_failed message : result DynamoDbError A := Err (mkDynamoDbError 400 "ConditionalCheckFailedException" message).

(** SRC query_server/src/dynamodb_protocol.rs:107-113 DynamoDbError::internal *)
Definition internal message : result DynamoDbError A := Err (mkDynamoDbError 500 "InternalServerError" message).
End errors.

Abbreviation ddb := (result DynamoDbError).

(** [for (key, value) in map { converted.insert(key, f(value)?) }] from an empty map. *)
Definition try_collect_object {E} (f : Value → result E Value) : list (string * Value) → list (string * Value) → result E (list (string * Value)) :=
  fix go (converted m : list (string * Value)) :=
    match m with
    | [] => Ok converted
    | (key, value) :: m => v ← f value; go (obj_insert key v converted) m
    end.

(** ** Conversion *)
Definition DYNAMODB_BINARY_MARKER : string := "$binary".
Definition DYNAMODB_STRING_SET_MARKER : string := "$string_set".
Definition DYNAMODB_NUMBER_SET_MARKER : string := "$number_set".
Definition DYNAMODB_BINARY_SET_MARKER : string := "$binary_set".
Definition markers : list string :=
  [DYNAMODB_BINARY_MARKER; DYNAMODB_STRING_SET_MARKER; DYNAMODB_NUMBER_SET_MARKER; DYNAMODB_BINARY_SET_MARKER].

Section conversion.
Context `{ft : FloatText}.

(** SRC query_server/src/dynamodb_protocol.rs:4982-5001 string_array_value *)
Definition string_array_value (value : Value) (marker : string) : ddb (list string) :=
  values ← ok_or (as_array value) (validation (marker +:+ " marker must contain an array"));
  try_collect (λ value, ok_or (as_str value) (validation (marker +:+ " marker array members must be strings"))) values.

(** SRC query_server/src/dynamodb_protocol.rs:5003-5015 number_set_value *)
Definition number_set_value (value : Value) : ddb (list string) :=
  values ← ok_or (as_array value) (validation "$number_set marker must contain an array");
  try_collect (λ value, match value with
                    | VNumber number => Ok (number_to_string number)
                    | _ => validation "$number_set marker array members must be numbers"
                    end) values.

(** [json!({ k: v })] *)
Definition tagged (k : string) (v : Value) : Value := VObject [(k, v)].
Definition json_strings (l : list string) : Value := VArray (VString <$> l).

(** SRC query_server/src/dynamodb_protocol.rs:4821-4859 json_to_dynamodb_attr *)
Fixpoint json_to_dynamodb_attr (value : Value) : ddb Value :=
  match value with
  | VNull => Ok (tagged "NULL" (VBool true))
  | VBool boolean => Ok (tagged "BOOL" (VBool boolean))
  | VNumber number => Ok (tagged "N" (VString (number_to_string number)))
  | VString string => Ok (tagged "S" (VString string))
  | VArray values => l ← try_collect json_to_dynamodb_attr values; Ok (tagged "L" (VArray l))
  | VObject map =>
      match obj_get DYNAMODB_BINARY_MARKER map with
      | Some value =>
          s ← ok_or (as_str value) (validation "$binary marker must contain a base64 string");
          Ok (tagged "B" (VString s))
      | None =>
      match obj_get DYNAMODB_STRING_SET_MARKER map with
      | Some value => l ← string_array_value value DYNAMODB_STRING_SET_MARKER; Ok (tagged "SS" (json_strings l))
      | None =>
      match obj_get DYNAMODB_NUMBER_SET_MARKER map with
      | Some value => l ← number_set_value value; Ok (tagged "NS" (json_strings l))
      | None =>
      match obj_get DYNAMODB_BINARY_SET_MARKER map with
      | Some value => l ← string_array_value value DYNAMODB_BINARY_SET_MARKER; Ok (tagged "BS" (json_strings l))
      | None =>
          converted ← try_collect_object json_to_dynamodb_attr [] map;
          Ok (tagged "M" (VObject converted))
      end end end end
  end.

(** [text.parse::<i64>()], then [text.parse::<f64>()]; [json!] makes an infinity or a
    NaN a null. *)
Definition parse_number (text : string) (error : ddb Value) : ddb Value :=
  match parse_i64 text with
  | Some parsed => Ok (int parsed)
  | None =>
      match parse_f64 text with
      | Some (Some parsed) => Ok (VNumber (NFloat parsed))
      | Some None => Ok VNull
      | None => error
      end
  end.

Definition string_member (error : string) (value : Value) : ddb Value :=
  s ← ok_or (as_str value) (validation error); Ok (VString s).

(** SRC query_server/src/dynamodb_protocol.rs:4861-4980 dynamodb_attr_to_json *)
Fixpoint dynamodb_attr_to_json (value : Value) : ddb Value :=
  match value with
  | VObject object =>
      match obj_get "S" object with
      | Some value => s ← ok_or (as_str value) (validation "AttributeValue.S must be a string"); Ok (VString s)
      | None =>
      match obj_get "N" object with
      | Some value =>
          text ← ok_or (as_str value) (validation "AttributeValue.N must be a string");
          parse_number text (validation ("AttributeValue.N could not be parsed as a number: " +:+ text))
      | None =>
      match obj_get "BOOL" object with
      | Some value => b ← ok_or (as_bool value) (validation "AttributeValue.BOOL must be a boolean"); Ok (VBool b)
      | None =>
      match obj_get "B" object with
      | Some value =>
          s ← ok_or (as_str value) (validation "AttributeValue.B must be a string");
          Ok (tagged DYNAMODB_BINARY_MARKER (VString s))
      | None =>
      match obj_get "NULL" object with
      | Some value => if bool_decide (as_bool value = Some true) then Ok VNull else validation "AttributeValue.NULL must be true"
      | None =>
      match obj_get "SS" object with
      | Some value =>
          array ← ok_or (as_array value) (validation "AttributeValue.SS must be an array");
          values ← try_collect (string_member "AttributeValue.SS members must be strings") array;
          Ok (tagged DYNAMODB_STRING_SET_MARKER (VArray values))
      | None =>
      match obj_get "NS" object with
      | Some value =>
          array ← ok_or (as_array value) (validation "AttributeValue.NS must be an array");
          values ← try_collect (λ value,
            text ← ok_or (as_str value) (validation "AttributeValue.NS members must be strings");
            parse_number text (validation ("AttributeValue.NS member could not be parsed as a number: " +:+ text))) array;
          Ok (tagged DYNAMODB_NUMBER_SET_MARKER (VArray values))
      | None =>
      match obj_get "BS" object with
      | Some value =>
          array ← ok_or (as_array value) (validation "AttributeValue.BS must be an array");
          values ← try_collect (string_member "AttributeValue.BS members must be strings") array;
          Ok (tagged DYNAMODB_BINARY_SET_MARKER (VArray values))
      | None =>
      match obj_get_map "L" (λ value,
              match value with
              | VArray array => l ← try_collect dynamodb_attr_to_json array; Ok (VArray l)
              | _ => validation "AttributeValue.L must be an array"
              end) object with
      | Some converted => converted
      | None =>
      match obj_get_map "M" (λ value,
              match value with
              | VObject map => converted ← try_collect_object dynamodb_attr_to_json [] map; Ok (VObject converted)
              | _ => validation "AttributeValue.M must be an object"
              end) object with
      | Some converted => converted
      | None => validation "Unsupported DynamoDB AttributeValue shape"
      end end end end end end end end end end
  | _ => validation "DynamoDB AttributeValue must be an object"
  end.
End conversion.

(** ** Rows and keys *)

(** SRC query_server/src/dynamodb_protocol.rs:518-522 DynamoDbKeySchemaConfig *)
Record DynamoDbKeySchemaConfig : Type := mkKeySchema {
  partition_key : string;
  sort_key : option string;
}.


(** SRC query_server/src/dynamodb_protocol.rs:4488-4490 visible_object_value *)
Definition visible_object_value (object : Object) (field_name : string) : option Value :=
  match obj_get field_name object with
  | Some value => if is_null value then None else Some value
  | None => None
  end.

(** SRC query_server/src/dynamodb_protocol.rs:4808-4819 project_row *)
Definition project_row (row : Value) (projection : list string) : ddb Value :=
  object ← ok_or (as_object row) (internal "Serving query returned a non-object row");
  Ok (VObject (foldl (λ projected field,
    match visible_object_value object field with
    | Some value => obj_insert field value projected
    | None => projected
    end) [] projection)).

(** SRC query_server/src/dynamodb_protocol.rs:4796-4806 project_rows *)
Definition project_rows (rows : list Value) (projection : option (list string)) : ddb (list Value) :=
  match projection with
  | None => Ok rows
  | Some projection => try_collect (λ row, project_row row projection) rows
  end.

Definition key_fields (key_schema : DynamoDbKeySchemaConfig) : list string :=
  partition_key key_schema :: option_list (sort_key key_schema).

(** SRC query_server/src/dynamodb_protocol.rs:4303-4320 ordered_key_fields *)
Definition ordered_key_fields (key_schema table_key_schema : DynamoDbKeySchemaConfig) : list string :=
  key_fields key_schema ++
  (if decide (partition_key table_key_schema = partition_key key_schema) then [] else [partition_key table_key_schema]) ++
  match sort_key table_key_schema with
  | Some sk => if decide (sort_key key_schema = Some sk) then [] else [sk]
  | None => []
  end.

(** SRC query_server/src/dynamodb_protocol.rs:2043-2060 row_matches_key *)
Definition row_matches_key (row : Value) (key_schema : DynamoDbKeySchemaConfig) (key : gmap string Value) : ddb bool :=
  object ← ok_or (as_object row) (internal "DynamoDB mutation row was not an object");
  if negb (opt_value_eqb (obj_get (partition_key key_schema) object) (key !! partition_key key_schema)) then Ok false
  else match sort_key key_schema with
       | Some sk => if negb (opt_value_eqb (obj_get sk object) (key !! sk)) then Ok false else Ok true
       | None => Ok true
       end.

(** SRC query_server/src/dynamodb_protocol.rs:2024-2041 split_rows_by_key *)
Definition split_rows_by_key (rows : list Value) (key_schema : DynamoDbKeySchemaConfig) (key : gmap string Value) :
    ddb (option Value * list Value) :=
  foldM (λ '(existing, retained) row,
    matches ← row_matches_key row key_schema key;
    Ok (if matches : bool then (match existing with None => Some row | Some _ => existing end, retained)
        else (existing, retained ++ [row]))) (None, []) rows.

(** SRC query_server/src/dynamodb_protocol.rs:2574-2588 canonical_key_value *)
Definition canonical_key_value (key_schema : DynamoDbKeySchemaConfig) (key : gmap string Value) : Value :=
  let object := match key !! partition_key key_schema with
                | Some value => obj_insert (partition_key key_schema) value []
                | None => []
                end in
  VObject (match sort_key key_schema with
           | Some sk => match key !! sk with Some value => obj_insert sk value object | None => object end
           | None => object
           end).

Section rows.
Context `{ft : FloatText}.

(** SRC query_server/src/dynamodb_protocol.rs:4203-4215 json_row_to_dynamodb_item *)
Definition json_row_to_dynamodb_item (row : Value) : ddb Object :=
  object ← ok_or (as_object row) (internal "Serving query returned a non-object row");
  foldM (λ item '(key, value),
    if is_null value then Ok item
    else attr ← json_to_dynamodb_attr value; Ok (obj_insert key attr item)) [] object.

(** SRC query_server/src/dynamodb_protocol.rs:2062-2068 dynamodb_item_to_json_row *)
Definition dynamodb_item_to_json_row (item : Object) : ddb Value :=
  converted ← try_collect_object dynamodb_attr_to_json [] item; Ok (VObject converted).

(** SRC query_server/src/dynamodb_protocol.rs:3450-3478 parse_key_map *)
Definition parse_key_map (key : Object) (key_schema : DynamoDbKeySchemaConfig) : ddb (gmap string Value) :=
  raw ← ok_or (obj_get (partition_key key_schema) key) (validation ("Key must include partition key " +:+ partition_key key_schema));
  value ← dynamodb_attr_to_json raw;
  let parsed : gmap string Value := {[partition_key key_schema := value]} in
  parsed ← match sort_key key_schema with
           | Some sk =>
               raw ← ok_or (obj_get sk key) (validation ("Key must include sort key " +:+ sk));
               value ← dynamodb_attr_to_json raw;
               Ok (<[sk := value]> parsed)
           | None => Ok parsed
           end;
  if length key =? size (parsed : gmap string Value) then Ok parsed
  else validation "Key contained attributes that are not part of the table primary key".

(** SRC query_server/src/dynamodb_protocol.rs:2010-2022 copy_key_attr *)
Definition copy_key_attr (item target : Object) (field_name : string) : ddb Object :=
  attr ← ok_or (obj_get field_name item) (validation ("Item was missing key field " +:+ field_name));
  Ok (obj_insert field_name attr target).

(** SRC query_server/src/dynamodb_protocol.rs:1998-2008 parse_item_key_map *)
Definition parse_item_key_map (item : Object) (key_schema : DynamoDbKeySchemaConfig) : ddb (gmap string Value) :=
  key ← copy_key_attr item [] (partition_key key_schema);
  key ← match sort_key key_schema with Some sk => copy_key_attr item key sk | None => Ok key end;
  parse_key_map key key_schema.

(** SRC query_server/src/dynamodb_protocol.rs:4246-4265 append_key_to_map *)
Definition append_key_to_map (key object : Object) (field_name label : string) : ddb Object :=
  if obj_contains field_name key then Ok key
  else
    value ← ok_or (obj_get field_name object) (internal ("Response item was missing " +:+ label +:+ " key " +:+ field_name));
    attr ← json_to_dynamodb_attr value;
    Ok (obj_insert field_name attr key).

(** SRC query_server/src/dynamodb_protocol.rs:4217-4244 row_to_key *)
Definition row_to_key (row : Value) (key_schema table_key_schema : DynamoDbKeySchemaConfig) : ddb Object :=
  object ← ok_or (as_object row) (internal "Serving query returned a non-object row");
  key ← append_key_to_map [] object (partition_key key_schema) "partition";
  key ← match sort_key key_schema with Some sk => append_key_to_map key object sk "sort" | None => Ok key end;
  key ← (if decide (partition_key table_key_schema = partition_key key_schema) then Ok key
         else append_key_to_map key object (partition_key table_key_schema) "table partition");
  match sort_key table_key_schema with
  | Some sk => if decide (sort_key key_schema = Some sk) then Ok key else append_key_to_map key object sk "table sort"
  | None => Ok key
  end.

(** SRC query_server/src/dynamodb_protocol.rs:4267-4301 parse_exclusive_start_key_map *)
Definition parse_exclusive_start_key_map (key : Object) (query_key_schema table_key_schema : DynamoDbKeySchemaConfig) : ddb (gmap string Value) :=
  parsed ← foldM (λ parsed field_name,
    match obj_get field_name key with
    | None => validation ("ExclusiveStartKey was missing key field " +:+ field_name)
    | Some value => v ← dynamodb_attr_to_json value; Ok (<[field_name := v]> parsed)
    end) (∅ : gmap string Value) (ordered_key_fields query_key_schema table_key_schema);
  if length key =? size (parsed : gmap string Value) then Ok parsed
  else validation "ExclusiveStartKey contained attributes that are not part of the table or index key schema".
End rows.

(** ** What can be stored and read back *)

Definition storable_number (n : Number) : bool :=
  match n with
  | PosInt n => (0 <=? n)%Z && (n <? 2 ^ 63)%Z
  | NegInt n => (- 2 ^ 63 <=? n)%Z && (n <? 0)%Z
  | NFloat f => canonical_f64 f
  end.

(** Integers of 64 bits, doubles, strings, booleans, nulls, lists and maps of such;
    a binary or a set is an object with its marker as the only key, and no other
    object has a marker among its keys. *)
Inductive storable : Value → Prop :=
| storable_null : storable VNull
| storable_bool b : storable (VBool b)
| storable_num n : storable_number n = true → storable (VNumber n)
| storable_string s : storable (VString s)
| storable_array l : Forall storable l → storable (VArray l)
| storable_binary s : storable (tagged DYNAMODB_BINARY_MARKER (VString s))
| storable_string_set l : storable (tagged DYNAMODB_STRING_SET_MARKER (json_strings l))
| storable_binary_set l : storable (tagged DYNAMODB_BINARY_SET_MARKER (json_strings l))
| storable_number_set l : Forall (λ n, storable_number n = true) l → storable (tagged DYNAMODB_NUMBER_SET_MARKER (VArray (VNumber <$> l)))
| storable_object m :
    NoDup (obj_keys m) → Forall (λ k, k ∉ markers) (obj_keys m) → Forall (λ kv, storable kv.2) m → storable (VObject m).

(** ** The conversions return *)

Lemma try_collect_object_no_panic {E} (f : Value → result E Value) acc m :
  Forall (λ kv, no_panic (f kv.2)) m → no_panic (try_collect_object f acc m).
Proof. intros Hm. revert acc. induction Hm as [|[k v] m Hv _ IH]; intros acc; simpl; [done|]. by apply no_panic_bind. Qed.

Lemma parse_number_no_panic `{FloatText} text e : no_panic (parse_number text (validation e)).
Proof. rw /parse_number. by repeat case_match. Qed.

Section conversion_returns.
Context `{ft : FloatText}.
Hint Resolve try_collect_no_panic try_collect_object_no_panic parse_number_no_panic : panics.
Hint Extern 1 (no_panic (ok_or _ _)) => (apply ok_or_no_panic; exact I) : panics.

Lemma string_member_no_panic e v : no_panic (string_member e v).
Proof. by destruct v. Qed.

Lemma string_array_value_no_panic v marker : no_panic (string_array_value v marker).
Proof.
  rw /string_array_value. apply no_panic_bind; [eauto with panics|]. intros l _.
  apply try_collect_no_panic, Forall_forall. eauto with panics.
Qed.

Lemma number_set_value_no_panic v : no_panic (number_set_value v).
Proof.
  rw /number_set_value. apply no_panic_bind; [eauto with panics|]. intros l _.
  apply try_collect_no_panic, Forall_forall. intros v' _. by case_match.
Qed.

Lemma json_to_dynamodb_attr_no_panic v : no_panic (json_to_dynamodb_attr v).
Proof.
  induction v as [| | | |l IH|m IH] using Value_nested_ind; simpl; try done.
  - apply no_panic_bind; [by apply try_collect_no_panic|done].
  - repeat case_match; apply no_panic_bind; try done;
      eauto using string_array_value_no_panic, number_set_value_no_panic with panics.
Qed.

(** An attribute and, for a list or a map, everything in it. *)
Lemma dynamodb_attr_to_json_no_panic v : no_panic (dynamodb_attr_to_json v).
Proof.
  cut (no_panic (dynamodb_attr_to_json v) ∧
       (∀ l, v = VArray l → Forall (λ a, no_panic (dynamodb_attr_to_json a)) l) ∧
       (∀ m, v = VObject m → Forall (λ kv, no_panic (dynamodb_attr_to_json kv.2)) m)); [naive_solver|].
  induction v as [| | | |l IH|m IH] using Value_nested_ind; [by split_and!; [done|naive_solver..]..| |].
  - split_and!; [done| |naive_solver]. intros l' [= <-]. eapply Forall_impl; [exact IH|]. naive_solver.
  - split_and!; [|naive_solver|].
    2: { intros m' [= <-]. eapply Forall_impl; [exact IH|]. naive_solver. }
    simpl. rw !obj_get_map_spec.
    assert (Hstr : ∀ e l, no_panic (try_collect (string_member e) l)).
    { intros e l. apply try_collect_no_panic, Forall_forall. intros. apply string_member_no_panic. }
    destruct (obj_get "S" m); [apply no_panic_bind; eauto with panics|].
    destruct (obj_get "N" m); [apply no_panic_bind; eauto with panics|].
    destruct (obj_get "BOOL" m); [apply no_panic_bind; eauto with panics|].
    destruct (obj_get "B" m); [apply no_panic_bind; eauto with panics|].
    destruct (obj_get "NULL" m); [by case_bool_decide|].
    destruct (obj_get "SS" m); [apply no_panic_bind; [eauto with panics|intros; by apply no_panic_bind]|].
    destruct (obj_get "NS" m).
    { apply no_panic_bind; [eauto with panics|]. intros. apply no_panic_bind; [|done].
      apply try_collect_no_panic, Forall_forall. intros. apply no_panic_bind; eauto with panics. }
    destruct (obj_get "BS" m); [apply no_panic_bind; [eauto with panics|intros; by apply no_panic_bind]|].
    rw Forall_forall in IH. destruct (obj_get "L" m) as [v|] eqn:HL; simpl.
    { destruct (IH _ (obj_get_elem _ _ _ HL)) as (_ & Hl & _). destruct v; try done.
      apply no_panic_bind; [|done]. by apply try_collect_no_panic, Hl. }
    destruct (obj_get "M" m) as [v|] eqn:HM; simpl; [|done].
    destruct (IH _ (obj_get_elem _ _ _ HM)) as (_ & _ & Hm). destruct v; try done.
    apply no_panic_bind; [|done]. by apply try_collect_object_no_panic, Hm.
Qed.
End conversion_returns.

(** ** Converted values are well formed *)

Lemma try_collect_Forall {E A B} (f : A → result E B) (P : B → Prop) l l' :
  Forall (λ a, ∀ b, f a = Ok b → P b) l → try_collect f l = Ok l' → Forall P l'.
Proof.
  intros Hl. revert l'. induction Hl as [|a l Ha _ IH]; intros l'; simpl; [by intros [= <-]|].
  intros Hc. apply bind_Ok_inv in Hc as (b & Hb & Hc). apply bind_Ok_inv in Hc as (bs & Hbs & [= <-]). auto.
Qed.

Lemma obj_insert_Forall (P : Value → Prop) k v m : P v → Forall (λ kv, P kv.2) m → Forall (λ kv, P kv.2) (obj_insert k v m).
Proof. intros Hv Hm. induction Hm as [|[k' v'] m Hv' Hm IH]; simpl; [by constructor|]. case_decide; by constructor. Qed.

Lemma try_collect_object_wf {E} (f : Value → result E Value) (P : Value → Prop) m acc m' :
  Forall (λ kv, ∀ v, f kv.2 = Ok v → P v) m → NoDup (obj_keys acc) → Forall (λ kv, P kv.2) acc →
  try_collect_object f acc m = Ok m' → NoDup (obj_keys m') ∧ Forall (λ kv, P kv.2) m'.
Proof.
  intros Hm. revert acc. induction Hm as [|[k v] m Hv _ IH]; intros acc Hnd Hacc; simpl; [by intros [= <-]|].
  intros Hc. apply bind_Ok_inv in Hc as (v' & Hv' & Hc). revert Hc. apply IH; [by apply obj_insert_NoDup|].
  apply obj_insert_Forall; auto.
Qed.

(** What a converted object holds. *)
Lemma try_collect_object_get {E} (f : Value → result E Value) m acc m' :
  NoDup (obj_keys m) → try_collect_object f acc m = Ok m' →
  ∀ k, match obj_get k m with
       | Some a => ∃ v, f a = Ok v ∧ obj_get k m' = Some v
       | None => obj_get k m' = obj_get k acc
       end.
Proof.
  revert acc. induction m as [|[k1 a1] m IH]; intros acc; simpl; [by intros _ [= <-]|].
  intros [Hk Hnd]%NoDup_cons Hc k. apply bind_Ok_inv in Hc as (v1 & Hv1 & Hc). pose proof (IH _ Hnd Hc k) as Hget.
  destruct (decide (k1 = k)) as [->|Hne].
  - apply obj_get_None in Hk. rw Hk obj_get_insert_eq in Hget. by exists v1.
  - destruct (obj_get k m); [done|]. by rw Hget obj_get_insert_ne.
Qed.

Section conversion_wf.
Context `{ft : FloatText}.

Lemma string_members_wf e l l' : try_collect (string_member e) l = Ok l' → Forall wf_value l'.
Proof.
  apply try_collect_Forall, Forall_forall. intros v _ b. rw /string_member. destruct v; simpl; try done. intros [= <-]. constructor.
Qed.

Lemma parse_number_wf text e v : parse_number text (validation e) = Ok v → wf_value v.
Proof. rw /parse_number. repeat case_match; try done; intros [= <-]; constructor. Qed.

Lemma tagged_wf k v : wf_value v → wf_value (tagged k v).
Proof. intros Hv. constructor; [apply NoDup_singleton|]. by constructor. Qed.

Lemma dynamodb_attr_to_json_wf a v : dynamodb_attr_to_json a = Ok v → wf_value v.
Proof.
  cut (∀ a, (∀ v, dynamodb_attr_to_json a = Ok v → wf_value v) ∧
       (∀ l, a = VArray l → Forall (λ a, ∀ v, dynamodb_attr_to_json a = Ok v → wf_value v) l) ∧
       (∀ m, a = VObject m → Forall (λ kv, ∀ v, dynamodb_attr_to_json kv.2 = Ok v → wf_value v) m)).
  { intros Hall. by apply Hall. }
  clear. intros a. induction a as [| | | |l IH|m IH] using Value_nested_ind; [by split_and!; [done|naive_solver..]..| |].
  - split_and!; [done| |naive_solver]. intros l' [= <-]. eapply Forall_impl; [exact IH|]. naive_solver.
  - split_and!; [|naive_solver|].
    2: { intros m' [= <-]. eapply Forall_impl; [exact IH|]. naive_solver. }
    rw Forall_forall in IH. intros v. simpl. rw !obj_get_map_spec.
    destruct (obj_get "S" m) as [x|]; [destruct x; simpl; try done; intros [= <-]; constructor|].
    destruct (obj_get "N" m) as [x|]; [destruct x; simpl; try done; apply parse_number_wf|].
    destruct (obj_get "BOOL" m) as [x|]; [destruct x; simpl; try done; intros [= <-]; constructor|].
    destruct (obj_get "B" m) as [x|]; [destruct x; simpl; try done; intros [= <-]; apply tagged_wf; constructor|].
    destruct (obj_get "NULL" m) as [x|]; [case_bool_decide; try done; intros [= <-]; constructor|].
    destruct (obj_get "SS" m) as [x|].
    { destruct x; simpl; try done. intros Hc. apply bind_Ok_inv in Hc as (l' & Hl & [= <-]). apply tagged_wf. constructor. exact (string_members_wf _ _ _ Hl). }
    destruct (obj_get "NS" m) as [x|].
    { destruct x; simpl; try done. intros Hc. apply bind_Ok_inv in Hc as (l' & Hl & [= <-]). apply tagged_wf. constructor.
      revert Hl. apply try_collect_Forall, Forall_forall. intros y _ b. destruct y; simpl; try done. apply parse_number_wf. }
    destruct (obj_get "BS" m) as [x|].
    { destruct x; simpl; try done. intros Hc. apply bind_Ok_inv in Hc as (l' & Hl & [= <-]). apply tagged_wf. constructor. exact (string_members_wf _ _ _ Hl). }
    destruct (obj_get "L" m) as [x|] eqn:HL; simpl.
    { destruct (IH _ (obj_get_elem _ _ _ HL)) as (_ & Hl & _). destruct x; try done. intros Hc.
      apply bind_Ok_inv in Hc as (l' & Hc & [= <-]). constructor. revert Hc. by apply try_collect_Forall, Hl. }
    destruct (obj_get "M" m) as [x|] eqn:HM; simpl; [|done].
    destruct (IH _ (obj_get_elem _ _ _ HM)) as (_ & _ & Hm). destruct x; try done. intros Hc.
    apply bind_Ok_inv in Hc as (m' & Hc & [= <-]). apply try_collect_object_wf with (P := wf_value) in Hc as [? ?];
      [by constructor|by apply Hm|constructor|constructor].
Qed.
End conversion_wf.

Section conversion_laws.
Context `{ftl : FloatTextLaws}.

Lemma try_collect_object_Forall2 {E} (f : Value → result E Value) m m' acc :
  Forall2 (λ kv kv', kv.1 = kv'.1 ∧ f kv.2 = Ok kv'.2) m m' → NoDup (obj_keys (acc ++ m)) →
  try_collect_object f acc m = Ok (acc ++ m').
Proof.
  intros H2. revert acc. induction H2 as [|[k v] [k' v'] m m' [Hk Hf] _ IH]; intros acc Hnd; simpl in *; [by rw app_nil_r|].
  subst. rw Hf /=. rw obj_insert_fresh.
  { rw /obj_keys fmap_app in Hnd. apply NoDup_app in Hnd as (_ & Hd & _). intros Hin. apply (Hd _ Hin). left. }
  rw IH; [|by rw -app_assoc]. move: Hnd. by rw /obj_keys !fmap_app /= -app_assoc.
Qed.

Lemma try_collect_object_keys {E} (f : Value → result E Value) m acc m' :
  try_collect_object f acc m = Ok m' → ∀ k, k ∈ obj_keys m' ↔ k ∈ obj_keys acc ∨ k ∈ obj_keys m.
Proof.
  revert acc. induction m as [|[k v] m IH]; intros acc; simpl; intros Hc k'; invert_ok; [set_solver|].
  rw (IH _ Hc) obj_insert_keys. case_decide; set_solver.
Qed.

Lemma parse_number_storable n e : storable_number n = true → parse_number (number_to_string n) e = Ok (VNumber n).
Proof.
  rw /parse_number. destruct n as [n|n|f]; simpl; intros Hn.
  - apply andb_true_iff in Hn as [?%Z.leb_le ?%Z.ltb_lt]. rw parse_print_int; [lia|]. rw /int.
    by destruct (Z.ltb_spec n 0); [lia|].
  - apply andb_true_iff in Hn as [?%Z.leb_le ?%Z.ltb_lt]. rw parse_print_int; [lia|]. rw /int.
    by destruct (Z.ltb_spec n 0); [|lia].
  - by rw print_f64_not_integer // parse_print_f64.
Qed.

(** A value and its attribute determine each other. *)
Definition converts (v a : Value) : Prop := json_to_dynamodb_attr v = Ok a ∧ dynamodb_attr_to_json a = Ok v.

Lemma Forall_Forall2_exists {A B} (R : A → B → Prop) l : Forall (λ a, ∃ b, R a b) l → ∃ l', Forall2 R l l'.
Proof. induction 1 as [|a l [b Hb] _ [l' IH]]; [by exists []|]. exists (b :: l'). by constructor. Qed.

Lemma try_collect_strings marker l : try_collect (λ value, ok_or (as_str value) (validation marker)) (VString <$> l) = Ok l.
Proof. apply try_collect_Ok. apply Forall2_fmap_l. by apply Forall_Forall2_diag, Forall_true. Qed.

Lemma try_collect_string_members error l : try_collect (string_member error) (VString <$> l) = Ok (VString <$> l).
Proof. apply try_collect_Ok. apply Forall2_fmap. by apply Forall_Forall2_diag, Forall_true. Qed.

Lemma no_marker (m : Object) k : Forall (λ k, k ∉ markers) (obj_keys m) → k ∈ markers → obj_get k m = None.
Proof. intros Hm Hk. apply obj_get_None. intros Hin. rw Forall_forall in Hm. by apply (Hm k). Qed.

(** The fields of an object converted one by one. *)
Lemma convert_fields m :
  NoDup (obj_keys m) → Forall (λ kv, ∃ a, converts kv.2 a) m →
  ∃ m', obj_keys m' = obj_keys m ∧ Forall2 (λ kv kv', kv.1 = kv'.1 ∧ converts kv.2 kv'.2) m m' ∧
    try_collect_object json_to_dynamodb_attr [] m = Ok m' ∧ try_collect_object dynamodb_attr_to_json [] m' = Ok m.
Proof.
  intros Hnd Hm. destruct (Forall_Forall2_exists (λ kv kv', kv.1 = kv'.1 ∧ converts kv.2 kv'.2) m) as [m' Hm'].
  { eapply Forall_impl; [exact Hm|]. intros [k v] [a Ha]. by exists (k, a). }
  assert (Hk : obj_keys m' = obj_keys m).
  { clear -Hm'. induction Hm' as [|[k v] [k' v'] m m' [Hk _] _ IH]; simpl in *; [done|]. by subst; rw IH. }
  exists m'. split_and!; [done|done| |].
  - apply (try_collect_object_Forall2 _ m m' []); [|done].
    eapply Forall2_impl; [exact Hm'|]. intros ? ? [? [? ?]]. done.
  - apply (try_collect_object_Forall2 _ m' m []); [|by rw app_nil_l Hk].
    apply Forall2_flip. eapply Forall2_impl; [exact Hm'|]. intros ? ? [? [? ?]]. done.
Qed.

Lemma storable_converts v : storable v → ∃ a, converts v a.
Proof.
  induction v as [|b|n|s|l IH|m IH] using Value_nested_ind; intros Hs; rw /converts.
  - by eexists.
  - by eexists.
  - inversion_clear Hs. eexists. split; [done|]. simpl. by apply parse_number_storable.
  - by eexists.
  - inversion_clear Hs as [| | | |? Hl| | | | |].
    assert (Hc : Forall (λ v, ∃ a, converts v a) l) by (apply Forall_forall; rw !Forall_forall in IH Hl; auto).
    destruct (Forall_Forall2_exists _ _ Hc) as [l' Hl']. exists (tagged "L" (VArray l')). simpl.
    rw (try_collect_Ok_2 _ l l'); [by eapply Forall2_impl; [exact Hl'|]; intros ? ? [? ?]|].
    rw (try_collect_Ok_2 _ l' l); [by apply Forall2_flip; eapply Forall2_impl; [exact Hl'|]; intros ? ? [? ?]|]. done.
  - inversion Hs as [| | | | |s Hm|l Hm|l Hm|l Hl Hm|? Hnd Hk Hm]; subst; clear Hs.
    + by eexists.
    + eexists. simpl. rw /string_array_value /= try_collect_strings /=. split; [done|]. simpl.
      by rw try_collect_string_members.
    + eexists. simpl. rw /string_array_value /= try_collect_strings /=. split; [done|]. simpl.
      by rw try_collect_string_members.
    + exists (tagged "NS" (json_strings (number_to_string <$> l))). simpl. rw /number_set_value /=.
      rw (try_collect_Ok_2 _ _ (number_to_string <$> l)); [apply Forall2_fmap; by apply Forall_Forall2_diag, Forall_true|].
      split; [done|]. simpl. rw (try_collect_Ok_2 _ _ (VNumber <$> l)); [|done].
      apply Forall2_fmap, Forall2_fmap_l. apply Forall_Forall2_diag. eapply Forall_impl; [exact Hl|].
      intros n Hn. simpl. by apply parse_number_storable.
    + assert (Hc : Forall (λ kv, ∃ a, converts kv.2 a) m) by (apply Forall_forall; rw !Forall_forall in IH Hm; auto).
      destruct (convert_fields m Hnd Hc) as (m' & _ & _ & Hto & Hfrom).
      exists (tagged "M" (VObject m')). split; simpl; [|by rw Hfrom].
      rw !(no_marker m); [done|rw /markers; set_solver..|]. by rw Hto.
Qed.
End conversion_laws.

(** ** Keys *)

(** Whether an object has the key: the test inside [row_matches_key]. *)
Definition has_key (key_schema : DynamoDbKeySchemaConfig) (key : gmap string Value) (object : Object) : bool :=
  forallb (λ f, opt_value_eqb (obj_get f object) (key !! f)) (key_fields key_schema).

Lemma row_matches_has_key ks key m : row_matches_key (VObject m) ks key = Ok (has_key ks key m).
Proof.
  rw /row_matches_key /has_key /key_fields /=. destruct (opt_value_eqb (obj_get (partition_key ks) m) _); [|done].
  destruct (sort_key ks) as [sk|]; [|done]. simpl. by destruct (opt_value_eqb _ _).
Qed.

(** Splitting is a partition of the rows. *)
Lemma split_rows_spec ms ks key existing retained :
  foldM (λ '(existing, retained) row,
    matches ← row_matches_key row ks key;
    Ok (if matches : bool then (match existing with None => Some row | Some _ => existing end, retained)
        else (existing, retained ++ [row]))) (existing, retained) (VObject <$> ms) =
  Ok (match existing with None => VObject <$> head (filter (λ m, has_key ks key m = true) ms) | Some _ => existing end,
      retained ++ (VObject <$> filter (λ m, has_key ks key m = false) ms)).
Proof.
  revert existing retained. induction ms as [|m ms IH]; intros existing retained; [simpl; rw app_nil_r; by destruct existing|].
  rw fmap_cons. cbn [foldM]. rw row_matches_has_key !filter_cons bind_Ok. destruct (has_key ks key m) eqn:Hm.
  - rw bind_Ok IH /=. by destruct existing.
  - rw bind_Ok IH /=. by rw -app_assoc.
Qed.

(** A write separates a table's rows by key exactly: it sees the first row with the key
    and keeps every other row in its order; rows are compared on the key fields only. *)
Lemma split_rows_by_key_exact (ms : list Object) ks key :
  split_rows_by_key (VObject <$> ms) ks key =
  Ok (VObject <$> head (filter (λ m, has_key ks key m = true) ms), VObject <$> filter (λ m, has_key ks key m = false) ms).
Proof. exact (split_rows_spec ms ks key None []). Qed.

Section key_laws.
Context `{ftl : FloatTextLaws}.

(** [key] has exactly the fields [fs], each the attribute of the object's value. *)
Record key_of (object : Object) (fs : list string) (key : Object) : Prop := {
  key_of_nodup : NoDup (obj_keys key);
  key_of_keys : ∀ f, f ∈ obj_keys key ↔ f ∈ fs;
  key_of_values : ∀ f, f ∈ fs → ∃ v a, obj_get f object = Some v ∧ json_to_dynamodb_attr v = Ok a ∧ obj_get f key = Some a;
}.

Lemma key_of_nil object : key_of object [] [].
Proof. split; [constructor|done|]. intros f Hf. by apply elem_of_nil in Hf. Qed.

Lemma append_key_of object fs key f v l :
  key_of object fs key → obj_get f object = Some v → storable v →
  ∃ key', append_key_to_map key object f l = Ok key' ∧ key_of object (fs ++ [f]) key'.
Proof.
  intros [Hnd Hk Hv] Hf Hs. rw /append_key_to_map /obj_contains. destruct (obj_get f key) as [a|] eqn:Hg.
  - exists key. split; [done|]. assert (Hin : f ∈ fs).
    { apply Hk. destruct (decide (f ∈ obj_keys key)) as [|Hn]; [done|]. by apply obj_get_None in Hn; rw Hn in Hg. }
    split; [done| |].
    + intros f'. rw Hk elem_of_app list_elem_of_singleton. naive_solver.
    + intros f' [?|?%list_elem_of_singleton]%elem_of_app; subst; by apply Hv.
  - rw Hf /=. destruct (storable_converts v Hs) as (a & Ha & _). rw Ha /=. eexists. split; [done|].
    split; [by apply obj_insert_NoDup| |].
    + intros f'. rw obj_insert_keys !elem_of_app Hk. case_decide; set_solver.
    + intros f' Hf'. rw obj_get_insert. case_decide; [subst; by exists v, a|].
      apply Hv. set_solver.
Qed.

Lemma append_key_of_many object fs key l :
  key_of object fs key → Forall (λ f, ∃ v, obj_get f.1 object = Some v ∧ storable v) l →
  ∃ key', foldM (λ key f, append_key_to_map key object f.1 f.2) key l = Ok key' ∧ key_of object (fs ++ l.*1) key'.
Proof.
  intros Hkey Hl. revert fs key Hkey. induction Hl as [|[f lab] l (v & Hv & Hs) _ IH]; intros fs key Hkey; simpl.
  - exists key. by rw app_nil_r.
  - destruct (append_key_of object fs key f v lab Hkey Hv Hs) as (key1 & -> & H1). simpl.
    destruct (IH _ _ H1) as (key' & -> & H2). exists key'. split; [done|]. by rw -app_assoc in H2.
Qed.

(** The fields with the labels of the error messages, in the order [row_to_key] visits
    them. *)
Definition labelled_key_fields (ks ts : DynamoDbKeySchemaConfig) : list (string * string) :=
  (partition_key ks, "partition") ::
  match sort_key ks with Some sk => [(sk, "sort")] | None => [] end ++
  (if decide (partition_key ts = partition_key ks) then [] else [(partition_key ts, "table partition")]) ++
  match sort_key ts with Some sk => if decide (sort_key ks = Some sk) then [] else [(sk, "table sort")] | None => [] end.

Lemma labelled_key_fields_names ks ts : (labelled_key_fields ks ts).*1 = ordered_key_fields ks ts.
Proof.
  rw /labelled_key_fields /ordered_key_fields /key_fields. destruct (sort_key ks), (sort_key ts); simpl;
    do 2 (try case_decide); done.
Qed.

Lemma bind_Ok_r {E A} (m : result E A) : (a ← m; Ok a) = m.
Proof. by destruct m. Qed.

Lemma row_to_key_fold m ks ts :
  row_to_key (VObject m) ks ts = foldM (λ key f, append_key_to_map key m f.1 f.2) [] (labelled_key_fields ks ts).
Proof.
  rw /row_to_key /labelled_key_fields. cbn [ok_or as_object foldM fst snd]. rw bind_Ok.
  destruct (append_key_to_map [] m (partition_key ks) "partition") as [key| |]; [|done..]. rw !bind_Ok foldM_app.
  destruct (sort_key ks) as [sk|]; cbn [foldM fst snd]; rw ?bind_Ok_r.
  1: destruct (append_key_to_map key m sk "sort") as [key'| |]; [|done..].
  all: rw !bind_Ok foldM_app; case_decide; cbn [foldM fst snd]; rw ?bind_Ok_r;
    (destruct (append_key_to_map _ m (partition_key ts) "table partition") as [key2| |]; [|done..]) || idtac.
  all: rw !bind_Ok; destruct (sort_key ts) as [sk2|]; [|done]; try case_decide; cbn [foldM fst snd]; by rw ?bind_Ok_r.
Qed.

Lemma size_key_of object fs key : key_of object fs key → length key = size (list_to_set fs : gset string).
Proof.
  intros [Hnd Hk _]. transitivity (size (list_to_set (obj_keys key) : gset string)).
  - by rw size_list_to_set // /obj_keys length_fmap.
  - f_equal. set_solver.
Qed.

Lemma parse_fields object fs key l parsed :
  key_of object fs key → (∀ f, f ∈ l → f ∈ fs) → (∀ f v, obj_get f object = Some v → storable v) →
  ∃ parsed', foldM (λ parsed field_name,
    match obj_get field_name key with
    | None => validation ("ExclusiveStartKey was missing key field " +:+ field_name)
    | Some value => v ← dynamodb_attr_to_json value; Ok (<[field_name := v]> parsed)
    end) (parsed : gmap string Value) l = Ok parsed' ∧
    dom parsed' = dom parsed ∪ list_to_set l ∧
    (∀ f, f ∈ l → parsed' !! f = obj_get f object) ∧ (∀ f, f ∉ l → parsed' !! f = parsed !! f).
Proof.
  intros Hkey Hl Hst. revert parsed. induction l as [|f l IH]; intros parsed; simpl.
  - exists parsed. split_and!; [done|set_solver|set_solver|done].
  - destruct (key_of_values _ _ _ Hkey f (Hl f ltac:(left))) as (v & a & Hv & Ha & Hg). rw Hg.
    destruct (storable_converts v (Hst f v Hv)) as (a' & Ha' & Hfrom). rw Ha in Ha'. injection Ha' as <-.
    rw Hfrom !bind_Ok. destruct (IH ltac:(intros; apply Hl; by right) (<[f := v]> parsed)) as (p & -> & Hd & Hin & Hout).
    exists p. split_and!; [done|rw Hd; set_solver| |].
    + intros f' [->|Hf']%elem_of_cons; [|by apply Hin]. destruct (decide (f ∈ l)); [by apply Hin|].
      rw Hout; [done|]. by rw lookup_insert_eq Hv.
    + intros f' [Hne Hf']%not_elem_of_cons. rw Hout; [done|]. rw lookup_insert_ne; [congruence|done].
Qed.
End key_laws.

(** ** Properties *)
Module DynamoAttrTheory.
Section theory.
Context `{ftl : FloatTextLaws}.

(** C29. Storing and reading are inverse: a storable value has an attribute value, and
    reading that attribute gives the value back; for a whole row the attributes that
    are null are dropped and everything else comes back in order. *)
Theorem attribute_roundtrip :
  (∀ v, storable v → ∃ a, json_to_dynamodb_attr v = Ok a ∧ dynamodb_attr_to_json a = Ok v) ∧
  (∀ m, NoDup (obj_keys m) → Forall (λ kv, storable kv.2) m →
     ∃ item, json_row_to_dynamodb_item (VObject m) = Ok item ∧
       dynamodb_item_to_json_row item = Ok (VObject (filter (λ kv, is_null kv.2 = false) m))).
Proof.
  split; [exact storable_converts|]. intros m Hnd Hm.
  set (vis := filter (λ kv, is_null kv.2 = false) m).
  assert (Hvnd : NoDup (obj_keys vis)).
  { rw /obj_keys. eapply sublist_NoDup; [exact Hnd|]. apply fmap_sublist, sublist_filter. }
  destruct (convert_fields vis Hvnd) as (m' & Hk & H2 & Hto & Hfrom).
  { apply Forall_forall. intros kv [_ Hin]%list_elem_of_filter. rw Forall_forall in Hm. by apply storable_converts, Hm. }
  exists m'. split; [|by rw /dynamodb_item_to_json_row Hfrom].
  rw /json_row_to_dynamodb_item /= -Hto /vis. clear. generalize (nil : Object) as acc.
  induction m as [|[k v] m IH]; intros acc; [done|]. cbn [foldM]. rw filter_cons. cbn [snd].
  destruct (is_null v); rw ?bind_Ok; simpl; [apply IH|]. destruct (json_to_dynamodb_attr v); simpl; [apply IH|done..].
Qed.

(** Paging keys survive the trip through the client: when a row has all key
    fields with storable values, the key reported for it exists, and given back as the
    exclusive start key it is accepted and yields exactly the row's key values. *)
Theorem start_key_roundtrip (object : Object) ks ts :
  (∀ f v, obj_get f object = Some v → storable v) →
  (∀ f, f ∈ ordered_key_fields ks ts → is_Some (obj_get f object)) →
  ∃ key parsed, row_to_key (VObject object) ks ts = Ok key ∧ parse_exclusive_start_key_map key ks ts = Ok parsed ∧
    dom parsed = list_to_set (ordered_key_fields ks ts) ∧ ∀ f, f ∈ ordered_key_fields ks ts → parsed !! f = obj_get f object.
Proof.
  intros Hst Hall. destruct (append_key_of_many object [] [] (labelled_key_fields ks ts)) as (key & Hrow & Hkey).
  { apply key_of_nil. }
  { apply Forall_forall. intros f Hf. destruct (Hall f.1) as [v Hv]; [|by eauto].
    rw -labelled_key_fields_names. by apply list_elem_of_fmap_2. }
  rw -row_to_key_fold in Hrow. rw app_nil_l labelled_key_fields_names in Hkey.
  destruct (parse_fields object _ key (ordered_key_fields ks ts) ∅ Hkey) as (parsed & Hp & Hd & Hin & _); [done|done|].
  exists key, parsed. split_and!; [done| |set_solver|done].
  rw /parse_exclusive_start_key_map Hp bind_Ok (size_key_of _ _ _ Hkey) -size_dom Hd.
  rw dom_empty_L union_empty_l_L Nat.eqb_refl //.
Qed.
End theory.

End DynamoAttrTheory.

(** ** Examples *)
Module DynamoAttrDemo.
Import DynamoAttrTheory.

(** A way to print doubles: mantissa and exponent. *)
Export FloatTextDemo.

Definition demo_item : Object :=
  [("pk", VString "a"); ("n", VNumber (NegInt (-7))); ("x", VNull);
   ("price", VNumber (NFloat (mkF64 3 (-1)))); ("tags", tagged DYNAMODB_STRING_SET_MARKER (json_strings ["u"; "v"]));
   ("nested", VObject [("l", VArray [VBool true; tagged DYNAMODB_BINARY_MARKER (VString "AAA=")])])].

Lemma demo_item_storable : Forall (λ kv, storable kv.2) demo_item.
Proof.
  apply Forall_cons; split; [constructor|]. apply Forall_cons; split; [by constructor|].
  apply Forall_cons; split; [constructor|]. apply Forall_cons; split; [by constructor|].
  apply Forall_cons; split; [apply (storable_string_set ["u"; "v"])|].
  apply Forall_cons; split; [|constructor].
  apply storable_object; [compute_done|repeat constructor; compute_done|].
  apply Forall_cons; split; [|constructor].
  apply storable_array. apply Forall_cons; split; [constructor|].
  apply Forall_cons; split; [apply storable_binary|constructor].
Qed.

Lemma attribute_roundtrip_witness :
  ∃ item, json_row_to_dynamodb_item (VObject demo_item) = Ok item ∧
    dynamodb_item_to_json_row item = Ok (VObject (filter (λ kv, is_null kv.2 = false) demo_item)).
Proof. apply (proj2 attribute_roundtrip demo_item); [compute_done|exact demo_item_storable]. Defined.

Definition demo_keys : DynamoDbKeySchemaConfig := mkKeySchema "pk" (Some "n").
Definition demo_index : DynamoDbKeySchemaConfig := mkKeySchema "tags" (Some "pk").

Lemma start_key_roundtrip_witness :
  ∃ key parsed, row_to_key (VObject demo_item) demo_index demo_keys = Ok key ∧
    parse_exclusive_start_key_map key demo_index demo_keys = Ok parsed ∧
    dom parsed = list_to_set (ordered_key_fields demo_index demo_keys) ∧
    ∀ f, f ∈ ordered_key_fields demo_index demo_keys → parsed !! f = obj_get f demo_item.
Proof.
  apply start_key_roundtrip.
  - intros f v Hf%obj_get_elem. pose proof demo_item_storable as Hs. rw Forall_forall in Hs. exact (Hs _ Hf).
  - intros f. vm_compute (ordered_key_fields _ _). intros Hf.
    repeat (apply elem_of_cons in Hf as [->|Hf]; [eexists; reflexivity|]). by apply elem_of_nil in Hf.
Defined.

(** A map of the client with a key that is a marker changes its type on the way. *)
Theorem marker_key_changes_type :
  ∃ v, dynamodb_attr_to_json (tagged "M" (VObject [("$binary", tagged "S" (VString "x"))])) = Ok v ∧
    json_to_dynamodb_attr v = Ok (tagged "B" (VString "x")).
Proof. eexists. split; vm_compute; reflexivity. Qed.
End DynamoAttrDemo.
