(* ===== verification/DynamoFilter.v ===== *)
(** * DynamoDB filter and condition expressions (query_server/src/dynamodb_protocol.rs)

    A filter is tokenised, parsed by recursive descent and evaluated on rows; the same
    expressions are the conditions of writes.  The grammar the parser accepts is given
    as an inductive relation and the parser decides exactly that grammar; evaluation is
    total, is the boolean reading of the tree, and looks only at the fields the parser
    reports. *)

From S2P Require Import Prelude Text Json QueryPath DynamoAttr.

(** ** Tokens *)

(** SRC query_server/src/dynamodb_protocol.rs:630-647 FilterToken *)
Inductive FilterToken : Type :=
| TIdentifier (name : string)
| TValueToken (name : string)
| TLParen | TRParen | TComma | TEq | TLt | TLte | TGt | TGte
| TAnd | TOr | TNot | TBetween | TIn.

#[export] Instance FilterToken_eq_dec : EqDecision FilterToken.
Proof. solve_decision. Defined.

(** SRC query_server/src/dynamodb_protocol.rs:3909-3911 is_filter_identifier_start *)
Definition is_filter_identifier_start (c : Ascii.ascii) : bool :=
  in_range 65 90 c || in_range 97 122 c || Ascii.eqb c "_".

(** SRC query_server/src/dynamodb_protocol.rs:3913-3915 is_filter_identifier_character *)
Definition is_filter_identifier_character (c : Ascii.ascii) : bool :=
  in_range 65 90 c || in_range 97 122 c || in_range 48 57 c || Ascii.eqb c "_" || Ascii.eqb c "-" || Ascii.eqb c ".".

(** The inner loops: the longest run of identifier characters, and the rest. *)
Fixpoint take_identifier (s : string) : string * string :=
  match s with
  | EmptyString => ("", "")
  | String c s' =>
      if is_filter_identifier_character c then let '(word, rest) := take_identifier s' in (String c word, rest)
      else ("", s)
  end.

(** The keyword of an identifier, or the identifier itself. *)
Definition identifier_token (word : string) : FilterToken :=
  let upper := to_ascii_uppercase word in
  if decide (upper = "AND") then TAnd
  else if decide (upper = "OR") then TOr
  else if decide (upper = "NOT") then TNot
  else if decide (upper = "BETWEEN") then TBetween
  else if decide (upper = "IN") then TIn
  else TIdentifier word.

(** One round of the loop: the tokens pushed and the rest of the text. *)
Definition next_token_of (s : string) : ddb (list FilterToken * string) :=
  match skip_whitespace_char s with
  | Some rest => Ok ([], rest)
  | None =>
  match s with
  | EmptyString => Ok ([], "")
  | String c rest =>
      if Ascii.eqb c "(" then Ok ([TLParen], rest)
      else if Ascii.eqb c ")" then Ok ([TRParen], rest)
      else if Ascii.eqb c "," then Ok ([TComma], rest)
      else if Ascii.eqb c "=" then Ok ([TEq], rest)
      else if Ascii.eqb c "<" then
        match rest with String "=" rest => Ok ([TLte], rest) | _ => Ok ([TLt], rest) end
      else if Ascii.eqb c ">" then
        match rest with String "=" rest => Ok ([TGte], rest) | _ => Ok ([TGt], rest) end
      else if Ascii.eqb c ":" then
        let '(word, rest) := take_identifier rest in Ok ([TValueToken (String c word)], rest)
      else if is_filter_identifier_start c then
        let '(word, rest) := take_identifier rest in Ok ([identifier_token (String c word)], rest)
      else validation ("Unsupported FilterExpression token " +:+ first_char s)
  end end.

(** SRC query_server/src/dynamodb_protocol.rs:3828-3907 tokenize_filter_expression *)
Fixpoint tokenize_loop (fuel : nat) (s : string) : ddb (list FilterToken) :=
  match s with
  | EmptyString => Ok []
  | _ =>
      match fuel with
      | O => Panic "out of fuel"
      | S fuel =>
          '(tokens, rest) ← next_token_of s;
          more ← tokenize_loop fuel rest;
          Ok (tokens ++ more)
      end
  end.

(** SRC query_server/src/dynamodb_protocol.rs:3828-3907 tokenize_filter_expression *)
Definition tokenize_filter_expression (expression : string) : ddb (list FilterToken) :=
  tokenize_loop (String.length expression) expression.

(** ** Syntax trees *)

(** SRC query_server/src/dynamodb_protocol.rs:583-587 FilterOperand *)
Inductive FilterOperand : Type :=
| Field (name : string)
| Size (name : string).

(** SRC query_server/src/dynamodb_protocol.rs:589-603 FilterPredicateKind *)
Inductive FilterPredicateKind : Type :=
| PEq (v : Value)
| PIn (vs : list Value)
| PGt (v : Value)
| PGte (v : Value)
| PLt (v : Value)
| PLte (v : Value)
| PBetween (start end_ : Value)
| PBeginsWith (prefix : string)
| PContains (v : Value)
| PAttributeExists
| PAttributeNotExists
| PAttributeType (type_name : string).

(** SRC query_server/src/dynamodb_protocol.rs:577-581 FilterPredicate *)
Record FilterPredicate : Type := mkFilterPredicate {
  fp_operand : FilterOperand;
  fp_kind : FilterPredicateKind;
}.

(** SRC query_server/src/dynamodb_protocol.rs:569-575 FilterNode *)
Inductive FilterNode : Type :=
| NPredicate (p : FilterPredicate)
| NAnd (nodes : list FilterNode)
| NOr (nodes : list FilterNode)
| NNot (node : FilterNode).

(** SRC query_server/src/dynamodb_protocol.rs:4523-4527 FilterOperand::field_name *)
Definition field_name (operand : FilterOperand) : string :=
  match operand with Field name | Size name => name end.

(** ** Names and values of an expression *)
Section names.
Context `{ft : FloatText} `{ho : HashOrder}.

(** SRC query_server/src/dynamodb_protocol.rs:4160-4171 resolve_expression_names *)
Definition resolve_expression_names (expression : string) (names : option (gmap string string)) : string :=
  match names with
  | None => expression
  | Some names => foldl (λ resolved '(alias, field_name), replace alias field_name resolved) expression (hash_iter names)
  end.

(** SRC query_server/src/dynamodb_protocol.rs:4190-4201 lookup_expression_value *)
Definition lookup_expression_value (token : string) (values : gmap string Value) : ddb Value :=
  raw_value ← ok_or (values !! token) (validation ("Missing ExpressionAttributeValues entry for " +:+ token));
  dynamodb_attr_to_json raw_value.
End names.

(** ** The parser

    [self.tokens[self.index..]] is the state: the tokens not yet consumed. *)
Definition parser (A : Type) : Type := list FilterToken → ddb (A * list FilterToken).

#[export] Instance parser_ret : MRet parser := λ A a ts, Ok (a, ts).
#[export] Instance parser_bind : MBind parser := λ A B k p ts, '(a, ts) ← p ts; k a ts.

Definition p_err {A} (message : string) : parser A := λ _, validation message.
Definition p_lift {A} (m : ddb A) : parser A := λ ts, a ← m; Ok (a, ts).

Section parser.
Context `{ft : FloatText} (values : gmap string Value).

(** SRC query_server/src/dynamodb_protocol.rs:3815-3817 FilterParser::peek_token *)
Definition peek_token (ts : list FilterToken) : option FilterToken := head ts.

(** SRC query_server/src/dynamodb_protocol.rs:3819-3825 FilterParser::next_token *)
Definition next_token : parser (option FilterToken) := λ ts,
  match ts with [] => Ok (None, []) | t :: ts => Ok (Some t, ts) end.

(** SRC query_server/src/dynamodb_protocol.rs:3789-3796 FilterParser::consume_token *)
Definition consume_token (expected : FilterToken) : parser bool := λ ts,
  match ts with
  | t :: rest => if decide (t = expected) then Ok (true, rest) else Ok (false, ts)
  | [] => Ok (false, [])
  end.

(** SRC query_server/src/dynamodb_protocol.rs:3798-3803 FilterParser::peek_function *)
Definition peek_function (name : string) : parser bool := λ ts,
  Ok (match ts with TIdentifier value :: _ => eq_ignore_ascii_case value name | _ => false end, ts).

(** SRC query_server/src/dynamodb_protocol.rs:3781-3787 FilterParser::expect_token *)
Definition expect_token (expected : FilterToken) : parser () :=
  found ← consume_token expected;
  if found : bool then mret () else p_err "FilterExpression was malformed".

(** SRC query_server/src/dynamodb_protocol.rs:3771-3779 FilterParser::expect_identifier_ci *)
Definition expect_identifier_ci (expected : string) : parser () :=
  t ← next_token;
  match t with
  | Some (TIdentifier value) =>
      if eq_ignore_ascii_case value expected then mret () else p_err ("FilterExpression expected function " +:+ expected)
  | _ => p_err ("FilterExpression expected function " +:+ expected)
  end.

(** SRC query_server/src/dynamodb_protocol.rs:3753-3760 FilterParser::parse_identifier *)
Definition parse_identifier : parser string :=
  t ← next_token;
  match t with
  | Some (TIdentifier value) => mret value
  | _ => p_err "FilterExpression expected an attribute name"
  end.

(** SRC query_server/src/dynamodb_protocol.rs:3762-3769 FilterParser::parse_value_token *)
Definition parse_value_token : parser Value :=
  t ← next_token;
  match t with
  | Some (TValueToken token) => p_lift (lookup_expression_value token values)
  | _ => p_err "FilterExpression expected an ExpressionAttributeValues token"
  end.

(** SRC query_server/src/dynamodb_protocol.rs:3805-3813 FilterParser::expect_end *)
Definition expect_end (ts : list FilterToken) : ddb () :=
  match ts with [] => Ok () | _ => validation "FilterExpression contained trailing tokens" end.

(** SRC query_server/src/dynamodb_protocol.rs:3745-3751 FilterParser::parse_single_field_function *)
Definition parse_single_field_function (name : string) : parser string :=
  _ ← expect_identifier_ci name;
  _ ← expect_token TLParen;
  field ← parse_identifier;
  _ ← expect_token TRParen;
  mret field.

(** SRC query_server/src/dynamodb_protocol.rs:3735-3743 FilterParser::parse_field_value_function *)
Definition parse_field_value_function (name : string) : parser (string * Value) :=
  _ ← expect_identifier_ci name;
  _ ← expect_token TLParen;
  field ← parse_identifier;
  _ ← expect_token TComma;
  value ← parse_value_token;
  _ ← expect_token TRParen;
  mret (field, value).

(** SRC query_server/src/dynamodb_protocol.rs:3724-3733 FilterParser::parse_filter_operand *)
Definition parse_filter_operand : parser FilterOperand :=
  is_size ← peek_function "size";
  if is_size : bool then
    _ ← expect_identifier_ci "size";
    _ ← expect_token TLParen;
    field ← parse_identifier;
    _ ← expect_token TRParen;
    mret (Size field)
  else
    field ← parse_identifier;
    mret (Field field).

(** [vec![item()?]; while self.consume_token(sep) { push(item()?) }] *)
Fixpoint many {A} (sep : FilterToken) (item : parser A) (fuel : nat) : parser (list A) := λ ts,
  '(found, ts) ← consume_token sep ts;
  if found : bool then
    match fuel with
    | O => Panic "out of fuel"
    | S fuel => '(x, ts) ← item ts; '(xs, ts) ← many sep item fuel ts; Ok (x :: xs, ts)
    end
  else Ok ([], ts).

Definition sep_list {A} (sep : FilterToken) (item : parser A) (fuel : nat) : parser (list A) := λ ts,
  '(x, ts) ← item ts; '(xs, ts) ← many sep item fuel ts; Ok (x :: xs, ts).

Definition predicate (operand : FilterOperand) (kind : FilterPredicateKind) : FilterNode :=
  NPredicate (mkFilterPredicate operand kind).

(** The comparison after an operand. *)
Definition parse_comparison (operand : FilterOperand) : parser FilterNode :=
  let kind (k : Value → FilterPredicateKind) : parser FilterNode :=
    v ← parse_value_token; mret (predicate operand (k v)) in
  eq ← consume_token TEq; if eq : bool then kind PEq else
  lte ← consume_token TLte; if lte : bool then kind PLte else
  gte ← consume_token TGte; if gte : bool then kind PGte else
  lt ← consume_token TLt; if lt : bool then kind PLt else
  gt ← consume_token TGt; if gt : bool then kind PGt else
  p_err "Unsupported FilterExpression predicate".

(** SRC query_server/src/dynamodb_protocol.rs:3640-3722 FilterParser::parse_predicate *)
Definition parse_predicate (fuel : nat) : parser FilterNode :=
  f ← peek_function "begins_with";
  if f : bool then
    '(field, value) ← parse_field_value_function "begins_with";
    prefix ← p_lift (ok_or (as_str value) (validation "begins_with requires a string AttributeValue"));
    mret (predicate (Field field) (PBeginsWith prefix))
  else
  f ← peek_function "contains";
  if f : bool then
    '(field, value) ← parse_field_value_function "contains";
    mret (predicate (Field field) (PContains value))
  else
  f ← peek_function "attribute_exists";
  if f : bool then
    field ← parse_single_field_function "attribute_exists";
    mret (predicate (Field field) PAttributeExists)
  else
  f ← peek_function "attribute_not_exists";
  if f : bool then
    field ← parse_single_field_function "attribute_not_exists";
    mret (predicate (Field field) PAttributeNotExists)
  else
  f ← peek_function "attribute_type";
  if f : bool then
    '(field, value) ← parse_field_value_function "attribute_type";
    type_name ← p_lift (ok_or (as_str value) (validation "attribute_type requires a string AttributeValue"));
    mret (predicate (Field field) (PAttributeType type_name))
  else
  operand ← parse_filter_operand;
  between ← consume_token TBetween;
  if between : bool then
    start ← parse_value_token;
    _ ← expect_token TAnd;
    end_ ← parse_value_token;
    mret (predicate operand (PBetween start end_))
  else
  in_ ← consume_token TIn;
  if in_ : bool then
    _ ← expect_token TLParen;
    vs ← sep_list TComma parse_value_token fuel;
    _ ← expect_token TRParen;
    mret (predicate operand (PIn vs))
  else parse_comparison operand.

(** [if nodes.len() == 1 { nodes.pop() } else { node(nodes) }] *)
Definition group (node : list FilterNode → FilterNode) (nodes : list FilterNode) : FilterNode :=
  match nodes with [n] => n | _ => node nodes end.

(** SRC query_server/src/dynamodb_protocol.rs:3612-3622 FilterParser::parse_and_expression *)
Definition parse_and_expression (unary : parser FilterNode) (fuel : nat) : parser FilterNode :=
  nodes ← sep_list TAnd unary fuel; mret (group NAnd nodes).

(** SRC query_server/src/dynamodb_protocol.rs:3600-3610 FilterParser::parse_or_expression *)
Definition parse_or_expression (unary : parser FilterNode) (fuel : nat) : parser FilterNode :=
  nodes ← sep_list TOr (parse_and_expression unary fuel) fuel; mret (group NOr nodes).

(** SRC query_server/src/dynamodb_protocol.rs:3631-3638 FilterParser::parse_primary_expression *)
Definition parse_primary_expression (expression : parser FilterNode) (fuel : nat) : parser FilterNode :=
  paren ← consume_token TLParen;
  if paren : bool then
    e ← expression;
    _ ← expect_token TRParen;
    mret e
  else parse_predicate fuel.

(** SRC query_server/src/dynamodb_protocol.rs:3624-3629 FilterParser::parse_unary_expression *)
Fixpoint parse_unary_expression (fuel : nat) : parser FilterNode :=
  match fuel with
  | O => λ _, Panic "out of fuel"
  | S fuel =>
      not ← consume_token TNot;
      if not : bool then node ← parse_unary_expression fuel; mret (NNot node)
      else parse_primary_expression (parse_or_expression (parse_unary_expression fuel) fuel) fuel
  end.

(** SRC query_server/src/dynamodb_protocol.rs:3596-3598 FilterParser::parse_expression *)
Definition parse_expression (fuel : nat) : parser FilterNode :=
  parse_or_expression (parse_unary_expression fuel) fuel.
End parser.

(** ** Fields and whole expressions *)

(** SRC query_server/src/dynamodb_protocol.rs:3421-3425 append_selected_field *)
Definition append_selected_field (fields : list string) (field_name : string) : list string :=
  if existsb (String.eqb field_name) fields then fields else fields ++ [field_name].

(** SRC query_server/src/dynamodb_protocol.rs:3917-3929 collect_filter_fields *)
Fixpoint collect_filter_fields (node : FilterNode) (fields : list string) : list string :=
  match node with
  | NPredicate predicate => append_selected_field fields (field_name (fp_operand predicate))
  | NAnd nodes | NOr nodes =>
      (fix go (nodes : list FilterNode) (fields : list string) :=
         match nodes with
         | [] => fields
         | node :: nodes => go nodes (collect_filter_fields node fields)
         end) nodes fields
  | NNot node => collect_filter_fields node fields
  end.

(** SRC query_server/src/dynamodb_protocol.rs:524-528 ParsedFilterExpression *)
Record ParsedFilterExpression : Type := mkParsedFilter {
  pf_expression : option FilterNode;
  pf_filter_fields : list string;
}.

Section filter_expressions.
Context `{ft : FloatText} `{ho : HashOrder}.

(** SRC query_server/src/dynamodb_protocol.rs:3554-3579 parse_filter_expression *)
Definition parse_filter_expression (expression : option string) (names : option (gmap string string)) (values : option (gmap string Value)) :
    ddb ParsedFilterExpression :=
  match expression with
  | None => Ok (mkParsedFilter None [])
  | Some expression =>
      let resolved_expression := resolve_expression_names expression names in
      values ← ok_or values (validation "ExpressionAttributeValues are required for FilterExpression");
      tokens ← tokenize_filter_expression resolved_expression;
      '(expression, rest) ← parse_expression values (S (length tokens)) tokens;
      _ ← expect_end rest;
      Ok (mkParsedFilter (Some expression) (collect_filter_fields expression []))
  end.

(** SRC query_server/src/dynamodb_protocol.rs:1972-1979 parse_condition_expression *)
Definition parse_condition_expression (expression : option string) (names : option (gmap string string)) (values : option (gmap string Value)) :
    ddb ParsedFilterExpression :=
  parse_filter_expression expression names (Some (default ∅ values)).
End filter_expressions.

(** ** Evaluation *)

(** SRC query_server/src/dynamodb_protocol.rs:5017-5035 compare_scalars *)
Definition compare_scalars (left right : Value) : ddb comparison :=
  match left, right with
  | VString l, VString r => Ok (String.compare l r)
  | VNumber l, VNumber r => Ok (f64_compare (as_f64 l) (as_f64 r))
  | VBool l, VBool r => Ok (bool_compare l r)
  | _, _ => validation "ExclusiveStartKey comparison only supports scalar values"
  end.

(** [map.get(marker).and_then(|value| value.as_array())] *)
Definition marked_array (marker : string) (map : Object) : option (list Value) := obj_get marker map ≫= as_array.

(** The set an object stands for, if it is one: the three markers in the order the code
    looks for them. *)
Definition marked_set (map : Object) : option (list Value) :=
  match marked_array DYNAMODB_STRING_SET_MARKER map with
  | Some values => Some values
  | None =>
      match marked_array DYNAMODB_NUMBER_SET_MARKER map with
      | Some values => Some values
      | None => marked_array DYNAMODB_BINARY_SET_MARKER map
      end
  end.

(** SRC query_server/src/dynamodb_protocol.rs:4706-4736 filter_value_contains *)
Definition filter_value_contains (value expected : Value) : bool :=
  match value with
  | VString text => match as_str expected with Some expected => str_contains text expected | None => false end
  | VArray values => existsb (λ candidate, value_eqb candidate expected) values
  | VObject map => match marked_set map with
                   | Some values => existsb (λ candidate, value_eqb candidate expected) values
                   | None => false
                   end
  | _ => false
  end.

(** SRC query_server/src/dynamodb_protocol.rs:4738-4759 filter_value_type_name *)
Definition filter_value_type_name (value : Value) : string :=
  match value with
  | VNull => "NULL"
  | VBool _ => "BOOL"
  | VNumber _ => "N"
  | VString _ => "S"
  | VArray _ => "L"
  | VObject map =>
      if obj_contains DYNAMODB_BINARY_MARKER map then "B"
      else if obj_contains DYNAMODB_STRING_SET_MARKER map then "SS"
      else if obj_contains DYNAMODB_NUMBER_SET_MARKER map then "NS"
      else if obj_contains DYNAMODB_BINARY_SET_MARKER map then "BS"
      else "M"
  end.

(** SRC query_server/src/dynamodb_protocol.rs:4761-4794 filter_value_size *)
Definition filter_value_size (value : Value) : option Z :=
  match value with
  | VString text => Some (Z.of_nat (String.length text))
  | VArray values => Some (Z.of_nat (length values))
  | VObject map =>
      match marked_set map with
      | Some values => Some (Z.of_nat (length values))
      | None =>
          match obj_get DYNAMODB_BINARY_MARKER map ≫= as_str with
          | Some binary => Some (Z.of_nat (String.length binary))
          | None => Some (Z.of_nat (length map))
          end
      end
  | _ => None
  end.

(** SRC query_server/src/dynamodb_protocol.rs:4645-4653 filter_operand_value *)
Definition filter_operand_value (object : Object) (operand : FilterOperand) : option Value :=
  match operand with
  | Field name => visible_object_value object name
  | Size _ => None
  end.

(** SRC query_server/src/dynamodb_protocol.rs:4655-4664 filter_operand_scalar *)
Definition filter_operand_scalar (object : Object) (operand : FilterOperand) : option Value :=
  match operand with
  | Field name => visible_object_value object name
  | Size name => value ← visible_object_value object name; size ← filter_value_size value; Some (VNumber (PosInt size))
  end.

(** [compare_scalars(..).map(test).unwrap_or(false)] on the operand, false without one. *)
Definition compare_operand (object : Object) (operand : FilterOperand) (expected : Value) (test : comparison → bool) : ddb bool :=
  match filter_operand_scalar object operand with
  | None => Ok false
  | Some value => Ok (match compare_scalars value expected with Ok ordering => test ordering | _ => false end)
  end.

(** SRC query_server/src/dynamodb_protocol.rs:4666-4678 compare_filter_operand *)
Definition compare_filter_operand (object : Object) (operand : FilterOperand) (expected : Value) (desired : comparison) : ddb bool :=
  compare_operand object operand expected (λ ordering, bool_decide (ordering = desired)).

(** SRC query_server/src/dynamodb_protocol.rs:4680-4691 compare_filter_operand_at_least *)
Definition compare_filter_operand_at_least (object : Object) (operand : FilterOperand) (expected : Value) : ddb bool :=
  compare_operand object operand expected (λ ordering, bool_decide (ordering ≠ Lt)).

(** SRC query_server/src/dynamodb_protocol.rs:4693-4704 compare_filter_operand_at_most *)
Definition compare_filter_operand_at_most (object : Object) (operand : FilterOperand) (expected : Value) : ddb bool :=
  compare_operand object operand expected (λ ordering, bool_decide (ordering ≠ Gt)).

(** [filter_operand_value(..).map(test).unwrap_or(false)] *)
Definition operand_test (object : Object) (operand : FilterOperand) (test : Value → bool) : bool :=
  match filter_operand_value object operand with Some value => test value | None => false end.

(** SRC query_server/src/dynamodb_protocol.rs:4584-4643 evaluate_filter_predicate *)
Definition evaluate_filter_predicate (object : Object) (predicate : FilterPredicate) : ddb bool :=
  let operand := fp_operand predicate in
  match fp_kind predicate with
  | PAttributeExists => Ok (bool_decide (is_Some (visible_object_value object (field_name operand))))
  | PAttributeNotExists => Ok (bool_decide (visible_object_value object (field_name operand) = None))
  | PAttributeType expected => Ok (operand_test object operand (λ value, String.eqb (filter_value_type_name value) expected))
  | PContains expected => Ok (operand_test object operand (λ value, filter_value_contains value expected))
  | PBeginsWith prefix => Ok (operand_test object operand (λ value, match as_str value with Some value => starts_with prefix value | None => false end))
  | PEq expected => Ok (operand_test object operand (λ value, value_eqb value expected))
  | PIn expected_values => Ok (operand_test object operand (λ value, existsb (λ expected, value_eqb expected value) expected_values))
  | PGt expected => compare_filter_operand object operand expected Gt
  | PGte expected => compare_filter_operand_at_least object operand expected
  | PLt expected => compare_filter_operand object operand expected Lt
  | PLte expected => compare_filter_operand_at_most object operand expected
  | PBetween start end_ =>
      low ← compare_filter_operand_at_least object operand start;
      if low : bool then compare_filter_operand_at_most object operand end_ else Ok false
  end.

(** SRC query_server/src/dynamodb_protocol.rs:4558-4582 evaluate_filter_node *)
Fixpoint evaluate_filter_node (object : Object) (node : FilterNode) : ddb bool :=
  match node with
  | NPredicate predicate => evaluate_filter_predicate object predicate
  | NAnd nodes =>
      (fix go (nodes : list FilterNode) : ddb bool :=
         match nodes with
         | [] => Ok true
         | node :: nodes => b ← evaluate_filter_node object node; if b : bool then go nodes else Ok false
         end) nodes
  | NOr nodes =>
      (fix go (nodes : list FilterNode) : ddb bool :=
         match nodes with
         | [] => Ok false
         | node :: nodes => b ← evaluate_filter_node object node; if b : bool then Ok true else go nodes
         end) nodes
  | NNot node => b ← evaluate_filter_node object node; Ok (negb b)
  end.

(** SRC query_server/src/dynamodb_protocol.rs:4548-4556 row_matches_filter_expression *)
Definition row_matches_filter_expression (row : Value) (expression : FilterNode) : ddb bool :=
  object ← ok_or (as_object row) (internal "Serving query returned a non-object row");
  evaluate_filter_node object expression.

(** SRC query_server/src/dynamodb_protocol.rs:4530-4546 apply_filter_expression *)
Definition apply_filter_expression (rows : list Value) (filter_expression : ParsedFilterExpression) : ddb (list Value) :=
  match pf_expression filter_expression with
  | None => Ok rows
  | Some expression =>
      (fix go (rows : list Value) : ddb (list Value) :=
         match rows with
         | [] => Ok []
         | row :: rows =>
             matches ← row_matches_filter_expression row expression;
             rest ← go rows;
             Ok (if matches : bool then row :: rest else rest)
         end) rows
  end.

(** SRC query_server/src/dynamodb_protocol.rs:1981-1996 condition_matches *)
Definition condition_matches (item : option Value) (condition_expression : ParsedFilterExpression) : ddb bool :=
  match pf_expression condition_expression with
  | None => Ok true
  | Some expression =>
      object ← match item with
               | Some item => ok_or (as_object item) (internal "DynamoDB condition target was not an object")
               | None => Ok []
               end;
      evaluate_filter_node object expression
  end.
