(* ===== verification/DynamoFilterTheory.v ===== *)
(** * Theory of DynamoDB filter expressions

    The grammar, that the parser accepts exactly it and always returns, that rendering
    the tokens of an expression and tokenising again is the identity, and that
    evaluation is total, depends on the reported fields only and, for rows that store items
    of the attributes [Attribute] and conditions in its scope, decides what the condition
    says of the item ([satisfied]). *)

From S2P Require Import Prelude Text Json QueryPath DynamoAttr DynamoFilter.

(** ** The grammar *)

(** Pieces of tokens between separators, each related to an element. *)
Inductive sep_g {A} (sep : FilterToken) (R : list FilterToken → A → Prop) : list FilterToken → list A → Prop :=
| sep_one ts x : R ts x → sep_g sep R ts [x]
| sep_more ts x ts' xs : R ts x → sep_g sep R ts' xs → sep_g sep R (ts ++ sep :: ts') (x :: xs).

Section grammar.
Context `{ft : FloatText} (values : gmap string Value).

Definition function_names : list string :=
  ["begins_with"; "contains"; "attribute_exists"; "attribute_not_exists"; "attribute_type"].

Definition is_word (word : string) (id : string) : Prop := eq_ignore_ascii_case id word = true.
Definition not_word (id word : string) : Prop := eq_ignore_ascii_case id word = false.

(** An operand is an attribute, whose name is not that of a function, or its size. *)
Inductive operand_g : list FilterToken → FilterOperand → Prop :=
| operand_field id : Forall (not_word id) ("size" :: function_names) → operand_g [TIdentifier id] (Field id)
| operand_size f id : is_word "size" f → operand_g [TIdentifier f; TLParen; TIdentifier id; TRParen] (Size id).

Inductive value_g : list FilterToken → Value → Prop :=
| value_token t v : lookup_expression_value t values = Ok v → value_g [TValueToken t] v.

Inductive comparison_g : FilterToken → (Value → FilterPredicateKind) → Prop :=
| cmp_eq : comparison_g TEq PEq
| cmp_lt : comparison_g TLt PLt
| cmp_lte : comparison_g TLte PLte
| cmp_gt : comparison_g TGt PGt
| cmp_gte : comparison_g TGte PGte.

(** The call of a function on an attribute, and on an attribute and a value. *)
Definition call1 (f id : string) : list FilterToken := [TIdentifier f; TLParen; TIdentifier id; TRParen].
Definition call2 (f id t : string) : list FilterToken := [TIdentifier f; TLParen; TIdentifier id; TComma; TValueToken t; TRParen].

Inductive predicate_g : list FilterToken → FilterNode → Prop :=
| g_begins_with f id t p :
    is_word "begins_with" f → lookup_expression_value t values = Ok (VString p) →
    predicate_g (call2 f id t) (predicate (Field id) (PBeginsWith p))
| g_contains f id t v :
    is_word "contains" f → lookup_expression_value t values = Ok v →
    predicate_g (call2 f id t) (predicate (Field id) (PContains v))
| g_exists f id : is_word "attribute_exists" f → predicate_g (call1 f id) (predicate (Field id) PAttributeExists)
| g_not_exists f id : is_word "attribute_not_exists" f → predicate_g (call1 f id) (predicate (Field id) PAttributeNotExists)
| g_type f id t p :
    is_word "attribute_type" f → lookup_expression_value t values = Ok (VString p) →
    predicate_g (call2 f id t) (predicate (Field id) (PAttributeType p))
| g_between ts op a va b vb :
    operand_g ts op → lookup_expression_value a values = Ok va → lookup_expression_value b values = Ok vb →
    predicate_g (ts ++ [TBetween; TValueToken a; TAnd; TValueToken b]) (predicate op (PBetween va vb))
| g_in ts op ts' vs :
    operand_g ts op → sep_g TComma value_g ts' vs →
    predicate_g (ts ++ TIn :: TLParen :: ts' ++ [TRParen]) (predicate op (PIn vs))
| g_compare ts op tok kind t v :
    operand_g ts op → comparison_g tok kind → lookup_expression_value t values = Ok v →
    predicate_g (ts ++ [tok; TValueToken t]) (predicate op (kind v)).

(** [AND] binds tighter than [OR], [NOT] tighter than both. *)
Definition and_g (unary : list FilterToken → FilterNode → Prop) (ts : list FilterToken) (n : FilterNode) : Prop :=
  ∃ ns, sep_g TAnd unary ts ns ∧ n = group NAnd ns.
Definition or_g (unary : list FilterToken → FilterNode → Prop) (ts : list FilterToken) (n : FilterNode) : Prop :=
  ∃ ns, sep_g TOr (and_g unary) ts ns ∧ n = group NOr ns.

Inductive unary_g : list FilterToken → FilterNode → Prop :=
| g_not ts n : unary_g ts n → unary_g (TNot :: ts) (NNot n)
| g_paren ts n : or_g unary_g ts n → unary_g (TLParen :: ts ++ [TRParen]) n
| g_predicate ts n : predicate_g ts n → unary_g ts n.

Definition filter_grammar : list FilterToken → FilterNode → Prop := or_g unary_g.
End grammar.

(** ** What the parser's pieces accept *)

Lemma parser_bind_inv {A B} (p : parser A) (k : A → parser B) ts b rest :
  (p ≫= k) ts = Ok (b, rest) → ∃ a ts1, p ts = Ok (a, ts1) ∧ k a ts1 = Ok (b, rest).
Proof. rw {1}/mbind /parser_bind. destruct (p ts) as [[a ts1]| |]; naive_solver. Qed.

Lemma parser_bind_step {A B} (p : parser A) (k : A → parser B) ts a ts1 :
  p ts = Ok (a, ts1) → (p ≫= k) ts = k a ts1.
Proof. intros Hp. by rw {1}/mbind /parser_bind Hp. Qed.

Lemma parser_ret_inv {A} (a : A) ts b rest : mret (M:=parser) a ts = Ok (b, rest) → b = a ∧ rest = ts.
Proof. rw /mret /parser_ret. naive_solver. Qed.

Lemma p_err_inv {A} m ts (r : A * list FilterToken) : p_err m ts = Ok r → False.
Proof. done. Qed.

Lemma p_lift_inv {A} (m : ddb A) ts a rest : p_lift m ts = Ok (a, rest) → m = Ok a ∧ rest = ts.
Proof. rw /p_lift. destruct m; naive_solver. Qed.

Lemma ok_or_inv {A} (o : option A) e a : ok_or o (validation e) = Ok a → o = Some a.
Proof. destruct o; naive_solver. Qed.

Lemma consume_token_inv t ts b rest :
  consume_token t ts = Ok (b, rest) → (b = true ∧ ts = t :: rest) ∨ (b = false ∧ rest = ts ∧ head ts ≠ Some t).
Proof. destruct ts as [|t' ts]; simpl; [naive_solver|]. case_decide; naive_solver. Qed.

Lemma consume_token_hit t ts : consume_token t (t :: ts) = Ok (true, ts).
Proof. simpl. by rw decide_True. Qed.

Lemma consume_token_miss t ts : head ts ≠ Some t → consume_token t ts = Ok (false, ts).
Proof. destruct ts; simpl; [done|]. intros Hne. rw decide_False; [congruence|done]. Qed.

Lemma expect_token_inv t ts u rest : expect_token t ts = Ok (u, rest) → ts = t :: rest.
Proof.
  rw /expect_token. intros (b & ts1 & Hc & Hk)%parser_bind_inv.
  apply consume_token_inv in Hc as [[-> ->]|(-> & -> & _)]; [by apply parser_ret_inv in Hk as [_ ->]|done].
Qed.

Lemma expect_token_hit t ts : expect_token t (t :: ts) = Ok ((), ts).
Proof. rw /expect_token. by rw (parser_bind_step _ _ _ _ _ (consume_token_hit t ts)). Qed.

Lemma parse_identifier_inv ts id rest : parse_identifier ts = Ok (id, rest) → ts = TIdentifier id :: rest.
Proof.
  rw /parse_identifier. intros (t & ts1 & Hn & Hk)%parser_bind_inv.
  destruct ts as [|t' ts]; simpl in Hn; simplify_eq; try done. destruct t'; try done.
  by apply parser_ret_inv in Hk as [-> ->].
Qed.

Lemma parse_value_token_inv `{FloatText} values ts v rest :
  parse_value_token values ts = Ok (v, rest) → ∃ t, ts = TValueToken t :: rest ∧ lookup_expression_value t values = Ok v.
Proof.
  rw /parse_value_token. intros (t & ts1 & Hn & Hk)%parser_bind_inv.
  destruct ts as [|t' ts]; simpl in Hn; simplify_eq; try done. destruct t'; try done.
  apply p_lift_inv in Hk as [? ->]. eauto.
Qed.

Lemma parse_value_token_hit `{FloatText} values t ts v :
  lookup_expression_value t values = Ok v → parse_value_token values (TValueToken t :: ts) = Ok (v, ts).
Proof. intros Hv. rw /parse_value_token (parser_bind_step _ _ _ (Some (TValueToken t)) ts) //. by rw /p_lift Hv. Qed.

Lemma expect_identifier_ci_inv w ts u rest :
  expect_identifier_ci w ts = Ok (u, rest) → ∃ f, ts = TIdentifier f :: rest ∧ is_word w f.
Proof.
  rw /expect_identifier_ci. intros (t & ts1 & Hn & Hk)%parser_bind_inv.
  destruct ts as [|t' ts]; simpl in Hn; simplify_eq; try done. destruct t' as [f| | | | | | | | | | | | | |]; try done.
  destruct (eq_ignore_ascii_case f w) eqn:Hw; [|done]. apply parser_ret_inv in Hk as [_ ->]. eauto.
Qed.

Lemma peek_function_inv w ts b rest :
  peek_function w ts = Ok (b, rest) →
  rest = ts ∧ b = match ts with TIdentifier f :: _ => eq_ignore_ascii_case f w | _ => false end.
Proof. rw /peek_function. naive_solver. Qed.

(** Inverts a successful run of a parser into the tokens it consumed. *)
Ltac parse_inv :=
  repeat match goal with
  | H : (_ ≫= _) _ = Ok (_, _) |- _ => apply parser_bind_inv in H as (? & ? & ? & H); cbv beta in H
  | H : peek_function _ _ = Ok (_, _) |- _ => apply peek_function_inv in H as [-> H]
  | H : expect_token _ _ = Ok (_, _) |- _ => apply expect_token_inv in H; subst
  | H : parse_identifier _ = Ok (_, _) |- _ => apply parse_identifier_inv in H; subst
  | H : parse_value_token _ _ = Ok (_, _) |- _ => apply parse_value_token_inv in H as (? & H & ?); subst
  | H : expect_identifier_ci _ _ = Ok (_, _) |- _ => apply expect_identifier_ci_inv in H as (? & H & ?); subst
  | H : p_lift _ _ = Ok (_, _) |- _ => apply p_lift_inv in H as [H ->]
  | H : ok_or _ (validation _) = Ok _ |- _ => apply ok_or_inv in H
  | H : mret _ _ = Ok (_, _) |- _ => apply parser_ret_inv in H as [H ->]; simplify_eq
  | H : p_err _ _ = Ok _ |- _ => by apply p_err_inv in H
  | H : as_str ?v = Some _ |- _ => is_var v; destruct v; try discriminate H; injection H as ->
  end.

(** ** Soundness: what is accepted is in the grammar *)

(** [p] accepts only texts of [R] and stops where [follow] holds. *)
Definition sound {A} (p : parser A) (R : list FilterToken → A → Prop) (follow : list FilterToken → Prop) : Prop :=
  ∀ ts x rest, p ts = Ok (x, rest) → ∃ pre, ts = pre ++ rest ∧ R pre x ∧ follow rest.

(** The next token is not [t]. *)
Definition not_next (t : FilterToken) (rest : list FilterToken) : Prop := head rest ≠ Some t.

Section soundness.
Context `{ft : FloatText} (values : gmap string Value).

Lemma parse_call1_inv w ts id rest :
  parse_single_field_function w ts = Ok (id, rest) → ∃ f, ts = call1 f id ++ rest ∧ is_word w f.
Proof. rw /parse_single_field_function. intros H. parse_inv. eauto. Qed.

Lemma parse_call2_inv w ts id v rest :
  parse_field_value_function values w ts = Ok ((id, v), rest) →
  ∃ f t, ts = call2 f id t ++ rest ∧ is_word w f ∧ lookup_expression_value t values = Ok v.
Proof. rw /parse_field_value_function. intros H. parse_inv. simplify_eq. eauto 6. Qed.

Lemma parse_operand_sound ts op rest :
  parse_filter_operand ts = Ok (op, rest) →
  (∀ f ts', ts = TIdentifier f :: ts' → Forall (not_word f) function_names) →
  ∃ pre, ts = pre ++ rest ∧ operand_g pre op.
Proof.
  rw /parse_filter_operand. intros (b & ts1 & [-> Hb]%peek_function_inv & H)%parser_bind_inv Hf. destruct b.
  - parse_inv. eexists [_; _; _; _]. split; [reflexivity|]. by constructor.
  - parse_inv. eexists [_]. split; [reflexivity|]. constructor. constructor; [done|]. by eapply Hf.
Qed.

Lemma parse_comparison_sound op ts n rest :
  parse_comparison values op ts = Ok (n, rest) →
  ∃ tok kind t v, ts = tok :: TValueToken t :: rest ∧ comparison_g tok kind ∧ lookup_expression_value t values = Ok v ∧ n = predicate op (kind v).
Proof.
  rw /parse_comparison. intros H.
  repeat (apply parser_bind_inv in H as (? & ? & Hc & H);
    apply consume_token_inv in Hc as [[-> ->]|(-> & -> & _)]; [parse_inv; by eexists _, _, _, _; repeat constructor|]).
  by apply p_err_inv in H.
Qed.

Lemma many_sound {A} sep (item : parser A) R follow fuel ts xs rest :
  sound item R follow → follow ts → many sep item fuel ts = Ok (xs, rest) →
  not_next sep rest ∧ follow rest ∧ (xs = [] ∧ rest = ts ∨ ∃ pre, ts = sep :: pre ++ rest ∧ sep_g sep R pre xs).
Proof.
  intros Hs. revert ts xs. induction fuel as [|fuel IH]; intros ts xs Hts; cbn [many];
    intros Hm; apply bind_Ok_inv in Hm as ([b ts1] & Hc & Hm);
    apply consume_token_inv in Hc as [[-> ->]|(-> & -> & Hn)]; simplify_eq; try (by eauto).
  apply bind_Ok_inv in Hm as ([x ts2] & Hi & Hm). apply bind_Ok_inv in Hm as ([xs' ts3] & Hr & [= <- <-]).
  apply Hs in Hi as (pre & -> & Hx & Hf). destruct (IH _ _ Hf Hr) as (Hn & Hfr & Hor). split_and!; [done|done|right].
  destruct Hor as [[-> ->]|(pre' & -> & Hg)].
  - exists pre. split; [done|]. by constructor.
  - exists (pre ++ sep :: pre'). split; [by rw -app_assoc|]. by constructor.
Qed.

Lemma sep_list_sound {A} sep (item : parser A) R follow fuel :
  sound item R follow → sound (sep_list sep item fuel) (sep_g sep R) (λ rest, not_next sep rest ∧ follow rest).
Proof.
  intros Hs ts xs rest Hl. apply bind_Ok_inv in Hl as ([x ts1] & Hi & Hl). apply bind_Ok_inv in Hl as ([xs' ts2] & Hm & [= <- <-]).
  apply Hs in Hi as (pre & -> & Hx & Hf). destruct (many_sound _ _ _ _ _ _ _ _ Hs Hf Hm) as (Hn & Hfr & Hor).
  destruct Hor as [[-> ->]|(pre' & -> & Hg)].
  - exists pre. split_and!; [done|by constructor|done|done].
  - exists (pre ++ sep :: pre'). split_and!; [by rw -app_assoc|by constructor|done|done].
Qed.

Lemma value_token_sound : sound (parse_value_token values) (value_g values) (λ _, True).
Proof. intros ts v rest (t & -> & Hv)%parse_value_token_inv. eexists [_]. split; [reflexivity|]. by repeat constructor. Qed.

Lemma parse_predicate_sound fuel : sound (parse_predicate values fuel) (predicate_g values) (λ _, True).
Proof.
  intros ts n rest H. rw /parse_predicate in H.
  apply parser_bind_inv in H as (b & ? & [-> H1]%peek_function_inv & H). destruct b.
  { apply parser_bind_inv in H as ([id v] & ? & Hcall & H). apply parse_call2_inv in Hcall as (f & t & -> & Hf & Hv).
    parse_inv. by eauto using predicate_g. }
  apply parser_bind_inv in H as (b & ? & [-> H2]%peek_function_inv & H). destruct b.
  { apply parser_bind_inv in H as ([id v] & ? & Hcall & H). apply parse_call2_inv in Hcall as (f & t & -> & Hf & Hv).
    parse_inv. by eauto using predicate_g. }
  apply parser_bind_inv in H as (b & ? & [-> H3]%peek_function_inv & H). destruct b.
  { apply parser_bind_inv in H as (id & ? & Hcall & H). apply parse_call1_inv in Hcall as (f & -> & Hf).
    parse_inv. by eauto using predicate_g. }
  apply parser_bind_inv in H as (b & ? & [-> H4]%peek_function_inv & H). destruct b.
  { apply parser_bind_inv in H as (id & ? & Hcall & H). apply parse_call1_inv in Hcall as (f & -> & Hf).
    parse_inv. by eauto using predicate_g. }
  apply parser_bind_inv in H as (b & ? & [-> H5]%peek_function_inv & H). destruct b.
  { apply parser_bind_inv in H as ([id v] & ? & Hcall & H). apply parse_call2_inv in Hcall as (f & t & -> & Hf & Hv).
    parse_inv. by eauto using predicate_g. }
  apply parser_bind_inv in H as (op & ts1 & Hop & H). apply parse_operand_sound in Hop as (pre & -> & Hop).
  2: { intros f ts' ->. by repeat constructor. }
  apply parser_bind_inv in H as (b & ? & Hc & H). apply consume_token_inv in Hc as [[-> ->]|(-> & -> & _)].
  { parse_inv. eexists (pre ++ [_; _; _; _]). split_and!; [by rw -app_assoc|by eapply g_between|done]. }
  apply parser_bind_inv in H as (b & ? & Hc & H). apply consume_token_inv in Hc as [[-> ->]|(-> & -> & _)].
  { apply parser_bind_inv in H as (? & ? & Hp & H). apply parser_bind_inv in H as (vs & ? & Hl & H). parse_inv.
    apply (sep_list_sound _ _ _ _ _ value_token_sound) in Hl as (pre' & -> & Hg & _).
    exists (pre ++ TIn :: TLParen :: pre' ++ [TRParen]). split_and!; [by rw -app_assoc /= -app_assoc|by eapply g_in|done]. }
  apply parse_comparison_sound in H as (tok & kind & t & v & -> & Hc & Hv & ->).
  eexists (pre ++ [_; _]). split_and!; [by rw -app_assoc|by eapply g_compare|done].
Qed.

Definition follow_and : list FilterToken → Prop := not_next TAnd.
Definition follow_or (rest : list FilterToken) : Prop := not_next TOr rest ∧ not_next TAnd rest.

Lemma and_sound unary U fuel : sound unary U (λ _, True) → sound (parse_and_expression unary fuel) (and_g U) follow_and.
Proof.
  intros Hu ts n rest (ns & ts1 & Hl & [-> ->]%parser_ret_inv)%parser_bind_inv.
  apply (sep_list_sound _ _ _ _ _ Hu) in Hl as (pre & -> & Hg & Hn & _). exists pre. by split_and!; [|exists ns|].
Qed.

Lemma or_sound unary U fuel : sound unary U (λ _, True) → sound (parse_or_expression unary fuel) (or_g U) follow_or.
Proof.
  intros Hu ts n rest (ns & ts1 & Hl & [-> ->]%parser_ret_inv)%parser_bind_inv.
  apply (sep_list_sound _ _ _ _ _ (and_sound _ _ _ Hu)) in Hl as (pre & -> & Hg & Hn). exists pre. by split_and!; [|exists ns|].
Qed.

Lemma unary_sound fuel : sound (parse_unary_expression values fuel) (unary_g values) (λ _, True).
Proof.
  induction fuel as [|fuel IH]; intros ts n rest H; cbn [parse_unary_expression] in H; [done|].
  apply parser_bind_inv in H as (b & ? & Hc & H). apply consume_token_inv in Hc as [[-> ->]|(-> & -> & _)].
  { apply parser_bind_inv in H as (n' & ? & Hn & [-> ->]%parser_ret_inv). apply IH in Hn as (pre & -> & Hg & _).
    exists (TNot :: pre). split_and!; [done|by constructor|done]. }
  rw /parse_primary_expression in H.
  apply parser_bind_inv in H as (b & ? & Hc & H). apply consume_token_inv in Hc as [[-> ->]|(-> & -> & _)].
  { apply parser_bind_inv in H as (n' & ? & Hn & H). parse_inv. apply (or_sound _ _ _ IH) in Hn as (pre & -> & Hg & _).
    exists (TLParen :: pre ++ [TRParen]). split_and!; [by rw /= -app_assoc|by constructor|done]. }
  apply parse_predicate_sound in H as (pre & -> & Hg & _). exists pre. split_and!; [done|by constructor|done].
Qed.

Lemma expression_sound n ts node : parse_expression values n ts = Ok (node, []) → filter_grammar values ts node.
Proof. intros (pre & -> & Hg & _)%(or_sound _ _ _ (unary_sound n)). by rw app_nil_r. Qed.
End soundness.

(** ** Completeness: what is in the grammar is accepted *)

(** [p] accepts every text of [R] of at most [n] tokens, whatever admissible text
    follows. *)
Definition complete {A} (n : nat) (p : parser A) (R : list FilterToken → A → Prop) (follow : list FilterToken → Prop) : Prop :=
  ∀ ts x rest, length ts ≤ n → R ts x → follow rest → p (ts ++ rest) = Ok (x, rest).

Lemma word_disjoint f w1 w2 : is_word w1 f → to_ascii_lowercase w1 ≠ to_ascii_lowercase w2 → not_word f w2.
Proof. rw /is_word /not_word /eq_ignore_ascii_case. intros ->%String.eqb_eq Hne. by apply String.eqb_neq. Qed.

Lemma peek_function_hit w f ts : is_word w f → peek_function w (TIdentifier f :: ts) = Ok (true, TIdentifier f :: ts).
Proof. rw /peek_function. by intros ->. Qed.
Lemma peek_function_miss w f ts : not_word f w → peek_function w (TIdentifier f :: ts) = Ok (false, TIdentifier f :: ts).
Proof. rw /peek_function. by intros ->. Qed.
Lemma expect_identifier_ci_hit w f ts : is_word w f → expect_identifier_ci w (TIdentifier f :: ts) = Ok ((), ts).
Proof. intros Hw. rw /expect_identifier_ci. by rw (parser_bind_step _ _ _ (Some (TIdentifier f)) ts) //= Hw. Qed.
Lemma parse_identifier_hit id ts : parse_identifier (TIdentifier id :: ts) = Ok (id, ts).
Proof. done. Qed.
Lemma p_lift_hit {A} (m : ddb A) a ts : m = Ok a → p_lift m ts = Ok (a, ts).
Proof. by intros ->. Qed.
Lemma consume_token_other t t' ts : t' ≠ t → consume_token t (t' :: ts) = Ok (false, t' :: ts).
Proof. intros Hne. by apply consume_token_miss; simpl; congruence. Qed.

Create HintDb parse.
#[export] Hint Resolve consume_token_hit expect_token_hit parse_value_token_hit peek_function_hit peek_function_miss expect_identifier_ci_hit
  parse_identifier_hit p_lift_hit : parse.
#[export] Hint Extern 1 (consume_token _ (_ :: _) = _) => (apply consume_token_other; discriminate) : parse.
#[export] Hint Extern 1 (peek_function _ _ = _) => (apply peek_function_miss; eapply word_disjoint; [eassumption|discriminate]) : parse.

(** Runs the first parser of a sequence whose result a hint knows. *)
Ltac parse_step := erewrite parser_bind_step; [|solve [eauto with parse nocore]]; cbv beta iota.

Section completeness.
Context `{ft : FloatText} (values : gmap string Value).

Lemma call1_complete w f id rest : is_word w f → 
  parse_single_field_function w (TIdentifier f :: TLParen :: TIdentifier id :: TRParen :: rest) = Ok (id, rest).
Proof. intros Hw. rw /parse_single_field_function. by repeat parse_step. Qed.

Lemma call2_complete w f id t v rest :
  is_word w f → lookup_expression_value t values = Ok v →
  parse_field_value_function values w (TIdentifier f :: TLParen :: TIdentifier id :: TComma :: TValueToken t :: TRParen :: rest) = Ok ((id, v), rest).
Proof. intros Hw Hv. rw /parse_field_value_function. by repeat parse_step. Qed.
Hint Resolve call1_complete call2_complete : parse.

Lemma operand_complete ts op rest : operand_g ts op → parse_filter_operand (ts ++ rest) = Ok (op, rest).
Proof.
  intros [id [Hs _]%Forall_cons|f id Hf]; rw /parse_filter_operand; simpl app.
  - by repeat parse_step.
  - by repeat parse_step.
Qed.

(** An operand does not look like a function call. *)
Lemma operand_not_function ts op : operand_g ts op → ∃ f ts', ts = TIdentifier f :: ts' ∧ Forall (not_word f) function_names.
Proof.
  intros [id [_ Hf]%Forall_cons|f id Hf]; [by eauto|]. eexists _, _. split; [done|].
  apply Forall_forall. intros w Hw. apply (word_disjoint f "size"); [done|].
  repeat (apply elem_of_cons in Hw as [->|Hw]; [discriminate|]). by apply elem_of_nil in Hw.
Qed.

Lemma many_complete {A} sep (item : parser A) n R (follow : list FilterToken → Prop) fuel ts xs rest :
  complete n item R follow → (∀ r, follow (sep :: r)) → length ts ≤ n → length ts ≤ fuel →
  sep_g sep R ts xs → follow rest → not_next sep rest → many sep item (S fuel) (sep :: ts ++ rest) = Ok (xs, rest).
Proof.
  intros Hc Hsep Hn Hf Hg Hrest Hnext. revert fuel Hn Hf.
  induction Hg as [ts x Hx|ts x ts' xs Hx Hg IH]; intros fuel Hn Hf; cbn [many]; rw consume_token_hit bind_Ok.
  - rw (Hc ts x rest) // bind_Ok. destruct fuel; cbn [many]; (rw consume_token_miss; [done|]); reflexivity.
  - rw length_app /= in Hn, Hf. rw -app_assoc (Hc ts x ((sep :: ts') ++ rest)) //; [lia|apply Hsep|]. rw bind_Ok.
    destruct fuel as [|fuel]; [lia|]. cbn [app]. by rw IH; [lia|lia|].
Qed.

Lemma sep_list_complete {A} sep (item : parser A) n R (follow : list FilterToken → Prop) fuel :
  n ≤ fuel → complete n item R follow → (∀ r, follow (sep :: r)) →
  complete n (sep_list sep item fuel) (sep_g sep R) (λ rest, not_next sep rest ∧ follow rest).
Proof.
  intros Hfuel Hc Hsep ts xs rest Hn Hg [Hnext Hrest]. rw /sep_list.
  destruct Hg as [ts x Hx|ts x ts' xs Hx Hg].
  - rw (Hc ts x rest) // bind_Ok. destruct fuel; cbn [many]; (rw consume_token_miss; [done|]); reflexivity.
  - rw length_app /= in Hn. rw -app_assoc (Hc ts x ((sep :: ts') ++ rest)) //; [lia|apply Hsep|]. rw bind_Ok.
    destruct fuel as [|fuel]; [lia|]. cbn [app].
    rw (many_complete sep item n R follow fuel ts' xs rest) //; lia.
Qed.

Lemma value_token_complete n : complete n (parse_value_token values) (value_g values) (λ _, True).
Proof. intros ts v rest _ [t v' Hv] _. by apply parse_value_token_hit. Qed.

Lemma predicate_complete n : complete (S n) (parse_predicate values n) (predicate_g values) (λ _, True).
Proof.
  intros ts x rest Hn Hg _. rw /parse_predicate. destruct Hg as [f id t p Hf Hv|f id t v Hf Hv|f id Hf|f id Hf|f id t p Hf Hv|ts op a va b vb Hop Ha Hb|ts op ts' vs Hop Hvs|ts op tok kind t v Hop Hk Hv].
  1-5: rw /call1 /call2; cbn [app]; repeat parse_step; done.
  all: destruct (operand_not_function _ _ Hop) as (f & ts0 & Hts & Hnf); rw !Forall_cons in Hnf; destruct_and! Hnf.
  all: rw -app_assoc; rw {1}Hts; cbn [app]; do 5 parse_step; rw app_comm_cons -Hts.
  all: rw (parser_bind_step _ _ _ _ _ (operand_complete _ _ _ Hop)); cbn [app].
  - by repeat parse_step.
  - rw length_app /= length_app /= in Hn. do 3 parse_step. rw -app_assoc.
    assert (Hl : sep_list TComma (parse_value_token values) n (ts' ++ [TRParen] ++ rest) = Ok (vs, TRParen :: rest)).
    { apply (sep_list_complete TComma _ n (value_g values) (λ _, True)); [done|apply value_token_complete|done|lia|done|].
      split; [discriminate|done]. }
    erewrite parser_bind_step; [|exact Hl]. reflexivity.
  - destruct Hk; do 2 parse_step; rw /parse_comparison; by repeat parse_step.
Qed.

Lemma and_complete n unary U :
  complete n unary U (λ _, True) → complete n (parse_and_expression unary n) (and_g U) follow_and.
Proof.
  intros Hu ts x rest Hn (ns & Hg & ->) Hr.
  rw /parse_and_expression (parser_bind_step _ _ _ ns rest) //.
  by apply (sep_list_complete TAnd _ n U (λ _, True)).
Qed.

Lemma or_complete n unary U :
  complete n unary U (λ _, True) → complete n (parse_or_expression unary n) (or_g U) follow_or.
Proof.
  intros Hu ts x rest Hn (ns & Hg & ->) Hr.
  rw /parse_or_expression (parser_bind_step _ _ _ ns rest) //.
  apply (sep_list_complete TOr _ n (and_g U) follow_and); [done|by apply and_complete|by intros|done|done|done].
Qed.

Lemma complete_le {A} n n' (p : parser A) R follow : n' ≤ n → complete n p R follow → complete n' p R follow.
Proof. intros Hle Hc ts x rest Hn. apply Hc. lia. Qed.

Lemma predicate_g_head ts n : predicate_g values ts n → ∃ f ts', ts = TIdentifier f :: ts'.
Proof.
  intros [| | | | |? ? ? ? ? ? Hop|? ? ? ? Hop|? ? ? ? ? ? Hop]; [by eexists _, _..| | |];
    destruct (operand_not_function _ _ Hop) as (f & ts1 & -> & _); by eexists _, _.
Qed.

Lemma unary_complete n : complete n (parse_unary_expression values n) (unary_g values) (λ _, True).
Proof.
  induction n as [|n IH]; intros ts x rest Hn Hg _.
  - exfalso. destruct ts; [|simpl in Hn; lia]. inversion Hg as [| |? ? Hp]; subst.
    apply predicate_g_head in Hp as (? & ? & ?). done.
  - cbn [parse_unary_expression]. destruct Hg as [ts n' Hg|ts n' Hg|ts n' Hp].
    + parse_step. simpl in Hn. rw (parser_bind_step _ _ _ n' rest) //. apply IH; [lia|done..].
    + simpl in Hn. rw length_app /= in Hn. cbn [app]. parse_step. rw /parse_primary_expression. parse_step. rw -app_assoc.
      rw (parser_bind_step _ _ _ n' ([TRParen] ++ rest)); [|by parse_step].
      apply (or_complete n _ (unary_g values)); [done|lia|done|by split].
    + destruct (predicate_g_head _ _ Hp) as (f & ts' & Hts). rw Hts. cbn [app]. parse_step. rw /parse_primary_expression. parse_step.
      rw app_comm_cons -Hts. by apply predicate_complete.
Qed.

Lemma expression_complete n : complete n (parse_expression values n) (filter_grammar values) follow_or.
Proof. apply or_complete, unary_complete. Qed.
End completeness.

(** ** The parser returns *)

Lemma p_bind_no_panic {A B} (p : parser A) (k : A → parser B) ts :
  no_panic (p ts) → (∀ a ts1, p ts = Ok (a, ts1) → no_panic (k a ts1)) → no_panic ((p ≫= k) ts).
Proof. rw {1}/mbind /parser_bind. intros Hp Hk. apply no_panic_bind; [done|]. intros [a ts1]. apply Hk. Qed.

Section totality.
Context `{ft : FloatText} (values : gmap string Value).
Hint Extern 1 (no_panic ((_ ≫= _) _)) => (apply p_bind_no_panic; [|intros ? ? ?; cbv beta iota]) : panics.

Lemma consume_token_no_panic t ts : no_panic (consume_token t ts).
Proof. destruct ts; simpl; [done|]. by case_decide. Qed.
Lemma next_token_no_panic ts : no_panic (next_token ts).
Proof. by destruct ts. Qed.
Hint Resolve consume_token_no_panic next_token_no_panic : panics.

Lemma expect_token_no_panic t ts : no_panic (expect_token t ts).
Proof. rw /expect_token. apply p_bind_no_panic; [eauto with panics|]. by intros [] ? ?. Qed.
Lemma expect_identifier_ci_no_panic w ts : no_panic (expect_identifier_ci w ts).
Proof. rw /expect_identifier_ci. apply p_bind_no_panic; [eauto with panics|]. intros [[]|] ? ?; try done. by case_match. Qed.
Lemma parse_identifier_no_panic ts : no_panic (parse_identifier ts).
Proof. rw /parse_identifier. apply p_bind_no_panic; [eauto with panics|]. by intros [[]|] ? ?. Qed.
Lemma p_lift_no_panic {A} (m : ddb A) ts : no_panic m → no_panic (p_lift m ts).
Proof. by destruct m. Qed.
Lemma lookup_expression_value_no_panic t : no_panic (lookup_expression_value t values).
Proof. rw /lookup_expression_value. destruct (values !! t); [|done]. simpl. apply dynamodb_attr_to_json_no_panic. Qed.
Lemma parse_value_token_no_panic ts : no_panic (parse_value_token values ts).
Proof.
  rw /parse_value_token. apply p_bind_no_panic; [eauto with panics|]. intros [[]|] ? ?; try done.
  apply p_lift_no_panic, lookup_expression_value_no_panic.
Qed.
Hint Resolve expect_token_no_panic expect_identifier_ci_no_panic parse_identifier_no_panic parse_value_token_no_panic p_lift_no_panic : panics.

Lemma call1_no_panic w ts : no_panic (parse_single_field_function w ts).
Proof. rw /parse_single_field_function. by eauto 20 with panics. Qed.
Lemma call2_no_panic w ts : no_panic (parse_field_value_function values w ts).
Proof. rw /parse_field_value_function. by eauto 20 with panics. Qed.
Lemma parse_filter_operand_no_panic ts : no_panic (parse_filter_operand ts).
Proof. rw /parse_filter_operand. apply p_bind_no_panic; [done|]. intros [] ? ?; eauto 20 with panics. Qed.
Lemma parse_comparison_no_panic op ts : no_panic (parse_comparison values op ts).
Proof.
  rw /parse_comparison.
  repeat (apply p_bind_no_panic; [eauto with panics|]; intros [] ? ?; [eauto with panics|]). done.
Qed.
Hint Resolve call1_no_panic call2_no_panic parse_filter_operand_no_panic parse_comparison_no_panic : panics.

Lemma parse_filter_operand_shrinks ts op rest : parse_filter_operand ts = Ok (op, rest) → length rest ≤ length ts.
Proof.
  rw /parse_filter_operand. intros (b & ts1 & [-> Hb]%peek_function_inv & H)%parser_bind_inv.
  destruct b; parse_inv; simpl; lia.
Qed.

(** A list needs as many rounds as it has separators. *)
Lemma many_no_panic {A} sep (item : parser A) n R follow fuel ts :
  sound item R follow → (∀ ts, length ts < n → no_panic (item ts)) → length ts < n → length ts ≤ fuel →
  no_panic (many sep item fuel ts).
Proof.
  intros Hs Hi. revert ts. induction fuel as [|fuel IH]; intros ts Hn Hf; cbn [many].
  { destruct ts; [done|simpl in Hf; lia]. }
  apply no_panic_bind; [apply consume_token_no_panic|]. intros [b ts1] Hc.
  apply consume_token_inv in Hc as [[-> ->]|(-> & -> & _)]; [|done]. simpl in Hn, Hf.
  apply no_panic_bind; [apply Hi; lia|]. intros [x ts2] Hx. apply Hs in Hx as (pre & -> & _).
  rw length_app in Hn, Hf. apply no_panic_bind; [apply IH; lia|]. by intros [? ?].
Qed.

Lemma sep_list_no_panic {A} sep (item : parser A) n R follow fuel ts :
  sound item R follow → (∀ ts, length ts < n → no_panic (item ts)) → length ts < n → length ts ≤ fuel →
  no_panic (sep_list sep item fuel ts).
Proof.
  intros Hs Hi Hn Hf. rw /sep_list. apply no_panic_bind; [by apply Hi|]. intros [x ts1] Hx.
  apply Hs in Hx as (pre & -> & _). rw length_app in Hn, Hf.
  apply no_panic_bind; [by apply (many_no_panic _ _ n R follow); [..|lia|lia]|]. by intros [? ?].
Qed.

Lemma parse_predicate_no_panic n ts : length ts ≤ n → no_panic (parse_predicate values n ts).
Proof.
  intros Hn. rw /parse_predicate.
  apply p_bind_no_panic; [done|]. intros [] ? [-> _]%peek_function_inv; [apply p_bind_no_panic; [eauto with panics|]; intros [? []] ? ?; eauto with panics|].
  apply p_bind_no_panic; [done|]. intros [] ? [-> _]%peek_function_inv; [apply p_bind_no_panic; [eauto with panics|]; intros [? []] ? ?; eauto with panics|].
  apply p_bind_no_panic; [done|]. intros [] ? [-> _]%peek_function_inv; [eauto with panics|].
  apply p_bind_no_panic; [done|]. intros [] ? [-> _]%peek_function_inv; [eauto with panics|].
  apply p_bind_no_panic; [done|]. intros [] ? [-> _]%peek_function_inv; [apply p_bind_no_panic; [eauto with panics|]; intros [? []] ? ?; eauto with panics|].
  apply p_bind_no_panic; [eauto with panics|]. intros op ts1 Hop%parse_filter_operand_shrinks.
  apply p_bind_no_panic; [eauto with panics|]. intros b ts2 [[-> _]|(-> & -> & _)]%consume_token_inv; [eauto 10 with panics|].
  apply p_bind_no_panic; [eauto with panics|]. intros b ts2 [[-> ->]|(-> & -> & _)]%consume_token_inv; [|eauto with panics].
  apply p_bind_no_panic; [eauto with panics|]. intros ? ts3 ->%expect_token_inv. simpl in Hop.
  apply p_bind_no_panic; [|eauto with panics].
  apply (sep_list_no_panic _ _ (S n) (value_g values) (λ _, True)); [apply value_token_sound|eauto with panics|lia|lia].
Qed.

Lemma expression_no_panic n unary U ts :
  sound unary U (λ _, True) → (∀ ts, length ts < n → no_panic (unary ts)) → length ts < n →
  no_panic (parse_or_expression unary n ts).
Proof.
  intros Hs Hu Hn. rw /parse_or_expression. apply p_bind_no_panic; [|done].
  apply (sep_list_no_panic _ _ n (and_g U) follow_and); [by apply and_sound| |done|lia].
  intros ts' Hn'. rw /parse_and_expression. apply p_bind_no_panic; [|done].
  by apply (sep_list_no_panic _ _ n U (λ _, True)); [..|lia].
Qed.

Lemma unary_no_panic n ts : length ts < n → no_panic (parse_unary_expression values n ts).
Proof.
  revert ts. induction n as [|n IH]; intros ts Hn; [lia|]. cbn [parse_unary_expression].
  apply p_bind_no_panic; [eauto with panics|]. intros b ts1 [[-> ->]|(-> & -> & _)]%consume_token_inv.
  { simpl in Hn. apply p_bind_no_panic; [apply IH; lia|done]. }
  rw /parse_primary_expression. apply p_bind_no_panic; [eauto with panics|].
  intros b ts1 [[-> ->]|(-> & -> & _)]%consume_token_inv; [|apply parse_predicate_no_panic; lia].
  simpl in Hn. apply p_bind_no_panic; [|eauto with panics].
  apply (expression_no_panic n _ (unary_g values)); [apply unary_sound|done|lia].
Qed.

Lemma parse_expression_no_panic ts : no_panic (parse_expression values (S (length ts)) ts).
Proof. apply (expression_no_panic _ _ (unary_g values)); [apply unary_sound|apply unary_no_panic|lia]. Qed.
End totality.

(** ** Tokens and text *)

Definition render_token (t : FilterToken) : string :=
  match t with
  | TIdentifier name | TValueToken name => name
  | TLParen => "(" | TRParen => ")" | TComma => ","
  | TEq => "=" | TLt => "<" | TLte => "<=" | TGt => ">" | TGte => ">="
  | TAnd => "AND" | TOr => "OR" | TNot => "NOT" | TBetween => "BETWEEN" | TIn => "IN"
  end.

(** An expression as text: every token and a space. *)
Definition render (ts : list FilterToken) : string := foldr (λ t s, render_token t +:+ String " " s) "" ts.

Fixpoint identifier_characters (s : string) : bool :=
  match s with EmptyString => true | String c s => is_filter_identifier_character c && identifier_characters s end.

(** A name the tokeniser can produce: not a keyword, and made of name characters. *)
Definition token_ok (t : FilterToken) : Prop :=
  match t with
  | TIdentifier name =>
      identifier_token name = TIdentifier name ∧
      match name with String c w => is_filter_identifier_start c = true ∧ identifier_characters w = true | EmptyString => False end
  | TValueToken name => match name with String c w => c = ":"%char ∧ identifier_characters w = true | EmptyString => False end
  | _ => True
  end.

Lemma take_identifier_spec w rest :
  identifier_characters w = true → take_identifier (w +:+ String " " rest) = (w, String " " rest).
Proof.
  induction w as [|c w IH]; [done|]. rw str_app_cons. simpl. intros [Hc Hw]%andb_true_iff. by rw Hc IH.
Qed.

Lemma take_identifier_length s : String.length (take_identifier s).2 ≤ String.length s.
Proof.
  induction s as [|c s IH]; simpl; [done|]. case_match; [|simpl; lia]. destruct (take_identifier s). simpl in *. lia.
Qed.

Lemma identifier_start_spec c :
  is_filter_identifier_start c = true →
  (32 < byte c < 128)%N ∧ Ascii.eqb c "(" = false ∧ Ascii.eqb c ")" = false ∧ Ascii.eqb c "," = false ∧ Ascii.eqb c "=" = false ∧
  Ascii.eqb c "<" = false ∧ Ascii.eqb c ">" = false ∧ Ascii.eqb c ":" = false.
Proof.
  rw /is_filter_identifier_start !orb_true_iff !in_range_spec Ascii.eqb_eq. intros Hc.
  assert (Hb : (65 ≤ byte c ≤ 122)%N) by (destruct Hc as [[?|?]| ->]; [lia|lia|done]).
  split; [lia|]. split_and!; apply Ascii.eqb_neq; intros ->; by apply (proj1 Hb).
Qed.

Lemma next_token_render t s : token_ok t → next_token_of (render_token t +:+ String " " s) = Ok ([t], String " " s).
Proof.
  destruct t as [name|name| | | | | | | | | | | | |]; simpl; intros Ht; try reflexivity.
  1: destruct Ht as [Hid Ht]; destruct name as [|c w]; [done|]; destruct Ht as [Hc Hw]; rw str_app_cons.
  1: {
    destruct (identifier_start_spec c Hc) as (Hb & H1 & H2 & H3 & H4 & H5 & H6 & H7).
    rw /next_token_of skip_whitespace_printable; [done|]. rw H1 H2 H3 H4 H5 H6 H7 Hc take_identifier_spec; [done|]. by rw Hid. }
  1: { destruct name as [|c w]; [done|]. destruct Ht as [-> Hw]. rw str_app_cons /next_token_of skip_whitespace_printable; [done|].
    simpl. by rw take_identifier_spec. }
  all: by rw str_app_cons /next_token_of skip_whitespace_printable.
Qed.

Lemma render_token_nonempty t : token_ok t → ∃ c w, render_token t = String c w.
Proof. destruct t as [[]|[]| | | | | | | | | | | | |]; simpl; try naive_solver. Qed.

Lemma tokenize_render ts fuel : Forall token_ok ts → String.length (render ts) ≤ fuel → tokenize_loop fuel (render ts) = Ok ts.
Proof.
  intros Hts. revert fuel. induction Hts as [|t ts Ht _ IH]; intros fuel Hf; [by destruct fuel|].
  pose proof (next_token_render t (render ts) Ht) as Hnext. destruct (render_token_nonempty t Ht) as (c & w & Hr).
  simpl in Hf. rw str_length_app Hr /= in Hf. destruct fuel as [|[|fuel]]; [lia|lia|].
  cbn [tokenize_loop]. simpl render. rw Hnext Hr str_app_cons. cbn [tokenize_loop]. rw !bind_Ok.
  rw IH //. lia.
Qed.

Lemma next_token_of_shorter s r : s ≠ "" → next_token_of s = Ok r → String.length r.2 < String.length s.
Proof.
  rw /next_token_of. destruct (skip_whitespace_char s) as [s'|] eqn:Hs.
  { intros _ [= <-]. by apply skip_whitespace_shorter. }
  destruct s as [|c s]; [done|]. intros _. pose proof (take_identifier_length s) as Hl.
  destruct (take_identifier s) as [word rest]. simpl in Hl.
  do 4 (case_match; [intros [= <-]; simpl; lia|]).
  do 2 (case_match; [repeat case_match; intros [= <-]; simpl in *; lia|]).
  do 2 (case_match; [intros [= <-]; simpl; lia|]). done.
Qed.

Lemma next_token_of_no_panic s : no_panic (next_token_of s).
Proof.
  rw /next_token_of. destruct (skip_whitespace_char s); [done|]. destruct s as [|c s]; [done|].
  destruct (take_identifier s). by repeat case_match.
Qed.

Lemma tokenize_loop_no_panic fuel s : String.length s ≤ fuel → no_panic (tokenize_loop fuel s).
Proof.
  revert s. induction fuel as [|fuel IH]; intros s Hf; [destruct s; [done|simpl in Hf; lia]|].
  destruct (decide (s = "")) as [->|Hne]; [done|].
  assert (Hu : tokenize_loop (S fuel) s = ('(tokens, rest) ← next_token_of s; more ← tokenize_loop fuel rest; Ok (tokens ++ more))).
  { by destruct s. }
  rw Hu. apply no_panic_bind; [apply next_token_of_no_panic|]. intros [toks rest] Hn.
  apply next_token_of_shorter in Hn; [|done]. simpl in Hn.
  apply no_panic_bind; [apply IH; lia|done].
Qed.

(** ** Evaluation *)

(** The boolean reading of a tree, given the reading of its predicates. *)
Fixpoint denote (sem : FilterPredicate → bool) (node : FilterNode) : bool :=
  match node with
  | NPredicate p => sem p
  | NAnd nodes => forallb (denote sem) nodes
  | NOr nodes => existsb (denote sem) nodes
  | NNot node => negb (denote sem node)
  end.

Section node_ind.
Context (P : FilterNode → Prop).
Hypothesis HPred : ∀ p, P (NPredicate p).
Hypothesis HAnd : ∀ ns, Forall P ns → P (NAnd ns).
Hypothesis HOr : ∀ ns, Forall P ns → P (NOr ns).
Hypothesis HNot : ∀ n, P n → P (NNot n).

Fixpoint FilterNode_nested_ind (n : FilterNode) : P n :=
  let go := fix go (ns : list FilterNode) : Forall P ns :=
    match ns with [] => Forall_nil_2 P | n :: ns => Forall_cons_2 P n ns (FilterNode_nested_ind n) (go ns) end in
  match n with
  | NPredicate p => HPred p
  | NAnd ns => HAnd ns (go ns)
  | NOr ns => HOr ns (go ns)
  | NNot n => HNot n (FilterNode_nested_ind n)
  end.
End node_ind.

(** What the evaluation of a predicate computes, written without the errors it cannot have. *)
Definition evaluated (object : Object) (p : FilterPredicate) : bool :=
  let compares (o : option Value) (expected : Value) (test : comparison → bool) : bool :=
    match o with
    | Some v => match compare_scalar_values v expected with Some c => test c | None => false end
    | None => false
    end in
  let value := visible_object_value object (field_name (fp_operand p)) in
  let whole := filter_operand_value object (fp_operand p) in
  let scalar := filter_operand_scalar object (fp_operand p) in
  let satisfies (test : Value → bool) : bool := match whole with Some v => test v | None => false end in
  match fp_kind p with
  | PAttributeExists => bool_decide (is_Some value)
  | PAttributeNotExists => negb (bool_decide (is_Some value))
  | PAttributeType name => satisfies (λ v, String.eqb (filter_value_type_name v) name)
  | PContains x => satisfies (λ v, filter_value_contains v x)
  | PBeginsWith prefix => satisfies (λ v, match v with VString s => starts_with prefix s | _ => false end)
  | PEq x => satisfies (λ v, value_eqb v x)
  | PIn xs => satisfies (λ v, existsb (λ x, value_eqb x v) xs)
  | PGt x => compares scalar x (λ c, match c with Gt => true | _ => false end)
  | PGte x => compares scalar x (λ c, match c with Lt => false | _ => true end)
  | PLt x => compares scalar x (λ c, match c with Lt => true | _ => false end)
  | PLte x => compares scalar x (λ c, match c with Gt => false | _ => true end)
  | PBetween lo hi =>
      compares scalar lo (λ c, match c with Lt => false | _ => true end) &&
      compares scalar hi (λ c, match c with Gt => false | _ => true end)
  end.

Lemma compare_scalars_spec v x :
  compare_scalars v x = match compare_scalar_values v x with
                        | Some c => Ok c
                        | None => validation "ExclusiveStartKey comparison only supports scalar values"
                        end.
Proof. by destruct v, x. Qed.

(** A comparison through [compare_operand], for a test on the ordering. *)
Lemma compare_operand_spec object op x (test test' : comparison → bool) :
  (∀ c, test c = test' c) →
  compare_operand object op x test =
  Ok (match filter_operand_scalar object op with
      | Some v => match compare_scalar_values v x with Some c => test' c | None => false end
      | None => false
      end).
Proof.
  intros Ht. rw /compare_operand. destruct (filter_operand_scalar object op) as [v|]; [|done].
  rw compare_scalars_spec. destruct (compare_scalar_values v x); [by rw Ht|done].
Qed.

Lemma evaluate_predicate_spec object p : evaluate_filter_predicate object p = Ok (evaluated object p).
Proof.
  destruct p as [op kind]. rw /evaluate_filter_predicate /evaluated.
  destruct kind as [v|vs|v|v|v|v|lo hi|prefix|v| | |name]; cbn [fp_operand fp_kind]; try (by destruct op).
  - rw /compare_filter_operand /compare_filter_operand_at_least /compare_filter_operand_at_most (compare_operand_spec _ _ _ _ (λ c, match c with Gt => true | _ => false end)); [by intros []|]. by destruct op.
  - rw /compare_filter_operand /compare_filter_operand_at_least /compare_filter_operand_at_most (compare_operand_spec _ _ _ _ (λ c, match c with Lt => false | _ => true end)); [by intros []|]. by destruct op.
  - rw /compare_filter_operand /compare_filter_operand_at_least /compare_filter_operand_at_most (compare_operand_spec _ _ _ _ (λ c, match c with Lt => true | _ => false end)); [by intros []|]. by destruct op.
  - rw /compare_filter_operand /compare_filter_operand_at_least /compare_filter_operand_at_most (compare_operand_spec _ _ _ _ (λ c, match c with Gt => false | _ => true end)); [by intros []|]. by destruct op.
  - rw /compare_filter_operand_at_least /compare_filter_operand_at_most.
    rw (compare_operand_spec _ _ lo _ (λ c, match c with Lt => false | _ => true end)); [by intros []|].
    rw (compare_operand_spec _ _ hi _ (λ c, match c with Gt => false | _ => true end)); [by intros []|].
    rw bind_Ok. destruct op; cbn [filter_operand_scalar field_name];
      match goal with |- (if ?a then _ else _) = _ => by destruct a end.
  - rw /operand_test /filter_operand_value. destruct op; simpl; [|done].
    by destruct (visible_object_value object name) as [[]|].
  - f_equal. by destruct (visible_object_value object (field_name op)).
Qed.

Lemma evaluate_node_spec object node : evaluate_filter_node object node = Ok (denote (evaluated object) node).
Proof.
  induction node as [p|ns IH|ns IH|n IH] using FilterNode_nested_ind; simpl.
  - apply evaluate_predicate_spec.
  - induction IH as [|n ns Hn _ IHns]; [done|]. rw Hn bind_Ok. simpl. by destruct (denote _ n).
  - induction IH as [|n ns Hn _ IHns]; [done|]. rw Hn bind_Ok. simpl. by destruct (denote _ n).
  - by rw IH.
Qed.

(** The fields a tree mentions, in the order of first mention. *)
Fixpoint mentioned (node : FilterNode) : list string :=
  match node with
  | NPredicate p => [field_name (fp_operand p)]
  | NAnd nodes | NOr nodes => nodes ≫= mentioned
  | NNot node => mentioned node
  end.

Lemma append_selected_field_elem fields f x : x ∈ append_selected_field fields f ↔ x ∈ fields ∨ x = f.
Proof.
  rw /append_selected_field. destruct (existsb (String.eqb f) fields) eqn:He; [|set_solver].
  apply existsb_exists in He as (y & Hy%list_elem_of_In & ->%String.eqb_eq). set_solver.
Qed.

Lemma append_selected_field_NoDup fields f : NoDup fields → NoDup (append_selected_field fields f).
Proof.
  rw /append_selected_field. intros Hnd. destruct (existsb (String.eqb f) fields) eqn:He; [done|].
  apply NoDup_app. split_and!; [done| |apply NoDup_singleton]. intros x Hx ->%list_elem_of_singleton.
  apply not_true_iff_false in He. apply He, existsb_exists. exists f. by rw -list_elem_of_In String.eqb_refl.
Qed.

Lemma collect_filter_fields_spec node fields :
  NoDup fields → NoDup (collect_filter_fields node fields) ∧
  ∀ x, x ∈ collect_filter_fields node fields ↔ x ∈ fields ∨ x ∈ mentioned node.
Proof.
  revert fields. induction node as [p|ns IH|ns IH|n IH] using FilterNode_nested_ind; intros fields Hnd; simpl.
  - split; [by apply append_selected_field_NoDup|]. intros x. rw append_selected_field_elem. set_solver.
  - revert fields Hnd. induction IH as [|n ns Hn _ IHns]; intros fields Hnd; [set_solver|].
    destruct (Hn fields Hnd) as [H1 H2]. destruct (IHns _ H1) as [H3 H4]. split; [done|].
    intros x. rw H4 H2 /= elem_of_app. naive_solver.
  - revert fields Hnd. induction IH as [|n ns Hn _ IHns]; intros fields Hnd; [set_solver|].
    destruct (Hn fields Hnd) as [H1 H2]. destruct (IHns _ H1) as [H3 H4]. split; [done|].
    intros x. rw H4 H2 /= elem_of_app. naive_solver.
  - by apply IH.
Qed.

Lemma evaluated_agree o1 o2 p :
  visible_object_value o1 (field_name (fp_operand p)) = visible_object_value o2 (field_name (fp_operand p)) →
  evaluated o1 p = evaluated o2 p.
Proof. intros Hv. rw /evaluated Hv. destruct p as [[f|f] kind]; cbn in Hv |- *; by rw ?Hv. Qed.

Lemma denote_agree sem1 sem2 node :
  (∀ p, field_name (fp_operand p) ∈ mentioned node → sem1 p = sem2 p) → denote sem1 node = denote sem2 node.
Proof.
  induction node as [p|ns IH|ns IH|n IH] using FilterNode_nested_ind; simpl; intros Hs.
  - apply Hs. set_solver.
  - induction IH as [|n ns Hn _ IHns]; [done|]. simpl in *. rw Hn; [|f_equal; apply IHns]; intros; apply Hs; set_solver.
  - induction IH as [|n ns Hn _ IHns]; [done|]. simpl in *. rw Hn; [|f_equal; apply IHns]; intros; apply Hs; set_solver.
  - by rw IH.
Qed.

(** Projecting a row keeps what the projected fields show. *)
Definition project_fold (object : Object) : Object → list string → Object :=
  foldl (λ projected field,
    match visible_object_value object field with Some value => obj_insert field value projected | None => projected end).

Lemma visible_insert object k v f :
  visible_object_value (obj_insert k v object) f =
  if decide (k = f) then (if is_null v then None else Some v) else visible_object_value object f.
Proof. rw /visible_object_value obj_get_insert. by case_decide. Qed.

Lemma visible_not_null object f v : visible_object_value object f = Some v → is_null v = false.
Proof. rw /visible_object_value. repeat case_match; naive_solver. Qed.

Lemma project_visible object projection acc f :
  visible_object_value (project_fold object acc projection) f =
  if decide (f ∈ projection) then
    match visible_object_value object f with Some v => Some v | None => visible_object_value acc f end
  else visible_object_value acc f.
Proof.
  rw /project_fold. revert acc. induction projection as [|g projection IH]; intros acc; simpl foldl; [destruct (decide (f ∈ [])) as [Hx|]; [by apply elem_of_nil in Hx|done]|].
  rw IH. destruct (visible_object_value object g) as [v|] eqn:Hg.
  - rw visible_insert (visible_not_null _ _ _ Hg). destruct (decide (g = f)) as [->|Hne].
    + rw Hg. destruct (decide (f ∈ f :: projection)); [by case_decide|set_solver].
    + destruct (decide (f ∈ projection)), (decide (f ∈ g :: projection)); set_solver.
  - destruct (decide (f ∈ projection)), (decide (f ∈ g :: projection)) as [Hin|]; try set_solver.
    apply elem_of_cons in Hin as [->|]; [by rw Hg|done].
Qed.

(** ** What a filter means *)

(** The attributes of an item as DynamoDB has them, numbers being integers, and the row
    value that stands for each. *)
Inductive Attribute : Type :=
| ABool (b : bool)
| ANumber (n : Z)
| AString (s : string)
| ABinary (base64 : string)
| AStringSet (l : list string)
| ANumberSet (l : list Z)
| ABinarySet (l : list string)
| AList (l : list Attribute)
| AMap (m : list (string * Attribute)).

Fixpoint stored (a : Attribute) : Value :=
  match a with
  | ABool b => VBool b
  | ANumber n => int n
  | AString s => VString s
  | ABinary s => tagged DYNAMODB_BINARY_MARKER (VString s)
  | AStringSet l => tagged DYNAMODB_STRING_SET_MARKER (json_strings l)
  | ANumberSet l => tagged DYNAMODB_NUMBER_SET_MARKER (VArray (int <$> l))
  | ABinarySet l => tagged DYNAMODB_BINARY_SET_MARKER (json_strings l)
  | AList l => VArray (map stored l)
  | AMap m => VObject (map (λ kv, (kv.1, stored kv.2)) m)
  end.

(** Numbers a double holds, and maps without the internal markers among their keys. *)
Inductive attr_ok : Attribute → Prop :=
| ok_bool b : attr_ok (ABool b)
| ok_number n : (Z.abs n ≤ 2 ^ 53)%Z → attr_ok (ANumber n)
| ok_string s : attr_ok (AString s)
| ok_binary s : attr_ok (ABinary s)
| ok_string_set l : attr_ok (AStringSet l)
| ok_number_set l : attr_ok (ANumberSet l)
| ok_binary_set l : attr_ok (ABinarySet l)
| ok_list l : Forall attr_ok l → attr_ok (AList l)
| ok_map m : Forall (λ kv, kv.1 ∉ markers) m → attr_ok (AMap m).

Definition attr_type (a : Attribute) : string :=
  match a with
  | ABool _ => "BOOL" | ANumber _ => "N" | AString _ => "S" | ABinary _ => "B"
  | AStringSet _ => "SS" | ANumberSet _ => "NS" | ABinarySet _ => "BS" | AList _ => "L" | AMap _ => "M"
  end.

(** The length of a text, the number of members of a collection. (The size of a
    binary is its number of bytes; the conditions below leave binaries out.) *)
Inductive attr_size : Attribute → Z → Prop :=
| size_text s : attr_size (AString s) (Z.of_nat (String.length s))
| size_string_set l : attr_size (AStringSet l) (Z.of_nat (length l))
| size_number_set l : attr_size (ANumberSet l) (Z.of_nat (length l))
| size_binary_set l : attr_size (ABinarySet l) (Z.of_nat (length l))
| size_list l : attr_size (AList l) (Z.of_nat (length l))
| size_map m : attr_size (AMap m) (Z.of_nat (length m)).

Inductive attr_contains : Attribute → Attribute → Prop :=
| contains_text before s after : attr_contains (AString (before +:+ s +:+ after)) (AString s)
| contains_string l s : s ∈ l → attr_contains (AStringSet l) (AString s)
| contains_number l n : n ∈ l → attr_contains (ANumberSet l) (ANumber n)
| contains_binary l s : s ∈ l → attr_contains (ABinarySet l) (ABinary s)
| contains_member l a : a ∈ l → attr_contains (AList l) a.

(** Numbers by value, texts by their bytes, false before true. *)
Inductive attr_lt : Attribute → Attribute → Prop :=
| lt_number m n : (m < n)%Z → attr_lt (ANumber m) (ANumber n)
| lt_text s t : String.compare s t = Lt → attr_lt (AString s) (AString t)
| lt_bool : attr_lt (ABool false) (ABool true).
Definition attr_orderable (a : Attribute) : Prop := match a with ABool _ | ANumber _ | AString _ => True | _ => False end.
Definition attr_le (a b : Attribute) : Prop := attr_lt a b ∨ (attr_orderable a ∧ a = b).

(** An item, by the name of the attribute. *)
Definition Item : Type := string → option Attribute.

(** The attribute an operand denotes; the size of one is a number. *)
Inductive denotes (item : Item) : FilterOperand → Attribute → Prop :=
| denotes_field f a : item f = Some a → denotes item (Field f) a
| denotes_size f a n : item f = Some a → attr_size a n → denotes item (Size f) (ANumber n).

(** DynamoDB's reading of a condition. *)
Definition satisfied (item : Item) (p : FilterPredicate) : Prop :=
  let related (R : Attribute → Attribute → Prop) (v : Value) : Prop := ∃ a b, denotes item (fp_operand p) a ∧ v = stored b ∧ R a b in
  match fp_kind p with
  | PAttributeExists => is_Some (item (field_name (fp_operand p)))
  | PAttributeNotExists => item (field_name (fp_operand p)) = None
  | PAttributeType name => ∃ a, denotes item (fp_operand p) a ∧ attr_type a = name
  | PContains v => related attr_contains v
  | PBeginsWith prefix => ∃ rest, denotes item (fp_operand p) (AString (prefix +:+ rest))
  | PEq v => related eq v
  | PIn vs => ∃ v, v ∈ vs ∧ related eq v
  | PGt v => related (flip attr_lt) v
  | PGte v => related (flip attr_le) v
  | PLt v => related attr_lt v
  | PLte v => related attr_le v
  | PBetween lo hi => related (flip attr_le) lo ∧ related attr_le hi
  end.

Fixpoint tree_holds (sem : FilterPredicate → Prop) (node : FilterNode) : Prop :=
  match node with
  | NPredicate p => sem p
  | NAnd nodes => foldr (λ n rest, tree_holds sem n ∧ rest) True nodes
  | NOr nodes => foldr (λ n rest, tree_holds sem n ∨ rest) False nodes
  | NNot node => ¬ tree_holds sem node
  end.

(** The conditions the front end decides as DynamoDB does: equality with and membership of
    scalars, order among numbers, texts and booleans, sizes only in order comparisons and
    not of binaries, no membership in sets of binaries. *)
Definition scalar_operand (v : Value) : Prop :=
  ∃ b, v = stored b ∧ attr_ok b ∧ match b with ABool _ | ANumber _ | AString _ | ABinary _ => True | _ => False end.
Definition ordered_operand (v : Value) : Prop := ∃ b, v = stored b ∧ attr_ok b ∧ attr_orderable b.
Definition size_in_scope (item : Item) (o : FilterOperand) : Prop :=
  match o with
  | Field _ => True
  | Size f => (∀ s, item f ≠ Some (ABinary s)) ∧ ∀ a n, item f = Some a → attr_size a n → (n ≤ 2 ^ 53)%Z
  end.
Definition in_scope (item : Item) (p : FilterPredicate) : Prop :=
  match fp_kind p, fp_operand p with
  | (PGt v | PGte v | PLt v | PLte v), o => size_in_scope item o ∧ ordered_operand v
  | PBetween lo hi, o => size_in_scope item o ∧ ordered_operand lo ∧ ordered_operand hi
  | PEq v, Field _ => scalar_operand v
  | PIn vs, Field _ => Forall scalar_operand vs
  | PContains v, Field f => scalar_operand v ∧ ∀ l, item f ≠ Some (ABinarySet l)
  | (PAttributeExists | PAttributeNotExists | PAttributeType _ | PBeginsWith _), Field _ => True
  | _, Size _ => False
  end.

(** The predicates of a tree. *)
Fixpoint predicates (node : FilterNode) : list FilterPredicate :=
  match node with
  | NPredicate p => [p]
  | NAnd nodes | NOr nodes => nodes ≫= predicates
  | NNot node => predicates node
  end.

(** A row that stores what the filter looks at of an item. *)
Definition stores (item : Item) (object : Object) (f : string) : Prop :=
  visible_object_value object f = stored <$> item f ∧ ∀ a, item f = Some a → attr_ok a.

Lemma str_contains_spec s pat : str_contains s pat = true ↔ ∃ before after, s = before +:+ pat +:+ after.
Proof.
  induction s as [|c s IH]; cbn [str_contains]; rw orb_true_iff (starts_with_spec pat _ : String.prefix pat _ = true ↔ _).
  - split; [intros [[t Ht]|]; [by exists "", t|done]|]. intros (b & a & Hb). left. exists a. by destruct b.
  - rw IH. split.
    + intros [[t Ht]|(b & a & ->)]; [by exists "", t|by exists (String c b), a].
    + intros (b & a & Hb). destruct b as [|c' b]; [left; by exists a|]. injection Hb as -> ->. right. by exists b, a.
Qed.

Lemma int_eqb m n : value_eqb (int m) (int n) = true ↔ m = n.
Proof.
  rw /int /=. destruct (Z.ltb_spec m 0), (Z.ltb_spec n 0); cbn; rw ?Z.eqb_eq; try done; split; try done; lia.
Qed.

Lemma scalar_eqb a b : attr_ok a → (match b with ABool _ | ANumber _ | AString _ | ABinary _ => True | _ => False end) →
  (value_eqb (stored a) (stored b) = true ↔ a = b) ∧ (value_eqb (stored b) (stored a) = true ↔ a = b).
Proof.
  intros Ha Hb. destruct b as [b|n|s|s| | | | |]; try done.
  - destruct a; try (by split; split). cbn [stored value_eqb]. rw !eqb_true_iff. split; split; congruence.
  - destruct a; try (by split; split). cbn [stored]. rw !int_eqb. split; split; congruence.
  - destruct a; try (by split; split). cbn [stored value_eqb]. rw !String.eqb_eq. split; split; congruence.
  - destruct a as [| | | | | | | |m]; try (by split; split).
    + cbn. rw !andb_true_r !String.eqb_eq. split; split; congruence.
    + inversion Ha as [| | | | | | | |? Hm]; subst. destruct m as [|[k x] [|? m]]; [by split; split| |by split; split].
      apply Forall_cons in Hm as [Hk _]. cbn [fst] in Hk. assert (k ≠ DYNAMODB_BINARY_MARKER) by (intros ->; apply Hk; by left).
      split; split; try done; cbn; case_decide; try done; try congruence.
Qed.

Lemma string_compare_refl s : String.compare s s = Eq.
Proof. pose proof (String.compare_antisym s s) as Hc. by destruct (String.compare s s). Qed.

Lemma ordered_exact a b : attr_ok a → attr_ok b → attr_orderable b →
  (compare_scalar_values (stored a) (stored b) = Some Lt ↔ attr_lt a b) ∧
  (compare_scalar_values (stored a) (stored b) = Some Gt ↔ attr_lt b a) ∧
  (compare_scalar_values (stored a) (stored b) = Some Eq ↔ a = b).
Proof.
  intros Ha Hb Ho. destruct b as [b|n|s| | | | | |]; try done.
  - destruct a as [b'|n'|s'| | | | | |]; try (split_and!; (split; [done|by inversion 1])).
    destruct b, b'; split_and!; split; try done; try (by inversion 1); by constructor.
  - destruct a as [b'|n'|s'| | | | | |]; try (split_and!; (split; [done|by inversion 1])).
    inversion Ha; inversion Hb; subst. cbn [stored]. rw compare_int !round53_exact //.
    split_and!; (split; [intros [= Hc]|inversion 1; subst; f_equal]); [constructor; by apply Z.compare_lt_iff|by apply Z.compare_lt_iff|constructor; by apply Z.compare_gt_iff|by apply Z.compare_gt_iff|f_equal; by apply Z.compare_eq_iff|apply Z.compare_refl].
  - destruct a as [b'|n'|s'| | | | | |]; try (split_and!; (split; [done|by inversion 1])).
    cbn [stored compare_scalar_values]. split_and!; (split; [intros [= Hc]|inversion 1; subst; f_equal]); [exact (lt_text _ _ Hc)|done|apply lt_text; by rw String.compare_antisym Hc|rw String.compare_antisym; by match goal with H : String.compare _ _ = Lt |- _ => rw H end|by apply String.compare_eq_iff in Hc as ->|apply string_compare_refl].
Qed.

Lemma no_marker_key m k : Forall (λ kv : string * Attribute, kv.1 ∉ markers) m → k ∈ markers → obj_get k (map (λ kv, (kv.1, stored kv.2)) m) = None.
Proof.
  intros Hm Hk. induction Hm as [|[k' x] m Hk' _ IH]; [done|]. cbn [map fst snd obj_get]. case_decide as Hd; [|done]. subst k'. done.
Qed.

Lemma stored_size a n : attr_ok a → (∀ s, a ≠ ABinary s) → filter_value_size (stored a) = Some n ↔ attr_size a n.
Proof.
  intros Ha Hbin. destruct a as [|i| |s|l|l|l|l|m]; [| | |by destruct (Hbin s)|..]; cbn [stored filter_value_size tagged json_strings].
  - split; [done|inversion 1].
  - rw /int. split; [by case_match|inversion 1].
  - split; [intros [= <-]; constructor|by inversion 1].
  - change (marked_set _) with (Some (VString <$> l)). cbv beta iota. rw length_fmap. split; [intros [= <-]; constructor|by inversion 1].
  - change (marked_set _) with (Some (int <$> l)). cbv beta iota. rw length_fmap. split; [intros [= <-]; constructor|by inversion 1].
  - change (marked_set _) with (Some (VString <$> l)). cbv beta iota. rw length_fmap. split; [intros [= <-]; constructor|by inversion 1].
  - rw length_map. split; [intros [= <-]; constructor|by inversion 1].
  - inversion Ha as [| | | | | | | |? Hm]; subst.
    assert (Hn : ∀ k, k ∈ markers → obj_get k (map (λ kv, (kv.1, stored kv.2)) m) = None) by (intros; by apply no_marker_key).
    rw /marked_set /marked_array !Hn; [set_solver..|]. cbn. rw length_map. split; [intros [= <-]; constructor|by inversion 1].
Qed.

(** What the evaluation compares is the attribute the operand denotes. *)
Lemma operand_denotes item object o : stores item object (field_name o) → size_in_scope item o →
  (∃ a, denotes item o a ∧ attr_ok a ∧ filter_operand_scalar object o = Some (stored a) ∧ ∀ a', denotes item o a' → a' = a) ∨
  (filter_operand_scalar object o = None ∧ ∀ a, ¬ denotes item o a).
Proof.
  intros [Hv Hok] Hs. destruct o as [f|f]; cbn [field_name filter_operand_scalar] in *; rw Hv.
  - destruct (item f) as [a|] eqn:Hf; [left|right].
    + exists a. split_and!; [by constructor|by apply Hok|done|]. inversion 1; congruence.
    + split; [done|]. intros a. inversion 1; congruence.
  - destruct Hs as [Hbin Hsize]. destruct (item f) as [a|] eqn:Hf; [|right; split; [done|]; intros a; inversion 1; congruence].
    cbn. assert (Hb : ∀ s, a ≠ ABinary s) by (intros s ->; by apply (Hbin s)). specialize (Hok a eq_refl).
    destruct (filter_value_size (stored a)) as [n|] eqn:Hn; [left|right].
    + pose proof (proj1 (stored_size a n Hok Hb) Hn) as Hsz. exists (ANumber n).
      assert (0 ≤ n)%Z by (inversion Hsz; lia). pose proof (Hsize a n eq_refl Hsz).
      split_and!; [by apply (denotes_size _ _ a)|constructor; lia| |].
      * cbn. rw /int. by destruct (Z.ltb_spec n 0); [lia|].
      * intros a'. inversion 1; subst. f_equal. assert (a0 = a) as -> by congruence.
        match goal with H : attr_size a ?m |- _ => apply (stored_size a m Hok Hb) in H; congruence end.
    + split; [done|]. intros a'. inversion 1; subst. assert (a0 = a) as -> by congruence.
      match goal with H : attr_size a ?m |- _ => apply (stored_size a m Hok Hb) in H; congruence end.
Qed.

Lemma stored_orderable b b' : attr_orderable b → stored b' = stored b → b' = b.
Proof.
  intros Ho Hs. destruct b as [b|n|s| | | | | |], b' as [b'|n'|s'| | | | | |]; try done; cbn [stored] in Hs; [congruence| |congruence].
  f_equal. apply int_eqb. rw Hs. by apply int_eqb.
Qed.

Lemma compares_exact item object o v (test : comparison → bool) (R : Attribute → Attribute → Prop) :
  stores item object (field_name o) → size_in_scope item o → ordered_operand v →
  (∀ a b, attr_ok a → attr_ok b → attr_orderable b →
     (match compare_scalar_values (stored a) (stored b) with Some c => test c | None => false end) = true ↔ R a b) →
  (match filter_operand_scalar object o with
   | Some x => match compare_scalar_values x v with Some c => test c | None => false end
   | None => false
   end) = true ↔ ∃ a b, denotes item o a ∧ v = stored b ∧ R a b.
Proof.
  intros Hst Hsz (b & -> & Hb & Ho) HR. destruct (operand_denotes item object o Hst Hsz) as [(a & Ha & Hok & -> & Hu)|[-> Hn]].
  - rw (HR a b) //. split; [intros Hr; by exists a, b|]. intros (a' & b' & Ha' & Hb' & Hr). by rw -(Hu a' Ha') -(stored_orderable b b' Ho).
  - split; [done|]. intros (a & _ & Ha & _). by destruct (Hn a).
Qed.

(** The four tests on an ordering are the four order relations. *)
Lemma order_tests a b : attr_ok a → attr_ok b → attr_orderable b →
  let test (t : comparison → bool) := match compare_scalar_values (stored a) (stored b) with Some c => t c | None => false end in
  (test (λ c, match c with Gt => true | _ => false end) = true ↔ attr_lt b a) ∧
  (test (λ c, match c with Lt => false | _ => true end) = true ↔ attr_le b a) ∧
  (test (λ c, match c with Lt => true | _ => false end) = true ↔ attr_lt a b) ∧
  (test (λ c, match c with Gt => false | _ => true end) = true ↔ attr_le a b).
Proof.
  intros Ha Hb Ho. destruct (ordered_exact a b Ha Hb Ho) as (Hlt & Hgt & Heq). rw /attr_le /= -Hlt -Hgt.
  assert (Hs : (attr_orderable b ∧ b = a ↔ a = b) ∧ (attr_orderable a ∧ a = b ↔ a = b)) by (split; (split; [naive_solver|by intros ->])).
  rw (proj1 Hs) (proj2 Hs) -Heq. destruct (compare_scalar_values (stored a) (stored b)) as [[]|]; naive_solver.
Qed.

Lemma contains_exact a b : attr_ok a → attr_ok b → match b with ABool _ | ANumber _ | AString _ | ABinary _ => True | _ => False end →
  (∀ l, a ≠ ABinarySet l) → filter_value_contains (stored a) (stored b) = true ↔ attr_contains a b.
Proof.
  intros Ha Hb Hs Hbin. destruct a as [|n|s|s|l|l|l|l|m]; cbn [stored filter_value_contains tagged json_strings].
  - split; [done|inversion 1].
  - rw /int. split; [done|inversion 1].
  - destruct b as [| |t|t| | | | |]; try (split; [done|by inversion 1]). cbn [stored as_str].
    rw str_contains_spec. split; [intros (p & q & ->); constructor|inversion 1; eauto].
  - split; [done|inversion 1].
  - change (marked_set _) with (Some (VString <$> l)). cbv beta iota. rw existsb_exists. split.
    + intros (x & Hx%list_elem_of_In & He). apply list_elem_of_fmap in Hx as (t & -> & Ht).
      apply (proj1 (scalar_eqb (AString t) b (ok_string t) Hs)) in He as <-. by constructor.
    + inversion 1 as [|? t Ht| | |]; subst. exists (VString t). rw -list_elem_of_In. split; [by apply list_elem_of_fmap_2|]. apply String.eqb_refl.
  - change (marked_set _) with (Some (int <$> l)). cbv beta iota. rw existsb_exists. split.
    + intros (x & Hx%list_elem_of_In & He). apply list_elem_of_fmap in Hx as (t & -> & Ht).
      destruct b as [| |t'|t'| | | | |]; try done; cbn [stored] in He. apply int_eqb in He as ->. by constructor.
    + inversion 1 as [| |? t Ht| |]; subst. exists (int t). rw -list_elem_of_In. split; [by apply list_elem_of_fmap_2|]. by apply int_eqb.
  - by destruct (Hbin l).
  - inversion Ha as [| | | | | | |? Hl|]; subst. rw existsb_exists. rw Forall_forall in Hl. split.
    + intros (x & (y & <- & Hy)%in_map_iff & He). apply list_elem_of_In in Hy. apply (proj1 (scalar_eqb y b (Hl y Hy) Hs)) in He as <-. by constructor.
    + inversion 1; subst. exists (stored b). split; [by apply in_map, list_elem_of_In|]. by apply (proj1 (scalar_eqb b b Hb Hs)).
  - inversion Ha as [| | | | | | | |? Hm]; subst. split; [|inversion 1].
    assert (Hn : ∀ k, k ∈ markers → obj_get k (map (λ kv, (kv.1, stored kv.2)) m) = None) by (intros; by apply no_marker_key).
    rw /marked_set /marked_array !Hn; [set_solver..|]. done.
Qed.

Lemma type_exact a : attr_ok a → filter_value_type_name (stored a) = attr_type a.
Proof.
  intros Ha. destruct a as [| | | | | | | |m]; try done. inversion Ha as [| | | | | | | |? Hm]; subst.
  assert (Hn : ∀ k, k ∈ markers → obj_get k (map (λ kv, (kv.1, stored kv.2)) m) = None) by (intros; by apply no_marker_key).
  cbn [stored filter_value_type_name]. rw /obj_contains !Hn; [set_solver..|]. done.
Qed.

(** A field operand denotes the attribute whose stored form the evaluation sees. *)
Lemma field_test item object f (test : Value → bool) (R : Attribute → Prop) : stores item object f →
  (∀ a, item f = Some a → attr_ok a → test (stored a) = true ↔ R a) →
  (match filter_operand_value object (Field f) with Some v => test v | None => false end) = true ↔ ∃ a, denotes item (Field f) a ∧ R a.
Proof.
  intros [Hv Hok] HR. cbn [filter_operand_value]. rw Hv. destruct (item f) as [a|] eqn:Hf; cbn.
  - rw (HR a) //; [by apply Hok|]. split; [intros Hr; exists a; split; [by constructor|done]|].
    intros (a' & Hd & Hr). inversion Hd; subst. by replace a with a' by congruence.
  - split; [done|]. intros (a' & Hd & _). inversion Hd; congruence.
Qed.

(** Equality with a scalar. *)
Lemma equal_exact a v : attr_ok a → scalar_operand v → (value_eqb (stored a) v = true ↔ v = stored a) ∧ (value_eqb v (stored a) = true ↔ v = stored a).
Proof.
  intros Ha (b & -> & Hb & Hs). destruct (scalar_eqb a b Ha Hs) as [H1 H2]. rw H1 H2.
  enough (a = b ↔ stored b = stored a) by done. split; [by intros ->|]. intros He. apply H1. rw -He. by apply (scalar_eqb b b Hb Hs).
Qed.

Lemma related_equal item o v : (∃ a b, denotes item o a ∧ v = stored b ∧ a = b) ↔ ∃ a, denotes item o a ∧ v = stored a.
Proof. split; [intros (a & b & ? & ? & ->); by exists b|]. intros (a & ? & ?). by exists a, a. Qed.

(** What an attribute contains has one name. *)
Lemma contained_unique a b b' : attr_ok a → (∀ l, a ≠ ABinarySet l) → attr_ok b → match b with ABool _ | ANumber _ | AString _ | ABinary _ => True | _ => False end →
  attr_contains a b' → stored b' = stored b → b' = b.
Proof.
  intros Ha Hbin Hb Hs Hc He. inversion Hc; subst; [symmetry; by apply (stored_orderable (AString s) b)|symmetry; by apply (stored_orderable (AString s) b)|symmetry; by apply (stored_orderable (ANumber n) b)|by destruct (Hbin l)|].
  inversion Ha as [| | | | | | |? Hl|]; subst. rw Forall_forall in Hl. apply (scalar_eqb b' b (Hl b' H) Hs). rw He. by apply (scalar_eqb b b Hb Hs).
Qed.

(** Within its scope the evaluation decides what the condition says of the item. *)
Lemma predicate_exact item object p : stores item object (field_name (fp_operand p)) → in_scope item p →
  evaluated object p = true ↔ satisfied item p.
Proof.
  destruct p as [o kind]. rw /in_scope /evaluated /satisfied. cbn [fp_operand fp_kind]. intros Hst.
  assert (Hcmp : ∀ v test R, size_in_scope item o → ordered_operand v → _) by (intros v test R Hsz Hv; exact (compares_exact item object o v test R Hst Hsz Hv)).
  destruct kind as [v|vs|v|v|v|v|lo hi|prefix|v| | |name].
  - destruct o as [f|f]; [|done]. intros Hv. rw related_equal. apply field_test; [done|]. intros a _ Ha. apply (equal_exact a v Ha Hv).
  - destruct o as [f|f]; [|done]. intros Hvs. rw (field_test item object f _ (λ a, ∃ v, v ∈ vs ∧ v = stored a)); [done| |].
    + intros a _ Ha. rw existsb_exists. rw Forall_forall in Hvs. split.
      * intros (v & Hv%list_elem_of_In & He). exists v. split; [done|]. by apply (equal_exact a v Ha (Hvs v Hv)).
      * intros (v & Hv & He). exists v. split; [by apply list_elem_of_In|]. by apply (equal_exact a v Ha (Hvs v Hv)).
    + split; [intros (a & Ha & v & Hv & ->); exists (stored a); split; [done|]; by exists a, a|]. intros (v & Hv & a & b & Ha & -> & ->). exists b. split; [done|]. by exists (stored b).
  - intros [Hsz Hv]. apply Hcmp; [done..|]. intros a b Ha Hb Ho. apply (order_tests a b Ha Hb Ho).
  - intros [Hsz Hv]. apply Hcmp; [done..|]. intros a b Ha Hb Ho. apply (order_tests a b Ha Hb Ho).
  - intros [Hsz Hv]. apply Hcmp; [done..|]. intros a b Ha Hb Ho. apply (order_tests a b Ha Hb Ho).
  - intros [Hsz Hv]. apply Hcmp; [done..|]. intros a b Ha Hb Ho. apply (order_tests a b Ha Hb Ho).
  - intros (Hsz & Hl & Hh). rw andb_true_iff.
    apply ZifyClasses.and_morph; (apply Hcmp; [done..|]; intros a b Ha Hb Ho; apply (order_tests a b Ha Hb Ho)).
  - destruct o as [f|f]; [|done]. intros _. rw (field_test item object f (λ v, match v with VString s => starts_with prefix s | _ => false end) (λ a, ∃ rest, a = AString (prefix +:+ rest))); [done| |].
    + intros a _ Ha. destruct a as [|n| | | | | | |]; cbn [stored]; try (split; [done|by intros [? ?]]).
      rw starts_with_spec. split; intros [t Ht]; exists t; congruence.
    + split; [intros (a & Ha & t & ->); by exists t|]. intros [t Ht]. eexists. split; [exact Ht|by exists t].
  - destruct o as [f|f]; [|done]. intros [Hv Hbin]. pose proof Hv as (b & Hvb & Hb & Hs).
    rw (field_test item object f (λ x, filter_value_contains x v) (λ a, attr_contains a b)); [done| |].
    + intros a Hf Ha. rw Hvb. apply contains_exact; [done..|]. intros l ->. by apply (Hbin l).
    + split; [intros (a & Ha & Hc); by exists a, b|]. intros (a & b' & Ha & Hb' & Hc). exists a. split; [done|]. inversion Ha; subst.
      rw -(contained_unique a b b'); [by apply Hst| |done..]. intros l ->. by apply (Hbin l).
  - intros _. destruct Hst as [-> _]. by rw bool_decide_eq_true fmap_is_Some.
  - intros _. destruct Hst as [-> _]. rw negb_true_iff bool_decide_eq_false fmap_is_Some. by rw -eq_None_not_Some.
  - destruct o as [f|f]; [|done]. intros _. apply (field_test item object f (λ v, String.eqb (filter_value_type_name v) name)); [done|].
    intros a _ Ha. by rw type_exact // String.eqb_eq.
Qed.

(** The whole tree. *)
Lemma tree_exact item object node : (∀ f, f ∈ mentioned node → stores item object f) → Forall (in_scope item) (predicates node) →
  denote (evaluated object) node = true ↔ tree_holds (satisfied item) node.
Proof.
  induction node as [p|ns IH|ns IH|n IH] using FilterNode_nested_ind; cbn [mentioned predicates denote tree_holds]; intros Hst Hsc.
  - apply Forall_cons in Hsc as [Hsc _]. apply predicate_exact; [|done]. apply Hst. by left.
  - induction IH as [|n ns Hn _ IHns]; [by split|]. cbn in Hst, Hsc |- *. apply Forall_app in Hsc as [Hs1 Hs2].
    rw andb_true_iff Hn //; [set_solver|]. by rw IHns; [set_solver|done|].
  - induction IH as [|n ns Hn _ IHns]; [by split|]. cbn in Hst, Hsc |- *. apply Forall_app in Hsc as [Hs1 Hs2].
    rw orb_true_iff Hn //; [set_solver|]. by rw IHns; [set_solver|done|].
  - rw negb_true_iff -not_true_iff_false. by rw IH.
Qed.

Lemma evaluate_agree node o1 o2 : (∀ f, f ∈ collect_filter_fields node [] → visible_object_value o1 f = visible_object_value o2 f) →
  evaluate_filter_node o1 node = evaluate_filter_node o2 node.
Proof.
  intros Ha. rw !evaluate_node_spec. f_equal. apply denote_agree. intros p Hp. apply evaluated_agree, Ha.
  apply collect_filter_fields_spec; [constructor|]. by right.
Qed.

(** ** Properties *)
Module DynamoFilterTheory.
Section theory.
Context `{ft : FloatText} `{ho : HashOrder}.

(** C27. The parser decides the grammar: whatever text, names and values a request
    has, parsing returns without panicking, and it returns a filter exactly when the
    text is a sequence of tokens that the grammar reads as that filter; the fields
    reported are those of the tree. *)
Theorem filter_parser_exact text names values :
  no_panic (parse_filter_expression (Some text) names (Some values)) ∧
  ∀ pf, parse_filter_expression (Some text) names (Some values) = Ok pf ↔
    ∃ tokens node, tokenize_filter_expression (resolve_expression_names text names) = Ok tokens ∧
      filter_grammar values tokens node ∧ pf = mkParsedFilter (Some node) (collect_filter_fields node []).
Proof.
  rw /parse_filter_expression /=. split.
  - apply no_panic_bind; [by apply tokenize_loop_no_panic|]. intros tokens _.
    apply no_panic_bind; [apply parse_expression_no_panic|]. intros [node rest] _. by destruct rest.
  - intros pf. split.
    + intros Hp. apply bind_Ok_inv in Hp as (tokens & Ht & Hp). apply bind_Ok_inv in Hp as ([node rest] & He & Hp).
      destruct rest; [|done]. injection Hp as <-. exists tokens, node. split; [done|]. split; [|done].
      exact (expression_sound _ _ _ _ He).
    + intros (tokens & node & Ht & Hg & ->). rw Ht bind_Ok.
      assert (He : parse_expression values (S (length tokens)) tokens = Ok (node, [])); [|by rw He].
      rw -{2}(app_nil_r tokens). apply (expression_complete values (S (length tokens))); [lia|done|]. by split.
Qed.

(** Expressions written out parse to what they were: the text of a sequence of
    tokens that the grammar reads as a filter parses to that filter, so a sequence has
    at most one reading. *)
Theorem rendered_filter_parses tokens values node :
  Forall token_ok tokens → filter_grammar values tokens node →
  parse_filter_expression (Some (render tokens)) None (Some values) = Ok (mkParsedFilter (Some node) (collect_filter_fields node [])) ∧
  ∀ node', filter_grammar values tokens node' → node' = node.
Proof.
  intros Htok Hg.
  assert (Hp : ∀ node, filter_grammar values tokens node → parse_expression values (S (length tokens)) tokens = Ok (node, [])).
  { intros n Hn. rw -{2}(app_nil_r tokens). apply (expression_complete values (S (length tokens))); [lia|done|]. by split. }
  split.
  - rw /parse_filter_expression /= /tokenize_filter_expression tokenize_render // bind_Ok (Hp node) //.
  - intros node' Hg'. apply Hp in Hg, Hg'. rw Hg in Hg'. by injection Hg' as ->.
Qed.

(** Rows that pass a parsed filter. *)
Definition row_passes (filter_expression : ParsedFilterExpression) (m : Object) : bool :=
  match pf_expression filter_expression with Some node => denote (evaluated m) node | None => true end.

Lemma apply_filter_rows ms fe : apply_filter_expression (VObject <$> ms) fe = Ok (VObject <$> List.filter (row_passes fe) ms).
Proof.
  rw /apply_filter_expression /row_passes. destruct (pf_expression fe) as [node|].
  - induction ms as [|m ms IH]; [done|]. rw fmap_cons /row_matches_filter_expression /= evaluate_node_spec bind_Ok.
    rw /row_matches_filter_expression /= in IH. rw IH bind_Ok. by destruct (denote (evaluated m) node).
  - do 2 f_equal. induction ms as [|m ms IH]; [done|]. simpl. by f_equal.
Qed.

End theory.
End DynamoFilterTheory.

(** ** Examples *)
Module DynamoFilterDemo.
Import DynamoFilterTheory DynamoAttrDemo.

Export HashOrderDemo.
Definition backwards : HashOrder := {|
  hash_iter := λ K _ _ V m, reverse (map_to_list m);
  hash_iter_perm := λ K _ _ V m, reverse_Permutation _;
|}.

Definition demo_values : gmap string Value :=
  {[":lo" := tagged "N" (VString "1"); ":hi" := tagged "N" (VString "3"); ":p" := tagged "S" (VString "ab")]}.
Definition demo_tokens : list FilterToken :=
  [TNot; TLParen; TIdentifier "n"; TBetween; TValueToken ":lo"; TAnd; TValueToken ":hi"; TOr;
   TIdentifier "begins_with"; TLParen; TIdentifier "s"; TComma; TValueToken ":p"; TRParen; TRParen; TAnd;
   TIdentifier "size"; TLParen; TIdentifier "s"; TRParen; TGte; TValueToken ":lo"].
Definition demo_node : FilterNode :=
  NAnd [NNot (NOr [predicate (Field "n") (PBetween (int 1) (int 3)); predicate (Field "s") (PBeginsWith "ab")]);
        predicate (Size "s") (PGte (int 1))].

Lemma demo_parses : parse_expression demo_values 30 demo_tokens = Ok (demo_node, []).
Proof. vm_compute. reflexivity. Qed.

Lemma demo_grammar : filter_grammar demo_values demo_tokens demo_node.
Proof. exact (expression_sound _ _ _ _ demo_parses). Qed.

Lemma rendered_filter_parses_witness :
  parse_filter_expression (Some (render demo_tokens)) None (Some demo_values) =
    Ok (mkParsedFilter (Some demo_node) (collect_filter_fields demo_node [])).
Proof.
  refine (proj1 (rendered_filter_parses demo_tokens demo_values demo_node _ demo_grammar)).
  repeat constructor.
Defined.

Definition demo_item : Item := λ f, if decide (f = "n") then Some (ANumber 7) else if decide (f = "s") then Some (AString "xyz") else None.
Definition demo_row : Object := [("n", int 7); ("s", VString "xyz"); ("t", VNull)].


(** Binaries are stored as base64 text in an object: no order comparison holds of them, their
    size is that of the text, and a set of them contains none of its members. *)
Theorem binaries_are_out_of_scope :
  let row : Object := [("b", stored (ABinary "AQID")); ("bs", stored (ABinarySet ["AQID"]))] in
  evaluate_filter_node row (predicate (Field "b") (PGte (stored (ABinary "AQID")))) = Ok false ∧
  evaluate_filter_node row (predicate (Size "b") (PGt (int 3))) = Ok true ∧
  evaluate_filter_node row (predicate (Field "bs") (PContains (stored (ABinary "AQID")))) = Ok false.
Proof. by vm_compute. Qed.

(** The name of an attribute that is also the name of a function cannot be used, even
    through an alias, which exists for that purpose: aliases are replaced in the text
    before it is tokenised. *)
Theorem alias_of_function_name_rejected :
  parse_filter_expression (Some "#s = :lo") (Some {["#s" := "size"]}) (Some demo_values) =
  validation "FilterExpression was malformed".
Proof. vm_compute. reflexivity. Qed.

(** When an alias is a prefix of another, the order of the hash map decides what the
    expression means. *)
Theorem alias_prefix_ambiguous :
  let names : gmap string string := {["#a" := "x"; "#ab" := "y"]} in
  resolve_expression_names (ho:=in_order) "#ab = :lo" (Some names) ≠ resolve_expression_names (ho:=backwards) "#ab = :lo" (Some names).
Proof. vm_compute. discriminate. Qed.

(** A size can be compared with a bound but never equals anything. *)
Theorem size_never_equal v n :
  evaluate_filter_node [("s", VString v)] (NAnd [predicate (Size "s") (PGte (int (Z.of_nat (String.length v))));
    predicate (Size "s") (PLte (int (Z.of_nat (String.length v))))]) = Ok true ∧
  evaluate_filter_node [("s", VString v)] (predicate (Size "s") (PEq (int n))) = Ok false.
Proof.
  split; [|done]. rw evaluate_node_spec /=. rw /evaluated /=. rw /int. destruct (Z.ltb_spec (Z.of_nat (String.length v)) 0); [lia|].
  by rw /f64_compare Z.compare_refl.
Qed.
End DynamoFilterDemo.
