(* ===== verification/DynamoUpdate.v ===== *)
(** * DynamoDB update expressions (query_server/src/dynamodb_protocol.rs)

    [SET a = :x REMOVE b ADD n :d DELETE tags :t]: the text is cut into actions and
    clauses, every clause is checked against the table's schema and key, and the actions
    are applied to the item in order.  Slices of the text at a byte that is inside a
    character panic, as in Rust. *)

From S2P Require Import Prelude Text Schema Json QueryPath Float DynamoAttr DynamoFilter.

(** SRC query_server/src/dynamodb_protocol.rs:611-617 UpdateAction *)
Inductive UpdateAction : Type :=
| USet (field : string) (value : Value)
| URemove (field : string)
| UAdd (field : string) (value : Value)
| UDelete (field : string) (value : Value).

(** SRC query_server/src/dynamodb_protocol.rs:605-609 ParsedUpdateExpression *)
Record ParsedUpdateExpression : Type := mkParsedUpdate {
  pu_actions : list UpdateAction;
  pu_touched_fields : list string;
}.

(** The match of the parsing loop. *)
Definition action_field (a : UpdateAction) : string :=
  match a with USet field _ | URemove field | UAdd field _ | UDelete field _ => field end.

(** ** Cutting the text *)

(** [s.split_at(n)]: panics inside a character. *)
Definition is_char_boundary (n : nat) (s : string) : bool :=
  match str_drop n s with EmptyString => n <=? String.length s | String a _ => negb (continuation a) end.

Definition split_at (n : nat) (s : string) : ddb (string * string) :=
  if is_char_boundary n s then Ok (str_take n s, str_drop n s)
  else Panic "byte index is not a char boundary".

(** [tail.chars().next().map(char::is_whitespace).unwrap_or(true)] *)
Definition ends_word (tail : string) : bool :=
  match tail with EmptyString => true | _ => bool_decide (is_Some (skip_whitespace_char tail)) end.

Definition update_keywords : list string := ["SET"; "REMOVE"; "ADD"; "DELETE"].

(** The keyword at the start of the text, with what follows it. *)
Fixpoint leading_keyword (keywords : list string) (input : string) : ddb (option (string * string)) :=
  match keywords with
  | [] => Ok None
  | keyword :: keywords =>
      if String.length input <? String.length keyword then leading_keyword keywords input
      else
        '(head, tail) ← split_at (String.length keyword) input;
        if eq_ignore_ascii_case head keyword && ends_word tail then Ok (Some (keyword, tail))
        else leading_keyword keywords input
  end.

(** SRC query_server/src/dynamodb_protocol.rs:2167-2180 leading_update_action *)
Definition leading_update_action (input : string) : ddb (option (string * string)) :=
  found ← leading_keyword update_keywords input;
  Ok (match found with Some (keyword, tail) => Some (keyword, trim_start tail) | None => None end).

(** SRC query_server/src/dynamodb_protocol.rs:2182-2204 find_next_update_action_start *)
Fixpoint find_next_update_action_start_from (index : nat) (previous_was_whitespace : bool) (input : string) : ddb (option nat) :=
  match input with
  | EmptyString => Ok None
  | String c rest =>
      if continuation c then find_next_update_action_start_from (S index) previous_was_whitespace rest
      else
        let is_whitespace := bool_decide (is_Some (skip_whitespace_char input)) in
        if negb previous_was_whitespace then find_next_update_action_start_from (S index) is_whitespace rest
        else
          found ← leading_keyword update_keywords input;
          match found with
          | Some _ => Ok (Some index)
          | None => find_next_update_action_start_from (S index) is_whitespace rest
          end
  end.

Definition find_next_update_action_start (input : string) : ddb (option nat) :=
  find_next_update_action_start_from 0 true input.

(** SRC query_server/src/dynamodb_protocol.rs:2144-2165 split_next_update_action *)
Definition split_next_update_action (expression : string) : ddb (string * string * string) :=
  leading ← leading_update_action (trim_start expression);
  match leading with
  | None => validation "UpdateExpression must start with SET, REMOVE, ADD, or DELETE"
  | Some (action_name, remainder) =>
      next_start ← find_next_update_action_start remainder;
      let '(body, rest) := match next_start with
                           | Some index => (str_take index remainder, str_drop index remainder)
                           | None => (remainder, "")
                           end in
      if decide (trim body = "") then validation ("UpdateExpression " +:+ action_name +:+ " action must include at least one clause")
      else Ok (action_name, trim body, trim_start rest)
  end.

(** SRC query_server/src/dynamodb_protocol.rs:2206-2218 split_update_action_clauses *)
Definition split_update_action_clauses (action_body : string) : ddb (list string) :=
  let clauses := filter (λ clause, clause ≠ "") (trim <$> split_on "," action_body) in
  match clauses with
  | [] => validation "UpdateExpression action must include at least one clause"
  | _ => Ok clauses
  end.

(** ** Checking a clause *)

(** SRC query_server/src/dynamodb_protocol.rs:2532-2544 dynamodb_set_members *)
Definition dynamodb_set_members (value : Value) : option (string * list Value) :=
  object ← as_object value;
  match marked_array DYNAMODB_STRING_SET_MARKER object with
  | Some values => Some (DYNAMODB_STRING_SET_MARKER, values)
  | None =>
      match marked_array DYNAMODB_NUMBER_SET_MARKER object with
      | Some values => Some (DYNAMODB_NUMBER_SET_MARKER, values)
      | None =>
          match marked_array DYNAMODB_BINARY_SET_MARKER object with
          | Some values => Some (DYNAMODB_BINARY_SET_MARKER, values)
          | None => None
          end
      end
  end.

(** SRC query_server/src/dynamodb_protocol.rs:2546-2548 set_value *)
Definition set_value (marker : string) (values : list Value) : Value := VObject [(marker, VArray values)].

Definition is_number (v : Value) : bool := match v with VNumber _ => true | _ => false end.

(** SRC query_server/src/dynamodb_protocol.rs:2364-2379 validate_add_value *)
Definition validate_add_value (value : Value) : ddb () :=
  if is_number value then Ok ()
  else match dynamodb_set_members value with
       | Some (_, []) => validation "ADD does not support empty set values"
       | Some (_, _) => Ok ()
       | None => validation "ADD currently supports only number and set values"
       end.

(** SRC query_server/src/dynamodb_protocol.rs:2381-2393 validate_delete_value *)
Definition validate_delete_value (value : Value) : ddb () :=
  match dynamodb_set_members value with
  | None => validation "DELETE currently supports only set values"
  | Some (_, []) => validation "DELETE does not support empty set values"
  | Some (_, _) => Ok ()
  end.

(** SRC query_server/src/dynamodb_protocol.rs:2298-2332 validate_update_field_name *)
Definition validate_update_field_name (field_name : string) (schema : PowdrrSchema) (key_schema : DynamoDbKeySchemaConfig) : ddb string :=
  if decide (field_name = "") then validation "UpdateExpression field name must not be empty"
  else if str_mem "." field_name || str_mem "[" field_name || str_mem "]" field_name then
    validation "UpdateItem currently supports only top-level attribute updates"
  else if decide (field_name = partition_key key_schema ∨ sort_key key_schema = Some field_name) then
    validation ("UpdateItem cannot modify key attribute " +:+ field_name)
  else if decide (field_name ∈ (name <$> fields schema)) then Ok field_name
  else validation ("UpdateItem currently supports only existing table schema attributes; unknown field " +:+ field_name).

(** The types of value a field of the schema admits; null always. *)
Definition value_has_type (t : PowdrrDataType) (value : Value) : bool :=
  Json.is_null value ||
  match t, value with
  | TString, VString _ => true
  | TInteger, VNumber (PosInt _ | NegInt _) => true
  | TFloat, VNumber _ => true
  | TBoolean, VBool _ => true
  | TObject _, VObject _ => true
  | TArray _, VArray _ => true
  | _, _ => false
  end.

(** SRC query_server/src/dynamodb_protocol.rs:2334-2362 validate_update_value_type *)
Definition validate_update_value_type (schema : PowdrrSchema) (field_name : string) (value : Value) (action_name : string) : ddb () :=
  field ← ok_or (to_map schema !! field_name) (validation ("Unknown schema field " +:+ field_name));
  if value_has_type (data_type field) value then Ok ()
  else validation (action_name +:+ " value for field " +:+ field_name +:+ " did not match the existing table schema type").

Section clauses.
Context `{ft : FloatText} (values : gmap string Value) (schema : PowdrrSchema) (key_schema : DynamoDbKeySchemaConfig).

(** SRC query_server/src/dynamodb_protocol.rs:2220-2296 parse_update_action_clause *)
Definition parse_update_action_clause (action_name clause : string) : ddb UpdateAction :=
  if decide (action_name = "SET") then
    '(field, token) ← ok_or (split_once "=" clause) (validation "UpdateItem currently supports SET clauses of the form field = :value");
    field ← validate_update_field_name (trim field) schema key_schema;
    let token := trim token in
    if negb (starts_with ":" token) then
      validation "UpdateItem currently supports SET clauses with ExpressionAttributeValues only"
    else
      value ← lookup_expression_value token values;
      _ ← validate_update_value_type schema field value "SET";
      Ok (USet field value)
  else if decide (action_name = "REMOVE") then
    field ← validate_update_field_name (trim clause) schema key_schema;
    Ok (URemove field)
  else if decide (action_name = "ADD" ∨ action_name = "DELETE") then
    match split_whitespace clause with
    | [] => validation ("UpdateItem " +:+ action_name +:+ " clauses must include an attribute name")
    | [_] => validation ("UpdateItem " +:+ action_name +:+ " clauses must include an ExpressionAttributeValues token")
    | [field_token; value_token] =>
        field ← validate_update_field_name field_token schema key_schema;
        if negb (starts_with ":" value_token) then
          validation ("UpdateItem " +:+ action_name +:+ " clauses must use ExpressionAttributeValues tokens")
        else
          value ← lookup_expression_value value_token values;
          if decide (action_name = "ADD") then
            _ ← validate_add_value value;
            _ ← validate_update_value_type schema field value "ADD";
            Ok (UAdd field value)
          else
            _ ← validate_delete_value value;
            _ ← validate_update_value_type schema field value "DELETE";
            Ok (UDelete field value)
    | _ => validation ("UpdateItem currently supports simple " +:+ action_name +:+ " clauses only")
    end
  else validation ("Unsupported UpdateExpression action " +:+ action_name).

(** The inner loop of [parse_update_expression]. *)
Fixpoint parse_clauses (action_name : string) (clauses : list string) (acc : ParsedUpdateExpression) : ddb ParsedUpdateExpression :=
  match clauses with
  | [] => Ok acc
  | clause :: clauses =>
      action ← parse_update_action_clause action_name clause;
      let field_name := action_field action in
      if decide (field_name ∈ pu_touched_fields acc) then
        validation ("UpdateExpression cannot update attribute " +:+ field_name +:+ " multiple times")
      else parse_clauses action_name clauses
             (mkParsedUpdate (pu_actions acc ++ [action]) (pu_touched_fields acc ++ [field_name]))
  end.

(** The outer loop; a round removes a keyword, so the length of the text is enough fuel. *)
Fixpoint parse_actions (fuel : nat) (remaining : string) (acc : ParsedUpdateExpression) : ddb ParsedUpdateExpression :=
  if decide (remaining = "") then Ok acc
  else match fuel with
       | O => Panic "out of fuel"
       | S fuel =>
           '(action_name, action_body, rest) ← split_next_update_action remaining;
           clauses ← split_update_action_clauses action_body;
           acc ← parse_clauses action_name clauses acc;
           parse_actions fuel rest acc
       end.
End clauses.

(** SRC query_server/src/dynamodb_protocol.rs:2095-2142 parse_update_expression *)
Definition parse_update_expression `{FloatText} `{HashOrder} (expression : string) (names : option (gmap string string))
    (values : option (gmap string Value)) (schema : PowdrrSchema) (key_schema : DynamoDbKeySchemaConfig) : ddb ParsedUpdateExpression :=
  let remaining := trim (resolve_expression_names expression names) in
  if decide (remaining = "") then validation "UpdateExpression must not be empty"
  else parse_actions (default ∅ values) schema key_schema (String.length remaining) remaining (mkParsedUpdate [] []).

(** ** Applying the actions *)

(** SRC query_server/src/dynamodb_protocol.rs:2474-2487 add_numeric_values *)
Definition add_numeric_values (left right : Value) : ddb Value :=
  match as_i64 left, as_i64 right with
  | Some l, Some r => Ok (int (wrap_i64 (l + r)))
  | _, _ =>
      match left, right with
      | VNumber l, VNumber r =>
          Ok (match f64_add (as_f64 l) (as_f64 r) with Some sum => VNumber (NFloat sum) | None => VNull end)
      | VNumber _, _ => validation "ADD numeric operand must be a number"
      | _, _ => validation "ADD numeric operand must reference a numeric attribute"
      end
  end.

(** SRC query_server/src/dynamodb_protocol.rs:2489-2508 union_set_values *)
Definition union_set_values (existing operand : Value) : ddb Value :=
  '(existing_marker, existing_members) ← ok_or (dynamodb_set_members existing) (validation "ADD currently supports only number and set values");
  '(operand_marker, operand_members) ← ok_or (dynamodb_set_members operand) (validation "ADD currently supports only number and set values");
  if decide (existing_marker = operand_marker) then
    Ok (set_value existing_marker (foldl (λ combined member,
      if existsb (λ existing, value_eqb existing member) combined then combined else combined ++ [member]) existing_members operand_members))
  else validation "ADD set operands must use the same set type".

(** SRC query_server/src/dynamodb_protocol.rs:2510-2530 subtract_set_values *)
Definition subtract_set_values (existing operand : Value) : ddb (option Value) :=
  '(existing_marker, existing_members) ← ok_or (dynamodb_set_members existing) (validation "DELETE currently supports only set attributes");
  '(operand_marker, operand_members) ← ok_or (dynamodb_set_members operand) (validation "DELETE currently supports only set values");
  if decide (existing_marker = operand_marker) then
    Ok (match List.filter (λ member, negb (existsb (λ candidate, value_eqb candidate member) operand_members)) existing_members with
        | [] => None
        | remaining => Some (set_value existing_marker remaining)
        end)
  else validation "DELETE set operands must use the same set type".

(** SRC query_server/src/dynamodb_protocol.rs:2442-2456 apply_add_action *)
Definition apply_add_action (object : Object) (field : string) (operand : Value) : ddb Object :=
  next_value ← match visible_object_value object field with
               | None => Ok operand
               | Some existing =>
                   if is_number existing && is_number operand then add_numeric_values existing operand
                   else union_set_values existing operand
               end;
  Ok (obj_insert field next_value object).

(** SRC query_server/src/dynamodb_protocol.rs:2458-2472 apply_delete_action *)
Definition apply_delete_action (object : Object) (field : string) (operand : Value) : ddb Object :=
  match visible_object_value object field with
  | None => Ok object
  | Some existing =>
      next_value ← subtract_set_values existing operand;
      Ok (match next_value with Some next_value => obj_insert field next_value object | None => obj_remove field object end)
  end.

(** SRC query_server/src/dynamodb_protocol.rs:2424-2440 apply_update_action *)
Definition apply_update_action (object : Object) (action : UpdateAction) : ddb Object :=
  match action with
  | USet field value => Ok (obj_insert field value object)
  | URemove field => Ok (obj_remove field object)
  | UAdd field value => apply_add_action object field value
  | UDelete field value => apply_delete_action object field value
  end.

(** SRC query_server/src/dynamodb_protocol.rs:2395-2422 apply_update_expression *)
Definition apply_update_expression (existing_item : option Value) (key_schema : DynamoDbKeySchemaConfig) (key : gmap string Value)
    (parsed : ParsedUpdateExpression) : ddb Value :=
  let object := default [] (existing_item ≫= as_object) in
  pk ← ok_or (key !! partition_key key_schema) (internal "Partition key was missing during update");
  let object := obj_insert (partition_key key_schema) pk object in
  object ← match sort_key key_schema with
           | Some sk => v ← ok_or (key !! sk) (internal "Sort key was missing during update"); Ok (obj_insert sk v object)
           | None => Ok object
           end;
  object ← foldM apply_update_action object (pu_actions parsed);
  Ok (VObject object).

(** ** Parsing returns

    The only panic is a slice inside a character, and only a text that is not ASCII has
    one. *)

Definition panic_in {E A} (P : string → Prop) (m : result E A) : Prop :=
  match m with Panic r => P r | _ => True end.

Lemma panic_in_bind {E A B} P (m : result E A) (k : A → result E B) :
  panic_in P m → (∀ a, m = Ok a → panic_in P (k a)) → panic_in P (m ≫= k).
Proof. destruct m; simpl; auto. Qed.

Lemma no_panic_in {E A} P (m : result E A) : no_panic m → panic_in P m.
Proof. by destruct m. Qed.

(** The panic a text can lead to. *)
Definition boundary_panic (text : string) (r : string) : Prop :=
  r = "byte index is not a char boundary" ∧ is_ascii text = false.

Section returns.
Context (text : string).
Local Abbreviation part s := (is_ascii text = true → is_ascii s = true).
Local Abbreviation fine := (panic_in (boundary_panic text)).

Lemma split_at_fine n s : part s → n ≤ String.length s → fine (split_at n s).
Proof.
  intros Hs Hn. rw /split_at. destruct (is_char_boundary n s) eqn:Hb; [done|]. split; [done|].
  apply not_true_iff_false. intros Ht. apply Hs, (str_drop_ascii n) in Ht. revert Hb Ht. rw /is_char_boundary.
  destruct (str_drop n s) as [|a s'] eqn:Hd; [by destruct (Nat.leb_spec n (String.length s)); [|lia]|]. simpl.
  intros Hc%negb_false_iff [Ha _]%andb_true_iff. rw /continuation in Hc. apply in_range_spec in Hc, Ha. lia.
Qed.

Lemma split_at_inv n s h t : split_at n s = Ok (h, t) → h = str_take n s ∧ t = str_drop n s.
Proof. rw /split_at. case_match; naive_solver. Qed.

Lemma leading_keyword_fine kws s : part s → fine (leading_keyword kws s).
Proof.
  intros Hs. induction kws as [|k kws IH]; simpl; [done|]. destruct (Nat.ltb_spec (String.length s) (String.length k)); [done|].
  apply panic_in_bind; [by apply split_at_fine|]. intros [h t] _. by case_match.
Qed.

Lemma leading_keyword_inv kws s k t :
  leading_keyword kws s = Ok (Some (k, t)) → k ∈ kws ∧ String.length k ≤ String.length s ∧ t = str_drop (String.length k) s.
Proof.
  induction kws as [|k' kws IH]; simpl; [done|]. destruct (Nat.ltb_spec (String.length s) (String.length k')).
  { intros (? & ? & ?)%IH. split_and!; [by right|done|done]. }
  intros Hb. apply bind_Ok_inv in Hb as ([h t'] & [-> ->]%split_at_inv & Hb). revert Hb. case_match.
  - intros [= <- <-]. split_and!; [left|done|done].
  - intros (? & ? & ?)%IH. split_and!; [by right|done|done].
Qed.

Lemma find_next_fine i prev s : part s → fine (find_next_update_action_start_from i prev s).
Proof.
  revert i prev. induction s as [|c s IH]; intros i prev Hs; cbn [find_next_update_action_start_from]; [done|].
  assert (Hs' : part s). { intros Ht. apply Hs in Ht. simpl in Ht. by apply andb_true_iff in Ht as [_ ?]. }
  case_match; [by apply IH|]. case_match; [by apply IH|].
  apply panic_in_bind; [by apply leading_keyword_fine|]. intros [?|] _; [done|by apply IH].
Qed.

Lemma split_next_fine s : part s → fine (split_next_update_action s).
Proof.
  intros Hs. rw /split_next_update_action /leading_update_action. assert (Ht : part (trim_start s)) by (intros; by apply trim_start_ascii, Hs).
  apply panic_in_bind; [apply panic_in_bind; [by apply leading_keyword_fine|done]|]. intros [[k r]|] Hl; [|done].
  apply bind_Ok_inv in Hl as ([[k' t]|] & Hl & [=]); subst. apply leading_keyword_inv in Hl as (_ & _ & ->).
  apply panic_in_bind; [apply find_next_fine; intros; by apply trim_start_ascii, str_drop_ascii, Ht|]. intros nx _.
  by destruct nx; case_match.
Qed.

Lemma keywords_nonempty k : k ∈ update_keywords → 0 < String.length k.
Proof. rw /update_keywords. intros Hk. repeat (apply elem_of_cons in Hk as [->|Hk]; [simpl; lia|]). by apply elem_of_nil in Hk. Qed.

(** The rest after an action is a shorter part of the text. *)
Lemma split_next_rest s k body rest :
  split_next_update_action s = Ok (k, body, rest) → String.length rest < String.length s ∧ (part s → part rest).
Proof.
  rw /split_next_update_action /leading_update_action. intros Hp. apply bind_Ok_inv in Hp as ([[k' r]|] & Hl & Hp); [|done].
  apply bind_Ok_inv in Hl as ([[k1 t]|] & Hl & [=]); subst. apply leading_keyword_inv in Hl as (Hk & Hlen & ->).
  apply keywords_nonempty in Hk. apply bind_Ok_inv in Hp as (nx & _ & Hp).
  pose proof (trim_start_length s). set (r := trim_start (str_drop (String.length k') (trim_start s))) in *.
  assert (Hr : String.length r < String.length s).
  { pose proof (trim_start_length (str_drop (String.length k') (trim_start s))) as Hle. rw str_drop_length in Hle. rw /r. lia. }
  assert (Hpart : part s → part r) by (intros Hs Ht; by apply trim_start_ascii, str_drop_ascii, trim_start_ascii, Hs).
  destruct nx as [i|]; case_match; simplify_eq.
  - pose proof (trim_start_length (str_drop i r)) as Hle. rw str_drop_length in Hle. split; [lia|].
    intros Hs Ht. by apply trim_start_ascii, str_drop_ascii, Hpart.
  - split; [simpl; lia|done].
Qed.
End returns.

(** ** What parsing guarantees *)

Section parsing.
Context `{ft : FloatText} (values : gmap string Value) (schema : PowdrrSchema) (key_schema : DynamoDbKeySchemaConfig).

Lemma validate_field_name_inv f g :
  validate_update_field_name f schema key_schema = Ok g → g = f ∧ (f ∉ key_fields key_schema) ∧ f ∈ (name <$> fields schema).
Proof.
  rw /validate_update_field_name. repeat case_match; try done. intros [= <-]. split; [done|]. split; [|done].
  rw /key_fields. intros [->|Hs]%elem_of_cons; [naive_solver|]. destruct (sort_key key_schema); simpl in Hs; set_solver.
Qed.

Lemma validate_field_name_no_panic f : no_panic (validate_update_field_name f schema key_schema).
Proof. rw /validate_update_field_name. by repeat case_match. Qed.

Lemma validate_type_no_panic f v a : no_panic (validate_update_value_type schema f v a).
Proof. rw /validate_update_value_type. destruct (to_map schema !! f); [|done]. simpl. by case_match. Qed.

Lemma lookup_value_no_panic t : no_panic (lookup_expression_value t values).
Proof. rw /lookup_expression_value. destruct (values !! t); [|done]. simpl. apply dynamodb_attr_to_json_no_panic. Qed.

Hint Resolve validate_field_name_no_panic validate_type_no_panic lookup_value_no_panic : panics.

Lemma parse_clause_no_panic k c : no_panic (parse_update_action_clause values schema key_schema k c).
Proof.
  rw /parse_update_action_clause. case_decide.
  { apply no_panic_bind; [by destruct (split_once "=" c)|]. intros [f t] _. apply no_panic_bind; [eauto with panics|]. intros ? _.
    case_match; [done|]. eauto 10 with panics. }
  case_decide; [eauto with panics|]. case_decide; [|done].
  destruct (split_whitespace c) as [|a [|b [|]]]; try done. apply no_panic_bind; [eauto with panics|]. intros ? _.
  case_match; [done|]. apply no_panic_bind; [eauto with panics|]. intros v _. case_decide.
  - apply no_panic_bind; [rw /validate_add_value; by repeat case_match|]. eauto with panics.
  - apply no_panic_bind; [rw /validate_delete_value; by repeat case_match|]. eauto with panics.
Qed.

(** The field of a clause is a top-level attribute of the schema outside the key. *)
Lemma parse_clause_field k c a :
  parse_update_action_clause values schema key_schema k c = Ok a →
  (action_field a ∉ key_fields key_schema) ∧ action_field a ∈ (name <$> fields schema).
Proof.
  rw /parse_update_action_clause. intros H. repeat case_decide; repeat (case_match; try done); invert_ok;
    repeat (case_match; try done); invert_ok;
    repeat match goal with H : validate_update_field_name _ _ _ = Ok _ |- _ => apply validate_field_name_inv in H as (-> & ? & ?) end; done.
Qed.

(** The fields an expression touches are those of its actions, each once. *)
Record update_ok (p : ParsedUpdateExpression) : Prop := {
  uo_touched : pu_touched_fields p = action_field <$> pu_actions p;
  uo_nodup : NoDup (pu_touched_fields p);
  uo_fields : ∀ f, f ∈ pu_touched_fields p → (f ∉ key_fields key_schema) ∧ f ∈ (name <$> fields schema);
}.

Lemma update_ok_nil : update_ok (mkParsedUpdate [] []).
Proof. split; [done|constructor|intros ? ?%elem_of_nil; done]. Qed.

Lemma parse_clauses_ok k cs acc p :
  update_ok acc → parse_clauses values schema key_schema k cs acc = Ok p → update_ok p.
Proof.
  revert acc. induction cs as [|c cs IH]; intros acc Hok; simpl; [by intros [= <-]|].
  intros Hp. apply bind_Ok_inv in Hp as (a & Ha & Hp). apply parse_clause_field in Ha. case_decide as Hin; [done|].
  revert Hp. apply IH. destruct Hok as [Ht Hnd Hf]. split; simpl.
  - by rw Ht fmap_app.
  - apply NoDup_app. split_and!; [done| |apply NoDup_singleton]. by intros ? ? ->%list_elem_of_singleton.
  - intros f [?| ->%list_elem_of_singleton]%elem_of_app; auto.
Qed.

Lemma parse_clauses_no_panic k cs acc : no_panic (parse_clauses values schema key_schema k cs acc).
Proof.
  revert acc. induction cs as [|c cs IH]; intros acc; simpl; [done|].
  apply no_panic_bind; [apply parse_clause_no_panic|]. intros a _. by case_decide.
Qed.

Lemma parse_actions_ok fuel s acc p :
  update_ok acc → parse_actions values schema key_schema fuel s acc = Ok p → update_ok p.
Proof.
  revert s acc. induction fuel as [|fuel IH]; intros s acc Hok; cbn [parse_actions]; case_decide;
    try (by intros [= <-]).
  intros Hp. apply bind_Ok_inv in Hp as ([[k b] r] & _ & Hp). apply bind_Ok_inv in Hp as (cs & _ & Hp).
  apply bind_Ok_inv in Hp as (acc' & Hc & Hp). eapply IH; [|exact Hp]. exact (parse_clauses_ok _ _ _ _ Hok Hc).
Qed.

Lemma parse_actions_fine text fuel s acc :
  (is_ascii text = true → is_ascii s = true) → String.length s ≤ fuel →
  panic_in (boundary_panic text) (parse_actions values schema key_schema fuel s acc).
Proof.
  revert s acc. induction fuel as [|fuel IH]; intros s acc Hs Hf; cbn [parse_actions]; case_decide; try done.
  { destruct s; [done|simpl in Hf; lia]. }
  apply panic_in_bind; [by apply split_next_fine|]. intros [[k b] r] Hn.
  destruct (split_next_rest text _ _ _ _ Hn) as [Hlen Hpart].
  apply panic_in_bind; [apply no_panic_in; rw /split_update_action_clauses; by case_match|]. intros cs _.
  apply panic_in_bind; [apply no_panic_in, parse_clauses_no_panic|]. intros acc' _. apply IH; [by apply Hpart|lia].
Qed.
End parsing.

(** ** What the actions do *)

(** The value an action leaves in its field, from what was there. *)
Definition new_value (a : UpdateAction) (old : option Value) : ddb (option Value) :=
  let shown := match old with Some v => if Json.is_null v then None else Some v | None => None end in
  match a with
  | USet _ v => Ok (Some v)
  | URemove _ => Ok None
  | UAdd _ v =>
      match shown with
      | None => Ok (Some v)
      | Some x => Some <$> (if is_number x && is_number v then add_numeric_values x v else union_set_values x v)
      end
  | UDelete _ v => match shown with None => Ok old | Some x => subtract_set_values x v end
  end.

Definition with_value (f : string) (v : option Value) (m : Object) : Object :=
  match v with Some v => obj_insert f v m | None => obj_remove f m end.

Lemma obj_remove_missing f (m : Object) : obj_get f m = None → obj_remove f m = m.
Proof. induction m as [|[k v] m IH]; simpl; [done|]. case_decide; [done|]. intros ?. f_equal. auto. Qed.

Lemma apply_update_action_spec (m : Object) a :
  apply_update_action m a = (v ← new_value a (obj_get (action_field a) m); Ok (with_value (action_field a) v m)).
Proof.
  destruct a as [f v|f|f v|f v]; simpl; try done; rw /apply_add_action /apply_delete_action /visible_object_value.
  - destruct (obj_get f m) as [x|]; [|done]. destruct (Json.is_null x); [done|].
    by destruct (if is_number x && is_number v then _ else _).
  - destruct (obj_get f m) as [x|] eqn:Hg; [|by rw /= obj_remove_missing]. destruct (Json.is_null x); [by rw /= obj_insert_get_id|].
    by destruct (subtract_set_values x v) as [[]| |].
Qed.

Lemma with_value_NoDup f v (m : Object) : NoDup (obj_keys m) → NoDup (obj_keys (with_value f v m)).
Proof. destruct v; [apply obj_insert_NoDup|apply obj_remove_NoDup]. Qed.

Lemma obj_get_with_value f v (m : Object) g :
  NoDup (obj_keys m) → obj_get g (with_value f v m) = if decide (f = g) then v else obj_get g m.
Proof. intros Hnd. destruct v; simpl; [apply obj_get_insert|by apply obj_get_remove]. Qed.

Lemma apply_actions_spec actions (m m' : Object) :
  NoDup (obj_keys m) → NoDup (action_field <$> actions) → foldM apply_update_action m actions = Ok m' →
  NoDup (obj_keys m') ∧ (∀ f, f ∉ (action_field <$> actions) → obj_get f m' = obj_get f m) ∧
  (∀ a, a ∈ actions → new_value a (obj_get (action_field a) m) = Ok (obj_get (action_field a) m')).
Proof.
  revert m. induction actions as [|a actions IH]; intros m Hm Hnd; simpl.
  { intros [= <-]. split_and!; [done|done|intros ? ?%elem_of_nil; done]. }
  apply NoDup_cons in Hnd as [Ha Hnd]. intros Hf. apply bind_Ok_inv in Hf as (m1 & H1 & Hf).
  rw apply_update_action_spec in H1. apply bind_Ok_inv in H1 as (v & Hv & [= <-]).
  destruct (IH _ (with_value_NoDup _ _ _ Hm) Hnd Hf) as (H1 & H2 & H3). split_and!; [done| |].
  - intros f [Hne Hf']%not_elem_of_cons. rw H2 // obj_get_with_value // decide_False //. congruence.
  - intros b [->|Hb]%elem_of_cons.
    + rw H2 // obj_get_with_value // decide_True //.
    + rw -(H3 b Hb) obj_get_with_value // decide_False //. intros Heq. apply Ha. rw Heq. by apply list_elem_of_fmap_2.
Qed.

(** ** Sets *)

(** Whether a list has a member equal to [x] as the code compares. *)
Definition member (x : Value) (l : list Value) : bool := existsb (λ y, value_eqb y x) l.

Lemma member_app x l1 l2 : member x (l1 ++ l2) = member x l1 || member x l2.
Proof. apply existsb_app. Qed.

Lemma member_elem x l : wf_value x → x ∈ l → member x l = true.
Proof. intros Hx Hl. apply existsb_exists. exists x. by rw -list_elem_of_In value_eqb_refl. Qed.

(** The members added by a union: the old list is a prefix, every operand has an equal
    member, and nothing else is added. *)
Lemma union_fold_spec operand combined :
  Forall wf_value operand →
  ∃ added, foldl (λ combined x, if existsb (λ y, value_eqb y x) combined then combined else combined ++ [x]) combined operand = combined ++ added ∧
    (∀ x, x ∈ added → x ∈ operand) ∧ (∀ x, x ∈ operand → member x (combined ++ added) = true).
Proof.
  intros Hwf. revert combined. induction Hwf as [|x operand Hx _ IH]; intros combined; simpl.
  { exists []. rw app_nil_r. split_and!; [done|done|intros ? ?%elem_of_nil; done]. }
  rw -/(member x combined). destruct (member x combined) eqn:Hm.
  - destruct (IH combined) as (added & -> & H1 & H2). exists added. split_and!; [done|set_solver|].
    intros y [->|Hy]%elem_of_cons; [by rw member_app Hm|by apply H2].
  - destruct (IH (combined ++ [x])) as (added & -> & H1 & H2). exists (x :: added). rw -app_assoc in H2 |- *.
    split_and!; [done|set_solver|]. intros y [->|Hy]%elem_of_cons; [|by apply H2].
    rw !member_app /=. by rw value_eqb_refl // orb_true_r.
Qed.

(** ** Properties *)
Module DynamoUpdateTheory.
Section theory.
Context `{ft : FloatText} `{ho : HashOrder}.

(** C28. An update that is accepted changes exactly what it names.  The fields it
    touches are distinct attributes of the schema outside the key; the item it produces
    has the key it was addressed by, every attribute that is not touched as it was, and
    in each touched attribute what that action makes of the old value. *)
Theorem update_item_exact expression names values schema key_schema key parsed existing item :
  parse_update_expression expression names values schema key_schema = Ok parsed →
  NoDup (obj_keys (default [] existing)) →
  apply_update_expression (VObject <$> existing) key_schema key parsed = Ok item →
  ∃ m, item = VObject m ∧ NoDup (obj_keys m) ∧ NoDup (pu_touched_fields parsed) ∧
    (∀ f, f ∈ pu_touched_fields parsed → (f ∉ key_fields key_schema) ∧ f ∈ (name <$> fields schema)) ∧
    (∀ f, f ∈ key_fields key_schema → obj_get f m = key !! f) ∧
    (∀ f, f ∉ key_fields key_schema → f ∉ pu_touched_fields parsed → obj_get f m = obj_get f (default [] existing)) ∧
    (∀ a, a ∈ pu_actions parsed → new_value a (obj_get (action_field a) (default [] existing)) = Ok (obj_get (action_field a) m)).
Proof.
  intros Hparse Hex Happly. rw /parse_update_expression in Hparse. case_decide; [done|].
  apply parse_actions_ok in Hparse as [Ht Hnd Hf]; [|apply update_ok_nil]. rw Ht in Hnd Hf |- *.
  rw /apply_update_expression in Happly. replace ((VObject <$> existing) ≫= as_object) with existing in Happly by (by destruct existing).
  set (m0 := default [] existing) in *.
  apply bind_Ok_inv in Happly as (pk & Hpk & Happly). apply bind_Ok_inv in Happly as (m1 & Hsk & Happly).
  apply bind_Ok_inv in Happly as (m & Hact & [= <-]).
  assert (Hm1 : NoDup (obj_keys m1) ∧ (∀ f, obj_get f m1 = if decide (f ∈ key_fields key_schema) then key !! f else obj_get f m0)).
  { destruct (key !! partition_key key_schema) as [pk'|] eqn:Hpk'; [|done]. injection Hpk as ->.
    rw /key_fields. destruct (sort_key key_schema) as [sk|]; simpl.
    - destruct (key !! sk) as [v|] eqn:Hv; [|done]. injection Hsk as <-. split; [by do 2 apply obj_insert_NoDup|].
      intros f. rw !obj_get_insert. repeat case_decide; subst; try done; exfalso; set_solver.
    - injection Hsk as <-. split; [by apply obj_insert_NoDup|]. intros f. rw obj_get_insert.
      repeat case_decide; subst; try done; exfalso; set_solver. }
  destruct Hm1 as [Hm1 Hget]. destruct (apply_actions_spec _ _ _ Hm1 Hnd Hact) as (H1 & H2 & H3).
  exists m. split_and!; try done.
  - intros f Hk. rw H2; [intros Hin; by destruct (Hf f Hin)|]. by rw Hget decide_True.
  - intros f Hk Hn. by rw H2 // Hget decide_False.
  - intros a Ha. rw -(H3 a Ha) Hget decide_False //. apply Hf. by apply list_elem_of_fmap_2.
Qed.

(** Update expressions are parsed to an answer on every text; the one way to
    panic is a byte offset inside a character, and an ASCII expression has none. *)
Theorem update_parser_returns expression names values schema key_schema :
  panic_in (boundary_panic (trim (resolve_expression_names expression names)))
    (parse_update_expression expression names values schema key_schema).
Proof. rw /parse_update_expression. case_decide; [done|]. by apply parse_actions_fine. Qed.

(** Adding to a set keeps its members in order and adds the operand's missing
    members only, each present afterwards; deleting keeps exactly the members no operand
    equals, and an emptied set disappears. *)
Theorem set_operations_exact marker xs ys :
  marker ∈ [DYNAMODB_STRING_SET_MARKER; DYNAMODB_NUMBER_SET_MARKER; DYNAMODB_BINARY_SET_MARKER] → Forall wf_value ys →
  (∃ added, union_set_values (set_value marker xs) (set_value marker ys) = Ok (set_value marker (xs ++ added)) ∧
     (∀ x, x ∈ added → x ∈ ys) ∧ (∀ y, y ∈ ys → member y (xs ++ added) = true)) ∧
  (∃ kept, kept = filter (λ x, member x ys = false) xs ∧
     subtract_set_values (set_value marker xs) (set_value marker ys) =
     Ok (if decide (kept = []) then None else Some (set_value marker kept))).
Proof.
  intros Hm Hys.
  assert (Hmem : ∀ zs, dynamodb_set_members (set_value marker zs) = Some (marker, zs)).
  { intros zs. repeat (apply elem_of_cons in Hm as [->|Hm]; [reflexivity|]). by apply elem_of_nil in Hm. }
  split.
  - destruct (union_fold_spec ys xs Hys) as (added & Hu & H1 & H2). exists added. split_and!; [|done|done].
    rw /union_set_values !Hmem /= decide_True //. by rw Hu.
  - eexists. split; [reflexivity|]. rw /subtract_set_values !Hmem /= decide_True //. f_equal.
    assert (Hfl : List.filter (λ x, negb (existsb (λ c, value_eqb c x) ys)) xs = filter (λ x, member x ys = false) xs).
    { induction xs as [|x xs IH]; [done|]. rw filter_cons. cbn [List.filter]. rw -/(member x ys). rw IH.
      by destruct (member x ys). }
    rw Hfl. by destruct (filter _ xs).
Qed.
End theory.
End DynamoUpdateTheory.

(** ** Examples *)
Module DynamoUpdateDemo.
Import DynamoUpdateTheory DynamoAttrDemo.

Export HashOrderDemo.

Definition demo_schema : PowdrrSchema :=
  mkSchema [mkField "id" TString; mkField "n" TInteger; mkField "s" TString; mkField "tags" (TObject minimal); mkField "x" TBoolean].
Definition demo_keys : DynamoDbKeySchemaConfig := mkKeySchema "id" None.
Definition demo_values : gmap string Value :=
  {[":d" := tagged "N" (VString "5"); ":s" := tagged "S" (VString "new"); ":t" := tagged "SS" (json_strings ["a"; "b"])]}.
Definition demo_text : string := "SET s = :s ADD n :d, tags :t REMOVE x".
Definition demo_item : Object :=
  [("id", VString "k"); ("x", VBool true); ("n", int (-2)); ("tags", set_value DYNAMODB_STRING_SET_MARKER [VString "b"; VString "c"])].
Definition demo_key : gmap string Value := {["id" := VString "k"]}.
Definition demo_parsed : ParsedUpdateExpression :=
  mkParsedUpdate [USet "s" (VString "new"); UAdd "n" (int 5); UAdd "tags" (set_value DYNAMODB_STRING_SET_MARKER [VString "a"; VString "b"]); URemove "x"]
    ["s"; "n"; "tags"; "x"].
Definition demo_updated : Object :=
  [("id", VString "k"); ("s", VString "new"); ("n", int 3); ("tags", set_value DYNAMODB_STRING_SET_MARKER [VString "b"; VString "c"; VString "a"])].

Lemma update_item_exact_witness :
  ∃ m, VObject demo_updated = VObject m ∧ NoDup (obj_keys m) ∧ NoDup (pu_touched_fields demo_parsed) ∧
    (∀ f, f ∈ pu_touched_fields demo_parsed → (f ∉ key_fields demo_keys) ∧ f ∈ (name <$> fields demo_schema)) ∧
    (∀ f, f ∈ key_fields demo_keys → obj_get f m = demo_key !! f) ∧
    (∀ f, f ∉ key_fields demo_keys → f ∉ pu_touched_fields demo_parsed → obj_get f m = obj_get f demo_item) ∧
    (∀ a, a ∈ pu_actions demo_parsed → new_value a (obj_get (action_field a) demo_item) = Ok (obj_get (action_field a) m)).
Proof.
  apply (update_item_exact demo_text None (Some demo_values) demo_schema demo_keys demo_key demo_parsed (Some demo_item)).
  - vm_compute. reflexivity.
  - compute_done.
  - vm_compute. reflexivity.
Defined.

Lemma set_operations_exact_witness :
  ∃ added, union_set_values (set_value DYNAMODB_STRING_SET_MARKER [VString "a"]) (set_value DYNAMODB_STRING_SET_MARKER [VString "b"]) =
      Ok (set_value DYNAMODB_STRING_SET_MARKER ([VString "a"] ++ added)) ∧
    (∀ x, x ∈ added → x ∈ [VString "b"]) ∧ (∀ y, y ∈ [VString "b"] → member y ([VString "a"] ++ added) = true).
Proof.
  refine (proj1 (set_operations_exact DYNAMODB_STRING_SET_MARKER [VString "a"] [VString "b"] _ _)); [left|repeat constructor].
Defined.

(** An attribute name with a two-byte character at the third byte makes the server
    panic. *)
Theorem update_of_accented_name_panics :
  ∃ r, parse_update_expression (String.app "SET ab" (String "195" (String "169" " = :s"))) None (Some demo_values) demo_schema demo_keys = Panic r.
Proof. eexists. vm_compute. reflexivity. Qed.

(** Counters wrap around. *)
Theorem add_wraps_around : add_numeric_values (int (2 ^ 63 - 1)) (int 1) = Ok (int (- 2 ^ 63)).
Proof. vm_compute. reflexivity. Qed.
End DynamoUpdateDemo.
