(* ===== verification/DynamoItems.v ===== *)
(** * DynamoDB writes (query_server/src/dynamodb_protocol.rs)

    PutItem, UpdateItem, DeleteItem and BatchWriteItem.  A write loads all rows of the
    table's latest checkpoint, replaces the rows with its key, writes the result as one
    new Parquet file and publishes a checkpoint that consists of that file.  The state
    provider, Parquet and the schema inference of Arrow are the class [ItemStore]; what
    is documented of them is [ItemStoreLaws]. *)

From S2P Require Import Prelude Text Schema Json Coerce FileSet Contract Checkpoint QueryPath.
From S2P Require Import DynamoAttr DynamoFilter DynamoUpdate.

(** ** The surroundings *)

Class ItemStore (W : Type) : Type := {
  describe_table : W → string → outcome (option TableDescription);
  get_latest_checkpoint : W → string → outcome (option string);
  get_checkpoint : W → string → string → outcome (option TableMetadataCheckpoint);
  load_active_checkpoint : W → string → ddb TableMetadataCheckpoint;
  (** the rows [SELECT *] gives of files of one schema *)
  scan_files : W → list FileDescriptor → ddb (list Value);
  (** [infer_json_schema] of the arrow-json crate *)
  infer_schema : Value → PowdrrSchema;
  (** a fresh id *)
  take_id : W → string * W;
  s3_ingest_base_path : string;
  (** the directory for local files, or why it cannot be created *)
  local_directory : W → string → ddb string;
  write_parquet : string → list Value → PowdrrSchema → W → ddb Z * W;
  add_checkpoint : TableMetadataCheckpoint → W → W;
  (** [serde_json::to_string] *)
  json_text : Value → string;
}.

(** Handlers change the world and keep what they changed when they fail. *)
Definition io (W A : Type) : Type := W → ddb A * W.
#[export] Instance io_ret {W} : MRet (io W) := λ A a w, (Ok a, w).
#[export] Instance io_bind {W} : MBind (io W) := λ A B k m w,
  match m w with
  | (Ok a, w) => k a w
  | (Err e, w) => (Err e, w)
  | (Panic r, w) => (Panic r, w)
  end.
Definition io_pure {W A} (m : ddb A) : io W A := λ w, (m, w).
Definition io_read {W A} (f : W → ddb A) : io W A := λ w, (f w, w).

(** [.map_err(service_error)] *)
(** SRC query_server/src/dynamodb_protocol.rs:1583-1585 service_error *)
Definition service_error {A} (m : outcome A) : ddb A :=
  match m with Ok a => Ok a | Err e => internal e | Panic r => Panic r end.

(** Requests after deserialisation. *)

(** SRC query_server/src/dynamodb_protocol.rs:254-268 PutItemRequest *)
Record PutItemRequest : Type := mkPut {
  put_table_name : string;
  put_item : Object;
  put_condition_expression : option string;
  put_expression_attribute_names : option (gmap string string);
  put_expression_attribute_values : option (gmap string Value);
  put_return_values : option string;
}.

(** SRC query_server/src/dynamodb_protocol.rs:276-291 UpdateItemRequest *)
Record UpdateItemRequest : Type := mkUpdate {
  upd_table_name : string;
  upd_key : Object;
  upd_update_expression : string;
  upd_condition_expression : option string;
  upd_expression_attribute_names : option (gmap string string);
  upd_expression_attribute_values : option (gmap string Value);
  upd_return_values : option string;
}.

(** SRC query_server/src/dynamodb_protocol.rs:299-313 DeleteItemRequest *)
Record DeleteItemRequest : Type := mkDelete {
  del_table_name : string;
  del_key : Object;
  del_condition_expression : option string;
  del_expression_attribute_names : option (gmap string string);
  del_expression_attribute_values : option (gmap string Value);
  del_return_values : option string;
}.

(** SRC query_server/src/dynamodb_protocol.rs:328-336 BatchWriteRequest *)
Record BatchWriteRequest : Type := mkBatchWrite {
  bw_put_request : option Object;
  bw_delete_request : option Object;
}.

(** SRC query_server/src/dynamodb_protocol.rs:619-628 BatchWriteOperation *)
Inductive BatchWriteOperation : Type :=
| BatchPut (item : Value) (key : gmap string Value)
| BatchDelete (key : gmap string Value).

(** SRC query_server/src/dynamodb_protocol.rs:545-552 WriteReturnValues *)
Inductive WriteReturnValues : Type := RVNone | RVAllOld | RVUpdatedOld | RVAllNew | RVUpdatedNew.

(** SRC query_server/src/dynamodb_protocol.rs:3301-3316 parse_write_return_values *)
Definition parse_write_return_values (value : option string) (operation : string) : ddb WriteReturnValues :=
  let value := default "NONE" value in
  if decide (value = "NONE") then Ok RVNone
  else if decide (value = "ALL_OLD") then Ok RVAllOld
  else if decide (value = "UPDATED_OLD" ∧ operation = "UpdateItem") then Ok RVUpdatedOld
  else if decide (value = "ALL_NEW" ∧ operation = "UpdateItem") then Ok RVAllNew
  else if decide (value = "UPDATED_NEW" ∧ operation = "UpdateItem") then Ok RVUpdatedNew
  else validation ("Unsupported ReturnValues value " +:+ value +:+ " for " +:+ operation).

(** SRC query_server/src/dynamodb_protocol.rs:2663-2668 primary_key_schema *)
Definition primary_key_schema (config : DynamoDbTableConfig) : DynamoDbKeySchemaConfig :=
  mkKeySchema (dd_partition_key config) (dd_sort_key config).

(** SRC query_server/src/dynamodb_protocol.rs:475-479 DynamoDbTableContext *)
Record DynamoDbTableContext : Type := mkContext {
  ctx_description : TableDescription;
  ctx_config : DynamoDbTableConfig;
  ctx_schema : PowdrrSchema;
}.

(** SRC query_server/src/dynamodb_protocol.rs:1741-1753 schema_from_checkpoint *)
Definition schema_from_checkpoint (checkpoint : TableMetadataCheckpoint) : ddb PowdrrSchema :=
  match cp_iceberg_metadata checkpoint with
  | Some metadata => Ok (im_table_schema metadata)
  | None =>
      match fields (cp_schema checkpoint) with
      | _ :: _ => Ok (cp_schema checkpoint)
      | [] => internal "Checkpoint did not contain a usable schema"
      end
  end.

(** SRC query_server/src/dynamodb_protocol.rs:1712-1734 checkpoint_file_descriptors *)
Definition checkpoint_file_descriptors (checkpoint : TableMetadataCheckpoint) (operation : string) : ddb (list FileDescriptor) :=
  iceberg_metadata ← ok_or (cp_iceberg_metadata checkpoint) (validation ("DynamoDB " +:+ operation +:+ " currently requires Iceberg-backed storage"));
  if match cp_deletes_metadata checkpoint with Some metadata => bool_decide (dm_files metadata ≠ []) | None => false end
  then validation ("Delete-aware DynamoDB " +:+ operation +:+ " is not implemented yet")
  else service_error (as_file_tuples (im_files iceberg_metadata)).

(** SRC query_server/src/dynamodb_protocol.rs:1890-1897 sanitize_path_component *)
Definition sanitize_path_component : string → string :=
  str_map (λ c, if Ascii.eqb c "/" || Ascii.eqb c "\" || Ascii.eqb c ":" || Ascii.eqb c " " then "_"%char else c).

(** SRC query_server/src/dynamodb_protocol.rs:1840-1850 coerce_rows_to_schema *)
Definition coerce_rows_to_schema (rows : list Value) (schema : PowdrrSchema) : ddb (list Value) :=
  try_collect (λ row,
    match row with
    | VObject _ => service_error (coerce_value schema row)
    | _ => internal "DynamoDB mutation rows must be JSON objects"
    end) rows.

(** SRC query_server/src/dynamodb_protocol.rs:2070-2093 validate_put_item_fields *)
Definition validate_put_item_fields (schema : PowdrrSchema) (item : Value) : ddb () :=
  match item with
  | VObject object =>
      match filter (λ field, field ∉ (name <$> fields schema)) (obj_keys object) with
      | [] => Ok ()
      | unknown_fields => validation ("PutItem currently supports only existing table schema attributes; unknown fields: " +:+ join ", " unknown_fields)
      end
  | _ => validation "PutItem payload must encode to a top-level object"
  end.

Section handlers.
Context {W : Type} `{store : ItemStore W} `{ft : FloatText} `{ho : HashOrder}.

Definition io_next_id : io W string := λ w, let '(id, w) := take_id w in (Ok id, w).
Definition io_write (path : string) (rows : list Value) (schema : PowdrrSchema) : io W Z := write_parquet path rows schema.
Definition io_publish (checkpoint : TableMetadataCheckpoint) : io W () := λ w, (Ok (), add_checkpoint checkpoint w).

(** SRC query_server/src/dynamodb_protocol.rs:1660-1668 load_table_description *)
Definition load_table_description (table_name : string) : io W TableDescription := io_read (λ w,
  description ← service_error (describe_table w table_name);
  ok_or description (resource_not_found ("Table " +:+ table_name +:+ " was not found"))).

(** SRC query_server/src/dynamodb_protocol.rs:1670-1673 load_table_schema *)
Definition load_table_schema (table_name : string) : io W PowdrrSchema := io_read (λ w,
  checkpoint ← load_active_checkpoint w table_name;
  schema_from_checkpoint checkpoint).

(** SRC query_server/src/dynamodb_protocol.rs:1644-1658 load_dynamodb_table_context *)
Definition load_dynamodb_table_context (table_name : string) : io W DynamoDbTableContext :=
  description ← load_table_description table_name;
  config ← io_pure (ok_or (td_dynamodb description) (resource_not_found "Table is not exposed as DynamoDB"));
  schema ← load_table_schema table_name;
  mret (mkContext description config schema).

(** SRC query_server/src/dynamodb_protocol.rs:1675-1701 load_latest_base_checkpoint *)
Definition load_latest_base_checkpoint (table_name : string) : io W TableMetadataCheckpoint := io_read (λ w,
  checkpoint_id ← service_error (get_latest_checkpoint w table_name);
  checkpoint_id ← ok_or checkpoint_id (resource_not_found ("No checkpoint was available for table " +:+ table_name));
  checkpoint ← service_error (get_checkpoint w table_name checkpoint_id);
  ok_or checkpoint (resource_not_found ("Checkpoint metadata was not found for table " +:+ table_name))).

(** SRC query_server/src/dynamodb_protocol.rs:4492-4507= group_files_by_schema *)
Definition dynamodb_group_files_by_schema : list FileDescriptor → list (list FileDescriptor) := group_files_by_schema.

(** SRC query_server/src/dynamodb_protocol.rs:1764-1775 load_mutable_table_rows *)
Definition load_mutable_table_rows (table_name : string) : io W (TableMetadataCheckpoint * list Value) :=
  checkpoint ← load_latest_base_checkpoint table_name;
  files ← io_pure (checkpoint_file_descriptors checkpoint "writes");
  rows ← io_read (λ w, foldM (λ rows file_group, group_rows ← scan_files w file_group; Ok (rows ++ group_rows)) []
                         (dynamodb_group_files_by_schema files));
  mret (checkpoint, rows).

(** SRC query_server/src/dynamodb_protocol.rs:1829-1838 merged_row_schema *)
Definition merged_row_schema (rows : list Value) (fallback_schema : PowdrrSchema) : ddb PowdrrSchema :=
  match rows with
  | [] => Ok fallback_schema
  | _ => service_error (merge_all (infer_schema <$> rows))
  end.

(** SRC query_server/src/dynamodb_protocol.rs:1852-1888 mutation_output_file_path *)
Definition mutation_output_file_path (checkpoint : TableMetadataCheckpoint) (checkpoint_id : string) : io W string :=
  let sanitized_table := sanitize_path_component (cp_table_name checkpoint) in
  let file_name := checkpoint_id +:+ ".parquet" in
  let local := io_read (λ w, directory ← local_directory w sanitized_table; Ok ("file://" +:+ directory +:+ "/" +:+ file_name)) in
  match cp_iceberg_metadata checkpoint ≫= λ metadata, head (file_paths (im_files metadata)) with
  | Some path =>
      if starts_with "s3://" path then mret (s3_ingest_base_path +:+ "/dynamodb-write/" +:+ sanitized_table +:+ "/" +:+ file_name)
      else if str_contains path "://" && negb (starts_with "file://" path) then
        io_pure (validation ("DynamoDB writes do not support storage path " +:+ path))
      else local
  | None => local
  end.

(** The checkpoint a write publishes. *)
Definition mutated_checkpoint (previous_checkpoint : TableMetadataCheckpoint) (previous_iceberg_metadata : IcebergMetadata)
    (schema : PowdrrSchema) (checkpoint_id output_path : string) (size : Z) : TableMetadataCheckpoint :=
  mkCheckpoint (cp_table_name previous_checkpoint) (Some (cp_checkpoint_id previous_checkpoint)) checkpoint_id
    (Some (mkIcebergMetadata schema (Some checkpoint_id) (mkFileSet [output_path] [schema] [0] [size])
      (im_partition_spec previous_iceberg_metadata) (im_sort_order previous_iceberg_metadata) (name <$> fields schema) []
      (im_access_artifacts previous_iceberg_metadata) []))
    None None ∅ schema.

(** SRC query_server/src/dynamodb_protocol.rs:1777-1827 publish_mutated_checkpoint *)
Definition publish_mutated_checkpoint (previous_checkpoint : TableMetadataCheckpoint) (rows : list Value) : io W () :=
  fallback_schema ← io_pure (schema_from_checkpoint previous_checkpoint);
  previous_iceberg_metadata ← io_pure (ok_or (cp_iceberg_metadata previous_checkpoint)
    (validation "DynamoDB writes currently require Iceberg-backed storage"));
  schema ← io_pure (merged_row_schema rows fallback_schema);
  rows ← io_pure (coerce_rows_to_schema rows schema);
  checkpoint_id ← io_next_id;
  output_path ← mutation_output_file_path previous_checkpoint checkpoint_id;
  size ← io_write output_path rows schema;
  io_publish (mutated_checkpoint previous_checkpoint previous_iceberg_metadata schema checkpoint_id output_path size).

(** SRC query_server/src/dynamodb_protocol.rs:1042-1084 handle_put_item *)
Definition handle_put_item (request : PutItemRequest) : io W (option Object) :=
  context ← load_dynamodb_table_context (put_table_name request);
  let key_schema := primary_key_schema (ctx_config context) in
  item ← io_pure (dynamodb_item_to_json_row (put_item request));
  _ ← io_pure (validate_put_item_fields (ctx_schema context) item);
  item_key ← io_pure (parse_item_key_map (put_item request) key_schema);
  return_values ← io_pure (parse_write_return_values (put_return_values request) "PutItem");
  condition_expression ← io_pure (parse_condition_expression (put_condition_expression request)
    (put_expression_attribute_names request) (put_expression_attribute_values request));
  '(checkpoint, rows) ← load_mutable_table_rows (put_table_name request);
  '(existing_item, retained_rows) ← io_pure (split_rows_by_key rows key_schema item_key);
  matches ← io_pure (condition_matches existing_item condition_expression);
  if negb matches then io_pure (conditional_check_failed "The conditional request failed")
  else
    _ ← publish_mutated_checkpoint checkpoint (retained_rows ++ [item]);
    match return_values with
    | RVNone => mret None
    | RVAllOld => match existing_item with
                  | Some row => item ← io_pure (json_row_to_dynamodb_item row); mret (Some item)
                  | None => mret None
                  end
    | _ => io_pure (Panic "PutItem parser should reject update-only ReturnValues variants")
    end.

(** SRC query_server/src/dynamodb_protocol.rs:2613-2630 updated_attribute_projection *)
Definition updated_attribute_projection (item : option Value) (touched_fields : list string) : ddb Object :=
  match item with
  | None => Ok []
  | Some item =>
      object ← ok_or (as_object item) (internal "Updated DynamoDB item was not an object");
      foldM (λ attributes field,
        match visible_object_value object field with
        | Some value => attr ← json_to_dynamodb_attr value; Ok (obj_insert field attr attributes)
        | None => Ok attributes
        end) [] touched_fields
  end.

(** SRC query_server/src/dynamodb_protocol.rs:2590-2611 update_return_attributes *)
Definition update_return_attributes (return_values : WriteReturnValues) (old_item : option Value) (new_item : Value)
    (touched_fields : list string) : ddb (option Object) :=
  match return_values with
  | RVNone => Ok None
  | RVAllOld => match old_item with Some row => item ← json_row_to_dynamodb_item row; Ok (Some item) | None => Ok None end
  | RVAllNew => item ← json_row_to_dynamodb_item new_item; Ok (Some item)
  | RVUpdatedOld => map ← updated_attribute_projection old_item touched_fields; Ok (match map with [] => None | _ => Some map end)
  | RVUpdatedNew => map ← updated_attribute_projection (Some new_item) touched_fields; Ok (match map with [] => None | _ => Some map end)
  end.

(** SRC query_server/src/dynamodb_protocol.rs:1086-1133 handle_update_item *)
Definition handle_update_item (request : UpdateItemRequest) : io W (option Object) :=
  context ← load_dynamodb_table_context (upd_table_name request);
  let key_schema := primary_key_schema (ctx_config context) in
  key ← io_pure (parse_key_map (upd_key request) key_schema);
  return_values ← io_pure (parse_write_return_values (upd_return_values request) "UpdateItem");
  condition_expression ← io_pure (parse_condition_expression (upd_condition_expression request)
    (upd_expression_attribute_names request) (upd_expression_attribute_values request));
  parsed_update_expression ← io_pure (parse_update_expression (upd_update_expression request)
    (upd_expression_attribute_names request) (upd_expression_attribute_values request) (ctx_schema context) key_schema);
  '(checkpoint, rows) ← load_mutable_table_rows (upd_table_name request);
  '(existing_item, retained_rows) ← io_pure (split_rows_by_key rows key_schema key);
  matches ← io_pure (condition_matches existing_item condition_expression);
  if negb matches then io_pure (conditional_check_failed "The conditional request failed")
  else
    updated_item ← io_pure (apply_update_expression existing_item key_schema key parsed_update_expression);
    _ ← publish_mutated_checkpoint checkpoint (retained_rows ++ [updated_item]);
    io_pure (update_return_attributes return_values existing_item updated_item (pu_touched_fields parsed_update_expression)).

(** SRC query_server/src/dynamodb_protocol.rs:1135-1175 handle_delete_item *)
Definition handle_delete_item (request : DeleteItemRequest) : io W (option Object) :=
  context ← load_dynamodb_table_context (del_table_name request);
  let key_schema := primary_key_schema (ctx_config context) in
  key ← io_pure (parse_key_map (del_key request) key_schema);
  return_values ← io_pure (parse_write_return_values (del_return_values request) "DeleteItem");
  condition_expression ← io_pure (parse_condition_expression (del_condition_expression request)
    (del_expression_attribute_names request) (del_expression_attribute_values request));
  '(checkpoint, rows) ← load_mutable_table_rows (del_table_name request);
  '(existing_item, retained_rows) ← io_pure (split_rows_by_key rows key_schema key);
  matches ← io_pure (condition_matches existing_item condition_expression);
  if negb matches then io_pure (conditional_check_failed "The conditional request failed")
  else
    _ ← (match existing_item with
         | Some _ => publish_mutated_checkpoint checkpoint retained_rows
         | None => mret ()
         end);
    match return_values with
    | RVNone => mret None
    | RVAllOld => match existing_item with
                  | Some row => item ← io_pure (json_row_to_dynamodb_item row); mret (Some item)
                  | None => mret None
                  end
    | _ => io_pure (Panic "DeleteItem parser should reject update-only ReturnValues variants")
    end.

(** SRC query_server/src/dynamodb_protocol.rs:2550-2572 parse_batch_write_request *)
Definition parse_batch_write_request (request : BatchWriteRequest) (schema : PowdrrSchema) (key_schema : DynamoDbKeySchemaConfig) : ddb BatchWriteOperation :=
  match bw_put_request request, bw_delete_request request with
  | Some _, Some _ => validation "BatchWriteItem request entries cannot include both PutRequest and DeleteRequest"
  | None, None => validation "BatchWriteItem request entries must include PutRequest or DeleteRequest"
  | Some raw, None =>
      item ← dynamodb_item_to_json_row raw;
      _ ← validate_put_item_fields schema item;
      key ← parse_item_key_map raw key_schema;
      Ok (BatchPut item key)
  | None, Some raw => key ← parse_key_map raw key_schema; Ok (BatchDelete key)
  end.

Definition operation_key (op : BatchWriteOperation) : gmap string Value :=
  match op with BatchPut _ key | BatchDelete key => key end.

(** The requests of one table: parsed, with the keys seen so far in the whole batch. *)
Fixpoint parse_batch_requests (table_name : string) (schema : PowdrrSchema) (key_schema : DynamoDbKeySchemaConfig)
    (requests : list BatchWriteRequest) (duplicate_keys : list string) : ddb (list BatchWriteOperation * list string) :=
  match requests with
  | [] => Ok ([], duplicate_keys)
  | request :: requests =>
      operation ← parse_batch_write_request request schema key_schema;
      let duplicate_key := table_name +:+ ":" +:+ json_text (canonical_key_value key_schema (operation_key operation)) in
      if decide (duplicate_key ∈ duplicate_keys) then
        validation "BatchWriteItem cannot perform multiple operations on the same item in one request"
      else
        '(operations, duplicate_keys) ← parse_batch_requests table_name schema key_schema requests (duplicate_key :: duplicate_keys);
        Ok (operation :: operations, duplicate_keys)
  end.

(** The first loop of [handle_batch_write_item]: nothing is written. *)
Fixpoint parse_batch_tables (items : list (string * list BatchWriteRequest)) (duplicate_keys : list string) :
    io W (list (string * DynamoDbKeySchemaConfig * list BatchWriteOperation)) :=
  match items with
  | [] => mret []
  | (table_name, requests) :: items =>
      match requests with
      | [] => io_pure (validation ("BatchWriteItem requires at least one write request for table " +:+ table_name))
      | _ =>
          context ← load_dynamodb_table_context table_name;
          let key_schema := primary_key_schema (ctx_config context) in
          '(operations, duplicate_keys) ← io_pure (parse_batch_requests table_name (ctx_schema context) key_schema requests duplicate_keys);
          mutations ← parse_batch_tables items duplicate_keys;
          mret ((table_name, key_schema, operations) :: mutations)
      end
  end.

(** One operation on the rows; the flag says whether anything changed. *)
Definition apply_batch_operation (key_schema : DynamoDbKeySchemaConfig) (acc : list Value * bool) (operation : BatchWriteOperation) : ddb (list Value * bool) :=
  let '(rows, changed) := acc in
  match operation with
  | BatchPut item key =>
      '(_, retained_rows) ← split_rows_by_key rows key_schema key;
      Ok (retained_rows ++ [item], true)
  | BatchDelete key =>
      '(existing_item, retained_rows) ← split_rows_by_key rows key_schema key;
      Ok (retained_rows, changed || bool_decide (is_Some existing_item))
  end.

(** The second loop: table by table. *)
Fixpoint write_batch_tables (mutations : list (string * DynamoDbKeySchemaConfig * list BatchWriteOperation)) : io W () :=
  match mutations with
  | [] => mret ()
  | (table_name, key_schema, operations) :: mutations =>
      '(checkpoint, rows) ← load_mutable_table_rows table_name;
      '(rows, changed) ← io_pure (foldM (apply_batch_operation key_schema) (rows, false) operations);
      _ ← (if changed : bool then publish_mutated_checkpoint checkpoint rows else mret ());
      write_batch_tables mutations
  end.

(** SRC query_server/src/dynamodb_protocol.rs:1177-1257 handle_batch_write_item *)
Definition handle_batch_write_item (request_items : gmap string (list BatchWriteRequest)) : io W () :=
  let items := hash_iter request_items in
  match items with
  | [] => io_pure (validation "BatchWriteItem requires at least one table entry")
  | _ =>
      if 25 <? sum_list (length <$> items.*2) then io_pure (validation "BatchWriteItem supports at most 25 write requests")
      else
        mutations ← parse_batch_tables items [];
        write_batch_tables mutations
  end.
End handlers.

(** ** What is documented of the surroundings

    A published checkpoint becomes the latest of its table, metadata is read back as it
    was stored, and taking ids and writing files leave it alone.  A Parquet file gives back
    the rows written to it when they have the types of its schema, which has a column for
    each of their fields; a query without ORDER BY gives them in any order, and whether a
    null field comes back as a null or not at all is left open. *)

(** A value of a type: nulls are of every type, integers have 64 bits, and an object has
    the fields of its type and no others.  Doubles are left out. *)
Fixpoint has_type (t : PowdrrDataType) (v : Value) {struct t} : Prop :=
  match t, v with
  | _, VNull => True
  | TBoolean, VBool _ | TString, VString _ => True
  | TInteger, VNumber (PosInt n) => (0 ≤ n < 2 ^ 63)%Z
  | TInteger, VNumber (NegInt n) => (- 2 ^ 63 ≤ n < 0)%Z
  | TArray t, VArray l => Forall (has_type t) l
  | TObject (mkSchema fs), VObject m =>
      NoDup (obj_keys m) ∧ Forall (λ k, k ∈ name <$> fs) (obj_keys m) ∧
      (fix go (fs : list PowdrrField) : Prop :=
         match fs with
         | [] => True
         | mkField n t :: fs => match obj_get n m with Some v => has_type t v | None => False end ∧ go fs
         end) fs
  | _, _ => False
  end.
Definition fits_schema (schema : PowdrrSchema) (row : Value) : Prop := is_Some (as_object row) ∧ has_type (TObject schema) row.

(** Equal but for null fields, which may be missing. *)
Inductive same_value : Value → Value → Prop :=
| same_leaf v : as_object v = None → as_array v = None → same_value v v
| same_array l l' : Forall2 same_value l l' → same_value (VArray l) (VArray l')
| same_object m m' : (∀ f, option_Forall2 same_value (visible_object_value m f) (visible_object_value m' f)) → same_value (VObject m) (VObject m').

(** The same rows, in any order. *)
Definition same_rows (rows rows' : list Value) : Prop := ∃ p, p ≡ₚ rows ∧ Forall2 same_value p rows'.

Lemma same_value_refl v : same_value v v.
Proof.
  induction v as [| | | |l IH|m IH] using Value_nested_ind; try by constructor.
  - apply same_array. by apply Forall_Forall2_diag.
  - apply same_object. intros f. destruct (visible_object_value m f) as [v|] eqn:Hv; constructor. rw Forall_forall in IH.
    rw /visible_object_value in Hv. destruct (obj_get f m) as [v'|] eqn:Hg; [|done]. destruct (is_null v'); [done|]. injection Hv as ->.
    by apply (IH (f, v)), obj_get_elem.
Qed.

Definition same_metadata {W} `{ItemStore W} (w w' : W) : Prop :=
  ∀ t, get_latest_checkpoint w' t = get_latest_checkpoint w t ∧ ∀ id, get_checkpoint w' t id = get_checkpoint w t id.

Class ItemStoreLaws (W : Type) (store : ItemStore W) : Prop := {
  added_is_latest : ∀ cp w, get_latest_checkpoint (add_checkpoint cp w) (cp_table_name cp) = Ok (Some (cp_checkpoint_id cp));
  added_is_stored : ∀ cp w, get_checkpoint (add_checkpoint cp w) (cp_table_name cp) (cp_checkpoint_id cp) = Ok (Some cp);
  checkpoint_table : ∀ w t id cp, get_checkpoint w t id = Ok (Some cp) → cp_table_name cp = t;
  added_scan : ∀ cp w files, scan_files (add_checkpoint cp w) files = scan_files w files;
  ids_metadata : ∀ w, same_metadata w (take_id w).2;
  write_metadata : ∀ path rows schema w, same_metadata w (write_parquet path rows schema w).2;
  written_scan : ∀ path rows schema w size w',
    Forall (fits_schema schema) rows → write_parquet path rows schema w = (Ok size, w') →
    ∃ rows', scan_files w' [mkFile path schema size] = Ok rows' ∧ same_rows rows rows';
}.

(** ** Lemmas on the handlers *)

Lemma io_bind_inv {W A B} (m : io W A) (k : A → io W B) w b w' :
  (m ≫= k) w = (Ok b, w') → ∃ a w1, m w = (Ok a, w1) ∧ k a w1 = (Ok b, w').
Proof. rw {1}/mbind /io_bind. destruct (m w) as [[a|e|r] w1]; naive_solver. Qed.

Lemma io_pure_inv {W A} (m : ddb A) (w : W) a w' : io_pure m w = (Ok a, w') → m = Ok a ∧ w' = w.
Proof. rw /io_pure. naive_solver. Qed.

Lemma io_read_inv {W A} (f : W → ddb A) (w : W) a w' : io_read f w = (Ok a, w') → f w = Ok a ∧ w' = w.
Proof. rw /io_read. naive_solver. Qed.

Lemma io_ret_inv {W A} (a : A) (w : W) b w' : mret (M:=io W) a w = (Ok b, w') → b = a ∧ w' = w.
Proof. rw /mret /io_ret. naive_solver. Qed.

Lemma io_assoc {W A B C} (m : io W A) (k : A → io W B) (l : B → io W C) w : ((m ≫= k) ≫= l) w = (m ≫= λ a, k a ≫= l) w.
Proof. rw /mbind /io_bind. by destruct (m w) as [[] ?]. Qed.

Lemma io_bind_ext {W A B} (m : io W A) (k k' : A → io W B) w :
  (∀ a w, k a w = k' a w) → (m ≫= k) w = (m ≫= k') w.
Proof. intros Hk. rw /mbind /io_bind. destruct (m w) as [[] ?]; [apply Hk|done..]. Qed.

Ltac io_inv :=
  repeat match goal with
  | H : (_ ≫= _) _ = (Ok _, _) |- _ => let Hm := fresh "Hm" in apply io_bind_inv in H as (? & ? & Hm & H); cbv beta in H
  | H : io_pure _ _ = (Ok _, _) |- _ => apply io_pure_inv in H as [H ->]
  | H : io_read _ _ = (Ok _, _) |- _ => apply io_read_inv in H as [H ->]
  | H : mret _ _ = (Ok _, _) |- _ => apply io_ret_inv in H as [H ->]
  | H : (let (_, _) := ?p in _) _ = (Ok _, _) |- _ => destruct p
  | H : ok_or ?o _ = Ok _ |- _ => let Ho := fresh "Ho" in destruct o eqn:Ho; [simpl in H; injection H as H; subst|discriminate H]
  end.

Section handler_laws.
Context {W : Type} `{store : ItemStore W} `{laws : !ItemStoreLaws W store} `{ft : FloatText} `{ho : HashOrder}.

(** Reading does not change the world. *)
Lemma load_context_pure t (w : W) c w' : load_dynamodb_table_context t w = (Ok c, w') → w' = w.
Proof. rw /load_dynamodb_table_context /load_table_description /load_table_schema. intros H. io_inv. done. Qed.

Lemma load_rows_pure t (w : W) r w' : load_mutable_table_rows t w = (Ok r, w') → w' = w ∧ cp_table_name r.1 = t.
Proof.
  rw /load_mutable_table_rows /load_latest_base_checkpoint. intros H. io_inv. subst. split; [done|]. simpl.
  apply bind_Ok_inv in Hm as (id & _ & Hm). apply bind_Ok_inv in Hm as (id' & _ & Hm).
  apply bind_Ok_inv in Hm as (cp & Hcp & Hm). destruct cp as [cp|]; [|done]. injection Hm as ->.
  rw /service_error in Hcp. case_match; simplify_eq. eapply checkpoint_table. eassumption.
Qed.

(** What a checkpoint of one file reads as. *)
Lemma load_mutated prev im schema id path size (w : W) rows :
  scan_files w [mkFile path schema size] = Ok rows →
  load_mutable_table_rows (cp_table_name prev) (add_checkpoint (mutated_checkpoint prev im schema id path size) w) =
  (Ok (mutated_checkpoint prev im schema id path size, rows), add_checkpoint (mutated_checkpoint prev im schema id path size) w).
Proof.
  intros Hs. set (cp := mutated_checkpoint prev im schema id path size). set (w1 := add_checkpoint cp w).
  assert (Hlatest : get_latest_checkpoint w1 (cp_table_name prev) = Ok (Some id)) by exact (added_is_latest cp w).
  assert (Hcp : get_checkpoint w1 (cp_table_name prev) id = Ok (Some cp)) by exact (added_is_stored cp w).
  rw /load_mutable_table_rows /load_latest_base_checkpoint. rw {1}/mbind /io_bind /io_read Hlatest /= Hcp /=.
  rw {1}/mbind /io_bind /io_pure /= {1}/mbind /io_bind. rw /w1 added_scan Hs /=. done.
Qed.

(** The latest checkpoint of a table has one file, of this schema, and no speedboat files,
    and reads as these rows when they fit the schema. *)
Definition now_has (w : W) (t : string) (schema : PowdrrSchema) (rows : list Value) : Prop :=
  ∃ cp path size, load_latest_base_checkpoint t w = (Ok cp, w) ∧
    checkpoint_file_descriptors cp "writes" = Ok [mkFile path schema size] ∧ cp_speedboat_metadata cp = None ∧
    (Forall (fits_schema schema) rows → ∃ rows', load_mutable_table_rows t w = (Ok (cp, rows'), w) ∧ same_rows rows rows').

Lemma load_latest_mutated prev im schema id path size (w : W) :
  load_latest_base_checkpoint (cp_table_name prev) (add_checkpoint (mutated_checkpoint prev im schema id path size) w) =
  (Ok (mutated_checkpoint prev im schema id path size), add_checkpoint (mutated_checkpoint prev im schema id path size) w).
Proof.
  set (cp := mutated_checkpoint prev im schema id path size). set (w1 := add_checkpoint cp w).
  assert (Hlatest : get_latest_checkpoint w1 (cp_table_name prev) = Ok (Some id)) by exact (added_is_latest cp w).
  assert (Hcp : get_checkpoint w1 (cp_table_name prev) id = Ok (Some cp)) by exact (added_is_stored cp w).
  by rw /load_latest_base_checkpoint /io_read Hlatest /= Hcp /=.
Qed.

Lemma publish_spec cp rows (w w' : W) :
  publish_mutated_checkpoint cp rows w = (Ok (), w') →
  ∃ fallback schema coerced, schema_from_checkpoint cp = Ok fallback ∧ merged_row_schema rows fallback = Ok schema ∧
    coerce_rows_to_schema rows schema = Ok coerced ∧ now_has w' (cp_table_name cp) schema coerced.
Proof.
  rw /publish_mutated_checkpoint. intros H. io_inv. rw /io_publish in H. injection H as <-. rw /io_write in Hm5.
  eexists _, _, _. split_and!; [eassumption..|]. eexists _, _, _. split_and!; [apply load_latest_mutated|done|done|].
  intros Hfit. destruct (written_scan _ _ _ _ _ _ Hfit Hm5) as (rows' & Hscan & Hsame).
  exists rows'. split; [exact (load_mutated _ _ _ _ _ _ _ _ Hscan)|done].
Qed.

(** The two halves of a put: everything before the publication, and the answer. *)
Definition put_prepare (request : PutItemRequest) : io W (TableMetadataCheckpoint * list Value * option Value * WriteReturnValues) :=
  context ← load_dynamodb_table_context (put_table_name request);
  let key_schema := primary_key_schema (ctx_config context) in
  item ← io_pure (dynamodb_item_to_json_row (put_item request));
  _ ← io_pure (validate_put_item_fields (ctx_schema context) item);
  item_key ← io_pure (parse_item_key_map (put_item request) key_schema);
  return_values ← io_pure (parse_write_return_values (put_return_values request) "PutItem");
  condition_expression ← io_pure (parse_condition_expression (put_condition_expression request)
    (put_expression_attribute_names request) (put_expression_attribute_values request));
  '(checkpoint, rows) ← load_mutable_table_rows (put_table_name request);
  '(existing_item, retained_rows) ← io_pure (split_rows_by_key rows key_schema item_key);
  matches ← io_pure (condition_matches existing_item condition_expression);
  if negb matches then io_pure (conditional_check_failed "The conditional request failed")
  else mret (checkpoint, retained_rows ++ [item], existing_item, return_values).

Definition put_respond (existing_item : option Value) (return_values : WriteReturnValues) : io W (option Object) :=
  match return_values with
  | RVNone => mret None
  | RVAllOld => match existing_item with
                | Some row => item ← io_pure (json_row_to_dynamodb_item row); mret (Some item)
                | None => mret None
                end
  | _ => io_pure (Panic "PutItem parser should reject update-only ReturnValues variants")
  end.

(** Sequencing is associative, so the handler is preparation, publication, answer. *)
Lemma handle_put_phases request (w : W) :
  handle_put_item request w =
  ('(checkpoint, rows, existing_item, return_values) ← put_prepare request;
   _ ← publish_mutated_checkpoint checkpoint rows;
   put_respond existing_item return_values) w.
Proof.
  rw /handle_put_item /put_prepare.
  repeat (rw io_assoc; apply io_bind_ext; intros ? ?; cbv beta iota zeta; try case_match).
  all: try done.
Qed.

Lemma parse_key_map_get raw ks key :
  parse_key_map raw ks = Ok key →
  ∀ f, f ∈ key_fields ks → ∃ a v, obj_get f raw = Some a ∧ dynamodb_attr_to_json a = Ok v ∧ key !! f = Some v.
Proof.
  rw /parse_key_map /key_fields. intros Hp. apply bind_Ok_inv in Hp as (a & Ha & Hp). apply bind_Ok_inv in Hp as (v & Hv & Hp).
  destruct (obj_get (partition_key ks) raw) as [a0|] eqn:Hpk; [|done]. injection Ha as ->.
  apply bind_Ok_inv in Hp as (parsed & Hs & Hp). case_match; [|done]. injection Hp as <-.
  destruct (sort_key ks) as [sk|]; simpl.
  - apply bind_Ok_inv in Hs as (b & Hb & Hs). apply bind_Ok_inv in Hs as (vb & Hvb & [= <-]).
    destruct (obj_get sk raw) as [b0|] eqn:Hsk; [|done]. injection Hb as ->.
    intros f Hf. destruct (decide (f = sk)) as [->|Hne]; [exists b, vb; by rw lookup_insert_eq|].
    assert (f = partition_key ks) as -> by set_solver. exists a, v.
    rw lookup_insert_ne; [congruence|]. by rw lookup_singleton_eq.
  - injection Hs as <-. intros f ->%list_elem_of_singleton. exists a, v. by rw lookup_singleton_eq.
Qed.

Lemma copy_key_attr_inv (item : Object) target f key :
  copy_key_attr item target f = Ok key → ∃ a, obj_get f item = Some a ∧ key = obj_insert f a target.
Proof. rw /copy_key_attr. destruct (obj_get f item) as [a|]; [|done]. intros [= <-]. by exists a. Qed.

(** The key of an item is read from the item. *)
Lemma parse_item_key_get raw ks key :
  parse_item_key_map raw ks = Ok key →
  ∀ f, f ∈ key_fields ks → ∃ a v, obj_get f raw = Some a ∧ dynamodb_attr_to_json a = Ok v ∧ key !! f = Some v.
Proof.
  rw /parse_item_key_map. intros Hp. apply bind_Ok_inv in Hp as (k1 & (a & Ha & ->)%copy_key_attr_inv & Hp).
  apply bind_Ok_inv in Hp as (k2 & Hk2 & Hp). intros f Hf. destruct (parse_key_map_get _ _ _ Hp f Hf) as (x & v & Hx & Hv & Hkey).
  exists x, v. split; [|done]. rw -Hx. rw /key_fields in Hf. destruct (sort_key ks) as [sk|]; simpl in Hf.
  - apply copy_key_attr_inv in Hk2 as (b & Hb & ->). rw obj_get_insert. case_decide as Hd; [by subst|].
    assert (f = partition_key ks) as -> by set_solver. by rw /= decide_True.
  - injection Hk2 as <-. apply list_elem_of_singleton in Hf as ->. by rw /= decide_True.
Qed.

Lemma item_has_key raw ks key m :
  NoDup (obj_keys raw) → parse_item_key_map raw ks = Ok key → dynamodb_item_to_json_row raw = Ok (VObject m) →
  has_key ks key m = true ∧ NoDup (obj_keys m).
Proof.
  intros Hnd Hkey Hm. rw /dynamodb_item_to_json_row in Hm. apply bind_Ok_inv in Hm as (m' & Hc & [= ->]). split.
  - apply forallb_forall. intros f Hf%list_elem_of_In. destruct (parse_item_key_get _ _ _ Hkey f Hf) as (a & v & Ha & Hv & ->).
    pose proof (try_collect_object_get _ _ _ _ Hnd Hc f) as Hget. rw Ha in Hget. destruct Hget as (v' & Hv' & ->).
    rw Hv in Hv'. injection Hv' as <-. by apply value_eqb_refl, (dynamodb_attr_to_json_wf a).
  - refine (proj1 (try_collect_object_wf _ (λ _, True) raw [] m _ _ _ Hc)); [by apply Forall_true|constructor|constructor].
Qed.

Lemma parse_return_values_simple v op rv :
  parse_write_return_values v op = Ok rv → op ≠ "UpdateItem" → rv = RVNone ∨ rv = RVAllOld.
Proof. rw /parse_write_return_values. intros H Hop. repeat case_decide; naive_solver. Qed.
End handler_laws.

(** ** Properties *)
Module DynamoItemsTheory.
Section theory.
Context {W : Type} `{store : ItemStore W} `{laws : !ItemStoreLaws W store} `{ft : FloatText} `{ho : HashOrder}.

(** C24. A put installs its item: after PutItem reports success, the latest checkpoint of
    the table has one file, written with the rows the Iceberg files of the table had before
    without those of the item's key, and the item, which has that key; all of them fitted to
    the schema merged from theirs.  When the rows have the types of that schema, reading the
    table gives these rows, in some order and up to null fields. *)
Theorem put_item_installs request (w w' : W) answer cp ms :
  NoDup (obj_keys (put_item request)) →
  load_mutable_table_rows (put_table_name request) w = (Ok (cp, VObject <$> ms), w) →
  handle_put_item request w = (Ok answer, w') →
  ∃ context key item fallback schema coerced,
    load_dynamodb_table_context (put_table_name request) w = (Ok context, w) ∧
    dynamodb_item_to_json_row (put_item request) = Ok (VObject item) ∧
    has_key (primary_key_schema (ctx_config context)) key item = true ∧
    let rows := VObject <$> (filter (λ m, has_key (primary_key_schema (ctx_config context)) key m = false) ms ++ [item]) in
    schema_from_checkpoint cp = Ok fallback ∧ merged_row_schema rows fallback = Ok schema ∧
    coerce_rows_to_schema rows schema = Ok coerced ∧ now_has w' (put_table_name request) schema coerced.
Proof.
  intros Hnd Hload. rw handle_put_phases. intros H. apply io_bind_inv in H as ([[[cp1 rows1] ex] rv] & w1 & Hprep & H).
  apply io_bind_inv in H as ([] & w2 & Hpub & H).
  assert (Hw2 : w' = w2).
  { rw /put_respond in H. destruct rv; try done; [by apply io_ret_inv in H as [_ ->]|]. destruct ex; io_inv; done. }
  subst w2. rw /put_prepare in Hprep. apply io_bind_inv in Hprep as (context & w3 & Hctx & Hprep).
  pose proof (load_context_pure _ _ _ _ Hctx) as ->. apply io_bind_inv in Hprep as (item & w4 & Hitem & Hprep). io_inv.
  rw Hload in Hm3. injection Hm3 as <- <- <-.
  rw split_rows_by_key_exact in Hm4. injection Hm4 as <- <-. destruct x0; [|done]. apply io_ret_inv in Hprep as [[= -> -> -> ->] ->].
  assert (∃ im, item = VObject im) as [im ->].
  { rw /dynamodb_item_to_json_row in Hitem. apply bind_Ok_inv in Hitem as (im & _ & [= <-]). by exists im. }
  pose proof (load_rows_pure _ _ _ _ Hload) as [_ Hname]. simpl in Hname.
  destruct (publish_spec _ _ _ _ Hpub) as (fallback & schema & coerced & H1 & H2 & H3 & H4). rw Hname in H4.
  eexists context, x1, im, fallback, schema, coerced. cbv zeta. rw fmap_app. split_and!; try done.
  by apply (item_has_key (put_item request)).
Qed.

(** An update replaces the item it addresses: after UpdateItem reports success, the table
    has the rows of other keys and the item the update expression makes of the first row
    with the key (or of nothing). *)
Theorem update_item_installs request (w w' : W) answer cp ms :
  load_mutable_table_rows (upd_table_name request) w = (Ok (cp, VObject <$> ms), w) →
  handle_update_item request w = (Ok answer, w') →
  ∃ context key parsed item schema coerced,
    load_dynamodb_table_context (upd_table_name request) w = (Ok context, w) ∧
    parse_key_map (upd_key request) (primary_key_schema (ctx_config context)) = Ok key ∧
    parse_update_expression (upd_update_expression request) (upd_expression_attribute_names request)
      (upd_expression_attribute_values request) (ctx_schema context) (primary_key_schema (ctx_config context)) = Ok parsed ∧
    apply_update_expression (VObject <$> head (filter (λ m, has_key (primary_key_schema (ctx_config context)) key m = true) ms))
      (primary_key_schema (ctx_config context)) key parsed = Ok item ∧
    coerce_rows_to_schema ((VObject <$> filter (λ m, has_key (primary_key_schema (ctx_config context)) key m = false) ms) ++ [item]) schema = Ok coerced ∧
    now_has w' (upd_table_name request) schema coerced.
Proof.
  intros Hload H. rw /handle_update_item in H. apply io_bind_inv in H as (context & w3 & Hctx & H).
  pose proof (load_context_pure _ _ _ _ Hctx) as ->. cbv beta zeta in H. io_inv.
  rw Hload in Hm3. injection Hm3 as <- <- <-. rw split_rows_by_key_exact in Hm4. injection Hm4 as <- <-.
  destruct x0; [|done]. cbn [negb] in H. io_inv. destruct x4.
  pose proof (load_rows_pure _ _ _ _ Hload) as [_ Hname]. simpl in Hname.
  destruct (publish_spec _ _ _ _ Hm4) as (fallback & schema & coerced & _ & _ & H3 & H4). rw Hname in H4.
  exists context, x, x5, x0, schema, coerced. split_and!; done.
Qed.

(** A delete removes exactly the rows of its key: after DeleteItem reports success
    either no row had the key and nothing was written, or the table has the other rows. *)
Theorem delete_item_removes request (w w' : W) answer cp ms :
  load_mutable_table_rows (del_table_name request) w = (Ok (cp, VObject <$> ms), w) →
  handle_delete_item request w = (Ok answer, w') →
  ∃ context key,
    load_dynamodb_table_context (del_table_name request) w = (Ok context, w) ∧
    parse_key_map (del_key request) (primary_key_schema (ctx_config context)) = Ok key ∧
    ((w' = w ∧ ∀ m, m ∈ ms → has_key (primary_key_schema (ctx_config context)) key m = false) ∨
     ∃ schema coerced,
       coerce_rows_to_schema (VObject <$> filter (λ m, has_key (primary_key_schema (ctx_config context)) key m = false) ms) schema = Ok coerced ∧
       now_has w' (del_table_name request) schema coerced).
Proof.
  intros Hload H. rw /handle_delete_item in H. apply io_bind_inv in H as (context & w3 & Hctx & H).
  pose proof (load_context_pure _ _ _ _ Hctx) as ->. cbv beta zeta in H. io_inv.
  rw Hload in Hm2. injection Hm2 as <- <- <-. rw split_rows_by_key_exact in Hm3. injection Hm3 as <- <-.
  destruct x0; [|done]. cbn [negb] in H. apply io_bind_inv in H as ([] & w1 & Hpub & H).
  assert (Hw1 : w' = w1).
  { destruct x1; try done; [by apply io_ret_inv in H as [_ ->]|]. case_match; io_inv; done. }
  subst w1. exists context, x. split; [done|]. split; [done|].
  match type of Hpub with context [head ?l] => destruct (head l) as [m0|] eqn:Hh end; simpl in Hpub.
  - right. pose proof (load_rows_pure _ _ _ _ Hload) as [_ Hname]. simpl in Hname.
    destruct (publish_spec _ _ _ _ Hpub) as (fallback & schema & coerced & _ & _ & H3 & H4). rw Hname in H4.
    by exists schema, coerced.
  - left. apply io_ret_inv in Hpub as [_ ->]. split; [done|]. intros m Hm'. apply not_true_iff_false. intros Hk.
    apply head_None in Hh. assert (Hin : m ∈ filter (λ m, has_key (primary_key_schema (ctx_config context)) x m = true) ms)
      by (apply list_elem_of_filter; done).
    rw Hh in Hin. by apply elem_of_nil in Hin.
Qed.
End theory.
End DynamoItemsTheory.

(** ** Examples *)
Module DynamoItemsDemo.
Import DynamoItemsTheory DynamoAttrDemo DynamoUpdateDemo.

(** A store in memory: an id counter, the latest checkpoint of each table, all
    checkpoints and the rows of every file. *)
Record Memory : Type := mkMemory {
  mem_next : nat;
  mem_latest : gmap string string;
  mem_checkpoints : gmap (string * string) TableMetadataCheckpoint;
  mem_files : gmap string (list Value);
}.

Definition demo_type (v : Value) : PowdrrDataType :=
  match v with
  | VString _ => TString
  | VBool _ => TBoolean
  | VNumber (NFloat _) => TFloat
  | VNumber _ => TInteger
  | VArray _ => TArray TString
  | VObject m => TObject (mkSchema ((λ kv, mkField kv.1 (TArray TString)) <$> m))
  | VNull => TNull
  end.
Definition demo_infer (v : Value) : PowdrrSchema :=
  match v with VObject m => mkSchema ((λ kv, mkField kv.1 (demo_type kv.2)) <$> m) | _ => minimal end.

Definition demo_config : DynamoDbTableConfig := mkDynamoDb "id" None [] [].
Definition demo_description : TableDescription := mkTableDescription "t" ∅ None None (Some demo_config) None None.
Definition demo_checkpoint (w : Memory) (t id : string) : option TableMetadataCheckpoint :=
  cp ← mem_checkpoints w !! (t, id); if decide (cp_table_name cp = t) then Some cp else None.

#[export] Instance memory_store : ItemStore Memory := {
  describe_table := λ w t, Ok (Some demo_description);
  get_latest_checkpoint := λ w t, Ok (mem_latest w !! t);
  get_checkpoint := λ w t id, Ok (demo_checkpoint w t id);
  load_active_checkpoint := λ w t, match mem_latest w !! t ≫= demo_checkpoint w t with Some cp => Ok cp | None => internal "no checkpoint" end;
  scan_files := λ w fs, Ok (fs ≫= λ f, default [] (mem_files w !! file_path f));
  infer_schema := demo_infer;
  take_id := λ w, (print_nat (Z.of_nat (mem_next w)), mkMemory (S (mem_next w)) (mem_latest w) (mem_checkpoints w) (mem_files w));
  s3_ingest_base_path := "s3://bucket";
  local_directory := λ w t, Ok ("/tmp/powdrr-dynamodb-writes/" +:+ t);
  write_parquet := λ path rows schema w, (Ok 1%Z, mkMemory (mem_next w) (mem_latest w) (mem_checkpoints w) (<[path := rows]> (mem_files w)));
  add_checkpoint := λ cp w, mkMemory (mem_next w) (<[cp_table_name cp := cp_checkpoint_id cp]> (mem_latest w))
    (<[(cp_table_name cp, cp_checkpoint_id cp) := cp]> (mem_checkpoints w)) (mem_files w);
  json_text := λ v, match v with VObject [(_, VString s)] => s | _ => "" end;
}.

#[export] Instance memory_laws : ItemStoreLaws Memory memory_store.
Proof.
  split; simpl.
  - intros cp w. by rw lookup_insert_eq.
  - intros cp w. rw /demo_checkpoint /= lookup_insert_eq /=. by rw decide_True.
  - intros w t id cp [= H]. rw /demo_checkpoint in H. destruct (mem_checkpoints w !! (t, id)) as [cp'|]; simpl in H; [|done].
    case_decide; naive_solver.
  - done.
  - done.
  - done.
  - intros path rows schema w size w' _ [= <- <-]. exists rows. simpl. rw lookup_insert_eq /= app_nil_r. split; [done|].
    exists rows. split; [done|]. apply Forall_Forall2_diag, Forall_forall. intros. apply same_value_refl.
Qed.

Definition row (id : string) (n : Z) : Value := VObject [("id", VString id); ("n", int n)].
Definition demo_file (speedboat : option SpeedboatMetadata) : TableMetadataCheckpoint :=
  mkCheckpoint "t" None "0" (Some (mkIcebergMetadata (demo_infer (row "a" 1)) None (mkFileSet ["file:///t/0.parquet"] [demo_infer (row "a" 1)] [0] [1%Z])
    [] [] ["id"; "n"] [] [] [])) speedboat None ∅ (demo_infer (row "a" 1)).
Definition demo_world (speedboat : option SpeedboatMetadata) : Memory :=
  mkMemory 1 {["t" := "0"]} {[("t", "0") := demo_file speedboat]} {["file:///t/0.parquet" := [row "a" 1; row "b" 2]]}.
Definition put (id n : string) : PutItemRequest :=
  mkPut "t" [("id", tagged "S" (VString id)); ("n", tagged "N" (VString n))] None None None None.

Definition rows_of (w : Memory) : ddb (list Value) := r ← (load_mutable_table_rows "t" w).1; Ok r.2.

Lemma put_item_installs_witness :
  ∃ context key item fallback schema coerced,
    load_dynamodb_table_context "t" (demo_world None) = (Ok context, demo_world None) ∧
    dynamodb_item_to_json_row (put_item (put "a" "5")) = Ok (VObject item) ∧
    has_key (primary_key_schema (ctx_config context)) key item = true ∧
    let rows := VObject <$> (filter (λ m, has_key (primary_key_schema (ctx_config context)) key m = false)
      [[("id", VString "a"); ("n", int 1)]; [("id", VString "b"); ("n", int 2)]] ++ [item]) in
    schema_from_checkpoint (demo_file None) = Ok fallback ∧ merged_row_schema rows fallback = Ok schema ∧
    coerce_rows_to_schema rows schema = Ok coerced ∧ now_has (handle_put_item (put "a" "5") (demo_world None)).2 "t" schema coerced.
Proof.
  apply (put_item_installs (put "a" "5") (demo_world None) _ None (demo_file None)).
  - compute_done.
  - vm_compute. reflexivity.
  - vm_compute. reflexivity.
Defined.

(** The rows of this put have the types of the merged schema, and are read back. *)
Theorem put_rows_read_back :
  Forall (fits_schema (demo_infer (row "a" 1))) [row "b" 2; row "a" 5] ∧
  rows_of (handle_put_item (put "a" "5") (demo_world None)).2 = Ok [row "b" 2; row "a" 5].
Proof.
  split; [|by vm_compute]. repeat constructor; cbn; try (by eexists); try lia; try set_solver.
Qed.

Definition bump : UpdateItemRequest :=
  mkUpdate "t" [("id", tagged "S" (VString "b"))] "ADD n :d" None None (Some {[":d" := tagged "N" (VString "3")]}) None.

Lemma update_item_installs_witness :
  ∃ context key parsed item schema coerced,
    load_dynamodb_table_context "t" (demo_world None) = (Ok context, demo_world None) ∧
    parse_key_map (upd_key bump) (primary_key_schema (ctx_config context)) = Ok key ∧
    parse_update_expression (upd_update_expression bump) (upd_expression_attribute_names bump)
      (upd_expression_attribute_values bump) (ctx_schema context) (primary_key_schema (ctx_config context)) = Ok parsed ∧
    apply_update_expression (VObject <$> head (filter (λ m, has_key (primary_key_schema (ctx_config context)) key m = true)
      [[("id", VString "a"); ("n", int 1)]; [("id", VString "b"); ("n", int 2)]]))
      (primary_key_schema (ctx_config context)) key parsed = Ok item ∧
    coerce_rows_to_schema ((VObject <$> filter (λ m, has_key (primary_key_schema (ctx_config context)) key m = false)
      [[("id", VString "a"); ("n", int 1)]; [("id", VString "b"); ("n", int 2)]]) ++ [item]) schema = Ok coerced ∧
    now_has (handle_update_item bump (demo_world None)).2 "t" schema coerced.
Proof.
  apply (update_item_installs bump (demo_world None) _ None (demo_file None)).
  - vm_compute. reflexivity.
  - vm_compute. reflexivity.
Defined.

Definition drop_a : DeleteItemRequest := mkDelete "t" [("id", tagged "S" (VString "a"))] None None None None.

Lemma delete_item_removes_witness :
  ∃ context key, load_dynamodb_table_context "t" (demo_world None) = (Ok context, demo_world None) ∧
    parse_key_map (del_key drop_a) (primary_key_schema (ctx_config context)) = Ok key ∧
    (((handle_delete_item drop_a (demo_world None)).2 = demo_world None ∧
      ∀ m, m ∈ [[("id", VString "a"); ("n", int 1)]; [("id", VString "b"); ("n", int 2)]] → has_key (primary_key_schema (ctx_config context)) key m = false) ∨
     ∃ schema coerced,
       coerce_rows_to_schema (VObject <$> filter (λ m, has_key (primary_key_schema (ctx_config context)) key m = false)
         [[("id", VString "a"); ("n", int 1)]; [("id", VString "b"); ("n", int 2)]]) schema = Ok coerced ∧
       now_has (handle_delete_item drop_a (demo_world None)).2 "t" schema coerced).
Proof.
  apply (delete_item_removes drop_a (demo_world None) _ None (demo_file None)).
  - vm_compute. reflexivity.
  - vm_compute. reflexivity.
Defined.

(** Nothing orders the writes of concurrent requests: when two puts both read the table
    before either publishes, both publish successfully and the first item is gone. *)
Definition interleaved_puts (first second : PutItemRequest) (w : Memory) : ddb (list Value) :=
  '(cp1, rows1, _, _) ← (put_prepare first w).1;
  '(cp2, rows2, _, _) ← (put_prepare second w).1;
  let '(published1, w1) := publish_mutated_checkpoint cp1 rows1 w in
  _ ← published1;
  let '(published2, w2) := publish_mutated_checkpoint cp2 rows2 w1 in
  _ ← published2;
  rows_of w2.

Theorem concurrent_puts_lose_one :
  interleaved_puts (put "c" "3") (put "d" "4") (demo_world None) = Ok [row "a" 1; row "b" 2; row "d" 4].
Proof. vm_compute. reflexivity. Qed.

(** A write reads the Iceberg files of the latest checkpoint only and publishes a
    checkpoint without speedboat files, so rows that were ingested and not yet moved to
    Iceberg are dropped from the table. *)
Theorem write_drops_speedboat_files :
  let w := demo_world (Some (mkSpeedboatMetadata (mkFileSet ["file:///t/fresh.parquet"] [demo_infer (row "a" 1)] [0] [1%Z]))) in
  let '(answer, w') := handle_put_item (put "c" "3") w in
  answer = Ok None ∧ cp_speedboat_metadata <$> (load_latest_base_checkpoint "t" w').1 = Ok None.
Proof. vm_compute. done. Qed.

(** Once one item has a string set, an item without the attribute is stored with a set
    marker around a null, and reading that item fails. *)
Definition tagged_schema : PowdrrSchema :=
  mkSchema [mkField "id" TString; mkField "tags" (TObject (mkSchema [mkField DYNAMODB_STRING_SET_MARKER (TArray TString)]))].

Theorem missing_set_breaks_item :
  (rows ← coerce_rows_to_schema [VObject [("id", VString "a"); ("tags", set_value DYNAMODB_STRING_SET_MARKER [VString "x"])]; VObject [("id", VString "b")]] tagged_schema;
   try_collect json_row_to_dynamodb_item rows) = validation "$string_set marker must contain an array".
Proof. vm_compute. reflexivity. Qed.
End DynamoItemsDemo.
