(* ===== verification/DynamoKeys.v ===== *)
(** * DynamoDB keys, indexes and key conditions (query_server/src/dynamodb_protocol.rs)

    What a Query addresses: the table or one of its indexes, the serving patterns a
    table's configuration declares for them, the key condition of a request as
    predicates on the partition and sort key, and how a paging key narrows them. *)

From S2P Require Import Prelude Text Utf8 StableSort Schema Json FileSet Contract Pruning Planner.
From S2P Require Import DynamoAttr DynamoFilter DynamoUpdate DynamoItems.

(** ** Indexes *)

(** SRC query_server/src/dynamodb_protocol.rs:554-559 DynamoDbIndexKind *)
Inductive DynamoDbIndexKind : Type := IndexTable | LocalSecondaryIndex | GlobalSecondaryIndex.
#[global] Instance DynamoDbIndexKind_eq_dec : EqDecision DynamoDbIndexKind.
Proof. solve_decision. Defined.

(** SRC query_server/src/dynamodb_protocol.rs:561-567 QueryTarget *)
Record QueryTarget : Type := mkQueryTarget {
  qt_key_schema : DynamoDbKeySchemaConfig;
  qt_unique_lookup : bool;
  qt_index_kind : DynamoDbIndexKind;
  qt_index_name : option string;
}.

(** SRC query_server/src/dynamodb_protocol.rs:2670-2677 secondary_index_key_schema *)
Definition secondary_index_key_schema (index : DynamoDbGlobalSecondaryIndexConfig) : DynamoDbKeySchemaConfig :=
  mkKeySchema (gsi_partition_key index) (gsi_sort_key index).

(** SRC query_server/src/dynamodb_protocol.rs:2679-2687 local_secondary_index_key_schema *)
Definition local_secondary_index_key_schema (config : DynamoDbTableConfig) (index : DynamoDbLocalSecondaryIndexConfig) : DynamoDbKeySchemaConfig :=
  mkKeySchema (dd_partition_key config) (Some (lsi_sort_key index)).

(** SRC query_server/src/dynamodb_protocol.rs:2689-2731 query_target *)
Definition query_target (config : DynamoDbTableConfig) (index_name : option string) : ddb QueryTarget :=
  match index_name with
  | Some index_name =>
      match find (λ index, String.eqb (lsi_name index) index_name) (dd_local_secondary_indexes config) with
      | Some index => Ok (mkQueryTarget (local_secondary_index_key_schema config index) false LocalSecondaryIndex (Some (lsi_name index)))
      | None =>
          index ← ok_or (find (λ index, String.eqb (gsi_name index) index_name) (dd_global_secondary_indexes config))
                    (validation ("Unknown local or global secondary index " +:+ index_name));
          Ok (mkQueryTarget (secondary_index_key_schema index) false GlobalSecondaryIndex (Some (gsi_name index)))
      end
  | None => Ok (mkQueryTarget (primary_key_schema config) true IndexTable None)
  end.

(** SRC query_server/src/dynamodb_protocol.rs:2807-2823 dynamodb_key_type *)
Definition dynamodb_key_type (schema : PowdrrSchema) (field_name : string) : ddb string :=
  field ← ok_or (to_map schema !! field_name) (validation ("Unknown key field " +:+ field_name));
  match data_type field with
  | TString => Ok "S"
  | TInteger | TFloat => Ok "N"
  | _ => validation ("Field " +:+ field_name +:+ " is not a valid DynamoDB key type")
  end.

(** SRC query_server/src/dynamodb_protocol.rs:2757-2773 validate_key_schema *)
Definition validate_key_schema (schema : PowdrrSchema) (key_schema : DynamoDbKeySchemaConfig) (label : string) : ddb () :=
  _ ← dynamodb_key_type schema (partition_key key_schema);
  match sort_key key_schema with
  | Some sk =>
      if decide (sk = partition_key key_schema) then validation (label +:+ " sort_key must differ from partition_key")
      else _ ← dynamodb_key_type schema sk; Ok ()
  | None => Ok ()
  end.

(** SRC query_server/src/dynamodb_protocol.rs:2733-2755 validate_local_secondary_index *)
Definition validate_local_secondary_index (schema : PowdrrSchema) (config : DynamoDbTableConfig) (index : DynamoDbLocalSecondaryIndexConfig) : ddb () :=
  if decide (dd_sort_key config = None) then
    validation ("Local secondary index " +:+ lsi_name index +:+ " requires the table to declare a sort key")
  else if decide (dd_sort_key config = Some (lsi_sort_key index)) then
    validation ("Local secondary index " +:+ lsi_name index +:+ " sort_key must differ from the table sort_key")
  else validate_key_schema schema (local_secondary_index_key_schema config index) ("local secondary index " +:+ lsi_name index).

(** SRC query_server/src/dynamodb_protocol.rs:2632-2661 validate_dynamodb_config *)
Definition validate_dynamodb_config (schema : PowdrrSchema) (config : DynamoDbTableConfig) : ddb () :=
  _ ← validate_key_schema schema (primary_key_schema config) "table";
  seen ← foldM (λ seen_index_names index,
    if decide (lsi_name index ∈ seen_index_names) then validation ("Duplicate local secondary index name " +:+ lsi_name index)
    else _ ← validate_local_secondary_index schema config index; Ok (lsi_name index :: seen_index_names)) [] (dd_local_secondary_indexes config);
  _ ← foldM (λ seen_index_names index,
    if decide (gsi_name index ∈ seen_index_names) then validation ("Duplicate global secondary index name " +:+ gsi_name index)
    else
      _ ← validate_key_schema schema (secondary_index_key_schema index) ("global secondary index " +:+ gsi_name index);
      Ok (gsi_name index :: seen_index_names)) seen (dd_global_secondary_indexes config);
  Ok ().

(** ** Serving patterns *)

Definition DYNAMODB_CONFIG_PATTERN_PREFIX : string := "_dynamodb_".

(** The two patterns of a direction: the whole partition, and a range of it. *)
Definition direction_patterns (prefix : string) (key_schema : DynamoDbKeySchemaConfig) (sk : string) (descending : bool) : list ServingPattern :=
  let suffix := if descending then "desc" else "asc" in
  [mkServingPattern (prefix +:+ "partition_query_" +:+ suffix) [partition_key key_schema] None (Some sk) descending None None None;
   mkServingPattern (prefix +:+ "range_query_" +:+ suffix) [partition_key key_schema] (Some sk) (Some sk) descending None None None].

(** SRC query_server/src/dynamodb_protocol.rs:2839-2908 derived_serving_patterns_for_key_schema *)
Definition derived_serving_patterns_for_key_schema (prefix : string) (key_schema : DynamoDbKeySchemaConfig)
    (include_get_item_pattern include_exact_query_pattern : bool) : list ServingPattern :=
  (if include_get_item_pattern
   then [mkServingPattern (prefix +:+ "get_item") (key_fields key_schema) None None false (Some 1%Z) None None] else []) ++
  (if include_exact_query_pattern then
     match sort_key key_schema with
     | Some sk => [mkServingPattern (prefix +:+ "exact_query") [partition_key key_schema; sk] None None false None None None]
     | None => []
     end
   else []) ++
  match sort_key key_schema with
  | Some sk => direction_patterns prefix key_schema sk false ++ direction_patterns prefix key_schema sk true
  | None => []
  end.

(** SRC query_server/src/dynamodb_protocol.rs:2910-2921 sanitize_serving_pattern_suffix *)
Definition sanitize_serving_pattern_suffix (value : string) : string :=
  encode ((λ c, if ((48 <=? c) && (c <=? 57) || (65 <=? c) && (c <=? 90) || (97 <=? c) && (c <=? 122))%N then c else 95%N) <$> chars value).

(** SRC query_server/src/dynamodb_protocol.rs:2923-2958 derived_dynamodb_serving_patterns *)
Definition derived_dynamodb_serving_patterns (config : DynamoDbTableConfig) : list ServingPattern :=
  derived_serving_patterns_for_key_schema DYNAMODB_CONFIG_PATTERN_PREFIX (primary_key_schema config) true false ++
  (dd_local_secondary_indexes config ≫= λ index,
     derived_serving_patterns_for_key_schema (DYNAMODB_CONFIG_PATTERN_PREFIX +:+ "lsi_" +:+ sanitize_serving_pattern_suffix (lsi_name index) +:+ "_")
       (local_secondary_index_key_schema config index) false true) ++
  (dd_global_secondary_indexes config ≫= λ index,
     derived_serving_patterns_for_key_schema (DYNAMODB_CONFIG_PATTERN_PREFIX +:+ "gsi_" +:+ sanitize_serving_pattern_suffix (gsi_name index) +:+ "_")
       (secondary_index_key_schema index) false true).

(** SRC query_server/src/dynamodb_protocol.rs:2825-2837 merge_dynamodb_serving_patterns *)
Definition merge_dynamodb_serving_patterns (existing : option ServingTableConfig) (config : DynamoDbTableConfig) : ServingTableConfig :=
  let patterns := match existing with Some existing => stc_patterns existing | None => [] end in
  mkServingTableConfig
    (filter (λ pattern, starts_with DYNAMODB_CONFIG_PATTERN_PREFIX (sp_name pattern) = false) patterns ++ derived_dynamodb_serving_patterns config).

(** ** Predicates *)

(** A predicate on a field without an operator yet. *)
Definition empty_predicate (field : string) : ServingPredicate := mkServingPredicate field None None None None None None.
Definition eq_predicate (field : string) (value : option Value) : ServingPredicate := mkServingPredicate field value None None None None None.

(** SRC query_server/src/dynamodb_protocol.rs:3480-3505 key_to_predicates *)
Definition key_to_predicates (key_schema : DynamoDbKeySchemaConfig) (key : gmap string Value) : list ServingPredicate :=
  eq_predicate (partition_key key_schema) (key !! partition_key key_schema) ::
  match sort_key key_schema with
  | Some sk => [eq_predicate sk (key !! sk)]
  | None => []
  end.

(** SRC query_server/src/dynamodb_protocol.rs:4041-4050 next_scalar *)
Definition next_scalar (value : N) : option N :=
  if (value =? 0x10FFFF)%N then None
  else if (value =? 0xD7FF)%N then Some 0xE000%N
  else if scalar (value + 1) then Some (value + 1)%N else None.

(** The loop: drop characters from the end until one has a successor. *)
Fixpoint bump_last (reversed : list N) : option (list N) :=
  match reversed with
  | [] => None
  | last :: reversed => match next_scalar last with Some next => Some (next :: reversed) | None => bump_last reversed end
  end.

(** SRC query_server/src/dynamodb_protocol.rs:4030-4039 next_string_prefix_upper_bound *)
Definition next_string_prefix_upper_bound (prefix : string) : option string :=
  (λ reversed, encode (rev reversed)) <$> bump_last (rev (chars prefix)).

(** [str::strip_suffix] of one ASCII character. *)
Fixpoint strip_suffix_char (c : Ascii.ascii) (s : string) : option string :=
  match s with
  | EmptyString => None
  | String a EmptyString => if Ascii.eqb a c then Some "" else None
  | String a s => String a <$> strip_suffix_char c s
  end.

(** SRC query_server/src/dynamodb_protocol.rs:3507-3510 ParsedQuery *)
Record ParsedQuery : Type := mkParsedQuery { pq_partition_value : Value; pq_sort_filter : option ServingPredicate }.

Section key_conditions.
Context `{ft : FloatText} `{ho : HashOrder}.

(** SRC query_server/src/dynamodb_protocol.rs:4010-4028 begins_with_range_predicate *)
Definition begins_with_range_predicate (field value_token : string) (values : gmap string Value) : ddb ServingPredicate :=
  prefix ← lookup_expression_value value_token values;
  prefix ← ok_or (as_str prefix) (validation "begins_with requires a string AttributeValue");
  Ok (mkServingPredicate field None None None (Some (VString prefix)) (VString <$> next_string_prefix_upper_bound prefix) None).

Definition only_sort_key {A} (sk : string) : ddb A := validation ("Only sort key " +:+ sk +:+ " can appear after the partition condition").

(** [match operator { "=" => predicate.eq = Some(value), .. }] *)
Definition operator_predicate (operator : string) (sk : string) (value : Value) : ServingPredicate :=
  let on o := if decide (operator = o) then Some value else None in
  mkServingPredicate sk (on "=") None (on ">") (on ">=") (on "<") (on "<=").

(** The loop over the operators, longest first. *)
Fixpoint parse_sort_operators (operators : list string) (segment sk : string) (values : gmap string Value) : ddb ServingPredicate :=
  match operators with
  | [] => validation "Unsupported KeyConditionExpression form"
  | operator :: operators =>
      match split_once operator segment with
      | Some (left_part, right_part) =>
          if decide (trim left_part = sk) then
            value ← lookup_expression_value (trim right_part) values; Ok (operator_predicate operator sk value)
          else only_sort_key sk
      | None => parse_sort_operators operators segment sk values
      end
  end.

(** SRC query_server/src/dynamodb_protocol.rs:3931-4008 parse_sort_condition *)
Definition parse_sort_condition (segment sk : string) (values : gmap string Value) : ddb ServingPredicate :=
  match strip_prefix "begins_with" segment with
  | Some rest =>
      args ← ok_or (strip_prefix "(" (trim rest) ≫= strip_suffix_char ")") (validation "begins_with must use function syntax");
      '(field, value_token) ← ok_or (split_once "," args) (validation "begins_with must include a sort key and value");
      if decide (trim field = sk) then begins_with_range_predicate sk (trim value_token) values else only_sort_key sk
  | None =>
      match split_once " BETWEEN " segment with
      | Some (left_part, right_part) =>
          if decide (trim left_part = sk) then
            '(start, end_) ← ok_or (split_once " AND " right_part) (validation "BETWEEN must include two values");
            gte ← lookup_expression_value (trim start) values;
            lte ← lookup_expression_value (trim end_) values;
            Ok (mkServingPredicate sk None None None (Some gte) None (Some lte))
          else only_sort_key sk
      | None => parse_sort_operators ["<="; ">="; "<"; ">"; "="] segment sk values
      end
  end.

(** SRC query_server/src/dynamodb_protocol.rs:3512-3552 parse_key_condition_expression *)
Definition parse_key_condition_expression (expression : string) (key_schema : DynamoDbKeySchemaConfig)
    (names : option (gmap string string)) (values : option (gmap string Value)) : ddb ParsedQuery :=
  values ← ok_or values (validation "ExpressionAttributeValues are required for Query");
  let partition_prefix := partition_key key_schema +:+ " = " in
  let expression := resolve_expression_names expression names in
  let '(partition_segment, sort_segment) :=
    match split_once " AND " expression with
    | Some (left_part, right_part) => (trim left_part, Some (trim right_part))
    | None => (trim expression, None)
    end in
  match strip_prefix partition_prefix partition_segment with
  | None => validation ("Query must begin with " +:+ partition_key key_schema +:+ " = :value")
  | Some rest =>
      partition_value ← lookup_expression_value (trim rest) values;
      sort_filter ← match sort_key key_schema, sort_segment with
                    | _, None => Ok None
                    | None, Some _ => validation "This table does not define a sort key"
                    | Some sk, Some segment => predicate ← parse_sort_condition segment sk values; Ok (Some predicate)
                    end;
      Ok (mkParsedQuery partition_value sort_filter)
  end.

(** ** Paging *)

(** [filter.gt = Some(value); filter.gte = None], and the like for [lt]. *)
Definition set_lower (filter : ServingPredicate) (value : Value) : ServingPredicate :=
  mkServingPredicate (sv_field filter) (sv_eq filter) (sv_in_values filter) (Some value) None (sv_lt filter) (sv_lte filter).
Definition set_upper (filter : ServingPredicate) (value : Value) : ServingPredicate :=
  mkServingPredicate (sv_field filter) (sv_eq filter) (sv_in_values filter) (sv_gt filter) (sv_gte filter) (Some value) None.

(** SRC query_server/src/dynamodb_protocol.rs:4118-4137 tighten_lower_bound *)
Definition tighten_lower_bound (filter : ServingPredicate) (candidate : Value) : ddb ServingPredicate :=
  keep ← match sv_gt filter with
         | Some existing => ordering ← compare_scalars existing candidate; Ok (negb (bool_decide (ordering = Lt)))
         | None => Ok false
         end;
  if keep : bool then Ok filter
  else match sv_gte filter with
       | Some existing =>
           ordering ← compare_scalars existing candidate;
           Ok (set_lower filter (if decide (ordering = Gt) then existing else candidate))
       | None => Ok (set_lower filter candidate)
       end.

(** SRC query_server/src/dynamodb_protocol.rs:4139-4158 tighten_upper_bound *)
Definition tighten_upper_bound (filter : ServingPredicate) (candidate : Value) : ddb ServingPredicate :=
  keep ← match sv_lt filter with
         | Some existing => ordering ← compare_scalars existing candidate; Ok (negb (bool_decide (ordering = Gt)))
         | None => Ok false
         end;
  if keep : bool then Ok filter
  else match sv_lte filter with
       | Some existing =>
           ordering ← compare_scalars existing candidate;
           Ok (set_upper filter (if decide (ordering = Lt) then existing else candidate))
       | None => Ok (set_upper filter candidate)
       end.

(** [filters.iter_mut().find(|filter| filter.field == *field)], changed by [f]; [None]
    if there is no such filter. *)
Fixpoint update_first_filter (field : string) (f : ServingPredicate → ddb ServingPredicate) (filters : list ServingPredicate) : option (ddb (list ServingPredicate)) :=
  match filters with
  | [] => None
  | filter :: filters =>
      if decide (sv_field filter = field) then Some (filter ← f filter; Ok (filter :: filters))
      else (λ r, filters ← r; Ok (filter :: filters)) <$> update_first_filter field f filters
  end.

(** What a start value makes of the filter on the sort key. *)
Definition restart_filter (ascending : bool) (start_value : Value) (filter : ServingPredicate) : ddb ServingPredicate :=
  match sv_eq filter with
  | Some eq =>
      if value_eqb eq start_value
      then Ok (mkServingPredicate (sv_field filter) None (sv_in_values filter) (Some start_value) (sv_gte filter) (Some start_value) (sv_lte filter))
      else Ok filter
  | None => if ascending then tighten_lower_bound filter start_value else tighten_upper_bound filter start_value
  end.

(** SRC query_server/src/dynamodb_protocol.rs:4052-4116 apply_exclusive_start_key *)
Definition apply_exclusive_start_key (filters : list ServingPredicate) (key_schema table_key_schema : DynamoDbKeySchemaConfig) (ascending : bool)
    (exclusive_start_key : Object) : ddb (list ServingPredicate) :=
  match sort_key key_schema with
  | None => Ok filters
  | Some sk =>
      parsed_key ← parse_exclusive_start_key_map exclusive_start_key key_schema table_key_schema;
      partition_value ← ok_or (parsed_key !! partition_key key_schema) (validation "ExclusiveStartKey was missing partition key");
      partition_filter ← ok_or (find (λ filter, String.eqb (sv_field filter) (partition_key key_schema)) filters ≫= sv_eq)
                           (validation "Partition key filter was missing");
      if negb (value_eqb partition_filter partition_value) then
        validation "ExclusiveStartKey partition key must match the query partition key"
      else
        start_value ← ok_or (parsed_key !! sk) (validation "ExclusiveStartKey was missing sort key");
        match update_first_filter sk (restart_filter ascending start_value) filters with
        | Some updated => updated
        | None =>
            Ok (filters ++ [if ascending then mkServingPredicate sk None None (Some start_value) None None None
                            else mkServingPredicate sk None None None None (Some start_value) None])
        end
  end.
End key_conditions.
