(* ===== verification/DynamoQuery.v ===== *)
(** * DynamoDB reads (query_server/src/dynamodb_protocol.rs)

    GetItem, BatchGetItem, Query and Scan.  The first three become serving requests and
    are answered by the serving path, the class [ServingPath]; a Scan is one SQL
    statement per group of files of one schema, run by the class [SqlEngine], whose
    results are merged, sorted and cut to a page. *)

From S2P Require Import Prelude Text StableSort Schema Json FileSet Contract Checkpoint QueryPath Pruning Planner.
From S2P Require Import DynamoAttr DynamoFilter DynamoUpdate DynamoItems DynamoKeys.

(** ** Surroundings *)

(** The answer of [execute_serving_query], the parts the front end uses. *)
Record ServingAnswer : Type := mkServingAnswer {
  sa_classification : ServingQueryClassification;
  sa_reason : option string;
  sa_rows : list Value;
}.

(** The serving path: the lookup of exact keys in an active checkpoint, which may
    decline, and the planned query. *)
Class ServingPath (W : Type) : Type := {
  exact_lookup_batch_rows : W → string → list ServingRequestPlan → ddb (option (list (list Value)));
  execute_serving_query : W → string → ServingRequestPlan → srv ServingAnswer;
}.

(** The SQL engine over the files of a group, with the name of their table for
    [{table}]; and [Value::to_string]. *)
Class SqlEngine (W : Type) : Type := {
  run_sql : W → list FileDescriptor → string → ddb (list Value);
  value_text : Value → string;
}.

(** ** Requests and answers *)

(** SRC query_server/src/dynamodb_protocol.rs:530-536 SelectMode *)
Inductive SelectMode : Type := AllAttributes | AllProjectedAttributes | SpecificAttributes | SelectCount.

(** SRC query_server/src/dynamodb_protocol.rs:538-543 ReturnConsumedCapacityMode *)
Inductive ReturnConsumedCapacityMode : Type := CapacityNone | CapacityTotal | CapacityIndexes.

(** SRC query_server/src/dynamodb_protocol.rs:501-506 CapacityBreakdown *)
Record CapacityBreakdown : Type := mkBreakdown { cb_capacity_units : f64; cb_read_capacity_units : f64 }.

(** SRC query_server/src/dynamodb_protocol.rs:481-499 ConsumedCapacity *)
Record ConsumedCapacity : Type := mkConsumedCapacity {
  cc_table_name : string;
  cc_capacity_units : f64;
  cc_read_capacity_units : f64;
  cc_table : option CapacityBreakdown;
  cc_local_secondary_indexes : option (gmap string CapacityBreakdown);
  cc_global_secondary_indexes : option (gmap string CapacityBreakdown);
}.

(** SRC query_server/src/dynamodb_protocol.rs:230-244 GetItemRequest *)
Record GetItemRequest : Type := mkGetItem {
  get_table_name : string;
  get_key : Object;
  get_projection_expression : option string;
  get_expression_attribute_names : option (gmap string string);
  get_consistent_read : option bool;
  get_return_consumed_capacity : option string;
}.

(** SRC query_server/src/dynamodb_protocol.rs:367-378 KeysAndAttributes *)
Record KeysAndAttributes : Type := mkKeys {
  ka_keys : list Object;
  ka_projection_expression : option string;
  ka_expression_attribute_names : option (gmap string string);
  ka_consistent_read : option bool;
}.

(** SRC query_server/src/dynamodb_protocol.rs:390-418 QueryRequest *)
Record QueryRequest : Type := mkQuery {
  q_table_name : string;
  q_key_condition_expression : string;
  q_expression_attribute_names : option (gmap string string);
  q_expression_attribute_values : option (gmap string Value);
  q_projection_expression : option string;
  q_scan_index_forward : option bool;
  q_limit : option nat;
  q_exclusive_start_key : option Object;
  q_index_name : option string;
  q_filter_expression : option string;
  q_consistent_read : option bool;
  q_select : option string;
  q_return_consumed_capacity : option string;
}.

(** SRC query_server/src/dynamodb_protocol.rs:434-459 ScanRequest *)
Record ScanRequest : Type := mkScan {
  s_table_name : string;
  s_expression_attribute_names : option (gmap string string);
  s_expression_attribute_values : option (gmap string Value);
  s_projection_expression : option string;
  s_limit : option nat;
  s_exclusive_start_key : option Object;
  s_index_name : option string;
  s_filter_expression : option string;
  s_consistent_read : option bool;
  s_select : option string;
  s_return_consumed_capacity : option string;
}.

(** SRC query_server/src/dynamodb_protocol.rs:420-432 QueryResponse *)
Record QueryResponse : Type := mkQueryResponse {
  qr_items : list Object;
  qr_count : nat;
  qr_scanned_count : nat;
  qr_last_evaluated_key : option Object;
  qr_consumed_capacity : option ConsumedCapacity;
}.

(** ** Parts of a read request *)

Definition DEFAULT_QUERY_LIMIT : nat := 100.

(** [limit.unwrap_or(DEFAULT_QUERY_LIMIT).clamp(1, 1000)] *)
Definition page_limit (limit : option nat) : nat := Nat.min (Nat.max 1 (default DEFAULT_QUERY_LIMIT limit)) 1000.

(** SRC query_server/src/dynamodb_protocol.rs:1587-1597 validate_consistent_read *)
Definition validate_consistent_read (consistent_read : option bool) (index_kind : DynamoDbIndexKind) : ddb () :=
  if default false consistent_read && bool_decide (index_kind = GlobalSecondaryIndex)
  then validation "Consistent reads are not supported on global secondary indexes" else Ok ().

(** SRC query_server/src/dynamodb_protocol.rs:4173-4188 resolve_attribute_name *)
Definition resolve_attribute_name (token : string) (names : option (gmap string string)) : ddb string :=
  if starts_with "#" token then
    ok_or (names ≫= λ names, names !! token) (validation ("Missing ExpressionAttributeNames entry for " +:+ token))
  else Ok token.

(** SRC query_server/src/dynamodb_protocol.rs:3224-3237 parse_projection_expression *)
Definition parse_projection_expression (expression : option string) (names : option (gmap string string)) : ddb (option (list string)) :=
  match expression with
  | Some expression => fields ← try_collect (λ segment, resolve_attribute_name (trim segment) names) (split_on "," expression); Ok (Some fields)
  | None => Ok None
  end.

(** SRC query_server/src/dynamodb_protocol.rs:3239-3285 parse_select_mode *)
Definition parse_select_mode (select : option string) (projection : option (list string)) (index_name : option string) : ddb SelectMode :=
  if is_some projection && negb (bool_decide (select = Some "SPECIFIC_ATTRIBUTES" ∨ select = None)) then
    validation "ProjectionExpression can only be used when Select is SPECIFIC_ATTRIBUTES"
  else
  match select with
  | None => Ok (if is_some projection then SpecificAttributes else if is_some index_name then AllProjectedAttributes else AllAttributes)
  | Some select =>
      if decide (select = "ALL_ATTRIBUTES") then Ok AllAttributes
      else if decide (select = "ALL_PROJECTED_ATTRIBUTES") then
        if is_some index_name then Ok AllProjectedAttributes else validation "ALL_PROJECTED_ATTRIBUTES requires IndexName"
      else if decide (select = "SPECIFIC_ATTRIBUTES") then
        if is_some projection then Ok SpecificAttributes else validation "SPECIFIC_ATTRIBUTES requires ProjectionExpression"
      else if decide (select = "COUNT") then Ok SelectCount
      else validation ("Unsupported Select value " +:+ select)
  end.

(** SRC query_server/src/dynamodb_protocol.rs:3287-3299 parse_return_consumed_capacity *)
Definition parse_return_consumed_capacity (value : option string) : ddb ReturnConsumedCapacityMode :=
  let value := default "NONE" value in
  if decide (value = "NONE") then Ok CapacityNone
  else if decide (value = "TOTAL") then Ok CapacityTotal
  else if decide (value = "INDEXES") then Ok CapacityIndexes
  else validation ("Unsupported ReturnConsumedCapacity value " +:+ value).

(** SRC query_server/src/dynamodb_protocol.rs:3318-3321 estimate_read_capacity_units *)
Definition estimate_read_capacity_units (read_count : nat) (consistent_read : bool) : f64 :=
  mkF64 (Z.of_nat read_count) (if consistent_read then 0 else -1)%Z.

(** SRC query_server/src/dynamodb_protocol.rs:3323-3370 consumed_capacity_for_read *)
Definition consumed_capacity_for_read (mode : ReturnConsumedCapacityMode) (table_name : string) (index_kind : DynamoDbIndexKind)
    (index_name : option string) (capacity_units : f64) : option ConsumedCapacity :=
  let breakdown := mkBreakdown capacity_units capacity_units in
  let per_index kind : option (gmap string CapacityBreakdown) :=
    match mode with
    | CapacityIndexes => if decide (index_kind = kind) then Some {[default "" index_name := breakdown]} else None
    | _ => None
    end in
  match mode with
  | CapacityNone => None
  | _ => Some (mkConsumedCapacity table_name capacity_units capacity_units (if decide (index_kind = IndexTable) then Some breakdown else None)
                 (per_index LocalSecondaryIndex) (per_index GlobalSecondaryIndex))
  end.

(** SRC query_server/src/dynamodb_protocol.rs:3372-3380 query_requested_projection *)
Definition query_requested_projection (requested_projection : option (list string)) (select_mode : SelectMode) : option (list string) :=
  match select_mode with SpecificAttributes => requested_projection | _ => None end.

(** SRC query_server/src/dynamodb_protocol.rs:3427-3435 append_selected_field_if_in_schema *)
Definition append_selected_field_if_in_schema (schema : PowdrrSchema) (fields : list string) (field_name : string) : list string :=
  if is_some (to_map schema !! field_name) then append_selected_field fields field_name else fields.

(** SRC query_server/src/dynamodb_protocol.rs:3382-3400 query_select_fields *)
Definition query_select_fields (requested_projection : option (list string)) (filter_expression : ParsedFilterExpression)
    (key_schema : DynamoDbKeySchemaConfig) (schema : PowdrrSchema) : option (list string) :=
  requested_projection ← requested_projection;
  let fields := append_selected_field requested_projection (partition_key key_schema) in
  let fields := match sort_key key_schema with Some sk => append_selected_field fields sk | None => fields end in
  Some (foldl (append_selected_field_if_in_schema schema) fields (pf_filter_fields filter_expression)).

(** SRC query_server/src/dynamodb_protocol.rs:3402-3419 scan_select_fields *)
Definition scan_select_fields (requested_projection : option (list string)) (filter_expression : ParsedFilterExpression)
    (order_fields : list string) (schema : PowdrrSchema) : option (list string) :=
  requested_projection ← requested_projection;
  let fields := foldl append_selected_field requested_projection order_fields in
  Some (foldl (append_selected_field_if_in_schema schema) fields (pf_filter_fields filter_expression)).

(** SRC query_server/src/dynamodb_protocol.rs:3437-3448 query_fetch_limit *)
Definition query_fetch_limit (page_limit : nat) (sort_is_exact_eq hash_only_key_schema unique_lookup : bool) : nat :=
  if unique_lookup && (sort_is_exact_eq || hash_only_key_schema) then Nat.min page_limit 1 else page_limit + 1.

(** What the handlers of Query and Scan read from a request before they look at rows. *)
Record ReadOptions : Type := mkReadOptions {
  ro_target : QueryTarget;
  ro_capacity_mode : ReturnConsumedCapacityMode;
  ro_projection : option (list string);
  ro_select_mode : SelectMode;
  ro_filter : ParsedFilterExpression;
}.

Section requests.
Context `{ft : FloatText} `{ho : HashOrder}.

(** SRC query_server/src/dynamodb_protocol.rs:1343-1363= handle_query, the options it shares with handle_scan *)
Definition read_options (config : DynamoDbTableConfig) (index_name : option string) (consistent_read : option bool) (return_consumed_capacity : option string)
    (projection_expression : option string) (names : option (gmap string string)) (values : option (gmap string Value))
    (select : option string) (filter_expression : option string) : ddb ReadOptions :=
  target ← query_target config index_name;
  _ ← validate_consistent_read consistent_read (qt_index_kind target);
  mode ← parse_return_consumed_capacity return_consumed_capacity;
  projection ← parse_projection_expression projection_expression names;
  select_mode ← parse_select_mode select projection (qt_index_name target);
  filter ← parse_filter_expression filter_expression names values;
  Ok (mkReadOptions target mode projection select_mode filter).

Definition returned_projection (options : ReadOptions) : option (list string) :=
  query_requested_projection (ro_projection options) (ro_select_mode options).

(** SRC query_server/src/dynamodb_protocol.rs:1471-1493= handle_query, the answer made of the rows of a page *)
Definition page_response (table_name : string) (options : ReadOptions) (consistent_read : option bool) (last_evaluated_key : option Object)
    (evaluated_rows : list Value) : ddb QueryResponse :=
  let scanned_count := length evaluated_rows in
  filtered_rows ← apply_filter_expression evaluated_rows (ro_filter options);
  projected_rows ← project_rows filtered_rows (returned_projection options);
  rows ← match ro_select_mode options with
         | SelectCount => Ok []
         | _ => try_collect json_row_to_dynamodb_item projected_rows
         end;
  Ok (mkQueryResponse rows (length filtered_rows) scanned_count last_evaluated_key
        (consumed_capacity_for_read (ro_capacity_mode options) table_name (qt_index_kind (ro_target options)) (qt_index_name (ro_target options))
           (estimate_read_capacity_units scanned_count (default false consistent_read)))).

(** What handle_query asks of the serving path. *)
Record PreparedQuery : Type := mkPrepared {
  pr_options : ReadOptions;
  pr_sort_is_exact_eq : bool;
  pr_page_limit : nat;
  pr_request : ServingRequestPlan;
}.

(** SRC query_server/src/dynamodb_protocol.rs:1364-1436= handle_query, the serving request *)
Definition prepare_query (context : DynamoDbTableContext) (request : QueryRequest) : ddb PreparedQuery :=
  let table_key_schema := primary_key_schema (ctx_config context) in
  options ← read_options (ctx_config context) (q_index_name request) (q_consistent_read request) (q_return_consumed_capacity request)
              (q_projection_expression request) (q_expression_attribute_names request) (q_expression_attribute_values request)
              (q_select request) (q_filter_expression request);
  let key_schema := qt_key_schema (ro_target options) in
  parsed_query ← parse_key_condition_expression (q_key_condition_expression request) key_schema
                   (q_expression_attribute_names request) (q_expression_attribute_values request);
  let sort_is_exact_eq := match pq_sort_filter parsed_query with Some filter => is_some (sv_eq filter) | None => false end in
  let ascending := default true (q_scan_index_forward request) in
  let limit := page_limit (q_limit request) in
  let key_filters := eq_predicate (partition_key key_schema) (Some (pq_partition_value parsed_query)) :: option_list (pq_sort_filter parsed_query) in
  key_filters ← match q_exclusive_start_key request with
                | Some start => apply_exclusive_start_key key_filters key_schema table_key_schema ascending start
                | None => Ok key_filters
                end;
  let order_by :=
    if sort_is_exact_eq then []
    else match sort_key key_schema with Some sk => [mkServingSort sk (negb ascending)] | None => [] end in
  let effective_limit := query_fetch_limit limit sort_is_exact_eq (negb (is_some (sort_key key_schema))) (qt_unique_lookup (ro_target options)) in
  let query_projection := query_select_fields (returned_projection options) (ro_filter options) key_schema (ctx_schema context) in
  Ok (mkPrepared options sort_is_exact_eq limit
        (mkServingRequest query_projection key_filters None order_by (Some effective_limit) false false)).

(** SRC query_server/src/dynamodb_protocol.rs:1447-1470= handle_query, the page and where the next one starts *)
Definition query_page (context : DynamoDbTableContext) (prepared : PreparedQuery) (evaluated_rows : list Value) : ddb (list Value * option Object) :=
  let table_key_schema := primary_key_schema (ctx_config context) in
  let target := ro_target (pr_options prepared) in
  let limit := pr_page_limit prepared in
  if limit <? length evaluated_rows then
    match evaluated_rows !! (limit - 1) with
    | Some row =>
        key ← row_to_key row (qt_key_schema target) table_key_schema;
        Ok (take limit evaluated_rows, Some key)
    | None => Panic "index out of bounds"
    end
  else if (length evaluated_rows =? limit) && negb (pr_sort_is_exact_eq prepared) && negb (qt_unique_lookup target) then
    row ← ok_or (last evaluated_rows) (internal "Expected a row at page boundary");
    key ← row_to_key row (qt_key_schema target) table_key_schema;
    Ok (evaluated_rows, Some key)
  else Ok (evaluated_rows, None).
End requests.

(** ** The serving path *)

(** SRC query_server/src/dynamodb_protocol.rs:1635-1642 convert_serving_error *)
Definition convert_serving_error {A} (m : srv A) : ddb A :=
  match m with
  | Ok a => Ok a
  | Err error =>
      let type_name := if decide (sqe_status error = 404%Z) then "ResourceNotFoundException"
                       else if decide (sqe_status error = 400%Z ∨ sqe_status error = 422%Z) then "ValidationException"
                       else "InternalServerError" in
      Err (mkDynamoDbError (sqe_status error) type_name (sqe_message error))
  | Panic r => Panic r
  end.

Section handlers.
Context {W : Type} `{store : ItemStore W} `{serving : ServingPath W} `{engine : SqlEngine W} `{ft : FloatText} `{ho : HashOrder}.

(** SRC query_server/src/dynamodb_protocol.rs:1599-1612 execute_fast_path_query *)
Definition execute_fast_path_query (table_name : string) (request : ServingRequestPlan) : io W (list Value) := io_read (λ w,
  response ← convert_serving_error (execute_serving_query w table_name request);
  match sa_classification response with
  | FastPath => Ok (sa_rows response)
  | _ => validation (default "Query did not qualify for the serving fast path" (sa_reason response))
  end).

(** SRC query_server/src/dynamodb_protocol.rs:1626-1633 execute_fast_path_point_lookup_batch_rows *)
Definition execute_fast_path_point_lookup_batch_rows (table_name : string) (requests : list ServingRequestPlan) : io W (option (list (list Value))) :=
  io_read (λ w, exact_lookup_batch_rows w table_name requests).

(** SRC query_server/src/dynamodb_protocol.rs:1614-1624 execute_fast_path_point_lookup_rows *)
Definition execute_fast_path_point_lookup_rows (table_name : string) (request : ServingRequestPlan) : io W (option (list Value)) :=
  row_sets ← execute_fast_path_point_lookup_batch_rows table_name [request];
  mret (row_sets ≫= head).

(** The lookup if it answers, the planned query otherwise. *)
Definition serve_rows (table_name : string) (request : ServingRequestPlan) : io W (list Value) :=
  rows ← execute_fast_path_point_lookup_rows table_name request;
  match rows with
  | Some rows => mret rows
  | None => execute_fast_path_query table_name request
  end.

Definition get_item_request (projection : option (list string)) (key_schema : DynamoDbKeySchemaConfig) (key : gmap string Value) : ServingRequestPlan :=
  mkServingRequest projection (key_to_predicates key_schema key) None [] (Some 1) false false.

(** SRC query_server/src/dynamodb_protocol.rs:990-1040 handle_get_item *)
Definition handle_get_item (request : GetItemRequest) : io W (option Object * option ConsumedCapacity) :=
  context ← load_dynamodb_table_context (get_table_name request);
  _ ← io_pure (validate_consistent_read (get_consistent_read request) IndexTable);
  mode ← io_pure (parse_return_consumed_capacity (get_return_consumed_capacity request));
  let key_schema := primary_key_schema (ctx_config context) in
  key ← io_pure (parse_key_map (get_key request) key_schema);
  projection ← io_pure (parse_projection_expression (get_projection_expression request) (get_expression_attribute_names request));
  rows ← serve_rows (get_table_name request) (get_item_request projection key_schema key);
  item ← match head rows with
         | Some row => item ← io_pure (json_row_to_dynamodb_item row); mret (Some item)
         | None => mret None
         end;
  mret (item, consumed_capacity_for_read mode (get_table_name request) IndexTable None
                (estimate_read_capacity_units 1 (default false (get_consistent_read request)))).

(** SRC query_server/src/dynamodb_protocol.rs:1339-1493 handle_query *)
Definition handle_query (request : QueryRequest) : io W QueryResponse :=
  context ← load_dynamodb_table_context (q_table_name request);
  prepared ← io_pure (prepare_query context request);
  evaluated_rows ← serve_rows (q_table_name request) (pr_request prepared);
  '(evaluated_rows, last_evaluated_key) ← io_pure (query_page context prepared evaluated_rows);
  io_pure (page_response (q_table_name request) (pr_options prepared) (q_consistent_read request) last_evaluated_key evaluated_rows).

(** The planned queries of keys the lookup did not answer, one by one. *)
Fixpoint fallback_rows (table_name : string) (requests : list ServingRequestPlan) : io W (list (list Value)) :=
  match requests with
  | [] => mret []
  | request :: requests =>
      rows ← execute_fast_path_query table_name request;
      row_sets ← fallback_rows table_name requests;
      mret (rows :: row_sets)
  end.

(** SRC query_server/src/dynamodb_protocol.rs:1267-1322= handle_batch_get_item, one table *)
Definition batch_get_table (mode : ReturnConsumedCapacityMode) (table_name : string) (keys_and_attributes : KeysAndAttributes) :
    io W (list Object * option ConsumedCapacity) :=
  context ← load_dynamodb_table_context table_name;
  _ ← io_pure (validate_consistent_read (ka_consistent_read keys_and_attributes) IndexTable);
  let key_schema := primary_key_schema (ctx_config context) in
  projection ← io_pure (parse_projection_expression (ka_projection_expression keys_and_attributes) (ka_expression_attribute_names keys_and_attributes));
  serving_requests ← io_pure (try_collect (λ key, parsed_key ← parse_key_map key key_schema; Ok (get_item_request projection key_schema parsed_key))
                                (ka_keys keys_and_attributes));
  row_sets ← execute_fast_path_point_lookup_batch_rows table_name serving_requests;
  row_sets ← match row_sets with Some row_sets => mret row_sets | None => fallback_rows table_name serving_requests end;
  items ← io_pure (try_collect json_row_to_dynamodb_item (omap head row_sets));
  mret (items, consumed_capacity_for_read mode table_name IndexTable None
                 (estimate_read_capacity_units (length (ka_keys keys_and_attributes)) (default false (ka_consistent_read keys_and_attributes)))).

(** The loop over the tables of the request. *)
Fixpoint batch_get_tables (mode : ReturnConsumedCapacityMode) (request_items : list (string * KeysAndAttributes)) (responses : gmap string (list Object))
    (consumed_capacity : list ConsumedCapacity) : io W (gmap string (list Object) * list ConsumedCapacity) :=
  match request_items with
  | [] => mret (responses, consumed_capacity)
  | (table_name, keys_and_attributes) :: request_items =>
      '(items, entry) ← batch_get_table mode table_name keys_and_attributes;
      batch_get_tables mode request_items (<[table_name := items]> responses) (consumed_capacity ++ option_list entry)
  end.

(** SRC query_server/src/dynamodb_protocol.rs:1259-1337 handle_batch_get_item *)
Definition handle_batch_get_item (request_items : gmap string KeysAndAttributes) (return_consumed_capacity : option string) :
    io W (gmap string (list Object) * option (list ConsumedCapacity)) :=
  mode ← io_pure (parse_return_consumed_capacity return_consumed_capacity);
  '(responses, consumed_capacity) ← batch_get_tables mode (hash_iter request_items) ∅ [];
  let consumed_capacity := sort_by (λ l r, String.compare (cc_table_name l) (cc_table_name r)) consumed_capacity in
  mret (responses, if decide (consumed_capacity = []) then None else Some consumed_capacity).
End handlers.
