(* ===== verification/DynamoKeysTheory.v ===== *)
(** * What DynamoDB key conditions select (query_server/src/dynamodb_protocol.rs)

    The range a [begins_with] becomes is the set of texts with the prefix; a start key
    narrows a condition to what comes after it; and every request the front end makes
    for an index with patterns is one the serving path answers on its fast path. *)

From S2P Require Import Prelude Text Utf8 StableSort Schema Json FileSet Contract QueryPath Pruning Planner PlannerTheory.
From S2P Require Import DynamoAttr DynamoFilter DynamoUpdate DynamoItems DynamoKeys DynamoQuery.

(** ** The meaning of a predicate *)

(** A comparison with a bound, true without one. *)
Definition bound_holds (test : comparison → bool) (v : Value) (bound : option Value) : bool :=
  match bound with
  | None => true
  | Some b => match compare_scalars v b with Ok c => test c | _ => false end
  end.

Definition after (c : comparison) : bool := bool_decide (c = Gt).
Definition before (c : comparison) : bool := bool_decide (c = Lt).

(** The value of a row's field satisfies a predicate. *)
Definition predicate_holds (p : ServingPredicate) (v : Value) : bool :=
  match sv_eq p with Some e => value_eqb e v | None => true end
  && match sv_in_values p with Some l => existsb (λ e, value_eqb e v) l | None => true end
  && bound_holds after v (sv_gt p) && bound_holds (λ c, negb (before c)) v (sv_gte p)
  && bound_holds before v (sv_lt p) && bound_holds (λ c, negb (after c)) v (sv_lte p).

Module DynamoKeysTheory.
Import Utf8Theory.

(** ** Prefixes as ranges *)

(** The successor loop, from the front. *)
Fixpoint bump (l : list N) : option (list N) :=
  match l with
  | [] => None
  | c :: l => match bump l with Some u => Some (c :: u) | None => (λ next, [next]) <$> next_scalar c end
  end.

Lemma bump_last_snoc l c :
  bump_last (l ++ [c]) = match bump_last l with Some u => Some (u ++ [c]) | None => (λ next, [next]) <$> next_scalar c end.
Proof. induction l as [|x l IH]; simpl; [by destruct (next_scalar c)|]. destruct (next_scalar x); [done|]. by rw IH. Qed.

Lemma bump_bump_last l : (λ r, rev r) <$> bump_last (rev l) = bump l.
Proof.
  induction l as [|c l IH]; [done|]. simpl. rw bump_last_snoc -IH. destruct (bump_last (rev l)) as [u|]; simpl; [by rw rev_app_distr|].
  by destruct (next_scalar c).
Qed.

Lemma next_scalar_spec c : scalar c = true →
  match next_scalar c with
  | Some next => scalar next = true ∧ (∀ d, scalar d = true → (d < next)%N ↔ (d ≤ c)%N)
  | None => ∀ d, scalar d = true → (d ≤ c)%N
  end.
Proof.
  rw /next_scalar scalar_spec. intros Hc. destruct (N.eqb_spec c 0x10FFFF); [intros d; rw scalar_spec; lia|].
  destruct (N.eqb_spec c 0xD7FF); [split; [done|]; intros d; rw scalar_spec; lia|].
  destruct (scalar (c + 1)) eqn:Hs; [split; [done|]; intros d _; lia|].
  exfalso. apply not_true_iff_false in Hs. apply Hs. rw scalar_spec. lia.
Qed.

Lemma prefix_cons_iff {A} (x y : A) l1 l2 : x :: l1 `prefix_of` y :: l2 ↔ x = y ∧ l1 `prefix_of` l2.
Proof.
  split; [intros H; split; [by apply (prefix_cons_inv_1 x y l1 l2)|by apply (prefix_cons_inv_2 x y)]|].
  intros [-> H]. by apply prefix_cons.
Qed.

(** A list of characters lies between a prefix and its successor exactly when it has
    the prefix. *)
Lemma prefix_between p s : Forall (λ c, scalar c = true) p → Forall (λ c, scalar c = true) s →
  (lex p s ≠ Gt ∧ match bump p with Some u => lex s u = Lt | None => True end) ↔ p `prefix_of` s.
Proof.
  intros Hp. revert s. induction Hp as [|c p Hc Hp IH]; intros s Hs.
  { simpl. split; [intros _; apply prefix_nil|by destruct s]. }
  destruct s as [|d s]. { simpl. split; [naive_solver|]. by intros ?%prefix_nil_inv. }
  apply Forall_cons in Hs as [Hd Hs]. rw prefix_cons_iff. specialize (IH s Hs). pose proof (next_scalar_spec c Hc) as Hn. simpl.
  destruct (bump p) as [u|]; simpl.
  - destruct (N.compare_spec c d) as [->|Hlt|Hgt]; [rw N.compare_refl; naive_solver|..].
    + destruct (N.compare_spec d c); [lia|lia|]. split; [naive_solver|]. intros [? _]. lia.
    + split; [naive_solver|]. intros [? _]. lia.
  - destruct (next_scalar c) as [next|]; simpl.
    + destruct Hn as [_ Hn]. specialize (Hn d Hd). destruct (N.compare_spec c d) as [->|Hlt|Hgt].
      * destruct (N.compare_spec d next); [lia|naive_solver|lia].
      * destruct (N.compare_spec d next); [..|split; [naive_solver|intros [? _]; lia]]; [|lia].
        split; [|intros [? _]; lia]. intros [_ H']. by destruct s.
      * split; [naive_solver|]. intros [? _]. lia.
    + specialize (Hn d Hd). destruct (N.compare_spec c d) as [->|Hlt|Hgt]; [naive_solver|lia|]. split; [naive_solver|]. intros [? _]. lia.
Qed.

Lemma bump_scalar p u : Forall (λ c, scalar c = true) p → bump p = Some u → Forall (λ c, scalar c = true) u.
Proof.
  intros Hp. revert u. induction Hp as [|c p Hc Hp IH]; intros u; simpl; [done|]. destruct (bump p) as [u'|].
  - intros [= <-]. constructor; [done|by apply IH].
  - pose proof (next_scalar_spec c Hc) as Hn. destruct (next_scalar c) as [next|]; [|done]. intros [= <-]. by constructor; [apply Hn|].
Qed.

Lemma prefix_chars p s : utf8_valid p = true → utf8_valid s = true → starts_with p s = true ↔ chars p `prefix_of` chars s.
Proof.
  intros Hp Hs. rw starts_with_spec. split.
  - intros [t ->]. rw chars_app //. by exists (chars t).
  - intros [t Ht]. exists (encode t). by rw -{1}(encode_chars s Hs) Ht encode_app encode_chars.
Qed.

Section key_conditions.
Context `{ft : FloatText} `{ho : HashOrder}.

(** C33. A [begins_with] condition selects by prefix: the range predicate the parser
    makes of it holds of exactly the texts that start with the given text, for all
    Unicode texts, the greatest characters and the surrogate gap included. *)
Theorem begins_with_range_exact sk token values prefix predicate s :
  lookup_expression_value token values = Ok (VString prefix) → utf8_valid prefix = true → utf8_valid s = true →
  begins_with_range_predicate sk token values = Ok predicate →
  sv_field predicate = sk ∧ predicate_holds predicate (VString s) = starts_with prefix s.
Proof.
  intros Hl Hp Hs. rw /begins_with_range_predicate Hl /=. intros [= <-]. split; [done|].
  rw /predicate_holds /=. rw !andb_true_r. rw /next_string_prefix_upper_bound.
  pose proof (bump_bump_last (chars prefix)) as Hb. apply eq_true_iff_eq. rw (prefix_chars _ _ Hp Hs).
  rw -(prefix_between _ _ (chars_scalar _ Hp) (chars_scalar _ Hs)) -Hb.
  rw andb_true_iff negb_true_iff bool_decide_eq_false. rw (compare_chars s prefix) //.
  assert (Hopp : lex (chars s) (chars prefix) ≠ Lt ↔ lex (chars prefix) (chars s) ≠ Gt).
  { rw -!compare_chars // (String.compare_antisym s prefix). by destruct (String.compare prefix s). }
  rw Hopp. apply and_iff_compat_l. destruct (bump_last (rev (chars prefix))) as [u|] eqn:Hu; simpl in *; [|done].
  assert (Hsc : Forall (λ c, scalar c = true) (rev u)) by (apply (bump_scalar (chars prefix)); [by apply chars_scalar|done]).
  destruct (encode_valid (rev u) Hsc) as [Hv Hc]. by rw bool_decide_eq_true compare_chars // Hc.
Qed.
End key_conditions.

(** ** Scalars of one kind *)

Lemma compare_scalars_Ok a b c : compare_scalars a b = Ok c ↔ compare_scalar_values a b = Some c.
Proof. destruct a, b; simpl; split; try done; intros [= <-]; done. Qed.

Lemma compare_scalars_opp a b c : compare_scalars a b = Ok c → compare_scalars b a = Ok (CompOpp c).
Proof. rw !compare_scalars_Ok (compare_flip a b). by intros ->. Qed.

(** The comparison has a value at most, or at least. *)
Definition ordered (test : comparison → bool) (a b : Value) : Prop := ∃ c, compare_scalars a b = Ok c ∧ test c = true.

Lemma bound_holds_Some test v b : bound_holds test v (Some b) = true ↔ ordered test v b.
Proof.
  rw /bound_holds /ordered. destruct (compare_scalars v b) as [c| |].
  - split; [intros Ht; by exists c|]. intros (c' & Hc & Ht). by injection Hc as ->.
  - split; [done|]. by intros (c' & Hc & _).
  - split; [done|]. by intros (c' & Hc & _).
Qed.

Lemma vle_ordered a b : vle a b ↔ ordered (λ c, negb (after c)) a b.
Proof.
  rw /vle is_at_most_spec /ordered. split.
  - intros [H|H]; [exists Lt|exists Eq]; (split; [by apply compare_scalars_Ok|done]).
  - intros (c & Hc%compare_scalars_Ok & Ht). rw Hc. destruct c; naive_solver.
Qed.

Lemma ordered_flip test a b : ordered test a b → ordered (λ c, test (CompOpp c)) b a.
Proof. intros (c & Hc & Ht). exists (CompOpp c). split; [by apply compare_scalars_opp|]. by destruct c. Qed.

Lemma lt_ordered a b : ordered before a b ↔ vle a b ∧ ¬ vle b a.
Proof.
  split.
  - intros (c & Hc%compare_scalars_Ok & Ht). destruct c; try done. by apply compare_lt.
  - intros [Hab Hba]. apply vle_ordered in Hab as (c & Hc & Ht). exists c. split; [done|]. destruct c; try done. exfalso. apply Hba.
    apply vle_ordered. exists Eq. split; [|done]. by apply (compare_scalars_opp _ _ Eq).
Qed.

Lemma gt_ordered a b : ordered after a b ↔ vle b a ∧ ¬ vle a b.
Proof.
  rw -lt_ordered. split; intros H%ordered_flip; destruct H as (c & Hc & Ht); exists c; (split; [done|]); by destruct c.
Qed.

Lemma ge_ordered a b : ordered (λ c, negb (before c)) a b ↔ vle b a.
Proof.
  rw vle_ordered. split; intros H%ordered_flip; destruct H as (c & Hc & Ht); exists c; (split; [done|]); by destruct c.
Qed.

Lemma eqb_not_ordered e v c test : value_eqb e c = true → value_eqb e v = true → test Eq = false → ¬ ordered test v c.
Proof.
  intros Hc Hv Ht (o & Ho & Htest). enough (o = Eq) by congruence. apply compare_scalars_Ok in Ho.
  destruct v as [| b|n|t| |], c as [| b'|n'|t'| |]; simpl in Ho; try done; injection Ho as <-; destruct e as [| b0|n0|t0| |]; simpl in *; try done.
  - by destruct b, b', b0.
  - destruct n0 as [x|x|f], n as [y|y|g], n' as [z|z|h]; simpl in *; try done.
    + apply Z.eqb_eq in Hc, Hv. subst. apply f64_compare_refl.
    + apply Z.eqb_eq in Hc, Hv. subst. apply f64_compare_refl.
    + rw /f64_eqb in Hc Hv. assert (H1 : f64_compare f h = Eq) by by destruct (f64_compare f h).
      assert (H2 : f64_compare f g = Eq) by by destruct (f64_compare f g).
      set (k := Z.min (exponent f) (Z.min (exponent g) (exponent h))).
      rw !(f64_compare_at k) in H1 H2 |- *; [rw /k; lia..|]. apply Z.compare_eq in H1, H2. apply Z.compare_eq_iff. lia.
  - apply String.eqb_eq in Hc, Hv. subst. pose proof (String.compare_antisym t t) as Hr. by destruct (String.compare t t).
Qed.

(** ** Paging *)

Lemma predicate_holds_iff p v : predicate_holds p v = true ↔
  match sv_eq p with Some e => value_eqb e v | None => true end = true ∧
  match sv_in_values p with Some l => existsb (λ e, value_eqb e v) l | None => true end = true ∧
  (∀ b, sv_gt p = Some b → vle b v ∧ ¬ vle v b) ∧ (∀ b, sv_gte p = Some b → vle b v) ∧
  (∀ b, sv_lt p = Some b → vle v b ∧ ¬ vle b v) ∧ (∀ b, sv_lte p = Some b → vle v b).
Proof.
  rw /predicate_holds !andb_true_iff -!and_assoc.
  assert (Hb : ∀ test (P : Value → Prop) o, (∀ b, bound_holds test v (Some b) = true ↔ P b) →
    bound_holds test v o = true ↔ ∀ b, o = Some b → P b).
  { intros test P [b|] HP; simpl in *; [|naive_solver]. split; [intros H b' [= <-]; by apply HP|intros H; by apply HP, H]. }
  rw (Hb after (λ b, vle b v ∧ ¬ vle v b)); [intros b; by rw bound_holds_Some gt_ordered|].
  rw (Hb _ (λ b, vle b v)); [intros b; by rw bound_holds_Some ge_ordered|].
  rw (Hb before (λ b, vle v b ∧ ¬ vle b v)); [intros b; by rw bound_holds_Some lt_ordered|].
  rw (Hb _ (λ b, vle v b)); [intros b; by rw bound_holds_Some vle_ordered|]. done.
Qed.

(** [v] comes after [c] in the direction of the query. *)
Definition follows (ascending : bool) (v c : Value) : bool := bound_holds (if ascending then after else before) v (Some c).

Lemma tighten_lower_exact f c f' v :
  predicate_holds f c = true → tighten_lower_bound f c = Ok f' → predicate_holds f' v = predicate_holds f v && follows true v c.
Proof.
  intros (_ & _ & Hgt & Hgte & _)%predicate_holds_iff Ht.
  assert (f' = set_lower f c) as ->.
  { rw /tighten_lower_bound in Ht. apply bind_Ok_inv in Ht as (keep & Hk & Ht).
    assert (keep = false) as ->.
    { destruct (sv_gt f) as [b|]; [|by injection Hk]. apply bind_Ok_inv in Hk as (o & Ho & [= <-]).
      specialize (Hgt b eq_refl). apply gt_ordered in Hgt as (o' & Ho' & Hg). apply compare_scalars_opp in Ho'.
      rw Ho in Ho'. injection Ho' as ->. by destruct o'. }
    destruct (sv_gte f) as [b|]; [|by injection Ht]. apply bind_Ok_inv in Ht as (o & Ho & [= <-]).
    specialize (Hgte b eq_refl). apply vle_ordered in Hgte as (o' & Ho' & Hg). rw Ho in Ho'. injection Ho' as <-. by destruct o. }
  apply eq_true_iff_eq. rw andb_true_iff /follows bound_holds_Some gt_ordered !predicate_holds_iff /=.
  split.
  - intros (He & Hi & Hc & _ & Hlt & Hlte). specialize (Hc c eq_refl) as [Hcv Hvc]. split_and!; try done.
    + intros b Hb. destruct (Hgt b Hb) as [Hbc Hcb]. split; [by trans c|]. intros Hvb. apply Hvc. by trans b.
    + intros b Hb. trans c; [by apply Hgte|done].
  - intros ((He & Hi & _ & _ & Hlt & Hlte) & Hcv). split_and!; try done. by intros b [= <-].
Qed.

Lemma tighten_upper_exact f c f' v :
  predicate_holds f c = true → tighten_upper_bound f c = Ok f' → predicate_holds f' v = predicate_holds f v && follows false v c.
Proof.
  intros (_ & _ & _ & _ & Hlt & Hlte)%predicate_holds_iff Ht.
  assert (f' = set_upper f c) as ->.
  { rw /tighten_upper_bound in Ht. apply bind_Ok_inv in Ht as (keep & Hk & Ht).
    assert (keep = false) as ->.
    { destruct (sv_lt f) as [b|]; [|by injection Hk]. apply bind_Ok_inv in Hk as (o & Ho & [= <-]).
      specialize (Hlt b eq_refl). apply lt_ordered in Hlt as (o' & Ho' & Hg). apply compare_scalars_opp in Ho'.
      rw Ho in Ho'. injection Ho' as ->. by destruct o'. }
    destruct (sv_lte f) as [b|]; [|by injection Ht]. apply bind_Ok_inv in Ht as (o & Ho & [= <-]).
    specialize (Hlte b eq_refl). apply ge_ordered in Hlte as (o' & Ho' & Hg). rw Ho in Ho'. injection Ho' as <-. by destruct o. }
  apply eq_true_iff_eq. rw andb_true_iff /follows bound_holds_Some lt_ordered !predicate_holds_iff /=.
  split.
  - intros (He & Hi & Hgt & Hgte & Hc & _). specialize (Hc c eq_refl) as [Hcv Hvc]. split_and!; try done.
    + intros b Hb. destruct (Hlt b Hb) as [Hbc Hcb]. split; [by trans c|]. intros Hvb. apply Hvc. by trans b.
    + intros b Hb. trans c; [done|by apply Hlte].
  - intros ((He & Hi & Hgt & Hgte & _ & _) & Hcv). split_and!; try done. by intros b [= <-].
Qed.

Lemma restart_filter_exact ascending c f f' v :
  predicate_holds f c = true → restart_filter ascending c f = Ok f' → sv_field f' = sv_field f ∧
  predicate_holds f' v = predicate_holds f v && follows ascending v c.
Proof.
  intros Hf. rw /restart_filter. destruct (sv_eq f) as [e|] eqn:He.
  - pose proof Hf as (Hec & _)%predicate_holds_iff. rw He in Hec. rw Hec. intros [= <-]. split; [done|].
    trans false.
    + apply not_true_iff_false. rw predicate_holds_iff /=. intros (_ & _ & Hgt & _ & Hlt & _).
      destruct (Hgt c eq_refl) as [Hcv Hvc]. destruct (Hlt c eq_refl) as [H _]. done.
    + symmetry. apply andb_false_iff. destruct (predicate_holds f v) eqn:Hv; [right|by left]. apply predicate_holds_iff in Hv as [Hv _]. rw He in Hv.
      apply not_true_iff_false. rw /follows bound_holds_Some. apply (eqb_not_ordered e); [done..|]. by destruct ascending.
  - intros H. split.
    + destruct ascending; [rw /tighten_lower_bound in H|rw /tighten_upper_bound in H]; apply bind_Ok_inv in H as ([] & _ & H).
      1,3: by injection H as <-.
      all: case_match; [apply bind_Ok_inv in H as (o & _ & H)|]; by injection H as <-.
    + destruct ascending; [by apply tighten_lower_exact|by apply tighten_upper_exact].
Qed.

(** A row satisfies the filters of a request. *)
Definition row_holds (filters : list ServingPredicate) (row : Object) : bool :=
  forallb (λ f, match obj_get (sv_field f) row with Some v => predicate_holds f v | None => false end) filters.

Definition row_follows (ascending : bool) (sk : string) (row : Object) (c : Value) : bool :=
  match obj_get sk row with Some v => follows ascending v c | None => false end.

Lemma update_first_exact ascending sk c filters r filters' row :
  (∀ f, f ∈ filters → sv_field f = sk → predicate_holds f c = true) →
  update_first_filter sk (restart_filter ascending c) filters = Some r → r = Ok filters' →
  row_holds filters' row = row_holds filters row && row_follows ascending sk row c.
Proof.
  revert r filters'. induction filters as [|f filters IH]; intros r filters' Hc Hu ->; simpl in Hu; [done|].
  case_decide as Hf; [injection Hu as Hu; apply bind_Ok_inv in Hu as (f' & Hr & [= <-])|].
  - destruct (restart_filter_exact ascending c f f' VNull) as [Hfield _]; [by apply Hc; [left|]|done|].
    rw /row_holds /= Hfield Hf -/(row_holds filters row) /row_follows. destruct (obj_get sk row) as [v|]; [|done].
    destruct (restart_filter_exact ascending c f f' v) as [_ ->]; [by apply Hc; [left|]|done|].
    by rw -!andb_assoc (andb_comm (follows _ _ _)).
  - apply fmap_Some in Hu as (r0 & Hu & Hr). destruct r0 as [fs|e|e]; simpl in Hr; try done. injection Hr as ->.
    assert (Hrest : row_holds fs row = row_holds filters row && row_follows ascending sk row c).
    { apply (IH (Ok fs)); [|done|done]. intros g Hg. apply Hc. by right. }
    rw /row_holds /= -/(row_holds fs row) -/(row_holds filters row) Hrest. by rw andb_assoc.
Qed.

Section paging.
Context `{ft : FloatText} `{ho : HashOrder}.

(** A start key continues a query: when the key handed back is one the conditions
    admit, as the last key of a page is, the narrowed conditions hold of exactly the
    rows the original ones hold of whose sort key comes after it in the direction of
    the query. *)
Theorem start_key_continues filters ks ts ascending start filters' sk c parsed row :
  sort_key ks = Some sk → parse_exclusive_start_key_map start ks ts = Ok parsed → parsed !! sk = Some c →
  (∀ f, f ∈ filters → sv_field f = sk → predicate_holds f c = true) →
  apply_exclusive_start_key filters ks ts ascending start = Ok filters' →
  row_holds filters' row = row_holds filters row && row_follows ascending sk row c.
Proof.
  intros Hsk Hparsed Hc Hadm. rw /apply_exclusive_start_key Hsk Hparsed bind_Ok. intros H.
  apply bind_Ok_inv in H as (pv & _ & H). apply bind_Ok_inv in H as (pf & _ & H). case_match; [done|].
  rw Hc bind_Ok in H. destruct (update_first_filter sk (restart_filter ascending c) filters) as [r|] eqn:Hu.
  - by apply (update_first_exact ascending sk c filters r).
  - injection H as <-. rw /row_holds forallb_app /= andb_true_r -/(row_holds filters row) /row_follows. f_equal.
    destruct ascending; simpl; destruct (obj_get sk row) as [v|]; try done; rw /predicate_holds /= /follows /bound_holds; by rw ?andb_true_r.
Qed.
End paging.
End DynamoKeysTheory.

Module DynamoKeysDemo.
Import FloatTextDemo HashOrderDemo DynamoKeysTheory.

Definition demo_values : gmap string Value := {[":p" := tagged "S" (VString "ab"); ":n" := tagged "N" (VString "5")]}.

Lemma begins_with_range_exact_witness :
  ∃ predicate, begins_with_range_predicate "sk" ":p" demo_values = Ok predicate ∧
    predicate_holds predicate (VString "abz") = starts_with "ab" "abz" ∧ predicate_holds predicate (VString "ac") = starts_with "ab" "ac".
Proof.
  eexists. split; [vm_compute; reflexivity|].
  split; eapply (begins_with_range_exact "sk" ":p" demo_values "ab"); try (vm_compute; reflexivity).
Defined.

Definition keys : DynamoDbKeySchemaConfig := mkKeySchema "pk" (Some "sk").
Definition at_least_5 : ServingPredicate := mkServingPredicate "sk" None None None (Some (int 5)) None None.
Definition demo_filters : list ServingPredicate := [eq_predicate "pk" (Some (VString "a")); at_least_5].
Definition start (n : string) : Object := [("pk", tagged "S" (VString "a")); ("sk", tagged "N" (VString n))].
Definition demo_row (n : Z) : Object := [("pk", VString "a"); ("sk", int n)].

Lemma start_key_continues_witness :
  ∃ filters', apply_exclusive_start_key demo_filters keys keys true (start "7") = Ok filters' ∧
    row_holds filters' (demo_row 8) = row_holds demo_filters (demo_row 8) && row_follows true "sk" (demo_row 8) (int 7).
Proof.
  eexists. split; [vm_compute; reflexivity|].
  eapply (start_key_continues demo_filters keys keys true (start "7") _ "sk" (int 7) _ (demo_row 8)); [reflexivity|vm_compute; reflexivity|reflexivity| |vm_compute; reflexivity].
  intros f [->|[->|Hf%elem_of_nil]%elem_of_cons]%elem_of_cons; [discriminate|reflexivity|done].
Defined.

(** A start key below the range makes its inclusive bound strict: the row at the bound
    is lost although it comes after the start key. *)
Lemma start_key_below_range_loses_row :
  ∃ filters', apply_exclusive_start_key demo_filters keys keys true (start "3") = Ok filters' ∧
    row_holds demo_filters (demo_row 5) = true ∧ row_follows true "sk" (demo_row 5) (int 3) = true ∧ row_holds filters' (demo_row 5) = false.
Proof. eexists. split; [vm_compute; reflexivity|]. repeat split. Qed.

(** In an index several rows may share a sort key; the rows that tie with the last one
    of a page are on no page. *)
Lemma index_page_skips_ties :
  let index := mkKeySchema "colour" (Some "size") in
  let row id := [("colour", VString "red"); ("size", int 1); ("pk", VString id)] in
  let filters := [eq_predicate "colour" (Some (VString "red"))] in
  ∃ start filters', row_to_key (VObject (row "first")) index (mkKeySchema "pk" None) = Ok start ∧
    apply_exclusive_start_key filters index (mkKeySchema "pk" None) true start = Ok filters' ∧
    row_holds filters (row "second") = true ∧ row_holds filters' (row "second") = false.
Proof. eexists _, _. split; [vm_compute; reflexivity|]. split; [vm_compute; reflexivity|]. split; reflexivity. Qed.
End DynamoKeysDemo.
