(* ===== verification/DynamoQueryTheory.v ===== *)
(** * DynamoDB queries and the serving path (query_server/src/dynamodb_protocol.rs, query_runtime/src/lakehouse_serving.rs)

    The front end accepts only answers of the fast path, and a table's configuration
    declares the patterns its requests need.  The two sides agree: a request made for
    the table or for an index with a sort key matches a declared pattern. *)

From S2P Require Import Prelude Text StableSort Schema Json FileSet Contract Checkpoint QueryPath Pruning Planner PlannerTheory.
From S2P Require Import DynamoAttr DynamoFilter DynamoUpdate DynamoItems DynamoKeys DynamoQuery.

Module DynamoQueryTheory.
Import PlannerTheory.

(** ** The shape of key filters *)

(** A condition on the sort key is one value or a range. *)
Record sort_shape (sk : string) (exact : bool) (p : ServingPredicate) : Prop := {
  shape_field : sv_field p = sk;
  shape_in : sv_in_values p = None;
  shape_eq : is_some (sv_eq p) = exact;
  shape_range : exact = true → sv_gt p = None ∧ sv_gte p = None ∧ sv_lt p = None ∧ sv_lte p = None;
}.

Section shapes.
Context `{ft : FloatText} `{ho : HashOrder}.

Lemma operators_shape operators segment sk values p :
  parse_sort_operators operators segment sk values = Ok p → sort_shape sk (is_some (sv_eq p)) p.
Proof.
  induction operators as [|o operators IH]; simpl; [done|]. destruct (split_once o segment) as [[l r]|]; [|done].
  case_decide; [|done]. intros Hp. apply bind_Ok_inv in Hp as (v & _ & [= <-]).
  split; try done. rw /operator_predicate /=. destruct (decide (o = "=")) as [->|]; [|done]. intros _. done.
Qed.

Lemma sort_condition_shape segment sk values p : parse_sort_condition segment sk values = Ok p → sort_shape sk (is_some (sv_eq p)) p.
Proof.
  rw /parse_sort_condition. destruct (strip_prefix "begins_with" segment) as [rest|].
  - intros Hp. apply bind_Ok_inv in Hp as (args & _ & Hp). apply bind_Ok_inv in Hp as ([f t] & _ & Hp). case_decide; [|done].
    rw /begins_with_range_predicate in Hp. apply bind_Ok_inv in Hp as (v & _ & Hp). apply bind_Ok_inv in Hp as (x & _ & [= <-]). by split.
  - destruct (split_once " BETWEEN " segment) as [[l r]|]; [|apply operators_shape]. case_decide; [|done].
    intros Hp. apply bind_Ok_inv in Hp as ([a b] & _ & Hp). apply bind_Ok_inv in Hp as (x & _ & Hp). apply bind_Ok_inv in Hp as (y & _ & [= <-]).
    by split.
Qed.

Lemma key_condition_shape expression ks names values parsed :
  parse_key_condition_expression expression ks names values = Ok parsed →
  match pq_sort_filter parsed with
  | Some p => ∃ sk, sort_key ks = Some sk ∧ sort_shape sk (is_some (sv_eq p)) p
  | None => True
  end.
Proof.
  rw /parse_key_condition_expression. intros H. apply bind_Ok_inv in H as (vs & _ & H). destruct (match split_once _ _ with Some _ => _ | None => _ end) as [seg sort].
  case_match; [|done]. apply bind_Ok_inv in H as (pv & _ & H). apply bind_Ok_inv in H as (sf & Hs & [= <-]). simpl.
  destruct (sort_key ks) as [sk|], sort as [seg2|]; try done; try by injection Hs as <-.
  apply bind_Ok_inv in Hs as (p & Hp & [= <-]). exists sk. split; [done|]. by apply sort_condition_shape in Hp.
Qed.

Lemma restart_shape ascending c sk p p' : sort_shape sk false p → restart_filter ascending c p = Ok p' → sort_shape sk false p'.
Proof.
  intros [H1 H2 H3 H4] H. rw /restart_filter in H. destruct (sv_eq p) eqn:He; [done|].
  destruct ascending; [rw /tighten_lower_bound in H|rw /tighten_upper_bound in H]; apply bind_Ok_inv in H as ([] & _ & H).
  1,3: injection H as <-; split; try done; by rw He.
  all: case_match; [apply bind_Ok_inv in H as (o & _ & H)|]; injection H as <-; split; try done; by rw /= He.
Qed.

(** A start key leaves the partition filter and one range filter on the sort key. *)
Lemma start_key_shape ks ts ascending start pv o sk filters' :
  sort_key ks = Some sk → partition_key ks ≠ sk → (∀ p, o = Some p → sort_shape sk false p) →
  apply_exclusive_start_key (eq_predicate (partition_key ks) (Some pv) :: option_list o) ks ts ascending start = Ok filters' →
  ∃ p, filters' = [eq_predicate (partition_key ks) (Some pv); p] ∧ sort_shape sk false p.
Proof.
  intros Hsk Hne Ho. rw /apply_exclusive_start_key Hsk. intros H. apply bind_Ok_inv in H as (parsed & _ & H).
  apply bind_Ok_inv in H as (v & _ & H). apply bind_Ok_inv in H as (f & _ & H). case_match; [done|]. apply bind_Ok_inv in H as (c & _ & H).
  cbn [update_first_filter] in H. destruct (decide (sv_field (eq_predicate (partition_key ks) (Some pv)) = sk)) as [|_]; [done|].
  destruct o as [p|]; simpl in H.
  - pose proof (Ho p eq_refl) as Hp. destruct (decide (sv_field p = sk)) as [|Hf]; [|by destruct Hp]. simpl in H.
    apply bind_Ok_inv in H as (fs & H & [= <-]). apply bind_Ok_inv in H as (p' & Hr & [= <-]). exists p'. split; [done|].
    by apply (restart_shape ascending c sk p).
  - injection H as <-. eexists. split; [reflexivity|]. by destruct ascending.
Qed.
End shapes.

(** ** Declared patterns *)

Definition derived_for (ks : DynamoDbKeySchemaConfig) (table : bool) (patterns : list ServingPattern) : Prop :=
  ∃ prefix, ∀ pattern, pattern ∈ derived_serving_patterns_for_key_schema prefix ks table (negb table) → pattern ∈ patterns.

Lemma target_patterns config index_name target existing :
  query_target config index_name = Ok target →
  derived_for (qt_key_schema target) (qt_unique_lookup target) (stc_patterns (merge_dynamodb_serving_patterns existing config)).
Proof.
  rw /query_target /merge_dynamodb_serving_patterns /derived_dynamodb_serving_patterns /derived_for. cbn [stc_patterns]. intros H.
  destruct index_name as [name|].
  - destruct (find _ (dd_local_secondary_indexes config)) as [i|] eqn:Hf.
    + injection H as <-. apply find_some in Hf as [Hin%list_elem_of_In _]. eexists. intros p Hp. apply elem_of_app; right. apply elem_of_app; right. apply elem_of_app; left.
      apply list_elem_of_bind. eexists. split; [exact Hp|exact Hin].
    + apply bind_Ok_inv in H as (i & Hi & [= <-]). destruct (find _ (dd_global_secondary_indexes config)) as [j|] eqn:Hg; [|done].
      injection Hi as ->. apply find_some in Hg as [Hin%list_elem_of_In _]. eexists. intros p Hp. apply elem_of_app; right. apply elem_of_app; right. apply elem_of_app; right.
      apply list_elem_of_bind. eexists. split; [exact Hp|exact Hin].
  - injection H as <-. eexists. intros p Hp. apply elem_of_app; right. apply elem_of_app; left. exact Hp.
Qed.

Lemma key_schema_differs schema ks label : validate_key_schema schema ks label = Ok () → ∀ sk, sort_key ks = Some sk → partition_key ks ≠ sk.
Proof.
  rw /validate_key_schema. intros H sk Hsk. apply bind_Ok_inv in H as (t & _ & H). rw Hsk in H. case_decide; [done|]. congruence.
Qed.

Lemma target_keys_differ schema config index_name target sk :
  validate_dynamodb_config schema config = Ok () → query_target config index_name = Ok target →
  sort_key (qt_key_schema target) = Some sk → partition_key (qt_key_schema target) ≠ sk.
Proof.
  rw /validate_dynamodb_config. intros H Ht. apply bind_Ok_inv in H as ([] & Hp & H). apply bind_Ok_inv in H as (seen & Hl%foldM_each & H).
  apply bind_Ok_inv in H as (seen' & Hg%foldM_each & _). rw Forall_forall in Hl. rw Forall_forall in Hg. revert Ht. rw /query_target.
  destruct index_name as [name|]; [|intros [= <-]; by apply (key_schema_differs schema _ _ Hp)].
  destruct (find _ (dd_local_secondary_indexes config)) as [i|] eqn:Hf.
  - apply find_some in Hf as [Hin%list_elem_of_In _]. intros [= <-]. destruct (Hl i Hin) as (a & a' & Hi). case_decide; [done|].
    apply bind_Ok_inv in Hi as ([] & Hv & _). rw /validate_local_secondary_index in Hv. do 2 (case_decide; [done|]).
    by apply (key_schema_differs schema _ _ Hv).
  - intros Ht. apply bind_Ok_inv in Ht as (i & Hi & [= <-]). destruct (find _ (dd_global_secondary_indexes config)) as [j|] eqn:Hgf; [|done].
    injection Hi as ->. apply find_some in Hgf as [Hin%list_elem_of_In _]. destruct (Hg i Hin) as (a & a' & Hi). case_decide; [done|].
    apply bind_Ok_inv in Hi as ([] & Hv & _). by apply (key_schema_differs schema _ _ Hv).
Qed.

(** The patterns of a direction are among the derived ones. *)
Lemma direction_derived prefix ks table exact sk descending pattern :
  sort_key ks = Some sk → pattern ∈ direction_patterns prefix ks sk descending →
  pattern ∈ derived_serving_patterns_for_key_schema prefix ks table exact.
Proof.
  intros Hsk Hp. rw /derived_serving_patterns_for_key_schema Hsk. apply elem_of_app; right. apply elem_of_app; right.
  apply elem_of_app. destruct descending; [by right|by left].
Qed.

Section queries.
Context `{ft : FloatText} `{ho : HashOrder}.

(** The partition filter uses equality on its field and nothing else. *)
Lemma eq_filter_fits pattern field v : field ∈ sp_eq_fields pattern → filter_fits_pattern pattern (read_predicate (eq_predicate field v)) = true.
Proof. intros Hf. rw /filter_fits_pattern /=. destruct v; simpl; [|done]. by rw bool_decide_true. Qed.

Lemma range_filter_fits pattern sk p : sort_shape sk false p → sp_range_field pattern = Some sk → filter_fits_pattern pattern (read_predicate p) = true.
Proof.
  intros [H1 H2 H3 _] Hr. rw /filter_fits_pattern /predicate_uses_eq /= H2 H3 H1 Hr /=. rw bool_decide_true // andb_false_r. done.
Qed.

Lemma exact_filter_fits pattern sk p : sort_shape sk true p → sk ∈ sp_eq_fields pattern → filter_fits_pattern pattern (read_predicate p) = true.
Proof.
  intros [H1 H2 H3 H4] Hr. destruct (H4 eq_refl) as (G1 & G2 & G3 & G4).
  rw /filter_fits_pattern /predicate_uses_eq /predicate_uses_range /= H1 H3 G1 G2 G3 G4 /=. by rw bool_decide_true.
Qed.

(** What a prepared query is: its filters, order and limit, case by case. *)
Inductive prepared_shape (ks : DynamoDbKeySchemaConfig) (unique : bool) (pv : Value) (request : ServingRequestPlan) : Prop :=
| shape_partition sk descending :
    sort_key ks = Some sk → sr_filters request = [eq_predicate (partition_key ks) (Some pv)] →
    sr_order_by request = [mkServingSort sk descending] → prepared_shape ks unique pv request
| shape_ranges sk descending p :
    sort_key ks = Some sk → sort_shape sk false p → sr_filters request = [eq_predicate (partition_key ks) (Some pv); p] →
    sr_order_by request = [mkServingSort sk descending] → prepared_shape ks unique pv request
| shape_exact sk p :
    sort_key ks = Some sk → sort_shape sk true p → sr_filters request = [eq_predicate (partition_key ks) (Some pv); p] →
    sr_order_by request = [] → (unique = true → default DEFAULT_LIMIT (sr_limit request) ≤ 1) → prepared_shape ks unique pv request
| shape_hash :
    sort_key ks = None → sr_filters request = [eq_predicate (partition_key ks) (Some pv)] → sr_order_by request = [] →
    (unique = true → default DEFAULT_LIMIT (sr_limit request) ≤ 1) → prepared_shape ks unique pv request.

Lemma prepare_query_shape schema context request prepared :
  validate_dynamodb_config schema (ctx_config context) = Ok () → prepare_query context request = Ok prepared →
  (pr_sort_is_exact_eq prepared = true → q_exclusive_start_key request = None) →
  let target := ro_target (pr_options prepared) in
  query_target (ctx_config context) (q_index_name request) = Ok target ∧ sr_aggregate (pr_request prepared) = None ∧
  ∃ pv, prepared_shape (qt_key_schema target) (qt_unique_lookup target) pv (pr_request prepared).
Proof.
  intros Hcfg. rw /prepare_query. intros H. apply bind_Ok_inv in H as (options & Ho & H). apply bind_Ok_inv in H as (parsed & Hp & H).
  apply bind_Ok_inv in H as (filters & Hf & [= <-]). cbn [pr_sort_is_exact_eq pr_options pr_request]. intros Hexact. set (target := ro_target options).
  assert (Ht : query_target (ctx_config context) (q_index_name request) = Ok target).
  { rw /read_options in Ho. apply bind_Ok_inv in Ho as (t & Ht & Ho). do 5 apply bind_Ok_inv in Ho as (? & _ & Ho).
    injection Ho as Ho. rw /target -Ho. exact Ht. }
  split; [done|]. split; [done|]. exists (pq_partition_value parsed). apply key_condition_shape in Hp. rw -/target in Hp Hf Hexact |- *.
  set (ks := qt_key_schema target) in *. clearbody target.
  assert (Hone : ∀ l (b c d : bool), b || c = true → d = true → query_fetch_limit l b c d ≤ 1).
  { intros l b c d Hb ->. rw /query_fetch_limit Hb /=. lia. }
  destruct (pq_sort_filter parsed) as [p|].
  - destruct Hp as (sk & Hsk & Hs). pose proof (target_keys_differ _ _ _ _ _ Hcfg Ht Hsk) as Hne.
    destruct (is_some (sv_eq p)) eqn:He.
    + rw Hexact // in Hf. injection Hf as <-. by apply (shape_exact _ _ _ _ sk p); [..|intros; apply Hone].
    + rw Hsk. destruct (q_exclusive_start_key request) as [start|].
      * apply start_key_shape with (sk:=sk) in Hf as (p' & -> & Hs'); [|done|done|by intros ? [= <-]].
        by apply (shape_ranges _ _ _ _ sk (negb (default true (q_scan_index_forward request))) p').
      * injection Hf as <-. by apply (shape_ranges _ _ _ _ sk (negb (default true (q_scan_index_forward request))) p).
  - destruct (sort_key ks) as [sk|] eqn:Hsk.
    + pose proof (target_keys_differ _ _ _ _ _ Hcfg Ht Hsk) as Hne. destruct (q_exclusive_start_key request) as [start|].
      * apply (start_key_shape _ _ _ _ _ None sk) in Hf as (p' & -> & Hs'); [|done|done|done].
        by apply (shape_ranges _ _ _ _ sk (negb (default true (q_scan_index_forward request))) p').
      * injection Hf as <-. by apply (shape_partition _ _ _ _ sk (negb (default true (q_scan_index_forward request)))).
    + assert (filters = [eq_predicate (partition_key ks) (Some (pq_partition_value parsed))]) as ->.
      { destruct (q_exclusive_start_key request); [|by injection Hf as <-]. rw /apply_exclusive_start_key Hsk in Hf. by injection Hf as <-. }
      by apply shape_hash; [..|intros; apply Hone].
Qed.

(** Such a request matches a pattern derived for its key schema. *)
Lemma shape_matches ks unique pv request patterns :
  prepared_shape ks unique pv request → derived_for ks unique patterns → (unique = false → sort_key ks ≠ None) → sr_aggregate request = None →
  ∃ pattern, pattern ∈ patterns ∧ request_matches_pattern (read_plan request) pattern (default DEFAULT_LIMIT (sr_limit request)) = true.
Proof.
  intros Hshape [prefix Hd] Hhash Hagg. destruct Hshape as [sk desc Hsk Hf Ho|sk desc p Hsk Hs Hf Ho|sk p Hsk Hs Hf Ho Hl|Hsk Hf Ho Hl].
  - eexists. split; [apply Hd, (direction_derived _ _ _ _ sk desc); [done|left]|].
    apply request_matches; [done..| |by rw /= Ho| |]; [done|rw /= Hf; by repeat constructor; apply eq_filter_fits; left|].
    intros f. rw /= Hf /=. intros [Hin|]; [done|done].
  - eexists. split; [apply Hd, (direction_derived _ _ _ _ sk desc); [done|right; left]|].
    apply request_matches; [done..| |by rw /= Ho| |]; [done| |].
    { rw /= Hf. repeat constructor; [apply eq_filter_fits; left|by apply (range_filter_fits _ sk)]. }
    intros f. rw /= Hf /= (shape_field _ _ _ Hs). intros [Hin|[= <-]]; [|right; left]. apply elem_of_cons in Hin as [->|Hin]; [left|by apply elem_of_nil in Hin].
  - assert (Hpat : ∃ name limit, mkServingPattern name [partition_key ks; sk] None None false limit None None ∈ patterns ∧
       (∀ m, limit = Some m → (Z.of_nat (default DEFAULT_LIMIT (sr_limit request)) ≤ m)%Z)).
    { destruct unique.
      - exists (prefix +:+ "get_item"), (Some 1%Z). split.
        + apply Hd. rw /derived_serving_patterns_for_key_schema /key_fields Hsk. left.
        + intros m [= <-]. specialize (Hl eq_refl). lia.
      - exists (prefix +:+ "exact_query"), None. split; [|done]. apply Hd. rw /derived_serving_patterns_for_key_schema Hsk. left. }
    destruct Hpat as (name & limit & Hin & Hlim). eexists. split; [exact Hin|].
    apply request_matches; [done..|exact Hlim|by rw /= Ho| |].
    { rw /= Hf. repeat constructor; [apply eq_filter_fits; left|apply (exact_filter_fits _ sk); [done|right; left]]. }
    intros f. rw /= Hf /= (shape_field _ _ _ Hs). intros [Hin'|]; [exact Hin'|done].
  - destruct unique; [|by exfalso; apply Hhash].
    eexists. split.
    { apply Hd. rw /derived_serving_patterns_for_key_schema /key_fields Hsk. left. }
    apply request_matches; [done..| |by rw /= Ho| |].
    + intros m [= <-]. specialize (Hl eq_refl). lia.
    + rw /= Hf. by repeat constructor; apply eq_filter_fits; left.
    + intros f. rw /= Hf /=. intros [Hin|]; [done|done].
Qed.

Lemma target_unique config index_name target : query_target config index_name = Ok target → qt_unique_lookup target = false → index_name ≠ None.
Proof. rw /query_target. destruct index_name; [done|]. by intros [= <-]. Qed.

(** C26. Queries are served: the request a Query becomes, on the table or on an index
    with a sort key, matches a pattern the table's own configuration declares, so that
    once it is valid for the schema it is planned on the fast path whenever the files it
    needs are within the budgets.  A condition on one exact sort key is only asked
    without a start key. *)
Theorem query_takes_fast_path cache sx schema context request prepared existing :
  validate_dynamodb_config schema (ctx_config context) = Ok () →
  td_serving (sx_description sx) = Some (merge_dynamodb_serving_patterns existing (ctx_config context)) →
  prepare_query context request = Ok prepared → validate_request (pr_request prepared) (sx_schema sx) = Ok () →
  (q_index_name request ≠ None → sort_key (qt_key_schema (ro_target (pr_options prepared))) ≠ None) →
  (pr_sort_is_exact_eq prepared = true → q_exclusive_start_key request = None) →
  exceeds_fast_budget sx (prune_candidate_files cache (sx_files sx) (sx_file_stats sx) (read_plan (pr_request prepared))) = false →
  ∃ plan, plan_request cache sx (read_plan (pr_request prepared)) = Ok plan ∧ pl_classification plan = FastPath.
Proof.
  intros Hcfg Hserving Hprep Hvalid Hindex Hexact Hbudget.
  destruct (prepare_query_shape _ _ _ _ Hcfg Hprep Hexact) as (Ht & Hagg & pv & Hshape).
  destruct (shape_matches _ _ _ _ _ Hshape (target_patterns _ _ _ existing Ht)) as (pattern & Hin & Hmatch); [|done|].
  { intros Hu. apply Hindex. by apply (target_unique _ _ _ Ht). }
  destruct (plan_request_spec cache sx (pr_request prepared) Hvalid) as (plan & Hplan & _ & _ & Hfast & _).
  exists plan. split; [done|]. apply Hfast. split; [|done]. exists pattern. split; [|done]. by rw /declared_patterns Hserving.
Qed.

(** GetItem asks for the pattern of its own. *)
Lemma get_item_matches projection config existing key :
  ∃ pattern, pattern ∈ stc_patterns (merge_dynamodb_serving_patterns existing config) ∧
    request_matches_pattern (read_plan (get_item_request projection (primary_key_schema config) key)) pattern 1 = true.
Proof.
  eexists. split.
  { apply elem_of_app; right. apply elem_of_app; left. apply elem_of_app; left. left. }
  destruct config as [pk [sk|] lsis gsis]; (apply request_matches; [done..| |done| |]).
  - by intros m [= <-].
  - repeat constructor; apply eq_filter_fits; [left|right; left].
  - intros f [Hin|]; done.
  - by intros m [= <-].
  - repeat constructor; apply eq_filter_fits; left.
  - intros f [Hin|]; done.
Qed.
End queries.
End DynamoQueryTheory.

Module DynamoQueryDemo.
Import FloatTextDemo HashOrderDemo DynamoQueryTheory.

Definition demo_schema : PowdrrSchema := mkSchema [mkField "pk" TString; mkField "sk" TInteger; mkField "colour" TString].
Definition demo_config : DynamoDbTableConfig := mkDynamoDb "pk" (Some "sk") [] [mkGsi "by-colour" "colour" None].
Definition demo_description : TableDescription :=
  mkTableDescription "t" ∅ (Some (merge_dynamodb_serving_patterns None demo_config)) None (Some demo_config) None None.
Definition demo_context : DynamoDbTableContext := mkContext demo_description demo_config demo_schema.
Definition demo_sx : ServingExecutionContext :=
  mkServingContext demo_description (mkDescriptor "t" "c" None) demo_schema [mkFile "f" demo_schema 10] [] [] ∅ [] [] [] ∅ [] None false.

Definition demo_query (condition : string) (index : option string) (limit : option nat) (start : option Object) : QueryRequest :=
  mkQuery "t" condition None (Some {[":p" := tagged "S" (VString "a"); ":n" := tagged "N" (VString "5")]}) None None limit start index None None None None.

Definition range_query : QueryRequest :=
  demo_query "pk = :p AND sk > :n" None (Some 10) (Some [("pk", tagged "S" (VString "a")); ("sk", tagged "N" (VString "7"))]).

(** The class of the plan of a query, and whether its request is valid. *)
Definition query_class (request : QueryRequest) : ddb (option ServingQueryClassification) :=
  prepared ← prepare_query demo_context request;
  match validate_request (pr_request prepared) demo_schema, plan_request ∅ demo_sx (read_plan (pr_request prepared)) with
  | Ok _, Ok plan => Ok (Some (pl_classification plan))
  | _, _ => Ok None
  end.

Lemma query_takes_fast_path_witness :
  ∃ prepared plan, prepare_query demo_context range_query = Ok prepared ∧
    plan_request ∅ demo_sx (read_plan (pr_request prepared)) = Ok plan ∧ pl_classification plan = FastPath.
Proof.
  destruct (prepare_query demo_context range_query) as [prepared|e|r] eqn:Hp; [|vm_compute in Hp; discriminate..].
  exists prepared. pose proof Hp as Hv. vm_compute in Hv. injection Hv as Hv.
  destruct (query_takes_fast_path ∅ demo_sx demo_schema demo_context range_query prepared None) as (plan & H1 & H2);
    [vm_compute; reflexivity|reflexivity|exact Hp|..|by exists plan]; rewrite <- Hv; [vm_compute; reflexivity|discriminate|discriminate|vm_compute; reflexivity].
Defined.

(** An index without a sort key has no pattern: every query of it is refused. *)
Lemma hash_only_index_not_served : query_class (demo_query "colour = :p" (Some "by-colour") (Some 10) None) = Ok (Some SlowPath).
Proof. vm_compute. reflexivity. Qed.

(** The front end admits pages of up to 1000 rows and asks for one row more, which
    validation refuses. *)
Lemma largest_page_not_valid :
  query_class (demo_query "pk = :p" None (Some 1000) None) = Ok None ∧ query_class (demo_query "pk = :p" None (Some 999) None) = Ok (Some FastPath).
Proof. vm_compute. split; reflexivity. Qed.

(** One exact sort key with a start key is a range without an order, which no pattern
    declares. *)
Lemma exact_query_not_resumable :
  query_class (demo_query "pk = :p AND sk = :n" None (Some 10) (Some [("pk", tagged "S" (VString "a")); ("sk", tagged "N" (VString "5"))])) = Ok (Some SlowPath).
Proof. vm_compute. reflexivity. Qed.
End DynamoQueryDemo.
