(* ===== verification/DynamoScanTheory.v ===== *)
(** * The pages of a Scan are the table (query_server/src/dynamodb_protocol.rs)

    Following [LastEvaluatedKey] from page to page lists every row once, in the order of
    the key fields, whatever the page size and however the rows are spread over files.
    The statement texts are read back by a reader of SQL ([read_scan]); what is assumed of
    the engine ([engine_scans]) is the meaning of a statement so read: the rows its
    comparisons select, in its order, up to its limit. *)

From S2P Require Import Prelude Text StableSort Schema Json FileSet Contract Checkpoint QueryPath Pruning Planner SqlText.
From S2P Require Import DynamoAttr DynamoFilter DynamoFilterTheory DynamoUpdate DynamoItems DynamoKeys DynamoQuery DynamoScan.

(** ** Reading a scan statement *)

(** Conditions in brackets. *)
Inductive ScanCondition : Type :=
| Greater (field : string) (literal : SqlLiteral)
| Equal (field : string) (literal : SqlLiteral)
| Or (left right : ScanCondition)
| And (left right : ScanCondition).

Record ScanStatement : Type := mkScanStatement {
  ss_where : option ScanCondition;
  ss_order : list string;
  ss_limit : nat;
}.

Definition read_identifier (s : string) : option (string * string) := s ← strip_prefix dquote s; read_quoted "034" s.

Fixpoint read_scan_condition (fuel : nat) (s : string) : option (ScanCondition * string) :=
  match fuel with
  | 0 => None
  | S fuel =>
      match strip_prefix "(" s with
      | Some s =>
          '(c, s) ← read_scan_condition fuel s;
          '(make, s) ← match strip_prefix " OR " s with Some s => Some (Or, s) | None => s ← strip_prefix " AND " s; Some (And, s) end;
          '(d, s) ← read_scan_condition fuel s;
          s ← strip_prefix ")" s;
          Some (make c d, s)
      | None =>
          '(field, s) ← read_identifier s;
          '(make, s) ← match strip_prefix " > " s with Some s => Some (Greater, s) | None => s ← strip_prefix " = " s; Some (Equal, s) end;
          '(literal, s) ← read_literal s;
          Some (make field literal, s)
      end
  end.

Definition read_ascending (s : string) : option (string * string) := '(field, s) ← read_identifier s; s ← strip_prefix " ASC" s; Some (field, s).

Definition read_scan (s : string) : option ScanStatement :=
  s ← strip_prefix "SELECT * FROM {table} t" s;
  '(condition, s) ← match strip_prefix " WHERE " s with
                    | Some s => '(c, s) ← read_scan_condition (String.length s) s; Some (Some c, s)
                    | None => Some (None, s)
                    end;
  s ← strip_prefix " ORDER BY " s;
  '(order, s) ← read_list (String.length s) ", " read_ascending s;
  s ← strip_prefix " LIMIT " s;
  limit ← parse_i64 s;
  Some (mkScanStatement condition order (Z.to_nat limit)).

(** ** The meaning of a scan statement *)

(** Columns hold texts or integers; other values are kept apart. *)
Definition sql_rank (v : option Value) : nat :=
  match v with
  | Some (VString _) => 0
  | Some (VNumber (PosInt _)) | Some (VNumber (NegInt _)) => 1
  | _ => 2
  end.
Definition sql_text (v : option Value) : string := match v with Some (VString s) => s | _ => "" end.
Definition sql_integer (v : option Value) : Z := match v with Some (VNumber (PosInt n)) | Some (VNumber (NegInt n)) => n | _ => 0%Z end.

(** Texts compare byte by byte, integers as numbers. *)
Definition sql_compare (a b : option Value) : comparison :=
  then_cmp (Nat.compare (sql_rank a) (sql_rank b))
    (then_cmp (String.compare (sql_text a) (sql_text b)) (Z.compare (sql_integer a) (sql_integer b))).

(** [ORDER BY f1 ASC, f2 ASC, ..] *)
Fixpoint sql_row_compare (order_fields : list string) (r s : Object) : comparison :=
  match order_fields with
  | [] => Eq
  | f :: order_fields => then_cmp (sql_compare (obj_get f r) (obj_get f s)) (sql_row_compare order_fields r s)
  end.

(** A quoted literal is a text, a bare one an integer. *)
Definition literal_value (l : SqlLiteral) : option Value := match l with LText s => Some (VString s) | LBare s => int <$> parse_i64 s end.

Fixpoint condition_holds (r : Object) (c : ScanCondition) : bool :=
  match c with
  | Greater f l => match literal_value l with Some v => match sql_compare (obj_get f r) (Some v) with Gt => true | _ => false end | None => false end
  | Equal f l => match literal_value l with Some v => match sql_compare (obj_get f r) (Some v) with Eq => true | _ => false end | None => false end
  | Or c d => condition_holds r c || condition_holds r d
  | And c d => condition_holds r c && condition_holds r d
  end.

(** What a page asks for: the rows after a key, in the order of the key fields. *)
Fixpoint after_key (order_fields : list string) (key : gmap string Value) (r : Object) : bool :=
  match order_fields with
  | [] => false
  | f :: remaining =>
      match sql_compare (obj_get f r) (key !! f) with
      | Gt => true
      | Eq => match remaining with [] => false | _ => after_key remaining key r end
      | Lt => false
      end
  end.

Definition selected (order_fields : list string) (start : option (gmap string Value)) (r : Object) : bool :=
  match start with Some key => after_key order_fields key r | None => true end.

Definition scan_result (order_fields : list string) (start : option (gmap string Value)) (limit : nat) (rows : list Object) : list Object :=
  take limit (sort_by (sql_row_compare order_fields) (List.filter (selected order_fields start) rows)).

(** The key fields of a row. *)
Definition row_key (order_fields : list string) (r : Object) : gmap string Value :=
  foldr (λ f key, match obj_get f r with Some v => <[f := v]> key | None => key end) ∅ order_fields.

(** The starts a client can come back with. *)
Definition client_start (order_fields : list string) (rows : list Object) (start : option (gmap string Value)) : Prop :=
  start = None ∨ ∃ r, r ∈ rows ∧ start = Some (row_key order_fields r).

(** ** Tables with keys *)

Inductive KeyKind : Type := KeyText | KeyInteger.

(** A text, or an integer a double represents exactly. *)
Definition of_kind (k : KeyKind) (v : Value) : Prop :=
  match k, v with
  | KeyText, VString _ => True
  | KeyInteger, VNumber (PosInt n) => (0 ≤ n ≤ 2 ^ 53)%Z
  | KeyInteger, VNumber (NegInt n) => (- 2 ^ 53 ≤ n < 0)%Z
  | _, _ => False
  end.

(** A column of one type with a value in every row, and a comparison of one with a literal
    of its type. *)
Definition column_of (rows : list Object) (k : KeyKind) (f : string) : Prop := ∀ r, r ∈ rows → ∃ v, obj_get f r = Some v ∧ of_kind k v.
Fixpoint condition_typed (rows : list Object) (c : ScanCondition) : Prop :=
  match c with
  | Greater f l | Equal f l => ∃ k v, column_of rows k f ∧ literal_value l = Some v ∧ of_kind k v
  | Or c d | And c d => condition_typed rows c ∧ condition_typed rows d
  end.

(** Every key column has one type and a value in every row, no two rows have one key,
    and the rows are items. *)
Record keyed (order_fields : list string) (rows : list Object) : Prop := {
  keyed_column : ∀ f, f ∈ order_fields → ∃ k, ∀ r, r ∈ rows → ∃ v, obj_get f r = Some v ∧ of_kind k v;
  keyed_distinct : ∀ r s, r ∈ rows → s ∈ rows → sql_row_compare order_fields r s = Eq → r = s;
  keyed_nodup : NoDup rows;
  keyed_items : ∀ r, r ∈ rows → Forall (λ kv, storable kv.2) r;
}.

Module DynamoScanTheory.
Import DynamoFilterTheory.

(** ** Order *)

#[export] Instance sql_row_total order_fields : TotalPreorder (sql_row_compare order_fields).
Proof.
  induction order_fields as [|f order_fields IH]; [apply total_const|]. cbn [sql_row_compare]. apply total_then; [|exact IH].
  rw /sql_compare. apply (total_on (obj_get f) (λ a b, then_cmp (Nat.compare (sql_rank a) (sql_rank b))
    (then_cmp (String.compare (sql_text a) (sql_text b)) (Z.compare (sql_integer a) (sql_integer b))))).
  apply total_then; [apply (total_on sql_rank), _|]. apply total_then; [apply (total_on sql_text), _|apply (total_on sql_integer), _].
Qed.

Section scan.
Context {W : Type} `{store : ItemStore W} `{engine : SqlEngine W} `{ft : FloatText, !FloatTextLaws ft} `{ho : HashOrder}.

(** On the values of one key column the comparison in Rust is the one in SQL. *)
Lemma compare_key_values k a b : of_kind k a → of_kind k b → compare_scan_row_field (Some a) (Some b) = sql_compare (Some a) (Some b).
Proof.
  assert (Hf : ∀ m n, (Z.abs m ≤ 2 ^ 53)%Z → (Z.abs n ≤ 2 ^ 53)%Z → f64_compare (mkF64 (round53 m) 0) (mkF64 (round53 n) 0) = (m ?= n)%Z).
  { intros m n Hm Hn. rw /f64_compare /= !Z.mul_1_r. by rw !round53_exact. }
  destruct k, a as [| |[m|m|?]|s| |], b as [| |[n|n|?]|t| |]; try (by intros); intros Ha Hb; simpl in Ha, Hb.
  { rw /sql_compare /=. by destruct (String.compare s t). }
  all: rw /compare_scan_row_field /compare_scalars /as_f64 Hf; [lia..|]; rw /sql_compare /=; by destruct (Z.compare m n).
Qed.

Lemma compare_rows_sql order_fields rows r s : keyed order_fields rows → r ∈ rows → s ∈ rows →
  compare_scan_rows order_fields (VObject r) (VObject s) = sql_row_compare order_fields r s.
Proof.
  intros [Hcol _ _ _] Hr Hs. induction order_fields as [|f fields IH]; [done|]. cbn [compare_scan_rows sql_row_compare as_object mbind option_bind].
  destruct (Hcol f) as [k Hk]; [left|]. destruct (Hk r Hr) as (v & Hv & Hkv), (Hk s Hs) as (u & Hu & Hku).
  rw Hv Hu (compare_key_values k v u) //. rw IH; [intros g Hg; apply Hcol; by right|]. by destruct (sql_compare _ _).
Qed.

(** ** Start keys *)

Lemma row_key_lookup order_fields r f : f ∈ order_fields → row_key order_fields r !! f = obj_get f r.
Proof.
  rw /row_key. induction order_fields as [|g fields IH]; intros Hf; [by apply elem_of_nil in Hf|]. simpl.
  destruct (decide (g = f)) as [->|Hne].
  - destruct (obj_get f r) eqn:Hv; [by rw lookup_insert_eq|]. destruct (decide (f ∈ fields)) as [Hin|Hout]; [by rw IH|].
    clear IH Hf. induction fields as [|h fields IH]; [apply lookup_empty|]. simpl. apply not_elem_of_cons in Hout as [Hh Hout].
    case_match; [rw lookup_insert_ne; [congruence|]|]; by apply IH.
  - apply elem_of_cons in Hf as [?|Hf]; [congruence|]. case_match; [rw lookup_insert_ne; [congruence|]|]; by apply IH.
Qed.

(** The condition of a start key selects what comes after the row. *)
Lemma after_row order_fields key r s :
  order_fields ≠ [] → (∀ f, f ∈ order_fields → key !! f = obj_get f s) →
  after_key order_fields key r = match sql_row_compare order_fields r s with Gt => true | _ => false end.
Proof.
  intros Hne Hkey. induction order_fields as [|f fields IH]; [done|]. cbn [after_key sql_row_compare]. rw Hkey; [left|].
  destruct (sql_compare (obj_get f r) (obj_get f s)); [|done|done]. destruct fields as [|g fields]; [done|].
  apply IH; [done|]. intros h Hh. apply Hkey. by right.
Qed.

(** ** The statements read back *)

Lemma kind_literal k v : of_kind k v → ∃ text, scan_sql_literal v = Ok text ∧ sql_literal v = Ok text ∧ literal_value (literal_of v) = Some v.
Proof.
  destruct k, v as [| |[n|n|]| | |]; simpl; try done; intros Hn; eexists; split_and!; try done.
  - rw parse_print_int; [lia|]. cbn. rw /int. by destruct (Z.ltb_spec n 0); [lia|].
  - rw parse_print_int; [lia|]. cbn. rw /int. by destruct (Z.ltb_spec n 0); [|lia].
Qed.

Lemma read_identifier_app field rest : SqlTheory.starts_with_char (Ascii.eqb "034") rest = false → read_identifier (scan_field field +:+ rest) = Some (field, rest).
Proof.
  intros Hr. rw /read_identifier /scan_field /dynamodb_escape_identifier !str_app_assoc SqlTheory.strip_prefix_app. cbn [mbind option_bind].
  change (dquote +:+ dquote) with (String "034" (String "034" "")). rw /dquote replace_double. by apply SqlTheory.read_quoted_app.
Qed.

(** The condition of a start key. *)
Fixpoint start_condition (order_fields : list string) (key : gmap string Value) : option ScanCondition :=
  match order_fields with
  | [] => None
  | f :: remaining =>
      v ← key !! f;
      match remaining with
      | [] => Some (Greater f (literal_of v))
      | _ => rest ← start_condition remaining key; Some (Or (Greater f (literal_of v)) (And (Equal f (literal_of v)) rest))
      end
  end.

Lemma read_comparison f v text rest fuel : sql_literal v = Ok text → SqlTheory.ends_literal rest →
  read_scan_condition (S fuel) (scan_field f +:+ " > " +:+ text +:+ rest) = Some (Greater f (literal_of v), rest) ∧
  read_scan_condition (S fuel) (scan_field f +:+ " = " +:+ text +:+ rest) = Some (Equal f (literal_of v), rest).
Proof.
  intros Hl Hr. assert (Hp : ∀ t, strip_prefix "(" (scan_field f +:+ t) = None) by (intros t; by rw /scan_field str_app_assoc).
  cbn [read_scan_condition]. rw !Hp !read_identifier_app //. cbn [mbind option_bind].
  assert (He : strip_prefix " > " (" = " +:+ text +:+ rest) = None) by done.
  rw He !SqlTheory.strip_prefix_app. cbn [mbind option_bind]. by rw (SqlTheory.read_literal_app v).
Qed.

(** Two conditions in brackets. *)
Lemma read_or c d rest tail s1 fuel :
  read_scan_condition fuel (s1 +:+ " OR " +:+ rest) = Some (c, " OR " +:+ rest) → read_scan_condition fuel rest = Some (d, ")" +:+ tail) →
  read_scan_condition (S fuel) ("(" +:+ s1 +:+ " OR " +:+ rest) = Some (Or c d, tail).
Proof. intros Hc Hd. cbn [read_scan_condition]. rw SqlTheory.strip_prefix_app Hc. cbn [mbind option_bind]. rw SqlTheory.strip_prefix_app. cbn [mbind option_bind]. rw Hd. cbn [mbind option_bind]. by rw SqlTheory.strip_prefix_app. Qed.
Lemma read_and c d rest tail s1 fuel :
  read_scan_condition fuel (s1 +:+ " AND " +:+ rest) = Some (c, " AND " +:+ rest) → read_scan_condition fuel rest = Some (d, ")" +:+ tail) →
  read_scan_condition (S fuel) ("(" +:+ s1 +:+ " AND " +:+ rest) = Some (And c d, tail).
Proof.
  intros Hc Hd. cbn [read_scan_condition]. rw SqlTheory.strip_prefix_app Hc. cbn [mbind option_bind].
  assert (Hn : strip_prefix " OR " (" AND " +:+ rest) = None) by done. rw Hn SqlTheory.strip_prefix_app. cbn [mbind option_bind].
  rw Hd. cbn [mbind option_bind]. by rw SqlTheory.strip_prefix_app.
Qed.

(** The clause of a start key reads as its condition, which selects what comes after. *)
Lemma start_clause order_fields rows r key :
  keyed order_fields rows → r ∈ rows → order_fields ≠ [] → (∀ f, f ∈ order_fields → key !! f = obj_get f r) →
  ∃ clause c, scan_start_key_clause order_fields key = Ok clause ∧ start_condition order_fields key = Some c ∧
    2 * length order_fields ≤ String.length clause ∧
    (∀ fuel rest, 2 * length order_fields ≤ fuel → SqlTheory.ends_literal rest → read_scan_condition fuel (clause +:+ rest) = Some (c, rest)) ∧
    (∀ s, condition_holds s c = after_key order_fields key s) ∧ condition_typed rows c.
Proof.
  intros [Hcol _ _ _] Hr Hne Hkey. rw /scan_start_key_clause. induction order_fields as [|f fields IH]; [done|]. cbn [scan_start_key_clause_inner start_condition].
  destruct (Hcol f) as [k Hk]; [left|]. destruct (Hk r Hr) as (v & Hv & Hkv). assert (Hkf : key !! f = Some v) by (rw Hkey; [left|done]). rw Hkf /=.
  destruct (kind_literal k v Hkv) as (text & -> & Hsql & Hval). rw bind_Ok.
  assert (Hgt : ∀ s, condition_holds s (Greater f (literal_of v)) = match sql_compare (obj_get f s) (key !! f) with Gt => true | _ => false end) by (intros s; cbn; by rw Hval Hkf).
  assert (Heq : ∀ s, condition_holds s (Equal f (literal_of v)) = match sql_compare (obj_get f s) (key !! f) with Eq => true | _ => false end) by (intros s; cbn; by rw Hval Hkf).
  assert (Hty : ∃ k v0, column_of rows k f ∧ literal_value (literal_of v) = Some v0 ∧ of_kind k v0) by (by exists k, v).
  pose proof (λ rest fuel, read_comparison f v text rest fuel Hsql) as Hread.
  revert Hread. generalize (scan_field f) as F. intros F Hread. destruct fields as [|g fields].
  - eexists _, _. split_and!; [reflexivity|reflexivity| | | |done].
    + rw !str_length_app /=. lia.
    + intros fuel rest Hf He. destruct fuel as [|fuel]; [simpl in Hf; lia|]. rw !str_app_assoc. by apply Hread.
    + intros s. rw Hgt. cbn [after_key]. by destruct (sql_compare _ _).
  - destruct IH as (rest & c & H1 & H2 & H3 & H4 & H5 & H6); [intros h Hh; apply Hcol; by right|done|intros h Hh; apply Hkey; by right|].
    rw H1 bind_Ok H2 /=. eexists _, _. split_and!; [reflexivity|reflexivity| | | |done..].
    + rw !str_length_app /=. simpl in H3. lia.
    + intros fuel tail Hf He. destruct fuel as [|[|[|fuel]]]; [simpl in Hf; lia..|].
      trans (read_scan_condition (S (S (S fuel))) ("(" +:+ (F +:+ " > " +:+ text) +:+ " OR " +:+ ("(" +:+ (F +:+ " = " +:+ text) +:+ " AND " +:+ (rest +:+ ")" +:+ ")" +:+ tail)))).
      { f_equal. by rw !str_app_assoc. }
      apply read_or; [rw !str_app_assoc; by apply Hread|]. apply read_and; [rw !str_app_assoc; by apply Hread|].
      apply H4; [simpl in Hf |- *; lia|done].
    + intros s. cbn [condition_holds] in Hgt, Heq |- *. rw Hgt Heq H5. cbn [after_key]. by destruct (sql_compare _ _).
Qed.

(** ** One statement per group of files *)

Definition table_rows (files : list FileDescriptor) (rows_of : list FileDescriptor → list Object) : list Object :=
  dynamodb_group_files_by_schema files ≫= rows_of.

Lemma condition_typed_mono rows rows' c : (∀ r, r ∈ rows' → r ∈ rows) → condition_typed rows c → condition_typed rows' c.
Proof.
  intros Hin. assert (Hcol : ∀ k f, column_of rows k f → column_of rows' k f) by (intros k f Hc r Hr; by apply Hc, Hin).
  induction c; cbn [condition_typed]; naive_solver.
Qed.

Definition statement_selects (stmt : ScanStatement) (r : Object) : bool :=
  match ss_where stmt with Some c => condition_holds r c | None => true end.

(** Whatever text reads as a statement over columns of one type each is answered by what it
    says: the rows its condition selects, in its order, the first ones up to its limit. *)
Definition engine_scans (w : W) (files : list FileDescriptor) (rows_of : list FileDescriptor → list Object) : Prop :=
  ∀ group sql stmt, group ∈ dynamodb_group_files_by_schema files → read_scan sql = Some stmt →
    (∀ c, ss_where stmt = Some c → condition_typed (rows_of group) c) → (∀ f, f ∈ ss_order stmt → ∃ k, column_of (rows_of group) k f) →
    ∃ sorted, sorted ≡ₚ List.filter (statement_selects stmt) (rows_of group) ∧ StronglySorted (cmp_le (sql_row_compare (ss_order stmt))) sorted ∧
      run_sql w group sql = Ok (VObject <$> take (ss_limit stmt) sorted).

Lemma read_ascending_list order_fields rest : order_fields ≠ [] → strip_prefix ", " rest = None → ∀ fuel, length order_fields ≤ fuel →
  read_list fuel ", " read_ascending (join ", " ((λ field, scan_field field +:+ " ASC") <$> order_fields) +:+ rest) = Some (order_fields, rest).
Proof.
  intros Hne Hrest fuel Hf. apply (SqlTheory.read_list_app _ _ (λ _, True)); [|by destruct order_fields|by rw length_fmap|done|done|done].
  apply Forall2_fmap_l, Forall_Forall2_diag, Forall_forall. intros f _ tail _. rw /read_ascending (str_app_assoc (scan_field f)) read_identifier_app //.
Qed.

(** The text of a page's statement reads as the statement. *)
Lemma scan_sql_reads order_fields rows start limit :
  keyed order_fields rows → order_fields ≠ [] → client_start order_fields rows start → (Z.of_nat limit < 2 ^ 63)%Z →
  ∃ sql stmt, build_scan_sql "{table}" None start order_fields limit = Ok sql ∧ read_scan sql = Some stmt ∧
    ss_order stmt = order_fields ∧ ss_limit stmt = limit ∧ (∀ r, statement_selects stmt r = selected order_fields start r) ∧
    ∀ c, ss_where stmt = Some c → condition_typed rows c.
Proof.
  intros Hk Hne Hs Hlim.
  assert (Htail : ∀ condition, (let s := " ORDER BY " +:+ join ", " ((λ field, scan_field field +:+ " ASC") <$> order_fields) +:+ " LIMIT " +:+ show_nat limit in
    s ← strip_prefix " ORDER BY " s; '(order, s) ← read_list (String.length s) ", " read_ascending s; s ← strip_prefix " LIMIT " s; limit ← parse_i64 s;
    Some (mkScanStatement condition order (Z.to_nat limit))) = Some (mkScanStatement condition order_fields limit)).
  { intros condition. cbv zeta. rw SqlTheory.strip_prefix_app. cbn [mbind option_bind]. rw read_ascending_list //.
    { rw str_length_app. assert (length order_fields ≤ String.length (join ", " ((λ field, scan_field field +:+ " ASC") <$> order_fields) +:+ "")).
      { rw -(length_fmap (λ field, scan_field field +:+ " ASC") order_fields). apply SqlTheory.join_length. apply Forall_fmap, Forall_forall. by intros f _. }
      rw str_length_app /= in H. lia. }
    cbn [mbind option_bind]. rw SqlTheory.strip_prefix_app. cbn [mbind option_bind]. rw /show_nat parse_print_int; [lia|]. cbn [mbind option_bind]. by rw Nat2Z.id. }
  destruct Hs as [->|(r & Hr & ->)]; rw /build_scan_sql.
  - rw bind_Ok. exists ("SELECT * FROM {table} t" +:+ " ORDER BY " +:+ join ", " ((λ field, scan_field field +:+ " ASC") <$> order_fields) +:+ " LIMIT " +:+ show_nat limit), (mkScanStatement None order_fields limit).
    destruct (decide (order_fields = [])) as [|_]; [done|]. destruct (decide ([] = [])) as [_|]; [|done]. split_and!; try done.
    rw /read_scan SqlTheory.strip_prefix_app. cbn [mbind option_bind]. exact (Htail None).
  - destruct (start_clause order_fields rows r (row_key order_fields r) Hk Hr Hne) as (clause & c & H1 & _ & H3 & H4 & H5 & H6); [intros f Hf; by apply row_key_lookup|].
    rw H1 !bind_Ok. set (tail := " ORDER BY " +:+ join ", " ((λ field, scan_field field +:+ " ASC") <$> order_fields) +:+ " LIMIT " +:+ show_nat limit) in *.
    exists ("SELECT * FROM {table} t" +:+ " WHERE " +:+ clause +:+ tail), (mkScanStatement (Some c) order_fields limit).
    destruct (decide (order_fields = [])) as [|_]; [done|]. destruct (decide ([clause] = [])) as [|_]; [done|]. split_and!; try done; [..|by intros c' [= <-]].
    rw /read_scan SqlTheory.strip_prefix_app. cbn [mbind option_bind]. rw SqlTheory.strip_prefix_app H4; [rw str_length_app; lia|done|]. cbn [mbind option_bind]. exact (Htail (Some c)).
Qed.

(** What the engine answers for a group is the page's part of the group. *)
Lemma group_page w files rows_of order_fields start limit sql group :
  keyed order_fields (table_rows files rows_of) → order_fields ≠ [] → client_start order_fields (table_rows files rows_of) start → (Z.of_nat limit < 2 ^ 63)%Z →
  engine_scans w files rows_of → build_scan_sql "{table}" None start order_fields limit = Ok sql → group ∈ dynamodb_group_files_by_schema files →
  run_sql w group sql = Ok (VObject <$> scan_result order_fields start limit (rows_of group)).
Proof.
  intros Hk Hne Hs Hlim He Hsql Hg. destruct (scan_sql_reads order_fields _ start limit Hk Hne Hs Hlim) as (sql' & stmt & Hsql' & Hread & <- & <- & Hsel & Hty).
  rw Hsql in Hsql'. injection Hsql' as <-.
  assert (Hin : ∀ r, r ∈ rows_of group → r ∈ table_rows files rows_of) by (intros r Hr; apply list_elem_of_bind; by exists group).
  destruct (He group sql stmt Hg Hread) as (sorted & Hp & Hsort & ->).
  - intros c Hc. apply (condition_typed_mono _ _ _ Hin), Hty, Hc.
  - intros f Hf. destruct (keyed_column _ _ Hk f Hf) as [k Hcol]. exists k. intros r Hr. by apply Hcol, Hin.
  - rw /scan_result. do 3 f_equal. rw (filter_ext _ _ Hsel) in Hp.
    apply (StronglySorted_unique_strong (cmp_le (sql_row_compare (ss_order stmt)))); [|done|apply sort_by_in_order, sql_row_total|by rw sort_by_perm].
    assert (Hsub : ∀ x, x ∈ List.filter (selected (ss_order stmt) start) (rows_of group) → x ∈ table_rows files rows_of).
    { intros x Hx. apply Hin. apply list_elem_of_In, filter_In in Hx as [Hx _]. by apply list_elem_of_In. }
    intros x y Hx Hy Hxy Hyx. rw Hp in Hx. rw elem_of_sort_by in Hy. apply (keyed_distinct _ _ Hk); [by apply Hsub..|].
    rw /cmp_le in Hxy Hyx. rw (cmp_opp x y) in Hyx. by destruct (sql_row_compare (ss_order stmt) x y).
Qed.

(** Merging the groups: sorted and cut after each, the result is the first rows of all. *)
Lemma merge_groups order_fields rows sel limit (new : list FileDescriptor → list Object) groups done :
  keyed order_fields rows → (∀ r, r ∈ done → r ∈ rows) → (∀ g r, g ∈ groups → r ∈ new g → r ∈ rows) →
  foldM (λ acc g, new_rows ← Ok (VObject <$> take limit (sort_by (sql_row_compare order_fields) (List.filter sel (new g))));
                  Ok (take limit (sort_by (compare_scan_rows order_fields) (acc ++ new_rows))))
    (VObject <$> take limit (sort_by (sql_row_compare order_fields) (List.filter sel done))) groups =
  (Ok (VObject <$> take limit (sort_by (sql_row_compare order_fields) (List.filter sel (done ++ (groups ≫= new))))) : ddb _).
Proof.
  intros Hk. revert done. induction groups as [|g groups IH]; intros done Hd Hg; [by rw app_nil_r|].
  cbn [foldM]. rw bind_Ok. rw bind_cons app_assoc -IH.
  - intros r [Hr|Hr]%elem_of_app; [by apply Hd|]. apply (Hg g); [left|done].
  - intros h r Hh Hr. apply (Hg h); [by right|done].
  - rw bind_Ok. f_equal. rw -fmap_app sort_by_fmap -fmap_take. f_equal.
    assert (Hin : ∀ l n r, r ∈ take n (sort_by (sql_row_compare order_fields) (List.filter sel l)) → r ∈ l).
    { intros l n r Hr. apply elem_of_take in Hr as (i & Hi & _). apply list_elem_of_lookup_2 in Hi.
      rw elem_of_sort_by list_elem_of_In filter_In in Hi. apply list_elem_of_In. by destruct Hi. }
    rw (sort_by_ext _ (sql_row_compare order_fields)).
    { assert (Hsub : ∀ x, x ∈ take limit (sort_by (sql_row_compare order_fields) (List.filter sel done)) ++
         take limit (sort_by (sql_row_compare order_fields) (List.filter sel (new g))) → x ∈ rows).
      { intros x [Hx|Hx]%elem_of_app; [by apply Hd, (Hin _ limit)|apply (Hg g); [left|by apply (Hin _ limit)]]. }
      intros x y Hx Hy. apply (compare_rows_sql _ rows); [done|by apply Hsub|by apply Hsub]. }
    by rw top_k_merge_r top_k_merge List.filter_app.
Qed.

Lemma execute_scan_spec w files rows_of order_fields start limit :
  keyed order_fields (table_rows files rows_of) → order_fields ≠ [] → client_start order_fields (table_rows files rows_of) start →
  (Z.of_nat limit < 2 ^ 63)%Z → engine_scans w files rows_of →
  execute_scan_query files None start order_fields limit w = (Ok (VObject <$> scan_result order_fields start limit (table_rows files rows_of)), w).
Proof.
  intros Hk Hne Hs Hlim He. rw /execute_scan_query. destruct (scan_sql_reads _ _ _ limit Hk Hne Hs Hlim) as (sql & _ & Hsql & _). rw Hsql.
  change (io_pure (Ok sql) ≫= ?k) with (k sql). cbn. rw /io_read. f_equal. rw /scan_result.
  pose proof (merge_groups order_fields (table_rows files rows_of) (selected order_fields start) limit rows_of (dynamodb_group_files_by_schema files) [] Hk) as Hm.
  simpl in Hm. rw take_nil in Hm. rw -Hm.
  - intros r Hr. by apply elem_of_nil in Hr.
  - intros g r Hg Hr. apply list_elem_of_bind. by exists g.
  - apply foldM_ext. intros acc g Hg. by rw (group_page w files rows_of order_fields start limit sql g).
Qed.

(** ** Pages *)

(** The rows in order, from which the pages are cut. *)
Definition in_key_order (order_fields : list string) (rows : list Object) : list Object := sort_by (sql_row_compare order_fields) rows.

(** Where the page after the first [k] rows starts. *)
Definition start_at (order_fields : list string) (rows : list Object) (k : nat) : option (gmap string Value) :=
  match k with 0 => None | S j => row_key order_fields <$> in_key_order order_fields rows !! j end.

Lemma in_key_order_strict order_fields rows : keyed order_fields rows →
  StronglySorted (λ r s, sql_row_compare order_fields r s = Lt) (in_key_order order_fields rows).
Proof.
  intros [_ Hd Hnd _]. rw /in_key_order. pose proof (sort_by_in_order (sql_row_compare order_fields) rows) as Hs.
  assert (Hnd' : NoDup (sort_by (sql_row_compare order_fields) rows)) by by rw sort_by_perm.
  assert (Hin : ∀ r, r ∈ sort_by (sql_row_compare order_fields) rows → r ∈ rows) by (intros r; by rw elem_of_sort_by).
  induction Hs as [|r l Hl IH Hr]; [constructor|]. apply NoDup_cons in Hnd' as [Hout Hnd']. constructor.
  - apply IH; [done|]. intros s Hs. apply Hin. by right.
  - rw Forall_forall. rw Forall_forall in Hr. intros s Hs. pose proof (Hr s Hs) as Hle. rw /cmp_le in Hle.
    destruct (sql_row_compare order_fields r s) eqn:Hc; [|done|done]. exfalso. apply Hout.
    rw (Hd r s); [apply Hin; left|apply Hin; by right|done|done].
Qed.

(** After the row at [j] come the rows at higher positions. *)
Lemma filter_after order_fields rows j r : keyed order_fields rows → order_fields ≠ [] → in_key_order order_fields rows !! j = Some r →
  List.filter (after_key order_fields (row_key order_fields r)) (in_key_order order_fields rows) = drop (S j) (in_key_order order_fields rows).
Proof.
  intros Hk Hne. pose proof (in_key_order_strict order_fields rows Hk) as Hs. revert j. clear Hk.
  assert (Ha : ∀ s, after_key order_fields (row_key order_fields r) s = match sql_row_compare order_fields s r with Gt => true | _ => false end).
  { intros s. apply after_row; [done|]. intros f. apply row_key_lookup. }
  induction Hs as [|s l Hl IH Hlt]; intros j Hj; [done|]. rw Forall_forall in Hlt. simpl. rw Ha. destruct j as [|j]; simpl in Hj.
  - injection Hj as ->. rw cmp_refl drop_0. apply forallb_filter_id, forallb_forall. intros x Hx%list_elem_of_In. rw Ha.
    by rw (cmp_opp r x) (Hlt x Hx).
  - rw (Hlt r). { by apply list_elem_of_lookup_2 in Hj. } by apply IH.
Qed.

Lemma scan_result_at order_fields rows k limit : keyed order_fields rows → order_fields ≠ [] → k ≤ length rows →
  client_start order_fields rows (start_at order_fields rows k) ∧
  scan_result order_fields (start_at order_fields rows k) limit rows = take limit (drop k (in_key_order order_fields rows)).
Proof.
  intros Hk Hne Hle. rw /scan_result -sort_by_filter. destruct k as [|j]; simpl.
  - split; [by left|]. rw drop_0. f_equal. apply forallb_filter_id. by apply forallb_forall.
  - assert (Hj : j < length (in_key_order order_fields rows)) by (rw /in_key_order sort_by_length; lia).
    apply lookup_lt_is_Some in Hj as [r Hr]. rw Hr /=. split.
    + right. exists r. split; [|done]. apply list_elem_of_lookup_2 in Hr. by rw /in_key_order elem_of_sort_by in Hr.
    + f_equal. by apply filter_after.
Qed.

Lemma row_key_None order_fields r f : f ∉ order_fields → row_key order_fields r !! f = None.
Proof.
  rw /row_key. induction order_fields as [|g fields IH]; [by rw lookup_empty|]. intros [Hne Hf]%not_elem_of_cons. simpl.
  case_match; [rw lookup_insert_ne; [congruence|]|]; by apply IH.
Qed.

(** The key reported for a row comes back as the row's key fields. *)
Lemma reported_key ks ts rows r : keyed (ordered_key_fields ks ts) rows → r ∈ rows →
  ∃ key, row_to_key (VObject r) ks ts = Ok key ∧ parse_exclusive_start_key_map key ks ts = Ok (row_key (ordered_key_fields ks ts) r).
Proof.
  intros [Hcol _ _ Hst] Hr. destruct (DynamoAttrTheory.start_key_roundtrip r ks ts) as (key & parsed & Hk & Hp & Hd & Hl).
  - intros f v Hf%obj_get_elem. pose proof (Hst r Hr) as Hs. rw Forall_forall in Hs. exact (Hs _ Hf).
  - intros f Hf. destruct (Hcol f Hf) as [k Hc]. destruct (Hc r Hr) as (v & -> & _). by eexists.
  - exists key. split; [done|]. rw Hp. f_equal. apply map_eq. intros f. destruct (decide (f ∈ ordered_key_fields ks ts)) as [Hin|Hout].
    + by rw Hl // row_key_lookup.
    + rw row_key_None //. apply not_elem_of_dom. rw Hd. by rw elem_of_list_to_set.
Qed.

Lemma item_exists r : Forall (λ kv, storable kv.2) r → ∃ item, json_row_to_dynamodb_item (VObject r) = Ok item.
Proof.
  intros Hr. rw /json_row_to_dynamodb_item /=. generalize (nil : Object) as item. induction Hr as [|[k v] r Hv _ IH]; intros item; simpl; [by eexists|].
  destruct (is_null v); [apply IH|]. destruct (storable_converts v Hv) as (a & -> & _). apply IH.
Qed.

Lemma items_exist rows : (∀ r, r ∈ rows → Forall (λ kv, storable kv.2) r) → ∃ items, try_collect json_row_to_dynamodb_item (VObject <$> rows) = Ok items.
Proof.
  intros Hr. induction rows as [|r rows IH]; [by eexists|]. simpl. destruct (item_exists r) as [item ->]; [apply Hr; left|].
  destruct IH as [items Hi]; [intros s Hs; apply Hr; by right|]. rw bind_Ok. rw /fmap in Hi. rw Hi. by eexists.
Qed.

(** ** A client that follows [LastEvaluatedKey] *)

Definition with_start (request : ScanRequest) (start : option Object) : ScanRequest :=
  mkScan (s_table_name request) (s_expression_attribute_names request) (s_expression_attribute_values request) (s_projection_expression request)
    (s_limit request) start (s_index_name request) (s_filter_expression request) (s_consistent_read request) (s_select request)
    (s_return_consumed_capacity request).

(** Page after page until one has no [LastEvaluatedKey]. *)
Fixpoint scan_all (fuel : nat) (request : ScanRequest) (start : option Object) : io W (list Object) :=
  match fuel with
  | 0 => io_pure (Panic "more pages")
  | S fuel =>
      page ← handle_scan (with_start request start);
      match qr_last_evaluated_key page with
      | None => mret (qr_items page)
      | Some key => rest ← scan_all fuel request (Some key); mret (qr_items page ++ rest)
      end
  end.

(** What a scan reads is there and as the table's keys say. *)
Record scannable (request : ScanRequest) (w : W) (context : DynamoDbTableContext) (options : ReadOptions) (files : list FileDescriptor)
    (rows_of : list FileDescriptor → list Object) (order_fields : list string) : Prop := {
  sc_loads : load_dynamodb_table_context (s_table_name request) w = (Ok context, w);
  sc_options : read_options (ctx_config context) (s_index_name request) (s_consistent_read request) (s_return_consumed_capacity request)
    (s_projection_expression request) (s_expression_attribute_names request) (s_expression_attribute_values request)
    (s_select request) (s_filter_expression request) = Ok options;
  sc_order : order_fields = ordered_key_fields (qt_key_schema (ro_target options)) (primary_key_schema (ctx_config context));
  sc_files : load_table_files (s_table_name request) w = (Ok files, w);
  sc_keyed : keyed order_fields (table_rows files rows_of);
  sc_engine : engine_scans w files rows_of;
  sc_whole_items : returned_projection options = None ∧ ro_select_mode options ≠ SelectCount;
}.

Lemma ordered_fields_cons ks ts : ordered_key_fields ks ts ≠ [].
Proof. done. Qed.

Lemma page_limit_pos limit : 0 < page_limit limit.
Proof. rw /page_limit. lia. Qed.

(** The start a client sends after [k] rows. *)
Definition sent_start (context : DynamoDbTableContext) (options : ReadOptions) (order_fields : list string) (rows : list Object) (k : nat) (start : option Object) : Prop :=
  match start with
  | None => k = 0
  | Some key => ∃ parsed, parse_exclusive_start_key_map key (qt_key_schema (ro_target options)) (primary_key_schema (ctx_config context)) = Ok parsed ∧
      start_at order_fields rows k = Some parsed
  end.

Lemma io_step {A B} (m : io W A) (k : A → io W B) w a : m w = (Ok a, w) → (m ≫= k) w = k a w.
Proof. rw {1}/mbind /io_bind. by intros ->. Qed.

(** The key reported after [n] of the rows that remain. *)
Lemma page_cut context options order_fields rows k n :
  keyed order_fields rows → order_fields = ordered_key_fields (qt_key_schema (ro_target options)) (primary_key_schema (ctx_config context)) → 0 < n →
  let remaining := drop k (in_key_order order_fields rows) in
  ∃ last_key, scan_page (ro_target options) (primary_key_schema (ctx_config context)) n (VObject <$> take (n + 1) remaining) = Ok (VObject <$> take n remaining, last_key) ∧
    if n <? length remaining then is_some last_key = true ∧ sent_start context options order_fields rows (k + n) last_key else last_key = None.
Proof.
  intros Hk Hord Hn remaining. rw /scan_page length_fmap length_take. destruct (Nat.ltb_spec n (length remaining)) as [Hlt|Hge].
  - rw list_lookup_fmap lookup_take_lt; [lia|].
    destruct (lookup_lt_is_Some_2 remaining (n - 1)) as [r Hr]; [lia|]. rw Hr /=. rw lookup_drop in Hr.
    destruct (reported_key (qt_key_schema (ro_target options)) (primary_key_schema (ctx_config context)) rows r) as (key & Hkey & Hparse); [by rw -Hord| |].
    { apply list_elem_of_lookup_2 in Hr. by rw /in_key_order elem_of_sort_by in Hr. }
    rw Hkey bind_Ok -fmap_take take_take (Nat.min_l n (n + 1)); [lia|]. rw (proj2 (Nat.ltb_lt n ((n + 1) `min` length remaining))); [lia|]. eexists. split; [reflexivity|]. split; [done|]. eexists. split; [exact Hparse|]. rw -Hord.
    rw /start_at. destruct (k + n) as [|j] eqn:Hj; [lia|]. by replace j with (k + (n - 1)) by lia; rw Hr.
  - rw (proj2 (Nat.ltb_ge n ((n + 1) `min` length remaining))); [lia|]. exists None. split; [|done]. do 3 f_equal. rw !take_ge //; lia.
Qed.

(** One page: the rows that follow the start, and the key of the last one while more follow. *)
Lemma scan_page_at request w context options files rows_of order_fields k start items :
  scannable request w context options files rows_of order_fields →
  let rows := table_rows files rows_of in
  let remaining := drop k (in_key_order order_fields rows) in
  let n := page_limit (s_limit request) in
  k ≤ length rows → sent_start context options order_fields rows k start →
  try_collect json_row_to_dynamodb_item (VObject <$> List.filter (row_passes (ro_filter options)) (take n remaining)) = Ok items →
  ∃ page, handle_scan (with_start request start) w = (Ok page, w) ∧ qr_items page = items ∧
    if n <? length remaining
    then is_some (qr_last_evaluated_key page) = true ∧ sent_start context options order_fields rows (k + n) (qr_last_evaluated_key page)
    else qr_last_evaluated_key page = None.
Proof.
  intros [Hctx Hopt Hord Hfiles Hkeyed Heng [Hproj Hcount]] rows remaining n Hk Hstart Hitems.
  assert (Hne : order_fields ≠ []) by (rw Hord; apply ordered_fields_cons).
  destruct (scan_result_at order_fields rows k (n + 1) Hkeyed Hne) as [Hcs Hres]; [lia|].
  destruct (page_cut context options order_fields rows k n Hkeyed Hord) as (last_key & Hcut & Hlast); [apply page_limit_pos|].
  rw /handle_scan (io_step _ _ w _ Hctx). rw (io_step _ _ w options). { by rw /io_pure Hopt. } rw (io_step _ _ w _ Hfiles).
  rw (io_step _ _ w (start_at order_fields rows k)).
  { rw /io_pure. cbn [with_start s_exclusive_start_key]. destruct start as [key|]; simpl in Hstart; [|by rw Hstart].
    destruct Hstart as (parsed & Hp & ->). by rw Hp. }
  rw Hproj -Hord (io_step _ _ w (VObject <$> take (n + 1) remaining)).
  { rw /remaining -Hres. apply execute_scan_spec; [done..| |done]. rw /n /page_limit. lia. }
  rw (io_step _ _ w (VObject <$> take n remaining, last_key)). { by rw /io_pure Hcut. }
  rw /io_pure /page_response apply_filter_rows bind_Ok Hproj /project_rows bind_Ok.
  assert (Hrows : match ro_select_mode options with SelectCount => Ok [] | _ => try_collect json_row_to_dynamodb_item
    (VObject <$> List.filter (row_passes (ro_filter options)) (take n remaining)) end = Ok items) by (by destruct (ro_select_mode options)).
  rw Hrows. eexists. split; [reflexivity|]. by split.
Qed.

Lemma try_collect_app_inv {E A B} (f : A → result E B) l1 l2 ys :
  try_collect f (l1 ++ l2) = Ok ys → ∃ ys1 ys2, try_collect f l1 = Ok ys1 ∧ try_collect f l2 = Ok ys2 ∧ ys = ys1 ++ ys2.
Proof.
  intros H. apply try_collect_Ok, Forall2_app_inv_l in H as (ys1 & ys2 & H1 & H2 & ->). exists ys1, ys2. split_and!; [by apply try_collect_Ok_2..|done].
Qed.

Lemma scan_from request w context options files rows_of order_fields fuel k start items :
  scannable request w context options files rows_of order_fields →
  let rows := table_rows files rows_of in
  k ≤ length rows → length rows - k < fuel → sent_start context options order_fields rows k start →
  try_collect json_row_to_dynamodb_item (VObject <$> List.filter (row_passes (ro_filter options)) (drop k (in_key_order order_fields rows))) = Ok items →
  scan_all fuel request start w = (Ok items, w).
Proof.
  intros Hsc rows. revert k start items. induction fuel as [|fuel IH]; intros k start items Hk Hf Hstart Hitems; [lia|].
  pose proof (page_limit_pos (s_limit request)) as Hn. set (n := page_limit (s_limit request)) in *.
  set (remaining := drop k (in_key_order order_fields rows)) in *.
  rw -(take_drop n remaining) List.filter_app fmap_app in Hitems. apply try_collect_app_inv in Hitems as (items1 & items2 & H1 & H2 & ->).
  destruct (scan_page_at request w context options files rows_of order_fields k start items1 Hsc Hk Hstart H1) as (page & Hpage & <- & Hlast).
  cbn [scan_all]. rw (io_step _ _ w _ Hpage). fold rows n remaining in Hlast.
  assert (Hlen : length remaining = length rows - k) by by rw length_drop sort_by_length.
  destruct (Nat.ltb_spec n (length remaining)) as [Hlt|Hge].
  - destruct Hlast as [Hsome Hsent]. destruct (qr_last_evaluated_key page) as [key|]; [|done].
    rw (io_step _ _ w items2); [|done]. apply (IH (k + n)); [lia|lia|done|]. by rw -drop_drop.
  - rw Hlast. rw drop_ge // in H2. simpl in H2. injection H2 as <-. by rw app_nil_r.
Qed.

End scan.
End DynamoScanTheory.

(** ** Examples *)
Module DynamoScanDemo.
Import DynamoScanTheory FloatTextDemo HashOrderDemo DynamoItemsDemo.

(** An engine that reads the statements and answers them from the rows of a world. *)
Definition objects (l : list Value) : list Object := omap as_object l.
Definition group_rows (w : Memory) (group : list FileDescriptor) : list Object := group ≫= λ f, objects (default [] (mem_files w !! file_path f)).

#[local] Instance demo_engine : SqlEngine Memory := {
  run_sql := λ w group sql,
    match read_scan sql with
    | Some stmt => Ok (VObject <$> take (ss_limit stmt) (sort_by (sql_row_compare (ss_order stmt)) (List.filter (statement_selects stmt) (group_rows w group))))
    | None => internal "unknown statement"
    end;
  value_text := λ v, match v with VString s => s | _ => "" end;
}.

Lemma demo_engine_scans w files : engine_scans w files (group_rows w).
Proof.
  intros group sql stmt _ Hread _ _. eexists. split_and!; [apply sort_by_perm|apply sort_by_in_order, sql_row_total|]. unfold run_sql, demo_engine. by rw Hread.
Qed.

(** Three rows in two files of different schemas. *)
Definition narrow (id : string) : Value := VObject [("id", VString id)].
Definition scan_checkpoint : TableMetadataCheckpoint :=
  mkCheckpoint "t" None "0" (Some (mkIcebergMetadata (demo_infer (row "a" 1)) None
    (mkFileSet ["f0"; "f1"] [demo_infer (row "a" 1); demo_infer (narrow "b")] [0; 1] [1%Z; 1%Z]) [] [] ["id"; "n"] [] [] [])) None None ∅ (demo_infer (row "a" 1)).
Definition scan_world : Memory :=
  mkMemory 1 {["t" := "0"]} {[("t", "0") := scan_checkpoint]} {["f0" := [row "c" 3; row "a" 1]; "f1" := [narrow "b"]]}.
Definition scan_request : ScanRequest := mkScan "t" None None None (Some 1) None None None None None None.
Definition two_files : list FileDescriptor := [mkFile "f0" (demo_infer (row "a" 1)) 1; mkFile "f1" (demo_infer (narrow "b")) 1].
Definition scan_options : ReadOptions :=
  mkReadOptions (mkQueryTarget (mkKeySchema "id" None) true IndexTable None) CapacityNone None AllAttributes (mkParsedFilter None []).
Definition scan_context : DynamoDbTableContext := mkContext demo_description demo_config (demo_infer (row "a" 1)).

(** Cases of membership in a concrete list. *)
Ltac each H := repeat (apply elem_of_cons in H as [->|H]); [..|by apply elem_of_nil in H].

Lemma demo_scannable : scannable scan_request scan_world scan_context scan_options two_files (group_rows scan_world) ["id"].
Proof.
  assert (Hrows : table_rows two_files (group_rows scan_world) = omap as_object [row "c" 3; row "a" 1; narrow "b"]) by (vm_compute; reflexivity).
  split; [vm_compute; reflexivity|vm_compute; reflexivity|vm_compute; reflexivity|vm_compute; reflexivity|..].
  - rw Hrows. split.
    + intros f Hf. each Hf. exists KeyText. intros r Hr. each Hr; by eexists.
    + intros r s Hr Hs. each Hr; each Hs; try done; by intros.
    + apply (NoDup_fmap_1 (λ r, sql_text (obj_get "id" r))). apply (bool_decide_unpack _). vm_compute. exact I.
    + intros r Hr. each Hr; repeat constructor.
  - apply demo_engine_scans.
  - done.
Qed.


Lemma three_pages : (scan_all 4 scan_request None scan_world).1 =
  Ok [[("id", tagged "S" (VString "a")); ("n", tagged "N" (VString "1"))]; [("id", tagged "S" (VString "b"))];
      [("id", tagged "S" (VString "c")); ("n", tagged "N" (VString "3"))]].
Proof. vm_compute. reflexivity. Qed.
End DynamoScanDemo.
